(* ===== verification/_CoqProject ===== *)
-Q . S2P
Prelude.v
Memory.v
OrderedMap.v
RangeMap.v
ContainedRangeMap.v
AddressMap.v
StaticMap.v
SimpleSerializer.v
MapSerializers.v
StaticMaps.v
LibcSupport.v
ConvertUTF.v
Md5.v
Tokens.v
PostfixEvaluator.v
CfiFrameInfo.v
ByteReader.v
DwarfFields.v
DwarfCfi.v
DwarfCfiSpec.v
DwarfCfiSection.v
CStrings.v
DwarfLine.v
DwarfLineSpec.v
SymbolRecords.v
SymbolModule.v
FastResolver.v
SymbolParser.v
SymbolText.v
SymbolLoad.v
SymbolDumper.v
DumpLoad.v
DwarfLineModule.v
DwarfLineAssign.v
DwarfLineLookup.v
DwarfCfiModule.v
DwarfCfiUnwind.v
SymbolImage.v
SymbolResolver.v
ResolverConvert.v
CodeModules.v
SymbolSupplier.v
FrameSymbolizer.v
Stackwalker.v
MemoryRegion.v
StackwalkerAMD64.v
StackwalkerPPC.v
StackwalkerARM.v
StackwalkerMIPS.v
StackwalkerX86.v
StackwalkerCPU.v
StackwalkPipeline.v
MinidumpFile.v
MinidumpContext.v
MinidumpProcess.v
