(* ===== verification/Prelude.v ===== *)
(** * Breakpad's symbol pipeline: a verification library

    The C++ of this repository is Google Breakpad, under
    [src/crash/src/main/cpp/breakpad/src/] (written below without that prefix).
    This library models the part that turns debugging information into stack
    traces: a dumper collects what is known about a module and writes a symbol
    file, in which the DWARF call frame information of the binary becomes unwinding
    rules and its line number programs the lines of the functions; the processor
    reads the threads of a crashed process from a minidump, loads symbol files,
    looks up functions, source lines and unwinding records by address, and
    evaluates the unwinding rules to walk the stacks; a module can
    be serialized and used in place by the fast resolver.  Around it are the
    containers, the string, Unicode and digest code and the DWARF byte reader it
    is built from.

    ** The parts and how they interact

    - [SymbolDumper]: common/module.h and module.cc.  [FindFile], [AddFunction],
      [AddExtern] and [AddStackFrameEntry] collect; [AssignSourceIds] numbers the
      files the lines cite; [Write] makes the text.  [File] objects are shared
      between the module and the lines: they live in a store, a pointer is a
      position.
    - [Tokens], [CStrings], [SymbolParser]: processor/tokenize.cc,
      basic_source_line_resolver.cc ([LoadMapFromMemory] and the record parsers)
      and [ParseFromString] of windows_frame_info.h, on the buffer that
      [strtok_r] cuts in place.  Functions are shared between the module and the
      loop that adds lines to them: they live in a heap too.
      [SymbolText] says what a symbol file means as text, and refines the parser
      to it; [SymbolLoad] has the invariant of the loaded module; [DumpLoad]
      composes [Write] with the parser.
    - [SymbolRecords]: the line, function, public symbol and Windows frame
      records (source_line_resolver_base_types.h, windows_frame_info.h), their
      serializers (simple_serializer-inl.h) and the [CopyFrom] functions that
      read them back (fast_source_line_resolver_types.h), without [is_multiple],
      which is not written.
    - [SymbolModule]: the module of the basic resolver
      (basic_source_line_resolver_types.h) and its three questions,
      [LookupAddress], [FindWindowsFrameInfo] and [FindCFIFrameInfo].
    - [FastResolver]: module_serializer.cc and fast_source_line_resolver.cc, the
      same questions on a serialized module.  [SymbolImage] shows that what the
      parser loads can be serialized.
    - [SymbolResolver]: source_line_resolver_base.cc, the maps of loaded modules,
      corrupt modules and buffers, for any class of modules ([ResolverModule]),
      on a heap that knows which buffers are deleted.  [ResolverConvert] has the
      two classes of modules (module_factory.h) and the conversion of whole
      resolvers and symbol files (module_serializer.cc).
    - [RangeMap], [ContainedRangeMap], [AddressMap]: the containers of a module
      (range_map-inl.h, contained_range_map-inl.h, address_map-inl.h), over
      [OrderedMap], the [std::map] of the sources as a sorted list.
    - [StaticMap], [StaticMaps]: static_map-inl.h, static_map_iterator-inl.h and
      the static versions of the three containers, which search a byte image;
      [SimpleSerializer] and [MapSerializers] (simple_serializer.h,
      map_serializers-inl.h) write that image.  [Memory] is the byte memory.
    - [CfiFrameInfo]: cfi_frame_info.cc and cfi_frame_info-inl.h, the CFI rules
      with their parser, printer and register recovery, which evaluates them with
      [PostfixEvaluator] (postfix_evaluator-inl.h).
    - [CodeModules]: basic_code_module.h and basic_code_modules.cc, the modules
      of a process and the one at an address.
    - [SymbolSupplier]: symbol_supplier.h as a class with laws, and its
      implementation simple_symbol_supplier.cc with pathname_stripper.cc.
    - [FrameSymbolizer]: stack_frame_symbolizer.cc, which loads the symbols of a
      module from the supplier into the resolver when a frame needs them.
    - [Stackwalker]: stackwalker.cc, stackwalker.h and call_stack.cc; [Walk] over
      any CPU that is a [Stackwalker] with [StackwalkerLaws] and any symbolizer
      with [FrameSymbolizerLaws].  The frames live in a heap.
    - [StackwalkerAMD64], [StackwalkerX86], [StackwalkerARM] (arm and arm64),
      [StackwalkerMIPS] (both widths) and [StackwalkerPPC] (ppc, ppc64 and sparc):
      the stackwalker_*.cc of the CPUs, each an instance of those laws.
      [StackwalkerCPU]: dump_context.cc, [StackwalkerForCPU] of stackwalker.cc,
      which makes the walker of a dump's CPU, and stackwalker_address_list.cc.
    - [MemoryRegion]: the [MinidumpMemoryRegion] of minidump.cc, the swapping of
      bytes and the stream below it: the memory a walker reads.
    - [StackwalkPipeline] puts them together, with an example that walks a stack
      in all three ways.
    - [MinidumpFile]: the class [Minidump] of minidump.cc: [Read] reads the header
      and the directory of a file, [GetStream] a stream when it is asked for.  A
      [step] changes the file object and may fail.  The streams here are the
      system information, the memory list and Breakpad's own.
      [MinidumpContext]: the contexts of all CPUs ([MinidumpContext::Read],
      convert_old_arm64_context.cc), the threads and the exception.
      [MinidumpProcess]: what [MinidumpProcessor::Process] finds out about the
      threads, and the body of its loop (minidump_processor.cc), which gives a
      context and memory to [StackwalkerForCPU].
    - [ByteReader]: common/dwarf/bytereader.cc and bytereader-inl.h.
      [DwarfFields] has the encodings of numbers, offsets and addresses that the
      two readers of DWARF sections below share.
    - [DwarfCfi]: the call frame information of common/dwarf/dwarf2reader.cc
      (1776 to 3141): [Start] reads the entries of a .debug_frame or .eh_frame
      section with [ByteReader], a state interprets their instructions, and the
      functions of a [Handler] are told every rule.  [DwarfCfiSpec] says what
      the instructions mean as a table of rules and proves the interpreter right
      for every handler that keeps the contract [RuleHandler]; [DwarfCfiSection]
      does the same for the entries of a section.
    - [DwarfCfiModule]: common/dwarf_cfi_to_module.cc, a handler that keeps the
      contract: it adds what it is told to a [SymbolDumper] module.
      [DwarfCfiUnwind] follows the rules from there through the symbol file and
      the basic resolver to [CfiFrameInfo].
    - [DwarfLine]: the line number programs of common/dwarf/dwarf2reader.cc (1075
      to 1603): [Start] reads the header of a unit of .debug_line, its directories
      and files, and runs its program with [ProcessOneOpcode]; a
      [LineInfoHandler] is told the directories, files and lines.
      [DwarfLineSpec] says what a program means as a table of rows and proves the
      reader right for every handler.
    - [DwarfLineModule]: common/dwarf_line_to_module.cc, the handler that finds
      the files of a unit in its [SymbolDumper] module and collects the lines,
      and [ReadProgram] of common/linux/dump_symbols.cc.  [DwarfLineAssign]: the
      end of a compilation unit in common/dwarf_cu_to_module.cc (998 to 1322),
      which reads the lines, gives them to the functions of the unit and adds
      these to the module.  [DwarfLineLookup] follows a line from the program
      through the symbol file to the frame that [LookupAddress] fills in.
    - [LibcSupport], [ConvertUTF], [Md5]: linux_libc_support.cc, convert_UTF.cc
      and md5.cc of common/.

    A record has the members of its class, an operation is a function from the
    state to the new state and the result, and a virtual interface is a type
    class ([SerializerLaws] for the serializers, [ResolverModuleLaws] for the
    modules of a resolver, [SymbolSupplierLaws], [FrameSymbolizerLaws] and
    [StackwalkerLaws] for the parts of a walk, [RuleHandler] for the handlers of
    call frame information, [LineInfoHandler] for those of line numbers,
    [StdSort] for [std::sort], [KeyType] for the keys of the static maps, [KeyOrder]
    for the orders of [std::map]) whose laws the instances prove and the clients
    use.

    ** Conventions

    Machine integers are [Z] with their width: every operation that can wrap is
    written with [wrap] or [swrap].  [outcome] (below) separates executions the
    C++ standard does not define, or that abort, from the others: [Undef] is a
    read or write outside its buffer, a NULL dereference, a division by zero, a
    signed overflow, a failed [assert].  A theorem that an operation returns [Ok]
    therefore says that none of them happens.  A pointer into a buffer is an
    offset; a [char*] that is read only is its list of characters; an iterator is
    a position.  Failure that the code reports ([false], NULL) is [false] or
    [None].

    ** What the theorems show

    - The pipeline.  [DumpLoad]: what [Write] produces is loaded without an error
      into exactly the module that was dumped.  [SymbolLoad]: loading does what
      the lines of the file say, always returns, and leaves the invariant
      [module_wf].  [SymbolModule]: under that
      invariant the three questions are answered as specified ([symbolized] and
      its companions).  [FastResolver]: serializing a module and loading the image
      gives the same answers.
    - The resolvers.  [SymbolResolver]: by rule induction over the calls of a
      resolver and the steps of the owner of the buffers passed to it, no buffer
      is used or deleted after its deletion and none is lost, and the resolver is
      a map from code files to modules.  [ResolverConvert]: a converted resolver,
      and the image of a symbol file, give the answers of the original.
    - The containers.  Every store terminates, keeps the invariant, accepts
      exactly the ranges it should and changes the retrieved entries as its
      strategy says; retrieval finds the right entry; the static versions refine
      the dynamic ones on the image the serializer wrote.
    - Unwinding.  The evaluator computes the value of postfix expressions, for
      which [denote] gives a meaning of its own, and runs
      programs, and is safe on any text, exactly but for the division of a value
      by zero and the assignment of a value to a negative literal; CFI rules survive printing and parsing,
      and [FindCallerRegs] and [FindCallerRegisters] recover what the rules say.
    - Walking.  [Walk] terminates with a call stack that is owned once and whose
      stack pointers rise, for every CPU and symbolizer that keep their contracts;
      the AMD64 walker keeps its contract and, but for Native Client, follows a
      chain of frame pointers exactly.  [StackwalkerForCPU_walks]: so does the walker of every CPU, if the
      Windows frame data cannot make the evaluator undefined on x86, and if no CFI
      rules are used on ARM, where [ARM_context_frame_out_of_bounds] shows the
      walker to read past its registers; an address list is walked to its end
      ([address_list_walk]).  The symbolizer asks its supplier once for a module and never uses a
      freed buffer; the supplier finds the first file; a memory region answers
      words from the bytes of the dump.  [walk_crash_total] composes them: for
      symbol files whose STACK lines go on after their platform and whose CFI
      rules have no token [/], [%] or [=], no dump makes the AMD64 walk
      undefined.
    - Minidumps.  [Minidump_Read_functional]: a file is read exactly when it is a
      minidump of either byte order, with its header and directory.
      [MemoryList_functional]: the regions of a memory list are read as they were
      written and found by address, and exactly the lists with too many regions or
      an empty, wrapping or overlapping one are refused.  The invariant [dump_ok] holds after any calls
      on any file, so that [minidump_safe] can compose them with the walkers: no
      bytes make a call undefined, and every thread of the dump is skipped,
      refused or given a walker whose walks return when its symbols are usable:
      without CFI rules for an ARM context, and on x86 without Windows programs
      that could divide or negate.
      [ppc64_without_cpu] and [old_flags_all_set] show what two branches do with
      the flags of a context.
    - The dumper.  Rule induction over the calls of a dumper gives the invariant
      of its module, and every call its effect.
    - Call frame information.  [Start_functional]: for a well-formed section the
      calls a handler gets for a function tabulate, at every location, the row the
      instructions define.  [DwarfCFIToModule_functional]: with Breakpad's handler
      that table becomes the STACK CFI entry of the function, when all its rules
      can be expressed there and no name stands for two registers (as on ARM).
      [DWARF_unwinding]
      composes them with the symbol file, the parser and the evaluator: a frame
      is unwound as the row of DWARF's table says, unless the row leaves the
      return address in its register ([same_value_return_address]).
    - Line numbers.  [LineInfo_functional]: from a unit of version 2 to 5, but for
      the constructs listed at [unit_bytes], a handler
      is told the directories, the files and the lines of the table its program
      defines.  [ReadProgram_functional]: which paths and lines Breakpad's handler
      makes of them, and which sequences it drops.
      [AssignLinesToFunctions_functional]: every address of a function gets the
      line that covers it, even when lines or ranges overlap.  [DWARF_lines]
      composes them with the symbol file and the parser: a frame gets the file
      and line of its row, if the object has no .debug_line_str section (with
      one, no line is read: [debug_line_str_ignored]).  [define_file_overcounts] and [ReadLines_hangs] show
      what goes wrong on instructions no current compiler makes.
    - The rest.  Round trips of the byte reader, LEB128 to the last bit, the
      conversions against the Unicode standard (those from UTF-8 but for the
      sequences [loose_pair] that they accept by mistake), MD5 against RFC 1321, the libc
      replacements against the functions they replace.

    ** Fuel

    A recursion that is not structural takes fuel and returns [Undef] without it,
    so that a theorem that it returns [Ok] shows the fuel to be enough.
    [StoreRangeInternal] recurses at most once for every stored range and
    [store_fuel] is three more than their number; the contained map goes down its
    height; the binary search of [StaticMap] halves its interval, which has at
    most as many elements as the map; the parser's loops over tokens and lines
    make one round for every character of the text at most, and take its length;
    64 digits are more than any 64-bit number has; a walk adds a frame in every
    round and ends at [max_frames + 1]; a scan advances by a word, so
    the one of MIPS takes the words of the memory and the search of x86 for a
    frame pointer the words below its start; an instruction
    of a CFI entry takes a byte at least, so the interpreter takes the number of
    bytes of the instructions, and an entry of a section takes its length field,
    so [Start] takes the length of the section; an instruction of a line number
    program takes a byte at least too, so [ReadLines] takes the number of bytes
    of the memory; a range and a line have two ends, and
    [AssignLinesToFunctions] stops at each once.

    ** Assumptions

    The file system is a parameter: the size [stat] reports and what the stream
    yields.  What a new buffer holds is a parameter too.
    The width of [long] is the parameter [lw] of the parser (32 or 64); the rest
    is for a 64-bit little-endian host.  The stream [Write] writes to does not
    fail.  [strtok_r], [strtoul], [strtoull], [strtol], [std::map], [std::set] and
    the streams are modelled after the C and C++ standards, for the C locale.  A
    symbol file is loaded without undefined behaviour if every STACK line goes on
    after its platform; [SymbolLoad] shows what happens otherwise.

    ** Not modelled

    - network_source_line_resolver.cc and module_comparer.cc.
    - The other streams of a minidump (modules, unloaded modules, misc info, memory
      info, Linux maps, Crashpad, assertions), the strings and the printers of
      minidump.cc, the description of the crash and of the CPU in
      minidump_processor.cc, the microdumps, the exploitability engines (which
      sit on a third-party disassembler) and the report printers.
    - The DWARF readers of compilation units, abbreviations, debugging
      information entries and range lists (dwarf2reader.cc up to 1074 and 1605 to
      1775), the texts of its reporter (3143 to the end), the handlers that make
      functions from entries (dwarf_cu_to_module.cc up to 997), the stabs, ELF and
      Mach-O readers of common/, and the dumpers that drive them into
      [SymbolDumper].
    - The clients (client/), which install signal handlers, trace processes and
      call the operating system; the upload tools; the test programs.
    - Logging, the freeing of memory other than the buffers of the resolvers and
      suppliers and the frames of call stacks, and the locale of the streams.
    - The vendored bzip2 of src/app, the JNI glue and the Android applications. *)

From stdpp Require Export base numbers list sets strings.
From Stdlib Require Export ZArith Lia Bool.
From Stdlib Require Export Ascii.
#[global] Open Scope Z_scope.

(** ** Machine integers

    A [w]-bit unsigned integer is a [Z] in [0, 2^w); every operation that can
    wrap is written with [wrap w] around it. *)

Definition wrap (w z : Z) : Z := z mod 2 ^ w.

(** The two's-complement reading of the low [w] bits of [z]. *)
Definition swrap (w z : Z) : Z := (z + 2 ^ (w - 1)) mod 2 ^ w - 2 ^ (w - 1).

Declare Scope word_scope.
Delimit Scope word_scope with word.
Notation "a '+[' w ] b" := (wrap w (a + b)) (at level 50, left associativity) : word_scope.
Notation "a '-[' w ] b" := (wrap w (a - b)) (at level 50, left associativity) : word_scope.
Notation "a '*[' w ] b" := (wrap w (a * b)) (at level 40, left associativity) : word_scope.
#[global] Open Scope word_scope.

(** [uint w z]: [z] is the value of a [w]-bit unsigned integer. *)
Definition uint (w z : Z) : Prop := 0 <= z < 2 ^ w.
#[global] Hint Unfold uint : core.

Lemma wrap_small w z : uint w z -> wrap w z = z.
Proof. intros H. apply Z.mod_small, H. Qed.

Lemma wrap_uint w z : 0 <= w -> uint w (wrap w z).
Proof. intros H. apply Z.mod_pos_bound. lia. Qed.

Lemma wrap_over w z : 2 ^ w <= z < 2 * 2 ^ w -> wrap w z = z - 2 ^ w.
Proof.
  intros H. unfold wrap. symmetry.
  apply (Z.mod_unique_pos _ _ 1); lia.
Qed.

Lemma wrap_under w z : - 2 ^ w <= z < 0 -> wrap w z = z + 2 ^ w.
Proof.
  intros H. unfold wrap. symmetry.
  apply (Z.mod_unique_pos _ _ (-1)); lia.
Qed.

Lemma wrap_wrap w z : wrap w (wrap w z) = wrap w z.
Proof. unfold wrap. apply Zmod_mod. Qed.

Lemma wrap_add_l w a b : wrap w (wrap w a + b) = wrap w (a + b).
Proof. unfold wrap. apply Zplus_mod_idemp_l. Qed.

Lemma wrap_add_r w a b : wrap w (a + wrap w b) = wrap w (a + b).
Proof. unfold wrap. apply Zplus_mod_idemp_r. Qed.

Lemma wrap_sub_l w a b : wrap w (wrap w a - b) = wrap w (a - b).
Proof. unfold wrap. apply Zminus_mod_idemp_l. Qed.

Lemma wrap_sub_r w a b : wrap w (a - wrap w b) = wrap w (a - b).
Proof. unfold wrap. apply Zminus_mod_idemp_r. Qed.

Lemma wrap_mul_l w a b : wrap w (wrap w a * b) = wrap w (a * b).
Proof. unfold wrap. apply Zmult_mod_idemp_l. Qed.

Lemma wrap_mul_r w a b : wrap w (a * wrap w b) = wrap w (a * b).
Proof. unfold wrap. apply Zmult_mod_idemp_r. Qed.

Lemma swrap_small w z : 0 < w -> - 2 ^ (w - 1) <= z < 2 ^ (w - 1) -> swrap w z = z.
Proof.
  intros Hw Hz. unfold swrap. rewrite Z.mod_small; [lia|].
  assert (2 ^ w = 2 * 2 ^ (w - 1)) as ->; [|lia].
  rewrite <- Z.pow_succ_r by lia. f_equal. lia.
Qed.

Lemma swrap_range w z : 0 < w -> - 2 ^ (w - 1) <= swrap w z < 2 ^ (w - 1).
Proof.
  intros Hw. unfold swrap. assert (2 ^ w = 2 * 2 ^ (w - 1)) as E.
  { rewrite <- Z.pow_succ_r by lia. f_equal. lia. }
  pose proof (Z.mod_pos_bound (z + 2 ^ (w - 1)) (2 ^ w)) as Hm.
  assert (0 < 2 ^ (w - 1)) by (apply Z.pow_pos_nonneg; lia). lia.
Qed.

Lemma swrap_wrap w z : swrap w (wrap w z) = swrap w z.
Proof. unfold swrap, wrap. by rewrite Zplus_mod_idemp_l. Qed.

(** ** Outcomes

    [Undef] is an execution whose behaviour the C++ standard leaves undefined
    or that stops the process (a null dereference, a read past the buffer, a
    division by zero, a failed [assert]). *)

Inductive outcome (A : Type) : Type :=
| Ok (a : A)
| Undef.
Arguments Ok {A} a.
Arguments Undef {A}.

Definition obind {A B} (m : outcome A) (f : A -> outcome B) : outcome B :=
  match m with Ok a => f a | Undef => Undef end.

Declare Scope outcome_scope.
Delimit Scope outcome_scope with outcome.
Notation "'let?' x ':=' m 'in' k" := (obind m (fun x => k))
  (at level 10, x pattern, k at level 200) : outcome_scope.
#[global] Open Scope outcome_scope.

Definition of_option {A} (o : option A) : outcome A :=
  match o with Some a => Ok a | None => Undef end.

Lemma obind_Ok {A B} (m : outcome A) (f : A -> outcome B) b :
  obind m f = Ok b -> exists a, m = Ok a /\ f a = Ok b.
Proof. destruct m; simpl; [eauto | discriminate]. Qed.

#[global] Instance outcome_eq_dec `{EqDecision A} : EqDecision (outcome A).
Proof. solve_decision. Defined.

(** ** Bytes and little-endian integers *)

Abbreviation byte_list := (list Z).

Definition bytes_ok (bs : byte_list) : Prop := Forall (uint 8) bs.

(** The [n] low bytes of [z], least significant first. *)
Fixpoint le_bytes (n : nat) (z : Z) : byte_list :=
  match n with
  | O => []
  | S n' => wrap 8 z :: le_bytes n' (Z.shiftr z 8)
  end.

Fixpoint le_val (bs : byte_list) : Z :=
  match bs with
  | [] => 0
  | b :: bs' => b + 256 * le_val bs'
  end.

Lemma length_le_bytes n z : length (le_bytes n z) = n.
Proof. revert z; induction n; intros; simpl; auto. Qed.

Lemma le_bytes_ok n z : bytes_ok (le_bytes n z).
Proof.
  revert z; induction n; intros; simpl; constructor; [|apply IHn].
  apply wrap_uint; lia.
Qed.

Lemma le_val_le_bytes n z : le_val (le_bytes n z) = wrap (8 * Z.of_nat n) z.
Proof.
  revert z; induction n as [|n IH]; intros z.
  - simpl. unfold wrap. change (2 ^ (8 * Z.of_nat 0)) with 1. symmetry. apply Z.mod_1_r.
  - cbn [le_bytes le_val]. rewrite IH. unfold wrap.
    replace (8 * Z.of_nat (S n)) with (8 + 8 * Z.of_nat n) by lia.
    rewrite Z.pow_add_r by lia. rewrite Z.shiftr_div_pow2 by lia.
    change 256 with (2 ^ 8). rewrite Z.rem_mul_r; lia.
Qed.

Lemma le_val_bound bs : bytes_ok bs -> 0 <= le_val bs < 2 ^ (8 * Z.of_nat (length bs)).
Proof.
  induction 1 as [|b bs Hb H IH]; [simpl; lia|].
  cbn [le_val length].
  replace (8 * Z.of_nat (S (length bs))) with (8 + 8 * Z.of_nat (length bs)) by lia.
  rewrite Z.pow_add_r by lia. unfold uint in Hb. lia.
Qed.

Lemma le_bytes_le_val bs : bytes_ok bs -> le_bytes (length bs) (le_val bs) = bs.
Proof.
  induction 1 as [|b bs Hb H IH]; [done|]. cbn [le_val length le_bytes].
  f_equal.
  - unfold wrap, uint in *. change (2 ^ 8) with 256 in *.
    rewrite Z.mul_comm, Z_mod_plus_full. by apply Z.mod_small.
  - rewrite Z.shiftr_div_pow2 by lia. unfold uint in Hb. change (2 ^ 8) with 256 in *.
    rewrite Z.mul_comm, Z.div_add by lia. rewrite Z.div_small by done. apply IH.
Qed.

(** ** Reading a memory image *)

(** The [n] bytes at offset [off]; [Undef] when the image is shorter. *)
Definition read_bytes (mem : byte_list) (off n : nat) : outcome byte_list :=
  if decide (off + n <= length mem)%nat then Ok (take n (drop off mem)) else Undef.

Definition read_le (mem : byte_list) (off n : nat) : outcome Z :=
  let? bs := read_bytes mem off n in Ok (le_val bs).

Lemma read_bytes_app l m r off n :
  length l = off -> length m = n -> read_bytes (l ++ m ++ r) off n = Ok m.
Proof.
  intros <- <-. unfold read_bytes. rewrite !length_app, decide_True by lia.
  by rewrite drop_app_length, take_app_length.
Qed.

Lemma read_le_app l z r off n :
  length l = off -> uint (8 * Z.of_nat n) z ->
  read_le (l ++ le_bytes n z ++ r) off n = Ok z.
Proof.
  intros Hl Hz. unfold read_le.
  rewrite (read_bytes_app _ _ _ off n) by (auto using length_le_bytes). simpl.
  by rewrite le_val_le_bytes, wrap_small.
Qed.

(** ** Lists *)

Section lists.
Context {A : Type}.
Implicit Types (l : list A) (f : A -> bool).

(** The length of the longest prefix whose elements satisfy [f]. *)
Fixpoint prefix_len f l : nat :=
  match l with
  | [] => O
  | x :: l' => if f x then S (prefix_len f l') else O
  end.

Lemma prefix_len_le f l : (prefix_len f l <= length l)%nat.
Proof. induction l as [|x l IH]; simpl; [lia|]. destruct (f x); lia. Qed.

Lemma prefix_len_take f l : Forall (fun x => f x = true) (take (prefix_len f l) l).
Proof.
  induction l as [|x l IH]; simpl; [constructor|].
  destruct (f x) eqn:E; simpl; constructor; auto.
Qed.

Lemma prefix_len_at f l x : l !! prefix_len f l = Some x -> f x = false.
Proof.
  induction l as [|y l IH]; simpl; [done|].
  destruct (f y) eqn:E; simpl; [apply IH|]. by intros [= ->].
Qed.

Lemma prefix_len_app f l1 l2 :
  Forall (fun x => f x = true) l1 ->
  prefix_len f (l1 ++ l2) = (length l1 + prefix_len f l2)%nat.
Proof. induction 1 as [|x l1 E H IH]; simpl; [done|]. by rewrite E, IH. Qed.

Lemma prefix_len_stop f l :
  Forall (fun x => f x = false) l -> prefix_len f l = 0%nat.
Proof. destruct 1 as [|x l E H]; simpl; [done|]. by rewrite E. Qed.

Lemma prefix_len_split f l1 l2 :
  Forall (fun x => f x = true) l1 -> Forall (fun x => f x = false) l2 ->
  prefix_len f (l1 ++ l2) = length l1.
Proof. intros H1 H2. rewrite prefix_len_app, prefix_len_stop; auto. Qed.

Lemma prefix_len_ext f g l :
  Forall (fun x => f x = g x) l -> prefix_len f l = prefix_len g l.
Proof. induction 1 as [|x l E H IH]; simpl; [done|]. rewrite E, IH. done. Qed.
End lists.

Lemma filter_none {A} (P : A -> Prop) `{forall x, Decision (P x)} (l : list A) :
  Forall (fun x => ~ P x) l -> filter P l = [].
Proof. induction 1 as [|x l Hx _ IH]; [done|]. by rewrite filter_cons_False. Qed.

Lemma filter_iff {A} (P Q : A -> Prop) `{forall x, Decision (P x)} `{forall x, Decision (Q x)} (l : list A) :
  Forall (fun x => P x <-> Q x) l -> filter P l = filter Q l.
Proof.
  induction 1 as [|x l Hx _ IH]; [done|]. rewrite !filter_cons, IH.
  by destruct (decide (P x)), (decide (Q x)); try tauto.
Qed.

(** The characters of a C string before its terminator. *)
Definition no_nul (s : list Z) : Prop := Forall (fun c => c <> 0) s.

(** ** Automation *)

Create HintDb s2p discriminated.
#[export] Hint Resolve wrap_uint le_bytes_ok length_le_bytes prefix_len_le : s2p.

(** Case analysis on the boolean comparisons in the goal and the hypotheses. *)
Ltac bool_cases :=
  repeat match goal with
  | |- context [?a <? ?b] => destruct (Z.ltb_spec a b)
  | |- context [?a <=? ?b] => destruct (Z.leb_spec a b)
  | |- context [?a =? ?b] => destruct (Z.eqb_spec a b)
  | H : context [?a <? ?b] |- _ => destruct (Z.ltb_spec a b)
  | H : context [?a <=? ?b] |- _ => destruct (Z.leb_spec a b)
  | H : context [?a =? ?b] |- _ => destruct (Z.eqb_spec a b)
  end; simpl in *.

(** Turns boolean hypotheses into propositions on [Z]. *)
Ltac to_prop :=
  repeat match goal with
  | H : (_ && _) = true |- _ => apply andb_true_iff in H as [? ?]
  | H : (_ || _) = false |- _ => apply orb_false_iff in H as [? ?]
  | H : negb _ = true |- _ => apply negb_true_iff in H
  | H : negb _ = false |- _ => apply negb_false_iff in H
  | H : (_ <? _) = true |- _ => apply Z.ltb_lt in H
  | H : (_ <? _) = false |- _ => apply Z.ltb_ge in H
  | H : (_ <=? _) = true |- _ => apply Z.leb_le in H
  | H : (_ <=? _) = false |- _ => apply Z.leb_gt in H
  | H : (_ =? _) = true |- _ => apply Z.eqb_eq in H
  | H : (_ =? _) = false |- _ => apply Z.eqb_neq in H
  end.

Lemma Forall2_elem_l {A B} (P : A -> B -> Prop) l k x :
  Forall2 P l k -> x ∈ l -> exists y, y ∈ k /\ P x y.
Proof.
  intros Hf (i & Hi)%list_elem_of_lookup. destruct (Forall2_lookup_l _ _ _ _ _ Hf Hi) as (y & Hy & HP).
  exists y. split; [by eapply list_elem_of_lookup_2|done].
Qed.

Lemma Forall2_elem_r {A B} (P : A -> B -> Prop) l k y :
  Forall2 P l k -> y ∈ k -> exists x, x ∈ l /\ P x y.
Proof.
  intros Hf (i & Hi)%list_elem_of_lookup. destruct (Forall2_lookup_r _ _ _ _ _ Hf Hi) as (x & Hx & HP).
  exists x. split; [by eapply list_elem_of_lookup_2|done].
Qed.
