(* ===== verification/Memory.v ===== *)
(** * Byte memory

    The buffers the serializers write and the static maps read: a list of
    bytes, with a pointer being an offset into it.  Reading or writing outside
    the buffer is [Undef].  Reasoning is by what a region holds ([holds]) and
    what an operation leaves alone ([same_on]). *)

From S2P Require Import Prelude.
#[local] Open Scope Z_scope.

Definition read_at (mem : byte_list) (ptr : Z) (n : nat) : outcome Z :=
  if ptr <? 0 then Undef else read_le mem (Z.to_nat ptr) n.

Definition write_at (mem : byte_list) (ptr : Z) (bs : byte_list) : outcome byte_list :=
  if decide (0 <= ptr /\ ptr + Z.of_nat (length bs) <= Z.of_nat (length mem)) then
    let p := Z.to_nat ptr in Ok (take p mem ++ bs ++ drop (p + length bs) mem)
  else Undef.

(** [mem] has the bytes [bs] at [ptr]. *)
Definition holds (mem : byte_list) (ptr : Z) (bs : byte_list) : Prop :=
  0 <= ptr /\ ptr + Z.of_nat (length bs) <= Z.of_nat (length mem) /\
  forall i b, bs !! i = Some b -> mem !! (Z.to_nat ptr + i)%nat = Some b.

(** The two memories agree at the addresses in [P]. *)
Definition same_on (P : Z -> Prop) (mem mem' : byte_list) : Prop :=
  length mem' = length mem /\ forall i : nat, P (Z.of_nat i) -> mem' !! i = mem !! i.

Definition beyond (lo hi : Z) : Z -> Prop := fun a => a < lo \/ hi <= a.
Definition region (lo hi : Z) : Z -> Prop := fun a => lo <= a < hi.

Lemma same_on_refl P mem : same_on P mem mem.
Proof. done. Qed.

Lemma same_on_trans (P Q R : Z -> Prop) m1 m2 m3 :
  same_on P m1 m2 -> same_on Q m2 m3 -> (forall a, R a -> P a /\ Q a) -> same_on R m1 m3.
Proof.
  intros [L1 H1] [L2 H2] HR. split; [congruence|]. intros i [HP HQ]%HR.
  rewrite H2 by done. auto.
Qed.

Lemma same_on_mono (P Q : Z -> Prop) m1 m2 :
  same_on P m1 m2 -> (forall a, Q a -> P a) -> same_on Q m1 m2.
Proof. intros [L H] HQ. split; auto. Qed.

(** [mem'] still has what [mem] has in [P]; it may be longer. *)
Definition keeps_on (P : Z -> Prop) (mem mem' : byte_list) : Prop :=
  (length mem <= length mem')%nat /\
  forall (i : nat) b, P (Z.of_nat i) -> mem !! i = Some b -> mem' !! i = Some b.

Lemma keeps_on_mono (P Q : Z -> Prop) m1 m2 :
  keeps_on P m1 m2 -> (forall a, Q a -> P a) -> keeps_on Q m1 m2.
Proof. intros [L H] HQ. split; auto. Qed.

Lemma same_keeps (P Q : Z -> Prop) m1 m2 :
  same_on P m1 m2 -> (forall a, Q a -> P a) -> keeps_on Q m1 m2.
Proof. intros [L H] HQ. split; [lia|]. intros i b Hi Hb. by rewrite H by auto. Qed.

Lemma keeps_on_app P mem rest : keeps_on P mem (mem ++ rest).
Proof. split; [rewrite length_app; lia|]. intros i b _. apply lookup_app_l_Some. Qed.

Lemma holds_same mem mem' ptr bs :
  holds mem ptr bs -> keeps_on (region ptr (ptr + Z.of_nat (length bs))) mem mem' ->
  holds mem' ptr bs.
Proof.
  intros (Hp & Hl & Hb) [HL HS]. split; [done|]. split; [lia|].
  intros i b Hi. apply HS; [|by apply Hb]. apply lookup_lt_Some in Hi. unfold region. lia.
Qed.

Lemma holds_eq mem p q bs : holds mem p bs -> p = q -> holds mem q bs.
Proof. by intros H <-. Qed.

Lemma holds_take mem ptr bs :
  holds mem ptr bs -> take (length bs) (drop (Z.to_nat ptr) mem) = bs.
Proof.
  intros (Hp & Hl & Hb). apply list_eq_same_length with (n := length bs); [done| |].
  - rewrite length_take, length_drop. lia.
  - intros i x y Hi Hx Hy. apply Hb in Hy. rewrite lookup_take_lt, lookup_drop in Hx by done.
    congruence.
Qed.

Lemma read_at_holds mem ptr bs :
  holds mem ptr bs -> read_at mem ptr (length bs) = Ok (le_val bs).
Proof.
  intros Hh. pose proof (holds_take _ _ _ Hh) as Ht. destruct Hh as (Hp & Hl & _).
  unfold read_at, read_le, read_bytes. rewrite (proj2 (Z.ltb_ge _ _)) by lia.
  rewrite decide_True by lia. cbn [obind]. by rewrite Ht.
Qed.

Lemma read_at_le mem ptr n z :
  holds mem ptr (le_bytes n z) -> read_at mem ptr n = Ok (wrap (8 * Z.of_nat n) z).
Proof.
  intros Hh%read_at_holds. by rewrite length_le_bytes, le_val_le_bytes in Hh.
Qed.

Lemma holds_app mem ptr bs1 bs2 :
  holds mem ptr (bs1 ++ bs2) <->
  holds mem ptr bs1 /\ holds mem (ptr + Z.of_nat (length bs1)) bs2.
Proof.
  unfold holds. rewrite length_app. split.
  - intros (Hp & Hl & Hb). split; (split; [lia|]; split; [lia|]); intros i b Hi.
    + apply Hb. by apply lookup_app_l_Some.
    + replace (Z.to_nat (ptr + Z.of_nat (length bs1)) + i)%nat
        with (Z.to_nat ptr + (length bs1 + i))%nat by lia.
      apply Hb. rewrite lookup_app_r by lia. by replace (length bs1 + i - length bs1)%nat with i by lia.
  - intros [(Hp & Hl1 & Hb1) (_ & Hl2 & Hb2)]. split; [done|]. split; [lia|].
    intros i b [Hi|[Hge Hi]]%lookup_app_Some; [by apply Hb1|]. apply Hb2 in Hi.
    rewrite <- Hi. f_equal. lia.
Qed.

Lemma write_at_spec mem ptr bs :
  0 <= ptr -> ptr + Z.of_nat (length bs) <= Z.of_nat (length mem) ->
  exists mem', write_at mem ptr bs = Ok mem' /\ holds mem' ptr bs /\
    same_on (beyond ptr (ptr + Z.of_nat (length bs))) mem mem'.
Proof.
  intros Hp Hl. unfold write_at. rewrite decide_True by done. eexists. split; [done|].
  set (p := Z.to_nat ptr). assert (length (take p mem) = p) as Lt by (rewrite length_take; lia).
  assert (length (take p mem ++ bs ++ drop (p + length bs) mem) = length mem) as L.
  { rewrite !length_app, Lt, length_drop. lia. }
  split.
  - split; [done|]. rewrite L. split; [done|]. intros i b Hi. fold p.
    rewrite lookup_app_r by lia. rewrite Lt.
    replace (p + i - p)%nat with i by lia. by apply lookup_app_l_Some.
  - split; [done|]. intros i Hi. unfold beyond in Hi.
    destruct (decide (i < p)%nat) as [Hlt|Hge].
    + rewrite lookup_app_l by lia. by rewrite lookup_take_lt.
    + rewrite lookup_app_r, Lt by lia. rewrite lookup_app_r by lia.
      rewrite lookup_drop. f_equal. lia.
Qed.

Lemma write_at_Undef mem ptr bs :
  Z.of_nat (length mem) < ptr + Z.of_nat (length bs) -> write_at mem ptr bs = Undef.
Proof. intros H. unfold write_at. rewrite decide_False by lia. done. Qed.

Lemma read_at_same mem mem' ptr n v :
  read_at mem ptr n = Ok v -> keeps_on (region ptr (ptr + Z.of_nat n)) mem mem' ->
  read_at mem' ptr n = Ok v.
Proof.
  unfold read_at, read_le, read_bytes. destruct (Z.ltb_spec ptr 0) as [|Hp]; [done|].
  intros Hr [HL HS]. destruct (decide (Z.to_nat ptr + n <= length mem)%nat) as [Hd|]; [|done].
  rewrite decide_True by lia. cbn [obind] in Hr |- *. rewrite <- Hr. do 2 f_equal. apply list_eq. intros i.
  destruct (decide (i < n)%nat) as [Hi|Hi]; [|by rewrite !lookup_take_ge by lia].
  rewrite !lookup_take_lt, !lookup_drop by done.
  destruct (lookup_lt_is_Some_2 mem (Z.to_nat ptr + i)) as [b Hb]; [lia|].
  rewrite Hb. apply HS; [|done]. unfold region. lia.
Qed.

(** Discharges the inclusion side conditions of the lemmas above. *)
Ltac regions := unfold beyond, region in *; intros; lia.
