(* ===== verification/OrderedMap.v ===== *)
(** * std::map

    The ordered associative container of the C++ standard library, as the
    sources use it: a list of key/value pairs with strictly increasing keys.
    An iterator is the position of its element; [end()] is the length of the
    list.  [insert] keeps an element that is already there, [assign]
    ([operator[]] on the left of an assignment) overwrites it. *)

From stdpp Require Export sorting.
From S2P Require Import Prelude.

(** ** Key orders *)

Class KeyOrder (K : Type) := {
  key_lt : K -> K -> bool;
  key_lt_irrefl k : key_lt k k = false;
  key_lt_trans k1 k2 k3 : key_lt k1 k2 = true -> key_lt k2 k3 = true -> key_lt k1 k3 = true;
  key_lt_total k1 k2 : key_lt k1 k2 = false -> key_lt k2 k1 = false -> k1 = k2;
}.

#[export] Instance Z_key_order : KeyOrder Z.
Proof.
  refine {| key_lt := Z.ltb |}; intros; rewrite ?Z.ltb_lt, ?Z.ltb_ge in *; lia.
Defined.

Lemma Z_key_lt (a b : Z) : key_lt a b = (a <? b).
Proof. reflexivity. Qed.

Lemma ascii_compare_lt (a b : ascii) :
  Ascii.compare a b = Lt <-> (Ascii.N_of_ascii a < Ascii.N_of_ascii b)%N.
Proof. unfold Ascii.compare. apply N.compare_lt_iff. Qed.

Lemma string_compare_trans s1 s2 s3 :
  String.compare s1 s2 = Lt -> String.compare s2 s3 = Lt -> String.compare s1 s3 = Lt.
Proof.
  revert s2 s3; induction s1 as [|a s1 IH]; intros [|b s2] [|c s3]; simpl; try done.
  destruct (Ascii.compare a b) eqn:Eab; try done.
  - apply Ascii.compare_eq_iff in Eab as ->.
    destruct (Ascii.compare b c); try done. apply IH.
  - intros _. destruct (Ascii.compare b c) eqn:Ebc; try done.
    + apply Ascii.compare_eq_iff in Ebc as ->. by rewrite Eab.
    + intros _. apply ascii_compare_lt in Eab, Ebc.
      assert (Ascii.compare a c = Lt) as ->; [|done].
      apply ascii_compare_lt. by eapply N.lt_trans.
Qed.

Lemma string_compare_refl s : String.compare s s = Eq.
Proof.
  induction s as [|a s IH]; simpl; [done|].
  unfold Ascii.compare. by rewrite N.compare_refl.
Qed.

#[export] Instance string_key_order : KeyOrder string.
Proof.
  refine {| key_lt := String.ltb |}; unfold String.ltb.
  - intros k. by rewrite string_compare_refl.
  - intros k1 k2 k3 H1 H2. rewrite (string_compare_trans k1 k2 k3); [done| |].
    + by destruct (String.compare k1 k2).
    + by destruct (String.compare k2 k3).
  - intros k1 k2. rewrite (String.compare_antisym k2 k1).
    destruct (String.compare k1 k2) eqn:E; simpl; try done.
    intros _ _. by apply String.compare_eq_iff.
Defined.

(** The order of [std::string], for strings as lists of characters. *)
Fixpoint chars_lt (s1 s2 : list Z) : bool :=
  match s1, s2 with
  | _, [] => false
  | [], _ :: _ => true
  | c1 :: s1, c2 :: s2 => (c1 <? c2) || ((c1 =? c2) && chars_lt s1 s2)
  end.

Lemma chars_lt_cons c1 s1 c2 s2 :
  chars_lt (c1 :: s1) (c2 :: s2) = true <-> c1 < c2 \/ c1 = c2 /\ chars_lt s1 s2 = true.
Proof. cbn. by rewrite orb_true_iff, andb_true_iff, Z.ltb_lt, Z.eqb_eq. Qed.

#[export] Instance chars_key_order : KeyOrder (list Z).
Proof.
  refine {| key_lt := chars_lt |}.
  - induction k as [|c s IH]; [done|]. cbn. by rewrite Z.ltb_irrefl, Z.eqb_refl, IH.
  - intros s1 s2 s3. revert s1 s3.
    induction s2 as [|c2 s2 IH]; intros [|c1 s1] [|c3 s3]; try done.
    rewrite !chars_lt_cons. intros [?|[-> H1]] [?|[-> H2]]; [left; lia..|].
    right. split; [done|]. by eapply IH.
  - induction k1 as [|c1 s1 IH]; intros [|c2 s2]; cbn; try done.
    rewrite !orb_false_iff, !andb_false_iff, !Z.ltb_ge, !Z.eqb_neq. intros [? H1] [? H2].
    replace c2 with c1 in * by lia. f_equal. apply IH; tauto.
Defined.

(** Pairs, by their first and then their second component. *)
#[export] Instance pair_key_order {A B} `{KeyOrder A, KeyOrder B} : KeyOrder (A * B).
Proof.
  refine {| key_lt p q := key_lt p.1 q.1 || (negb (key_lt q.1 p.1) && key_lt p.2 q.2) |}.
  - intros [a b]. simpl. by rewrite !key_lt_irrefl.
  - intros [a1 b1] [a2 b2] [a3 b3]. simpl.
    rewrite !orb_true_iff, !andb_true_iff, !negb_true_iff.
    destruct (key_lt a1 a2) eqn:E12, (key_lt a2 a3) eqn:E23.
    + intros _ _. left. by apply (key_lt_trans _ a2).
    + intros _ [?|[E32 _]]; [done|]. left. rewrite <- (key_lt_total _ _ E23 E32). done.
    + intros [?|[E21 _]] _; [done|]. left. by rewrite (key_lt_total _ _ E12 E21).
    + intros [?|[E21 H1]] [?|[E32 H2]]; try done. right.
      rewrite (key_lt_total _ _ E12 E21), (key_lt_total _ _ E23 E32), key_lt_irrefl.
      split; [done|]. by apply (key_lt_trans _ b2).
  - intros [a1 b1] [a2 b2]. simpl. rewrite !orb_false_iff, !andb_false_iff, !negb_false_iff.
    intros [E12 H1] [E21 H2]. rewrite (key_lt_total _ _ E12 E21). f_equal.
    destruct H1 as [H1|H1], H2 as [H2|H2]; try congruence. by apply key_lt_total.
Defined.

Section std_map.
Context {K : Type} `{KeyOrder K} {V : Type}.
Implicit Types (m : list (K * V)) (k : K) (v : V) (i : nat).

(** ** Operations *)

(** First element whose key is not less than [k]. *)
Definition lower_bound m k : nat := prefix_len (fun p => key_lt p.1 k) m.

(** First element whose key is greater than [k]. *)
Definition upper_bound m k : nat := prefix_len (fun p => negb (key_lt k p.1)) m.

Definition find m k : nat :=
  match m !! lower_bound m k with
  | Some p => if key_lt k p.1 then length m else lower_bound m k
  | None => length m
  end.

(** [iterator->second] of [find], when it is not [end()]. *)
Definition find_value m k : option V := snd <$> m !! find m k.

Definition insert m k v : list (K * V) :=
  match m !! find m k with
  | Some _ => m
  | None => take (lower_bound m k) m ++ (k, v) :: drop (lower_bound m k) m
  end.

(** [m[k] = v] *)
Definition assign m k v : list (K * V) :=
  match m !! find m k with
  | Some _ => take (lower_bound m k) m ++ (k, v) :: drop (S (lower_bound m k)) m
  | None => take (lower_bound m k) m ++ (k, v) :: drop (lower_bound m k) m
  end.

(** [erase(iterator)] and [erase(first, last)]. *)
Definition erase_at m i : list (K * V) := take i m ++ drop (S i) m.
Definition erase_range m i j : list (K * V) := take i m ++ drop j m.

(** ** Well-formedness *)

Definition sorted m : Prop := StronglySorted (fun p q => key_lt p.1 q.1 = true) m.

Lemma key_lt_asym k1 k2 : key_lt k1 k2 = true -> key_lt k2 k1 = false.
Proof.
  intros H1. destruct (key_lt k2 k1) eqn:E; [|done].
  pose proof (key_lt_trans _ _ _ H1 E) as C. by rewrite key_lt_irrefl in C.
Qed.

Lemma key_lt_le_trans k1 k2 k3 :
  key_lt k1 k2 = true -> key_lt k3 k2 = false -> key_lt k1 k3 = true.
Proof.
  intros H1 H2. destruct (key_lt k1 k3) eqn:E; [done|].
  destruct (key_lt k3 k1) eqn:E'.
  - by rewrite (key_lt_trans _ _ _ E' H1) in H2.
  - by rewrite (key_lt_total _ _ E E'), H2 in H1.
Qed.

Lemma key_le_lt_trans k1 k2 k3 :
  key_lt k2 k1 = false -> key_lt k2 k3 = true -> key_lt k1 k3 = true.
Proof.
  intros H1 H2. destruct (key_lt k1 k3) eqn:E; [done|].
  by rewrite (key_lt_le_trans _ _ _ H2 E) in H1.
Qed.

Lemma sorted_app m1 m2 :
  sorted (m1 ++ m2) <->
  (forall p q, p ∈ m1 -> q ∈ m2 -> key_lt p.1 q.1 = true) /\ sorted m1 /\ sorted m2.
Proof. apply StronglySorted_app. Qed.

Lemma sorted_cons p m :
  sorted (p :: m) <-> Forall (fun q => key_lt p.1 q.1 = true) m /\ sorted m.
Proof. apply StronglySorted_cons. Qed.

(** In a sorted map, the elements from [lower_bound] on are exactly those
    whose key is not below [k]. *)
Lemma sorted_NoDup m : sorted m -> NoDup m.
Proof.
  induction 1 as [|p m Hs IH Hf]; constructor; [|done]. intros Hin.
  rewrite Forall_forall in Hf. apply Hf in Hin. by rewrite key_lt_irrefl in Hin.
Qed.

Lemma lower_bound_spec m k :
  sorted m ->
  Forall (fun p => key_lt p.1 k = true) (take (lower_bound m k) m) /\
  Forall (fun p => key_lt p.1 k = false) (drop (lower_bound m k) m).
Proof.
  intros Hs. split; [apply prefix_len_take|].
  induction m as [|p m IH]; [constructor|].
  apply sorted_cons in Hs as [Hp Hs]. unfold lower_bound; simpl.
  destruct (key_lt p.1 k) eqn:E; simpl; [by apply IH|].
  constructor; [done|]. eapply Forall_impl; [exact Hp|]. simpl. intros q Hq.
  destruct (key_lt q.1 k) eqn:E'; [|done].
  by rewrite (key_lt_trans _ _ _ Hq E') in E.
Qed.

Lemma upper_bound_spec m k :
  sorted m ->
  Forall (fun p => key_lt k p.1 = false) (take (upper_bound m k) m) /\
  Forall (fun p => key_lt k p.1 = true) (drop (upper_bound m k) m).
Proof.
  intros Hs. split.
  { eapply Forall_impl; [apply prefix_len_take|]. intros p. apply negb_true_iff. }
  induction m as [|p m IH]; [constructor|].
  apply sorted_cons in Hs as [Hp Hs]. unfold upper_bound; simpl.
  destruct (key_lt k p.1) eqn:E; simpl; [|by apply IH].
  constructor; [done|]. eapply Forall_impl; [exact Hp|]. simpl. intros q Hq.
  by apply (key_lt_trans _ p.1).
Qed.

Lemma lower_bound_le m k : (lower_bound m k <= length m)%nat.
Proof. apply prefix_len_le. Qed.

Lemma upper_bound_le m k : (upper_bound m k <= length m)%nat.
Proof. apply prefix_len_le. Qed.

(** [lower_bound] and [upper_bound] on a map given by its two halves. *)
Lemma lower_bound_split m1 m2 k :
  Forall (fun p => key_lt p.1 k = true) m1 ->
  Forall (fun p => key_lt p.1 k = false) m2 ->
  lower_bound (m1 ++ m2) k = length m1.
Proof. apply prefix_len_split. Qed.

Lemma upper_bound_split m1 m2 k :
  Forall (fun p => key_lt k p.1 = false) m1 ->
  Forall (fun p => key_lt k p.1 = true) m2 ->
  upper_bound (m1 ++ m2) k = length m1.
Proof.
  intros H1 H2. apply prefix_len_split.
  - eapply Forall_impl; [exact H1|]. by intros ? ->.
  - eapply Forall_impl; [exact H2|]. by intros ? ->.
Qed.

(** ** Membership *)

Lemma sorted_unique m k v1 v2 :
  sorted m -> (k, v1) ∈ m -> (k, v2) ∈ m -> v1 = v2.
Proof.
  induction m as [|p m IH]; [by intros _ ?%elem_of_nil|].
  intros [Hp Hs]%sorted_cons. rewrite Forall_forall in Hp.
  intros [<-|H1]%elem_of_cons [E|H2]%elem_of_cons; [by inversion E| | |by auto].
  - apply Hp in H2. by rewrite key_lt_irrefl in H2.
  - rewrite <- E in Hp. apply Hp in H1. by rewrite key_lt_irrefl in H1.
Qed.

Lemma find_value_Some m k v : sorted m -> find_value m k = Some v <-> (k, v) ∈ m.
Proof.
  intros Hs. destruct (lower_bound_spec m k Hs) as [H1 H2].
  unfold find_value, find.
  destruct (m !! lower_bound m k) as [[k' v']|] eqn:E; simpl.
  - pose proof (prefix_len_at _ _ _ E) as Hk. simpl in Hk.
    destruct (key_lt k k') eqn:Hk'; simpl.
    + rewrite lookup_ge_None_2 by lia. split; [done|]. intros Hin. exfalso.
      rewrite <- (take_drop (lower_bound m k) m), elem_of_app in Hin.
      rewrite Forall_forall in H1. destruct Hin as [Hin|Hin].
      * apply H1 in Hin. by rewrite key_lt_irrefl in Hin.
      * rewrite <- (take_drop (lower_bound m k) m) in Hs.
        apply sorted_app in Hs as (_ & _ & Hs).
        rewrite (drop_S _ _ _ E) in Hin, Hs. apply sorted_cons in Hs as [Hs _].
        apply elem_of_cons in Hin as [[= -> ->]|Hin]; [by rewrite key_lt_irrefl in Hk'|].
        rewrite Forall_forall in Hs. apply Hs in Hin. simpl in Hin.
        rewrite (key_lt_asym _ _ Hk') in Hin. done.
    + rewrite E. simpl. rewrite (key_lt_total _ _ Hk Hk') in E.
      apply list_elem_of_lookup_2 in E. split; [by intros [= ->]|].
      intros Hin. f_equal. by apply (sorted_unique m k).
  - rewrite lookup_ge_None_2 by lia. split; [done|].
    apply lookup_ge_None in E. rewrite take_ge in H1 by done.
    rewrite Forall_forall in H1. intros Hin%H1. by rewrite key_lt_irrefl in Hin.
Qed.

Lemma find_value_None m k :
  sorted m -> find_value m k = None <-> forall v, (k, v) ∉ m.
Proof.
  intros Hs. split.
  - intros E v Hin. apply find_value_Some in Hin; [|done]. by rewrite E in Hin.
  - intros Hn. destruct (find_value m k) eqn:E; [|done].
    apply find_value_Some in E; [|done]. by destruct (Hn v).
Qed.

Lemma find_value_cons p m k `{EqDecision K} :
  sorted (p :: m) -> find_value (p :: m) k = if decide (k = p.1) then Some p.2 else find_value m k.
Proof.
  intros Hs. pose proof Hs as [Hp Hm]%sorted_cons. case_decide as Hk.
  - apply find_value_Some; [done|]. rewrite Hk. destruct p. by left.
  - destruct (find_value m k) as [v|] eqn:E.
    + apply find_value_Some; [done|]. apply find_value_Some in E; [|done]. by right.
    + apply find_value_None; [done|]. intros v [E'|Hin]%elem_of_cons; [by rewrite <- E' in Hk|].
      rewrite find_value_None in E by done. by apply (E v).
Qed.

(** Maps with the same values are the same. *)
Lemma sorted_ext m1 m2 : sorted m1 -> sorted m2 -> (forall k, find_value m1 k = find_value m2 k) -> m1 = m2.
Proof.
  intros H1 H2 E. assert (Permutation m1 m2) as HP.
  { apply NoDup_Permutation; [by apply sorted_NoDup..|]. intros [k v].
    by rewrite <- !find_value_Some, E by done. }
  clear E. revert m2 H2 HP. induction m1 as [|p1 m1 IH]; intros m2 H2 HP.
  { by apply Permutation_nil_l in HP. }
  destruct m2 as [|p2 m2]; [by apply Permutation_nil_r in HP|].
  apply sorted_cons in H1 as [Hp1 H1]. apply sorted_cons in H2 as [Hp2 H2]. rewrite Forall_forall in Hp1, Hp2.
  assert (p1 = p2) as ->.
  { assert (p1 ∈ p2 :: m2) as Hin1 by (rewrite <- HP; by left). assert (p2 ∈ p1 :: m1) as Hin2 by (rewrite HP; by left).
    apply elem_of_cons in Hin1 as [->|Hin1]; [done|]. apply elem_of_cons in Hin2 as [->|Hin2]; [done|].
    apply Hp2 in Hin1. apply Hp1 in Hin2. by rewrite (key_lt_asym _ _ Hin1) in Hin2. }
  f_equal. apply IH; [done|done|]. by apply Permutation_cons_inv in HP.
Qed.

Lemma filter_sorted (P : K -> Prop) `{!forall k, Decision (P k)} m : sorted m -> sorted (filter (fun p => P p.1) m).
Proof.
  induction m as [|p m IH]; intros Hs; [done|]. apply sorted_cons in Hs as [Hp Hs]. rewrite filter_cons.
  case_decide; [|by apply IH]. apply sorted_cons. split; [|by apply IH]. rewrite Forall_forall in Hp |- *.
  by intros q [_ Hq%Hp]%list_elem_of_filter.
Qed.

Lemma find_value_filter (P : K -> Prop) `{!forall k, Decision (P k)} m k :
  sorted m -> find_value (filter (fun p => P p.1) m) k = if decide (P k) then find_value m k else None.
Proof.
  intros Hs. pose proof (filter_sorted P m Hs) as Hf.
  destruct (find_value (filter _ m) k) as [v|] eqn:E.
  - apply find_value_Some in E; [|done]. apply list_elem_of_filter in E as [HP Hin]. rewrite decide_True by done.
    symmetry. by apply find_value_Some.
  - case_decide as HP; [|done]. destruct (find_value m k) as [v|] eqn:Em; [|done].
    apply find_value_Some in Em; [|done]. rewrite find_value_None in E by done.
    destruct (E v). by apply list_elem_of_filter.
Qed.

Lemma find_None m k : m !! find m k = None <-> find_value m k = None.
Proof. unfold find_value. destruct (m !! find m k); simpl; split; congruence. Qed.

(** ** Insertion *)

(** A fresh key lands between the smaller and the larger ones. *)
Lemma insert_fresh m1 m2 k v :
  Forall (fun p => key_lt p.1 k = true) m1 ->
  Forall (fun p => key_lt k p.1 = true) m2 ->
  insert (m1 ++ m2) k v = m1 ++ (k, v) :: m2.
Proof.
  intros H1 H2.
  assert (lower_bound (m1 ++ m2) k = length m1) as L.
  { apply lower_bound_split; [done|]. eapply Forall_impl; [exact H2|].
    intros p. apply key_lt_asym. }
  assert ((m1 ++ m2) !! find (m1 ++ m2) k = None) as F.
  { unfold find. rewrite L, (lookup_app_r m1 m2 (length m1)), Nat.sub_diag by lia.
    destruct m2 as [|p m2]; simpl; [by apply lookup_ge_None_2|].
    inversion H2 as [|? ? Hp ?]; subst. rewrite Hp. by apply lookup_ge_None_2. }
  unfold insert. by rewrite F, L, take_app_length, drop_app_length.
Qed.

Lemma sorted_insert_fresh m1 m2 k v :
  sorted (m1 ++ m2) ->
  Forall (fun p => key_lt p.1 k = true) m1 ->
  Forall (fun p => key_lt k p.1 = true) m2 ->
  sorted (m1 ++ (k, v) :: m2).
Proof.
  rewrite !sorted_app, sorted_cons. intros (H12 & Hs1 & Hs2) H1 H2.
  split_and!; [|done..]. rewrite Forall_forall in H1.
  intros p q Hp [->|Hq]%elem_of_cons; [by apply H1|]. by apply H12.
Qed.

(** The halves around an absent key. *)
Lemma find_None_split m k :
  sorted m -> find_value m k = None ->
  Forall (fun p => key_lt p.1 k = true) (take (lower_bound m k) m) /\
  Forall (fun p => key_lt k p.1 = true) (drop (lower_bound m k) m).
Proof.
  intros Hs Hf. destruct (lower_bound_spec m k Hs) as [H1 H2]. split; [done|].
  rewrite Forall_forall in H2 |- *. intros [k' v'] Hin.
  destruct (key_lt k k') eqn:E; [done|]. exfalso.
  pose proof (H2 _ Hin) as E2. simpl in E2.
  rewrite (key_lt_total _ _ E E2) in Hf.
  rewrite find_value_None in Hf by done. apply (Hf v').
  rewrite <- (take_drop (lower_bound m k) m), elem_of_app. auto.
Qed.

Lemma insert_sorted m k v : sorted m -> sorted (insert m k v).
Proof.
  intros Hs. unfold insert. destruct (m !! find m k) eqn:E; [done|].
  apply find_None in E. apply find_None_split in E as [E1 E2]; [|done].
  apply sorted_insert_fresh; [by rewrite take_drop|done..].
Qed.

Lemma elem_of_insert m k v p :
  sorted m ->
  p ∈ insert m k v <-> (p = (k, v) /\ find_value m k = None) \/ p ∈ m.
Proof.
  intros Hs. unfold insert. pose proof (find_None m k) as F.
  destruct (m !! find m k) eqn:E.
  - split; [by auto|]. intros [[_ C]|?]; [|done]. by apply F in C.
  - assert (p ∈ m <-> p ∈ take (lower_bound m k) m \/ p ∈ drop (lower_bound m k) m) as ->.
    { by rewrite <- elem_of_app, take_drop. }
    rewrite elem_of_app, elem_of_cons. pose proof (proj1 F eq_refl). tauto.
Qed.

(** ** Assignment *)

Lemma assign_split m k v :
  sorted m -> exists m1 m2,
    Forall (fun p => key_lt p.1 k = true) m1 /\
    Forall (fun p => key_lt k p.1 = true) m2 /\
    assign m k v = m1 ++ (k, v) :: m2 /\
    (m = m1 ++ m2 \/ exists v0, m = m1 ++ (k, v0) :: m2).
Proof.
  intros Hs. unfold assign. pose proof (find_None m k) as F.
  destruct (m !! find m k) as [[k' v']|] eqn:E.
  - unfold find in E. destruct (m !! lower_bound m k) as [[k1 v1]|] eqn:L;
      simpl in E; [|by rewrite lookup_ge_None_2 in E by lia].
    destruct (key_lt k k1) eqn:K1; [by rewrite lookup_ge_None_2 in E by lia|].
    pose proof (prefix_len_at _ _ _ L) as K2. simpl in K2.
    rewrite (key_lt_total _ _ K2 K1) in L. clear E F K1 K2.
    exists (take (lower_bound m k) m), (drop (S (lower_bound m k)) m).
    assert (m = take (lower_bound m k) m ++ (k, v1) :: drop (S (lower_bound m k)) m) as Em.
    { rewrite <- (drop_S _ _ _ L). by rewrite take_drop. }
    split_and!; [apply prefix_len_take| |done|by eauto].
    rewrite Em in Hs. apply sorted_app in Hs as (_ & _ & Hs).
    by apply sorted_cons in Hs as [Hs _].
  - destruct (find_None_split m k) as [E1 E2]; [done|by apply F|].
    exists (take (lower_bound m k) m), (drop (lower_bound m k) m).
    split_and!; [done..|]. left. by rewrite take_drop.
Qed.

Lemma assign_sorted m k v : sorted m -> sorted (assign m k v).
Proof.
  intros Hs. destruct (assign_split m k v Hs) as (m1 & m2 & H1 & H2 & -> & Hm).
  apply sorted_insert_fresh; [|done..].
  destruct Hm as [->|[v0 ->]]; [done|].
  revert Hs. rewrite !sorted_app, sorted_cons. intros (? & ? & ? & ?).
  split_and!; [|done..]. intros p q Hp Hq. set_solver.
Qed.

Lemma elem_of_assign m k v p : sorted m -> p ∈ assign m k v -> p = (k, v) \/ p ∈ m.
Proof.
  intros Hs. destruct (assign_split m k v Hs) as (m1 & m2 & _ & _ & -> & Hm).
  rewrite elem_of_app, elem_of_cons.
  destruct Hm as [->|[v0 ->]]; rewrite elem_of_app, ?elem_of_cons; tauto.
Qed.

Lemma assign_Forall (P : K * V -> Prop) m k v : Forall P m -> P (k, v) -> Forall P (assign m k v).
Proof.
  intros Hm Hp. unfold assign. destruct (m !! find m k); apply Forall_app;
    (split; [by apply Forall_take|constructor; [done|by apply Forall_drop]]).
Qed.

Lemma find_value_assign m k v k' `{EqDecision K} :
  sorted m ->
  find_value (assign m k v) k' = if decide (k' = k) then Some v else find_value m k'.
Proof.
  intros Hs. pose proof (assign_sorted m k v Hs) as Hs'.
  destruct (assign_split m k v Hs) as (m1 & m2 & H1 & H2 & E & Hm).
  assert (forall v', (k', v') ∈ assign m k v <->
            (k' = k /\ v' = v) \/ (k' <> k /\ (k', v') ∈ m)) as Hin.
  { intros v'. rewrite E. rewrite Forall_forall in H1, H2.
    assert (forall u, (k, u) ∉ m1) as N1.
    { intros u Hu%H1. by rewrite key_lt_irrefl in Hu. }
    assert (forall u, (k, u) ∉ m2) as N2.
    { intros u Hu%H2. by rewrite key_lt_irrefl in Hu. }
    rewrite elem_of_app, elem_of_cons.
    destruct Hm as [->|[v0 ->]]; rewrite elem_of_app, ?elem_of_cons;
      destruct (decide (k' = k)); naive_solver. }
  case_decide as Hk.
  - apply find_value_Some; [done|]. apply Hin. auto.
  - destruct (find_value m k') as [v'|] eqn:F.
    + apply find_value_Some; [done|]. apply Hin. right.
      by rewrite find_value_Some in F.
    + apply find_value_None; [done|]. intros v' [[? _]|[_ C]]%Hin; [done|].
      rewrite find_value_None in F by done. by apply (F v').
Qed.

(** Values assigned one after the other. *)
Definition assign_all m l : list (K * V) := fold_left (fun m p => assign m p.1 p.2) l m.

Lemma assign_all_app m l1 l2 : assign_all m (l1 ++ l2) = assign_all (assign_all m l1) l2.
Proof. apply fold_left_app. Qed.

Lemma assign_all_sorted l : forall m, sorted m -> sorted (assign_all m l).
Proof. induction l as [|p l IH]; intros m Hs; [done|]. by apply IH, assign_sorted. Qed.

Lemma find_assign_all l k `{EqDecision K} : forall m,
  sorted m -> sorted l ->
  find_value (assign_all m l) k = match find_value l k with Some v => Some v | None => find_value m k end.
Proof.
  induction l as [|p l IH]; intros m Hs Hl; [done|].
  pose proof Hl as [Hp Hl']%sorted_cons. change (assign_all m (p :: l)) with (assign_all (assign m p.1 p.2) l).
  rewrite IH, (find_value_assign m p.1 p.2 k Hs), (find_value_cons p l k Hl) by (done || by apply assign_sorted).
  case_decide as Hk; [|done]. subst k.
  assert (find_value l p.1 = None) as ->; [|done].
  apply find_value_None; [done|]. intros v Hin. rewrite Forall_forall in Hp. apply Hp in Hin. cbn [fst] in Hin.
  by rewrite key_lt_irrefl in Hin.
Qed.

Lemma find_assign_all_other l k `{EqDecision K} : forall m,
  sorted m -> Forall (fun p => p.1 <> k) l -> find_value (assign_all m l) k = find_value m k.
Proof.
  induction l as [|p l IH]; intros m Hs Hl; [done|]. apply Forall_cons in Hl as [Hp Hl].
  change (assign_all m (p :: l)) with (assign_all (assign m p.1 p.2) l).
  rewrite IH by (done || by apply assign_sorted). rewrite (find_value_assign m p.1 p.2 k Hs). by rewrite decide_False.
Qed.

Lemma find_end m k :
  (find m k =? length m)%nat = match find_value m k with Some _ => false | None => true end.
Proof.
  unfold find_value. destruct (m !! find m k) as [p|] eqn:EQ; simpl.
  - apply lookup_lt_Some in EQ. apply Nat.eqb_neq. lia.
  - apply lookup_ge_None in EQ. apply Nat.eqb_eq.
    unfold find in *. destruct (m !! lower_bound m k) as [q|] eqn:EL; [|done].
    destruct (key_lt k q.1); [done|]. apply lookup_lt_Some in EL. lia.
Qed.

Lemma find_lookup m k v : sorted m -> find_value m k = Some v -> m !! find m k = Some (k, v).
Proof.
  intros Hs Hv. unfold find_value in Hv. destruct (m !! find m k) as [[k' v']|] eqn:E; [|done].
  injection Hv as ->. unfold find in E. destruct (m !! lower_bound m k) as [[k1 v1]|] eqn:L;
    [|by rewrite lookup_ge_None_2 in E by lia].
  destruct (key_lt k (k1, v1).1) eqn:K1; [by rewrite lookup_ge_None_2 in E by lia|].
  pose proof (prefix_len_at _ _ _ L) as K2. cbn [fst] in *.
  rewrite L in E. injection E as -> ->. by rewrite (key_lt_total _ _ K2 K1).
Qed.

Lemma find_value_insert m k v k' `{EqDecision K} :
  sorted m -> find_value (insert m k v) k' =
    if decide (k' = k) then Some (default v (find_value m k)) else find_value m k'.
Proof.
  intros Hs. pose proof (insert_sorted m k v Hs) as Hs'.
  destruct (find_value (insert m k v) k') as [u|] eqn:E.
  - apply find_value_Some, elem_of_insert in E as [[[= -> ->] E]|E]; [|..|done|done].
    + by rewrite decide_True, E.
    + apply find_value_Some in E; [|done]. case_decide as Hk; [subst|done]. by rewrite E.
  - pose proof (proj1 (find_value_None _ _ Hs') E) as Hn. case_decide as Hk.
    + subst k'. exfalso. destruct (find_value m k) as [u|] eqn:F.
      * apply (Hn u), elem_of_insert; [done|]. right. by apply find_value_Some.
      * apply (Hn v), elem_of_insert; [done|]. by left.
    + symmetry. apply find_value_None; [done|]. intros u Hu. apply (Hn u), elem_of_insert; auto.
Qed.

Lemma find_value_erase m k v k' `{EqDecision K} :
  sorted m -> find_value m k = Some v ->
  find_value (erase_at m (find m k)) k' = if decide (k' = k) then None else find_value m k'.
Proof.
  intros Hs Hv. pose proof (find_lookup m k v Hs Hv) as E.
  assert (sorted (erase_at m (find m k))) as Hs'.
  { unfold erase_at. rewrite <- (take_drop (find m k) m) in Hs. rewrite (drop_S _ _ _ E) in Hs.
    revert Hs. rewrite !sorted_app, sorted_cons. intros (? & ? & ? & ?).
    split_and!; [|done..]. intros q r Hq Hr. set_solver. }
  assert (m = take (find m k) m ++ (k, v) :: drop (S (find m k)) m) as Em.
  { by rewrite <- (drop_S _ _ _ E), take_drop. }
  set (i := find m k) in *. clearbody i.
  assert (forall u, (k', u) ∈ erase_at m i <-> k' <> k /\ (k', u) ∈ m) as Hin.
  { intros u. rewrite Em in Hs. apply sorted_app in Hs as (H12 & _ & [H2 _]%sorted_cons).
    rewrite Forall_forall in H2. unfold erase_at. rewrite Em at 3. rewrite !elem_of_app, elem_of_cons. split.
    - intros Hx. split; [|tauto]. intros ->. destruct Hx as [Hx|Hx].
      + specialize (H12 _ (k, v) Hx ltac:(set_solver)). cbn [fst] in H12. by rewrite key_lt_irrefl in H12.
      + apply H2 in Hx. cbn [fst] in Hx. by rewrite key_lt_irrefl in Hx.
    - intros (Hne & [Hx|[[= ? _]|Hx]]); [by left|done|by right]. }
  case_decide as Hk.
  - apply find_value_None; [done|]. intros u [? _]%Hin. done.
  - destruct (find_value m k') as [u|] eqn:F.
    + apply find_value_Some; [done|]. apply Hin. split; [done|]. by apply find_value_Some.
    + apply find_value_None; [done|]. intros u [_ Hu]%Hin. by apply (proj1 (find_value_None _ _ Hs) F u).
Qed.

Lemma erase_at_sorted m i : sorted m -> sorted (erase_at m i).
Proof.
  intros Hs. unfold erase_at. destruct (m !! i) as [p|] eqn:E.
  - rewrite <- (take_drop i m) in Hs. rewrite (drop_S _ _ _ E) in Hs.
    revert Hs. rewrite !sorted_app, sorted_cons. intros (? & ? & ? & ?).
    split_and!; [|done..]. intros q r Hq Hr. set_solver.
  - apply lookup_ge_None in E. rewrite take_ge, drop_ge by lia.
    by rewrite app_nil_r.
Qed.
End std_map.

#[export] Hint Resolve insert_sorted assign_sorted erase_at_sorted : s2p.
#[export] Hint Resolve lower_bound_le upper_bound_le : s2p.

(** ** Positions depend on the keys only *)

Section keys.
Context {K : Type} `{KeyOrder K} {V V' : Type}.

Lemma prefix_len_fmap {A B : Type} (g : A -> B) (f : B -> bool) l :
  prefix_len (fun x => f (g x)) l = prefix_len f (map g l).
Proof. induction l as [|x l IH]; simpl; [done|]. by rewrite IH. Qed.

Lemma lower_bound_keys (m : list (K * V)) (m' : list (K * V')) k :
  m.*1 = m'.*1 -> lower_bound m k = lower_bound m' k.
Proof.
  intros E. unfold lower_bound.
  rewrite (prefix_len_fmap fst (fun x => key_lt x k)), (prefix_len_fmap fst (fun x => key_lt x k) m').
  by apply (f_equal (prefix_len (fun x => key_lt x k))).
Qed.

Lemma upper_bound_keys (m : list (K * V)) (m' : list (K * V')) k :
  m.*1 = m'.*1 -> upper_bound m k = upper_bound m' k.
Proof.
  intros E. unfold upper_bound.
  rewrite (prefix_len_fmap fst (fun x => negb (key_lt k x))),
    (prefix_len_fmap fst (fun x => negb (key_lt k x)) m').
  by apply (f_equal (prefix_len (fun x => negb (key_lt k x)))).
Qed.

Lemma find_keys (m : list (K * V)) (m' : list (K * V')) k :
  m.*1 = m'.*1 -> find m k = find m' k.
Proof.
  intros E. unfold find. rewrite (lower_bound_keys m m' k E).
  assert (length m = length m') as -> by by rewrite <- (length_fmap fst m), E, length_fmap.
  pose proof (f_equal (fun l => l !! lower_bound m' k) E) as EL. simpl in EL.
  rewrite !list_lookup_fmap in EL.
  destruct (m !! _), (m' !! _); simpl in EL; try done. by injection EL as ->.
Qed.
End keys.
