(* ===== verification/RangeMap.v ===== *)
(** * RangeMap (processor/range_map.h, processor/range_map-inl.h)

    A map from disjoint address ranges to entries, keyed by the high address
    of each range.  [StoreRangeInternal] is the source's recursion with the
    overlap strategies; its theorems show that the recursion terminates, that
    every strategy keeps the ranges disjoint and in bounds, and what each
    address retrieves afterwards. *)

From S2P Require Import Prelude OrderedMap.
#[local] Open Scope Z_scope.

(** [enum class MergeRangeStrategy] *)
Inductive MergeRangeStrategy : Type :=
| kExclusiveRanges
| kTruncateLower
| kTruncateUpper.

(** [class Range] *)
Record Range (E : Type) : Type := mkRange {
  base_ : Z;
  delta_ : Z;
  entry_ : E;
}.
Arguments mkRange {E} _ _ _.
Arguments base_ {E} _.
Arguments delta_ {E} _.
Arguments entry_ {E} _.

(** The output parameters of the retrieval functions. *)
Record Retrieved (E : Type) : Type := mkRetrieved {
  out_entry : E;
  out_base : Z;
  out_delta : Z;
  out_size : Z;
}.
Arguments mkRetrieved {E} _ _ _ _.
Arguments out_entry {E} _.
Arguments out_base {E} _.
Arguments out_delta {E} _.
Arguments out_size {E} _.

(** [merge_strategy_] and [map_] of the class. *)
Record RangeMap (E : Type) : Type := mkRangeMap {
  merge_strategy_ : MergeRangeStrategy;
  map_ : list (Z * Range E);
}.
Arguments mkRangeMap {E} _ _.
Arguments merge_strategy_ {E} _.
Arguments map_ {E} _.

Section range_map.
(** The bit width of [AddressType], and [EntryType()]. *)
Context (w : Z) {E : Type} (entry_default : E).
Implicit Types (m : list (Z * Range E)) (e : E) (p q : Z * Range E).

Definition empty_range_map : RangeMap E := mkRangeMap kExclusiveRanges [].

Definition SetMergeStrategy (rm : RangeMap E) (strat : MergeRangeStrategy) : RangeMap E :=
  mkRangeMap strat (map_ rm).

Definition retrieved p : Retrieved E :=
  mkRetrieved (entry_ p.2) (base_ p.2) (delta_ p.2) (wrap w (wrap w (p.1 - base_ p.2) + 1)).

(** [RetrieveRange]: [Some] with the output parameters for [true]. *)
Definition RetrieveRange m (address : Z) : option (Retrieved E) :=
  match m !! lower_bound m address with
  | None => None
  | Some iterator =>
      if address <? base_ iterator.2 then None else Some (retrieved iterator)
  end.

Definition RetrieveNearestRange m (address : Z) : outcome (option (Retrieved E)) :=
  match RetrieveRange m address with
  | Some r => Ok (Some r)
  | None =>
      let iterator := upper_bound m address in
      if (iterator =? 0)%nat then Ok None
      else let? p := of_option (m !! (iterator - 1)%nat) in Ok (Some (retrieved p))
  end.

(** [int GetCount()]: [map_.size()] cast to [int]. *)
Definition GetCount m : Z := swrap 32 (Z.of_nat (length m)).

Definition RetrieveRangeAtIndex m (index : Z) : outcome (option (Retrieved E)) :=
  if GetCount m <=? index then Ok None
  else let? p := of_option (m !! Z.to_nat index) in Ok (Some (retrieved p)).

Definition Clear (rm : RangeMap E) : RangeMap E := mkRangeMap (merge_strategy_ rm) [].

(** Both [kTruncateLower] branches: the stored range at [it] is cut to end
    at [base - 1] and stored again under its new high address. *)
Definition truncate_other_lower m (it : nat) (base : Z) : outcome (list (Z * Range E)) :=
  let? other := of_option (m !! it) in
  let? r := of_option (RetrieveRange m other.1) in
  Ok (insert (erase_at m it) (wrap w (base - 1))
        (mkRange (out_base r) (out_delta r) (out_entry r))).

(** The [kTruncateUpper] branch: the stored range at [it] is cut to start at
    [high + 1].  The four variables keep their initial values when
    [RetrieveRange] fails. *)
Definition truncate_other_upper m (it : nat) (high : Z) : outcome (list (Z * Range E)) :=
  let? other := of_option (m !! it) in
  let additional_delta := wrap w (wrap w (high - base_ other.2) + 1) in
  let r := match RetrieveRange m other.1 with
           | Some r => r
           | None => mkRetrieved entry_default 0 0 0
           end in
  Ok (insert (erase_at m it) other.1
        (mkRange (wrap w (out_base r + additional_delta))
                 (wrap w (out_delta r + additional_delta)) (out_entry r))).

(** [StoreRangeInternal]; [fuel] bounds the depth of the recursion, and
    running out of it is [Undef]. *)
Fixpoint StoreRangeInternal (fuel : nat) (strat : MergeRangeStrategy) m
    (base delta size : Z) e : outcome (bool * list (Z * Range E)) :=
  match fuel with
  | O => Undef
  | S fuel =>
    let high := wrap w (base + wrap w (size - 1)) in
    if (size <=? 0) || (high <? base) then Ok (false, m) else
    let iterator_base := lower_bound m base in
    let iterator_high := lower_bound m high in
    if negb (iterator_base =? iterator_high)%nat then
      match strat with
      | kTruncateLower =>
          let? other := of_option (m !! iterator_base) in
          let other_base := base_ other.2 in
          if base <? other_base then
            StoreRangeInternal fuel strat m base delta (wrap w (other_base - base)) e
          else if other_base <? base then
            let? m' := truncate_other_lower m iterator_base base in
            StoreRangeInternal fuel strat m' base delta size e
          else Ok (false, m)
      | kTruncateUpper =>
          let? other := of_option (m !! iterator_base) in
          let additional_delta := wrap w (wrap w (other.1 - base) + 1) in
          StoreRangeInternal fuel strat m (wrap w (base + additional_delta))
            (wrap w (delta + additional_delta)) (wrap w (size - additional_delta)) e
      | kExclusiveRanges => Ok (false, m)
      end
    else
      let overlaps := match m !! iterator_high with
                      | Some other => base_ other.2 <=? high
                      | None => false
                      end in
      if overlaps then
        let? other := of_option (m !! iterator_high) in
        match strat with
        | kTruncateLower =>
            let other_base := base_ other.2 in
            if base <? other_base then
              StoreRangeInternal fuel strat m base delta (wrap w (other_base - base)) e
            else if other_base <? base then
              let? m' := truncate_other_lower m iterator_high base in
              StoreRangeInternal fuel strat m' base delta size e
            else Ok (false, m)
        | kTruncateUpper =>
            if high <? other.1 then
              let? m' := truncate_other_upper m iterator_high high in
              StoreRangeInternal fuel strat m' base delta size e
            else Ok (false, m)
        | kExclusiveRanges => Ok (false, m)
        end
      else Ok (true, insert m high (mkRange base delta e))
  end.

(** Enough for every call: see [StoreRange_functional]. *)
Definition store_fuel m : nat := S (S (S (length m))).

Definition StoreRange (rm : RangeMap E) (base size : Z) e : outcome (bool * RangeMap E) :=
  let? (ok, m') :=
    StoreRangeInternal (store_fuel (map_ rm)) (merge_strategy_ rm) (map_ rm) base 0 size e in
  Ok (ok, mkRangeMap (merge_strategy_ rm) m').

(** ** The invariant *)

Definition range_ok p : Prop := 0 <= base_ p.2 <= p.1 /\ p.1 < 2 ^ w.
Definition below p q : Prop := p.1 < base_ q.2.

(** Ranges in bounds, in increasing order, disjoint. *)
Definition wf m : Prop := Forall range_ok m /\ StronglySorted below m.

#[export] Instance range_ok_dec p : Decision (range_ok p).
Proof. unfold range_ok. apply _. Defined.

#[export] Instance below_dec p q : Decision (below p q).
Proof. unfold below. apply _. Defined.

#[export] Instance wf_dec m : Decision (wf m).
Proof. unfold wf. apply _. Defined.

(** The entry an address retrieves. *)
Definition entry_at m (a : Z) : option E := out_entry <$> RetrieveRange m a.

Lemma wf_nil : wf [].
Proof. split; constructor. Qed.

Lemma wf_app m1 m2 :
  wf (m1 ++ m2) <-> wf m1 /\ wf m2 /\ (forall p q, p ∈ m1 -> q ∈ m2 -> below p q).
Proof. unfold wf. rewrite Forall_app, StronglySorted_app. tauto. Qed.

Lemma wf_cons p m :
  wf (p :: m) <-> range_ok p /\ wf m /\ (forall q, q ∈ m -> below p q).
Proof. unfold wf. rewrite Forall_cons, StronglySorted_cons, (Forall_forall (below p)). tauto. Qed.

Lemma wf_range_ok m p : wf m -> p ∈ m -> range_ok p.
Proof. intros [H _]. rewrite Forall_forall in H. apply H. Qed.

Lemma wf_sorted m : wf m -> sorted m.
Proof.
  induction m as [|p m IH]; [constructor|]. intros (Hp & Hm & Hb)%wf_cons.
  apply sorted_cons. split; [|by apply IH]. apply Forall_forall. intros q Hq.
  pose proof (Hb q Hq) as B. pose proof (wf_range_ok _ _ Hm Hq) as R.
  unfold below, range_ok in *. rewrite Z_key_lt. apply Z.ltb_lt. lia.
Qed.

(** Two stored ranges are the same or one lies below the other. *)
Lemma wf_pair m p q : wf m -> p ∈ m -> q ∈ m -> p = q \/ below p q \/ below q p.
Proof.
  induction m as [|r m IH]; [set_solver|]. intros (_ & Hm & Hb)%wf_cons.
  intros [->|Hp]%elem_of_cons [->|Hq]%elem_of_cons; auto.
Qed.

(** The stored range that contains an address. *)
Lemma RetrieveRange_spec m a r :
  wf m ->
  RetrieveRange m a = Some r <->
  exists p, p ∈ m /\ base_ p.2 <= a <= p.1 /\ r = retrieved p.
Proof.
  intros Hwf. pose proof (wf_sorted _ Hwf) as Hs.
  destruct (lower_bound_spec m a Hs) as [H1 H2]. rewrite Forall_forall in H1, H2.
  unfold RetrieveRange. destruct (m !! lower_bound m a) as [q|] eqn:EQ.
  - pose proof (prefix_len_at _ _ _ EQ) as Hq. cbn beta in Hq. rewrite Z_key_lt in Hq.
    apply Z.ltb_ge in Hq. split.
    + bool_cases; [done|]. intros [= <-]. exists q. split_and!; [|lia..|done].
      by eapply list_elem_of_lookup_2.
    + intros (p & Hp & Ha & ->).
      assert (p = q) as ->; [|bool_cases; [lia|done]].
      rewrite <- (take_drop (lower_bound m a) m) in Hp, Hwf.
      rewrite (drop_S _ _ _ EQ) in Hp, Hwf.
      apply wf_app in Hwf as (_ & Hw & _). apply wf_cons in Hw as (_ & _ & Hb).
      apply elem_of_app in Hp as [Hp|[->|Hp]%elem_of_cons]; [|done|].
      * apply H1 in Hp. rewrite Z_key_lt in Hp. apply Z.ltb_lt in Hp. lia.
      * apply Hb in Hp. unfold below in Hp. lia.
  - apply lookup_ge_None in EQ. split; [done|]. intros (p & Hp & Ha & ->).
    rewrite take_ge in H1 by done. apply H1 in Hp.
    rewrite Z_key_lt in Hp. apply Z.ltb_lt in Hp. lia.
Qed.

Lemma RetrieveRange_None m a :
  wf m -> RetrieveRange m a = None <-> forall p, p ∈ m -> a < base_ p.2 \/ p.1 < a.
Proof.
  intros Hwf. split.
  - intros EQ p Hp. destruct (decide (base_ p.2 <= a <= p.1)); [|lia].
    assert (RetrieveRange m a = Some (retrieved p)) as C; [|congruence].
    apply RetrieveRange_spec; eauto.
  - intros Hn. destruct (RetrieveRange m a) as [r|] eqn:EQ; [|done].
    apply RetrieveRange_spec in EQ as (p & Hp & Ha & _); [|done].
    apply Hn in Hp. lia.
Qed.

Lemma entry_at_in m a p :
  wf m -> p ∈ m -> base_ p.2 <= a <= p.1 -> entry_at m a = Some (entry_ p.2).
Proof.
  intros Hwf Hp Ha. unfold entry_at.
  rewrite (proj2 (RetrieveRange_spec m a (retrieved p) Hwf)); [done|eauto].
Qed.

Lemma entry_at_out m a :
  wf m -> (forall p, p ∈ m -> a < base_ p.2 \/ p.1 < a) -> entry_at m a = None.
Proof. intros Hwf Hn. unfold entry_at. by rewrite (proj2 (RetrieveRange_None m a Hwf)). Qed.

(** What an address retrieves is a property of the set of ranges. *)
Lemma RetrieveRange_ext m m' a :
  wf m -> wf m' ->
  (forall p, base_ p.2 <= a <= p.1 -> p ∈ m <-> p ∈ m') ->
  RetrieveRange m a = RetrieveRange m' a.
Proof.
  intros H H' Hin. apply option_eq. intros r.
  rewrite !RetrieveRange_spec by done. naive_solver.
Qed.

(** ** One step of StoreRangeInternal

    The map is given by its two halves around [base]; each lemma is one
    branch of the source. *)

Section step.
Context (m1 m2 : list (Z * Range E)) (base delta size : Z) (e : E).
Let m := m1 ++ m2.
Let high := base + size - 1.
Context (Hwf : wf m) (Hbase : 0 <= base) (Hsize : 0 < size) (Hend : base + size <= 2 ^ w).
Context (H1 : forall p, p ∈ m1 -> p.1 < base) (H2 : forall p, p ∈ m2 -> base <= p.1).

Lemma step_high : wrap w (base + wrap w (size - 1)) = high.
Proof.
  rewrite (wrap_small w (size - 1)) by (unfold uint; lia).
  unfold high. rewrite wrap_small by (unfold uint; lia). lia.
Qed.

Lemma step_guard : (size <=? 0) || (high <? base) = false.
Proof. unfold high. apply orb_false_iff. rewrite Z.leb_gt, Z.ltb_ge. lia. Qed.

Lemma step_lb_base : lower_bound m base = length m1.
Proof.
  apply lower_bound_split; apply Forall_forall; intros p Hp; rewrite Z_key_lt.
  - apply Z.ltb_lt. by apply H1.
  - apply Z.ltb_ge. by apply H2.
Qed.

Lemma step_lb_high : (forall p, p ∈ m2 -> high <= p.1) -> lower_bound m high = length m1.
Proof.
  intros Hh. apply lower_bound_split; apply Forall_forall; intros p Hp; rewrite Z_key_lt.
  - apply Z.ltb_lt. apply H1 in Hp. unfold high. lia.
  - apply Z.ltb_ge. by apply Hh.
Qed.

(** The first range at or above [base] tells whether the iterators agree. *)
Lemma step_first o m2' : m2 = o :: m2' -> high <= o.1 -> forall p, p ∈ m2 -> high <= p.1.
Proof.
  intros E2 Ho p Hp. rewrite E2 in Hp. apply elem_of_cons in Hp as [->|Hp]; [done|].
  pose proof Hwf as (_ & Hw & _)%wf_app. rewrite E2 in Hw.
  apply wf_cons in Hw as (_ & Hw & Hb). pose proof (wf_range_ok _ _ Hw Hp) as Hr.
  apply Hb in Hp. unfold below, range_ok in *. lia.
Qed.

Lemma step_lb_differ o m2' : m2 = o :: m2' -> o.1 < high -> lower_bound m high <> length m1.
Proof.
  intros E2 Ho. unfold m. rewrite E2. unfold lower_bound. rewrite prefix_len_app.
  - simpl. rewrite (proj2 (Z.ltb_lt _ _) Ho). lia.
  - apply Forall_forall. intros p Hp. rewrite Z_key_lt. apply Z.ltb_lt.
    apply H1 in Hp. unfold high. lia.
Qed.

Lemma step_at o m2' : m2 = o :: m2' -> m !! length m1 = Some o.
Proof. intros E2. unfold m. by rewrite E2, list_lookup_middle. Qed.

Lemma step_o o m2' : m2 = o :: m2' -> range_ok o /\ base <= o.1.
Proof.
  intros E2. assert (o ∈ m2) as Ho by (rewrite E2; set_solver).
  split; [|by apply H2]. apply (wf_range_ok m); [done|]. apply elem_of_app. auto.
Qed.

Lemma step_retrieve o m2' :
  m2 = o :: m2' -> RetrieveRange m o.1 = Some (retrieved o).
Proof.
  intros E2. apply RetrieveRange_spec; [done|]. exists o. split_and!; [|..|done].
  - unfold m. rewrite E2. set_solver.
  - destruct (step_o _ _ E2) as [Hr _]. unfold range_ok in Hr. lia.
  - lia.
Qed.

(** The three facts every branch starts from. *)
Ltac enter_step :=
  cbn [StoreRangeInternal]; cbv zeta; rewrite step_high, step_guard, step_lb_base.

Lemma step_free f s :
  (forall p, p ∈ m2 -> high < base_ p.2) ->
  StoreRangeInternal (S f) s m base delta size e =
    Ok (true, m1 ++ (high, mkRange base delta e) :: m2).
Proof.
  intros Hfree. assert (forall p, p ∈ m2 -> high < p.1) as Hh.
  { intros p Hp. pose proof Hwf as (_ & Hw & _)%wf_app.
    pose proof (wf_range_ok _ _ Hw Hp) as Hr. apply Hfree in Hp. unfold range_ok in Hr. lia. }
  enter_step. rewrite step_lb_high by (intros p Hp; apply Hh in Hp; lia).
  rewrite Nat.eqb_refl. cbn [negb].
  assert (match m !! length m1 with
          | Some other => base_ other.2 <=? high | None => false end = false) as ->.
  { unfold m. rewrite lookup_app_r, Nat.sub_diag by lia.
    destruct m2 as [|p m2']; [done|]. simpl. apply Z.leb_gt. apply Hfree. set_solver. }
  unfold m. rewrite insert_fresh; [done|..]; apply Forall_forall; intros p Hp;
    rewrite Z_key_lt; apply Z.ltb_lt; [|by apply Hh].
  apply H1 in Hp. unfold high. lia.
Qed.

(** The overlap test of an overlapping first range, in both positions. *)
Lemma step_exclusive f o m2' :
  m2 = o :: m2' -> base_ o.2 <= high ->
  StoreRangeInternal (S f) kExclusiveRanges m base delta size e = Ok (false, m).
Proof.
  intros E2 Ho. enter_step. case_match eqn:EQ; [done|].
  apply negb_false_iff, Nat.eqb_eq in EQ. rewrite <- EQ.
  rewrite (step_at _ _ E2). simpl. by rewrite (proj2 (Z.leb_le _ _) Ho).
Qed.

Lemma step_lower_cases f o m2' :
  m2 = o :: m2' -> base_ o.2 <= high ->
  StoreRangeInternal (S f) kTruncateLower m base delta size e =
    if base <? base_ o.2 then
      StoreRangeInternal f kTruncateLower m base delta (wrap w (base_ o.2 - base)) e
    else if base_ o.2 <? base then
      let? m' := truncate_other_lower m (length m1) base in
      StoreRangeInternal f kTruncateLower m' base delta size e
    else Ok (false, m).
Proof.
  intros E2 Ho. enter_step. case_match eqn:EQ.
  - by rewrite (step_at _ _ E2).
  - apply negb_false_iff, Nat.eqb_eq in EQ. rewrite <- EQ.
    rewrite (step_at _ _ E2). simpl. by rewrite (proj2 (Z.leb_le _ _) Ho).
Qed.

Lemma step_truncate_other_lower o m2' :
  m2 = o :: m2' -> base_ o.2 < base ->
  truncate_other_lower m (length m1) base = Ok (m1 ++ (base - 1, o.2) :: m2').
Proof.
  intros E2 Ho. unfold truncate_other_lower. rewrite (step_at _ _ E2). simpl.
  rewrite (step_retrieve _ _ E2). simpl.
  destruct (step_o _ _ E2) as [Hr Hb]. unfold range_ok in Hr.
  rewrite wrap_small by (unfold uint; lia).
  unfold erase_at, m. rewrite E2, take_app_length, drop_app_ge by lia.
  rewrite Nat.sub_succ_l, Nat.sub_diag by lia. simpl. rewrite drop_0.
  assert (mkRange (base_ o.2) (delta_ o.2) (entry_ o.2) = o.2) as -> by by destruct o.2.
  rewrite insert_fresh; [done|..]; apply Forall_forall; intros p Hp;
    rewrite Z_key_lt; apply Z.ltb_lt.
  - pose proof Hwf as (_ & _ & Hb1)%wf_app. specialize (Hb1 p o Hp).
    rewrite E2 in Hb1. specialize (Hb1 ltac:(set_solver)). unfold below in Hb1. lia.
  - assert (p ∈ m2) as Hp' by (rewrite E2; set_solver). apply H2 in Hp'. lia.
Qed.

Lemma step_upper_skip f o m2' :
  m2 = o :: m2' -> o.1 < high ->
  StoreRangeInternal (S f) kTruncateUpper m base delta size e =
    StoreRangeInternal f kTruncateUpper m (o.1 + 1) (wrap w (delta + (o.1 + 1 - base)))
      (size - (o.1 + 1 - base)) e.
Proof.
  intros E2 Ho. pose proof (step_lb_differ _ _ E2 Ho) as Hne. enter_step.
  rewrite (proj2 (Nat.eqb_neq (length m1) (lower_bound m high)) ltac:(done)).
  cbn [negb]. rewrite (step_at _ _ E2). cbn [of_option obind].
  destruct (step_o _ _ E2) as [Hr Hb]. unfold range_ok, high in *.
  rewrite (wrap_small w (o.1 - base)) by (unfold uint; lia).
  rewrite (wrap_small w (o.1 - base + 1)) by (unfold uint; lia).
  rewrite (wrap_small w (base + _)) by (unfold uint; lia).
  rewrite (wrap_small w (size - _)) by (unfold uint; lia).
  f_equal; [lia| |lia]. f_equal. lia.
Qed.

Lemma step_upper_high f o m2' :
  m2 = o :: m2' -> base_ o.2 <= high -> high <= o.1 ->
  StoreRangeInternal (S f) kTruncateUpper m base delta size e =
    if high <? o.1 then
      let? m' := truncate_other_upper m (length m1) high in
      StoreRangeInternal f kTruncateUpper m' base delta size e
    else Ok (false, m).
Proof.
  intros E2 Ho Hh. enter_step. rewrite step_lb_high by eauto using step_first.
  rewrite Nat.eqb_refl. cbn [negb]. rewrite (step_at _ _ E2).
  simpl. by rewrite (proj2 (Z.leb_le _ _) Ho).
Qed.

Lemma step_truncate_other_upper o m2' :
  m2 = o :: m2' -> base_ o.2 <= high -> high < o.1 ->
  truncate_other_upper m (length m1) high =
    Ok (m1 ++ (o.1, mkRange (high + 1) (wrap w (delta_ o.2 + (high + 1 - base_ o.2)))
                      (entry_ o.2)) :: m2').
Proof.
  intros E2 Ho Hh. unfold truncate_other_upper. rewrite (step_at _ _ E2). simpl.
  rewrite (step_retrieve _ _ E2). simpl.
  destruct (step_o _ _ E2) as [Hr Hb]. unfold range_ok, high in *.
  rewrite (wrap_small w (base + size - 1 - base_ o.2)) by (unfold uint; lia).
  rewrite (wrap_small w (base + size - 1 - base_ o.2 + 1)) by (unfold uint; lia).
  rewrite (wrap_small w (base_ o.2 + _)) by (unfold uint; lia).
  unfold erase_at, m. rewrite E2, take_app_length, drop_app_ge by lia.
  rewrite Nat.sub_succ_l, Nat.sub_diag by lia. simpl. rewrite drop_0.
  rewrite insert_fresh.
  - replace (base_ o.2 + (base + size - 1 - base_ o.2 + 1)) with (base + size - 1 + 1) by lia.
    replace (base + size - 1 - base_ o.2 + 1) with (base + size - 1 + 1 - base_ o.2) by lia.
    done.
  - apply Forall_forall; intros p Hp; rewrite Z_key_lt; apply Z.ltb_lt.
    apply H1 in Hp. lia.
  - apply Forall_forall; intros p Hp; rewrite Z_key_lt; apply Z.ltb_lt.
    pose proof Hwf as (_ & Hw & _)%wf_app. rewrite E2 in Hw.
    apply wf_cons in Hw as (_ & Hw & Hb2). pose proof (wf_range_ok _ _ Hw Hp) as Hr2.
    apply Hb2 in Hp. unfold below, range_ok in *. lia.
Qed.
End step.

(** ** Shapes that keep the invariant *)

Lemma wf_insert_mid m1 m2 p :
  wf (m1 ++ m2) -> range_ok p ->
  (forall q, q ∈ m1 -> below q p) -> (forall q, q ∈ m2 -> below p q) ->
  wf (m1 ++ p :: m2).
Proof.
  rewrite !wf_app, wf_cons. intros (? & ? & Hb) Hp Hl Hr. split_and!; [done..|].
  intros q r Hq [->|Hr']%elem_of_cons; auto.
Qed.

Lemma wf_shrink m1 m2 p p' :
  wf (m1 ++ p :: m2) -> range_ok p' -> base_ p.2 <= base_ p'.2 -> p'.1 <= p.1 ->
  wf (m1 ++ p' :: m2).
Proof.
  rewrite !wf_app, !wf_cons. intros (? & (? & ? & Hr) & Hb) Hp Hlo Hhi.
  unfold below in *. split_and!; [done..| |].
  - intros q Hq. apply Hr in Hq. lia.
  - intros q r Hq [->|Hr']%elem_of_cons.
    + specialize (Hb q p Hq ltac:(set_solver)). lia.
    + apply Hb; [done|]. set_solver.
Qed.

(** The halves of a map around an address. *)
Lemma wf_split m (base : Z) :
  wf m -> exists m1 m2, m = m1 ++ m2 /\
    (forall p, p ∈ m1 -> p.1 < base) /\ (forall p, p ∈ m2 -> base <= p.1).
Proof.
  intros Hwf. destruct (lower_bound_spec m base (wf_sorted _ Hwf)) as [H1 H2].
  rewrite Forall_forall in H1, H2.
  exists (take (lower_bound m base) m), (drop (lower_bound m base) m).
  split_and!; [by rewrite take_drop|..]; intros p Hp.
  - apply H1 in Hp. rewrite Z_key_lt in Hp. by apply Z.ltb_lt in Hp.
  - apply H2 in Hp. rewrite Z_key_lt in Hp. by apply Z.ltb_ge in Hp.
Qed.

Lemma wf_free_or_overlaps m (high : Z) :
  wf m ->
  (forall p, p ∈ m -> high < base_ p.2) \/
  exists o m', m = o :: m' /\ base_ o.2 <= high.
Proof.
  destruct m as [|o m]; [left; set_solver|].
  intros ((Ho & _) & _ & Hb)%wf_cons.
  destruct (decide (base_ o.2 <= high)); [by eauto|]. left.
  intros p [->|Hp]%elem_of_cons; [lia|]. apply Hb in Hp. unfold below in Hp. lia.
Qed.

Lemma entry_at_iff m a x :
  wf m -> entry_at m a = Some x <->
  exists p, p ∈ m /\ base_ p.2 <= a <= p.1 /\ entry_ p.2 = x.
Proof.
  intros Hwf. unfold entry_at. rewrite fmap_Some. split.
  - intros (r & Hr & ->). apply RetrieveRange_spec in Hr as (p & ? & ? & ->); [|done].
    by exists p.
  - intros (p & Hp & Ha & <-). exists (retrieved p). split; [|done].
    apply RetrieveRange_spec; eauto.
Qed.

(** ** What an address retrieves after a store *)

Definition entry_after_exclusive m (base high : Z) e (a : Z) : option E :=
  if (base <=? a) && (a <=? high) then Some e else entry_at m a.

(** The new range ends before the next stored range that starts in it; a
    stored range that starts below the new one ends before it. *)
Definition entry_after_lower m (base high : Z) e (a : Z) : option E :=
  if a <? base then entry_at m a
  else if (a <=? high) && negb (existsb (fun p => (base <=? base_ p.2) && (base_ p.2 <=? a)) m)
  then Some e
  else if existsb (fun p => (base_ p.2 <? base) && (a <=? p.1)) m then None
  else entry_at m a.

(** The new range starts after the last stored range that ends in it; a
    stored range that ends above the new one starts after it. *)
Definition entry_after_upper m (base high : Z) e (a : Z) : option E :=
  if high <? a then entry_at m a
  else if (base <=? a) && negb (existsb (fun p => (a <=? p.1) && (p.1 <? high)) m)
  then Some e
  else if existsb (fun p => (base_ p.2 <=? a) && (high <? p.1)) m then None
  else entry_at m a.

Lemma existsb_elem (f : Z * Range E -> bool) m :
  existsb f m = true <-> exists p, p ∈ m /\ f p = true.
Proof. rewrite existsb_exists. by setoid_rewrite <- list_elem_of_In. Qed.

Lemma existsb_none (f : Z * Range E -> bool) m :
  existsb f m = false <-> forall p, p ∈ m -> f p = false.
Proof.
  rewrite <- not_true_iff_false, existsb_elem. split.
  - intros Hn p Hp. apply not_true_iff_false. naive_solver.
  - intros Hn (p & Hp & Hf). by rewrite (Hn p Hp) in Hf.
Qed.

Lemma range_ok_new base size high e delta :
  0 <= base -> high = base + size - 1 -> 0 < size -> base + size <= 2 ^ w ->
  forall high', base <= high' <= high -> range_ok (high', mkRange base delta e).
Proof. intros. unfold range_ok. simpl. lia. Qed.

(** Sizes the source refuses. *)
Lemma store_refused f s m base delta size e :
  uint w base -> uint w size -> ~ (0 < size /\ base + size <= 2 ^ w) ->
  StoreRangeInternal (S f) s m base delta size e = Ok (false, m).
Proof.
  intros Hb Hs Hn. cbn [StoreRangeInternal]. cbv zeta. unfold uint in *.
  destruct (Z.leb_spec size 0); [done|]. cbn [orb].
  rewrite (wrap_small w (size - 1)) by (unfold uint; lia).
  rewrite wrap_over by lia. by rewrite (proj2 (Z.ltb_lt _ _)) by lia.
Qed.

(** ** The strategies, one theorem each *)

Section store.
Context (delta : Z) (e : E).

Lemma wf_store_between m1 m2 base high :
  wf (m1 ++ m2) -> 0 <= base <= high -> high < 2 ^ w ->
  (forall p, p ∈ m1 -> p.1 < base) -> (forall p, p ∈ m2 -> high < base_ p.2) ->
  wf (m1 ++ (high, mkRange base delta e) :: m2).
Proof.
  intros Hwf Hb Hh H1 H2. apply wf_insert_mid; [done| |done..].
  unfold range_ok. simpl. lia.
Qed.

(** Storing into free space, as retrieval sees it. *)
Lemma entry_at_between m1 m2 base high a :
  wf (m1 ++ m2) -> 0 <= base <= high -> high < 2 ^ w ->
  (forall p, p ∈ m1 -> p.1 < base) -> (forall p, p ∈ m2 -> high < base_ p.2) ->
  entry_at (m1 ++ (high, mkRange base delta e) :: m2) a =
    entry_after_exclusive (m1 ++ m2) base high e a.
Proof.
  intros Hwf Hb Hh H1 H2.
  assert (wf (m1 ++ (high, mkRange base delta e) :: m2)) as Hwf' by by apply wf_store_between.
  unfold entry_after_exclusive. destruct ((base <=? a) && (a <=? high)) eqn:EQ; to_prop.
  - apply (entry_at_in _ a (high, mkRange base delta e)); [done|set_solver|done].
  - apply option_eq. intros x. rewrite !entry_at_iff by done.
    assert (~ (base <= a <= high)) as Hn.
    { intros [Hl Hr]. apply Z.leb_le in Hl, Hr. by rewrite Hl, Hr in EQ. }
    split; intros (p & Hp & Ha & Hx); exists p; (split; [|done]); [|set_solver].
    apply elem_of_app in Hp as [?|[->|?]%elem_of_cons]; [set_solver| |set_solver].
    simpl in Ha. lia.
Qed.

Lemma store_exclusive fuel m base size :
  wf m -> 0 <= base -> 0 < size -> base + size <= 2 ^ w ->
  exists ok m',
    StoreRangeInternal (S fuel) kExclusiveRanges m base delta size e = Ok (ok, m') /\
    (ok = true <-> forall a, base <= a < base + size -> RetrieveRange m a = None) /\
    if ok then wf m' /\ forall a, entry_at m' a = entry_after_exclusive m base (base + size - 1) e a
    else m' = m.
Proof.
  intros Hwf Hb Hs He. destruct (wf_split m base Hwf) as (m1 & m2 & -> & H1 & H2).
  destruct (wf_free_or_overlaps m2 (base + size - 1)) as [Hf|(o & m2' & -> & Ho)];
    [by apply wf_app in Hwf as (_ & ? & _)| |].
  - exists true. eexists. split; [by apply step_free|].
    split; [|split; [apply wf_store_between; try done; lia|]].
    + split; [|done]. intros _ a Ha. apply RetrieveRange_None; [done|].
      intros p [Hp|Hp]%elem_of_app; [apply H1 in Hp; lia|apply Hf in Hp; lia].
    + intros a. apply entry_at_between; try done; lia.
  - exists false. eexists. split; [by eapply step_exclusive|]. split; [|done].
    split; [done|]. intros Hn. exfalso.
    assert (o ∈ m1 ++ o :: m2') as Hin by set_solver.
    pose proof (wf_range_ok _ _ Hwf Hin) as Hr. unfold range_ok in Hr.
    specialize (H2 o ltac:(set_solver)).
    specialize (Hn (Z.max base (base_ o.2)) ltac:(lia)).
    rewrite RetrieveRange_None in Hn by done. specialize (Hn _ Hin). lia.
Qed.

(** *** kTruncateLower *)

(** Where the new range ends: before the next stored range. *)
Definition lower_high m2 (high : Z) : Z :=
  match m2 with
  | [] => high
  | o :: _ => Z.min high (base_ o.2 - 1)
  end.

Lemma lower_high_spec m2 base high :
  wf m2 -> (forall p, p ∈ m2 -> base < base_ p.2) -> base <= high ->
  base <= lower_high m2 high <= high /\
  (forall p, p ∈ m2 -> lower_high m2 high < base_ p.2) /\
  (forall a, lower_high m2 high < a <= high -> exists p, p ∈ m2 /\ base_ p.2 <= a).
Proof.
  intros Hwf Hm2 Hh. destruct m2 as [|o m2]; simpl; [set_solver by lia|].
  apply wf_cons in Hwf as ([Ho _] & _ & Hb).
  pose proof (Hm2 o ltac:(set_solver)) as Hob. split_and!; [lia..| |].
  - intros p [->|Hp]%elem_of_cons; [lia|]. apply Hb in Hp. unfold below in Hp. lia.
  - intros a Ha. exists o. split; [set_solver|lia].
Qed.

Lemma store_lower_above fuel m1 m2 base size :
  wf (m1 ++ m2) -> 0 <= base -> 0 < size -> base + size <= 2 ^ w ->
  (forall p, p ∈ m1 -> p.1 < base) -> (forall p, p ∈ m2 -> base < base_ p.2) ->
  StoreRangeInternal (S (S fuel)) kTruncateLower (m1 ++ m2) base delta size e =
    Ok (true, m1 ++ (lower_high m2 (base + size - 1), mkRange base delta e) :: m2).
Proof.
  intros Hwf Hb Hs He H1 H2. pose proof Hwf as (_ & Hw2 & _)%wf_app.
  assert (forall p, p ∈ m2 -> base <= p.1) as H2'.
  { intros p Hp. pose proof (wf_range_ok _ _ Hw2 Hp) as Hr. apply H2 in Hp.
    unfold range_ok in Hr. lia. }
  destruct (wf_free_or_overlaps m2 (base + size - 1)) as [Hf|(o & m2' & -> & Ho)]; [done|..].
  - rewrite step_free by done. do 2 f_equal. f_equal.
    destruct m2 as [|o m2']; simpl; [done|]. specialize (Hf o ltac:(set_solver)).
    rewrite Z.min_l by lia. done.
  - pose proof (H2 o ltac:(set_solver)) as Hob.
    pose proof (wf_range_ok _ o Hw2 ltac:(set_solver)) as Hr. unfold range_ok in Hr.
    erewrite step_lower_cases by done.
    rewrite (proj2 (Z.ltb_lt _ _)) by lia. rewrite wrap_small by (unfold uint; lia).
    rewrite step_free; try done; try lia.
    + simpl. rewrite Z.min_r by lia.
      by replace (base + (base_ o.2 - base) - 1) with (base_ o.2 - 1) by lia.
    + intros p Hp. apply wf_cons in Hw2 as (_ & _ & Hbl).
      apply elem_of_cons in Hp as [->|Hp]; [lia|]. apply Hbl in Hp. unfold below in Hp. lia.
Qed.

Lemma entry_after_lower_above m1 m2 base high a :
  wf (m1 ++ m2) -> 0 <= base <= high -> high < 2 ^ w ->
  (forall p, p ∈ m1 -> p.1 < base) -> (forall p, p ∈ m2 -> base < base_ p.2) ->
  entry_at (m1 ++ (lower_high m2 high, mkRange base delta e) :: m2) a =
    entry_after_lower (m1 ++ m2) base high e a.
Proof.
  intros Hwf Hb Hh H1 H2. pose proof Hwf as (Hw1 & Hw2 & _)%wf_app.
  destruct (lower_high_spec m2 base high Hw2 H2 ltac:(lia)) as (Hl & Hl2 & Hl3).
  rewrite entry_at_between by (done || lia).
  unfold entry_after_exclusive, entry_after_lower.
  destruct (Z.leb_spec base a), (Z.ltb_spec a base); try lia; [|done]. cbn [andb].
  assert (existsb (fun p => (base_ p.2 <? base) && (a <=? p.1)) (m1 ++ m2) = false) as ->.
  { apply existsb_none. intros p [Hp|Hp]%elem_of_app; apply andb_false_iff.
    - right. apply Z.leb_gt. apply H1 in Hp. lia.
    - left. apply Z.ltb_ge. apply H2 in Hp. lia. }
  destruct (Z.leb_spec a (lower_high m2 high)).
  - rewrite (proj2 (Z.leb_le a high)) by lia. rewrite (proj2 (existsb_none _ _)); [done|].
    intros p [Hp|Hp]%elem_of_app; apply andb_false_iff.
    + left. apply Z.leb_gt. pose proof (wf_range_ok _ _ Hw1 Hp) as Hr.
      apply H1 in Hp. unfold range_ok in Hr. lia.
    + right. apply Z.leb_gt. apply Hl2 in Hp. lia.
  - destruct (Z.leb_spec a high); [|done]. rewrite (proj2 (existsb_elem _ _)); [done|].
    destruct (Hl3 a) as (p & Hp & Hpa); [lia|]. exists p. split; [set_solver|].
    apply H2 in Hp. apply andb_true_iff. rewrite !Z.leb_le. lia.
Qed.

(** Cutting the range that starts below [base] leaves the addresses from
    [base] on free and nothing else changed. *)
Lemma entry_after_lower_cut m1 m2 o base high a :
  wf (m1 ++ o :: m2) -> 0 <= base <= high ->
  (forall p, p ∈ m1 -> p.1 < base) -> base_ o.2 < base <= o.1 ->
  entry_after_lower (m1 ++ (base - 1, o.2) :: m2) base high e a =
    entry_after_lower (m1 ++ o :: m2) base high e a.
Proof.
  intros Hwf Hb H1 Ho.
  assert (range_ok o) as Hor by (eapply wf_range_ok; [done|set_solver]).
  assert (wf (m1 ++ (base - 1, o.2) :: m2)) as Hwf'.
  { eapply wf_shrink; [done|..]; unfold range_ok in *; simpl; lia. }
  assert (forall b, ~ base <= b <= o.1 -> entry_at (m1 ++ (base - 1, o.2) :: m2) b
                    = entry_at (m1 ++ o :: m2) b) as Hout.
  { intros b Hn. apply option_eq. intros x. rewrite !entry_at_iff by done.
    split; intros (p & [Hp|[->|Hp]%elem_of_cons]%elem_of_app & Ha & Hx);
      [exists p|exists o|exists p|exists p|exists (base - 1, o.2)|exists p]; simpl in *;
      (split; [set_solver|]); split; try done; lia. }
  unfold entry_after_lower. destruct (Z.ltb_spec a base); [apply Hout; lia|].
  rewrite !existsb_app. cbn [existsb].
  assert (existsb (fun p => (base_ p.2 <? base) && (a <=? p.1)) m1 = false) as ->.
  { apply existsb_none. intros p Hp. apply andb_false_iff. right.
    apply Z.leb_gt. apply H1 in Hp. lia. }
  assert (existsb (fun p => (base_ p.2 <? base) && (a <=? p.1)) m2 = false) as ->.
  { apply existsb_none. intros p Hp. apply andb_false_iff. left. apply Z.ltb_ge.
    apply wf_app in Hwf as (_ & (_ & _ & Hbl)%wf_cons & _).
    apply Hbl in Hp. unfold below in Hp. lia. }
  simpl. case_match; [done|].
  rewrite (proj2 (Z.ltb_lt (base_ o.2) base)), (proj2 (Z.leb_gt a (base - 1))) by lia.
  simpl. destruct (Z.leb_spec a o.1); simpl; [|apply Hout; lia].
  apply entry_at_out; [done|].
  intros p [Hp|[->|Hp]%elem_of_cons]%elem_of_app; simpl; [|lia|].
  - right. apply H1 in Hp. lia.
  - left. apply wf_app in Hwf as (_ & (_ & _ & Hbl)%wf_cons & _).
    apply Hbl in Hp. unfold below in Hp. lia.
Qed.

Lemma store_lower fuel m base size :
  wf m -> 0 <= base -> 0 < size -> base + size <= 2 ^ w ->
  exists ok m',
    StoreRangeInternal (S (S (S fuel))) kTruncateLower m base delta size e = Ok (ok, m') /\
    (ok = true <-> forall p, p ∈ m -> base_ p.2 <> base) /\
    if ok then wf m' /\ forall a, entry_at m' a = entry_after_lower m base (base + size - 1) e a
    else m' = m.
Proof.
  intros Hwf Hb Hs He. destruct (wf_split m base Hwf) as (m1 & m2 & -> & H1 & H2).
  pose proof Hwf as (Hw1 & Hw2 & Hw12)%wf_app.
  assert (forall p, p ∈ m1 -> base_ p.2 <> base) as H1'.
  { intros p Hp. pose proof (wf_range_ok _ _ Hw1 Hp) as Hr. apply H1 in Hp.
    unfold range_ok in Hr. lia. }
  destruct (wf_free_or_overlaps m2 base) as [Hf|(o & m2' & -> & Ho)]; [done|..].
  { exists true. eexists. split; [by apply store_lower_above|].
    destruct (lower_high_spec m2 base (base + size - 1) Hw2 Hf ltac:(lia)) as (Hl & Hl2 & _).
    split; [|split].
    - split; [|done]. intros _ p [Hp|Hp%Hf]%elem_of_app; [by apply H1'|lia].
    - apply wf_store_between; try done; lia.
    - intros a. apply entry_after_lower_above; try done; lia. }
  pose proof (wf_range_ok _ o Hw2 ltac:(set_solver)) as Hr. unfold range_ok in Hr.
  pose proof Hw2 as (_ & Hw2' & Hbl)%wf_cons.
  pose proof (H2 o ltac:(set_solver)) as Hob.
  erewrite step_lower_cases by (done || lia). rewrite (proj2 (Z.ltb_ge _ _) Ho).
  destruct (Z.ltb_spec (base_ o.2) base) as [Hlt|Hge].
  - erewrite step_truncate_other_lower by done. cbn [obind].
    assert (wf ((m1 ++ [(base - 1, o.2)]) ++ m2')) as Hwf'.
    { rewrite <- app_assoc. eapply wf_shrink; [done|..]; unfold range_ok; simpl; lia. }
    assert (forall p, p ∈ m2' -> base < base_ p.2) as Hf.
    { intros p Hp%Hbl. unfold below in Hp. lia. }
    assert (forall p, p ∈ m1 ++ [(base - 1, o.2)] -> p.1 < base) as H1c.
    { intros p [Hp%H1|[->|?%elem_of_nil]%elem_of_cons]%elem_of_app; simpl; done || lia. }
    destruct (lower_high_spec m2' base (base + size - 1) Hw2' Hf ltac:(lia)) as (Hl & Hl2 & _).
    rewrite (cons_middle (base - 1, o.2) m1 m2'), app_assoc.
    exists true. eexists. split; [by apply store_lower_above|]. split; [|split].
    + split; [|done]. intros _ p [Hp|[->|Hp%Hf]%elem_of_cons]%elem_of_app; [by apply H1'|lia..].
    + apply wf_store_between; try done; lia.
    + intros a. rewrite entry_after_lower_above by (done || lia).
      rewrite <- app_assoc. apply entry_after_lower_cut; done || lia.
  - exists false. eexists. split; [done|]. split; [|done]. split; [done|].
    intros Hn. destruct (Hn o); [set_solver|lia].
Qed.
End store.

(** *** kTruncateUpper *)

(** With every stored range below [base] or ending above [high], only the
    range across [high] matters. *)
Lemma entry_after_upper_reached m1 m2 base high e a :
  base <= high ->
  (forall p, p ∈ m1 -> p.1 < base) -> (forall p, p ∈ m2 -> high <= p.1) ->
  entry_after_upper (m1 ++ m2) base high e a =
    if high <? a then entry_at (m1 ++ m2) a
    else if base <=? a then Some e
    else if existsb (fun p => (base_ p.2 <=? a) && (high <? p.1)) m2 then None
    else entry_at (m1 ++ m2) a.
Proof.
  intros Hh H1 H2. unfold entry_after_upper.
  destruct (Z.ltb_spec high a); [done|]. destruct (Z.leb_spec base a); cbn [andb].
  - rewrite (proj2 (existsb_none _ _)); [done|].
    intros p [Hp|Hp]%elem_of_app; apply andb_false_iff.
    + left. apply Z.leb_gt. apply H1 in Hp. lia.
    + right. apply Z.ltb_ge. by apply H2.
  - rewrite existsb_app, (proj2 (existsb_none _ m1)); [done|].
    intros p Hp. apply andb_false_iff. right. apply Z.ltb_ge. apply H1 in Hp. lia.
Qed.

(** Cutting the range across [high] frees the addresses up to [high]. *)
Lemma entry_after_upper_cut m1 m2 o d base high e a :
  wf (m1 ++ o :: m2) -> 0 <= base <= high ->
  (forall p, p ∈ m1 -> p.1 < base) -> base_ o.2 <= high < o.1 ->
  entry_after_exclusive (m1 ++ (o.1, mkRange (high + 1) d (entry_ o.2)) :: m2) base high e a =
    entry_after_upper (m1 ++ o :: m2) base high e a.
Proof.
  intros Hwf Hb H1 Ho. set (o' := (o.1, mkRange (high + 1) d (entry_ o.2))).
  assert (range_ok o) as Hor by (eapply wf_range_ok; [done|set_solver]).
  assert (forall p, p ∈ m2 -> o.1 < base_ p.2 /\ base_ p.2 <= p.1) as H2.
  { intros p Hp. pose proof Hwf as (_ & (_ & Hw2 & Hbl)%wf_cons & _)%wf_app.
    pose proof (wf_range_ok _ _ Hw2 Hp) as Hr. apply Hbl in Hp. unfold below, range_ok in *. lia. }
  assert (wf (m1 ++ o' :: m2)) as Hwf'.
  { eapply wf_shrink; [done|..]; unfold range_ok in *; simpl; lia. }
  assert (forall b, ~ base_ o.2 <= b <= high -> entry_at (m1 ++ o' :: m2) b
                    = entry_at (m1 ++ o :: m2) b) as Hout.
  { intros b Hn. apply option_eq. intros x. rewrite !entry_at_iff by done.
    split; intros (p & [Hp|[->|Hp]%elem_of_cons]%elem_of_app & Ha & Hx);
      [exists p|exists o|exists p|exists p|exists o'|exists p]; simpl in *;
      (split; [set_solver|]); split; try done; lia. }
  rewrite entry_after_upper_reached; [|lia|done|].
  2:{ intros p [->|Hp%H2]%elem_of_cons; lia. }
  unfold entry_after_exclusive.
  destruct (Z.ltb_spec high a), (Z.leb_spec base a), (Z.leb_spec a high);
    try lia; cbn [andb]; [apply Hout; lia|done|].
  cbn [existsb]. rewrite (proj2 (Z.ltb_lt _ _) (proj2 Ho)), andb_true_r.
  rewrite (proj2 (existsb_none _ m2)).
  2:{ intros p Hp%H2. apply andb_false_iff. left. apply Z.leb_gt. lia. }
  rewrite orb_false_r. destruct (Z.leb_spec (base_ o.2) a); [|apply Hout; lia].
  apply entry_at_out; [done|].
  intros p [Hp|[->|Hp%H2]%elem_of_cons]%elem_of_app; simpl; [|lia..].
  right. pose proof Hwf as (_ & _ & Hbl)%wf_app.
  specialize (Hbl p o Hp ltac:(set_solver)). unfold below in Hbl. lia.
Qed.

(** A range that ends inside the new one moves its base past that end. *)
Lemma entry_after_upper_skip m o base high e a :
  wf m -> o ∈ m -> base <= o.1 < high ->
  entry_after_upper m (o.1 + 1) high e a = entry_after_upper m base high e a.
Proof.
  intros Hwf Ho Hb. unfold entry_after_upper. destruct (Z.ltb_spec high a); [done|].
  destruct (Z.leb_spec (o.1 + 1) a), (Z.leb_spec base a); try lia; try done.
  rewrite (proj2 (existsb_elem (fun p => (a <=? p.1) && (p.1 <? high)) m)); [done|].
  exists o. split; [done|]. apply andb_true_iff. rewrite Z.leb_le, Z.ltb_lt. lia.
Qed.

Section upper.
Context (m1 : list (Z * Range E)) (base delta size : Z) (e : E).
Let high := base + size - 1.
Context (Hb : 0 <= base) (Hs : 0 < size) (He : base + size <= 2 ^ w).
Context (H1 : forall p, p ∈ m1 -> p.1 < base).

Lemma entry_after_upper_free m2 a :
  (forall p, p ∈ m2 -> high < base_ p.2 /\ high <= p.1) ->
  entry_after_exclusive (m1 ++ m2) base high e a =
    entry_after_upper (m1 ++ m2) base high e a.
Proof.
  intros H2. rewrite entry_after_upper_reached; [|unfold high; lia|done|apply H2].
  unfold entry_after_exclusive.
  destruct (Z.ltb_spec high a); [bool_cases; done || lia|].
  rewrite (proj2 (existsb_none _ m2)); [bool_cases; done || lia|].
  intros p Hp%H2. apply andb_false_iff. left. apply Z.leb_gt. lia.
Qed.

(** No stored range lies above [base] and starts at or below [high]. *)
Lemma store_upper_free fuel m2 :
  wf (m1 ++ m2) -> (forall p, p ∈ m2 -> base <= p.1) ->
  (forall p, p ∈ m2 -> high < base_ p.2) ->
  exists m',
    StoreRangeInternal (S fuel) kTruncateUpper (m1 ++ m2) base delta size e = Ok (true, m') /\
    wf m' /\ forall a, entry_at m' a = entry_after_upper (m1 ++ m2) base high e a.
Proof.
  intros Hwf H2 Hf. pose proof Hwf as (_ & Hw2 & _)%wf_app.
  eexists. split; [by apply step_free|]. unfold high in *. split.
  - apply wf_store_between; done || lia.
  - intros a. rewrite entry_at_between by (done || lia). apply entry_after_upper_free.
    intros p Hp. pose proof (wf_range_ok _ _ Hw2 Hp) as Hr. apply Hf in Hp.
    unfold range_ok, high in *. lia.
Qed.

(** The stored range [o] lies across [high]. *)
Lemma store_upper_across fuel m2 o :
  wf (m1 ++ o :: m2) -> base <= o.1 -> base_ o.2 <= high < o.1 ->
  exists m',
    StoreRangeInternal (S (S fuel)) kTruncateUpper (m1 ++ o :: m2) base delta size e
      = Ok (true, m') /\
    wf m' /\ forall a, entry_at m' a = entry_after_upper (m1 ++ o :: m2) base high e a.
Proof.
  intros Hwf Hob Ho. pose proof Hwf as (_ & Hw2 & _)%wf_app.
  pose proof Hw2 as (Hr & Hw2' & Hbl)%wf_cons.
  assert (forall p, p ∈ m2 -> o.1 < base_ p.2 /\ base_ p.2 <= p.1) as Hab.
  { intros p Hp. pose proof (wf_range_ok _ _ Hw2' Hp) as Hr'. apply Hbl in Hp.
    unfold below, range_ok in *. lia. }
  set (o' := (o.1, mkRange (high + 1) (wrap w (delta_ o.2 + (high + 1 - base_ o.2)))
                     (entry_ o.2))).
  assert (wf (m1 ++ o' :: m2)) as Hwf'.
  { eapply wf_shrink; [done|..]; unfold range_ok in *; simpl; lia. }
  assert (forall p, p ∈ o' :: m2 -> high < base_ p.2 /\ base <= p.1) as H2'.
  { intros p [->|Hp%Hab]%elem_of_cons; simpl; unfold high in *; lia. }
  eexists. split; [|split].
  - erewrite step_upper_high; try done; try (unfold high in *; lia).
    + fold high. rewrite (proj2 (Z.ltb_lt _ _) (proj2 Ho)).
      unfold high. erewrite step_truncate_other_upper; try done; try (unfold high in *; lia).
      * cbn [obind]. apply step_free; try done; apply H2'.
      * intros p [->|Hp%Hab]%elem_of_cons; lia.
    + intros p [->|Hp%Hab]%elem_of_cons; lia.
  - unfold high in *. apply wf_store_between; try done; try lia. apply H2'.
  - intros a. unfold high in *. rewrite entry_at_between; try done; try lia; [|apply H2'].
    apply entry_after_upper_cut; done || lia.
Qed.
End upper.

Lemma store_upper_halves m2 : forall fuel m1 base delta size e,
  (length m2 <= fuel)%nat ->
  wf (m1 ++ m2) -> 0 <= base -> 0 < size -> base + size <= 2 ^ w ->
  (forall p, p ∈ m1 -> p.1 < base) -> (forall p, p ∈ m2 -> base <= p.1) ->
  exists ok m',
    StoreRangeInternal (S (S fuel)) kTruncateUpper (m1 ++ m2) base delta size e = Ok (ok, m') /\
    (ok = true <-> forall p, p ∈ m2 -> p.1 <> base + size - 1) /\
    if ok then wf m' /\
      forall a, entry_at m' a = entry_after_upper (m1 ++ m2) base (base + size - 1) e a
    else m' = m1 ++ m2.
Proof.
  induction m2 as [|o m2 IH]; intros fuel m1 base delta size e Hfuel Hwf Hb Hs He H1 H2.
  { destruct (store_upper_free m1 base delta size e Hb Hs He H1 (S fuel) []) as (m' & ? & ? & ?);
      [done|set_solver..|]. exists true, m'. split; [done|]. split; [set_solver|done]. }
  pose proof Hwf as (_ & Hw2 & _)%wf_app. pose proof Hw2 as (Hr & _ & Hbl)%wf_cons.
  pose proof (H2 o ltac:(set_solver)) as Hob. unfold range_ok in Hr.
  assert (forall p, p ∈ m2 -> o.1 < p.1) as Hab.
  { intros p Hp. pose proof (wf_range_ok _ p Hw2 ltac:(set_solver)) as Hr'.
    apply Hbl in Hp. unfold below, range_ok in *. lia. }
  destruct (Z_lt_dec o.1 (base + size - 1)) as [Hlt|Hge].
  - destruct fuel as [|fuel]; [simpl in Hfuel; lia|]. erewrite step_upper_skip by done.
    rewrite (cons_middle o m1 m2), app_assoc in *.
    destruct (IH fuel (m1 ++ [o]) (o.1 + 1) (wrap w (delta + (o.1 + 1 - base)))
      (size - (o.1 + 1 - base)) e) as (ok & m' & EQ & Hok & Hm'); try done; try lia.
    + simpl in Hfuel. lia.
    + intros p [Hp%H1|[->|?%elem_of_nil]%elem_of_cons]%elem_of_app; done || lia.
    + intros p Hp%Hab. lia.
    + exists ok, m'. split; [done|].
      replace (o.1 + 1 + (size - (o.1 + 1 - base)) - 1) with (base + size - 1) in Hok, Hm' by lia.
      split; [rewrite Hok; split; [|set_solver];
              intros Hn p [->|Hp]%elem_of_cons; [lia|by apply Hn]|].
      destruct ok; [|done]. split; [apply Hm'|]. intros a. rewrite (proj2 Hm' a).
      apply entry_after_upper_skip; [done|set_solver|lia].
  - destruct (wf_free_or_overlaps (o :: m2) (base + size - 1) Hw2)
      as [Hf|(o' & m2' & [= <- <-] & Ho)].
    + destruct (store_upper_free m1 base delta size e Hb Hs He H1 (S fuel) (o :: m2))
        as (m' & ? & ? & ?); [done..|]. exists true, m'. split; [done|]. split; [|done].
      split; [|done]. intros _ p Hp. pose proof (wf_range_ok _ p Hw2 Hp) as Hr'.
      apply Hf in Hp. unfold range_ok in Hr'. lia.
    + destruct (decide (base + size - 1 = o.1)) as [Heq|Hne].
      * exists false. eexists. split; [|split; [|done]].
        -- erewrite step_upper_high by (done || lia).
           by rewrite (proj2 (Z.ltb_ge _ _)) by lia.
        -- split; [done|]. intros Hn. destruct (Hn o); [set_solver|lia].
      * destruct (store_upper_across m1 base delta size e Hb Hs He H1 fuel m2 o)
          as (m' & ? & ? & ?); [done|lia..|]. exists true, m'. split; [done|]. split; [|done].
        split; [|done]. intros _ p [->|Hp%Hab]%elem_of_cons; lia.
Qed.

Lemma store_upper fuel m base delta size e :
  (length m <= fuel)%nat ->
  wf m -> 0 <= base -> 0 < size -> base + size <= 2 ^ w ->
  exists ok m',
    StoreRangeInternal (S (S fuel)) kTruncateUpper m base delta size e = Ok (ok, m') /\
    (ok = true <-> forall p, p ∈ m -> p.1 <> base + size - 1) /\
    if ok then wf m' /\ forall a, entry_at m' a = entry_after_upper m base (base + size - 1) e a
    else m' = m.
Proof.
  intros Hf Hwf Hb Hs He. destruct (wf_split m base Hwf) as (m1 & m2 & -> & H1 & H2).
  rewrite length_app in Hf.
  destruct (store_upper_halves m2 fuel m1 base delta size e) as (ok & m' & EQ & Hok & Hm');
    [lia|done..|]. exists ok, m'. split; [done|]. split; [|done]. rewrite Hok. split.
  - intros Hn p [Hp%H1|Hp%Hn]%elem_of_app; done || lia.
  - set_solver.
Qed.

(** ** StoreRange and the retrieval functions *)

(** The requests the source accepts: a non-empty range that does not wrap. *)
Definition valid_range (base size : Z) : Prop := 0 < size /\ base + size <= 2 ^ w.

#[export] Instance valid_range_dec base size : Decision (valid_range base size).
Proof. unfold valid_range. apply _. Defined.

(** When each strategy accepts a valid range. *)
Definition acceptable (strat : MergeRangeStrategy) m (base size : Z) : Prop :=
  match strat with
  | kExclusiveRanges => forall a, base <= a < base + size -> RetrieveRange m a = None
  | kTruncateLower => forall p, p ∈ m -> base_ p.2 <> base
  | kTruncateUpper => forall p, p ∈ m -> p.1 <> base + size - 1
  end.

(** What the map retrieves at [a] after an accepted store. *)
Definition entry_after (strat : MergeRangeStrategy) m (base size : Z) e (a : Z) : option E :=
  match strat with
  | kExclusiveRanges => entry_after_exclusive m base (base + size - 1) e a
  | kTruncateLower => entry_after_lower m base (base + size - 1) e a
  | kTruncateUpper => entry_after_upper m base (base + size - 1) e a
  end.

Lemma StoreRange_cases rm base size e :
  wf (map_ rm) -> uint w base -> uint w size ->
  exists ok m',
    StoreRange rm base size e = Ok (ok, mkRangeMap (merge_strategy_ rm) m') /\
    (ok = true <->
       valid_range base size /\ acceptable (merge_strategy_ rm) (map_ rm) base size) /\
    if ok then wf m' /\
      forall a, entry_at m' a = entry_after (merge_strategy_ rm) (map_ rm) base size e a
    else m' = map_ rm.
Proof.
  destruct rm as [strat m]. cbn [map_ merge_strategy_]. intros Hwf Hb Hs.
  unfold StoreRange, store_fuel, valid_range. cbn [map_ merge_strategy_].
  destruct (decide (valid_range base size)) as [[Hs' He]|Hn]; unfold uint in *.
  - assert (exists ok m', StoreRangeInternal (S (S (S (length m)))) strat m base 0 size e = Ok (ok, m')
      /\ (ok = true <-> acceptable strat m base size)
      /\ if ok then wf m' /\ forall a, entry_at m' a = entry_after strat m base size e a
         else m' = m) as (ok & m' & -> & Hok & Hm').
    { destruct strat; cbn [acceptable entry_after].
      - apply store_exclusive; done || lia.
      - apply store_lower; done || lia.
      - apply store_upper; done || lia. }
    exists ok, m'. cbn [obind]. split; [done|]. split; [|done]. rewrite Hok. tauto.
  - exists false, m. rewrite store_refused by (unfold uint; done). cbn [obind].
    split; [done|]. split; [|done]. unfold valid_range in Hn. split; [done|tauto].
Qed.

(** Without truncation the ranges stored before stay as they are. *)
Lemma StoreRange_exclusive rm base size e :
  merge_strategy_ rm = kExclusiveRanges -> wf (map_ rm) -> uint w base -> uint w size ->
  exists ok m', StoreRange rm base size e = Ok (ok, mkRangeMap kExclusiveRanges m') /\ wf m' /\
    (m' = map_ rm \/
     valid_range base size /\
     forall p, p ∈ m' -> p ∈ map_ rm \/ p = (base + size - 1, mkRange base 0 e)).
Proof.
  destruct rm as [strat m]. cbn [map_ merge_strategy_]. intros -> Hwf Hb Hs.
  destruct (decide (valid_range base size)) as [[Hs' He]|Hn]; unfold uint in *.
  2: { exists false, m. unfold StoreRange, store_fuel. cbn [map_ merge_strategy_]. rewrite store_refused by (unfold uint; done). cbn. auto. }
  unfold StoreRange, store_fuel. cbn [map_ merge_strategy_].
  destruct (wf_split m base Hwf) as (m1 & m2 & -> & H1 & H2).
  destruct (wf_free_or_overlaps m2 (base + size - 1)) as [Hf|(o & m2' & -> & Ho)];
    [by apply wf_app in Hwf as (_ & ? & _)| |].
  - eexists true, _. erewrite step_free by (done || lia). cbn [obind]. split; [done|].
    split; [apply wf_store_between; try done; lia|]. right. split; [done|].
    intros p. rewrite !elem_of_app, elem_of_cons. tauto.
  - eexists false, _. erewrite step_exclusive by (done || lia). cbn [obind]. auto.
Qed.

(** A range apart from every other is stored as it is. *)
Lemma StoreRange_apart rm base size e :
  wf (map_ rm) -> 0 <= base -> valid_range base size -> size < 2 ^ w ->
  (forall p, p ∈ map_ rm -> p.1 < base \/ base + size <= base_ p.2) ->
  exists m', StoreRange rm base size e = Ok (true, mkRangeMap (merge_strategy_ rm) m') /\ wf m' /\
    Permutation m' ((base + size - 1, mkRange base 0 e) :: map_ rm).
Proof.
  destruct rm as [strat m]. cbn [map_ merge_strategy_]. intros Hwf Hb [Hs He] Hsw Hap.
  unfold StoreRange, store_fuel. cbn [map_ merge_strategy_].
  destruct (wf_split m base Hwf) as (m1 & m2 & -> & H1 & H2).
  assert (forall p, p ∈ m2 -> base + size - 1 < base_ p.2) as Hf.
  { intros p Hp. destruct (Hap p ltac:(set_solver)) as [Hl|?]; [|lia]. apply H2 in Hp. lia. }
  eexists. erewrite step_free by (done || lia). cbn [obind]. split; [done|].
  split; [apply wf_store_between; try done; lia|]. by rewrite Permutation_middle.
Qed.

(** What an address retrieves was there before, or is the new entry in the new
    range. *)
Lemma entry_after_origin strat m base size e a x :
  entry_after strat m base size e a = Some x ->
  entry_at m a = Some x \/ x = e /\ base <= a < base + size.
Proof.
  destruct strat; cbn [entry_after];
    unfold entry_after_exclusive, entry_after_lower, entry_after_upper; intros EQ;
    repeat case_match; simplify_eq; to_prop; try (by left); right; split; try done; lia.
Qed.

(** The last stored range that starts at or below [a]. *)
Definition nearest m (a : Z) p : Prop :=
  p ∈ m /\ base_ p.2 <= a /\ forall q, q ∈ m -> base_ q.2 <= a -> base_ q.2 <= base_ p.2.

Lemma nearest_covering m a p :
  wf m -> p ∈ m -> base_ p.2 <= a <= p.1 -> nearest m a p.
Proof.
  intros Hwf Hp Ha. split; [done|]. split; [lia|]. intros q Hq Hqa.
  pose proof (wf_range_ok _ _ Hwf Hq) as Hr. unfold range_ok in Hr.
  destruct (wf_pair m p q Hwf Hp Hq) as [->|[Hb|Hb]]; unfold below in *; lia.
Qed.

(** With no range over [a], the range before [upper_bound(a)]. *)
Lemma nearest_upper_bound m a :
  wf m -> RetrieveRange m a = None ->
  match m !! (upper_bound m a - 1)%nat with
  | Some p => upper_bound m a <> 0%nat -> nearest m a p
  | None => upper_bound m a = 0%nat
  end /\
  (upper_bound m a = 0%nat -> forall q, q ∈ m -> a < base_ q.2).
Proof.
  intros Hwf Hn. rewrite RetrieveRange_None in Hn by done.
  destruct (upper_bound_spec m a (wf_sorted _ Hwf)) as [H1 H2].
  rewrite Forall_forall in H1, H2.
  assert (forall q, q ∈ drop (upper_bound m a) m -> a < base_ q.2) as Hd.
  { intros q Hq. pose proof (H2 q Hq) as Hk. apply Z.ltb_lt in Hk.
    assert (q ∈ m) as Hq'%Hn; [|lia].
    rewrite <- (take_drop (upper_bound m a) m). set_solver. }
  split; [|intros E0; rewrite E0 in Hd; exact Hd].
  pose proof (upper_bound_le m a) as Hle.
  destruct (m !! _) as [p|] eqn:Hp; [|apply lookup_ge_None in Hp; lia].
  intros Hne.
  assert (m = take (upper_bound m a - 1) m ++ p :: drop (upper_bound m a) m) as Em.
  { rewrite <- (take_drop (upper_bound m a - 1) m) at 1. f_equal.
    rewrite (drop_S _ _ _ Hp). by replace (S (upper_bound m a - 1)) with (upper_bound m a) by lia. }
  assert (p ∈ take (upper_bound m a) m) as Hin.
  { apply (list_elem_of_lookup_2 _ (upper_bound m a - 1)%nat). by rewrite lookup_take_lt by lia. }
  apply H1, Z.ltb_ge in Hin.
  assert (p ∈ m) as Hpm by (rewrite Em; set_solver).
  pose proof (wf_range_ok _ _ Hwf Hpm) as Hr. unfold range_ok in Hr.
  split; [done|]. split; [lia|]. intros q Hq Hqa.
  pose proof (wf_range_ok _ _ Hwf Hq) as Hrq. unfold range_ok in Hrq.
  destruct (wf_pair m p q Hwf Hpm Hq) as [->|[Hb|Hb]]; [done| |].
  - exfalso. rewrite Em in Hq, Hwf.
    apply wf_app in Hwf as (_ & (_ & _ & Hbl)%wf_cons & Hlt).
    apply elem_of_app in Hq as [Hq|[->|Hq%Hd]%elem_of_cons]; [|unfold below in *; lia..].
    specialize (Hlt q p Hq ltac:(set_solver)). pose proof (Hn p Hpm).
    unfold below in *. lia.
  - unfold below in *. lia.
Qed.

(** What [RetrieveNearestRange] returns. *)
Definition nearest_result m (a : Z) (o : option (Retrieved E)) : Prop :=
  match o with
  | Some r => exists p, nearest m a p /\ r = retrieved p
  | None => forall p, p ∈ m -> a < base_ p.2
  end.

Lemma RetrieveNearestRange_spec m a :
  wf m -> exists o, RetrieveNearestRange m a = Ok o /\ nearest_result m a o.
Proof.
  intros Hwf. unfold RetrieveNearestRange.
  destruct (RetrieveRange m a) as [r|] eqn:ER.
  - exists (Some r). split; [done|].
    apply RetrieveRange_spec in ER as (p & Hp & Ha & ->); [|done].
    exists p. split; [by apply nearest_covering|done].
  - destruct (nearest_upper_bound m a Hwf ER) as [Hne H0].
    destruct (Nat.eqb_spec (upper_bound m a) 0) as [Ez|Ez].
    + exists None. split; [done|exact (H0 Ez)].
    + destruct (m !! (upper_bound m a - 1)%nat) as [p|]; [|done].
      exists (Some (retrieved p)). split; [done|]. exists p. split; [by apply Hne|done].
Qed.
End range_map.

Arguments acceptable w {E} _ _ _ _.
Arguments entry_after w {E} _ _ _ _ _ _.

(** ** Properties *)

Definition example_map (strat : MergeRangeStrategy) : RangeMap Z :=
  mkRangeMap strat [(9, mkRange 5 0 100); (29, mkRange 20 0 200)].

(** C26: [StoreRange] always returns (its recursion terminates and never
    dereferences [end()] or reads an uninitialised variable) and keeps the
    strategy and the invariant (ranges in bounds, ordered and disjoint).  It
    accepts exactly the non-empty, non-wrapping ranges that its strategy allows
    (no overlap for [kExclusiveRanges], no stored range with the same base for
    [kTruncateLower], none with the same high address for [kTruncateUpper]);
    after an accepted store every address retrieves what the strategy's
    truncation rule says, and a refused one leaves the map alone. *)
Theorem StoreRange_functional (w : Z) {E : Type} (dflt : E) (rm : RangeMap E) (base size : Z) (e : E) :
  wf w (map_ rm) -> uint w base -> uint w size ->
  exists ok rm', StoreRange w dflt rm base size e = Ok (ok, rm') /\
    wf w (map_ rm') /\ merge_strategy_ rm' = merge_strategy_ rm /\
    (ok = true <-> valid_range w base size /\ acceptable w (merge_strategy_ rm) (map_ rm) base size) /\
    (ok = true -> forall a, entry_at w (map_ rm') a = entry_after w (merge_strategy_ rm) (map_ rm) base size e a) /\
    (ok = false -> rm' = rm).
Proof.
  intros Hwf Hb Hs.
  destruct (StoreRange_cases w dflt rm base size e Hwf Hb Hs) as (ok & m' & -> & Hok & Hm').
  exists ok, (mkRangeMap (merge_strategy_ rm) m'). split; [done|]. cbn [map_ merge_strategy_].
  destruct ok.
  - split; [apply Hm'|]. split; [done|]. split; [done|]. split; [|done]. intros _. apply Hm'.
  - rewrite Hm'. do 4 (split; [done|]). intros _. by destruct rm.
Qed.

Lemma StoreRange_functional_witness :
  StoreRange 64 0 (example_map kTruncateUpper) 7 16 300 =
    Ok (true, mkRangeMap kTruncateUpper [(9, mkRange 5 0 100); (22, mkRange 10 3 300); (29, mkRange 23 3 200)]) /\
  entry_at 64 [(9, mkRange 5 0 100); (22, mkRange 10 3 300); (29, mkRange 23 3 200)] 15 =
    entry_after 64 kTruncateUpper (map_ (example_map kTruncateUpper)) 7 16 300 15.
Proof.
  assert (StoreRange 64 0 (example_map kTruncateUpper) 7 16 300 =
    Ok (true, mkRangeMap kTruncateUpper [(9, mkRange 5 0 100); (22, mkRange 10 3 300); (29, mkRange 23 3 200)])) as E0
    by (vm_compute; reflexivity).
  destruct (StoreRange_functional 64 0 (example_map kTruncateUpper) 7 16 300) as (ok & rm' & E & _ & _ & _ & Hentries & _).
  - apply (bool_decide_unpack _). vm_compute. exact I.
  - unfold uint. lia.
  - unfold uint. lia.
  - split; [exact E0|]. rewrite E0 in E. injection E as <- <-. by apply Hentries.
Defined.

(** [RetrieveRange] returns the stored range that contains the address,
    and [RetrieveNearestRange] the stored range with the greatest base not
    above it (whether or not it reaches the address), and neither dereferences
    an invalid iterator. *)
Theorem Retrieve_functional (w : Z) {E : Type} (m : list (Z * Range E)) (a : Z) :
  wf w m ->
  (forall r, RetrieveRange w m a = Some r <->
     exists p, p ∈ m /\ base_ p.2 <= a <= p.1 /\ r = retrieved w p) /\
  exists o, RetrieveNearestRange w m a = Ok o /\ nearest_result w m a o.
Proof.
  intros Hwf. split; [intros r; by apply RetrieveRange_spec|].
  by apply RetrieveNearestRange_spec.
Qed.

Lemma Retrieve_functional_witness :
  let m := map_ (example_map kExclusiveRanges) in
  (forall r, RetrieveRange 64 m 15 = Some r <->
     exists p, p ∈ m /\ base_ p.2 <= 15 <= p.1 /\ r = retrieved 64 p) /\
  exists o, RetrieveNearestRange 64 m 15 = Ok o /\ nearest_result 64 m 15 o.
Proof.
  intros m. apply (Retrieve_functional 64 m 15).
  apply (bool_decide_unpack _). vm_compute. exact I.
Defined.
