(* ===== verification/ContainedRangeMap.v ===== *)
(** * ContainedRangeMap (processor/contained_range_map.h, -inl.h)

    A hierarchy of address ranges: the ranges below a node are disjoint and
    lie inside it.  [StoreRange] pushes a new range down to the node it
    belongs to, or moves the ranges it encloses below it; [RetrieveRange]
    finds the innermost range around an address. *)

From S2P Require Import Prelude OrderedMap.
#[local] Open Scope Z_scope.

(** [base_], [entry_] and the pointer [map_] ([None] is NULL). *)
Inductive ContainedRangeMap (E : Type) : Type :=
| mkContained (base_ : Z) (entry_ : E) (map_ : option (list (Z * ContainedRangeMap E))).
Arguments mkContained {E} _ _ _.

Section contained.
(** The bit width of [AddressType]. *)
Context (w : Z) {E : Type}.
Abbreviation node := (ContainedRangeMap E).
Implicit Types (t c : node) (m : list (Z * node)) (p q : Z * node) (a : Z).

Definition cbase t : Z := match t with mkContained b _ _ => b end.
Definition centry t : E := match t with mkContained _ e _ => e end.
Definition cmap t : option (list (Z * node)) := match t with mkContained _ _ cm => cm end.

Definition set_map t (cm : option (list (Z * node))) : node :=
  mkContained (cbase t) (centry t) cm.

Definition children t : list (Z * node) := default [] (cmap t).

(** The depth of the hierarchy below a node: the fuel of the two walks. *)
Fixpoint height t : nat :=
  match t with
  | mkContained _ _ None => O
  | mkContained _ _ (Some m) =>
      S ((fix go m := match m with
                      | [] => O
                      | (_, c) :: m' => Nat.max (height c) (go m')
                      end) m)
  end.

Fixpoint StoreRange_fuel (fuel : nat) t (base size : Z) (entry : E) : outcome (bool * node) :=
  match fuel with
  | O => Undef
  | S fuel =>
    let high := wrap w (wrap w (base + size) - 1) in
    if (size <=? 0) || (high <? base) then Ok (false, t) else
    let m := children t in
    let t := set_map t (Some m) in
    let iterator_base := lower_bound m base in
    let iterator_high := lower_bound m high in
    let inside := match m !! iterator_base with
                  | Some child =>
                      (iterator_base =? iterator_high)%nat && (cbase child.2 <=? base)
                  | None => false
                  end in
    if inside then
      let? child := of_option (m !! iterator_base) in
      if (cbase child.2 =? base) && (child.1 =? high) then Ok (false, t)
      else
        let? (ok, c') := StoreRange_fuel fuel child.2 base size entry in
        Ok (ok, set_map t (Some (<[iterator_base := (child.1, c')]> m)))
    else
    let contains_high := match m !! iterator_high with
                         | Some child => cbase child.2 <=? high
                         | None => false
                         end in
    let cut_low := match m !! iterator_base with
                   | Some child => cbase child.2 <? base
                   | None => false
                   end in
    let cut_high := match m !! iterator_high with
                    | Some child => contains_high && (high <? child.1)
                    | None => false
                    end in
    if cut_low || cut_high then Ok (false, t) else
    let iterator_high := if contains_high then S iterator_high else iterator_high in
    let moved := take (iterator_high - iterator_base) (drop iterator_base m) in
    let child_map := if (iterator_base =? iterator_high)%nat then None else Some moved in
    let m := if (iterator_base =? iterator_high)%nat then m
             else erase_range m iterator_base iterator_high in
    Ok (true, set_map t (Some (insert m high (mkContained base entry child_map))))
  end.

Definition StoreRange t base size entry : outcome (bool * node) :=
  StoreRange_fuel (S (height t)) t base size entry.

Fixpoint RetrieveRange_fuel (fuel : nat) t (address : Z) : outcome (option E) :=
  match fuel with
  | O => Undef
  | S fuel =>
    match cmap t with
    | None => Ok None
    | Some m =>
        match m !! lower_bound m address with
        | None => Ok None
        | Some child =>
            if address <? cbase child.2 then Ok None
            else
              let? r := RetrieveRange_fuel fuel child.2 address in
              Ok (Some (match r with Some e => e | None => centry child.2 end))
        end
    end
  end.

Definition RetrieveRange t address : outcome (option E) :=
  RetrieveRange_fuel (S (height t)) t address.

(** [Clear]: removes the descendants of the node it is called on. *)
Definition Clear t : node := set_map t None.

(** ** The hierarchy as a set of ranges *)

(** The descendants of a node: base, high address and entry of each. *)
Fixpoint descendants t : list (Z * Z * E) :=
  match t with
  | mkContained _ _ None => []
  | mkContained _ _ (Some m) =>
      (fix go m := match m with
                   | [] => []
                   | (h, c) :: m' => (cbase c, h, centry c) :: descendants c ++ go m'
                   end) m
  end.

Definition below_child p : list (Z * Z * E) :=
  (cbase p.2, p.1, centry p.2) :: descendants p.2.

Lemma descendants_children t : descendants t = concat (map below_child (children t)).
Proof.
  destruct t as [b e [m|]]; [|done]. unfold children. simpl.
  induction m as [|[h c] m IH]; [done|]. simpl. by rewrite IH.
Qed.

Lemma height_child t p : p ∈ children t -> (height p.2 < height t)%nat.
Proof.
  destruct t as [b e [m|]]; [|set_solver]. unfold children. simpl.
  induction m as [|[h c] m IH]; [set_solver|]. simpl.
  intros [->|Hp]%elem_of_cons; simpl; [lia|]. apply IH in Hp. lia.
Qed.

Lemma node_ind (P : node -> Prop) :
  (forall t, (forall p, p ∈ children t -> P p.2) -> P t) -> forall t, P t.
Proof.
  intros Hstep t. remember (height t) as n eqn:Hn. assert (height t <= n)%nat as Hle by lia.
  clear Hn. revert t Hle. induction n as [|n IH]; intros t Hle; apply Hstep; intros p Hp;
    pose proof (height_child t p Hp); [lia|]. apply IH. lia.
Qed.

(** ** The invariant *)

Definition ordered p q : Prop := p.1 < cbase q.2.

(** A child lies inside its parent's range [lo, hi] and differs from it. *)
Definition within (lo hi : Z) p : Prop :=
  0 <= cbase p.2 /\ p.1 < 2 ^ w /\ lo <= cbase p.2 <= p.1 /\ p.1 <= hi /\
  ~ (cbase p.2 = lo /\ p.1 = hi).

Fixpoint wf_tree (lo hi : Z) t : Prop :=
  match t with
  | mkContained _ _ None => True
  | mkContained _ _ (Some m) =>
      StronglySorted ordered m /\
      (fix go m := match m with
                   | [] => True
                   | (h, c) :: m' => (within lo hi (h, c) /\ wf_tree (cbase c) h c) /\ go m'
                   end) m
  end.

Definition wf_child (lo hi : Z) p : Prop := within lo hi p /\ wf_tree (cbase p.2) p.1 p.2.
Definition wf_children (lo hi : Z) m : Prop :=
  StronglySorted ordered m /\ Forall (wf_child lo hi) m.

(** The root has no range of its own. *)
Definition wf_root t : Prop := wf_tree (-1) (2 ^ w) t.

Lemma wf_tree_children lo hi t : wf_tree lo hi t <-> wf_children lo hi (children t).
Proof.
  destruct t as [b e [m|]]; unfold wf_children, children; simpl.
  - apply and_iff_compat_l. induction m as [|[h c] m IH]; [by rewrite Forall_nil|].
    by rewrite Forall_cons, IH.
  - split; [|done]. intros _. split; constructor.
Qed.

Lemma wf_children_app lo hi m1 m2 :
  wf_children lo hi (m1 ++ m2) <->
  wf_children lo hi m1 /\ wf_children lo hi m2 /\
  (forall p q, p ∈ m1 -> q ∈ m2 -> ordered p q).
Proof. unfold wf_children. rewrite Forall_app, StronglySorted_app. tauto. Qed.

Lemma wf_children_cons lo hi p m :
  wf_children lo hi (p :: m) <->
  wf_child lo hi p /\ wf_children lo hi m /\ (forall q, q ∈ m -> ordered p q).
Proof.
  unfold wf_children. rewrite Forall_cons, StronglySorted_cons, (Forall_forall (ordered p)).
  tauto.
Qed.

Lemma wf_children_in lo hi m p : wf_children lo hi m -> p ∈ m -> wf_child lo hi p.
Proof. intros [_ H]. rewrite Forall_forall in H. apply H. Qed.

Lemma wf_children_sorted lo hi m : wf_children lo hi m -> sorted m.
Proof.
  induction m as [|p m IH]; [constructor|]. intros (Hp & Hm & Ho)%wf_children_cons.
  apply sorted_cons. split; [|by apply IH]. apply Forall_forall. intros q Hq.
  pose proof (Ho q Hq) as B. destruct (wf_children_in _ _ _ _ Hm Hq) as [R _].
  unfold ordered, within in *. apply Z.ltb_lt. lia.
Qed.

(** Every descendant lies inside the bounds of the node. *)
Lemma descendants_within t : forall lo hi r,
  wf_tree lo hi t -> r ∈ descendants t ->
  0 <= r.1.1 /\ r.1.2 < 2 ^ w /\ lo <= r.1.1 <= r.1.2 /\ r.1.2 <= hi /\
  ~ (r.1.1 = lo /\ r.1.2 = hi).
Proof.
  induction t as [t IH] using node_ind. intros lo hi r Hwf Hr.
  rewrite wf_tree_children in Hwf. rewrite descendants_children in Hr.
  apply list_elem_of_In, in_concat in Hr as (l & Hl & Hr).
  apply in_map_iff in Hl as (p & <- & Hp).
  apply list_elem_of_In in Hp, Hr.
  destruct (wf_children_in _ _ _ _ Hwf Hp) as [Hw Ht].
  apply elem_of_cons in Hr as [->|Hr]; [exact Hw|].
  specialize (IH p Hp _ _ r Ht Hr). unfold within in Hw. lia.
Qed.

(** The ranges of a list of children. *)
Definition ranges m : list (Z * Z * E) := concat (map below_child m).

Lemma descendants_ranges t m : children t = m -> descendants t = ranges m.
Proof. intros <-. apply descendants_children. Qed.

Lemma children_set_map t m : children (set_map t (Some m)) = m.
Proof. done. Qed.

Lemma ranges_app m1 m2 : ranges (m1 ++ m2) = ranges m1 ++ ranges m2.
Proof. unfold ranges. by rewrite map_app, concat_app. Qed.

Lemma ranges_cons p m : ranges (p :: m) = below_child p ++ ranges m.
Proof. done. Qed.

Lemma elem_of_ranges r m : r ∈ ranges m <-> exists p, p ∈ m /\ r ∈ below_child p.
Proof.
  unfold ranges. rewrite list_elem_of_In, in_concat. setoid_rewrite in_map_iff.
  setoid_rewrite list_elem_of_In. naive_solver.
Qed.

Lemma below_child_within lo hi p r :
  wf_child lo hi p -> r ∈ below_child p -> cbase p.2 <= r.1.1 <= r.1.2 /\ r.1.2 <= p.1.
Proof.
  intros [Hw Ht] [->|Hr]%elem_of_cons; simpl.
  - unfold within in Hw. lia.
  - apply (descendants_within _ _ _ _ Ht) in Hr. lia.
Qed.

(** ** Compatibility of a new range with a stored one *)

Definition compatible (base high : Z) (r : Z * Z * E) : Prop :=
  r.1.2 < base \/ high < r.1.1 \/
  (((base <= r.1.1 /\ r.1.2 <= high) \/ (r.1.1 <= base /\ high <= r.1.2)) /\
   ~ (r.1.1 = base /\ r.1.2 = high)).

Lemma compatible_below lo hi base high m :
  wf_children lo hi m -> (forall p, p ∈ m -> p.1 < base) ->
  Forall (compatible base high) (ranges m).
Proof.
  intros Hwf Hm. apply Forall_forall. intros r (p & Hp & Hr)%elem_of_ranges.
  pose proof (below_child_within _ _ _ _ (wf_children_in _ _ _ _ Hwf Hp) Hr).
  apply Hm in Hp. left. lia.
Qed.

Lemma compatible_above lo hi base high m :
  wf_children lo hi m -> (forall p, p ∈ m -> high < cbase p.2) ->
  Forall (compatible base high) (ranges m).
Proof.
  intros Hwf Hm. apply Forall_forall. intros r (p & Hp & Hr)%elem_of_ranges.
  pose proof (below_child_within _ _ _ _ (wf_children_in _ _ _ _ Hwf Hp) Hr).
  apply Hm in Hp. right. left. lia.
Qed.

Lemma compatible_inside lo hi base high m :
  wf_children lo hi m ->
  (forall p, p ∈ m -> base <= cbase p.2 /\ p.1 <= high /\ ~ (cbase p.2 = base /\ p.1 = high)) ->
  Forall (compatible base high) (ranges m).
Proof.
  intros Hwf Hm. apply Forall_forall. intros r (p & Hp & Hr)%elem_of_ranges.
  pose proof (below_child_within _ _ _ _ (wf_children_in _ _ _ _ Hwf Hp) Hr).
  apply Hm in Hp. right. right. split; [left; lia|lia].
Qed.

Lemma incompatible_child base high m p :
  p ∈ m -> ~ compatible base high (cbase p.2, p.1, centry p.2) ->
  ~ Forall (compatible base high) (ranges m).
Proof.
  intros Hp Hn Hall. rewrite Forall_forall in Hall. apply Hn, Hall, elem_of_ranges.
  exists p. split; [done|]. by apply list_elem_of_here.
Qed.

(** ** One step of StoreRange

    The children in three groups: ending below [base], ending inside the new
    range, ending at or above its high address. *)
Section step.
Context (t : node) (m1 mid m3 : list (Z * node)) (lo hi base size : Z) (e : E).
Let high := base + size - 1.
Context (Hm : children t = m1 ++ mid ++ m3) (Hwf : wf_children lo hi (children t)).
Context (Hb : 0 <= base) (Hs : 0 < size) (He : base + size <= 2 ^ w).
Context (H1 : forall p, p ∈ m1 -> p.1 < base).
Context (H2 : forall p, p ∈ mid -> base <= p.1 < high).
Context (H3 : forall p, p ∈ m3 -> high <= p.1).

Lemma cstep_high : wrap w (wrap w (base + size) - 1) = high.
Proof. rewrite wrap_sub_l. apply wrap_small. unfold uint, high. lia. Qed.

Lemma cstep_guard : (size <=? 0) || (high <? base) = false.
Proof. unfold high. apply orb_false_iff. rewrite Z.leb_gt, Z.ltb_ge. lia. Qed.

Lemma cstep_lb_base : lower_bound (m1 ++ mid ++ m3) base = length m1.
Proof.
  apply lower_bound_split; apply Forall_forall; intros p Hp; rewrite Z_key_lt.
  - apply Z.ltb_lt. by apply H1.
  - apply Z.ltb_ge. unfold high in *. apply elem_of_app in Hp as [Hp%H2|Hp%H3]; lia.
Qed.

Lemma cstep_lb_high : lower_bound (m1 ++ mid ++ m3) high = (length m1 + length mid)%nat.
Proof.
  rewrite app_assoc, <- length_app.
  apply lower_bound_split; apply Forall_forall; intros p Hp; rewrite Z_key_lt.
  - apply Z.ltb_lt. unfold high in *. apply elem_of_app in Hp as [Hp%H1|Hp%H2]; lia.
  - apply Z.ltb_ge. by apply H3.
Qed.

Lemma cstep_at_base : (m1 ++ mid ++ m3) !! length m1 = head (mid ++ m3).
Proof. rewrite lookup_app_r, Nat.sub_diag by lia. by destruct (mid ++ m3). Qed.

Lemma cstep_at_high : (m1 ++ mid ++ m3) !! (length m1 + length mid)%nat = head m3.
Proof.
  rewrite app_assoc, <- length_app, lookup_app_r, Nat.sub_diag by lia. by destruct m3.
Qed.

Ltac enter_step :=
  cbn [StoreRange_fuel]; cbv zeta; rewrite cstep_high, cstep_guard, Hm, cstep_lb_base,
    cstep_lb_high, cstep_at_base, cstep_at_high.

Lemma cstep_inside f o m3' :
  mid = [] -> m3 = o :: m3' -> cbase o.2 <= base -> ~ (cbase o.2 = base /\ o.1 = high) ->
  StoreRange_fuel (S f) t base size e =
    let? (ok, c') := StoreRange_fuel f o.2 base size e in
    Ok (ok, set_map t (Some (m1 ++ (o.1, c') :: m3'))).
Proof.
  intros Em E3 Ho Hn. enter_step. rewrite Em, E3. cbn [app head length].
  rewrite Nat.add_0_r, Nat.eqb_refl, (proj2 (Z.leb_le _ _) Ho). cbn [andb of_option obind].
  assert ((cbase o.2 =? base) && (o.1 =? high) = false) as ->.
  { apply andb_false_iff. rewrite !Z.eqb_neq. lia. }
  destruct (StoreRange_fuel f o.2 base size e) as [[ok c']|]; [|done]. cbn [obind].
  unfold set_map. rewrite insert_app_r_alt, Nat.sub_diag by lia. done.
Qed.

Lemma cstep_same f o m3' :
  mid = [] -> m3 = o :: m3' -> cbase o.2 = base -> o.1 = high ->
  StoreRange_fuel (S f) t base size e = Ok (false, set_map t (Some (children t))).
Proof.
  intros Em E3 Ho Hh. enter_step. rewrite Em, E3. cbn [app head length].
  rewrite Nat.add_0_r, Nat.eqb_refl, (proj2 (Z.leb_le _ _)) by lia. cbn [andb of_option obind].
  by rewrite (proj2 (Z.eqb_eq _ _) Ho), (proj2 (Z.eqb_eq _ _) Hh).
Qed.

(** Not inside a child. *)
Definition outside : Prop :=
  mid <> [] \/ forall o, head m3 = Some o -> base < cbase o.2.

Lemma cstep_outside_guard :
  outside ->
  match head (mid ++ m3) with
  | Some child => (length m1 =? length m1 + length mid)%nat && (cbase child.2 <=? base)
  | None => false
  end = false.
Proof.
  unfold outside. intros Ho. destruct mid as [|p mid'].
  - destruct Ho as [C|Ho]; [by destruct C|]. simpl. rewrite Nat.add_0_r, Nat.eqb_refl.
    destruct (head m3) as [o|]; [|done]. by apply Z.leb_gt, Ho.
  - simpl. by rewrite (proj2 (Nat.eqb_neq _ _)) by lia.
Qed.

Lemma cstep_cut_low f p rest :
  outside -> mid ++ m3 = p :: rest -> cbase p.2 < base ->
  StoreRange_fuel (S f) t base size e = Ok (false, set_map t (Some (children t))).
Proof.
  intros Ho Hp Hlt. enter_step. rewrite cstep_outside_guard by done. rewrite Hp. cbn [head].
  by rewrite (proj2 (Z.ltb_lt _ _) Hlt).
Qed.

Lemma cstep_cut_high f o m3' :
  outside -> m3 = o :: m3' -> cbase o.2 <= high < o.1 ->
  StoreRange_fuel (S f) t base size e = Ok (false, set_map t (Some (children t))).
Proof.
  intros Ho E3 Hlt. enter_step. rewrite cstep_outside_guard by done. rewrite E3. cbn [head].
  rewrite (proj2 (Z.leb_le (cbase o.2) high)), (proj2 (Z.ltb_lt high o.1)) by lia.
  cbn [andb]. by rewrite orb_true_r.
Qed.

Definition adopted (l : list (Z * node)) : option (list (Z * node)) :=
  match l with [] => None | _ => Some l end.

(** The new range takes the place of the children it encloses. *)
Lemma cstep_insert f l m3' :
  outside -> mid ++ m3 = l ++ m3' ->
  (l = mid /\ (forall p, p ∈ m3 -> high < cbase p.2) \/
   exists o, l = mid ++ [o] /\ o.1 = high /\ cbase o.2 <= high) ->
  (forall p, p ∈ l -> base <= cbase p.2) -> (forall p, p ∈ m3' -> high < p.1) ->
  StoreRange_fuel (S f) t base size e =
    Ok (true, set_map t (Some (m1 ++ (high, mkContained base e (adopted l)) :: m3'))).
Proof.
  intros Ho Hl Hcase Hlow Hhi. enter_step. rewrite cstep_outside_guard by done.
  assert (match head (mid ++ m3) with
          | Some child => cbase child.2 <? base | None => false end = false) as ->.
  { rewrite Hl. destruct l as [|p l]; cbn [app head].
    - destruct Hcase as [[Hmid Hc]|(o & C & _)]; [|by destruct mid].
      unfold outside in Ho. rewrite <- Hmid in Hl, Ho. cbn [app] in Hl. rewrite <- Hl.
      destruct m3 as [|o m3'']; [done|]. cbn [head].
      destruct Ho as [C|Ho]; [by destruct C|]. specialize (Ho o eq_refl). apply Z.ltb_ge. lia.
    - apply Z.ltb_ge. apply Hlow. by apply list_elem_of_here. }
  cbn [orb].
  assert (exists b, match head m3 with Some child => cbase child.2 <=? high | None => false end = b
    /\ (match head m3 with Some child => b && (high <? child.1) | None => false end) = false
    /\ (if b then S (length m1 + length mid) else (length m1 + length mid)%nat)
         = (length m1 + length l)%nat) as (b & -> & -> & ->).
  { clear Ho. destruct Hcase as [[-> Hc]|(o & -> & Hoh & Hob)].
    - exists false. split; [|split; [by destruct (head m3)|done]].
      destruct m3 as [|q m3'']; [done|]. apply Z.leb_gt, Hc. by apply list_elem_of_here.
    - rewrite <- app_assoc in Hl. apply app_inv_head in Hl. subst m3. cbn [app head].
      exists true. split; [by apply Z.leb_le|]. split; [apply Z.ltb_ge; lia|].
      rewrite length_app. simpl. lia. }
  assert ((length m1 =? length m1 + length l)%nat = match l with [] => true | _ => false end)
    as ->.
  { destruct l; simpl; [rewrite Nat.add_0_r; apply Nat.eqb_refl|].
    apply Nat.eqb_neq. lia. }
  assert (forall x, insert (m1 ++ m3') high x = m1 ++ (high, x) :: m3') as Hins.
  { intros x. apply insert_fresh; apply Forall_forall; intros p Hp; rewrite Z_key_lt;
      apply Z.ltb_lt; [apply H1 in Hp; unfold high; lia|by apply Hhi]. }
  rewrite Hl. unfold erase_range, adopted.
  rewrite drop_app_length, app_assoc, <- (length_app m1 l), drop_app_length.
  rewrite <- app_assoc, take_app_length, length_app.
  replace (length m1 + length l - length m1)%nat with (length l) by lia.
  rewrite take_app_length. destruct l as [|p l]; by rewrite Hins.
Qed.
End step.

(** ** What one call does *)

(** The outcome of storing [base, base + size) below [t]. *)
Definition stored (lo hi : Z) t (base size : Z) (e : E) (r : outcome (bool * node)) : Prop :=
  exists ok t', r = Ok (ok, t') /\ cbase t' = cbase t /\ centry t' = centry t /\
    wf_tree lo hi t' /\
    (if ok then Permutation (descendants t') ((base, base + size - 1, e) :: descendants t)
     else descendants t' = descendants t) /\
    (ok = true <-> Forall (compatible base (base + size - 1)) (descendants t)).

Lemma stored_refused lo hi t base size e :
  wf_tree lo hi t ->
  ~ Forall (compatible base (base + size - 1)) (descendants t) ->
  stored lo hi t base size e (Ok (false, set_map t (Some (children t)))).
Proof.
  intros Hwf Hn. eexists false, _. split; [done|]. split_and!; try done.
  - rewrite wf_tree_children in *. by destruct t as [b e' [m|]].
  - rewrite !descendants_children. by destruct t as [b e' [m|]].
Qed.

(** The children that a new range encloses, below it. *)
Lemma wf_adopted lo hi l base high e :
  wf_children lo hi l ->
  (forall p, p ∈ l -> base <= cbase p.2 /\ p.1 <= high /\ ~ (cbase p.2 = base /\ p.1 = high)) ->
  wf_tree base high (mkContained base e (adopted l)) /\
  descendants (mkContained base e (adopted l)) = ranges l.
Proof.
  intros Hwf Hl. split.
  - apply wf_tree_children. destruct Hwf as [Hs Hf].
    assert (children (mkContained base e (adopted l)) = l) as -> by by destruct l.
    split; [done|]. apply Forall_forall. intros p Hp. rewrite Forall_forall in Hf.
    destruct (Hf p Hp) as [Hw Ht]. split; [|done]. apply Hl in Hp. unfold within in *. tauto.
  - rewrite (descendants_ranges _ l); [done|]. by destruct l.
Qed.

Section call.
Context (t : node) (lo hi base size : Z) (e : E).
Let high := base + size - 1.
Context (Hwf : wf_tree lo hi t) (Hb : 0 <= base) (Hs : 0 < size) (He : base + size <= 2 ^ w).
Context (Hlo : lo <= base) (Hhi : high <= hi) (Hne : ~ (base = lo /\ high = hi)).

Lemma stored_insert m1 l m3 :
  children t = m1 ++ l ++ m3 ->
  (forall p, p ∈ m1 -> p.1 < base) -> (forall p, p ∈ m3 -> high < cbase p.2) ->
  (forall p, p ∈ l -> base <= cbase p.2 /\ p.1 <= high /\ ~ (cbase p.2 = base /\ p.1 = high)) ->
  stored lo hi t base size e
    (Ok (true, set_map t (Some (m1 ++ (high, mkContained base e (adopted l)) :: m3)))).
Proof.
  intros Hc H1 H3 Hl. pose proof Hwf as Hw. rewrite wf_tree_children, Hc in Hw.
  apply wf_children_app in Hw as (Hw1 & (Hwl & Hw3 & Hl3)%wf_children_app & H1r).
  destruct (wf_adopted lo hi l base high e Hwl Hl) as [Ha Hd].
  eexists true, _. split; [done|]. split_and!; try done.
  - apply wf_tree_children. rewrite children_set_map.
    apply wf_children_app. split; [done|]. split.
    + apply wf_children_cons. split; [|split; [done|]].
      * split; [|done]. unfold within, high in *. simpl. lia.
      * intros q Hq. by apply H3.
    + intros p q Hp [->|Hq]%elem_of_cons; [by apply H1|]. apply H1r; set_solver.
  - rewrite (descendants_ranges _ _ Hc), (descendants_ranges _ _ (children_set_map _ _)).
    rewrite !ranges_app, ranges_cons. unfold below_child. cbn [snd fst].
    rewrite Hd. cbn [cbase centry].
    fold high. change (((base, high, e) :: ranges l) ++ ranges m3)
      with ([(base, high, e)] ++ ranges l ++ ranges m3).
    rewrite Permutation_app_swap_app. done.
  - split; [|done]. intros _. rewrite (descendants_ranges _ _ Hc), !ranges_app, !Forall_app. split_and!.
    + by apply (compatible_below lo hi).
    + by apply (compatible_inside lo hi).
    + by apply (compatible_above lo hi).
Qed.

Lemma stored_child m1 o m3 r :
  children t = m1 ++ o :: m3 ->
  (forall p, p ∈ m1 -> p.1 < base) -> cbase o.2 <= base -> high <= o.1 ->
  ~ (cbase o.2 = base /\ o.1 = high) ->
  stored (cbase o.2) o.1 o.2 base size e r ->
  stored lo hi t base size e
    (let? (ok, c') := r in Ok (ok, set_map t (Some (m1 ++ (o.1, c') :: m3)))).
Proof.
  intros Hc H1 Ho Hoh Hon (ok & c' & -> & Hcb & Hce & Hcw & Hd & Hok). cbn [obind].
  pose proof Hwf as Hw. rewrite wf_tree_children, Hc in Hw.
  apply wf_children_app in Hw as (Hw1 & ((Hwi & Hwt) & Hw3 & Ho3)%wf_children_cons & H1r).
  eexists ok, _. split; [done|]. split_and!; try done.
  - apply wf_tree_children. rewrite children_set_map.
    apply wf_children_app. split; [done|]. split.
    + apply wf_children_cons. split; [|split; [done|exact Ho3]].
      split; [unfold within in *; simpl; by rewrite Hcb|simpl; by rewrite Hcb].
    + intros p q Hp [->|Hq]%elem_of_cons; [|apply H1r; set_solver].
      unfold ordered. simpl. rewrite Hcb. apply (H1r p o); set_solver.
  - rewrite (descendants_ranges _ _ Hc), (descendants_ranges _ _ (children_set_map _ _)).
    rewrite !ranges_app, !ranges_cons. unfold below_child. cbn [snd fst].
    rewrite Hcb, Hce. destruct ok; [|by rewrite Hd].
    rewrite Hd. rewrite <- !app_comm_cons.
    rewrite (perm_swap (base, base + size - 1, e)).
    rewrite (app_comm_cons _ _ (base, base + size - 1, e)).
    by rewrite <- Permutation_middle.
  - rewrite Hok, (descendants_ranges _ _ Hc), ranges_app, ranges_cons, !Forall_app. unfold below_child. rewrite Forall_cons.
    split; [|tauto]. intros Hall. split_and!; [by apply (compatible_below lo hi)| |done|].
    + right. right. unfold high in *. simpl. split; [right; lia|lia].
    + apply (compatible_above lo hi); [done|]. intros p Hp%Ho3. unfold ordered in Hp.
      unfold high in *. lia.
Qed.
End call.

(** ** The whole recursion *)

Lemma split_children m (base high : Z) :
  sorted m -> base <= high -> exists m1 mid m3, m = m1 ++ mid ++ m3 /\
    (forall p, p ∈ m1 -> p.1 < base) /\ (forall p, p ∈ mid -> base <= p.1 < high) /\
    (forall p, p ∈ m3 -> high <= p.1).
Proof.
  intros Hs Hle. destruct (lower_bound_spec m base Hs) as [H1 H2].
  set (rest := drop (lower_bound m base) m) in *.
  assert (sorted rest) as Hs'.
  { rewrite <- (take_drop (lower_bound m base) m) in Hs. by apply sorted_app in Hs as (_ & _ & ?). }
  destruct (lower_bound_spec rest high Hs') as [H3 H4]. rewrite Forall_forall in H1, H2, H3, H4.
  exists (take (lower_bound m base) m), (take (lower_bound rest high) rest),
    (drop (lower_bound rest high) rest).
  split_and!; [by rewrite (take_drop _ rest); unfold rest; rewrite take_drop|..].
  - intros p Hp%H1. by apply Z.ltb_lt in Hp.
  - intros p Hp. pose proof (H3 p Hp) as Hh. apply Z.ltb_lt in Hh. split; [|done].
    assert (p ∈ rest) as Hb%H2 by (rewrite <- (take_drop (lower_bound rest high) rest); set_solver).
    by apply Z.ltb_ge in Hb.
  - intros p Hp%H4. by apply Z.ltb_ge in Hp.
Qed.

Section outside.
Context (t : node) (m1 mid m3 : list (Z * node)) (lo hi base size : Z) (e : E).
Let high := base + size - 1.
Context (Hm : children t = m1 ++ mid ++ m3) (Hwf : wf_tree lo hi t).
Context (Hb : 0 <= base) (Hs : 0 < size) (He : base + size <= 2 ^ w).
Context (Hlo : lo <= base) (Hhi : high <= hi) (Hne : ~ (base = lo /\ high = hi)).
Context (H1 : forall p, p ∈ m1 -> p.1 < base).
Context (H2 : forall p, p ∈ mid -> base <= p.1 < high).
Context (H3 : forall p, p ∈ m3 -> high <= p.1).
Context (Hout : outside mid m3 base).

Lemma wf_parts : wf_children lo hi (children t) /\ wf_children lo hi (mid ++ m3).
Proof.
  pose proof Hwf as Hw. rewrite wf_tree_children in Hw. split; [done|].
  rewrite Hm in Hw. by apply wf_children_app in Hw as (_ & ? & _).
Qed.

Lemma in_children p : p ∈ mid ++ m3 -> p ∈ children t.
Proof. rewrite Hm. set_solver. Qed.

Lemma refuse_child p f :
  p ∈ mid ++ m3 -> ~ compatible base high (cbase p.2, p.1, centry p.2) ->
  StoreRange_fuel (S f) t base size e = Ok (false, set_map t (Some (children t))) ->
  stored lo hi t base size e (StoreRange_fuel (S f) t base size e).
Proof.
  intros Hp Hn ->. apply stored_refused; [done|].
  rewrite (descendants_ranges _ _ eq_refl). eapply incompatible_child; [|done].
  by apply in_children.
Qed.

(** Ranges that end inside the new one but start below it. *)
Lemma outside_low f p rest :
  mid ++ m3 = p :: rest -> cbase p.2 < base ->
  stored lo hi t base size e (StoreRange_fuel (S f) t base size e).
Proof.
  intros Hp Hlt. apply (refuse_child p); [rewrite Hp; by apply list_elem_of_here| |].
  - assert (p ∈ mid) as [Hge Hh]%H2.
    { unfold outside in Hout. destruct mid as [|p' mid'].
      - destruct Hout as [C|Ho]; [by destruct C|]. cbn [app] in Hp.
        specialize (Ho p). rewrite Hp in Ho. specialize (Ho eq_refl). lia.
      - injection Hp as -> _. by apply list_elem_of_here. }
    intros Hc. unfold compatible, high in *. cbn [fst snd] in Hc. lia.
  - by eapply cstep_cut_low.
Qed.

Lemma outside_base : (forall p rest, mid ++ m3 = p :: rest -> base <= cbase p.2) ->
  forall p, p ∈ mid ++ m3 -> base <= cbase p.2.
Proof.
  intros Hfirst p Hp. destruct wf_parts as [_ Hw].
  destruct (mid ++ m3) as [|q l]; [by apply elem_of_nil in Hp|].
  specialize (Hfirst q l eq_refl). apply wf_children_cons in Hw as ([Hw _] & _ & Ho).
  apply elem_of_cons in Hp as [->|Hp%Ho]; [done|]. unfold ordered, within in *. lia.
Qed.

Lemma outside_above o m3' : m3 = o :: m3' -> cbase o.2 = base -> False.
Proof.
  intros E3 Heq. destruct wf_parts as [_ Hw]. unfold outside in Hout.
  apply wf_children_app in Hw as (_ & _ & Ho).
  destruct mid as [|p mid'].
  - destruct Hout as [C|Hh]; [by destruct C|]. rewrite E3 in Hh. specialize (Hh o eq_refl). lia.
  - specialize (Ho p o ltac:(by apply list_elem_of_here)).
    rewrite E3 in Ho. specialize (Ho ltac:(by apply list_elem_of_here)).
    specialize (H2 p ltac:(by apply list_elem_of_here)). unfold ordered in Ho. lia.
Qed.

Lemma outside_insert f l m3' :
  mid ++ m3 = l ++ m3' ->
  (l = mid /\ (forall p, p ∈ m3 -> high < cbase p.2) \/
   exists o, l = mid ++ [o] /\ o.1 = high /\ cbase o.2 <= high) ->
  (forall p, p ∈ mid ++ m3 -> base <= cbase p.2) -> (forall p, p ∈ m3' -> high < cbase p.2) ->
  stored lo hi t base size e (StoreRange_fuel (S f) t base size e).
Proof.
  intros Hl Hcase Hlow Hhigh. destruct wf_parts as [Hwc Hwr].
  erewrite cstep_insert; try done.
  - apply stored_insert; try done; [by rewrite Hm, Hl|].
    intros p Hp. split; [apply Hlow; rewrite Hl; set_solver|].
    destruct Hcase as [[-> _]|(o & -> & Hoh & Hob)]; [apply H2 in Hp; lia|].
    apply elem_of_app in Hp as [Hp%H2|[->|?%elem_of_nil]%elem_of_cons]; [lia| |done].
    split; [lia|]. intros [Heq _]. rewrite <- app_assoc in Hl. apply app_inv_head in Hl.
    by apply (outside_above o m3').
  - intros p Hp. apply Hlow. rewrite Hl. set_solver.
  - intros p Hp. pose proof (Hhigh p Hp) as Hh.
    destruct (wf_children_in lo hi _ p Hwr ltac:(rewrite Hl; set_solver)) as [Hw _].
    unfold within in Hw. unfold high in *. lia.
Qed.

Lemma outside_stored f : stored lo hi t base size e (StoreRange_fuel (S f) t base size e).
Proof.
  destruct wf_parts as [Hwc Hwr]. pose proof Hwr as (_ & Hw3 & _)%wf_children_app.
  assert ((exists p rest, mid ++ m3 = p :: rest /\ cbase p.2 < base) \/
          forall p, p ∈ mid ++ m3 -> base <= cbase p.2) as [(p & rest & Ep & Hlt)|Hlow].
  { assert (exists l, mid ++ m3 = l) as [[|p rest] Emm] by eauto.
    { right. rewrite Emm. set_solver. }
    destruct (Z_lt_dec (cbase p.2) base); [left; eauto|].
    right. apply outside_base. rewrite Emm. intros q l [= -> ->]. lia. }
  { by apply (outside_low f p rest). }
  assert ((forall p, p ∈ m3 -> high < cbase p.2) \/
          exists o m3', m3 = o :: m3' /\ cbase o.2 <= high /\
            forall p, p ∈ m3' -> o.1 < cbase p.2) as [Hfree|(o & m3' & E3 & Ho & Hab)].
  { destruct m3 as [|o m3']; [left; set_solver|].
    apply wf_children_cons in Hw3 as (Hwo & _ & Ho).
    destruct (Z_le_gt_dec (cbase o.2) high); [right; eauto 10|]. left.
    intros p [->|Hp%Ho]%elem_of_cons; [lia|]. unfold ordered in Hp.
    destruct Hwo as [Hwo _]. unfold within in Hwo. lia. }
  { by apply (outside_insert f mid m3); auto. }
  destruct (Z_lt_dec high o.1) as [Hcut|Hin].
  - apply (refuse_child o); [rewrite E3; set_solver| |].
    + assert (base <= cbase o.2) by (apply Hlow; rewrite E3; set_solver).
      pose proof (outside_above o m3' E3). unfold compatible. simpl. lia.
    + by eapply cstep_cut_high.
  - assert (o.1 = high) as Hoh.
    { pose proof (H3 o ltac:(rewrite E3; set_solver)). lia. }
    apply (outside_insert f (mid ++ [o]) m3'); try done.
    + by rewrite <- app_assoc, E3.
    + right. by exists o.
    + intros p Hp%Hab. lia.
Qed.
End outside.

Lemma StoreRange_fuel_stored fuel : forall t lo hi base size e,
  (height t < fuel)%nat -> wf_tree lo hi t ->
  0 <= base -> 0 < size -> base + size <= 2 ^ w ->
  lo <= base -> base + size - 1 <= hi -> ~ (base = lo /\ base + size - 1 = hi) ->
  stored lo hi t base size e (StoreRange_fuel fuel t base size e).
Proof.
  induction fuel as [|f IH]; [lia|]. intros t lo hi base size e Hf Hwf Hb Hs He Hlo Hhi Hne.
  pose proof Hwf as Hwc. rewrite wf_tree_children in Hwc.
  destruct (split_children (children t) base (base + size - 1))
    as (m1 & mid & m3 & Hm & H1 & H2 & H3); [by eapply wf_children_sorted|lia|].
  assert (outside mid m3 base \/ exists o m3', mid = [] /\ m3 = o :: m3' /\ cbase o.2 <= base)
    as [Hout|(o & m3' & Emid & E3 & Ho)].
  { unfold outside. destruct mid; [|by left; left]. destruct m3 as [|o m3'']; [by left; right|].
    destruct (Z_le_gt_dec (cbase o.2) base); [right; eauto|]. left. right.
    intros o' [= <-]. lia. }
  { by apply (outside_stored t m1 mid m3). }
  pose proof (H3 o ltac:(rewrite E3; set_solver)) as Hoh.
  destruct (decide (cbase o.2 = base /\ o.1 = base + size - 1)) as [[Heq Heqh]|Hdiff].
  - erewrite cstep_same; try done. apply stored_refused; [done|].
    rewrite (descendants_ranges _ _ eq_refl). eapply (incompatible_child _ _ _ o).
    + rewrite Hm, E3. set_solver.
    + unfold compatible. simpl. lia.
  - erewrite cstep_inside by done. rewrite Emid, E3 in Hm. cbn [app] in Hm.
    assert (o ∈ children t) as Hin by (rewrite Hm; set_solver).
    apply stored_child; try done. pose proof (height_child t o Hin).
    destruct (wf_children_in _ _ _ _ Hwc Hin) as [_ Hwo]. apply IH; done || lia.
Qed.

Lemma ContainedStoreRange_refused t base size e :
  uint w base -> uint w size -> ~ (0 < size /\ base + size <= 2 ^ w) ->
  StoreRange t base size e = Ok (false, t).
Proof.
  intros Hb Hs Hn. unfold StoreRange. cbn [StoreRange_fuel]. cbv zeta. unfold uint in *.
  destruct (Z.leb_spec size 0); [done|]. cbn [orb].
  rewrite wrap_sub_l. rewrite wrap_over by lia. by rewrite (proj2 (Z.ltb_lt _ _)) by lia.
Qed.

(** Every call returns; an accepted range is added. *)
Lemma ContainedStoreRange_cases t base size e :
  wf_root t -> uint w base -> uint w size ->
  exists ok t', StoreRange t base size e = Ok (ok, t') /\ wf_root t' /\
    (if ok then Permutation (descendants t') ((base, base + size - 1, e) :: descendants t)
     else descendants t' = descendants t) /\
    (ok = true <-> (0 < size /\ base + size <= 2 ^ w) /\
                   Forall (compatible base (base + size - 1)) (descendants t)).
Proof.
  intros Hwf Hb Hs. unfold uint in *.
  destruct (decide (0 < size /\ base + size <= 2 ^ w)) as [[Hs' He]|Hn].
  - destruct (StoreRange_fuel_stored (S (height t)) t (-1) (2 ^ w) base size e)
      as (ok & t' & EQ & _ & _ & Hw & Hd & Hok); try done; try lia.
    exists ok, t'. split; [exact EQ|]. split; [exact Hw|]. split; [done|]. rewrite Hok. tauto.
  - exists false, t. rewrite ContainedStoreRange_refused by (unfold uint; done).
    split; [done|]. split; [done|]. split; [done|]. split; [done|tauto].
Qed.

(** The node itself is kept. *)
Lemma ContainedStoreRange_root t base size e ok t' :
  StoreRange t base size e = Ok (ok, t') -> cbase t' = cbase t /\ centry t' = centry t.
Proof.
  unfold StoreRange. cbn [StoreRange_fuel]. destruct (_ || _); [by intros [= <- <-]|].
  destruct (match children t !! _ with Some _ => _ | None => _ end).
  - destruct (children t !! _) as [child|]; cbn [of_option obind]; [|done].
    destruct (_ && _); [by intros [= <- <-]; destruct t|].
    destruct (StoreRange_fuel _ _ _ _ _) as [[ok' c']|]; cbn [obind]; [|done].
    intros [= <- <-]. by destruct t.
  - destruct (_ || _); intros [= <- <-]; by destruct t.
Qed.

(** ** Retrieval *)

Definition contains (a : Z) (r : Z * Z * E) : Prop := r.1.1 <= a <= r.1.2.

(** [r] is around [a] and inside every stored range around [a]. *)
Definition innermost (l : list (Z * Z * E)) (a : Z) (r : Z * Z * E) : Prop :=
  r ∈ l /\ contains a r /\
  forall r', r' ∈ l -> contains a r' -> r'.1.1 <= r.1.1 /\ r.1.2 <= r'.1.2.

Definition retrieved_entry (l : list (Z * Z * E)) (a : Z) (o : option E) : Prop :=
  match o with
  | Some e => exists r, innermost l a r /\ r.2 = e
  | None => forall r, r ∈ l -> ~ contains a r
  end.

(** Only the child over [a] matters. *)
Lemma ranges_around lo hi m1 (c : Z * node) m2 a (r : Z * Z * E) :
  wf_children lo hi (m1 ++ c :: m2) ->
  (forall p, p ∈ m1 -> p.1 < a) -> a <= c.1 -> contains a r ->
  r ∈ ranges (m1 ++ c :: m2) <-> r ∈ below_child c.
Proof.
  intros (Hw1 & (Hwc & Hw2 & Ho)%wf_children_cons & _)%wf_children_app H1 Hc Hr.
  rewrite ranges_app, ranges_cons, !elem_of_app. unfold contains in Hr.
  split; [|tauto]. intros [Hin|[Hin|Hin]]; [|done|]; exfalso;
    apply elem_of_ranges in Hin as (p & Hp & Hin).
  - pose proof (below_child_within _ _ _ _ (wf_children_in _ _ _ _ Hw1 Hp) Hin).
    apply H1 in Hp. lia.
  - pose proof (below_child_within _ _ _ _ (wf_children_in _ _ _ _ Hw2 Hp) Hin).
    apply Ho in Hp. unfold ordered in Hp. lia.
Qed.

Lemma lookup_halves m (a : Z) (c : Z * node) :
  sorted m -> m !! lower_bound m a = Some c ->
  exists m1 m2, m = m1 ++ c :: m2 /\ (forall p, p ∈ m1 -> p.1 < a) /\ a <= c.1.
Proof.
  intros Hs Hc. destruct (lower_bound_spec m a Hs) as [H1 _]. rewrite Forall_forall in H1.
  exists (take (lower_bound m a) m), (drop (S (lower_bound m a)) m). split_and!.
  - by rewrite <- (drop_S _ _ _ Hc), take_drop.
  - intros p Hp%H1. by apply Z.ltb_lt in Hp.
  - pose proof (prefix_len_at _ _ _ Hc) as Hk. by apply Z.ltb_ge in Hk.
Qed.

Lemma RetrieveRange_fuel_spec fuel : forall t lo hi a,
  (height t < fuel)%nat -> wf_tree lo hi t ->
  exists o, RetrieveRange_fuel fuel t a = Ok o /\ retrieved_entry (descendants t) a o.
Proof.
  induction fuel as [|f IH]; [lia|]. intros t lo hi a Hf Hwf. cbn [RetrieveRange_fuel].
  pose proof Hwf as Hwc. rewrite wf_tree_children in Hwc.
  pose proof (descendants_ranges t _ eq_refl) as Hd.
  destruct (cmap t) as [m|] eqn:Em; unfold children in *; rewrite Em in *; simpl in Hwc, Hd.
  2:{ exists None. split; [done|]. rewrite Hd. simpl. set_solver. }
  pose proof (wf_children_sorted _ _ _ Hwc) as Hs.
  destruct (m !! lower_bound m a) as [c|] eqn:Ec.
  - destruct (lookup_halves m a c Hs Ec) as (m1 & m2 & Hm & H1 & Hc).
    pose proof Hwc as Hwm. rewrite Hm in Hwm.
    assert (c ∈ m) as Hcm by (rewrite Hm; set_solver).
    destruct (wf_children_in _ _ _ _ Hwc Hcm) as [Hwi Hwt].
    destruct (Z.ltb_spec a (cbase c.2)) as [Hlt|Hge].
    + exists None. split; [done|]. rewrite Hd, Hm. intros r Hr Ha.
      rewrite (ranges_around lo hi m1 c m2 a r) in Hr by done.
      pose proof (below_child_within lo hi c r (conj Hwi Hwt) Hr). unfold contains in Ha. lia.
    + assert (c ∈ children t) as Hct by (unfold children; by rewrite Em).
      pose proof (height_child t c Hct).
      destruct (IH c.2 (cbase c.2) c.1 a ltac:(lia) Hwt) as (o & -> & Ho).
      cbn [obind]. eexists. split; [done|]. rewrite Hd, Hm.
      assert (forall r, contains a r ->
                r ∈ ranges (m1 ++ c :: m2) <-> r ∈ below_child c) as Hiff.
      { intros r Hr. by apply (ranges_around lo hi m1 c m2 a r). }
      destruct o as [e|]; simpl in Ho |- *.
      * destruct Ho as (r & (Hr & Hra & Hmin) & <-). exists r. split; [|done].
        split; [apply Hiff; [done|]; by apply list_elem_of_further|]. split; [done|].
        intros r' Hr' Hra'. rewrite Hiff in Hr' by done.
        apply elem_of_cons in Hr' as [->|Hr']; [|by apply Hmin]. simpl.
        pose proof (descendants_within _ _ _ _ Hwt Hr). lia.
      * exists (cbase c.2, c.1, centry c.2). split; [|done].
        assert (contains a (cbase c.2, c.1, centry c.2)) as Hca by (unfold contains; simpl; lia).
        split; [apply Hiff; [done|]; by apply list_elem_of_here|]. split; [done|].
        intros r' Hr' Hra'. rewrite Hiff in Hr' by done.
        apply elem_of_cons in Hr' as [->|Hr']; [simpl; lia|]. by destruct (Ho r').
  - exists None. split; [done|]. rewrite Hd. intros r (p & Hp & Hr)%elem_of_ranges Ha.
    pose proof (below_child_within _ _ _ _ (wf_children_in _ _ _ _ Hwc Hp) Hr).
    destruct (lower_bound_spec m a Hs) as [H1 _]. rewrite Forall_forall in H1.
    apply lookup_ge_None in Ec. rewrite take_ge in H1 by done.
    apply H1, Z.ltb_lt in Hp. unfold contains in Ha. lia.
Qed.
End contained.

(** ** Properties *)

(** C27: [StoreRange] always returns; it accepts a range exactly when the range
    is non-empty, does not wrap, and is disjoint from, strictly inside or
    strictly around every stored range; an accepted range is added to the
    hierarchy and nothing is lost; a refused one changes nothing; and the
    hierarchy stays well nested. *)
Theorem ContainedStoreRange_functional (w : Z) {E : Type} (t : ContainedRangeMap E) (base size : Z) (e : E) :
  wf_root w t -> uint w base -> uint w size ->
  exists ok t', StoreRange w t base size e = Ok (ok, t') /\ wf_root w t' /\
    (if ok then Permutation (descendants t') ((base, base + size - 1, e) :: descendants t)
     else descendants t' = descendants t) /\
    (ok = true <-> (0 < size /\ base + size <= 2 ^ w) /\
                   Forall (compatible base (base + size - 1)) (descendants t)).
Proof. apply ContainedStoreRange_cases. Qed.

Definition example_tree : ContainedRangeMap Z :=
  mkContained 0 0 (Some [(19, mkContained 10 1 (Some [(15, mkContained 12 2 None)]));
                         (29, mkContained 25 3 None)]).

Lemma ContainedStoreRange_functional_witness :
  exists ok t', StoreRange 64 example_tree 5 30 9 = Ok (ok, t') /\ wf_root 64 t' /\
    (if ok then Permutation (descendants t') ((5, 34, 9) :: descendants example_tree)
     else descendants t' = descendants example_tree) /\
    (ok = true <-> (0 < 30 /\ 5 + 30 <= 2 ^ 64) /\
                   Forall (compatible 5 34) (descendants example_tree)).
Proof.
  apply (ContainedStoreRange_functional 64 example_tree 5 30 9); [|split; reflexivity || discriminate..].
  unfold wf_root. simpl. unfold within, ordered. simpl.
  repeat (apply conj || apply SSorted_cons || apply SSorted_nil || apply Forall_cons
          || apply Forall_nil || exact I); simpl; lia.
Defined.

(** C28: [RetrieveRange] always returns, and returns the entry of the innermost
    stored range around the address, or nothing when no stored range contains
    it. *)
Theorem RetrieveRange_innermost (w : Z) {E : Type} (t : ContainedRangeMap E) (a : Z) :
  wf_root w t ->
  exists o, RetrieveRange t a = Ok o /\ retrieved_entry (descendants t) a o.
Proof. intros Hwf. eapply RetrieveRange_fuel_spec; [lia|exact Hwf]. Qed.

Lemma RetrieveRange_innermost_witness :
  exists o, RetrieveRange example_tree 13 = Ok o /\
    retrieved_entry (descendants example_tree) 13 o.
Proof.
  apply (RetrieveRange_innermost 64 example_tree 13).
  unfold wf_root. simpl. unfold within, ordered. simpl.
  repeat (apply conj || apply SSorted_cons || apply SSorted_nil || apply Forall_cons
          || apply Forall_nil || exact I); simpl; lia.
Defined.
