(* ===== verification/AddressMap.v ===== *)
(** * AddressMap (processor/address_map.h, processor/address_map-inl.h)

    Entries stored at single addresses; retrieval finds the entry at the
    highest address not above the one asked for. *)

From S2P Require Import Prelude OrderedMap.
#[local] Open Scope Z_scope.

Section address_map.
Context {E : Type}.
Implicit Types (m : list (Z * E)) (e : E) (p q : Z * E).

Definition Store m (address : Z) e : bool * list (Z * E) :=
  if negb (find m address =? length m)%nat then (false, m)
  else (true, insert m address e).

(** [Some (entry, entry_address)] for [true]; the decrement of [begin()] is
    what the test avoids. *)
Definition Retrieve m (address : Z) : outcome (option (E * Z)) :=
  let iterator := upper_bound m address in
  if (iterator =? 0)%nat then Ok None
  else let? p := of_option (m !! (iterator - 1)%nat) in Ok (Some (p.2, p.1)).

Definition Clear (m : list (Z * E)) : list (Z * E) := [].

(** ** Theorems *)

(** The entry with the highest address not above [a]. *)
Definition last_at_most m (a : Z) p : Prop :=
  p ∈ m /\ p.1 <= a /\ forall q, q ∈ m -> q.1 <= a -> q.1 <= p.1.

Definition retrieve_result m (a : Z) (o : option (E * Z)) : Prop :=
  match o with
  | Some (e, k) => last_at_most m a (k, e)
  | None => forall q, q ∈ m -> a < q.1
  end.

Lemma Retrieve_spec m a : sorted m -> exists o, Retrieve m a = Ok o /\ retrieve_result m a o.
Proof.
  intros Hs. unfold Retrieve. destruct (upper_bound_spec m a Hs) as [H1 H2].
  rewrite Forall_forall in H1, H2. pose proof (upper_bound_le m a) as Hle.
  destruct (Nat.eqb_spec (upper_bound m a) 0) as [Ez|Ez].
  - exists None. split; [done|]. intros q Hq. rewrite Ez in H2. by apply H2, Z.ltb_lt in Hq.
  - destruct (m !! (upper_bound m a - 1)%nat) as [[k e]|] eqn:Ep;
      [|apply lookup_ge_None in Ep; lia].
    exists (Some (e, k)). split; [done|].
    assert ((k, e) ∈ take (upper_bound m a) m) as Hin.
    { apply (list_elem_of_lookup_2 _ (upper_bound m a - 1)%nat). by rewrite lookup_take_lt by lia. }
    split; [by eapply list_elem_of_lookup_2|]. split; [by apply H1, Z.ltb_ge in Hin|].
    intros q Hq Hqa.
    assert (m = take (upper_bound m a - 1) m ++ (k, e) :: drop (upper_bound m a) m) as Em.
    { rewrite <- (take_drop (upper_bound m a - 1) m) at 1. f_equal. rewrite (drop_S _ _ _ Ep).
      by replace (S (upper_bound m a - 1)) with (upper_bound m a) by lia. }
    rewrite Em in Hq, Hs. apply sorted_app in Hs as (Hlt & _ & _).
    apply elem_of_app in Hq as [Hq|[->|Hq]%elem_of_cons]; [|done|].
    + specialize (Hlt q (k, e) Hq ltac:(set_solver)). apply Z.ltb_lt in Hlt. simpl in *. lia.
    + apply H2, Z.ltb_lt in Hq. lia.
Qed.
End address_map.

(** [Store] keeps the map ordered, succeeds exactly for an address that
    is not stored yet and adds nothing but the new entry; [Retrieve] never
    steps before [begin()] and returns the entry with the highest address not
    above the one asked for. *)
Theorem AddressMap_functional {E : Type} (m : list (Z * E)) (address : Z) (e : E) (a : Z) :
  sorted m ->
  let (ok, m') := Store m address e in
  sorted m' /\
  (ok = true <-> forall e', (address, e') ∉ m) /\
  (forall p, p ∈ m' <-> (ok = true /\ p = (address, e)) \/ p ∈ m) /\
  exists o, Retrieve m' a = Ok o /\ retrieve_result m' a o.
Proof.
  intros Hs. unfold Store. rewrite find_end.
  pose proof (find_value_None m address Hs) as HN.
  destruct (find_value m address) as [e'|] eqn:EF; cbn [negb].
  - split; [done|]. split; [|split; [intros p; naive_solver|by apply Retrieve_spec]].
    split; [done|]. intros Hn. apply HN in Hn. done.
  - assert (sorted (insert m address e)) as Hs' by by apply insert_sorted.
    split; [done|]. split; [split; [intros _; by apply HN|done]|].
    split; [|by apply Retrieve_spec].
    intros p. rewrite elem_of_insert by done. naive_solver.
Qed.

Lemma AddressMap_functional_witness :
  let (ok, m') := Store [(4, 1); (9, 2)] 7 3 in
  sorted m' /\
  (ok = true <-> forall e', (7, e') ∉ [(4, 1); (9, 2)]) /\
  (forall p, p ∈ m' <-> (ok = true /\ p = (7, 3)) \/ p ∈ [(4, 1); (9, 2)]) /\
  exists o, Retrieve m' 8 = Ok o /\ retrieve_result m' 8 o.
Proof.
  apply (AddressMap_functional [(4, 1); (9, 2)] 7 3 8).
  repeat (apply SSorted_cons || apply SSorted_nil || apply Forall_cons || apply Forall_nil
          || apply conj || reflexivity).
Defined.
