(* ===== verification/StaticMap.v ===== *)
(** * StaticMap and StaticMapIterator (processor/static_map.h, -inl.h,
    processor/static_map_iterator.h, -inl.h)

    A read-only map over a memory image: a node count, the offsets of the
    values, the keys in increasing order, the values.  The lookups are binary
    searches that read the keys from the image; they are proved to return the
    positions [std::map] returns for the keys of the image.  A map always has
    a non-NULL [raw_data_] here. *)

From S2P Require Import Prelude Memory OrderedMap.
#[local] Open Scope Z_scope.

(** [base_], [index_] and [num_nodes_]; [offsets_] and [keys_] are functions
    of the first and the last. *)
Record StaticMapIterator : Type := mkIterator {
  index_ : Z;
  it_base_ : Z;
  it_num_nodes_ : Z;
}.

(** [raw_data_] and [num_nodes_] of the class. *)
Record StaticMap : Type := mkStaticMap {
  raw_data_ : Z;
  num_nodes_ : Z;
}.

(** Whether [Key] is a signed integer type; the address types are not. *)
Class KeyType := key_signed : bool.
#[export] Instance unsigned_keys : KeyType | 10 := false.
Definition int_keys : KeyType := true.

Section static_map.
(** The memory image and [sizeof(Key)]. *)
Context (mem : byte_list) (ks : nat) {KT : KeyType}.

(** A [Key] from its bytes. *)
Definition read_key (ptr : Z) : outcome Z :=
  let? v := read_at mem ptr ks in
  Ok (if key_signed then swrap (8 * Z.of_nat ks) v else v).

Definition int32_at (ptr : Z) : outcome Z :=
  let? v := read_at mem ptr 4 in Ok (swrap 32 v).

Definition offsets_ptr (base : Z) : Z := base + 4.
Definition keys_ptr (base num_nodes : Z) : Z := base + (1 + num_nodes) * 4.

(** ** StaticMapIterator *)

Definition new_iterator (base index : Z) : outcome StaticMapIterator :=
  let? n := int32_at base in Ok (mkIterator index base n).

Definition IsValid (it : StaticMapIterator) : bool :=
  negb ((index_ it <? 0) || (it_num_nodes_ it <? index_ it)).

Definition increment (it : StaticMapIterator) : StaticMapIterator :=
  if negb (IsValid it) then it
  else mkIterator (if it_num_nodes_ it <? index_ it + 1 then it_num_nodes_ it else index_ it + 1)
         (it_base_ it) (it_num_nodes_ it).

Definition decrement (it : StaticMapIterator) : StaticMapIterator :=
  if negb (IsValid it) then it
  else mkIterator (if index_ it - 1 <? 0 then 0 else index_ it - 1)
         (it_base_ it) (it_num_nodes_ it).

(** The postfix operators: the value returned and the iterator left. *)
Definition post_increment (it : StaticMapIterator) : StaticMapIterator * StaticMapIterator :=
  if negb (IsValid it) then (it, it) else (it, increment it).

Definition post_decrement (it : StaticMapIterator) : StaticMapIterator * StaticMapIterator :=
  if negb (IsValid it) then (it, it) else (it, decrement it).

(** NULL for an invalid iterator. *)
Definition GetKeyPtr (it : StaticMapIterator) : option Z :=
  if negb (IsValid it) then None
  else Some (keys_ptr (it_base_ it) (it_num_nodes_ it) + index_ it * Z.of_nat ks).

Definition GetKey (it : StaticMapIterator) : outcome Z :=
  let? ptr := of_option (GetKeyPtr it) in read_key ptr.

Definition GetValueRawPtr (it : StaticMapIterator) : outcome (option Z) :=
  if negb (IsValid it) then Ok None
  else let? off := read_at mem (offsets_ptr (it_base_ it) + index_ it * 4) 4 in
       Ok (Some (it_base_ it + off)).

(** [operator==] *)
Definition iterator_eq (x y : StaticMapIterator) : bool :=
  (it_base_ x =? it_base_ y) && (index_ x =? index_ y).

(** [operator!=] *)
Definition iterator_ne (x y : StaticMapIterator) : bool :=
  negb (it_base_ x =? it_base_ y) || negb (index_ x =? index_ y).

(** ** StaticMap *)

Definition new_map (raw_data : Z) : outcome StaticMap :=
  let? n := read_at mem raw_data 4 in Ok (mkStaticMap raw_data (swrap 32 n)).

Definition IteratorAtIndex (sm : StaticMap) (index : Z) : outcome StaticMapIterator :=
  new_iterator (raw_data_ sm) index.

Definition begin_ (sm : StaticMap) : outcome StaticMapIterator := IteratorAtIndex sm 0.
Definition last_ (sm : StaticMap) : outcome StaticMapIterator := IteratorAtIndex sm (num_nodes_ sm - 1).
Definition empty_ (sm : StaticMap) : bool := num_nodes_ sm =? 0.
Definition size_ (sm : StaticMap) : Z := wrap 32 (num_nodes_ sm).
Definition end_ (sm : StaticMap) : outcome StaticMapIterator := IteratorAtIndex sm (num_nodes_ sm).

Definition GetKeyAtIndex (sm : StaticMap) (index : Z) : outcome Z :=
  if (index <? 0) || (num_nodes_ sm <=? index) then Ok 0
  else read_key (keys_ptr (raw_data_ sm) (num_nodes_ sm) + index * Z.of_nat ks).

(** [DefaultCompare] *)
Definition compare_ (k1 k2 : Z) : Z := if k1 <? k2 then -1 else if k1 =? k2 then 0 else 1.

(** The loop of [find], [lower_bound] and [upper_bound]: the position where
    it stops and whether it stopped on the key. *)
Fixpoint search_loop (fuel : nat) (sm : StaticMap) (key begin end_ : Z) : outcome (Z * bool) :=
  match fuel with
  | O => Undef
  | S fuel =>
    if begin <? end_ then
      let middle := begin + Z.quot (end_ - begin) 2 in
      let? k := GetKeyAtIndex sm middle in
      let compare_result := compare_ key k in
      if compare_result =? 0 then Ok (middle, true)
      else if compare_result <? 0 then search_loop fuel sm key begin middle
      else search_loop fuel sm key (middle + 1) end_
    else Ok (begin, false)
  end.

(** Each iteration shrinks the interval: see [search_loop_spec]. *)
Definition search (sm : StaticMap) (key : Z) : outcome (Z * bool) :=
  search_loop (S (Z.to_nat (num_nodes_ sm))) sm key 0 (num_nodes_ sm).

Definition find (sm : StaticMap) (key : Z) : outcome StaticMapIterator :=
  let? (i, found) := search sm key in
  if (found : bool) then IteratorAtIndex sm i else end_ sm.

Definition lower_bound (sm : StaticMap) (key : Z) : outcome StaticMapIterator :=
  let? (i, found) := search sm key in IteratorAtIndex sm i.

Definition upper_bound (sm : StaticMap) (key : Z) : outcome StaticMapIterator :=
  let? (i, found) := search sm key in
  IteratorAtIndex sm (if (found : bool) then i + 1 else i).

(** The loop over the nodes 1 .. num_nodes_ - 1. *)
Fixpoint validate_nodes (fuel : nat) (sm : StaticMap) (node_index : Z) : outcome bool :=
  match fuel with
  | O => Undef
  | S fuel =>
    if node_index <? num_nodes_ sm then
      let? off := read_at mem (offsets_ptr (raw_data_ sm) + node_index * 4) 4 in
      let? off' := read_at mem (offsets_ptr (raw_data_ sm) + (node_index - 1) * 4) 4 in
      if off <=? off' then Ok false
      else
        let? k := GetKeyAtIndex sm node_index in
        let? k' := GetKeyAtIndex sm (node_index - 1) in
        if compare_ k k' <=? 0 then Ok false else validate_nodes fuel sm (node_index + 1)
    else Ok true
  end.

Definition ValidateInMemoryStructure (sm : StaticMap) : outcome bool :=
  let? num_nodes := int32_at (raw_data_ sm) in
  if num_nodes <? 0 then Ok false
  else
    let? first_ok :=
      (if negb (num_nodes_ sm =? 0) then
         let first_offset := wrap 64 (4 * (num_nodes_ sm + 1) + Z.of_nat ks * num_nodes_ sm) in
         if 0xffffffff <? first_offset then Ok false
         else let? off := read_at mem (offsets_ptr (raw_data_ sm)) 4 in
              Ok (off =? wrap 32 first_offset)
       else Ok true) in
    if (first_ok : bool) then validate_nodes (S (Z.to_nat (num_nodes_ sm))) sm 1 else Ok false.

Lemma read_key_same mem' ptr k :
  read_key ptr = Ok k -> keeps_on (region ptr (ptr + Z.of_nat ks)) mem mem' ->
  (let? v := read_at mem' ptr ks in
   Ok (if key_signed then swrap (8 * Z.of_nat ks) v else v)) = Ok k.
Proof.
  unfold read_key. intros (v & Hv & Hk)%obind_Ok HS. by rewrite (read_at_same _ _ _ _ _ Hv HS).
Qed.

(** ** Images

    [map_image raw keys offs]: at [raw] the image holds a node count, the
    offsets [offs] and the keys [keys]. *)
Record map_image (raw : Z) (keys offs : list Z) : Prop := {
  image_raw : 0 <= raw;
  image_count : read_at mem raw 4 = Ok (Z.of_nat (length keys));
  image_small : Z.of_nat (length keys) < 2 ^ 31;
  image_lengths : length offs = length keys;
  image_offset i o : offs !! i = Some o ->
    read_at mem (offsets_ptr raw + Z.of_nat i * 4) 4 = Ok o;
  image_key i k : keys !! i = Some k ->
    read_key (keys_ptr raw (Z.of_nat (length keys)) + Z.of_nat i * Z.of_nat ks) = Ok k;
}.

Section image.
Context (raw : Z) (keys offs : list Z) (Himg : map_image raw keys offs).
Let n := Z.of_nat (length keys).
Let sm := mkStaticMap raw n.

Lemma new_map_image : new_map raw = Ok sm.
Proof.
  unfold new_map. rewrite (image_count _ _ _ Himg). cbn [obind].
  pose proof (image_small _ _ _ Himg). rewrite swrap_small by (simpl; lia). done.
Qed.

Lemma IteratorAtIndex_image i : IteratorAtIndex sm i = Ok (mkIterator i raw n).
Proof.
  unfold IteratorAtIndex, new_iterator, int32_at. simpl raw_data_.
  rewrite (image_count _ _ _ Himg). cbn [obind].
  pose proof (image_small _ _ _ Himg). rewrite swrap_small by (simpl; lia). done.
Qed.

Lemma GetKeyAtIndex_image (i : nat) k :
  keys !! i = Some k -> GetKeyAtIndex sm (Z.of_nat i) = Ok k.
Proof.
  intros Hk. pose proof (lookup_lt_Some _ _ _ Hk). unfold GetKeyAtIndex. simpl num_nodes_.
  rewrite (proj2 (Z.ltb_ge _ _)), (proj2 (Z.leb_gt _ _)) by lia. cbn [orb].
  by apply (image_key _ _ _ Himg).
Qed.

Lemma GetKey_image (i : nat) k :
  keys !! i = Some k -> GetKey (mkIterator (Z.of_nat i) raw n) = Ok k.
Proof.
  intros Hk. pose proof (lookup_lt_Some _ _ _ Hk).
  unfold GetKey, GetKeyPtr, IsValid. simpl index_; simpl it_num_nodes_; simpl it_base_.
  rewrite !(proj2 (Z.ltb_ge _ _)) by lia. cbn [orb negb of_option obind].
  by apply (image_key _ _ _ Himg).
Qed.

Lemma GetValueRawPtr_image (i : nat) o :
  offs !! i = Some o ->
  GetValueRawPtr (mkIterator (Z.of_nat i) raw n) = Ok (Some (raw + o)).
Proof.
  intros Ho. pose proof (lookup_lt_Some _ _ _ Ho) as Hlt. rewrite (image_lengths _ _ _ Himg) in Hlt.
  unfold GetValueRawPtr, IsValid. simpl index_; simpl it_num_nodes_; simpl it_base_.
  rewrite !(proj2 (Z.ltb_ge _ _)) by lia. cbn [orb negb].
  by rewrite (image_offset _ _ _ Himg _ _ Ho).
Qed.

(** ** The binary search *)

Context (Hsorted : StronglySorted Z.lt keys).

Lemma keys_lt i j ki kj :
  keys !! i = Some ki -> keys !! j = Some kj -> (i < j)%nat -> ki < kj.
Proof.
  intros Hi Hj Hij. rewrite <- (take_drop (S i) keys) in Hsorted.
  apply (StronglySorted_app_1_elem_of _ _ _ _ _ Hsorted).
  - apply (list_elem_of_lookup_2 _ i). by rewrite lookup_take_lt by lia.
  - apply (list_elem_of_lookup_2 _ (j - S i)%nat). rewrite lookup_drop.
    by replace (S i + (j - S i))%nat with j by lia.
Qed.

(** Positions below [b] hold smaller keys, positions from [e] on larger
    ones. *)
Definition bracket (key : Z) (b e : nat) : Prop :=
  (b <= e <= length keys)%nat /\
  (forall i k, keys !! i = Some k -> (i < b)%nat -> k < key) /\
  (forall i k, keys !! i = Some k -> (e <= i)%nat -> key < k).

Definition search_result (key : Z) (r : Z * bool) : Prop :=
  exists p : nat, r.1 = Z.of_nat p /\
    if r.2 then keys !! p = Some key else bracket key p p.

Lemma search_loop_spec key fuel : forall b e,
  (e - b < fuel)%nat -> bracket key b e ->
  exists r, search_loop fuel sm key (Z.of_nat b) (Z.of_nat e) = Ok r /\ search_result key r.
Proof.
  induction fuel as [|f IH]; intros b e Hf Hbr; [lia|]. cbn [search_loop]. cbv zeta.
  destruct Hbr as (Hbe & Hlow & Hhigh).
  destruct (Z.ltb_spec (Z.of_nat b) (Z.of_nat e)) as [Hlt|Hge].
  2:{ exists (Z.of_nat b, false). split; [done|]. exists b. split; [done|].
      replace e with b in * by lia. done. }
  set (mid := (b + (e - b) / 2)%nat).
  assert (Z.of_nat b + Z.quot (Z.of_nat e - Z.of_nat b) 2 = Z.of_nat mid) as ->.
  { unfold mid. rewrite Z.quot_div_nonneg, Nat2Z.inj_add, Nat2Z.inj_div, Nat2Z.inj_sub by lia.
    done. }
  assert (b <= mid < e)%nat as Hmid.
  { unfold mid. split; [lia|]. assert ((e - b) / 2 < e - b)%nat by (apply Nat.div_lt; lia). lia. }
  destruct (lookup_lt_is_Some_2 keys mid) as [k Hk]; [lia|].
  rewrite (GetKeyAtIndex_image _ _ Hk). cbn [obind]. unfold compare_.
  destruct (Z.ltb_spec key k) as [Hkk|Hkk]; [|destruct (Z.eqb_spec key k) as [->|Hne]].
  - simpl. apply IH; [lia|]. split; [lia|]. split; [done|].
    intros i k' Hk' Hi. destruct (decide (i = mid)) as [->|]; [congruence|].
    assert (k < k') by (apply (keys_lt mid i); [done..|lia]). lia.
  - simpl. eexists. split; [done|]. by exists mid.
  - simpl. replace (Z.of_nat mid + 1) with (Z.of_nat (S mid)) by lia.
    apply IH; [lia|]. split; [lia|]. split; [|done].
    intros i k' Hk' Hi. destruct (decide (i = mid)) as [->|].
    + assert (k' = k) by congruence. lia.
    + assert (k' < k) by (apply (keys_lt i mid); [done..|lia]). lia.
Qed.

Lemma search_spec key :
  exists r, search sm key = Ok r /\ search_result key r.
Proof.
  unfold search. simpl num_nodes_. unfold n. rewrite Nat2Z.id.
  apply (search_loop_spec key _ 0 (length keys)); [lia|].
  split; [lia|]. split; [lia|]. intros i k Hk Hi. apply lookup_lt_Some in Hk. lia.
Qed.

(** ** Agreement with [std::map]

    The image as a [std::map] from its keys to its offsets. *)
Definition image_map : list (Z * Z) := zip keys offs.

Lemma fst_image_map : image_map.*1 = keys.
Proof. apply fst_zip. rewrite (image_lengths _ _ _ Himg). lia. Qed.

Lemma length_image_map : length image_map = length keys.
Proof. by rewrite <- fst_image_map, length_fmap. Qed.

Lemma image_map_key (i : nat) p : image_map !! i = Some p -> keys !! i = Some p.1.
Proof. intros Hi. by rewrite <- fst_image_map, list_lookup_fmap, Hi. Qed.

Lemma Forall_take_image (Q : Z -> Prop) (b : nat) :
  (forall i k, keys !! i = Some k -> (i < b)%nat -> Q k) ->
  Forall (fun p => Q p.1) (take b image_map).
Proof.
  intros HQ. apply Forall_lookup. intros i p [Hp Hi]%lookup_take_Some.
  apply (HQ i); [by apply image_map_key|lia].
Qed.

Lemma Forall_drop_image (Q : Z -> Prop) (e : nat) :
  (forall i k, keys !! i = Some k -> (e <= i)%nat -> Q k) ->
  Forall (fun p => Q p.1) (drop e image_map).
Proof.
  intros HQ. apply Forall_lookup. intros i p Hp. rewrite lookup_drop in Hp.
  apply (HQ (e + i)%nat); [by apply image_map_key|lia].
Qed.

(** The positions of [std::map] from the halves of the image. *)
Lemma bracket_bounds key p : bracket key p p ->
  OrderedMap.lower_bound image_map key = p /\ OrderedMap.upper_bound image_map key = p /\
  OrderedMap.find image_map key = length keys.
Proof.
  intros (Hp & Hlow & Hhigh).
  assert (Forall (fun q => q.1 < key) (take p image_map)) as H1 by by apply (Forall_take_image (fun k => k < key)).
  assert (Forall (fun q => key < q.1) (drop p image_map)) as H2 by by apply (Forall_drop_image (fun k => key < k)).
  assert (length (take p image_map) = p) as Hlen by (rewrite length_take, length_image_map; lia).
  assert (OrderedMap.lower_bound image_map key = p) as Hl.
  { rewrite <- (take_drop p image_map) at 1. rewrite <- Hlen at 3. apply lower_bound_split.
    - eapply Forall_impl; [exact H1|]. intros q Hq. by apply Z.ltb_lt.
    - eapply Forall_impl; [exact H2|]. intros q Hq. apply Z.ltb_ge. simpl in Hq. lia. }
  split; [done|]. split.
  - rewrite <- (take_drop p image_map) at 1. rewrite <- Hlen at 3. apply upper_bound_split.
    + eapply Forall_impl; [exact H1|]. intros q Hq. apply Z.ltb_ge. simpl in Hq. lia.
    + eapply Forall_impl; [exact H2|]. intros q Hq. by apply Z.ltb_lt.
  - unfold OrderedMap.find. rewrite Hl, length_image_map.
    destruct (image_map !! p) as [q|] eqn:Eq; [|done].
    apply image_map_key, Hhigh in Eq; [|lia]. rewrite Z_key_lt. by rewrite (proj2 (Z.ltb_lt _ _)).
Qed.

Lemma found_bounds key p : keys !! p = Some key ->
  OrderedMap.lower_bound image_map key = p /\ OrderedMap.upper_bound image_map key = S p /\
  OrderedMap.find image_map key = p.
Proof.
  intros Hp. pose proof (lookup_lt_Some _ _ _ Hp) as Hlt. rewrite <- length_image_map in Hlt.
  destruct (lookup_lt_is_Some_2 _ _ Hlt) as [q Hq].
  assert (q.1 = key) as Hqk.
  { apply image_map_key in Hq. congruence. }
  assert (Forall (fun q => q.1 < key) (take p image_map)) as H1.
  { apply (Forall_take_image (fun k => k < key)). intros i k Hk Hi. by apply (keys_lt i p). }
  assert (Forall (fun q => key < q.1) (drop (S p) image_map)) as H2.
  { apply (Forall_drop_image (fun k => key < k)). intros i k Hk Hi. apply (keys_lt p i); [done..|lia]. }
  assert (image_map = take p image_map ++ q :: drop (S p) image_map) as Em.
  { by rewrite <- (drop_S _ _ _ Hq), take_drop. }
  assert (length (take p image_map) = p) as Hlen by (rewrite length_take; lia).
  assert (OrderedMap.lower_bound image_map key = p) as Hl.
  { rewrite Em at 1. rewrite <- Hlen at 3. apply lower_bound_split.
    - eapply Forall_impl; [exact H1|]. intros q' Hq'. by apply Z.ltb_lt.
    - constructor; [apply Z.ltb_ge; lia|].
      eapply Forall_impl; [exact H2|]. intros q' Hq'. apply Z.ltb_ge. simpl in Hq'. lia. }
  split; [done|]. split.
  - rewrite Em at 1. rewrite cons_middle, app_assoc.
    replace (S p) with (length (take p image_map ++ [q])) by (rewrite length_app, Hlen; simpl; lia).
    apply upper_bound_split.
    + apply Forall_app. split; [|constructor; [apply Z.ltb_ge; lia|constructor]].
      eapply Forall_impl; [exact H1|]. intros q' Hq'. apply Z.ltb_ge. simpl in Hq'. lia.
    + rewrite length_app, Hlen. simpl. rewrite Nat.add_1_r.
      eapply Forall_impl; [exact H2|]. intros q' Hq'. by apply Z.ltb_lt.
  - unfold OrderedMap.find. rewrite Hl, Hq, Z_key_lt, Hqk, Z.ltb_irrefl. done.
Qed.

Lemma lookups_std_map key :
  find sm key = Ok (mkIterator (Z.of_nat (OrderedMap.find image_map key)) raw n) /\
  lower_bound sm key = Ok (mkIterator (Z.of_nat (OrderedMap.lower_bound image_map key)) raw n) /\
  upper_bound sm key = Ok (mkIterator (Z.of_nat (OrderedMap.upper_bound image_map key)) raw n).
Proof.
  destruct (search_spec key) as ([i found] & Hs & p & Hi & Hr). simpl in Hi, Hr. subst i.
  unfold find, lower_bound, upper_bound, end_. rewrite Hs. cbn [obind].
  destruct found.
  - destruct (found_bounds _ _ Hr) as (-> & -> & ->). rewrite !IteratorAtIndex_image.
    by rewrite Nat2Z.inj_succ.
  - destruct (bracket_bounds _ _ Hr) as (-> & -> & ->). by rewrite !IteratorAtIndex_image.
Qed.

(** ** Validation *)

Lemma validate_nodes_image fuel : forall i : nat,
  StronglySorted Z.lt offs -> (length keys < fuel + S i)%nat ->
  validate_nodes (S fuel) sm (Z.of_nat (S i)) = Ok true.
Proof.
  induction fuel as [|f IH]; intros i Ho Hf; cbn [validate_nodes]; simpl num_nodes_;
    destruct (Z.ltb_spec (Z.of_nat (S i)) n) as [Hlt|]; try done; unfold n in Hlt; [lia|].
  pose proof (image_lengths _ _ _ Himg) as Hl.
  destruct (lookup_lt_is_Some_2 offs (S i)) as [o1 Ho1]; [lia|].
  destruct (lookup_lt_is_Some_2 offs i) as [o0 Ho0]; [lia|].
  destruct (lookup_lt_is_Some_2 keys (S i)) as [k1 Hk1]; [lia|].
  destruct (lookup_lt_is_Some_2 keys i) as [k0 Hk0]; [lia|].
  simpl raw_data_. rewrite (image_offset _ _ _ Himg _ _ Ho1). cbn [obind].
  replace (Z.of_nat (S i) - 1) with (Z.of_nat i) by lia.
  rewrite (image_offset _ _ _ Himg _ _ Ho0). cbn [obind].
  assert (o0 < o1).
  { pose proof Ho as Hs. rewrite <- (take_drop (S i) offs) in Hs.
    apply (StronglySorted_app_1_elem_of _ _ _ _ _ Hs).
    - apply (list_elem_of_lookup_2 _ i). by rewrite lookup_take_lt by lia.
    - apply (list_elem_of_lookup_2 _ 0%nat). rewrite lookup_drop. by rewrite Nat.add_0_r. }
  rewrite (proj2 (Z.leb_gt _ _)) by lia.
  rewrite (GetKeyAtIndex_image _ _ Hk1), (GetKeyAtIndex_image _ _ Hk0). cbn [obind].
  assert (k0 < k1) by (apply (keys_lt i (S i)); [done..|lia]).
  unfold compare_. rewrite (proj2 (Z.ltb_ge _ _)) by lia. rewrite (proj2 (Z.eqb_neq _ _)) by lia.
  replace (Z.of_nat (S i) + 1) with (Z.of_nat (S (S i))) by lia.
  apply IH; [done|lia].
Qed.

Lemma Validate_image :
  StronglySorted Z.lt offs ->
  (forall o, head offs = Some o ->
     o = 4 * (n + 1) + Z.of_nat ks * n /\ o <= 0xffffffff) ->
  ValidateInMemoryStructure sm = Ok true.
Proof.
  intros Ho Hfirst. unfold ValidateInMemoryStructure, int32_at. simpl raw_data_; simpl num_nodes_.
  pose proof (image_small _ _ _ Himg).
  rewrite (image_count _ _ _ Himg). cbn [obind].
  rewrite swrap_small by (simpl; lia). rewrite (proj2 (Z.ltb_ge _ _)) by lia.
  assert (validate_nodes (S (Z.to_nat n)) sm 1 = Ok true) as Hv.
  { change 1 with (Z.of_nat 1). apply validate_nodes_image; [done|]. unfold n. lia. }
  destruct (Z.eqb_spec n 0) as [Hz|Hz]; cbn [negb obind]; [exact Hv|].
  pose proof (image_lengths _ _ _ Himg) as Hl.
  destruct offs as [|o os]; [simpl in Hl; unfold n in Hz; lia|].
  destruct (Hfirst o eq_refl) as [Heq Hle].
  rewrite (wrap_small 64) by (unfold uint, n in *; lia).
  rewrite <- Heq. rewrite (proj2 (Z.ltb_ge _ _)) by lia.
  pose proof (image_offset _ _ _ Himg 0 o eq_refl) as H0.
  rewrite Nat2Z.inj_0, Z.mul_0_l, Z.add_0_r in H0. rewrite H0. cbn [obind].
  rewrite wrap_small by (unfold uint, n in *; lia). rewrite Z.eqb_refl. exact Hv.
Qed.
End image.
End static_map.
