(* ===== verification/SimpleSerializer.v ===== *)
(** * SimpleSerializer (processor/simple_serializer.h)

    What the map serializers ask of the types they serialize, as a class, with
    the laws that are proved for every serializable type; the default
    template, [bool] and the strings. *)

From S2P Require Import Prelude Memory.
#[local] Open Scope Z_scope.

(** [SizeOf] and [Write]; [Write] returns the memory and the address after
    the last byte written.  [dest] is never NULL. *)
Class SimpleSerializer (T : Type) := {
  SizeOf : T -> Z;
  Write : T -> byte_list -> Z -> outcome (byte_list * Z);
}.

(** [f] advances by [size], changes only the bytes it passes over, and leaves
    [P] there; [P] depends on nothing else. *)
Record writer_spec (f : byte_list -> Z -> outcome (byte_list * Z)) (size : Z)
    (P : byte_list -> Z -> Prop) : Prop := {
  writer_size : 0 <= size;
  writer_writes mem dest :
    0 <= dest -> dest + size <= Z.of_nat (length mem) ->
    exists mem', f mem dest = Ok (mem', dest + size) /\ P mem' dest /\
      same_on (beyond dest (dest + size)) mem mem';
  writer_same mem mem' ptr :
    P mem ptr -> keeps_on (region ptr (ptr + size)) mem mem' -> P mem' ptr;
}.

(** The contract of a serializer: [stored x mem ptr] says that [x] is laid out
    at [ptr], and holds after [x] is written there. *)
Class SerializerLaws (T : Type) `{SimpleSerializer T} := {
  representable : T -> Prop;
  stored : T -> byte_list -> Z -> Prop;
  Write_spec x : representable x -> writer_spec (Write x) (SizeOf x) (stored x);
}.

Lemma writer_seq f g s1 s2 (P Q : byte_list -> Z -> Prop) :
  writer_spec f s1 P -> writer_spec g s2 Q ->
  writer_spec (fun mem dest => let? (mem, dest) := f mem dest in g mem dest) (s1 + s2)
    (fun mem ptr => P mem ptr /\ Q mem (ptr + s1)).
Proof.
  intros [Hs1 Hf HP] [Hs2 Hg HQ]. split; [lia| |].
  - intros mem dest Hd Hl. destruct (Hf mem dest) as (m1 & E1 & P1 & S1); [lia..|].
    rewrite E1. cbn [obind]. pose proof S1 as [L1 _].
    destruct (Hg m1 (dest + s1)) as (m2 & E2 & Q2 & S2); [lia..|].
    exists m2. rewrite E2. split; [f_equal; f_equal; lia|]. split; [split; [|done]|].
    + apply (HP m1); [done|]. apply (same_keeps _ _ _ _ S2). regions.
    + apply (same_on_trans _ _ _ _ _ _ S1 S2). regions.
  - intros mem mem' ptr [H1 H2] HS. split.
    + apply (HP mem); [done|]. apply (keeps_on_mono _ _ _ _ HS). regions.
    + apply (HQ mem); [done|]. apply (keeps_on_mono _ _ _ _ HS). regions.
Qed.

Lemma writer_mono f size (P Q : byte_list -> Z -> Prop) :
  writer_spec f size P -> (forall mem ptr, P mem ptr <-> Q mem ptr) -> writer_spec f size Q.
Proof.
  intros [H1 H2 H3] HPQ. split; [done| |].
  - intros mem dest Hd Hl. destruct (H2 mem dest Hd Hl) as (m' & E1 & HP & HS).
    exists m'. by rewrite <- HPQ.
  - intros mem mem' ptr. rewrite <- !HPQ. apply H3.
Qed.

Lemma writer_bytes bs :
  writer_spec (fun mem dest => let? mem := write_at mem dest bs in
                               Ok (mem, dest + Z.of_nat (length bs)))
    (Z.of_nat (length bs)) (fun mem ptr => holds mem ptr bs).
Proof.
  split; [lia| |].
  - intros mem dest Hd Hl. destruct (write_at_spec mem dest bs) as (m' & -> & Hh & HS); [lia..|].
    cbn [obind]. eauto.
  - intros mem mem' ptr. apply holds_same.
Qed.

(** ** The default template, for a [n]-byte integer *)

Definition int_SizeOf (n : nat) (item : Z) : Z := Z.of_nat n.

Definition int_Write (n : nat) (item : Z) (mem : byte_list) (dest : Z) : outcome (byte_list * Z) :=
  let? mem := write_at mem dest (le_bytes n item) in Ok (mem, dest + int_SizeOf n item).

Lemma int_Write_spec n item :
  writer_spec (int_Write n item) (int_SizeOf n item) (fun mem ptr => holds mem ptr (le_bytes n item)).
Proof.
  pose proof (writer_bytes (le_bytes n item)) as H. rewrite length_le_bytes in H. exact H.
Qed.

(** ** bool *)

Definition bool_SizeOf (boolean : bool) : Z := 1.

Definition bool_Write (boolean : bool) (mem : byte_list) (dest : Z) : outcome (byte_list * Z) :=
  let? mem := write_at mem dest [if boolean then 255 else 0] in Ok (mem, dest + 1).

Definition bool_Read (mem : byte_list) (source : Z) : outcome (bool * Z) :=
  let? c := read_at mem source 1 in Ok (negb (c =? 0), source + 1).

Lemma bool_Write_spec b :
  writer_spec (bool_Write b) (bool_SizeOf b) (fun mem ptr => holds mem ptr [if b then 255 else 0]).
Proof. apply writer_bytes. Qed.

Lemma bool_Read_stored (b : bool) mem ptr :
  holds mem ptr [if b then 255 else 0] -> bool_Read mem ptr = Ok (b, ptr + 1).
Proof.
  intros Hh%read_at_holds. unfold bool_Read. simpl length in Hh. rewrite Hh. by destruct b.
Qed.

(** ** Strings

    The characters of a [std::string], which may contain a NUL; [strcpy]
    stops at the first one. *)

Definition strlen (cstring : byte_list) : nat := prefix_len (fun c => negb (c =? 0)) cstring.

Definition strcpy (mem : byte_list) (dest : Z) (s : byte_list) : outcome byte_list :=
  write_at mem dest (take (strlen s) s ++ [0]).

Definition string_SizeOf (str : byte_list) : Z := Z.of_nat (length str) + 1.

Definition string_Write (str : byte_list) (mem : byte_list) (dest : Z) : outcome (byte_list * Z) :=
  let? mem := strcpy mem dest str in Ok (mem, dest + string_SizeOf str).

Definition cstring_SizeOf (cstring : byte_list) : Z := Z.of_nat (strlen cstring) + 1.

Definition cstring_Write (cstring : byte_list) (mem : byte_list) (dest : Z) :
    outcome (byte_list * Z) :=
  let? mem := strcpy mem dest cstring in Ok (mem, dest + cstring_SizeOf cstring).

Lemma strlen_no_nul s : no_nul s -> strlen s = length s.
Proof.
  intros Hs. unfold strlen. rewrite <- (app_nil_r s) at 1. apply prefix_len_split; [|constructor].
  eapply Forall_impl; [exact Hs|]. intros c Hc. by apply negb_true_iff, Z.eqb_neq.
Qed.

Lemma cstring_Write_spec s :
  writer_spec (cstring_Write s) (cstring_SizeOf s)
    (fun mem ptr => holds mem ptr (take (strlen s) s ++ [0])).
Proof.
  pose proof (writer_bytes (take (strlen s) s ++ [0])) as H.
  assert (Z.of_nat (length (take (strlen s) s ++ [0])) = cstring_SizeOf s) as E.
  { rewrite length_app, length_take. unfold cstring_SizeOf.
    pose proof (prefix_len_le (fun c => negb (c =? 0)) s). unfold strlen. simpl. lia. }
  rewrite E in H. exact H.
Qed.

Lemma string_Write_spec s :
  no_nul s ->
  writer_spec (string_Write s) (string_SizeOf s) (fun mem ptr => holds mem ptr (s ++ [0])).
Proof.
  intros Hs. pose proof (cstring_Write_spec s) as H. unfold cstring_Write, cstring_SizeOf in H.
  rewrite strlen_no_nul, firstn_all in H by done. exact H.
Qed.

(** ** Serializable integers

    The default template at an integer type of [n] bytes. *)
Definition int_serializer (n : nat) : SimpleSerializer Z :=
  {| SizeOf := int_SizeOf n; Write := int_Write n |}.

Definition int_laws (n : nat) : @SerializerLaws Z (int_serializer n).
Proof.
  refine (@Build_SerializerLaws _ (int_serializer n) (fun z => uint (8 * Z.of_nat n) z)
            (fun z mem ptr => holds mem ptr (le_bytes n z)) _).
  intros z _. apply int_Write_spec.
Defined.

(** ** linked_ptr: nothing is written for a NULL pointer *)

Section linked_ptr.
Context {T : Type} `{SerializerLaws T}.

Definition linked_ptr_SizeOf (p : option T) : Z :=
  match p with None => 0 | Some x => SizeOf x end.

Definition linked_ptr_Write (p : option T) (mem : byte_list) (dest : Z) :
    outcome (byte_list * Z) :=
  match p with Some x => Write x mem dest | None => Ok (mem, dest) end.

#[export] Instance linked_ptr_serializer : SimpleSerializer (option T) :=
  {| SizeOf := linked_ptr_SizeOf; Write := linked_ptr_Write |}.

#[export] Instance linked_ptr_laws : SerializerLaws (option T).
Proof.
  refine {| representable p := match p with None => True | Some x => representable x end;
            stored p mem ptr := match p with None => True | Some x => stored x mem ptr end |}.
  intros [x|] Hx; simpl.
  - by apply Write_spec.
  - split; [done| |done]. intros mem dest Hd Hl. rewrite Z.add_0_r. by exists mem.
Defined.
End linked_ptr.
