(* ===== verification/MapSerializers.v ===== *)
(** * Map serializers (processor/map_serializers.h, -inl.h)

    [StdMapSerializer] (which [AddressMapSerializer] wraps),
    [RangeMapSerializer] and [ContainedRangeMapSerializer]: they write the
    node count, the offsets of the values, the keys and the values of a map
    into a buffer.  The theorems show that the buffer of [Serialize] is
    exactly filled and laid out the way [StaticMap] reads it. *)

From S2P Require Import Prelude Memory OrderedMap RangeMap ContainedRangeMap StaticMap SimpleSerializer.
#[local] Open Scope Z_scope.

(** ** Writing the nodes of a map *)

Section write_map.
(** [sizeof(Key)] and how a value is sized and written. *)
Context (ks : nat) {V : Type} (size_value : V -> Z)
        (write_value : V -> byte_list -> Z -> outcome (byte_list * Z)).
Implicit Types (nodes : list (Z * V)).

Fixpoint nodes_size nodes : Z :=
  match nodes with
  | [] => 0
  | (k, v) :: nodes => int_SizeOf ks k + size_value v + nodes_size nodes
  end.

(** The traversal: one node's offset, key and value per step. *)
Fixpoint write_nodes (start_address offsets : Z) nodes (mem : byte_list)
    (index key_address dest : Z) : outcome (byte_list * Z) :=
  match nodes with
  | [] => Ok (mem, dest)
  | (k, v) :: nodes =>
      let? mem := write_at mem (offsets + index * 4) (le_bytes 4 (wrap 32 (dest - start_address))) in
      let? (mem, key_address) := int_Write ks k mem key_address in
      let? (mem, dest) := write_value v mem dest in
      write_nodes start_address offsets nodes mem (index + 1) key_address dest
  end.

(** The header (number of nodes), then the nodes. *)
Definition write_map nodes (mem : byte_list) (dest : Z) : outcome (byte_list * Z) :=
  let start_address := dest in
  let size := Z.of_nat (length nodes) in
  let? (mem, dest) := int_Write 4 size mem dest in
  let offsets := dest in
  let key_address := dest + 4 * size in
  write_nodes start_address offsets nodes mem 0 key_address (key_address + Z.of_nat ks * size).
End write_map.

(** ** StdMapSerializer *)

Section std_map.
Context (ks : nat) {V : Type} `{SimpleSerializer V}.

Definition StdMap_SizeOf (m : list (Z * V)) : Z :=
  (1 + Z.of_nat (length m)) * 4 + nodes_size ks SizeOf m.

Definition StdMap_Write (m : list (Z * V)) : byte_list -> Z -> outcome (byte_list * Z) :=
  write_map ks Write m.
End std_map.

(** ** RangeMapSerializer *)

Section range_map.
Context (ks : nat) {E : Type} `{SimpleSerializer E}.

(** The base and the entry of a [Range]; its delta is not serialized. *)
Definition Range_SizeOf (r : Range E) : Z := int_SizeOf ks (base_ r) + SizeOf (entry_ r).

Definition Range_Write (r : Range E) (mem : byte_list) (dest : Z) : outcome (byte_list * Z) :=
  let? (mem, dest) := int_Write ks (base_ r) mem dest in Write (entry_ r) mem dest.

Definition RangeMap_SizeOf (m : RangeMap E) : Z :=
  (1 + Z.of_nat (length (map_ m))) * 4 + nodes_size ks Range_SizeOf (map_ m).

Definition RangeMap_Write (m : RangeMap E) : byte_list -> Z -> outcome (byte_list * Z) :=
  write_map ks Range_Write (map_ m).
End range_map.

(** ** ContainedRangeMapSerializer *)

Section contained.
Context (ks : nat) {E : Type} `{SimpleSerializer E}.

Fixpoint Contained_SizeOf (m : ContainedRangeMap E) : Z :=
  match m with
  | mkContained base entry map =>
      int_SizeOf ks base + SizeOf entry + 4 + 4 +
      match map with
      | None => 0
      | Some map => Z.of_nat (length map) * 4 + nodes_size ks Contained_SizeOf map
      end
  end.

Fixpoint Contained_Write (m : ContainedRangeMap E) (mem : byte_list) (dest : Z) :
    outcome (byte_list * Z) :=
  match m with
  | mkContained base entry map =>
      let? (mem, dest) := int_Write ks base mem dest in
      let? (mem, dest) := int_Write 4 (SizeOf entry) mem dest in
      let? (mem, dest) := Write entry mem dest in
      match map with
      | None => int_Write 4 0 mem dest
      | Some map => write_map ks Contained_Write map mem dest
      end
  end.
End contained.

(** ** Serialize

    [size_to_alloc] is an [unsigned int]; the new buffer holds arbitrary
    bytes. *)
Section serialize.
Context (heap : nat -> byte_list).

Definition Serialize (size : Z) (write : byte_list -> Z -> outcome (byte_list * Z)) :
    outcome (byte_list * Z) :=
  let size_to_alloc := wrap 32 size in
  let serialized_data := heap (Z.to_nat size_to_alloc) in
  let? (serialized_data, _) := write serialized_data 0 in
  Ok (serialized_data, size_to_alloc).

Definition StdMap_Serialize ks {V} `{SimpleSerializer V} (m : list (Z * V)) :=
  Serialize (StdMap_SizeOf ks m) (StdMap_Write ks m).

Definition RangeMap_Serialize ks {E} `{SimpleSerializer E} (m : RangeMap E) :=
  Serialize (RangeMap_SizeOf ks m) (RangeMap_Write ks m).

Definition Contained_Serialize ks {E} `{SimpleSerializer E} (m : ContainedRangeMap E) :=
  Serialize (Contained_SizeOf ks m) (Contained_Write ks m).
End serialize.

(** ** The layout written *)

Section layout.
Context (ks : nat) {KT : KeyType} {V : Type} (size_value : V -> Z)
        (stored_value : V -> byte_list -> Z -> Prop).
Implicit Types (nodes : list (Z * V)).

Definition values_size nodes : Z := foldr (fun p s => size_value p.2 + s) 0 nodes.

(** The offset of the value of node [i]. *)
Definition header_size nodes : Z :=
  4 * (1 + Z.of_nat (length nodes)) + Z.of_nat ks * Z.of_nat (length nodes).
Definition node_offset (first : Z) nodes (i : nat) : Z := first + values_size (take i nodes).
Definition node_offsets nodes : list Z :=
  (fun i => node_offset (header_size nodes) nodes i) <$> seq 0 (length nodes).

(** A map is laid out at [ptr]: [StaticMap]'s image, with each value stored
    at its offset. *)
Definition stored_map nodes (mem : byte_list) (ptr : Z) : Prop :=
  map_image mem ks ptr nodes.*1 (node_offsets nodes) /\
  forall i k v, nodes !! i = Some (k, v) ->
    stored_value v mem (ptr + node_offset (header_size nodes) nodes i).

Definition map_size nodes : Z := header_size nodes + values_size nodes.

Lemma nodes_size_split nodes :
  nodes_size ks size_value nodes = Z.of_nat ks * Z.of_nat (length nodes) + values_size nodes.
Proof.
  induction nodes as [|[k v] nodes IH]; simpl; [lia|].
  rewrite IH. unfold int_SizeOf. fold (values_size nodes). lia.
Qed.

Lemma values_size_app n1 n2 : values_size (n1 ++ n2) = values_size n1 + values_size n2.
Proof. induction n1 as [|p n1 IH]; simpl; [done|]. lia. Qed.

Lemma lookup_node_offsets nodes i :
  (i < length nodes)%nat ->
  node_offsets nodes !! i = Some (node_offset (header_size nodes) nodes i).
Proof. intros Hi. unfold node_offsets. rewrite list_lookup_fmap, lookup_seq_lt by done. done. Qed.

Lemma length_node_offsets nodes : length (node_offsets nodes) = length nodes.
Proof. unfold node_offsets. by rewrite length_fmap, length_seq. Qed.
End layout.

(** ** The traversal writes the layout *)

Section write_spec.
Context (ks : nat) {KT : KeyType} {V : Type} (size_value : V -> Z)
        (write_value : V -> byte_list -> Z -> outcome (byte_list * Z))
        (stored_value : V -> byte_list -> Z -> Prop).
Implicit Types (nodes : list (Z * V)).
Abbreviation value_spec v := (writer_spec (write_value v) (size_value v) (stored_value v)).
Abbreviation vsize := (values_size size_value).

Definition values_spec nodes : Prop := Forall (fun p => value_spec p.2) nodes.

Lemma values_size_nonneg nodes : values_spec nodes -> 0 <= vsize nodes.
Proof. induction 1 as [|p nodes [Hp _ _] _ IH]; simpl; lia. Qed.

Lemma values_size_prefix nodes i p :
  values_spec nodes -> nodes !! i = Some p ->
  0 <= vsize (take i nodes) /\ vsize (take i nodes) + size_value p.2 <= vsize nodes.
Proof.
  intros Hs Hp. unfold values_spec in Hs. rewrite <- (take_drop_middle _ _ _ Hp) in Hs.
  apply Forall_app in Hs as [H1 [_ H2]%Forall_cons].
  pose proof (values_size_nonneg _ H1). pose proof (values_size_nonneg _ H2).
  split; [done|]. rewrite <- (take_drop_middle _ _ _ Hp) at 2.
  rewrite values_size_app. simpl. lia.
Qed.

(** What node [i] looks like: its offset, its key and its value. *)
Definition node_stored (mem : byte_list) (start offs keys first : Z) nodes (i : nat) k v : Prop :=
  let o := node_offset size_value first nodes i in
  holds mem (offs + Z.of_nat i * 4) (le_bytes 4 o) /\
  holds mem (keys + Z.of_nat i * Z.of_nat ks) (le_bytes ks k) /\
  stored_value v mem (start + o).

(** One round of the loop. *)
Lemma write_node_spec k v mem start op kp dest :
  value_spec v -> 0 <= start <= op -> op + 4 <= kp -> kp + Z.of_nat ks <= dest ->
  dest + size_value v <= Z.of_nat (length mem) -> dest - start < 2 ^ 32 ->
  exists m1 m2 m3,
    write_at mem op (le_bytes 4 (wrap 32 (dest - start))) = Ok m1 /\
    int_Write ks k m1 kp = Ok (m2, kp + Z.of_nat ks) /\
    write_value v m2 dest = Ok (m3, dest + size_value v) /\
    holds m3 op (le_bytes 4 (dest - start)) /\ holds m3 kp (le_bytes ks k) /\
    stored_value v m3 dest /\
    same_on (fun a => beyond op (op + 4) a /\ beyond kp (kp + Z.of_nat ks) a /\
                      beyond dest (dest + size_value v) a) mem m3.
Proof.
  intros [Hv Hw Hst] H1 H2 H3 H4 H5.
  rewrite (wrap_small 32) by (unfold uint; lia).
  destruct (write_at_spec mem op (le_bytes 4 (dest - start))) as (m1 & E1 & Ho & S1);
    [lia|rewrite length_le_bytes; lia|]. rewrite length_le_bytes in S1.
  destruct (int_Write_spec ks k) as [_ HK _]. unfold int_SizeOf in HK.
  pose proof S1 as [L1 _].
  destruct (HK m1 kp) as (m2 & E2 & Hk & S2); [lia..|]. pose proof S2 as [L2 _].
  destruct (Hw m2 dest) as (m3 & E3 & Hs & S3); [lia..|].
  exists m1, m2, m3. split; [done|]. split; [done|]. split; [done|].
  assert (same_on (beyond kp (dest + size_value v)) m1 m3) as S13.
  { apply (same_on_trans _ _ _ _ _ _ S2 S3). regions. }
  split; [|split; [|split; [done|]]].
  - apply (holds_same m1); [done|]. rewrite length_le_bytes.
    apply (same_keeps _ _ _ _ S13). regions.
  - apply (holds_same m2); [done|]. rewrite length_le_bytes.
    apply (same_keeps _ _ _ _ S3). regions.
  - apply (same_on_trans _ (fun a => beyond kp (kp + Z.of_nat ks) a /\
                                      beyond dest (dest + size_value v) a) _ _ _ _ S1).
    + apply (same_on_trans _ _ _ _ _ _ S2 S3). tauto.
    + tauto.
Qed.

Lemma write_nodes_spec nodes : forall mem start offs index keys dest,
  let op := offs + index * 4 in
  let n := Z.of_nat (length nodes) in
  values_spec nodes -> 0 <= start <= op -> op + 4 * n <= keys ->
  keys + Z.of_nat ks * n <= dest -> dest + vsize nodes <= Z.of_nat (length mem) ->
  dest + vsize nodes - start < 2 ^ 32 ->
  exists mem',
    write_nodes ks write_value start offs nodes mem index keys dest = Ok (mem', dest + vsize nodes) /\
    (forall i k v, nodes !! i = Some (k, v) ->
       node_stored mem' start op keys (dest - start) nodes i k v) /\
    same_on (fun a => beyond op (op + 4 * n) a /\ beyond keys (keys + Z.of_nat ks * n) a /\
                      beyond dest (dest + vsize nodes) a) mem mem'.
Proof.
  induction nodes as [|[k v] nodes IH]; intros mem start offs index keys dest op n Hs H1 H2 H3 H4 H5.
  { exists mem. simpl. rewrite Z.add_0_r. split; [done|]. split; [done|apply same_on_refl]. }
  apply Forall_cons in Hs as [Hv Hs]. simpl in Hv. pose proof (values_size_nonneg _ Hs).
  pose proof Hv as [Hvs _ _]. subst n. simpl length in *. simpl vsize in *.
  destruct (write_node_spec k v mem start op keys dest)
    as (m1 & m2 & m3 & E1 & E2 & E3 & Ho & Hk & Hst & S3); [done|lia..|].
  cbn [write_nodes]. fold op. rewrite E1. cbn [obind]. rewrite E2. cbn [obind].
  rewrite E3. cbn [obind]. pose proof S3 as [L3 _].
  destruct (IH m3 start offs (index + 1) (keys + Z.of_nat ks) (dest + size_value v))
    as (m4 & E4 & Hn & S4); [done|lia..|].
  replace (offs + (index + 1) * 4) with (op + 4) in * by lia.
  exists m4. rewrite E4. split; [f_equal; f_equal; lia|]. split.
  - intros [|i] k' v' Hi; simpl in Hi.
    + injection Hi as <- <-. unfold node_stored, node_offset. simpl take. simpl vsize.
      rewrite Z.add_0_r, !Z.mul_0_l, !Z.add_0_r. replace (start + (dest - start)) with dest by lia.
      split; [|split].
      * apply (holds_same m3); [done|]. rewrite length_le_bytes.
        apply (same_keeps _ _ _ _ S4). regions.
      * apply (holds_same m3); [done|]. rewrite length_le_bytes.
        apply (same_keeps _ _ _ _ S4). regions.
      * destruct Hv as [_ _ Hsame]. apply (Hsame m3); [done|].
        apply (same_keeps _ _ _ _ S4). regions.
    + specialize (Hn i k' v' Hi). unfold node_stored, node_offset in *. simpl take. simpl vsize.
      replace (dest - start + (size_value v + vsize (take i nodes)))
        with (dest + size_value v - start + vsize (take i nodes)) by lia.
      replace (op + Z.of_nat (S i) * 4) with (op + 4 + Z.of_nat i * 4) by lia.
      replace (keys + Z.of_nat (S i) * Z.of_nat ks)
        with (keys + Z.of_nat ks + Z.of_nat i * Z.of_nat ks) by lia.
      done.
  - apply (same_on_trans _ _ _ _ _ _ S3 S4). regions.
Qed.

(** The values the layout can hold: keys of the key width and sizes that
    keep the 32-bit count and offsets exact. *)
Definition key_ok (k : Z) : Prop :=
  if key_signed then 0 < Z.of_nat ks /\ - 2 ^ (8 * Z.of_nat ks - 1) <= k < 2 ^ (8 * Z.of_nat ks - 1)
  else uint (8 * Z.of_nat ks) k.

Lemma read_key_spec mem ptr k :
  holds mem ptr (le_bytes ks k) -> key_ok k -> read_key mem ks ptr = Ok k.
Proof.
  intros Hh Hk. unfold read_key. rewrite (read_at_le _ _ _ _ Hh). cbn [obind]. apply f_equal.
  unfold key_ok in Hk. destruct key_signed; [|by apply wrap_small].
  rewrite swrap_wrap. apply swrap_small; lia.
Qed.

Definition map_fits nodes : Prop :=
  Forall (fun p => key_ok p.1) nodes /\
  Z.of_nat (length nodes) < 2 ^ 31 /\ map_size ks size_value nodes < 2 ^ 32.

Lemma node_stored_map mem ptr nodes :
  let n := Z.of_nat (length nodes) in
  map_fits nodes -> values_spec nodes -> 0 <= ptr -> holds mem ptr (le_bytes 4 n) ->
  (forall i k v, nodes !! i = Some (k, v) ->
     node_stored mem ptr (ptr + 4) (ptr + (1 + n) * 4) (header_size ks nodes) nodes i k v) ->
  stored_map ks size_value stored_value nodes mem ptr.
Proof.
  intros n (Hk & Hn & Hsz) Hs Hp Hc Hall. unfold map_size in Hsz.
  assert (length nodes.*1 = length nodes) as Lk by apply length_fmap.
  split; [split; rewrite ?Lk|].
  - done.
  - rewrite (read_at_le _ _ _ _ Hc). apply f_equal, wrap_small. unfold uint, n. lia.
  - done.
  - apply length_node_offsets.
  - intros i o Hi. pose proof (lookup_lt_Some _ _ _ Hi) as Hlt.
    rewrite length_node_offsets in Hlt. rewrite lookup_node_offsets in Hi by done.
    injection Hi as <-. destruct (lookup_lt_is_Some_2 _ _ Hlt) as [[k v] Hkv].
    destruct (Hall i k v Hkv) as (Ho & _ & _).
    unfold offsets_ptr. rewrite (read_at_le _ _ _ _ Ho). apply f_equal, wrap_small.
    pose proof (values_size_prefix nodes i _ Hs Hkv) as [? ?]. simpl in *.
    unfold values_spec in Hs. rewrite Forall_lookup in Hs. destruct (Hs _ _ Hkv) as [? _ _].
    unfold uint, node_offset, header_size in *. simpl in *. lia.
  - intros i k Hi. apply list_lookup_fmap_Some in Hi as ([k' v] & -> & Hkv).
    destruct (Hall i k' v Hkv) as (_ & Hkey & _). unfold keys_ptr. fold n.
    apply read_key_spec; [done|].
    rewrite Forall_lookup in Hk. by apply (Hk i (k', v)).
  - intros i k v Hkv. by destruct (Hall i k v Hkv) as (_ & _ & ?).
Qed.

Lemma write_map_spec nodes :
  map_fits nodes -> values_spec nodes ->
  forall mem dest, 0 <= dest -> dest + map_size ks size_value nodes <= Z.of_nat (length mem) ->
  exists mem', write_map ks write_value nodes mem dest = Ok (mem', dest + map_size ks size_value nodes) /\
    stored_map ks size_value stored_value nodes mem' dest /\
    same_on (beyond dest (dest + map_size ks size_value nodes)) mem mem'.
Proof.
  intros Hf Hs mem dest Hd Hl. pose proof Hf as (Hk & Hn & Hsz).
  pose proof (values_size_nonneg _ Hs) as Hv0. unfold write_map.
  set (n := Z.of_nat (length nodes)) in *. unfold map_size, header_size in *. fold n in Hsz, Hl |- *.
  destruct (int_Write_spec 4 n) as [_ HC _]. unfold int_SizeOf in HC.
  destruct (HC mem dest) as (m1 & E1 & Hc & S1); [lia..|]. rewrite E1. cbn [obind].
  pose proof S1 as [L1 _]. change (Z.of_nat 4) with 4 in *.
  destruct (write_nodes_spec nodes m1 dest (dest + 4) 0 (dest + 4 + 4 * n)
    (dest + 4 + 4 * n + Z.of_nat ks * n)) as (m2 & E2 & Hn2 & S2); [done|lia..|].
  fold n in S2. rewrite Z.mul_0_l, Z.add_0_r in *.
  exists m2. rewrite E2. split; [f_equal; f_equal; lia|]. split.
  - apply node_stored_map; try done.
    + apply (holds_same m1); [done|]. rewrite length_le_bytes.
      apply (same_keeps _ _ _ _ S2). regions.
    + fold n. unfold header_size. fold n.
      replace (dest + (1 + n) * 4) with (dest + 4 + 4 * n) by lia.
      replace (4 * (1 + n) + Z.of_nat ks * n)
        with (dest + 4 + 4 * n + Z.of_nat ks * n - dest) by lia. exact Hn2.
  - apply (same_on_trans _ _ _ _ _ _ S1 S2). regions.
Qed.
End write_spec.

(** ** The layouts as writer contracts *)

Section map_writer.
Context (ks : nat) {KT : KeyType} {V : Type} (size_value : V -> Z)
        (write_value : V -> byte_list -> Z -> outcome (byte_list * Z))
        (stored_value : V -> byte_list -> Z -> Prop) (nodes : list (Z * V)).
Context (Hfits : map_fits ks size_value nodes)
        (Hvalues : values_spec size_value write_value stored_value nodes).

Lemma map_size_nonneg : 0 <= map_size ks size_value nodes.
Proof.
  pose proof (values_size_nonneg _ _ _ _ Hvalues). unfold map_size, header_size. lia.
Qed.

Lemma stored_map_same mem mem' ptr :
  stored_map ks size_value stored_value nodes mem ptr ->
  keeps_on (region ptr (ptr + map_size ks size_value nodes)) mem mem' ->
  stored_map ks size_value stored_value nodes mem' ptr.
Proof.
  intros [[Hr Hc Hn Hlen Ho Hk] Hv] HS.
  pose proof (values_size_nonneg _ _ _ _ Hvalues) as Hv0.
  assert (length nodes.*1 = length nodes) as Lk by apply length_fmap.
  unfold map_size, header_size in HS.
  split; [split; try done|].
  - apply (read_at_same mem); [done|]. apply (keeps_on_mono _ _ _ _ HS). regions.
  - intros i o Hi. apply (read_at_same mem); [by apply Ho|].
    apply lookup_lt_Some in Hi. rewrite length_node_offsets in Hi. unfold offsets_ptr.
    apply (keeps_on_mono _ _ _ _ HS). regions.
  - intros i k Hi. apply (read_key_same mem); [by apply Hk|].
    apply lookup_lt_Some in Hi. rewrite Lk in *. unfold keys_ptr.
    apply (keeps_on_mono _ _ _ _ HS). unfold region. intros. split; [lia|].
    assert (Z.of_nat i * Z.of_nat ks + Z.of_nat ks <= Z.of_nat ks * Z.of_nat (length nodes)); [|lia].
    replace (Z.of_nat i * Z.of_nat ks + Z.of_nat ks) with (Z.of_nat ks * Z.of_nat (S i)) by lia.
    apply Z.mul_le_mono_nonneg_l; lia.
  - intros i k v Hi. pose proof (values_size_prefix _ _ _ _ _ _ Hvalues Hi) as [? ?].
    pose proof Hvalues as HV. unfold values_spec in HV. rewrite Forall_lookup in HV.
    destruct (HV _ _ Hi) as [_ _ Hsame]. apply (Hsame mem); [by apply (Hv i k)|].
    apply (keeps_on_mono _ _ _ _ HS). unfold node_offset, header_size. simpl in *. regions.
Qed.

Lemma map_writer :
  writer_spec (write_map ks write_value nodes) (map_size ks size_value nodes)
    (stored_map ks size_value stored_value nodes).
Proof.
  split; [apply map_size_nonneg| |].
  - intros mem dest Hd Hl. by apply write_map_spec.
  - apply stored_map_same.
Qed.
End map_writer.

(** A map whose values the value serializer can represent. *)
Definition serializable_values {V} `{SerializerLaws V} (nodes : list (Z * V)) : Prop :=
  Forall (fun p => representable p.2) nodes.

Section std_map_spec.
Context (ks : nat) {KT : KeyType} {V : Type} `{SerializerLaws V}.
Implicit Types (m : list (Z * V)).

Lemma StdMap_SizeOf_map_size m : StdMap_SizeOf ks m = map_size ks SizeOf m.
Proof. unfold StdMap_SizeOf, map_size, header_size. rewrite nodes_size_split. lia. Qed.

Lemma std_values_spec m :
  serializable_values m -> values_spec SizeOf Write stored m.
Proof. intros Hm. eapply Forall_impl; [exact Hm|]. intros p. apply Write_spec. Qed.

Lemma StdMap_Write_spec m :
  map_fits ks SizeOf m -> serializable_values m ->
  writer_spec (StdMap_Write ks m) (StdMap_SizeOf ks m) (stored_map ks SizeOf stored m).
Proof.
  intros Hf Hm. rewrite StdMap_SizeOf_map_size.
  apply map_writer; [done|by apply std_values_spec].
Qed.
End std_map_spec.

Section range_map_spec.
Context (ks : nat) {E : Type} `{SerializerLaws E}.
Implicit Types (r : Range E) (m : RangeMap E).

Definition stored_range r (mem : byte_list) (ptr : Z) : Prop :=
  holds mem ptr (le_bytes ks (base_ r)) /\ stored (entry_ r) mem (ptr + Z.of_nat ks).

Lemma Range_Write_spec r :
  representable (entry_ r) -> writer_spec (Range_Write ks r) (Range_SizeOf ks r) (stored_range r).
Proof. intros He. apply writer_seq; [apply int_Write_spec|by apply Write_spec]. Qed.

Lemma RangeMap_SizeOf_map_size m : RangeMap_SizeOf ks m = map_size ks (Range_SizeOf ks) (map_ m).
Proof. unfold RangeMap_SizeOf, map_size, header_size. rewrite nodes_size_split. lia. Qed.

Definition serializable_ranges m : Prop :=
  map_fits ks (Range_SizeOf ks) (map_ m) /\ Forall (fun p => representable (entry_ p.2)) (map_ m).

Definition stored_range_map m : byte_list -> Z -> Prop :=
  stored_map ks (Range_SizeOf ks) stored_range (map_ m).

Lemma RangeMap_Write_spec m :
  serializable_ranges m ->
  writer_spec (RangeMap_Write ks m) (RangeMap_SizeOf ks m) (stored_range_map m).
Proof.
  intros [Hf Hm]. rewrite RangeMap_SizeOf_map_size. apply map_writer; [done|].
  eapply Forall_impl; [exact Hm|]. intros p. apply Range_Write_spec.
Qed.
End range_map_spec.

Section contained_spec.
Context (ks : nat) {E : Type} `{SerializerLaws E}.
Abbreviation node := (ContainedRangeMap E).
Implicit Types (t c : node) (mem : byte_list) (ptr : Z).

(** The address of a node's map. *)
Definition map_address t ptr : Z := ptr + Z.of_nat ks + 4 + SizeOf (centry t).

Inductive stored_tree : node -> byte_list -> Z -> Prop :=
| stored_tree_node t mem ptr :
    holds mem ptr (le_bytes ks (cbase t)) ->
    holds mem (ptr + Z.of_nat ks) (le_bytes 4 (SizeOf (centry t))) ->
    stored (centry t) mem (ptr + Z.of_nat ks + 4) ->
    map_image mem ks (map_address t ptr) (children t).*1
      (node_offsets ks (Contained_SizeOf ks) (children t)) ->
    (forall i k c, children t !! i = Some (k, c) ->
       stored_tree c mem (map_address t ptr +
         node_offset (Contained_SizeOf ks) (header_size ks (children t)) (children t) i)) ->
    stored_tree t mem ptr.

Inductive serializable_tree : node -> Prop :=
| serializable_node t :
    uint (8 * Z.of_nat ks) (cbase t) -> representable (centry t) ->
    0 <= SizeOf (centry t) < 2 ^ 32 ->
    map_fits ks (Contained_SizeOf ks) (children t) ->
    (forall p, p ∈ children t -> serializable_tree p.2) ->
    serializable_tree t.

Lemma Contained_SizeOf_node t :
  Contained_SizeOf ks t =
  Z.of_nat ks + (4 + (SizeOf (centry t) + map_size ks (Contained_SizeOf ks) (children t))).
Proof.
  destruct t as [b e [m|]]; unfold map_size, header_size, children; simpl.
  - rewrite nodes_size_split. unfold int_SizeOf. lia.
  - unfold int_SizeOf. lia.
Qed.

Lemma Contained_Write_node t mem dest :
  Contained_Write ks t mem dest =
  (let? (mem, dest) := int_Write ks (cbase t) mem dest in
   let? (mem, dest) := int_Write 4 (SizeOf (centry t)) mem dest in
   let? (mem, dest) := Write (centry t) mem dest in
   write_map ks (Contained_Write ks) (children t) mem dest).
Proof.
  destruct t as [b e [m|]]; simpl; [done|].
  destruct (int_Write ks b mem dest) as [[m1 d1]|]; simpl; [|done].
  destruct (int_Write 4 (SizeOf e) m1 d1) as [[m2 d2]|]; simpl; [|done].
  destruct (Write e m2 d2) as [[m3 d3]|]; simpl; [|done].
  unfold write_map, children. simpl default. cbn [length write_nodes].
  change (Z.of_nat 0) with 0.
  destruct (int_Write 4 0 m3 d3) as [[m4 d4]|]; cbn [obind]; [|done].
  by rewrite !Z.mul_0_r, !Z.add_0_r.
Qed.

Lemma stored_tree_iff t mem ptr :
  stored_tree t mem ptr <->
  holds mem ptr (le_bytes ks (cbase t)) /\
  holds mem (ptr + Z.of_nat ks) (le_bytes 4 (SizeOf (centry t))) /\
  stored (centry t) mem (ptr + Z.of_nat ks + Z.of_nat 4) /\
  stored_map ks (Contained_SizeOf ks) stored_tree (children t) mem
    (ptr + Z.of_nat ks + Z.of_nat 4 + SizeOf (centry t)).
Proof.
  change (Z.of_nat 4) with 4. split.
  - inversion 1; subst. done.
  - intros (H1 & H2 & H3 & [H4 H5]). by constructor.
Qed.

Lemma Contained_Write_spec t :
  serializable_tree t -> writer_spec (Contained_Write ks t) (Contained_SizeOf ks t) (stored_tree t).
Proof.
  induction t as [t IH] using node_ind.
  inversion 1 as [? Hb He Hsz Hf Hc]; subst. rewrite Contained_SizeOf_node.
  assert (values_spec (Contained_SizeOf ks) (Contained_Write ks) stored_tree (children t)) as HV.
  { apply Forall_forall. intros p Hp. apply IH; [done|by apply Hc]. }
  pose proof (writer_seq _ _ _ _ _ _ (Write_spec _ He)
                (map_writer ks _ _ _ _ Hf HV)) as W3.
  pose proof (writer_seq _ _ _ _ _ _ (int_Write_spec 4 (SizeOf (centry t))) W3) as W2.
  pose proof (writer_seq _ _ _ _ _ _ (int_Write_spec ks (cbase t)) W2) as [W1s W1w W1c].
  unfold int_SizeOf in *. split; [exact W1s| |].
  - intros mem dest Hd Hl. destruct (W1w mem dest Hd Hl) as (m' & E1 & HP & HS).
    exists m'. rewrite Contained_Write_node. split; [exact E1|]. split; [|exact HS].
    apply stored_tree_iff. exact HP.
  - intros mem mem' ptr Hst HS. rewrite stored_tree_iff in Hst |- *.
    exact (W1c mem mem' ptr Hst HS).
Qed.
End contained_spec.

(** ** Serialize fills its buffer *)

(** [new char[n]] returns [n] bytes. *)
Definition allocates (heap : nat -> byte_list) : Prop := forall n, length (heap n) = n.

Lemma Serialize_spec heap f size P :
  allocates heap -> writer_spec f size P -> size < 2 ^ 32 ->
  exists buf, Serialize heap size f = Ok (buf, size) /\ Z.of_nat (length buf) = size /\ P buf 0.
Proof.
  intros Hh [Hs Hw _] Hsz. unfold Serialize. rewrite wrap_small by (unfold uint; lia).
  destruct (Hw (heap (Z.to_nat size)) 0) as (m' & E1 & HP & [HL _]); [done|rewrite Hh; lia|].
  rewrite E1. cbn [obind]. exists m'. split; [done|]. rewrite HL, Hh. split; [lia|done].
Qed.
