(* ===== verification/StaticMaps.v ===== *)
(** * The static maps (processor/static_address_map.h, static_range_map.h,
    static_contained_range_map.h and their -inl.h files)

    The read-only counterparts of [AddressMap], [RangeMap] and
    [ContainedRangeMap], which look addresses up in a serialized image.  They
    refine the dynamic maps: on the buffer a serializer produces they return
    the entries the dynamic map returns.  An entry is a pointer into the
    image. *)

From S2P Require Import Prelude Memory OrderedMap AddressMap RangeMap ContainedRangeMap StaticMap SimpleSerializer MapSerializers.
#[local] Open Scope Z_scope.

Lemma sorted_keys {V} (nodes : list (Z * V)) : sorted nodes -> StronglySorted Z.lt nodes.*1.
Proof.
  induction 1 as [|p m Hm IH Hp]; simpl; constructor; [exact IH|].
  apply Forall_fmap. eapply Forall_impl; [exact Hp|]. intros q Hq. by apply Z.ltb_lt.
Qed.

Section static_maps.
(** The image and [sizeof(AddressType)]. *)
Context (mem : byte_list) (ks : nat).
Abbreviation w := (8 * Z.of_nat ks).

(** ** StaticAddressMap *)

(** [Some (entry, entry_address)] for [true]; [entry] may be NULL. *)
Definition StaticAddressMap_Retrieve {KT : KeyType} (map_ : StaticMap) (address : Z) :
    outcome (option (option Z * Z)) :=
  let? iterator := StaticMap.upper_bound mem ks map_ address in
  let? begin := begin_ mem map_ in
  if iterator_eq iterator begin then Ok None
  else
    let iterator := decrement iterator in
    let? entry := GetValueRawPtr mem iterator in
    let? key := GetKey mem ks iterator in
    Ok (Some (entry, key)).

(** ** StaticRangeMap *)

(** [Range::base()] and [Range::entryptr()], at a pointer [this]; [Range] is
    an empty class, so [this + sizeof(AddressType)] counts bytes. *)
Definition Range_base (this : Z) : outcome Z := read_at mem this ks.
Definition Range_entryptr (this : Z) : Z := this + Z.of_nat ks.

Record StaticRetrieved : Type := mkStaticRetrieved {
  s_entry : Z;
  s_base : Z;
  s_size : Z;
}.

(** The assignments to the output parameters. *)
Definition static_retrieved (iterator : StaticMapIterator) : outcome StaticRetrieved :=
  let? ptr := GetValueRawPtr mem iterator in
  let? range := of_option ptr in
  let? base := Range_base range in
  let? key := GetKey mem ks iterator in
  Ok (mkStaticRetrieved (Range_entryptr range) base (wrap w (wrap w (key - base) + 1))).

Definition StaticRangeMap_RetrieveRange (map_ : StaticMap) (address : Z) :
    outcome (option StaticRetrieved) :=
  let? iterator := StaticMap.lower_bound mem ks map_ address in
  let? e := end_ mem map_ in
  if iterator_eq iterator e then Ok None
  else
    let? ptr := GetValueRawPtr mem iterator in
    let? range := of_option ptr in
    let? base := Range_base range in
    if address <? base then Ok None
    else let? r := static_retrieved iterator in Ok (Some r).

Definition StaticRangeMap_RetrieveNearestRange (map_ : StaticMap) (address : Z) :
    outcome (option StaticRetrieved) :=
  let? found := StaticRangeMap_RetrieveRange map_ address in
  match found with
  | Some r => Ok (Some r)
  | None =>
      let? iterator := StaticMap.upper_bound mem ks map_ address in
      let? begin := begin_ mem map_ in
      if iterator_eq iterator begin then Ok None
      else let? r := static_retrieved (decrement iterator) in Ok (Some r)
  end.

Definition StaticRangeMap_GetCount (map_ : StaticMap) : Z := swrap 32 (size_ map_).

Definition StaticRangeMap_RetrieveRangeAtIndex (map_ : StaticMap) (index : Z) :
    outcome (option StaticRetrieved) :=
  if StaticRangeMap_GetCount map_ <=? index then Ok None
  else
    let? iterator := IteratorAtIndex mem map_ index in
    let? r := static_retrieved iterator in Ok (Some r).

(** ** StaticContainedRangeMap *)

Record StaticContainedRangeMap : Type := mkStaticContained {
  sc_base_ : Z;
  sc_entry_size_ : Z;
  sc_entry_ptr_ : option Z;
  sc_map_ : StaticMap;
}.

(** The constructor. *)
Definition new_static_contained (base : Z) : outcome StaticContainedRangeMap :=
  let? base_ := read_at mem base ks in
  let? entry_size_ := read_at mem (base + Z.of_nat ks) 4 in
  let entry_ptr_ := base + Z.of_nat ks + 4 in
  let? map_ := new_map mem (base + Z.of_nat ks + 4 + entry_size_) in
  Ok (mkStaticContained base_ entry_size_
        (if entry_size_ =? 0 then None else Some entry_ptr_) map_).

(** [Some entry] for [true]; [entry] may be NULL.  The address of a child is
    above its parent's, so the recursion is at most as deep as the image is
    long. *)
Fixpoint StaticContained_RetrieveRange_fuel (fuel : nat) (this : StaticContainedRangeMap)
    (address : Z) : outcome (option (option Z)) :=
  match fuel with
  | O => Undef
  | S fuel =>
    let? iterator := StaticMap.lower_bound mem ks (sc_map_ this) address in
    let? e := end_ mem (sc_map_ this) in
    if iterator_eq iterator e then Ok None
    else
      let? ptr := GetValueRawPtr mem iterator in
      let? memory_child := of_option ptr in
      let? child_map := new_static_contained memory_child in
      if address <? sc_base_ child_map then Ok None
      else
        let? r := StaticContained_RetrieveRange_fuel fuel child_map address in
        match r with
        | Some entry => Ok (Some entry)
        | None => Ok (Some (sc_entry_ptr_ child_map))
        end
  end.

Definition StaticContained_RetrieveRange (this : StaticContainedRangeMap) (address : Z) :
    outcome (option (option Z)) :=
  StaticContained_RetrieveRange_fuel (S (length mem)) this address.

(** ** A serialized map as a [StaticMap] *)

Section stored.
Context {KT : KeyType} {V : Type} (size_value : V -> Z) (stored_value : V -> byte_list -> Z -> Prop)
        (nodes : list (Z * V)) (raw : Z).
Context (Hst : stored_map ks size_value stored_value nodes mem raw) (Hs : sorted nodes).
Let n := Z.of_nat (length nodes).
Let sm := mkStaticMap raw n.
Abbreviation offset i := (node_offset size_value (header_size ks nodes) nodes i).

Lemma length_keys : length nodes.*1 = length nodes.
Proof. apply length_fmap. Qed.

Lemma new_map_stored : new_map mem raw = Ok sm.
Proof.
  rewrite (new_map_image _ _ _ _ _ (proj1 Hst)). unfold sm, n. by rewrite length_keys.
Qed.

Lemma iterator_stored i : IteratorAtIndex mem sm i = Ok (mkIterator i raw n).
Proof.
  pose proof (IteratorAtIndex_image _ _ _ _ _ (proj1 Hst) i) as H.
  rewrite length_keys in H. exact H.
Qed.

Lemma image_nodes_keys : (image_map nodes.*1 (node_offsets ks size_value nodes)).*1 = nodes.*1.
Proof. by apply (fst_image_map mem ks raw), Hst. Qed.

Lemma lookups_stored a :
  StaticMap.find mem ks sm a = Ok (mkIterator (Z.of_nat (OrderedMap.find nodes a)) raw n) /\
  StaticMap.lower_bound mem ks sm a =
    Ok (mkIterator (Z.of_nat (OrderedMap.lower_bound nodes a)) raw n) /\
  StaticMap.upper_bound mem ks sm a =
    Ok (mkIterator (Z.of_nat (OrderedMap.upper_bound nodes a)) raw n).
Proof.
  pose proof (lookups_std_map _ _ _ _ _ (proj1 Hst) (sorted_keys _ Hs) a) as H.
  rewrite length_keys in H.
  rewrite (lower_bound_keys _ nodes), (upper_bound_keys _ nodes), (find_keys _ nodes) in H
    by apply image_nodes_keys.
  exact H.
Qed.

Lemma node_at (i : nat) k v :
  nodes !! i = Some (k, v) ->
  GetKey mem ks (mkIterator (Z.of_nat i) raw n) = Ok k /\
  GetValueRawPtr mem (mkIterator (Z.of_nat i) raw n) = Ok (Some (raw + offset i)) /\
  stored_value v mem (raw + offset i).
Proof.
  intros Hi. destruct Hst as [Himg Hv]. unfold n. rewrite <- length_keys.
  pose proof (lookup_lt_Some _ _ _ Hi) as Hlt. split; [|split].
  - apply (GetKey_image _ _ _ _ _ Himg). by rewrite list_lookup_fmap, Hi.
  - apply (GetValueRawPtr_image _ _ _ _ _ Himg). by apply lookup_node_offsets.
  - by apply (Hv i k).
Qed.

Lemma node_pointer_pos i k v : nodes !! i = Some (k, v) ->
  values_size size_value (take i nodes) >= 0 -> raw < raw + offset i.
Proof. intros _ Hp. unfold node_offset, header_size. lia. Qed.

Lemma iterator_eq_stored (i : nat) j :
  iterator_eq (mkIterator (Z.of_nat i) raw n) (mkIterator j raw n) = (Z.of_nat i =? j).
Proof. unfold iterator_eq. simpl. by rewrite Z.eqb_refl. Qed.

Lemma decrement_stored (i : nat) :
  (0 < i <= length nodes)%nat ->
  decrement (mkIterator (Z.of_nat i) raw n) = mkIterator (Z.of_nat (i - 1)) raw n.
Proof.
  intros Hi. unfold decrement, IsValid. simpl. unfold n.
  rewrite !(proj2 (Z.ltb_ge _ _)) by lia. simpl. f_equal. lia.
Qed.

(** The last node not above an address, as both maps find it. *)
Lemma last_node a :
  OrderedMap.upper_bound nodes a <> 0%nat ->
  exists k v, nodes !! (OrderedMap.upper_bound nodes a - 1)%nat = Some (k, v) /\
    decrement (mkIterator (Z.of_nat (OrderedMap.upper_bound nodes a)) raw n) =
      mkIterator (Z.of_nat (OrderedMap.upper_bound nodes a - 1)) raw n.
Proof.
  intros Hne. pose proof (upper_bound_le nodes a).
  destruct (lookup_lt_is_Some_2 nodes (OrderedMap.upper_bound nodes a - 1)) as [[k v] Hk]; [lia|].
  exists k, v. split; [done|]. apply decrement_stored. lia.
Qed.

(** *** StaticAddressMap *)

Definition same_address_result (o : option (V * Z)) (s : option (option Z * Z)) : Prop :=
  match o, s with
  | None, None => True
  | Some (e, k), Some (Some ptr, k') => k' = k /\ stored_value e mem ptr
  | _, _ => False
  end.

Lemma StaticAddressMap_refines a :
  exists o s, AddressMap.Retrieve nodes a = Ok o /\ StaticAddressMap_Retrieve sm a = Ok s /\
    same_address_result o s.
Proof.
  destruct (lookups_stored a) as (_ & _ & Hu).
  unfold AddressMap.Retrieve, StaticAddressMap_Retrieve, begin_.
  rewrite Hu. cbn [obind]. rewrite iterator_stored. cbn [obind]. rewrite iterator_eq_stored.
  destruct (Nat.eqb_spec (OrderedMap.upper_bound nodes a) 0) as [->|Hne]; [by exists None, None|].
  rewrite (proj2 (Z.eqb_neq _ _)) by lia. destruct (last_node a Hne) as (k & v & Hk & ->).
  destruct (node_at _ _ _ Hk) as (-> & -> & Hv). rewrite Hk. cbn [obind of_option].
  eexists _, _. split; [done|]. split; [done|]. done.
Qed.
End stored.

(** *** StaticRangeMap *)

Section range_map.
Context {E : Type} `{SerializerLaws E} (rm : RangeMap E) (raw : Z).
Context (Hst : stored_range_map ks rm mem raw) (Hs : sorted (map_ rm)).
Context (Hbases : Forall (fun p => uint w (base_ p.2)) (map_ rm)).
Let n := Z.of_nat (length (map_ rm)).
Let sm := mkStaticMap raw n.

Definition same_range (r : Retrieved E) (s : StaticRetrieved) : Prop :=
  stored (out_entry r) mem (s_entry s) /\ s_base s = out_base r /\ s_size s = out_size r.

Definition same_range_result (o : option (Retrieved E)) (s : option StaticRetrieved) : Prop :=
  match o, s with
  | None, None => True
  | Some r, Some s => same_range r s
  | _, _ => False
  end.

Lemma range_at (i : nat) p :
  map_ rm !! i = Some p ->
  exists ptr, GetValueRawPtr mem (mkIterator (Z.of_nat i) raw n) = Ok (Some ptr) /\
    Range_base ptr = Ok (base_ p.2) /\
    exists s, static_retrieved (mkIterator (Z.of_nat i) raw n) = Ok s /\
      same_range (retrieved w p) s.
Proof.
  destruct p as [k r]. intros Hi. destruct (node_at _ _ _ _ Hst _ _ _ Hi) as (Hk & Hp & Hb & He).
  fold n in Hk, Hp. eexists. split; [exact Hp|]. unfold static_retrieved. rewrite Hp, Hk. cbn [obind of_option].
  unfold Range_base. rewrite (read_at_le _ _ _ _ Hb). rewrite Forall_lookup in Hbases.
  rewrite (wrap_small w) by apply (Hbases _ _ Hi). cbn [obind].
  split; [done|]. eexists. split; [done|]. split; [exact He|done].
Qed.

Lemma StaticRangeMap_RetrieveRange_refines a :
  exists s, StaticRangeMap_RetrieveRange sm a = Ok s /\
    same_range_result (RangeMap.RetrieveRange w (map_ rm) a) s.
Proof.
  destruct (lookups_stored _ _ _ _ Hst Hs a) as (_ & Hl & _).
  unfold StaticRangeMap_RetrieveRange, end_. unfold sm, n. rewrite Hl. cbn [obind]. simpl num_nodes_.
  rewrite (iterator_stored _ _ _ _ Hst). cbn [obind]. rewrite iterator_eq_stored.
  unfold RangeMap.RetrieveRange. pose proof (lower_bound_le (map_ rm) a).
  destruct (map_ rm !! OrderedMap.lower_bound (map_ rm) a) as [p|] eqn:Ep.
  - pose proof (lookup_lt_Some _ _ _ Ep). rewrite (proj2 (Z.eqb_neq _ _)) by lia.
    destruct (range_at _ _ Ep) as (ptr & Hptr & Hb & s & Hsr & Hsame). fold n. rewrite Hptr.
    cbn [obind of_option]. rewrite Hb. cbn [obind].
    destruct (a <? base_ p.2); [by exists None|]. rewrite Hsr. cbn [obind]. by exists (Some s).
  - apply lookup_ge_None in Ep. rewrite (proj2 (Z.eqb_eq _ _)) by lia. by exists None.
Qed.

Lemma StaticRangeMap_RetrieveNearestRange_refines a o :
  RangeMap.RetrieveNearestRange w (map_ rm) a = Ok o ->
  exists s, StaticRangeMap_RetrieveNearestRange sm a = Ok s /\ same_range_result o s.
Proof.
  destruct (StaticRangeMap_RetrieveRange_refines a) as (s & Hsr & Hsame).
  unfold StaticRangeMap_RetrieveNearestRange, RangeMap.RetrieveNearestRange.
  rewrite Hsr. cbn [obind]. intros EQ.
  destruct (RangeMap.RetrieveRange w (map_ rm) a) as [r|], s as [s|]; simpl in Hsame; try done.
  { injection EQ as <-. by exists (Some s). }
  destruct (lookups_stored _ _ _ _ Hst Hs a) as (_ & _ & Hu).
  unfold sm, n, begin_. rewrite Hu. cbn [obind]. rewrite (iterator_stored _ _ _ _ Hst).
  cbn [obind]. rewrite iterator_eq_stored.
  destruct (Nat.eqb_spec (OrderedMap.upper_bound (map_ rm) a) 0) as [Ez|Hne].
  { rewrite Ez. injection EQ as <-. by exists None. }
  rewrite (proj2 (Z.eqb_neq _ _)) by lia.
  destruct (last_node (map_ rm) raw a Hne) as (k & v & Hk & ->).
  rewrite Hk in EQ. cbn [obind of_option] in EQ. injection EQ as <-.
  destruct (range_at _ _ Hk) as (_ & _ & _ & s & Hs' & Hsame'). fold n. rewrite Hs'.
  cbn [obind]. by exists (Some s).
Qed.

Lemma StaticRangeMap_RetrieveRangeAtIndex_refines index o :
  RangeMap.RetrieveRangeAtIndex w (map_ rm) index = Ok o -> 0 <= index ->
  exists s, StaticRangeMap_RetrieveRangeAtIndex sm index = Ok s /\ same_range_result o s.
Proof.
  unfold RangeMap.RetrieveRangeAtIndex, StaticRangeMap_RetrieveRangeAtIndex, GetCount,
    StaticRangeMap_GetCount. simpl num_nodes_. intros EQ Hi.
  pose proof (image_small _ _ _ _ _ (proj1 Hst)) as Hsmall. rewrite length_fmap in Hsmall.
  rewrite swrap_small in EQ by (simpl; lia). fold n in EQ.
  assert (swrap 32 (size_ sm) = n) as ->.
  { unfold size_. simpl num_nodes_. rewrite wrap_small by (unfold uint, n; lia).
    apply swrap_small; simpl; unfold n; lia. }
  destruct (n <=? index); [injection EQ as <-; by exists None|].
  unfold sm. rewrite (iterator_stored _ _ _ _ Hst). cbn [obind].
  destruct (map_ rm !! Z.to_nat index) as [p|] eqn:Ep; [|done].
  cbn [obind of_option] in EQ. injection EQ as <-.
  destruct (range_at _ _ Ep) as (_ & _ & _ & s & Hs' & Hsame).
  rewrite Z2Nat.id in Hs' by done. fold n. rewrite Hs'. cbn [obind]. by exists (Some s).
Qed.
End range_map.

(** *** StaticContainedRangeMap *)

Section contained.
Context {E : Type} `{SerializerLaws E}.
Abbreviation node := (ContainedRangeMap E).
Implicit Types (t c : node).

Definition static_node t (ptr : Z) : StaticContainedRangeMap :=
  mkStaticContained (cbase t) (SizeOf (centry t))
    (if SizeOf (centry t) =? 0 then None else Some (ptr + Z.of_nat ks + 4))
    (mkStaticMap (map_address ks t ptr) (Z.of_nat (length (children t)))).

Lemma stored_tree_map t ptr :
  stored_tree ks t mem ptr ->
  stored_map ks (Contained_SizeOf ks) (stored_tree ks) (children t) mem (map_address ks t ptr).
Proof. intros Ht. by apply stored_tree_iff in Ht as (_ & _ & _ & Hm). Qed.

Lemma new_static_contained_stored t ptr :
  stored_tree ks t mem ptr -> serializable_tree ks t ->
  new_static_contained ptr = Ok (static_node t ptr).
Proof.
  intros Ht Hw. inversion Hw as [? Hb _ Hsz _ _]; subst.
  pose proof (new_map_stored _ _ _ _ (stored_tree_map t ptr Ht)) as Hm.
  apply stored_tree_iff in Ht as (Hbase & Hsize & _ & _).
  unfold new_static_contained. rewrite (read_at_le _ _ _ _ Hbase), wrap_small by done.
  cbn [obind]. rewrite (read_at_le _ _ _ _ Hsize), wrap_small by exact Hsz.
  cbn [obind]. unfold map_address in Hm. rewrite Hm. done.
Qed.

(** What both lookups return for an address. *)
Definition same_entry (e : E) (s : option Z) : Prop :=
  match s with
  | Some ptr => SizeOf e <> 0 /\ stored e mem ptr
  | None => SizeOf e = 0
  end.

Definition same_entry_result (o : option E) (s : option (option Z)) : Prop :=
  match o, s with
  | None, None => True
  | Some e, Some s => same_entry e s
  | _, _ => False
  end.

Lemma same_entry_node t ptr :
  stored_tree ks t mem ptr -> same_entry (centry t) (sc_entry_ptr_ (static_node t ptr)).
Proof.
  intros (_ & _ & He & _)%stored_tree_iff. simpl. change (Z.of_nat 4) with 4 in He.
  destruct (Z.eqb_spec (SizeOf (centry t)) 0); simpl; auto.
Qed.

Lemma stored_tree_bounds t ptr : stored_tree ks t mem ptr -> 0 <= ptr < Z.of_nat (length mem).
Proof.
  intros ((H1 & _) & (_ & H2 & _) & _ & _)%stored_tree_iff.
  rewrite length_le_bytes in H2. lia.
Qed.

(** The serializer's contract for the children of a node. *)
Lemma children_values t :
  serializable_tree ks t ->
  values_spec (Contained_SizeOf ks) (Contained_Write ks) (stored_tree ks) (children t).
Proof.
  inversion 1 as [? _ _ _ _ Hc]; subst. apply Forall_forall. intros p Hp.
  apply Contained_Write_spec. by apply Hc.
Qed.

Lemma child_pointer t ptr i k c :
  serializable_tree ks t -> children t !! i = Some (k, c) ->
  ptr < map_address ks t ptr +
    node_offset (Contained_SizeOf ks) (header_size ks (children t)) (children t) i.
Proof.
  intros Hw Hi. pose proof (values_size_prefix _ _ _ _ _ _ (children_values t Hw) Hi) as [? _].
  inversion Hw as [? _ _ Hsz _ _]; subst. unfold map_address, node_offset, header_size. lia.
Qed.

Lemma StaticContained_refines_fuel fs : forall fd t lo hi ptr a o,
  Z.of_nat (length mem) - ptr < Z.of_nat fs ->
  stored_tree ks t mem ptr -> serializable_tree ks t -> wf_tree w lo hi t ->
  ContainedRangeMap.RetrieveRange_fuel fd t a = Ok o ->
  exists s, StaticContained_RetrieveRange_fuel fs (static_node t ptr) a = Ok s /\
    same_entry_result o s.
Proof.
  induction fs as [|fs IH]; intros fd t lo hi ptr a o Hf Ht Hw Hwf EQ.
  { pose proof (stored_tree_bounds t ptr Ht). lia. }
  destruct fd as [|fd]; [done|]. cbn [ContainedRangeMap.RetrieveRange_fuel] in EQ.
  pose proof Hwf as Hwc. rewrite wf_tree_children in Hwc.
  pose proof (wf_children_sorted _ _ _ _ Hwc) as Hs.
  pose proof (stored_tree_map t ptr Ht) as Hst.
  destruct (lookups_stored _ _ _ _ Hst Hs a) as (_ & Hl & _).
  cbn [StaticContained_RetrieveRange_fuel]. simpl sc_map_. rewrite Hl. cbn [obind].
  unfold end_. simpl num_nodes_. rewrite (iterator_stored _ _ _ _ Hst). cbn [obind].
  rewrite iterator_eq_stored. pose proof (lower_bound_le (children t) a).
  destruct (children t !! OrderedMap.lower_bound (children t) a) as [[k c]|] eqn:Ec.
  - assert (cmap t = Some (children t)) as Em.
    { revert Ec. unfold children. destruct (cmap t) as [m|]; [done|]. intros Ec. by rewrite lookup_ge_None_2 in Ec by (simpl; lia). }
    rewrite Em in EQ. rewrite Ec in EQ. simpl snd in EQ.
    pose proof (lookup_lt_Some _ _ _ Ec). rewrite (proj2 (Z.eqb_neq _ _)) by lia.
    destruct (node_at _ _ _ _ Hst _ _ _ Ec) as (_ & -> & Hc). cbn [obind of_option].
    pose proof (list_elem_of_lookup_2 _ _ _ Ec) as Hin.
    assert (serializable_tree ks c) as Hwsc.
    { inversion Hw as [? _ _ _ _ Hcs]; subst. apply (Hcs _ Hin). }
    rewrite (new_static_contained_stored c _ Hc Hwsc). cbn [obind]. simpl sc_base_.
    destruct (a <? cbase c); [injection EQ as <-; by exists None|].
    destruct (ContainedRangeMap.RetrieveRange_fuel fd c a) as [r|] eqn:Er; [|done].
    cbn [obind] in EQ. injection EQ as <-.
    pose proof (child_pointer t ptr _ _ _ Hw Ec).
    destruct (wf_children_in _ _ _ _ _ Hwc Hin) as [_ Hwfc].
    destruct (fun Hlt => IH fd c _ _ _ a r Hlt Hc Hwsc Hwfc Er) as (s & -> & Hsame); [lia|].
    cbn [obind]. destruct r as [e|], s as [s|]; simpl in Hsame; try done.
    + by exists (Some s).
    + eexists. split; [done|]. by apply same_entry_node.
  - apply lookup_ge_None in Ec. rewrite (proj2 (Z.eqb_eq _ _)) by lia. exists None.
    split; [done|]. destruct (cmap t) as [m|] eqn:Em; [|by injection EQ as <-].
    assert (children t = m) as Hm by (unfold children; by rewrite Em). rewrite <- Hm in EQ.
    rewrite lookup_ge_None_2 in EQ by done. by injection EQ as <-.
Qed.
End contained.
End static_maps.

(** ** Offsets of a layout with non-empty values *)

Lemma seq_fmap_sorted (f : nat -> Z) n : forall j,
  (forall i i', (i < i' < j + n)%nat -> f i < f i') -> StronglySorted Z.lt (f <$> seq j n).
Proof.
  induction n as [|n IH]; intros j Hf; simpl; constructor.
  - apply IH. intros i i' Hi. apply Hf. lia.
  - apply Forall_fmap, Forall_forall. intros i Hi. apply elem_of_seq in Hi. apply Hf. lia.
Qed.

Lemma values_size_pos {V} (size_value : V -> Z) (nodes : list (Z * V)) :
  Forall (fun p => 0 < size_value p.2) nodes -> nodes <> [] -> 0 < values_size size_value nodes.
Proof.
  intros Hp Hne. destruct nodes as [|p nodes]; [done|]. apply Forall_cons in Hp as [Hp Hr].
  assert (0 <= values_size size_value nodes); [|simpl; lia].
  clear Hne. induction Hr; simpl; lia.
Qed.

Lemma node_offsets_sorted ks {V} (size_value : V -> Z) (nodes : list (Z * V)) :
  Forall (fun p => 0 < size_value p.2) nodes ->
  StronglySorted Z.lt (node_offsets ks size_value nodes).
Proof.
  intros Hp. apply seq_fmap_sorted. intros i i' Hi. unfold node_offset.
  rewrite <- (take_drop i (take i' nodes)), values_size_app, take_take, Nat.min_l by lia.
  assert (0 < values_size size_value (drop i (take i' nodes))); [|lia].
  apply values_size_pos; [by apply Forall_drop, Forall_take|].
  intros E%(f_equal length). rewrite length_drop, length_take in E. simpl in E. lia.
Qed.

Lemma Validate_stored mem ks {V} (size_value : V -> Z) stored_value (nodes : list (Z * V)) raw :
  stored_map ks size_value stored_value nodes mem raw -> sorted nodes ->
  map_size ks size_value nodes < 2 ^ 32 ->
  Forall (fun p => 0 < size_value p.2) nodes ->
  ValidateInMemoryStructure mem ks (mkStaticMap raw (Z.of_nat (length nodes))) = Ok true.
Proof.
  intros [Himg _] Hs Hsz Hp. rewrite <- (length_fmap fst nodes).
  apply (Validate_image _ _ _ _ _ Himg (sorted_keys _ Hs) (node_offsets_sorted _ _ _ Hp)).
  rewrite length_fmap. intros o Ho.
  destruct nodes as [|p nodes]; [done|]. injection Ho as <-.
  unfold map_size in Hsz. pose proof (values_size_pos _ _ Hp ltac:(done)).
  unfold node_offset, header_size in *. simpl take. cbn [values_size foldr] in *. lia.
Qed.

(** ** Properties *)

(** The instances of the properties below use 4-byte entries and 8-byte
    addresses. *)
Definition example_heap (n : nat) : byte_list := replicate n 0xaa.

#[local] Instance entry_serializer : SimpleSerializer Z := int_serializer 4.
#[local] Instance entry_laws : SerializerLaws Z := int_laws 4.

Definition example_std_map : list (Z * Z) := [(4, 100); (7, 200)].
Definition example_range_map : RangeMap Z :=
  mkRangeMap kExclusiveRanges [(9, mkRange 5 0 100); (29, mkRange 20 0 200)].
Definition example_contained : ContainedRangeMap Z :=
  mkContained 0 0 (Some [(19, mkContained 10 1 (Some [(15, mkContained 12 2 None)]))]).

Lemma example_heap_allocates : allocates example_heap.
Proof. intros n. apply length_replicate. Qed.

(** Closed side conditions: ordered keys, widths and sizes. *)
Ltac closed_side :=
  repeat (apply conj || apply SSorted_cons || apply SSorted_nil || apply Forall_cons
          || apply Forall_nil || exact I || (split; simpl; lia) || (vm_compute; reflexivity)
          || (unfold uint; simpl; lia) || (simpl; lia)).


(** C29: the buffer [StdMapSerializer::Serialize] allocates is exactly filled,
    and a [StaticMap] on it answers [find], [lower_bound] and [upper_bound] with
    the positions [std::map] gives (the binary searches terminate and read
    inside the buffer), its iterators give the keys and pointers to the stored
    values, and [ValidateInMemoryStructure] accepts it when no value is
    empty. *)
Theorem StaticMap_is_std_map (heap : nat -> byte_list) (ks : nat) {V} `{SerializerLaws V}
    (m : list (Z * V)) (key : Z) :
  allocates heap -> sorted m -> map_fits ks SizeOf m -> serializable_values m ->
  exists buf sm,
    StdMap_Serialize heap ks m = Ok (buf, StdMap_SizeOf ks m) /\
    Z.of_nat (length buf) = StdMap_SizeOf ks m /\
    new_map buf 0 = Ok sm /\ num_nodes_ sm = Z.of_nat (length m) /\
    let iterator_at i := mkIterator (Z.of_nat i) 0 (Z.of_nat (length m)) in
    StaticMap.find buf ks sm key = Ok (iterator_at (OrderedMap.find m key)) /\
    StaticMap.lower_bound buf ks sm key = Ok (iterator_at (OrderedMap.lower_bound m key)) /\
    StaticMap.upper_bound buf ks sm key = Ok (iterator_at (OrderedMap.upper_bound m key)) /\
    (forall i k v, m !! i = Some (k, v) ->
       GetKey buf ks (iterator_at i) = Ok k /\
       exists ptr, GetValueRawPtr buf (iterator_at i) = Ok (Some ptr) /\ stored v buf ptr) /\
    (Forall (fun p => 0 < SizeOf p.2) m -> ValidateInMemoryStructure buf ks sm = Ok true).
Proof.
  intros Hh Hs Hf Hm. pose proof (StdMap_Write_spec ks m Hf Hm) as HW.
  pose proof Hf as (_ & _ & Hsz).
  destruct (Serialize_spec heap _ _ _ Hh HW) as (buf & E1 & E2 & Hst).
  { by rewrite StdMap_SizeOf_map_size. }
  exists buf, (mkStaticMap 0 (Z.of_nat (length m))). split; [exact E1|]. split; [exact E2|].
  split; [by eapply new_map_stored|]. split; [done|]. cbv zeta.
  destruct (lookups_stored _ _ _ _ _ _ Hst Hs key) as (-> & -> & ->).
  do 3 (split; [done|]). split.
  - intros i k v Hi. destruct (node_at _ _ _ _ _ _ Hst _ _ _ Hi) as (? & ? & ?). eauto.
  - intros Hp. by eapply Validate_stored.
Qed.

Lemma StaticMap_is_std_map_witness :
  exists buf sm, StdMap_Serialize example_heap 8 example_std_map = Ok (buf, 36) /\
    new_map buf 0 = Ok sm /\ StaticMap.find buf 8 sm 7 = Ok (mkIterator 1 0 2) /\
    ValidateInMemoryStructure buf 8 sm = Ok true.
Proof.
  destruct (StaticMap_is_std_map example_heap 8 example_std_map 7)
    as (buf & sm & E1 & _ & E2 & _ & E3 & _ & _ & _ & E4).
  - exact example_heap_allocates.
  - closed_side.
  - unfold map_fits. closed_side.
  - unfold serializable_values. closed_side.
  - exists buf, sm. split; [exact E1|]. split; [exact E2|]. split; [exact E3|].
    apply E4. closed_side.
Defined.

(** [StaticAddressMap] refines [AddressMap]: on a serialized map its
    [Retrieve] returns, for every address, what the dynamic map's [Retrieve]
    returns, the entry as a pointer to where it is stored. *)
Theorem StaticAddressMap_refinement (heap : nat -> byte_list) (ks : nat) {V} `{SerializerLaws V}
    (m : list (Z * V)) (address : Z) :
  allocates heap -> sorted m -> map_fits ks SizeOf m -> serializable_values m ->
  exists buf size sm o s,
    StdMap_Serialize heap ks m = Ok (buf, size) /\ new_map buf 0 = Ok sm /\
    AddressMap.Retrieve m address = Ok o /\
    StaticAddressMap_Retrieve buf ks sm address = Ok s /\
    same_address_result buf stored o s.
Proof.
  intros Hh Hs Hf Hm. pose proof (StdMap_Write_spec ks m Hf Hm) as HW.
  pose proof Hf as (_ & _ & Hsz).
  destruct (Serialize_spec heap _ _ _ Hh HW) as (buf & E1 & E2 & Hst).
  { by rewrite StdMap_SizeOf_map_size. }
  destruct (StaticAddressMap_refines _ _ _ _ _ _ Hst Hs address) as (o & s & Ho & Hsr & Hsame).
  exists buf, (StdMap_SizeOf ks m), (mkStaticMap 0 (Z.of_nat (length m))), o, s.
  split; [exact E1|]. split; [by eapply new_map_stored|]. done.
Qed.

Lemma StaticAddressMap_refinement_witness :
  exists buf size sm o s,
    StdMap_Serialize example_heap 8 example_std_map = Ok (buf, size) /\ new_map buf 0 = Ok sm /\
    AddressMap.Retrieve example_std_map 6 = Ok o /\
    StaticAddressMap_Retrieve buf 8 sm 6 = Ok s /\ same_address_result buf stored o s.
Proof.
  apply (StaticAddressMap_refinement example_heap 8 example_std_map 6).
  - exact example_heap_allocates.
  - closed_side.
  - unfold map_fits. closed_side.
  - unfold serializable_values. closed_side.
Defined.

(** [StaticRangeMap] refines [RangeMap]: on a serialized map
    [RetrieveRange], [RetrieveNearestRange] and (for an index that is not
    negative) [RetrieveRangeAtIndex] return the entry, base and size the
    dynamic map returns. *)
Theorem StaticRangeMap_refinement (heap : nat -> byte_list) (ks : nat) {E} `{SerializerLaws E}
    (rm : RangeMap E) (address index : Z) :
  let w := 8 * Z.of_nat ks in
  allocates heap -> RangeMap.wf w (map_ rm) -> serializable_ranges ks rm -> 0 <= index ->
  exists buf size sm,
    RangeMap_Serialize heap ks rm = Ok (buf, size) /\ new_map buf 0 = Ok sm /\
    (exists s, StaticRangeMap_RetrieveRange buf ks sm address = Ok s /\
       same_range_result buf (RangeMap.RetrieveRange w (map_ rm) address) s) /\
    (exists o s, RangeMap.RetrieveNearestRange w (map_ rm) address = Ok o /\
       StaticRangeMap_RetrieveNearestRange buf ks sm address = Ok s /\ same_range_result buf o s) /\
    (exists o s, RangeMap.RetrieveRangeAtIndex w (map_ rm) index = Ok o /\
       StaticRangeMap_RetrieveRangeAtIndex buf ks sm index = Ok s /\ same_range_result buf o s).
Proof.
  intros w Hh Hwf Hser Hi. pose proof (RangeMap_Write_spec ks rm Hser) as HW.
  pose proof Hser as [(_ & Hn & Hsz) _]. pose proof (RangeMap.wf_sorted _ _ Hwf) as Hs.
  assert (Forall (fun p => uint w (base_ p.2)) (map_ rm)) as Hb.
  { apply Forall_forall. intros p Hp. pose proof (RangeMap.wf_range_ok _ _ _ Hwf Hp) as Hr.
    unfold range_ok in Hr. unfold uint. lia. }
  destruct (Serialize_spec heap _ _ _ Hh HW) as (buf & E1 & E2 & Hst).
  { by rewrite RangeMap_SizeOf_map_size. }
  exists buf, (RangeMap_SizeOf ks rm), (mkStaticMap 0 (Z.of_nat (length (map_ rm)))).
  split; [exact E1|]. split; [by eapply new_map_stored|].
  split; [by apply StaticRangeMap_RetrieveRange_refines|]. split.
  - destruct (RetrieveNearestRange_spec w (map_ rm) address Hwf) as (o & Ho & _).
    destruct (StaticRangeMap_RetrieveNearestRange_refines buf ks rm 0 Hst Hs Hb address o Ho)
      as (s & Hsr & Hsame). eauto.
  - assert (exists o, RangeMap.RetrieveRangeAtIndex w (map_ rm) index = Ok o) as [o Ho].
    { unfold RangeMap.RetrieveRangeAtIndex, GetCount. rewrite swrap_small by (simpl; lia).
      destruct (Z.leb_spec (Z.of_nat (length (map_ rm))) index); [eauto|].
      destruct (lookup_lt_is_Some_2 (map_ rm) (Z.to_nat index)) as [p ->]; [lia|]. simpl. eauto. }
    destruct (StaticRangeMap_RetrieveRangeAtIndex_refines buf ks rm 0 Hst Hb index o Ho Hi)
      as (s & Hsr & Hsame). eauto.
Qed.

Lemma StaticRangeMap_refinement_witness :
  exists buf size sm,
    RangeMap_Serialize example_heap 8 example_range_map = Ok (buf, size) /\ new_map buf 0 = Ok sm /\
    exists s, StaticRangeMap_RetrieveRange buf 8 sm 22 = Ok s /\
      same_range_result buf (RangeMap.RetrieveRange 64 (map_ example_range_map) 22) s.
Proof.
  destruct (StaticRangeMap_refinement example_heap 8 example_range_map 22 0)
    as (buf & size & sm & E1 & E2 & E3 & _).
  - exact example_heap_allocates.
  - apply (bool_decide_unpack _). vm_compute. exact I.
  - unfold serializable_ranges, map_fits. closed_side.
  - lia.
  - exists buf, size, sm. split; [exact E1|]. split; [exact E2|exact E3].
Defined.

(** [StaticContainedRangeMap] refines [ContainedRangeMap]: on a
    serialized hierarchy [RetrieveRange] terminates and returns the entry the
    dynamic hierarchy returns (NULL for an entry that takes no bytes). *)
Theorem StaticContainedRangeMap_refinement (heap : nat -> byte_list) (ks : nat) {E}
    `{SerializerLaws E} (t : ContainedRangeMap E) (address : Z) :
  allocates heap -> wf_root (8 * Z.of_nat ks) t -> serializable_tree ks t ->
  Contained_SizeOf ks t < 2 ^ 32 ->
  exists buf sc o s,
    Contained_Serialize heap ks t = Ok (buf, Contained_SizeOf ks t) /\
    new_static_contained buf ks 0 = Ok sc /\
    ContainedRangeMap.RetrieveRange t address = Ok o /\
    StaticContained_RetrieveRange buf ks sc address = Ok s /\
    same_entry_result buf o s.
Proof.
  intros Hh Hwf Hser Hsz. pose proof (Contained_Write_spec ks t Hser) as HW.
  destruct (Serialize_spec heap _ _ _ Hh HW Hsz) as (buf & E1 & E2 & Hst).
  assert (exists o, ContainedRangeMap.RetrieveRange t address = Ok o) as [o Ho].
  { destruct (RetrieveRange_fuel_spec (8 * Z.of_nat ks) (S (height t)) t (-1) (2 ^ (8 * Z.of_nat ks)) address)
      as (o & Ho & _); [lia|exact Hwf|]. by exists o. }
  destruct (StaticContained_refines_fuel buf ks (S (length buf)) (S (height t)) t (-1)
    (2 ^ (8 * Z.of_nat ks)) 0 address o) as (s & Hs & Hsame); try done; [lia|].
  exists buf, (static_node ks t 0), o, s. split; [exact E1|].
  split; [by eapply new_static_contained_stored|]. done.
Qed.

Lemma example_contained_serializable : serializable_tree 8 example_contained.
Proof.
  unfold example_contained. repeat
    (constructor; [unfold uint; simpl; lia|simpl; unfold uint; simpl; lia
                  |simpl; unfold int_SizeOf; lia|unfold map_fits; closed_side|];
     intros p; unfold children; simpl;
     (intros ->%list_elem_of_singleton; simpl) || (intros Hp; by apply elem_of_nil in Hp)).
Qed.

Lemma StaticContainedRangeMap_refinement_witness :
  exists buf sc o s,
    Contained_Serialize example_heap 8 example_contained = Ok (buf, Contained_SizeOf 8 example_contained) /\
    new_static_contained buf 8 0 = Ok sc /\
    ContainedRangeMap.RetrieveRange example_contained 13 = Ok o /\
    StaticContained_RetrieveRange buf 8 sc 13 = Ok s /\ same_entry_result buf o s.
Proof.
  apply (StaticContainedRangeMap_refinement example_heap 8 example_contained 13).
  - exact example_heap_allocates.
  - unfold wf_root. simpl. unfold within, ordered. simpl. closed_side.
  - exact example_contained_serializable.
  - vm_compute. reflexivity.
Defined.
