(* ===== verification/LibcSupport.v ===== *)
(** * libc replacements (common/linux/linux_libc_support.cc)

    The string functions the exception handler uses instead of libc.  A
    [char*] is the list of characters from the pointer to the end of its
    buffer, as values of [char] (whatever its sign); reading past the end is
    [Undef].  A pointer into the argument is returned as an offset, [None] for
    NULL.  An [int] that overflows is [Undef]; [size_t] and [uintptr_t] wrap. *)

From S2P Require Import Prelude Memory.
#[local] Open Scope Z_scope.

Abbreviation chars := (list Z).

Definition c_zero : Z := 48.
Definition c_nine : Z := 57.

(** Signed 32-bit arithmetic. *)
Definition int_ok (z : Z) : outcome Z :=
  if (- 2 ^ 31 <=? z) && (z <? 2 ^ 31) then Ok z else Undef.

(** ** Scanning *)

Fixpoint strlen_loop (s : chars) (len : Z) : outcome Z :=
  match s with
  | [] => Undef
  | c :: s => if c =? 0 then Ok len else strlen_loop s (len + 1)
  end.

Definition my_strlen (s : chars) : outcome Z := strlen_loop s 0.

Fixpoint my_strcmp (a b : chars) : outcome Z :=
  match a, b with
  | x :: a, y :: b =>
      if x <? y then Ok (-1)
      else if y <? x then Ok 1
      else if x =? 0 then Ok 0
      else my_strcmp a b
  | _, _ => Undef
  end.

(** [len] counts the iterations left. *)
Fixpoint my_strncmp (a b : chars) (len : nat) {struct len} : outcome Z :=
  match len with
  | O => Ok 0
  | S len =>
      match a, b with
      | x :: a, y :: b =>
          if x <? y then Ok (-1)
          else if y <? x then Ok 1
          else if x =? 0 then Ok 0
          else my_strncmp a b len
      | _, _ => Undef
      end
  end.

(** The loop, then the test after it. *)
Fixpoint strchr_loop (haystack : chars) (needle : Z) (pos : Z) : outcome (option Z) :=
  match haystack with
  | [] => Undef
  | c :: rest =>
      if negb (c =? 0) && negb (c =? needle) then strchr_loop rest needle (pos + 1)
      else if c =? needle then Ok (Some pos) else Ok None
  end.

Definition my_strchr (haystack : chars) (needle : Z) : outcome (option Z) :=
  strchr_loop haystack needle 0.

Fixpoint strrchr_loop (haystack : chars) (needle : Z) (pos : Z) (ret : option Z) :
    outcome (option Z) :=
  match haystack with
  | [] => Undef
  | c :: rest =>
      if c =? 0 then Ok ret
      else strrchr_loop rest needle (pos + 1) (if c =? needle then Some pos else ret)
  end.

Definition my_strrchr (haystack : chars) (needle : Z) : outcome (option Z) :=
  strrchr_loop haystack needle 0 None.

(** [src] as [unsigned char]; [needle] is an [int]. *)
Fixpoint memchr_loop (src : chars) (needle : Z) (src_len : nat) (pos : Z)
    {struct src_len} : outcome (option Z) :=
  match src_len with
  | O => Ok None
  | S n =>
      match src with
      | [] => Undef
      | p :: src => if p =? needle then Ok (Some pos) else memchr_loop src needle n (pos + 1)
      end
  end.

Definition my_memchr (src : chars) (needle : Z) (src_len : nat) : outcome (option Z) :=
  memchr_loop src needle src_len 0.

(** ** Numbers *)

Fixpoint strtoui_loop (s : chars) (r : Z) : outcome (option Z) :=
  match s with
  | [] => Undef
  | c :: s =>
      if c =? 0 then Ok (Some r)
      else
        let old_r := r in
        let? r := int_ok (r * 10) in
        if (c <? c_zero) || (c_nine <? c) then Ok None
        else
          let? r := int_ok (r + (c - c_zero)) in
          if r <? old_r then Ok None else strtoui_loop s r
  end.

(** [Some result] for [true]. *)
Definition my_strtoui (s : chars) : outcome (option Z) :=
  match s with
  | [] => Undef
  | c :: _ => if c =? 0 then Ok None else strtoui_loop s 0
  end.

(** [fuel] bounds the digits counted: 20 are enough for a 64-bit
    [uintmax_t]. *)
Fixpoint uint_len_loop (fuel : nat) (i len : Z) : outcome Z :=
  if i =? 0 then Ok len
  else match fuel with
       | O => Undef
       | S fuel => uint_len_loop fuel (i / 10) (len + 1)
       end.

Definition my_uint_len (i : Z) : outcome Z :=
  if i =? 0 then Ok 1 else uint_len_loop 20 i 0.

(** [index] runs from [i_len] down to 1. *)
Fixpoint my_uitos (output : chars) (i : Z) (i_len : nat) : outcome chars :=
  match i_len with
  | O => Ok output
  | S index =>
      let? output := write_at output (Z.of_nat index) [c_zero + i mod 10] in
      my_uitos output (i / 10) index
  end.

Section pointers.
(** The width of [uintptr_t]. *)
Context (w : Z).

Definition hex_digit (c : Z) : option Z :=
  if (48 <=? c) && (c <=? 57) then Some (c - 48)
  else if (97 <=? c) && (c <=? 102) then Some (c - 97 + 10)
  else if (65 <=? c) && (c <=? 70) then Some (c - 65 + 10)
  else None.

(** The result and the offset of the pointer returned. *)
Fixpoint read_hex_loop (s : chars) (r pos : Z) : outcome (Z * Z) :=
  match s with
  | [] => Undef
  | c :: s =>
      match hex_digit c with
      | Some d => read_hex_loop s (wrap w (wrap w (Z.shiftl r 4) + d)) (pos + 1)
      | None => Ok (r, pos)
      end
  end.

Definition my_read_hex_ptr (s : chars) : outcome (Z * Z) := read_hex_loop s 0 0.

Fixpoint read_decimal_loop (s : chars) (r pos : Z) : outcome (Z * Z) :=
  match s with
  | [] => Undef
  | c :: s =>
      if (48 <=? c) && (c <=? 57)
      then read_decimal_loop s (wrap w (wrap w (r * 10) + (c - 48))) (pos + 1)
      else Ok (r, pos)
  end.

Definition my_read_decimal_ptr (s : chars) : outcome (Z * Z) := read_decimal_loop s 0 0.
End pointers.

(** ** Copying *)

(** [p] is the offset written next. *)
Fixpoint memset_loop (mem : chars) (p c : Z) (len : nat) : outcome chars :=
  match len with
  | O => Ok mem
  | S len => let? mem := write_at mem p [c] in memset_loop mem (p + 1) c len
  end.

Definition my_memset (ip : chars) (c : Z) (len : nat) : outcome chars := memset_loop ip 0 c len.

(** [s1] is the offset of the destination in [mem]; the source is another
    buffer. *)
Fixpoint strlcpy_loop (mem : chars) (s1 : Z) (s2 : chars) (len pos1 pos2 : Z) :
    outcome (chars * Z * Z) :=
  match s2 with
  | [] => Undef
  | c :: s2 =>
      if c =? 0 then Ok (mem, pos1, pos2)
      else if pos1 + 1 <? len then
        let? mem := write_at mem (s1 + pos1) [c] in
        strlcpy_loop mem s1 s2 len (pos1 + 1) (pos2 + 1)
      else strlcpy_loop mem s1 s2 len pos1 (pos2 + 1)
  end.

Definition my_strlcpy (mem : chars) (s1 : Z) (s2 : chars) (len : Z) : outcome (chars * Z) :=
  let? (mem, pos1, pos2) := strlcpy_loop mem s1 s2 len 0 0 in
  if 0 <? len then let? mem := write_at mem (s1 + pos1) [0] in Ok (mem, pos2)
  else Ok (mem, pos2).

Fixpoint strlcat_pos (s1 : chars) (len : nat) (pos1 : Z) {struct len} : outcome Z :=
  match len with
  | O => Ok pos1
  | S len =>
      match s1 with
      | [] => Undef
      | c :: s1 => if c =? 0 then Ok pos1 else strlcat_pos s1 len (pos1 + 1)
      end
  end.

Definition my_strlcat (s1 : chars) (s2 : chars) (len : Z) : outcome (chars * Z) :=
  let? pos1 := strlcat_pos s1 (Z.to_nat len) 0 in
  if pos1 =? len then Ok (s1, pos1)
  else let? (s1, n) := my_strlcpy s1 pos1 s2 (len - pos1) in Ok (s1, pos1 + n).

(** The string literal with its terminator, which [sizeof] counts. *)
Definition spaces : chars := [32; 9; 12; 10; 13; 9; 11; 0].

Definition my_isspace (ch : Z) : Z := if existsb (Z.eqb ch) spaces then 1 else 0.

(** ** Strings as lists

    A C string [s] is the list of its characters: the argument of the
    functions is [s ++ 0 :: rest]. *)

Lemma strlen_loop_spec s rest len :
  no_nul s -> strlen_loop (s ++ 0 :: rest) len = Ok (len + Z.of_nat (length s)).
Proof.
  intros Hs. revert len. induction Hs as [|c s Hc Hs IH]; intros len; simpl.
  - f_equal. lia.
  - rewrite (proj2 (Z.eqb_neq _ _)) by done. rewrite IH. f_equal. lia.
Qed.

(** [l1] is before [l2] at their first difference. *)
Definition lex_lt (l1 l2 : chars) : Prop :=
  exists p x y t1 t2, l1 = p ++ x :: t1 /\ l2 = p ++ y :: t2 /\ x < y.

Lemma lex_lt_cons c l1 l2 : lex_lt l1 l2 -> lex_lt (c :: l1) (c :: l2).
Proof. intros (p & x & y & t1 & t2 & -> & -> & Hxy). by exists (c :: p), x, y, t1, t2. Qed.

Lemma lex_lt_head x y t1 t2 : x < y -> lex_lt (x :: t1) (y :: t2).
Proof. intros Hxy. by exists [], x, y, t1, t2. Qed.

(** The three results of a comparison of [l1] and [l2]. *)
Definition compared (l1 l2 : chars) (r : Z) : Prop :=
  (r = 0 /\ l1 = l2) \/ (r = -1 /\ lex_lt l1 l2) \/ (r = 1 /\ lex_lt l2 l1).

Lemma compared_cons c l1 l2 r : compared l1 l2 r -> compared (c :: l1) (c :: l2) r.
Proof.
  intros [[-> ->]|[[-> H]|[-> H]]]; [by left|right; left|right; right]; eauto using lex_lt_cons.
Qed.

Lemma strncmp_spec n : forall a b ra rb,
  no_nul a -> no_nul b ->
  exists r, my_strncmp (a ++ 0 :: ra) (b ++ 0 :: rb) n = Ok r /\
    compared (take n (a ++ [0])) (take n (b ++ [0])) r.
Proof.
  assert (forall x y t1 t2, x < y -> compared (x :: t1) (y :: t2) (-1)) as HL.
  { intros. right. left. eauto using lex_lt_head. }
  assert (forall x y t1 t2, y < x -> compared (x :: t1) (y :: t2) 1) as HG.
  { intros. right. right. eauto using lex_lt_head. }
  induction n as [|n IH]; intros a b ra rb Ha Hb; [exists 0; split; [done|left; split; reflexivity]|].
  destruct Ha as [|x a Hx Ha], Hb as [|y b Hy Hb]; cbn [my_strncmp app take].
  - exists 0. split; [done|]. left. by destruct n.
  - assert (0 < y \/ y < 0) as [H|H] by lia.
    + rewrite (proj2 (Z.ltb_lt _ _) H). eauto.
    + rewrite (proj2 (Z.ltb_ge 0 y)), (proj2 (Z.ltb_lt y 0)) by lia. eauto.
  - assert (x < 0 \/ 0 < x) as [H|H] by lia.
    + rewrite (proj2 (Z.ltb_lt _ _) H). eauto.
    + rewrite (proj2 (Z.ltb_ge x 0)), (proj2 (Z.ltb_lt 0 x)) by lia. eauto.
  - destruct (Z.ltb_spec x y); [eauto|]. destruct (Z.ltb_spec y x); [eauto|].
    replace y with x by lia. rewrite (proj2 (Z.eqb_neq _ _)) by done.
    destruct (IH a b ra rb Ha Hb) as (r & -> & Hr). eauto using compared_cons.
Qed.

Lemma strcmp_strncmp a : forall b ra rb n,
  no_nul a -> no_nul b -> (length a < n)%nat ->
  my_strcmp (a ++ 0 :: ra) (b ++ 0 :: rb) = my_strncmp (a ++ 0 :: ra) (b ++ 0 :: rb) n.
Proof.
  induction a as [|x a IH]; intros b ra rb [|n] Ha Hb Hn; simpl in Hn; try lia.
  - destruct Hb as [|y b Hy Hb]; simpl; [done|].
    destruct (Z.ltb_spec 0 y); [done|]. by rewrite (proj2 (Z.ltb_lt y 0)) by lia.
  - apply Forall_cons in Ha as [Hx Ha].
    destruct Hb as [|y b Hy Hb]; simpl.
    + destruct (Z.ltb_spec x 0); [done|]. by rewrite (proj2 (Z.ltb_lt 0 x)) by lia.
    + rewrite (IH b ra rb n) by (done || lia). done.
Qed.

(** ** Searching *)

(** [r] is the first position of [needle] in [l]. *)
Definition first_position (l : chars) (needle : Z) (r : option Z) : Prop :=
  match r with
  | Some p => exists i : nat, p = Z.of_nat i /\ l !! i = Some needle /\ needle ∉ take i l
  | None => needle ∉ l
  end.

Definition last_position (l : chars) (needle : Z) (r : option Z) : Prop :=
  match r with
  | Some p => exists i : nat, p = Z.of_nat i /\ l !! i = Some needle /\ needle ∉ drop (S i) l
  | None => needle ∉ l
  end.

Lemma first_position_cons c l needle r :
  c <> needle -> first_position l needle r ->
  first_position (c :: l) needle (Z.add 1 <$> r).
Proof.
  intros Hc. destruct r as [p|]; simpl.
  - intros (i & -> & Hi & Hn). exists (S i). split; [lia|]. simpl. split; [done|].
    rewrite elem_of_cons. intros [?|?]; [congruence|done].
  - rewrite elem_of_cons. intros Hn [?|?]; [congruence|done].
Qed.

Lemma strchr_loop_spec s needle rest : no_nul s -> forall pos,
  exists r, strchr_loop (s ++ 0 :: rest) needle pos = Ok (Z.add pos <$> r) /\
    first_position (s ++ [0]) needle r.
Proof.
  induction 1 as [|c s Hc Hs IH]; intros pos; cbn [strchr_loop app].
  - rewrite Z.eqb_refl. cbn [negb andb]. destruct (Z.eqb_spec 0 needle) as [<-|Hn].
    + exists (Some 0). simpl. rewrite Z.add_0_r. split; [done|]. exists 0%nat. set_solver.
    + exists None. split; [done|]. simpl. set_solver.
  - rewrite (proj2 (Z.eqb_neq c 0)) by done. cbn [negb andb].
    destruct (Z.eqb_spec c needle) as [<-|Hn].
    + exists (Some 0). simpl. rewrite Z.add_0_r. split; [done|]. exists 0%nat. simpl. set_solver.
    + destruct (IH (pos + 1)) as (r & -> & Hr). exists (Z.add 1 <$> r).
      split; [destruct r; simpl; do 2 f_equal; lia|]. by apply first_position_cons.
Qed.

Lemma memchr_loop_spec n needle : forall src pos,
  (n <= length src)%nat ->
  exists r, memchr_loop src needle n pos = Ok (Z.add pos <$> r) /\
    first_position (take n src) needle r.
Proof.
  induction n as [|n IH]; intros src pos Hn; [exists None; split; [done|set_solver]|].
  destruct src as [|c src]; simpl in Hn; [lia|]. cbn [memchr_loop take].
  destruct (Z.eqb_spec c needle) as [<-|Hne].
  - exists (Some 0). simpl. rewrite Z.add_0_r. split; [done|]. exists 0%nat. simpl. set_solver.
  - destruct (IH src (pos + 1)) as (r & -> & Hr); [lia|]. exists (Z.add 1 <$> r).
    split; [destruct r; simpl; do 2 f_equal; lia|]. by apply first_position_cons.
Qed.

Lemma strrchr_loop_spec s needle rest : no_nul s -> forall pos ret,
  exists r, last_position s needle r /\
    strrchr_loop (s ++ 0 :: rest) needle pos ret =
      Ok (match r with Some p => Some (pos + p) | None => ret end).
Proof.
  induction 1 as [|c s Hc Hs IH]; intros pos ret; cbn [strrchr_loop app].
  - exists None. split; [simpl; set_solver|done].
  - rewrite (proj2 (Z.eqb_neq c 0)) by done.
    destruct (IH (pos + 1) (if c =? needle then Some pos else ret)) as (r & Hr & ->).
    destruct r as [p|].
    + exists (Some (1 + p)). destruct Hr as (i & -> & Hi & Hn). split; [|do 2 f_equal; lia].
      exists (S i). split; [lia|]. done.
    + simpl in Hr. destruct (Z.eqb_spec c needle) as [<-|Hne].
      * exists (Some 0). rewrite Z.add_0_r. split; [|done]. exists 0%nat. done.
      * exists None. split; [|done]. simpl. rewrite elem_of_cons. intros [?|?]; [congruence|done].
Qed.

(** ** Decimal numbers *)

Definition is_digit (c : Z) : bool := (c_zero <=? c) && (c <=? c_nine).

(** The number a string of digits denotes, after [r]. *)
Definition decimal_from (r : Z) (ds : chars) : Z := fold_left (fun r c => r * 10 + (c - c_zero)) ds r.
Definition decimal (ds : chars) : Z := decimal_from 0 ds.

Lemma decimal_from_app r d1 d2 : decimal_from r (d1 ++ d2) = decimal_from (decimal_from r d1) d2.
Proof. apply fold_left_app. Qed.

Lemma decimal_from_grows ds : forall r,
  0 <= r -> Forall (fun c => is_digit c = true) ds -> r <= decimal_from r ds.
Proof.
  induction ds as [|c ds IH]; intros r Hr Hds; [simpl; lia|].
  apply Forall_cons in Hds as [Hc Hds]. unfold is_digit in Hc. to_prop. unfold c_zero, c_nine in *.
  change (decimal_from r (c :: ds)) with (decimal_from (r * 10 + (c - 48)) ds).
  specialize (IH (r * 10 + (c - 48)) ltac:(lia) Hds). lia.
Qed.

Lemma int_ok_small z : 0 <= z -> int_ok z = if z <? 2 ^ 31 then Ok z else Undef.
Proof. intros Hz. unfold int_ok. by rewrite (proj2 (Z.leb_le _ _)) by lia. Qed.

(** A step of [strtoui_loop] on a digit. *)
Lemma strtoui_digit c s r :
  is_digit c = true -> 0 <= r < 2 ^ 31 ->
  strtoui_loop (c :: s) r =
    if r * 10 + (c - c_zero) <? 2 ^ 31 then strtoui_loop s (r * 10 + (c - c_zero)) else Undef.
Proof.
  intros Hc Hr. unfold is_digit in Hc. to_prop. unfold c_zero, c_nine in *. cbn [strtoui_loop].
  rewrite (proj2 (Z.eqb_neq _ _)) by lia. rewrite int_ok_small by lia. unfold c_zero, c_nine.
  rewrite (proj2 (Z.ltb_ge c 48)), (proj2 (Z.ltb_ge 57 c)) by lia. cbn [orb].
  destruct (Z.ltb_spec (r * 10) (2 ^ 31)); cbn [obind].
  - rewrite int_ok_small by lia. destruct (Z.ltb_spec (r * 10 + (c - 48)) (2 ^ 31)); [|done].
    cbn [obind]. by rewrite (proj2 (Z.ltb_ge _ _)) by lia.
  - by rewrite (proj2 (Z.ltb_ge _ _)) by lia.
Qed.

Lemma strtoui_digits ds s : forall r,
  Forall (fun c => is_digit c = true) ds -> 0 <= r < 2 ^ 31 ->
  strtoui_loop (ds ++ s) r =
    if decimal_from r ds <? 2 ^ 31 then strtoui_loop s (decimal_from r ds) else Undef.
Proof.
  induction ds as [|c ds IH]; intros r Hds Hr.
  { change (decimal_from r []) with r. by rewrite (proj2 (Z.ltb_lt _ _)) by lia. }
  apply Forall_cons in Hds as [Hc Hds].
  change (decimal_from r (c :: ds)) with (decimal_from (r * 10 + (c - c_zero)) ds).
  cbn [app]. rewrite strtoui_digit by done.
  assert (0 <= r * 10 + (c - c_zero)) as Hr'.
  { unfold is_digit in Hc. to_prop. unfold c_zero, c_nine in *. lia. }
  pose proof (decimal_from_grows ds _ Hr' Hds).
  destruct (Z.ltb_spec (r * 10 + (c - c_zero)) (2 ^ 31)).
  - by apply IH.
  - by rewrite (proj2 (Z.ltb_ge _ _)) by lia.
Qed.

(** The [n] last decimal digits of [i]. *)
Fixpoint decimal_digits (n : nat) (i : Z) : chars :=
  match n with
  | O => []
  | S n => decimal_digits n (i / 10) ++ [c_zero + i mod 10]
  end.

Lemma length_decimal_digits n i : length (decimal_digits n i) = n.
Proof. revert i. induction n as [|n IH]; intros i; simpl; [done|]. rewrite length_app, IH. simpl. lia. Qed.

Lemma decimal_digits_are n i : Forall (fun c => is_digit c = true) (decimal_digits n i).
Proof.
  revert i. induction n as [|n IH]; intros i; simpl; [done|]. apply Forall_app. split; [done|].
  constructor; [|done]. pose proof (Z.mod_pos_bound i 10). unfold is_digit, c_zero, c_nine.
  apply andb_true_iff. split; apply Z.leb_le; lia.
Qed.

Lemma decimal_digits_value n : forall i, 0 <= i < 10 ^ Z.of_nat n -> decimal (decimal_digits n i) = i.
Proof.
  induction n as [|n IH]; intros i Hi; [simpl in Hi; unfold decimal; simpl; lia|].
  rewrite Nat2Z.inj_succ, Z.pow_succ_r in Hi by lia. cbn [decimal_digits].
  unfold decimal in *. rewrite decimal_from_app, IH.
  - unfold decimal_from. simpl fold_left. pose proof (Z.div_mod i 10). lia.
  - split; [apply Z.div_pos; lia|]. apply Z.div_lt_upper_bound; lia.
Qed.

(** [n] digits are enough for [i], and no fewer. *)
Definition decimal_length (i n : Z) : Prop :=
  (i = 0 /\ n = 1) \/ (0 < n /\ 10 ^ (n - 1) <= i < 10 ^ n).

Lemma uint_len_loop_spec fuel : forall i len,
  0 < i < 10 ^ Z.of_nat fuel ->
  exists n, uint_len_loop fuel i len = Ok (len + n) /\ 0 < n /\ 10 ^ (n - 1) <= i < 10 ^ n.
Proof.
  induction fuel as [|fuel IH]; intros i len Hi; [simpl in Hi; lia|].
  rewrite Nat2Z.inj_succ, Z.pow_succ_r in Hi by lia. cbn [uint_len_loop].
  rewrite (proj2 (Z.eqb_neq _ _)) by lia.
  destruct (Z_lt_dec i 10) as [Hlt|Hge].
  - rewrite Z.div_small by lia. exists 1. split; [destruct fuel; done|]. simpl. lia.
  - assert (0 < i / 10) by (apply Z.div_str_pos; lia).
    destruct (IH (i / 10) (len + 1)) as (n & -> & Hn & Hlo & Hhi).
    { split; [done|]. apply Z.div_lt_upper_bound; lia. }
    exists (n + 1). split; [f_equal; lia|]. split; [lia|].
    pose proof (Z.div_mod i 10). pose proof (Z.mod_pos_bound i 10).
    replace (n + 1 - 1) with (Z.succ (n - 1)) by lia. replace (n + 1) with (Z.succ n) by lia.
    rewrite !Z.pow_succ_r by lia. lia.
Qed.

Lemma my_uint_len_spec i :
  uint 64 i -> exists n, my_uint_len i = Ok n /\ decimal_length i n.
Proof.
  intros Hi. unfold my_uint_len, decimal_length. destruct (Z.eqb_spec i 0) as [->|Hne]; [eauto|].
  destruct (uint_len_loop_spec 20 i 0) as (n & -> & Hn & Hb); [unfold uint in Hi; lia|].
  exists n. split; [done|]. by right.
Qed.

Lemma write_at_middle l x y r :
  write_at (l ++ x :: r) (Z.of_nat (length l)) [y] = Ok (l ++ y :: r).
Proof.
  unfold write_at. rewrite decide_True by (rewrite length_app; simpl; lia).
  rewrite Nat2Z.id, take_app_length. simpl length.
  assert (drop (length l + 1) (l ++ x :: r) = r) as ->; [|done].
  rewrite drop_app_ge by lia. by replace (length l + 1 - length l)%nat with 1%nat by lia.
Qed.

Lemma my_uitos_spec n : forall output rest i,
  length output = n ->
  my_uitos (output ++ rest) i n = Ok (decimal_digits n i ++ rest).
Proof.
  induction n as [|n IH]; intros output rest i Hl.
  { destruct output; [done|discriminate]. }
  destruct output as [|x output _] using rev_ind; [discriminate|].
  rewrite length_app in Hl. simpl in Hl. assert (length output = n) as Hn by lia.
  cbn [my_uitos decimal_digits]. rewrite <- Hn at 1. rewrite <- !app_assoc. cbn [app].
  rewrite write_at_middle. cbn [obind]. by apply IH.
Qed.

(** ** Copying *)

(** What [strlcpy] copies of [s2] into a buffer of [len] bytes. *)
Definition truncated (s2 : chars) (len : Z) : chars := take (Z.to_nat (len - 1)) s2.

Lemma strlcpy_loop_spec s2 rest : no_nul s2 -> forall mem s1 len pos1 pos2,
  0 <= s1 -> 0 <= pos1 -> s1 + pos1 + Z.max 0 (len - 1 - pos1) <= Z.of_nat (length mem) ->
  let cp := take (Z.to_nat (len - 1 - pos1)) s2 in
  exists mem', strlcpy_loop mem s1 (s2 ++ 0 :: rest) len pos1 pos2 =
      Ok (mem', pos1 + Z.of_nat (length cp), pos2 + Z.of_nat (length s2)) /\
    holds mem' (s1 + pos1) cp /\
    same_on (beyond (s1 + pos1) (s1 + pos1 + Z.of_nat (length cp))) mem mem'.
Proof.
  induction 1 as [|c s2 Hc Hs IH]; intros mem s1 len pos1 pos2 H1 H2 H3 cp; cbn [strlcpy_loop app].
  - exists mem. subst cp. rewrite take_nil. simpl. rewrite !Z.add_0_r. split; [done|].
    split; [|done]. split; [lia|]. split; [simpl; lia|]. intros i b Hb. by rewrite lookup_nil in Hb.
  - rewrite (proj2 (Z.eqb_neq _ _)) by done. destruct (Z.ltb_spec (pos1 + 1) len) as [Hlt|Hge].
    + destruct (write_at_spec mem (s1 + pos1) [c]) as (m1 & E1 & Hh & S1); [lia|simpl; lia|].
      simpl length in S1. rewrite E1. cbn [obind]. pose proof S1 as [L1 _].
      destruct (IH m1 s1 len (pos1 + 1) (pos2 + 1)) as (m2 & E2 & Hh2 & S2); [lia..|].
      replace (len - 1 - (pos1 + 1)) with (len - 1 - pos1 - 1) in * by lia.
      assert (cp = c :: take (Z.to_nat (len - 1 - pos1 - 1)) s2) as ->.
      { subst cp. replace (Z.to_nat (len - 1 - pos1)) with (S (Z.to_nat (len - 1 - pos1 - 1))) by lia.
        done. }
      simpl length. exists m2. rewrite E2. split; [f_equal; f_equal; [f_equal|]; lia|].
      replace (s1 + (pos1 + 1)) with (s1 + pos1 + 1) in * by lia. split.
      * apply (holds_app _ _ [c]). split; [|exact Hh2]. apply (holds_same m1); [done|].
        apply (same_keeps _ _ _ _ S2). simpl. regions.
      * apply (same_on_trans _ _ _ _ _ _ S1 S2). regions.
    + destruct (IH mem s1 len pos1 (pos2 + 1)) as (m2 & E2 & Hh2 & S2); [lia..|].
      assert (Z.to_nat (len - 1 - pos1) = 0%nat) as Hz by lia. subst cp. rewrite Hz in *.
      exists m2. rewrite E2. simpl length in *. split; [f_equal; f_equal; lia|]. done.
Qed.

Lemma my_strlcpy_spec mem s1 s2 rest len :
  no_nul s2 -> 0 <= s1 -> 0 <= len -> s1 + len <= Z.of_nat (length mem) ->
  exists mem', my_strlcpy mem s1 (s2 ++ 0 :: rest) len = Ok (mem', Z.of_nat (length s2)) /\
    (0 < len -> holds mem' s1 (truncated s2 len ++ [0])) /\
    same_on (beyond s1 (s1 + len)) mem mem'.
Proof.
  intros Hs H1 H2 H3. unfold my_strlcpy, truncated.
  destruct (strlcpy_loop_spec s2 rest Hs mem s1 len 0 0) as (m1 & E1 & Hh & S1); [lia..|].
  rewrite E1. cbn [obind]. rewrite !Z.add_0_r, Z.sub_0_r in *.
  set (cp := take (Z.to_nat (len - 1)) s2) in *.
  assert (Z.of_nat (length cp) <= Z.max 0 (len - 1)) as Hcp by (subst cp; rewrite length_take; lia).
  pose proof S1 as [L1 _]. rewrite !Z.add_0_l.
  destruct (Z.ltb_spec 0 len) as [Hlt|Hge].
  - destruct (write_at_spec m1 (s1 + Z.of_nat (length cp)) [0]) as (m2 & E2 & Hh2 & S2);
      [lia|simpl; lia|]. simpl length in S2. rewrite E2. cbn [obind]. exists m2. split; [done|]. split.
    + intros _. apply holds_app. split; [|exact Hh2]. apply (holds_same m1); [done|].
      apply (same_keeps _ _ _ _ S2). regions.
    + apply (same_on_trans _ _ _ _ _ _ S1 S2). regions.
  - exists m1. split; [done|]. split; [lia|]. apply (same_on_mono _ _ _ _ S1). regions.
Qed.

Lemma strlcat_pos_spec a rest : no_nul a -> forall len pos,
  (length a <= len)%nat -> (len <= length (a ++ 0%Z :: rest))%nat ->
  strlcat_pos (a ++ 0 :: rest) len pos = Ok (pos + Z.of_nat (length a)).
Proof.
  induction 1 as [|c a Hc Ha IH]; intros len pos H1 H2; destruct len as [|len]; simpl in *; try lia.
  - f_equal. lia.
  - f_equal. lia.
  - rewrite (proj2 (Z.eqb_neq _ _)) by done. rewrite IH by lia. f_equal. lia.
Qed.

Lemma strlcat_pos_full a rest : no_nul a -> forall len pos,
  (len <= length a)%nat -> strlcat_pos (a ++ rest) len pos = Ok (pos + Z.of_nat len).
Proof.
  induction 1 as [|c a Hc Ha IH]; intros len pos H1; destruct len as [|len]; simpl in *; try lia.
  - f_equal. lia.
  - f_equal. lia.
  - rewrite (proj2 (Z.eqb_neq _ _)) by done. rewrite IH by lia. f_equal. lia.
Qed.

(** ** Properties *)

(** What [my_strtoui] computes: the longest prefix of digits is converted with
    [int] arithmetic; a character that is not a digit makes it fail, after one
    more multiplication. *)
Definition strtoui_reference (s : chars) : outcome (option Z) :=
  let ds := take (prefix_len is_digit s) s in
  if (length s =? 0)%nat then Ok None
  else if (length ds =? length s)%nat then
    if decimal ds <? 2 ^ 31 then Ok (Some (decimal ds)) else Undef
  else if decimal ds * 10 <? 2 ^ 31 then Ok None else Undef.

Lemma strtoui_split (ds t rest : chars) :
  Forall (fun c => is_digit c = true) ds -> (forall c, head t = Some c -> is_digit c = false) ->
  no_nul t ->
  strtoui_loop (ds ++ t ++ 0 :: rest) 0 =
    if (length t =? 0)%nat then if decimal ds <? 2 ^ 31 then Ok (Some (decimal ds)) else Undef
    else if decimal ds * 10 <? 2 ^ 31 then Ok None else Undef.
Proof.
  intros Hds Ht Hn. rewrite strtoui_digits by (done || lia). fold (decimal ds).
  pose proof (decimal_from_grows ds 0 ltac:(lia) Hds) as Hd. fold (decimal ds) in Hd.
  destruct t as [|c t]; [done|]. specialize (Ht c eq_refl). apply Forall_cons in Hn as [Hc _].
  simpl length. cbn [Nat.eqb app strtoui_loop]. rewrite (proj2 (Z.eqb_neq c 0)) by done.
  rewrite int_ok_small by lia.
  assert ((c <? c_zero) || (c_nine <? c) = true) as ->.
  { unfold is_digit in Ht. apply andb_false_iff in Ht as [Ht|Ht]; to_prop.
    - by rewrite (proj2 (Z.ltb_lt _ _)) by lia.
    - by rewrite (proj2 (Z.ltb_lt c_nine c)), orb_true_r by lia. }
  destruct (Z.ltb_spec (decimal ds) (2 ^ 31)), (Z.ltb_spec (decimal ds * 10) (2 ^ 31)); done || lia.
Qed.

(** On every string [my_strtoui] converts a non-empty string of digits
    below 2^31, fails on the empty string and on other characters, and
    overflows an [int] (instead of returning [false]) exactly when the digits
    read so far need it: its [r < old_r] test never decides. *)
Theorem my_strtoui_functional (s rest : chars) :
  no_nul s -> my_strtoui (s ++ 0 :: rest) = strtoui_reference s.
Proof.
  intros Hs. unfold strtoui_reference.
  destruct (Nat.eqb_spec (length s) 0) as [E0|Hne]; [by destruct s|].
  assert (my_strtoui (s ++ 0 :: rest) = strtoui_loop (s ++ 0 :: rest) 0) as ->.
  { destruct Hs as [|c s Hc _]; [done|]. unfold my_strtoui. cbn [app].
    by rewrite (proj2 (Z.eqb_neq c 0)) by done. }
  pose proof (prefix_len_le is_digit s). rewrite length_take, Nat.min_l by done.
  rewrite <- (take_drop (prefix_len is_digit s) s) at 1. rewrite <- app_assoc, strtoui_split.
  - rewrite length_drop.
    destruct (Nat.eqb_spec (length s - prefix_len is_digit s) 0),
      (Nat.eqb_spec (prefix_len is_digit s) (length s)); done || lia.
  - apply prefix_len_take.
  - intros c Hc. apply (prefix_len_at _ s).
    pose proof (lookup_drop s (prefix_len is_digit s) 0) as Hl. rewrite Nat.add_0_r in Hl.
    rewrite <- Hl. by destruct (drop (prefix_len is_digit s) s).
  - by apply Forall_drop.
Qed.

Lemma my_strtoui_functional_witness :
  my_strtoui ([49; 48; 48; 48; 48; 48; 48; 48; 48; 48; 48] ++ [0]) =
    strtoui_reference [49; 48; 48; 48; 48; 48; 48; 48; 48; 48; 48].
Proof.
  apply (my_strtoui_functional [49; 48; 48; 48; 48; 48; 48; 48; 48; 48; 48] []).
  repeat (apply Forall_cons; split; [discriminate|]). apply Forall_nil. exact I.
Defined.

(** [my_uint_len] gives the number of digits of every 64-bit number,
    [my_uitos] writes exactly them, and [my_strtoui] reads back every number
    an [int] holds. *)
Theorem uitos_strtoui_roundtrip (i : Z) :
  uint 64 i ->
  exists n, my_uint_len i = Ok n /\ decimal_length i n /\
    forall output rest, Z.of_nat (length output) = n ->
      exists digits, my_uitos (output ++ 0 :: rest) i (length output) = Ok (digits ++ 0 :: rest) /\
        length digits = length output /\
        (i < 2 ^ 31 -> my_strtoui (digits ++ 0 :: rest) = Ok (Some i)).
Proof.
  intros Hi. destruct (my_uint_len_spec i Hi) as (n & E & Hn). exists n. split; [done|].
  split; [done|]. intros output rest Hl. exists (decimal_digits (length output) i).
  split; [by apply my_uitos_spec|]. split; [apply length_decimal_digits|]. intros Hsmall.
  assert (0 <= i < 10 ^ Z.of_nat (length output)) as Hb.
  { rewrite Hl. unfold uint in Hi. destruct Hn as [[-> ->]|[_ Hb]]; lia. }
  assert (strtoui_loop (decimal_digits (length output) i ++ [] ++ 0 :: rest) 0 = Ok (Some i)) as Hr.
  { rewrite strtoui_split; [|apply decimal_digits_are|done|constructor].
    rewrite decimal_digits_value by done. cbn [length Nat.eqb].
    by rewrite (proj2 (Z.ltb_lt _ _)) by done. }
  unfold my_strtoui. pose proof (decimal_digits_are (length output) i) as Hd.
  destruct (decimal_digits (length output) i) as [|c ds] eqn:Ed.
  { apply (f_equal length) in Ed. rewrite length_decimal_digits in Ed. simpl in Ed.
    destruct Hn as [[_ ->]|[? _]]; lia. }
  cbn [app] in *. apply Forall_cons in Hd as [Hc _]. unfold is_digit, c_zero in Hc. to_prop.
  by rewrite (proj2 (Z.eqb_neq c 0)) by lia.
Qed.

Lemma uitos_strtoui_roundtrip_witness :
  exists digits, my_uitos [7; 7; 7; 0] 905 3 = Ok (digits ++ [0]) /\
    my_strtoui (digits ++ [0]) = Ok (Some 905).
Proof.
  destruct (uitos_strtoui_roundtrip 905) as (n & E & _ & H).
  - split; [discriminate|reflexivity].
  - injection E as <-. destruct (H [7; 7; 7] [] eq_refl) as (digits & E1 & _ & E2).
    exists digits. split; [exact E1|]. apply E2. reflexivity.
Defined.

(** [my_strlcat] with a buffer of [len] bytes that holds the string [a]
    never writes outside it: it appends as much of [s2] as fits and a NUL, and
    returns the length the whole string needs; when the buffer has no NUL in
    its first [len] bytes it changes nothing and returns [len].  ([my_strlcpy]
    is the case of an empty [a].) *)
Theorem my_strlcat_functional (a s1_rest s2 s2_rest : chars) (len : Z) :
  let s1 := a ++ 0 :: s1_rest in
  no_nul a -> no_nul s2 -> 0 <= len <= Z.of_nat (length s1) ->
  exists s1', my_strlcat s1 (s2 ++ 0 :: s2_rest) len =
      Ok (s1', Z.min (Z.of_nat (length a)) len +
               if Z.of_nat (length a) <? len then Z.of_nat (length s2) else 0) /\
    (if Z.of_nat (length a) <? len then
       holds s1' 0 (a ++ truncated s2 (len - Z.of_nat (length a)) ++ [0]) /\
       same_on (beyond (Z.of_nat (length a)) len) s1 s1'
     else s1' = s1).
Proof.
  intros s1 Ha Hs Hlen. unfold my_strlcat.
  destruct (Z.ltb_spec (Z.of_nat (length a)) len) as [Hlt|Hge].
  - unfold s1. rewrite strlcat_pos_spec; [|done|lia|unfold s1 in Hlen; lia]. fold s1.
    cbn [obind]. rewrite Z.add_0_l. rewrite (proj2 (Z.eqb_neq _ _)) by lia.
    destruct (my_strlcpy_spec s1 (Z.of_nat (length a)) s2 s2_rest (len - Z.of_nat (length a)))
      as (m' & -> & Hh & HS); [done|lia..|]. cbn [obind]. exists m'.
    replace (Z.of_nat (length a) + (len - Z.of_nat (length a))) with len in HS by lia.
    split; [f_equal; f_equal; lia|]. split; [|done].
    apply holds_app. split; [|rewrite Z.add_0_l; apply Hh; lia].
    apply (holds_same s1).
    + split; [done|]. unfold s1. rewrite length_app. split; [lia|]. intros i b Hi.
      by apply lookup_app_l_Some.
    + apply (same_keeps _ _ _ _ HS). regions.
  - exists s1. split; [|done].
    assert (strlcat_pos s1 (Z.to_nat len) 0 = Ok len) as ->.
    { unfold s1. rewrite strlcat_pos_full by (done || lia). f_equal. lia. }
    cbn [obind]. rewrite Z.eqb_refl. f_equal. f_equal. lia.
Qed.

Lemma my_strlcat_functional_witness :
  exists s1', my_strlcat [104; 105; 0; 9; 9; 9] [97; 98; 99; 100; 0] 5 = Ok (s1', 6) /\
    holds s1' 0 [104; 105; 97; 98; 0] /\ same_on (beyond 2 5) [104; 105; 0; 9; 9; 9] s1'.
Proof.
  apply (my_strlcat_functional [104; 105] [9; 9; 9] [97; 98; 99; 100] [] 5).
  - repeat (apply Forall_cons; split; [discriminate|]). apply Forall_nil. exact I.
  - repeat (apply Forall_cons; split; [discriminate|]). apply Forall_nil. exact I.
  - simpl. lia.
Defined.

(** On strings, [my_strlen] is the length, [my_strcmp] and [my_strncmp]
    the lexicographic comparisons (of the whole strings with their
    terminators, or of their first [len] characters), [my_strchr] finds the
    first occurrence (the terminator included), [my_strrchr] the last one
    before the terminator, and [my_memchr] the first one in [n] bytes. *)
Theorem string_functions_functional (a b ra rb : chars) (len n : nat) (needle : Z) :
  no_nul a -> no_nul b -> (n <= length a)%nat ->
  my_strlen (a ++ 0 :: ra) = Ok (Z.of_nat (length a)) /\
  (exists r, my_strcmp (a ++ 0 :: ra) (b ++ 0 :: rb) = Ok r /\ compared (a ++ [0]) (b ++ [0]) r) /\
  (exists r, my_strncmp (a ++ 0 :: ra) (b ++ 0 :: rb) len = Ok r /\
     compared (take len (a ++ [0])) (take len (b ++ [0])) r) /\
  (exists r, my_strchr (a ++ 0 :: ra) needle = Ok r /\ first_position (a ++ [0]) needle r) /\
  (exists r, my_strrchr (a ++ 0 :: ra) needle = Ok r /\ last_position a needle r) /\
  (exists r, my_memchr (a ++ 0 :: ra) needle n = Ok r /\ first_position (take n a) needle r).
Proof.
  intros Ha Hb Hn. split; [by apply strlen_loop_spec|]. split; [|split; [by apply strncmp_spec|]].
  { pose (k := S (length a + length b)).
    destruct (strncmp_spec k a b ra rb Ha Hb) as (r & E & Hr). exists r.
    rewrite (strcmp_strncmp a b ra rb k) by (done || unfold k; lia). split; [done|].
    rewrite !take_ge in Hr by (rewrite length_app; simpl; unfold k; lia). done. }
  split; [|split].
  - destruct (strchr_loop_spec a needle ra Ha 0) as (r & E & Hr). unfold my_strchr.
    rewrite E. exists r. split; [by destruct r|done].
  - destruct (strrchr_loop_spec a needle ra Ha 0 None) as (r & Hr & E). unfold my_strrchr.
    rewrite E. exists r. split; [by destruct r|done].
  - destruct (memchr_loop_spec n needle (a ++ 0 :: ra) 0) as (r & E & Hr);
      [rewrite length_app; lia|]. unfold my_memchr. rewrite E.
    rewrite take_app_le in Hr by done. exists r. split; [by destruct r|done].
Qed.

Lemma string_functions_functional_witness :
  exists r, my_strcmp [97; 98; 0; 1] [97; 99; 0] = Ok r /\ compared [97; 98; 0] [97; 99; 0] r.
Proof.
  apply (string_functions_functional [97; 98] [97; 99] [1] [] 0 0 97).
  - repeat (apply Forall_cons; split; [discriminate|]). apply Forall_nil. exact I.
  - repeat (apply Forall_cons; split; [discriminate|]). apply Forall_nil. exact I.
  - apply Nat.le_0_l.
Defined.
