(* ===== verification/ConvertUTF.v ===== *)
(** * Unicode conversions (common/convert_UTF.h, common/convert_UTF.cc)

    The six conversions between UTF-8, UTF-16 and UTF-32.  A source is the list
    of code units from [*sourceStart] to [sourceEnd]; the target is the list of
    units written since [*targetStart], with room for [cap] of them
    ([targetEnd - *targetStart]); a write without room is [Undef].  The
    theorems compare the conversions with the encoding forms of the Unicode
    standard. *)

From S2P Require Import Prelude.
#[local] Open Scope Z_scope.

(** [lia] knows the quotients and remainders by constants. *)
#[local] Ltac Zify.zify_post_hook ::= Z.to_euclidean_division_equations.

Inductive ConversionResult : Type :=
| conversionOK
| sourceExhausted
| targetExhausted
| sourceIllegal.

Inductive ConversionFlags : Type :=
| strictConversion
| lenientConversion.

Definition is_strict (flags : ConversionFlags) : bool :=
  match flags with strictConversion => true | lenientConversion => false end.

Abbreviation units := (list Z).

(** The result, the source left and the target written. *)
Record Converted : Type := mkConverted {
  conv_result : ConversionResult;
  conv_source : units;
  conv_target : units;
}.

Definition UNI_REPLACEMENT_CHAR : Z := 0xFFFD.
Definition UNI_MAX_BMP : Z := 0xFFFF.
Definition UNI_MAX_UTF16 : Z := 0x10FFFF.
Definition UNI_MAX_LEGAL_UTF32 : Z := 0x10FFFF.
Definition UNI_SUR_HIGH_START : Z := 0xD800.
Definition UNI_SUR_HIGH_END : Z := 0xDBFF.
Definition UNI_SUR_LOW_START : Z := 0xDC00.
Definition UNI_SUR_LOW_END : Z := 0xDFFF.
Definition halfShift : Z := 10.
Definition halfBase : Z := 0x10000.
Definition halfMask : Z := 0x3FF.

(** [lo <= ch && ch <= hi] *)
Definition in_range (lo hi ch : Z) : bool := (lo <=? ch) && (ch <=? hi).

(** ** Tables *)

(** The rows of the table. *)
Definition trailingBytesForUTF8 (b : Z) : Z :=
  if b <? 0xC0 then 0
  else if b <? 0xE0 then 1
  else if b <? 0xF0 then 2
  else if b <? 0xF8 then 3
  else if b <? 0xFC then 4
  else 5.

Definition offsetsFromUTF8 (n : Z) : Z :=
  nth (Z.to_nat n) [0x00000000; 0x00003080; 0x000E2080; 0x03C82080; 0xFA082080; 0x82082080] 0.

Definition firstByteMark (n : Z) : Z :=
  nth (Z.to_nat n) [0x00; 0x00; 0xC0; 0xE0; 0xF0; 0xF8; 0xFC] 0.

Section convert.
(** The width of [UTF32], an [unsigned long], and the room in the target. *)
Context (w : Z) (flags : ConversionFlags) (cap : Z).

Definition room (target : units) : Z := cap - Z.of_nat (length target).

(** [*target++ = u] *)
Definition put (target : units) (u : Z) : outcome units :=
  if room target <=? 0 then Undef else Ok (target ++ [u]).

(** The two units of a surrogate pair. *)
Definition put_pair (target : units) (ch : Z) : outcome units :=
  let ch := wrap w (ch - halfBase) in
  let? target := put target (wrap 16 (Z.shiftr ch halfShift + UNI_SUR_HIGH_START)) in
  put target (wrap 16 (Z.land ch halfMask + UNI_SUR_LOW_START)).

(** ** From UTF-32 *)

Fixpoint utf32to16_loop (source : units) (result : ConversionResult) (target : units) :
    outcome Converted :=
  match source with
  | [] => Ok (mkConverted result source target)
  | ch :: rest =>
      if room target <=? 0 then Ok (mkConverted targetExhausted source target)
      else if ch <=? UNI_MAX_BMP then
        if in_range UNI_SUR_HIGH_START UNI_SUR_LOW_END ch then
          if is_strict flags then Ok (mkConverted sourceIllegal source target)
          else let? target := put target UNI_REPLACEMENT_CHAR in utf32to16_loop rest result target
        else let? target := put target (wrap 16 ch) in utf32to16_loop rest result target
      else if UNI_MAX_LEGAL_UTF32 <? ch then
        if is_strict flags then utf32to16_loop rest sourceIllegal target
        else let? target := put target UNI_REPLACEMENT_CHAR in utf32to16_loop rest result target
      else if room target <=? 1 then Ok (mkConverted targetExhausted source target)
      else let? target := put_pair target ch in utf32to16_loop rest result target
  end.

Definition ConvertUTF32toUTF16 (source : units) : outcome Converted :=
  utf32to16_loop source conversionOK [].

(** [bytesToWrite] and the character it is for. *)
Definition utf8_length (ch : Z) : Z * Z :=
  if ch <? 0x80 then (1, ch)
  else if ch <? 0x800 then (2, ch)
  else if ch <? 0x10000 then (3, ch)
  else if ch <? 0x110000 then (4, ch)
  else (3, UNI_REPLACEMENT_CHAR).

(** The switch that falls through from [case trailing + 1] to [case 1], filling
    the target backwards. *)
Fixpoint utf8_bytes (bytesToWrite : Z) (trailing : nat) (ch : Z) (after : units) : units :=
  match trailing with
  | O => wrap 8 (Z.lor ch (firstByteMark bytesToWrite)) :: after
  | S n =>
      utf8_bytes bytesToWrite n (Z.shiftr ch 6) (wrap 8 (Z.land (Z.lor ch 0x80) 0xBF) :: after)
  end.

(** The bytes of [ch] at the end of the target; there is room for them. *)
Definition put_utf8 (target : units) (bytesToWrite ch : Z) : outcome units :=
  if room target <? bytesToWrite then Undef
  else Ok (target ++ utf8_bytes bytesToWrite (Z.to_nat (bytesToWrite - 1)) ch []).

Fixpoint utf32to8_loop (source : units) (result : ConversionResult) (target : units) :
    outcome Converted :=
  match source with
  | [] => Ok (mkConverted result source target)
  | ch :: rest =>
      if is_strict flags && in_range UNI_SUR_HIGH_START UNI_SUR_LOW_END ch then
        Ok (mkConverted sourceIllegal source target)
      else
        let (bytesToWrite, ch') := utf8_length ch in
        let result := if UNI_MAX_LEGAL_UTF32 <? ch then sourceIllegal else result in
        if room target <? bytesToWrite then Ok (mkConverted targetExhausted source target)
        else let? target := put_utf8 target bytesToWrite ch' in utf32to8_loop rest result target
  end.

Definition ConvertUTF32toUTF8 (source : units) : outcome Converted :=
  utf32to8_loop source conversionOK [].

(** ** From UTF-16 *)

(** One character read from UTF-16, or the result that ends the
    conversion. *)
Inductive utf16_read : Type :=
| read_char (ch : Z) (rest : units)
| read_stop (result : ConversionResult).

Definition read_utf16 (ch : Z) (source : units) : utf16_read :=
  if in_range UNI_SUR_HIGH_START UNI_SUR_HIGH_END ch then
    match source with
    | ch2 :: rest =>
        if in_range UNI_SUR_LOW_START UNI_SUR_LOW_END ch2 then
          read_char (wrap w (wrap w (Z.shiftl (wrap w (ch - UNI_SUR_HIGH_START)) halfShift
                                     + wrap w (ch2 - UNI_SUR_LOW_START)) + halfBase)) rest
        else if is_strict flags then read_stop sourceIllegal
        else read_char ch source
    | [] => read_stop sourceExhausted
    end
  else if is_strict flags && in_range UNI_SUR_LOW_START UNI_SUR_LOW_END ch then
    read_stop sourceIllegal
  else read_char ch source.

(** Every round consumes a unit, so the length of the source is fuel
    enough. *)
Fixpoint utf16to32_loop (fuel : nat) (source target : units) : outcome Converted :=
  match source with
  | [] => Ok (mkConverted conversionOK source target)
  | ch :: rest =>
      match fuel with
      | O => Undef
      | S fuel =>
          match read_utf16 ch rest with
          | read_stop result => Ok (mkConverted result source target)
          | read_char ch rest =>
              if room target <=? 0 then Ok (mkConverted targetExhausted source target)
              else let? target := put target ch in utf16to32_loop fuel rest target
          end
      end
  end.

Definition ConvertUTF16toUTF32 (source : units) : outcome Converted :=
  utf16to32_loop (length source) source [].

Fixpoint utf16to8_loop (fuel : nat) (source target : units) : outcome Converted :=
  match source with
  | [] => Ok (mkConverted conversionOK source target)
  | ch :: rest =>
      match fuel with
      | O => Undef
      | S fuel =>
          match read_utf16 ch rest with
          | read_stop result => Ok (mkConverted result source target)
          | read_char ch rest =>
              let (bytesToWrite, ch) := utf8_length ch in
              if room target <? bytesToWrite then Ok (mkConverted targetExhausted source target)
              else let? target := put_utf8 target bytesToWrite ch in utf16to8_loop fuel rest target
          end
      end
  end.

Definition ConvertUTF16toUTF8 (source : units) : outcome Converted :=
  utf16to8_loop (length source) source [].

(** ** From UTF-8 *)

(** The byte [*(source + i)]. *)
Definition byte_at (source : units) (i : Z) : outcome Z := of_option (source !! Z.to_nat i).

(** The test of the last two bytes of a 4-byte sequence and of the last one of
    a 3-byte sequence. *)
Definition continuation (a : Z) : bool := negb ((a <? 0x80) || (0xBF <? a)).

(** [case 2], with its inner switch. *)
Definition second_byte_ok (first a : Z) : bool :=
  if 0xBF <? a then false
  else if first =? 0xE0 then negb (a <? 0xA0)
  else if first =? 0xED then negb (0x9F <? a)
  else if first =? 0xF0 then negb (a <? 0x90)
  else if first =? 0xF4 then negb (0x8F <? a)
  else negb (a <? 0x80).

(** [case 1] and the test after the switch. *)
Definition first_byte_ok (first : Z) : bool :=
  if (0x80 <=? first) && (first <? 0xC2) then false else negb (0xF4 <? first).

Definition isLegalUTF8 (source : units) (length : Z) : outcome bool :=
  let case1 := let? first := byte_at source 0 in Ok (first_byte_ok first) in
  let case2 :=
    let? a := byte_at source 1 in
    let? first := byte_at source 0 in
    if second_byte_ok first a then case1 else Ok false in
  let case3 := let? a := byte_at source 2 in if continuation a then case2 else Ok false in
  (* the switch enters at [length] and reads its bytes from the last one *)
  if length =? 4 then let? a := byte_at source 3 in if continuation a then case3 else Ok false
  else if length =? 3 then case3
  else if length =? 2 then case2
  else if length =? 1 then case1
  else Ok false.

Definition isLegalUTF8Sequence (source : units) : outcome bool :=
  let? first := byte_at source 0 in
  let n := trailingBytesForUTF8 first + 1 in
  if Z.of_nat (length source) <? n then Ok false else isLegalUTF8 source n.

(** The switch that sums the bytes of a sequence. *)
Fixpoint sum_utf8 (extra : nat) (source : units) (ch : Z) : outcome (Z * units) :=
  match source with
  | [] => Undef
  | b :: source =>
      let ch := wrap w (ch + b) in
      match extra with
      | O => Ok (ch, source)
      | S extra => sum_utf8 extra source (wrap w (Z.shiftl ch 6))
      end
  end.

(** One character read from UTF-8, or the result that ends the conversion. *)
Definition read_utf8 (source : units) : outcome utf16_read :=
  let? first := byte_at source 0 in
  let extraBytesToRead := trailingBytesForUTF8 first in
  if Z.of_nat (length source) <=? extraBytesToRead then Ok (read_stop sourceExhausted)
  else
    let? legal := isLegalUTF8 source (extraBytesToRead + 1) in
    if negb legal then Ok (read_stop sourceIllegal)
    else
      let? (ch, rest) := sum_utf8 (Z.to_nat extraBytesToRead) source 0 in
      Ok (read_char (wrap w (ch - offsetsFromUTF8 extraBytesToRead)) rest).

Fixpoint utf8to16_loop (fuel : nat) (source target : units) : outcome Converted :=
  match source with
  | [] => Ok (mkConverted conversionOK source target)
  | _ :: _ =>
      match fuel with
      | O => Undef
      | S fuel =>
          let? r := read_utf8 source in
          match r with
          | read_stop result => Ok (mkConverted result source target)
          | read_char ch rest =>
              if room target <=? 0 then Ok (mkConverted targetExhausted source target)
              else if ch <=? UNI_MAX_BMP then
                if in_range UNI_SUR_HIGH_START UNI_SUR_LOW_END ch then
                  if is_strict flags then Ok (mkConverted sourceIllegal source target)
                  else let? target := put target UNI_REPLACEMENT_CHAR in utf8to16_loop fuel rest target
                else let? target := put target (wrap 16 ch) in utf8to16_loop fuel rest target
              else if UNI_MAX_UTF16 <? ch then
                if is_strict flags then Ok (mkConverted sourceIllegal source target)
                else let? target := put target UNI_REPLACEMENT_CHAR in utf8to16_loop fuel rest target
              else if room target <=? 1 then Ok (mkConverted targetExhausted source target)
              else let? target := put_pair target ch in utf8to16_loop fuel rest target
          end
      end
  end.

Definition ConvertUTF8toUTF16 (source : units) : outcome Converted :=
  utf8to16_loop (length source) source [].

Fixpoint utf8to32_loop (fuel : nat) (source : units) (result : ConversionResult) (target : units) :
    outcome Converted :=
  match source with
  | [] => Ok (mkConverted result source target)
  | _ :: _ =>
      match fuel with
      | O => Undef
      | S fuel =>
          let? r := read_utf8 source in
          match r with
          | read_stop stop => Ok (mkConverted stop source target)
          | read_char ch rest =>
              if room target <=? 0 then Ok (mkConverted targetExhausted source target)
              else if ch <=? UNI_MAX_LEGAL_UTF32 then
                if in_range UNI_SUR_HIGH_START UNI_SUR_LOW_END ch then
                  if is_strict flags then Ok (mkConverted sourceIllegal source target)
                  else
                    let? target := put target UNI_REPLACEMENT_CHAR in
                    utf8to32_loop fuel rest result target
                else let? target := put target ch in utf8to32_loop fuel rest result target
              else
                let? target := put target UNI_REPLACEMENT_CHAR in
                utf8to32_loop fuel rest sourceIllegal target
          end
      end
  end.

Definition ConvertUTF8toUTF32 (source : units) : outcome Converted :=
  utf8to32_loop (length source) source conversionOK [].
End convert.

(** ** The Unicode encoding forms *)

(** The scalar values: code points that are not surrogates. *)
Definition is_scalar (c : Z) : bool := in_range 0 0xD7FF c || in_range 0xE000 0x10FFFF c.

Definition utf8_encode (c : Z) : units :=
  if c <? 0x80 then [c]
  else if c <? 0x800 then [0xC0 + c / 64; 0x80 + c mod 64]
  else if c <? 0x10000 then [0xE0 + c / 4096; 0x80 + c / 64 mod 64; 0x80 + c mod 64]
  else [0xF0 + c / 262144; 0x80 + c / 4096 mod 64; 0x80 + c / 64 mod 64; 0x80 + c mod 64].

Definition utf16_encode (c : Z) : units :=
  if c <? 0x10000 then [c]
  else [0xD800 + (c - 0x10000) / 1024; 0xDC00 + (c - 0x10000) mod 1024].

Definition utf32_encode (c : Z) : units := [c].

Definition encode (enc : Z -> units) (cs : units) : units := concat (map enc cs).

Lemma encode_app enc cs1 cs2 : encode enc (cs1 ++ cs2) = encode enc cs1 ++ encode enc cs2.
Proof. unfold encode. by rewrite map_app, concat_app. Qed.

Lemma encode_snoc enc cs c : encode enc (cs ++ [c]) = encode enc cs ++ enc c.
Proof. rewrite encode_app. unfold encode. simpl. by rewrite app_nil_r. Qed.

Lemma is_scalar_iff c : is_scalar c = true <-> 0 <= c < 0xD800 \/ 0xE000 <= c < 0x110000.
Proof. unfold is_scalar, in_range. rewrite orb_true_iff, !andb_true_iff, !Z.leb_le. lia. Qed.

Ltac utf_consts :=
  unfold UNI_SUR_HIGH_START, UNI_SUR_LOW_END, UNI_SUR_HIGH_END, UNI_SUR_LOW_START, UNI_MAX_BMP,
    UNI_MAX_UTF16, UNI_MAX_LEGAL_UTF32, halfBase, halfShift, halfMask in *.

Lemma in_range_true lo hi c : lo <= c <= hi -> in_range lo hi c = true.
Proof. intros H. unfold in_range. by rewrite !(proj2 (Z.leb_le _ _)) by lia. Qed.

Lemma in_range_false lo hi c : c < lo \/ hi < c -> in_range lo hi c = false.
Proof.
  intros H. unfold in_range. apply andb_false_iff. rewrite !Z.leb_gt. lia.
Qed.

Lemma in_range_iff lo hi c : in_range lo hi c = true <-> lo <= c <= hi.
Proof. unfold in_range. by rewrite andb_true_iff, !Z.leb_le. Qed.

Lemma scalar_not_surrogate c : is_scalar c = true -> in_range UNI_SUR_HIGH_START UNI_SUR_LOW_END c = false.
Proof. rewrite is_scalar_iff. intros H. apply in_range_false. utf_consts. lia. Qed.

(** ** What a conversion does *)

(** No scalar value is encoded at the start of [source]. *)
Definition unconvertible (enc : Z -> units) (source : units) : Prop :=
  source <> [] /\ forall c rest, is_scalar c = true -> source <> enc c ++ rest.

Section converts.
Context (enc_in enc_out : Z -> units) (cap : Z).

(** The text after [cs0], which is already written: as many characters as are
    well formed and fit are converted, and the result says why the conversion
    stopped where it did. *)
Definition continues (cs0 source : units) (conv : Converted) : Prop :=
  exists cs, Forall (fun c => is_scalar c = true) cs /\
    source = encode enc_in cs ++ conv_source conv /\
    conv_target conv = encode enc_out (cs0 ++ cs) /\
    Z.of_nat (length (conv_target conv)) <= cap /\
    match conv_result conv with
    | conversionOK => conv_source conv = []
    | targetExhausted =>
        conv_source conv <> [] /\
        forall c rest, is_scalar c = true -> conv_source conv = enc_in c ++ rest ->
          cap < Z.of_nat (length (conv_target conv)) + Z.of_nat (length (enc_out c))
    | sourceIllegal | sourceExhausted => unconvertible enc_in (conv_source conv)
    end.

Definition converts (source : units) (conv : Converted) : Prop := continues [] source conv.

Definition fits (cs : units) : Prop := Z.of_nat (length (encode enc_out cs)) <= cap.

Lemma continues_step cs0 c rest conv :
  is_scalar c = true -> continues (cs0 ++ [c]) rest conv -> continues cs0 (enc_in c ++ rest) conv.
Proof.
  intros Hc (cs & Hcs & -> & Ht & Hlen & Hr). exists (c :: cs). split; [by constructor|].
  split; [unfold encode; simpl; by rewrite <- app_assoc|].
  split; [by rewrite Ht, <- app_assoc|]. done.
Qed.

Lemma continues_done cs0 : fits cs0 -> continues cs0 [] (mkConverted conversionOK [] (encode enc_out cs0)).
Proof. intros Hf. exists []. rewrite (app_nil_r cs0). by split_and!. Qed.

Lemma continues_full cs0 source :
  fits cs0 -> source <> [] ->
  (forall c rest, is_scalar c = true -> source = enc_in c ++ rest ->
     cap < Z.of_nat (length (encode enc_out cs0)) + Z.of_nat (length (enc_out c))) ->
  continues cs0 source (mkConverted targetExhausted source (encode enc_out cs0)).
Proof.
  intros Hf Hne Hcap. exists []. rewrite (app_nil_r cs0). split; [done|]. split; [done|].
  split; [done|]. split; [done|]. by split.
Qed.

Lemma continues_malformed cs0 source result :
  fits cs0 -> unconvertible enc_in source -> result = sourceIllegal \/ result = sourceExhausted ->
  continues cs0 source (mkConverted result source (encode enc_out cs0)).
Proof.
  intros Hf Hu Hr. exists []. rewrite (app_nil_r cs0). split; [done|]. split; [done|].
  split; [done|]. split; [done|]. simpl. by destruct Hr as [-> | ->].
Qed.
End converts.

Arguments fits enc_out cap cs /.

(** ** Writing a character *)

Section writing.
Context (w cap : Z) (Hw : 32 <= w).

Lemma pow_32_w : 2 ^ 32 <= 2 ^ w.
Proof. apply Z.pow_le_mono_r; lia. Qed.

Lemma wrap_w_small z : 0 <= z < 2 ^ 32 -> wrap w z = z.
Proof. intros Hz. apply wrap_small. unfold uint. pose proof pow_32_w. lia. Qed.

Lemma put_fits target u : 0 < room cap target -> put cap target u = Ok (target ++ [u]).
Proof. intros Hr. unfold put. by rewrite (proj2 (Z.leb_gt _ _)) by done. Qed.

Lemma room_app t1 t2 : room cap (t1 ++ t2) = room cap t1 - Z.of_nat (length t2).
Proof. unfold room. rewrite length_app. lia. Qed.

Lemma put_pair_fits target c :
  0x10000 <= c < 0x110000 -> 1 < room cap target ->
  put_pair w cap target c = Ok (target ++ utf16_encode c).
Proof.
  intros Hc Hr. unfold put_pair, utf16_encode. utf_consts.
  rewrite (proj2 (Z.ltb_ge _ _)) by lia. rewrite wrap_w_small by lia.
  rewrite put_fits by lia. cbn [obind]. rewrite put_fits by (rewrite room_app; simpl; lia).
  rewrite <- app_assoc. cbn [app]. do 2 f_equal.
  change 0x3FF with (Z.ones 10). rewrite Z.land_ones, Z.shiftr_div_pow2 by lia.
  change (2 ^ 10) with 1024.
  rewrite !wrap_small by (unfold uint; lia).
  rewrite Z.add_comm. f_equal. f_equal. lia.
Qed.

(** The byte [ch | 0x80 & 0xBF] is a continuation byte. *)
Lemma lor_add a b : Z.land a b = 0 -> Z.lor a b = a + b.
Proof. intros H. by rewrite Z.add_nocarry_lor. Qed.

Lemma continuation_byte ch :
  0 <= ch -> wrap 8 (Z.land (Z.lor ch 0x80) 0xBF) = 0x80 + ch mod 64.
Proof.
  intros Hch. rewrite Z.land_lor_distr_l. change (Z.land 0x80 0xBF) with 0x80.
  change 0xBF with (Z.lor (Z.ones 6) 0x80).
  rewrite Z.land_lor_distr_r, <- Z.lor_assoc, Z.land_ones by lia.
  assert (Z.lor (Z.land ch 0x80) 0x80 = 0x80) as ->.
  { rewrite Z.lor_comm. apply Z.bits_inj'. intros n Hn. rewrite Z.lor_spec, Z.land_spec.
    destruct (Z.testbit 0x80 n); [done|]. by rewrite andb_false_r. }
  change (2 ^ 6) with 64. pose proof (Z.mod_pos_bound ch 64).
  rewrite lor_add; [rewrite wrap_small by (unfold uint; lia); lia|].
  change 0x80 with (Z.shiftl 1 7). rewrite Z.land_comm. apply Z.bits_inj'. intros n Hn.
  rewrite Z.land_spec, Z.bits_0, Z.shiftl_spec by lia.
  destruct (decide (n = 7)) as [->|].
  - rewrite (Z.bits_above_log2 (ch mod 64)); [done|lia|].
    destruct (decide (ch mod 64 = 0)) as [->|]; [done|]. apply Z.log2_lt_pow2; lia.
  - destruct (Z_lt_dec n 7); [by rewrite Z.testbit_neg_r by lia|].
    by rewrite (Z.bits_above_log2 1) by (simpl; lia).
Qed.

(** The first byte: the bits of the character below the mark. *)
Lemma first_byte ch m k :
  0 <= k -> 0 <= ch < 2 ^ k -> Z.land m (Z.ones k) = 0 -> 0 <= ch + m < 256 ->
  wrap 8 (Z.lor ch m) = m + ch.
Proof.
  intros Hk Hch Hm Hb. rewrite lor_add.
  - rewrite wrap_small by (unfold uint; lia). lia.
  - rewrite <- (Z.mod_small ch (2 ^ k)) by done. rewrite <- Z.land_ones by lia.
    by rewrite <- Z.land_assoc, (Z.land_comm _ m), Hm, Z.land_0_r.
Qed.

Lemma utf8_bytes_encode c :
  0 <= c < 0x110000 ->
  utf8_length c = (Z.of_nat (length (utf8_encode c)), c) /\
  utf8_bytes (Z.of_nat (length (utf8_encode c))) (length (utf8_encode c) - 1) c [] = utf8_encode c.
Proof.
  intros Hc. unfold utf8_length, utf8_encode.
  destruct (Z.ltb_spec c 0x80); [|destruct (Z.ltb_spec c 0x800); [|destruct (Z.ltb_spec c 0x10000)]].
  - split; [done|]. cbn - [Z.lor wrap]. f_equal. rewrite (first_byte _ 0 7) by (done || lia). lia.
  - split; [done|]. cbn - [Z.lor Z.land Z.shiftr wrap Z.add Z.div Z.modulo firstByteMark].
    rewrite continuation_byte, !Z.shiftr_div_pow2 by lia. change (2 ^ 6) with 64.
    f_equal.
    change (firstByteMark _) with 0xC0. rewrite (first_byte _ _ 5) by (done || lia). done.
  - split; [done|]. cbn - [Z.lor Z.land Z.shiftr wrap Z.add Z.div Z.modulo firstByteMark].
    rewrite !Z.shiftr_div_pow2 by lia. change (2 ^ 6) with 64. rewrite !continuation_byte by lia.
    rewrite Z.div_div by lia. f_equal.
    change (firstByteMark _) with 0xE0. rewrite (first_byte _ _ 4) by (done || lia). done.
  - rewrite (proj2 (Z.ltb_lt _ _)) by lia.
    split; [done|]. cbn - [Z.lor Z.land Z.shiftr wrap Z.add Z.div Z.modulo firstByteMark].
    rewrite !Z.shiftr_div_pow2 by lia. change (2 ^ 6) with 64. rewrite !continuation_byte by lia.
    rewrite !Z.div_div by lia. f_equal.
    change (firstByteMark _) with 0xF0. rewrite (first_byte _ _ 3) by (done || lia). done.
Qed.

Lemma put_utf8_fits target c :
  0 <= c < 0x110000 -> Z.of_nat (length (utf8_encode c)) <= room cap target ->
  put_utf8 cap target (Z.of_nat (length (utf8_encode c))) c = Ok (target ++ utf8_encode c).
Proof.
  intros Hc Hr. unfold put_utf8. rewrite (proj2 (Z.ltb_ge _ _)) by lia.
  destruct (utf8_bytes_encode c Hc) as [_ Hb].
  replace (Z.to_nat (Z.of_nat (length (utf8_encode c)) - 1))
    with (length (utf8_encode c) - 1)%nat by lia.
  by rewrite Hb.
Qed.
End writing.

(** ** From UTF-32 *)

Section from_utf32.
Context (w cap : Z) (Hw : 32 <= w).

Lemma surrogate_unconvertible c rest :
  in_range UNI_SUR_HIGH_START UNI_SUR_LOW_END c = true -> unconvertible utf32_encode (c :: rest).
Proof.
  intros Hc. split; [done|]. intros c' rest' Hs [= -> _].
  by rewrite scalar_not_surrogate in Hc.
Qed.

Lemma fits_room cs enc : fits enc cap cs <-> 0 <= room cap (encode enc cs).
Proof. unfold fits, room. lia. Qed.

Lemma fits_snoc cs enc c :
  Z.of_nat (length (enc c)) <= room cap (encode enc cs) -> fits enc cap (cs ++ [c]).
Proof. unfold fits, room. rewrite encode_snoc, length_app. lia. Qed.

(** The code points that are not too large: the scalar values and the
    surrogates. *)
Definition code_point (c : Z) : Prop := 0 <= c <= 0x10FFFF.

Lemma code_point_cases c :
  code_point c -> is_scalar c = true \/ in_range UNI_SUR_HIGH_START UNI_SUR_LOW_END c = true.
Proof.
  unfold code_point. rewrite is_scalar_iff, in_range_iff. utf_consts. lia.
Qed.

Lemma utf32to8_step c rest result target :
  is_scalar c = true ->
  utf32to8_loop strictConversion cap (c :: rest) result target =
    if room cap target <? Z.of_nat (length (utf8_encode c)) then
      Ok (mkConverted targetExhausted (c :: rest) target)
    else utf32to8_loop strictConversion cap rest result (target ++ utf8_encode c).
Proof.
  intros Hc. cbn [utf32to8_loop]. rewrite (scalar_not_surrogate c Hc), andb_false_r.
  apply is_scalar_iff in Hc. destruct (utf8_bytes_encode c) as [-> _]; [lia|].
  utf_consts. rewrite (proj2 (Z.ltb_ge _ c)) by lia.
  destruct (Z.ltb_spec (room cap target) (Z.of_nat (length (utf8_encode c)))); [done|].
  by rewrite put_utf8_fits by lia.
Qed.

Lemma utf32to8_loop_spec source : forall cs0,
  Forall code_point source -> fits utf8_encode cap cs0 ->
  exists conv, utf32to8_loop strictConversion cap source conversionOK (encode utf8_encode cs0) = Ok conv /\
    continues utf32_encode utf8_encode cap cs0 source conv.
Proof.
  induction source as [|c rest IH]; intros cs0 Hs Hf.
  { eexists. split; [done|]. by apply continues_done. }
  apply Forall_cons in Hs as [Hc Hs]. destruct (code_point_cases c Hc) as [Hsc|Hsur].
  - rewrite utf32to8_step by done.
    destruct (Z.ltb_spec (room cap (encode utf8_encode cs0)) (Z.of_nat (length (utf8_encode c)))).
    + eexists. split; [done|]. apply continues_full; [done|done|].
      intros c' rest' _ [= <- _]. unfold room in *. lia.
    + rewrite <- encode_snoc. destruct (IH (cs0 ++ [c])) as (conv & -> & Hconv);
        [done|by apply fits_snoc|].
      eexists. split; [done|]. by apply (continues_step utf32_encode utf8_encode cap cs0 c rest).
  - cbn [utf32to8_loop is_strict andb]. rewrite Hsur. eexists. split; [done|].
    apply continues_malformed; [done|by apply surrogate_unconvertible|by left].
Qed.

Lemma utf32to16_step c rest result target :
  is_scalar c = true ->
  utf32to16_loop w strictConversion cap (c :: rest) result target =
    if room cap target <? Z.of_nat (length (utf16_encode c)) then
      Ok (mkConverted targetExhausted (c :: rest) target)
    else utf32to16_loop w strictConversion cap rest result (target ++ utf16_encode c).
Proof.
  intros Hc. cbn [utf32to16_loop]. rewrite (scalar_not_surrogate c Hc).
  apply is_scalar_iff in Hc. utf_consts. unfold utf16_encode.
  destruct (Z.leb_spec (room cap target) 0).
  { rewrite (proj2 (Z.ltb_lt (room cap target) _)); [done|]. destruct (c <? 0x10000); simpl; lia. }
  destruct (Z.leb_spec c 0xFFFF).
  - rewrite (proj2 (Z.ltb_lt c _)) by lia. rewrite (proj2 (Z.ltb_ge _ _)) by (simpl; lia).
    rewrite put_fits by lia. rewrite wrap_small by (unfold uint; lia). done.
  - rewrite (proj2 (Z.ltb_ge 0x10FFFF c)), (proj2 (Z.ltb_ge c _)) by lia. simpl length.
    destruct (Z.leb_spec (room cap target) 1).
    + by rewrite (proj2 (Z.ltb_lt (room cap target) _)) by lia.
    + rewrite (proj2 (Z.ltb_ge (room cap target) _)) by lia.
      rewrite put_pair_fits by lia. cbn [obind]. unfold utf16_encode.
      by rewrite (proj2 (Z.ltb_ge c _)) by lia.
Qed.

Lemma utf32to16_loop_spec source : forall cs0,
  Forall code_point source -> fits utf16_encode cap cs0 ->
  exists conv, utf32to16_loop w strictConversion cap source conversionOK (encode utf16_encode cs0) = Ok conv /\
    continues utf32_encode utf16_encode cap cs0 source conv.
Proof.
  induction source as [|c rest IH]; intros cs0 Hs Hf.
  { eexists. split; [done|]. by apply continues_done. }
  apply Forall_cons in Hs as [Hc Hs]. destruct (code_point_cases c Hc) as [Hsc|Hsur].
  - rewrite utf32to16_step by done.
    destruct (Z.ltb_spec (room cap (encode utf16_encode cs0)) (Z.of_nat (length (utf16_encode c)))).
    + eexists. split; [done|]. apply continues_full; [done|done|].
      intros c' rest' _ [= <- _]. unfold room in *. lia.
    + rewrite <- encode_snoc. destruct (IH (cs0 ++ [c])) as (conv & -> & Hconv);
        [done|by apply fits_snoc|].
      eexists. split; [done|]. by apply (continues_step utf32_encode utf16_encode cap cs0 c rest).
  - cbn [utf32to16_loop]. rewrite Hsur. unfold code_point in Hc.
    destruct (Z.leb_spec (room cap (encode utf16_encode cs0)) 0).
    + eexists. split; [done|]. apply continues_full; [done|done|].
      intros c' rest' Hc' [= <- _]. by rewrite scalar_not_surrogate in Hsur.
    + apply in_range_iff in Hsur as Hb. utf_consts. rewrite (proj2 (Z.leb_le c _)) by lia.
      cbn [is_strict]. eexists. split; [done|].
      apply continues_malformed; [done|by apply surrogate_unconvertible|by left].
Qed.
End from_utf32.

(** ** From UTF-16 *)

Section from_utf16.
Context (w cap : Z) (Hw : 32 <= w).
Abbreviation units16 := (Forall (uint 16)).

Lemma read_utf16_scalar c rest :
  is_scalar c = true ->
  exists u tail, utf16_encode c ++ rest = u :: tail /\
    read_utf16 w strictConversion u tail = read_char c rest.
Proof.
  intros Hc%is_scalar_iff. unfold utf16_encode, read_utf16. destruct (Z.ltb_spec c 0x10000).
  - exists c, rest. split; [done|]. utf_consts. rewrite in_range_false by lia. cbn [is_strict andb].
    by rewrite in_range_false by lia.
  - eexists _, _. split; [done|]. utf_consts. rewrite in_range_true by lia.
    cbn [app]. rewrite in_range_true by lia. f_equal.
    rewrite Z.shiftl_mul_pow2 by lia. change (2 ^ 10) with 1024.
    rewrite wrap_add_l, !(wrap_w_small w Hw (_ - _)), wrap_w_small by lia. lia.
Qed.

(** Every read is of a well-formed character or stops the conversion. *)
Lemma read_utf16_cases u tail :
  units16 (u :: tail) ->
  (exists c rest, is_scalar c = true /\ u :: tail = utf16_encode c ++ rest /\
     read_utf16 w strictConversion u tail = read_char c rest) \/
  (exists r, read_utf16 w strictConversion u tail = read_stop r /\
     (r = sourceIllegal \/ r = sourceExhausted) /\ unconvertible utf16_encode (u :: tail)).
Proof.
  intros [Hu Ht]%Forall_cons.
  assert (forall r, read_utf16 w strictConversion u tail = read_stop r ->
            unconvertible utf16_encode (u :: tail)) as Hstop.
  { intros r Hr. split; [done|]. intros c rest Hc E.
    destruct (read_utf16_scalar c rest Hc) as (u' & tail' & E' & Hread).
    rewrite E' in E. injection E as -> ->. congruence. }
  destruct (read_utf16 w strictConversion u tail) as [c rest|r] eqn:Er.
  2:{ right. exists r. split; [done|]. split; [|by apply (Hstop r)].
      unfold read_utf16 in Er. repeat (case_match; try discriminate); injection Er as <-; auto. }
  left. exists c, rest. unfold uint in Hu. unfold read_utf16 in Er.
  destruct (in_range UNI_SUR_HIGH_START UNI_SUR_HIGH_END u) eqn:E1.
  - destruct tail as [|u2 tail]; [done|]. apply Forall_cons in Ht as [Hu2 Ht].
    destruct (in_range UNI_SUR_LOW_START UNI_SUR_LOW_END u2) eqn:E2; [|done].
    injection Er as <- <-. apply in_range_iff in E1, E2. utf_consts.
    rewrite Z.shiftl_mul_pow2 by lia. change (2 ^ 10) with 1024.
    rewrite wrap_add_l, !(wrap_w_small w Hw (_ - _)), wrap_w_small by lia.
    set (c := (u - 0xD800) * 1024 + (u2 - 0xDC00) + 0x10000).
    assert (0x10000 <= c < 0x110000) as Hc by (unfold c; lia).
    split; [apply is_scalar_iff; lia|]. split; [|done]. unfold utf16_encode.
    rewrite (proj2 (Z.ltb_ge c _)) by lia. cbn [app]. unfold c. f_equal; [lia|]. f_equal. lia.
  - cbn [is_strict andb] in Er. destruct (in_range UNI_SUR_LOW_START UNI_SUR_LOW_END u) eqn:E2; [done|].
    injection Er as <- <-. unfold in_range in E1, E2. utf_consts.
    assert (is_scalar u = true) as Hs.
    { apply is_scalar_iff. apply andb_false_iff in E1, E2. rewrite !Z.leb_gt in E1, E2. lia. }
    split; [done|]. split; [|done]. unfold utf16_encode. by rewrite (proj2 (Z.ltb_lt u _)) by lia.
Qed.

Lemma read_utf16_unique c c' rest rest' :
  is_scalar c = true -> is_scalar c' = true ->
  utf16_encode c ++ rest = utf16_encode c' ++ rest' -> c = c'.
Proof.
  intros Hc Hc' E. destruct (read_utf16_scalar c rest Hc) as (u & t & E1 & R1).
  destruct (read_utf16_scalar c' rest' Hc') as (u' & t' & E2 & R2).
  rewrite E1, E2 in E. injection E as -> ->. congruence.
Qed.

Lemma utf16_encode_nonempty c : utf16_encode c <> [].
Proof. unfold utf16_encode. by destruct (c <? 0x10000). Qed.

(** Both loops, for the encoding they write. *)
Lemma utf16_loop_spec (enc : Z -> units) (loop : nat -> units -> units -> outcome Converted)
    (Hnil : forall f target, loop f [] target = Ok (mkConverted conversionOK [] target))
    (Hstop : forall f u tail target r, read_utf16 w strictConversion u tail = read_stop r ->
       loop (S f) (u :: tail) target = Ok (mkConverted r (u :: tail) target))
    (Hchar : forall f u tail target c rest, is_scalar c = true ->
       read_utf16 w strictConversion u tail = read_char c rest ->
       loop (S f) (u :: tail) target =
         if room cap target <? Z.of_nat (length (enc c)) then
           Ok (mkConverted targetExhausted (u :: tail) target)
         else loop f rest (target ++ enc c)) :
  forall fuel source cs0,
  (length source <= fuel)%nat -> units16 source -> fits enc cap cs0 ->
  exists conv, loop fuel source (encode enc cs0) = Ok conv /\
    continues utf16_encode enc cap cs0 source conv.
Proof.
  induction fuel as [|fuel IH]; intros source cs0 Hlen Hu Hf.
  { destruct source; [|simpl in Hlen; lia]. rewrite Hnil. eexists. split; [done|].
    by apply continues_done. }
  destruct source as [|u tail].
  { rewrite Hnil. eexists. split; [done|]. by apply continues_done. }
  destruct (read_utf16_cases u tail Hu) as [(c & rest & Hc & E & Hr)|(r & Hr & Hres & Hun)].
  - rewrite (Hchar _ _ _ _ _ _ Hc Hr).
    destruct (Z.ltb_spec (room cap (encode enc cs0)) (Z.of_nat (length (enc c)))).
    + eexists. split; [done|]. apply continues_full; [done|done|].
      intros c' rest' Hc' E'. rewrite E in E'.
      rewrite <- (read_utf16_unique _ _ _ _ Hc Hc' E'). unfold room in *. lia.
    + rewrite <- encode_snoc.
      assert (length rest <= fuel)%nat as Hl.
      { apply (f_equal length) in E. rewrite length_app in E. simpl in E, Hlen.
        pose proof (utf16_encode_nonempty c). destruct (utf16_encode c); [done|]. simpl in E. lia. }
      assert (units16 rest) as Hur by (rewrite E in Hu; by apply Forall_app in Hu as [_ ?]).
      destruct (IH rest (cs0 ++ [c]) Hl Hur) as (conv & -> & Hconv); [by apply fits_snoc|].
      eexists. split; [done|]. rewrite E. by apply continues_step.
  - rewrite (Hstop _ _ _ _ _ Hr). eexists. split; [done|]. by apply continues_malformed.
Qed.

Lemma utf16to32_spec source :
  0 <= cap -> units16 source ->
  exists conv, ConvertUTF16toUTF32 w strictConversion cap source = Ok conv /\
    converts utf16_encode utf32_encode cap source conv.
Proof.
  intros Hcap Hu.
  apply (utf16_loop_spec utf32_encode (utf16to32_loop w strictConversion cap)) with (cs0 := []);
    try done.
  - by intros [|f] target.
  - intros f u tail target r Hr. cbn [utf16to32_loop]. by rewrite Hr.
  - intros f u tail target c rest Hc Hr. cbn [utf16to32_loop]. rewrite Hr. simpl length.
    destruct (Z.leb_spec (room cap target) 0).
    + by rewrite (proj2 (Z.ltb_lt _ _)) by lia.
    + rewrite (proj2 (Z.ltb_ge _ _)) by lia. by rewrite put_fits by done.
Qed.

Lemma utf16to8_spec source :
  0 <= cap -> units16 source ->
  exists conv, ConvertUTF16toUTF8 w strictConversion cap source = Ok conv /\
    converts utf16_encode utf8_encode cap source conv.
Proof.
  intros Hcap Hu.
  apply (utf16_loop_spec utf8_encode (utf16to8_loop w strictConversion cap)) with (cs0 := []);
    try done.
  - by intros [|f] target.
  - intros f u tail target r Hr. cbn [utf16to8_loop]. by rewrite Hr.
  - intros f u tail target c rest Hc%is_scalar_iff Hr. cbn [utf16to8_loop]. rewrite Hr.
    destruct (utf8_bytes_encode c) as [-> _]; [lia|].
    destruct (Z.ltb_spec (room cap target) (Z.of_nat (length (utf8_encode c)))); [done|].
    by rewrite put_utf8_fits by lia.
Qed.
End from_utf16.

(** ** From UTF-8 *)

(** Turns the boolean tests of the legality rules into inequalities. *)
Ltac legal_bools :=
  unfold first_byte_ok, second_byte_ok, continuation in *;
  repeat match goal with
  | H : context [if ?b then _ else _] |- _ => destruct b eqn:?; try discriminate H
  end;
  repeat match goal with
  | H : negb (_ || _) = true |- _ => apply negb_true_iff, orb_false_iff in H as [? ?]
  | H : (_ && _) = true |- _ => apply andb_true_iff in H as [? ?]
  | H : (_ && _) = false |- _ => apply andb_false_iff in H
  end; to_prop; try discriminate.

Section from_utf8.
Context (w cap : Z) (Hw : 32 <= w).
Abbreviation bytes := (Forall (uint 8)).
Abbreviation legal b0 n := (trailingBytesForUTF8 b0 = n).

Lemma trailing_cases b0 : uint 8 b0 ->
  (b0 < 0xC0 /\ legal b0 0) \/ (0xC0 <= b0 < 0xE0 /\ legal b0 1) \/
  (0xE0 <= b0 < 0xF0 /\ legal b0 2) \/ (0xF0 <= b0 < 0xF8 /\ legal b0 3) \/
  (0xF8 <= b0 /\ 3 < trailingBytesForUTF8 b0 <= 5).
Proof.
  unfold uint, trailingBytesForUTF8. intros Hb. bool_cases; lia.
Qed.

Lemma isLegal_1 b0 rest : isLegalUTF8 (b0 :: rest) 1 = Ok (first_byte_ok b0).
Proof. done. Qed.

Lemma isLegal_2 b0 b1 rest :
  isLegalUTF8 (b0 :: b1 :: rest) 2 = Ok (second_byte_ok b0 b1 && first_byte_ok b0).
Proof. unfold isLegalUTF8. simpl. by destruct (second_byte_ok b0 b1). Qed.

Lemma isLegal_3 b0 b1 b2 rest :
  isLegalUTF8 (b0 :: b1 :: b2 :: rest) 3 =
    Ok (continuation b2 && (second_byte_ok b0 b1 && first_byte_ok b0)).
Proof.
  unfold isLegalUTF8. simpl. destruct (continuation b2); [|done].
  by destruct (second_byte_ok b0 b1).
Qed.

Lemma isLegal_4 b0 b1 b2 b3 rest :
  isLegalUTF8 (b0 :: b1 :: b2 :: b3 :: rest) 4 =
    Ok (continuation b3 && (continuation b2 && (second_byte_ok b0 b1 && first_byte_ok b0))).
Proof.
  unfold isLegalUTF8. simpl. destruct (continuation b3); [|done].
  destruct (continuation b2); [|done]. by destruct (second_byte_ok b0 b1).
Qed.

Lemma isLegal_long source n : 4 < n -> isLegalUTF8 source n = Ok false.
Proof. intros Hn. unfold isLegalUTF8. by rewrite !(proj2 (Z.eqb_neq n _)) by lia. Qed.

Lemma sum_step b x n source :
  0 <= x + b < 2 ^ 26 -> 0 <= x -> 0 <= b ->
  sum_utf8 w (S n) (b :: source) x = sum_utf8 w n source ((x + b) * 64).
Proof.
  intros H1 H2 H3. cbn [sum_utf8]. rewrite (wrap_w_small w Hw (x + b)) by lia.
  rewrite Z.shiftl_mul_pow2 by lia. change (2 ^ 6) with 64. by rewrite wrap_w_small by lia.
Qed.

Lemma sum_last b x source :
  0 <= x + b < 2 ^ 32 -> sum_utf8 w 0 (b :: source) x = Ok (x + b, source).
Proof. intros H. cbn [sum_utf8]. by rewrite wrap_w_small by lia. Qed.

Ltac sum_bytes := repeat (rewrite sum_step by lia); rewrite sum_last by lia.

(** The well-formed sequences are the encodings of the scalar values. *)
Lemma legal_encode_1 b0 :
  uint 8 b0 -> legal b0 0 -> first_byte_ok b0 = true ->
  is_scalar b0 = true /\ utf8_encode b0 = [b0].
Proof.
  intros Hb Ht Hl. destruct (trailing_cases b0 Hb) as [[? _]|H]; [|lia].
  unfold uint in Hb. legal_bools.
  assert (b0 < 0x80) by lia. rewrite is_scalar_iff. unfold utf8_encode.
  rewrite (proj2 (Z.ltb_lt _ _)) by lia. split; [lia|done].
Qed.

(** The last six bits of a number. *)
Lemma six_bits q r : 0 <= r < 64 -> (q * 64 + r) / 64 = q /\ (q * 64 + r) mod 64 = r.
Proof. lia. Qed.

Lemma encode_2 q r0 :
  2 <= q < 32 -> 0 <= r0 < 64 -> utf8_encode (q * 64 + r0) = [0xC0 + q; 0x80 + r0].
Proof.
  intros Hq H0. unfold utf8_encode.
  rewrite (proj2 (Z.ltb_ge _ 0x80)), (proj2 (Z.ltb_lt _ 0x800)) by lia.
  by destruct (six_bits q r0 H0) as [-> ->].
Qed.

Lemma encode_3 q r1 r0 :
  0 <= q < 16 -> 0 <= r1 < 64 -> 0 <= r0 < 64 -> 0x800 <= (q * 64 + r1) * 64 + r0 ->
  utf8_encode ((q * 64 + r1) * 64 + r0) = [0xE0 + q; 0x80 + r1; 0x80 + r0].
Proof.
  intros Hq H1 H0 Hc. unfold utf8_encode.
  rewrite (proj2 (Z.ltb_ge _ 0x80)), (proj2 (Z.ltb_ge _ 0x800)), (proj2 (Z.ltb_lt _ 0x10000)) by lia.
  change 4096 with (64 * 64). rewrite <- Z.div_div by lia.
  destruct (six_bits (q * 64 + r1) r0 H0) as [-> ->]. by destruct (six_bits q r1 H1) as [-> ->].
Qed.

Lemma encode_4 q r2 r1 r0 :
  0 <= q < 8 -> 0 <= r2 < 64 -> 0 <= r1 < 64 -> 0 <= r0 < 64 ->
  0x10000 <= ((q * 64 + r2) * 64 + r1) * 64 + r0 ->
  utf8_encode (((q * 64 + r2) * 64 + r1) * 64 + r0) = [0xF0 + q; 0x80 + r2; 0x80 + r1; 0x80 + r0].
Proof.
  intros Hq H2 H1 H0 Hc. unfold utf8_encode.
  rewrite (proj2 (Z.ltb_ge _ 0x80)), (proj2 (Z.ltb_ge _ 0x800)), (proj2 (Z.ltb_ge _ 0x10000)) by lia.
  change 262144 with (64 * 64 * 64). change 4096 with (64 * 64). rewrite <- !Z.div_div by lia.
  destruct (six_bits ((q * 64 + r2) * 64 + r1) r0 H0) as [-> ->].
  destruct (six_bits (q * 64 + r2) r1 H1) as [-> ->]. by destruct (six_bits q r2 H2) as [-> ->].
Qed.

Lemma legal_encode_2 b0 b1 :
  uint 8 b0 -> uint 8 b1 -> legal b0 1 -> second_byte_ok b0 b1 && first_byte_ok b0 = true ->
  let c := (b0 - 0xC0) * 64 + (b1 - 0x80) in
  is_scalar c = true /\ utf8_encode c = [b0; b1].
Proof.
  intros Hb Hb1 Ht Hl c. destruct (trailing_cases b0 Hb) as [H|[[? _]|H]]; [lia| |lia].
  assert (0xC2 <= b0 /\ 0x80 <= b1 <= 0xBF) as [H1 H2].
  { unfold uint in *. legal_bools; lia. }
  split; [apply is_scalar_iff; unfold c; lia|]. unfold c. rewrite encode_2 by lia.
  f_equal; [lia|f_equal; lia].
Qed.

Lemma legal_encode_3 b0 b1 b2 :
  uint 8 b0 -> uint 8 b1 -> uint 8 b2 -> legal b0 2 -> (b0 = 0xED -> 0x80 <= b1) ->
  continuation b2 && (second_byte_ok b0 b1 && first_byte_ok b0) = true ->
  let c := ((b0 - 0xE0) * 64 + (b1 - 0x80)) * 64 + (b2 - 0x80) in
  is_scalar c = true /\ utf8_encode c = [b0; b1; b2].
Proof.
  intros Hb Hb1 Hb2 Ht Hed Hl c.
  destruct (trailing_cases b0 Hb) as [H|[H|[[? _]|H]]]; [lia|lia| |lia].
  assert (0x80 <= b1 <= 0xBF /\ 0x80 <= b2 <= 0xBF /\ (b0 = 0xE0 -> 0xA0 <= b1) /\
          (b0 = 0xED -> b1 <= 0x9F)) as (H1 & H2 & H3 & H4).
  { unfold uint in *. legal_bools; lia. }
  split; [apply is_scalar_iff; unfold c; lia|]. unfold c. rewrite encode_3 by lia.
  f_equal; [lia|f_equal; [lia|f_equal; lia]].
Qed.

Lemma legal_encode_4 b0 b1 b2 b3 :
  uint 8 b0 -> uint 8 b1 -> uint 8 b2 -> uint 8 b3 -> legal b0 3 ->
  (b0 = 0xF4 -> 0x80 <= b1) ->
  continuation b3 && (continuation b2 && (second_byte_ok b0 b1 && first_byte_ok b0)) = true ->
  let c := (((b0 - 0xF0) * 64 + (b1 - 0x80)) * 64 + (b2 - 0x80)) * 64 + (b3 - 0x80) in
  is_scalar c = true /\ utf8_encode c = [b0; b1; b2; b3].
Proof.
  intros Hb Hb1 Hb2 Hb3 Ht Hf4 Hl c.
  destruct (trailing_cases b0 Hb) as [H|[H|[H|[[? _]|H]]]]; [lia|lia|lia| |lia].
  assert (0x80 <= b1 <= 0xBF /\ 0x80 <= b2 <= 0xBF /\ 0x80 <= b3 <= 0xBF /\ b0 <= 0xF4 /\
          (b0 = 0xF0 -> 0x90 <= b1) /\ (b0 = 0xF4 -> b1 <= 0x8F)) as (H1 & H2 & H3 & H4 & H5 & H6).
  { unfold uint in *. legal_bools; lia. }
  split; [apply is_scalar_iff; unfold c; lia|]. unfold c. rewrite encode_4 by lia.
  f_equal; [lia|f_equal; [lia|f_equal; [lia|f_equal; lia]]].
Qed.

(** The four shapes of a scalar value. *)
Lemma scalar_shape c :
  is_scalar c = true ->
  0 <= c < 0x80 \/
  (exists q r0, c = q * 64 + r0 /\ 2 <= q < 32 /\ 0 <= r0 < 64) \/
  (exists q r1 r0, c = (q * 64 + r1) * 64 + r0 /\ 0 <= q < 16 /\ 0 <= r1 < 64 /\ 0 <= r0 < 64 /\
     0x800 <= c /\ (q = 0xD -> r1 < 32)) \/
  (exists q r2 r1 r0, c = ((q * 64 + r2) * 64 + r1) * 64 + r0 /\ 0 <= q < 8 /\ 0 <= r2 < 64 /\
     0 <= r1 < 64 /\ 0 <= r0 < 64 /\ 0x10000 <= c < 0x110000).
Proof.
  intros Hc%is_scalar_iff.
  pose proof (Z.div_mod c 64) as E0. pose proof (Z.mod_pos_bound c 64) as B0.
  pose proof (Z.div_mod (c / 64) 64) as E1. pose proof (Z.mod_pos_bound (c / 64) 64) as B1.
  pose proof (Z.div_mod (c / 64 / 64) 64) as E2. pose proof (Z.mod_pos_bound (c / 64 / 64) 64) as B2.
  destruct (Z_lt_dec c 0x80); [left; lia|]. destruct (Z_lt_dec c 0x800); [|destruct (Z_lt_dec c 0x10000)].
  - right. left. exists (c / 64), (c mod 64). lia.
  - right. right. left. exists (c / 64 / 64), (c / 64 mod 64), (c mod 64). lia.
  - right. right. right. exists (c / 64 / 64 / 64), (c / 64 / 64 mod 64), (c / 64 mod 64), (c mod 64). lia.
Qed.

Lemma byte_at_0 b0 rest : byte_at (b0 :: rest) 0 = Ok b0.
Proof. done. Qed.

(** What reading a sequence of the length its first byte announces does. *)
Definition read_result (legal : bool) (ch : Z) (rest : units) : outcome utf16_read :=
  Ok (if legal then read_char (wrap w ch) rest else read_stop sourceIllegal).

Lemma read_utf8_1 b0 rest :
  uint 8 b0 -> legal b0 0 ->
  read_utf8 w (b0 :: rest) = read_result (first_byte_ok b0) b0 rest.
Proof.
  intros Hb Ht. unfold read_utf8. rewrite byte_at_0. cbn [obind].
  rewrite Ht. rewrite (proj2 (Z.leb_gt _ _)) by (simpl; lia).
  change (0 + 1) with 1. rewrite isLegal_1. cbn [obind]. unfold uint in Hb.
  destruct (first_byte_ok b0); [|done]. cbn [negb].
  change (Z.to_nat 0) with 0%nat. sum_bytes. cbn [obind]. unfold read_result.
  do 3 f_equal. all: unfold offsetsFromUTF8; simpl nth; lia.
Qed.

Lemma read_utf8_2 b0 b1 rest :
  uint 8 b0 -> uint 8 b1 -> legal b0 1 ->
  read_utf8 w (b0 :: b1 :: rest) =
    read_result (second_byte_ok b0 b1 && first_byte_ok b0) (b0 * 64 + b1 - 0x3080) rest.
Proof.
  intros Hb Hb1 Ht. unfold read_utf8. rewrite byte_at_0. cbn [obind].
  rewrite Ht. rewrite (proj2 (Z.leb_gt _ _)) by (simpl; lia).
  change (1 + 1) with 2. rewrite isLegal_2. cbn [obind]. unfold uint in *.
  destruct (_ && _); [|done]. cbn [negb].
  change (Z.to_nat 1) with 1%nat. sum_bytes. cbn [obind]. unfold read_result.
  do 3 f_equal. all: unfold offsetsFromUTF8; simpl nth; lia.
Qed.

Lemma read_utf8_3 b0 b1 b2 rest :
  uint 8 b0 -> uint 8 b1 -> uint 8 b2 -> legal b0 2 ->
  read_utf8 w (b0 :: b1 :: b2 :: rest) =
    read_result (continuation b2 && (second_byte_ok b0 b1 && first_byte_ok b0))
      ((b0 * 64 + b1) * 64 + b2 - 0xE2080) rest.
Proof.
  intros Hb Hb1 Hb2 Ht. unfold read_utf8. rewrite byte_at_0. cbn [obind].
  rewrite Ht. rewrite (proj2 (Z.leb_gt _ _)) by (simpl; lia).
  change (2 + 1) with 3. rewrite isLegal_3. cbn [obind]. unfold uint in *.
  destruct (_ && _); [|done]. cbn [negb].
  change (Z.to_nat 2) with 2%nat. sum_bytes. cbn [obind]. unfold read_result.
  do 3 f_equal. all: unfold offsetsFromUTF8; simpl nth; lia.
Qed.

Lemma read_utf8_4 b0 b1 b2 b3 rest :
  uint 8 b0 -> uint 8 b1 -> uint 8 b2 -> uint 8 b3 -> legal b0 3 ->
  read_utf8 w (b0 :: b1 :: b2 :: b3 :: rest) =
    read_result (continuation b3 && (continuation b2 && (second_byte_ok b0 b1 && first_byte_ok b0)))
      (((b0 * 64 + b1) * 64 + b2) * 64 + b3 - 0x3C82080) rest.
Proof.
  intros Hb Hb1 Hb2 Hb3 Ht. unfold read_utf8. rewrite byte_at_0. cbn [obind].
  rewrite Ht. rewrite (proj2 (Z.leb_gt _ _)) by (simpl; lia).
  change (3 + 1) with 4. rewrite isLegal_4. cbn [obind]. unfold uint in *.
  destruct (_ && _); [|done]. cbn [negb].
  change (Z.to_nat 3) with 3%nat. sum_bytes. cbn [obind]. unfold read_result.
  do 3 f_equal. all: unfold offsetsFromUTF8; simpl nth; lia.
Qed.

Lemma trailing_3 b0 : 0xE0 <= b0 < 0xF0 -> legal b0 2.
Proof. unfold trailingBytesForUTF8. intros H. bool_cases; lia. Qed.

Lemma trailing_4 b0 : 0xF0 <= b0 < 0xF8 -> legal b0 3.
Proof. unfold trailingBytesForUTF8. intros H. bool_cases; lia. Qed.

Lemma continuation_iff a : continuation a = true <-> 0x80 <= a <= 0xBF.
Proof. unfold continuation. rewrite negb_true_iff, orb_false_iff, !Z.ltb_ge. lia. Qed.

Lemma first_byte_iff a : first_byte_ok a = true <-> a < 0x80 \/ 0xC2 <= a <= 0xF4.
Proof. unfold first_byte_ok. bool_cases; split; intros; (done || lia). Qed.

Lemma second_byte_iff first a :
  second_byte_ok first a = true <->
  a <= 0xBF /\ (first = 0xE0 -> 0xA0 <= a) /\ (first = 0xED -> a <= 0x9F) /\
  (first = 0xF0 -> 0x90 <= a) /\ (first = 0xF4 -> a <= 0x8F) /\
  (first <> 0xED /\ first <> 0xF4 -> 0x80 <= a).
Proof. unfold second_byte_ok. bool_cases; split; intros; (done || lia). Qed.

Lemma read_utf8_scalar c rest :
  is_scalar c = true -> read_utf8 w (utf8_encode c ++ rest) = Ok (read_char c rest).
Proof.
  intros Hc. destruct (scalar_shape c Hc) as [H|[H|[H|H]]].
  - assert (utf8_encode c = [c]) as ->.
    { unfold utf8_encode. by rewrite (proj2 (Z.ltb_lt _ _)) by lia. }
    cbn [app]. rewrite read_utf8_1.
    + assert (first_byte_ok c = true) as -> by (apply first_byte_iff; lia).
      unfold read_result. by rewrite wrap_w_small by lia.
    + unfold uint. lia.
    + unfold trailingBytesForUTF8. by rewrite (proj2 (Z.ltb_lt _ _)) by lia.
  - destruct H as (q & r0 & -> & Hq & H0). rewrite encode_2 by lia. cbn [app].
    rewrite read_utf8_2 by ((unfold uint; lia) || (unfold trailingBytesForUTF8; bool_cases; lia)).
    assert (second_byte_ok (0xC0 + q) (0x80 + r0) && first_byte_ok (0xC0 + q) = true) as ->.
    { rewrite andb_true_iff, second_byte_iff, first_byte_iff. lia. }
    unfold read_result. rewrite wrap_w_small by lia. do 2 f_equal. lia.
  - destruct H as (q & r1 & r0 & -> & Hq & H1 & H0 & Hlo & Hd). rewrite encode_3 by lia. cbn [app].
    rewrite read_utf8_3 by ((unfold uint; lia) || (apply trailing_3; lia)).
    assert (continuation (0x80 + r0) && (second_byte_ok (0xE0 + q) (0x80 + r1) &&
              first_byte_ok (0xE0 + q)) = true) as ->.
    { rewrite !andb_true_iff, continuation_iff, second_byte_iff, first_byte_iff. lia. }
    unfold read_result. rewrite wrap_w_small by lia. do 2 f_equal. lia.
  - destruct H as (q & r2 & r1 & r0 & -> & Hq & H2 & H1 & H0 & Hlo). rewrite encode_4 by lia.
    cbn [app]. rewrite read_utf8_4 by ((unfold uint; lia) || (apply trailing_4; lia)).
    assert (continuation (0x80 + r0) && (continuation (0x80 + r1) &&
              (second_byte_ok (0xF0 + q) (0x80 + r2) && first_byte_ok (0xF0 + q))) = true) as ->.
    { rewrite !andb_true_iff, !continuation_iff, second_byte_iff, first_byte_iff. lia. }
    unfold read_result. rewrite wrap_w_small by lia. do 2 f_equal. lia.
Qed.

(** A sequence that the test of the second byte lets through by mistake: it
    has no lower bound after ED and F4. *)
Definition loose_pair (b0 b1 : Z) : Prop := (b0 = 0xED \/ b0 = 0xF4) /\ b1 < 0x80.

Definition no_loose_pair (source : units) : Prop :=
  forall i b0 b1, source !! i = Some b0 -> source !! S i = Some b1 -> ~ loose_pair b0 b1.

Lemma no_loose_pair_app l r : no_loose_pair (l ++ r) -> no_loose_pair r.
Proof.
  intros Hn i b0 b1 H0 H1. apply (Hn (length l + i)%nat).
  - by rewrite lookup_app_r, Nat.add_comm, Nat.add_sub by lia.
  - rewrite lookup_app_r by lia. by replace (S (length l + i) - length l)%nat with (S i) by lia.
Qed.

Lemma read_utf8_cases b0 tail :
  let source := b0 :: tail in
  bytes source -> no_loose_pair source ->
  (exists c rest, is_scalar c = true /\ source = utf8_encode c ++ rest /\
     read_utf8 w source = Ok (read_char c rest)) \/
  (exists r, read_utf8 w source = Ok (read_stop r) /\
     (r = sourceIllegal \/ r = sourceExhausted) /\ unconvertible utf8_encode source).
Proof.
  intros source Hb Hn.
  assert (forall r, read_utf8 w source = Ok (read_stop r) -> unconvertible utf8_encode source) as Hstop.
  { intros r Hr. split; [done|]. intros c rest Hc E. rewrite E, read_utf8_scalar in Hr by done. done. }
  assert (forall c rest, is_scalar c = true -> source = utf8_encode c ++ rest ->
            (exists c rest, is_scalar c = true /\ source = utf8_encode c ++ rest /\
               read_utf8 w source = Ok (read_char c rest))) as Hchar.
  { intros c rest Hc E. exists c, rest. split; [done|]. split; [done|]. rewrite E.
    by apply read_utf8_scalar. }
  assert (forall ch rest, read_utf8 w source = read_result false ch rest ->
            (exists r, read_utf8 w source = Ok (read_stop r) /\
              (r = sourceIllegal \/ r = sourceExhausted) /\ unconvertible utf8_encode source)) as Hill.
  { intros ch rest Hr. exists sourceIllegal. split; [done|]. split; [by left|]. by apply (Hstop _ Hr). }
  assert (Z.of_nat (length source) <= trailingBytesForUTF8 b0 ->
            exists r, read_utf8 w source = Ok (read_stop r) /\
              (r = sourceIllegal \/ r = sourceExhausted) /\ unconvertible utf8_encode source) as Hshort.
  { intros Hl. assert (read_utf8 w source = Ok (read_stop sourceExhausted)) as Hr.
    { unfold source in *. unfold read_utf8. rewrite byte_at_0. cbn [obind].
      by rewrite (proj2 (Z.leb_le _ _)). }
    exists sourceExhausted. split; [done|]. split; [by right|]. by apply (Hstop _ Hr). }
  apply Forall_cons in Hb as [Hb0 Ht].
  destruct (trailing_cases b0 Hb0) as [[_ E]|[[_ E]|[[_ E]|[[_ E]|[_ E]]]]].
  - pose proof (read_utf8_1 b0 tail Hb0 E) as R. destruct (first_byte_ok b0) eqn:L; [left|right; eauto].
    destruct (legal_encode_1 b0 Hb0 E L) as [Hs He]. apply (Hchar b0 tail Hs). by rewrite He.
  - destruct tail as [|b1 tail]; [right; apply Hshort; rewrite E; done|].
    apply Forall_cons in Ht as [Hb1 Ht]. pose proof (read_utf8_2 b0 b1 tail Hb0 Hb1 E) as R.
    destruct (_ && _) eqn:L; [left|right; eauto].
    destruct (legal_encode_2 b0 b1 Hb0 Hb1 E L) as [Hs He]. apply (Hchar _ tail Hs). by rewrite He.
  - destruct tail as [|b1 [|b2 tail]]; [right; apply Hshort; rewrite E; simpl; lia..|].
    apply Forall_cons in Ht as [Hb1 [Hb2 Ht]%Forall_cons].
    pose proof (read_utf8_3 b0 b1 b2 tail Hb0 Hb1 Hb2 E) as R.
    destruct (_ && _) eqn:L; [left|right; eauto].
    specialize (Hn 0%nat b0 b1 eq_refl eq_refl). unfold loose_pair in Hn.
    destruct (legal_encode_3 b0 b1 b2 Hb0 Hb1 Hb2 E ltac:(lia) L) as [Hs He].
    apply (Hchar _ tail Hs). by rewrite He.
  - destruct tail as [|b1 [|b2 [|b3 tail]]]; [right; apply Hshort; rewrite E; simpl; lia..|].
    apply Forall_cons in Ht as [Hb1 [Hb2 [Hb3 Ht]%Forall_cons]%Forall_cons].
    pose proof (read_utf8_4 b0 b1 b2 b3 tail Hb0 Hb1 Hb2 Hb3 E) as R.
    destruct (_ && _) eqn:L; [left|right; eauto].
    specialize (Hn 0%nat b0 b1 eq_refl eq_refl). unfold loose_pair in Hn.
    destruct (legal_encode_4 b0 b1 b2 b3 Hb0 Hb1 Hb2 Hb3 E ltac:(lia) L) as [Hs He].
    apply (Hchar _ tail Hs). by rewrite He.
  - right. destruct (Z_le_dec (Z.of_nat (length source)) (trailingBytesForUTF8 b0)); [by apply Hshort|].
    apply (Hill 0 []). unfold source in *. unfold read_utf8. rewrite byte_at_0. cbn [obind].
    rewrite (proj2 (Z.leb_gt _ _)) by lia. by rewrite isLegal_long by lia.
Qed.

Lemma read_utf8_unique c c' rest rest' :
  is_scalar c = true -> is_scalar c' = true ->
  utf8_encode c ++ rest = utf8_encode c' ++ rest' -> c = c'.
Proof.
  intros Hc Hc' E. pose proof (read_utf8_scalar c rest Hc) as R.
  rewrite E, read_utf8_scalar in R by done. congruence.
Qed.

Lemma utf8_encode_nonempty c : utf8_encode c <> [].
Proof. unfold utf8_encode. by repeat case_match. Qed.

(** Both loops, for the encoding they write. *)
Lemma utf8_loop_spec (enc : Z -> units) (loop : nat -> units -> units -> outcome Converted)
    (Hnil : forall f target, loop f [] target = Ok (mkConverted conversionOK [] target))
    (Hstop : forall f b tail target r, read_utf8 w (b :: tail) = Ok (read_stop r) ->
       loop (S f) (b :: tail) target = Ok (mkConverted r (b :: tail) target))
    (Hchar : forall f b tail target c rest, is_scalar c = true ->
       read_utf8 w (b :: tail) = Ok (read_char c rest) ->
       loop (S f) (b :: tail) target =
         if room cap target <? Z.of_nat (length (enc c)) then
           Ok (mkConverted targetExhausted (b :: tail) target)
         else loop f rest (target ++ enc c)) :
  forall fuel source cs0,
  (length source <= fuel)%nat -> bytes source -> no_loose_pair source -> fits enc cap cs0 ->
  exists conv, loop fuel source (encode enc cs0) = Ok conv /\
    continues utf8_encode enc cap cs0 source conv.
Proof.
  induction fuel as [|fuel IH]; intros source cs0 Hlen Hu Hn Hf.
  { destruct source; [|simpl in Hlen; lia]. rewrite Hnil. eexists. split; [done|].
    by apply continues_done. }
  destruct source as [|b tail].
  { rewrite Hnil. eexists. split; [done|]. by apply continues_done. }
  destruct (read_utf8_cases b tail Hu Hn) as [(c & rest & Hc & E & Hr)|(r & Hr & Hres & Hun)].
  - rewrite (Hchar _ _ _ _ _ _ Hc Hr).
    destruct (Z.ltb_spec (room cap (encode enc cs0)) (Z.of_nat (length (enc c)))).
    + eexists. split; [done|]. apply continues_full; [done|done|].
      intros c' rest' Hc' E'. rewrite E in E'.
      rewrite <- (read_utf8_unique _ _ _ _ Hc Hc' E'). unfold room in *. lia.
    + rewrite <- encode_snoc. rewrite E in Hu, Hn.
      assert (length rest <= fuel)%nat as Hl.
      { apply (f_equal length) in E. rewrite length_app in E. simpl in E, Hlen.
        pose proof (utf8_encode_nonempty c). destruct (utf8_encode c); [done|]. simpl in E. lia. }
      apply Forall_app in Hu as [_ Hu]. apply no_loose_pair_app in Hn.
      destruct (IH rest (cs0 ++ [c]) Hl Hu Hn) as (conv & -> & Hconv); [by apply fits_snoc|].
      eexists. split; [done|]. rewrite E. by apply continues_step.
  - rewrite (Hstop _ _ _ _ _ Hr). eexists. split; [done|]. by apply continues_malformed.
Qed.

Lemma utf8to32_spec flags source :
  0 <= cap -> bytes source -> no_loose_pair source ->
  exists conv, ConvertUTF8toUTF32 w flags cap source = Ok conv /\
    converts utf8_encode utf32_encode cap source conv.
Proof.
  intros Hcap Hu Hn.
  apply (utf8_loop_spec utf32_encode
    (fun f source => utf8to32_loop w flags cap f source conversionOK)) with (cs0 := []); try done.
  - by intros [|f] target.
  - intros f b tail target r Hr. cbn [utf8to32_loop]. by rewrite Hr.
  - intros f b tail target c rest Hc Hr. cbn [utf8to32_loop]. rewrite Hr. cbn [obind]. simpl length.
    destruct (Z.leb_spec (room cap target) 0).
    { by rewrite (proj2 (Z.ltb_lt _ _)) by lia. }
    rewrite (proj2 (Z.ltb_ge _ _)) by lia. rewrite (scalar_not_surrogate c Hc), put_fits by done.
    apply is_scalar_iff in Hc. utf_consts. by rewrite (proj2 (Z.leb_le c _)) by lia.
Qed.

Lemma utf8to16_spec flags source :
  0 <= cap -> bytes source -> no_loose_pair source ->
  exists conv, ConvertUTF8toUTF16 w flags cap source = Ok conv /\
    converts utf8_encode utf16_encode cap source conv.
Proof.
  intros Hcap Hu Hn.
  apply (utf8_loop_spec utf16_encode (utf8to16_loop w flags cap)) with (cs0 := []); try done.
  - by intros [|f] target.
  - intros f b tail target r Hr. cbn [utf8to16_loop]. by rewrite Hr.
  - intros f b tail target c rest Hc Hr. cbn [utf8to16_loop]. rewrite Hr. cbn [obind].
    rewrite (scalar_not_surrogate c Hc). apply is_scalar_iff in Hc. utf_consts. unfold utf16_encode.
    destruct (Z.leb_spec (room cap target) 0).
    { rewrite (proj2 (Z.ltb_lt (room cap target) _)); [done|]. destruct (c <? 0x10000); simpl; lia. }
    destruct (Z.leb_spec c 0xFFFF).
    + rewrite (proj2 (Z.ltb_lt c _)) by lia. rewrite (proj2 (Z.ltb_ge _ _)) by (simpl; lia).
      rewrite put_fits by lia. rewrite wrap_small by (unfold uint; lia). done.
    + rewrite (proj2 (Z.ltb_ge 0x10FFFF c)), (proj2 (Z.ltb_ge c _)) by lia. simpl length.
      destruct (Z.leb_spec (room cap target) 1).
      * by rewrite (proj2 (Z.ltb_lt (room cap target) _)) by lia.
      * rewrite (proj2 (Z.ltb_ge (room cap target) _)) by lia.
        rewrite put_pair_fits by lia. cbn [obind]. unfold utf16_encode.
        by rewrite (proj2 (Z.ltb_ge c _)) by lia.
Qed.
End from_utf8.

(** ** Any bytes *)


Section any_bytes.
Context (w : Z) (flags : ConversionFlags) (cap : Z).








End any_bytes.

(** ** Complete conversions *)

Section complete.
Context (enc_in enc_out : Z -> units) (cap : Z).
Context (Hne : forall c, enc_in c <> []).
Context (Hunique : forall c c' rest rest', is_scalar c = true -> is_scalar c' = true ->
           enc_in c ++ rest = enc_in c' ++ rest' -> c = c').

(** A prefix of well-formed text, cut at a character. *)
Lemma encode_prefix cs' : forall cs rest,
  Forall (fun c => is_scalar c = true) cs -> Forall (fun c => is_scalar c = true) cs' ->
  encode enc_in cs = encode enc_in cs' ++ rest ->
  exists cs2, cs = cs' ++ cs2 /\ rest = encode enc_in cs2.
Proof.
  induction cs' as [|c' cs' IH]; intros cs rest Hcs Hcs' E; [by exists cs|].
  apply Forall_cons in Hcs' as [Hc' Hcs']. unfold encode in E. simpl in E. rewrite <- app_assoc in E.
  destruct Hcs as [|c cs Hc Hcs]; simpl in E.
  { pose proof (Hne c'). by destruct (enc_in c'). }
  pose proof (Hunique _ _ _ _ Hc Hc' E) as ->. apply app_inv_head in E.
  destruct (IH cs rest Hcs Hcs' E) as (cs2 & -> & ->). by exists cs2.
Qed.

Lemma converts_complete cs conv :
  Forall (fun c => is_scalar c = true) cs -> fits enc_out cap cs ->
  converts enc_in enc_out cap (encode enc_in cs) conv ->
  conv = mkConverted conversionOK [] (encode enc_out cs).
Proof.
  intros Hcs Hf (cs' & Hcs' & E & Ht & Hlen & Hr). destruct conv as [r source target].
  cbn [conv_result conv_source conv_target app] in *. subst target.
  destruct (encode_prefix cs' cs source Hcs Hcs' E) as (cs2 & -> & ->).
  destruct cs2 as [|c cs2].
  - rewrite app_nil_r in *. change (encode enc_in []) with (@nil Z) in *.
    destruct r; [done|by destruct Hr|by destruct Hr|by destruct Hr].
  - exfalso. apply Forall_app in Hcs as [_ [Hc _]%Forall_cons].
    change (encode enc_in (c :: cs2)) with (enc_in c ++ encode enc_in cs2) in Hr.
    destruct r.
    + apply app_eq_nil in Hr as [Hr _]. by apply (Hne c).
    + destruct Hr as [_ Hr]. by apply (Hr c (encode enc_in cs2)).
    + destruct Hr as [_ Hr]. specialize (Hr c _ Hc eq_refl). unfold fits in Hf.
      rewrite encode_app in Hf. change (encode enc_out (c :: cs2)) with (enc_out c ++ encode enc_out cs2) in Hf.
      rewrite !length_app in Hf. lia.
    + destruct Hr as [_ Hr]. by apply (Hr c (encode enc_in cs2)).
Qed.
End complete.

(** ** Well-formed text has the widths the conversions expect *)

Lemma utf16_encode_units cs :
  Forall (fun c => is_scalar c = true) cs -> Forall (uint 16) (encode utf16_encode cs).
Proof.
  induction 1 as [|c cs Hc%is_scalar_iff Hcs IH]; [constructor|].
  apply Forall_app. split; [|exact IH]. unfold utf16_encode.
  destruct (Z.ltb_spec c 0x10000); repeat constructor; lia.
Qed.

Lemma no_loose_pair_nil : no_loose_pair [].
Proof. intros i b0 b1 Hi. by rewrite lookup_nil in Hi. Qed.

Lemma no_loose_pair_cons b l :
  (forall b1, head l = Some b1 -> ~ loose_pair b b1) -> no_loose_pair l -> no_loose_pair (b :: l).
Proof.
  intros Hb Hl [|i] b0 b1 H0 H1; simpl in H0, H1.
  - injection H0 as <-. apply Hb. destruct l; [done|exact H1].
  - by apply (Hl i).
Qed.

Lemma utf8_encode_bytes cs :
  Forall (fun c => is_scalar c = true) cs ->
  Forall (uint 8) (encode utf8_encode cs) /\ no_loose_pair (encode utf8_encode cs).
Proof.
  assert (forall b l, ~ (b = 0xED \/ b = 0xF4) -> no_loose_pair l -> no_loose_pair (b :: l)) as Hplain.
  { intros b l Hb Hl. apply no_loose_pair_cons; [|done]. intros b1 _ [H _]. done. }
  induction 1 as [|c cs Hc Hcs [IHb IHn]].
  { split; [constructor|apply no_loose_pair_nil]. }
  change (encode utf8_encode (c :: cs)) with (utf8_encode c ++ encode utf8_encode cs).
  destruct (scalar_shape c Hc) as [H|[H|[H|H]]].
  - assert (utf8_encode c = [c]) as ->.
    { unfold utf8_encode. by rewrite (proj2 (Z.ltb_lt _ _)) by lia. }
    split; [constructor; [unfold uint; lia|done]|]. apply Hplain; [lia|done].
  - destruct H as (q & r0 & -> & Hq & H0). rewrite encode_2 by lia. cbn [app].
    split; [repeat (constructor; [unfold uint; lia|]); done|].
    apply Hplain; [lia|]. apply Hplain; [lia|done].
  - destruct H as (q & r1 & r0 & -> & Hq & H1 & H0 & Hlo & Hd). rewrite encode_3 by lia. cbn [app].
    split; [repeat (constructor; [unfold uint; lia|]); done|].
    apply no_loose_pair_cons; [intros b1 [= <-]; unfold loose_pair; lia|].
    apply Hplain; [lia|]. apply Hplain; [lia|done].
  - destruct H as (q & r2 & r1 & r0 & -> & Hq & H2 & H1 & H0 & Hlo). rewrite encode_4 by lia.
    cbn [app]. split; [repeat (constructor; [unfold uint; lia|]); done|].
    apply no_loose_pair_cons; [intros b1 [= <-]; unfold loose_pair; lia|].
    apply Hplain; [lia|]. apply Hplain; [lia|]. apply Hplain; [lia|done].
Qed.

Lemma encoded_lengths cs :
  (length (encode utf16_encode cs) <= length (encode utf8_encode cs))%nat /\
  (length cs <= length (encode utf8_encode cs))%nat.
Proof.
  induction cs as [|c cs [IH1 IH2]]; [done|]. unfold encode in *. cbn [map concat].
  rewrite !length_app. simpl length at 4. unfold utf16_encode at 1, utf8_encode at 1 3.
  repeat case_match; to_prop; simpl; lia.
Qed.

(** ** Properties *)




(** The strict conversions from UTF-16 always return, never write past
    the target, convert exactly the well-formed characters that fit, and stop
    at the first unpaired surrogate or character that does not fit. *)
Theorem from_UTF16_functional (w cap : Z) (source : units) :
  32 <= w -> 0 <= cap -> Forall (uint 16) source ->
  (exists conv, ConvertUTF16toUTF32 w strictConversion cap source = Ok conv /\
     converts utf16_encode utf32_encode cap source conv) /\
  (exists conv, ConvertUTF16toUTF8 w strictConversion cap source = Ok conv /\
     converts utf16_encode utf8_encode cap source conv).
Proof. intros Hw Hcap Hb. split; [by apply utf16to32_spec|by apply utf16to8_spec]. Qed.

Lemma from_UTF16_functional_witness :
  exists conv, ConvertUTF16toUTF8 32 strictConversion 5 [0xD83D; 0xDE00; 0x41; 0xDC00] = Ok conv /\
    converts utf16_encode utf8_encode 5 [0xD83D; 0xDE00; 0x41; 0xDC00] conv.
Proof.
  apply (from_UTF16_functional 32 5 [0xD83D; 0xDE00; 0x41; 0xDC00]).
  - discriminate.
  - discriminate.
  - repeat (apply Forall_cons; split; [split; [discriminate|reflexivity]|]). apply Forall_nil. exact I.
Defined.

(** The strict conversions from UTF-32, on code points up to 0x10FFFF,
    always return, never write past the target, convert exactly the scalar
    values that fit and stop at the first surrogate or character that does
    not fit. *)
Theorem from_UTF32_functional (w cap : Z) (source : units) :
  32 <= w -> 0 <= cap -> Forall code_point source ->
  (exists conv, ConvertUTF32toUTF16 w strictConversion cap source = Ok conv /\
     converts utf32_encode utf16_encode cap source conv) /\
  (exists conv, ConvertUTF32toUTF8 strictConversion cap source = Ok conv /\
     converts utf32_encode utf8_encode cap source conv).
Proof.
  intros Hw Hcap Hs. split; [by apply (utf32to16_loop_spec w cap Hw source [])|].
  by apply (utf32to8_loop_spec cap source []).
Qed.

Lemma from_UTF32_functional_witness :
  exists conv, ConvertUTF32toUTF8 strictConversion 9 [0x1F600; 0x41; 0xD800] = Ok conv /\
    converts utf32_encode utf8_encode 9 [0x1F600; 0x41; 0xD800] conv.
Proof.
  apply (from_UTF32_functional 32 9 [0x1F600; 0x41; 0xD800]).
  - discriminate.
  - discriminate.
  - repeat (apply Forall_cons; split; [split; discriminate|]). apply Forall_nil. exact I.
Defined.

(** C39: well-formed UTF-8 survives the way to UTF-16 (and to UTF-32) and back:
    with enough room both conversions consume everything and the bytes are
    the ones at the start. *)
Theorem UTF8_roundtrip (w cap : Z) (flags : ConversionFlags) (cs : units) :
  32 <= w -> Forall (fun c => is_scalar c = true) cs ->
  Z.of_nat (length (encode utf8_encode cs)) <= cap ->
  let bytes := encode utf8_encode cs in
  ConvertUTF8toUTF16 w flags cap bytes =
    Ok (mkConverted conversionOK [] (encode utf16_encode cs)) /\
  ConvertUTF16toUTF8 w strictConversion cap (encode utf16_encode cs) =
    Ok (mkConverted conversionOK [] bytes) /\
  ConvertUTF8toUTF32 w flags cap bytes = Ok (mkConverted conversionOK [] cs) /\
  ConvertUTF32toUTF8 strictConversion cap cs = Ok (mkConverted conversionOK [] bytes).
Proof.
  intros Hw Hcs Hcap bytes. destruct (utf8_encode_bytes cs Hcs) as [Hb Hn].
  pose proof (encoded_lengths cs) as [H16 H32].
  assert (encode utf32_encode cs = cs) as E32.
  { unfold encode, utf32_encode. clear. induction cs as [|c cs IH]; simpl; congruence. }
  split; [|split; [|split]].
  - destruct (utf8to16_spec w cap Hw flags bytes) as (conv & -> & Hc); [lia|done..|].
    apply f_equal, (converts_complete utf8_encode utf16_encode cap); try done;
      [apply utf8_encode_nonempty|by apply (read_utf8_unique w Hw)|unfold fits; lia].
  - destruct (utf16to8_spec w cap Hw (encode utf16_encode cs)) as (conv & -> & Hc);
      [lia|by apply utf16_encode_units|].
    apply f_equal, (converts_complete utf16_encode utf8_encode cap); try done;
      [apply utf16_encode_nonempty|by apply (read_utf16_unique w Hw)].
  - destruct (utf8to32_spec w cap Hw flags bytes) as (conv & -> & Hc); [lia|done..|].
    transitivity (Ok (mkConverted conversionOK [] (encode utf32_encode cs))); [|by rewrite E32].
    apply f_equal, (converts_complete utf8_encode utf32_encode cap); try done;
      [apply utf8_encode_nonempty|by apply (read_utf8_unique w Hw)|unfold fits; rewrite E32; lia].
  - destruct (utf32to8_loop_spec cap cs []) as (conv & E & Hc).
    + eapply Forall_impl; [exact Hcs|]. intros c Hc%is_scalar_iff. unfold code_point. lia.
    + simpl. lia.
    + unfold ConvertUTF32toUTF8. change (encode utf8_encode []) with (@nil Z) in E. rewrite E.
      apply f_equal, (converts_complete utf32_encode utf8_encode cap); try done.
      * by intros c c' rest rest' _ _ [= -> _].
      * by rewrite E32.
Qed.

Lemma UTF8_roundtrip_witness :
  ConvertUTF8toUTF16 64 strictConversion 5 [0x41; 0xF0; 0x9F; 0x98; 0x80] =
    Ok (mkConverted conversionOK [] [0x41; 0xD83D; 0xDE00]) /\
  ConvertUTF16toUTF8 64 strictConversion 5 [0x41; 0xD83D; 0xDE00] =
    Ok (mkConverted conversionOK [] [0x41; 0xF0; 0x9F; 0x98; 0x80]).
Proof.
  destruct (UTF8_roundtrip 64 5 strictConversion [0x41; 0x1F600]) as (H1 & H2 & _).
  - discriminate.
  - repeat (apply Forall_cons; split; [reflexivity|]). apply Forall_nil. exact I.
  - discriminate.
  - split; [exact H1|exact H2].
Defined.

(** The sequences [isLegalUTF8] accepts although they are not UTF-8. *)
Definition loose_sequence (seq : units) : Prop :=
  (exists b1 b2, seq = [0xED; b1; b2] /\ b1 < 0x80 /\ continuation b2 = true) \/
  (exists b1 b2 b3, seq = [0xF4; b1; b2; b3] /\ b1 < 0x80 /\ continuation b2 = true /\
     continuation b3 = true).

Lemma isLegalUTF8Sequence_long b0 tail :
  trailingBytesForUTF8 b0 < Z.of_nat (length (b0 :: tail)) ->
  isLegalUTF8Sequence (b0 :: tail) = isLegalUTF8 (b0 :: tail) (trailingBytesForUTF8 b0 + 1).
Proof.
  intros Hl. unfold isLegalUTF8Sequence. rewrite byte_at_0. cbn [obind].
  by rewrite (proj2 (Z.ltb_ge _ _)) by lia.
Qed.

Lemma loose_sequence_legal seq rest :
  loose_sequence seq -> isLegalUTF8Sequence (seq ++ rest) = Ok true.
Proof.
  intros [(b1 & b2 & -> & Hb & Hc)|(b1 & b2 & b3 & -> & Hb & Hc & Hd)]; cbn [app].
  - rewrite isLegalUTF8Sequence_long by (change (trailingBytesForUTF8 0xED) with 2; simpl; lia).
    change (trailingBytesForUTF8 0xED + 1) with 3. rewrite isLegal_3, Hc.
    assert (second_byte_ok 0xED b1 = true) as -> by (apply second_byte_iff; lia). done.
  - rewrite isLegalUTF8Sequence_long by (change (trailingBytesForUTF8 0xF4) with 3; simpl; lia).
    change (trailingBytesForUTF8 0xF4 + 1) with 4. rewrite isLegal_4, Hc, Hd.
    assert (second_byte_ok 0xF4 b1 = true) as -> by (apply second_byte_iff; lia). done.
Qed.

(** A legal sequence is the encoding of a scalar value or a loose one. *)
Definition legal_sequence (seq : units) : Prop :=
  (exists c, is_scalar c = true /\ seq = utf8_encode c) \/ loose_sequence seq.

Lemma legal_sequence_3 b0 b1 b2 :
  uint 8 b0 -> uint 8 b1 -> uint 8 b2 -> trailingBytesForUTF8 b0 = 2 ->
  continuation b2 && (second_byte_ok b0 b1 && first_byte_ok b0) = true ->
  legal_sequence [b0; b1; b2].
Proof.
  intros Hb Hb1 Hb2 E L. destruct (decide (b0 = 0xED /\ b1 < 0x80)) as [[-> Hl]|Hn].
  - right. left. exists b1, b2. apply andb_true_iff in L as [L _]. done.
  - left. assert (b0 = 0xED -> 0x80 <= b1) as Hl by lia.
    destruct (legal_encode_3 b0 b1 b2 Hb Hb1 Hb2 E Hl L) as [Hs He]. eauto.
Qed.

Lemma legal_sequence_4 b0 b1 b2 b3 :
  uint 8 b0 -> uint 8 b1 -> uint 8 b2 -> uint 8 b3 -> trailingBytesForUTF8 b0 = 3 ->
  continuation b3 && (continuation b2 && (second_byte_ok b0 b1 && first_byte_ok b0)) = true ->
  legal_sequence [b0; b1; b2; b3].
Proof.
  intros Hb Hb1 Hb2 Hb3 E L. destruct (decide (b0 = 0xF4 /\ b1 < 0x80)) as [[-> Hl]|Hn].
  - right. right. exists b1, b2, b3. apply andb_true_iff in L as [L1 [L2 _]%andb_true_iff]. done.
  - left. assert (b0 = 0xF4 -> 0x80 <= b1) as Hl by lia.
    destruct (legal_encode_4 b0 b1 b2 b3 Hb Hb1 Hb2 Hb3 E Hl L) as [Hs He]. eauto.
Qed.

(** The answer, and for [false] that no character can be read. *)
Lemma isLegalUTF8Sequence_cases b0 tail :
  let source := b0 :: tail in
  Forall (uint 8) source ->
  (isLegalUTF8Sequence source = Ok true /\
     exists seq rest, source = seq ++ rest /\ legal_sequence seq) \/
  (isLegalUTF8Sequence source = Ok false /\ exists r, read_utf8 32 source = Ok (read_stop r)).
Proof.
  intros source [Hb0 Ht]%Forall_cons.
  assert (Z.of_nat (length source) <= trailingBytesForUTF8 b0 ->
    isLegalUTF8Sequence source = Ok false /\ exists r, read_utf8 32 source = Ok (read_stop r)) as Hshort.
  { intros Hl. unfold source in *. unfold isLegalUTF8Sequence, read_utf8. rewrite byte_at_0.
    cbn [obind]. rewrite (proj2 (Z.ltb_lt _ _)), (proj2 (Z.leb_le _ _)) by lia. eauto. }
  destruct (trailing_cases b0 Hb0) as [[_ E]|[[_ E]|[[_ E]|[[_ E]|[_ E]]]]].
  - pose proof (read_utf8_1 32 ltac:(lia) b0 tail Hb0 E) as R.
    unfold source. rewrite isLegalUTF8Sequence_long, E by (rewrite E; simpl; lia).
    change (0 + 1) with 1. rewrite isLegal_1. destruct (first_byte_ok b0) eqn:L;
      [left|right; split; [done|exists sourceIllegal; exact R]].
    split; [done|]. exists [b0], tail. split; [done|]. left.
    destruct (legal_encode_1 b0 Hb0 E L). eauto.
  - destruct tail as [|b1 tail]; [right; apply Hshort; rewrite E; done|].
    apply Forall_cons in Ht as [Hb1 Ht]. pose proof (read_utf8_2 32 ltac:(lia) b0 b1 tail Hb0 Hb1 E) as R.
    unfold source. rewrite isLegalUTF8Sequence_long, E by (rewrite E; simpl; lia).
    change (1 + 1) with 2. rewrite isLegal_2. destruct (_ && _) eqn:L;
      [left|right; split; [done|exists sourceIllegal; exact R]].
    split; [done|]. exists [b0; b1], tail. split; [done|]. left.
    destruct (legal_encode_2 b0 b1 Hb0 Hb1 E L). eauto.
  - destruct tail as [|b1 [|b2 tail]]; [right; apply Hshort; rewrite E; simpl; lia..|].
    apply Forall_cons in Ht as [Hb1 [Hb2 Ht]%Forall_cons].
    pose proof (read_utf8_3 32 ltac:(lia) b0 b1 b2 tail Hb0 Hb1 Hb2 E) as R.
    unfold source. rewrite isLegalUTF8Sequence_long, E by (rewrite E; simpl; lia).
    change (2 + 1) with 3. rewrite isLegal_3. destruct (_ && _) eqn:L;
      [left|right; split; [done|exists sourceIllegal; exact R]].
    split; [done|]. exists [b0; b1; b2], tail. split; [done|]. by apply legal_sequence_3.
  - destruct tail as [|b1 [|b2 [|b3 tail]]]; [right; apply Hshort; rewrite E; simpl; lia..|].
    apply Forall_cons in Ht as [Hb1 [Hb2 [Hb3 Ht]%Forall_cons]%Forall_cons].
    pose proof (read_utf8_4 32 ltac:(lia) b0 b1 b2 b3 tail Hb0 Hb1 Hb2 Hb3 E) as R.
    unfold source. rewrite isLegalUTF8Sequence_long, E by (rewrite E; simpl; lia).
    change (3 + 1) with 4. rewrite isLegal_4. destruct (_ && _) eqn:L;
      [left|right; split; [done|exists sourceIllegal; exact R]].
    split; [done|]. exists [b0; b1; b2; b3], tail. split; [done|]. by apply legal_sequence_4.
  - right. destruct (Z_le_dec (Z.of_nat (length source)) (trailingBytesForUTF8 b0)); [by apply Hshort|].
    unfold source in *. rewrite isLegalUTF8Sequence_long, isLegal_long by lia. split; [done|].
    exists sourceIllegal. unfold read_utf8. rewrite byte_at_0. cbn [obind].
    rewrite (proj2 (Z.leb_gt _ _)) by lia. by rewrite isLegal_long by lia.
Qed.

(** [isLegalUTF8Sequence] never reads past the end of its argument and
    accepts exactly the encodings of the scalar values and the sequences that
    start with ED or F4 and a byte below 0x80, which are not UTF-8: [case
    0xED] and [case 0xF4] test only the upper bound of the second byte. *)
Theorem isLegalUTF8Sequence_functional (b0 : Z) (tail : units) :
  let source := b0 :: tail in
  Forall (uint 8) source ->
  exists b, isLegalUTF8Sequence source = Ok b /\
    (b = true <-> exists seq rest, source = seq ++ rest /\ legal_sequence seq).
Proof.
  intros source Hb.
  destruct (isLegalUTF8Sequence_cases b0 tail Hb) as [[E H]|[E [r Hr]]]; fold source in E |- *.
  { exists true. by split. }
  exists false. split; [done|]. split; [done|]. intros (seq & rest & Eq & [(c & Hc & ->)|Hl]).
  - fold source in Hr. rewrite Eq, read_utf8_scalar in Hr by (done || lia). done.
  - rewrite Eq, loose_sequence_legal in E by done. done.
Qed.

Lemma isLegalUTF8Sequence_functional_witness :
  exists b, isLegalUTF8Sequence [0xED; 0x41; 0x80] = Ok b /\
    (b = true <-> exists seq rest, [0xED; 0x41; 0x80] = seq ++ rest /\ legal_sequence seq).
Proof.
  apply (isLegalUTF8Sequence_functional 0xED [0x41; 0x80]).
  repeat (apply Forall_cons; split; [split; [discriminate|reflexivity]|]). apply Forall_nil. exact I.
Defined.

(** After a value above 0x10FFFF the strict conversion to UTF-16 does not
    stop at it: it drops it, converts everything that follows and returns
    [sourceIllegal] with the source pointer at the end. *)
Theorem UTF32toUTF16_too_large (w cap : Z) (ch : Z) (cs : units) :
  32 <= w -> 0x10FFFF < ch -> Forall (fun c => is_scalar c = true) cs ->
  Z.of_nat (length (encode utf16_encode cs)) < cap ->
  ConvertUTF32toUTF16 w strictConversion cap (ch :: cs) =
    Ok (mkConverted sourceIllegal [] (encode utf16_encode cs)).
Proof.
  intros Hw Hch Hcs Hcap. unfold ConvertUTF32toUTF16. cbn [utf32to16_loop]. utf_consts.
  unfold room at 1. rewrite (proj2 (Z.leb_gt _ _)) by (simpl; lia).
  rewrite (proj2 (Z.leb_gt ch _)), (proj2 (Z.ltb_lt _ ch)) by lia. cbn [is_strict].
  assert (forall target, Z.of_nat (length (target ++ encode utf16_encode cs)) <= cap ->
    utf32to16_loop w strictConversion cap cs sourceIllegal target =
      Ok (mkConverted sourceIllegal [] (target ++ encode utf16_encode cs))) as Hloop.
  { clear Hcap. induction Hcs as [|c cs Hc Hcs IH]; intros target Hcap.
    - cbn [utf32to16_loop]. change (encode utf16_encode []) with (@nil Z). by rewrite app_nil_r.
    - change (encode utf16_encode (c :: cs)) with (utf16_encode c ++ encode utf16_encode cs) in *.
      rewrite utf32to16_step by done. rewrite app_assoc in Hcap |- *.
      assert (Z.of_nat (length (utf16_encode c)) <= room cap target) as Hr.
      { unfold room. rewrite !length_app in Hcap. lia. }
      rewrite (proj2 (Z.ltb_ge _ _)) by exact Hr. by apply IH. }
  apply (Hloop []). simpl. lia.
Qed.

Lemma UTF32toUTF16_too_large_witness :
  ConvertUTF32toUTF16 32 strictConversion 4 [0x110000; 0x41; 0x42] =
    Ok (mkConverted sourceIllegal [] [0x41; 0x42]).
Proof.
  apply (UTF32toUTF16_too_large 32 4 0x110000 [0x41; 0x42]).
  - discriminate.
  - reflexivity.
  - repeat (apply Forall_cons; split; [reflexivity|]). apply Forall_nil. exact I.
  - reflexivity.
Defined.
