(* ===== verification/Md5.v ===== *)
(** * MD5 (common/md5.h, common/md5.cc)

    The digest of the symbol and file identifiers, for a little-endian host
    ([byteReverse] is empty).  [MD5Transform] is the source's list of 64 steps;
    it is proved equal to the compression function of RFC 1321, and
    [MD5Update] to absorb its input block by block however it is split.
    [MD5Final] does not compute MD5: it stores the length at the bytes 14 to 18
    of the last block. *)

From S2P Require Import Prelude Memory.
#[local] Open Scope Z_scope.

(** [struct MD5Context]; [in_] is the byte array [u8 in[64]]. *)
Record MD5Context : Type := mkContext {
  buf_ : list Z;
  bits0 : Z;
  bits1 : Z;
  in_ : byte_list;
}.

(** ** MD5Transform *)

Inductive core_function : Type := F1 | F2 | F3 | F4.
Inductive register : Type := Ra | Rb | Rc | Rd.

(** 32-bit complement. *)
Definition not32 (x : Z) : Z := Z.lxor x 0xffffffff.

Definition f1 (x y z : Z) : Z := Z.lxor z (Z.land x (Z.lxor y z)).

Definition core (f : core_function) (x y z : Z) : Z :=
  match f with
  | F1 => f1 x y z
  | F2 => f1 z x y
  | F3 => Z.lxor (Z.lxor x y) z
  | F4 => Z.lxor y (Z.lor x (not32 z))
  end.

(** The arguments of a [MD5STEP]: the data is [in[index] + constant]. *)
Inductive step : Type :=
| MD5STEP (f : core_function) (w x y z : register) (index : nat) (constant : Z) (s : Z).

(** The local variables [a], [b], [c] and [d]. *)
Record registers : Type := mkRegisters { ra : Z; rb : Z; rc : Z; rd : Z }.

Definition get (r : registers) (x : register) : Z :=
  match x with Ra => ra r | Rb => rb r | Rc => rc r | Rd => rd r end.

Definition set (r : registers) (x : register) (v : Z) : registers :=
  match x with
  | Ra => mkRegisters v (rb r) (rc r) (rd r)
  | Rb => mkRegisters (ra r) v (rc r) (rd r)
  | Rc => mkRegisters (ra r) (rb r) v (rd r)
  | Rd => mkRegisters (ra r) (rb r) (rc r) v
  end.

Definition word (input : list Z) (index : nat) : Z := nth index input 0.

(** [w<<s | w>>(32-s)] *)
Definition rotate (w s : Z) : Z := Z.lor (wrap 32 (Z.shiftl w s)) (Z.shiftr w (32 - s)).

Definition run_step (input : list Z) (r : registers) (st : step) : registers :=
  match st with
  | MD5STEP f w x y z index constant s =>
      let data := wrap 32 (word input index + constant) in
      let v := wrap 32 (get r w + wrap 32 (core f (get r x) (get r y) (get r z) + data)) in
      let v := rotate v s in
      set r w (wrap 32 (v + get r x))
  end.

(** The body of [MD5Transform], line by line. *)
Definition steps : list step :=
  [ MD5STEP F1 Ra Rb Rc Rd 0 0xd76aa478 7;
    MD5STEP F1 Rd Ra Rb Rc 1 0xe8c7b756 12;
    MD5STEP F1 Rc Rd Ra Rb 2 0x242070db 17;
    MD5STEP F1 Rb Rc Rd Ra 3 0xc1bdceee 22;
    MD5STEP F1 Ra Rb Rc Rd 4 0xf57c0faf 7;
    MD5STEP F1 Rd Ra Rb Rc 5 0x4787c62a 12;
    MD5STEP F1 Rc Rd Ra Rb 6 0xa8304613 17;
    MD5STEP F1 Rb Rc Rd Ra 7 0xfd469501 22;
    MD5STEP F1 Ra Rb Rc Rd 8 0x698098d8 7;
    MD5STEP F1 Rd Ra Rb Rc 9 0x8b44f7af 12;
    MD5STEP F1 Rc Rd Ra Rb 10 0xffff5bb1 17;
    MD5STEP F1 Rb Rc Rd Ra 11 0x895cd7be 22;
    MD5STEP F1 Ra Rb Rc Rd 12 0x6b901122 7;
    MD5STEP F1 Rd Ra Rb Rc 13 0xfd987193 12;
    MD5STEP F1 Rc Rd Ra Rb 14 0xa679438e 17;
    MD5STEP F1 Rb Rc Rd Ra 15 0x49b40821 22;
    MD5STEP F2 Ra Rb Rc Rd 1 0xf61e2562 5;
    MD5STEP F2 Rd Ra Rb Rc 6 0xc040b340 9;
    MD5STEP F2 Rc Rd Ra Rb 11 0x265e5a51 14;
    MD5STEP F2 Rb Rc Rd Ra 0 0xe9b6c7aa 20;
    MD5STEP F2 Ra Rb Rc Rd 5 0xd62f105d 5;
    MD5STEP F2 Rd Ra Rb Rc 10 0x02441453 9;
    MD5STEP F2 Rc Rd Ra Rb 15 0xd8a1e681 14;
    MD5STEP F2 Rb Rc Rd Ra 4 0xe7d3fbc8 20;
    MD5STEP F2 Ra Rb Rc Rd 9 0x21e1cde6 5;
    MD5STEP F2 Rd Ra Rb Rc 14 0xc33707d6 9;
    MD5STEP F2 Rc Rd Ra Rb 3 0xf4d50d87 14;
    MD5STEP F2 Rb Rc Rd Ra 8 0x455a14ed 20;
    MD5STEP F2 Ra Rb Rc Rd 13 0xa9e3e905 5;
    MD5STEP F2 Rd Ra Rb Rc 2 0xfcefa3f8 9;
    MD5STEP F2 Rc Rd Ra Rb 7 0x676f02d9 14;
    MD5STEP F2 Rb Rc Rd Ra 12 0x8d2a4c8a 20;
    MD5STEP F3 Ra Rb Rc Rd 5 0xfffa3942 4;
    MD5STEP F3 Rd Ra Rb Rc 8 0x8771f681 11;
    MD5STEP F3 Rc Rd Ra Rb 11 0x6d9d6122 16;
    MD5STEP F3 Rb Rc Rd Ra 14 0xfde5380c 23;
    MD5STEP F3 Ra Rb Rc Rd 1 0xa4beea44 4;
    MD5STEP F3 Rd Ra Rb Rc 4 0x4bdecfa9 11;
    MD5STEP F3 Rc Rd Ra Rb 7 0xf6bb4b60 16;
    MD5STEP F3 Rb Rc Rd Ra 10 0xbebfbc70 23;
    MD5STEP F3 Ra Rb Rc Rd 13 0x289b7ec6 4;
    MD5STEP F3 Rd Ra Rb Rc 0 0xeaa127fa 11;
    MD5STEP F3 Rc Rd Ra Rb 3 0xd4ef3085 16;
    MD5STEP F3 Rb Rc Rd Ra 6 0x04881d05 23;
    MD5STEP F3 Ra Rb Rc Rd 9 0xd9d4d039 4;
    MD5STEP F3 Rd Ra Rb Rc 12 0xe6db99e5 11;
    MD5STEP F3 Rc Rd Ra Rb 15 0x1fa27cf8 16;
    MD5STEP F3 Rb Rc Rd Ra 2 0xc4ac5665 23;
    MD5STEP F4 Ra Rb Rc Rd 0 0xf4292244 6;
    MD5STEP F4 Rd Ra Rb Rc 7 0x432aff97 10;
    MD5STEP F4 Rc Rd Ra Rb 14 0xab9423a7 15;
    MD5STEP F4 Rb Rc Rd Ra 5 0xfc93a039 21;
    MD5STEP F4 Ra Rb Rc Rd 12 0x655b59c3 6;
    MD5STEP F4 Rd Ra Rb Rc 3 0x8f0ccc92 10;
    MD5STEP F4 Rc Rd Ra Rb 10 0xffeff47d 15;
    MD5STEP F4 Rb Rc Rd Ra 1 0x85845dd1 21;
    MD5STEP F4 Ra Rb Rc Rd 8 0x6fa87e4f 6;
    MD5STEP F4 Rd Ra Rb Rc 15 0xfe2ce6e0 10;
    MD5STEP F4 Rc Rd Ra Rb 6 0xa3014314 15;
    MD5STEP F4 Rb Rc Rd Ra 13 0x4e0811a1 21;
    MD5STEP F4 Ra Rb Rc Rd 4 0xf7537e82 6;
    MD5STEP F4 Rd Ra Rb Rc 11 0xbd3af235 10;
    MD5STEP F4 Rc Rd Ra Rb 2 0x2ad7d2bb 15;
    MD5STEP F4 Rb Rc Rd Ra 9 0xeb86d391 21 ].

Definition MD5Transform (buf input : list Z) : list Z :=
  let r := fold_left (run_step input) steps
             (mkRegisters (word buf 0) (word buf 1) (word buf 2) (word buf 3)) in
  [wrap 32 (word buf 0 + ra r); wrap 32 (word buf 1 + rb r);
   wrap 32 (word buf 2 + rc r); wrap 32 (word buf 3 + rd r)].

(** ** MD5Init, MD5Update, MD5Final *)

(** [(u32* ) ctx->in]: sixteen little-endian words. *)
Definition words (bytes : byte_list) : list Z :=
  map (fun i => le_val (take 4 (drop (4 * i) bytes))) (seq 0 16).

Definition MD5Init (ctx : MD5Context) : MD5Context :=
  mkContext [0x67452301; 0xefcdab89; 0x98badcfe; 0x10325476] 0 0 (in_ ctx).

(** The loop over the 64-byte chunks and the copy of the rest. *)
Fixpoint update_chunks (fuel : nat) (ctx : MD5Context) (buf : byte_list) : outcome MD5Context :=
  match fuel with
  | O => Undef
  | S fuel =>
      if (64 <=? length buf)%nat then
        let? inp := write_at (in_ ctx) 0 (take 64 buf) in
        update_chunks fuel
          (mkContext (MD5Transform (buf_ ctx) (words inp)) (bits0 ctx) (bits1 ctx) inp) (drop 64 buf)
      else
        let? inp := write_at (in_ ctx) 0 buf in
        Ok (mkContext (buf_ ctx) (bits0 ctx) (bits1 ctx) inp)
  end.

(** Both words of the bit count. *)
Definition update_bits (bits0 bits1 len : Z) : Z * Z :=
  let t := bits0 in
  let bits0 := wrap 32 (t + wrap 32 (Z.shiftl (wrap 32 len) 3)) in
  let bits1 := if bits0 <? t then wrap 32 (bits1 + 1) else bits1 in
  (bits0, wrap 32 (bits1 + Z.shiftr len 29)).

Definition MD5Update (ctx : MD5Context) (buf : byte_list) : outcome MD5Context :=
  let len := length buf in
  let (b0, b1) := update_bits (bits0 ctx) (bits1 ctx) (Z.of_nat len) in
  let t := Z.to_nat (Z.land (Z.shiftr (bits0 ctx) 3) 0x3f) in
  if negb (t =? 0)%nat then
    let p := Z.of_nat t in
    let t := (64 - t)%nat in
    if (len <? t)%nat then
      let? inp := write_at (in_ ctx) p buf in
      Ok (mkContext (buf_ ctx) b0 b1 inp)
    else
      let? inp := write_at (in_ ctx) p (take t buf) in
      update_chunks (S len) (mkContext (MD5Transform (buf_ ctx) (words inp)) b0 b1 inp) (drop t buf)
  else update_chunks (S len) (mkContext (buf_ ctx) b0 b1 (in_ ctx)) buf.

(** The digest and the cleared context. *)
Definition MD5Final (ctx : MD5Context) : outcome (byte_list * MD5Context) :=
  let count := Z.land (Z.shiftr (bits0 ctx) 3) 0x3F in
  let p := count in
  let? inp := write_at (in_ ctx) p [0x80] in
  let p := p + 1 in
  let count := 64 - 1 - count in
  let? (buf, inp) :=
    (if count <? 8 then
       let? inp := write_at inp p (replicate (Z.to_nat count) 0) in
       let buf := MD5Transform (buf_ ctx) (words inp) in
       let? inp := write_at inp 0 (replicate 56 0) in
       Ok (buf, inp)
     else
       let? inp := write_at inp p (replicate (Z.to_nat (count - 8)) 0) in
       Ok (buf_ ctx, inp)) in
  let? inp := write_at inp 14 (le_bytes 4 (bits0 ctx)) in
  let? inp := write_at inp 15 (le_bytes 4 (bits1 ctx)) in
  let buf := MD5Transform buf (words inp) in
  Ok (flat_map (le_bytes 4) buf, mkContext [0; 0; 0; 0] 0 0 (replicate 64 0)).

(** ** RFC 1321 *)

(** The functions F, G, H and I of the RFC. *)
Definition rfc_function (round : nat) (x y z : Z) : Z :=
  match round with
  | O => Z.lor (Z.land x y) (Z.land (not32 x) z)
  | 1%nat => Z.lor (Z.land x z) (Z.land y (not32 z))
  | 2%nat => Z.lxor x (Z.lxor y z)
  | _ => Z.lxor y (Z.lor x (not32 z))
  end.

(** The word used by operation [i], the shifts of a round, and the table T:
    the integer part of 2^32 times the absolute value of sin(i + 1). *)
Definition rfc_index (i : nat) : nat :=
  match (i / 16)%nat with
  | O => i
  | 1%nat => (5 * i + 1) mod 16
  | 2%nat => (3 * i + 5) mod 16
  | _ => (7 * i) mod 16
  end.

Definition rfc_shift (i : nat) : Z :=
  nth (i mod 4)
    (match (i / 16)%nat with
     | O => [7; 12; 17; 22]
     | 1%nat => [5; 9; 14; 20]
     | 2%nat => [4; 11; 16; 23]
     | _ => [6; 10; 15; 21]
     end) 0.

Definition rfc_T : list Z :=
  [ 0xd76aa478; 0xe8c7b756; 0x242070db; 0xc1bdceee;
    0xf57c0faf; 0x4787c62a; 0xa8304613; 0xfd469501;
    0x698098d8; 0x8b44f7af; 0xffff5bb1; 0x895cd7be;
    0x6b901122; 0xfd987193; 0xa679438e; 0x49b40821;
    0xf61e2562; 0xc040b340; 0x265e5a51; 0xe9b6c7aa;
    0xd62f105d; 0x02441453; 0xd8a1e681; 0xe7d3fbc8;
    0x21e1cde6; 0xc33707d6; 0xf4d50d87; 0x455a14ed;
    0xa9e3e905; 0xfcefa3f8; 0x676f02d9; 0x8d2a4c8a;
    0xfffa3942; 0x8771f681; 0x6d9d6122; 0xfde5380c;
    0xa4beea44; 0x4bdecfa9; 0xf6bb4b60; 0xbebfbc70;
    0x289b7ec6; 0xeaa127fa; 0xd4ef3085; 0x04881d05;
    0xd9d4d039; 0xe6db99e5; 0x1fa27cf8; 0xc4ac5665;
    0xf4292244; 0x432aff97; 0xab9423a7; 0xfc93a039;
    0x655b59c3; 0x8f0ccc92; 0xffeff47d; 0x85845dd1;
    0x6fa87e4f; 0xfe2ce6e0; 0xa3014314; 0x4e0811a1;
    0xf7537e82; 0xbd3af235; 0x2ad7d2bb; 0xeb86d391 ].

(** Rotation to the left of a 32-bit word, as arithmetic. *)
Definition rotl (x s : Z) : Z := (x * 2 ^ s) mod 2 ^ 32 + x / 2 ^ (32 - s).

(** One operation, on a state whose registers rotate. *)
Definition rfc_op (X : list Z) (st : Z * Z * Z * Z) (i : nat) : Z * Z * Z * Z :=
  let '(a, b, c, d) := st in
  let sum := (a + rfc_function (i / 16) b c d + nth (rfc_index i) X 0 + nth i rfc_T 0) mod 2 ^ 32 in
  (d, (b + rotl sum (rfc_shift i)) mod 2 ^ 32, b, c).

Definition rfc_compress (buf X : list Z) : list Z :=
  let '(a, b, c, d) := fold_left (rfc_op X) (seq 0 64)
                         (word buf 0, word buf 1, word buf 2, word buf 3) in
  [(word buf 0 + a) mod 2 ^ 32; (word buf 1 + b) mod 2 ^ 32;
   (word buf 2 + c) mod 2 ^ 32; (word buf 3 + d) mod 2 ^ 32].

(** The blocks of a message: the state after the full ones and the rest. *)
Fixpoint absorb (fuel : nat) (buf : list Z) (data : byte_list) : list Z * byte_list :=
  match fuel with
  | O => (buf, data)
  | S fuel =>
      if (64 <=? length data)%nat then absorb fuel (rfc_compress buf (words (take 64 data))) (drop 64 data)
      else (buf, data)
  end.

Definition absorb_all (buf : list Z) (data : byte_list) : list Z * byte_list :=
  absorb (length data) buf data.

(** Padding: a one bit, zeros up to 56 modulo 64 bytes, the length in bits. *)
Definition rfc_padding (n : nat) : byte_list :=
  0x80 :: replicate ((119 - n mod 64) mod 64) 0 ++ le_bytes 8 (8 * Z.of_nat n).

Definition rfc_md5 (message : byte_list) : byte_list :=
  flat_map (le_bytes 4)
    (absorb_all [0x67452301; 0xefcdab89; 0x98badcfe; 0x10325476]
       (message ++ rfc_padding (length message))).1.
Example rfc_md5_abc :
  rfc_md5 [97; 98; 99] = [0x90; 0x01; 0x50; 0x98; 0x3c; 0xd2; 0x4f; 0xb0; 0xd6; 0x96; 0x3f; 0x7d; 0x28; 0xe1; 0x7f; 0x72].
Proof. vm_compute. reflexivity. Qed.

(** ** The compression function *)

Lemma testbit_over w z n : uint w z -> 0 <= w <= n -> Z.testbit z n = false.
Proof.
  intros [Hz1 Hz2] Hn. destruct (Z.eq_dec z 0) as [->|Hne]; [apply Z.testbit_0_l|].
  apply Z.bits_above_log2; [done|]. apply Z.log2_lt_pow2; [lia|].
  eapply Z.lt_le_trans; [exact Hz2|]. apply Z.pow_le_mono_r; lia.
Qed.

Lemma testbit_ones32 n : 0 <= n -> Z.testbit 0xffffffff n = (n <? 32).
Proof.
  intros Hn. change 0xffffffff with (Z.ones 32).
  rewrite Z.testbit_ones by lia. bool_cases; lia || done.
Qed.

Lemma f1_spec x y z : uint 32 z -> f1 x y z = Z.lor (Z.land x y) (Z.land (not32 x) z).
Proof.
  intros Hz. apply Z.bits_inj'. intros n Hn. unfold f1, not32.
  rewrite ?Z.lor_spec, ?Z.lxor_spec, ?Z.land_spec, ?Z.lxor_spec, testbit_ones32 by done.
  destruct (Z.ltb_spec n 32).
  - by destruct (Z.testbit x n), (Z.testbit y n), (Z.testbit z n).
  - rewrite (testbit_over 32 z) by (done || lia).
    by destruct (Z.testbit x n), (Z.testbit y n).
Qed.

Definition core_of (round : nat) : core_function :=
  match round with O => F1 | 1%nat => F2 | 2%nat => F3 | _ => F4 end.

Lemma core_spec round x y z :
  uint 32 y -> uint 32 z -> core (core_of round) x y z = rfc_function round x y z.
Proof.
  intros Hy Hz. destruct round as [|[|[|round]]]; cbn [core_of core rfc_function].
  - by apply f1_spec.
  - rewrite f1_spec by done. f_equal; apply Z.land_comm.
  - apply Z.lxor_assoc.
  - done.
Qed.

Lemma rotate_spec x s : uint 32 x -> 0 < s < 32 -> rotate x s = rotl x s.
Proof.
  intros Hx Hs. unfold rotate, rotl.
  rewrite Z.shiftl_mul_pow2, Z.shiftr_div_pow2 by lia. unfold wrap.
  rewrite <- Z.add_lor_land.
  assert (Z.land (x * 2 ^ s mod 2 ^ 32) (x / 2 ^ (32 - s)) = 0) as ->; [|lia].
  apply Z.bits_inj'. intros n Hn.
  rewrite Z.land_spec, Z.testbit_0_l, Z.div_pow2_bits by lia.
  destruct (Z.lt_ge_cases n s).
  - destruct (Z.lt_ge_cases n 32); [|lia].
    rewrite Z.mod_pow2_bits_low, Z.mul_pow2_bits_low by lia. done.
  - rewrite (testbit_over 32 x) by (done || lia). apply andb_false_r.
Qed.

Lemma rotl_uint x s : uint 32 x -> 0 < s < 32 -> uint 32 (rotl x s).
Proof.
  intros Hx Hs. unfold rotl, uint in *.
  replace (x * 2 ^ s) with (2 ^ s * x) by lia.
  assert (H32 : 2 ^ 32 = 2 ^ s * 2 ^ (32 - s)) by (rewrite <- Z.pow_add_r by lia; f_equal; lia).
  pose proof (Z.pow_pos_nonneg 2 s ltac:(lia) ltac:(lia)) as P1.
  pose proof (Z.pow_pos_nonneg 2 (32 - s) ltac:(lia) ltac:(lia)) as P2.
  rewrite H32 in *. set (p := 2 ^ s) in *. set (q := 2 ^ (32 - s)) in *.
  rewrite Z.mul_mod_distr_l by lia.
  pose proof (Z.mod_pos_bound x q ltac:(lia)). pose proof (Z.div_pos x q ltac:(lia) ltac:(lia)).
  assert (x / q < p) by (apply Z.div_lt_upper_bound; lia). nia.
Qed.

(** The roles of the registers at operation [i]. *)
Definition role (i j : nat) : register :=
  match ((j + 4 - i mod 4) mod 4)%nat with O => Ra | 1%nat => Rb | 2%nat => Rc | _ => Rd end.

Definition step_of (i : nat) : step :=
  MD5STEP (core_of (i / 16)) (role i 0) (role i 1) (role i 2) (role i 3)
    (rfc_index i) (nth i rfc_T 0) (rfc_shift i).

Lemma steps_spec : steps = map step_of (seq 0 64).
Proof. vm_compute. reflexivity. Qed.

Definition view (i : nat) (r : registers) : Z * Z * Z * Z :=
  (get r (role i 0), get r (role i 1), get r (role i 2), get r (role i 3)).

Definition registers_ok (r : registers) : Prop := forall x, uint 32 (get r x).

Lemma shift_range i : 0 < rfc_shift i < 32.
Proof.
  unfold rfc_shift. pose proof (Nat.mod_upper_bound i 4 ltac:(lia)) as Hm.
  destruct (i mod 4)%nat as [|[|[|[|]]]]; try lia;
    destruct (i / 16)%nat as [|[|[|]]]; cbn; lia.
Qed.

(** One step of the code is one operation of the RFC. *)
Lemma run_step_spec X r i :
  registers_ok r ->
  view (S i) (run_step X r (step_of i)) = rfc_op X (view i r) i /\
  registers_ok (run_step X r (step_of i)).
Proof.
  intros Hr. pose proof (shift_range i) as Hs.
  assert (Hv : forall a b c d,
    uint 32 a -> uint 32 b -> uint 32 c -> uint 32 d ->
    wrap 32 (rotate (wrap 32 (a + wrap 32 (core (core_of (i / 16)) b c d +
               wrap 32 (word X (rfc_index i) + nth i rfc_T 0)))) (rfc_shift i) + b) =
    (b + rotl ((a + rfc_function (i / 16) b c d + nth (rfc_index i) X 0 + nth i rfc_T 0)
                 mod 2 ^ 32) (rfc_shift i)) mod 2 ^ 32).
  { intros a b c d Ha Hb Hc Hd.
    rewrite core_spec, rotate_spec by (done || apply wrap_uint; lia).
    rewrite wrap_add_r, Z.add_assoc, wrap_add_r, !Z.add_assoc.
    unfold wrap. f_equal. unfold word. lia. }
  unfold run_step, step_of. cbv zeta.
  rewrite Hv by apply Hr. unfold view, rfc_op.
  set (v := (_ + rotl _ _) mod _).
  assert (Hvr : uint 32 v) by (apply Z.mod_pos_bound; lia).
  clearbody v. clear Hv.
  assert (Hi : (S i mod 4 = S (i mod 4) mod 4)%nat)
    by exact (eq_sym (Nat.Div0.add_mod_idemp_r 1 i 4)).
  unfold role. rewrite Hi.
  pose proof (Nat.mod_upper_bound i 4 ltac:(lia)) as Hm.
  pose proof (Hr Ra) as Ha. pose proof (Hr Rb) as Hb.
  pose proof (Hr Rc) as Hc. pose proof (Hr Rd) as Hd.
  destruct (i mod 4)%nat as [|[|[|[|]]]]; try lia; cbn;
    (split; [done | intros []; cbn; done]).
Qed.

Lemma run_steps_spec X n i r :
  registers_ok r ->
  view (i + n) (fold_left (run_step X) (map step_of (seq i n)) r) =
    fold_left (rfc_op X) (seq i n) (view i r).
Proof.
  revert i r; induction n as [|n IH]; intros i r Hr; cbn [seq map fold_left].
  - by rewrite Nat.add_0_r.
  - destruct (run_step_spec X r i Hr) as [Hv Hok].
    rewrite <- Nat.add_succ_comm, IH by done. by rewrite Hv.
Qed.

Lemma view_0 r : view 0 r = (ra r, rb r, rc r, rd r).
Proof. done. Qed.

Lemma view_64 r : view (0 + 64) r = (ra r, rb r, rc r, rd r).
Proof. done. Qed.

Lemma run_all_spec X r :
  registers_ok r ->
  let r' := fold_left (run_step X) steps r in
  fold_left (rfc_op X) (seq 0 64) (ra r, rb r, rc r, rd r) = (ra r', rb r', rc r', rd r').
Proof.
  intros Hr. cbv zeta. rewrite steps_spec, <- view_64, <- view_0.
  symmetry. exact (run_steps_spec X 64 0 r Hr).
Qed.

Lemma word_uint X i : Forall (uint 32) X -> uint 32 (word X i).
Proof.
  intros HX. unfold word. destruct (nth_in_or_default i X 0) as [Hin| ->]; [|unfold uint; lia].
  rewrite Forall_forall in HX. apply HX. by apply list_elem_of_In.
Qed.

(** The unrolled [MD5Transform], with its optimised [F1] and its in-place
    registers, is the compression function of RFC 1321: for every chaining value
    of four 32-bit words and every block, the same four words. *)
Theorem MD5Transform_functional buf X :
  Forall (uint 32) buf ->
  MD5Transform buf X = rfc_compress buf X /\
  length (MD5Transform buf X) = 4%nat /\ Forall (uint 32) (MD5Transform buf X).
Proof.
  intros Hb. split.
  - unfold MD5Transform, rfc_compress.
    set (r := mkRegisters _ _ _ _).
    assert (Hr : registers_ok r) by (intros []; by apply word_uint).
    pose proof (run_all_spec X r Hr) as E. cbv zeta in E |- *.
    set (r' := fold_left (run_step X) steps r) in *. clearbody r'.
    cbn [ra rb rc rd r] in E. rewrite E. done.
  - unfold MD5Transform. cbv zeta. set (r := fold_left _ _ _). clearbody r. split; [done|].
    repeat (apply Forall_cons; split; [apply wrap_uint; lia|]). apply Forall_nil. exact I.
Qed.
Lemma MD5Transform_functional_witness :
  MD5Transform [1; 2; 3; 0xffffffff] [7; 8] = rfc_compress [1; 2; 3; 0xffffffff] [7; 8].
Proof.
  apply (MD5Transform_functional [1; 2; 3; 0xffffffff] [7; 8]).
  repeat (apply Forall_cons; split; [unfold uint; lia|]). apply Forall_nil. exact I.
Defined.

(** ** Absorbing a message *)

Lemma absorb_fuel f1 f2 st data :
  (length data <= 64 * f1)%nat -> (length data <= 64 * f2)%nat ->
  absorb f1 st data = absorb f2 st data.
Proof.
  revert f2 st data; induction f1 as [|f1 IH]; intros f2 st data H1 H2; cbn [absorb].
  - destruct f2; cbn [absorb]; [done|]. by rewrite (proj2 (Nat.leb_gt _ _)) by lia.
  - destruct f2 as [|f2]; cbn [absorb].
    + by rewrite (proj2 (Nat.leb_gt _ _)) by lia.
    + destruct (Nat.leb_spec 64 (length data)); [|done].
      apply IH; rewrite length_drop; lia.
Qed.

Lemma absorb_all_short st data : (length data < 64)%nat -> absorb_all st data = (st, data).
Proof.
  intros H. unfold absorb_all. rewrite (absorb_fuel _ 1) by lia. cbn [absorb].
  by rewrite (proj2 (Nat.leb_gt _ _)) by lia.
Qed.

Lemma absorb_all_block st data :
  (64 <= length data)%nat ->
  absorb_all st data = absorb_all (rfc_compress st (words (take 64 data))) (drop 64 data).
Proof.
  intros H. unfold absorb_all. rewrite (absorb_fuel _ (S (length data))) by lia. cbn [absorb].
  rewrite (proj2 (Nat.leb_le _ _)) by lia. apply absorb_fuel; rewrite length_drop; lia.
Qed.

Lemma absorb_all_app st m d :
  absorb_all st (m ++ d) = let '(st', rest) := absorb_all st m in absorb_all st' (rest ++ d).
Proof.
  remember (length m) as n eqn:E. revert st m E.
  induction n as [n IH] using lt_wf_ind; intros st m ->.
  destruct (Nat.lt_ge_cases (length m) 64) as [Hs|Hl].
  - by rewrite (absorb_all_short st m).
  - rewrite (absorb_all_block st m), absorb_all_block by (rewrite ?length_app; lia).
    rewrite take_app_le, drop_app_le by lia.
    apply (IH (length (drop 64 m))); [rewrite length_drop; lia|done].
Qed.

Lemma absorb_all_rest st m :
  length (absorb_all st m).2 = (length m mod 64)%nat.
Proof.
  remember (length m) as n eqn:E. revert st m E.
  induction n as [n IH] using lt_wf_ind; intros st m ->.
  destruct (Nat.lt_ge_cases (length m) 64) as [Hs|Hl].
  - rewrite absorb_all_short by done. by rewrite Nat.mod_small.
  - rewrite absorb_all_block by done. rewrite (IH (length (drop 64 m))) by (rewrite ?length_drop; lia || done).
    rewrite length_drop. replace (length m) with (length m - 64 + 1 * 64)%nat at 2 by lia.
    by rewrite Nat.Div0.mod_add.
Qed.

Lemma write_at_all mem bs :
  length mem = length bs -> write_at mem 0 bs = Ok bs.
Proof.
  intros H. unfold write_at. rewrite decide_True by lia. cbn. rewrite drop_ge by lia.
  by rewrite app_nil_r.
Qed.

Lemma length_rfc_compress st X :
  Forall (uint 32) st -> Forall (uint 32) (rfc_compress st X).
Proof. intros H. destruct (MD5Transform_functional st X H) as (<- & _ & ?). done. Qed.

Lemma absorb_all_ok st m : Forall (uint 32) st -> Forall (uint 32) (absorb_all st m).1.
Proof.
  remember (length m) as n eqn:E. revert st m E.
  induction n as [n IH] using lt_wf_ind; intros st m -> Hst.
  destruct (Nat.lt_ge_cases (length m) 64) as [Hs|Hl].
  - by rewrite absorb_all_short.
  - rewrite absorb_all_block by done.
    apply (IH (length (drop 64 m))); [rewrite length_drop; lia|done|by apply length_rfc_compress].
Qed.

Lemma write_prefix mem bs :
  (length bs <= length mem)%nat ->
  exists mem', write_at mem 0 bs = Ok mem' /\ length mem' = length mem /\ take (length bs) mem' = bs.
Proof.
  intros H. destruct (write_at_spec mem 0 bs) as (mem' & W & Hh & Hl & _); [lia..|].
  exists mem'. repeat split; [done..|]. apply holds_take in Hh. by rewrite drop_0 in Hh.
Qed.

(** The loop absorbs its blocks and keeps the rest in the buffer. *)
Lemma update_chunks_spec fuel ctx buf :
  (length buf < fuel)%nat -> length (in_ ctx) = 64%nat -> Forall (uint 32) (buf_ ctx) ->
  exists inp, update_chunks fuel ctx buf =
      Ok (mkContext (absorb_all (buf_ ctx) buf).1 (bits0 ctx) (bits1 ctx) inp) /\
    length inp = 64%nat /\
    take (length (absorb_all (buf_ ctx) buf).2) inp = (absorb_all (buf_ ctx) buf).2.
Proof.
  revert ctx buf; induction fuel as [|fuel IH]; intros ctx buf Hf Hin Hst; [lia|].
  cbn [update_chunks]. destruct (Nat.leb_spec 64 (length buf)) as [Hl|Hs].
  - rewrite write_at_all by (rewrite length_take; lia). cbn [obind].
    rewrite (absorb_all_block (buf_ ctx)) by done.
    destruct (MD5Transform_functional (buf_ ctx) (words (take 64 buf)) Hst) as (<- & _ & Hst').
    apply (IH (mkContext _ _ _ (take 64 buf)) (drop 64 buf));
      [rewrite length_drop; lia | cbn; rewrite length_take; lia | done].
  - rewrite absorb_all_short by done. cbn [fst snd].
    destruct (write_prefix (in_ ctx) buf) as (inp & -> & Hl & Ht); [lia|]. cbn [obind].
    exists inp. repeat split; [congruence|done].
Qed.

(** ** The bit count *)

Definition bit_count (b0 b1 : Z) (n : Z) : Prop :=
  uint 32 b0 /\ uint 32 b1 /\ b0 + 2 ^ 32 * b1 = (8 * n) mod 2 ^ 64.

Lemma update_bits_spec b0 b1 n len :
  bit_count b0 b1 n -> 0 <= n -> 0 <= len ->
  let '(b0', b1') := update_bits b0 b1 len in bit_count b0' b1' (n + len).
Proof.
  intros (H0 & H1 & H) Hn Hl. unfold update_bits, uint in *.
  rewrite Z.shiftl_mul_pow2, Z.shiftr_div_pow2 by lia.
  assert (wrap 32 (wrap 32 len * 2 ^ 3) = 8 * (len mod 2 ^ 29)) as ->.
  { unfold wrap. rewrite Z.mul_mod_idemp_l by lia.
    change (2 ^ 32) with (2 ^ 29 * 2 ^ 3). rewrite Z.mul_mod_distr_r by lia. lia. }
  assert (Hlen : 8 * len = 8 * (len mod 2 ^ 29) + 2 ^ 32 * (len / 2 ^ 29)).
  { rewrite (Z.div_mod len (2 ^ 29)) at 1 by lia. change (2 ^ 32) with (8 * 2 ^ 29). lia. }
  pose proof (Z.mod_pos_bound len (2 ^ 29) ltac:(lia)) as Hx.
  assert (Hsum : (8 * (n + len)) mod 2 ^ 64 =
    (b0 + 2 ^ 32 * b1 + 8 * (len mod 2 ^ 29) + 2 ^ 32 * (len / 2 ^ 29)) mod 2 ^ 64).
  { replace (8 * (n + len)) with (8 * n + 8 * len) by lia. rewrite <- Zplus_mod_idemp_l, <- H, Hlen. f_equal. lia. }
  set (x := 8 * (len mod 2 ^ 29)) in *. set (y := len / 2 ^ 29) in *.
  assert (Hxb : 0 <= x < 2 ^ 32) by (unfold x; change (2 ^ 32) with (8 * 2 ^ 29); lia).
  clearbody x y. clear Hlen Hx H.
  assert (Hb0 : wrap 32 (b0 + x) = b0 + x /\ (wrap 32 (b0 + x) <? b0) = false \/
                wrap 32 (b0 + x) = b0 + x - 2 ^ 32 /\ (wrap 32 (b0 + x) <? b0) = true).
  { destruct (Z.lt_ge_cases (b0 + x) (2 ^ 32)).
    - left. rewrite wrap_small by (unfold uint; lia). split; [done|]. apply Z.ltb_ge. lia.
    - right. rewrite wrap_over by lia. split; [done|]. apply Z.ltb_lt. lia. }
  assert (Hcar : forall b0' c, 0 <= b0' < 2 ^ 32 -> b0 + x = b0' + 2 ^ 32 * c ->
    bit_count b0' (wrap 32 (b1 + c + y)) (n + len)).
  { intros b0' c Hb Hc. split; [done|]. split; [apply wrap_uint; lia|]. rewrite Hsum. unfold wrap.
    replace (b0 + 2 ^ 32 * b1 + x + 2 ^ 32 * y) with (b0' + 2 ^ 32 * (b1 + c + y)) by lia.
    change (2 ^ 64) with (2 ^ 32 * 2 ^ 32). rewrite Z.rem_mul_r by lia.
    rewrite (Z.mul_comm (2 ^ 32) (b1 + c + y)), Z_mod_plus_full, (Z.mod_small b0'), Z.div_add, (Z.div_small b0') by lia.
    by rewrite Z.add_0_l. }
  destruct Hb0 as [[E ->]|[E ->]]; rewrite E.
  - replace (b1 + y) with (b1 + 0 + y) by lia. apply Hcar; [|lia]. rewrite <- E. apply wrap_uint. lia.
  - rewrite wrap_add_l. apply Hcar; [|lia]. rewrite <- E. apply wrap_uint. lia.
Qed.

Lemma bit_count_pos b0 b1 (n : nat) :
  bit_count b0 b1 (Z.of_nat n) ->
  Z.to_nat (Z.land (Z.shiftr b0 3) 0x3f) = (n mod 64)%nat.
Proof.
  intros (H0 & H1 & H). unfold uint in *. change 0x3f with (Z.ones 6).
  rewrite Z.land_ones, Z.shiftr_div_pow2 by lia.
  apply Nat2Z.inj. rewrite Z2Nat.id by (apply Z.mod_pos_bound; lia). rewrite Nat2Z.inj_mod.
  change (Z.of_nat 64) with (2 ^ 6).
  assert (b0 = (8 * Z.of_nat n) mod 2 ^ 32) as ->.
  { rewrite <- (Z.mod_small b0 (2 ^ 32)) by lia.
    rewrite <- (Z_mod_plus_full b0 b1). rewrite (Z.mul_comm b1), H.
    change (2 ^ 64) with (2 ^ 32 * 2 ^ 32). rewrite Z.rem_mul_r by lia.
    rewrite (Z.mul_comm (2 ^ 32) (_ mod _)), Z_mod_plus_full. apply Zmod_mod. }
  change (2 ^ 32) with (8 * 2 ^ 29). rewrite Z.mul_mod_distr_l by lia.
  change (2 ^ 3) with 8. rewrite (Z.mul_comm 8 (_ mod _)), Z.div_mul by lia.
  change (2 ^ 29) with (2 ^ 6 * 2 ^ 23). rewrite Z.rem_mul_r by lia.
  rewrite (Z.mul_comm (2 ^ 6) (_ mod _)), Z_mod_plus_full. apply Zmod_mod.
Qed.

(** ** MD5Update *)

Definition initial_state : list Z := [0x67452301; 0xefcdab89; 0x98badcfe; 0x10325476].

(** The context has absorbed the message [m]: the digest state after its full
    blocks, the rest of it at the start of [in], and its length in bits. *)
Definition has_absorbed (ctx : MD5Context) (m : byte_list) : Prop :=
  length (in_ ctx) = 64%nat /\
  buf_ ctx = (absorb_all initial_state m).1 /\
  take (length m mod 64) (in_ ctx) = (absorb_all initial_state m).2 /\
  bit_count (bits0 ctx) (bits1 ctx) (Z.of_nat (length m)).

Lemma initial_state_ok : Forall (uint 32) initial_state.
Proof. repeat (apply Forall_cons; split; [unfold uint; lia|]). apply Forall_nil. exact I. Qed.

Lemma has_absorbed_buf ctx m : has_absorbed ctx m -> Forall (uint 32) (buf_ ctx).
Proof. intros (_ & -> & _). apply absorb_all_ok, initial_state_ok. Qed.

(** Filling the buffer after the pending bytes. *)
Lemma write_pending mem r bs :
  take (length r) mem = r -> (length r + length bs <= length mem)%nat ->
  exists mem', write_at mem (Z.of_nat (length r)) bs = Ok mem' /\
    length mem' = length mem /\ take (length (r ++ bs)) mem' = r ++ bs.
Proof.
  intros Hr Hl. unfold write_at. rewrite decide_True by lia. rewrite Nat2Z.id, Hr.
  eexists. split; [done|]. split.
  - rewrite !length_app, length_drop. lia.
  - by rewrite app_assoc, take_app_length.
Qed.

Lemma chunks_absorb st m t buf fuel ctx :
  absorb_all initial_state (m ++ take t buf) = (buf_ ctx, st) -> st = [] ->
  (length (drop t buf) < fuel)%nat -> length (in_ ctx) = 64%nat -> Forall (uint 32) (buf_ ctx) ->
  bit_count (bits0 ctx) (bits1 ctx) (Z.of_nat (length (m ++ buf))) ->
  exists ctx', update_chunks fuel ctx (drop t buf) = Ok ctx' /\ has_absorbed ctx' (m ++ buf).
Proof.
  intros Ha -> Hf Hin Hok Hb.
  destruct (update_chunks_spec fuel ctx (drop t buf)) as (inp & -> & Hl & Ht); [done..|].
  eexists. split; [done|].
  assert (E : absorb_all initial_state (m ++ buf) = absorb_all (buf_ ctx) (drop t buf)).
  { rewrite <- (take_drop t buf) at 1. rewrite app_assoc, absorb_all_app, Ha. done. }
  unfold has_absorbed. cbn [buf_ bits0 bits1 in_].
  rewrite <- (absorb_all_rest initial_state), E. auto.
Qed.

(** C40: [MD5Update] absorbs its input however the message is cut: after
    [MD5Init] the context has absorbed the empty message, and when it has
    absorbed [m] then after [MD5Update] with any further bytes it has absorbed
    [m] followed by them: the state is that of the RFC over the full 64-byte
    blocks, the pending bytes are in [in], the 64-bit count of bits has carried
    correctly, and no write leaves the 64-byte buffer. *)
Theorem MD5Update_functional ctx m buf :
  (length (in_ ctx) = 64%nat -> has_absorbed (MD5Init ctx) []) /\
  (has_absorbed ctx m ->
   exists ctx', MD5Update ctx buf = Ok ctx' /\ has_absorbed ctx' (m ++ buf)).
Proof.
  split.
  { intros Hin. repeat split; done. }
  intros Hab. pose proof (has_absorbed_buf _ _ Hab) as Hok. destruct Hab as (Hin & Hst & Hrest & Hbits).
  unfold MD5Update. cbv zeta.
  pose proof (update_bits_spec _ _ _ (Z.of_nat (length buf)) Hbits ltac:(lia) ltac:(lia)) as Hb.
  destruct (update_bits _ _ _) as [b0 b1]. rewrite <- Nat2Z.inj_add, <- length_app in Hb.
  rewrite (bit_count_pos _ _ _ Hbits). set (t := (length m mod 64)%nat) in *.
  assert (Ht : (t < 64)%nat) by (apply Nat.mod_upper_bound; lia).
  destruct (absorb_all initial_state m) as [st r] eqn:Em. cbn [fst snd] in Hst, Hrest.
  assert (Hr : length r = t) by (pose proof (absorb_all_rest initial_state m) as H; by rewrite Em in H).
  destruct (Nat.eqb_spec t 0) as [H0|H0]; cbn [negb].
  - apply (chunks_absorb r m 0); cbn [buf_ bits0 bits1 in_];
      [ rewrite app_nil_r, Em, Hst; done | apply nil_length_inv; by rewrite Hr
      | rewrite drop_0; lia | done | done | done ].
  - rewrite <- Hr in Hrest |- *.
    destruct (Nat.ltb_spec (length buf) (64 - length r)) as [Hs|Hl].
    + destruct (write_pending (in_ ctx) r buf) as (inp & -> & Hli & Hti); [done|lia|].
      cbn [obind]. eexists. split; [done|]. unfold has_absorbed. cbn [buf_ bits0 bits1 in_].
      rewrite <- (absorb_all_rest initial_state), absorb_all_app, Em, absorb_all_short by (rewrite length_app; lia).
      split; [lia|]; auto.
    + destruct (write_pending (in_ ctx) r (take (64 - length r) buf)) as (inp & -> & Hli & Hti);
        [done|rewrite length_take; lia|]. cbn [obind].
      rewrite (take_ge inp) in Hti by (rewrite length_app, length_take; lia).
      destruct (MD5Transform_functional (buf_ ctx) (words inp) Hok) as (E & _ & Hok').
      apply (chunks_absorb [] m (64 - length r)); cbn [buf_ bits0 bits1 in_];
        [ | done | rewrite length_drop; lia | lia | done | done ].
      rewrite E. clear E Hok'. set (st' := rfc_compress _ _).
      rewrite absorb_all_app, Em, <- Hti, absorb_all_block, (take_ge inp), (drop_ge inp), absorb_all_short by (cbn; lia).
      unfold st'. rewrite Hst. reflexivity.
Qed.
Lemma MD5Update_functional_witness :
  exists ctx, MD5Update (MD5Init (mkContext [] 0 0 (replicate 64 7))) [97; 98; 99] = Ok ctx /\
    has_absorbed ctx [97; 98; 99].
Proof.
  apply (MD5Update_functional (MD5Init (mkContext [] 0 0 (replicate 64 7))) [] [97; 98; 99]).
  repeat split; done.
Defined.

(** ** MD5Final *)

(** The digest of [message] computed in a context whose memory was [stale]. *)
Definition digest_of (stale message : byte_list) : outcome byte_list :=
  let? ctx := MD5Update (MD5Init (mkContext [] 0 0 stale)) message in
  let? (digest, _) := MD5Final ctx in Ok digest.

Lemma write_at_length mem ptr bs :
  0 <= ptr -> ptr + Z.of_nat (length bs) <= Z.of_nat (length mem) ->
  exists mem', write_at mem ptr bs = Ok mem' /\ length mem' = length mem.
Proof. intros Hp Hl. destruct (write_at_spec mem ptr bs) as (m & ? & _ & ? & _); eauto. Qed.

(** Performs a write of known length that fits in the buffer. *)
Ltac write :=
  match goal with |- context [write_at ?m ?p ?b] =>
    let L := fresh "L" in
    destruct (write_at_length m p b) as (? & -> & L);
    [ lia | rewrite ?length_replicate, ?length_le_bytes; cbn [length]; lia | cbn [obind] ]
  end.

Lemma length_flat_map_le n l : length (flat_map (le_bytes n) l) = (n * length l)%nat.
Proof.
  induction l as [|x l IH]; cbn [flat_map length]; [lia|].
  rewrite length_app, length_le_bytes, IH. lia.
Qed.

(** [MD5Final] writes only inside the context, returns sixteen bytes and
    clears it; but what it computes is not MD5.  The length of the message goes
    to the bytes 14 to 18 of the last block ([in] is an array of bytes, where
    the original code had words) and its bytes 56 to 63 are never set: the digest
    of "abc" is not that of RFC 1321, and it differs between two contexts
    initialized by [MD5Init] whose memory held different bytes before. *)
Theorem MD5Final_not_MD5 ctx m :
  (has_absorbed ctx m ->
   exists digest, MD5Final ctx = Ok (digest, mkContext [0; 0; 0; 0] 0 0 (replicate 64 0)) /\
     length digest = 16%nat) /\
  digest_of (replicate 64 0) [97; 98; 99] <> Ok (rfc_md5 [97; 98; 99]) /\
  digest_of (replicate 64 0) [97; 98; 99] <> digest_of (replicate 64 1) [97; 98; 99].
Proof.
  split; [|split; vm_compute; discriminate].
  intros (Hin & _ & _ & Hbits). unfold MD5Final. cbv zeta.
  pose proof (bit_count_pos _ _ _ Hbits) as Hpos.
  set (count := Z.land (Z.shiftr (bits0 ctx) 3) 0x3F) in *.
  assert (Hc : 0 <= count < 64).
  { unfold count. change 0x3F with (Z.ones 6). rewrite Z.land_ones by lia. by apply Z.mod_pos_bound. }
  clearbody count. write.
  destruct (Z.ltb_spec (64 - 1 - count) 8); repeat write; (eexists; split; [done|]);
    rewrite length_flat_map_le; done.
Qed.
Lemma MD5Final_not_MD5_witness :
  exists digest, MD5Final (MD5Init (mkContext [] 0 0 (replicate 64 7))) =
    Ok (digest, mkContext [0; 0; 0; 0] 0 0 (replicate 64 0)) /\ length digest = 16%nat.
Proof.
  apply (MD5Final_not_MD5 (MD5Init (mkContext [] 0 0 (replicate 64 7))) []).
  repeat split; done.
Defined.
