(* ===== verification/Tokens.v ===== *)
(** * Text and tokens

    Strings as lists of characters, literals, and the splitting of a text at
    separators that [operator>>] and [strtok_r] do: [next_token] reads one
    token, and [reads] says what the tokens of a text are. *)

From S2P Require Import Prelude LibcSupport.
#[local] Open Scope Z_scope.

(** The characters of a literal. *)
Definition str (s : string) : chars :=
  map (fun c => Z.of_N (Ascii.N_of_ascii c)) (String.list_ascii_of_string s).

(** [isspace] in the C locale. *)
Definition isspace (c : Z) : bool := (c =? 32) || ((9 <=? c) && (c <=? 13)).

Section tokens.
Context (sep : Z -> bool).

Definition skip_separators (s : chars) : chars := drop (prefix_len sep s) s.

(** The next token and the rest, [None] at the end. *)
Definition next_token (s : chars) : option (chars * chars) :=
  let s := skip_separators s in
  let n := prefix_len (fun c => negb (sep c)) s in
  if (n =? 0)%nat then None else Some (take n s, drop n s).

(** The text [s] reads as the tokens [ts]. *)
Inductive reads : chars -> list chars -> Prop :=
| reads_nil sp : Forall (fun c => sep c = true) sp -> reads sp []
| reads_cons sp t rest ts :
    Forall (fun c => sep c = true) sp ->
    t <> [] -> Forall (fun c => sep c = false) t ->
    (forall c, head rest = Some c -> sep c = true) ->
    reads rest ts -> reads (sp ++ t ++ rest) (t :: ts).

(** All the tokens; every one is a character of the text at least. *)
Fixpoint all_tokens (fuel : nat) (s : chars) : list chars :=
  match fuel with
  | O => []
  | S fuel =>
      match next_token s with
      | None => []
      | Some (t, rest) => t :: all_tokens fuel rest
      end
  end.

Definition tokens (s : chars) : list chars := all_tokens (S (length s)) s.

Lemma skip_separators_head c s : sep c = false -> skip_separators (c :: s) = c :: s.
Proof. intros H. unfold skip_separators. cbn [prefix_len]. by rewrite H. Qed.

Lemma prefix_len_head f (s : chars) :
  (forall c, head s = Some c -> f c = false) -> prefix_len f s = 0%nat.
Proof. destruct s as [|c s]; intros H; [done|]. cbn [prefix_len]. by rewrite H. Qed.

Lemma next_token_word sp t rest :
  Forall (fun c => sep c = true) sp ->
  t <> [] -> Forall (fun c => sep c = false) t ->
  (forall c, head rest = Some c -> sep c = true) ->
  next_token (sp ++ t ++ rest) = Some (t, rest).
Proof.
  intros Hsp Hne Ht Hrest. unfold next_token, skip_separators.
  rewrite prefix_len_app by done.
  rewrite (prefix_len_head _ (t ++ rest)), Nat.add_0_r, drop_app_length.
  2: { intros c. destruct t as [|c' t]; [done|]. intros [= ->]. by apply Forall_cons in Ht as [? _]. }
  rewrite prefix_len_app.
  2: { eapply Forall_impl; [exact Ht|]. intros c Hc. cbn. by rewrite Hc. }
  rewrite (prefix_len_head _ rest), Nat.add_0_r, take_app_length, drop_app_length.
  2: { intros c Hc. by rewrite (Hrest c Hc). }
  destruct t; done.
Qed.

Lemma next_token_end sp : Forall (fun c => sep c = true) sp -> next_token sp = None.
Proof.
  intros H. unfold next_token, skip_separators. rewrite <- (app_nil_r sp), prefix_len_app by done.
  cbn [prefix_len]. rewrite app_nil_r, Nat.add_0_r, drop_ge by done. done.
Qed.

Lemma next_token_spec s :
  match next_token s with
  | None => Forall (fun c => sep c = true) s
  | Some (t, rest) => exists sp, s = sp ++ t ++ rest /\
      Forall (fun c => sep c = true) sp /\ t <> [] /\ Forall (fun c => sep c = false) t /\
      (forall c, head rest = Some c -> sep c = true)
  end.
Proof.
  unfold next_token, skip_separators. set (k := prefix_len sep s).
  pose proof (prefix_len_take sep s) as Hsp. fold k in Hsp.
  set (f := fun c => negb (sep c)). set (j := prefix_len f (drop k s)).
  assert (Hj : drop k s <> [] -> j <> 0%nat).
  { unfold j. destruct (drop k s) as [|c r] eqn:Er; [done|]. intros _. cbn [prefix_len].
    assert (sep c = false) as Hc.
    { apply (prefix_len_at sep s c). fold k.
      replace k with (k + 0)%nat by lia. rewrite <- lookup_drop, Er. done. }
    unfold f at 1. by rewrite Hc. }
  destruct (Nat.eqb_spec j 0) as [H0|H0].
  - destruct (drop k s) as [|c r] eqn:Er; [|by destruct Hj].
    by rewrite <- (take_drop k s), Er, app_nil_r.
  - exists (take k s). split; [by rewrite take_drop, take_drop|]. split; [done|].
    split; [|split].
    + intros E. apply H0. unfold j. destruct (drop k s) as [|c r]; [done|].
      cbn [prefix_len] in *. unfold j in E. cbn [prefix_len] in E. by destruct (f c).
    + eapply Forall_impl; [apply (prefix_len_take f)|]. intros x Hx. by apply negb_true_iff in Hx.
    + intros x Hx. rewrite head_lookup, lookup_drop, Nat.add_0_r in Hx.
      apply (prefix_len_at f) in Hx. by apply negb_false_iff in Hx.
Qed.

Lemma all_tokens_reads fuel : forall s, (length s < fuel)%nat -> reads s (all_tokens fuel s).
Proof.
  induction fuel as [|fuel IH]; intros s Hf; [lia|]. cbn [all_tokens].
  pose proof (next_token_spec s) as H. destruct (next_token s) as [[t rest]|].
  - destruct H as (sp & -> & Hsp & Hne & Ht & Hrest). constructor; try done. apply IH.
    rewrite !length_app in Hf. destruct t; [done|]. cbn in Hf. lia.
  - by constructor.
Qed.

Lemma reads_tokens s : reads s (tokens s).
Proof. apply all_tokens_reads. lia. Qed.

(** The fuel does not matter, nor does the separator after a token. *)
Lemma all_tokens_fuel n : forall m s, (length s <= n)%nat -> (n <= m)%nat -> all_tokens m s = all_tokens n s.
Proof.
  induction n as [|n IH]; intros m s Hs Hm.
  - destruct s; [|simpl in Hs; lia]. destruct m; [done|]. cbn [all_tokens]. by rewrite (next_token_end []).
  - destruct m as [|m]; [lia|]. cbn [all_tokens]. pose proof (next_token_spec s) as H.
    destruct (next_token s) as [[t rest]|]; [|done]. f_equal. apply IH; [|lia].
    destruct H as (sp & -> & _ & Hne & _). rewrite !length_app in Hs. destruct t; [done|]. simpl in Hs. lia.
Qed.

Lemma all_tokens_drop n rest :
  (forall c, head rest = Some c -> sep c = true) -> all_tokens n (drop 1 rest) = all_tokens n rest.
Proof.
  intros H. destruct n as [|n]; [done|]. cbn [all_tokens]. destruct rest as [|c rest]; [done|].
  cbn [drop]. rewrite drop_0. unfold next_token, skip_separators. cbn [prefix_len]. by rewrite (H c).
Qed.
End tokens.
