(* ===== verification/PostfixEvaluator.v ===== *)
(** * Postfix expressions (processor/postfix_evaluator.h, postfix_evaluator-inl.h)

    The evaluator of program strings and CFI rules.  Strings are lists of
    characters; the stack is a list of strings with its top first; values are
    unsigned integers of [w] bits, kept on the stack as decimal text.  The
    memory region and the dictionary are pointers, [None] for NULL; a
    [MemoryRegion] is the function its [GetMemoryAtAddress] computes. *)

From stdpp Require Import gmap.
From S2P Require Import Prelude LibcSupport Tokens.
#[local] Open Scope Z_scope.

Abbreviation dictionary := (gmap chars Z).
Abbreviation validity := (gmap chars bool).

(** [GetMemoryAtAddress] *)
Abbreviation memory_region := (Z -> option Z).

Record PostfixEvaluator : Type := mkEvaluator {
  dictionary_ : option dictionary;
  memory_ : option memory_region;
  stack_ : list chars;
}.

Definition with_stack (ev : PostfixEvaluator) (stack : list chars) : PostfixEvaluator :=
  mkEvaluator (dictionary_ ev) (memory_ ev) stack.

Definition with_dictionary (ev : PostfixEvaluator) (d : dictionary) : PostfixEvaluator :=
  mkEvaluator (Some d) (memory_ ev) (stack_ ev).

(** ** Streams *)

Definition skip_space (s : chars) : chars := skip_separators isspace s.

(** [stream >> token]: the next token and the rest, [None] at the end. *)
Definition extract_token (s : chars) : option (chars * chars) := next_token isspace s.

(** [stream << value]: the digits before [text]; [fuel] bounds the digits but
    the last, and 20 are enough for 64 bits. *)
Fixpoint print_digits (fuel : nat) (v : Z) (text : chars) : chars :=
  let text := c_zero + v mod 10 :: text in
  match fuel with
  | O => text
  | S fuel => if v <? 10 then text else print_digits fuel (v / 10) text
  end.

Definition print_value (v : Z) : chars := print_digits 20 v [].

Section evaluator.
(** The width of [ValueType]. *)
Context (w : Z).

(** [stream >> literal] for an unsigned type: an optional sign, then decimal
    digits; no digits and an overflow fail, and a minus sign negates. *)
Definition extract_literal (s : chars) : option (Z * chars) :=
  let s := skip_space s in
  let '(negative, s) :=
    match s with
    | c :: rest => if c =? 43 then (false, rest) else if c =? 45 then (true, rest) else (false, s)
    | [] => (false, s)
    end in
  let n := prefix_len is_digit s in
  let v := decimal (take n s) in
  if (n =? 0)%nat || (2 ^ w <=? v) then None
  else Some (if negative : bool then wrap w (- v) else v, drop n s).

(** ** The stack *)

(** The values carry what the out parameters receive. *)
Inductive PopResult : Type :=
| POP_RESULT_FAIL
| POP_RESULT_VALUE (value : Z)
| POP_RESULT_IDENTIFIER (identifier : chars).

(** [value] is whether the pointer is not NULL. *)
Definition PopValueOrIdentifier (ev : PostfixEvaluator) (value : bool) :
    outcome (PopResult * PostfixEvaluator) :=
  match stack_ ev with
  | [] => Ok (POP_RESULT_FAIL, ev)
  | token :: stack =>
      let ev := with_stack ev stack in
      let '(negative, token_stream) :=
        match token with
        | c :: rest => if c =? 45 then (true, rest) else (false, token)
        | [] => (false, token)
        end in
      match extract_literal token_stream with
      | Some (literal, []) =>
          if negative : bool then
            if value then Ok (POP_RESULT_VALUE (wrap w (- literal)), ev) else Undef
          else Ok (POP_RESULT_VALUE literal, ev)
      | _ => Ok (POP_RESULT_IDENTIFIER token, ev)
      end
  end.

(** [None] for [false]. *)
Definition PopValue (ev : PostfixEvaluator) : outcome (option Z * PostfixEvaluator) :=
  let? (result, ev) := PopValueOrIdentifier ev true in
  match result with
  | POP_RESULT_FAIL => Ok (None, ev)
  | POP_RESULT_VALUE literal => Ok (Some literal, ev)
  | POP_RESULT_IDENTIFIER token =>
      let? d := of_option (dictionary_ ev) in
      Ok (d !! token, ev)
  end.

(** The second value is popped first. *)
Definition PopValues (ev : PostfixEvaluator) : outcome (option (Z * Z) * PostfixEvaluator) :=
  let? (value2, ev) := PopValue ev in
  match value2 with
  | None => Ok (None, ev)
  | Some value2 =>
      let? (value1, ev) := PopValue ev in
      match value1 with
      | None => Ok (None, ev)
      | Some value1 => Ok (Some (value1, value2), ev)
      end
  end.

Definition PushValue (ev : PostfixEvaluator) (value : Z) : PostfixEvaluator :=
  with_stack ev (print_value value :: stack_ ev).

(** ** Tokens *)

(** [token[0]] of a token that is not empty. *)
Definition head_char (token : chars) : Z := nth 0 token 0.

Inductive BinaryOperation : Type :=
| BINARY_OP_ADD
| BINARY_OP_SUBTRACT
| BINARY_OP_MULTIPLY
| BINARY_OP_DIVIDE_QUOTIENT
| BINARY_OP_DIVIDE_MODULUS
| BINARY_OP_ALIGN.

(** [None] is [BINARY_OP_NONE]. *)
Definition binary_operation (token : chars) : option BinaryOperation :=
  if decide (token = str "+") then Some BINARY_OP_ADD
  else if decide (token = str "-") then Some BINARY_OP_SUBTRACT
  else if decide (token = str "*") then Some BINARY_OP_MULTIPLY
  else if decide (token = str "/") then Some BINARY_OP_DIVIDE_QUOTIENT
  else if decide (token = str "%") then Some BINARY_OP_DIVIDE_MODULUS
  else if decide (token = str "@") then Some BINARY_OP_ALIGN
  else None.

Definition perform (operation : BinaryOperation) (operand1 operand2 : Z) : outcome Z :=
  match operation with
  | BINARY_OP_ADD => Ok (wrap w (operand1 + operand2))
  | BINARY_OP_SUBTRACT => Ok (wrap w (operand1 - operand2))
  | BINARY_OP_MULTIPLY => Ok (wrap w (operand1 * operand2))
  | BINARY_OP_DIVIDE_QUOTIENT => if operand2 =? 0 then Undef else Ok (operand1 / operand2)
  | BINARY_OP_DIVIDE_MODULUS => if operand2 =? 0 then Undef else Ok (operand1 mod operand2)
  | BINARY_OP_ALIGN => Ok (Z.land operand1 (Z.lxor (wrap w (-1)) (wrap w (operand2 - 1))))
  end.

(** The result, the evaluator and [*assigned]. *)
Definition EvaluateToken (ev : PostfixEvaluator) (token : chars) (assigned : option validity) :
    outcome (bool * PostfixEvaluator * option validity) :=
  match binary_operation token with
  | Some operation =>
      let? (operands, ev) := PopValues ev in
      match operands with
      | None => Ok (false, ev, assigned)
      | Some (operand1, operand2) =>
          let? result := perform operation operand1 operand2 in
          Ok (true, PushValue ev result, assigned)
      end
  | None =>
      if decide (token = str "^") then
        match memory_ ev with
        | None => Ok (false, ev, assigned)
        | Some memory =>
            let? (address, ev) := PopValue ev in
            match address with
            | None => Ok (false, ev, assigned)
            | Some address =>
                match memory address with
                | None => Ok (false, ev, assigned)
                | Some value => Ok (true, PushValue ev value, assigned)
                end
            end
        end
      else if decide (token = str "=") then
        let? (value, ev) := PopValue ev in
        match value with
        | None => Ok (false, ev, assigned)
        | Some value =>
            let? (result, ev) := PopValueOrIdentifier ev false in
            match result with
            | POP_RESULT_IDENTIFIER identifier =>
                if (length identifier =? 0)%nat || negb (head_char identifier =? 36)
                then Ok (false, ev, assigned)
                else
                  let? d := of_option (dictionary_ ev) in
                  Ok (true, with_dictionary ev (<[identifier := value]> d),
                      insert identifier true <$> assigned)
            | _ => Ok (false, ev, assigned)
            end
        end
      else Ok (true, with_stack ev (token :: stack_ ev), assigned)
  end.

(** ** Expressions *)

(** Every round consumes a token, so the length of the text plus one is fuel
    enough. *)
Fixpoint EvaluateInternal_loop (fuel : nat) (ev : PostfixEvaluator) (stream : chars)
    (assigned : option validity) : outcome (bool * PostfixEvaluator * option validity) :=
  match fuel with
  | O => Undef
  | S fuel =>
      match extract_token stream with
      | None => Ok (true, ev, assigned)
      | Some (token, stream) =>
          let? (ok, ev, assigned) :=
            if (1 <? length token)%nat && (head_char token =? 61) then
              let? (ok, ev, assigned) := EvaluateToken ev (str "=") assigned in
              if ok : bool then EvaluateToken ev (tail token) assigned else Ok (false, ev, assigned)
            else EvaluateToken ev token assigned in
          if ok : bool then EvaluateInternal_loop fuel ev stream assigned
          else Ok (false, ev, assigned)
      end
  end.

Definition EvaluateInternal (ev : PostfixEvaluator) (expression : chars) (assigned : option validity) :
    outcome (bool * PostfixEvaluator * option validity) :=
  EvaluateInternal_loop (S (length expression)) ev expression assigned.

(** The destructor of [AutoStackClearer] empties the stack. *)
Definition Evaluate (ev : PostfixEvaluator) (expression : chars) (assigned : option validity) :
    outcome (bool * PostfixEvaluator * option validity) :=
  let? (ok, ev, assigned) := EvaluateInternal ev expression assigned in
  Ok (ok && (length (stack_ ev) =? 0)%nat, with_stack ev [], assigned).

Definition EvaluateForValue (ev : PostfixEvaluator) (expression : chars) :
    outcome (option Z * PostfixEvaluator) :=
  let? (ok, ev, _) := EvaluateInternal ev expression None in
  let? (result, ev) :=
    (if (ok : bool) && (length (stack_ ev) =? 1)%nat then PopValue ev else Ok (None, ev)) in
  Ok (result, with_stack ev []).
End evaluator.

(** ** Arithmetic expressions and their postfix form *)

Inductive expr : Type :=
| Literal (negative : bool) (n : Z)
| Variable_ (x : chars)
| Binary (operation : BinaryOperation) (e1 e2 : expr)
| Dereference (e : expr).

Definition operation_token (operation : BinaryOperation) : chars :=
  match operation with
  | BINARY_OP_ADD => str "+"
  | BINARY_OP_SUBTRACT => str "-"
  | BINARY_OP_MULTIPLY => str "*"
  | BINARY_OP_DIVIDE_QUOTIENT => str "/"
  | BINARY_OP_DIVIDE_MODULUS => str "%"
  | BINARY_OP_ALIGN => str "@"
  end.

Fixpoint postfix (e : expr) : list chars :=
  match e with
  | Literal negative n => [(if negative : bool then [45] else []) ++ print_value n]
  | Variable_ x => [x]
  | Binary operation e1 e2 => postfix e1 ++ postfix e2 ++ [operation_token operation]
  | Dereference e => postfix e ++ [str "^"]
  end.

(** The meaning of an operation on unsigned integers of [w] bits: the sums,
    differences and products are taken modulo [2 ^ w], quotients are rounded
    down, and an alignment drops the bits of the second operand less one, which
    rounds down to a multiple when that is a power of two
    ([meaning_align_power]).  There is no meaning for a division by zero. *)
Definition meaning (w : Z) (operation : BinaryOperation) (a b : Z) : outcome Z :=
  match operation with
  | BINARY_OP_ADD => Ok ((a + b) mod 2 ^ w)
  | BINARY_OP_SUBTRACT => Ok ((a - b) mod 2 ^ w)
  | BINARY_OP_MULTIPLY => Ok ((a * b) mod 2 ^ w)
  | BINARY_OP_DIVIDE_QUOTIENT => if decide (b = 0) then Undef else Ok (Z.quot a b)
  | BINARY_OP_DIVIDE_MODULUS => if decide (b = 0) then Undef else Ok (Z.rem a b)
  | BINARY_OP_ALIGN => Ok (Z.ldiff a ((b - 1) mod 2 ^ w))
  end.

(** The value of an expression; [Ok None] is a failed dereference. *)
Fixpoint denote (w : Z) (d : dictionary) (memory : option memory_region) (e : expr) :
    outcome (option Z) :=
  match e with
  | Literal negative n => Ok (Some (if negative : bool then wrap w (- n) else n))
  | Variable_ x => Ok (d !! x)
  | Binary operation e1 e2 =>
      let? v1 := denote w d memory e1 in
      match v1 with
      | None => Ok None
      | Some v1 =>
          let? v2 := denote w d memory e2 in
          match v2 with
          | None => Ok None
          | Some v2 => let? v := meaning w operation v1 v2 in Ok (Some v)
          end
      end
  | Dereference e =>
      let? v := denote w d memory e in
      Ok (match v, memory with Some v, Some memory => memory v | _, _ => None end)
  end.

(** A register or variable name starts with a letter, [_], [$] or [.]. *)
Definition name_start (c : Z) : bool :=
  ((65 <=? c) && (c <=? 90)) || ((97 <=? c) && (c <=? 122)) || (c =? 95) || (c =? 36) || (c =? 46).

Definition is_name (x : chars) : Prop := exists c rest, x = c :: rest /\ name_start c = true.

(** The literals fit, and the variables are names with a value. *)
Fixpoint expr_ok (w : Z) (d : dictionary) (e : expr) : Prop :=
  match e with
  | Literal _ n => uint w n
  | Variable_ x => is_name x /\ is_Some (d !! x)
  | Binary _ e1 e2 => expr_ok w d e1 /\ expr_ok w d e2
  | Dereference e => expr_ok w d e
  end.

(** An equals sign at the start of a longer token is a token of its own. *)
Definition split_equals (t : chars) : list chars :=
  match t with
  | c :: _ :: _ => if c =? 61 then [[61]; tail t] else [t]
  | _ => [t]
  end.

Definition tokens_of (ts : list chars) : list chars := concat (map split_equals ts).

(** Well-formed dictionaries and memories hold values of the width. *)
Definition dictionary_ok (w : Z) (d : dictionary) : Prop := forall x v, d !! x = Some v -> uint w v.
Definition memory_ok (w : Z) (memory : option memory_region) : Prop :=
  forall m a v, memory = Some m -> m a = Some v -> uint w v.

(** A program assigns expressions to variables in turn. *)
Abbreviation program := (list (chars * expr)).

Definition is_variable (x : chars) : Prop := exists rest, x = 36 :: rest.

Definition postfix_program (prog : program) : list chars :=
  concat (map (fun p => p.1 :: postfix p.2 ++ [str "="]) prog).

(** The result, the dictionary and the variables assigned. *)
Fixpoint execute (w : Z) (d : dictionary) (memory : option memory_region) (prog : program)
    (assigned : option validity) : outcome (bool * dictionary * option validity) :=
  match prog with
  | [] => Ok (true, d, assigned)
  | (x, e) :: prog =>
      let? v := denote w d memory e in
      match v with
      | None => Ok (false, d, assigned)
      | Some v => execute w (<[x := v]> d) memory prog (insert x true <$> assigned)
      end
  end.

Fixpoint program_ok (w : Z) (d : dictionary) (memory : option memory_region) (prog : program) : Prop :=
  match prog with
  | [] => True
  | (x, e) :: prog =>
      is_variable x /\ expr_ok w d e /\
      forall v, denote w d memory e = Ok (Some v) -> program_ok w (<[x := v]> d) memory prog
  end.

(** Tokens that cannot divide by zero or negate through a NULL pointer. *)
Definition harmless (t : chars) : Prop :=
  t <> str "/" /\ t <> str "%" /\ (head t = Some 45 -> t = str "-").

(** Tokens of an expression that neither divides nor assigns. *)
Definition arithmetic (t : chars) : Prop := t <> str "/" /\ t <> str "%" /\ t <> str "=".

(** A stack entry read as a literal: the sign before it, and its magnitude. *)
Definition entry_literal (w : Z) (x : chars) : option (bool * Z) :=
  let negative := bool_decide (head x = Some 45) in
  match extract_literal w (if negative then tail x else x) with
  | Some (v, []) => Some (negative, v)
  | _ => None
  end.

(** The value of a stack entry, [None] for a name without one. *)
Definition entry_value (w : Z) (d : dictionary) (x : chars) : option Z :=
  match entry_literal w x with
  | Some (negative, v) => Some (if negative : bool then wrap w (- v) else v)
  | None => d !! x
  end.

(** The tokens whose execution is undefined, with the stack before them: a
    division of a value by zero, and an assignment of a value to a negative
    literal. *)
Definition goes_wrong (w : Z) (d : dictionary) (stack : list chars) (t : chars) : Prop :=
  ((t = str "/" \/ t = str "%") /\ exists x2 x1 rest, stack = x2 :: x1 :: rest /\
     entry_value w d x2 = Some 0 /\ is_Some (entry_value w d x1)) \/
  (t = str "=" /\ exists x target rest v, stack = x :: target :: rest /\
     is_Some (entry_value w d x) /\ entry_literal w target = Some (true, v)).

(** What an evaluation may do to the dictionary and to [*assigned]. *)
Definition only_assigns (d d' : dictionary) (a a' : option validity) : Prop :=
  (a = None <-> a' = None) /\
  forall x,
    (d' !! x = d !! x /\ (a' ≫= lookup x) = (a ≫= lookup x)) \/
    (is_variable x /\ is_Some (d' !! x) /\ (a' = None \/ (a' ≫= lookup x) = Some true)).

(** ** Text of values *)

Lemma print_digits_spec fuel : forall v text,
  0 <= v < 10 ^ Z.of_nat (S fuel) ->
  exists n, print_digits fuel v text = decimal_digits (S n) v ++ text /\ v < 10 ^ Z.of_nat (S n).
Proof.
  assert (Hlast : forall v text, v < 10 ->
    exists n, c_zero + v mod 10 :: text = decimal_digits (S n) v ++ text /\ v < 10 ^ Z.of_nat (S n)).
  { intros v text Hv. exists 0%nat. split; [done|]. simpl. lia. }
  induction fuel as [|fuel IH]; intros v text Hv; cbn [print_digits].
  - apply Hlast. simpl in Hv. lia.
  - destruct (Z.ltb_spec v 10) as [Hlt|Hge]; [by apply Hlast|].
    rewrite Nat2Z.inj_succ, Z.pow_succ_r in Hv by lia.
    destruct (IH (v / 10) (c_zero + v mod 10 :: text)) as (n & -> & Hn).
    { split; [apply Z.div_pos; lia|]. apply Z.div_lt_upper_bound; lia. }
    exists (S n). split.
    + change (decimal_digits (S (S n)) v) with (decimal_digits (S n) (v / 10) ++ [c_zero + v mod 10]).
      by rewrite <- app_assoc.
    + rewrite (Nat2Z.inj_succ (S n)), Z.pow_succ_r by lia.
      pose proof (Z.div_mod v 10). pose proof (Z.mod_pos_bound v 10). lia.
Qed.

(** The text of a value: a non-empty string of digits that denotes it. *)
Definition digits_of (v : Z) (text : chars) : Prop :=
  text <> [] /\ Forall (fun c => is_digit c = true) text /\ decimal text = v.

Lemma print_value_digits v : uint 64 v -> digits_of v (print_value v).
Proof.
  intros [Hv1 Hv2]. unfold print_value. destruct (print_digits_spec 20 v []) as (n & -> & Hn); [simpl; lia|].
  rewrite app_nil_r. split; [|split].
  - intros H%(f_equal length). rewrite length_decimal_digits in H. done.
  - apply decimal_digits_are.
  - by apply decimal_digits_value.
Qed.

Lemma digit_not_space c : is_digit c = true -> isspace c = false.
Proof.
  unfold is_digit, isspace, c_zero, c_nine. intros H. to_prop.
  rewrite (proj2 (Z.eqb_neq _ _)), (proj2 (Z.leb_gt c 13)), andb_false_r by lia. done.
Qed.

Section evaluator_proofs.
Context (w : Z) (Hw : 0 < w <= 64).

Lemma extract_literal_digits v text :
  digits_of v text -> v < 2 ^ w -> extract_literal w text = Some (v, []).
Proof.
  intros (Hne & Hds & Hv) Hlt. destruct text as [|c text]; [done|].
  pose proof (proj1 (Forall_cons _ _ _) Hds) as [Hc _].
  unfold extract_literal, skip_space. rewrite skip_separators_head by by apply digit_not_space.
  assert (c =? 43 = false /\ c =? 45 = false) as [-> ->].
  { unfold is_digit, c_zero, c_nine in Hc. to_prop. rewrite !Z.eqb_neq. lia. }
  cbv beta iota zeta. rewrite <- (app_nil_r (c :: text)), prefix_len_app, app_nil_r by done.
  cbn [prefix_len]. rewrite Nat.add_0_r, take_ge, drop_ge, Hv by done.
  by rewrite (proj2 (Z.leb_gt _ _)) by done.
Qed.

(** ** Running tokens *)

Fixpoint run_tokens (ev : PostfixEvaluator) (ts : list chars) (assigned : option validity) :
    outcome (bool * PostfixEvaluator * option validity) :=
  match ts with
  | [] => Ok (true, ev, assigned)
  | t :: ts =>
      let? (ok, ev, assigned) := EvaluateToken w ev t assigned in
      if ok : bool then run_tokens ev ts assigned else Ok (false, ev, assigned)
  end.

(** The loop runs the tokens of its text. *)
Lemma EvaluateInternal_reads s ts : reads isspace s ts -> forall fuel ev assigned,
  (length s < fuel)%nat ->
  EvaluateInternal_loop w fuel ev s assigned = run_tokens ev (tokens_of ts) assigned.
Proof.
  induction 1 as [sp Hsp|sp t rest ts Hsp Hne Ht Hrest Hr IH]; intros [|fuel] ev assigned Hf; try lia;
    cbn [EvaluateInternal_loop]; unfold extract_token.
  - by rewrite next_token_end.
  - rewrite next_token_word by done.
    rewrite !length_app in Hf. assert (length t <> 0%nat) by (by destruct t).
    assert (forall ev assigned,
      EvaluateInternal_loop w fuel ev rest assigned = run_tokens ev (tokens_of ts) assigned) as IH'.
    { intros. apply IH. lia. }
    unfold tokens_of in *. cbn [map concat].
    destruct t as [|c [|c' t]]; [done| |]; unfold split_equals; fold split_equals; cbn [length Nat.ltb Nat.leb andb head_char nth].
    + cbn [app run_tokens].
      destruct (EvaluateToken w ev [c] assigned) as [[[[] ev'] a']|]; cbn [obind]; auto.
    + destruct (Z.eqb_spec c 61) as [->|Hc]; cbn [app run_tokens tail].
      * change (str "=") with [61].
        destruct (EvaluateToken w ev [61] assigned) as [[[[] ev'] a']|]; cbn [obind]; auto.
        destruct (EvaluateToken w ev' (c' :: t) a') as [[[[] ev''] a'']|]; cbn [obind]; auto.
      * destruct (EvaluateToken w ev (c :: c' :: t) assigned) as [[[[] ev'] a']|]; cbn [obind]; auto.
Qed.

Lemma run_tokens_app ts1 ts2 : forall ev assigned,
  run_tokens ev (ts1 ++ ts2) assigned =
    (let? (ok, ev, assigned) := run_tokens ev ts1 assigned in
     if ok : bool then run_tokens ev ts2 assigned else Ok (false, ev, assigned)).
Proof.
  induction ts1 as [|t ts1 IH]; intros ev assigned; cbn [app run_tokens]; [done|].
  destruct (EvaluateToken w ev t assigned) as [[[[] ev'] a']|]; cbn [obind]; auto.
Qed.

(** ** Popping *)

Lemma pop_digits ev v text b S :
  digits_of v text -> v < 2 ^ w ->
  PopValueOrIdentifier w (with_stack ev (text :: S)) b = Ok (POP_RESULT_VALUE v, with_stack ev S).
Proof.
  intros Hd Hv. unfold PopValueOrIdentifier. cbn [stack_ with_stack dictionary_ memory_].
  pose proof Hd as (Hne & Hds & _). destruct text as [|c text]; [done|].
  apply Forall_cons in Hds as [Hc _].
  assert (c =? 45 = false) as ->.
  { unfold is_digit, c_zero in Hc. to_prop. apply Z.eqb_neq. lia. }
  by rewrite (extract_literal_digits v).
Qed.

Lemma pop_negative ev v text b S :
  digits_of v text -> v < 2 ^ w ->
  PopValueOrIdentifier w (with_stack ev ((45 :: text) :: S)) b =
    if b then Ok (POP_RESULT_VALUE (wrap w (- v)), with_stack ev S) else Undef.
Proof.
  intros Hd Hv. unfold PopValueOrIdentifier. cbn [stack_ with_stack dictionary_ memory_].
  change (45 =? 45) with true. cbv iota beta. by rewrite (extract_literal_digits v).
Qed.

Lemma name_start_facts c :
  name_start c = true -> is_digit c = false /\ isspace c = false /\ c <> 43 /\ c <> 45.
Proof.
  unfold name_start, is_digit, isspace, c_zero, c_nine. intros H.
  rewrite !orb_true_iff, !andb_true_iff, !Z.leb_le, !Z.eqb_eq in H.
  rewrite andb_false_iff, orb_false_iff, andb_false_iff, !Z.leb_gt, Z.eqb_neq. lia.
Qed.

Lemma pop_name ev x b S :
  is_name x ->
  PopValueOrIdentifier w (with_stack ev (x :: S)) b = Ok (POP_RESULT_IDENTIFIER x, with_stack ev S).
Proof.
  intros (c & rest & -> & (Hd & Hs & H43 & H45)%name_start_facts).
  unfold PopValueOrIdentifier. cbn [stack_ with_stack dictionary_ memory_].
  rewrite (proj2 (Z.eqb_neq c 45)) by done. cbv iota beta.
  unfold extract_literal, skip_space. rewrite skip_separators_head by done.
  rewrite (proj2 (Z.eqb_neq c 43)), (proj2 (Z.eqb_neq c 45)) by done. cbn [prefix_len]. by rewrite Hd.
Qed.

(** A stack entry that pops as the value [v]. *)
Definition resolves (d : dictionary) (text : chars) (v : Z) : Prop :=
  forall ev S, dictionary_ ev = Some d ->
    PopValue w (with_stack ev (text :: S)) = Ok (Some v, with_stack ev S).

Lemma digits_resolve d v text : digits_of v text -> v < 2 ^ w -> resolves d text v.
Proof. intros Hd Hv ev S _. unfold PopValue. by rewrite (pop_digits ev v). Qed.

Lemma uint_64 v : uint w v -> uint 64 v.
Proof.
  unfold uint. intros [H1 H2]. split; [done|]. eapply Z.lt_le_trans; [exact H2|].
  apply Z.pow_le_mono_r; lia.
Qed.

Lemma print_resolve d v : uint w v -> resolves d (print_value v) v.
Proof. intros Hv. apply digits_resolve; [by apply print_value_digits, uint_64 | apply Hv]. Qed.

(** ** Operators and operands *)

(** A token that is not an operator is pushed. *)
Lemma EvaluateToken_operand ev t assigned :
  ~ (exists c, t = [c] /\ is_digit c = false /\ name_start c = false) ->
  EvaluateToken w ev t assigned = Ok (true, with_stack ev (t :: stack_ ev), assigned).
Proof.
  intros Ht. unfold EvaluateToken, binary_operation.
  repeat (rewrite decide_False by (intros ->; apply Ht; by eexists)). done.
Qed.

Lemma EvaluateToken_digits ev v text pre assigned :
  digits_of v text -> EvaluateToken w ev (pre ++ text) assigned =
    Ok (true, with_stack ev ((pre ++ text) :: stack_ ev), assigned).
Proof.
  intros (Hne & Hds & _). apply EvaluateToken_operand. intros (c & Heq & Hc & _).
  destruct text as [|c' text]; [done|]. apply Forall_cons in Hds as [Hc' _].
  destruct pre as [|p pre]; [|by destruct pre].
  injection Heq as -> ->. congruence.
Qed.

Lemma EvaluateToken_name ev x assigned :
  is_name x -> EvaluateToken w ev x assigned = Ok (true, with_stack ev (x :: stack_ ev), assigned).
Proof.
  intros (c & rest & -> & Hc). apply EvaluateToken_operand. intros (c' & [= -> ->] & _ & Hc'). congruence.
Qed.

Lemma EvaluateToken_binary ev operation assigned :
  EvaluateToken w ev (operation_token operation) assigned =
    (let? (operands, ev) := PopValues w ev in
     match operands with
     | None => Ok (false, ev, assigned)
     | Some (operand1, operand2) =>
         let? result := perform w operation operand1 operand2 in
         Ok (true, PushValue ev result, assigned)
     end).
Proof. by destruct operation. Qed.

Lemma EvaluateToken_assign ev assigned :
  EvaluateToken w ev (str "=") assigned =
    (let? (value, ev) := PopValue w ev in
     match value with
     | None => Ok (false, ev, assigned)
     | Some value =>
         let? (result, ev) := PopValueOrIdentifier w ev false in
         match result with
         | POP_RESULT_IDENTIFIER identifier =>
             if (length identifier =? 0)%nat || negb (head_char identifier =? 36)
             then Ok (false, ev, assigned)
             else
               let? d := of_option (dictionary_ ev) in
               Ok (true, with_dictionary ev (<[identifier := value]> d),
                   insert identifier true <$> assigned)
         | _ => Ok (false, ev, assigned)
         end
     end).
Proof. reflexivity. Qed.

Lemma EvaluateToken_dereference ev assigned :
  EvaluateToken w ev (str "^") assigned =
    match memory_ ev with
    | None => Ok (false, ev, assigned)
    | Some memory =>
        let? (address, ev) := PopValue w ev in
        match address with
        | None => Ok (false, ev, assigned)
        | Some address =>
            match memory address with
            | None => Ok (false, ev, assigned)
            | Some value => Ok (true, PushValue ev value, assigned)
            end
        end
    end.
Proof. reflexivity. Qed.

Lemma land_uint a b : uint w a -> uint w (Z.land a b).
Proof.
  intros Ha. rewrite <- (wrap_small w a Ha). unfold wrap.
  rewrite <- Z.land_ones, <- Z.land_assoc, (Z.land_comm (Z.ones w)), Z.land_assoc, Z.land_ones by lia.
  apply wrap_uint. lia.
Qed.

Lemma perform_uint operation v1 v2 v :
  uint w v1 -> uint w v2 -> perform w operation v1 v2 = Ok v -> uint w v.
Proof.
  unfold uint. intros H1 H2. destruct operation; cbn [perform].
  1-3: intros [= <-]; apply wrap_uint; lia.
  - destruct (Z.eqb_spec v2 0); [done|]. intros [= <-].
    split; [apply Z.div_pos; lia|]. eapply Z.le_lt_trans; [|apply H1]. apply Z.div_le_upper_bound; nia.
  - destruct (Z.eqb_spec v2 0); [done|]. intros [= <-]. pose proof (Z.mod_pos_bound v1 v2). lia.
  - intros [= <-]. by apply land_uint.
Qed.

(** The code's arithmetic is the arithmetic meant. *)
Lemma perform_meaning operation v1 v2 :
  uint w v1 -> uint w v2 -> perform w operation v1 v2 = meaning w operation v1 v2.
Proof.
  unfold uint. intros H1 H2. destruct operation; cbn [perform meaning]; try done.
  - destruct (Z.eqb_spec v2 0), (decide (v2 = 0)); try done. by rewrite Z.quot_div_nonneg by lia.
  - destruct (Z.eqb_spec v2 0), (decide (v2 = 0)); try done. by rewrite Z.rem_mod_nonneg by lia.
  - f_equal. unfold wrap. apply Z.bits_inj'. intros i Hi. rewrite Z.ldiff_spec, Z.land_spec, Z.lxor_spec.
    destruct (Z.ltb_spec i w).
    + rewrite (Z.mod_pow2_bits_low (-1)), Z.bits_m1 by lia. by destruct (Z.testbit (_ mod _) i).
    + assert (Z.testbit v1 i = false) as ->; [|done].
      rewrite <- (Z.mod_small v1 (2 ^ w)) by lia. apply Z.mod_pow2_bits_high. lia.
Qed.

Lemma meaning_uint operation v1 v2 v :
  uint w v1 -> uint w v2 -> meaning w operation v1 v2 = Ok v -> uint w v.
Proof. intros H1 H2. rewrite <- perform_meaning by done. by apply perform_uint. Qed.

(** Aligning to a power of two rounds down to a multiple of it. *)
Lemma meaning_align_power a k :
  0 <= k < w -> meaning w BINARY_OP_ALIGN a (2 ^ k) = Ok (a - a mod 2 ^ k).
Proof.
  intros Hk. cbn [meaning]. pose proof (Z.pow_lt_mono_r 2 k w). pose proof (Z.pow_pos_nonneg 2 k).
  rewrite Z.mod_small, Z.sub_1_r, <- Z.ones_equiv, Z.ldiff_ones_r, Z.shiftl_mul_pow2, Z.shiftr_div_pow2 by lia.
  f_equal. pose proof (Z.div_mod a (2 ^ k)). lia.
Qed.

Lemma denote_uint d memory e v :
  dictionary_ok w d -> memory_ok w memory -> expr_ok w d e ->
  denote w d memory e = Ok (Some v) -> uint w v.
Proof.
  intros Hd Hm. revert v. induction e as [negative n|x|operation e1 IH1 e2 IH2|e IH]; intros v Hok;
    cbn [expr_ok denote] in *.
  - intros [= <-]. destruct negative; [apply wrap_uint; lia|done].
  - intros [= Hx]. by eapply Hd.
  - destruct Hok as [Hok1 Hok2].
    destruct (denote w d memory e1) as [[v1|]|]; cbn [obind]; try done.
    destruct (denote w d memory e2) as [[v2|]|]; cbn [obind]; try done.
    destruct (meaning w operation v1 v2) as [r|] eqn:Hr; cbn [obind]; [|done]. intros [= <-].
    eapply meaning_uint; [| |exact Hr]; auto.
  - destruct (denote w d memory e) as [[a|]|]; cbn [obind]; try done.
    destruct memory as [m|] eqn:Em; [|done]. intros [= Hv]. by eapply Hm.
Qed.

(** ** Running the postfix form *)

Section run.
Context (ev : PostfixEvaluator) (d : dictionary).
Context (Hdict : dictionary_ ev = Some d) (Hd : dictionary_ok w d) (Hm : memory_ok w (memory_ ev)).

(** The entry [e] leaves on the stack, or the way it fails. *)
Definition runs_to (e : expr) : Prop :=
  forall S ts assigned,
  match denote w d (memory_ ev) e with
  | Ok (Some v) => exists text, resolves d text v /\
      run_tokens (with_stack ev S) (postfix e ++ ts) assigned =
        run_tokens (with_stack ev (text :: S)) ts assigned
  | Ok None => exists S',
      run_tokens (with_stack ev S) (postfix e ++ ts) assigned = Ok (false, with_stack ev S', assigned)
  | Undef => run_tokens (with_stack ev S) (postfix e ++ ts) assigned = Undef
  end.

Lemma runs_literal negative n : uint w n -> runs_to (Literal negative n).
Proof.
  intros Hn S ts assigned. cbn [denote postfix app run_tokens].
  pose proof (print_value_digits n (uint_64 n Hn)) as Hp.
  eexists. rewrite (EvaluateToken_digits _ n) by done. split; [|done].
  destruct negative; cbn [app].
  - intros ev' S' _. unfold PopValue. rewrite (pop_negative _ n) by (done || apply Hn). done.
  - by apply print_resolve.
Qed.

Lemma runs_variable x : is_name x -> is_Some (d !! x) -> runs_to (Variable_ x).
Proof.
  intros Hx [v Hv] S ts assigned. cbn [denote postfix app run_tokens]. rewrite Hv.
  exists x. rewrite EvaluateToken_name by done. split; [|done].
  intros ev' S' Hev'. unfold PopValue. rewrite pop_name by done. cbn [obind dictionary_ with_stack].
  rewrite Hev'. cbn [of_option obind]. by rewrite Hv.
Qed.

Lemma runs_binary operation e1 e2 :
  expr_ok w d e1 -> expr_ok w d e2 -> runs_to e1 -> runs_to e2 -> runs_to (Binary operation e1 e2).
Proof.
  intros Hok1 Hok2 H1 H2 S ts assigned. cbn [denote postfix]. rewrite <- !app_assoc.
  specialize (H1 S (postfix e2 ++ [operation_token operation] ++ ts) assigned).
  destruct (denote w d (memory_ ev) e1) as [[v1|]|] eqn:E1; cbn [obind]; [|done|done].
  destruct H1 as (text1 & Hr1 & ->).
  specialize (H2 (text1 :: S) ([operation_token operation] ++ ts) assigned).
  destruct (denote w d (memory_ ev) e2) as [[v2|]|] eqn:E2; cbn [obind]; [|done|done].
  destruct H2 as (text2 & Hr2 & ->). cbn [app run_tokens].
  rewrite EvaluateToken_binary. unfold PopValues. rewrite Hr2 by done. cbn [obind].
  rewrite Hr1 by done. cbn [obind].
  pose proof (denote_uint d _ e1 v1 Hd Hm Hok1 E1) as U1. pose proof (denote_uint d _ e2 v2 Hd Hm Hok2 E2) as U2.
  rewrite perform_meaning by done. destruct (meaning w operation v1 v2) as [v|] eqn:E; cbn [obind]; [|done].
  exists (print_value v). split; [|done]. apply print_resolve. exact (meaning_uint operation v1 v2 v U1 U2 E).
Qed.

Lemma runs_dereference e : expr_ok w d e -> runs_to e -> runs_to (Dereference e).
Proof.
  intros Hok H S ts assigned. cbn [denote postfix]. rewrite <- app_assoc.
  specialize (H S ([str "^"] ++ ts) assigned).
  destruct (denote w d (memory_ ev) e) as [[a|]|] eqn:E; cbn [obind]; [|done|done].
  destruct H as (text & Hr & ->). cbn [app run_tokens].
  rewrite EvaluateToken_dereference. cbn [memory_ with_stack].
  destruct (memory_ ev) as [m|] eqn:Em; [|cbn [obind]; eauto].
  rewrite Hr by done. cbn [obind]. destruct (m a) as [v|] eqn:Ev; cbn [obind]; [|eauto].
  exists (print_value v). split; [|done]. apply print_resolve. by eapply Hm.
Qed.

Lemma expr_runs e : expr_ok w d e -> runs_to e.
Proof.
  induction e as [negative n|x|operation e1 IH1 e2 IH2|e IH]; cbn [expr_ok]; intros Hok.
  - by apply runs_literal.
  - destruct Hok. by apply runs_variable.
  - destruct Hok. apply runs_binary; auto.
  - apply runs_dereference; auto.
Qed.
End run.

Lemma execute_runs prog : forall ev d assigned,
  dictionary_ ev = Some d -> dictionary_ok w d -> memory_ok w (memory_ ev) ->
  program_ok w d (memory_ ev) prog ->
  match execute w d (memory_ ev) prog assigned with
  | Ok (ok, d', assigned') => exists S',
      run_tokens (with_stack ev []) (postfix_program prog) assigned =
        Ok (ok, with_stack (with_dictionary ev d') S', assigned') /\ (ok = true -> S' = [])
  | Undef => run_tokens (with_stack ev []) (postfix_program prog) assigned = Undef
  end.
Proof.
  induction prog as [|[x e] prog IH]; intros ev d assigned Hdict Hd Hm Hok.
  { cbn. exists []. split; [|done]. unfold with_stack, with_dictionary. cbn. by rewrite Hdict. }
  destruct Hok as ([rest ->] & He & Hprog).
  assert (is_name (36 :: rest)) as Hx by (by eexists _, _).
  pose proof (expr_runs ev d Hdict Hd Hm e He) as Hrun.
  specialize (Hrun [36 :: rest] ([str "="] ++ postfix_program prog) assigned).
  unfold postfix_program in *. cbn [execute map concat fst snd app run_tokens].
  rewrite EvaluateToken_name by done. cbn [obind with_stack stack_]. rewrite <- app_assoc.
  change (with_stack (with_stack ev []) [36 :: rest]) with (with_stack ev [36 :: rest]).
  destruct (denote w d (memory_ ev) e) as [[v|]|] eqn:E; cbn [obind].
  - destruct Hrun as (text & Hr & ->). cbn [app run_tokens].
    assert (EvaluateToken w (with_stack ev [text; 36 :: rest]) (str "=") assigned =
      Ok (true, with_stack (with_dictionary ev (<[36 :: rest := v]> d)) [],
          insert (36 :: rest) true <$> assigned)) as ->.
    { rewrite EvaluateToken_assign, Hr by done. cbn [obind]. rewrite pop_name by done. cbn [obind].
      cbn [dictionary_ with_stack]. rewrite Hdict. reflexivity. }
    cbn [obind].
    apply (IH (with_dictionary ev (<[36 :: rest := v]> d)) (<[36 :: rest := v]> d)); [done| |done|by apply Hprog].
    intros y z. destruct (decide (y = 36 :: rest)) as [->|Hne].
    + rewrite lookup_insert_eq. intros [= <-]. exact (denote_uint d _ e v Hd Hm He E).
    + rewrite lookup_insert_ne by done. apply Hd.
  - destruct Hrun as (S' & ->). exists S'. split; [|done].
    unfold with_stack, with_dictionary. cbn. by rewrite Hdict.
  - done.
Qed.

(** ** Any text *)

Lemma only_assigns_refl d a : only_assigns d d a a.
Proof. split; [done|]. intros x. by left. Qed.

Lemma only_assigns_trans d1 d2 d3 a1 a2 a3 :
  only_assigns d1 d2 a1 a2 -> only_assigns d2 d3 a2 a3 -> only_assigns d1 d3 a1 a3.
Proof.
  intros [N1 H1] [N2 H2]. split; [tauto|]. intros x.
  destruct (H2 x) as [[Hd2 Ha2]|?]; [|by right].
  destruct (H1 x) as [[Hd1 Ha1]|(Hv & Hs & Ha1)].
  - left. by rewrite Hd2, Ha2.
  - right. rewrite Hd2, Ha2. split; [done|]. split; [done|]. destruct Ha1 as [Ha1|?]; [left; tauto|by right].
Qed.

Lemma only_assigns_insert d a x v :
  is_variable x -> only_assigns d (<[x := v]> d) a (insert x true <$> a).
Proof.
  intros Hx. split; [by destruct a|]. intros y. destruct (decide (y = x)) as [->|Hne].
  - right. split; [done|]. rewrite lookup_insert_eq. split; [eauto|].
    destruct a as [m|]; [right|by left]. cbn. by rewrite lookup_insert_eq.
  - left. rewrite lookup_insert_ne by done. split; [done|].
    destruct a as [m|]; [|done]. cbn. by rewrite lookup_insert_ne.
Qed.

(** The evaluator [ev'] differs from [ev] in its stack only, which is a part of
    that of [ev]. *)
Definition pops (ev ev' : PostfixEvaluator) : Prop :=
  dictionary_ ev' = dictionary_ ev /\ memory_ ev' = memory_ ev /\
  exists n, stack_ ev' = drop n (stack_ ev).

Lemma pops_trans ev1 ev2 ev3 : pops ev1 ev2 -> pops ev2 ev3 -> pops ev1 ev3.
Proof.
  intros (D1 & M1 & n1 & S1) (D2 & M2 & n2 & S2). split; [congruence|]. split; [congruence|].
  exists (n1 + n2)%nat. by rewrite S2, S1, drop_drop.
Qed.

Definition plain_stack (ev : PostfixEvaluator) : Prop :=
  Forall (fun t => head t <> Some 45) (stack_ ev).

Lemma pops_plain ev ev' : pops ev ev' -> plain_stack ev -> plain_stack ev'.
Proof. intros (_ & _ & n & Hs) H. unfold plain_stack. rewrite Hs. by apply Forall_drop. Qed.

Lemma PopValueOrIdentifier_pops ev b :
  match PopValueOrIdentifier w ev b with
  | Ok (_, ev') => pops ev ev'
  | Undef => b = false /\ ~ plain_stack ev
  end.
Proof.
  unfold PopValueOrIdentifier. destruct (stack_ ev) as [|t S] eqn:ES.
  { repeat split. by exists 0%nat. }
  assert (pops ev (with_stack ev S)) as Hp.
  { repeat split. exists 1%nat. by rewrite ES. }
  set (X := match t with [] => _ | _ => _ end).
  assert (Hneg : X.1 = true -> head t = Some 45).
  { unfold X. destruct t as [|c t]; [done|]. destruct (Z.eqb_spec c 45) as [->|]; done. }
  destruct X as [negative token_stream]. cbn [fst] in Hneg.
  destruct (extract_literal w token_stream) as [[v [|]]|]; [|done..].
  destruct negative; [|done]. destruct b; [done|]. split; [done|]. intros H.
  unfold plain_stack in H. rewrite ES in H. apply Forall_cons in H as [H _]. auto.
Qed.

Lemma PopValue_pops ev d :
  dictionary_ ev = Some d -> exists r ev', PopValue w ev = Ok (r, ev') /\ pops ev ev'.
Proof.
  intros Hd. unfold PopValue. pose proof (PopValueOrIdentifier_pops ev true) as H.
  destruct (PopValueOrIdentifier w ev true) as [[r ev']|]; cbn [obind]; [|by destruct H].
  destruct r; eauto. destruct H as (Hd' & H). rewrite Hd', Hd. cbn [of_option obind].
  eexists _, _. split; [done|]. split; [by rewrite Hd'|done].
Qed.

Lemma print_digits_head fuel : forall v text,
  (forall c, head text = Some c -> is_digit c = true) ->
  forall c, head (print_digits fuel v text) = Some c -> is_digit c = true.
Proof.
  assert (Hd : forall v, is_digit (c_zero + v mod 10) = true).
  { intros v. pose proof (Z.mod_pos_bound v 10). unfold is_digit, c_zero, c_nine.
    apply andb_true_iff. rewrite !Z.leb_le. lia. }
  induction fuel as [|fuel IH]; intros v text Ht c; cbn [print_digits]; [by intros [= <-]|].
  destruct (v <? 10); [by intros [= <-]|]. apply IH. by intros c' [= <-].
Qed.

Lemma PushValue_plain ev v : plain_stack ev -> plain_stack (PushValue ev v).
Proof.
  intros H. apply Forall_cons. split; [|done]. intros Hh.
  apply print_digits_head in Hh; done.
Qed.

Lemma binary_operation_token t operation :
  binary_operation t = Some operation -> t = operation_token operation.
Proof.
  unfold binary_operation. intros H. repeat (destruct (decide _) as [->|_]; [by injection H as <-|]). done.
Qed.

Lemma PopValues_pops ev d :
  dictionary_ ev = Some d -> exists r ev', PopValues w ev = Ok (r, ev') /\ pops ev ev'.
Proof.
  intros Hd. unfold PopValues. destruct (PopValue_pops ev d Hd) as (v2 & ev2 & -> & H2). cbn [obind].
  destruct v2 as [v2|]; [|eauto]. pose proof H2 as (Hd2 & _ & _).
  destruct (PopValue_pops ev2 d) as (v1 & ev1 & -> & H1); [congruence|]. cbn [obind].
  pose proof (pops_trans _ _ _ H2 H1). destruct v1; eauto.
Qed.

(** What one token may do. *)
Definition token_result (ev : PostfixEvaluator) (d : dictionary) (a : option validity) (quiet : Prop)
    (r : outcome (bool * PostfixEvaluator * option validity)) : Prop :=
  match r with
  | Ok (_, ev', a') => exists d', dictionary_ ev' = Some d' /\ memory_ ev' = memory_ ev /\
      only_assigns d d' a a' /\ (quiet -> plain_stack ev -> plain_stack ev')
  | Undef => ~ (quiet /\ plain_stack ev)
  end.

Lemma token_result_pops ev ev' d a quiet ok :
  dictionary_ ev = Some d -> pops ev ev' -> token_result ev d a quiet (Ok (ok, ev', a)).
Proof.
  intros Hd Hp. pose proof Hp as (Hd' & Hm & _). exists d. split; [congruence|]. split; [done|].
  split; [apply only_assigns_refl|]. intros _. by apply pops_plain.
Qed.

Lemma token_result_push ev ev' d a quiet ok v :
  dictionary_ ev = Some d -> pops ev ev' -> token_result ev d a quiet (Ok (ok, PushValue ev' v, a)).
Proof.
  intros Hd Hp. pose proof Hp as (Hd' & Hm & _). exists d. split; [cbn; congruence|]. split; [done|].
  split; [apply only_assigns_refl|]. intros _ H. by eapply PushValue_plain, pops_plain.
Qed.

Lemma EvaluateToken_safe ev d t a :
  dictionary_ ev = Some d -> token_result ev d a (harmless t) (EvaluateToken w ev t a).
Proof.
  intros Hd. destruct (binary_operation t) as [operation|] eqn:Eop.
  { pose proof (binary_operation_token _ _ Eop) as ->. rewrite EvaluateToken_binary.
    destruct (PopValues_pops ev d Hd) as (r & ev' & -> & Hp). cbn [obind].
    destruct r as [[v1 v2]|]; [|by apply token_result_pops].
    destruct (perform w operation v1 v2) as [v|] eqn:E; cbn [obind]; [by apply token_result_push|].
    intros [(Hdiv & Hmod & _) _]. destruct operation; cbn in E; done. }
  destruct (decide (t = str "^")) as [->|Hder].
  { rewrite EvaluateToken_dereference. assert (pops ev ev) as Hr by (repeat split; by exists 0%nat).
    destruct (memory_ ev) as [m|]; [|by apply token_result_pops].
    destruct (PopValue_pops ev d Hd) as (r & ev' & -> & Hp). cbn [obind].
    destruct r as [address|]; [|by apply token_result_pops].
    destruct (m address) as [v|]; [by apply token_result_push|by apply token_result_pops]. }
  destruct (decide (t = str "=")) as [->|Hasg].
  { rewrite EvaluateToken_assign.
    destruct (PopValue_pops ev d Hd) as (r & ev' & -> & Hp). cbn [obind].
    destruct r as [v|]; [|by apply token_result_pops].
    pose proof (PopValueOrIdentifier_pops ev' false) as H.
    destruct (PopValueOrIdentifier w ev' false) as [[r ev'']|]; cbn [obind].
    2: { destruct H as [_ H]. intros [_ Hpl]. by apply H, (pops_plain ev). }
    pose proof (pops_trans _ _ _ Hp H) as Hp'.
    destruct r as [| |x]; [by apply token_result_pops..|].
    destruct x as [|c x]; [by apply token_result_pops|]. cbn [length Nat.eqb orb head_char nth].
    destruct (Z.eqb_spec c 36) as [->|Hc]; cbn [negb]; [|by apply token_result_pops].
    pose proof Hp' as (Hd' & Hm' & _). rewrite Hd', Hd. cbn [of_option obind].
    eexists. split; [reflexivity|]. split; [exact Hm'|]. split; [apply only_assigns_insert; by eexists|].
    intros _ Hpl. exact (pops_plain _ _ Hp' Hpl). }
  unfold EvaluateToken. rewrite Eop, !decide_False by done.
  exists d. split; [done|]. split; [done|]. split; [apply only_assigns_refl|].
  intros (_ & _ & Hneg) Hpl. apply Forall_cons. split; [|done].
  intros Hh. rewrite (Hneg Hh) in Eop. done.
Qed.

Lemma run_tokens_safe ts : forall ev d a,
  dictionary_ ev = Some d -> token_result ev d a (Forall harmless ts) (run_tokens ev ts a).
Proof.
  induction ts as [|t ts IH]; intros ev d a Hd; cbn [run_tokens].
  { apply token_result_pops; [done|]. repeat split. by exists 0%nat. }
  pose proof (EvaluateToken_safe ev d t a Hd) as H.
  pose proof (proj1 (Forall_cons harmless t ts)) as Hq.
  destruct (EvaluateToken w ev t a) as [[[ok ev'] a']|]; cbn [obind].
  2: { unfold token_result in *. tauto. }
  destruct H as (d' & Hd' & Hm & Ha & Hpl).
  destruct ok; [|exists d'; tauto].
  specialize (IH ev' d' a' Hd'). unfold token_result in *.
  destruct (run_tokens ev' ts a') as [[[ok ev''] a'']|]; [|tauto].
  destruct IH as (d'' & Hd'' & Hm' & Ha' & Hpl'). exists d''. split; [done|]. split; [congruence|].
  split; [by eapply only_assigns_trans|tauto].
Qed.

(** ** The tokens that go wrong *)

Lemma PopValueOrIdentifier_entry ev x S b :
  stack_ ev = x :: S ->
  PopValueOrIdentifier w ev b =
    match entry_literal w x with
    | Some (true, v) => if b then Ok (POP_RESULT_VALUE (wrap w (- v)), with_stack ev S) else Undef
    | Some (false, v) => Ok (POP_RESULT_VALUE v, with_stack ev S)
    | None => Ok (POP_RESULT_IDENTIFIER x, with_stack ev S)
    end.
Proof.
  intros HS. unfold PopValueOrIdentifier, entry_literal. rewrite HS.
  destruct x as [|c x]; cbn [head tail].
  { case_bool_decide; [done|]. by destruct (extract_literal w []) as [[v [|]]|]. }
  destruct (Z.eqb_spec c 45) as [->|Hc].
  - rewrite bool_decide_true by done. by destruct (extract_literal w x) as [[v [|]]|].
  - rewrite bool_decide_false by congruence. by destruct (extract_literal w (c :: x)) as [[v [|]]|].
Qed.

Lemma PopValue_entry ev d x S :
  dictionary_ ev = Some d -> stack_ ev = x :: S ->
  PopValue w ev = Ok (entry_value w d x, with_stack ev S).
Proof.
  intros Hd HS. unfold PopValue, entry_value. rewrite (PopValueOrIdentifier_entry ev x S) by done.
  destruct (entry_literal w x) as [[[] v]|]; cbn [obind]; [done..|]. cbn [with_stack dictionary_]. by rewrite Hd.
Qed.

Lemma PopValue_empty ev : stack_ ev = [] -> PopValue w ev = Ok (None, ev).
Proof. intros HS. unfold PopValue, PopValueOrIdentifier. by rewrite HS. Qed.

Lemma PopValues_entries ev d :
  dictionary_ ev = Some d -> exists r ev', PopValues w ev = Ok (r, ev') /\
  forall v1 v2, r = Some (v1, v2) <-> exists x2 x1 S,
    stack_ ev = x2 :: x1 :: S /\ entry_value w d x2 = Some v2 /\ entry_value w d x1 = Some v1.
Proof.
  intros Hd. unfold PopValues. destruct (stack_ ev) as [|x2 S] eqn:ES.
  { rewrite PopValue_empty by done. cbn [obind]. eexists _, _. split; [done|]. intros v1 v2.
    split; [done|]. by intros (? & ? & ? & ? & _). }
  rewrite (PopValue_entry ev d x2 S) by done. cbn [obind].
  destruct (entry_value w d x2) as [v2|] eqn:E2.
  2: { eexists _, _. split; [done|]. intros v1 v2. split; [done|]. intros (? & ? & ? & [= <- _] & ? & _). congruence. }
  destruct S as [|x1 S].
  { rewrite PopValue_empty by done. cbn [obind]. eexists _, _. split; [done|]. intros v1 ?.
    split; [done|]. by intros (? & ? & ? & ? & _). }
  rewrite (PopValue_entry _ d x1 S) by done. cbn [obind].
  destruct (entry_value w d x1) as [v1|] eqn:E1; eexists _, _; (split; [done|]); intros u1 u2.
  - split; [by intros [= <- <-]; exists x2, x1, S|]. intros (? & ? & ? & [= <- <- <-] & ? & ?). congruence.
  - split; [done|]. intros (? & ? & ? & [= <- <- <-] & ? & ?). congruence.
Qed.

Lemma perform_undef operation v1 v2 :
  perform w operation v1 v2 = Undef <->
  v2 = 0 /\ (operation_token operation = str "/" \/ operation_token operation = str "%").
Proof.
  destruct operation; cbn [perform]; try destruct (Z.eqb_spec v2 0);
    (split; [intros H; first [done|split; [done|by (left + right)]]|intros [H1 [H2|H2]]; done]).
Qed.

(** One token. *)
Lemma EvaluateToken_undef ev d t a :
  dictionary_ ev = Some d ->
  EvaluateToken w ev t a = Undef <-> goes_wrong w d (stack_ ev) t.
Proof.
  intros Hd. unfold goes_wrong. destruct (binary_operation t) as [operation|] eqn:Eop.
  { pose proof (binary_operation_token _ _ Eop) as ->. rewrite EvaluateToken_binary.
    destruct (PopValues_entries ev d Hd) as (r & ev' & -> & Hr). cbn [obind].
    transitivity (exists v1 v2, r = Some (v1, v2) /\ perform w operation v1 v2 = Undef).
    { destruct r as [[v1 v2]|]; [|by split; [|intros (? & ? & ? & _)]].
      destruct (perform w operation v1 v2) as [v|] eqn:E; cbn [obind]; [split; [done|]|split; [by eexists _, _|done]].
      intros (? & ? & [= <- <-] & ?). congruence. }
    setoid_rewrite Hr. setoid_rewrite perform_undef. split.
    - intros (v1 & v2 & (x2 & x1 & S & H1 & H2 & H3) & -> & Ht). left. split; [done|]. exists x2, x1, S. eauto.
    - intros [(Ht & x2 & x1 & S & H1 & H2 & v1 & H3)|(Ht & _)]; [|by destruct operation].
      exists v1, 0. split; [by exists x2, x1, S|done]. }
  assert (t <> str "/" /\ t <> str "%") as [Hdiv Hmod] by (split; intros ->; done).
  destruct (decide (t = str "=")) as [->|Hasg].
  2: { split; [|tauto]. destruct (decide (t = str "^")) as [->|Hder].
    - rewrite EvaluateToken_dereference. destruct (memory_ ev) as [m|]; [|done].
      destruct (PopValue_pops ev d Hd) as (r & ev' & -> & _). cbn [obind].
      destruct r as [address|]; [destruct (m address)|]; done.
    - unfold EvaluateToken. by rewrite Eop, !decide_False by done. }
  rewrite EvaluateToken_assign. destruct (stack_ ev) as [|x S] eqn:ES.
  { rewrite PopValue_empty by done. cbn [obind]. split; [done|].
    intros [([] & _)|(_ & ? & ? & ? & ? & ? & _)]; done. }
  rewrite (PopValue_entry ev d x S) by done. cbn [obind]. destruct (entry_value w d x) as [v|] eqn:Ev.
  2: { split; [done|]. intros [([] & _)|(_ & ? & ? & ? & ? & [= <- _] & [? ?] & _)]; [done..|congruence]. }
  destruct S as [|target S].
  { split; [done|]. intros [([] & _)|(_ & ? & ? & ? & ? & ? & _)]; done. }
  rewrite (PopValueOrIdentifier_entry _ target S) by done. split.
  - intros H. right. split; [done|]. exists x, target, S.
    destruct (entry_literal w target) as [[[] u]|]; cbn [obind] in H; [by eauto 7|done|].
    destruct (_ || _); [done|]. cbn [with_stack dictionary_] in H. by rewrite Hd in H.
  - intros [([] & _)|(_ & ? & ? & ? & u & [= <- <- <-] & _ & ->)]; done.
Qed.

(** All the tokens: one goes wrong after the ones before it succeeded. *)
Definition tokens_go_wrong (ev : PostfixEvaluator) (ts : list chars) (a : option validity) : Prop :=
  exists before t after ev' d' a', ts = before ++ t :: after /\
    run_tokens ev before a = Ok (true, ev', a') /\ dictionary_ ev' = Some d' /\ goes_wrong w d' (stack_ ev') t.

Lemma run_tokens_undef ts : forall ev d a,
  dictionary_ ev = Some d -> run_tokens ev ts a = Undef <-> tokens_go_wrong ev ts a.
Proof.
  induction ts as [|t ts IH]; intros ev d a Hd; cbn [run_tokens].
  { split; [done|]. intros ([] & ? & ? & ? & ? & ? & ? & _); done. }
  pose proof (EvaluateToken_undef ev d t a Hd) as Ht. pose proof (EvaluateToken_safe ev d t a Hd) as Hsafe.
  split.
  - destruct (EvaluateToken w ev t a) as [[[ok ev'] a']|] eqn:E; cbn [obind].
    + destruct ok; [|done]. destruct Hsafe as (d' & Hd' & _). intros H. rewrite (IH ev' d') in H by done.
      destruct H as (before & u & after & ev2 & d2 & a2 & -> & Hrun & H).
      exists (t :: before), u, after, ev2, d2, a2. split; [done|]. cbn [run_tokens]. by rewrite E.
    + intros _. exists [], t, ts, ev, d, a. split; [done|]. split; [done|]. split; [done|]. by apply Ht.
  - intros ([|b before] & u & after & ev2 & d2 & a2 & [= -> ->] & Hrun & Hd2 & Hgo); cbn [run_tokens] in Hrun.
    + injection Hrun as <- _. assert (d2 = d) as -> by congruence. by rewrite (proj2 Ht Hgo).
    + destruct (EvaluateToken w ev b a) as [[[ok ev'] a']|]; cbn [obind] in *; [|done].
      destruct ok; [|done]. destruct Hsafe as (d' & Hd' & _). rewrite (IH ev' d') by done.
      by exists before, u, after, ev2, d2, a2.
Qed.

(** An expression without divisions and assignments. *)
Lemma EvaluateToken_arithmetic ev d t a :
  dictionary_ ev = Some d -> arithmetic t ->
  exists ok ev', EvaluateToken w ev t a = Ok (ok, ev', a) /\ dictionary_ ev' = Some d.
Proof.
  intros Hd (Hdiv & Hmod & Hasg). destruct (binary_operation t) as [operation|] eqn:Eop.
  { pose proof (binary_operation_token _ _ Eop) as ->. rewrite EvaluateToken_binary.
    destruct (PopValues_pops ev d Hd) as (r & ev' & -> & Hp & _). cbn [obind].
    destruct r as [[v1 v2]|]; [|eexists _, _; split; [done|congruence]].
    destruct operation; cbn [perform obind]; try done; eexists _, _; (split; [done|cbn; congruence]). }
  destruct (decide (t = str "^")) as [->|Hder].
  { rewrite EvaluateToken_dereference. destruct (memory_ ev) as [m|]; [|by eexists _, _].
    destruct (PopValue_pops ev d Hd) as (r & ev' & -> & Hp & _). cbn [obind].
    destruct r as [address|]; [|eexists _, _; split; [done|congruence]].
    destruct (m address); eexists _, _; (split; [done|cbn; congruence]). }
  unfold EvaluateToken. rewrite Eop, !decide_False by done. by eexists _, _.
Qed.

Lemma run_tokens_arithmetic ts : forall ev d a,
  dictionary_ ev = Some d -> Forall arithmetic ts ->
  exists ok ev', run_tokens ev ts a = Ok (ok, ev', a) /\ dictionary_ ev' = Some d.
Proof.
  induction ts as [|t ts IH]; intros ev d a Hd; cbn [run_tokens]; [by eexists _, _|].
  intros [Ht Hts]%Forall_cons. destruct (EvaluateToken_arithmetic ev d t a Hd Ht) as (ok & ev' & -> & Hd').
  cbn [obind]. destruct ok; [by apply IH|by eexists _, _].
Qed.

(** ** Values have the width *)

Lemma extract_literal_uint s v rest : extract_literal w s = Some (v, rest) -> uint w v.
Proof.
  unfold extract_literal. destruct (match skip_space s with [] => _ | c :: rest => _ end) as [negative t].
  destruct (_ || _) eqn:E; [done|]. intros [= <- _]. apply orb_false_iff in E as [_ E]. apply Z.leb_gt in E.
  destruct negative; [apply wrap_uint; lia|]. split; [|done]. apply (decimal_from_grows _ 0); [done|apply prefix_len_take].
Qed.

Lemma PopValue_uint ev ev' d v :
  dictionary_ ev = Some d -> dictionary_ok w d -> PopValue w ev = Ok (Some v, ev') -> uint w v.
Proof.
  intros Hd Hok. unfold PopValue. intros ((r & ev1) & E & H)%obind_Ok.
  pose proof (PopValueOrIdentifier_pops ev true) as Hp. rewrite E in Hp. destruct Hp as (Hd' & _).
  destruct r as [|l|x]; [done| |].
  - injection H as <- <-. revert E. unfold PopValueOrIdentifier. destruct (stack_ ev) as [|t S]; [done|].
    destruct (match t with [] => _ | c :: rest => _ end) as [negative text].
    destruct (extract_literal w text) as [[z [|]]|] eqn:El; [|done..]. apply extract_literal_uint in El.
    destruct negative; intros [= <- _]; [apply wrap_uint; lia|done].
  - rewrite Hd', Hd in H. cbn [of_option obind] in H. injection H as H _. by eapply Hok.
Qed.

Lemma EvaluateToken_dictionary_ok ev d t a ok ev' a' :
  dictionary_ ev = Some d -> dictionary_ok w d -> EvaluateToken w ev t a = Ok (ok, ev', a') ->
  exists d', dictionary_ ev' = Some d' /\ dictionary_ok w d'.
Proof.
  intros Hd Hok. destruct (binary_operation t) as [operation|] eqn:Eop.
  { pose proof (binary_operation_token _ _ Eop) as ->. rewrite EvaluateToken_binary.
    destruct (PopValues_pops ev d Hd) as (r & ev1 & -> & Hp & _). cbn [obind].
    destruct r as [[v1 v2]|]; [|intros [= _ <- _]; exists d; split; [congruence|done]].
    intros (v & _ & [= _ <- _])%obind_Ok. exists d. split; [cbn; congruence|done]. }
  destruct (decide (t = str "^")) as [->|Hder].
  { rewrite EvaluateToken_dereference. destruct (memory_ ev) as [m|]; [|intros [= _ <- _]; by exists d].
    destruct (PopValue_pops ev d Hd) as (r & ev1 & -> & Hp & _). cbn [obind].
    destruct r as [address|]; [destruct (m address)|]; intros [= _ <- _]; exists d; (split; [cbn; congruence|done]). }
  destruct (decide (t = str "=")) as [->|Hasg].
  { rewrite EvaluateToken_assign. destruct (PopValue_pops ev d Hd) as (r & ev1 & E & Hp & _). rewrite E. cbn [obind].
    destruct r as [v|]; [|intros [= _ <- _]; exists d; split; [congruence|done]].
    pose proof (PopValue_uint ev ev1 d v Hd Hok E) as Hv. intros ((r & ev2) & E2 & H)%obind_Ok.
    pose proof (PopValueOrIdentifier_pops ev1 false) as Hp2. rewrite E2 in Hp2. destruct Hp2 as (Hd2 & _).
    destruct r as [| |x]; [by injection H as _ <- _; exists d; split; [congruence|done]..|].
    destruct (_ || _); [by injection H as _ <- _; exists d; split; [congruence|done]|].
    rewrite Hd2, Hp, Hd in H. cbn [of_option obind] in H. injection H as _ <- _.
    eexists. split; [reflexivity|]. intros y z. rewrite lookup_insert. case_decide; [by intros [= <-]|apply Hok]. }
  unfold EvaluateToken. rewrite Eop, !decide_False by done. intros [= _ <- _]. by exists d.
Qed.

Lemma run_tokens_dictionary_ok ts : forall ev d a ok ev' a',
  dictionary_ ev = Some d -> dictionary_ok w d -> run_tokens ev ts a = Ok (ok, ev', a') ->
  exists d', dictionary_ ev' = Some d' /\ dictionary_ok w d'.
Proof.
  induction ts as [|t ts IH]; intros ev d a ok ev' a' Hd Hok; cbn [run_tokens].
  { intros [= _ <- _]. by exists d. }
  intros (((ok1 & ev1) & a1) & E & H)%obind_Ok.
  destruct (EvaluateToken_dictionary_ok _ _ _ _ _ _ _ Hd Hok E) as (d1 & Hd1 & Hok1).
  destruct ok1; [by eapply IH|]. injection H as _ <- _. by exists d1.
Qed.

Lemma EvaluateForValue_uint ev d s v ev' :
  dictionary_ ev = Some d -> dictionary_ok w d -> EvaluateForValue w ev s = Ok (Some v, ev') -> uint w v.
Proof.
  intros Hd Hok. unfold EvaluateForValue, EvaluateInternal.
  rewrite (EvaluateInternal_reads s _ (reads_tokens isspace s)) by lia.
  intros (((ok & ev1) & a) & E & H)%obind_Ok.
  destruct (run_tokens_dictionary_ok _ _ _ _ _ _ _ Hd Hok E) as (d1 & Hd1 & Hok1).
  apply obind_Ok in H as ((r & ev2) & E2 & H). injection H as -> _.
  destruct (_ && _); [|done]. by eapply PopValue_uint.
Qed.
End evaluator_proofs.

Lemma split_equals_other t : head t <> Some 61 -> split_equals t = [t].
Proof.
  destruct t as [|c [|c' t]]; intros H; [done..|]. unfold split_equals.
  by rewrite (proj2 (Z.eqb_neq c 61)) by (intros ->; by apply H).
Qed.

(** ** Properties *)

Lemma EvaluateForValue_spec w ev d e s ts :
  0 < w <= 64 -> dictionary_ ev = Some d -> dictionary_ok w d -> memory_ok w (memory_ ev) ->
  expr_ok w d e -> reads isspace s ts -> tokens_of ts = postfix e ->
  EvaluateForValue w (with_stack ev []) s =
    (let? result := denote w d (memory_ ev) e in Ok (result, with_stack ev [])).
Proof.
  intros Hw Hdict Hd Hm Hok Hr Hts. unfold EvaluateForValue, EvaluateInternal.
  rewrite (EvaluateInternal_reads w s ts Hr), Hts, <- (app_nil_r (postfix e)) by lia.
  pose proof (expr_runs w Hw ev d Hdict Hd Hm e Hok [] [] None) as H.
  destruct (denote w d (memory_ ev) e) as [[v|]|]; cbn [obind].
  - destruct H as (text & Hres & ->). cbn [run_tokens obind stack_ with_stack length Nat.eqb andb].
    rewrite Hres by done. done.
  - by destruct H as (S' & ->).
  - by rewrite H.
Qed.

(** C31: an expression text whose tokens are the postfix form of an arithmetic
    expression (an equals sign may be glued to the token after it) evaluates to
    the value of the expression: [EvaluateForValue] always returns, with the
    value when it is defined and [false] when a dereference fails, and leaves
    the dictionary as it was; its execution is undefined exactly when the
    expression divides by zero.  The value is that of [denote], which gives
    the operations their meaning on integers ([meaning]) and knows nothing of
    the code: sums, differences and products modulo [2 ^ w], rounded
    quotients, remainders, alignment.  In the code the values pass through the
    stack as decimal text.  Every variable of the expression has a value in the
    dictionary, and literals, dictionary and memory hold values of the
    width. *)
Theorem EvaluateForValue_functional w ev d e s ts :
  0 < w <= 64 -> dictionary_ ev = Some d -> dictionary_ok w d -> memory_ok w (memory_ ev) ->
  expr_ok w d e -> reads isspace s ts -> tokens_of ts = postfix e ->
  EvaluateForValue w (with_stack ev []) s =
    (let? result := denote w d (memory_ ev) e in Ok (result, with_stack ev [])).
Proof. apply EvaluateForValue_spec. Qed.
Lemma EvaluateForValue_functional_witness :
  let ev := mkEvaluator (Some {[ str "$ebp" := 4294967292 ]}) (Some (fun a => Some (a mod 100))) [] in
  EvaluateForValue 32 (with_stack ev []) (str "$ebp 12 + ^ -3 *") = Ok (Some 4294967272, ev).
Proof.
  intros ev.
  refine (EvaluateForValue_functional 32 ev {[ str "$ebp" := 4294967292 ]}
    (Binary BINARY_OP_MULTIPLY
      (Dereference (Binary BINARY_OP_ADD (Variable_ (str "$ebp")) (Literal false 12))) (Literal true 3))
    (str "$ebp 12 + ^ -3 *") (tokens isspace (str "$ebp 12 + ^ -3 *")) _ eq_refl _ _ _ (reads_tokens isspace _) _).
  - lia.
  - intros x v [<- <-]%lookup_singleton_Some. unfold uint. lia.
  - intros m a v [= <-] [= <-]. unfold uint. pose proof (Z.mod_pos_bound a 100). lia.
  - repeat split; [by eexists _, _ | by eexists | unfold uint; lia..].
  - vm_compute. reflexivity.
Defined.

(** C32: a text whose tokens are assignments of arithmetic expressions to [$]
    variables runs as a program: [Evaluate] assigns the values in turn, later
    expressions see the earlier assignments, each variable assigned is [true]
    in [*assigned], a failed dereference stops it with [false] and the
    assignments before it, and the stack is empty afterwards; it is undefined
    exactly when an expression that is reached divides by zero.  The values are
    those of [denote], and the program of assignments is run by [execute], which
    knows no tokens and no stack.  Every variable of an expression has a value
    when it is reached, and literals, dictionary and memory hold values of the
    width ([program_ok]). *)
Theorem Evaluate_functional w ev d prog s ts assigned :
  0 < w <= 64 -> dictionary_ ev = Some d -> dictionary_ok w d -> memory_ok w (memory_ ev) ->
  program_ok w d (memory_ ev) prog -> reads isspace s ts -> tokens_of ts = postfix_program prog ->
  Evaluate w (with_stack ev []) s assigned =
    (let? (ok, d', assigned') := execute w d (memory_ ev) prog assigned in
     Ok (ok, with_stack (with_dictionary ev d') [], assigned')).
Proof.
  intros Hw Hdict Hd Hm Hok Hr Hts. unfold Evaluate, EvaluateInternal.
  rewrite (EvaluateInternal_reads w s ts Hr), Hts by lia.
  pose proof (execute_runs w Hw prog ev d assigned Hdict Hd Hm Hok) as H.
  destruct (execute w d (memory_ ev) prog assigned) as [[[ok d'] a']|]; cbn [obind].
  - destruct H as (S' & -> & HS). cbn [obind stack_ with_stack].
    destruct ok; [|done]. by rewrite HS.
  - by rewrite H.
Qed.
Lemma Evaluate_functional_witness :
  let ev := mkEvaluator (Some {[ str "$ebp" := 100 ]}) (Some (fun a => Some (a mod 7))) [] in
  exists a d, Evaluate 32 (with_stack ev []) (str "$T0 $ebp 4 + =$eip $T0 ^ =") (Some a) =
    Ok (true, with_stack (with_dictionary ev d) [], Some (<[str "$eip" := true]> (<[str "$T0" := true]> a))) /\
    d !! str "$eip" = Some 6.
Proof.
  exists empty, (<[str "$eip" := 6]> (<[str "$T0" := 104]> {[ str "$ebp" := 100 ]})).
  split; [|vm_compute; reflexivity].
  set (ev := mkEvaluator _ _ _).
  refine (Evaluate_functional 32 ev {[ str "$ebp" := 100 ]}
    [(str "$T0", Binary BINARY_OP_ADD (Variable_ (str "$ebp")) (Literal false 4));
     (str "$eip", Dereference (Variable_ (str "$T0")))]
    (str "$T0 $ebp 4 + =$eip $T0 ^ =") (tokens isspace (str "$T0 $ebp 4 + =$eip $T0 ^ ="))
    (Some empty) _ eq_refl _ _ _ (reads_tokens isspace _) _).
  - lia.
  - intros x v [<- <-]%lookup_singleton_Some. unfold uint. lia.
  - intros m a v [= <-] [= <-]. unfold uint. pose proof (Z.mod_pos_bound a 7). lia.
  - split; [by eexists|]. split; [repeat split; [by eexists _, _|by eexists|unfold uint; lia..]|].
    intros v [= <-]. split; [by eexists|]. split; [|done].
    split; [by eexists _, _|]. by eexists.
  - vm_compute. reflexivity.
Defined.

(** C33: whatever the text, [Evaluate] returns, with the dictionary changed only
    at names that start with [$], every variable it changed recorded in
    [*assigned], the memory as it was and an empty stack -- unless, exactly, one
    of the tokens of the text goes wrong after the tokens before it succeeded:
    it divides a value by zero ([/] or [%] with an entry of value zero on top of
    an entry with a value) or assigns a value to a negative literal, which
    [PopValueOrIdentifier] negates through a NULL pointer ([goes_wrong]; the
    literals and values of stack entries are [entry_literal] and
    [entry_value]). *)
Theorem Evaluate_safe w ev d s ts a :
  0 < w <= 64 -> dictionary_ ev = Some d -> reads isspace s ts ->
  (Evaluate w ev s a = Undef <->
   exists before t after ev' d' a', tokens_of ts = before ++ t :: after /\
     run_tokens w ev before a = Ok (true, ev', a') /\ dictionary_ ev' = Some d' /\
     goes_wrong w d' (stack_ ev') t) /\
  (forall ok ev' a', Evaluate w ev s a = Ok (ok, ev', a') ->
     exists d', ev' = mkEvaluator (Some d') (memory_ ev) [] /\ only_assigns d d' a a').
Proof.
  intros Hw Hd Hr. pose proof (run_tokens_safe w Hw (tokens_of ts) ev d a Hd) as H.
  pose proof (run_tokens_undef w Hw (tokens_of ts) ev d a Hd) as Hundef.
  unfold Evaluate, EvaluateInternal. rewrite !(EvaluateInternal_reads w s ts Hr) by lia.
  destruct (run_tokens w ev (tokens_of ts) a) as [[[ok ev'] a']|]; cbn [obind].
  - split; [split; [done|intros Hgo; by apply Hundef in Hgo]|].
    intros ok' ev'' a'' [= _ <- <-]. destruct H as (d' & Hd' & Hm & Ha & _). exists d'. split; [|done].
    unfold with_stack. by rewrite Hd', Hm.
  - split; [|done]. split; [intros _; by apply Hundef|done].
Qed.
Lemma Evaluate_safe_witness :
  let ev := mkEvaluator (Some {[ str "$a" := 7 ]}) None [] in
  Evaluate 64 ev (str "$b -5 = -5 $b + 0 $a 7 - /") None = Undef.
Proof.
  intros ev.
  apply (Evaluate_safe 64 ev {[ str "$a" := 7 ]} (str "$b -5 = -5 $b + 0 $a 7 - /") _ None
    ltac:(lia) eq_refl (reads_tokens isspace _)).
  exists (map str ["$b"; "-5"; "="; "-5"; "$b"; "+"; "0"; "$a"; "7"; "-"]%string), (str "/"), [],
    (mkEvaluator (Some {[ str "$b" := 2 ^ 64 - 5; str "$a" := 7 ]}) None [str "0"; str "0"; print_value (2 ^ 64 - 10)]),
    {[ str "$b" := 2 ^ 64 - 5; str "$a" := 7 ]}, None.
  split; [vm_compute; reflexivity|]. split; [vm_compute; reflexivity|]. split; [reflexivity|].
  left. split; [by left|]. eexists _, _, _. split; [reflexivity|]. split; [vm_compute; reflexivity|]. by eexists.
Defined.

(** An assignment to a negative literal; a negative operand and a negative value
    assigned go through. *)
Example negative_literals :
  let ev := mkEvaluator (Some empty) None [] in
  Evaluate 32 ev (str "-5 3 =") None = Undef /\
  EvaluateForValue 32 ev (str "-5 4 +") = Ok (Some (2 ^ 32 - 1), ev) /\
  Evaluate 32 ev (str "$a -5 =") None = Ok (true, mkEvaluator (Some {[ str "$a" := 2 ^ 32 - 5 ]}) None [], None).
Proof. vm_compute. done. Qed.
