(* ===== verification/CfiFrameInfo.v ===== *)
(** * CFI frame info (processor/cfi_frame_info.h, .cc, cfi_frame_info-inl.h)

    The rules of STACK CFI records: their parser with its handler interface,
    their printer, the recovery of the caller's registers by evaluating them,
    and the walker that copies registers between raw contexts. *)

From stdpp Require Import gmap.
From S2P Require Import Prelude LibcSupport OrderedMap Tokens PostfixEvaluator.
#[local] Open Scope Z_scope.

(** [class CFIFrameInfo]; [RuleMap] is a [std::map]. *)
Record CFIFrameInfo : Type := mkCFIFrameInfo {
  cfa_rule_ : chars;
  ra_rule_ : chars;
  register_rules_ : list (chars * chars);
}.

Definition empty_info : CFIFrameInfo := mkCFIFrameInfo [] [] [].

Definition SetCFARule (info : CFIFrameInfo) (expression : chars) : CFIFrameInfo :=
  mkCFIFrameInfo expression (ra_rule_ info) (register_rules_ info).

Definition SetRARule (info : CFIFrameInfo) (expression : chars) : CFIFrameInfo :=
  mkCFIFrameInfo (cfa_rule_ info) expression (register_rules_ info).

Definition SetRegisterRule (info : CFIFrameInfo) (name expression : chars) : CFIFrameInfo :=
  mkCFIFrameInfo (cfa_rule_ info) (ra_rule_ info) (assign (register_rules_ info) name expression).

(** [string::empty] *)
Definition empty_string (s : chars) : bool := (length s =? 0)%nat.

(** ** Recovering the caller's registers *)

Section registers.
Context (w : Z).

(** The loop over the register rules. *)
Fixpoint evaluate_rules (evaluator : PostfixEvaluator) (registers : dictionary) (cfa : Z)
    (rules : list (chars * chars)) (caller_registers : dictionary) : outcome (bool * dictionary) :=
  match rules with
  | [] => Ok (true, caller_registers)
  | (name, rule) :: rules =>
      let working := <[str ".cfa" := cfa]> registers in
      let? (value, evaluator) := EvaluateForValue w (with_dictionary evaluator working) rule in
      match value with
      | None => Ok (false, caller_registers)
      | Some value => evaluate_rules evaluator registers cfa rules (<[name := value]> caller_registers)
      end
  end.

(** The result and [*caller_registers]. *)
Definition FindCallerRegs (info : CFIFrameInfo) (registers : dictionary) (memory : memory_region)
    (caller_registers : dictionary) : outcome (bool * dictionary) :=
  if empty_string (cfa_rule_ info) || empty_string (ra_rule_ info) then Ok (false, caller_registers)
  else
    let evaluator := mkEvaluator (Some ∅) (Some memory) [] in
    let caller_registers := ∅ in
    let working := registers in
    let? (cfa, evaluator) := EvaluateForValue w (with_dictionary evaluator working) (cfa_rule_ info) in
    match cfa with
    | None => Ok (false, caller_registers)
    | Some cfa =>
        let working := <[str ".cfa" := cfa]> registers in
        let? (ra, evaluator) := EvaluateForValue w (with_dictionary evaluator working) (ra_rule_ info) in
        match ra with
        | None => Ok (false, caller_registers)
        | Some ra =>
            let? (ok, caller_registers) :=
              evaluate_rules evaluator registers cfa (register_rules_ info) caller_registers in
            if ok : bool then
              Ok (true, <[str ".cfa" := cfa]> (<[str ".ra" := ra]> caller_registers))
            else Ok (false, caller_registers)
        end
    end.

(** ** SimpleCFIWalker *)

Section walker.
(** The members of [RawContextType] that hold registers. *)
Context {M : Type} `{EqDecision M}.

Record RegisterSet : Type := mkRegisterSet {
  name : chars;
  alternate_name : option chars;
  callee_saves : bool;
  validity_flag : Z;
  context_member : M;
}.

Abbreviation context := (M -> Z).

Definition set_member (c : context) (m : M) (v : Z) : context :=
  fun m' => if decide (m' = m) then v else c m'.

(** What [memset(.., 0xda, ..)] leaves in a member. *)
Definition filled : Z := le_val (replicate (Z.to_nat (w / 8)) 0xda).

Fixpoint callee_values (register_map : list RegisterSet) (callee_context : context)
    (callee_validity : Z) (callee_registers : dictionary) : dictionary :=
  match register_map with
  | [] => callee_registers
  | r :: register_map =>
      callee_values register_map callee_context callee_validity
        (if negb (Z.land callee_validity (validity_flag r) =? 0)
         then <[name r := callee_context (context_member r)]> callee_registers
         else callee_registers)
  end.

(** The value of one register in the caller. *)
Definition caller_value (r : RegisterSet) (caller_registers : dictionary) (callee_context : context)
    (callee_validity : Z) : option Z :=
  match caller_registers !! name r with
  | Some v => Some v
  | None =>
      match (match alternate_name r with
             | Some alternate => caller_registers !! alternate
             | None => None
             end) with
      | Some v => Some v
      | None =>
          if callee_saves r && negb (Z.land callee_validity (validity_flag r) =? 0)
          then Some (callee_context (context_member r))
          else None
      end
  end.

Fixpoint populate_caller (register_map : list RegisterSet) (caller_registers : dictionary)
    (callee_context : context) (callee_validity : Z) (caller_context : context)
    (caller_validity : Z) : context * Z :=
  match register_map with
  | [] => (caller_context, caller_validity)
  | r :: register_map =>
      let '(caller_context, caller_validity) :=
        match caller_value r caller_registers callee_context callee_validity with
        | Some v => (set_member caller_context (context_member r) v,
                     Z.lor caller_validity (validity_flag r))
        | None => (caller_context, caller_validity)
        end in
      populate_caller register_map caller_registers callee_context callee_validity
        caller_context caller_validity
  end.

(** The result, [*caller_context] and [*caller_validity]. *)
Definition FindCallerRegisters (register_map : list RegisterSet) (memory : memory_region)
    (cfi_frame_info : CFIFrameInfo) (callee_context : context) (callee_validity : Z)
    (caller_context : context) (caller_validity : Z) : outcome (bool * context * Z) :=
  let callee_registers := callee_values register_map callee_context callee_validity ∅ in
  let? (ok, caller_registers) := FindCallerRegs cfi_frame_info callee_registers memory ∅ in
  if negb ok then Ok (false, caller_context, caller_validity)
  else
    let '(caller_context, caller_validity) :=
      populate_caller register_map caller_registers callee_context callee_validity
        (fun _ => filled) 0 in
    Ok (true, caller_context, caller_validity).
End walker.
End registers.

(** ** Printing and parsing *)

(** [stream.tellp() != 0] puts a space before a rule that is not the first. *)
Definition put_rule (stream : chars) (name rule : chars) : chars :=
  stream ++ (if empty_string stream then [] else str " ") ++ name ++ str ": " ++ rule.

Definition Serialize (info : CFIFrameInfo) : chars :=
  let stream := [] in
  let stream :=
    if empty_string (cfa_rule_ info) then stream else stream ++ str ".cfa: " ++ cfa_rule_ info in
  let stream :=
    if empty_string (ra_rule_ info) then stream else put_rule stream (str ".ra") (ra_rule_ info) in
  fold_left (fun stream p => put_rule stream p.1 p.2) (register_rules_ info) stream.

(** The virtual functions of [CFIRuleParser::Handler], on the state [S]. *)
Class Handler (S : Type) := {
  CFARule : S -> chars -> S;
  RARule : S -> chars -> S;
  RegisterRule : S -> chars -> chars -> S;
}.

(** [CFIFrameInfoParseHandler] *)
#[export] Instance CFIFrameInfoParseHandler : Handler CFIFrameInfo := {
  CFARule := SetCFARule;
  RARule := SetRARule;
  RegisterRule := SetRegisterRule;
}.

(** [strtok_r] on a copy of the text, which ends at its first NUL. *)
Definition token_breaks (c : Z) : bool := existsb (Z.eqb c) (str " " ++ [9; 13; 10]).
Definition strtok (s : chars) : option (chars * chars) := next_token token_breaks s.
Definition c_string (s : chars) : chars := take (prefix_len (fun c => negb (c =? 0)) s) s.

Section parser.
Context {S : Type} `{Handler S}.

(** The result and the handler. *)
Definition Report (name_ expression_ : chars) (handler_ : S) : bool * S :=
  if empty_string name_ || empty_string expression_ then (false, handler_)
  else if decide (name_ = str ".cfa") then (true, CFARule handler_ expression_)
  else if decide (name_ = str ".ra") then (true, RARule handler_ expression_)
  else (true, RegisterRule handler_ name_ expression_).

(** Every round consumes a token. *)
Fixpoint Parse_loop (fuel : nat) (cursor name_ expression_ : chars) (handler_ : S) :
    outcome (bool * S) :=
  match fuel with
  | O => Undef
  | Datatypes.S fuel =>
      match strtok cursor with
      | None => Ok (Report name_ expression_ handler_)
      | Some (token, cursor) =>
          let token_len := length token in
          if (1 <=? token_len)%nat && (nth (token_len - 1) token 0 =? 58) then
            if (token_len <? 2)%nat then Ok (false, handler_)
            else
              let (ok, handler_) :=
                if negb (empty_string name_) || negb (empty_string expression_)
                then Report name_ expression_ handler_
                else (true, handler_) in
              if ok then Parse_loop fuel cursor (take (token_len - 1) token) [] handler_
              else Ok (false, handler_)
          else
            let expression_ := if empty_string expression_ then expression_ else expression_ ++ str " " in
            Parse_loop fuel cursor name_ (expression_ ++ token) handler_
      end
  end.

Definition Parse (rule_set : chars) (handler_ : S) : outcome (bool * S) :=
  Parse_loop (Datatypes.S (length rule_set)) (c_string rule_set) [] [] handler_.
End parser.

(** ** What the rules recover *)

(** The text is the postfix form of an arithmetic expression. *)
Definition rule_is (s : chars) (e : expr) : Prop :=
  exists ts, reads isspace s ts /\ tokens_of ts = postfix e.

Abbreviation rule_exprs := (list (chars * expr)).

(** The registers the rules give values, all in the same environment. *)
Fixpoint recover_registers (w : Z) (env : dictionary) (memory : memory_region) (rules : rule_exprs)
    (acc : dictionary) : outcome (option dictionary) :=
  match rules with
  | [] => Ok (Some acc)
  | (x, e) :: rules =>
      let? v := denote w env (Some memory) e in
      match v with
      | None => Ok None
      | Some v => recover_registers w env memory rules (<[x := v]> acc)
      end
  end.

(** The call frame address from the callee's registers, then the return
    address and the registers from them and the call frame address. *)
Definition recover (w : Z) (registers : dictionary) (memory : memory_region) (cfa_e ra_e : expr)
    (rules : rule_exprs) : outcome (option dictionary) :=
  let? cfa := denote w registers (Some memory) cfa_e in
  match cfa with
  | None => Ok None
  | Some cfa =>
      let env := <[str ".cfa" := cfa]> registers in
      let? ra := denote w env (Some memory) ra_e in
      match ra with
      | None => Ok None
      | Some ra =>
          let? caller := recover_registers w env memory rules ∅ in
          Ok ((fun caller => <[str ".cfa" := cfa]> (<[str ".ra" := ra]> caller)) <$> caller)
      end
  end.

Lemma postfix_not_nil e : postfix e <> [].
Proof.
  destruct e as [| |operation e1 e2|e]; cbn [postfix]; [done..| |].
  - by intros [_ [_ ?]%app_nil]%app_nil.
  - by intros [_ ?]%app_nil.
Qed.

Lemma rule_not_empty s e : rule_is s e -> empty_string s = false.
Proof.
  intros (ts & Hr & Ht). unfold empty_string. destruct s as [|c s]; [|done].
  remember [] as s eqn:Es in Hr. destruct Hr as [|sp t rest ts' _ Hne].
  - destruct (postfix_not_nil e). by rewrite <- Ht.
  - by apply app_nil in Es as [_ [? _]%app_nil].
Qed.

Section recover_proofs.
Context (w : Z) (memory : memory_region) (Hw : 0 < w <= 64) (Hm : memory_ok w (Some memory)).

Lemma evaluate_rule ev env s e :
  memory_ ev = Some memory -> stack_ ev = [] -> dictionary_ok w env -> expr_ok w env e -> rule_is s e ->
  EvaluateForValue w (with_dictionary ev env) s =
    (let? v := denote w env (Some memory) e in Ok (v, with_dictionary ev env)).
Proof.
  intros Hmem Hst Henv He (ts & Hr & Ht).
  pose proof (EvaluateForValue_spec w (with_dictionary ev env) env e s ts Hw eq_refl Henv) as H.
  unfold with_dictionary, with_stack in *. cbn in *. rewrite Hmem, Hst in *. by apply H.
Qed.

(** A text and the expression it is, for the same register. *)
Definition same_rule (env : dictionary) (p : chars * chars) (q : chars * expr) : Prop :=
  p.1 = q.1 /\ rule_is p.2 q.2 /\ expr_ok w env q.2.

Lemma evaluate_rules_spec cfa registers rules exprs : forall ev acc,
  memory_ ev = Some memory -> stack_ ev = [] ->
  dictionary_ok w (<[str ".cfa" := cfa]> registers) ->
  Forall2 (same_rule (<[str ".cfa" := cfa]> registers)) rules exprs ->
  match recover_registers w (<[str ".cfa" := cfa]> registers) memory exprs acc with
  | Ok (Some caller) => evaluate_rules w ev registers cfa rules acc = Ok (true, caller)
  | Ok None => exists caller, evaluate_rules w ev registers cfa rules acc = Ok (false, caller)
  | Undef => evaluate_rules w ev registers cfa rules acc = Undef
  end.
Proof.
  intros ev acc Hmem Hst Henv HF. revert ev acc Hmem Hst.
  induction HF as [|[x s] [y e] rules exprs (Heq & Hs & He) HF IH]; intros ev acc Hmem Hst;
    cbn [recover_registers evaluate_rules]; [done|]. cbn in Heq, Hs, He. subst y.
  rewrite (evaluate_rule ev _ s e) by done.
  destruct (denote w _ (Some memory) e) as [[v|]|]; cbn [obind]; [|eauto|done].
  apply (IH (with_dictionary ev _)); done.
Qed.
End recover_proofs.

Lemma FindCallerRegs_spec w info registers memory caller0 cfa_e ra_e rules :
  0 < w <= 64 -> dictionary_ok w registers -> memory_ok w (Some memory) ->
  rule_is (cfa_rule_ info) cfa_e -> expr_ok w registers cfa_e -> rule_is (ra_rule_ info) ra_e ->
  (forall cfa, denote w registers (Some memory) cfa_e = Ok (Some cfa) ->
     expr_ok w (<[str ".cfa" := cfa]> registers) ra_e /\
     Forall2 (same_rule w (<[str ".cfa" := cfa]> registers)) (register_rules_ info) rules) ->
  match recover w registers memory cfa_e ra_e rules with
  | Ok (Some caller) => FindCallerRegs w info registers memory caller0 = Ok (true, caller)
  | Ok None => exists caller, FindCallerRegs w info registers memory caller0 = Ok (false, caller)
  | Undef => FindCallerRegs w info registers memory caller0 = Undef
  end /\
  FindCallerRegs w (SetCFARule info []) registers memory caller0 = Ok (false, caller0) /\
  FindCallerRegs w (SetRARule info []) registers memory caller0 = Ok (false, caller0).
Proof.
  intros Hw Hd Hm Hcfa Hcfa_ok Hra Hrest. split.
  2: { split; [done|]. unfold FindCallerRegs. cbn [SetRARule ra_rule_]. by rewrite orb_true_r. }
  unfold FindCallerRegs, recover. rewrite (rule_not_empty _ _ Hcfa), (rule_not_empty _ _ Hra). cbn [orb].
  rewrite (evaluate_rule w memory Hw Hm _ registers _ cfa_e) by done.
  destruct (denote w registers (Some memory) cfa_e) as [[cfa|]|] eqn:Ecfa; cbn [obind]; [|eauto|done].
  destruct (Hrest cfa eq_refl) as [Hra_ok Hrules].
  assert (Henv : dictionary_ok w (<[str ".cfa" := cfa]> registers)).
  { intros x v. destruct (decide (x = str ".cfa")) as [->|Hne].
    - rewrite lookup_insert_eq. intros [= <-]. exact (denote_uint w Hw registers (Some memory) cfa_e cfa Hd Hm Hcfa_ok Ecfa).
    - rewrite lookup_insert_ne by done. apply Hd. }
  rewrite (evaluate_rule w memory Hw Hm _ _ _ ra_e) by done.
  destruct (denote w (<[str ".cfa" := cfa]> registers) (Some memory) ra_e) as [[ra|]|]; cbn [obind]; [|eauto|done].
  pose proof (evaluate_rules_spec w memory Hw Hm cfa registers (register_rules_ info) rules
    (with_dictionary (with_dictionary (mkEvaluator (Some ∅) (Some memory) []) registers)
       (<[str ".cfa" := cfa]> registers)) ∅ eq_refl eq_refl Henv Hrules) as H.
  destruct (recover_registers _ _ _ _ _) as [[caller|]|]; cbn [obind fmap option_map option_fmap] in *.
  - by rewrite H.
  - destruct H as (caller & ->). eauto.
  - by rewrite H.
Qed.

(** When the rules of a [CFIFrameInfo] are the postfix forms of arithmetic
    expressions over the registers and [.cfa], [FindCallerRegs] computes what
    they say: the call frame address from the callee's registers, then the
    return address and every register from those and the call frame address,
    independently of each other; it returns [false] when a dereference fails
    or there is no rule for [.cfa] or for [.ra]. *)
Theorem FindCallerRegs_functional w info registers memory caller0 cfa_e ra_e rules :
  0 < w <= 64 -> dictionary_ok w registers -> memory_ok w (Some memory) ->
  rule_is (cfa_rule_ info) cfa_e -> expr_ok w registers cfa_e -> rule_is (ra_rule_ info) ra_e ->
  (forall cfa, denote w registers (Some memory) cfa_e = Ok (Some cfa) ->
     expr_ok w (<[str ".cfa" := cfa]> registers) ra_e /\
     Forall2 (same_rule w (<[str ".cfa" := cfa]> registers)) (register_rules_ info) rules) ->
  match recover w registers memory cfa_e ra_e rules with
  | Ok (Some caller) => FindCallerRegs w info registers memory caller0 = Ok (true, caller)
  | Ok None => exists caller, FindCallerRegs w info registers memory caller0 = Ok (false, caller)
  | Undef => FindCallerRegs w info registers memory caller0 = Undef
  end /\
  FindCallerRegs w (SetCFARule info []) registers memory caller0 = Ok (false, caller0) /\
  FindCallerRegs w (SetRARule info []) registers memory caller0 = Ok (false, caller0).
Proof. apply FindCallerRegs_spec. Qed.

Lemma FindCallerRegs_functional_witness :
  let info := mkCFIFrameInfo (str "$esp 8 +") (str ".cfa 4 - ^") [(str "$ebp", str "$ebp 1 +")] in
  FindCallerRegs 32 info (<[str "$esp" := 40]> {[ str "$ebp" := 7 ]}) (fun a => Some (a mod 50)) ∅ =
    Ok (true, <[str ".cfa" := 48]> (<[str ".ra" := 44]> {[ str "$ebp" := 8 ]})).
Proof.
  intros info.
  assert (Hd : forall x v, (<[str "$esp" := 40]> {[ str "$ebp" := 7 ]} : dictionary) !! x = Some v -> uint 32 v).
  { intros x v [[_ <-]|[_ [_ <-]%lookup_singleton_Some]]%lookup_insert_Some; unfold uint; lia. }
  refine (proj1 (FindCallerRegs_functional 32 info (<[str "$esp" := 40]> {[ str "$ebp" := 7 ]})
    (fun a => Some (a mod 50)) ∅
    (Binary BINARY_OP_ADD (Variable_ (str "$esp")) (Literal false 8))
    (Dereference (Binary BINARY_OP_SUBTRACT (Variable_ (str ".cfa")) (Literal false 4)))
    [(str "$ebp", Binary BINARY_OP_ADD (Variable_ (str "$ebp")) (Literal false 1))] _ Hd _ _ _ _ _)).
  - lia.
  - intros m a v [= <-] [= <-]. unfold uint. pose proof (Z.mod_pos_bound a 50). lia.
  - exists (tokens isspace (str "$esp 8 +")). split; [apply reads_tokens|reflexivity].
  - repeat split; [by eexists _, _|by eexists|unfold uint; lia..].
  - exists (tokens isspace (str ".cfa 4 - ^")). split; [apply reads_tokens|reflexivity].
  - intros cfa [= <-]. split; [repeat split; [by eexists _, _|by eexists|unfold uint; lia..]|].
    repeat constructor; [|by eexists _, _|by eexists|unfold uint; lia..].
    exists (tokens isspace (str "$ebp 1 +")). split; [apply reads_tokens|reflexivity].
Defined.

(** ** Printed rules *)

Fixpoint join (ts : list chars) : chars :=
  match ts with
  | [] => []
  | [t] => t
  | t :: ts => t ++ str " " ++ join ts
  end.

Definition plain_char (c : Z) : Prop := token_breaks c = false /\ c <> 0.

(** A token of an expression. *)
Definition word (t : chars) : Prop := t <> [] /\ Forall plain_char t.
Definition component (t : chars) : Prop := word t /\ last t <> Some 58.

(** A normalized expression: components with single spaces between them. *)
Definition expression (s : chars) : Prop :=
  exists ts, s = join ts /\ ts <> [] /\ Forall component ts.

Definition reserved (n : chars) : Prop := n = str ".cfa" \/ n = str ".ra".

(** A rule set that a text can say. *)
Definition info_ok (info : CFIFrameInfo) : Prop :=
  (cfa_rule_ info = [] \/ expression (cfa_rule_ info)) /\
  (ra_rule_ info = [] \/ expression (ra_rule_ info)) /\
  sorted (register_rules_ info) /\
  Forall (fun p => word p.1 /\ ~ reserved p.1 /\ expression p.2) (register_rules_ info) /\
  info <> empty_info.

(** The rules in the order they are printed. *)
Definition entries (info : CFIFrameInfo) : list (chars * chars) :=
  (if empty_string (cfa_rule_ info) then [] else [(str ".cfa", cfa_rule_ info)]) ++
  (if empty_string (ra_rule_ info) then [] else [(str ".ra", ra_rule_ info)]) ++
  register_rules_ info.

Lemma Serialize_entries info :
  Serialize info = fold_left (fun stream p => put_rule stream p.1 p.2) (entries info) [].
Proof.
  unfold Serialize, entries. rewrite !fold_left_app.
  destruct (empty_string (cfa_rule_ info)), (empty_string (ra_rule_ info)); done.
Qed.

Lemma join_cons t ts : ts <> [] -> join (t :: ts) = t ++ str " " ++ join ts.
Proof. by destruct ts. Qed.

Lemma join_app ts1 ts2 : ts1 <> [] -> ts2 <> [] -> join (ts1 ++ ts2) = join ts1 ++ str " " ++ join ts2.
Proof.
  intros H1 H2. induction ts1 as [|t ts1 IH]; [done|]. destruct ts1 as [|t' ts1].
  - cbn [app]. by apply join_cons.
  - cbn [app] in *. rewrite (join_cons t (t' :: ts1)), join_cons, IH by done. by rewrite ?app_assoc.
Qed.

Lemma join_not_empty ts : ts <> [] -> Forall word ts -> empty_string (join ts) = false.
Proof.
  intros Hne Hts. destruct Hts as [|t ts [Ht _] Hts]; [done|]. destruct t as [|c t]; [done|].
  by destruct ts.
Qed.

Lemma join_reads_sep sep ts :
  sep 32 = true -> Forall (fun t => t <> [] /\ Forall (fun c => sep c = false) t) ts -> reads sep (join ts) ts.
Proof.
  intros Hsep. induction 1 as [|t ts [Hne Hb] Hts IH]; [by constructor|].
  destruct ts as [|t' ts].
  - rewrite <- (app_nil_r (join [t])). apply (reads_cons _ [] t []); [done..|].
    apply (reads_nil _ []). done.
  - rewrite join_cons by done. apply (reads_cons _ [] t); [done..|by intros c [= <-]|].
    (* the space belongs to the next token *)
    generalize dependent (join (t' :: ts)). intros j IH.
    inversion IH as [|sp t0 rest ts0 Hsp H0 H1 H2 H3 E]; subst.
    change (reads sep ((str " " ++ sp) ++ t' ++ rest) (t' :: ts)).
    constructor; try done. by constructor.
Qed.

Lemma join_reads ts : Forall word ts -> reads token_breaks (join ts) ts.
Proof.
  intros Hts. apply join_reads_sep; [done|]. eapply Forall_impl; [exact Hts|]. intros t [Hne Ht]. split; [done|].
  eapply Forall_impl; [exact Ht|]. by intros c [? _].
Qed.

Lemma join_no_nul ts : Forall word ts -> Forall (fun c => negb (c =? 0) = true) (join ts).
Proof.
  induction 1 as [|t ts [_ Ht] Hts IH]; [done|].
  assert (Forall (fun c => negb (c =? 0) = true) t).
  { eapply Forall_impl; [exact Ht|]. intros c [_ Hc]. by rewrite (proj2 (Z.eqb_neq c 0)). }
  destruct ts as [|t' ts]; [done|]. rewrite join_cons by done.
  apply Forall_app. split; [done|]. apply Forall_app. split; [by repeat constructor|done].
Qed.

Lemma c_string_all s : Forall (fun c => negb (c =? 0) = true) s -> c_string s = s.
Proof.
  intros H. unfold c_string. rewrite <- (app_nil_r s) at 1. rewrite prefix_len_app by done.
  cbn [prefix_len]. by rewrite take_ge by lia.
Qed.

(** ** Parsing tokens *)

Section parse_proofs.
Context {S : Type} `{Handler S}.

Fixpoint parse_tokens (ts : list chars) (name_ expression_ : chars) (handler_ : S) : bool * S :=
  match ts with
  | [] => Report name_ expression_ handler_
  | token :: ts =>
      let token_len := length token in
      if (1 <=? token_len)%nat && (nth (token_len - 1) token 0 =? 58) then
        if (token_len <? 2)%nat then (false, handler_)
        else
          let (ok, handler_) :=
            if negb (empty_string name_) || negb (empty_string expression_)
            then Report name_ expression_ handler_
            else (true, handler_) in
          if ok then parse_tokens ts (take (token_len - 1) token) [] handler_ else (false, handler_)
      else
        let expression_ := if empty_string expression_ then expression_ else expression_ ++ str " " in
        parse_tokens ts name_ (expression_ ++ token) handler_
  end.

Lemma Parse_loop_reads s ts : reads token_breaks s ts -> forall fuel name_ expression_ handler_,
  (length s < fuel)%nat ->
  Parse_loop fuel s name_ expression_ handler_ = Ok (parse_tokens ts name_ expression_ handler_).
Proof.
  induction 1 as [sp Hsp|sp t rest ts Hsp Hne Ht Hrest Hr IH];
    intros [|fuel] name_ expression_ handler_ Hf; try lia; cbn [Parse_loop parse_tokens]; unfold strtok.
  - by rewrite next_token_end.
  - rewrite next_token_word by done.
    rewrite !length_app in Hf. assert (length t <> 0%nat) by (by destruct t).
    assert (forall n e h, Parse_loop fuel rest n e h = Ok (parse_tokens ts n e h)) as IH'
      by (intros; apply IH; lia).
    destruct ((1 <=? length t)%nat && _); [|apply IH'].
    destruct (length t <? 2)%nat; [done|].
    match goal with |- context [let (_, _) := ?x in _] => destruct x as [[] h'] end; [apply IH'|done].
Qed.

Lemma Parse_tokens s h :
  exists ts, reads token_breaks (c_string s) ts /\ Parse s h = Ok (parse_tokens ts [] [] h).
Proof.
  exists (tokens token_breaks (c_string s)). split; [apply reads_tokens|].
  unfold Parse. apply Parse_loop_reads; [apply reads_tokens|].
  unfold c_string. rewrite length_take. lia.
Qed.

Lemma join_snoc es t :
  Forall word es ->
  (if empty_string (join es) then join es else join es ++ str " ") ++ t = join (es ++ [t]).
Proof.
  intros Hes. destruct es as [|t' es]; [done|].
  rewrite join_not_empty, join_app by done. by rewrite <- app_assoc.
Qed.

(** The test for a colon at the end. *)
Lemma ends_with_colon t :
  (1 <=? length t)%nat && (nth (length t - 1) t 0 =? 58) = true <-> last t = Some 58.
Proof.
  destruct t as [|c t _] using rev_ind; [done|].
  rewrite last_snoc, length_app. cbn [length].
  replace (length t + 1 - 1)%nat with (length t) by lia.
  rewrite app_nth2, Nat.sub_diag by lia. cbn [nth].
  rewrite andb_true_iff, Z.eqb_eq, Nat.leb_le. split; [by intros [_ ->]|intros [= ->]; split; [lia|done]].
Qed.

(** Components extend the expression. *)
Lemma parse_components ts : forall rest name_ es h,
  Forall component ts -> Forall word es ->
  parse_tokens (ts ++ rest) name_ (join es) h = parse_tokens rest name_ (join (es ++ ts)) h.
Proof.
  induction ts as [|t ts IH]; intros rest name_ es h Hts Hes; [by rewrite app_nil_r|].
  apply Forall_cons in Hts as [[Ht Hlast] Hts]. cbn [app parse_tokens].
  destruct (_ && _) eqn:E; [by apply ends_with_colon in E|].
  rewrite join_snoc, IH by (try apply Forall_app; auto). by rewrite <- app_assoc.
Qed.

(** The tokens of a rule. *)
Definition rule_tokens (p : chars * list chars) : list chars := (p.1 ++ str ":") :: p.2.

Definition rule_ok (p : chars * list chars) : Prop := word p.1 /\ p.2 <> [] /\ Forall component p.2.

Lemma component_word ts : Forall component ts -> Forall word ts.
Proof. intros Hts. eapply Forall_impl; [exact Hts|]. by intros t [? _]. Qed.

(** The effect of a rule on the handler. *)
Definition handle (h : S) (p : chars * list chars) : S := (Report p.1 (join p.2) h).2.

Lemma Report_ok p h : rule_ok p -> Report p.1 (join p.2) h = (true, handle h p).
Proof.
  intros ([Hn _] & He & Hc). unfold handle, Report.
  rewrite (join_not_empty p.2) by (done || by apply component_word).
  destruct p.1 as [|c n]; [done|]. cbn [empty_string length Nat.eqb orb].
  by repeat destruct (decide _).
Qed.

Lemma parse_rule p rest name_ expression_ h :
  rule_ok p ->
  parse_tokens (rule_tokens p ++ rest) name_ expression_ h =
    (let (ok, h) :=
       if negb (empty_string name_) || negb (empty_string expression_)
       then Report name_ expression_ h else (true, h) in
     if ok then parse_tokens rest p.1 (join p.2) h else (false, h)).
Proof.
  intros ([Hne Hn] & He & Hc). unfold rule_tokens. cbn [app parse_tokens].
  change (str ":") with [58].
  destruct (_ && _) eqn:E.
  2: { assert (last (p.1 ++ [58]) = Some 58) as H58 by apply last_snoc.
       apply ends_with_colon in H58. congruence. }
  rewrite length_app. cbn [length].
  rewrite (proj2 (Nat.ltb_ge _ _)) by (destruct p.1; [done|cbn; lia]).
  replace (length p.1 + 1 - 1)%nat with (length p.1) by lia. rewrite take_app_length.
  match goal with |- context [let (_, _) := ?x in _] => destruct x as [[] h'] end; [|done].
  by apply (parse_components p.2 rest p.1 [] h').
Qed.

Lemma parse_rules ps : forall p h,
  rule_ok p -> Forall rule_ok ps ->
  parse_tokens (concat (map rule_tokens ps)) p.1 (join p.2) h = (true, fold_left handle ps (handle h p)).
Proof.
  induction ps as [|q ps IH]; intros p h Hp Hps; cbn [map concat fold_left].
  - by apply Report_ok.
  - apply Forall_cons in Hps as [Hq Hps]. rewrite parse_rule, Report_ok by done.
    destruct Hp as ([Hn _] & _). destruct p.1 as [|c n] eqn:En; [done|].
    cbn [empty_string length Nat.eqb negb orb]. by apply IH.
Qed.

Lemma parse_all p ps h :
  Forall rule_ok (p :: ps) ->
  parse_tokens (concat (map rule_tokens (p :: ps))) [] [] h = (true, fold_left handle (p :: ps) h).
Proof.
  intros [Hp Hps]%Forall_cons. cbn [map concat fold_left]. rewrite parse_rule by done. by apply parse_rules.
Qed.
End parse_proofs.

(** ** Serialize *)

Lemma word_colon n : word n -> word (n ++ str ":").
Proof.
  intros [Hne Hn]. split; [by destruct n|]. apply Forall_app. split; [done|].
  by apply Forall_cons.
Qed.

Lemma rule_tokens_words p : rule_ok p -> Forall word (rule_tokens p).
Proof.
  intros (Hn & _ & Hc). apply Forall_cons. split; [by apply word_colon|by apply component_word].
Qed.

Lemma put_rule_join ts p :
  Forall word ts -> rule_ok p -> put_rule (join ts) p.1 (join p.2) = join (ts ++ rule_tokens p).
Proof.
  intros Hts (Hn & Hne & Hc). unfold put_rule, rule_tokens.
  assert (p.1 ++ str ": " ++ join p.2 = join ((p.1 ++ str ":") :: p.2)) as ->.
  { rewrite join_cons by done. by rewrite <- app_assoc. }
  destruct ts as [|t ts]; [done|]. rewrite (join_not_empty (t :: ts)) by done.
  by rewrite (join_app (t :: ts)).
Qed.

Lemma put_rules_join ps : forall ts,
  Forall word ts -> Forall rule_ok ps ->
  fold_left (fun stream p => put_rule stream p.1 p.2) (map (fun p => (p.1, join p.2)) ps) (join ts) =
    join (ts ++ concat (map rule_tokens ps)).
Proof.
  induction ps as [|p ps IH]; intros ts Hts Hps; cbn [map concat fold_left fst snd]; [by rewrite app_nil_r|].
  apply Forall_cons in Hps as [Hp Hps]. rewrite put_rule_join, IH, <- app_assoc; [done| |done..].
  apply Forall_app. split; [done|by apply rule_tokens_words].
Qed.

(** The effect of a printed rule on a [CFIFrameInfo]. *)
Definition set_rule (info : CFIFrameInfo) (p : chars * chars) : CFIFrameInfo :=
  if decide (p.1 = str ".cfa") then SetCFARule info p.2
  else if decide (p.1 = str ".ra") then SetRARule info p.2
  else SetRegisterRule info p.1 p.2.

Lemma handle_set_rule info p : rule_ok p -> handle info p = set_rule info (p.1, join p.2).
Proof.
  intros Hp. pose proof (Report_ok p info Hp) as Hr. unfold handle, Report in *.
  destruct (empty_string p.1 || empty_string (join p.2)); [done|].
  unfold set_rule. cbn [fst snd]. by repeat destruct (decide _).
Qed.

Lemma fold_handle ps : forall info,
  Forall rule_ok ps ->
  fold_left handle ps info = fold_left set_rule (map (fun p => (p.1, join p.2)) ps) info.
Proof.
  induction ps as [|p ps IH]; intros info Hps; [done|]. apply Forall_cons in Hps as [Hp Hps].
  cbn [fold_left map]. by rewrite handle_set_rule, IH.
Qed.

Lemma assign_last (m : list (chars * chars)) k v : sorted (m ++ [(k, v)]) -> assign m k v = m ++ [(k, v)].
Proof.
  intros Hs. apply sorted_app in Hs as (Hlt & Hm & _).
  assert (Hall : Forall (fun p => key_lt p.1 k = true) m).
  { apply Forall_forall. intros p Hp. apply (Hlt p (k, v) Hp). set_solver. }
  assert (lower_bound m k = length m) as Hl.
  { rewrite <- (app_nil_r m) at 1. by apply lower_bound_split. }
  unfold assign. assert (m !! find m k = None) as ->.
  { unfold find. rewrite Hl, (lookup_ge_None_2 m (length m)) by done. by apply lookup_ge_None_2. }
  by rewrite Hl, take_ge, drop_ge by done.
Qed.

Lemma set_register_rules rules : forall info,
  sorted (register_rules_ info ++ rules) ->
  Forall (fun p => ~ reserved p.1) rules ->
  fold_left set_rule rules info =
    mkCFIFrameInfo (cfa_rule_ info) (ra_rule_ info) (register_rules_ info ++ rules).
Proof.
  induction rules as [|[x e] rules IH]; intros info Hs Hr; cbn [fold_left].
  - rewrite app_nil_r. by destruct info.
  - apply Forall_cons in Hr as [Hx Hr]. unfold reserved in Hx. cbn in Hx.
    assert (set_rule info (x, e) =
      mkCFIFrameInfo (cfa_rule_ info) (ra_rule_ info) (register_rules_ info ++ [(x, e)])) as ->.
    { unfold set_rule. cbn [fst snd]. rewrite !decide_False by tauto. unfold SetRegisterRule. f_equal.
      apply assign_last. replace (register_rules_ info ++ (x, e) :: rules)
        with ((register_rules_ info ++ [(x, e)]) ++ rules) in Hs by by rewrite <- app_assoc.
      by apply sorted_app in Hs as (_ & ? & _). }
    rewrite IH; cbn [register_rules_ cfa_rule_ ra_rule_]; rewrite <- ?app_assoc; done.
Qed.

Lemma empty_string_true s : empty_string s = true <-> s = [].
Proof. by destruct s. Qed.

Lemma set_entries info :
  sorted (register_rules_ info) -> Forall (fun p => ~ reserved p.1) (register_rules_ info) ->
  fold_left set_rule (entries info) empty_info = info.
Proof.
  intros Hs Hr. unfold entries. rewrite !fold_left_app.
  destruct info as [cfa ra rules]. cbn [cfa_rule_ ra_rule_ register_rules_] in *.
  destruct cfa as [|c cfa], ra as [|c' ra]; cbn [empty_string length Nat.eqb fold_left];
    rewrite set_register_rules by done; done.
Qed.

Lemma expressions_split (l : list (chars * chars)) :
  Forall (fun p => word p.1 /\ expression p.2) l ->
  exists ps, l = map (fun p => (p.1, join p.2)) ps /\ Forall rule_ok ps.
Proof.
  induction 1 as [|[x e] l [Hx (ts & He & Hne & Hc)] Hl (ps & -> & Hps)]; [by exists []|].
  exists ((x, ts) :: ps). cbn in *. subst e. split; [done|]. by apply Forall_cons.
Qed.

Lemma entries_ok info :
  info_ok info -> Forall (fun p => word p.1 /\ expression p.2) (entries info) /\ entries info <> [].
Proof.
  intros (Hcfa & Hra & Hs & Hr & Hne). unfold entries.
  assert (word (str ".cfa") /\ word (str ".ra")) as [Wc Wr] by (split; split; [done|by repeat constructor..]).
  destruct info as [cfa ra rules]. cbn [cfa_rule_ ra_rule_ register_rules_] in *. split.
  - apply Forall_app. split; [|apply Forall_app; split].
    + destruct cfa; [done|]. destruct Hcfa; [done|]. by repeat constructor.
    + destruct ra; [done|]. destruct Hra; [done|]. by repeat constructor.
    + eapply Forall_impl; [exact Hr|]. tauto.
  - destruct cfa, ra, rules; done.
Qed.

(** Proves that literals are components. *)
Ltac components :=
  repeat match goal with
  | |- Forall _ _ => constructor
  | |- component _ => split; [|done]
  | |- word _ => split; [done|]
  | |- plain_char _ => split; [reflexivity|done]
  end.

(** C30: a rule set survives printing and parsing: for every [CFIFrameInfo] with
    some rule, whose register names are words other than [.cfa] and [.ra] and
    whose expressions have single spaces between components that do not end in
    a colon, [CFIRuleParser::Parse] of [Serialize] reports every rule to the
    [CFIFrameInfoParseHandler] and rebuilds it.  On any text the parser
    returns, having consumed the tokens up to the first NUL. *)
Theorem CFIFrameInfo_roundtrip info (rule_set : chars) (handler_ : CFIFrameInfo) :
  (info_ok info -> Parse (Serialize info) empty_info = Ok (true, info)) /\
  exists ok handler', Parse rule_set handler_ = Ok (ok, handler').
Proof.
  split.
  2: { destruct (Parse_tokens rule_set handler_) as (ts & _ & ->).
       destruct (parse_tokens ts [] [] handler_). eauto. }
  intros Hok. destruct (entries_ok info Hok) as [He Hne].
  destruct (expressions_split _ He) as (ps & Hps & Hr).
  assert (Serialize info = join (concat (map rule_tokens ps))) as Hser.
  { rewrite Serialize_entries, Hps. by apply (put_rules_join ps []). }
  assert (Forall word (concat (map rule_tokens ps))) as Hw.
  { apply Forall_concat, Forall_map. eapply Forall_impl; [exact Hr|]. apply rule_tokens_words. }
  unfold Parse. rewrite Hser, c_string_all by by apply join_no_nul.
  rewrite (Parse_loop_reads _ _ (join_reads _ Hw)) by apply Nat.lt_succ_diag_r.
  destruct ps as [|p ps]; [by rewrite Hps in Hne|].
  rewrite parse_all, fold_handle, <- Hps by done. do 2 f_equal.
  destruct Hok as (_ & _ & Hs & Hrules & _). apply set_entries; [done|].
  eapply Forall_impl; [exact Hrules|]. by intros q (_ & ? & _).
Qed.
Lemma CFIFrameInfo_roundtrip_witness :
  let info := mkCFIFrameInfo (str "$esp 4 +") (str ".cfa ^") [(str "$ebp", str "$ebp"); (str "$ebx", str "$esp ^")] in
  Parse (Serialize info) empty_info = Ok (true, info).
Proof.
  intros info. apply (CFIFrameInfo_roundtrip info [] empty_info).
  split; [right|split; [right|split; [by repeat constructor|split; [|done]]]].
  - exists [str "$esp"; str "4"; str "+"]. split; [done|]. split; [done|]. components.
  - exists [str ".cfa"; str "^"]. split; [done|]. split; [done|]. components.
  - repeat apply Forall_cons_2; [split; [components|split; [by intros [|]|]] ..|by apply Forall_nil].
    + exists [str "$ebp"]. split; [done|]. split; [done|]. components.
    + exists [str "$esp"; str "^"]. split; [done|]. split; [done|]. components.
Defined.

(** ** Rules that always evaluate *)

(** A text without divisions and assignments. *)
Definition arithmetic_text (s : chars) : Prop := Forall arithmetic (tokens_of (tokens isspace s)).

(** The evaluation of the rules is defined, whatever the registers and the
    memory. *)
Definition rules_defined (info : CFIFrameInfo) : Prop :=
  forall w registers memory, 0 < w <= 64 -> FindCallerRegs w info registers memory ∅ <> Undef.

Lemma EvaluateForValue_defined w ev d s :
  0 < w <= 64 -> dictionary_ ev = Some d -> arithmetic_text s ->
  exists v ev', EvaluateForValue w ev s = Ok (v, ev').
Proof.
  intros Hw Hd Hh. unfold EvaluateForValue, EvaluateInternal.
  rewrite (EvaluateInternal_reads w s _ (reads_tokens isspace s)) by lia.
  destruct (run_tokens_arithmetic w _ ev d None Hd Hh) as (ok & ev' & -> & Hd'). cbn [obind].
  destruct (ok && _); [|by eexists _, _].
  destruct (PopValue_pops w ev' d Hd') as (r & ev'' & -> & _). cbn [obind]. by eexists _, _.
Qed.

Lemma evaluate_rules_defined w registers cfa rules : forall ev caller,
  0 < w <= 64 -> Forall (fun p => arithmetic_text p.2) rules ->
  evaluate_rules w ev registers cfa rules caller <> Undef.
Proof.
  induction rules as [|[name rule] rules IH]; intros ev caller Hw; cbn [evaluate_rules]; [done|].
  intros [Hr Hrs]%Forall_cons.
  destruct (EvaluateForValue_defined w (with_dictionary ev (<[str ".cfa" := cfa]> registers)) _ rule Hw eq_refl Hr)
    as (v & ev' & ->). cbn [obind]. destruct v; [by apply IH|done].
Qed.

Lemma arithmetic_rules_defined info :
  arithmetic_text (cfa_rule_ info) -> arithmetic_text (ra_rule_ info) ->
  Forall (fun p => arithmetic_text p.2) (register_rules_ info) -> rules_defined info.
Proof.
  intros Hc Hr Hrs w registers memory Hw. unfold FindCallerRegs. destruct (_ || _); [done|].
  match goal with |- context [EvaluateForValue w ?ev (cfa_rule_ info)] =>
    destruct (EvaluateForValue_defined w ev _ (cfa_rule_ info) Hw eq_refl Hc) as (cfa & ev1 & ->)
  end. cbn [obind]. destruct cfa as [cfa|]; [|done].
  match goal with |- context [EvaluateForValue w ?ev (ra_rule_ info)] =>
    destruct (EvaluateForValue_defined w ev _ (ra_rule_ info) Hw eq_refl Hr) as (ra & ev2 & ->)
  end. cbn [obind]. destruct ra as [ra|]; [|done].
  pose proof (evaluate_rules_defined w registers cfa (register_rules_ info) ev2 ∅ Hw Hrs) as H.
  destruct (evaluate_rules _ _ _ _ _ _) as [[[] caller]|]; [done..|]. by destruct H.
Qed.

(** A text without the characters of divisions and assignments. *)
Definition plain_text (s : chars) : Prop := Forall (fun c => c <> 47 /\ c <> 37 /\ c <> 61) s.

Definition plain_info (info : CFIFrameInfo) : Prop :=
  plain_text (cfa_rule_ info) /\ plain_text (ra_rule_ info) /\
  Forall (fun p => plain_text p.2) (register_rules_ info).

(** The tokens of a text have its characters. *)
Lemma reads_plain sep s ts : reads sep s ts -> plain_text s -> Forall plain_text ts.
Proof.
  induction 1 as [|sp t rest ts _ _ _ _ _ IH]; [by constructor|].
  intros [_ [Ht Hr]%Forall_app]%Forall_app. constructor; [done|by apply IH].
Qed.

Lemma plain_arithmetic s : plain_text s -> arithmetic_text s.
Proof.
  intros H. pose proof (reads_plain _ _ _ (reads_tokens isspace s) H) as Ht. unfold arithmetic_text, tokens_of.
  induction Ht as [|t ts Hp _ IH]; cbn [map concat]; [constructor|]. apply Forall_app. split; [|done].
  assert (arithmetic t) as Ha.
  { unfold arithmetic. split_and!; intros ->; apply Forall_cons in Hp as [? _]; cbn in *; lia. }
  assert (split_equals t = [t]) as ->; [|by constructor].
  destruct t as [|c [|c' t]]; [done..|]. apply Forall_cons in Hp as [Hc _]. cbn [split_equals]. destruct (Z.eqb_spec c 61); [lia|done].
Qed.

Lemma plain_rules_defined info : plain_info info -> rules_defined info.
Proof.
  intros (Hc & Hr & Hrs). apply arithmetic_rules_defined; [by apply plain_arithmetic..|].
  eapply Forall_impl; [exact Hrs|]. intros p. apply plain_arithmetic.
Qed.

Lemma Report_plain name expression info :
  plain_text expression -> plain_info info -> plain_info (Report name expression info).2.
Proof.
  intros He (Hc & Hr & Hrs). unfold Report. destruct (_ || _); [done|].
  repeat case_decide; [done..|]. split; [done|]. split; [done|]. by apply assign_Forall.
Qed.

Lemma parse_tokens_plain ts : forall name expression info,
  Forall plain_text ts -> plain_text expression -> plain_info info ->
  plain_info (parse_tokens ts name expression info).2.
Proof.
  induction ts as [|t ts IH]; intros name expression info Hts He Hi; cbn [parse_tokens]; [by apply Report_plain|].
  apply Forall_cons in Hts as [Ht Hts]. destruct (_ && _).
  - destruct (_ <? _)%nat; [done|].
    assert (plain_info (if negb (empty_string name) || negb (empty_string expression)
                        then Report name expression info else (true, info)).2) as Hr.
    { destruct (_ || _); [by apply Report_plain|done]. }
    destruct (if negb (empty_string name) || negb (empty_string expression) then _ else _) as [[] info'];
      [apply IH; [done|constructor|done]|done].
  - apply IH; [done| |done]. apply Forall_app. split; [|done]. destruct (empty_string expression); [done|].
    apply Forall_app. split; [done|]. change (str " ") with [32]. constructor; [lia|constructor].
Qed.

(** Parsing a text without divisions gives rules without divisions. *)
Lemma Parse_plain s info ok info' :
  plain_text s -> plain_info info -> Parse s info = Ok (ok, info') -> plain_info info'.
Proof.
  intros Hs Hi E. destruct (Parse_tokens s info) as (ts & Hts & E'). rewrite E in E'.
  assert (plain_info (parse_tokens ts [] [] info).2) as H.
  { apply parse_tokens_plain; [|constructor|done]. eapply reads_plain; [exact Hts|]. unfold c_string. by apply Forall_take. }
  injection E' as E'. by rewrite <- E' in H.
Qed.

(** ** Recovered values have the width *)

Lemma dictionary_ok_insert w d x v : dictionary_ok w d -> uint w v -> dictionary_ok w (<[x := v]> d).
Proof. intros Hd Hv y z. rewrite lookup_insert. case_decide; [by intros [= <-]|apply Hd]. Qed.

Lemma evaluated_uint w ev d s v ev' :
  0 < w <= 64 -> dictionary_ok w d -> EvaluateForValue w (with_dictionary ev d) s = Ok (Some v, ev') -> uint w v.
Proof. intros Hw Hd. by apply (EvaluateForValue_uint w Hw (with_dictionary ev d) d s v ev'). Qed.

Lemma evaluate_rules_ok w registers cfa rules : forall ev caller ok caller',
  0 < w <= 64 -> dictionary_ok w registers -> uint w cfa -> dictionary_ok w caller ->
  evaluate_rules w ev registers cfa rules caller = Ok (ok, caller') -> dictionary_ok w caller'.
Proof.
  induction rules as [|[name rule] rules IH]; intros ev caller ok caller' Hw Hr Hcfa Hc; cbn [evaluate_rules].
  { by intros [= _ <-]. }
  intros ((v & ev') & E & H)%obind_Ok. destruct v as [v|]; [|by injection H as _ <-].
  eapply IH; [..|exact H]; try done. apply dictionary_ok_insert; [done|].
  eapply evaluated_uint; [exact Hw| |exact E]. by apply dictionary_ok_insert.
Qed.

Lemma dictionary_ok_empty w : dictionary_ok w ∅.
Proof. intros x v. by rewrite lookup_empty. Qed.

Lemma FindCallerRegs_ok w info registers memory ok caller :
  0 < w <= 64 -> dictionary_ok w registers -> FindCallerRegs w info registers memory ∅ = Ok (ok, caller) ->
  dictionary_ok w caller.
Proof.
  intros Hw Hr. unfold FindCallerRegs. pose proof (dictionary_ok_empty w) as He.
  destruct (_ || _); [by intros [= _ <-]|].
  intros ((cfa & ev1) & E1 & H)%obind_Ok. destruct cfa as [cfa|]; [|by injection H as _ <-].
  assert (uint w cfa) as Hcfa by by eapply evaluated_uint; [exact Hw| |exact E1].
  apply obind_Ok in H as ((ra & ev2) & E2 & H). destruct ra as [ra|]; [|by injection H as _ <-].
  assert (uint w ra) as Hra.
  { eapply evaluated_uint; [exact Hw| |exact E2]. by apply dictionary_ok_insert. }
  apply obind_Ok in H as ((ok' & caller') & E3 & H).
  apply evaluate_rules_ok in E3; [|done..]. destruct ok'; injection H as _ <-; [|done].
  by repeat apply dictionary_ok_insert.
Qed.

(** ** The walker *)

Section walker_proofs.
Context (w : Z) {M : Type} `{EqDecision M}.
Implicit Types (r : @RegisterSet M) (register_map : list (@RegisterSet M)).

(** The bits of the registers do not overlap. *)
Fixpoint flags_disjoint register_map : Prop :=
  match register_map with
  | [] => True
  | r :: register_map =>
      Forall (fun r' => Z.land (validity_flag r) (validity_flag r') = 0) register_map /\
      flags_disjoint register_map
  end.

Definition register_map_ok register_map : Prop :=
  NoDup (map context_member register_map) /\ NoDup (map name register_map) /\
  flags_disjoint register_map.

Definition is_valid (validity : Z) r : Prop := Z.land validity (validity_flag r) <> 0.

(** The callee's registers of the rules: the valid ones, by name. *)
Lemma callee_values_spec register_map context validity : forall acc x,
  NoDup (map name register_map) ->
  callee_values register_map context validity acc !! x =
    match List.find (fun r => bool_decide (name r = x)) register_map with
    | Some r => if Z.land validity (validity_flag r) =? 0 then acc !! x else Some (context (context_member r))
    | None => acc !! x
    end.
Proof.
  induction register_map as [|r register_map IH]; intros acc x Hnd; cbn [callee_values List.find]; [done|].
  cbn [map] in Hnd. apply NoDup_cons in Hnd as [Hnew Hnd]. rewrite IH by done.
  destruct (bool_decide_reflect (name r = x)) as [<-|Hne].
  - destruct (List.find _ register_map) as [r'|] eqn:Ef.
    { apply find_some in Ef as [Hin Hn]. apply bool_decide_eq_true in Hn.
      exfalso. apply Hnew. rewrite <- Hn. apply list_elem_of_In. by apply in_map. }
    destruct (_ =? 0); cbn [negb]; [done|]. by rewrite lookup_insert_eq.
  - assert ((if negb (Z.land validity (validity_flag r) =? 0)
             then <[name r := context (context_member r)]> acc else acc) !! x = acc !! x) as ->; [|done].
    destruct (_ =? 0); cbn [negb]; [done|]. by rewrite lookup_insert_ne.
Qed.

(** Where the caller's value of a register comes from. *)
Inductive recovers (caller : dictionary) (context : M -> Z) (validity : Z) r : Z -> Prop :=
| by_name v : caller !! name r = Some v -> recovers caller context validity r v
| by_alternate_name n v :
    caller !! name r = None -> alternate_name r = Some n -> caller !! n = Some v ->
    recovers caller context validity r v
| by_callee :
    caller !! name r = None -> (forall n, alternate_name r = Some n -> caller !! n = None) ->
    callee_saves r = true -> is_valid validity r ->
    recovers caller context validity r (context (context_member r)).

Lemma caller_value_recovers caller context validity r v :
  caller_value r caller context validity = Some v <-> recovers caller context validity r v.
Proof.
  unfold caller_value. split.
  - destruct (caller !! name r) as [v'|] eqn:E1; [intros [= ->]; by apply by_name|].
    destruct (alternate_name r) as [n|] eqn:E2; [destruct (caller !! n) as [v'|] eqn:E3|].
    1: intros [= ->]; by eapply by_alternate_name.
    all: destruct (callee_saves r) eqn:E4; [|done]; destruct (Z.eqb_spec (Z.land validity (validity_flag r)) 0) as [|Hv]; [done|];
      intros [= <-]; apply by_callee; [done| |done|done]; intros n'; congruence.
  - destruct 1 as [v E1|n v E1 E2 E3|E1 E2 E3 E4]; rewrite E1; [done|by rewrite E2, E3|].
    assert ((match alternate_name r with Some n => caller !! n | None => None end) = None) as ->.
    { destruct (alternate_name r); auto. }
    unfold is_valid in E4. by rewrite E3, (proj2 (Z.eqb_neq _ _)).
Qed.

(** What the walker says of a register. *)
Definition register_result (value : option Z) (context : M -> Z) (validity : Z) r (unknown : Z) : Prop :=
  match value with
  | Some v => context (context_member r) = v /\ Z.land validity (validity_flag r) = validity_flag r
  | None => context (context_member r) = unknown /\ Z.land validity (validity_flag r) = 0
  end.

Lemma populate_caller_spec register_map caller context validity : forall c0 v0 c v,
  populate_caller register_map caller context validity c0 v0 = (c, v) ->
  NoDup (map context_member register_map) -> flags_disjoint register_map ->
  Forall (fun r => Z.land v0 (validity_flag r) = 0) register_map ->
  (forall m, m ∉ map context_member register_map -> c m = c0 m) /\
  (forall f, Forall (fun r => Z.land (validity_flag r) f = 0) register_map -> Z.land v f = Z.land v0 f) /\
  Forall (fun r => register_result (caller_value r caller context validity) c v r
                     (c0 (context_member r))) register_map.
Proof.
  induction register_map as [|r register_map IH]; intros c0 v0 c v; cbn [populate_caller map flags_disjoint].
  { by intros [= <- <-]. }
  set (value := caller_value r caller context validity).
  set (c1 := match value with Some x => set_member c0 (context_member r) x | None => c0 end).
  set (v1 := match value with Some _ => Z.lor v0 (validity_flag r) | None => v0 end).
  intros Hp [Hnew Hnd]%NoDup_cons [Hdis Hflags] [Hr Hv0]%Forall_cons.
  assert (populate_caller register_map caller context validity c1 v1 = (c, v)) as Hp'
    by (unfold c1, v1; by destruct value).
  assert (Hland : forall f, Z.land (validity_flag r) f = 0 -> Z.land v1 f = Z.land v0 f).
  { intros f Hf. unfold v1. destruct value; [|done]. by rewrite Z.land_lor_distr_l, Hf, Z.lor_0_r. }
  destruct (IH c1 v1 c v Hp' Hnd Hflags) as (Hc & Hv & Hall).
  { apply Forall_forall. intros r' Hr'. rewrite Forall_forall in Hdis, Hv0. rewrite Hland; auto. }
  assert (Hc1 : forall m, m <> context_member r -> c1 m = c0 m).
  { intros m Hm. unfold c1, set_member. destruct value; [|done]. by rewrite decide_False. }
  split; [|split].
  - intros m [Hm1 Hm2]%not_elem_of_cons. by rewrite Hc, Hc1.
  - intros f [Hf1 Hf2]%Forall_cons. by rewrite Hv, Hland.
  - apply Forall_cons. split.
    + assert (Z.land v (validity_flag r) = Z.land v1 (validity_flag r)) as Hvr.
      { apply Hv. eapply Forall_impl; [exact Hdis|]. intros r' Hr'. cbn. by rewrite Z.land_comm. }
      unfold register_result. fold value. rewrite (Hc _ Hnew), Hvr. unfold c1, v1, set_member.
      destruct value; [|done]. rewrite decide_True by done. split; [done|].
      by rewrite Z.land_lor_distr_l, Hr, Z.land_diag, Z.lor_0_l.
    + rewrite Forall_forall in Hall |- *. intros r' Hr'.
      rewrite <- Hc1; [by apply Hall|]. intros Heq. apply Hnew. rewrite <- Heq.
      apply list_elem_of_In, in_map. by apply list_elem_of_In.
Qed.

Lemma callee_values_ok register_map context validity : forall acc,
  dictionary_ok w acc -> (forall m, uint w (context m)) ->
  dictionary_ok w (callee_values register_map context validity acc).
Proof.
  induction register_map as [|r register_map IH]; intros acc Ha Hc; cbn [callee_values]; [done|].
  apply IH; [|done]. destruct (negb _); [by apply dictionary_ok_insert|done].
Qed.

Lemma populate_caller_ok register_map caller context validity : forall c0 v0 c v,
  populate_caller register_map caller context validity c0 v0 = (c, v) ->
  dictionary_ok w caller -> (forall m, uint w (context m)) -> (forall m, uint w (c0 m)) -> forall m, uint w (c m).
Proof.
  induction register_map as [|r register_map IH]; intros c0 v0 c v; cbn [populate_caller].
  { by intros [= <- _]. }
  intros E Hd Hc H0. destruct (caller_value r caller context validity) as [x|] eqn:Ev; [|by eapply IH].
  eapply IH; [exact E|done|done|]. intros m. unfold set_member. case_decide; [|done].
  apply caller_value_recovers in Ev. destruct Ev; [by eapply Hd|by eapply Hd|apply Hc].
Qed.

Lemma filled_ok : 0 < w <= 64 -> uint w (filled w).
Proof.
  intros Hw. unfold filled. set (bs := replicate _ _).
  assert (bytes_ok bs) as Hb.
  { apply Forall_forall. intros x Hx. apply elem_of_replicate in Hx as [-> _]. unfold uint. lia. }
  pose proof (le_val_bound bs Hb) as H. unfold uint. split; [lia|].
  assert (2 ^ (8 * Z.of_nat (length bs)) <= 2 ^ w); [|lia]. apply Z.pow_le_mono_r; [lia|].
  unfold bs. rewrite length_replicate, Z2Nat.id by (apply Z.div_pos; lia). apply Z.mul_div_le. lia.
Qed.

(** The registers that the walker gives the caller are of the width. *)
Lemma FindCallerRegisters_ok register_map memory info callee_context callee_validity c0 v0 c v :
  0 < w <= 64 -> (forall m, uint w (callee_context m)) ->
  FindCallerRegisters w register_map memory info callee_context callee_validity c0 v0 = Ok (true, c, v) ->
  forall m, uint w (c m).
Proof.
  intros Hw Hc. unfold FindCallerRegisters. intros ((ok & caller) & E & H)%obind_Ok.
  apply FindCallerRegs_ok in E; [|done|apply callee_values_ok; [apply dictionary_ok_empty|done]].
  destruct ok; cbn [negb] in H; [|done]. destruct (populate_caller _ _ _ _ _ _) as [c' v'] eqn:Ep.
  injection H as <- <-. eapply populate_caller_ok; [exact Ep|done..|]. intros m. by apply filled_ok.
Qed.

Lemma FindCallerRegisters_defined register_map memory info callee_context callee_validity c0 v0 :
  0 < w <= 64 -> rules_defined info -> exists result,
    FindCallerRegisters w register_map memory info callee_context callee_validity c0 v0 = Ok result.
Proof.
  intros Hw Hr. unfold FindCallerRegisters.
  specialize (Hr w (callee_values register_map callee_context callee_validity ∅) memory Hw).
  destruct (FindCallerRegs _ _ _ _ _) as [[ok caller]|]; [|done]. cbn [obind].
  destruct (negb ok); [by eexists|]. destruct (populate_caller _ _ _ _ _ _). by eexists.
Qed.
End walker_proofs.

(** [SimpleCFIWalker::FindCallerRegisters] gives the rules exactly the valid
    registers of the callee, by name, and when the rules evaluate, the caller's
    context has for every register the value under its name, else the one under
    its alternate name, else the callee's when it is callee-saves and valid;
    exactly those registers have their validity bit set, and the others hold
    the fill pattern.  When the rules fail nothing is written. *)
Theorem FindCallerRegisters_functional w {M : Type} `{EqDecision M}
    (register_map : list (@RegisterSet M)) memory info callee_context callee_validity
    (caller_context0 : M -> Z) caller_validity0 :
  register_map_ok register_map ->
  let callee := callee_values register_map callee_context callee_validity ∅ in
  (forall x, callee !! x =
     match List.find (fun r => bool_decide (name r = x)) register_map with
     | Some r => if Z.land callee_validity (validity_flag r) =? 0 then None
                 else Some (callee_context (context_member r))
     | None => None
     end) /\
  match FindCallerRegs w info callee memory ∅,
        FindCallerRegisters w register_map memory info callee_context callee_validity
          caller_context0 caller_validity0 with
  | Ok (true, caller), Ok (ok, context, validity) =>
      ok = true /\ forall r, r ∈ register_map ->
        (forall v, recovers caller callee_context callee_validity r v ->
           context (context_member r) = v /\ Z.land validity (validity_flag r) = validity_flag r) /\
        ((forall v, ~ recovers caller callee_context callee_validity r v) ->
           context (context_member r) = filled w /\ Z.land validity (validity_flag r) = 0)
  | Ok (false, _), result => result = Ok (false, caller_context0, caller_validity0)
  | Undef, result => result = Undef
  | _, Undef => False
  end.
Proof.
  intros (Hmem & Hnames & Hflags) callee. split.
  { intros x. unfold callee. rewrite callee_values_spec by done.
    destruct (List.find _ _); [|done]. by destruct (_ =? 0). }
  unfold FindCallerRegisters. fold callee.
  destruct (FindCallerRegs w info callee memory ∅) as [[[] caller]|]; cbn [obind negb]; [|done|done].
  destruct (populate_caller _ _ _ _ _ _) as [context validity] eqn:Ep.
  destruct (populate_caller_spec _ _ _ _ _ _ _ _ Ep Hmem Hflags) as (_ & _ & Hall).
  { apply Forall_forall. intros r _. apply Z.land_0_l. }
  split; [done|]. intros r Hr. rewrite Forall_forall in Hall. specialize (Hall r Hr).
  unfold register_result in Hall.
  split.
  - intros v Hv%caller_value_recovers. by rewrite Hv in Hall.
  - intros Hno. destruct (caller_value r caller callee_context callee_validity) as [v|] eqn:E; [|done].
    by apply caller_value_recovers, Hno in E.
Qed.
Lemma FindCallerRegisters_functional_witness :
  let register_map := [mkRegisterSet (str "$eip") (Some (str ".ra")) false 1 false;
                       mkRegisterSet (str "$esp") (Some (str ".cfa")) false 2 true] in
  let info := mkCFIFrameInfo (str "$esp 8 +") (str ".cfa 4 - ^") [] in
  exists context validity,
    FindCallerRegisters 32 register_map (fun a => Some (a + 1)) info
      (fun m : bool => if m then 100 else 7) 3 (fun _ => 0) 0 = Ok (true, context, validity) /\
    context true = 108 /\ context false = 105 /\ Z.land validity 1 = 1.
Proof.
  intros register_map info.
  destruct (FindCallerRegisters_functional 32 register_map (fun a => Some (a + 1)) info
    (fun m : bool => if m then 100 else 7) 3 (fun _ => 0) 0) as [_ H].
  { split; [|split].
    - repeat constructor; set_solver.
    - repeat constructor; set_solver.
    - repeat constructor. }
  assert (FindCallerRegs 32 info
    (callee_values register_map (fun m : bool => if m then 100 else 7) 3 ∅) (fun a => Some (a + 1)) ∅ =
    Ok (true, <[str ".cfa" := 108]> (<[str ".ra" := 105]> ∅))) as Hf by (vm_compute; reflexivity).
  rewrite Hf in H. clear Hf.
  match type of H with context [FindCallerRegisters ?w ?rm ?m ?i ?c ?v ?c0 ?v0] =>
    destruct (FindCallerRegisters w rm m i c v c0 v0) as [[[ok context] validity]|]; [|destruct H]
  end.
  destruct H as [-> H]. exists context, validity.
  destruct (H (mkRegisterSet (str "$eip") (Some (str ".ra")) false 1 false)) as [H1 _]; [by left|].
  destruct (H (mkRegisterSet (str "$esp") (Some (str ".cfa")) false 2 true)) as [H2 _]; [by right; left|].
  destruct (H1 105) as [Hc1 Hv1]; [by eapply by_alternate_name|].
  destruct (H2 108) as [Hc2 _]; [by eapply by_alternate_name|].
  split; [reflexivity|]. split; [exact Hc2|]. split; [exact Hc1|exact Hv1].
Defined.
