(* ===== verification/ByteReader.v ===== *)
(** * DWARF byte reader (common/dwarf/bytereader.h, .cc, bytereader-inl.h)

    Integers of both byte orders, LEB128 numbers, initial lengths and the
    encoded pointers of exception handling data.  A buffer is an offset into a
    byte memory; a read outside it, a failed [assert] and [abort] are
    [Undef].  Shifts by 64 bits or more and the negation of the least [int64_t]
    are undefined too. *)

From S2P Require Import Prelude Memory.
#[local] Open Scope Z_scope.

Inductive Endianness : Type := ENDIANNESS_BIG | ENDIANNESS_LITTLE.

(** The member functions [offset_reader_] and [address_reader_] point to. *)
Inductive AddressReader : Type := ReadFourBytes_reader | ReadEightBytes_reader.

(** [None] is NULL; the bases are meaningful when their flag is set. *)
Record ByteReader : Type := mkByteReader {
  offset_reader_ : option AddressReader;
  address_reader_ : option AddressReader;
  endian_ : Endianness;
  address_size_ : Z;
  offset_size_ : Z;
  have_section_base_ : bool;
  have_text_base_ : bool;
  have_data_base_ : bool;
  have_function_base_ : bool;
  section_base_ : Z;
  text_base_ : Z;
  data_base_ : Z;
  function_base_ : Z;
  buffer_base_ : Z;
}.

(** The constructor leaves the bases as the memory was. *)
Definition new_reader (stale : ByteReader) (endian : Endianness) : ByteReader :=
  mkByteReader None None endian 0 0 false false false false
    (section_base_ stale) (text_base_ stale) (data_base_ stale) (function_base_ stale)
    (buffer_base_ stale).

Definition reader_of_size (size : Z) : AddressReader :=
  if size =? 4 then ReadFourBytes_reader else ReadEightBytes_reader.

Definition SetOffsetSize (r : ByteReader) (size : Z) : outcome ByteReader :=
  if negb ((size =? 4) || (size =? 8)) then Undef
  else Ok (mkByteReader (Some (reader_of_size size)) (address_reader_ r) (endian_ r)
    (address_size_ r) size (have_section_base_ r) (have_text_base_ r) (have_data_base_ r)
    (have_function_base_ r) (section_base_ r) (text_base_ r) (data_base_ r) (function_base_ r)
    (buffer_base_ r)).

Definition SetAddressSize (r : ByteReader) (size : Z) : outcome ByteReader :=
  if negb ((size =? 4) || (size =? 8)) then Undef
  else Ok (mkByteReader (offset_reader_ r) (Some (reader_of_size size)) (endian_ r)
    size (offset_size_ r) (have_section_base_ r) (have_text_base_ r) (have_data_base_ r)
    (have_function_base_ r) (section_base_ r) (text_base_ r) (data_base_ r) (function_base_ r)
    (buffer_base_ r)).

Definition AddressSize (r : ByteReader) : Z := address_size_ r.
Definition OffsetSize (r : ByteReader) : Z := offset_size_ r.
Definition GetEndianness (r : ByteReader) : Endianness := endian_ r.

Definition SetCFIDataBase (r : ByteReader) (section_base buffer_base : Z) : ByteReader :=
  mkByteReader (offset_reader_ r) (address_reader_ r) (endian_ r) (address_size_ r) (offset_size_ r)
    true (have_text_base_ r) (have_data_base_ r) (have_function_base_ r)
    section_base (text_base_ r) (data_base_ r) (function_base_ r) buffer_base.

Definition SetTextBase (r : ByteReader) (text_base : Z) : ByteReader :=
  mkByteReader (offset_reader_ r) (address_reader_ r) (endian_ r) (address_size_ r) (offset_size_ r)
    (have_section_base_ r) true (have_data_base_ r) (have_function_base_ r)
    (section_base_ r) text_base (data_base_ r) (function_base_ r) (buffer_base_ r).

Definition SetDataBase (r : ByteReader) (data_base : Z) : ByteReader :=
  mkByteReader (offset_reader_ r) (address_reader_ r) (endian_ r) (address_size_ r) (offset_size_ r)
    (have_section_base_ r) (have_text_base_ r) true (have_function_base_ r)
    (section_base_ r) (text_base_ r) data_base (function_base_ r) (buffer_base_ r).

Definition SetFunctionBase (r : ByteReader) (function_base : Z) : ByteReader :=
  mkByteReader (offset_reader_ r) (address_reader_ r) (endian_ r) (address_size_ r) (offset_size_ r)
    (have_section_base_ r) (have_text_base_ r) (have_data_base_ r) true
    (section_base_ r) (text_base_ r) (data_base_ r) function_base (buffer_base_ r).

Definition ClearFunctionBase (r : ByteReader) : ByteReader :=
  mkByteReader (offset_reader_ r) (address_reader_ r) (endian_ r) (address_size_ r) (offset_size_ r)
    (have_section_base_ r) (have_text_base_ r) (have_data_base_ r) false
    (section_base_ r) (text_base_ r) (data_base_ r) (function_base_ r) (buffer_base_ r).

Section reads.
Context (mem : byte_list).

(** ** Fixed sizes *)

Definition byte (ptr : Z) : outcome Z := read_at mem ptr 1.

Definition ReadOneByte (r : ByteReader) (buffer : Z) : outcome Z := byte buffer.

Definition ReadTwoBytes (r : ByteReader) (buffer : Z) : outcome Z :=
  let? buffer0 := byte buffer in
  let? buffer1 := byte (buffer + 1) in
  Ok (match endian_ r with
      | ENDIANNESS_LITTLE => Z.lor buffer0 (Z.shiftl buffer1 8)
      | ENDIANNESS_BIG => Z.lor buffer1 (Z.shiftl buffer0 8)
      end).

Definition ReadThreeBytes (r : ByteReader) (buffer : Z) : outcome Z :=
  let? buffer0 := byte buffer in
  let? buffer1 := byte (buffer + 1) in
  let? buffer2 := byte (buffer + 2) in
  Ok (match endian_ r with
      | ENDIANNESS_LITTLE => Z.lor (Z.lor buffer0 (Z.shiftl buffer1 8)) (Z.shiftl buffer2 16)
      | ENDIANNESS_BIG => Z.lor (Z.lor buffer2 (Z.shiftl buffer1 8)) (Z.shiftl buffer0 16)
      end).

Definition ReadFourBytes (r : ByteReader) (buffer : Z) : outcome Z :=
  let? buffer0 := byte buffer in
  let? buffer1 := byte (buffer + 1) in
  let? buffer2 := byte (buffer + 2) in
  let? buffer3 := byte (buffer + 3) in
  Ok (match endian_ r with
      | ENDIANNESS_LITTLE =>
          Z.lor (Z.lor (Z.lor buffer0 (Z.shiftl buffer1 8)) (Z.shiftl buffer2 16)) (Z.shiftl buffer3 24)
      | ENDIANNESS_BIG =>
          Z.lor (Z.lor (Z.lor buffer3 (Z.shiftl buffer2 8)) (Z.shiftl buffer1 16)) (Z.shiftl buffer0 24)
      end).

Definition ReadEightBytes (r : ByteReader) (buffer : Z) : outcome Z :=
  let? buffer0 := byte buffer in
  let? buffer1 := byte (buffer + 1) in
  let? buffer2 := byte (buffer + 2) in
  let? buffer3 := byte (buffer + 3) in
  let? buffer4 := byte (buffer + 4) in
  let? buffer5 := byte (buffer + 5) in
  let? buffer6 := byte (buffer + 6) in
  let? buffer7 := byte (buffer + 7) in
  Ok (match endian_ r with
      | ENDIANNESS_LITTLE =>
          Z.lor (Z.lor (Z.lor (Z.lor (Z.lor (Z.lor (Z.lor buffer0 (Z.shiftl buffer1 8))
            (Z.shiftl buffer2 16)) (Z.shiftl buffer3 24)) (Z.shiftl buffer4 32))
            (Z.shiftl buffer5 40)) (Z.shiftl buffer6 48)) (Z.shiftl buffer7 56)
      | ENDIANNESS_BIG =>
          Z.lor (Z.lor (Z.lor (Z.lor (Z.lor (Z.lor (Z.lor buffer7 (Z.shiftl buffer6 8))
            (Z.shiftl buffer5 16)) (Z.shiftl buffer4 24)) (Z.shiftl buffer3 32))
            (Z.shiftl buffer2 40)) (Z.shiftl buffer1 48)) (Z.shiftl buffer0 56)
      end).

Definition call_reader (reader : option AddressReader) (r : ByteReader) (buffer : Z) : outcome Z :=
  match reader with
  | None => Undef
  | Some ReadFourBytes_reader => ReadFourBytes r buffer
  | Some ReadEightBytes_reader => ReadEightBytes r buffer
  end.

Definition ReadOffset (r : ByteReader) (buffer : Z) : outcome Z := call_reader (offset_reader_ r) r buffer.
Definition ReadAddress (r : ByteReader) (buffer : Z) : outcome Z := call_reader (address_reader_ r) r buffer.

(** The length, [*len] and the reader with its offset size. *)
Definition ReadInitialLength (r : ByteReader) (start : Z) : outcome (Z * Z * ByteReader) :=
  let? initial_length := ReadFourBytes r start in
  let start := start + 4 in
  if initial_length =? 0xffffffff then
    let? r := SetOffsetSize r 8 in
    let len := 12 in
    let? offset := ReadOffset r start in
    Ok (offset, len, r)
  else
    let? r := SetOffsetSize r 4 in
    let len := 4 in
    Ok (initial_length, len, r).

(** ** LEB128 *)

(** [x << shift] on 64 bits. *)
Definition shift64 (x shift : Z) : outcome Z :=
  if shift <? 64 then Ok (wrap 64 (Z.shiftl x shift)) else Undef.

(** The loops; the memory bounds the bytes they can read.  The results are the
    number and [*len]. *)
Fixpoint uleb128_loop (fuel : nat) (buffer result num_read shift : Z) : outcome (Z * Z) :=
  match fuel with
  | O => Undef
  | S fuel =>
      let? b := byte buffer in
      let num_read := num_read + 1 in
      let? group := shift64 (Z.land b 0x7f) shift in
      let result := Z.lor result group in
      let shift := shift + 7 in
      if negb (Z.land b 0x80 =? 0) then uleb128_loop fuel (buffer + 1) result num_read shift
      else Ok (result, num_read)
  end.

Definition ReadUnsignedLEB128 (r : ByteReader) (buffer : Z) : outcome (Z * Z) :=
  uleb128_loop (S (length mem)) buffer 0 0 0.

(** [-(1 << shift)] in an [int64_t]. *)
Definition sign_bits (shift : Z) : outcome Z :=
  if shift <? 63 then Ok (- Z.shiftl 1 shift) else Undef.

Fixpoint sleb128_loop (fuel : nat) (buffer result num_read shift : Z) : outcome (Z * Z) :=
  match fuel with
  | O => Undef
  | S fuel =>
      let? b := byte buffer in
      let num_read := num_read + 1 in
      let? group := shift64 (Z.land b 0x7f) shift in
      let result := swrap 64 (Z.lor (wrap 64 result) group) in
      let shift := shift + 7 in
      if negb (Z.land b 0x80 =? 0) then sleb128_loop fuel (buffer + 1) result num_read shift
      else if (shift <? 64) && negb (Z.land b 0x40 =? 0) then
        let? bits := sign_bits shift in Ok (Z.lor result bits, num_read)
      else Ok (result, num_read)
  end.

Definition ReadSignedLEB128 (r : ByteReader) (buffer : Z) : outcome (Z * Z) :=
  sleb128_loop (S (length mem)) buffer 0 0 0.
End reads.

(** ** Encoded pointers *)

Definition DW_EH_PE_absptr : Z := 0x00.
Definition DW_EH_PE_omit : Z := 0xff.
Definition DW_EH_PE_uleb128 : Z := 0x01.
Definition DW_EH_PE_udata2 : Z := 0x02.
Definition DW_EH_PE_udata4 : Z := 0x03.
Definition DW_EH_PE_udata8 : Z := 0x04.
Definition DW_EH_PE_sleb128 : Z := 0x09.
Definition DW_EH_PE_sdata2 : Z := 0x0A.
Definition DW_EH_PE_sdata4 : Z := 0x0B.
Definition DW_EH_PE_sdata8 : Z := 0x0C.
Definition DW_EH_PE_pcrel : Z := 0x10.
Definition DW_EH_PE_textrel : Z := 0x20.
Definition DW_EH_PE_datarel : Z := 0x30.
Definition DW_EH_PE_funcrel : Z := 0x40.
Definition DW_EH_PE_aligned : Z := 0x50.
Definition DW_EH_PE_indirect : Z := 0x80.

Definition ValidEncoding (encoding : Z) : bool :=
  if encoding =? DW_EH_PE_omit then true
  else if encoding =? DW_EH_PE_aligned then true
  else if DW_EH_PE_udata8 <? Z.land encoding 0x7 then false
  else if DW_EH_PE_funcrel <? Z.land encoding 0x70 then false
  else true.

Definition UsableEncoding (r : ByteReader) (encoding : Z) : bool :=
  let base := Z.land encoding 0x70 in
  if base =? DW_EH_PE_absptr then true
  else if base =? DW_EH_PE_pcrel then have_section_base_ r
  else if base =? DW_EH_PE_textrel then have_text_base_ r
  else if base =? DW_EH_PE_datarel then have_data_base_ r
  else if base =? DW_EH_PE_funcrel then have_function_base_ r
  else false.

(** [assert(condition)] before [value] is used. *)
Definition checked (condition : bool) (value : Z) : outcome Z :=
  if condition then Ok value else Undef.

(** The switch on the low nybble: the offset and [*len]. *)
Definition encoded_offset (mem : byte_list) (r : ByteReader) (buffer encoding : Z) : outcome (Z * Z) :=
  let format := Z.land encoding 0x0f in
  if format =? DW_EH_PE_absptr then
    let? offset := ReadAddress mem r buffer in Ok (offset, AddressSize r)
  else if format =? DW_EH_PE_uleb128 then ReadUnsignedLEB128 mem r buffer
  else if format =? DW_EH_PE_udata2 then let? offset := ReadTwoBytes mem r buffer in Ok (offset, 2)
  else if format =? DW_EH_PE_udata4 then let? offset := ReadFourBytes mem r buffer in Ok (offset, 4)
  else if format =? DW_EH_PE_udata8 then let? offset := ReadEightBytes mem r buffer in Ok (offset, 8)
  else if format =? DW_EH_PE_sleb128 then
    let? (offset, len) := ReadSignedLEB128 mem r buffer in Ok (wrap 64 offset, len)
  else if format =? DW_EH_PE_sdata2 then
    let? offset := ReadTwoBytes mem r buffer in
    Ok (wrap 64 (Z.lxor offset 0x8000 - 0x8000), 2)
  else if format =? DW_EH_PE_sdata4 then
    let? offset := ReadFourBytes mem r buffer in
    Ok (wrap 64 (Z.lxor offset 0x80000000 - 0x80000000), 4)
  else if format =? DW_EH_PE_sdata8 then let? offset := ReadEightBytes mem r buffer in Ok (offset, 8)
  else Undef.

(** The switch on the base. *)
Definition encoded_base (r : ByteReader) (buffer encoding : Z) : outcome Z :=
  let base := Z.land encoding 0x70 in
  if base =? DW_EH_PE_absptr then Ok 0
  else if base =? DW_EH_PE_pcrel then
    checked (have_section_base_ r) (wrap 64 (section_base_ r + (buffer - buffer_base_ r)))
  else if base =? DW_EH_PE_textrel then checked (have_text_base_ r) (text_base_ r)
  else if base =? DW_EH_PE_datarel then checked (have_data_base_ r) (data_base_ r)
  else if base =? DW_EH_PE_funcrel then checked (have_function_base_ r) (function_base_ r)
  else Undef.

(** [DW_EH_PE_aligned] *)
Definition aligned_pointer (mem : byte_list) (r : ByteReader) (buffer : Z) : outcome (Z * Z) :=
  if negb (have_section_base_ r) then Undef
  else
    let skew := Z.land (section_base_ r) (AddressSize r - 1) in
    let offset := wrap 64 (skew + (buffer - buffer_base_ r)) in
    let aligned := Z.land (wrap 64 (offset + AddressSize r - 1)) (wrap 64 (- AddressSize r)) in
    let aligned_buffer := buffer_base_ r + wrap 64 (aligned - skew) in
    let len := aligned_buffer - buffer + AddressSize r in
    let? pointer := ReadAddress mem r aligned_buffer in
    Ok (pointer, len).

(** The pointer and [*len]. *)
Definition ReadEncodedPointer (mem : byte_list) (r : ByteReader) (buffer encoding : Z) : outcome (Z * Z) :=
  if encoding =? DW_EH_PE_omit then Undef
  else if encoding =? DW_EH_PE_aligned then aligned_pointer mem r buffer
  else
    let? (offset, len) := encoded_offset mem r buffer encoding in
    let? base := encoded_base r buffer encoding in
    let pointer := wrap 64 (base + offset) in
    if AddressSize r =? 4 then Ok (Z.land pointer 0xffffffff, len)
    else if AddressSize r =? 8 then Ok (pointer, len)
    else Undef.

(** ** Bits *)

Lemma lor_shiftl a b n : uint n a -> 0 <= n -> Z.lor a (Z.shiftl b n) = a + 2 ^ n * b.
Proof.
  intros Ha Hn. rewrite (Z.mul_comm (2 ^ n)), <- Z.shiftl_mul_pow2 by done.
  rewrite <- Z.add_lor_land.
  assert (Z.land a (Z.shiftl b n) = 0) as ->; [|lia].
  apply Z.bits_inj'. intros i Hi. rewrite Z.land_spec, Z.testbit_0_l.
  destruct (Z.lt_ge_cases i n).
  - rewrite Z.shiftl_spec_low by done. apply andb_false_r.
  - rewrite <- (Z.mod_small a (2 ^ n)) by done. by rewrite Z.mod_pow2_bits_high by lia.
Qed.

(** A fact of all bytes is checked on each. *)
Lemma byte_check (P : Z -> bool) b : forallb P (seqZ 0 256) = true -> uint 8 b -> P b = true.
Proof.
  intros HP Hb. rewrite forallb_forall in HP. apply HP, list_elem_of_In, elem_of_seqZ. unfold uint in Hb. lia.
Qed.

Lemma uint_app n m a b : 0 <= n -> 0 <= m -> uint n a -> uint m b -> uint (n + m) (a + 2 ^ n * b).
Proof. unfold uint. intros Hn Hm Ha Hb. rewrite Z.pow_add_r by done. nia. Qed.

(** ** Fixed sizes *)

(** The integer that bytes denote. *)
Definition int_of (endian : Endianness) (bs : byte_list) : Z :=
  match endian with ENDIANNESS_LITTLE => le_val bs | ENDIANNESS_BIG => le_val (rev bs) end.

Section fixed.
Context (mem : byte_list) (r : ByteReader).

Lemma byte_holds ptr bs (i : nat) b :
  holds mem ptr bs -> bs !! i = Some b -> byte mem (ptr + Z.of_nat i) = Ok b.
Proof.
  intros (Hp & Hl & Hh) Hi. pose proof (lookup_lt_Some _ _ _ Hi).
  unfold byte. change 1%nat with (length [b]). rewrite read_at_holds.
  - cbn. f_equal. lia.
  - split; [lia|]. split; [cbn; lia|]. intros [|j] x; [|done]. intros [= <-].
    rewrite <- (Hh i b Hi). f_equal. lia.
Qed.

(** The bytes at [ptr], one by one. *)
Lemma bytes_at ptr bs :
  holds mem ptr bs -> forall i b, bs !! Z.to_nat i = Some b -> 0 <= i -> byte mem (ptr + i) = Ok b.
Proof.
  intros Hh i b Hi H0. rewrite <- (Z2Nat.id i) by done. by eapply byte_holds.
Qed.

Lemma byte_0 ptr b bs : holds mem ptr (b :: bs) -> byte mem ptr = Ok b.
Proof. intros Hh. rewrite <- (Z.add_0_r ptr). by apply (bytes_at ptr _ Hh 0). Qed.

(** Reads the bytes of a known buffer. *)
Ltac read_all Hh :=
  rewrite (byte_0 _ _ _ Hh); cbn [obind];
  repeat (erewrite (bytes_at _ _ Hh) by (reflexivity || lia); cbn [obind]).

(** Sums the shifted bytes. *)
Ltac sum_uint :=
  lazymatch goal with
  | |- uint ?n (?a + 2 ^ ?m * ?b) =>
      let k := eval cbv in (n - m) in
      change (uint (m + k) (a + 2 ^ m * b)); apply uint_app; [lia|lia|sum_uint|sum_uint]
  | |- _ => assumption
  end.

Ltac sum_bytes :=
  repeat match goal with
  | |- context [Z.lor ?a (Z.shiftl ?b ?n)] =>
      lazymatch a with
      | context [Z.lor _ _] => fail
      | _ => rewrite (lor_shiftl a b n); [|sum_uint|lia]
      end
  end; lia.

Lemma byte_uint b bs i : bytes_ok bs -> bs !! i = Some b -> uint 8 b.
Proof. intros H Hi. by eapply Forall_lookup_1 in Hi; [|exact H]. Qed.

Lemma ReadTwoBytes_spec buffer bs :
  holds mem buffer bs -> bytes_ok bs -> length bs = 2%nat ->
  ReadTwoBytes mem r buffer = Ok (int_of (endian_ r) bs).
Proof.
  intros Hh Hb Hl. destruct bs as [|b0 [|b1 [|]]]; try done.
  unfold ReadTwoBytes. read_all Hh.
  apply Forall_cons in Hb as [H0 Hb]. apply Forall_cons in Hb as [H1 _].
  f_equal. destruct (endian_ r); cbn [int_of rev app le_val]; sum_bytes.
Qed.

Lemma ReadThreeBytes_spec buffer bs :
  holds mem buffer bs -> bytes_ok bs -> length bs = 3%nat ->
  ReadThreeBytes mem r buffer = Ok (int_of (endian_ r) bs).
Proof.
  intros Hh Hb Hl. destruct bs as [|b0 [|b1 [|b2 [|]]]]; try done.
  unfold ReadThreeBytes. read_all Hh. unfold bytes_ok in Hb. rewrite !Forall_cons in Hb. destruct Hb as (H0 & H1 & H2 & _).
  f_equal. destruct (endian_ r); cbn [int_of rev app le_val]; sum_bytes.
Qed.

Lemma ReadFourBytes_spec buffer bs :
  holds mem buffer bs -> bytes_ok bs -> length bs = 4%nat ->
  ReadFourBytes mem r buffer = Ok (int_of (endian_ r) bs).
Proof.
  intros Hh Hb Hl. destruct bs as [|b0 [|b1 [|b2 [|b3 [|]]]]]; try done.
  unfold ReadFourBytes. read_all Hh. unfold bytes_ok in Hb. rewrite !Forall_cons in Hb. destruct Hb as (H0 & H1 & H2 & H3 & _).
  f_equal. destruct (endian_ r); cbn [int_of rev app le_val]; sum_bytes.
Qed.

Lemma ReadEightBytes_spec buffer bs :
  holds mem buffer bs -> bytes_ok bs -> length bs = 8%nat ->
  ReadEightBytes mem r buffer = Ok (int_of (endian_ r) bs).
Proof.
  intros Hh Hb Hl. destruct bs as [|b0 [|b1 [|b2 [|b3 [|b4 [|b5 [|b6 [|b7 [|]]]]]]]]]; try done.
  unfold ReadEightBytes. read_all Hh. unfold bytes_ok in Hb. rewrite !Forall_cons in Hb.
  destruct Hb as (H0 & H1 & H2 & H3 & H4 & H5 & H6 & H7 & _).
  f_equal. destruct (endian_ r); cbn [int_of rev app le_val]; sum_bytes.
Qed.

Lemma int_of_uint endian bs : bytes_ok bs -> uint (8 * Z.of_nat (length bs)) (int_of endian bs).
Proof.
  intros H. destruct endian; cbn [int_of].
  - rewrite <- length_rev. apply le_val_bound. by apply Forall_rev.
  - by apply le_val_bound.
Qed.

(** The reader a size selects. *)
Lemma call_reader_spec size buffer bs :
  size = 4 \/ size = 8 -> holds mem buffer bs -> bytes_ok bs -> Z.of_nat (length bs) = size ->
  call_reader mem (Some (reader_of_size size)) r buffer = Ok (int_of (endian_ r) bs).
Proof.
  intros [-> | ->] Hh Hb Hl; cbn [reader_of_size call_reader Z.eqb];
    [apply ReadFourBytes_spec | apply ReadEightBytes_spec]; auto; lia.
Qed.
End fixed.

(** The bytes of an integer in an order. *)
Definition bytes_of (endian : Endianness) (n : nat) (z : Z) : byte_list :=
  match endian with ENDIANNESS_LITTLE => le_bytes n z | ENDIANNESS_BIG => rev (le_bytes n z) end.

Lemma int_of_bytes_of endian n z : int_of endian (bytes_of endian n z) = wrap (8 * Z.of_nat n) z.
Proof. destruct endian; cbn [int_of bytes_of]; rewrite ?rev_involutive; apply le_val_le_bytes. Qed.

Lemma bytes_of_ok endian n z : bytes_ok (bytes_of endian n z) /\ length (bytes_of endian n z) = n.
Proof.
  destruct endian; cbn [bytes_of]; rewrite ?length_rev, length_le_bytes; split; auto using le_bytes_ok.
  apply Forall_rev, le_bytes_ok.
Qed.

(** ** LEB128 *)

(** The bytes of a number in groups of seven bits, all but the last with the
    continuation bit. *)
Fixpoint leb128_bytes (gs : list Z) : byte_list :=
  match gs with
  | [] => []
  | [g] => [g]
  | g :: gs => g + 128 :: leb128_bytes gs
  end.

Fixpoint groups_val (gs : list Z) : Z :=
  match gs with [] => 0 | g :: gs => g + 128 * groups_val gs end.

Definition groups_ok (gs : list Z) : Prop := gs <> [] /\ Forall (uint 7) gs.

Lemma group_bits g : uint 7 g -> 
  Z.land g 0x7f = g /\ (Z.land g 0x80 =? 0) = true /\
  Z.land (g + 128) 0x7f = g /\ (Z.land (g + 128) 0x80 =? 0) = false /\
  (Z.land g 0x40 =? 0) = (g <? 64).
Proof.
  intros Hg.
  pose proof (byte_check (fun g => implb (g <? 128)
    ((Z.land g 0x7f =? g) && (Z.land g 0x80 =? 0) && (Z.land (g + 128) 0x7f =? g) &&
     negb (Z.land (g + 128) 0x80 =? 0) && Bool.eqb (Z.land g 0x40 =? 0) (g <? 64))) g
    ltac:(vm_compute; reflexivity) ltac:(unfold uint in *; lia)) as H.
  cbv beta in H. unfold uint in Hg. rewrite (proj2 (Z.ltb_lt g 128)) in H by lia. cbn [implb] in H.
  repeat rewrite andb_true_iff in H. destruct H as ((((H1 & H2) & H3) & H4) & H5).
  apply Z.eqb_eq in H1, H3. apply negb_true_iff in H4. apply Bool.eqb_prop in H5. auto.
Qed.

Lemma leb128_bytes_cons g g' gs : leb128_bytes (g :: g' :: gs) = g + 128 :: leb128_bytes (g' :: gs).
Proof. done. Qed.

Lemma length_leb128_bytes gs : length (leb128_bytes gs) = length gs.
Proof.
  induction gs as [|g [|g' gs] IH]; [done..|]. rewrite leb128_bytes_cons. cbn [length] in *. by rewrite IH.
Qed.

Lemma holds_tail mem ptr b bs : holds mem ptr (b :: bs) -> holds mem (ptr + 1) bs.
Proof. intros Hh. change (b :: bs) with ([b] ++ bs) in Hh. by apply holds_app in Hh as [_ ?]. Qed.

Lemma groups_val_nonneg gs : Forall (uint 7) gs -> 0 <= groups_val gs.
Proof. induction 1 as [|g gs Hg _ IH]; cbn [groups_val]; unfold uint in *; lia. Qed.

(** Adding a group at a shift below 64. *)
Lemma add_group result g (k : Z) :
  0 <= k <= 9 -> uint (7 * k) result -> uint 7 g ->
  exists group, shift64 g (7 * k) = Ok group /\
    Z.lor result group = wrap 64 (result + 2 ^ (7 * k) * g) /\
    (k <= 8 -> wrap 64 (result + 2 ^ (7 * k) * g) = result + 2 ^ (7 * k) * g) /\
    uint (7 * (k + 1)) (result + 2 ^ (7 * k) * g).
Proof.
  intros Hk Hr Hg. unfold shift64. rewrite (proj2 (Z.ltb_lt _ _)) by lia.
  eexists. split; [done|].
  assert (Hnext : uint (7 * (k + 1)) (result + 2 ^ (7 * k) * g)).
  { replace (7 * (k + 1)) with (7 * k + 7) by lia. apply uint_app; auto; lia. }
  assert (Hsmall : k <= 8 -> uint 64 (result + 2 ^ (7 * k) * g)).
  { intros H8. unfold uint in *. split; [lia|]. eapply Z.lt_le_trans; [apply Hnext|].
    apply Z.pow_le_mono_r; lia. }
  split; [|split; [intros H8; by apply wrap_small, Hsmall|done]].
  assert (Hp : 0 < 2 ^ (7 * k)) by (apply Z.pow_pos_nonneg; lia).
  assert (H64 : 2 ^ 64 = 2 ^ (7 * k) * 2 ^ (64 - 7 * k)) by (rewrite <- Z.pow_add_r by lia; f_equal; lia).
  unfold wrap at 1. rewrite Z.shiftl_mul_pow2, (Z.mul_comm g), H64, Z.mul_mod_distr_l by lia.
  rewrite (Z.mul_comm (2 ^ (7 * k)) (g mod _)), <- Z.shiftl_mul_pow2, lor_shiftl by (done || lia).
  unfold wrap. rewrite H64, (Z.mul_comm (2 ^ (7 * k)) g).
  rewrite Z.rem_mul_r, Z.mod_add, Z.div_add by lia. unfold uint in Hr.
  rewrite (Z.mod_small result), (Z.div_small result) by lia. f_equal.
Qed.

Section leb128.
Context (mem : byte_list) (r : ByteReader).

(** The byte of a group. *)
Lemma leb128_byte ptr g gs :
  groups_ok (g :: gs) -> holds mem ptr (leb128_bytes (g :: gs)) ->
  exists b, byte mem ptr = Ok b /\ Z.land b 0x7f = g /\
    (Z.land b 0x80 =? 0) = bool_decide (gs = []) /\
    (gs = [] -> b = g) /\ (gs <> [] -> holds mem (ptr + 1) (leb128_bytes gs)).
Proof.
  intros [_ Hgs] Hh. apply Forall_cons in Hgs as [Hg _].
  destruct (group_bits g Hg) as (H1 & H2 & H3 & H4 & _).
  destruct gs as [|g' gs].
  - exists g. rewrite bool_decide_eq_true_2 by done. split; [by eapply byte_0|]. split; [done|]. split; [done|]. split; [done|]. by intros [].
  - rewrite leb128_bytes_cons in Hh. exists (g + 128). rewrite bool_decide_eq_false_2 by done.
    split; [by eapply byte_0|]. split; [done|]. split; [done|]. split; [done|].
    intros _. by apply holds_tail in Hh.
Qed.

(** Past ten groups the shift is undefined. *)
Lemma leb128_over fuel ptr result num_read :
  uleb128_loop mem fuel ptr result num_read 70 = Undef /\
  sleb128_loop mem fuel ptr result num_read 70 = Undef.
Proof.
  destruct fuel as [|fuel]; [done|]. cbn [uleb128_loop sleb128_loop].
  destruct (byte mem ptr); cbn [obind]; done.
Qed.

Lemma uleb128_loop_spec gs : forall fuel ptr result num_read (k : Z),
  groups_ok gs -> holds mem ptr (leb128_bytes gs) -> (length gs < fuel)%nat ->
  0 <= k <= 9 -> uint (7 * k) result ->
  uleb128_loop mem fuel ptr result num_read (7 * k) =
    if k + Z.of_nat (length gs) <=? 10
    then Ok (wrap 64 (result + 2 ^ (7 * k) * groups_val gs), num_read + Z.of_nat (length gs))
    else Undef.
Proof.
  induction gs as [|g gs IH]; intros fuel ptr result num_read k Hgs Hh Hf Hk Hr; [by destruct Hgs|].
  destruct fuel as [|fuel]; [lia|]. cbn [uleb128_loop].
  destruct (leb128_byte ptr g gs Hgs Hh) as (b & -> & Hb7 & Hb8 & _ & Htail). cbn [obind].
  destruct Hgs as [_ Hgs]. apply Forall_cons in Hgs as [Hg Hgs].
  destruct (add_group result g k Hk Hr Hg) as (group & Hgroup & Hlor & Hsmall & Hnext).
  rewrite Hb7, Hgroup. cbn [obind]. rewrite Hb8, Hlor.
  destruct gs as [|g' gs].
  - rewrite bool_decide_eq_true_2 by done. cbn [negb length groups_val].
    rewrite (proj2 (Z.leb_le _ _)) by lia. replace (g + 128 * 0) with g by lia. done.
  - rewrite bool_decide_eq_false_2 by done. cbn [negb]. specialize (Htail ltac:(done)).
    destruct (Z.eq_dec k 9) as [->|Hk9].
    + change (7 * 9 + 7) with 70. rewrite (proj1 (leb128_over _ _ _ _)).
      by rewrite (proj2 (Z.leb_gt _ _)) by (cbn [length]; lia).
    + rewrite Hsmall by lia. replace (7 * k + 7) with (7 * (k + 1)) by lia.
      rewrite (IH fuel); [|by split|exact Htail|cbn [length] in *; lia|lia|exact Hnext].
      replace (k + 1 + Z.of_nat (length (g' :: gs))) with (k + Z.of_nat (length (g :: g' :: gs))) by (cbn [length]; lia).
      destruct (_ <=? 10); [|done].
      assert (result + 2 ^ (7 * k) * g + 2 ^ (7 * (k + 1)) * groups_val (g' :: gs) =
        result + 2 ^ (7 * k) * groups_val (g :: g' :: gs)) as ->.
      { replace (7 * (k + 1)) with (7 * k + 7) by lia. rewrite Z.pow_add_r by lia.
        change (groups_val (g :: g' :: gs)) with (g + 128 * groups_val (g' :: gs)). lia. }
      do 2 f_equal. cbn [length]. lia.
Qed.

(** The value the groups of a signed number give, [None] for the undefined
    executions. *)
Definition signed_groups (gs : list Z) : option Z :=
  let n := Z.of_nat (length gs) in
  if n <=? 8 then Some (swrap (7 * n) (groups_val gs))
  else if n =? 9 then (if groups_val gs <? 2 ^ 62 then Some (groups_val gs) else None)
  else if n =? 10 then Some (swrap 64 (groups_val gs))
  else None.

Lemma lor_negative a n : uint n a -> 0 <= n -> Z.lor a (- Z.shiftl 1 n) = a - 2 ^ n.
Proof.
  intros Ha Hn.
  replace (- Z.shiftl 1 n) with (Z.shiftl (-1) n) by (rewrite !Z.shiftl_mul_pow2 by done; lia).
  rewrite lor_shiftl by done. lia.
Qed.

Lemma swrap_low n a : 0 < n -> 0 <= a < 2 ^ n -> swrap n a = if a <? 2 ^ (n - 1) then a else a - 2 ^ n.
Proof.
  intros Hn Ha. assert (2 ^ n = 2 * 2 ^ (n - 1)) as Hp.
  { rewrite <- Z.pow_succ_r by lia. f_equal. lia. }
  destruct (Z.ltb_spec a (2 ^ (n - 1))).
  - apply swrap_small; lia.
  - unfold swrap. rewrite <- (Z.mod_unique_pos (a + 2 ^ (n - 1)) (2 ^ n) 1 (a - 2 ^ (n - 1))); lia.
Qed.

(** The sum of groups read at shift [7 k]. *)
Definition signed_result (result k : Z) (gs : list Z) : option Z :=
  let n := k + Z.of_nat (length gs) in
  let total := result + 2 ^ (7 * k) * groups_val gs in
  if n <=? 8 then Some (swrap (7 * n) total)
  else if n =? 9 then (if total <? 2 ^ 62 then Some total else None)
  else if n =? 10 then Some (swrap 64 total)
  else None.

Lemma signed_last result k g :
  0 <= k <= 9 -> uint (7 * k) result -> uint 7 g ->
  (let total := result + 2 ^ (7 * k) * g in
   if (7 * k + 7 <? 64) && negb (g <? 64) then
     let? bits := sign_bits (7 * k + 7) in Ok (Z.lor (swrap 64 total) bits)
   else Ok (swrap 64 total)) = of_option (signed_result result k [g]).
Proof.
  intros Hk Hr Hg. cbv zeta. unfold signed_result, sign_bits. cbn [length groups_val].
  change (Z.of_nat 1) with 1. replace (g + 128 * 0) with g by lia.
  set (total := result + 2 ^ (7 * k) * g).
  assert (Ht : uint (7 * (k + 1)) total).
  { replace (7 * (k + 1)) with (7 * k + 7) by lia. apply uint_app; auto; lia. }
  assert (Hbit : (total <? 2 ^ (7 * k + 6)) = (g <? 64)).
  { assert (2 ^ (7 * k + 6) = 2 ^ (7 * k) * 64) as -> by (rewrite Z.pow_add_r by lia; done).
    unfold total, uint in *. destruct (Z.ltb_spec g 64); [apply Z.ltb_lt|apply Z.ltb_ge]; nia. }
  destruct (Z.leb_spec (k + 1) 8) as [H8|H8].
  - assert (Hp : 2 ^ (7 * (k + 1)) <= 2 ^ 63) by (apply Z.pow_le_mono_r; lia).
    rewrite (swrap_small 64 total) by (unfold uint in Ht; change (64 - 1) with 63; lia).
    rewrite (swrap_low (7 * (k + 1))) by (exact Ht || lia).
    replace (7 * (k + 1) - 1) with (7 * k + 6) by lia. rewrite Hbit.
    rewrite !(proj2 (Z.ltb_lt (7 * k + 7) _)) by lia. cbn [andb].
    destruct (g <? 64); cbn [negb obind of_option]; [done|].
    replace (7 * k + 7) with (7 * (k + 1)) by lia. rewrite lor_negative by (done || lia). done.
  - destruct (Z.eqb_spec (k + 1) 9) as [H9|H9].
    + replace k with 8 in * by lia. change (7 * 8 + 7) with 63. change (7 * 8 + 6) with 62 in Hbit.
      rewrite Hbit. change (7 * (8 + 1)) with 63 in Ht. unfold uint in Ht.
      rewrite (swrap_small 64 total) by (change (64 - 1) with 63; lia).
      by destruct (g <? 64).
    + replace k with 9 in * by lia. done.
Qed.

Lemma sleb128_loop_spec gs : forall fuel ptr result num_read (k : Z),
  groups_ok gs -> holds mem ptr (leb128_bytes gs) -> (length gs < fuel)%nat ->
  0 <= k <= 9 -> uint (7 * k) result ->
  sleb128_loop mem fuel ptr result num_read (7 * k) =
    (let? v := of_option (signed_result result k gs) in Ok (v, num_read + Z.of_nat (length gs))).
Proof.
  induction gs as [|g gs IH]; intros fuel ptr result num_read k Hgs Hh Hf Hk Hr; [by destruct Hgs|].
  destruct fuel as [|fuel]; [lia|]. cbn [sleb128_loop].
  destruct (leb128_byte ptr g gs Hgs Hh) as (b & -> & Hb7 & Hb8 & Hb & Htail). cbn [obind].
  destruct Hgs as [_ Hgs]. apply Forall_cons in Hgs as [Hg Hgs].
  destruct (add_group result g k Hk Hr Hg) as (group & Hgroup & Hlor & Hsmall & Hnext).
  assert (Hr64 : wrap 64 result = result).
  { apply wrap_small. unfold uint in *. split; [lia|]. eapply Z.lt_le_trans; [apply Hr|].
    apply Z.pow_le_mono_r; lia. }
  rewrite Hb7, Hgroup. cbn [obind]. rewrite Hb8, Hr64, Hlor.
  assert (Hsw : swrap 64 (wrap 64 (result + 2 ^ (7 * k) * g)) = swrap 64 (result + 2 ^ (7 * k) * g)).
  { unfold swrap, wrap. by rewrite Zplus_mod_idemp_l. }
  destruct gs as [|g' gs].
  - rewrite bool_decide_eq_true_2, Hb by done. cbn [negb].
    destruct (group_bits g Hg) as (_ & _ & _ & _ & ->). rewrite Hsw, <- signed_last by done. cbv zeta.
    cbn [length]. change (Z.of_nat 1) with 1.
    destruct (_ && _); cbn [obind]; [|done]. by destruct (sign_bits _).
  - rewrite bool_decide_eq_false_2 by done. cbn [negb]. specialize (Htail ltac:(done)).
    destruct (Z.eq_dec k 9) as [->|Hk9].
    + change (7 * 9 + 7) with 70. rewrite (proj2 (leb128_over _ _ _ _)).
      unfold signed_result. rewrite (proj2 (Z.leb_gt _ _)) by (cbn [length]; lia).
      rewrite !(proj2 (Z.eqb_neq _ _)) by (cbn [length]; lia). done.
    + assert (swrap 64 (result + 2 ^ (7 * k) * g) = result + 2 ^ (7 * k) * g) as Hss.
      { apply swrap_small; [lia|]. unfold uint in Hnext.
        assert (2 ^ (7 * (k + 1)) <= 2 ^ 63) by (apply Z.pow_le_mono_r; lia). change (64 - 1) with 63. lia. }
      rewrite Hsw, Hss. replace (7 * k + 7) with (7 * (k + 1)) by lia.
      rewrite (IH fuel); [|by split|exact Htail|cbn [length] in *; lia|lia|exact Hnext].
      assert (signed_result (result + 2 ^ (7 * k) * g) (k + 1) (g' :: gs) =
              signed_result result k (g :: g' :: gs)) as ->.
      { unfold signed_result.
        replace (k + 1 + Z.of_nat (length (g' :: gs))) with (k + Z.of_nat (length (g :: g' :: gs))) by (cbn [length]; lia).
        assert (result + 2 ^ (7 * k) * g + 2 ^ (7 * (k + 1)) * groups_val (g' :: gs) =
          result + 2 ^ (7 * k) * groups_val (g :: g' :: gs)) as ->; [|done].
        replace (7 * (k + 1)) with (7 * k + 7) by lia. rewrite Z.pow_add_r by lia.
        change (groups_val (g :: g' :: gs)) with (g + 128 * groups_val (g' :: gs)). lia. }
      destruct (of_option _); cbn [obind]; [|done]. do 2 f_equal. cbn [length]. lia.
Qed.
End leb128.

(** ** The encodings of the header's comments *)

(** The groups of an unsigned number, the last one first below 128. *)
Fixpoint unsigned_groups_of (fuel : nat) (n : Z) : list Z :=
  match fuel with
  | O => []
  | S fuel => if n <? 128 then [n] else n mod 128 :: unsigned_groups_of fuel (n / 128)
  end.

(** The groups of a signed number, in two's complement. *)
Fixpoint signed_groups_of (fuel : nat) (z : Z) : list Z :=
  match fuel with
  | O => []
  | S fuel =>
      if (-64 <=? z) && (z <? 64) then [z mod 128]
      else z mod 128 :: signed_groups_of fuel (z / 128)
  end.

(** Ten groups are enough for 64 bits. *)
Definition uleb128 (n : Z) : byte_list := leb128_bytes (unsigned_groups_of 10 n).
Definition sleb128 (z : Z) : byte_list := leb128_bytes (signed_groups_of 10 z).

Lemma mod_group z : uint 7 (z mod 128).
Proof. change 128 with (2 ^ 7). apply Z.mod_pos_bound. lia. Qed.

Lemma unsigned_groups_spec fuel : forall n,
  0 <= n < 2 ^ (7 * Z.of_nat fuel) -> fuel <> 0%nat ->
  groups_ok (unsigned_groups_of fuel n) /\ groups_val (unsigned_groups_of fuel n) = n /\
  (length (unsigned_groups_of fuel n) <= fuel)%nat.
Proof.
  induction fuel as [|fuel IH]; intros n Hn Hf; [done|]. cbn [unsigned_groups_of].
  destruct (Z.ltb_spec n 128) as [Hlt|Hge].
  - split; [|cbn; lia]. split; [done|]. apply Forall_cons. split; [unfold uint; lia|by apply Forall_nil].
  - assert (fuel <> 0%nat) as Hf' by (intros ->; change (2 ^ (7 * Z.of_nat 1)) with 128 in Hn; lia).
    replace (7 * Z.of_nat (S fuel)) with (7 + 7 * Z.of_nat fuel) in Hn by lia.
    rewrite Z.pow_add_r in Hn by lia. change (2 ^ 7) with 128 in Hn.
    destruct (IH (n / 128)) as ((Hne & Hok) & Hval & Hlen); [|done|].
    { split; [apply Z.div_pos; lia|]. apply Z.div_lt_upper_bound; lia. }
    split; [split; [done|]|split].
    + apply Forall_cons. split; [apply mod_group|done].
    + cbn [groups_val]. rewrite Hval. pose proof (Z.div_mod n 128). lia.
    + cbn [length]. lia.
Qed.

(** The numbers of [n] groups. *)
Definition signed_fits (n z : Z) : Prop := - 2 ^ (7 * n - 1) <= z < 2 ^ (7 * n - 1).

Lemma signed_fits_div n z : 1 <= n -> signed_fits n (z / 128) <-> signed_fits (n + 1) z.
Proof.
  intros Hn. unfold signed_fits. replace (7 * (n + 1) - 1) with (7 + (7 * n - 1)) by lia.
  rewrite Z.pow_add_r by lia. change (2 ^ 7) with 128.
  pose proof (Z.div_mod z 128 ltac:(lia)). pose proof (Z.mod_pos_bound z 128 ltac:(lia)). nia.
Qed.

Lemma signed_groups_spec fuel : forall z,
  signed_fits (Z.of_nat fuel) z -> fuel <> 0%nat ->
  let gs := signed_groups_of fuel z in
  let n := Z.of_nat (length gs) in
  groups_ok gs /\ groups_val gs = z mod 2 ^ (7 * n) /\ 1 <= n <= Z.of_nat fuel /\
  signed_fits n z /\ (n = 1 \/ ~ signed_fits (n - 1) z).
Proof.
  induction fuel as [|fuel IH]; intros z Hz Hf; [done|]. cbv zeta. cbn [signed_groups_of].
  destruct ((-64 <=? z) && (z <? 64)) eqn:E.
  - to_prop. cbn [length]. change (7 * Z.of_nat 1) with 7. change (2 ^ 7) with 128. split.
    { split; [done|]. apply Forall_cons. split; [apply mod_group|by apply Forall_nil]. }
    split; [cbn [groups_val]; lia|]. split; [lia|]. split; [|by left].
    unfold signed_fits. change (7 * Z.of_nat 1 - 1) with 6. change (2 ^ 6) with 64. lia.
  - assert (~ signed_fits 1 z) as Hz1.
    { unfold signed_fits. change (2 ^ (7 * 1 - 1)) with 64. apply andb_false_iff in E.
      rewrite Z.leb_gt, Z.ltb_ge in E. lia. }
    assert (fuel <> 0%nat) as Hf' by (by intros ->).
    destruct (IH (z / 128)) as ((Hne & Hok) & Hval & Hlen & Hfit & Hmin); [|done|].
    { apply signed_fits_div; [lia|]. by replace (Z.of_nat fuel + 1) with (Z.of_nat (S fuel)) by lia. }
    set (gs := signed_groups_of fuel (z / 128)) in *. cbn [length].
    replace (Z.of_nat (S (length gs))) with (Z.of_nat (length gs) + 1) by lia.
    split; [|split; [|split; [lia|split]]].
    + split; [done|]. apply Forall_cons. split; [apply mod_group|done].
    + cbn [groups_val]. rewrite Hval.
      replace (7 * (Z.of_nat (length gs) + 1)) with (7 + 7 * Z.of_nat (length gs)) by lia.
      rewrite Z.pow_add_r by lia. change (2 ^ 7) with 128. rewrite Z.rem_mul_r; lia.
    + apply signed_fits_div; [lia|done].
    + right. replace (Z.of_nat (length gs) + 1 - 1) with (Z.of_nat (length gs)) by lia.
      destruct Hmin as [->|Hmin]; [done|]. intros Hfit'. apply Hmin.
      destruct (Z.eq_dec (Z.of_nat (length gs)) 1) as [H1|H1]; [by rewrite H1 in Hfit'|].
      apply signed_fits_div; [lia|]. by replace (Z.of_nat (length gs) - 1 + 1) with (Z.of_nat (length gs)) by lia.
Qed.

Lemma swrap_mod n z : 0 < n -> swrap n (z mod 2 ^ n) = swrap n z.
Proof. intros Hn. unfold swrap. by rewrite Zplus_mod_idemp_l. Qed.

(** Numbers of exactly nine groups that are negative. *)
Definition nine_groups (z : Z) : bool := (- 2 ^ 62 <=? z) && (z <? - 2 ^ 55).

Lemma signed_groups_of_value z :
  - 2 ^ 63 <= z < 2 ^ 63 ->
  signed_groups (signed_groups_of 10 z) = if nine_groups z then None else Some z.
Proof.
  intros Hz. destruct (signed_groups_spec 10 z) as (_ & Hval & Hn & Hfit & Hmin);
    [unfold signed_fits; cbn; lia|done|].
  unfold signed_groups, nine_groups. rewrite Hval.
  set (n := Z.of_nat (length (signed_groups_of 10 z))) in *. clearbody n. unfold signed_fits in *.
  destruct (Z.leb_spec n 8) as [H8|H8].
  - assert (2 ^ (7 * n - 1) <= 2 ^ 55) by (apply Z.pow_le_mono_r; lia).
    rewrite (proj2 (Z.ltb_ge z (- 2 ^ 55))), andb_false_r by lia.
    rewrite swrap_mod, swrap_small by lia. done.
  - destruct (Z.eqb_spec n 9) as [->|H9].
    + change (7 * 9) with 63 in *. change (63 - 1) with 62 in *. change (7 * (9 - 1) - 1) with 55 in Hmin.
      rewrite (proj2 (Z.leb_le (- 2 ^ 62) z)) by lia. cbn [andb].
      destruct (Z.lt_ge_cases z 0) as [Hneg|Hpos].
      * rewrite (proj2 (Z.ltb_lt z _)) by lia.
        rewrite <- (Z.mod_unique_pos z (2 ^ 63) (-1) (z + 2 ^ 63)) by lia.
        by rewrite (proj2 (Z.ltb_ge _ _)) by lia.
      * rewrite (proj2 (Z.ltb_ge z _)), Z.mod_small, (proj2 (Z.ltb_lt _ _)) by lia. done.
    + assert (n = 10) as -> by lia. cbn [Z.eqb Pos.eqb]. change (7 * (10 - 1) - 1) with 62 in Hmin.
      assert (((- 2 ^ 62 <=? z) && (z <? - 2 ^ 55)) = false) as ->.
      { apply andb_false_iff. rewrite Z.leb_gt, Z.ltb_ge. lia. }
      f_equal. change (7 * 10) with (64 + 6). unfold swrap.
      rewrite <- Zplus_mod_idemp_l. rewrite Z.pow_add_r by lia.
      rewrite Z.rem_mul_r by lia. rewrite (Z.mul_comm (2 ^ 64)), Z_mod_plus_full, Zmod_mod, Zplus_mod_idemp_l.
      rewrite Z.mod_small by (change (64 - 1) with 63; lia). lia.
Qed.

(** ** Properties of the integers *)

(** A reader whose next initial lengths and offsets have [size] bytes. *)
Definition reads_offsets (mem : byte_list) (r : ByteReader) (size : Z) : Prop :=
  OffsetSize r = size /\
  forall ptr z, uint (8 * size) z -> holds mem ptr (bytes_of (endian_ r) (Z.to_nat size) z) ->
    ReadOffset mem r ptr = Ok z.

(** [ReadOneByte] to [ReadEightBytes] read back every integer of their size
    stored in the reader's byte order; [ReadInitialLength] reads both forms of
    an initial length (four bytes, or four 0xff bytes and eight more), with
    their lengths, and sets the size of the offsets [ReadOffset] reads. *)
Theorem fixed_size_functional mem r buffer z :
  let at_buffer n := uint (8 * Z.of_nat n) z /\ holds mem buffer (bytes_of (endian_ r) n z) in
  (at_buffer 1%nat -> ReadOneByte mem r buffer = Ok z) /\
  (at_buffer 2%nat -> ReadTwoBytes mem r buffer = Ok z) /\
  (at_buffer 3%nat -> ReadThreeBytes mem r buffer = Ok z) /\
  (at_buffer 4%nat -> ReadFourBytes mem r buffer = Ok z) /\
  (at_buffer 8%nat -> ReadEightBytes mem r buffer = Ok z) /\
  (at_buffer 4%nat -> z <> 0xffffffff ->
   exists r', ReadInitialLength mem r buffer = Ok (z, 4, r') /\ reads_offsets mem r' 4) /\
  (uint 64 z -> holds mem buffer (bytes_of (endian_ r) 4 0xffffffff ++ bytes_of (endian_ r) 8 z) ->
   exists r', ReadInitialLength mem r buffer = Ok (z, 12, r') /\ reads_offsets mem r' 8).
Proof.
  intros at_buffer.
  assert (Hint : forall endian n x, uint (8 * Z.of_nat n) x -> int_of endian (bytes_of endian n x) = x).
  { intros endian n x Hx. rewrite int_of_bytes_of. by apply wrap_small. }
  assert (Hok : forall n x, bytes_ok (bytes_of (endian_ r) n x)) by (intros; apply bytes_of_ok).
  assert (Hlen : forall n x, length (bytes_of (endian_ r) n x) = n) by (intros; apply bytes_of_ok).
  assert (Hoff : forall size r', size = 4 \/ size = 8 -> endian_ r' = endian_ r ->
    offset_size_ r' = size -> offset_reader_ r' = Some (reader_of_size size) -> reads_offsets mem r' size).
  { intros size r' Hs He Hsz Hrd. split; [done|]. intros ptr x Hx Hh. unfold ReadOffset.
    rewrite Hrd, (call_reader_spec mem r' size ptr _ Hs Hh); rewrite ?He in *; [|done|rewrite Hlen; lia].
    rewrite Hint; [done|]. by replace (8 * Z.of_nat (Z.to_nat size)) with (8 * size) by lia. }
  assert (H4 : forall x ptr, uint 32 x -> holds mem ptr (bytes_of (endian_ r) 4 x) ->
    ReadFourBytes mem r ptr = Ok x).
  { intros x ptr Hx Hh. rewrite (ReadFourBytes_spec _ _ _ _ Hh) by done. by rewrite Hint. }
  split; [|split; [|split; [|split; [|split; [|split]]]]].
  - intros [Hz Hh]. unfold ReadOneByte.
    assert (bytes_of (endian_ r) 1 z = [z]) as E.
    { destruct (endian_ r); cbn; by rewrite wrap_small by exact Hz. }
    rewrite E in Hh. by eapply byte_0.
  - intros [Hz Hh]. rewrite (ReadTwoBytes_spec _ _ _ _ Hh) by done. by rewrite Hint.
  - intros [Hz Hh]. rewrite (ReadThreeBytes_spec _ _ _ _ Hh) by done. by rewrite Hint.
  - intros [Hz Hh]. by apply H4.
  - intros [Hz Hh]. rewrite (ReadEightBytes_spec _ _ _ _ Hh) by done. by rewrite Hint.
  - intros [Hz Hh] Hne. unfold ReadInitialLength. rewrite (H4 z buffer Hz Hh). cbn [obind].
    rewrite (proj2 (Z.eqb_neq _ _)) by done. cbn [SetOffsetSize Z.eqb Pos.eqb orb negb obind].
    eexists. split; [done|]. apply Hoff; auto.
  - intros Hz [Hh1 Hh2]%holds_app. unfold ReadInitialLength.
    rewrite (H4 0xffffffff buffer) by (done || unfold uint; lia). cbn [obind].
    change (0xffffffff =? 0xffffffff) with true. cbv iota.
    cbn [SetOffsetSize Z.eqb Pos.eqb orb negb obind]. rewrite Hlen in Hh2.
    set (r' := mkByteReader _ _ _ _ _ _ _ _ _ _ _ _ _ _).
    assert (reads_offsets mem r' 8) as Hr' by (apply Hoff; auto).
    rewrite (proj2 Hr' (buffer + 4) z Hz Hh2). cbn [obind]. eauto.
Qed.
Lemma fixed_size_functional_witness :
  let r := mkByteReader None None ENDIANNESS_BIG 0 0 false false false false 0 0 0 0 0 in
  ReadThreeBytes [9; 1; 2; 3] r 1 = Ok 0x010203.
Proof.
  intros r. apply (fixed_size_functional [9; 1; 2; 3] r 1 0x010203).
  split; [unfold uint; cbn; lia|]. split; [lia|]. split; [cbn; lia|].
  intros [|[|[|i]]] b; cbn; [by intros [= <-]..|done].
Defined.

(** Reading groups of seven bits. *)
Lemma LEB128_groups mem r buffer gs :
  groups_ok gs -> holds mem buffer (leb128_bytes gs) ->
  ReadUnsignedLEB128 mem r buffer =
    (if Z.of_nat (length gs) <=? 10 then Ok (wrap 64 (groups_val gs), Z.of_nat (length gs)) else Undef) /\
  ReadSignedLEB128 mem r buffer =
    (let? v := of_option (signed_groups gs) in Ok (v, Z.of_nat (length gs))).
Proof.
  intros Hgs Hh. assert (length gs < S (length mem))%nat as Hl.
  { pose proof Hh as (Hp & Hl & _). rewrite length_leb128_bytes in Hl. lia. }
  unfold ReadUnsignedLEB128, ReadSignedLEB128. change 0 with (7 * 0) at 3 6.
  rewrite (uleb128_loop_spec mem gs _ _ 0 0 0 Hgs Hh Hl) by (done || lia).
  rewrite (sleb128_loop_spec mem gs _ _ 0 0 0 Hgs Hh Hl) by (done || lia).
  assert (signed_result 0 0 gs = signed_groups gs) as ->.
  { unfold signed_result, signed_groups. by rewrite Z.mul_0_r, Z.pow_0_r, Z.mul_1_l, !Z.add_0_l. }
  rewrite Z.mul_0_r, Z.pow_0_r, Z.mul_1_l, !Z.add_0_l. done.
Qed.

(** Reading back an encoded number. *)
Lemma ReadUnsignedLEB128_encoded mem r buffer n :
  uint 64 n -> holds mem buffer (uleb128 n) ->
  ReadUnsignedLEB128 mem r buffer = Ok (n, Z.of_nat (length (uleb128 n))).
Proof.
  intros Hn Hh. destruct (unsigned_groups_spec 10 n) as (Hok & Hval & Hlen);
    [unfold uint in Hn; cbn; lia|done|].
  destruct (LEB128_groups mem r buffer _ Hok Hh) as [-> _]. unfold uleb128. rewrite length_leb128_bytes.
  rewrite (proj2 (Z.leb_le _ _)) by lia. by rewrite Hval, wrap_small.
Qed.

Lemma ReadSignedLEB128_encoded mem r buffer z :
  - 2 ^ 63 <= z < 2 ^ 63 -> holds mem buffer (sleb128 z) ->
  ReadSignedLEB128 mem r buffer =
    if nine_groups z then Undef else Ok (z, Z.of_nat (length (sleb128 z))).
Proof.
  intros Hz Hh. destruct (signed_groups_spec 10 z) as (Hok & _);
    [unfold signed_fits; cbn; lia|done|].
  destruct (LEB128_groups mem r buffer _ Hok Hh) as [_ ->]. unfold sleb128. rewrite length_leb128_bytes.
  rewrite signed_groups_of_value by done. by destruct (nine_groups z).
Qed.

(** C36: on every sequence of groups of seven bits that ends with a byte without
    the continuation bit, [ReadUnsignedLEB128] returns its value modulo 2^64 and
    its length, when it has at most ten bytes; [ReadSignedLEB128] the value in
    two's complement, except that the execution is undefined on negative numbers
    of nine bytes (the least [int64_t] is negated).  Both read back what the
    header's encoding of a 64-bit number writes, with that exception. *)
Theorem LEB128_functional mem r buffer :
  (forall gs, groups_ok gs -> holds mem buffer (leb128_bytes gs) ->
     ReadUnsignedLEB128 mem r buffer =
       (if Z.of_nat (length gs) <=? 10 then Ok (wrap 64 (groups_val gs), Z.of_nat (length gs)) else Undef) /\
     ReadSignedLEB128 mem r buffer =
       (let? v := of_option (signed_groups gs) in Ok (v, Z.of_nat (length gs)))) /\
  (forall n, uint 64 n -> holds mem buffer (uleb128 n) ->
     ReadUnsignedLEB128 mem r buffer = Ok (n, Z.of_nat (length (uleb128 n)))) /\
  (forall z, - 2 ^ 63 <= z < 2 ^ 63 -> holds mem buffer (sleb128 z) ->
     ReadSignedLEB128 mem r buffer =
       if nine_groups z then Undef else Ok (z, Z.of_nat (length (sleb128 z)))).
Proof.
  split; [intros gs; apply LEB128_groups|].
  split; [apply ReadUnsignedLEB128_encoded | apply ReadSignedLEB128_encoded].
Qed.
Lemma LEB128_functional_witness :
  let r := mkByteReader None None ENDIANNESS_LITTLE 0 0 false false false false 0 0 0 0 0 in
  ReadSignedLEB128 [0x80; 0x7f; 5] r 0 = Ok (-128, 2).
Proof.
  intros r. apply (proj2 (proj2 (LEB128_functional [0x80; 0x7f; 5] r 0)) (-128)); [lia|].
  split; [lia|]. split; [vm_compute; done|].
  intros [|[|i]] b; vm_compute; [by intros [= <-]..|done].
Defined.

(** ** Encoded pointers *)

(** After [SetAddressSize(size)]. *)
Definition has_address_size (r : ByteReader) (size : Z) : Prop :=
  (size = 4 \/ size = 8) /\ address_size_ r = size /\ address_reader_ r = Some (reader_of_size size).

Lemma SetAddressSize_spec r size :
  size = 4 \/ size = 8 -> exists r', SetAddressSize r size = Ok r' /\ has_address_size r' size.
Proof. intros [-> | ->]; eexists; repeat split; auto. Qed.

(** The bytes [bs] are a field of the format (the low nybble of an encoding)
    with the value [v]. *)
Inductive field (endian : Endianness) (size : Z) : Z -> byte_list -> Z -> Prop :=
| field_absptr v : uint (8 * size) v ->
    field endian size DW_EH_PE_absptr (bytes_of endian (Z.to_nat size) v) v
| field_unsigned format n v :
    In (format, n) [(DW_EH_PE_udata2, 2%nat); (DW_EH_PE_udata4, 4%nat); (DW_EH_PE_udata8, 8%nat)] ->
    uint (8 * Z.of_nat n) v -> field endian size format (bytes_of endian n v) v
| field_signed format n v :
    In (format, n) [(DW_EH_PE_sdata2, 2%nat); (DW_EH_PE_sdata4, 4%nat); (DW_EH_PE_sdata8, 8%nat)] ->
    - 2 ^ (8 * Z.of_nat n - 1) <= v < 2 ^ (8 * Z.of_nat n - 1) ->
    field endian size format (bytes_of endian n v) v
| field_uleb128 v : uint 64 v -> field endian size DW_EH_PE_uleb128 (uleb128 v) v
| field_sleb128 v : - 2 ^ 63 <= v < 2 ^ 63 -> nine_groups v = false ->
    field endian size DW_EH_PE_sleb128 (sleb128 v) v.

(** The address the value is relative to. *)
Definition base_address (r : ByteReader) (buffer encoding : Z) : Z :=
  let base := Z.land encoding 0x70 in
  if base =? DW_EH_PE_pcrel then section_base_ r + (buffer - buffer_base_ r)
  else if base =? DW_EH_PE_textrel then text_base_ r
  else if base =? DW_EH_PE_datarel then data_base_ r
  else if base =? DW_EH_PE_funcrel then function_base_ r
  else 0.

(** The idiom [(x ^ sign) - sign] extends the sign of [n] bits. *)
Lemma sign_extend n v :
  0 < n <= 64 -> - 2 ^ (n - 1) <= v < 2 ^ (n - 1) ->
  Z.lxor (wrap n v) (2 ^ (n - 1)) - 2 ^ (n - 1) = v.
Proof.
  intros Hn Hv. assert (2 ^ n = 2 * 2 ^ (n - 1)) as Hp.
  { rewrite <- Z.pow_succ_r by lia. f_equal. lia. }
  assert (Hlow : forall x, 0 <= x < 2 ^ (n - 1) -> Z.lxor x (2 ^ (n - 1)) = x + 2 ^ (n - 1)).
  { intros x Hx. rewrite <- Z.add_nocarry_lxor; [done|].
    replace (2 ^ (n - 1)) with (Z.shiftl 1 (n - 1)) by (rewrite Z.shiftl_mul_pow2 by lia; lia).
    apply Z.bits_inj'. intros i Hi. rewrite Z.land_spec, Z.testbit_0_l.
    destruct (Z.lt_ge_cases i (n - 1)).
    - rewrite Z.shiftl_spec_low by done. apply andb_false_r.
    - rewrite <- (Z.mod_small x (2 ^ (n - 1))) by done. by rewrite Z.mod_pow2_bits_high by lia. }
  destruct (Z.lt_ge_cases v 0) as [Hneg|Hpos].
  - unfold wrap. rewrite <- (Z.mod_unique_pos v (2 ^ n) (-1) (v + 2 ^ n)) by lia.
    replace (v + 2 ^ n) with ((v + 2 ^ (n - 1)) + 2 ^ (n - 1)) by lia.
    rewrite <- (Hlow (v + 2 ^ (n - 1))), Z.lxor_assoc, Z.lxor_nilpotent, Z.lxor_0_r by lia. lia.
  - rewrite wrap_small by (unfold uint; lia). rewrite Hlow by lia. lia.
Qed.

Lemma sign_extend_16 v :
  - 2 ^ 15 <= v < 2 ^ 15 -> wrap 64 (wrap 64 (Z.lxor (wrap 16 v) 0x8000 - 0x8000)) = wrap 64 v.
Proof.
  intros Hv. rewrite wrap_wrap. change 0x8000 with (2 ^ (16 - 1)). by rewrite sign_extend by (done || lia).
Qed.

Lemma sign_extend_32 v :
  - 2 ^ 31 <= v < 2 ^ 31 -> wrap 64 (wrap 64 (Z.lxor (wrap 32 v) 0x80000000 - 0x80000000)) = wrap 64 v.
Proof.
  intros Hv. rewrite wrap_wrap. change 0x80000000 with (2 ^ (32 - 1)). by rewrite sign_extend by (done || lia).
Qed.

(** Reading a field gives its value modulo 2^64. *)
Lemma encoded_offset_spec mem r size buffer encoding bs v :
  has_address_size r size -> field (endian_ r) size (Z.land encoding 0x0f) bs v -> holds mem buffer bs ->
  exists offset, encoded_offset mem r buffer encoding = Ok (offset, Z.of_nat (length bs)) /\
    wrap 64 offset = wrap 64 v.
Proof.
  intros (Hsize & Has & Har) Hf Hh. unfold encoded_offset.
  pose proof (ReadUnsignedLEB128_encoded mem r buffer) as Hu.
  pose proof (ReadSignedLEB128_encoded mem r buffer) as Hs.
  destruct Hf as [v Hv|format n v Hin Hv|format n v Hin Hv|v Hv|v Hv Hnine].
  - assert (Z.of_nat (length (bytes_of (endian_ r) (Z.to_nat size) v)) = size) as Hl
      by (rewrite (proj2 (bytes_of_ok _ _ _)); lia).
    change (DW_EH_PE_absptr =? DW_EH_PE_absptr) with true. cbv iota. unfold ReadAddress, AddressSize.
    rewrite Har, (call_reader_spec mem r size buffer _ Hsize Hh (proj1 (bytes_of_ok _ _ _)) Hl).
    cbn [obind]. rewrite Has, Hl, int_of_bytes_of.
    eexists. split; [done|]. f_equal. apply wrap_small.
    by replace (8 * Z.of_nat (Z.to_nat size)) with (8 * size) by lia.
  - destruct (bytes_of_ok (endian_ r) n v) as [Hok Hl]. rewrite Hl.
    destruct Hin as [[= <- <-]|[[= <- <-]|[[= <- <-]|[]]]]; cbn [Z.eqb Pos.eqb DW_EH_PE_absptr DW_EH_PE_uleb128
      DW_EH_PE_udata2 DW_EH_PE_udata4 DW_EH_PE_udata8];
      [ rewrite (ReadTwoBytes_spec mem r buffer _ Hh Hok Hl)
      | rewrite (ReadFourBytes_spec mem r buffer _ Hh Hok Hl)
      | rewrite (ReadEightBytes_spec mem r buffer _ Hh Hok Hl) ]; cbn [obind];
      (eexists; split; [done|]; rewrite int_of_bytes_of; f_equal; by apply wrap_small).
  - destruct (bytes_of_ok (endian_ r) n v) as [Hok Hl]. rewrite Hl.
    destruct Hin as [[= <- <-]|[[= <- <-]|[[= <- <-]|[]]]]; cbn [Z.eqb Pos.eqb DW_EH_PE_absptr DW_EH_PE_uleb128
      DW_EH_PE_udata2 DW_EH_PE_udata4 DW_EH_PE_udata8 DW_EH_PE_sleb128 DW_EH_PE_sdata2 DW_EH_PE_sdata4 DW_EH_PE_sdata8];
      [ rewrite (ReadTwoBytes_spec mem r buffer _ Hh Hok Hl)
      | rewrite (ReadFourBytes_spec mem r buffer _ Hh Hok Hl)
      | rewrite (ReadEightBytes_spec mem r buffer _ Hh Hok Hl) ]; cbn [obind];
      (eexists; split; [done|]; rewrite int_of_bytes_of).
    + by apply sign_extend_16.
    + by apply sign_extend_32.
    + apply wrap_wrap.
  - cbn [Z.eqb Pos.eqb DW_EH_PE_absptr DW_EH_PE_uleb128]. rewrite (Hu v Hv Hh). eauto.
  - cbn [Z.eqb Pos.eqb DW_EH_PE_absptr DW_EH_PE_uleb128 DW_EH_PE_udata2 DW_EH_PE_udata4 DW_EH_PE_udata8
      DW_EH_PE_sleb128].
    rewrite (Hs v Hv Hh), Hnine. cbn [obind]. eexists. split; [done|]. apply wrap_wrap.
Qed.

Lemma encoded_base_spec r buffer encoding :
  UsableEncoding r encoding = true ->
  exists base, encoded_base r buffer encoding = Ok base /\
    wrap 64 base = wrap 64 (base_address r buffer encoding).
Proof.
  unfold UsableEncoding, encoded_base, base_address. cbv zeta. unfold checked.
  destruct (Z.land encoding 0x70 =? DW_EH_PE_absptr) eqn:E0.
  { intros _. apply Z.eqb_eq in E0. rewrite E0. exists 0. split; [done|]. done. }
  repeat match goal with |- context [Z.land encoding 0x70 =? ?k] => destruct (Z.land encoding 0x70 =? k) end;
    intros H; try rewrite H; try discriminate; (eexists; split; [done|]; done || apply wrap_wrap).
Qed.

(** The base and the offset, modulo the size of an address. *)
Lemma ReadEncodedPointer_field mem r size buffer encoding bs v :
  has_address_size r size -> encoding <> DW_EH_PE_omit -> encoding <> DW_EH_PE_aligned ->
  UsableEncoding r encoding = true ->
  field (endian_ r) size (Z.land encoding 0x0f) bs v -> holds mem buffer bs ->
  ReadEncodedPointer mem r buffer encoding =
    Ok (wrap (8 * size) (base_address r buffer encoding + v), Z.of_nat (length bs)).
Proof.
  intros Hr Homit Hal Huse Hf Hh. unfold ReadEncodedPointer.
  rewrite (proj2 (Z.eqb_neq _ _) Homit), (proj2 (Z.eqb_neq _ _) Hal).
  destruct (encoded_offset_spec mem r size buffer encoding bs v Hr Hf Hh) as (offset & -> & Ho).
  destruct (encoded_base_spec r buffer encoding Huse) as (base & Hb & Hbase).
  cbn [obind]. rewrite Hb. cbn [obind].
  assert (wrap 64 (base + offset) = wrap 64 (base_address r buffer encoding + v)) as ->.
  { by rewrite <- wrap_add_l, <- wrap_add_r, Hbase, Ho, wrap_add_r, wrap_add_l. }
  destruct Hr as ([-> | ->] & Has & _); unfold AddressSize; rewrite Has; cbn [Z.eqb Pos.eqb].
  - change 0xffffffff with (Z.ones 32). rewrite Z.land_ones by lia. do 2 f_equal.
    unfold wrap. change (8 * 4) with 32. change (2 ^ 64) with (2 ^ 32 * 2 ^ 32).
    rewrite Z.rem_mul_r by lia. rewrite (Z.mul_comm (2 ^ 32) (_ mod _)), Z_mod_plus_full. apply Zmod_mod.
  - done.
Qed.

(** [(x & -size)] rounds down. *)
Lemma land_neg_size x k : uint 64 x -> 0 <= k < 64 -> Z.land x (wrap 64 (- 2 ^ k)) = x - x mod 2 ^ k.
Proof.
  intros Hx Hk.
  assert (Z.land x (wrap 64 (- 2 ^ k)) = Z.ldiff x (Z.ones k)) as ->.
  { apply Z.bits_inj'. intros i Hi. rewrite Z.land_spec, Z.ldiff_spec. unfold wrap.
    destruct (Z.lt_ge_cases i 64) as [H64|H64].
    - rewrite Z.mod_pow2_bits_low by lia. f_equal.
      replace (- 2 ^ k) with (Z.lnot (Z.ones k)) by (unfold Z.lnot; rewrite Z.ones_equiv; lia).
      by rewrite Z.lnot_spec.
    - unfold uint in Hx. rewrite <- (Z.mod_small x (2 ^ 64)) by done.
      by rewrite Z.mod_pow2_bits_high by lia. }
  rewrite Z.ldiff_ones_r by lia. rewrite Z.shiftl_mul_pow2, Z.shiftr_div_pow2 by lia.
  pose proof (Z.div_mod x (2 ^ k)). lia.
Qed.

(** The first position at or after [buffer] whose address is a multiple of
    [size]. *)
Definition first_aligned (r : ByteReader) (size buffer position : Z) : Prop :=
  buffer <= position < buffer + size /\
  (section_base_ r + (position - buffer_base_ r)) mod size = 0.

Lemma aligned_pointer_spec mem r size buffer bs position :
  has_address_size r size -> have_section_base_ r = true -> uint 64 (section_base_ r) ->
  0 <= buffer - buffer_base_ r -> buffer - buffer_base_ r < 2 ^ 64 - 16 ->
  first_aligned r size buffer position -> holds mem position bs ->
  bytes_ok bs -> Z.of_nat (length bs) = size ->
  ReadEncodedPointer mem r buffer DW_EH_PE_aligned =
    Ok (int_of (endian_ r) bs, position - buffer + size).
Proof.
  intros (Hsize & Has & Har) Hsec Hbase Hge Hlt [Hpos Hmod] Hh Hok Hl.
  change (ReadEncodedPointer mem r buffer DW_EH_PE_aligned) with (aligned_pointer mem r buffer).
  unfold aligned_pointer, AddressSize. rewrite Hsec, Has. cbn [negb].
  assert (exists k, size = 2 ^ k /\ 2 <= k <= 3) as (k & Hk & Hk3).
  { destruct Hsize as [-> | ->]; [by exists 2|by exists 3]. }
  assert (Hones : size - 1 = Z.ones k) by (rewrite Z.ones_equiv; lia).
  set (b := section_base_ r) in *. set (delta := buffer - buffer_base_ r) in *.
  assert (Hskew : Z.land b (size - 1) = b mod size) by (rewrite Hones, Z.land_ones by lia; by rewrite Hk).
  pose proof (Z.mod_pos_bound b size ltac:(lia)) as Hsk. rewrite Hskew.
  rewrite (wrap_small 64 (b mod size + delta)) by (unfold uint; lia).
  rewrite (wrap_small 64 (b mod size + delta + size - 1)) by (unfold uint; lia).
  assert (wrap 64 (- size) = wrap 64 (- 2 ^ k)) as -> by by rewrite Hk.
  rewrite land_neg_size, <- Hk by (unfold uint; lia).
  set (x := b mod size + delta + size - 1) in *.
  pose proof (Z.div_mod x size ltac:(lia)) as Hdm. pose proof (Z.mod_pos_bound x size ltac:(lia)) as Hxm.
  pose proof (Z.div_mod b size ltac:(lia)) as Hbm.
  assert (Haligned : x - x mod size = b mod size + (position - buffer_base_ r)).
  { assert (Hp : (b mod size + (position - buffer_base_ r)) mod size = 0).
    { rewrite Z.add_mod_idemp_l by lia. done. }
    apply Z.div_exact in Hp; [|lia]. set (q := (b mod size + (position - buffer_base_ r)) / size) in *.
    assert (size * q <= x < size * q + size) as Hq by (unfold x, delta in *; lia).
    assert (x / size = q) as Hxq by (symmetry; apply (Z.div_unique x size q (x - size * q)); lia). nia. }
  rewrite Haligned. rewrite (wrap_small 64 (b mod size + _ - _)) by (unfold uint, delta in *; lia).
  replace (buffer_base_ r + (b mod size + (position - buffer_base_ r) - b mod size)) with position by lia.
  unfold ReadAddress. rewrite Har, (call_reader_spec mem r size position bs Hsize Hh Hok Hl). done.
Qed.

(** C37: with an address size and the base an encoding needs, the pointer of
    every field [ReadEncodedPointer] supports (absolute, two, four and eight
    bytes, signed or not, and LEB128) is its value plus the base, modulo the
    size of an address, with the length of the field; an aligned pointer is the
    one at the first position whose address in the program is a multiple of the
    address size.  The two tests a client is told to make first are not enough:
    the format 0x08 passes both and aborts, and aligned pointers are valid but
    never usable. *)
Theorem ReadEncodedPointer_functional mem r size buffer encoding bs v position :
  has_address_size r size ->
  (encoding <> DW_EH_PE_omit -> encoding <> DW_EH_PE_aligned -> UsableEncoding r encoding = true ->
   field (endian_ r) size (Z.land encoding 0x0f) bs v -> holds mem buffer bs ->
   ReadEncodedPointer mem r buffer encoding =
     Ok (wrap (8 * size) (base_address r buffer encoding + v), Z.of_nat (length bs))) /\
  (have_section_base_ r = true -> uint 64 (section_base_ r) ->
   0 <= buffer - buffer_base_ r < 2 ^ 64 - 16 -> first_aligned r size buffer position ->
   uint (8 * size) v -> holds mem position (bytes_of (endian_ r) (Z.to_nat size) v) ->
   ReadEncodedPointer mem r buffer DW_EH_PE_aligned = Ok (v, position - buffer + size)) /\
  ValidEncoding 0x08 = true /\ UsableEncoding r 0x08 = true /\
  ReadEncodedPointer mem r buffer 0x08 = Undef /\
  ValidEncoding DW_EH_PE_aligned = true /\ UsableEncoding r DW_EH_PE_aligned = false.
Proof.
  intros Hr. split; [intros; by eapply ReadEncodedPointer_field|].
  split; [|done]. intros Hsec Hbase [Hge Hlt] Hpos Hv Hh.
  destruct (bytes_of_ok (endian_ r) (Z.to_nat size) v) as [Hok Hl].
  assert (Hs : 0 <= size) by (destruct Hr as [[-> | ->] _]; lia).
  rewrite (aligned_pointer_spec mem r size buffer _ position Hr Hsec Hbase Hge Hlt Hpos Hh Hok) by lia.
  rewrite int_of_bytes_of. do 2 f_equal. apply wrap_small.
  by replace (8 * Z.of_nat (Z.to_nat size)) with (8 * size) by lia.
Qed.
Lemma ReadEncodedPointer_functional_witness :
  let r := mkByteReader None (Some ReadFourBytes_reader) ENDIANNESS_LITTLE 4 0 true false false false
             0x1000 0 0 0 0 in
  ReadEncodedPointer [0xff; 0xfe; 0xff] r 1 (Z.lor DW_EH_PE_pcrel DW_EH_PE_sdata2) = Ok (0xfff, 2).
Proof.
  intros r.
  refine (proj1 (ReadEncodedPointer_functional [0xff; 0xfe; 0xff] r 4 1
    (Z.lor DW_EH_PE_pcrel DW_EH_PE_sdata2) (bytes_of ENDIANNESS_LITTLE 2 (-2)) (-2) 0 _) _ _ _ _ _).
  - split; [by left|done].
  - done.
  - done.
  - done.
  - apply (field_signed _ _ _ 2); [by left|cbn; lia].
  - split; [lia|]. split; [vm_compute; done|].
    intros [|[|i]] b; vm_compute; [by intros [= <-]..|done].
Defined.
