(* ===== verification/DwarfFields.v ===== *)
(** * Fields of DWARF sections

    What [ByteReader] reads from the fields the DWARF sections share: LEB128
    numbers in any number of bytes, initial lengths, offsets and addresses of
    the reader's sizes. *)

From S2P Require Import Prelude Memory ByteReader.
#[local] Open Scope Z_scope.

(** ** LEB128 numbers *)

(** An unsigned and a signed number, in any number of groups that the reader
    takes. *)
Definition uleb (bs : byte_list) (n : Z) : Prop :=
  exists gs, groups_ok gs /\ (length gs <= 10)%nat /\ bs = leb128_bytes gs /\ n = groups_val gs /\ uint 64 n.
Definition sleb (bs : byte_list) (n : Z) : Prop :=
  exists gs, groups_ok gs /\ bs = leb128_bytes gs /\ signed_groups gs = Some n.

Section leb128.
Context (mem : byte_list).

Lemma uleb_read bs n c r' :
  uleb bs n -> holds mem c bs -> ReadUnsignedLEB128 mem r' c = Ok (n, Z.of_nat (length bs)).
Proof.
  intros (gs & Hgs & Hl & -> & -> & Hn) Hh. destruct (LEB128_groups mem r' c gs Hgs Hh) as [-> _].
  rewrite (proj2 (Z.leb_le _ _)) by lia. by rewrite wrap_small, length_leb128_bytes.
Qed.

Lemma sleb_read bs n c r' :
  sleb bs n -> holds mem c bs -> ReadSignedLEB128 mem r' c = Ok (n, Z.of_nat (length bs)).
Proof.
  intros (gs & Hgs & -> & Hn) Hh. destruct (LEB128_groups mem r' c gs Hgs Hh) as [_ ->].
  by rewrite Hn, length_leb128_bytes.
Qed.
End leb128.

(** ** Readers

    The reader changes as the section is read: the offset size with every
    entry, the function base with every FDE. *)

Definition same_reader (r r' : ByteReader) : Prop :=
  endian_ r' = endian_ r /\ address_size_ r' = address_size_ r /\ address_reader_ r' = address_reader_ r /\
  have_section_base_ r' = have_section_base_ r /\ have_text_base_ r' = have_text_base_ r /\
  have_data_base_ r' = have_data_base_ r /\ have_function_base_ r' = have_function_base_ r /\
  section_base_ r' = section_base_ r /\ text_base_ r' = text_base_ r /\ data_base_ r' = data_base_ r /\
  buffer_base_ r' = buffer_base_ r /\ (have_function_base_ r = true -> function_base_ r' = function_base_ r).

Lemma same_reader_refl r : same_reader r r.
Proof. by repeat split. Qed.

Lemma same_reader_trans r1 r2 r3 : same_reader r1 r2 -> same_reader r2 r3 -> same_reader r1 r3.
Proof.
  intros (A1 & A2 & A3 & A4 & A5 & A6 & A7 & A8 & A9 & A10 & A11 & A12)
    (B1 & B2 & B3 & B4 & B5 & B6 & B7 & B8 & B9 & B10 & B11 & B12).
  repeat (split; [congruence|]). intros Hf. rewrite B12 by congruence. by apply A12.
Qed.

Lemma same_reader_usable r r' enc : same_reader r r' -> UsableEncoding r' enc = UsableEncoding r enc.
Proof. intros (_ & _ & _ & E1 & E2 & E3 & E4 & _). unfold UsableEncoding. by rewrite E1, E2, E3, E4. Qed.

Lemma same_reader_base r r' enc c :
  same_reader r r' -> UsableEncoding r enc = true -> base_address r' c enc = base_address r c enc.
Proof.
  intros (_ & _ & _ & _ & _ & _ & _ & E1 & E2 & E3 & E4 & E5) Hu. unfold base_address, UsableEncoding in *.
  rewrite E1, E2, E3, E4. cbv zeta in *. destruct (Z.land enc 0x70 =? DW_EH_PE_funcrel) eqn:Ef; [|done].
  apply Z.eqb_eq in Ef. rewrite Ef in Hu |- *. by rewrite E5.
Qed.

Lemma same_reader_size r r' size : same_reader r r' -> has_address_size r size -> has_address_size r' size.
Proof. intros (_ & E1 & E2 & _) (Hs & H1 & H2). split; [done|]. by rewrite E1, E2. Qed.

Lemma same_reader_function r r' address :
  same_reader r r' -> same_reader (SetFunctionBase r address) (SetFunctionBase r' address).
Proof. unfold same_reader. cbn. naive_solver. Qed.

(** The length of an entry, for offsets of [osize] bytes. *)
Definition initial_length (endian : Endianness) (bs : byte_list) (n osize : Z) : Prop :=
  (osize = 4 /\ bs = bytes_of endian 4 n /\ uint 32 n /\ n <> 0xffffffff) \/
  (osize = 8 /\ bs = bytes_of endian 4 0xffffffff ++ bytes_of endian 8 n /\ uint 64 n).

Section reader.
Context (mem : byte_list).

Lemma ReadFourBytes_of r c n :
  uint 32 n -> holds mem c (bytes_of (endian_ r) 4 n) -> ReadFourBytes mem r c = Ok n.
Proof.
  intros Hn Hh. destruct (bytes_of_ok (endian_ r) 4 n) as [Hok Hl].
  rewrite (ReadFourBytes_spec mem r c _ Hh Hok Hl), int_of_bytes_of. f_equal. by apply wrap_small.
Qed.

(** The reader has offsets of [osize] bytes. *)
Definition has_offset_size (r : ByteReader) (osize : Z) : Prop :=
  (osize = 4 \/ osize = 8) /\ offset_size_ r = osize /\ offset_reader_ r = Some (reader_of_size osize).

Lemma ReadOffset_of r osize c n :
  has_offset_size r osize -> uint (8 * osize) n -> holds mem c (bytes_of (endian_ r) (Z.to_nat osize) n) ->
  ReadOffset mem r c = Ok n.
Proof.
  intros (Hs & _ & Hr) Hn Hh. destruct (bytes_of_ok (endian_ r) (Z.to_nat osize) n) as [Hok Hl].
  unfold ReadOffset. rewrite Hr, (call_reader_spec mem r osize c _ Hs Hh Hok) by lia.
  rewrite int_of_bytes_of. f_equal. apply wrap_small. by replace (8 * Z.of_nat (Z.to_nat osize)) with (8 * osize) by lia.
Qed.

Lemma ReadInitialLength_spec r c bs n osize :
  initial_length (endian_ r) bs n osize -> holds mem c bs ->
  exists r', ReadInitialLength mem r c = Ok (n, Z.of_nat (length bs), r') /\ same_reader r r' /\
    has_offset_size r' osize.
Proof.
  intros [(-> & -> & Hn & Hne)|(-> & -> & Hn)] Hh; unfold ReadInitialLength.
  - rewrite (ReadFourBytes_of r c n Hn Hh). cbn [obind]. rewrite (proj2 (Z.eqb_neq _ _)) by done.
    cbn [SetOffsetSize Z.eqb Pos.eqb orb negb obind]. rewrite (proj2 (bytes_of_ok _ _ _)).
    eexists. split; [done|]. split; [by repeat split|]. split; [by left|done].
  - apply holds_app in Hh as [Hh1 Hh2]. rewrite (proj2 (bytes_of_ok _ _ _)) in Hh2.
    rewrite (ReadFourBytes_of r c 0xffffffff) by (done || unfold uint; lia). cbn [obind].
    change (0xffffffff =? 0xffffffff) with true. cbv iota.
    cbn [SetOffsetSize Z.eqb Pos.eqb orb negb obind].
    set (r' := mkByteReader _ _ _ _ _ _ _ _ _ _ _ _ _ _).
    assert (has_offset_size r' 8) as Hr' by (split; [by right|done]).
    rewrite (ReadOffset_of r' 8 (c + 4) n Hr' Hn Hh2). cbn [obind].
    exists r'. rewrite length_app, !(proj2 (bytes_of_ok _ _ _)). split; [done|]. split; [by repeat split|done].
Qed.

Lemma ReadTwoBytes_of r c n :
  uint 16 n -> holds mem c (bytes_of (endian_ r) 2 n) -> ReadTwoBytes mem r c = Ok n.
Proof.
  intros Hn Hh. destruct (bytes_of_ok (endian_ r) 2 n) as [Hok Hl].
  rewrite (ReadTwoBytes_spec mem r c _ Hh Hok Hl), int_of_bytes_of. f_equal. by apply wrap_small.
Qed.

Lemma ReadEightBytes_of r c n :
  uint 64 n -> holds mem c (bytes_of (endian_ r) 8 n) -> ReadEightBytes mem r c = Ok n.
Proof.
  intros Hn Hh. destruct (bytes_of_ok (endian_ r) 8 n) as [Hok Hl].
  rewrite (ReadEightBytes_spec mem r c _ Hh Hok Hl), int_of_bytes_of. f_equal. by apply wrap_small.
Qed.

Lemma ReadAddress_of r size c n :
  has_address_size r size -> uint (8 * size) n -> holds mem c (bytes_of (endian_ r) (Z.to_nat size) n) ->
  ReadAddress mem r c = Ok n.
Proof.
  intros (Hs & _ & Hr) Hn Hh. destruct (bytes_of_ok (endian_ r) (Z.to_nat size) n) as [Hok Hl].
  unfold ReadAddress. rewrite Hr, (call_reader_spec mem r size c _ Hs Hh Hok) by lia.
  rewrite int_of_bytes_of. f_equal. apply wrap_small. by replace (8 * Z.of_nat (Z.to_nat size)) with (8 * size) by lia.
Qed.
End reader.
