(* ===== verification/DwarfCfi.v ===== *)
(** * DWARF call frame information (common/dwarf/dwarf2reader.h, dwarf2reader.cc)

    [CallFrameInfo] reads a .debug_frame or .eh_frame section and calls a
    handler with the rules for recovering registers.  The section lies in a
    byte memory and a pointer is an offset into it.  The handler is any type
    with the operations of the class [Handler]; the calls to the reporter are
    the list [reports_].

    The member functions that report a problem and return false are in a monad
    over the state they change ([M]), in which [None] is the false they return;
    a read outside the memory, a failed [assert], a signed overflow and the use
    of an operand that was not parsed are [Undef].  The loops take fuel: an
    instruction has at least one byte and an entry at least four. *)

From S2P Require Import Prelude Memory LibcSupport OrderedMap ByteReader.
#[local] Open Scope Z_scope.

(** ** The monad *)

Definition M (S A : Type) : Type := S -> outcome (option A * S).

#[export] Instance M_ret {S} : MRet (M S) := fun A a s => Ok (Some a, s).

#[export] Instance M_bind {S} : MBind (M S) := fun A B f m s =>
  let? (o, s) := m s in
  match o with Some a => f a s | None => Ok (None, s) end.

(** [return false] *)
Definition fail {S A} : M S A := fun s => Ok (None, s).

Definition lift {S A} (o : outcome A) : M S A := fun s => let? a := o in Ok (Some a, s).
Definition gets {S A} (f : S -> A) : M S A := fun s => Ok (Some (f s), s).
Definition modify {S} (f : S -> S) : M S unit := fun s => Ok (Some tt, f s).

(** [if (!call) return false] *)
Definition require {S} (call : M S bool) : M S unit := ok ← call; if ok : bool then mret tt else fail.

(** ** The instructions and the augmentation letters (dwarf2enums.h) *)

Definition DW_CFA_advance_loc : Z := 0x40.
Definition DW_CFA_offset : Z := 0x80.
Definition DW_CFA_restore : Z := 0xc0.
Definition DW_CFA_nop : Z := 0x00.
Definition DW_CFA_set_loc : Z := 0x01.
Definition DW_CFA_advance_loc1 : Z := 0x02.
Definition DW_CFA_advance_loc2 : Z := 0x03.
Definition DW_CFA_advance_loc4 : Z := 0x04.
Definition DW_CFA_offset_extended : Z := 0x05.
Definition DW_CFA_restore_extended : Z := 0x06.
Definition DW_CFA_undefined : Z := 0x07.
Definition DW_CFA_same_value : Z := 0x08.
Definition DW_CFA_register : Z := 0x09.
Definition DW_CFA_remember_state : Z := 0x0a.
Definition DW_CFA_restore_state : Z := 0x0b.
Definition DW_CFA_def_cfa : Z := 0x0c.
Definition DW_CFA_def_cfa_register : Z := 0x0d.
Definition DW_CFA_def_cfa_offset : Z := 0x0e.
Definition DW_CFA_def_cfa_expression : Z := 0x0f.
Definition DW_CFA_expression : Z := 0x10.
Definition DW_CFA_offset_extended_sf : Z := 0x11.
Definition DW_CFA_def_cfa_sf : Z := 0x12.
Definition DW_CFA_def_cfa_offset_sf : Z := 0x13.
Definition DW_CFA_val_offset : Z := 0x14.
Definition DW_CFA_val_offset_sf : Z := 0x15.
Definition DW_CFA_val_expression : Z := 0x16.
Definition DW_CFA_MIPS_advance_loc8 : Z := 0x1d.
Definition DW_CFA_GNU_window_save : Z := 0x2d.
Definition DW_CFA_GNU_args_size : Z := 0x2e.
Definition DW_CFA_GNU_negative_offset_extended : Z := 0x2f.

Definition DW_Z_augmentation_start : Z := 122.
Definition DW_Z_has_LSDA : Z := 76.
Definition DW_Z_has_personality_routine : Z := 80.
Definition DW_Z_has_FDE_address_encoding : Z := 82.
Definition DW_Z_is_signal_trampoline : Z := 83.

(** ** Rules *)

Definition kCFARegister : Z := -1.

(** The subclasses of [CallFrameInfo::Rule]. *)
Inductive Rule : Type :=
| UndefinedRule
| SameValueRule
| OffsetRule (base_register_ offset_ : Z)
| ValOffsetRule (base_register_ offset_ : Z)
| RegisterRule (register_number_ : Z)
| ExpressionRule (expression_ : chars)
| ValExpressionRule (expression_ : chars).

(** [operator==] of the subclasses. *)
#[export] Instance Rule_eq_dec : EqDecision Rule.
Proof. solve_decision. Defined.

(** [base_register_ = reg], an [unsigned] in an [int]. *)
Definition SetBaseRegister (rule : Rule) (reg : Z) : Rule :=
  match rule with ValOffsetRule _ offset_ => ValOffsetRule (swrap 32 reg) offset_ | _ => rule end.

Definition SetOffset (rule : Rule) (offset : Z) : Rule :=
  match rule with ValOffsetRule base_register_ _ => ValOffsetRule base_register_ offset | _ => rule end.

(** [CallFrameInfo::Handler]; the results are those of the calls and the
    handler after them. *)
Class Handler (H : Type) : Type := {
  Handler_Entry : H -> Z -> Z -> Z -> Z -> chars -> Z -> outcome (bool * H);
  Handler_UndefinedRule : H -> Z -> Z -> outcome (bool * H);
  Handler_SameValueRule : H -> Z -> Z -> outcome (bool * H);
  Handler_OffsetRule : H -> Z -> Z -> Z -> Z -> outcome (bool * H);
  Handler_ValOffsetRule : H -> Z -> Z -> Z -> Z -> outcome (bool * H);
  Handler_RegisterRule : H -> Z -> Z -> Z -> outcome (bool * H);
  Handler_ExpressionRule : H -> Z -> Z -> chars -> outcome (bool * H);
  Handler_ValExpressionRule : H -> Z -> Z -> chars -> outcome (bool * H);
  Handler_End : H -> outcome (bool * H);
  Handler_PersonalityRoutine : H -> Z -> bool -> outcome (bool * H);
  Handler_LanguageSpecificDataArea : H -> Z -> bool -> outcome (bool * H);
  Handler_SignalHandler : H -> outcome (bool * H);
}.

(** The definitions of [PersonalityRoutine], [LanguageSpecificDataArea] and
    [SignalHandler] a handler inherits. *)
Definition default_PersonalityRoutine {H} (h : H) (address : Z) (indirect : bool) : outcome (bool * H) :=
  Ok (true, h).
Definition default_LanguageSpecificDataArea {H} (h : H) (address : Z) (indirect : bool) : outcome (bool * H) :=
  Ok (true, h).
Definition default_SignalHandler {H} (h : H) : outcome (bool * H) := Ok (true, h).

(** [cfa_rule_] is [None] for NULL; the rules are owned by the map, and copied
    with it. *)
Record RuleMap : Type := mkRuleMap {
  cfa_rule_ : option Rule;
  registers_ : list (Z * Rule);
}.

Definition empty_rules : RuleMap := mkRuleMap None [].

Definition SetCFARule (m : RuleMap) (rule : Rule) : RuleMap := mkRuleMap (Some rule) (registers_ m).
Definition CFARule (m : RuleMap) : option Rule := cfa_rule_ m.

(** [RuleMap::RegisterRule] *)
Definition RuleMap_RegisterRule (m : RuleMap) (reg : Z) : outcome (option Rule) :=
  if reg =? kCFARegister then Undef else Ok (find_value (registers_ m) reg).

Definition SetRegisterRule (m : RuleMap) (reg : Z) (rule : Rule) : outcome RuleMap :=
  if reg =? kCFARegister then Undef
  else Ok (mkRuleMap (cfa_rule_ m) (assign (registers_ m) reg rule)).

(** ** The entries *)

Inductive EntryKind : Type := kUnknown | kCIE | kFDE | kTerminator.

#[export] Instance EntryKind_eq_dec : EqDecision EntryKind.
Proof. solve_decision. Defined.

(** The calls to [CallFrameInfo::Reporter]. *)
Inductive Report : Type :=
| Incomplete (offset : Z) (kind : EntryKind)
| EarlyEHTerminator (offset : Z)
| CIEPointerOutOfRange (offset cie_offset : Z)
| BadCIEId (offset cie_offset : Z)
| UnexpectedAddressSize (offset address_size : Z)
| UnexpectedSegmentSize (offset segment_size : Z)
| UnrecognizedVersion (offset version : Z)
| UnrecognizedAugmentation (offset : Z) (augmentation : chars)
| InvalidPointerEncoding (offset encoding : Z)
| UnusablePointerEncoding (offset encoding : Z)
| RestoreInCIE (offset insn_offset : Z)
| BadInstruction (offset : Z) (kind : EntryKind) (insn_offset : Z)
| NoCFARule (offset : Z) (kind : EntryKind) (insn_offset : Z)
| EmptyStateStack (offset : Z) (kind : EntryKind) (insn_offset : Z)
| ClearingCFARule (offset : Z) (kind : EntryKind) (insn_offset : Z).

(** [None] is a NULL [end], and a member that is not set. *)
Record Entry : Type := mkEntry {
  entry_offset : Z;
  entry_start : Z;
  entry_kind : EntryKind;
  entry_fields : option Z;
  instructions : option Z;
  entry_end : option Z;
  entry_id : option Z;
}.

Definition with_kind (e : Entry) (kind : EntryKind) : Entry :=
  mkEntry (entry_offset e) (entry_start e) kind (entry_fields e) (instructions e) (entry_end e) (entry_id e).
Definition with_fields (e : Entry) (fields : Z) : Entry :=
  mkEntry (entry_offset e) (entry_start e) (entry_kind e) (Some fields) (instructions e) (entry_end e) (entry_id e).
Definition with_instructions (e : Entry) (instructions : Z) : Entry :=
  mkEntry (entry_offset e) (entry_start e) (entry_kind e) (entry_fields e) (Some instructions) (entry_end e)
    (entry_id e).
Definition with_end (e : Entry) (end_ : Z) : Entry :=
  mkEntry (entry_offset e) (entry_start e) (entry_kind e) (entry_fields e) (instructions e) (Some end_) (entry_id e).
Definition with_id (e : Entry) (id : Z) : Entry :=
  mkEntry (entry_offset e) (entry_start e) (entry_kind e) (entry_fields e) (instructions e) (entry_end e) (Some id).

(** A CIE is its own [cie]; [None] is a member that is not set. *)
Record CIE : Type := mkCIE {
  cie_entry : Entry;
  version : Z;
  augmentation : chars;
  code_alignment_factor : Z;
  data_alignment_factor : Z;
  return_address_register : Z;
  has_z_augmentation : bool;
  has_z_lsda : bool;
  has_z_personality : bool;
  has_z_signal_frame : bool;
  lsda_encoding : option Z;
  personality_encoding : option Z;
  personality_address : option Z;
  pointer_encoding : Z;
  cie_address_size : option Z;
  segment_size : option Z;
}.

Definition with_lsda (c : CIE) (encoding : Z) : CIE :=
  mkCIE (cie_entry c) (version c) (augmentation c) (code_alignment_factor c) (data_alignment_factor c)
    (return_address_register c) (has_z_augmentation c) true (has_z_personality c) (has_z_signal_frame c)
    (Some encoding) (personality_encoding c) (personality_address c) (pointer_encoding c)
    (cie_address_size c) (segment_size c).
Definition with_personality (c : CIE) (encoding address : Z) : CIE :=
  mkCIE (cie_entry c) (version c) (augmentation c) (code_alignment_factor c) (data_alignment_factor c)
    (return_address_register c) (has_z_augmentation c) (has_z_lsda c) true (has_z_signal_frame c)
    (lsda_encoding c) (Some encoding) (Some address) (pointer_encoding c)
    (cie_address_size c) (segment_size c).
Definition with_pointer_encoding (c : CIE) (encoding : Z) : CIE :=
  mkCIE (cie_entry c) (version c) (augmentation c) (code_alignment_factor c) (data_alignment_factor c)
    (return_address_register c) (has_z_augmentation c) (has_z_lsda c) (has_z_personality c)
    (has_z_signal_frame c) (lsda_encoding c) (personality_encoding c) (personality_address c) encoding
    (cie_address_size c) (segment_size c).
Definition with_signal_frame (c : CIE) : CIE :=
  mkCIE (cie_entry c) (version c) (augmentation c) (code_alignment_factor c) (data_alignment_factor c)
    (return_address_register c) (has_z_augmentation c) (has_z_lsda c) (has_z_personality c)
    true (lsda_encoding c) (personality_encoding c) (personality_address c) (pointer_encoding c)
    (cie_address_size c) (segment_size c).
Definition with_cie_entry (c : CIE) (e : Entry) : CIE :=
  mkCIE e (version c) (augmentation c) (code_alignment_factor c) (data_alignment_factor c)
    (return_address_register c) (has_z_augmentation c) (has_z_lsda c) (has_z_personality c)
    (has_z_signal_frame c) (lsda_encoding c) (personality_encoding c) (personality_address c)
    (pointer_encoding c) (cie_address_size c) (segment_size c).

Record FDE : Type := mkFDE {
  fde_entry : Entry;
  fde_address : Z;
  fde_size : Z;
  lsda_address : option Z;
}.

(** The reader, the handler and the calls to the reporter so far. *)
Record Parser (H : Type) : Type := mkParser {
  reader_ : ByteReader;
  handler_ : H;
  reports_ : list Report;
}.
Arguments mkParser {H}.
Arguments reader_ {H}.
Arguments handler_ {H}.
Arguments reports_ {H}.

(** [CallFrameInfo::State]; the entry it interprets is an argument of its
    operations. *)
Record State (H : Type) : Type := mkState {
  parser_ : Parser H;
  address_ : Z;
  cursor_ : Z;
  rules_ : RuleMap;
  cie_rules_ : RuleMap;
  saved_rules_ : list RuleMap;
}.
Arguments mkState {H}.
Arguments parser_ {H}.
Arguments address_ {H}.
Arguments cursor_ {H}.
Arguments rules_ {H}.
Arguments cie_rules_ {H}.
Arguments saved_rules_ {H}.

(** The operands of an instruction; [None] is one that was not parsed. *)
Record Operands : Type := mkOperands {
  register_number : option Z;
  operand_offset : option Z;
  signed_offset : option Z;
  operand_expression : option chars;
}.

Definition no_operands : Operands := mkOperands None None None None.

(** ** The interpreter *)

Section parser.
Context (mem : byte_list) {H : Type} `{!Handler H}.

(** Tells the handler about a rule: the [Handle] of the subclasses. *)
Definition Handle (rule : Rule) (handler : H) (address reg : Z) : outcome (bool * H) :=
  match rule with
  | UndefinedRule => Handler_UndefinedRule handler address reg
  | SameValueRule => Handler_SameValueRule handler address reg
  | OffsetRule base_register_ offset_ => Handler_OffsetRule handler address reg base_register_ offset_
  | ValOffsetRule base_register_ offset_ => Handler_ValOffsetRule handler address reg base_register_ offset_
  | RegisterRule register_number_ => Handler_RegisterRule handler address reg register_number_
  | ExpressionRule expression_ => Handler_ExpressionRule handler address reg expression_
  | ValExpressionRule expression_ => Handler_ValExpressionRule handler address reg expression_
  end.

(** The loops of [HandleTransitionTo] over the two maps. *)
Fixpoint transition_registers (handler : H) (address : Z) (old_it new_it : list (Z * Rule)) :
    outcome (bool * H) :=
  match old_it, new_it with
  | [], [] => Ok (true, handler)
  | [], _ :: _ => Undef
  | (old_first, _) :: old_it, [] =>
      let? (ok, handler) := Handler_SameValueRule handler address old_first in
      if negb ok then Ok (false, handler) else transition_registers handler address old_it []
  | (old_first, old_second) :: old_next, (new_first, new_second) :: new_next =>
      if old_first <? new_first then
        let? (ok, handler) := Handler_SameValueRule handler address old_first in
        if negb ok then Ok (false, handler) else transition_registers handler address old_next new_it
      else if new_first <? old_first then Undef
      else if bool_decide (old_second = new_second) then
        transition_registers handler address old_next new_next
      else
        let? (ok, handler) := Handle new_second handler address new_first in
        if negb ok then Ok (false, handler) else transition_registers handler address old_next new_next
  end.

Definition HandleTransitionTo (m : RuleMap) (handler : H) (address : Z) (new_rules : RuleMap) :
    outcome (bool * H) :=
  let registers handler := transition_registers handler address (registers_ m) (registers_ new_rules) in
  match cfa_rule_ m, cfa_rule_ new_rules with
  | Some old_rule, Some new_rule =>
      if bool_decide (old_rule = new_rule) then registers handler
      else
        let? (ok, handler) := Handle new_rule handler address kCFARegister in
        if negb ok then Ok (false, handler) else registers handler
  | Some _, None => registers handler
  | None, Some _ => Undef
  | None, None => registers handler
  end.

(** *** Access to the state *)

Definition report (r : Report) : M (Parser H) unit :=
  modify (fun p => mkParser (reader_ p) (handler_ p) (reports_ p ++ [r])).

Definition set_reader (r : ByteReader) : M (Parser H) unit :=
  modify (fun p => mkParser r (handler_ p) (reports_ p)).

(** A call to the handler. *)
Definition call (f : H -> outcome (bool * H)) : M (Parser H) bool := fun p =>
  let? (ok, h) := f (handler_ p) in
  Ok (Some ok, mkParser (reader_ p) h (reports_ p)).

(** [ReportIncomplete] *)
Definition ReportIncomplete {A} (entry : Entry) : M (Parser H) A :=
  report (Incomplete (entry_offset entry) (entry_kind entry)) ;; fail.

Definition in_parser {A} (m : M (Parser H) A) : M (State H) A := fun s =>
  let? (o, p) := m (parser_ s) in
  Ok (o, mkState p (address_ s) (cursor_ s) (rules_ s) (cie_rules_ s) (saved_rules_ s)).

Definition set_address (address : Z) : M (State H) unit := modify (fun s =>
  mkState (parser_ s) address (cursor_ s) (rules_ s) (cie_rules_ s) (saved_rules_ s)).
Definition set_cursor (cursor : Z) : M (State H) unit := modify (fun s =>
  mkState (parser_ s) (address_ s) cursor (rules_ s) (cie_rules_ s) (saved_rules_ s)).
Definition set_rules (rules : RuleMap) : M (State H) unit := modify (fun s =>
  mkState (parser_ s) (address_ s) (cursor_ s) rules (cie_rules_ s) (saved_rules_ s)).
Definition set_cie_rules (rules : RuleMap) : M (State H) unit := modify (fun s =>
  mkState (parser_ s) (address_ s) (cursor_ s) (rules_ s) rules (saved_rules_ s)).
Definition set_saved_rules (saved : list RuleMap) : M (State H) unit := modify (fun s =>
  mkState (parser_ s) (address_ s) (cursor_ s) (rules_ s) (cie_rules_ s) saved).

Definition reader : M (State H) ByteReader := gets (fun s => reader_ (parser_ s)).

(** [rule->Handle(handler_, address_, reg)], and false if it returns false. *)
Definition handle (rule : Rule) (reg : Z) : M (State H) unit :=
  address ← gets address_;
  require (in_parser (call (fun handler => Handle rule handler address reg))).

(** *** Operands *)

Section instructions.
(** The CIE and the entry whose instructions are interpreted. *)
Context (cie : CIE) (entry_ : Entry).

Definition CursorOffset : M (State H) Z :=
  cursor ← gets cursor_;
  mret (wrap 64 (entry_offset entry_ + (cursor - entry_start entry_))).

Definition entry_limit : M (State H) Z := lift (of_option (entry_end entry_)).

Definition Incomplete_operand {A} : M (State H) A := in_parser (ReportIncomplete entry_).

(** The operand formats: [r], [o], [s], [a], [1], [2], [4], [8] and [e]. *)
Inductive Format : Type :=
  Format_r | Format_o | Format_s | Format_a | Format_1 | Format_2 | Format_4 | Format_8 | Format_e.

Definition with_register (ops : Operands) (n : Z) : Operands :=
  mkOperands (Some n) (operand_offset ops) (signed_offset ops) (operand_expression ops).
Definition with_offset (ops : Operands) (n : Z) : Operands :=
  mkOperands (register_number ops) (Some n) (signed_offset ops) (operand_expression ops).
Definition with_signed_offset (ops : Operands) (n : Z) : Operands :=
  mkOperands (register_number ops) (operand_offset ops) (Some n) (operand_expression ops).
Definition with_expression (ops : Operands) (s : chars) : Operands :=
  mkOperands (register_number ops) (operand_offset ops) (signed_offset ops) (Some s).

(** An operand whose reader finds its length. *)
Definition variable_operand {A} (read : ByteReader -> Z -> outcome (A * Z)) (bytes_left : Z) :
    M (State H) A :=
  r ← reader;
  cursor ← gets cursor_;
  '(v, len) ← lift (read r cursor);
  if bytes_left <? len then Incomplete_operand
  else set_cursor (cursor + len) ;; mret v.

(** An operand of [n] bytes. *)
Definition fixed_operand (read : ByteReader -> Z -> outcome Z) (n bytes_left : Z) : M (State H) Z :=
  if bytes_left <? n then Incomplete_operand
  else
    r ← reader;
    cursor ← gets cursor_;
    v ← lift (read r cursor);
    set_cursor (cursor + n) ;; mret v.

(** [string(cursor, n)] *)
Definition string_at (ptr n : Z) : outcome chars :=
  if ptr <? 0 then Undef else read_bytes mem (Z.to_nat ptr) (Z.to_nat n).

(** A DWARF expression after its length. *)
Definition block_operand (bytes_left : Z) : M (State H) chars :=
  r ← reader;
  cursor ← gets cursor_;
  '(expression_length, len) ← lift (ReadUnsignedLEB128 mem r cursor);
  if (bytes_left <? len) || (bytes_left - len <? expression_length) then Incomplete_operand
  else
    let cursor := cursor + len in
    expression ← lift (string_at cursor expression_length);
    set_cursor (cursor + expression_length) ;; mret expression.

(** One round of the loop. *)
Definition ParseOperand (operand : Format) (operands : Operands) : M (State H) Operands :=
  limit ← entry_limit;
  cursor ← gets cursor_;
  let bytes_left := wrap 64 (limit - cursor) in
  match operand with
  | Format_r =>
      n ← variable_operand (ReadUnsignedLEB128 mem) bytes_left;
      mret (with_register operands (wrap 32 n))
  | Format_o =>
      n ← variable_operand (ReadUnsignedLEB128 mem) bytes_left;
      mret (with_offset operands n)
  | Format_s =>
      n ← variable_operand (ReadSignedLEB128 mem) bytes_left;
      mret (with_signed_offset operands n)
  | Format_a =>
      n ← variable_operand (fun r p => ReadEncodedPointer mem r p (pointer_encoding cie)) bytes_left;
      mret (with_offset operands n)
  | Format_1 => n ← fixed_operand (ReadOneByte mem) 1 bytes_left; mret (with_offset operands n)
  | Format_2 => n ← fixed_operand (ReadTwoBytes mem) 2 bytes_left; mret (with_offset operands n)
  | Format_4 => n ← fixed_operand (ReadFourBytes mem) 4 bytes_left; mret (with_offset operands n)
  | Format_8 => n ← fixed_operand (ReadEightBytes mem) 8 bytes_left; mret (with_offset operands n)
  | Format_e =>
      expression ← block_operand bytes_left;
      mret (with_expression operands expression)
  end.

Fixpoint ParseOperands (format : list Format) (operands : Operands) : M (State H) Operands :=
  match format with
  | [] => mret operands
  | operand :: format => operands ← ParseOperand operand operands; ParseOperands format operands
  end.

(** The use of an operand. *)
Definition operand {A} (o : option A) : M (State H) A := lift (of_option o).

(** *** The subroutines of DoInstruction *)

Definition DoDefCFA (base_register offset : Z) : M (State H) unit :=
  let rule := ValOffsetRule (swrap 32 base_register) offset in
  rules ← gets rules_;
  set_rules (SetCFARule rules rule) ;;
  handle rule kCFARegister.

Definition report_at (r : Z -> Report) {A} : M (State H) A :=
  offset ← CursorOffset;
  in_parser (report (r offset)) ;; fail.

Definition report_NoCFARule {A} : M (State H) A :=
  report_at (NoCFARule (entry_offset entry_) (entry_kind entry_)).

Definition DoDefCFAOffset (offset : Z) : M (State H) unit :=
  rules ← gets rules_;
  match CFARule rules with
  | None => report_NoCFARule
  | Some cfa_rule =>
      let cfa_rule := SetOffset cfa_rule offset in
      set_rules (SetCFARule rules cfa_rule) ;;
      handle cfa_rule kCFARegister
  end.

(** [reg] is converted to [int]. *)
Definition DoRule (reg : Z) (rule : Rule) : M (State H) unit :=
  let reg := swrap 32 reg in
  rules ← gets rules_;
  rules ← lift (SetRegisterRule rules reg rule);
  set_rules rules ;;
  handle rule reg.

Definition DoOffset (reg offset : Z) : M (State H) unit :=
  rules ← gets rules_;
  match CFARule rules with
  | None => report_NoCFARule
  | Some _ => DoRule reg (OffsetRule kCFARegister offset)
  end.

Definition DoValOffset (reg offset : Z) : M (State H) unit :=
  rules ← gets rules_;
  match CFARule rules with
  | None => report_NoCFARule
  | Some _ => DoRule reg (ValOffsetRule kCFARegister offset)
  end.

Definition DoRestore (reg : Z) : M (State H) unit :=
  if bool_decide (entry_kind entry_ = kCIE) then report_at (RestoreInCIE (entry_offset entry_))
  else
    cie_rules ← gets cie_rules_;
    rule ← lift (RuleMap_RegisterRule cie_rules (swrap 32 reg));
    DoRule reg (default SameValueRule rule).

(** [address_ += delta * cie->code_alignment_factor] *)
Definition advance (delta : Z) : M (State H) unit :=
  address ← gets address_;
  set_address (wrap 64 (address + wrap 64 (delta * code_alignment_factor cie))).

(** [ops.offset * cie->data_alignment_factor] as a [long]. *)
Definition factored (offset : Z) : Z := swrap 64 (wrap 64 (offset * wrap 64 (data_alignment_factor cie))).

(** [ops.signed_offset * cie->data_alignment_factor], whose overflow is
    undefined. *)
Definition signed_factored (offset : Z) : outcome Z :=
  let product := offset * data_alignment_factor cie in
  if bool_decide (swrap 64 product = product) then Ok product else Undef.

(** A loop of DW_CFA_GNU_window_save. *)
Fixpoint window_rules (rule : Z -> Rule) (regs : list Z) : M (State H) unit :=
  match regs with
  | [] => mret tt
  | i :: regs => DoRule i (rule i) ;; window_rules rule regs
  end.

(** *** DoInstruction *)

(** A call whose [false] does not end the caller. *)
Definition attempt {S A} (m : M S A) : M S bool := fun s =>
  let? (o, s) := m s in Ok (Some (bool_decide (is_Some o)), s).

(** The instructions with an operand in the low six bits. *)
Definition DoPrimary (opcode : Z) : M (State H) unit :=
  let high := Z.land opcode 0xc0 in
  if high =? DW_CFA_advance_loc then advance (Z.land opcode 0x3f)
  else if high =? DW_CFA_offset then
    ops ← ParseOperands [Format_o] no_operands;
    offset ← operand (operand_offset ops);
    DoOffset (Z.land opcode 0x3f) (factored offset)
  else if high =? DW_CFA_restore then DoRestore (Z.land opcode 0x3f)
  else lift Undef.

Definition DoDefCFARegister : M (State H) unit :=
  ops ← ParseOperands [Format_r] no_operands;
  register ← operand (register_number ops);
  rules ← gets rules_;
  match CFARule rules with
  | None =>
      offset ← operand (operand_offset ops);
      ok ← attempt (DoDefCFA register (swrap 64 offset));
      if ok : bool then mret tt else report_NoCFARule
  | Some cfa_rule =>
      let cfa_rule := SetBaseRegister cfa_rule register in
      set_rules (SetCFARule rules cfa_rule) ;;
      handle cfa_rule kCFARegister
  end.

Definition DoDefCFAExpression : M (State H) unit :=
  ops ← ParseOperands [Format_e] no_operands;
  expression ← operand (operand_expression ops);
  let rule := ValExpressionRule expression in
  rules ← gets rules_;
  set_rules (SetCFARule rules rule) ;;
  handle rule kCFARegister.

Definition DoRememberState : M (State H) unit :=
  rules ← gets rules_;
  saved ← gets saved_rules_;
  set_saved_rules (rules :: saved).

(** The result of [HandleTransitionTo] is not looked at. *)
Definition DoRestoreState : M (State H) unit :=
  saved ← gets saved_rules_;
  match saved with
  | [] => report_at (EmptyStateStack (entry_offset entry_) (entry_kind entry_))
  | new_rules :: saved =>
      rules ← gets rules_;
      if bool_decide (is_Some (CFARule rules)) && bool_decide (CFARule new_rules = None) then
        report_at (ClearingCFARule (entry_offset entry_) (entry_kind entry_))
      else
        address ← gets address_;
        in_parser (call (fun handler => HandleTransitionTo rules handler address new_rules)) ;;
        set_rules new_rules ;;
        set_saved_rules saved
  end.

Definition DoWindowSave : M (State H) unit :=
  window_rules (fun i => RegisterRule (i + 16)) (seqZ 8 8) ;;
  r ← reader;
  window_rules (fun i => OffsetRule kCFARegister ((i - 16) * AddressSize r)) (seqZ 16 16).

(** An instruction that gives a register a rule with one operand. *)
Definition DoRegister (format : Format) (rule : Z -> Operands -> M (State H) unit) : M (State H) unit :=
  ops ← ParseOperands [Format_r; format] no_operands;
  register ← operand (register_number ops);
  rule register ops.

(** The instructions that give a register a rule. *)
Definition DoRegisterInstruction (opcode : Z) : M (State H) unit :=
  if opcode =? DW_CFA_undefined then
    ops ← ParseOperands [Format_r] no_operands;
    register ← operand (register_number ops);
    DoRule register UndefinedRule
  else if opcode =? DW_CFA_same_value then
    ops ← ParseOperands [Format_r] no_operands;
    register ← operand (register_number ops);
    DoRule register SameValueRule
  else if opcode =? DW_CFA_offset_extended then
    DoRegister Format_o (fun register ops =>
      offset ← operand (operand_offset ops); DoOffset register (factored offset))
  else if opcode =? DW_CFA_offset_extended_sf then
    DoRegister Format_s (fun register ops =>
      offset ← operand (signed_offset ops);
      offset ← lift (signed_factored offset);
      DoOffset register offset)
  else if opcode =? DW_CFA_GNU_negative_offset_extended then
    DoRegister Format_o (fun register ops =>
      offset ← operand (operand_offset ops); DoOffset register (factored (wrap 64 (- offset))))
  else if opcode =? DW_CFA_val_offset then
    DoRegister Format_o (fun register ops =>
      offset ← operand (operand_offset ops); DoValOffset register (factored offset))
  else if opcode =? DW_CFA_val_offset_sf then
    DoRegister Format_s (fun register ops =>
      offset ← operand (signed_offset ops);
      offset ← lift (signed_factored offset);
      DoValOffset register offset)
  else if opcode =? DW_CFA_register then
    DoRegister Format_o (fun register ops =>
      offset ← operand (operand_offset ops); DoRule register (RegisterRule (swrap 32 offset)))
  else if opcode =? DW_CFA_expression then
    DoRegister Format_e (fun register ops =>
      expression ← operand (operand_expression ops); DoRule register (ExpressionRule expression))
  else if opcode =? DW_CFA_val_expression then
    DoRegister Format_e (fun register ops =>
      expression ← operand (operand_expression ops); DoRule register (ValExpressionRule expression))
  else if opcode =? DW_CFA_restore_extended then
    ops ← ParseOperands [Format_r] no_operands;
    register ← operand (register_number ops);
    DoRestore register
  else if opcode =? DW_CFA_remember_state then DoRememberState
  else if opcode =? DW_CFA_restore_state then DoRestoreState
  else if opcode =? DW_CFA_nop then mret tt
  else if opcode =? DW_CFA_GNU_window_save then DoWindowSave
  else if opcode =? DW_CFA_GNU_args_size then
    ParseOperands [Format_o] no_operands ;; mret tt
  else report_at (BadInstruction (entry_offset entry_) (entry_kind entry_)).

(** [address_ += ops.offset * cie->code_alignment_factor] after a format. *)
Definition DoAdvance (format : Format) : M (State H) unit :=
  ops ← ParseOperands [format] no_operands;
  offset ← operand (operand_offset ops);
  advance offset.

(** The instructions without an operand in the opcode, up to those for the CFA. *)
Definition DoExtended (opcode : Z) : M (State H) unit :=
  if opcode =? DW_CFA_set_loc then
    ops ← ParseOperands [Format_a] no_operands;
    offset ← operand (operand_offset ops);
    set_address offset
  else if opcode =? DW_CFA_advance_loc1 then DoAdvance Format_1
  else if opcode =? DW_CFA_advance_loc2 then DoAdvance Format_2
  else if opcode =? DW_CFA_advance_loc4 then DoAdvance Format_4
  else if opcode =? DW_CFA_MIPS_advance_loc8 then DoAdvance Format_8
  else if opcode =? DW_CFA_def_cfa then
    DoRegister Format_o (fun register ops =>
      offset ← operand (operand_offset ops); DoDefCFA register (swrap 64 offset))
  else if opcode =? DW_CFA_def_cfa_sf then
    DoRegister Format_s (fun register ops =>
      offset ← operand (signed_offset ops);
      offset ← lift (signed_factored offset);
      DoDefCFA register offset)
  else if opcode =? DW_CFA_def_cfa_register then DoDefCFARegister
  else if opcode =? DW_CFA_def_cfa_offset then
    ops ← ParseOperands [Format_o] no_operands;
    offset ← operand (operand_offset ops);
    DoDefCFAOffset (swrap 64 offset)
  else if opcode =? DW_CFA_def_cfa_offset_sf then
    ops ← ParseOperands [Format_s] no_operands;
    offset ← operand (signed_offset ops);
    offset ← lift (signed_factored offset);
    DoDefCFAOffset offset
  else if opcode =? DW_CFA_def_cfa_expression then DoDefCFAExpression
  else DoRegisterInstruction opcode.

Definition DoInstruction : M (State H) unit :=
  if bool_decide (entry_kind entry_ = kUnknown) then lift Undef
  else
    limit ← entry_limit;
    cursor ← gets cursor_;
    if negb (cursor <? limit) then lift Undef
    else
      opcode ← lift (byte mem cursor);
      set_cursor (cursor + 1) ;;
      if negb (Z.land opcode 0xc0 =? 0) then DoPrimary opcode else DoExtended opcode.

(** [while (cursor_ < entry_->end)] *)
Fixpoint interpret_loop (fuel : nat) : M (State H) unit :=
  limit ← entry_limit;
  cursor ← gets cursor_;
  if cursor <? limit then
    match fuel with
    | O => lift Undef
    | S fuel => DoInstruction ;; interpret_loop fuel
    end
  else mret tt.

(** One more round than the bytes of the instructions. *)
Definition interpret : M (State H) unit :=
  start ← operand (instructions entry_);
  limit ← entry_limit;
  set_cursor start ;;
  interpret_loop (Z.to_nat (limit - start)).
End instructions.

Definition InterpretCIE (cie : CIE) : M (State H) unit :=
  interpret cie (cie_entry cie) ;;
  rules ← gets rules_;
  set_cie_rules rules.

Definition InterpretFDE (cie : CIE) (fde : FDE) : M (State H) unit := interpret cie (fde_entry fde).

(** ** The entries of a section *)

Section section.
(** [buffer_], [buffer_length_] and [eh_frame_] *)
Context (buffer_ buffer_length_ : Z) (eh_frame_ : bool).

Definition buffer_end : Z := buffer_ + buffer_length_.

(** The kind of an entry, and the id an FDE is left with. *)
Definition entry_kind_of (id cursor offset_size : Z) : outcome (EntryKind * Z) :=
  if eh_frame_ then
    if id =? 0 then Ok (kCIE, id) else Ok (kFDE, wrap 64 (cursor - buffer_ - id))
  else if offset_size =? 4 then Ok (if id =? 0xffffffff then kCIE else kFDE, id)
  else if offset_size =? 8 then Ok (if id =? 0xffffffffffffffff then kCIE else kFDE, id)
  else Undef.

(** The result and the entry, whose [end] the caller uses when it is false. *)
Definition ReadEntryPrologue (cursor : Z) : M (Parser H) (bool * Entry) :=
  let entry := mkEntry (cursor - buffer_) cursor kUnknown None None None None in
  let incomplete entry :=
    report (Incomplete (entry_offset entry) (entry_kind entry)) ;; mret (false, entry) in
  r ← gets reader_;
  '(length, length_size, r) ← lift (ReadInitialLength mem r cursor);
  set_reader r ;;
  if wrap 64 (buffer_end - cursor) <? length_size then incomplete entry
  else
    let cursor := cursor + length_size in
    if (length =? 0) && eh_frame_ then mret (true, with_end (with_kind entry kTerminator) cursor)
    else if wrap 64 (buffer_end - cursor) <? length then incomplete entry
    else
      let limit := cursor + length in
      let entry := with_end entry limit in
      let offset_size := OffsetSize r in
      if wrap 64 (limit - cursor) <? offset_size then incomplete entry
      else
        id ← lift (ReadOffset mem r cursor);
        '(kind, id) ← lift (entry_kind_of id cursor offset_size);
        mret (true, with_fields (with_id (with_kind entry kind) id) (cursor + offset_size)).

(** *** CIE *)

(** [memchr(ptr, 0, n)] *)
Fixpoint memchr_nul (ptr : Z) (n : nat) : outcome (option Z) :=
  match n with
  | O => Ok None
  | S n =>
      let? b := byte mem ptr in
      if b =? 0 then Ok (Some ptr) else memchr_nul (ptr + 1) n
  end.

(** [ptr + n], which has to stay in the buffer. *)
Definition advance_pointer (ptr n : Z) : outcome Z :=
  if (0 <=? ptr + n) && (ptr + n <=? Z.of_nat (length mem)) then Ok (ptr + n) else Undef.

Section cie_fields.
Context (entry : Entry) (limit : Z).

Definition report_cie {A} (r : Report) : M (Parser H) A := report r ;; fail.

(** A number, its length checked against the end of the entry. *)
Definition leb128_field (read : ByteReader -> Z -> outcome (Z * Z)) (cursor : Z) : M (Parser H) (Z * Z) :=
  r ← gets reader_;
  '(v, len) ← lift (read r cursor);
  if wrap 64 (limit - cursor) <? len then ReportIncomplete entry else mret (v, cursor + len).

(** An encoding in the augmentation data. *)
Definition encoding_byte (data data_end : Z) : M (Parser H) Z :=
  if data_end <=? data then ReportIncomplete entry
  else
    encoding ← lift (byte mem data);
    if negb (ValidEncoding encoding) then report_cie (InvalidPointerEncoding (entry_offset entry) encoding)
    else mret encoding.

Definition check_usable (encoding : Z) : M (Parser H) unit :=
  r ← gets reader_;
  if negb (UsableEncoding r encoding) then report_cie (UnusablePointerEncoding (entry_offset entry) encoding)
  else mret tt.

(** The loop over the augmentation string. *)
Fixpoint augmentation_loop (letters : chars) (cie : CIE) (data data_end : Z) : M (Parser H) CIE :=
  match letters with
  | [] => mret cie
  | letter :: letters =>
      if letter =? DW_Z_has_LSDA then
        encoding ← encoding_byte data data_end;
        augmentation_loop letters (with_lsda cie encoding) (data + 1) data_end
      else if letter =? DW_Z_has_personality_routine then
        encoding ← encoding_byte data data_end;
        let data := data + 1 in
        check_usable encoding ;;
        r ← gets reader_;
        '(address, len) ← lift (ReadEncodedPointer mem r data encoding);
        if wrap 64 (data_end - data) <? len then ReportIncomplete entry
        else augmentation_loop letters (with_personality cie encoding address) (data + len) data_end
      else if letter =? DW_Z_has_FDE_address_encoding then
        encoding ← encoding_byte data data_end;
        check_usable encoding ;;
        augmentation_loop letters (with_pointer_encoding cie encoding) (data + 1) data_end
      else if letter =? DW_Z_is_signal_trampoline then
        augmentation_loop letters (with_signal_frame cie) data data_end
      else report_cie (UnrecognizedAugmentation (entry_offset entry) (augmentation cie))
  end.

(** The version: one to four. *)
Definition version_field (cursor : Z) : M (Parser H) Z :=
  if limit - cursor <? 1 then ReportIncomplete entry
  else
    r ← gets reader_;
    version ← lift (ReadOneByte mem r cursor);
    if (version <? 1) || (4 <? version) then report_cie (UnrecognizedVersion (entry_offset entry) version)
    else mret version.

(** The augmentation string, whether it starts with [z], and the position after it. *)
Definition augmentation_field (cursor : Z) : M (Parser H) (chars * bool * Z) :=
  augmentation_end ← lift (memchr_nul cursor (Z.to_nat (limit - cursor)));
  match augmentation_end with
  | None => ReportIncomplete entry
  | Some augmentation_end =>
      augmentation ← lift (string_at cursor (augmentation_end - cursor));
      let cursor := augmentation_end + 1 in
      match augmentation with
      | [] => mret (augmentation, false, cursor)
      | c :: _ =>
          if c =? DW_Z_augmentation_start then mret (augmentation, true, cursor)
          else report_cie (UnrecognizedAugmentation (entry_offset entry) augmentation)
      end
  end.

(** The two sizes a version 4 CIE has: read without a look at the end. *)
Definition size_fields (version cursor : Z) : M (Parser H) (option Z * option Z * Z) :=
  if 4 <=? version then
    address_size ← lift (byte mem cursor);
    let cursor := cursor + 1 in
    if negb (address_size =? 8) && negb (address_size =? 4) then
      report_cie (UnexpectedAddressSize (entry_offset entry) address_size)
    else
      segment_size ← lift (byte mem cursor);
      let cursor := cursor + 1 in
      if negb (segment_size =? 0) then
        report_cie (UnexpectedSegmentSize (entry_offset entry) segment_size)
      else mret (Some address_size, Some segment_size, cursor)
  else mret (None, None, cursor).

(** The return address register: a byte in version 1. *)
Definition return_address_field (version cursor : Z) : M (Parser H) (Z * Z) :=
  if version =? 1 then
    if limit <=? cursor then ReportIncomplete entry
    else register ← lift (byte mem cursor); mret (register, cursor + 1)
  else
    '(register, cursor) ← leb128_field (ReadUnsignedLEB128 mem) cursor;
    mret (wrap 32 register, cursor).

(** The augmentation data: its start and its end. *)
Definition augmentation_data (cursor : Z) : M (Parser H) (Z * Z) :=
  r ← gets reader_;
  '(data_size, len) ← lift (ReadUnsignedLEB128 mem r cursor);
  if wrap 64 (limit - cursor) <? wrap 64 (len + data_size) then ReportIncomplete entry
  else
    let data := cursor + len in
    data_end ← lift (advance_pointer data data_size);
    mret (data, data_end).
End cie_fields.

Definition ReadCIEFields (entry : Entry) : M (Parser H) CIE :=
  cursor ← lift (of_option (entry_fields entry));
  limit ← lift (of_option (entry_end entry));
  if bool_decide (entry_kind entry <> kCIE) then lift Undef
  else
    version ← version_field entry limit cursor;
    '(augmentation, has_z, cursor) ← augmentation_field entry limit (cursor + 1);
    '(address_size, segment_size, cursor) ← size_fields entry version cursor;
    '(code_factor, cursor) ← leb128_field entry limit (ReadUnsignedLEB128 mem) cursor;
    '(data_factor, cursor) ← leb128_field entry limit (ReadSignedLEB128 mem) cursor;
    '(return_register, cursor) ← return_address_field entry limit version cursor;
    let cie := mkCIE entry version augmentation code_factor (swrap 32 data_factor) return_register has_z
                 false false false None None None DW_EH_PE_absptr address_size segment_size in
    if has_z : bool then
      '(data, data_end) ← augmentation_data entry limit cursor;
      cie ← augmentation_loop entry (drop 1 augmentation) cie data data_end;
      mret (with_cie_entry cie (with_instructions entry data_end))
    else mret (with_cie_entry cie (with_instructions entry cursor)).

(** *** FDE *)

(** A pointer of the FDE's header. *)
Definition pointer_field (entry : Entry) (limit encoding cursor : Z) : M (Parser H) (Z * Z) :=
  r ← gets reader_;
  '(v, size) ← lift (ReadEncodedPointer mem r cursor encoding);
  if wrap 64 (limit - cursor) <? size then ReportIncomplete entry else mret (v, cursor + size).

(** The augmentation data of the FDE: the address of the language-specific data
    area, and the position after the data. *)
Definition fde_augmentation (entry : Entry) (cie : CIE) (limit cursor : Z) : M (Parser H) (option Z * Z) :=
  r ← gets reader_;
  '(data_size, size) ← lift (ReadUnsignedLEB128 mem r cursor);
  if wrap 64 (limit - cursor) <? wrap 64 (size + data_size) then ReportIncomplete entry
  else
    let cursor := cursor + size in
    lsda ←
      (if has_z_lsda cie then
         encoding ← lift (of_option (lsda_encoding cie));
         if negb (UsableEncoding r encoding) then
           report (UnusablePointerEncoding (entry_offset (cie_entry cie)) encoding) ;; fail
         else
           '(address, size) ← lift (ReadEncodedPointer mem r cursor encoding);
           if data_size <? size then ReportIncomplete entry else mret (Some address)
       else mret None);
    cursor ← lift (advance_pointer cursor data_size);
    mret (lsda, cursor).

Definition ReadFDEFields (entry : Entry) (cie : CIE) : M (Parser H) FDE :=
  cursor ← lift (of_option (entry_fields entry));
  limit ← lift (of_option (entry_end entry));
  '(address, cursor) ← pointer_field entry limit (pointer_encoding cie) cursor;
  r ← gets reader_;
  set_reader (SetFunctionBase r address) ;;
  '(size, cursor) ← pointer_field entry limit (Z.land (pointer_encoding cie) 0x0f) cursor;
  '(lsda, cursor) ←
    (if has_z_augmentation cie then fde_augmentation entry cie limit cursor else mret (None, cursor));
  mret (mkFDE (with_instructions entry cursor) address size lsda).

Definition IsIndirectEncoding (encoding : Z) : bool := negb (Z.land encoding DW_EH_PE_indirect =? 0).

(** *** Start *)

(** What the augmentation says is reported to the handler. *)
Definition report_augmentation (cie : CIE) (fde : FDE) : M (Parser H) unit :=
  if has_z_augmentation cie then
    (if has_z_personality cie then
       address ← lift (of_option (personality_address cie));
       encoding ← lift (of_option (personality_encoding cie));
       require (call (fun h => Handler_PersonalityRoutine h address (IsIndirectEncoding encoding)))
     else mret tt) ;;
    (if has_z_lsda cie then
       address ← lift (of_option (lsda_address fde));
       encoding ← lift (of_option (lsda_encoding cie));
       require (call (fun h => Handler_LanguageSpecificDataArea h address (IsIndirectEncoding encoding)))
     else mret tt) ;;
    (if has_z_signal_frame cie then require (call Handler_SignalHandler) else mret tt)
  else mret tt.

Definition new_state (p : Parser H) (address : Z) : State H :=
  mkState p address 0 empty_rules empty_rules [].

(** The instructions of the CIE and of the FDE; the result is [ok]. *)
Definition interpret_entry (cie : CIE) (fde : FDE) : M (Parser H) bool := fun p =>
  let? (o, s) := (InterpretCIE cie ;; InterpretFDE cie fde) (new_state p (fde_address fde)) in
  Ok (Some (bool_decide (is_Some o)), parser_ s).

(** The CIE of an FDE. *)
Definition read_CIE (entry : Entry) : M (Parser H) CIE :=
  id ← lift (of_option (entry_id entry));
  if buffer_length_ <? id then
    report (CIEPointerOutOfRange (entry_offset entry) id) ;; fail
  else
    '(ok, cie_entry) ← ReadEntryPrologue (buffer_ + id);
    if negb ok then fail
    else if bool_decide (entry_kind cie_entry <> kCIE) then
      report (BadCIEId (entry_offset entry) id) ;; fail
    else ReadCIEFields cie_entry.

(** A version 4 CIE gives the address size. *)
Definition use_address_size (cie : CIE) : M (Parser H) unit :=
  if 4 <=? version cie then
    r ← gets reader_;
    size ← lift (of_option (cie_address_size cie));
    r ← lift (SetAddressSize r size);
    set_reader r
  else mret tt.

(** The FDE is offered to the handler, and interpreted if it is interested. *)
Definition offer_FDE (cie : CIE) (fde : FDE) : M (Parser H) bool :=
  interested ← call (fun h => Handler_Entry h (entry_offset (fde_entry fde)) (fde_address fde) (fde_size fde)
    (version cie) (augmentation cie) (return_address_register cie));
  if negb interested then mret true
  else
    report_augmentation cie fde ;;
    ok ← interpret_entry cie fde;
    r ← gets reader_;
    set_reader (ClearFunctionBase r) ;;
    call Handler_End ;;
    mret ok.

(** The body of the loop from the FDE on: [None] is a [continue] with [ok]
    false. *)
Definition process_FDE (entry : Entry) : M (Parser H) bool :=
  cie ← read_CIE entry;
  use_address_size cie ;;
  fde ← ReadFDEFields entry cie;
  offer_FDE cie fde.

(** A [continue] leaves [ok] false. *)
Definition continue_with_false {S} (m : M S bool) : M S bool := fun s =>
  let? (o, s) := m s in Ok (Some (default false o), s).

(** How a round of the loop ends: [break], or the next entry and [ok]. *)
Inductive Progress : Type := Break (all_ok : bool) | Continue (entry_end_ : Z) (ok : bool).

Definition Start_entry (cursor : Z) (all_ok : bool) : M (Parser H) Progress :=
  '(ok, entry) ← ReadEntryPrologue cursor;
  if negb ok then
    match entry_end entry with
    | None => mret (Break false)
    | Some limit => mret (Continue limit false)
    end
  else
    limit ← lift (of_option (entry_end entry));
    match entry_kind entry with
    | kTerminator =>
        (if limit <? buffer_end then report (EarlyEHTerminator (entry_offset entry)) else mret tt) ;;
        mret (Break all_ok)
    | kFDE =>
        ok ← continue_with_false (process_FDE entry);
        mret (Continue limit ok)
    | _ => mret (Continue limit true)
    end.

Fixpoint Start_loop (fuel : nat) (cursor : Z) (all_ok : bool) : M (Parser H) bool :=
  if cursor <? buffer_end then
    match fuel with
    | O => lift Undef
    | S fuel =>
        progress ← Start_entry cursor all_ok;
        match progress with
        | Break all_ok => mret all_ok
        | Continue limit ok => Start_loop fuel limit (all_ok && ok)
        end
    end
  else mret all_ok.

Definition Start : M (Parser H) bool := Start_loop (Z.to_nat buffer_length_) buffer_ true.
End section.
End parser.
