(* ===== verification/DwarfCfiSpec.v ===== *)
(** * What call frame information means

    The table of rows that DWARF's call frame instructions describe, over the
    instructions themselves ([cfi]) rather than their bytes, and the proof that
    the interpreter of [DwarfCfi] gives a handler exactly that table.

    A handler is any instance of [Handler] with the laws [RuleHandler]; it gets
    a list of calls, and what the calls say is compared with the rows.  A
    handler starts from the assumption that every register keeps its value, so
    no rule and the rule that the value is the same are not distinguished. *)

From stdpp Require Import gmap.
From S2P Require Import Prelude Memory LibcSupport OrderedMap ByteReader DwarfFields DwarfCfi.
#[local] Open Scope Z_scope.

(** ** A handler that writes down the calls *)

Inductive Call : Type :=
| Call_Entry (offset address length version : Z) (augmentation : chars) (return_address : Z)
| Call_Rule (address reg : Z) (rule : Rule)
| Call_End.

#[export] Instance trace_handler : Handler (list Call) := {|
  Handler_Entry h offset address length version augmentation ra :=
    Ok (true, h ++ [Call_Entry offset address length version augmentation ra]);
  Handler_UndefinedRule h address reg := Ok (true, h ++ [Call_Rule address reg UndefinedRule]);
  Handler_SameValueRule h address reg := Ok (true, h ++ [Call_Rule address reg SameValueRule]);
  Handler_OffsetRule h address reg base offset := Ok (true, h ++ [Call_Rule address reg (OffsetRule base offset)]);
  Handler_ValOffsetRule h address reg base offset :=
    Ok (true, h ++ [Call_Rule address reg (ValOffsetRule base offset)]);
  Handler_RegisterRule h address reg base := Ok (true, h ++ [Call_Rule address reg (RegisterRule base)]);
  Handler_ExpressionRule h address reg e := Ok (true, h ++ [Call_Rule address reg (ExpressionRule e)]);
  Handler_ValExpressionRule h address reg e := Ok (true, h ++ [Call_Rule address reg (ValExpressionRule e)]);
  Handler_End h := Ok (true, h ++ [Call_End]);
  Handler_PersonalityRoutine := default_PersonalityRoutine;
  Handler_LanguageSpecificDataArea := default_LanguageSpecificDataArea;
  Handler_SignalHandler := default_SignalHandler;
|}.

(** A section with one function: [push %rbp; mov %rsp, %rbp] and an epilogue in
    the middle. *)
Definition example_section : byte_list :=
  [16; 0; 0; 0; 255; 255; 255; 255; 1; 0; 1; 0x78; 16;
   0x0c; 7; 8; 0x90; 1; 0; 0;
   36; 0; 0; 0; 0; 0; 0; 0;
   0; 0x10; 0; 0; 0; 0; 0; 0; 0x20; 0; 0; 0; 0; 0; 0; 0;
   0x41; 0x0e; 16; 0x86; 2; 0x43; 0x0d; 6; 0x0a; 0x48; 0x0c; 7; 8; 0x41; 0x0b; 0].

Definition example_reader : ByteReader :=
  mkByteReader None (Some ReadEightBytes_reader) ENDIANNESS_LITTLE 8 0 false false false false 0 0 0 0 0.

Definition example_run : outcome (option bool * Parser (list Call)) :=
  Start example_section 0 (Z.of_nat (length example_section)) false (mkParser example_reader [] []).

Example example_calls :
  (let? (ok, p) := example_run in Ok (ok, handler_ p, reports_ p)) =
  Ok (Some true,
    [Call_Entry 20 0x1000 0x20 1 [] 16;
     Call_Rule 0x1000 (-1) (ValOffsetRule 7 8);
     Call_Rule 0x1000 16 (OffsetRule (-1) (-8));
     Call_Rule 0x1001 (-1) (ValOffsetRule 7 16);
     Call_Rule 0x1001 6 (OffsetRule (-1) (-16));
     Call_Rule 0x1004 (-1) (ValOffsetRule 6 16);
     Call_Rule 0x100c (-1) (ValOffsetRule 7 8);
     Call_Rule 0x100d (-1) (ValOffsetRule 6 16);
     Call_End], []).
Proof. vm_compute. reflexivity. Qed.

(** ** The table *)

(** A row: the rule for the CFA and those for the registers. *)
Record Row : Type := mkRow { row_cfa : option Rule; row_rules : gmap Z Rule }.

(** The row under construction, its location, and the remembered rows. *)
Record Table : Type := mkTable { loc : Z; row : Row; remembered : list Row }.

(** The call frame instructions, with their factors applied. *)
Inductive cfi : Type :=
| cfi_advance_loc (delta : Z)
| cfi_set_loc (address : Z)
| cfi_def_cfa (reg offset : Z)
| cfi_def_cfa_register (reg : Z)
| cfi_def_cfa_offset (offset : Z)
| cfi_def_cfa_expression (e : chars)
| cfi_rule (reg : Z) (rule : Rule)
| cfi_restore (reg : Z)
| cfi_remember_state
| cfi_restore_state.

(** The rules that need the CFA. *)
Definition cites_cfa (rule : Rule) : bool :=
  match rule with OffsetRule base _ | ValOffsetRule base _ => base =? kCFARegister | _ => false end.

Definition set_cfa (t : Table) (rule : Rule) : Table :=
  mkTable (loc t) (mkRow (Some rule) (row_rules (row t))) (remembered t).
Definition set_loc (t : Table) (address : Z) : Table := mkTable address (row t) (remembered t).
Definition set_rule (t : Table) (reg : Z) (rule : Rule) : Table :=
  mkTable (loc t) (mkRow (row_cfa (row t)) (<[reg := rule]> (row_rules (row t)))) (remembered t).

(** One instruction; [initial] is the row the CIE establishes, [None] in the CIE
    itself.  [None] is an instruction that makes no sense in its place. *)
Definition exec (initial : option Row) (i : cfi) (t : Table) : option Table :=
  match i with
  | cfi_advance_loc delta => Some (set_loc t (wrap 64 (loc t + delta)))
  | cfi_set_loc address => Some (set_loc t address)
  | cfi_def_cfa reg offset => Some (set_cfa t (ValOffsetRule reg offset))
  | cfi_def_cfa_register reg =>
      match row_cfa (row t) with
      | Some (ValOffsetRule _ offset) => Some (set_cfa t (ValOffsetRule reg offset))
      | _ => None
      end
  | cfi_def_cfa_offset offset =>
      match row_cfa (row t) with
      | Some (ValOffsetRule reg _) => Some (set_cfa t (ValOffsetRule reg offset))
      | _ => None
      end
  | cfi_def_cfa_expression e => Some (set_cfa t (ValExpressionRule e))
  | cfi_rule reg rule =>
      if cites_cfa rule && bool_decide (row_cfa (row t) = None) then None else Some (set_rule t reg rule)
  | cfi_restore reg =>
      init ← initial;
      Some (set_rule t reg (default SameValueRule (row_rules init !! reg)))
  | cfi_remember_state => Some (mkTable (loc t) (row t) (row t :: remembered t))
  | cfi_restore_state =>
      match remembered t with
      | [] => None
      | r :: rows =>
          if bool_decide (is_Some (row_cfa (row t))) && bool_decide (row_cfa r = None) then None
          else Some (mkTable (loc t) r rows)
      end
  end.

Fixpoint exec_all (initial : option Row) (prog : list cfi) (t : Table) : option Table :=
  match prog with
  | [] => Some t
  | i :: prog => t ← exec initial i t; exec_all initial prog t
  end.

(** The table of an FDE: the instructions of its CIE, then its own. *)
Definition empty_table (address : Z) : Table := mkTable address (mkRow None ∅) [].

Definition exec_entry (cis fis : list cfi) (address : Z) : option Table :=
  t ← exec_all None cis (empty_table address);
  exec_all (Some (row t)) fis t.

Lemma exec_all_app initial is1 is2 t :
  exec_all initial (is1 ++ is2) t = t ← exec_all initial is1 t; exec_all initial is2 t.
Proof.
  revert t; induction is1 as [|i is1 IH]; intros t; [done|]. cbn [app exec_all].
  destruct (exec initial i t); [apply IH|done].
Qed.

(** The table of the row for [a]: the one the location leaves when it passes [a]. *)
Fixpoint table_at (initial : option Row) (prog : list cfi) (t : Table) (a : Z) : option Table :=
  match prog with
  | [] => Some t
  | i :: prog => t1 ← exec initial i t; if a <? loc t1 then Some t else table_at initial prog t1 a
  end.

(** The locations do not go back. *)
Fixpoint ascending (initial : option Row) (prog : list cfi) (t : Table) : Prop :=
  match prog with
  | [] => True
  | i :: prog => exists t1, exec initial i t = Some t1 /\ loc t <= loc t1 /\ ascending initial prog t1
  end.

Fixpoint ascending_check (initial : option Row) (prog : list cfi) (t : Table) : bool :=
  match prog with
  | [] => true
  | i :: prog =>
      match exec initial i t with
      | Some t1 => (loc t <=? loc t1) && ascending_check initial prog t1
      | None => false
      end
  end.

Lemma ascending_checked initial prog : forall t, ascending_check initial prog t = true -> ascending initial prog t.
Proof.
  induction prog as [|i prog IH]; intros t; [done|]. cbn [ascending_check ascending].
  destruct (exec initial i t) as [t1|]; [|done]. intros [Hle%Z.leb_le Hc]%andb_true_iff. eauto.
Qed.

(** The instructions that stay where they are. *)
Definition still (i : cfi) : Prop := match i with cfi_advance_loc _ | cfi_set_loc _ => False | _ => True end.

Lemma exec_still initial i t t' : still i -> exec initial i t = Some t' -> loc t' = loc t.
Proof.
  destruct i; cbn [still exec]; intros Hs He; try done.
  - by injection He as <-.
  - destruct (row_cfa (row t)) as [[]|]; by inversion He.
  - destruct (row_cfa (row t)) as [[]|]; by inversion He.
  - by injection He as <-.
  - destruct (_ && _); by inversion He.
  - destruct initial; by inversion He.
  - by injection He as <-.
  - destruct (remembered t); [done|]. destruct (_ && _); by inversion He.
Qed.

Lemma exec_all_still initial prog : forall t t',
  Forall still prog -> exec_all initial prog t = Some t' -> loc t' = loc t.
Proof.
  induction prog as [|i prog IH]; intros t t' Hs; cbn [exec_all]; [by intros [= <-]|].
  apply Forall_cons in Hs as [Hi Hs]. destruct (exec initial i t) as [t1|] eqn:E; [|done]. cbn.
  intros Hx. rewrite (IH t1 t' Hs Hx). by eapply exec_still.
Qed.

(** Before and after the instructions of a prefix that stays until its last. *)
Lemma table_at_still initial prog rest : forall t t1 a,
  Forall still prog -> exec_all initial prog t = Some t1 -> loc t <= a ->
  table_at initial (prog ++ rest) t a = table_at initial rest t1 a.
Proof.
  induction prog as [|i prog IH]; intros t t1 a Hs; cbn [exec_all app table_at]; [by intros [= <-]|].
  apply Forall_cons in Hs as [Hi Hs]. destruct (exec initial i t) as [t2|] eqn:E; [|done]. cbn.
  intros Hx Ha. pose proof (exec_still _ _ _ _ Hi E) as Hl. rewrite (proj2 (Z.ltb_ge _ _)) by lia.
  apply IH; auto. lia.
Qed.

Lemma ascending_app initial prog rest : forall t t1,
  exec_all initial prog t = Some t1 -> ascending initial (prog ++ rest) t ->
  loc t <= loc t1 /\ ascending initial rest t1.
Proof.
  induction prog as [|i prog IH]; intros t t1; cbn [exec_all app ascending]; [by intros [= <-]|].
  intros Hx (t2 & E & Hle & Ha). rewrite E in Hx. cbn in Hx.
  destruct (IH _ _ Hx Ha) as [Hle' Ha']. split; [lia|done].
Qed.

Lemma still_ascending initial prog : forall t t1,
  Forall still prog -> exec_all initial prog t = Some t1 -> ascending initial prog t.
Proof.
  induction prog as [|i prog IH]; intros t t1 Hs; cbn [exec_all ascending]; [done|].
  apply Forall_cons in Hs as [Hi Hs]. destruct (exec initial i t) as [t2|] eqn:E; [|done]. cbn. intros Hx.
  exists t2. split; [done|]. rewrite (exec_still _ _ _ _ Hi E). split; [lia|by eapply IH].
Qed.

Lemma ascending_le initial prog t t1 :
  exec_all initial prog t = Some t1 -> ascending initial prog t -> loc t <= loc t1.
Proof. intros Hx Ha. apply (ascending_app initial prog [] t t1 Hx). by rewrite app_nil_r. Qed.

(** ** Bytes *)

Definition register_ok (reg : Z) : Prop := 0 <= reg < 2 ^ 31.
Definition long_ok (n : Z) : Prop := - 2 ^ 63 <= n < 2 ^ 63.

(** The rules of DW_CFA_GNU_window_save, for registers of [size] bytes. *)
Definition window_save (size : Z) : list cfi :=
  map (fun i => cfi_rule i (RegisterRule (i + 16))) (seqZ 8 8) ++
  map (fun i => cfi_rule i (OffsetRule kCFARegister ((i - 16) * size))) (seqZ 16 16).

(** The bytes [bs] at [cursor] are an instruction of the CIE or of an FDE that
    refers to it. *)
Inductive encoded (cie : CIE) (r : ByteReader) (cursor : Z) : byte_list -> list cfi -> Prop :=
| encoded_advance_loc d :
    uint 6 d -> encoded cie r cursor [DW_CFA_advance_loc + d] [cfi_advance_loc (d * code_alignment_factor cie)]
| encoded_advance op n d :
    In (op, n) [(DW_CFA_advance_loc1, 1%nat); (DW_CFA_advance_loc2, 2%nat); (DW_CFA_advance_loc4, 4%nat);
                (DW_CFA_MIPS_advance_loc8, 8%nat)] ->
    uint (8 * Z.of_nat n) d ->
    encoded cie r cursor (op :: bytes_of (endian_ r) n d) [cfi_advance_loc (d * code_alignment_factor cie)]
| encoded_set_loc size bs v :
    has_address_size r size -> pointer_encoding cie <> DW_EH_PE_omit -> pointer_encoding cie <> DW_EH_PE_aligned ->
    UsableEncoding r (pointer_encoding cie) = true ->
    field (endian_ r) size (Z.land (pointer_encoding cie) 0x0f) bs v ->
    encoded cie r cursor (DW_CFA_set_loc :: bs)
      [cfi_set_loc (wrap (8 * size) (base_address r (cursor + 1) (pointer_encoding cie) + v))]
| encoded_def_cfa bs1 reg bs2 offset :
    uleb bs1 reg -> register_ok reg -> uleb bs2 offset -> long_ok offset ->
    encoded cie r cursor (DW_CFA_def_cfa :: bs1 ++ bs2) [cfi_def_cfa reg offset]
| encoded_def_cfa_sf bs1 reg bs2 offset :
    uleb bs1 reg -> register_ok reg -> sleb bs2 offset -> long_ok (offset * data_alignment_factor cie) ->
    encoded cie r cursor (DW_CFA_def_cfa_sf :: bs1 ++ bs2) [cfi_def_cfa reg (offset * data_alignment_factor cie)]
| encoded_def_cfa_register bs reg :
    uleb bs reg -> register_ok reg ->
    encoded cie r cursor (DW_CFA_def_cfa_register :: bs) [cfi_def_cfa_register reg]
| encoded_def_cfa_offset bs offset :
    uleb bs offset -> long_ok offset ->
    encoded cie r cursor (DW_CFA_def_cfa_offset :: bs) [cfi_def_cfa_offset offset]
| encoded_def_cfa_offset_sf bs offset :
    sleb bs offset -> long_ok (offset * data_alignment_factor cie) ->
    encoded cie r cursor (DW_CFA_def_cfa_offset_sf :: bs)
      [cfi_def_cfa_offset (offset * data_alignment_factor cie)]
| encoded_def_cfa_expression bs e :
    uleb bs (Z.of_nat (length e)) ->
    encoded cie r cursor (DW_CFA_def_cfa_expression :: bs ++ e) [cfi_def_cfa_expression e]
| encoded_offset reg bs offset :
    uint 6 reg -> uleb bs offset -> long_ok (offset * data_alignment_factor cie) ->
    encoded cie r cursor (DW_CFA_offset + reg :: bs)
      [cfi_rule reg (OffsetRule kCFARegister (offset * data_alignment_factor cie))]
| encoded_unsigned op rule bs1 reg bs2 offset :
    In (op, rule) [
      (DW_CFA_offset_extended, OffsetRule kCFARegister (offset * data_alignment_factor cie));
      (DW_CFA_GNU_negative_offset_extended, OffsetRule kCFARegister (- offset * data_alignment_factor cie));
      (DW_CFA_val_offset, ValOffsetRule kCFARegister (offset * data_alignment_factor cie))] ->
    uleb bs1 reg -> register_ok reg -> uleb bs2 offset ->
    long_ok (offset * data_alignment_factor cie) -> long_ok (- offset * data_alignment_factor cie) ->
    encoded cie r cursor (op :: bs1 ++ bs2) [cfi_rule reg rule]
| encoded_signed op rule bs1 reg bs2 offset :
    In (op, rule) [
      (DW_CFA_offset_extended_sf, OffsetRule kCFARegister (offset * data_alignment_factor cie));
      (DW_CFA_val_offset_sf, ValOffsetRule kCFARegister (offset * data_alignment_factor cie))] ->
    uleb bs1 reg -> register_ok reg -> sleb bs2 offset -> long_ok (offset * data_alignment_factor cie) ->
    encoded cie r cursor (op :: bs1 ++ bs2) [cfi_rule reg rule]
| encoded_register bs1 reg bs2 reg2 :
    uleb bs1 reg -> register_ok reg -> uleb bs2 reg2 -> register_ok reg2 ->
    encoded cie r cursor (DW_CFA_register :: bs1 ++ bs2) [cfi_rule reg (RegisterRule reg2)]
| encoded_simple op rule bs reg :
    In (op, rule) [(DW_CFA_undefined, UndefinedRule); (DW_CFA_same_value, SameValueRule)] ->
    uleb bs reg -> register_ok reg -> encoded cie r cursor (op :: bs) [cfi_rule reg rule]
| encoded_expression op rule bs1 reg bs2 e :
    In (op, rule) [(DW_CFA_expression, ExpressionRule e); (DW_CFA_val_expression, ValExpressionRule e)] ->
    uleb bs1 reg -> register_ok reg -> uleb bs2 (Z.of_nat (length e)) ->
    encoded cie r cursor (op :: bs1 ++ bs2 ++ e) [cfi_rule reg rule]
| encoded_restore reg :
    uint 6 reg -> encoded cie r cursor [DW_CFA_restore + reg] [cfi_restore reg]
| encoded_restore_extended bs reg :
    uleb bs reg -> register_ok reg -> encoded cie r cursor (DW_CFA_restore_extended :: bs) [cfi_restore reg]
| encoded_remember_state : encoded cie r cursor [DW_CFA_remember_state] [cfi_remember_state]
| encoded_restore_state : encoded cie r cursor [DW_CFA_restore_state] [cfi_restore_state]
| encoded_nop : encoded cie r cursor [DW_CFA_nop] []
| encoded_args_size bs size : uleb bs size -> encoded cie r cursor (DW_CFA_GNU_args_size :: bs) []
| encoded_window_save :
    uint 8 (AddressSize r) -> encoded cie r cursor [DW_CFA_GNU_window_save] (window_save (AddressSize r)).

(** The instructions in [bs], one after the other. *)
Inductive encoded_all (cie : CIE) (r : ByteReader) : Z -> byte_list -> list cfi -> Prop :=
| encoded_none cursor : encoded_all cie r cursor [] []
| encoded_next cursor bs1 is1 bs2 is2 :
    encoded cie r cursor bs1 is1 -> encoded_all cie r (cursor + Z.of_nat (length bs1)) bs2 is2 ->
    encoded_all cie r cursor (bs1 ++ bs2) (is1 ++ is2).

(** ** Handlers *)

Definition reg_ok (reg : Z) : Prop := reg = kCFARegister \/ register_ok reg.

Definition range_ok (rule : Rule) : Prop :=
  match rule with
  | OffsetRule base offset | ValOffsetRule base offset => reg_ok base /\ long_ok offset
  | RegisterRule reg => register_ok reg
  | _ => True
  end.

(** A handler that, while it is [rule_ready], accepts the rules it [takes] for
    registers that have a number; it takes sums of a register and a number and
    that a register keeps its value, which the interpreter makes by itself. *)
Class RuleHandler (H : Type) `{!Handler H} : Type := {
  rule_ready : H -> Prop;
  takes : Rule -> Prop;
  take_rule : H -> Z -> Z -> Rule -> H;
  takes_same_value : takes SameValueRule;
  takes_val_offset reg offset : takes (ValOffsetRule reg offset);
  handle_accepts h address reg rule :
    rule_ready h -> reg_ok reg -> range_ok rule -> takes rule ->
    Handle rule h address reg = Ok (true, take_rule h address reg rule);
  take_ready h address reg rule :
    rule_ready h -> reg_ok reg -> range_ok rule -> takes rule -> rule_ready (take_rule h address reg rule);
}.
#[global] Arguments takes H {_ _} rule.

#[export, refine] Instance trace_rule_handler : RuleHandler (list Call) := {|
  rule_ready _ := True;
  takes _ := True;
  take_rule h address reg rule := h ++ [Call_Rule address reg rule];
|}.
Proof. all: try done. all: by intros h address reg []. Defined.

(** A call about a register. *)
Record RuleCall : Type := mkRuleCall { call_address : Z; call_reg : Z; call_rule : Rule }.

(** What calls say: the last rule for a register. *)
Definition apply_calls (calls : list RuleCall) (view : gmap Z Rule) : gmap Z Rule :=
  fold_left (fun view c => <[call_reg c := call_rule c]> view) calls view.

(** The view of a handler shows the row. *)
Definition shows (view : gmap Z Rule) (r : Row) : Prop :=
  view !! kCFARegister = row_cfa r /\
  forall reg, reg <> kCFARegister ->
    default SameValueRule (view !! reg) = default SameValueRule (row_rules r !! reg).

Lemma apply_calls_app calls1 calls2 view :
  apply_calls (calls1 ++ calls2) view = apply_calls calls2 (apply_calls calls1 view).
Proof. apply fold_left_app. Qed.

Lemma shows_set_cfa view r rule : shows view r -> shows (<[kCFARegister := rule]> view) (mkRow (Some rule) (row_rules r)).
Proof.
  intros [Hc Hr]. split; [by rewrite lookup_insert_eq|]. intros reg Hne. rewrite lookup_insert_ne by done. by apply Hr.
Qed.

Lemma shows_set_rule view r reg rule :
  reg <> kCFARegister -> shows view r ->
  shows (<[reg := rule]> view) (mkRow (row_cfa r) (<[reg := rule]> (row_rules r))).
Proof.
  intros Hne [Hc Hr]. split; [by rewrite lookup_insert_ne|]. intros k Hk. cbn [row_rules].
  destruct (decide (reg = k)) as [->|]; [by rewrite !lookup_insert_eq|].
  rewrite !lookup_insert_ne by done. by apply Hr.
Qed.

Section deliver.
Context {H : Type} `{!Handler H} `{!RuleHandler H}.

Definition rule_ok (rule : Rule) : Prop := range_ok rule /\ takes H rule.
Definition call_ok (c : RuleCall) : Prop := reg_ok (call_reg c) /\ rule_ok (call_rule c).

Lemma handle_takes h address reg rule :
  rule_ready h -> reg_ok reg -> rule_ok rule -> Handle rule h address reg = Ok (true, take_rule h address reg rule).
Proof. intros Hh Hr []. by apply handle_accepts. Qed.

Lemma take_takes h address reg rule :
  rule_ready h -> reg_ok reg -> rule_ok rule -> rule_ready (take_rule h address reg rule).
Proof. intros Hh Hr []. by apply take_ready. Qed.

Lemma same_value_ok : rule_ok SameValueRule.
Proof. split; [done|]. apply takes_same_value. Qed.

Lemma val_offset_ok reg offset : reg_ok reg -> long_ok offset -> rule_ok (ValOffsetRule reg offset).
Proof. intros Hr Ho. split; [by split|]. apply takes_val_offset. Qed.

Definition deliver (calls : list RuleCall) (h : H) : H :=
  fold_left (fun h c => take_rule h (call_address c) (call_reg c) (call_rule c)) calls h.

Lemma deliver_app calls1 calls2 h : deliver (calls1 ++ calls2) h = deliver calls2 (deliver calls1 h).
Proof. apply fold_left_app. Qed.

Lemma deliver_ready calls h : rule_ready h -> Forall call_ok calls -> rule_ready (deliver calls h).
Proof.
  intros Hh Hc. revert h Hh. induction Hc as [|c calls [Hr Ho] _ IH]; intros h Hh; [done|].
  by apply IH, take_takes.
Qed.
End deliver.
#[global] Arguments rule_ok H {_ _} rule.
#[global] Arguments call_ok H {_ _} c.

(** ** Rule maps *)

Section transitions.
Context {H : Type} `{!Handler H} `{!RuleHandler H}.

Definition regs_ok (m : list (Z * Rule)) : Prop := Forall (fun p => register_ok p.1 /\ rule_ok H p.2) m.

(** The map holds the row. *)
Definition represents (m : RuleMap) (r : Row) : Prop :=
  cfa_rule_ m = row_cfa r /\ sorted (registers_ m) /\
  (forall reg, find_value (registers_ m) reg = row_rules r !! reg) /\
  (forall rule, row_cfa r = Some rule -> rule_ok H rule) /\ regs_ok (registers_ m).

(** The rows that restoring may lead to have no more rules. *)
Definition covers (r old : Row) : Prop :=
  (is_Some (row_cfa old) -> is_Some (row_cfa r)) /\
  forall reg, is_Some (row_rules old !! reg) -> is_Some (row_rules r !! reg).

Fixpoint chained (r : Row) (rows : list Row) : Prop :=
  match rows with [] => True | old :: rows => covers r old /\ chained old rows end.

Lemma covers_trans r1 r2 r3 : covers r1 r2 -> covers r2 r3 -> covers r1 r3.
Proof. intros [C1 R1] [C2 R2]. split; auto. Qed.

Lemma covers_chained r1 r2 rows : covers r1 r2 -> chained r2 rows -> chained r1 rows.
Proof. destruct rows as [|r3 rows]; [done|]. intros H1 [H2 H3]. split; [by eapply covers_trans|done]. Qed.

Lemma set_cfa_represents m r rule :
  represents m r -> rule_ok H rule -> represents (SetCFARule m rule) (mkRow (Some rule) (row_rules r)).
Proof.
  intros (_ & Hs & Hf & _ & Hk) Ho. split; [done|]. split; [done|]. split; [done|].
  split; [|done]. by intros ? [= <-].
Qed.

Lemma set_rule_represents m r reg rule :
  represents m r -> register_ok reg -> rule_ok H rule ->
  exists m', SetRegisterRule m reg rule = Ok m' /\
    represents m' (mkRow (row_cfa r) (<[reg := rule]> (row_rules r))).
Proof.
  intros (Hc & Hs & Hf & Hcfa & Hk) Hr Ho. unfold SetRegisterRule.
  rewrite (proj2 (Z.eqb_neq _ _)) by (unfold register_ok, kCFARegister in *; lia).
  eexists. split; [done|]. split; [done|]. split; [by apply assign_sorted|].
  split; [|split; [done|by apply assign_Forall]].
  intros k. cbn [registers_ row_rules]. rewrite (find_value_assign (registers_ m) reg rule k) by done. case_decide as Hk'.
  - subst. by rewrite lookup_insert_eq.
  - rewrite lookup_insert_ne by done. apply Hf.
Qed.

Lemma covers_set_cfa r rule : covers (mkRow (Some rule) (row_rules r)) r.
Proof. split; [by eexists|done]. Qed.

Lemma covers_set_rule r reg rule : covers (mkRow (row_cfa r) (<[reg := rule]> (row_rules r))) r.
Proof. split; [done|]. intros k Hk. cbn. apply lookup_insert_is_Some'. by right. Qed.

(** ** Transitions *)

(** The rule of a register after the calls of a transition. *)
Definition after_transition (view : gmap Z Rule) (old new : list (Z * Rule)) (reg : Z) : option Rule :=
  match find_value new reg with
  | Some rule => if decide (find_value old reg = Some rule) then view !! reg else Some rule
  | None => if decide (is_Some (find_value old reg)) then Some SameValueRule else view !! reg
  end.

Definition calls_at (address : Z) (calls : list RuleCall) : Prop :=
  Forall (fun c => call_address c = address /\ call_ok H c) calls.

Lemma call_at_one address reg rule :
  reg_ok reg -> rule_ok H rule -> calls_at address [mkRuleCall address reg rule].
Proof. intros Hr Ho. constructor; [|constructor]. split; [done|]. by split. Qed.

(** The keys of a sorted map after its head. *)
Lemma sorted_head (p : Z * Rule) m reg : sorted (p :: m) -> reg <= p.1 -> find_value m reg = None.
Proof.
  intros [Hp Hm]%sorted_cons Hle. apply find_value_None; [done|]. intros v Hin.
  rewrite Forall_forall in Hp. apply Hp in Hin. rewrite Z_key_lt in Hin. cbn in Hin. lia.
Qed.

(** The calls bring a handler from the rules [old] to the rules [new]. *)
Definition transits (address : Z) (old new : list (Z * Rule)) (calls : list RuleCall) : Prop :=
  calls_at address calls /\
  (forall c, c ∈ calls -> is_Some (find_value old (call_reg c))) /\
  forall view reg, apply_calls calls view !! reg = after_transition view old new reg.

Lemma apply_calls_other calls view reg k :
  Forall (fun c => call_reg c = k) calls -> reg <> k -> apply_calls calls view !! reg = view !! reg.
Proof.
  intros Hc Hne. revert view. induction Hc as [|c calls Hc _ IH]; intros view; [done|].
  change (apply_calls calls (<[call_reg c:=call_rule c]> view) !! reg = view !! reg).
  rewrite IH. apply lookup_insert_ne. congruence.
Qed.

(** The calls about the first register, and those about the others. *)
Lemma transits_cons address k x old new new' first calls :
  sorted ((k, x) :: old) -> calls_at address first -> Forall (fun c => call_reg c = k) first ->
  (forall reg, is_Some (find_value new' reg) -> is_Some (find_value old reg)) ->
  (forall reg, reg <> k -> find_value new' reg = find_value new reg) ->
  (forall view, apply_calls first view !! k = after_transition view ((k, x) :: old) new k) ->
  transits address old new' calls -> transits address ((k, x) :: old) new (first ++ calls).
Proof.
  intros Hso Hf1 Hf2 Hdom Hsame Heff (Hc1 & Hc2 & Hc3).
  pose proof (fun reg => find_value_cons (k, x) old reg Hso) as Hfo. cbn [fst snd] in Hfo.
  split; [by apply Forall_app|]. split.
  - intros c [Hc|Hc]%elem_of_app; rewrite Hfo; case_decide; [by eexists| |by eexists|by apply Hc2].
    rewrite Forall_forall in Hf2. by apply Hf2 in Hc.
  - intros view reg. rewrite apply_calls_app, Hc3. unfold after_transition at 1.
    destruct (decide (reg = k)) as [->|Hne].
    + assert (find_value old k = None) as Ho by (apply (sorted_head _ _ _ Hso); cbn; lia).
      assert (find_value new' k = None) as Hn.
      { specialize (Hdom k). rewrite Ho in Hdom. destruct (find_value new' k); [|done].
        destruct Hdom as [? [=]]. by eexists. }
      rewrite Hn, Ho, decide_False by (by intros [? [=]]). apply Heff.
    + rewrite Hsame by done. unfold after_transition. rewrite Hfo, (decide_False (P := reg = k)) by done.
      by rewrite (apply_calls_other first view reg k).
Qed.

(** The handler is told that a register without a new rule keeps its value. *)
Lemma transits_same_value address k x old new calls :
  sorted ((k, x) :: old) -> sorted new -> register_ok k -> find_value new k = None ->
  (forall reg, is_Some (find_value new reg) -> is_Some (find_value ((k, x) :: old) reg)) ->
  (forall reg, is_Some (find_value new reg) -> is_Some (find_value old reg)) /\
  (transits address old new calls ->
   transits address ((k, x) :: old) new (mkRuleCall address k SameValueRule :: calls)).
Proof.
  intros Hso Hsn Hk Hnk Hdom.
  pose proof (fun reg => find_value_cons (k, x) old reg Hso) as Hfo. cbn [fst snd] in Hfo.
  assert (Hdom' : forall reg, is_Some (find_value new reg) -> is_Some (find_value old reg)).
  { intros reg Hreg. specialize (Hdom reg Hreg). rewrite Hfo in Hdom. case_decide; [|done].
    subst. rewrite Hnk in Hreg. by destruct Hreg. }
  split; [done|]. apply (transits_cons address k x old new new [mkRuleCall address k SameValueRule]); auto.
  - apply call_at_one; [by right|apply same_value_ok].
  - intros view. cbn [apply_calls fold_left call_reg call_rule]. rewrite lookup_insert_eq.
    unfold after_transition. rewrite Hnk, Hfo, (decide_True (P := k = k)) by done.
    by rewrite decide_True by by eexists.
Qed.

(** The handler is told the new rule if it is another one. *)
Lemma transits_new_rule address k x x2 old new :
  sorted ((k, x) :: old) -> sorted ((k, x2) :: new) -> register_ok k -> rule_ok H x2 ->
  (forall reg, is_Some (find_value ((k, x2) :: new) reg) -> is_Some (find_value ((k, x) :: old) reg)) ->
  (forall reg, is_Some (find_value new reg) -> is_Some (find_value old reg)) /\
  forall calls, transits address old new calls ->
    transits address ((k, x) :: old) ((k, x2) :: new)
      ((if decide (x = x2) then [] else [mkRuleCall address k x2]) ++ calls).
Proof.
  intros Hso Hsn Hk Hx2 Hdom.
  pose proof (fun reg => find_value_cons (k, x) old reg Hso) as Hfo.
  pose proof (fun reg => find_value_cons (k, x2) new reg Hsn) as Hfn. cbn [fst snd] in Hfo, Hfn.
  assert (Hsame : forall reg, reg <> k -> find_value new reg = find_value ((k, x2) :: new) reg).
  { intros reg Hne. by rewrite Hfn, decide_False. }
  assert (Hdom' : forall reg, is_Some (find_value new reg) -> is_Some (find_value old reg)).
  { intros reg Hreg. assert (reg <> k) as Hne.
    { intros ->. rewrite (sorted_head _ _ _ Hsn) in Hreg by (cbn; lia). by destruct Hreg. }
    rewrite Hsame in Hreg by done. specialize (Hdom reg Hreg). by rewrite Hfo, decide_False in Hdom. }
  split; [done|]. intros calls. apply transits_cons with (new' := new); auto.
  - case_decide; [constructor|]. apply call_at_one; [by right|done].
  - case_decide; repeat constructor.
  - intros view. unfold after_transition. rewrite Hfn, Hfo, !(decide_True (P := k = k)) by done.
    case_decide as Hx; cbn [apply_calls fold_left call_reg call_rule].
    + by rewrite decide_True by congruence.
    + by rewrite lookup_insert_eq, decide_False by congruence.
Qed.

Lemma transition_registers_spec address old : forall new h,
  rule_ready h -> sorted old -> sorted new -> regs_ok old -> regs_ok new ->
  (forall reg, is_Some (find_value new reg) -> is_Some (find_value old reg)) ->
  exists calls, transition_registers h address old new = Ok (true, deliver calls h) /\
    transits address old new calls.
Proof.
  induction old as [|[k x] old IH]; intros new h Hh Hso Hsn Hko Hkn Hdom.
  { destruct new as [|[k x] new].
    - exists []. split; [done|]. split; [constructor|]. split; [by intros c ?%elem_of_nil|]. done.
    - destruct (Hdom k) as [? [=]]. rewrite (find_value_cons (k, x) new k) by done.
      rewrite decide_True by done. by eexists. }
  pose proof Hso as [_ Hso']%sorted_cons. apply Forall_cons in Hko as [[Hk Hx] Hko]. cbn [fst snd] in *.
  assert (Hregk : reg_ok k) by by right.
  assert (Hsame : find_value new k = None ->
    exists calls, (let? (ok, h) := Handler_SameValueRule h address k in
        if negb ok then Ok (false, h) else transition_registers h address old new) = Ok (true, deliver calls h) /\
      transits address ((k, x) :: old) new calls).
  { intros Hnk. rewrite (handle_takes h address k SameValueRule Hh Hregk same_value_ok : Handler_SameValueRule _ _ _ = _).
    cbn [obind negb].
    destruct (IH new (take_rule h address k SameValueRule)) as (calls & -> & Hc); auto.
    - apply take_takes; auto using same_value_ok.
    - by eapply (proj1 (transits_same_value address k x old new [] Hso Hsn Hk Hnk Hdom)).
    - eexists (mkRuleCall address k SameValueRule :: calls). split; [done|].
      by apply (transits_same_value address k x old new calls Hso Hsn Hk Hnk Hdom). }
  destruct new as [|[k2 x2] new]; [by apply Hsame|].
  pose proof Hsn as [_ Hsn']%sorted_cons. pose proof Hkn as [[Hk2 Hx2] Hkn']%Forall_cons.
  cbn [fst snd] in *. cbn [transition_registers].
  destruct (Z.ltb_spec k k2) as [Hlt|Hge].
  { apply Hsame. rewrite (find_value_cons (k2, x2) new k) by done. rewrite decide_False by (cbn; lia).
    apply (sorted_head _ _ _ Hsn). cbn. lia. }
  destruct (Z.ltb_spec k2 k) as [Hlt|Hge2].
  { exfalso. destruct (Hdom k2) as [v Hv].
    - rewrite (find_value_cons (k2, x2) new k2) by done. rewrite decide_True by done. by eexists.
    - rewrite (find_value_cons (k, x) old k2) in Hv by done. rewrite decide_False in Hv by (cbn; lia).
      by rewrite (sorted_head _ _ _ Hso) in Hv by (cbn; lia). }
  assert (k2 = k) as -> by lia.
  destruct (transits_new_rule address k x x2 old new Hso Hsn Hk Hx2 Hdom) as [Hdom' Hnext].
  destruct (bool_decide_reflect (x = x2)) as [Heq|Hne].
  - destruct (IH new h) as (calls & -> & Hc); auto. apply Hnext in Hc. rewrite decide_True in Hc by done. eauto.
  - rewrite (handle_takes h address k x2 Hh Hregk Hx2). cbn [obind negb].
    destruct (IH new (take_rule h address k x2)) as (calls & -> & Hc); auto; [by apply take_takes|].
    apply Hnext in Hc. rewrite decide_False in Hc by done. eexists. split; [|exact Hc]. done.
Qed.
Lemma regs_ok_cfa (m : list (Z * Rule)) : sorted m -> regs_ok m -> find_value m kCFARegister = None.
Proof.
  intros Hs Hk. apply find_value_None; [done|]. intros v Hin. unfold regs_ok in Hk.
  rewrite Forall_forall in Hk. apply Hk in Hin as [Hr _]. unfold register_ok, kCFARegister in Hr. cbn in Hr. lia.
Qed.

(** The calls of a transition show the new row. *)
Lemma transits_shows address m1 m2 r1 r2 calls view :
  represents m1 r1 -> represents m2 r2 -> transits address (registers_ m1) (registers_ m2) calls ->
  view !! kCFARegister = row_cfa r2 ->
  (forall reg, reg <> kCFARegister ->
    default SameValueRule (view !! reg) = default SameValueRule (row_rules r1 !! reg)) ->
  shows (apply_calls calls view) r2.
Proof.
  intros (_ & Hs1 & Hf1 & _ & Hk1) (_ & Hs2 & Hf2 & _ & Hk2) (_ & _ & Hview) Hcfa Hregs. split.
  - rewrite Hview. unfold after_transition. rewrite !regs_ok_cfa by done.
    by rewrite decide_False by (by intros [? [=]]).
  - intros reg Hne. rewrite Hview. unfold after_transition. rewrite Hf1, Hf2.
    destruct (row_rules r2 !! reg) as [rule|] eqn:E2; cbn [default].
    + case_decide as E1; [|done]. by rewrite Hregs, E1.
    + case_decide as E1; [done|]. rewrite Hregs by done. by destruct (row_rules r1 !! reg); [destruct E1|].
Qed.

Lemma HandleTransitionTo_spec m1 m2 r1 r2 h address :
  rule_ready h -> represents m1 r1 -> represents m2 r2 -> covers r1 r2 ->
  (is_Some (row_cfa r1) -> row_cfa r2 <> None) ->
  exists calls, HandleTransitionTo m1 h address m2 = Ok (true, deliver calls h) /\ calls_at address calls /\
    forall view, shows view r1 -> shows (apply_calls calls view) r2.
Proof.
  intros Hh Hm1 Hm2 [Hc Hd] Hnc.
  pose proof Hm1 as (Hc1 & Hs1 & Hf1 & _ & Hk1). pose proof Hm2 as (Hc2 & Hs2 & Hf2 & Ho2 & Hk2).
  assert (Hregs : forall h, rule_ready h ->
    exists calls, transition_registers h address (registers_ m1) (registers_ m2) = Ok (true, deliver calls h) /\
      transits address (registers_ m1) (registers_ m2) calls).
  { intros h' Hh'. apply transition_registers_spec; auto. intros reg. rewrite Hf1, Hf2. apply Hd. }
  unfold HandleTransitionTo. rewrite Hc1, Hc2.
  assert (Hplain : row_cfa r1 = row_cfa r2 ->
    exists calls, transition_registers h address (registers_ m1) (registers_ m2) = Ok (true, deliver calls h) /\
      calls_at address calls /\ forall view, shows view r1 -> shows (apply_calls calls view) r2).
  { intros E. destruct (Hregs h Hh) as (calls & Et & Ht). exists calls. split; [done|].
    split; [apply Ht|]. intros view [Hv1 Hv2]. apply (transits_shows address m1 m2 r1); auto. congruence. }
  destruct (row_cfa r1) as [rule1|] eqn:E1, (row_cfa r2) as [rule2|] eqn:E2.
  - destruct (bool_decide_reflect (rule1 = rule2)) as [->|Hne]; [by apply Hplain|].
    assert (rule_ok H rule2) as Hrule by by apply Ho2.
    rewrite handle_takes by (done || by left). cbn [obind negb].
    destruct (Hregs (take_rule h address kCFARegister rule2)) as (calls & -> & Ht); [apply take_takes; auto; by left|].
    exists (mkRuleCall address kCFARegister rule2 :: calls). split; [done|].
    split; [constructor; [split; [done|split; [by left|done]]|apply Ht]|].
    intros view [Hv1 Hv2]. change (shows (apply_calls calls (<[kCFARegister := rule2]> view)) r2).
    apply (transits_shows address m1 m2 r1); auto.
    + by rewrite lookup_insert_eq.
    + intros reg Hreg. rewrite lookup_insert_ne by done. auto.
  - by destruct Hnc.
  - destruct Hc as [? [=]]. by eexists.
  - by apply Hplain.
Qed.
End transitions.
#[global] Arguments represents H {_ _} m r.
#[global] Arguments calls_at H {_ _} address calls.

(** ** Running the interpreter *)

(** Steps through the operations of the monad. *)
Ltac run :=
  unfold require, reader, operand, entry_limit, set_address, set_cursor, set_rules, set_cie_rules,
    set_saved_rules, in_parser, call, mbind, M_bind, mret, M_ret, gets, modify, lift, fail;
  cbn [obind of_option parser_ address_ cursor_ rules_ cie_rules_ saved_rules_ reader_ handler_ reports_
    register_number operand_offset signed_offset operand_expression
    with_register with_offset with_signed_offset with_expression no_operands].

Section run.
Context (mem : byte_list) {H : Type} `{!Handler H} `{!RuleHandler H}.
Context (cie : CIE) (entry_ : Entry) (limit : Z).
Hypothesis Hlimit : entry_end entry_ = Some limit.
Hypothesis Hlimit64 : uint 64 limit.
Context (r : ByteReader).

Implicit Types (h : H) (reps : list Report) (m cm : RuleMap) (sv : list RuleMap) (a c : Z).

(** A state of the interpreter with the reader [r]. *)
#[local] Abbreviation at_ h reps a c m cm sv := (mkState (mkParser r h reps) a c m cm sv).

(** An operand of the bytes [bs] at [c] sets what [f] sets. *)
Definition reads_operand (format : Format) (c : Z) (bs : byte_list) (f : Operands -> Operands) : Prop :=
  forall ops h reps a m cm sv,
    0 <= c -> c + Z.of_nat (length bs) <= limit -> holds mem c bs ->
    ParseOperand mem cie entry_ format ops (at_ h reps a c m cm sv) =
      Ok (Some (f ops), at_ h reps a (c + Z.of_nat (length bs)) m cm sv).

Lemma bytes_left c n : 0 <= c -> 0 <= n -> c + n <= limit -> (wrap 64 (limit - c) <? n) = false.
Proof.
  intros Hc Hn Hl. apply Z.ltb_ge. rewrite wrap_small; unfold uint in *; lia.
Qed.

Lemma variable_operand_runs {A} (read : ByteReader -> Z -> outcome (A * Z)) (v : A) len h reps a c m cm sv :
  read r c = Ok (v, len) -> 0 <= c -> 0 <= len -> c + len <= limit ->
  variable_operand entry_ read (wrap 64 (limit - c)) (at_ h reps a c m cm sv) =
    Ok (Some v, at_ h reps a (c + len) m cm sv).
Proof.
  intros Hr Hc Hl Hle. unfold variable_operand. run.
  rewrite Hr. run.
  by rewrite bytes_left.
Qed.

Lemma reads_r bs n c : uleb bs n -> register_ok n -> reads_operand Format_r c bs (fun ops => with_register ops n).
Proof.
  intros Hb Hn ops h reps a m cm sv Hc Hl Hh. unfold ParseOperand. run.
  rewrite Hlimit. run.
  rewrite (variable_operand_runs _ n (Z.of_nat (length bs))) by (by apply uleb_read || lia). run. unfold register_ok in Hn. by rewrite wrap_small by (unfold uint; lia).
Qed.

Lemma reads_o bs n c : uleb bs n -> reads_operand Format_o c bs (fun ops => with_offset ops n).
Proof.
  intros Hb ops h reps a m cm sv Hc Hl Hh. unfold ParseOperand. run.
  rewrite Hlimit. run.
  by rewrite (variable_operand_runs _ n (Z.of_nat (length bs))) by (by apply uleb_read || lia).
Qed.

Lemma reads_s bs n c : sleb bs n -> reads_operand Format_s c bs (fun ops => with_signed_offset ops n).
Proof.
  intros Hb ops h reps a m cm sv Hc Hl Hh. unfold ParseOperand. run.
  rewrite Hlimit. run.
  by rewrite (variable_operand_runs _ n (Z.of_nat (length bs))) by (by apply sleb_read || lia).
Qed.

Lemma reads_fixed format n d c :
  In (format, n) [(Format_1, 1%nat); (Format_2, 2%nat); (Format_4, 4%nat); (Format_8, 8%nat)] ->
  uint (8 * Z.of_nat n) d ->
  reads_operand format c (bytes_of (endian_ r) n d) (fun ops => with_offset ops d).
Proof.
  intros Hin Hd ops h reps a m cm sv Hc Hl Hh. destruct (bytes_of_ok (endian_ r) n d) as [Hok Hlen].
  assert (Hint : int_of (endian_ r) (bytes_of (endian_ r) n d) = d).
  { rewrite int_of_bytes_of. by apply wrap_small. }
  unfold ParseOperand, fixed_operand. run. rewrite Hlimit. run.
  rewrite Hlen in *. destruct Hin as [[= <- <-]|[[= <- <-]|[[= <- <-]|[[= <- <-]|[]]]]];
    rewrite bytes_left by lia; run.
  - assert (bytes_of (endian_ r) 1 d = [d]) as E.
    { destruct (endian_ r); cbn; by rewrite wrap_small. }
    rewrite E in Hh. unfold ReadOneByte. rewrite (byte_0 _ _ _ _ Hh). run. done.
  - rewrite (ReadTwoBytes_spec mem r c _ Hh Hok Hlen), Hint. run. done.
  - rewrite (ReadFourBytes_spec mem r c _ Hh Hok Hlen), Hint. run. done.
  - rewrite (ReadEightBytes_spec mem r c _ Hh Hok Hlen), Hint. run. done.
Qed.

Lemma reads_a size bs v c :
  has_address_size r size -> pointer_encoding cie <> DW_EH_PE_omit -> pointer_encoding cie <> DW_EH_PE_aligned ->
  UsableEncoding r (pointer_encoding cie) = true ->
  field (endian_ r) size (Z.land (pointer_encoding cie) 0x0f) bs v ->
  reads_operand Format_a c bs
    (fun ops => with_offset ops (wrap (8 * size) (base_address r c (pointer_encoding cie) + v))).
Proof.
  intros Hs Ho Ha Hu Hf ops h reps a m cm sv Hc Hl Hh. unfold ParseOperand. run. rewrite Hlimit. run.
  by rewrite (variable_operand_runs _ _ _ h reps a c m cm sv
    (ReadEncodedPointer_field mem r size c _ bs v Hs Ho Ha Hu Hf Hh)) by lia.
Qed.

Lemma string_at_holds c bs : holds mem c bs -> string_at mem c (Z.of_nat (length bs)) = Ok bs.
Proof.
  intros Hh. pose proof Hh as (Hp & Hl & _). unfold string_at.
  rewrite (proj2 (Z.ltb_ge _ _)) by lia. unfold read_bytes. rewrite decide_True by lia.
  f_equal. rewrite Nat2Z.id. by apply holds_take.
Qed.

Lemma reads_e bs e c :
  uleb bs (Z.of_nat (length e)) -> reads_operand Format_e c (bs ++ e) (fun ops => with_expression ops e).
Proof.
  intros Hb ops h reps a m cm sv Hc Hl [Hh1 Hh2]%holds_app. rewrite length_app in *.
  unfold ParseOperand, block_operand. run. rewrite Hlimit. run.
  rewrite (uleb_read mem bs _ c r Hb Hh1). run. rewrite bytes_left by lia.
  rewrite (proj2 (Z.ltb_ge _ _)) by (rewrite wrap_small; unfold uint in *; lia).
  cbn [orb]. run. rewrite (string_at_holds _ e Hh2). run. do 3 f_equal. lia.
Qed.

(** Operands one after the other. *)
Definition reads_operands (formats : list Format) (c : Z) (bs : byte_list) (f : Operands -> Operands) : Prop :=
  forall ops h reps a m cm sv,
    0 <= c -> c + Z.of_nat (length bs) <= limit -> holds mem c bs ->
    ParseOperands mem cie entry_ formats ops (at_ h reps a c m cm sv) =
      Ok (Some (f ops), at_ h reps a (c + Z.of_nat (length bs)) m cm sv).

Lemma reads_one format c bs f : reads_operand format c bs f -> reads_operands [format] c bs f.
Proof. intros Hr ops h reps a m cm sv Hc Hl Hh. cbn [ParseOperands]. run. by rewrite Hr. Qed.

Lemma reads_two format1 format2 c bs1 bs2 f1 f2 :
  reads_operand format1 c bs1 f1 -> reads_operand format2 (c + Z.of_nat (length bs1)) bs2 f2 ->
  reads_operands [format1; format2] c (bs1 ++ bs2) (fun ops => f2 (f1 ops)).
Proof.
  intros H1 H2 ops h reps a m cm sv Hc Hl [Hh1 Hh2]%holds_app. rewrite length_app in *.
  cbn [ParseOperands]. run. rewrite H1 by (done || lia). run. rewrite H2 by (done || lia). run.
  do 3 f_equal. lia.
Qed.

(** ** Instructions *)

Context (initial : option Row).
Hypothesis Hkind : entry_kind entry_ = match initial with None => kCIE | Some _ => kFDE end.

(** The state has the table. *)
Definition has_table (t : Table) m cm sv : Prop :=
  represents H m (row t) /\ Forall2 (represents H) sv (remembered t) /\ chained (row t) (remembered t) /\
  forall init, initial = Some init -> represents H cm init.

(** The calls of a step from a row to the next. *)
Definition announces (calls : list RuleCall) (t t' : Table) : Prop :=
  calls_at H (loc t') calls /\ forall view, shows view (row t) -> shows (apply_calls calls view) (row t').

(** The operation turns the table [t] into [t'] and tells the handler so. *)
Definition performs (op : M (State H) unit) (t t' : Table) (c c' : Z) : Prop :=
  forall h reps m cm sv, rule_ready h -> has_table t m cm sv ->
    exists calls m' sv',
      op (at_ h reps (loc t) c m cm sv) = Ok (Some tt, at_ (deliver calls h) reps (loc t') c' m' cm sv') /\
      has_table t' m' cm sv' /\ announces calls t t'.

Lemma announces_nil t t' : row t = row t' -> announces [] t t'.
Proof. intros E. split; [constructor|]. intros view. by rewrite E. Qed.

Lemma performs_ret t c : performs (mret tt) t t c c.
Proof.
  intros h reps m cm sv Hh Ht. exists [], m, sv. split; [done|]. split; [done|]. by apply announces_nil.
Qed.

(** Steps that change the address of neither. *)
Lemma performs_seq op1 op2 t1 t2 t3 c1 c2 c3 :
  performs op1 t1 t2 c1 c2 -> performs op2 t2 t3 c2 c3 -> loc t2 = loc t3 ->
  performs (op1 ;; op2) t1 t3 c1 c3.
Proof.
  intros H1 H2 Hloc h reps m cm sv Hh Ht.
  destruct (H1 h reps m cm sv Hh Ht) as (calls1 & m1 & sv1 & E1 & Ht1 & Ha1 & Hv1).
  assert (rule_ready (deliver calls1 h)) as Hh1.
  { apply deliver_ready; [done|]. eapply Forall_impl; [exact Ha1|]. by intros ? []. }
  destruct (H2 (deliver calls1 h) reps m1 cm sv1 Hh1 Ht1) as (calls2 & m2 & sv2 & E2 & Ht2 & Ha2 & Hv2).
  exists (calls1 ++ calls2), m2, sv2. split; [|split; [done|split]].
  - run. rewrite E1. cbn [obind]. by rewrite E2, deliver_app.
  - rewrite <- Hloc in Ha2 |- *. by apply Forall_app.
  - intros view Hview. rewrite apply_calls_app. by apply Hv2, Hv1.
Qed.

(** One call about a register that the row has. *)
Lemma announces_one t t' reg rule :
  loc t = loc t' -> reg_ok reg -> rule_ok H rule ->
  (forall view, shows view (row t) -> shows (<[reg := rule]> view) (row t')) ->
  announces [mkRuleCall (loc t) reg rule] t t'.
Proof. intros -> Hr Ho Hs. split; [by apply call_at_one|]. done. Qed.

(** The rule for the CFA is set and announced. *)
Lemma performs_cfa (op : M (State H) unit) rule t c :
  (forall m, represents H m (row t) -> rule_ok H rule) ->
  (forall h reps m cm sv, represents H m (row t) ->
     op (at_ h reps (loc t) c m cm sv) = handle rule kCFARegister (at_ h reps (loc t) c (SetCFARule m rule) cm sv)) ->
  performs op t (set_cfa t rule) c c.
Proof.
  intros Hok Hop h reps m cm sv Hh (Hm & Hsv & Hch & Hcm). pose proof (Hok m Hm) as Ho.
  exists [mkRuleCall (loc t) kCFARegister rule], (SetCFARule m rule), sv. rewrite Hop by done.
  split; [|split].
  - unfold handle. run. rewrite handle_takes by (done || by left). run. done.
  - split; [by apply set_cfa_represents|]. split; [done|]. split; [|done].
    eapply covers_chained; [apply covers_set_cfa|done].
  - apply announces_one; [done|by left|done|]. intros view. apply shows_set_cfa.
Qed.

Lemma performs_DoRule reg rule t c :
  register_ok reg -> rule_ok H rule -> performs (DoRule reg rule) t (set_rule t reg rule) c c.
Proof.
  intros Hr Ho h reps m cm sv Hh (Hm & Hsv & Hch & Hcm).
  assert (reg_ok reg) as Hreg by by right.
  destruct (set_rule_represents m (row t) reg rule Hm Hr Ho) as (m' & Em & Hm').
  exists [mkRuleCall (loc t) reg rule], m', sv. split; [|split].
  - unfold DoRule, handle. run. rewrite (swrap_small 32 reg) by (unfold register_ok in Hr; lia).
    rewrite Em. run. rewrite handle_takes by done. run. done.
  - split; [done|]. split; [done|]. split; [|done]. eapply covers_chained; [apply covers_set_rule|done].
  - apply announces_one; [done|done|done|]. intros view. apply shows_set_rule.
    unfold register_ok, kCFARegister in *. lia.
Qed.

Lemma performs_restore reg init t c :
  initial = Some init -> register_ok reg ->
  performs (DoRestore entry_ reg) t (set_rule t reg (default SameValueRule (row_rules init !! reg))) c c.
Proof.
  intros Hinit Hreg h reps m cm sv Hh Ht. pose proof Ht as (_ & _ & _ & Hcm).
  destruct (Hcm init Hinit) as (_ & Hs & Hf & _ & Hk).
  assert (rule_ok H (default SameValueRule (row_rules init !! reg))) as Ho.
  { rewrite <- Hf. destruct (find_value (registers_ cm) reg) as [rule|] eqn:E; [|apply same_value_ok].
    apply find_value_Some in E; [|done]. unfold regs_ok in Hk. rewrite Forall_forall in Hk.
    by apply Hk in E as [_ Ho]. }
  unfold DoRestore. rewrite Hkind, Hinit. rewrite bool_decide_eq_false_2 by done. run.
  rewrite (swrap_small 32 reg) by (unfold register_ok in Hreg; lia). unfold RuleMap_RegisterRule.
  rewrite (proj2 (Z.eqb_neq _ _)) by (unfold register_ok, kCFARegister in *; lia). run. rewrite Hf.
  by apply performs_DoRule.
Qed.

Lemma performs_remember t c :
  performs DoRememberState t (mkTable (loc t) (row t) (row t :: remembered t)) c c.
Proof.
  intros h reps m cm sv Hh (Hm & Hsv & Hch & Hcm). exists [], m, (m :: sv).
  split; [by unfold DoRememberState; run|]. split; [|by apply announces_nil].
  split; [done|]. split; [by constructor|]. split; [|done]. by split; [split|].
Qed.

Lemma performs_restore_state t r0 rows c :
  remembered t = r0 :: rows -> bool_decide (is_Some (row_cfa (row t))) && bool_decide (row_cfa r0 = None) = false ->
  performs (DoRestoreState entry_) t (mkTable (loc t) r0 rows) c c.
Proof.
  intros Hrows Hcfa h reps m cm sv Hh (Hm & Hsv & Hch & Hcm). rewrite Hrows in Hsv, Hch.
  apply Forall2_cons_inv_r in Hsv as (m0 & sv' & Hm0 & Hsv & ->). destruct Hch as [Hcov Hch].
  assert (Hnc : is_Some (row_cfa (row t)) -> row_cfa r0 <> None).
  { intros Hs Hn. rewrite !bool_decide_eq_true_2 in Hcfa by done. done. }
  destruct (HandleTransitionTo_spec m m0 (row t) r0 h (loc t) Hh Hm Hm0 Hcov Hnc) as (calls & Et & Hcalls & Hshow).
  exists calls, m0, sv'. split; [|split; [|by split]].
  - unfold DoRestoreState. run. unfold CFARule.
    destruct Hm as (Hc1 & _), Hm0 as (Hc0 & _). rewrite Hc1, Hc0, Hcfa. run. rewrite Et. run. done.
  - by split; [done|].
Qed.

(** The operation with the bytes [bs] of its operands at [c]. *)
Definition parses (op : M (State H) unit) (c : Z) (bs : byte_list) (t t' : Table) : Prop :=
  0 <= c -> c + Z.of_nat (length bs) <= limit -> holds mem c bs ->
  performs op t t' c (c + Z.of_nat (length bs)).

Lemma parses_operands formats c bs f k t t' :
  reads_operands formats c bs f ->
  performs (k (f no_operands)) t t' (c + Z.of_nat (length bs)) (c + Z.of_nat (length bs)) ->
  parses (ops ← ParseOperands mem cie entry_ formats no_operands; k ops) c bs t t'.
Proof.
  intros Hr Hk Hc Hl Hh h reps m cm sv Hready Ht.
  destruct (Hk h reps m cm sv Hready Ht) as (calls & m' & sv' & E & Hrest). exists calls, m', sv'.
  split; [|done]. run. rewrite Hr by done. run. apply E.
Qed.

Lemma parses_DoRegister format rule c bs1 reg bs2 f t t' :
  uleb bs1 reg -> register_ok reg -> reads_operand format (c + Z.of_nat (length bs1)) bs2 f ->
  (forall ops, register_number (f ops) = register_number ops) ->
  (forall c, performs (rule reg (f (with_register no_operands reg))) t t' c c) ->
  parses (DoRegister mem cie entry_ format rule) c (bs1 ++ bs2) t t'.
Proof.
  intros Hb Hreg Hr Hf Hrule.
  apply (parses_operands _ _ (bs1 ++ bs2) (fun ops => f (with_register ops reg))).
  { apply reads_two; [by apply reads_r|done]. }
  cbn beta. rewrite Hf. apply Hrule.
Qed.

(** An operation without operands. *)
Lemma parses_nothing op c t t' : performs op t t' c c -> parses op c [] t t'.
Proof. intros Hop _ _ _. by rewrite Z.add_0_r. Qed.

Lemma parses_opcode op bs c t t' :
  parses (if negb (Z.land op 0xc0 =? 0) then DoPrimary mem cie entry_ op else DoExtended mem cie entry_ op)
    (c + 1) bs t t' ->
  parses (DoInstruction mem cie entry_) c (op :: bs) t t'.
Proof.
  intros Hop Hc Hl Hh h reps m cm sv Hready Ht. pose proof (holds_tail _ _ _ _ Hh) as Hh'.
  assert (c + Z.of_nat (length (op :: bs)) = c + 1 + Z.of_nat (length bs)) as Hlen by (cbn [length]; lia).
  rewrite Hlen in *.
  destruct (Hop ltac:(lia) Hl Hh' h reps m cm sv Hready Ht) as (calls & m' & sv' & E & Hrest).
  exists calls, m', sv'.
  split; [|done]. unfold DoInstruction. rewrite Hkind, bool_decide_eq_false_2 by (by destruct initial).
  run. rewrite Hlimit. run. rewrite (proj2 (Z.ltb_lt _ _)) by lia. cbn [negb]. run.
  rewrite (byte_0 _ _ _ _ Hh). run. apply E.
Qed.

(** The two high bits and the six low bits. *)
Lemma primary_bits base low :
  In base [DW_CFA_advance_loc; DW_CFA_offset; DW_CFA_restore] -> uint 6 low ->
  Z.land (base + low) 0xc0 = base /\ Z.land (base + low) 0x3f = low.
Proof.
  intros Hb Hl.
  pose proof (byte_check (fun low => implb (low <? 64)
    (forallb (fun base => (Z.land (base + low) 0xc0 =? base) && (Z.land (base + low) 0x3f =? low))
      [DW_CFA_advance_loc; DW_CFA_offset; DW_CFA_restore])) low
    ltac:(vm_compute; reflexivity) ltac:(unfold uint in *; lia)) as Hc.
  cbv beta in Hc. unfold uint in Hl. rewrite (proj2 (Z.ltb_lt low 64)) in Hc by lia. cbn [implb] in Hc.
  rewrite forallb_forall in Hc. apply Hc in Hb. apply andb_true_iff in Hb as [H1 H2].
  by apply Z.eqb_eq in H1, H2.
Qed.

Lemma factored_ok n : long_ok (n * data_alignment_factor cie) -> factored cie n = n * data_alignment_factor cie.
Proof.
  intros Ho. unfold factored. rewrite wrap_mul_r, swrap_wrap. apply swrap_small; [lia|]. exact Ho.
Qed.

Lemma factored_negative n :
  long_ok (- n * data_alignment_factor cie) -> factored cie (wrap 64 (- n)) = - n * data_alignment_factor cie.
Proof.
  intros Ho. rewrite <- (factored_ok (- n)) by done. unfold factored. by rewrite wrap_mul_l.
Qed.

Lemma signed_factored_ok n :
  long_ok (n * data_alignment_factor cie) -> signed_factored cie n = Ok (n * data_alignment_factor cie).
Proof.
  intros Ho. unfold signed_factored. rewrite bool_decide_eq_true_2; [done|]. apply swrap_small; [lia|]. exact Ho.
Qed.

Lemma advance_performs d t c :
  performs (advance cie d) t (set_loc t (wrap 64 (loc t + d * code_alignment_factor cie))) c c.
Proof.
  intros h reps m cm sv Hready Ht. exists [], m, sv. split; [|split; [done|by apply announces_nil]].
  unfold advance. run. by rewrite wrap_add_r.
Qed.

Lemma performs_set_address a t c : performs (set_address a) t (set_loc t a) c c.
Proof.
  intros h reps m cm sv Hready Ht. exists [], m, sv. split; [done|]. split; [done|]. by apply announces_nil.
Qed.

Lemma performs_DefCFA reg offset t c :
  register_ok reg -> long_ok offset -> performs (DoDefCFA reg offset) t (set_cfa t (ValOffsetRule reg offset)) c c.
Proof.
  intros Hr Ho. apply performs_cfa; [intros _ _; apply val_offset_ok; [by right|done]|]. intros h reps m cm sv _. unfold DoDefCFA. run.
  by rewrite swrap_small by (unfold register_ok in Hr; lia).
Qed.

Lemma performs_DefCFAOffset reg old offset t c :
  row_cfa (row t) = Some (ValOffsetRule reg old) -> long_ok offset ->
  performs (DoDefCFAOffset entry_ offset) t (set_cfa t (ValOffsetRule reg offset)) c c.
Proof.
  intros Hcfa Ho. apply performs_cfa.
  - intros m (_ & _ & _ & Hok & _). apply val_offset_ok; [by apply (Hok _ Hcfa)|done].
  - intros h reps m cm sv (Hc & _). unfold DoDefCFAOffset, CFARule. run. rewrite Hc, Hcfa. by run.
Qed.

(** The rules that need the CFA. *)
Lemma cfa_set m t : represents H m (row t) -> row_cfa (row t) <> None -> exists rule, CFARule m = Some rule.
Proof. intros (Hc & _) Hcfa. unfold CFARule. rewrite Hc. destruct (row_cfa (row t)); [by eexists|done]. Qed.

Lemma performs_DoOffset reg offset t c :
  row_cfa (row t) <> None -> register_ok reg -> long_ok offset -> takes H (OffsetRule kCFARegister offset) ->
  performs (DoOffset entry_ reg offset) t (set_rule t reg (OffsetRule kCFARegister offset)) c c.
Proof.
  intros Hcfa Hr Ho Htk h reps m cm sv Hready Ht. destruct (cfa_set m t (proj1 Ht) Hcfa) as [rule Hrule].
  unfold DoOffset. run. rewrite Hrule. apply performs_DoRule; auto. split; [|done]. split; [by left|done].
Qed.

Lemma performs_DoValOffset reg offset t c :
  row_cfa (row t) <> None -> register_ok reg -> long_ok offset ->
  performs (DoValOffset entry_ reg offset) t (set_rule t reg (ValOffsetRule kCFARegister offset)) c c.
Proof.
  intros Hcfa Hr Ho h reps m cm sv Hready Ht. destruct (cfa_set m t (proj1 Ht) Hcfa) as [rule Hrule].
  unfold DoValOffset. run. rewrite Hrule. apply performs_DoRule; auto. apply val_offset_ok; [by left|done].
Qed.

(** An instruction without an operand in the opcode. *)
Lemma parses_extended op bs c t t' :
  Z.land op 0xc0 = 0 -> parses (DoExtended mem cie entry_ op) (c + 1) bs t t' ->
  parses (DoInstruction mem cie entry_) c (op :: bs) t t'.
Proof. intros E Hp. apply parses_opcode. by rewrite E. Qed.

Lemma parses_primary base low bs c t t' :
  In base [DW_CFA_advance_loc; DW_CFA_offset; DW_CFA_restore] -> uint 6 low ->
  parses (if base =? DW_CFA_advance_loc then advance cie low
          else if base =? DW_CFA_offset then
            ops ← ParseOperands mem cie entry_ [Format_o] no_operands;
            offset ← operand (operand_offset ops);
            DoOffset entry_ low (factored cie offset)
          else DoRestore entry_ low) (c + 1) bs t t' ->
  parses (DoInstruction mem cie entry_) c (base + low :: bs) t t'.
Proof.
  intros Hb Hl Hp. apply parses_opcode. destruct (primary_bits base low Hb Hl) as [E1 E2].
  unfold DoPrimary. rewrite E1, E2. by destruct Hb as [<-|[<-|[<-|[]]]].
Qed.

(** The instructions that move the location. *)
Lemma advance_instructions c bs prog t t' :
  encoded cie r c bs prog ->
  match prog with [cfi_advance_loc _] | [cfi_set_loc _] => True | _ => False end ->
  exec_all initial prog t = Some t' -> parses (DoInstruction mem cie entry_) c bs t t'.
Proof.
  intros [] Hi; try done; intros [= <-].
  - apply parses_primary; [by left|done|]. apply parses_nothing, advance_performs.
  - rename select (In _ _) into Hin. rename select (uint _ d) into Hd.
    assert (forall format, In (format, n) [(Format_1, 1%nat); (Format_2, 2%nat); (Format_4, 4%nat); (Format_8, 8%nat)] ->
      parses (DoAdvance mem cie entry_ format) (c + 1) (bytes_of (endian_ r) n d) t
        (set_loc t (wrap 64 (loc t + d * code_alignment_factor cie)))) as Hadv.
    { intros format Hf. eapply parses_operands; [by apply reads_one, reads_fixed|]. run. apply advance_performs. }
    destruct Hin as [[= <- <-]|[[= <- <-]|[[= <- <-]|[[= <- <-]|[]]]]]; (apply parses_extended; [done|]);
      apply (Hadv Format_1) || apply (Hadv Format_2) || apply (Hadv Format_4) || apply (Hadv Format_8); cbn; auto.
  - apply parses_extended; [done|]. eapply parses_operands; [by apply reads_one, (reads_a size)|].
    run. apply performs_set_address.
Qed.

(** What the instruction needs of the table, and what it leaves. *)
Lemma exec_one i t t' : exec_all initial [i] t = Some t' -> exec initial i t = Some t'.
Proof. cbn [exec_all]. by destruct (exec initial i t). Qed.

Lemma long_swrap n : long_ok n -> swrap 64 n = n.
Proof. intros Hn. apply swrap_small; [lia|]. exact Hn. Qed.

Lemma register_swrap n : register_ok n -> swrap 32 n = n.
Proof. intros [? ?]. apply swrap_small; lia. Qed.

Lemma parses_DoDefCFARegister c bs reg old offset t :
  uleb bs reg -> register_ok reg -> row_cfa (row t) = Some (ValOffsetRule old offset) ->
  parses (DoDefCFARegister mem cie entry_) c bs t (set_cfa t (ValOffsetRule reg offset)).
Proof.
  intros Hb Hr Hcfa. eapply parses_operands; [by apply reads_one, reads_r|]. run.
  apply performs_cfa.
  - intros m (_ & _ & _ & Hok & _). apply val_offset_ok; [by right|by apply (Hok _ Hcfa)].
  - intros h reps m cm sv (Hc & _). unfold CFARule. run. rewrite Hc, Hcfa. run. cbn [SetBaseRegister].
    by rewrite register_swrap.
Qed.

Lemma parses_DoDefCFAExpression c bs e t :
  uleb bs (Z.of_nat (length e)) -> takes H (ValExpressionRule e) ->
  parses (DoDefCFAExpression mem cie entry_) c (bs ++ e) t (set_cfa t (ValExpressionRule e)).
Proof.
  intros Hb Htk. eapply parses_operands; [by apply reads_one, reads_e|]. run. by apply performs_cfa.
Qed.

(** The handler takes the rule of the instruction. *)
Definition taken (i : cfi) : Prop :=
  match i with
  | cfi_rule _ rule => takes H rule
  | cfi_def_cfa_expression e => takes H (ValExpressionRule e)
  | _ => True
  end.

(** The instructions that define the CFA. *)
Lemma cfa_instructions c bs i t t' :
  encoded cie r c bs [i] -> taken i ->
  match i with
  | cfi_def_cfa _ _ | cfi_def_cfa_register _ | cfi_def_cfa_offset _ | cfi_def_cfa_expression _ => True
  | _ => False
  end ->
  exec initial i t = Some t' -> parses (DoInstruction mem cie entry_) c bs t t'.
Proof.
  intros He Htk. inversion He; subst; try done; intros _; cbn [exec taken] in *;
    (intros [= <-] || (destruct (row_cfa (row t)) as [[| | |old offset'| | |]|] eqn:Hcfa; [done..| |done|done|done|done];
      intros [= <-])); (apply parses_extended; [done|]).
  - eapply (parses_DoRegister Format_o); [done|done|by apply reads_o|done|].
    intros c'. run. rewrite long_swrap by done. by apply performs_DefCFA.
  - eapply (parses_DoRegister Format_s); [done|done|by apply reads_s|done|].
    intros c'. run. rewrite signed_factored_ok by done. run. by apply performs_DefCFA.
  - by apply (parses_DoDefCFARegister _ _ _ old).
  - eapply parses_operands; [by apply reads_one, reads_o|]. run. rewrite long_swrap by done.
    by eapply performs_DefCFAOffset.
  - eapply parses_operands; [by apply reads_one, reads_s|]. run. rewrite signed_factored_ok by done. run.
    by eapply performs_DefCFAOffset.
  - by apply parses_DoDefCFAExpression.
Qed.

Lemma low_register reg : uint 6 reg -> register_ok reg.
Proof. clear. unfold uint, register_ok. lia. Qed.

(** What a rule needs of the table. *)
Lemma exec_rule reg rule t t' :
  exec initial (cfi_rule reg rule) t = Some t' ->
  t' = set_rule t reg rule /\ (cites_cfa rule = true -> row_cfa (row t) <> None).
Proof.
  cbn [exec]. destruct (cites_cfa rule); cbn [andb]; [|by intros [= <-]].
  case_bool_decide; [done|]. by intros [= <-].
Qed.

Ltac one_rule Hx :=
  apply exec_rule in Hx as [-> Hx]; try specialize (Hx eq_refl); apply parses_extended; [done|].

(** The instructions that give a register a rule. *)
Lemma rule_instructions c bs reg rule t t' :
  encoded cie r c bs [cfi_rule reg rule] -> takes H rule -> exec initial (cfi_rule reg rule) t = Some t' ->
  parses (DoInstruction mem cie entry_) c bs t t'.
Proof.
  intros He Htk Hx. inversion He; subst.
  - apply exec_rule in Hx as [-> Hx]. specialize (Hx eq_refl). apply parses_primary; [by right; left|done|].
    eapply parses_operands; [by apply reads_one, reads_o|]. run. rewrite factored_ok by done.
    apply performs_DoOffset; [exact Hx|by apply low_register|assumption..].
  - rename select (In _ _) into Hin.
    destruct Hin as [[= <- <-]|[[= <- <-]|[[= <- <-]|[]]]]; one_rule Hx;
      (eapply (parses_DoRegister Format_o); [eassumption|eassumption|by apply reads_o|done|]); intros c'; run.
    + rewrite factored_ok by assumption. apply performs_DoOffset; assumption.
    + rewrite factored_negative by assumption. apply performs_DoOffset; assumption.
    + rewrite factored_ok by assumption. apply performs_DoValOffset; assumption.
  - rename select (In _ _) into Hin.
    destruct Hin as [[= <- <-]|[[= <- <-]|[]]]; one_rule Hx;
      (eapply (parses_DoRegister Format_s); [eassumption|eassumption|by apply reads_s|done|]); intros c'; run;
      rewrite signed_factored_ok by assumption; run.
    + apply performs_DoOffset; assumption.
    + apply performs_DoValOffset; assumption.
  - one_rule Hx. eapply (parses_DoRegister Format_o); [done|done|by apply reads_o|done|]. intros c'. run.
    rewrite register_swrap by done. apply performs_DoRule; [done|by split].
  - rename select (In _ _) into Hin.
    destruct Hin as [[= <- <-]|[[= <- <-]|[]]]; one_rule Hx;
      (eapply parses_operands; [by apply reads_one, reads_r|]); run; (apply performs_DoRule; [done|by split]).
  - rename select (In _ _) into Hin.
    destruct Hin as [[= <- <-]|[[= <- <-]|[]]]; one_rule Hx;
      (eapply (parses_DoRegister Format_e); [done|done|by apply reads_e|done|]); intros c'; run;
      (apply performs_DoRule; [done|by split]).
Qed.

Lemma exec_restore (first : option Row) reg t t' :
  exec first (cfi_restore reg) t = Some t' ->
  exists init, first = Some init /\ t' = set_rule t reg (default SameValueRule (row_rules init !! reg)).
Proof. cbn [exec]. destruct first as [init|]; [|done]. intros [= <-]. eauto. Qed.

(** The instructions that restore and remember. *)
Lemma state_instructions c bs i t t' :
  encoded cie r c bs [i] ->
  match i with cfi_restore _ | cfi_remember_state | cfi_restore_state => True | _ => False end ->
  exec initial i t = Some t' -> parses (DoInstruction mem cie entry_) c bs t t'.
Proof.
  intros He. inversion He; subst; try done; intros _.
  - intros (init & Hinit & ->)%exec_restore.
    apply parses_primary; [by right; right; left|done|]. apply parses_nothing, performs_restore; [done|].
    by apply low_register.
  - intros (init & Hinit & ->)%exec_restore. apply parses_extended; [done|].
    eapply parses_operands; [by apply reads_one, reads_r|]. run. by apply performs_restore.
  - intros [= <-]. apply parses_extended; [done|]. apply parses_nothing, performs_remember.
  - cbn [exec]. destruct (remembered t) as [|r0 rows] eqn:Hrows; [done|].
    destruct (bool_decide _ && bool_decide _) eqn:Hcfa; [done|]. intros [= <-].
    apply parses_extended; [done|]. by apply parses_nothing, performs_restore_state.
Qed.

(** A loop of rules. *)
Lemma window_rules_performs rule regs c : forall t t',
  (forall i, i ∈ regs -> register_ok i /\ rule_ok H (rule i)) ->
  exec_all initial (map (fun i => cfi_rule i (rule i)) regs) t = Some t' ->
  performs (window_rules rule regs) t t' c c /\ loc t = loc t'.
Proof.
  induction regs as [|i regs IH]; intros t t' Hok; cbn [map exec_all window_rules].
  { intros [= <-]. split; [apply performs_ret|done]. }
  destruct (exec initial (cfi_rule i (rule i)) t) as [t1|] eqn:E; [|done]. cbn. intros Hx.
  apply exec_rule in E as [-> _].
  destruct (Hok i ltac:(by left)) as [Hi Hr].
  destruct (IH _ _ (fun j Hj => Hok j ltac:(by right)) Hx) as [Hp Hloc].
  split; [|done]. eapply performs_seq; [by apply performs_DoRule|exact Hp|done].
Qed.

Lemma window_save_performs t t' c :
  uint 8 (AddressSize r) -> Forall taken (window_save (AddressSize r)) ->
  exec_all initial (window_save (AddressSize r)) t = Some t' ->
  performs DoWindowSave t t' c c.
Proof.
  intros Hs [Ht1 Ht2]%Forall_app Hx. rewrite Forall_map, Forall_forall in Ht1, Ht2.
  unfold window_save in Hx. rewrite exec_all_app in Hx.
  destruct (exec_all initial _ t) as [t1|] eqn:E1; [|done]. cbn in Hx.
  apply (window_rules_performs _ _ c) in E1 as [H1 Hl1].
  2: { intros i Hi. split; [|split; [|by apply Ht1]]; apply elem_of_seqZ in Hi; cbn; unfold register_ok; lia. }
  apply (window_rules_performs _ _ c) in Hx as [H2 Hl2].
  - unfold DoWindowSave. eapply performs_seq; [exact H1| |done].
    intros h reps m cm sv Hready Ht. run. by apply H2.
  - intros i Hi. pose proof (Ht2 i Hi) as Htk. apply elem_of_seqZ in Hi. unfold register_ok, uint in *.
    split; [lia|]. split; [|done]. split; [by left|]. unfold long_ok. nia.
Qed.

(** ** All the instructions of an entry *)

Lemma encoded_shape c bs prog :
  encoded cie r c bs prog -> bs <> [] /\ (Forall still prog \/ exists i, prog = [i]).
Proof.
  intros He. split; [by inversion He|].
  inversion He; subst; try (right; by eexists); left; repeat constructor.
Qed.

(** An instruction does to the table what it says. *)
Lemma DoInstruction_parses c bs prog t t' :
  encoded cie r c bs prog -> Forall taken prog -> exec_all initial prog t = Some t' ->
  parses (DoInstruction mem cie entry_) c bs t t'.
Proof.
  intros He Htk Hx. destruct prog as [|i [|i2 prog]].
  - injection Hx as <-. inversion He; subst; (apply parses_extended; [done|]).
    + apply parses_nothing, performs_ret.
    + eapply (parses_operands _ _ _ _ (fun _ => mret tt)); [by apply reads_one, reads_o|]. apply performs_ret.
  - pose proof (exec_one _ _ _ Hx) as Hx1. apply Forall_cons in Htk as [Htk _]. destruct i;
      solve [by eapply advance_instructions | by eapply cfa_instructions | by eapply rule_instructions
            | by eapply state_instructions].
  - inversion He; subst. change (exec_all initial (window_save (AddressSize r)) t = Some t') in Hx.
    apply parses_extended; [done|]. by apply parses_nothing, window_save_performs.
Qed.

Definition calls_until (a : Z) (calls : list RuleCall) : list RuleCall :=
  filter (fun k => call_address k <= a) calls.

(** The calls are in the order of their addresses. *)
Definition call_le (c1 c2 : RuleCall) : Prop := call_address c1 <= call_address c2.

(** At every location, the calls so far show the row for it. *)
Definition describes (prog : list cfi) (t t' : Table) (calls : list RuleCall) : Prop :=
  ascending initial prog t ->
  Forall (fun k => loc t <= call_address k <= loc t') calls /\ StronglySorted call_le calls /\
  forall a view ta, loc t <= a -> table_at initial prog t a = Some ta -> shows view (row t) ->
    shows (apply_calls (calls_until a calls) view) (row ta).

Lemma calls_until_app a calls1 calls2 :
  calls_until a (calls1 ++ calls2) = calls_until a calls1 ++ calls_until a calls2.
Proof. apply filter_app. Qed.

Lemma calls_until_none a calls : Forall (fun k => a < call_address k) calls -> calls_until a calls = [].
Proof. intros Hc. apply filter_none. eapply Forall_impl; [exact Hc|]. cbn. lia. Qed.

Lemma calls_until_all a address calls : address <= a -> calls_at H address calls -> calls_until a calls = calls.
Proof.
  intros Ha Hc. unfold calls_until. induction Hc as [|c calls [Hca _] _ IH]; [done|].
  by rewrite filter_cons_True, IH by lia.
Qed.

(** Calls at one address, and calls from there on. *)
Lemma calls_in_order a calls1 calls2 :
  Forall (fun k => call_address k = a) calls1 -> StronglySorted call_le calls2 ->
  Forall (fun k => a <= call_address k) calls2 -> StronglySorted call_le (calls1 ++ calls2).
Proof.
  intros H1 H2 H3. induction H1 as [|k calls1 Hk H1 IH]; [done|]. constructor; [done|]. unfold call_le.
  apply Forall_app. split; (eapply Forall_impl; [done|]); cbn; intros; lia.
Qed.

Lemma describes_step c bs prog1 prog2 t t1 t2 calls1 calls2 :
  encoded cie r c bs prog1 -> exec_all initial prog1 t = Some t1 -> exec_all initial prog2 t1 = Some t2 ->
  announces calls1 t t1 -> describes prog2 t1 t2 calls2 -> describes (prog1 ++ prog2) t t2 (calls1 ++ calls2).
Proof.
  intros He Hx Hx2 [Hc1 Hs1] Hd Hasc. destruct (ascending_app _ _ _ _ _ Hx Hasc) as [Hle Hasc2].
  destruct (Hd Hasc2) as (Hc2 & Hsd2 & Hs2). pose proof (ascending_le _ _ _ _ Hx2 Hasc2).
  assert (Hge : Forall (fun k => loc t1 <= call_address k <= loc t2) calls1).
  { eapply Forall_impl; [exact Hc1|]. intros ? [-> _]. lia. }
  split.
  { apply Forall_app. split; (eapply Forall_impl; [done|]); intros ? ?; cbn in *; lia. }
  split.
  { apply (calls_in_order (loc t1)); [|done|].
    - eapply Forall_impl; [exact Hc1|]. by intros ? [-> _].
    - eapply Forall_impl; [exact Hc2|]. cbn. lia. }
  intros a view ta Ha Hta Hview. rewrite calls_until_app.
  destruct (Z.lt_ge_cases a (loc t1)) as [Hlt|Hge'].
  - rewrite (calls_until_none a calls1), (calls_until_none a calls2)
      by (eapply Forall_impl; [done|]; intros ? ?; cbn in *; lia).
    destruct (encoded_shape _ _ _ He) as [_ [Hst|[i ->]]].
    + pose proof (exec_all_still _ _ _ _ Hst Hx). lia.
    + cbn [app table_at] in Hta. apply exec_one in Hx. rewrite Hx in Hta. cbn in Hta.
      rewrite (proj2 (Z.ltb_lt _ _)) in Hta by done. by injection Hta as <-.
  - rewrite (calls_until_all a (loc t1) calls1) by done. rewrite apply_calls_app. apply Hs2; auto.
    destruct (encoded_shape _ _ _ He) as [_ [Hst|[i ->]]].
    + by rewrite (table_at_still _ _ _ _ t1) in Hta.
    + cbn [app table_at] in Hta. apply exec_one in Hx. rewrite Hx in Hta. cbn in Hta.
      by rewrite (proj2 (Z.ltb_ge _ _)) in Hta by done.
Qed.

Lemma interpret_loop_spec fuel : forall c bs prog t t' h reps m cm sv,
  encoded_all cie r c bs prog -> Forall taken prog -> exec_all initial prog t = Some t' ->
  0 <= c -> c + Z.of_nat (length bs) = limit -> holds mem c bs -> (length bs <= fuel)%nat ->
  rule_ready h -> has_table t m cm sv ->
  exists calls m' sv',
    interpret_loop mem cie entry_ fuel (at_ h reps (loc t) c m cm sv) =
      Ok (Some tt, at_ (deliver calls h) reps (loc t') limit m' cm sv') /\
    has_table t' m' cm sv' /\ Forall (call_ok H) calls /\
    (forall view, shows view (row t) -> shows (apply_calls calls view) (row t')) /\
    describes prog t t' calls.
Proof.
  induction fuel as [|fuel IH]; intros c bs prog t t' h reps m cm sv He Htk Hx Hc Hl Hh Hf Hready Ht;
    destruct He as [c|c bs1 prog1 bs2 prog2 He1 He2].
  1,3: cbn [length] in Hl; rewrite Z.add_0_r in Hl; subst c; injection Hx as <-;
    exists [], m, sv; split; [cbn [interpret_loop]; run; rewrite Hlimit; run; by rewrite Z.ltb_irrefl|];
    split; [done|]; split; [constructor|]; split; [done|];
    intros _; split; [constructor|]; split; [constructor|]; intros a view ta _ [= <-]; done.
  - destruct (encoded_shape _ _ _ He1) as [Hne _]. rewrite length_app in Hf. destruct bs1; [done|cbn in Hf; lia].
  - destruct (encoded_shape _ _ _ He1) as [Hne _]. rewrite length_app in *. apply holds_app in Hh as [Hh1 Hh2].
    rewrite exec_all_app in Hx. destruct (exec_all initial prog1 t) as [t1|] eqn:Hx1; [|done]. cbn in Hx.
    apply Forall_app in Htk as [Htk1 Htk2].
    assert (0 < length bs1)%nat by (destruct bs1; [done|cbn; lia]).
    destruct (DoInstruction_parses c bs1 prog1 t t1 He1 Htk1 Hx1 Hc ltac:(lia) Hh1 h reps m cm sv Hready Ht)
      as (calls1 & m1 & sv1 & E1 & Ht1 & Ha1).
    assert (Hok1 : Forall (call_ok H) calls1).
    { eapply Forall_impl; [apply Ha1|]. by intros ? []. }
    destruct (IH (c + Z.of_nat (length bs1)) bs2 prog2 t1 t' (deliver calls1 h) reps m1 cm sv1 He2 Htk2 Hx)
      as (calls2 & m2 & sv2 & E2 & Ht2 & Hok2 & Hs2 & Hd2); auto; try lia; [by apply deliver_ready|].
    exists (calls1 ++ calls2), m2, sv2. split; [|split; [done|split; [by apply Forall_app|split]]].
    + cbn [interpret_loop]. run. rewrite Hlimit. run. rewrite (proj2 (Z.ltb_lt _ _)) by lia. run.
      rewrite E1. cbn [obind]. by rewrite E2, deliver_app.
    + intros view Hview. rewrite apply_calls_app. by apply Hs2, Ha1.
    + by eapply describes_step.
Qed.
End run.
#[global] Arguments taken H {_ _} i.

(** ** An entry *)

Section entry.
Context (mem : byte_list) {H : Type} `{!Handler H} `{!RuleHandler H}.
Context (cie : CIE) (r : ByteReader).

(** The instructions [prog] are those of the entry. *)
Definition entry_holds (e : Entry) (kind : EntryKind) (prog : list cfi) : Prop :=
  entry_kind e = kind /\
  exists start limit bs, instructions e = Some start /\ entry_end e = Some limit /\ uint 64 limit /\
    0 <= start /\ start + Z.of_nat (length bs) = limit /\ holds mem start bs /\ encoded_all cie r start bs prog.

Lemma interpret_spec e kind initial prog t t' h reps c m cm sv :
  entry_holds e kind prog -> kind = match initial with None => kCIE | Some _ => kFDE end ->
  Forall (taken H) prog -> exec_all initial prog t = Some t' -> rule_ready h -> has_table initial t m cm sv ->
  exists calls limit m' sv',
    interpret mem cie e (mkState (mkParser r h reps) (loc t) c m cm sv) =
      Ok (Some tt, mkState (mkParser r (deliver calls h) reps) (loc t') limit m' cm sv') /\
    has_table initial t' m' cm sv' /\ Forall (call_ok H) calls /\
    (forall view, shows view (row t) -> shows (apply_calls calls view) (row t')) /\
    describes initial prog t t' calls.
Proof.
  intros (Hk & start & limit & bs & Hi & Hend & Hl64 & Hs & Hl & Hh & He) Hkind Htk Hx Hready Ht.
  rewrite Hkind in Hk.
  destruct (interpret_loop_spec mem cie e limit Hend Hl64 r initial Hk (Z.to_nat (limit - start)) start bs prog t t'
    h reps m cm sv He Htk Hx Hs Hl Hh ltac:(lia) Hready Ht) as (calls & m' & sv' & E & Hrest).
  exists calls, limit, m', sv'. split; [|exact Hrest]. unfold interpret. run. rewrite Hi. run. rewrite Hend. run.
  exact E.
Qed.

Lemma shows_empty : shows ∅ (mkRow None ∅).
Proof. split; [done|]. intros reg _. cbn. by rewrite !lookup_empty. Qed.

Lemma empty_rules_has_table address : has_table None (empty_table address) empty_rules empty_rules [].
Proof.
  split; [|split; [constructor|done]]. split; [done|]. split; [constructor|]. split; [|split; [done|constructor]].
  intros reg. cbn. by rewrite lookup_empty.
Qed.

(** The calls about the rules of an FDE give its handler the table: at the end,
    and at every location. *)
Definition tabulates (cis fis : list cfi) (address : Z) (calls : list RuleCall) : Prop :=
  exists t1 t2,
    exec_all None cis (empty_table address) = Some t1 /\
    exec_all (Some (row t1)) fis t1 = Some t2 /\
    shows (apply_calls calls ∅) (row t2) /\
    (Forall still cis -> ascending (Some (row t1)) fis t1 ->
      Forall (fun k => address <= call_address k <= loc t2) calls /\ StronglySorted call_le calls /\
      forall a ta, address <= a -> table_at (Some (row t1)) fis t1 a = Some ta ->
        shows (apply_calls (calls_until a calls) ∅) (row ta)).

Lemma interpret_entry_spec fde cis fis t' h reps :
  entry_holds (cie_entry cie) kCIE cis -> entry_holds (fde_entry fde) kFDE fis ->
  Forall (taken H) cis -> Forall (taken H) fis -> exec_entry cis fis (fde_address fde) = Some t' -> rule_ready h ->
  exists calls,
    interpret_entry mem cie fde (mkParser r h reps) = Ok (Some true, mkParser r (deliver calls h) reps) /\
    Forall (call_ok H) calls /\ tabulates cis fis (fde_address fde) calls.
Proof.
  intros Hc Hf Htc Htf Hx Hready. unfold exec_entry in Hx.
  destruct (exec_all None cis _) as [t1|] eqn:Hx1; [|done]. cbn in Hx.
  destruct (interpret_spec (cie_entry cie) kCIE None cis (empty_table (fde_address fde)) t1 h reps 0
    empty_rules empty_rules [] Hc eq_refl Htc Hx1 Hready (empty_rules_has_table _))
    as (calls1 & limit1 & m1 & sv1 & E1 & Ht1 & Hok1 & Hs1 & Hd1).
  assert (Ht1' : has_table (Some (row t1)) t1 m1 m1 sv1).
  { destruct Ht1 as (Hm & Hsv & Hch & _). split; [done|]. split; [done|]. split; [done|]. by intros init [= <-]. }
  destruct (interpret_spec (fde_entry fde) kFDE (Some (row t1)) fis t1 t' (deliver calls1 h) reps limit1
    m1 m1 sv1 Hf eq_refl Htf Hx (deliver_ready _ _ Hready Hok1) Ht1')
    as (calls2 & limit2 & m2 & sv2 & E2 & Ht2 & Hok2 & Hs2 & Hd2).
  exists (calls1 ++ calls2). split; [|split; [by apply Forall_app|]].
  - unfold interpret_entry, InterpretCIE, InterpretFDE, new_state. run.
    cbn [empty_table loc] in E1. rewrite E1. run. rewrite E2. run. by rewrite deliver_app.
  - exists t1, t'. split; [done|]. split; [done|]. split.
    { rewrite apply_calls_app. apply Hs2, Hs1, shows_empty. }
    intros Hst Hasc. pose proof (exec_all_still _ _ _ _ Hst Hx1) as Hloc. cbn [empty_table loc] in Hloc.
    destruct (Hd2 Hasc) as (Hge2 & Hsd2 & Hat2).
    assert (Hat1 : calls_at H (fde_address fde) calls1).
    { destruct (Hd1 (still_ascending _ _ _ _ Hst Hx1)) as [Hge1 _]. cbn [empty_table loc] in Hge1.
      eapply Forall_and; split; [|exact Hok1]. eapply Forall_impl; [exact Hge1|]. cbn. lia. }
    split.
    { pose proof (ascending_le _ _ _ _ Hx Hasc).
      apply Forall_app. split; [eapply Forall_impl; [exact Hat1|]; intros ? [-> _]; lia|].
      eapply Forall_impl; [exact Hge2|]. cbn. lia. }
    split.
    { apply (calls_in_order (fde_address fde)); [|done|].
      - eapply Forall_impl; [exact Hat1|]. by intros ? [-> _].
      - eapply Forall_impl; [exact Hge2|]. cbn. lia. }
    intros a ta Ha Hta. rewrite calls_until_app, (calls_until_all a (fde_address fde)), apply_calls_app by done.
    apply (Hat2 a _ _); [lia|done|]. apply Hs1, shows_empty.
Qed.
End entry.
