(* ===== verification/DwarfCfiSection.v ===== *)
(** * Sections of call frame information

    The layout of a .debug_frame or .eh_frame section: entries with their initial
    length and id, the fields of a CIE with the augmentations [CallFrameInfo]
    knows, and the fields of an FDE; and the proof that [Start] reads such a
    section and gives a handler the table of every FDE. *)

From stdpp Require Import gmap.
From S2P Require Import Prelude Memory LibcSupport OrderedMap ByteReader DwarfFields DwarfCfi DwarfCfiSpec.
#[local] Open Scope Z_scope.

(** ** Entries *)

Section section.
Context (mem : byte_list) {H : Type} `{!Handler H}.
Context (buffer_ buffer_length_ : Z) (eh_frame_ : bool).
Hypothesis Hbuffer : 0 <= buffer_ /\ 0 <= buffer_length_ /\ buffer_ + buffer_length_ < 2 ^ 64.

Implicit Types (h : H) (reps : list Report) (r : ByteReader).

Abbreviation limit_ := (buffer_ + buffer_length_).

(** The id that marks a CIE, or that gives an FDE at [idpos] the CIE at the
    offset [final_id] of the section. *)
Definition id_of (kind : EntryKind) (osize idpos id final_id : Z) : Prop :=
  match kind with
  | kCIE => id = (if eh_frame_ then 0 else 2 ^ (8 * osize) - 1) /\ final_id = id
  | kFDE => 0 <= final_id <= buffer_length_ /\
            if eh_frame_ then id = idpos - buffer_ - final_id /\ 0 < id
            else id = final_id /\ id <> 2 ^ (8 * osize) - 1
  | _ => False
  end.

(** The bytes [bs] at [c] are an entry with the fields and instructions
    [body]. *)
Definition entry_bytes (endian : Endianness) (c : Z) (kind : EntryKind) (final_id : Z) (body bs : byte_list)
    (fields : Z) : Prop :=
  exists len_bytes osize id,
    initial_length endian len_bytes (osize + Z.of_nat (length body)) osize /\
    id_of kind osize (c + Z.of_nat (length len_bytes)) id final_id /\ uint (8 * osize) id /\
    bs = len_bytes ++ bytes_of endian (Z.to_nat osize) id ++ body /\
    fields = c + Z.of_nat (length len_bytes) + osize.

Lemma entry_kind_of_spec kind osize idpos id final_id :
  osize = 4 \/ osize = 8 -> uint (8 * osize) id -> id_of kind osize idpos id final_id ->
  entry_kind_of buffer_ eh_frame_ id idpos osize = Ok (kind, final_id).
Proof.
  intros Hs Hid Hk. unfold entry_kind_of, id_of in *.
  destruct kind; try done; destruct eh_frame_.
  - by destruct Hk as [-> ->].
  - destruct Hk as [-> ->]. by destruct Hs as [-> | ->].
  - destruct Hk as (Hc & -> & Hpos). rewrite (proj2 (Z.eqb_neq _ _)) by lia.
    rewrite wrap_small by (unfold uint; lia). do 2 f_equal. lia.
  - destruct Hk as (Hc & -> & Hne). destruct Hs as [-> | ->]; cbn in Hne |- *;
      by rewrite (proj2 (Z.eqb_neq _ _)).
Qed.

Lemma ReadEntryPrologue_spec r h reps c kind final_id body bs fields :
  entry_bytes (endian_ r) c kind final_id body bs fields -> holds mem c bs ->
  buffer_ <= c -> c + Z.of_nat (length bs) <= limit_ ->
  exists r',
    ReadEntryPrologue mem buffer_ buffer_length_ eh_frame_ c (mkParser r h reps) =
      Ok (Some (true, mkEntry (c - buffer_) c kind (Some fields) None (Some (c + Z.of_nat (length bs)))
                         (Some final_id)),
          mkParser r' h reps) /\
    same_reader r r' /\
    fields + Z.of_nat (length body) = c + Z.of_nat (length bs) /\ c < fields.
Proof.
  intros (len_bytes & osize & id & Hlen & Hid & Huid & -> & ->) [Hh1 Hh2]%holds_app Hc Hl.
  apply holds_app in Hh2 as [Hh2 _].
  destruct (ReadInitialLength_spec mem r c len_bytes _ osize Hlen Hh1) as (r' & E & Hsame & Hos).
  assert (Hosize : osize = 4 \/ osize = 8) by apply Hos.
  assert (Hll : 4 <= Z.of_nat (length len_bytes)).
  { destruct Hlen as [(_ & -> & _)|(_ & -> & _)]; rewrite ?length_app, !(proj2 (bytes_of_ok _ _ _)); lia. }
  assert (Hob : Z.of_nat (length (bytes_of (endian_ r) (Z.to_nat osize) id)) = osize).
  { rewrite (proj2 (bytes_of_ok _ _ _)). lia. }
  rewrite !length_app in Hl. 
  pose proof (entry_kind_of_spec kind osize (c + Z.of_nat (length len_bytes)) id final_id Hosize Huid Hid) as Ek.
  exists r'. split; [|split; [done|rewrite !length_app; lia]].
  unfold ReadEntryPrologue, report, set_reader, buffer_end. run. rewrite E. run.
  rewrite (wrap_small 64 (limit_ - c)) by (unfold uint; lia).
  rewrite (proj2 (Z.ltb_ge _ _)) by lia. rewrite (proj2 (Z.eqb_neq _ 0)) by lia. cbn [andb].
  rewrite wrap_small by (unfold uint; lia). rewrite (proj2 (Z.ltb_ge _ _)) by lia.
  rewrite wrap_small by (unfold uint; lia).
  destruct Hos as (_ & Hos1 & Hos2). unfold OffsetSize. rewrite Hos1, (proj2 (Z.ltb_ge _ _)) by lia.
  destruct Hsame as (Hend & _). rewrite <- Hend in Hh2.
  run. rewrite (ReadOffset_of mem r' osize _ id) by (done || by split). run. rewrite Ek. run.
  unfold with_fields, with_id, with_kind, with_end.
  cbn [entry_offset entry_start entry_kind entry_fields instructions entry_end entry_id].
  replace (c + Z.of_nat (length len_bytes) + (osize + Z.of_nat (length body)))
    with (c + Z.of_nat (length (len_bytes ++ bytes_of (endian_ r) (Z.to_nat osize) id ++ body)))
    by (rewrite !length_app; lia). done.
Qed.
End section.

(** ** CIE *)

(** The augmentation data [bs] at [d] for the letters, and the CIE they lead
    to. *)
Inductive augments (r : ByteReader) : chars -> Z -> byte_list -> CIE -> CIE -> Prop :=
| augments_none d cie : augments r [] d [] cie cie
| augments_lsda letters d enc bs cie cie' :
    ValidEncoding enc = true -> augments r letters (d + 1) bs (with_lsda cie enc) cie' ->
    augments r (DW_Z_has_LSDA :: letters) d (enc :: bs) cie cie'
| augments_personality letters d enc size field_bs v bs cie cie' :
    ValidEncoding enc = true -> UsableEncoding r enc = true -> has_address_size r size ->
    field (endian_ r) size (Z.land enc 0x0f) field_bs v ->
    augments r letters (d + 1 + Z.of_nat (length field_bs)) bs
      (with_personality cie enc (wrap (8 * size) (base_address r (d + 1) enc + v))) cie' ->
    augments r (DW_Z_has_personality_routine :: letters) d (enc :: field_bs ++ bs) cie cie'
| augments_encoding letters d enc bs cie cie' :
    ValidEncoding enc = true -> UsableEncoding r enc = true ->
    augments r letters (d + 1) bs (with_pointer_encoding cie enc) cie' ->
    augments r (DW_Z_has_FDE_address_encoding :: letters) d (enc :: bs) cie cie'
| augments_signal letters d bs cie cie' :
    augments r letters d bs (with_signal_frame cie) cie' ->
    augments r (DW_Z_is_signal_trampoline :: letters) d bs cie cie'.

(** The two sizes of version 4. *)
Definition size_bytes (r : ByteReader) (version : Z) (bs : byte_list) (address_size segment_size : option Z) : Prop :=
  if 4 <=? version then
    bs = [address_size_ r; 0] /\ address_size = Some (address_size_ r) /\ segment_size = Some 0 /\
    has_address_size r (address_size_ r)
  else bs = [] /\ address_size = None /\ segment_size = None.

Definition return_address_bytes (version : Z) (bs : byte_list) (reg : Z) : Prop :=
  uint 32 reg /\ if version =? 1 then bs = [reg] else uleb bs reg.

Definition int_range (n : Z) : Prop := - 2 ^ 31 <= n < 2 ^ 31.

(** The fields of a CIE at [c] up to its instructions, and what is read from
    them. *)
Definition cie_bytes (r : ByteReader) (entry : Entry) (c : Z) (bs : byte_list) (cie : CIE) : Prop :=
  exists version augmentation sizes code_bs code data_bs data ra_bs ra address_size segment_size fixed,
    1 <= version <= 4 /\ no_nul augmentation /\
    size_bytes r version sizes address_size segment_size /\
    uleb code_bs code /\ sleb data_bs data /\ int_range data /\ return_address_bytes version ra_bs ra /\
    fixed = version :: augmentation ++ 0 :: sizes ++ code_bs ++ data_bs ++ ra_bs /\
    let base has_z := mkCIE entry version augmentation code data ra has_z false false false None None None
                        DW_EH_PE_absptr address_size segment_size in
    (augmentation = [] /\ bs = fixed /\
     cie = with_cie_entry (base false) (with_instructions entry (c + Z.of_nat (length bs)))) \/
    (exists letters size_bs data_area rest cie',
       augmentation = DW_Z_augmentation_start :: letters /\
       uleb size_bs (Z.of_nat (length (data_area ++ rest))) /\ bs = fixed ++ size_bs ++ data_area ++ rest /\
       augments r letters (c + Z.of_nat (length (fixed ++ size_bs))) data_area (base true) cie' /\
       cie = with_cie_entry cie' (with_instructions entry (c + Z.of_nat (length bs)))).

Section cie.
Context (mem : byte_list) {H : Type} `{!Handler H}.
Context (entry : Entry) (limit : Z).
Hypothesis Hlimit : uint 64 limit.
Implicit Types (h : H) (reps : list Report) (r : ByteReader) (c : Z).

Lemma left_enough c n : 0 <= c -> 0 <= n -> c + n <= limit -> (wrap 64 (limit - c) <? n) = false.
Proof. intros. apply Z.ltb_ge. rewrite wrap_small; unfold uint in *; lia. Qed.

Lemma usable_not_special enc r :
  UsableEncoding r enc = true -> enc <> DW_EH_PE_omit /\ enc <> DW_EH_PE_aligned.
Proof. intros Hu. split; intros ->; discriminate. Qed.

Lemma encoding_byte_spec d data_end enc bs h reps r :
  ValidEncoding enc = true -> holds mem d (enc :: bs) -> d + 1 <= data_end ->
  encoding_byte mem entry d data_end (mkParser r h reps) = Ok (Some enc, mkParser r h reps).
Proof.
  intros Hv Hh Hd. unfold encoding_byte. rewrite (proj2 (Z.leb_gt _ _)) by lia. run.
  rewrite (byte_0 _ _ _ _ Hh). run. by rewrite Hv.
Qed.

Lemma check_usable_spec enc h reps r :
  UsableEncoding r enc = true -> check_usable entry enc (mkParser r h reps) = Ok (Some tt, mkParser r h reps).
Proof. intros Hu. unfold check_usable. run. by rewrite Hu. Qed.

Lemma augmentation_loop_spec letters d bs cie cie' data_end h reps r :
  augments r letters d bs cie cie' -> holds mem d bs -> d + Z.of_nat (length bs) <= data_end -> uint 64 data_end ->
  0 <= d ->
  augmentation_loop mem entry letters cie d data_end (mkParser r h reps) = Ok (Some cie', mkParser r h reps).
Proof.
  intros Ha. induction Ha as [d cie|letters d enc bs cie cie' Hv _ IH|letters d enc size fbs v bs cie cie' Hv Hu Hs Hf _ IH
    |letters d enc bs cie cie' Hv Hu _ IH|letters d bs cie cie' _ IH];
    intros Hh Hd He H0; cbn [augmentation_loop]; [done|..];
    change (DW_Z_has_LSDA =? DW_Z_has_LSDA) with true; 
    change (DW_Z_has_personality_routine =? DW_Z_has_LSDA) with false;
    change (DW_Z_has_FDE_address_encoding =? DW_Z_has_LSDA) with false;
    change (DW_Z_has_FDE_address_encoding =? DW_Z_has_personality_routine) with false;
    change (DW_Z_is_signal_trampoline =? DW_Z_has_LSDA) with false;
    change (DW_Z_is_signal_trampoline =? DW_Z_has_personality_routine) with false;
    change (DW_Z_is_signal_trampoline =? DW_Z_has_FDE_address_encoding) with false;
    rewrite ?Z.eqb_refl; cbv iota; cbn [length] in Hd; run;
    rewrite ?(encoding_byte_spec d data_end enc _ h reps r Hv Hh) by lia; run.
  - apply IH; [by eapply holds_tail|lia|done|lia].
  - rewrite length_app in Hd. apply holds_tail in Hh. apply holds_app in Hh as [Hh1 Hh2].
    destruct (usable_not_special enc r Hu) as [Ho Hal].
    rewrite check_usable_spec by done. run.
    rewrite (ReadEncodedPointer_field mem r size (d + 1) enc fbs v Hs Ho Hal Hu Hf Hh1). run.
    rewrite wrap_small by (unfold uint in *; lia). rewrite (proj2 (Z.ltb_ge _ _)) by lia.
    apply IH; [done|lia|done|lia].
  - rewrite check_usable_spec by done. run. apply IH; [by eapply holds_tail|lia|done|lia].
  - apply IH; [done|lia|done|lia].
Qed.

Lemma leb128_field_spec (read : ByteReader -> Z -> outcome (Z * Z)) v c n h reps r :
  read r c = Ok (v, n) -> 0 <= c -> 0 <= n -> c + n <= limit ->
  leb128_field entry limit read c (mkParser r h reps) = Ok (Some (v, c + n), mkParser r h reps).
Proof. intros E Hc Hn Hl. unfold leb128_field. run. rewrite E. run. by rewrite left_enough. Qed.

Lemma memchr_nul_spec s : forall c n, no_nul s -> holds mem c (s ++ [0]) -> (length s < n)%nat ->
  memchr_nul mem c n = Ok (Some (c + Z.of_nat (length s))).
Proof.
  induction s as [|b s IH]; intros c [|n] Hs Hh Hn; cbn [length app] in *; try lia; cbn [memchr_nul];
    rewrite (byte_0 _ _ _ _ Hh); cbn [obind].
  - by rewrite Z.eqb_refl, Z.add_0_r.
  - apply Forall_cons in Hs as [Hb Hs]. rewrite (proj2 (Z.eqb_neq _ _)) by done.
    rewrite IH by (done || lia || by eapply holds_tail). by rewrite Nat2Z.inj_succ, <- Z.add_1_l, Z.add_assoc.
Qed.

Lemma augmentation_field_spec s c h reps r :
  no_nul s -> holds mem c (s ++ [0]) -> c + Z.of_nat (length s) < limit ->
  match s with [] => True | b :: _ => b = DW_Z_augmentation_start end ->
  augmentation_field mem entry limit c (mkParser r h reps) =
    Ok (Some (s, bool_decide (s <> []), c + Z.of_nat (length s) + 1), mkParser r h reps).
Proof.
  intros Hs Hh Hl Hz. unfold augmentation_field. run.
  rewrite (memchr_nul_spec s c) by (done || lia). run.
  pose proof Hh as [Hh1 _]%holds_app.
  replace (c + Z.of_nat (length s) - c) with (Z.of_nat (length s)) by lia.
  rewrite (string_at_holds mem c s Hh1). run. destruct s as [|b s]; [done|]. subst b. done.
Qed.

Lemma size_fields_spec version bs asize ssize c h reps r :
  size_bytes r version bs asize ssize -> holds mem c bs ->
  size_fields mem entry version c (mkParser r h reps) =
    Ok (Some (asize, ssize, c + Z.of_nat (length bs)), mkParser r h reps).
Proof.
  unfold size_bytes, size_fields. destruct (4 <=? version).
  - intros (-> & -> & -> & Hs) Hh. pose proof (holds_tail _ _ _ _ Hh) as Hh'. run.
    rewrite (byte_0 _ _ _ _ Hh). run.
    assert (negb (address_size_ r =? 8) && negb (address_size_ r =? 4) = false) as ->.
    { destruct Hs as ([E|E] & _); by rewrite E. }
    rewrite (byte_0 _ _ _ _ Hh'). run. by rewrite <- Z.add_assoc.
  - intros (-> & -> & ->) _. cbn. by rewrite Z.add_0_r.
Qed.

Lemma return_address_field_spec version bs reg c h reps r :
  return_address_bytes version bs reg -> holds mem c bs -> 0 <= c -> c + Z.of_nat (length bs) <= limit ->
  return_address_field mem entry limit version c (mkParser r h reps) =
    Ok (Some (reg, c + Z.of_nat (length bs)), mkParser r h reps).
Proof.
  intros [Hreg Hb] Hh Hc Hl. unfold return_address_field. destruct (version =? 1).
  - subst bs. cbn [length] in *. rewrite (proj2 (Z.leb_gt _ _)) by lia. run.
    rewrite (byte_0 _ _ _ _ Hh). run. done.
  - run. rewrite (leb128_field_spec _ reg c (Z.of_nat (length bs))) by (by apply uleb_read || lia). run.
    by rewrite wrap_small.
Qed.

Lemma augmentation_data_spec c size_bs area h reps r :
  uleb size_bs (Z.of_nat (length area)) -> holds mem c (size_bs ++ area) -> 0 <= c ->
  c + Z.of_nat (length (size_bs ++ area)) <= limit ->
  augmentation_data mem entry limit c (mkParser r h reps) =
    Ok (Some (c + Z.of_nat (length size_bs), c + Z.of_nat (length (size_bs ++ area))), mkParser r h reps).
Proof.
  intros Hb [Hh1 Hh2]%holds_app Hc Hl. rewrite length_app in *. unfold augmentation_data. run.
  rewrite (uleb_read mem size_bs _ c r Hb Hh1). run.
  rewrite (wrap_small 64 (_ + _)) by (unfold uint in *; lia). rewrite left_enough by lia. run.
  unfold advance_pointer. pose proof Hh2 as (_ & Hl2 & _).
  rewrite (proj2 (Z.leb_le _ _)) by lia. rewrite (proj2 (Z.leb_le _ _)) by lia. cbn [andb]. run.
  by rewrite Nat2Z.inj_add, Z.add_assoc.
Qed.

Lemma version_field_spec version c h reps r bs :
  1 <= version <= 4 -> holds mem c (version :: bs) -> c + 1 <= limit ->
  version_field mem entry limit c (mkParser r h reps) = Ok (Some version, mkParser r h reps).
Proof.
  intros Hv Hh Hl. unfold version_field. rewrite (proj2 (Z.ltb_ge _ _)) by lia. run.
  unfold ReadOneByte. rewrite (byte_0 _ _ _ _ Hh). run.
  rewrite (proj2 (Z.ltb_ge _ _)), (proj2 (Z.ltb_ge _ _)) by lia. done.
Qed.

(** The fields before the augmentation data. *)
Definition fixed_fields (c : Z) : M (Parser H) (CIE * bool * Z) :=
  version ← version_field mem entry limit c;
  '(augmentation, has_z, cursor) ← augmentation_field mem entry limit (c + 1);
  '(address_size, segment_size, cursor) ← size_fields mem entry version cursor;
  '(code_factor, cursor) ← leb128_field entry limit (ReadUnsignedLEB128 mem) cursor;
  '(data_factor, cursor) ← leb128_field entry limit (ReadSignedLEB128 mem) cursor;
  '(return_register, cursor) ← return_address_field mem entry limit version cursor;
  mret (mkCIE entry version augmentation code_factor (swrap 32 data_factor) return_register has_z
          false false false None None None DW_EH_PE_absptr address_size segment_size, has_z, cursor).

Lemma fixed_fields_spec version s sizes code_bs code data_bs data ra_bs ra asize ssize c h reps r :
  1 <= version <= 4 -> no_nul s -> match s with [] => True | b :: _ => b = DW_Z_augmentation_start end ->
  size_bytes r version sizes asize ssize ->
  uleb code_bs code -> sleb data_bs data -> int_range data -> return_address_bytes version ra_bs ra ->
  let bs := version :: s ++ 0 :: sizes ++ code_bs ++ data_bs ++ ra_bs in
  0 <= c -> holds mem c bs -> c + Z.of_nat (length bs) <= limit ->
  fixed_fields c (mkParser r h reps) =
    Ok (Some (mkCIE entry version s code data ra (bool_decide (s <> [])) false false false None None None
                DW_EH_PE_absptr asize ssize, bool_decide (s <> []), c + Z.of_nat (length bs)), mkParser r h reps).
Proof.
  intros Hv Hs Hz Hsz Hcode Hdata Hint Hra bs Hc Hh Hl.
  pose proof (holds_tail _ _ _ _ Hh) as Hh1.
  replace (s ++ 0 :: sizes ++ code_bs ++ data_bs ++ ra_bs) with ((s ++ [0]) ++ sizes ++ code_bs ++ data_bs ++ ra_bs)
    in Hh1 by (by rewrite <- app_assoc).
  assert (length bs = 1 + length s + 1 + length sizes + length code_bs + length data_bs + length ra_bs)%nat as Hlen.
  { unfold bs. cbn [length]. rewrite length_app. cbn [length]. rewrite !length_app. lia. }
  apply holds_app in Hh1 as [Hs1 Hh2]. rewrite length_app in Hh2. cbn [length] in Hh2.
  replace (c + 1 + Z.of_nat (length s + 1)) with (c + 1 + Z.of_nat (length s) + 1) in Hh2 by lia.
  apply holds_app in Hh2 as [Hs2 Hh3]. apply holds_app in Hh3 as [Hs3 Hh4]. apply holds_app in Hh4 as [Hs4 Hs5].
  unfold fixed_fields. run.
  rewrite (version_field_spec version c h reps r _ Hv Hh) by lia. run.
  rewrite (augmentation_field_spec s (c + 1) h reps r Hs Hs1) by (done || lia). run.
  rewrite (size_fields_spec version sizes asize ssize _ h reps r Hsz Hs2). run.
  rewrite (leb128_field_spec _ code _ (Z.of_nat (length code_bs))) by (by apply uleb_read || lia). run.
  rewrite (leb128_field_spec _ data _ (Z.of_nat (length data_bs))) by (by apply sleb_read || lia). run.
  rewrite (return_address_field_spec version ra_bs ra _ h reps r Hra Hs5) by lia. run.
  rewrite (swrap_small 32 data) by (unfold int_range in *; lia).
  replace (c + Z.of_nat (length bs)) with (c + 1 + Z.of_nat (length s) + 1 + Z.of_nat (length sizes)
    + Z.of_nat (length code_bs) + Z.of_nat (length data_bs) + Z.of_nat (length ra_bs)) by lia. done.
Qed.

Lemma ReadCIEFields_spec c bs cie h reps r :
  cie_bytes r entry c bs cie -> entry_kind entry = kCIE -> entry_fields entry = Some c ->
  entry_end entry = Some limit -> 0 <= c -> holds mem c bs -> c + Z.of_nat (length bs) <= limit ->
  ReadCIEFields mem entry (mkParser r h reps) = Ok (Some cie, mkParser r h reps).
Proof.
  intros (version & s & sizes & code_bs & code & data_bs & data & ra_bs & ra & asize & ssize & fixed & Hv & Hs & Hsz &
    Hcode & Hdata & Hint & Hra & -> & Hcase) Hk Hf He Hc Hh Hl.
  assert (Hread : ReadCIEFields mem entry (mkParser r h reps) =
    ('(cie, has_z, cursor) ← fixed_fields c;
     if has_z : bool then
       '(data, data_end) ← augmentation_data mem entry limit cursor;
       cie ← augmentation_loop mem entry (drop 1 (augmentation cie)) cie data data_end;
       mret (with_cie_entry cie (with_instructions entry data_end))
     else mret (with_cie_entry cie (with_instructions entry cursor))) (mkParser r h reps)).
  { unfold ReadCIEFields, fixed_fields. rewrite Hk, bool_decide_eq_false_2 by (intros Hne; by apply Hne).
    run. rewrite Hf. run. rewrite He. run.
    repeat (match goal with |- obind ?m _ = _ => destruct m as [[[?|] ?]|]; [|done..] end; cbn [obind];
      repeat match goal with x : (_ * _)%type |- _ => destruct x end; cbn [obind]). done. }
  rewrite Hread. clear Hread.
  destruct Hcase as [(-> & -> & ->)|(letters & size_bs & area & rest & cie' & -> & Hsize & -> & Ha & ->)].
  - run. rewrite (fixed_fields_spec version [] sizes code_bs code data_bs data ra_bs ra asize ssize c h reps r)
      by done. run. rewrite bool_decide_eq_false_2 by (intros Hne; by apply Hne). run. done.
  - apply holds_app in Hh as [Hh1 Hh2]. rewrite length_app in Hl.
    run. rewrite (fixed_fields_spec version _ sizes code_bs code data_bs data ra_bs ra asize ssize c h reps r)
      by (done || lia). run. rewrite bool_decide_eq_true_2 by done. run.
    rewrite (augmentation_data_spec _ size_bs (area ++ rest) h reps r Hsize Hh2) by lia. run.
    apply holds_app in Hh2 as [_ Hh3]. apply holds_app in Hh3 as [Hh3 _].
    cbn [augmentation drop]. rewrite !length_app in *. rewrite Nat2Z.inj_add, Z.add_assoc in Ha.
    rewrite (augmentation_loop_spec letters _ area _ cie' _ h reps r Ha Hh3) by (unfold uint in *; lia). run.
    by rewrite !Nat2Z.inj_add, !Z.add_assoc.
Qed.
End cie.

(** ** FDE *)

(** A pointer in [bs] at [c] whose value is [v]. *)
Definition pointer_bytes (r : ByteReader) (enc c : Z) (bs : byte_list) (v : Z) : Prop :=
  exists size raw, has_address_size r size /\ UsableEncoding r enc = true /\
    field (endian_ r) size (Z.land enc 0x0f) bs raw /\ v = wrap (8 * size) (base_address r c enc + raw).

(** The augmentation data of an FDE. *)
Definition fde_augmentation_bytes (r : ByteReader) (cie : CIE) (c : Z) (bs : byte_list) (lsda : option Z) : Prop :=
  if has_z_augmentation cie then
    exists size_bs area, bs = size_bs ++ area /\ uleb size_bs (Z.of_nat (length area)) /\
      if has_z_lsda cie then
        exists enc lsda_bs rest v, lsda_encoding cie = Some enc /\ area = lsda_bs ++ rest /\
          pointer_bytes r enc (c + Z.of_nat (length size_bs)) lsda_bs v /\ lsda = Some v
      else lsda = None
  else bs = [] /\ lsda = None.

(** The fields of an FDE at [c] up to its instructions. *)
Definition fde_bytes (r : ByteReader) (entry : Entry) (cie : CIE) (c : Z) (bs : byte_list) (fde : FDE) : Prop :=
  exists address_bs size_bs aug_bs address size lsda,
    bs = address_bs ++ size_bs ++ aug_bs /\
    pointer_bytes r (pointer_encoding cie) c address_bs address /\
    pointer_bytes (SetFunctionBase r address) (Z.land (pointer_encoding cie) 0x0f)
      (c + Z.of_nat (length address_bs)) size_bs size /\
    fde_augmentation_bytes (SetFunctionBase r address) cie (c + Z.of_nat (length (address_bs ++ size_bs))) aug_bs lsda /\
    fde = mkFDE (with_instructions entry (c + Z.of_nat (length bs))) address size lsda.

Section fde.
Context (mem : byte_list) {H : Type} `{!Handler H}.
Context (entry : Entry) (limit : Z).
Hypothesis Hlimit : uint 64 limit.
Implicit Types (h : H) (reps : list Report) (r : ByteReader) (c : Z).

Lemma pointer_read r enc c bs v :
  pointer_bytes r enc c bs v -> holds mem c bs -> ReadEncodedPointer mem r c enc = Ok (v, Z.of_nat (length bs)).
Proof.
  intros (size & raw & Hs & Hu & Hf & ->) Hh. destruct (usable_not_special enc r Hu).
  by apply ReadEncodedPointer_field.
Qed.

Lemma pointer_field_spec enc c bs v h reps r :
  pointer_bytes r enc c bs v -> holds mem c bs -> 0 <= c -> c + Z.of_nat (length bs) <= limit ->
  pointer_field mem entry limit enc c (mkParser r h reps) =
    Ok (Some (v, c + Z.of_nat (length bs)), mkParser r h reps).
Proof.
  intros Hp Hh Hc Hl. unfold pointer_field. run. rewrite (pointer_read r enc c bs v Hp Hh). run.
  by rewrite (left_enough limit Hlimit) by lia.
Qed.

Lemma fde_augmentation_spec cie c bs lsda h reps r :
  has_z_augmentation cie = true -> fde_augmentation_bytes r cie c bs lsda -> holds mem c bs -> 0 <= c ->
  c + Z.of_nat (length bs) <= limit ->
  fde_augmentation mem entry cie limit c (mkParser r h reps) =
    Ok (Some (lsda, c + Z.of_nat (length bs)), mkParser r h reps).
Proof.
  unfold fde_augmentation_bytes, fde_augmentation. intros ->.
  intros (size_bs & area & -> & Hsize & Hlsda) [Hh1 Hh2]%holds_app Hc Hl. rewrite length_app in *. run.
  rewrite (uleb_read mem size_bs _ c r Hsize Hh1). run.
  rewrite (wrap_small 64 (_ + _)) by (unfold uint in *; lia). rewrite (left_enough limit Hlimit) by lia. run.
  assert (Hadv : advance_pointer mem (c + Z.of_nat (length size_bs)) (Z.of_nat (length area)) =
    Ok (c + Z.of_nat (length size_bs + length area))).
  { unfold advance_pointer. pose proof Hh2 as (_ & Hl2 & _).
    rewrite (proj2 (Z.leb_le _ _)) by lia. rewrite (proj2 (Z.leb_le _ _)) by lia.
    by rewrite Nat2Z.inj_add, Z.add_assoc. }
  destruct (has_z_lsda cie).
  - destruct Hlsda as (enc & lsda_bs & rest & v & He & -> & Hp & ->). rewrite He. run.
    pose proof Hp as (size & raw & _ & Hu & _). rewrite Hu. run. apply holds_app in Hh2 as [Hh2 _].
    rewrite (pointer_read r enc _ lsda_bs v Hp Hh2). run.
    rewrite (proj2 (Z.ltb_ge _ _)) by (rewrite length_app; lia). run. rewrite Hadv. by run.
  - subst lsda. run. rewrite Hadv. by run.
Qed.

Lemma ReadFDEFields_spec cie c bs fde h reps r :
  fde_bytes r entry cie c bs fde -> entry_fields entry = Some c -> entry_end entry = Some limit ->
  0 <= c -> holds mem c bs -> c + Z.of_nat (length bs) <= limit ->
  ReadFDEFields mem entry cie (mkParser r h reps) =
    Ok (Some fde, mkParser (SetFunctionBase r (fde_address fde)) h reps).
Proof.
  intros (address_bs & size_bs & aug_bs & address & size & lsda & -> & Ha & Hs & Haug & ->) Hf He Hc Hh Hl.
  apply holds_app in Hh as [Hh1 Hh2]. apply holds_app in Hh2 as [Hh2 Hh3]. rewrite !length_app in Hl.
  rewrite length_app, Nat2Z.inj_add, Z.add_assoc in Haug.
  unfold ReadFDEFields, set_reader. run. rewrite Hf. run. rewrite He. run.
  rewrite (pointer_field_spec _ c address_bs address h reps r Ha Hh1) by lia. run.
  rewrite (pointer_field_spec _ _ size_bs size h reps _ Hs Hh2) by lia. run.
  assert (Hend : c + Z.of_nat (length address_bs) + Z.of_nat (length size_bs) + Z.of_nat (length aug_bs) =
    c + Z.of_nat (length (address_bs ++ size_bs ++ aug_bs))) by (rewrite !length_app; lia).
  destruct (has_z_augmentation cie) eqn:Hz.
  - rewrite (fde_augmentation_spec cie _ aug_bs lsda h reps _ Hz Haug Hh3) by lia. run. by rewrite Hend.
  - unfold fde_augmentation_bytes in Haug. rewrite Hz in Haug. destruct Haug as [-> ->]. cbn [length] in Hend.
    run. by rewrite <- Hend, Z.add_0_r.
Qed.
End fde.

(** ** What the bytes say does not depend on the offset size and the old
    function base *)

Section same.
Context (r r' : ByteReader).
Hypothesis Hsame : same_reader r r'.

Lemma same_endian : endian_ r' = endian_ r.
Proof. apply Hsame. Qed.

Lemma augments_same letters d bs cie cie' :
  augments r letters d bs cie cie' -> augments r' letters d bs cie cie'.
Proof.
  induction 1; [constructor|by constructor|..].
  - erewrite <- same_reader_base in * by done. eapply augments_personality; [done| | | |done].
    + by rewrite (same_reader_usable r).
    + by eapply same_reader_size.
    + by rewrite same_endian.
  - constructor; [done| |done]. by rewrite (same_reader_usable r).
  - by constructor.
Qed.

Lemma size_bytes_same version bs asize ssize : size_bytes r version bs asize ssize -> size_bytes r' version bs asize ssize.
Proof.
  unfold size_bytes. pose proof Hsame as (_ & E & _). rewrite E. destruct (4 <=? version); [|done].
  intros (-> & -> & -> & Hs). do 3 (split; [done|]). by eapply same_reader_size.
Qed.

Lemma cie_bytes_same entry c bs cie : cie_bytes r entry c bs cie -> cie_bytes r' entry c bs cie.
Proof.
  intros (version & s & sizes & code_bs & code & data_bs & data & ra_bs & ra & asize & ssize & fixed & Hv & Hs & Hsz &
    Hcode & Hdata & Hint & Hra & Hfixed & Hcase).
  exists version, s, sizes, code_bs, code, data_bs, data, ra_bs, ra, asize, ssize, fixed.
  repeat (split; [done || by apply size_bytes_same|]). destruct Hcase as [Hcase|Hcase]; [by left|right].
  destruct Hcase as (letters & size_bs & area & rest & cie' & H1 & H2 & H3 & H4 & H5).
  exists letters, size_bs, area, rest, cie'. repeat (split; [done|]). split; [by apply augments_same|done].
Qed.

Lemma pointer_bytes_same enc c bs v : pointer_bytes r enc c bs v -> pointer_bytes r' enc c bs v.
Proof.
  intros (size & raw & Hs & Hu & Hf & ->). exists size, raw. split; [by eapply same_reader_size|].
  split; [by rewrite (same_reader_usable r)|]. split; [by rewrite same_endian|].
  by rewrite (same_reader_base r r').
Qed.

Lemma encoded_same cie c bs prog : encoded cie r c bs prog -> encoded cie r' c bs prog.
Proof.
  pose proof Hsame as (_ & Esize & _).
  assert (AddressSize r' = AddressSize r) as Ha by done.
  destruct 1; try (econstructor; eassumption).
  - rewrite <- same_endian. by constructor.
  - rewrite <- (same_reader_base r r') by done. econstructor; eauto.
    + by eapply same_reader_size.
    + by rewrite (same_reader_usable r).
    + by rewrite same_endian.
  - rewrite <- Ha. constructor. by rewrite Ha.
Qed.

Lemma encoded_all_same cie c bs prog : encoded_all cie r c bs prog -> encoded_all cie r' c bs prog.
Proof. induction 1; constructor; [by apply encoded_same|done]. Qed.
End same.

Lemma fde_augmentation_same r r' cie c bs lsda :
  same_reader r r' -> fde_augmentation_bytes r cie c bs lsda -> fde_augmentation_bytes r' cie c bs lsda.
Proof.
  intros Hs. unfold fde_augmentation_bytes. destruct (has_z_augmentation cie); [|done].
  intros (size_bs & area & -> & Hu & Hl). exists size_bs, area. repeat (split; [done|]).
  destruct (has_z_lsda cie); [|done]. destruct Hl as (enc & bs & rest & v & He & -> & Hp & ->).
  exists enc, bs, rest, v. repeat (split; [done|]). split; [by eapply pointer_bytes_same|done].
Qed.

Lemma fde_bytes_same r r' entry cie c bs fde :
  same_reader r r' -> fde_bytes r entry cie c bs fde -> fde_bytes r' entry cie c bs fde.
Proof.
  intros Hs (address_bs & size_bs & aug_bs & address & size & lsda & -> & Ha & Hz & Haug & ->).
  pose proof (same_reader_function r r' address Hs) as Hs'.
  exists address_bs, size_bs, aug_bs, address, size, lsda. split; [done|].
  split; [by eapply pointer_bytes_same|]. split; [by eapply pointer_bytes_same|].
  split; [by eapply fde_augmentation_same|done].
Qed.

(** ** Sections *)

(** A handler of a whole section: it takes every entry while it is [idle], and
    keeps the definitions of the calls about exception handling. *)
Class SectionHandler (H : Type) `{!Handler H} `{!RuleHandler H} : Type := {
  idle : H -> Prop;
  enter : H -> Z -> Z -> Z -> Z -> chars -> Z -> H;
  leave : H -> H;
  Entry_accepts h offset address length version augmentation ra :
    idle h -> Handler_Entry h offset address length version augmentation ra =
      Ok (true, enter h offset address length version augmentation ra);
  enter_ready h offset address length version augmentation ra :
    idle h -> rule_ready (enter h offset address length version augmentation ra);
  End_accepts h : rule_ready h -> exists b, Handler_End h = Ok (b, leave h);
  leave_idle h : rule_ready h -> idle (leave h);
  PersonalityRoutine_default h address indirect : Handler_PersonalityRoutine h address indirect = Ok (true, h);
  LanguageSpecificDataArea_default h address indirect :
    Handler_LanguageSpecificDataArea h address indirect = Ok (true, h);
  SignalHandler_default h : Handler_SignalHandler h = Ok (true, h);
}.

(** What a section says of a function: the arguments of [Entry], and the
    instructions of the CIE and of the FDE. *)
Record Described : Type := mkDescribed {
  described_offset : Z;
  described_address : Z;
  described_size : Z;
  described_version : Z;
  described_augmentation : chars;
  described_return_address : Z;
  cie_program : list cfi;
  fde_program : list cfi;
}.

(** The FDE is what [d] says. *)
Definition describes_fde (d : Described) (cie : CIE) (fde : FDE) : Prop :=
  described_offset d = entry_offset (fde_entry fde) /\ described_address d = fde_address fde /\
  described_size d = fde_size fde /\ described_version d = version cie /\
  described_augmentation d = augmentation cie /\ described_return_address d = return_address_register cie.

Section start.
Context (mem : byte_list).
Context (buffer_ buffer_length_ : Z) (eh_frame_ : bool).
(** The reader at the start. *)
Context (r0 : ByteReader).

Definition fde_reader (address : Z) : ByteReader := SetFunctionBase r0 address.

(** A CIE at the offset [cie_offset] of the section, and its instructions as
    the FDE whose code is at [address] has them. *)
Definition cie_at (cie_offset address : Z) (cie : CIE) (prog : list cfi) : Prop :=
  exists header insns bs fields id,
    entry_bytes buffer_ buffer_length_ eh_frame_ (endian_ r0) (buffer_ + cie_offset) kCIE id (header ++ insns)
      bs fields /\
    holds mem (buffer_ + cie_offset) bs /\ cie_offset + Z.of_nat (length bs) <= buffer_length_ /\
    let entry := mkEntry cie_offset (buffer_ + cie_offset) kCIE (Some fields) None
                   (Some (buffer_ + cie_offset + Z.of_nat (length bs))) (Some id) in
    cie_bytes r0 entry fields header cie /\
    encoded_all cie (fde_reader address) (fields + Z.of_nat (length header)) insns prog.

(** An FDE in [bs] at [c]. *)
Definition fde_at (c : Z) (bs : byte_list) (d : Described) : Prop :=
  exists cie_offset cie header insns fields fde t,
    entry_bytes buffer_ buffer_length_ eh_frame_ (endian_ r0) c kFDE cie_offset (header ++ insns) bs fields /\
    cie_at cie_offset (described_address d) cie (cie_program d) /\
    let entry := mkEntry (c - buffer_) c kFDE (Some fields) None (Some (c + Z.of_nat (length bs)))
                   (Some cie_offset) in
    fde_bytes r0 entry cie fields header fde /\
    encoded_all cie (fde_reader (described_address d)) (fields + Z.of_nat (length header)) insns (fde_program d) /\
    exec_entry (cie_program d) (fde_program d) (described_address d) = Some t /\ describes_fde d cie fde.

(** The entries from [c] to the end of the section. *)
Inductive entries_at : Z -> byte_list -> list Described -> Prop :=
| entries_end c : entries_at c [] []
| entries_terminator c : eh_frame_ = true -> entries_at c [0; 0; 0; 0] []
| entries_cie c id body bs fields rest ds :
    entry_bytes buffer_ buffer_length_ eh_frame_ (endian_ r0) c kCIE id body bs fields ->
    entries_at (c + Z.of_nat (length bs)) rest ds -> entries_at c (bs ++ rest) ds
| entries_fde c bs d rest ds :
    fde_at c bs d -> entries_at (c + Z.of_nat (length bs)) rest ds -> entries_at c (bs ++ rest) (d :: ds).

Context {H : Type} `{!Handler H} `{!RuleHandler H} `{!SectionHandler H}.
Hypothesis Hbuffer : 0 <= buffer_ /\ 0 <= buffer_length_ /\ buffer_ + buffer_length_ < 2 ^ 64.
Hypothesis Hbase : have_function_base_ r0 = false.
Implicit Types (h : H) (reps : list Report) (r : ByteReader) (c : Z).

(** The handler enters the function of an FDE. *)
Definition entered (h : H) (d : Described) : H :=
  enter h (described_offset d) (described_address d) (described_size d) (described_version d)
    (described_augmentation d) (described_return_address d).

(** The handler after the functions of the section: it entered each, was told a
    table of it, and left it. *)
Inductive told : list Described -> H -> H -> Prop :=
| told_nothing h : told [] h h
| told_function d ds calls h h' :
    Forall (call_ok H) calls -> tabulates (cie_program d) (fde_program d) (described_address d) calls ->
    told ds (leave (deliver calls (entered h d))) h' ->
    told (d :: ds) h h'.

(** The handler takes the rules of the function. *)
Definition takes_all (d : Described) : Prop :=
  Forall (taken H) (cie_program d) /\ Forall (taken H) (fde_program d).

(** The members that go with the flags are set. *)
Definition consistent (cie : CIE) : Prop :=
  (has_z_personality cie = true -> is_Some (personality_address cie) /\ is_Some (personality_encoding cie)) /\
  (has_z_lsda cie = true -> is_Some (lsda_encoding cie)).

Lemma augments_keeps r letters d bs cie cie' :
  augments r letters d bs cie cie' ->
  version cie' = version cie /\ cie_address_size cie' = cie_address_size cie /\
  has_z_augmentation cie' = has_z_augmentation cie /\ (consistent cie -> consistent cie').
Proof.
  induction 1 as [d cie|letters d enc bs cie cie' Hv _ IH|letters d enc size fbs v bs cie cie' Hv Hu Hs Hf _ IH
    |letters d enc bs cie cie' Hv Hu _ IH|letters d bs cie cie' _ IH];
    [done|..]; destruct IH as (E1 & E2 & E3 & Hc); rewrite E1, E2, E3; cbn; repeat (split; [done|]);
    intros [Hp Hl]; apply Hc; split; cbn; auto; intros _; by repeat eexists.
Qed.

Lemma cie_bytes_cie r entry c bs cie :
  cie_bytes r entry c bs cie ->
  cie_entry cie = with_instructions entry (c + Z.of_nat (length bs)) /\ consistent cie /\
  (4 <= version cie -> cie_address_size cie = Some (address_size_ r) /\ has_address_size r (address_size_ r)).
Proof.
  intros (version & s & sizes & code_bs & code & data_bs & data & ra_bs & ra & asize & ssize & fixed & Hv & Hs & Hsz &
    Hcode & Hdata & Hint & Hra & Hfixed & Hcase).
  assert (Hsize : 4 <= version -> asize = Some (address_size_ r) /\ has_address_size r (address_size_ r)).
  { intros H4. unfold size_bytes in Hsz. rewrite (proj2 (Z.leb_le _ _)) in Hsz by done. tauto. }
  destruct Hcase as [(-> & -> & ->)|(letters & size_bs & area & rest & cie' & -> & Hsize' & -> & Ha & ->)].
  - done.
  - apply augments_keeps in Ha as (Hver & Has & _ & Hcons). cbn in Hver, Has. split; [done|].
    split; [apply Hcons; done|]. cbn. rewrite Hver, Has. done.
Qed.

Lemma report_augmentation_spec cie fde (p : Parser H) :
  consistent cie -> (has_z_augmentation cie = true -> has_z_lsda cie = true -> is_Some (lsda_address fde)) ->
  report_augmentation cie fde p = Ok (Some tt, p).
Proof.
  intros [Hp Hl] Hlsda. destruct p as [r h reps]. unfold report_augmentation.
  destruct (has_z_augmentation cie); [|done]. specialize (Hlsda eq_refl).
  assert (Esig : (if has_z_signal_frame cie then require (call Handler_SignalHandler) else mret tt)
    (mkParser r h reps) = Ok (Some tt, mkParser r h reps)).
  { destruct (has_z_signal_frame cie); [|done]. run. by rewrite SignalHandler_default. }
  destruct (has_z_personality cie), (has_z_lsda cie);
    try destruct (Hp eq_refl) as [[pa ->] [pe ->]]; try destruct (Hlsda eq_refl) as [la ->];
    try destruct (Hl eq_refl) as [le ->]; unfold mbind, M_bind; rewrite <- Esig; run;
    rewrite ?PersonalityRoutine_default; run; rewrite ?LanguageSpecificDataArea_default; by run.
Qed.

Lemma entry_bytes_body kind id body bs fields c endian :
  entry_bytes buffer_ buffer_length_ eh_frame_ endian c kind id body bs fields -> holds mem c bs ->
  holds mem fields body /\ c <= fields /\ fields + Z.of_nat (length body) = c + Z.of_nat (length bs).
Proof.
  intros (len_bytes & osize & id' & Hlen & _ & _ & -> & ->) Hh.
  assert (Z.of_nat (Z.to_nat osize) = osize) as Eo.
  { destruct Hlen as [(-> & _)|(-> & _)]; lia. }
  apply holds_app in Hh as [_ Hh]. apply holds_app in Hh as [_ Hh].
  rewrite (proj2 (bytes_of_ok _ _ _)), Eo in Hh. split; [done|].
  rewrite !length_app, (proj2 (bytes_of_ok _ _ _)). lia.
Qed.

(** The instructions behind the fields. *)
Lemma insns_hold cie r entry header insns fields kind prog limit :
  entry_kind entry = kind -> entry_end entry = Some limit -> uint 64 limit -> 0 <= fields ->
  fields + Z.of_nat (length (header ++ insns)) = limit -> holds mem fields (header ++ insns) ->
  encoded_all cie r (fields + Z.of_nat (length header)) insns prog ->
  entry_holds mem cie r (with_instructions entry (fields + Z.of_nat (length header))) kind prog.
Proof.
  intros Hk He Hl Hf Hlen [Hh1 Hh2]%holds_app Henc. split; [done|].
  exists (fields + Z.of_nat (length header)), limit, insns. rewrite length_app in Hlen.
  split; [done|]. split; [done|]. split; [done|]. split; [lia|]. split; [lia|]. done.
Qed.

(** The reader after a version 4 CIE has given its address size. *)
Lemma set_size_spec cie r h reps :
  (4 <= version cie -> cie_address_size cie = Some (address_size_ r) /\ has_address_size r (address_size_ r)) ->
  exists r', use_address_size cie (mkParser r h reps) = Ok (Some tt, mkParser r' h reps) /\ same_reader r r'.
Proof.
  intros Hs. unfold use_address_size. destruct (Z.leb_spec 4 (version cie)) as [H4|]; [|eexists; split; [done|apply same_reader_refl]].
  destruct (Hs H4) as [-> Hsize]. unfold set_reader. run. unfold SetAddressSize.
  destruct Hsize as (Hor & _ & Har).
  assert (negb ((address_size_ r =? 4) || (address_size_ r =? 8)) = false) as ->.
  { destruct Hor as [-> | ->]; done. }
  run. eexists. split; [done|]. repeat split. done.
Qed.

(** The CIE of an FDE is read. *)
Lemma read_CIE_spec entry cie_offset address cie prog h reps r :
  entry_id entry = Some cie_offset -> 0 <= cie_offset <= buffer_length_ ->
  cie_at cie_offset address cie prog -> same_reader r0 r ->
  exists r',
    read_CIE mem buffer_ buffer_length_ eh_frame_ entry (mkParser r h reps) = Ok (Some cie, mkParser r' h reps) /\
    same_reader r0 r' /\
    entry_holds mem cie (fde_reader address) (cie_entry cie) kCIE prog /\ consistent cie /\
    (4 <= version cie -> cie_address_size cie = Some (address_size_ r0) /\ has_address_size r0 (address_size_ r0)).
Proof.
  intros Hid Hc0 (header & insns & bs & fields & id & Hentry & Hh & Hl & Hcie & Henc) Hs.
  destruct (entry_bytes_body _ _ _ _ _ _ _ Hentry Hh) as (Hbody & Hfields & Hlen).
  assert (endian_ r0 = endian_ r) as He by (symmetry; apply Hs). rewrite He in Hentry.
  destruct (ReadEntryPrologue_spec mem buffer_ buffer_length_ eh_frame_ Hbuffer r h reps _ _ _ _ _ _ Hentry Hh)
    as (r' & E & Hs' & _ & _); [lia|lia|].
  pose proof (same_reader_trans _ _ _ Hs Hs') as Hs2.
  replace (buffer_ + cie_offset - buffer_) with cie_offset in E by lia.
  destruct (cie_bytes_cie _ _ _ _ _ Hcie) as (Hce & Hcons & Hver).
  exists r'. split; [|split; [done|split; [|done]]].
  - unfold read_CIE, report. run. rewrite Hid. run. rewrite (proj2 (Z.ltb_ge _ _)) by lia. run.
    rewrite E. run. cbn [negb entry_kind]. rewrite bool_decide_eq_false_2 by (intros Hne; by apply Hne).
    apply (ReadCIEFields_spec mem _ (buffer_ + cie_offset + Z.of_nat (length bs)) ltac:(unfold uint; lia) fields header).
    + by eapply cie_bytes_same.
    + done.
    + done.
    + done.
    + lia.
    + by apply holds_app in Hbody as [? _].
    + rewrite length_app in Hlen. lia.
  - rewrite Hce. eapply insns_hold; [done|done|unfold uint; lia|lia|done|done|done].
Qed.

Lemma offer_FDE_spec d cie fde t h reps r :
  takes_all d -> describes_fde d cie fde -> idle h -> consistent cie ->
  (has_z_augmentation cie = true -> has_z_lsda cie = true -> is_Some (lsda_address fde)) ->
  entry_holds mem cie r (cie_entry cie) kCIE (cie_program d) ->
  entry_holds mem cie r (fde_entry fde) kFDE (fde_program d) ->
  exec_entry (cie_program d) (fde_program d) (described_address d) = Some t ->
  exists calls,
    offer_FDE mem cie fde (mkParser r h reps) =
      Ok (Some true, mkParser (ClearFunctionBase r) (leave (deliver calls (entered h d))) reps) /\
    Forall (call_ok H) calls /\ tabulates (cie_program d) (fde_program d) (described_address d) calls.
Proof.
  intros [Htc Htf] (E1 & E2 & E3 & E4 & E5 & E6) Hidle Hcons Hlsda Hc Hf Hx. rewrite E2 in Hx.
  assert (rule_ready (entered h d)) as Hready by by apply enter_ready.
  destruct (interpret_entry_spec mem cie r fde _ _ t (entered h d) reps Hc Hf Htc Htf Hx Hready) as (calls & E & Hok & Htab).
  destruct (End_accepts (deliver calls (entered h d))) as [b Eend]; [by apply deliver_ready|].
  exists calls. split; [|split; [done|by rewrite E2]].
  unfold offer_FDE, set_reader. run. rewrite Entry_accepts by done.
  rewrite <- E1, <- E2, <- E3, <- E4, <- E5, <- E6. fold (entered h d). run. cbn [negb].
  rewrite report_augmentation_spec by done. run. rewrite E. run. rewrite Eend. by run.
Qed.

(** The header of an FDE. *)
Lemma fde_header_spec entry cie c bs fde insns prog limit h reps r :
  fde_bytes r0 entry cie c bs fde -> entry_kind entry = kFDE -> entry_fields entry = Some c ->
  entry_end entry = Some limit -> uint 64 limit -> 0 <= c -> c + Z.of_nat (length (bs ++ insns)) = limit ->
  holds mem c (bs ++ insns) -> same_reader r0 r ->
  encoded_all cie (fde_reader (fde_address fde)) (c + Z.of_nat (length bs)) insns prog ->
  ReadFDEFields mem entry cie (mkParser r h reps) =
    Ok (Some fde, mkParser (SetFunctionBase r (fde_address fde)) h reps) /\
  entry_offset (fde_entry fde) = entry_offset entry /\
  (has_z_augmentation cie = true -> has_z_lsda cie = true -> is_Some (lsda_address fde)) /\
  entry_holds mem cie (SetFunctionBase r (fde_address fde)) (fde_entry fde) kFDE prog.
Proof.
  intros Hfde Hk Hf He Hl Hc Hlen Hh Hs Henc. pose proof (same_reader_function _ _ (fde_address fde) Hs) as Hs'.
  pose proof Hh as [Hh1 _]%holds_app.
  split.
  { apply (ReadFDEFields_spec mem entry limit Hl cie c bs fde h reps r); [by eapply fde_bytes_same|done|done|done|done|].
    rewrite length_app in Hlen. lia. }
  destruct Hfde as (address_bs & size_bs & aug_bs & address & size & lsda & _ & _ & _ & Haug & ->). split; [done|].
  split.
  - intros Hz1 Hz2. unfold fde_augmentation_bytes in Haug. rewrite Hz1, Hz2 in Haug.
    destruct Haug as (? & ? & _ & _ & ? & ? & ? & ? & _ & _ & _ & ->). by eexists.
  - cbn [fde_entry]. eapply insns_hold; [done|done|done|done|done|done|]. by eapply encoded_all_same.
Qed.

Lemma entry_holds_same cie r r' e kind prog :
  same_reader r r' -> entry_holds mem cie r e kind prog -> entry_holds mem cie r' e kind prog.
Proof.
  intros Hs (Hk & s & l & b & H1 & H2 & H3 & H4 & H5 & H6 & H7). split; [done|]. exists s, l, b.
  repeat (split; [done|]). by eapply encoded_all_same.
Qed.

Lemma process_FDE_spec c bs d h reps r :
  takes_all d -> fde_at c bs d -> holds mem c bs -> buffer_ <= c -> c + Z.of_nat (length bs) <= buffer_ + buffer_length_ ->
  same_reader r0 r -> idle h ->
  exists entry r1 r' calls,
    ReadEntryPrologue mem buffer_ buffer_length_ eh_frame_ c (mkParser r h reps) =
      Ok (Some (true, entry), mkParser r1 h reps) /\
    entry_kind entry = kFDE /\ entry_end entry = Some (c + Z.of_nat (length bs)) /\
    process_FDE mem buffer_ buffer_length_ eh_frame_ entry (mkParser r1 h reps) =
      Ok (Some true, mkParser r' (leave (deliver calls (entered h d))) reps) /\
    same_reader r0 r' /\ Forall (call_ok H) calls /\
    tabulates (cie_program d) (fde_program d) (described_address d) calls.
Proof.
  intros Htk (cie_offset & cie & header & insns & fields & fde & t & Hentry & Hcie & Hfde & Henc & Hx & Hd)
    Hh Hc Hl Hs Hidle.
  assert (0 <= cie_offset <= buffer_length_) as Hco by (destruct Hentry as (? & ? & ? & _ & [Hk _] & _); exact Hk).
  destruct (entry_bytes_body _ _ _ _ _ _ _ Hentry Hh) as (Hbody & Hfields & Hlen).
  assert (endian_ r0 = endian_ r) as He by (symmetry; apply Hs). rewrite He in Hentry.
  destruct (ReadEntryPrologue_spec mem buffer_ buffer_length_ eh_frame_ Hbuffer r h reps _ _ _ _ _ _ Hentry Hh Hc Hl)
    as (r1 & E & Hs1 & _ & _).
  eexists _, r1.
  destruct (read_CIE_spec (mkEntry (c - buffer_) c kFDE (Some fields) None (Some (c + Z.of_nat (length bs))) (Some cie_offset))
    cie_offset (described_address d) cie _ h reps r1 eq_refl Hco Hcie (same_reader_trans _ _ _ Hs Hs1))
    as (r2 & E2 & Hs2 & Hch & Hcons & Hver).
  destruct (set_size_spec cie r2 h reps) as (r3 & E3 & Hs3).
  { intros H4. destruct (Hver H4) as [Ea Eb]. pose proof Hs2 as (_ & Esz & _). rewrite Esz. split; [done|].
    by eapply same_reader_size. }
  pose proof (same_reader_trans _ _ _ Hs2 Hs3) as Hs03.
  pose proof (same_reader_function _ _ (fde_address fde) Hs03) as Hs4.
  assert (Eaddr : described_address d = fde_address fde) by apply Hd.
  rewrite Eaddr in Henc, Hch.
  destruct (fde_header_spec _ cie fields header fde insns (fde_program d) (c + Z.of_nat (length bs)) h reps r3 Hfde
    eq_refl eq_refl eq_refl ltac:(unfold uint; lia) ltac:(lia) Hlen Hbody Hs03 Henc) as (E4 & Eoff & Hlsda & Hfh).
  destruct (offer_FDE_spec d cie fde t h reps (SetFunctionBase r3 (fde_address fde))) as (calls & E5 & Hok & Htab); auto.
  { by eapply entry_holds_same. }
  exists (ClearFunctionBase (SetFunctionBase r3 (fde_address fde))), calls.
  split; [exact E|]. split; [done|]. split; [done|]. split; [|split; [|by split]].
  - unfold process_FDE. run. rewrite E2. run. rewrite E3. run. rewrite E4. run. exact E5.
  - destruct Hs03 as (F1 & F2 & F3 & F4 & F5 & F6 & F7 & F8 & F9 & F10 & F11 & F12).
    repeat (split; [done|]). intros Hf. by rewrite Hbase in Hf.
Qed.

(** A round of the loop over an entry that is not an FDE. *)
Lemma skip_entry_spec c id body bs fields h reps r all_ok :
  entry_bytes buffer_ buffer_length_ eh_frame_ (endian_ r0) c kCIE id body bs fields -> holds mem c bs ->
  buffer_ <= c -> c + Z.of_nat (length bs) <= buffer_ + buffer_length_ -> same_reader r0 r ->
  exists r', Start_entry mem buffer_ buffer_length_ eh_frame_ c all_ok (mkParser r h reps) =
    Ok (Some (Continue (c + Z.of_nat (length bs)) true), mkParser r' h reps) /\ same_reader r0 r'.
Proof.
  intros Hentry Hh Hc Hl Hs. assert (endian_ r0 = endian_ r) as He by (symmetry; apply Hs). rewrite He in Hentry.
  destruct (ReadEntryPrologue_spec mem buffer_ buffer_length_ eh_frame_ Hbuffer r h reps _ _ _ _ _ _ Hentry Hh Hc Hl)
    as (r1 & E & Hs1 & _ & _).
  exists r1. split; [|by eapply same_reader_trans]. unfold Start_entry. run. rewrite E. by run.
Qed.

Lemma terminator_spec c h reps r all_ok :
  eh_frame_ = true -> holds mem c [0; 0; 0; 0] -> buffer_ <= c -> c + 4 = buffer_ + buffer_length_ ->
  exists r', Start_entry mem buffer_ buffer_length_ eh_frame_ c all_ok (mkParser r h reps) =
    Ok (Some (Break all_ok), mkParser r' h reps).
Proof.
  intros Heh Hh Hc Hl.
  destruct (ReadInitialLength_spec mem r c [0; 0; 0; 0] 0 4) as (r' & E & _).
  { left. split; [done|]. split; [by destruct (endian_ r)|]. split; [unfold uint; lia|done]. }
  { done. }
  exists r'. unfold Start_entry, ReadEntryPrologue, report, set_reader, buffer_end. run. rewrite E. run.
  rewrite wrap_small by (unfold uint; lia). rewrite (proj2 (Z.ltb_ge _ _)) by (cbn [length]; lia).
  rewrite Heh. cbn [andb Z.eqb negb]. run. unfold with_end, with_kind. cbn [entry_end entry_kind of_option obind].
  rewrite (proj2 (Z.ltb_ge _ _)) by (cbn [length]; lia). by run.
Qed.

Lemma Start_loop_spec c bs ds : entries_at c bs ds -> Forall takes_all ds -> forall fuel h reps r,
  holds mem c bs -> buffer_ <= c -> c + Z.of_nat (length bs) = buffer_ + buffer_length_ ->
  same_reader r0 r -> idle h -> (length bs <= fuel)%nat ->
  exists r' h', Start_loop mem buffer_ buffer_length_ eh_frame_ fuel c true (mkParser r h reps) =
      Ok (Some true, mkParser r' h' reps) /\ told ds h h'.
Proof.
  induction 1 as [c|c Heh|c id body bs fields rest ds He _ IH|c bs d rest ds Hf _ IH];
    intros Htk fuel h reps r Hh Hc Hl Hs Hidle Hfuel.
  - exists r, h. split; [|constructor]. destruct fuel; cbn [Start_loop]; unfold buffer_end;
      (rewrite (proj2 (Z.ltb_ge _ _)) by (cbn [length] in Hl; lia)); done.
  - destruct fuel as [|fuel]; [cbn in Hfuel; lia|]. cbn [Start_loop]. unfold buffer_end. cbn [length] in Hl.
    rewrite (proj2 (Z.ltb_lt _ _)) by lia.
    destruct (terminator_spec c h reps r true Heh Hh Hc ltac:(lia)) as (r' & E). exists r', h. run. rewrite E. run.
    split; [done|constructor].
  - rewrite length_app in *. apply holds_app in Hh as [Hh1 Hh2].
    destruct (entry_bytes_body _ _ _ _ _ _ _ He Hh1) as (_ & Hf & Hlen).
    destruct (skip_entry_spec c id body bs fields h reps r true He Hh1 Hc ltac:(lia) Hs) as (r' & E & Hs').
    assert (bs <> []) as Hne.
    { intros ->. destruct He as (lb & os & i & Hlb & _ & _ & Happ & _). destruct Hlb as [(_ & -> & _)|(_ & -> & _)];
        apply (f_equal length) in Happ; rewrite !length_app, !(proj2 (bytes_of_ok _ _ _)) in Happ; cbn in Happ; lia. }
    destruct fuel as [|fuel]; [destruct bs; [done|cbn in Hfuel; lia]|].
    assert (0 < length bs)%nat by (destruct bs; [done|cbn; lia]).
    cbn [Start_loop]. unfold buffer_end. rewrite (proj2 (Z.ltb_lt _ _)) by lia. run. rewrite E. run. cbn [andb].
    apply IH; auto; lia.
  - rewrite length_app in *. apply holds_app in Hh as [Hh1 Hh2].
    apply Forall_cons in Htk as [Htd Htk].
    destruct (process_FDE_spec c bs d h reps r Htd Hf Hh1 Hc ltac:(lia) Hs Hidle)
      as (entry & r1 & r' & calls & E1 & Hk & Hend & E2 & Hs' & Hok & Htab).
    assert (bs <> []) as Hne.
    { destruct Hf as (? & ? & ? & ? & ? & ? & ? & He & _). intros ->.
      destruct He as (lb & os & i & Hlb & _ & _ & Happ & _). destruct Hlb as [(_ & -> & _)|(_ & -> & _)];
        apply (f_equal length) in Happ; rewrite !length_app, !(proj2 (bytes_of_ok _ _ _)) in Happ; cbn in Happ; lia. }
    assert (0 < length bs)%nat by (destruct bs; [done|cbn; lia]).
    destruct fuel as [|fuel]; [lia|].
    destruct (IH Htk fuel (leave (deliver calls (entered h d))) reps r' Hh2 ltac:(lia) ltac:(lia) Hs') as (r2 & h2 & E3 & Ht);
      [apply leave_idle, deliver_ready; [by apply enter_ready|done]|lia|].
    exists r2, h2. split; [|by econstructor].
    cbn [Start_loop]. unfold buffer_end. rewrite (proj2 (Z.ltb_lt _ _)) by lia.
    unfold Start_entry, continue_with_false. run. rewrite E1. run. cbn [negb]. rewrite Hend, Hk. run. rewrite E2. run.
    cbn [default andb]. exact E3.
Qed.
End start.
#[global] Arguments takes_all H {_ _} d.

#[export, refine] Instance trace_section_handler : SectionHandler (list Call) := {|
  idle _ := True;
  enter h offset address length version augmentation ra :=
    h ++ [Call_Entry offset address length version augmentation ra];
  leave h := h ++ [Call_End];
|}.
Proof. all: try done. intros h _. by exists true. Defined.

(** ** An example *)

Lemma holds_all bs : holds bs 0 bs.
Proof. split; [lia|]. split; [lia|]. done. Qed.

Lemma uleb_small n : uint 7 n -> uleb [n] n.
Proof.
  intros Hn. exists [n]. split; [split; [done|by constructor]|]. split; [cbn; lia|]. split; [done|].
  split; [cbn; lia|unfold uint in *; lia].
Qed.

Definition example_cie_program : list cfi := [cfi_def_cfa 7 8; cfi_rule 16 (OffsetRule kCFARegister (-8))].

Definition example_fde_program : list cfi :=
  [cfi_advance_loc 1; cfi_def_cfa_offset 16; cfi_rule 6 (OffsetRule kCFARegister (-16));
   cfi_advance_loc 3; cfi_def_cfa_register 6; cfi_remember_state; cfi_advance_loc 8; cfi_def_cfa 7 8;
   cfi_advance_loc 1; cfi_restore_state].

Definition example_described : Described :=
  mkDescribed 20 0x1000 0x20 1 [] 16 example_cie_program example_fde_program.

(** Numbers of one byte, and their bounds. *)
Ltac small := solve [by apply uleb_small | vm_compute; split; discriminate || done].

Lemma example_cie_encoded cie c :
  data_alignment_factor cie = -8 ->
  encoded_all cie (SetFunctionBase example_reader 0x1000) c [0x0c; 7; 8; 0x90; 1; 0; 0] example_cie_program.
Proof.
  intros Hd.
  apply (encoded_next _ _ _ [0x0c; 7; 8] [cfi_def_cfa 7 8]).
  { apply (encoded_def_cfa _ _ _ [7] 7 [8] 8); small. }
  apply (encoded_next _ _ _ [0x90; 1] [cfi_rule 16 (OffsetRule kCFARegister (-8))]).
  { pose proof (encoded_offset cie (SetFunctionBase example_reader 0x1000)) as He. rewrite Hd in He.
    apply (He _ 16 [1] 1); small. }
  apply (encoded_next _ _ _ [0] []); [apply encoded_nop|].
  apply (encoded_next _ _ _ [0] []); [apply encoded_nop|]. apply encoded_none.
Qed.

Lemma example_fde_encoded cie c :
  code_alignment_factor cie = 1 -> data_alignment_factor cie = -8 ->
  encoded_all cie (SetFunctionBase example_reader 0x1000) c
    [0x41; 0x0e; 16; 0x86; 2; 0x43; 0x0d; 6; 0x0a; 0x48; 0x0c; 7; 8; 0x41; 0x0b; 0] example_fde_program.
Proof.
  intros Hc Hd.
  pose proof (encoded_advance_loc cie (SetFunctionBase example_reader 0x1000)) as Ha. rewrite Hc in Ha.
  pose proof (encoded_offset cie (SetFunctionBase example_reader 0x1000)) as Ho. rewrite Hd in Ho.
  apply (encoded_next _ _ _ [0x41] [cfi_advance_loc 1]); [apply (Ha _ 1); small|].
  apply (encoded_next _ _ _ [0x0e; 16] [cfi_def_cfa_offset 16]); [apply encoded_def_cfa_offset; small|].
  apply (encoded_next _ _ _ [0x86; 2] [cfi_rule 6 (OffsetRule kCFARegister (-16))]); [apply (Ho _ 6 [2] 2); small|].
  apply (encoded_next _ _ _ [0x43] [cfi_advance_loc 3]); [apply (Ha _ 3); small|].
  apply (encoded_next _ _ _ [0x0d; 6] [cfi_def_cfa_register 6]); [apply encoded_def_cfa_register; small|].
  apply (encoded_next _ _ _ [0x0a] [cfi_remember_state]); [apply encoded_remember_state|].
  apply (encoded_next _ _ _ [0x48] [cfi_advance_loc 8]); [apply (Ha _ 8); small|].
  apply (encoded_next _ _ _ [0x0c; 7; 8] [cfi_def_cfa 7 8]); [apply (encoded_def_cfa _ _ _ [7] 7 [8] 8); small|].
  apply (encoded_next _ _ _ [0x41] [cfi_advance_loc 1]); [apply (Ha _ 1); small|].
  apply (encoded_next _ _ _ [0x0b] [cfi_restore_state]); [apply encoded_restore_state|].
  apply (encoded_next _ _ _ [0] []); [apply encoded_nop|]. apply encoded_none.
Qed.

Lemma example_entry_bytes c kind final_id id body len_bytes :
  initial_length ENDIANNESS_LITTLE len_bytes (4 + Z.of_nat (length body)) 4 ->
  id_of 0 60 false kind 4 (c + Z.of_nat (length len_bytes)) id final_id -> uint 32 id ->
  entry_bytes 0 60 false ENDIANNESS_LITTLE c kind final_id body
    (len_bytes ++ bytes_of ENDIANNESS_LITTLE 4 id ++ body) (c + Z.of_nat (length len_bytes) + 4).
Proof. intros Hl Hi Hu. exists len_bytes, 4, id. by repeat (split; [done|]). Qed.

Definition example_cie_header : byte_list := [1; 0; 1; 0x78; 16].

Definition example_cie : CIE :=
  mkCIE (mkEntry 0 0 kCIE (Some 8) (Some 13) (Some 20) (Some 0xffffffff)) 1 [] 1 (-8) 16
    false false false false None None None DW_EH_PE_absptr None None.

Lemma example_cie_bytes entry :
  cie_bytes example_reader entry 8 example_cie_header (with_cie_entry example_cie (with_instructions entry 13)).
Proof.
  exists 1, [], [], [1], 1, [0x78], (-8), [16], 16, None, None, example_cie_header.
  split; [lia|]. split; [constructor|]. split; [by repeat split|]. split; [small|].
  split; [exists [0x78]; split; [split; [done|by repeat constructor]|done]|]. split; [unfold int_range; lia|].
  split; [split; [unfold uint; lia|done]|]. split; [done|]. by left.
Qed.

Lemma example_cie_at : cie_at example_section 0 60 false example_reader 0 0x1000 example_cie example_cie_program.
Proof.
  exists example_cie_header, [0x0c; 7; 8; 0x90; 1; 0; 0], (take 20 example_section), 8, 0xffffffff.
  split; [apply (example_entry_bytes 0 kCIE _ 0xffffffff _ [16; 0; 0; 0]);
    [left; repeat split; vm_compute; done|done|unfold uint; lia]|].
  split; [split; [lia|split; [cbn; lia|]]; intros i b Hi; rewrite lookup_take_Some in Hi; apply Hi|].
  split; [cbn; lia|]. split; [apply example_cie_bytes|]. by apply example_cie_encoded.
Qed.

Lemma example_fde_at : fde_at example_section 0 60 false example_reader 20 (drop 20 example_section) example_described.
Proof.
  exists 0, example_cie, [0; 0x10; 0; 0; 0; 0; 0; 0; 0x20; 0; 0; 0; 0; 0; 0; 0], (drop 44 example_section), 28.
  eexists _, (default (empty_table 0) (exec_entry example_cie_program example_fde_program 0x1000)).
  split; [apply (example_entry_bytes 20 kFDE 0 0 _ [36; 0; 0; 0]);
    [left; repeat split; vm_compute; done|vm_compute; repeat split; done|unfold uint; lia]|].
  split; [apply example_cie_at|]. split; [|split; [by apply example_fde_encoded|split; [by vm_compute|]]].
  - exists [0; 0x10; 0; 0; 0; 0; 0; 0], [0x20; 0; 0; 0; 0; 0; 0; 0], [], 0x1000, 0x20, None.
    assert (Hp : forall r enc c v, has_address_size r 8 -> enc = DW_EH_PE_absptr -> endian_ r = ENDIANNESS_LITTLE ->
      uint 64 v -> pointer_bytes r enc c (bytes_of ENDIANNESS_LITTLE 8 v) v).
    { intros r enc c v Hr -> He Hv. exists 8, v. split; [done|]. split; [done|]. rewrite He.
      split; [by apply (field_absptr ENDIANNESS_LITTLE 8)|]. symmetry. by apply wrap_small. }
    split; [done|]. split; [|split; [|split; [done|done]]].
    + apply (Hp _ _ _ 0x1000); [split; [by right|done]|done|done|unfold uint; lia].
    + apply (Hp _ _ _ 0x20); [split; [by right|done]|done|done|unfold uint; lia].
  - by repeat split.
Qed.

Lemma example_entries : entries_at example_section 0 60 false example_reader 0 example_section [example_described].
Proof.
  apply (entries_cie _ _ _ _ _ 0 0xffffffff (drop 8 (take 20 example_section)) (take 20 example_section) 8
    (drop 20 example_section)).
  - apply (example_entry_bytes 0 kCIE _ 0xffffffff _ [16; 0; 0; 0]);
      [left; repeat split; vm_compute; done|done|unfold uint; lia].
  - apply (entries_fde _ _ _ _ _ 20 (drop 20 example_section) example_described []); [apply example_fde_at|constructor].
Qed.

Lemma Start_spec {H : Type} `{!Handler H} `{!RuleHandler H} `{!SectionHandler H}
    mem buffer_ buffer_length_ eh_frame_ bs ds (r : ByteReader) (h : H) reps :
  0 <= buffer_ -> buffer_ + buffer_length_ < 2 ^ 64 -> buffer_length_ = Z.of_nat (length bs) ->
  holds mem buffer_ bs -> have_function_base_ r = false -> idle h ->
  entries_at mem buffer_ buffer_length_ eh_frame_ r buffer_ bs ds -> Forall (takes_all H) ds ->
  exists r' h', Start mem buffer_ buffer_length_ eh_frame_ (mkParser r h reps) =
      Ok (Some true, mkParser r' h' reps) /\ told ds h h'.
Proof.
  intros Hb Hlt Hlen Hh Hbase Hidle He Htk. apply (Start_loop_spec mem buffer_ buffer_length_ eh_frame_ r
    ltac:(lia) Hbase buffer_ bs ds He); auto; try lia. apply same_reader_refl.
Qed.

(** C13: from a well-formed .debug_frame or .eh_frame section, with entries in 32
    or 64-bit format, any of the augmentation letters [zLPRS], pointers in any
    supported encoding and numbers in any LEB128 encoding, [Start] returns true
    without a report and a handler that takes the rules of the section is told,
    for every function in turn, its address and size, and calls that describe the
    table of its call frame instructions: after the last call every register has
    its rule of the last row, and, when the locations do not go back, the calls
    are in the order of the locations and those up to any location give the row
    in effect there - also across DW_CFA_restore_state, where only the
    differences are reported.  The loops have fuel for every section. *)
Theorem Start_functional {H : Type} `{!Handler H} `{!RuleHandler H} `{!SectionHandler H}
    mem buffer_ buffer_length_ eh_frame_ bs ds (r : ByteReader) (h : H) reps :
  0 <= buffer_ -> buffer_ + buffer_length_ < 2 ^ 64 -> buffer_length_ = Z.of_nat (length bs) ->
  holds mem buffer_ bs -> have_function_base_ r = false -> idle h ->
  entries_at mem buffer_ buffer_length_ eh_frame_ r buffer_ bs ds -> Forall (takes_all H) ds ->
  exists r' h', Start mem buffer_ buffer_length_ eh_frame_ (mkParser r h reps) =
      Ok (Some true, mkParser r' h' reps) /\ told ds h h'.
Proof. apply Start_spec. Qed.

Lemma Start_functional_witness :
  exists r' h', Start example_section 0 60 false (mkParser example_reader ([] : list Call) []) =
      Ok (Some true, mkParser r' h' []) /\ told [example_described] [] h'.
Proof.
  apply (Start_functional example_section 0 60 false example_section [example_described] example_reader [] []).
  - lia.
  - lia.
  - done.
  - apply holds_all.
  - done.
  - done.
  - apply example_entries.
  - constructor; [|constructor]. split; repeat constructor.
Defined.
