(* ===== verification/CStrings.v ===== *)
(** * C strings

    NUL-terminated strings in a memory buffer, as the symbol file parser uses
    them: reading one, cutting tokens out of a buffer in place ([strtok_r]) and
    reading numbers ([strtoul], [strtoull], [strtol]).  A function that runs
    past the end of the buffer is [Undef]. *)

From S2P Require Import Prelude Memory LibcSupport SimpleSerializer Tokens.
#[local] Open Scope Z_scope.

(** ** C strings in memory *)

(** The [char*] at [ptr]; [Undef] when nothing terminates it. *)
Definition read_cstring (mem : byte_list) (ptr : Z) : outcome chars :=
  if ptr <? 0 then Undef
  else
    let s := drop (Z.to_nat ptr) mem in
    if (strlen s <? length s)%nat then Ok (take (strlen s) s) else Undef.

Lemma read_cstring_stored mem ptr s :
  no_nul s -> holds mem ptr (s ++ [0]) -> read_cstring mem ptr = Ok s.
Proof.
  intros Hs Hh. pose proof (holds_take _ _ _ Hh) as Ht. destruct Hh as (Hp & Hl & _).
  unfold read_cstring. rewrite (proj2 (Z.ltb_ge _ _)) by lia. cbv zeta.
  rewrite length_app in Hl, Ht. simpl length in Hl, Ht.
  assert (drop (Z.to_nat ptr) mem = s ++ [0] ++ drop (length s + 1) (drop (Z.to_nat ptr) mem)) as ->.
  { rewrite app_assoc, <- Ht at 1. by rewrite take_drop. }
  set (rest := drop _ _). assert (strlen (s ++ [0] ++ rest) = length s) as ->.
  { unfold strlen. rewrite prefix_len_app; [simpl; lia|].
    eapply Forall_impl; [exact Hs|]. intros c Hc. by apply negb_true_iff, Z.eqb_neq. }
  rewrite (proj2 (Nat.ltb_lt _ _)) by (rewrite !length_app; simpl; lia).
  by rewrite take_app_length.
Qed.

(** ** strtok_r *)

Definition char_at (mem : chars) (ptr : Z) : outcome Z :=
  if ptr <? 0 then Undef else of_option (mem !! Z.to_nat ptr).

(** From [s], which is the string of the first call or [*save_ptr] afterwards:
    the buffer, the token ([None] for NULL) and [*save_ptr].  The separator or
    terminator after the token is overwritten. *)
Definition strtok_r (delim : Z -> bool) (mem : chars) (s : Z) : outcome (chars * option Z * Z) :=
  if s <? 0 then Undef
  else
    let token := s + Z.of_nat (prefix_len delim (drop (Z.to_nat s) mem)) in
    let? c := char_at mem token in
    if c =? 0 then Ok (mem, None, token)
    else
      let in_token := fun c => negb (delim c) && negb (c =? 0) in
      let end_ := token + Z.of_nat (prefix_len in_token (drop (Z.to_nat token) mem)) in
      let? c := char_at mem end_ in
      if c =? 0 then Ok (mem, Some token, end_)
      else let? mem := write_at mem end_ [0] in Ok (mem, Some token, end_ + 1).

(** ** Numbers *)

Definition digit (base c : Z) : option Z :=
  match hex_digit c with
  | Some d => if d <? base then Some d else None
  | None => None
  end.

Definition is_digit_of (base c : Z) : bool :=
  match digit base c with Some _ => true | None => false end.

Fixpoint digits_value (base : Z) (s : chars) (acc : Z) : Z * chars :=
  match s with
  | [] => (acc, [])
  | c :: rest =>
      match digit base c with
      | Some d => digits_value base rest (acc * base + d)
      | None => (acc, s)
      end
  end.

(** The sign. *)
Definition number_sign (s : chars) : bool * chars :=
  match s with
  | c :: rest => if c =? 45 then (true, rest) else if c =? 43 then (false, rest) else (false, s)
  | [] => (false, s)
  end.

(** The optional [0x] before a hexadecimal digit. *)
Definition number_prefix (base : Z) (s : chars) : chars :=
  match s with
  | c0 :: c1 :: c2 :: _ =>
      if (base =? 16) && (c0 =? 48) && ((c1 =? 120) || (c1 =? 88)) && is_digit_of base c2
      then drop 2 s else s
  | _ => s
  end.

(** The number at the start of [s]: sign, magnitude and the rest; [None] when
    there are no digits. *)
Definition scan_number (base : Z) (s : chars) : option (bool * Z * chars) :=
  let (negative, s) := number_sign (skip_separators isspace s) in
  let s := number_prefix base s in
  match s with
  | c :: _ => if is_digit_of base c
              then let (v, rest) := digits_value base s 0 in Some (negative, v, rest)
              else None
  | [] => None
  end.

(** [strtoul] and [strtoull] for a [w]-bit result: the value and what
    [*endptr] points to. *)
Definition strtou (w base : Z) (s : chars) : Z * chars :=
  match scan_number base s with
  | None => (0, s)
  | Some (negative, v, rest) =>
      (if 2 ^ w <=? v then 2 ^ w - 1 else if (negative : bool) then wrap w (- v) else v, rest)
  end.

(** [strtol] for a [w]-bit [long]. *)
Definition strtol (w base : Z) (s : chars) : Z * chars :=
  match scan_number base s with
  | None => (0, s)
  | Some (negative, v, rest) =>
      let v := if (negative : bool) then - v else v in
      (Z.max (- 2 ^ (w - 1)) (Z.min v (2 ^ (w - 1) - 1)), rest)
  end.
