(* ===== verification/DwarfLine.v ===== *)
(** * DWARF line number programs (common/dwarf/dwarf2reader.h, dwarf2reader.cc, line_state_machine.h)

    [LineInfo] reads the line number program of a compilation unit and tells a
    handler its directories, its files and its lines.  The sections lie in a
    byte memory and a pointer is an offset into it; a read outside it, a pointer
    moved out of it, a division by zero and a failed [assert] are [Undef].  The
    loops over strings and opcodes take the size of the memory as fuel. *)

From S2P Require Import Prelude Memory LibcSupport SimpleSerializer Tokens CStrings ByteReader.
#[local] Open Scope Z_scope.

(** ** The opcodes, content types and forms (dwarf2enums.h) *)

Definition DW_LNS_extended_op : Z := 0.
Definition DW_LNS_copy : Z := 1.
Definition DW_LNS_advance_pc : Z := 2.
Definition DW_LNS_advance_line : Z := 3.
Definition DW_LNS_set_file : Z := 4.
Definition DW_LNS_set_column : Z := 5.
Definition DW_LNS_negate_stmt : Z := 6.
Definition DW_LNS_set_basic_block : Z := 7.
Definition DW_LNS_const_add_pc : Z := 8.
Definition DW_LNS_fixed_advance_pc : Z := 9.

Definition DW_LNE_end_sequence : Z := 1.
Definition DW_LNE_set_address : Z := 2.
Definition DW_LNE_define_file : Z := 3.

Definition DW_LNCT_path : Z := 1.
Definition DW_LNCT_directory_index : Z := 2.
Definition DW_LNCT_timestamp : Z := 3.
Definition DW_LNCT_size : Z := 4.
Definition DW_LNCT_MD5 : Z := 5.

Definition DW_FORM_data2 : Z := 0x05.
Definition DW_FORM_data4 : Z := 0x06.
Definition DW_FORM_data8 : Z := 0x07.
Definition DW_FORM_string : Z := 0x08.
Definition DW_FORM_data1 : Z := 0x0b.
Definition DW_FORM_strp : Z := 0x0e.
Definition DW_FORM_udata : Z := 0x0f.
Definition DW_FORM_line_strp : Z := 0x1f.

(** ** Data *)

(** [LineInfoHandler]; the results are the handler after the calls. *)
Class LineInfoHandler (H : Type) : Type := {
  DefineDir : H -> chars -> Z -> outcome H;
  DefineFile : H -> chars -> Z -> Z -> Z -> Z -> outcome H;
  AddLine : H -> Z -> Z -> Z -> Z -> Z -> outcome H;
}.

Record LineStateMachine : Type := mkLineStateMachine {
  file_num : Z;
  address : Z;
  line_num : Z;
  column_num : Z;
  is_stmt : bool;
  basic_block : bool;
  end_sequence : bool;
}.

Definition Reset (default_is_stmt : bool) : LineStateMachine :=
  mkLineStateMachine 1 0 1 0 default_is_stmt false false.

(** The assignments to a member of the machine. *)
Definition with_address (lsm : LineStateMachine) (address : Z) : LineStateMachine :=
  mkLineStateMachine (file_num lsm) address (line_num lsm) (column_num lsm) (is_stmt lsm)
    (basic_block lsm) (end_sequence lsm).
Definition with_line_num (lsm : LineStateMachine) (line_num : Z) : LineStateMachine :=
  mkLineStateMachine (file_num lsm) (address lsm) line_num (column_num lsm) (is_stmt lsm)
    (basic_block lsm) (end_sequence lsm).
Definition with_file_num (lsm : LineStateMachine) (file_num : Z) : LineStateMachine :=
  mkLineStateMachine file_num (address lsm) (line_num lsm) (column_num lsm) (is_stmt lsm)
    (basic_block lsm) (end_sequence lsm).
Definition with_column_num (lsm : LineStateMachine) (column_num : Z) : LineStateMachine :=
  mkLineStateMachine (file_num lsm) (address lsm) (line_num lsm) column_num (is_stmt lsm)
    (basic_block lsm) (end_sequence lsm).
Definition with_is_stmt (lsm : LineStateMachine) (is_stmt : bool) : LineStateMachine :=
  mkLineStateMachine (file_num lsm) (address lsm) (line_num lsm) (column_num lsm) is_stmt
    (basic_block lsm) (end_sequence lsm).
Definition with_basic_block (lsm : LineStateMachine) (basic_block : bool) : LineStateMachine :=
  mkLineStateMachine (file_num lsm) (address lsm) (line_num lsm) (column_num lsm) (is_stmt lsm)
    basic_block (end_sequence lsm).
Definition with_end_sequence (lsm : LineStateMachine) : LineStateMachine :=
  mkLineStateMachine (file_num lsm) (address lsm) (line_num lsm) (column_num lsm) (is_stmt lsm)
    (basic_block lsm) true.

(** [std_opcode_lengths] is the vector, [None] for NULL. *)
Record LineInfoHeader : Type := mkLineInfoHeader {
  total_length : Z;
  version : Z;
  prologue_length : Z;
  min_insn_length : Z;
  default_is_stmt : bool;
  line_base : Z;
  line_range : Z;
  opcode_base : Z;
  std_opcode_lengths : option (list Z);
}.

(** The members that are set by the constructor; [None] is a null pointer. *)
Record LineSections : Type := mkLineSections {
  buffer_ : Z;
  buffer_length_ : Z;
  string_buffer_ : option Z;
  string_buffer_length_ : Z;
  line_string_buffer_ : option Z;
  line_string_buffer_length_ : Z;
}.

(** ** The header *)

Section reader.
Context (mem : byte_list).

(** A pointer that stays in the memory or just behind it. *)
Definition moved (ptr : Z) : outcome Z :=
  if (0 <=? ptr) && (ptr <=? Z.of_nat (length mem)) then Ok ptr else Undef.

(** The columns the loop of [ReadTypesAndForms] reads, and the pointer after
    them. *)
Fixpoint read_columns (reader_ : ByteReader) (count : nat) (lineptr : Z) : outcome (list (Z * Z) * Z) :=
  match count with
  | O => Ok ([], lineptr)
  | S count =>
      let? (content_type, len) := ReadUnsignedLEB128 mem reader_ lineptr in
      let lineptr := lineptr + len in
      let? (content_form, len) := ReadUnsignedLEB128 mem reader_ lineptr in
      let lineptr := lineptr + len in
      let? (columns, lineptr) := read_columns reader_ count lineptr in
      Ok ((wrap 32 content_type, wrap 32 content_form) :: columns, lineptr)
  end.

(** The first [*format_count] elements of the two arrays, with their values
    before the call; [None] while [*format_count] is not set. *)
Definition ReadTypesAndForms (reader_ : ByteReader) (lineptr : Z) (max_types : Z)
    (columns : option (list (Z * Z))) : outcome (option (list (Z * Z)) * Z) :=
  let? (count, len) := ReadUnsignedLEB128 mem reader_ lineptr in
  let count := wrap 32 count in
  let lineptr := lineptr + len in
  if (count <? 1) || (max_types <? count) then Ok (columns, lineptr)
  else
    let? (columns, lineptr) := read_columns reader_ (Z.to_nat count) lineptr in
    Ok (Some columns, lineptr).

(** The string of [std::string(name)] and the pointer after the form. *)
Definition ReadStringForm (sections : LineSections) (reader_ : ByteReader) (form : Z) (lineptr : Z) :
    outcome (chars * Z) :=
  let in_section section section_length :=
    let? offset := ReadOffset mem reader_ lineptr in
    if section_length <=? offset then Undef
    else
      let lineptr := lineptr + OffsetSize reader_ in
      match section with
      | Some section_buffer =>
          let? name := read_cstring mem (section_buffer + offset) in Ok (name, lineptr)
      | None => Undef
      end in
  if form =? DW_FORM_string then
    let? name := read_cstring mem lineptr in
    Ok (name, lineptr + (Z.of_nat (length name) + 1))
  else if form =? DW_FORM_strp then in_section (string_buffer_ sections) (string_buffer_length_ sections)
  else if form =? DW_FORM_line_strp then
    in_section (line_string_buffer_ sections) (line_string_buffer_length_ sections)
  else Undef.

Definition ReadUnsignedData (reader_ : ByteReader) (form : Z) (lineptr : Z) : outcome (Z * Z) :=
  if form =? DW_FORM_data1 then
    let? value := ReadOneByte mem reader_ lineptr in Ok (value, lineptr + 1)
  else if form =? DW_FORM_data2 then
    let? value := ReadTwoBytes mem reader_ lineptr in Ok (value, lineptr + 2)
  else if form =? DW_FORM_data4 then
    let? value := ReadFourBytes mem reader_ lineptr in Ok (value, lineptr + 4)
  else if form =? DW_FORM_data8 then
    let? value := ReadEightBytes mem reader_ lineptr in Ok (value, lineptr + 8)
  else if form =? DW_FORM_udata then
    let? (value, len) := ReadUnsignedLEB128 mem reader_ lineptr in Ok (value, lineptr + len)
  else Ok (0, lineptr).

(** [filename], [dirindex], [mod_time] and [filelength] of a row. *)
Record FileRow : Type := mkFileRow {
  filename : option chars;
  dirindex : Z;
  mod_time : Z;
  filelength : Z;
}.

(** The loop of [ReadFileRow].  The case of DW_LNCT_MD5 moves the pointer to
    [lineptr] out of its object. *)
Fixpoint read_file_columns (sections : LineSections) (reader_ : ByteReader) (columns : list (Z * Z))
    (row : FileRow) (lineptr : Z) : outcome (FileRow * Z) :=
  match columns with
  | [] => Ok (row, lineptr)
  | (content_type, content_form) :: columns =>
      let? (row, lineptr) :=
        if content_type =? DW_LNCT_path then
          let? (name, lineptr) := ReadStringForm sections reader_ content_form lineptr in
          Ok (mkFileRow (Some name) (dirindex row) (mod_time row) (filelength row), lineptr)
        else if content_type =? DW_LNCT_directory_index then
          let? (value, lineptr) := ReadUnsignedData reader_ content_form lineptr in
          Ok (mkFileRow (filename row) value (mod_time row) (filelength row), lineptr)
        else if content_type =? DW_LNCT_timestamp then
          let? (value, lineptr) := ReadUnsignedData reader_ content_form lineptr in
          Ok (mkFileRow (filename row) (dirindex row) value (filelength row), lineptr)
        else if content_type =? DW_LNCT_size then
          let? (value, lineptr) := ReadUnsignedData reader_ content_form lineptr in
          Ok (mkFileRow (filename row) (dirindex row) (mod_time row) value, lineptr)
        else Undef in
      read_file_columns sections reader_ columns row lineptr
  end.

(** The loop over the columns of a directory. *)
Fixpoint read_dir_columns (sections : LineSections) (reader_ : ByteReader) (columns : list (Z * Z))
    (dirname : option chars) (lineptr : Z) : outcome (option chars * Z) :=
  match columns with
  | [] => Ok (dirname, lineptr)
  | (content_type, content_form) :: columns =>
      if content_type =? DW_LNCT_path then
        let? (name, lineptr) := ReadStringForm sections reader_ content_form lineptr in
        read_dir_columns sections reader_ columns (Some name) lineptr
      else read_dir_columns sections reader_ columns dirname lineptr
  end.

Context {H : Type} `{!LineInfoHandler H}.

Definition ReadFileRow (sections : LineSections) (reader_ : ByteReader) (handler_ : H) (columns : list (Z * Z))
    (row : Z) (lineptr : Z) : outcome (H * Z) :=
  let? (r, lineptr) := read_file_columns sections reader_ columns (mkFileRow None 0 0 0) lineptr in
  match filename r with
  | None => Undef
  | Some name =>
      let? handler_ := DefineFile handler_ name (swrap 32 row) (wrap 32 (dirindex r)) (mod_time r) (filelength r) in
      Ok (handler_, lineptr)
  end.

(** The loops over the tables of version 5; reading a [format_count] that is
    not set is [Undef]. *)
Fixpoint read_dirs (sections : LineSections) (reader_ : ByteReader) (handler_ : H)
    (columns : option (list (Z * Z))) (entry_count : nat) (row : Z) (lineptr : Z) : outcome (H * Z) :=
  match entry_count with
  | O => Ok (handler_, lineptr)
  | S entry_count =>
      let? format := of_option columns in
      let? (dirname, lineptr) := read_dir_columns sections reader_ format None lineptr in
      let? dirname := of_option dirname in
      let? handler_ := DefineDir handler_ dirname row in
      read_dirs sections reader_ handler_ columns entry_count (row + 1) lineptr
  end.

Fixpoint read_files (sections : LineSections) (reader_ : ByteReader) (handler_ : H)
    (columns : option (list (Z * Z))) (entry_count : nat) (row : Z) (lineptr : Z) : outcome (H * Z) :=
  match entry_count with
  | O => Ok (handler_, lineptr)
  | S entry_count =>
      let? format := of_option columns in
      let? (handler_, lineptr) := ReadFileRow sections reader_ handler_ format row lineptr in
      read_files sections reader_ handler_ columns entry_count (row + 1) lineptr
  end.

(** The loops over the tables of the versions up to 4. *)
Fixpoint dirs_loop (fuel : nat) (handler_ : H) (dirindex : Z) (lineptr : Z) : outcome (H * Z) :=
  match fuel with
  | O => Undef
  | S fuel =>
      let? c := byte mem lineptr in
      if c =? 0 then Ok (handler_, lineptr)
      else
        let? dirname := read_cstring mem lineptr in
        let? handler_ := DefineDir handler_ dirname dirindex in
        dirs_loop fuel handler_ (wrap 32 (dirindex + 1)) (lineptr + (Z.of_nat (length dirname) + 1))
  end.

Fixpoint files_loop (fuel : nat) (sections : LineSections) (reader_ : ByteReader) (handler_ : H)
    (fileindex : Z) (lineptr : Z) : outcome (H * Z) :=
  match fuel with
  | O => Undef
  | S fuel =>
      let? c := byte mem lineptr in
      if c =? 0 then Ok (handler_, lineptr)
      else
        let? (name, lineptr) := ReadStringForm sections reader_ DW_FORM_string lineptr in
        let? (dirindex, len) := ReadUnsignedLEB128 mem reader_ lineptr in
        let lineptr := lineptr + len in
        let? (mod_time, len) := ReadUnsignedLEB128 mem reader_ lineptr in
        let lineptr := lineptr + len in
        let? (filelength, len) := ReadUnsignedLEB128 mem reader_ lineptr in
        let lineptr := lineptr + len in
        let? handler_ := DefineFile handler_ name (swrap 32 fileindex) (wrap 32 dirindex) mod_time filelength in
        files_loop fuel sections reader_ handler_ (wrap 32 (fileindex + 1)) lineptr
  end.

(** [std_opcode_lengths[i]] to [std_opcode_lengths[opcode_base - 1]]. *)
Fixpoint read_opcode_lengths (reader_ : ByteReader) (n : nat) (lineptr : Z) : outcome (list Z) :=
  match n with
  | O => Ok []
  | S n =>
      let? l := ReadOneByte mem reader_ lineptr in
      let? ls := read_opcode_lengths reader_ n (lineptr + 1) in
      Ok (l :: ls)
  end.

(** The tables of a header: [if (header_.version <= 4)] and its else. *)
Definition read_tables_4 (sections : LineSections) (reader_ : ByteReader) (handler_ : H) (lineptr : Z) :
    outcome (H * Z) :=
  let? handler_ := DefineDir handler_ [] 0 in
  let? (handler_, lineptr) := dirs_loop (S (length mem)) handler_ 1 lineptr in
  let lineptr := lineptr + 1 in
  let? handler_ := DefineFile handler_ [] 0 0 0 0 in
  let? (handler_, lineptr) := files_loop (S (length mem)) sections reader_ handler_ 1 lineptr in
  Ok (handler_, lineptr + 1).

Definition kMaxTypesAndForms : Z := 5.

Definition read_tables_5 (sections : LineSections) (reader_ : ByteReader) (handler_ : H) (lineptr : Z) :
    outcome (H * Z) :=
  let? (columns, lineptr) := ReadTypesAndForms reader_ lineptr kMaxTypesAndForms None in
  let? (entry_count, len) := ReadUnsignedLEB128 mem reader_ lineptr in
  let lineptr := lineptr + len in
  let? (handler_, lineptr) :=
    read_dirs sections reader_ handler_ columns (Z.to_nat (wrap 32 entry_count)) 0 lineptr in
  let? (columns, lineptr) := ReadTypesAndForms reader_ lineptr kMaxTypesAndForms columns in
  let? (entry_count, len) := ReadUnsignedLEB128 mem reader_ lineptr in
  let lineptr := lineptr + len in
  read_files sections reader_ handler_ columns (Z.to_nat (wrap 32 entry_count)) 0 lineptr.

(** The header, the reader with its sizes, the handler and [after_header_]. *)
Definition ReadHeader (sections : LineSections) (reader_ : ByteReader) (handler_ : H) :
    outcome (LineInfoHeader * ByteReader * H * Z) :=
  let lineptr := buffer_ sections in
  let? (initial_length, initial_length_size, reader_) := ReadInitialLength mem reader_ lineptr in
  let lineptr := lineptr + initial_length_size in
  let total_length := initial_length in
  if buffer_length_ sections <? initial_length_size + total_length then Undef
  else
    let? version := ReadTwoBytes mem reader_ lineptr in
    let lineptr := lineptr + 2 in
    let? (reader_, lineptr) :=
      if 5 <=? version then
        let? address_size := ReadOneByte mem reader_ lineptr in
        let? reader_ := SetAddressSize reader_ address_size in
        let lineptr := lineptr + 1 in
        let? segment_selector_size := ReadOneByte mem reader_ lineptr in
        Ok (reader_, lineptr + 1)
      else if AddressSize reader_ =? 0 then Undef else Ok (reader_, lineptr) in
    let? prologue_length := ReadOffset mem reader_ lineptr in
    let lineptr := lineptr + OffsetSize reader_ in
    let? min_insn_length := ReadOneByte mem reader_ lineptr in
    let lineptr := lineptr + 1 in
    let? lineptr :=
      if 4 <=? version then
        let? max_ops_per_insn := ReadOneByte mem reader_ lineptr in
        if max_ops_per_insn =? 1 then Ok (lineptr + 1) else Undef
      else Ok lineptr in
    let? default_is_stmt := ReadOneByte mem reader_ lineptr in
    let lineptr := lineptr + 1 in
    let? line_base := byte mem lineptr in
    let lineptr := lineptr + 1 in
    let? line_range := ReadOneByte mem reader_ lineptr in
    let lineptr := lineptr + 1 in
    let? opcode_base := ReadOneByte mem reader_ lineptr in
    let lineptr := lineptr + 1 in
    let count := Z.to_nat (opcode_base - 1) in
    let? lengths := read_opcode_lengths reader_ count lineptr in
    let lineptr := lineptr + Z.of_nat count in
    let std_opcode_lengths := resize (Z.to_nat (opcode_base + 1)) 0 (0 :: lengths) in
    let header_ := mkLineInfoHeader total_length version prologue_length min_insn_length
      (negb (default_is_stmt =? 0)) (swrap 8 line_base) line_range opcode_base (Some std_opcode_lengths) in
    let? (handler_, lineptr) :=
      if version <=? 4 then read_tables_4 sections reader_ handler_ lineptr
      else read_tables_5 sections reader_ handler_ lineptr in
    Ok (header_, reader_, handler_, lineptr).

(** ** The program *)

(** What [ProcessOneOpcode] returns and leaves: the result, the state machine,
    [*len], [*lsm_passes_pc] ([None] for a NULL pointer) and the handler. *)
Record Processed : Type := mkProcessed {
  add_row : bool;
  lsm_after : LineStateMachine;
  oplen_after : Z;
  passes_after : option bool;
  handler_after : option H;
}.

(** [if (lsm_passes_pc && passed) *lsm_passes_pc = true] *)
Definition check_passes (lsm_passes_pc : option bool) (passed : bool) : option bool :=
  match lsm_passes_pc with
  | Some passes => Some (passes || passed)
  | None => None
  end.

(** [lsm->address <= pc && pc < lsm->address + advance_address] *)
Definition passes (lsm : LineStateMachine) (pc advance_address : Z) : bool :=
  (address lsm <=? pc) && (pc <? wrap 64 (address lsm + advance_address)).

(** [opcode / line_range] and [opcode % line_range]. *)
Definition divided (opcode line_range : Z) : outcome (Z * Z) :=
  if line_range =? 0 then Undef else Ok (opcode / line_range, opcode mod line_range).

(** The numbers an unknown opcode is followed by: [templen] for each. *)
Fixpoint skip_operands (reader : ByteReader) (n : nat) (start oplen : Z) : outcome Z :=
  match n with
  | O => Ok oplen
  | S n =>
      let? (_, templen) := ReadUnsignedLEB128 mem reader start in
      skip_operands reader n (start + templen) (oplen + templen)
  end.

(** A special opcode. *)
Definition process_special (handler : option H) (header : LineInfoHeader) (opcode : Z)
    (lsm : LineStateMachine) (oplen pc : Z) (lsm_passes_pc : option bool) : outcome Processed :=
  let opcode := opcode - opcode_base header in
  let? (quotient, remainder) := divided opcode (line_range header) in
  let advance_address := quotient * min_insn_length header in
  let advance_line := remainder + line_base header in
  let lsm_passes_pc := check_passes lsm_passes_pc (passes lsm pc advance_address) in
  let lsm := with_address lsm (wrap 64 (address lsm + advance_address)) in
  let lsm := with_line_num lsm (wrap 32 (line_num lsm + advance_line)) in
  let lsm := with_basic_block lsm true in
  Ok (mkProcessed true lsm oplen lsm_passes_pc handler).

(** The case of DW_LNS_extended_op; [start] and [oplen] are those after the
    opcode. *)
Definition process_extended (reader : ByteReader) (handler : option H) (start : Z)
    (lsm : LineStateMachine) (oplen : Z) (lsm_passes_pc : option bool) : outcome Processed :=
  let? (extended_op_len, templen) := ReadUnsignedLEB128 mem reader start in
  let start := start + templen in
  let oplen := wrap 64 (oplen + wrap 64 (templen + extended_op_len)) in
  let? extended_op := ReadOneByte mem reader start in
  let start := start + 1 in
  if extended_op =? DW_LNE_end_sequence then
    Ok (mkProcessed true (with_end_sequence lsm) oplen lsm_passes_pc handler)
  else if extended_op =? DW_LNE_set_address then
    let? address := ReadAddress mem reader start in
    Ok (mkProcessed false (with_address lsm address) oplen lsm_passes_pc handler)
  else if extended_op =? DW_LNE_define_file then
    let? filename := read_cstring mem start in
    let templen := Z.of_nat (length filename) + 1 in
    let start := start + templen in
    let? (dirindex, templen) := ReadUnsignedLEB128 mem reader start in
    let oplen := wrap 64 (oplen + templen) in
    let? (mod_time, templen) := ReadUnsignedLEB128 mem reader start in
    let oplen := wrap 64 (oplen + templen) in
    let? (filelength, templen) := ReadUnsignedLEB128 mem reader start in
    let oplen := wrap 64 (oplen + templen) in
    match handler with
    | Some h =>
        let? h := DefineFile h filename (-1) (wrap 32 dirindex) mod_time filelength in
        Ok (mkProcessed false lsm oplen lsm_passes_pc (Some h))
    | None => Ok (mkProcessed false lsm oplen lsm_passes_pc None)
    end
  else Ok (mkProcessed false lsm oplen lsm_passes_pc handler).

(** The default case. *)
Definition process_unknown (reader : ByteReader) (handler : option H) (header : LineInfoHeader)
    (opcode start : Z) (lsm : LineStateMachine) (oplen : Z) (lsm_passes_pc : option bool) :
    outcome Processed :=
  match std_opcode_lengths header with
  | None => Ok (mkProcessed false lsm oplen lsm_passes_pc handler)
  | Some lengths =>
      let? n := of_option (lengths !! Z.to_nat opcode) in
      let? oplen := skip_operands reader (Z.to_nat n) start oplen in
      Ok (mkProcessed false lsm oplen lsm_passes_pc handler)
  end.

Definition ProcessOneOpcode (reader : ByteReader) (handler : option H) (header : LineInfoHeader)
    (start : Z) (lsm : LineStateMachine) (pc : Z) (lsm_passes_pc : option bool) : outcome Processed :=
  let? opcode := ReadOneByte mem reader start in
  let oplen := 1 in
  let start := start + 1 in
  let finish lsm oplen lsm_passes_pc := Ok (mkProcessed false lsm oplen lsm_passes_pc handler) in
  if opcode_base header <=? opcode then
    process_special handler header opcode lsm oplen pc lsm_passes_pc
  else if opcode =? DW_LNS_copy then
    Ok (mkProcessed true (with_basic_block lsm false) oplen lsm_passes_pc handler)
  else if opcode =? DW_LNS_advance_pc then
    let? (advance_address, templen) := ReadUnsignedLEB128 mem reader start in
    let advance := wrap 64 (min_insn_length header * advance_address) in
    finish (with_address lsm (wrap 64 (address lsm + advance))) (oplen + templen)
      (check_passes lsm_passes_pc (passes lsm pc advance))
  else if opcode =? DW_LNS_advance_line then
    let? (advance_line, templen) := ReadSignedLEB128 mem reader start in
    finish (with_line_num lsm (wrap 32 (line_num lsm + swrap 32 advance_line))) (oplen + templen)
      (check_passes lsm_passes_pc (address lsm =? pc))
  else if opcode =? DW_LNS_set_file then
    let? (fileno, templen) := ReadUnsignedLEB128 mem reader start in
    finish (with_file_num lsm (wrap 32 fileno)) (oplen + templen) lsm_passes_pc
  else if opcode =? DW_LNS_set_column then
    let? (colno, templen) := ReadUnsignedLEB128 mem reader start in
    finish (with_column_num lsm (wrap 32 colno)) (oplen + templen) lsm_passes_pc
  else if opcode =? DW_LNS_negate_stmt then
    finish (with_is_stmt lsm (negb (is_stmt lsm))) oplen lsm_passes_pc
  else if opcode =? DW_LNS_set_basic_block then
    finish (with_basic_block lsm true) oplen lsm_passes_pc
  else if opcode =? DW_LNS_fixed_advance_pc then
    let? advance_address := ReadTwoBytes mem reader start in
    finish (with_address lsm (wrap 64 (address lsm + advance_address))) (oplen + 2)
      (check_passes lsm_passes_pc (passes lsm pc advance_address))
  else if opcode =? DW_LNS_const_add_pc then
    let? (quotient, _) := divided (255 - opcode_base header) (line_range header) in
    let advance_address := min_insn_length header * quotient in
    finish (with_address lsm (wrap 64 (address lsm + advance_address))) oplen
      (check_passes lsm_passes_pc (passes lsm pc advance_address))
  else if opcode =? DW_LNS_extended_op then process_extended reader handler start lsm oplen lsm_passes_pc
  else process_unknown reader handler header opcode start lsm oplen lsm_passes_pc.

(** The variables of [ReadLines] that belong to the line it has not reported;
    [None] for [!have_pending_line]. *)
Record PendingLine : Type := mkPendingLine {
  pending_address : Z;
  pending_file_num : Z;
  pending_line_num : Z;
  pending_column_num : Z;
}.

Definition pending_of (lsm : LineStateMachine) : PendingLine :=
  mkPendingLine (address lsm) (file_num lsm) (line_num lsm) (column_num lsm).

Definition add_pending (handler_ : H) (pending : option PendingLine) (lsm : LineStateMachine) : outcome H :=
  match pending with
  | Some p =>
      AddLine handler_ (pending_address p) (wrap 64 (address lsm - pending_address p))
        (pending_file_num p) (pending_line_num p) (pending_column_num p)
  | None => Ok handler_
  end.

Fixpoint ReadLines_loop (fuel : nat) (reader_ : ByteReader) (header_ : LineInfoHeader) (end_ : Z)
    (handler_ : H) (lineptr : Z) (lsm : LineStateMachine) (pending : option PendingLine) : outcome H :=
  match fuel with
  | O => Undef
  | S fuel =>
      if end_ <=? lineptr then Ok handler_
      else
        let? p := ProcessOneOpcode reader_ (Some handler_) header_ lineptr lsm (2 ^ 64 - 1) None in
        let? handler_ := of_option (handler_after p) in
        let lsm := lsm_after p in
        let? (handler_, lsm, pending) :=
          if add_row p then
            let? handler_ := add_pending handler_ pending lsm in
            if end_sequence lsm then Ok (handler_, Reset (default_is_stmt header_), None)
            else Ok (handler_, lsm, Some (pending_of lsm))
          else Ok (handler_, lsm, pending) in
        let? lineptr := moved (lineptr + oplen_after p) in
        ReadLines_loop fuel reader_ header_ end_ handler_ lineptr lsm pending
  end.

(** The handler and the new [after_header_]. *)
Definition ReadLines (sections : LineSections) (reader_ : ByteReader) (header_ : LineInfoHeader)
    (handler_ : H) (after_header_ : Z) : outcome (H * Z) :=
  let lengthstart := buffer_ sections + (if OffsetSize reader_ =? 8 then 12 else 4) in
  let end_ := lengthstart + total_length header_ in
  let? handler_ := ReadLines_loop (S (length mem)) reader_ header_ end_ handler_ after_header_
    (Reset (default_is_stmt header_)) None in
  Ok (handler_, end_).

(** The result, the handler and the reader. *)
Definition Start (sections : LineSections) (reader_ : ByteReader) (handler_ : H) :
    outcome (Z * H * ByteReader) :=
  let? (header_, reader_, handler_, after_header_) := ReadHeader sections reader_ handler_ in
  let? (handler_, after_header_) := ReadLines sections reader_ header_ handler_ after_header_ in
  Ok (after_header_ - buffer_ sections, handler_, reader_).
End reader.
