(* ===== verification/DwarfLineSpec.v ===== *)
(** * The line number table

    What a line number program means, and the proof that [LineInfo] tells it to
    its handler.  A program is a list of operations on a row of the table (DWARF
    5, section 6.2.5), a table a list of rows divided into sequences, and a line
    ends where the next row of its sequence begins.  The layout of a unit of the
    .debug_line section is a relation between its bytes and the calls it stands
    for; [Start] makes these calls, whatever the handler does with them. *)

From S2P Require Import Prelude Memory LibcSupport SimpleSerializer Tokens CStrings ByteReader DwarfFields DwarfLine.
#[local] Open Scope Z_scope.

(** ** The calls to a handler *)

Inductive LineCall : Type :=
| call_dir (name : chars) (dir_num : Z)
| call_file (name : chars) (file_num dir_num mod_time length : Z)
| call_line (address length file_num line_num column_num : Z).

Section calls.
Context {H : Type} `{!LineInfoHandler H}.

Definition call (h : H) (c : LineCall) : outcome H :=
  match c with
  | call_dir name dir_num => DefineDir h name dir_num
  | call_file name file_num dir_num mod_time length => DefineFile h name file_num dir_num mod_time length
  | call_line address length file_num line_num column_num =>
      AddLine h address length file_num line_num column_num
  end.

Fixpoint tell (h : H) (cs : list LineCall) : outcome H :=
  match cs with
  | [] => Ok h
  | c :: cs => let? h := call h c in tell h cs
  end.

Lemma tell_app h cs1 cs2 : tell h (cs1 ++ cs2) = let? h := tell h cs1 in tell h cs2.
Proof. revert h. induction cs1 as [|c cs1 IH]; intros h; cbn; [done|]. destruct (call h c); [apply IH|done]. Qed.
End calls.

(** ** Programs and tables *)

(** The parameters of a program. *)
Record line_params : Type := mkParams {
  min_length : Z;
  base : Z;
  range : Z;
  first_special : Z;
  operands : list Z;
}.

(** The columns of the table [LineInfo] reports. *)
Record Row : Type := mkRow {
  row_address : Z;
  row_file : Z;
  row_line : Z;
  row_column : Z;
}.

Definition first_row : Row := mkRow 0 1 1 0.

(** [op_nop] is an operation on the other columns. *)
Inductive line_op : Type :=
| op_special (adjusted : Z)
| op_copy
| op_advance_pc (n : Z)
| op_advance_line (n : Z)
| op_set_file (n : Z)
| op_set_column (n : Z)
| op_const_add_pc
| op_fixed_advance_pc (n : Z)
| op_set_address (address : Z)
| op_end_sequence
| op_nop.

(** A row of the table, or the address behind a sequence. *)
Inductive entry : Type :=
| entry_row (r : Row)
| entry_end (address : Z).

Definition entry_address (e : entry) : Z :=
  match e with entry_row r => row_address r | entry_end address => address end.

Definition advance (r : Row) (bytes : Z) : Row :=
  mkRow (wrap 64 (row_address r + bytes)) (row_file r) (row_line r) (row_column r).
Definition advance_line (r : Row) (lines : Z) : Row :=
  mkRow (row_address r) (row_file r) (wrap 32 (row_line r + lines)) (row_column r).

(** The row after an operation and the entry it adds to the table. *)
Definition exec (ps : line_params) (op : line_op) (r : Row) : Row * option entry :=
  match op with
  | op_special adjusted =>
      let r := advance_line (advance r (min_length ps * (adjusted / range ps)))
                 (base ps + adjusted mod range ps) in
      (r, Some (entry_row r))
  | op_copy => (r, Some (entry_row r))
  | op_advance_pc n => (advance r (min_length ps * n), None)
  | op_advance_line n => (advance_line r n, None)
  | op_set_file n => (mkRow (row_address r) (wrap 32 n) (row_line r) (row_column r), None)
  | op_set_column n => (mkRow (row_address r) (row_file r) (row_line r) (wrap 32 n), None)
  | op_const_add_pc => (advance r (min_length ps * ((255 - first_special ps) / range ps)), None)
  | op_fixed_advance_pc n => (advance r n, None)
  | op_set_address address => (mkRow address (row_file r) (row_line r) (row_column r), None)
  | op_end_sequence => (first_row, Some (entry_end (row_address r)))
  | op_nop => (r, None)
  end.

Lemma exec_row ps op r row row' : exec ps op r = (row, Some (entry_row row')) -> row' = row.
Proof. destruct op; cbn; congruence. Qed.

Lemma exec_end ps op r row a : exec ps op r = (row, Some (entry_end a)) -> row = first_row.
Proof. destruct op; cbn; congruence. Qed.

Fixpoint table (ps : line_params) (ops : list line_op) (r : Row) : list entry :=
  match ops with
  | [] => []
  | op :: ops =>
      let '(r, e) := exec ps op r in
      match e with Some e => [e] | None => [] end ++ table ps ops r
  end.

(** The line of a row goes up to the next entry. *)
Definition line_to (r : Row) (e : entry) : LineCall :=
  call_line (row_address r) (wrap 64 (entry_address e - row_address r)) (row_file r) (row_line r) (row_column r).

Fixpoint lines_of (es : list entry) : list LineCall :=
  match es with
  | entry_row r :: (e :: _) as es => line_to r e :: lines_of es
  | _ :: es => lines_of es
  | [] => []
  end.

(** ** The layout of a program *)

(** [n] unsigned numbers. *)
Fixpoint ulebs (n : nat) (bs : byte_list) : Prop :=
  match n with
  | O => bs = []
  | S n => exists b1 v b2, uleb b1 v /\ ulebs n b2 /\ bs = b1 ++ b2
  end.

Section program.
Context (ps : line_params) (endian : Endianness) (address_size : Z).

(** An operation with a standard opcode. *)
Definition standard (opcode : Z) : Prop := 0 <= opcode < first_special ps.

(** What follows the length of an extended operation. *)
Inductive extended_body : byte_list -> line_op -> Prop :=
| end_sequence_bytes rest : extended_body (DW_LNE_end_sequence :: rest) op_end_sequence
| set_address_bytes address rest :
    uint (8 * address_size) address ->
    extended_body (DW_LNE_set_address :: bytes_of endian (Z.to_nat address_size) address ++ rest)
      (op_set_address address)
| other_extended_bytes extended_op rest :
    extended_op <> DW_LNE_end_sequence -> extended_op <> DW_LNE_set_address ->
    extended_op <> DW_LNE_define_file -> extended_body (extended_op :: rest) op_nop.

Inductive op_bytes : byte_list -> line_op -> Prop :=
| special_bytes adjusted :
    0 <= adjusted -> first_special ps + adjusted < 256 -> range ps <> 0 ->
    op_bytes [first_special ps + adjusted] (op_special adjusted)
| copy_bytes : standard DW_LNS_copy -> op_bytes [DW_LNS_copy] op_copy
| advance_pc_bytes bs n :
    standard DW_LNS_advance_pc -> uleb bs n -> op_bytes (DW_LNS_advance_pc :: bs) (op_advance_pc n)
| advance_line_bytes bs n :
    standard DW_LNS_advance_line -> sleb bs n -> op_bytes (DW_LNS_advance_line :: bs) (op_advance_line n)
| set_file_bytes bs n :
    standard DW_LNS_set_file -> uleb bs n -> op_bytes (DW_LNS_set_file :: bs) (op_set_file n)
| set_column_bytes bs n :
    standard DW_LNS_set_column -> uleb bs n -> op_bytes (DW_LNS_set_column :: bs) (op_set_column n)
| negate_stmt_bytes : standard DW_LNS_negate_stmt -> op_bytes [DW_LNS_negate_stmt] op_nop
| set_basic_block_bytes : standard DW_LNS_set_basic_block -> op_bytes [DW_LNS_set_basic_block] op_nop
| const_add_pc_bytes :
    standard DW_LNS_const_add_pc -> range ps <> 0 -> op_bytes [DW_LNS_const_add_pc] op_const_add_pc
| fixed_advance_pc_bytes n :
    standard DW_LNS_fixed_advance_pc -> uint 16 n ->
    op_bytes (DW_LNS_fixed_advance_pc :: bytes_of endian 2 n) (op_fixed_advance_pc n)
| other_standard_bytes opcode n bs :
    DW_LNS_fixed_advance_pc < opcode -> standard opcode ->
    operands ps !! Z.to_nat (opcode - 1) = Some n -> ulebs (Z.to_nat n) bs ->
    op_bytes (opcode :: bs) op_nop
| extended_bytes len body op :
    standard DW_LNS_extended_op -> uleb len (Z.of_nat (length body)) -> extended_body body op ->
    op_bytes (DW_LNS_extended_op :: len ++ body) op.

Inductive program_bytes : byte_list -> list line_op -> Prop :=
| no_program : program_bytes [] []
| a_program bs1 op bs2 ops :
    op_bytes bs1 op -> program_bytes bs2 ops -> program_bytes (bs1 ++ bs2) (op :: ops).
End program.

(** The columns of the machine and of the header of the code. *)
Definition row_of (lsm : LineStateMachine) : Row :=
  mkRow (address lsm) (file_num lsm) (line_num lsm) (column_num lsm).

Definition has_params (header : LineInfoHeader) (ps : line_params) : Prop :=
  min_insn_length header = min_length ps /\ line_base header = base ps /\ line_range header = range ps /\
  opcode_base header = first_special ps /\
  exists lengths, std_opcode_lengths header = Some lengths /\
    forall opcode n, 1 <= opcode < first_special ps -> operands ps !! Z.to_nat (opcode - 1) = Some n ->
      lengths !! Z.to_nat opcode = Some n.

Section opcodes.
Context (mem : byte_list) {H : Type} `{!LineInfoHandler H}.
Context (ps : line_params) (header : LineInfoHeader) (r : ByteReader) (address_size : Z).
Hypothesis Hparams : has_params header ps.
Hypothesis Hsize : has_address_size r address_size.

Implicit Types (h : H) (c : Z) (lsm : LineStateMachine).

(** What [ProcessOneOpcode] leaves after an operation of [n] bytes. *)
Definition processes h c lsm (n : nat) (op : line_op) : Prop :=
  exists p,
    ProcessOneOpcode mem r (Some h) header c lsm (2 ^ 64 - 1) None = Ok p /\
    handler_after p = Some h /\ oplen_after p = Z.of_nat n /\
    let '(row, e) := exec ps op (row_of lsm) in
    match e with
    | Some (entry_row _) => add_row p = true /\ end_sequence (lsm_after p) = false /\ row_of (lsm_after p) = row
    | Some (entry_end a) => add_row p = true /\ end_sequence (lsm_after p) = true /\ address (lsm_after p) = a
    | None => add_row p = false /\ end_sequence (lsm_after p) = false /\ row_of (lsm_after p) = row
    end.

Lemma skip_operands_spec n : forall bs c oplen,
  ulebs n bs -> holds mem c bs -> skip_operands mem r n c oplen = Ok (oplen + Z.of_nat (length bs)).
Proof.
  induction n as [|n IH]; intros bs c oplen; cbn [ulebs skip_operands].
  - intros -> _. by rewrite Z.add_0_r.
  - intros (b1 & v & b2 & Hb1 & Hb2 & ->) [Hh1 Hh2]%holds_app.
    rewrite (uleb_read mem b1 v c r Hb1 Hh1). cbn [obind]. rewrite (IH b2) by done. f_equal.
    rewrite length_app. lia.
Qed.

Lemma process_extended_spec h c lsm len body op :
  uleb len (Z.of_nat (length body)) -> extended_body (endian_ r) address_size body op ->
  holds mem c (DW_LNS_extended_op :: len ++ body) -> standard ps DW_LNS_extended_op ->
  Z.of_nat (length mem) < 2 ^ 64 -> end_sequence lsm = false ->
  processes h c lsm (length (DW_LNS_extended_op :: len ++ body)) op.
Proof.
  intros Hlen Hbody Hh Hstd Hmem Hend. destruct Hparams as (_ & _ & _ & Ebase & _).
  pose proof (byte_0 _ _ _ _ Hh) as E0. pose proof Hh as [Hh1 Hh2]%holds_tail%holds_app.
  assert (wrap 64 (1 + wrap 64 (Z.of_nat (length len) + Z.of_nat (length body))) =
          Z.of_nat (length (DW_LNS_extended_op :: len ++ body))) as Eop.
  { destruct Hh as (Hc & Hl & _). cbn [length] in Hl |- *. rewrite length_app in *.
    rewrite wrap_add_r, wrap_small; unfold uint; lia. }
  unfold processes, ProcessOneOpcode, ReadOneByte. rewrite E0. cbn [obind].
  rewrite (proj2 (Z.leb_gt _ _)) by (rewrite Ebase; apply Hstd). cbn [Z.eqb DW_LNS_extended_op].
  unfold process_extended. rewrite (uleb_read mem len _ _ r Hlen Hh1). cbn [obind].
  rewrite Eop. unfold ReadOneByte.
  destruct Hbody as [rest|address rest Ha|extended_op rest H1 H2 H3];
    rewrite (byte_0 _ _ _ _ Hh2); cbn [obind].
  - eexists. by repeat split.
  - change (DW_LNE_set_address =? DW_LNE_end_sequence) with false. rewrite Z.eqb_refl. cbv iota.
    apply holds_tail, holds_app in Hh2 as [Hh2 _].
    rewrite (ReadAddress_of mem r address_size _ _ Hsize Ha Hh2). cbn [obind]. eexists. by repeat split.
  - rewrite (proj2 (Z.eqb_neq _ _) H1), (proj2 (Z.eqb_neq _ _) H2), (proj2 (Z.eqb_neq _ _) H3).
    eexists. by repeat split.
Qed.

Lemma ProcessOneOpcode_spec h c lsm bs op :
  op_bytes ps (endian_ r) address_size bs op -> holds mem c bs -> Z.of_nat (length mem) < 2 ^ 64 ->
  end_sequence lsm = false -> processes h c lsm (length bs) op.
Proof.
  intros Hop Hh Hmem Hend. destruct Hop as [adj H1 H2 H3|Hs|bs n Hs Hb|bs n Hs Hb|bs n Hs Hb|bs n Hs Hb
    |Hs|Hs|Hs H3|n Hs Hb|opcode n bs H1 Hs Hn Hb|len body op Hs Hlen Hbody];
    [..|by apply process_extended_spec].
  all: pose proof (byte_0 _ _ _ _ Hh) as E0; pose proof (holds_tail _ _ _ _ Hh) as Hh';
    destruct Hparams as (Emin & Elb & Elr & Ebase & lengths & Elen & Hlen);
    unfold processes, ProcessOneOpcode, ReadOneByte; rewrite E0; cbn [obind].
  all: try (rewrite (proj2 (Z.leb_gt _ _)) by (rewrite Ebase; apply Hs)).
  all: rewrite ?(uleb_read mem bs n _ r Hb Hh'), ?(sleb_read mem bs n _ r Hb Hh').
  - rewrite (proj2 (Z.leb_le _ _)) by lia. unfold process_special, divided.
    rewrite Elr, Ebase, Elb, Emin, (proj2 (Z.eqb_neq _ _)) by done. cbn [obind].
    eexists. split; [done|]. cbn. replace (first_special ps + adj - first_special ps) with adj by lia.
    repeat split; [done|]. unfold row_of, advance_line, advance. cbn. f_equal; f_equal; lia.
  - eexists. by repeat split.
  - eexists. split; [done|]. rewrite Emin. cbn. repeat split; [lia|done|].
    unfold row_of, advance. cbn. by rewrite wrap_add_r.
  - eexists. split; [done|]. cbn. repeat split; [lia|done|].
    unfold row_of, advance_line. cbn. f_equal.
    rewrite <- (wrap_add_r 32 (line_num lsm) n), <- (wrap_add_r 32 _ (swrap 32 n)). f_equal. f_equal.
    unfold wrap, swrap. rewrite Zminus_mod_idemp_l. f_equal. lia.
  - eexists. split; [done|]. cbn. repeat split; [lia|done].
  - eexists. split; [done|]. cbn. repeat split; [lia|done].
  - eexists. by repeat split.
  - eexists. by repeat split.
  - unfold divided. rewrite Elr, (proj2 (Z.eqb_neq (range ps) 0) H3). cbn [obind]. rewrite Ebase, Emin.
    eexists. by repeat split.
  - rewrite (ReadTwoBytes_of mem r _ n Hb Hh'). eexists. split; [done|]. cbn [length].
    rewrite (proj2 (bytes_of_ok _ _ _)). cbn. by repeat split.
  - unfold process_unknown. rewrite Elen.
    destruct Hs as [H2 H3]. unfold DW_LNS_fixed_advance_pc in H1.
    do 10 (rewrite (proj2 (Z.eqb_neq opcode _)) by
      (unfold DW_LNS_copy, DW_LNS_advance_pc, DW_LNS_advance_line, DW_LNS_set_file, DW_LNS_set_column,
        DW_LNS_negate_stmt, DW_LNS_set_basic_block, DW_LNS_const_add_pc, DW_LNS_fixed_advance_pc,
        DW_LNS_extended_op; lia)).
    rewrite (Hlen opcode n) by (lia || done). cbn [of_option obind].
    rewrite (skip_operands_spec _ bs) by done. cbn [obind]. eexists. split; [done|]. cbn.
    repeat split; [lia|done].
Qed.
End opcodes.

Lemma op_bytes_length ps endian address_size bs op : op_bytes ps endian address_size bs op -> (1 <= length bs)%nat.
Proof. destruct 1; cbn [length]; lia. Qed.

(** ** ReadLines *)

Definition pending_row (pending : option PendingLine) : list entry :=
  match pending with
  | Some p => [entry_row (mkRow (pending_address p) (pending_file_num p) (pending_line_num p) (pending_column_num p))]
  | None => []
  end.

Section lines.
Context (mem : byte_list) {H : Type} `{!LineInfoHandler H}.
Context (ps : line_params) (header : LineInfoHeader) (r : ByteReader) (address_size : Z).
Hypothesis Hparams : has_params header ps.
Hypothesis Hsize : has_address_size r address_size.
Hypothesis Hmem : Z.of_nat (length mem) < 2 ^ 64.

Lemma add_pending_spec (h : H) pending lsm e es :
  entry_address e = address lsm ->
  tell h (lines_of (pending_row pending ++ e :: es)) =
    let? h := add_pending h pending lsm in tell h (lines_of (e :: es)).
Proof. intros E. destruct pending as [p|]; [|done]. unfold add_pending. by rewrite <- E. Qed.

Lemma ReadLines_loop_spec bs ops :
  program_bytes ps (endian_ r) address_size bs ops -> forall fuel (h : H) c lsm pending,
  holds mem c bs -> (length bs < fuel)%nat -> end_sequence lsm = false ->
  ReadLines_loop mem fuel r header (c + Z.of_nat (length bs)) h c lsm pending =
    tell h (lines_of (pending_row pending ++ table ps ops (row_of lsm))).
Proof.
  induction 1 as [|bs1 op bs2 ops Hop _ IH]; intros [|fuel] h c lsm pending Hh Hf Hend; try (cbn in Hf; lia);
    cbn [ReadLines_loop].
  - rewrite (proj2 (Z.leb_le _ _)) by (cbn; lia). cbn [table]. rewrite app_nil_r. by destruct pending.
  - pose proof (op_bytes_length _ _ _ _ _ Hop) as Hl1. rewrite length_app in Hf |- *.
    rewrite (proj2 (Z.leb_gt _ _)) by lia. pose proof Hh as (Hc & Hcl & _). rewrite length_app in Hcl.
    apply holds_app in Hh as [Hh1 Hh2].
    destruct (ProcessOneOpcode_spec mem ps header r address_size Hparams Hsize h c lsm bs1 op Hop Hh1 Hmem Hend)
      as (p & -> & Eh & Eo & Ep). cbn [obind of_option]. rewrite Eh. cbn [obind of_option]. rewrite Eo.
    assert (moved mem (c + Z.of_nat (length bs1)) = Ok (c + Z.of_nat (length bs1))) as Emoved.
    { unfold moved. rewrite !(proj2 (Z.leb_le _ _)) by lia. done. }
    rewrite Nat2Z.inj_add, Z.add_assoc. cbn [table]. destruct (exec ps op (row_of lsm)) as [row [[row'|a]|]] eqn:Ex.
    + apply exec_row in Ex as ->. destruct Ep as (-> & Ee & <-).
      cbn [app]. rewrite (add_pending_spec h pending (lsm_after p)) by done.
      destruct (add_pending h pending (lsm_after p)) as [h'|]; [|done]. cbn [obind]. rewrite Ee, Emoved.
      cbn [obind]. by rewrite (IH fuel h') by (done || lia).
    + apply exec_end in Ex as ->. destruct Ep as (-> & Ee & Ea).
      cbn [app]. rewrite (add_pending_spec h pending (lsm_after p)) by done.
      destruct (add_pending h pending (lsm_after p)) as [h'|]; [|done]. cbn [obind]. rewrite Ee, Emoved.
      cbn [obind]. by rewrite (IH fuel h') by (done || lia).
    + destruct Ep as (-> & Ee & <-). cbn [obind app]. rewrite Emoved. cbn [obind].
      by rewrite (IH fuel h) by (done || lia).
Qed.
End lines.

(** ** The layout of the tables *)

Section tables.
Context (mem : byte_list) (sections : LineSections) (endian : Endianness) (offset_size : Z).

(** The directories and files of the versions up to 4, from number [i] on. *)
Inductive dirs_4 : Z -> byte_list -> list LineCall -> Prop :=
| no_dirs_4 i : dirs_4 i [0] []
| a_dir_4 i name bs cs :
    name <> [] -> no_nul name -> dirs_4 (i + 1) bs cs ->
    dirs_4 i (name ++ 0 :: bs) (call_dir name (wrap 32 i) :: cs).

Inductive files_4 : Z -> byte_list -> list LineCall -> Prop :=
| no_files_4 i : files_4 i [0] []
| a_file_4 i name dir_bs dir time_bs time length_bs len bs cs :
    name <> [] -> no_nul name -> uleb dir_bs dir -> uleb time_bs time -> uleb length_bs len ->
    files_4 (i + 1) bs cs ->
    files_4 i (name ++ 0 :: dir_bs ++ time_bs ++ length_bs ++ bs)
      (call_file name (swrap 32 i) (wrap 32 dir) time len :: cs).

Inductive tables_4 : byte_list -> list LineCall -> Prop :=
| the_tables_4 dirs_bs dirs files_bs files :
    dirs_4 1 dirs_bs dirs -> files_4 1 files_bs files ->
    tables_4 (dirs_bs ++ files_bs) (call_dir [] 0 :: dirs ++ call_file [] 0 0 0 0 :: files).

(** A string at an offset of a section. *)
Definition string_at_offset (section : option Z) (section_length offset : Z) (name : chars) : Prop :=
  exists start, section = Some start /\ offset < section_length /\ no_nul name /\
    holds mem (start + offset) (name ++ [0]).

Inductive string_form : Z -> byte_list -> chars -> Prop :=
| form_string name : no_nul name -> string_form DW_FORM_string (name ++ [0]) name
| form_strp offset name :
    uint (8 * offset_size) offset ->
    string_at_offset (string_buffer_ sections) (string_buffer_length_ sections) offset name ->
    string_form DW_FORM_strp (bytes_of endian (Z.to_nat offset_size) offset) name
| form_line_strp offset name :
    uint (8 * offset_size) offset ->
    string_at_offset (line_string_buffer_ sections) (line_string_buffer_length_ sections) offset name ->
    string_form DW_FORM_line_strp (bytes_of endian (Z.to_nat offset_size) offset) name.

Inductive data_form : Z -> byte_list -> Z -> Prop :=
| form_data1 v : uint 8 v -> data_form DW_FORM_data1 [v] v
| form_data2 v : uint 16 v -> data_form DW_FORM_data2 (bytes_of endian 2 v) v
| form_data4 v : uint 32 v -> data_form DW_FORM_data4 (bytes_of endian 4 v) v
| form_data8 v : uint 64 v -> data_form DW_FORM_data8 (bytes_of endian 8 v) v
| form_udata bs v : uleb bs v -> data_form DW_FORM_udata bs v.

(** The types and forms of the columns of a table. *)
Inductive columns_bytes : list (Z * Z) -> byte_list -> Prop :=
| no_columns : columns_bytes [] []
| a_column type_bs type form_bs form columns bs :
    uleb type_bs type -> uint 32 type -> uleb form_bs form -> uint 32 form -> columns_bytes columns bs ->
    columns_bytes ((type, form) :: columns) (type_bs ++ form_bs ++ bs).

Definition format_bytes (columns : list (Z * Z)) (bs : byte_list) : Prop :=
  exists count_bs columns_bs, 1 <= Z.of_nat (length columns) <= kMaxTypesAndForms /\
    uleb count_bs (Z.of_nat (length columns)) /\ columns_bytes columns columns_bs /\ bs = count_bs ++ columns_bs.

(** A directory of version 5: only paths are read. *)
Inductive dir_bytes : list (Z * Z) -> option chars -> byte_list -> option chars -> Prop :=
| dir_end name : dir_bytes [] name [] name
| dir_path form columns name0 form_bs name1 bs name :
    string_form form form_bs name1 -> dir_bytes columns (Some name1) bs name ->
    dir_bytes ((DW_LNCT_path, form) :: columns) name0 (form_bs ++ bs) name.

Inductive dirs_5 (columns : list (Z * Z)) : nat -> Z -> byte_list -> list LineCall -> Prop :=
| no_dirs_5 i : dirs_5 columns 0 i [] []
| a_dir_5 n i name bs1 bs2 cs :
    dir_bytes columns None bs1 (Some name) -> dirs_5 columns n (i + 1) bs2 cs ->
    dirs_5 columns (S n) i (bs1 ++ bs2) (call_dir name i :: cs).

(** A file of version 5; columns of a type may be repeated. *)
Inductive file_bytes : list (Z * Z) -> FileRow -> byte_list -> FileRow -> Prop :=
| file_end row : file_bytes [] row [] row
| file_path form columns row form_bs name bs row' :
    string_form form form_bs name ->
    file_bytes columns (mkFileRow (Some name) (dirindex row) (mod_time row) (filelength row)) bs row' ->
    file_bytes ((DW_LNCT_path, form) :: columns) row (form_bs ++ bs) row'
| file_dir form columns row form_bs v bs row' :
    data_form form form_bs v ->
    file_bytes columns (mkFileRow (filename row) v (mod_time row) (filelength row)) bs row' ->
    file_bytes ((DW_LNCT_directory_index, form) :: columns) row (form_bs ++ bs) row'
| file_time form columns row form_bs v bs row' :
    data_form form form_bs v ->
    file_bytes columns (mkFileRow (filename row) (dirindex row) v (filelength row)) bs row' ->
    file_bytes ((DW_LNCT_timestamp, form) :: columns) row (form_bs ++ bs) row'
| file_size form columns row form_bs v bs row' :
    data_form form form_bs v ->
    file_bytes columns (mkFileRow (filename row) (dirindex row) (mod_time row) v) bs row' ->
    file_bytes ((DW_LNCT_size, form) :: columns) row (form_bs ++ bs) row'.

Inductive files_5 (columns : list (Z * Z)) : nat -> Z -> byte_list -> list LineCall -> Prop :=
| no_files_5 i : files_5 columns 0 i [] []
| a_file_5 n i name dir time len bs1 bs2 cs :
    file_bytes columns (mkFileRow None 0 0 0) bs1 (mkFileRow (Some name) dir time len) ->
    files_5 columns n (i + 1) bs2 cs ->
    files_5 columns (S n) i (bs1 ++ bs2) (call_file name (swrap 32 i) (wrap 32 dir) time len :: cs).

Inductive tables_5 : byte_list -> list LineCall -> Prop :=
| the_tables_5 dcolumns dformat dcount_bs dcount dirs_bs dirs fcolumns fformat fcount_bs fcount files_bs files :
    format_bytes dcolumns dformat -> uleb dcount_bs (Z.of_nat dcount) -> Z.of_nat dcount < 2 ^ 32 ->
    dirs_5 dcolumns dcount 0 dirs_bs dirs ->
    format_bytes fcolumns fformat -> uleb fcount_bs (Z.of_nat fcount) -> Z.of_nat fcount < 2 ^ 32 ->
    files_5 fcolumns fcount 0 files_bs files ->
    tables_5 (dformat ++ dcount_bs ++ dirs_bs ++ fformat ++ fcount_bs ++ files_bs) (dirs ++ files).
End tables.

(** ** Reading the tables *)

Section headers.
Context (mem : byte_list) (sections : LineSections) {H : Type} `{!LineInfoHandler H}.
Context (r : ByteReader) (offset_size : Z).
Hypothesis Hoffset : has_offset_size r offset_size.

Implicit Types (h : H) (c : Z) (bs : byte_list).

#[local] Abbreviation past c bs := (c + Z.of_nat (length bs)).

Lemma past_app c bs1 bs2 : past (past c bs1) bs2 = past c (bs1 ++ bs2).
Proof. rewrite length_app. lia. Qed.

Lemma dirs_loop_spec i bs cs : dirs_4 i bs cs -> forall fuel h c,
  holds mem c bs -> (length bs <= fuel)%nat ->
  dirs_loop mem fuel h (wrap 32 i) c = let? h := tell h cs in Ok (h, past c bs - 1).
Proof.
  induction 1 as [i|i name bs cs Hne Hn _ IH]; intros [|fuel] h c Hh Hf;
    rewrite ?length_app in Hf; cbn [length] in Hf; try lia; cbn [dirs_loop].
  - rewrite (byte_0 _ _ _ _ Hh). cbn. do 2 f_equal. lia.
  - replace (name ++ 0 :: bs) with ((name ++ [0]) ++ bs) in Hh by by rewrite <- app_assoc.
    pose proof Hh as [Hh1 Hh2]%holds_app. destruct name as [|b name]; [done|].
    rewrite (byte_0 _ _ _ _ Hh1). cbn [obind]. pose proof Hn as Hn'. apply Forall_cons in Hn' as [Hb _].
    rewrite (proj2 (Z.eqb_neq _ _)) by done. rewrite (read_cstring_stored mem c (b :: name)) by done.
    cbn [obind tell call]. destruct (DefineDir h (b :: name) (wrap 32 i)) as [h'|]; [|done]. cbn [obind].
    rewrite wrap_add_l. rewrite length_app in Hh2. cbn [length] in Hh2, Hf. rewrite IH by
      (lia || by replace (c + (Z.of_nat (length (b :: name)) + 1)) with (c + Z.of_nat (S (length name) + 1)) by (cbn; lia)).
    destruct (tell h' cs); [|done]. cbn [obind]. do 2 f_equal. rewrite length_app. cbn [length]. lia.
Qed.

Lemma string_form_spec form bs name c :
  string_form mem sections (endian_ r) offset_size form bs name -> holds mem c bs ->
  ReadStringForm mem sections r form c = Ok (name, past c bs).
Proof.
  intros Hf Hh. unfold ReadStringForm, OffsetSize.
  destruct Hf as [name Hn|offset name Ho (start & Es & Hl & Hn & Hs)|offset name Ho (start & Es & Hl & Hn & Hs)].
  - rewrite Z.eqb_refl, (read_cstring_stored mem c name) by done. cbn [obind]. rewrite length_app. cbn [length].
    do 2 f_equal. lia.
  - change (DW_FORM_strp =? DW_FORM_string) with false. rewrite Z.eqb_refl. cbv iota.
    rewrite (ReadOffset_of mem r offset_size c offset Hoffset Ho Hh). cbn [obind].
    rewrite (proj2 (Z.leb_gt _ _)) by done. rewrite Es, (read_cstring_stored mem _ name) by done. cbn [obind].
    rewrite (proj2 (bytes_of_ok _ _ _)). destruct Hoffset as (? & -> & _). do 2 f_equal. lia.
  - change (DW_FORM_line_strp =? DW_FORM_string) with false.
    change (DW_FORM_line_strp =? DW_FORM_strp) with false. rewrite Z.eqb_refl. cbv iota.
    rewrite (ReadOffset_of mem r offset_size c offset Hoffset Ho Hh). cbn [obind].
    rewrite (proj2 (Z.leb_gt _ _)) by done. rewrite Es, (read_cstring_stored mem _ name) by done. cbn [obind].
    rewrite (proj2 (bytes_of_ok _ _ _)). destruct Hoffset as (? & -> & _). do 2 f_equal. lia.
Qed.

Lemma data_form_spec form bs v c :
  data_form (endian_ r) form bs v -> holds mem c bs -> ReadUnsignedData mem r form c = Ok (v, past c bs).
Proof.
  intros Hf Hh. unfold ReadUnsignedData. destruct Hf as [v Hv|v Hv|v Hv|v Hv|bs v Hv]; cbn [Z.eqb Pos.eqb
    DW_FORM_data1 DW_FORM_data2 DW_FORM_data4 DW_FORM_data8 DW_FORM_udata].
  - unfold ReadOneByte. by rewrite (byte_0 _ _ _ _ Hh).
  - rewrite (ReadTwoBytes_of mem r c v) by done. cbn [obind]. by rewrite (proj2 (bytes_of_ok _ _ _)).
  - rewrite (ReadFourBytes_of mem r c v) by done. cbn [obind]. by rewrite (proj2 (bytes_of_ok _ _ _)).
  - rewrite (ReadEightBytes_of mem r c v) by done. cbn [obind]. by rewrite (proj2 (bytes_of_ok _ _ _)).
  - by rewrite (uleb_read mem bs v c r).
Qed.

Lemma files_loop_spec i bs cs : files_4 i bs cs -> forall fuel h c,
  holds mem c bs -> (length bs <= fuel)%nat ->
  files_loop mem fuel sections r h (wrap 32 i) c = let? h := tell h cs in Ok (h, past c bs - 1).
Proof.
  induction 1 as [i|i name dir_bs dir time_bs time length_bs len bs cs Hne Hn Hd Ht Hl _ IH];
    intros [|fuel] h c Hh Hf; rewrite ?length_app in Hf; cbn [length] in Hf; try lia; cbn [files_loop].
  - rewrite (byte_0 _ _ _ _ Hh). cbn. do 2 f_equal. lia.
  - replace (name ++ 0 :: dir_bs ++ time_bs ++ length_bs ++ bs)
      with ((name ++ [0]) ++ dir_bs ++ time_bs ++ length_bs ++ bs) in Hh |- * by by rewrite <- app_assoc.
    pose proof Hh as [Hh1 [Hh2 [Hh3 [Hh4 Hh5]%holds_app]%holds_app]%holds_app]%holds_app.
    assert (exists b rest, name = b :: rest /\ b <> 0) as (b & rest & E & Hb).
    { destruct name as [|b rest]; [done|]. apply Forall_cons in Hn as [? _]. eauto. }
    assert (byte mem c = Ok b) as ->.
    { rewrite E in Hh1. by apply (byte_0 _ _ b (rest ++ [0])). }
    cbn [obind]. rewrite (proj2 (Z.eqb_neq _ _)) by done.
    rewrite (string_form_spec DW_FORM_string (name ++ [0]) name c) by (done || by constructor). cbn [obind].
    rewrite (uleb_read mem dir_bs dir _ r Hd Hh2). cbn [obind].
    rewrite (uleb_read mem time_bs time _ r Ht Hh3). cbn [obind].
    rewrite (uleb_read mem length_bs len _ r Hl Hh4). cbn [obind tell call].
    assert (swrap 32 (wrap 32 i) = swrap 32 i) as -> by apply swrap_wrap.
    destruct (DefineFile h name (swrap 32 i) (wrap 32 dir) time len) as [h'|]; [|done]. cbn [obind].
    rewrite wrap_add_l, IH by (rewrite ?length_app in Hf; cbn [length] in Hf; done || lia).
    by rewrite !past_app, <- ?app_assoc.
Qed.

Lemma tables_4_spec bs cs h c :
  tables_4 bs cs -> holds mem c bs ->
  read_tables_4 mem sections r h c = let? h := tell h cs in Ok (h, past c bs).
Proof.
  intros [dirs_bs dirs files_bs files Hd Hf] Hh. pose proof Hh as (Hc & Hl & _). rewrite length_app in Hl.
  apply holds_app in Hh as [Hh1 Hh2]. unfold read_tables_4. cbn [tell call].
  destruct (DefineDir h [] 0) as [h1|]; [|done]. cbn [obind].
  rewrite (dirs_loop_spec 1 dirs_bs dirs Hd) by (done || lia). rewrite tell_app.
  destruct (tell h1 dirs) as [h2|]; [|done]. cbn [obind tell call].
  destruct (DefineFile h2 [] 0 0 0 0) as [h3|]; [|done]. cbn [obind].
  replace (past c dirs_bs - 1 + 1) with (past c dirs_bs) by lia.
  rewrite (files_loop_spec 1 files_bs files Hf) by (done || lia).
  destruct (tell h3 files) as [h4|]; [|done]. cbn [obind]. do 2 f_equal. rewrite length_app. lia.
Qed.

Lemma read_columns_spec columns bs c :
  columns_bytes columns bs -> holds mem c bs -> read_columns mem r (length columns) c = Ok (columns, past c bs).
Proof.
  intros Hb. revert c. induction Hb as [|type_bs type form_bs form columns bs Ht Ht32 Hf Hf32 _ IH]; intros c Hh.
  - cbn. by rewrite Z.add_0_r.
  - pose proof Hh as [Hh1 [Hh2 Hh3]%holds_app]%holds_app. cbn [length read_columns].
    rewrite (uleb_read mem type_bs type c r Ht Hh1). cbn [obind].
    rewrite (uleb_read mem form_bs form _ r Hf Hh2). cbn [obind].
    rewrite IH by done. cbn [obind]. by rewrite !wrap_small, !past_app, <- ?app_assoc by done.
Qed.

Lemma ReadTypesAndForms_spec columns bs c before :
  format_bytes columns bs -> holds mem c bs ->
  ReadTypesAndForms mem r c kMaxTypesAndForms before = Ok (Some columns, past c bs).
Proof.
  intros (count_bs & columns_bs & Hl & Hcount & Hcolumns & ->) [Hh1 Hh2]%holds_app. unfold ReadTypesAndForms.
  rewrite (uleb_read mem count_bs _ c r Hcount Hh1). cbn [obind]. unfold kMaxTypesAndForms in *.
  rewrite wrap_small by (unfold uint; lia).
  rewrite (proj2 (Z.ltb_ge _ 1)), (proj2 (Z.ltb_ge 5 _)) by lia. cbn [orb].
  rewrite Nat2Z.id, (read_columns_spec columns columns_bs) by done. cbn [obind]. by rewrite past_app.
Qed.

Lemma read_dir_columns_spec columns before bs name c :
  dir_bytes mem sections (endian_ r) offset_size columns before bs name -> holds mem c bs ->
  read_dir_columns mem sections r columns before c = Ok (name, past c bs).
Proof.
  intros Hd. revert c. induction Hd as [name|form columns name0 form_bs name1 bs name Hf _ IH]; intros c Hh.
  - cbn. by rewrite Z.add_0_r.
  - pose proof Hh as [Hh1 Hh2]%holds_app. cbn [read_dir_columns]. rewrite Z.eqb_refl.
    rewrite (string_form_spec form form_bs name1) by done. cbn [obind]. rewrite IH by done. by rewrite past_app.
Qed.

Lemma read_dirs_spec columns n i bs cs h c :
  dirs_5 mem sections (endian_ r) offset_size columns n i bs cs -> holds mem c bs ->
  read_dirs mem sections r h (Some columns) n i c = let? h := tell h cs in Ok (h, past c bs).
Proof.
  intros Hd. revert h c. induction Hd as [i|n i name bs1 bs2 cs Hb _ IH]; intros h c Hh.
  - cbn. by rewrite Z.add_0_r.
  - pose proof Hh as [Hh1 Hh2]%holds_app. cbn [read_dirs of_option obind].
    rewrite (read_dir_columns_spec columns None bs1 (Some name)) by done. cbn [of_option obind tell call].
    destruct (DefineDir h name i) as [h'|]; [|done]. cbn [obind]. rewrite IH by done. by rewrite past_app.
Qed.

Lemma read_file_columns_spec columns row bs row' c :
  file_bytes mem sections (endian_ r) offset_size columns row bs row' -> holds mem c bs ->
  read_file_columns mem sections r columns row c = Ok (row', past c bs).
Proof.
  intros Hd. revert c.
  induction Hd as [row|form columns row form_bs name bs row' Hf _ IH|form columns row form_bs v bs row' Hf _ IH
    |form columns row form_bs v bs row' Hf _ IH|form columns row form_bs v bs row' Hf _ IH]; intros c Hh;
    [cbn; by rewrite Z.add_0_r|..]; pose proof Hh as [Hh1 Hh2]%holds_app;
    cbn [read_file_columns Z.eqb Pos.eqb DW_LNCT_path DW_LNCT_directory_index DW_LNCT_timestamp DW_LNCT_size];
    rewrite ?(string_form_spec form form_bs name c), ?(data_form_spec form form_bs v c) by done; cbn [obind];
    rewrite IH by done; by rewrite past_app.
Qed.

Lemma read_files_spec columns n i bs cs h c :
  files_5 mem sections (endian_ r) offset_size columns n i bs cs -> holds mem c bs ->
  read_files mem sections r h (Some columns) n i c = let? h := tell h cs in Ok (h, past c bs).
Proof.
  intros Hd. revert h c. induction Hd as [i|n i name dir time len bs1 bs2 cs Hb _ IH]; intros h c Hh.
  - cbn. by rewrite Z.add_0_r.
  - pose proof Hh as [Hh1 Hh2]%holds_app. cbn [read_files of_option obind]. unfold ReadFileRow.
    rewrite (read_file_columns_spec columns _ bs1 _ _ Hb Hh1).
    cbn [of_option obind tell call filename dirindex mod_time filelength].
    destruct (DefineFile h name (swrap 32 i) (wrap 32 dir) time len) as [h'|]; [|done]. cbn [obind].
    rewrite IH by done. by rewrite past_app.
Qed.

Lemma tables_5_spec bs cs h c :
  tables_5 mem sections (endian_ r) offset_size bs cs -> holds mem c bs ->
  read_tables_5 mem sections r h c = let? h := tell h cs in Ok (h, past c bs).
Proof.
  intros [dcolumns dformat dcount_bs dcount dirs_bs dirs fcolumns fformat fcount_bs fcount files_bs files
    Hdf Hdc Hdl Hd Hff Hfc Hfl Hf] Hh.
  pose proof Hh as [Hh1 [Hh2 [Hh3 [Hh4 [Hh5 Hh6]%holds_app]%holds_app]%holds_app]%holds_app]%holds_app.
  unfold read_tables_5. rewrite (ReadTypesAndForms_spec dcolumns dformat) by done. cbn [obind].
  rewrite (uleb_read mem dcount_bs _ _ r Hdc Hh2). cbn [obind].
  rewrite wrap_small, Nat2Z.id by (unfold uint; lia).
  rewrite (read_dirs_spec dcolumns dcount 0 dirs_bs dirs) by done. rewrite tell_app.
  destruct (tell h dirs) as [h'|]; [|done]. cbn [obind].
  rewrite (ReadTypesAndForms_spec fcolumns fformat) by done. cbn [obind].
  rewrite (uleb_read mem fcount_bs _ _ r Hfc Hh5). cbn [obind].
  rewrite wrap_small, Nat2Z.id by (unfold uint; lia).
  rewrite (read_files_spec fcolumns fcount 0 files_bs files) by done.
  by rewrite !past_app, <- ?app_assoc.
Qed.
End headers.

(** ** Units *)

(** The fields of a header between its length and its tables. *)
Definition header_bytes (endian : Endianness) (offset_size version address_size segment_size prologue is_stmt : Z)
    (ps : line_params) : byte_list :=
  bytes_of endian 2 version ++
  (if 5 <=? version then [address_size; segment_size] else []) ++
  bytes_of endian (Z.to_nat offset_size) prologue ++
  [min_length ps] ++
  (if 4 <=? version then [1] else []) ++
  [is_stmt; wrap 8 (base ps); range ps; first_special ps] ++
  operands ps.

Definition tables_bytes (mem : byte_list) (sections : LineSections) (endian : Endianness)
    (offset_size version : Z) (bs : byte_list) (cs : list LineCall) : Prop :=
  if version <=? 4 then tables_4 bs cs else tables_5 mem sections endian offset_size bs cs.

(** The bytes [bs] are a unit that makes the calls [cs]; before version 5 the
    size of addresses is that of the reader.  Not among them are the units with
    the instruction DW_LNE_define_file, which the reader miscounts
    ([define_file_overcounts]), a number of operations per instruction other than
    one, which it asserts, and in version 5 with columns of the directory table
    other than the path, which it does not skip, with MD5 columns of the file
    table, for which it moves the wrong pointer, and with columns or forms that
    it does not know. *)
Definition unit_bytes (mem : byte_list) (sections : LineSections) (r : ByteReader) (bs : byte_list)
    (cs : list LineCall) : Prop :=
  exists len_bytes offset_size version address_size segment_size prologue is_stmt ps tables_bs tables
    program_bs ops,
    let rest := header_bytes (endian_ r) offset_size version address_size segment_size prologue is_stmt ps ++
                tables_bs ++ program_bs in
    initial_length (endian_ r) len_bytes (Z.of_nat (length rest)) offset_size /\
    uint 16 version /\ uint (8 * offset_size) prologue /\
    (if 5 <=? version then address_size = 4 \/ address_size = 8 else has_address_size r address_size) /\
    - 128 <= base ps < 128 /\ first_special ps = 1 + Z.of_nat (length (operands ps)) /\
    tables_bytes mem sections (endian_ r) offset_size version tables_bs tables /\
    program_bytes ps (endian_ r) address_size program_bs ops /\
    bs = len_bytes ++ rest /\ cs = tables ++ lines_of (table ps ops first_row).

Section unit.
Context (mem : byte_list) (sections : LineSections) {H : Type} `{!LineInfoHandler H}.

Implicit Types (h : H) (c : Z) (bs : byte_list).

(** A region that [Hh] says where it is. *)
#[local] Ltac here Hh := eapply holds_eq; [exact Hh|cbn; lia].

Lemma read_opcode_lengths_spec r lengths c :
  holds mem c lengths -> read_opcode_lengths mem r (length lengths) c = Ok lengths.
Proof.
  revert c. induction lengths as [|l ls IH]; intros c Hh; cbn [length read_opcode_lengths]; [done|].
  unfold ReadOneByte. rewrite (byte_0 _ _ _ _ Hh). cbn [obind]. by rewrite IH by by eapply holds_tail.
Qed.

Lemma header_has_params ps total version prologue is_stmt :
  first_special ps = 1 + Z.of_nat (length (operands ps)) ->
  has_params (mkLineInfoHeader total version prologue (min_length ps) is_stmt (base ps) (range ps) (first_special ps)
    (Some (resize (Z.to_nat (first_special ps + 1)) 0 (0 :: operands ps)))) ps.
Proof.
  intros Ef. repeat split. eexists. split; [done|]. intros opcode n Ho Hn.
  rewrite lookup_resize by (cbn; lia). by replace (Z.to_nat opcode) with (S (Z.to_nat (opcode - 1))) by lia.
Qed.

(** The reader after its size of addresses was set, if need be. *)
Lemma address_size_spec r offset_size version address_size segment_size c :
  has_offset_size r offset_size ->
  (if 5 <=? version then address_size = 4 \/ address_size = 8 else has_address_size r address_size) ->
  holds mem c (if 5 <=? version then [address_size; segment_size] else []) ->
  exists r',
    (if 5 <=? version then
       let? address_size := ReadOneByte mem r c in
       let? reader_ := SetAddressSize r address_size in
       let? segment_selector_size := ReadOneByte mem reader_ (c + 1) in
       Ok (reader_, c + 1 + 1)
     else if AddressSize r =? 0 then Undef else Ok (r, c)) =
    Ok (r', c + Z.of_nat (length (if 5 <=? version then [address_size; segment_size] else []))) /\
    has_offset_size r' offset_size /\ has_address_size r' address_size /\ endian_ r' = endian_ r.
Proof.
  intros Hos Has Hh. destruct (5 <=? version).
  - pose proof (holds_tail _ _ _ _ Hh) as Hh2. unfold ReadOneByte. rewrite (byte_0 _ _ _ _ Hh). cbn [obind].
    unfold SetAddressSize. assert (negb ((address_size =? 4) || (address_size =? 8)) = false) as ->.
    { destruct Has as [-> | ->]; done. }
    cbn [obind]. rewrite (byte_0 _ _ _ _ Hh2). cbn [obind]. eexists. split; [cbn; do 2 f_equal; lia|].
    split; [done|]. by split.
  - unfold AddressSize. pose proof Has as (Hs & -> & _). rewrite (proj2 (Z.eqb_neq _ _)) by lia.
    exists r. cbn. by rewrite Z.add_0_r.
Qed.

Lemma tables_spec r offset_size version bs cs h c :
  has_offset_size r offset_size -> tables_bytes mem sections (endian_ r) offset_size version bs cs -> holds mem c bs ->
  (if version <=? 4 then read_tables_4 mem sections r h c else read_tables_5 mem sections r h c) =
    let? h := tell h cs in Ok (h, c + Z.of_nat (length bs)).
Proof.
  unfold tables_bytes. intros Hos Ht Hh. destruct (version <=? 4).
  - by eapply tables_4_spec.
  - by eapply tables_5_spec.
Qed.

Lemma ops_per_insn_spec version c :
  holds mem c (if 4 <=? version then [1] else []) ->
  (if 4 <=? version then
     let? max_ops_per_insn := byte mem c in
     if max_ops_per_insn =? 1 then Ok (c + 1) else Undef
   else Ok c) = Ok (c + Z.of_nat (length (if 4 <=? version then [1] else [])) : Z).
Proof.
  destruct (4 <=? version); intros Hh; [|cbn; f_equal; lia]. by rewrite (byte_0 _ _ _ _ Hh).
Qed.

(** What [ReadHeader] reads, for the sections and the reader of a unit at
    [buffer_]. *)
Lemma ReadHeader_spec r h len_bytes offset_size version address_size segment_size prologue is_stmt ps tables_bs
    tables program_bs :
  let rest := header_bytes (endian_ r) offset_size version address_size segment_size prologue is_stmt ps ++
              tables_bs ++ program_bs in
  let bs := len_bytes ++ rest in
  initial_length (endian_ r) len_bytes (Z.of_nat (length rest)) offset_size ->
  uint 16 version -> uint (8 * offset_size) prologue ->
  (if 5 <=? version then address_size = 4 \/ address_size = 8 else has_address_size r address_size) ->
  - 128 <= base ps < 128 -> first_special ps = 1 + Z.of_nat (length (operands ps)) ->
  tables_bytes mem sections (endian_ r) offset_size version tables_bs tables ->
  holds mem (buffer_ sections) bs -> Z.of_nat (length bs) <= buffer_length_ sections ->
  exists r' header,
    has_params header ps /\ total_length header = Z.of_nat (length rest) /\
    has_offset_size r' offset_size /\ has_address_size r' address_size /\ endian_ r' = endian_ r /\
    ReadHeader mem sections r h =
      let? h := tell h tables in
      Ok (header, r', h, buffer_ sections + Z.of_nat (length bs) - Z.of_nat (length program_bs)).
Proof.
  intros rest bs Hlen Hv Hp Has Hbase Hfs Htables [Hh1 Hh2]%holds_app Hl.
  destruct (ReadInitialLength_spec mem r (buffer_ sections) len_bytes _ offset_size Hlen Hh1)
    as (r1 & E1 & (Hend1 & Hsz1 & Hrd1 & _) & Hos1).
  subst rest bs. unfold header_bytes in Hh2. rewrite <- !app_assoc in Hh2.
  pose proof Hh2 as [Hversion [Haddress [Hprologue [Hmin [Hops [Hfixed [Hlengths [Htab Hprog]%holds_app]%holds_app]
    %holds_app]%holds_app]%holds_app]%holds_app]%holds_app]%holds_app.
  rewrite <- Hend1 in Hversion, Hprologue, Htables.
  assert (if 5 <=? version then address_size = 4 \/ address_size = 8 else has_address_size r1 address_size) as Has1.
  { destruct (5 <=? version); [done|]. destruct Has as (? & ? & ?). split; [done|]. by rewrite Hsz1, Hrd1. }
  destruct (address_size_spec r1 offset_size version address_size segment_size _ Hos1 Has1 Haddress)
    as (r2 & E2 & Hos2 & Has2 & Hend2).
  exists r2, (mkLineInfoHeader (Z.of_nat (length (header_bytes (endian_ r) offset_size version address_size
    segment_size prologue is_stmt ps ++ tables_bs ++ program_bs))) version prologue (min_length ps)
    (negb (is_stmt =? 0)) (base ps) (range ps) (first_special ps)
    (Some (resize (Z.to_nat (first_special ps + 1)) 0 (0 :: operands ps)))).
  split; [by apply header_has_params|]. split; [done|]. split; [done|]. split; [done|]. split; [congruence|].
  unfold ReadHeader. rewrite E1. cbn [obind]. rewrite length_app in Hl.
  rewrite (proj2 (Z.ltb_ge _ _)) by lia.
  rewrite (ReadTwoBytes_of mem r1 _ version) by done. cbn [obind].
  rewrite (proj2 (bytes_of_ok _ _ _)) in E2. change (Z.of_nat 2) with 2 in E2.
  rewrite E2. cbn [obind]. rewrite !(proj2 (bytes_of_ok _ _ _)) in *. rewrite <- Hend2 in Hprologue, Htables.
  assert (OffsetSize r2 = Z.of_nat (Z.to_nat offset_size)) as Eos.
  { destruct Hos2 as (? & ? & _). unfold OffsetSize. lia. }
  rewrite Eos. unfold ReadOneByte.
  rewrite (ReadOffset_of mem r2 offset_size _ prologue Hos2 Hp) by here Hprologue. cbn [obind].
  rewrite (byte_0 _ _ (min_length ps) []) by here Hmin. cbn [obind].
  rewrite (ops_per_insn_spec version) by here Hops. cbn [obind].
  rewrite (byte_0 _ _ is_stmt [wrap 8 (base ps); range ps; first_special ps]) by here Hfixed. cbn [obind].
  apply holds_tail in Hfixed.
  rewrite (byte_0 _ _ (wrap 8 (base ps)) [range ps; first_special ps]) by here Hfixed. cbn [obind].
  apply holds_tail in Hfixed.
  rewrite (byte_0 _ _ (range ps) [first_special ps]) by here Hfixed. cbn [obind].
  apply holds_tail in Hfixed.
  rewrite (byte_0 _ _ (first_special ps) []) by here Hfixed. cbn [obind].
  replace (Z.to_nat (first_special ps - 1)) with (length (operands ps)) by lia.
  rewrite read_opcode_lengths_spec by here Hlengths. cbn [obind].
  rewrite swrap_wrap, (swrap_small 8 (base ps)) by lia.
  rewrite (tables_spec r2 offset_size version tables_bs tables) by (done || here Htab).
  destruct (tell h tables) as [h'|]; [|done]. cbn [obind]. do 2 f_equal.
  unfold header_bytes. rewrite !length_app, (proj2 (bytes_of_ok _ 2 _)), (proj2 (bytes_of_ok _ _ _)).
  cbn [length]. lia.
Qed.

(** The whole of [Start]. *)
Lemma Start_unit r h bs cs :
  unit_bytes mem sections r bs cs -> holds mem (buffer_ sections) bs ->
  Z.of_nat (length bs) <= buffer_length_ sections -> Z.of_nat (length mem) < 2 ^ 64 ->
  exists r', Start mem sections r h = let? h := tell h cs in Ok (Z.of_nat (length bs), h, r').
Proof.
  intros (len_bytes & offset_size & version & address_size & segment_size & prologue & is_stmt & ps & tables_bs &
    tables & program_bs & ops & Hlen & Hv & Hp & Has & Hbase & Hfs & Htables & Hprog & -> & ->) Hh Hl Hmem.
  destruct (ReadHeader_spec r h len_bytes offset_size version address_size segment_size prologue is_stmt ps
    tables_bs tables program_bs Hlen Hv Hp Has Hbase Hfs Htables Hh Hl)
    as (r' & header & Hparams & Htotal & Hos & Has' & Hend & E).
  exists r'. unfold Start. rewrite E, tell_app. destruct (tell h tables) as [h'|]; [|done]. cbn [obind].
  set (bs := len_bytes ++ _) in *. unfold ReadLines.
  assert (buffer_ sections + (if OffsetSize r' =? 8 then 12 else 4) + total_length header =
          buffer_ sections + Z.of_nat (length bs)) as ->.
  { rewrite Htotal. subst bs. rewrite (length_app len_bytes). destruct Hos as (_ & Hos & _). unfold OffsetSize.
    rewrite Hos. destruct Hlen as [(-> & -> & _)|(-> & -> & _)];
      rewrite ?length_app, !(proj2 (bytes_of_ok _ _ _)); cbn; lia. }
  assert (holds mem (buffer_ sections + Z.of_nat (length bs) - Z.of_nat (length program_bs)) program_bs) as Hh'.
  { subst bs. rewrite !app_assoc in Hh |- *. apply holds_app in Hh as [_ Hh]. eapply holds_eq; [exact Hh|].
    rewrite (length_app _ program_bs). lia. }
  pose proof Hh' as (Hb0 & Hb & _). rewrite <- Hend in Hprog.
  pose proof (ReadLines_loop_spec mem ps header r' address_size Hparams Has' Hmem program_bs ops Hprog
    (S (length mem)) h' _ (Reset (default_is_stmt header)) None Hh') as Eloop.
  rewrite Z.sub_add in Eloop. rewrite Eloop by (done || lia). cbn [pending_row app].
  change (row_of (Reset _)) with first_row.
  destruct (tell h' _) as [h''|]; [|done]. cbn [obind]. do 3 f_equal.
  lia.
Qed.
End unit.

(** C15: from a unit of the .debug_line section of version 2 to 5 [LineInfo]
    makes exactly the calls of its directory table, its file table and, for
    every row of the line number table its program defines, the line that goes
    up to the next row or to the end of the sequence; whatever the handler does
    with them, and undefined only if a call is.  [Start] returns the length of
    the unit.  The units are those of [unit_bytes]: without DW_LNE_define_file,
    with one operation per instruction, and in version 5 with directory tables
    of paths only and file tables of paths, directories, times and sizes (no
    MD5 column) in the forms the reader knows. *)
Theorem LineInfo_functional mem sections r bs cs :
  unit_bytes mem sections r bs cs -> holds mem (buffer_ sections) bs ->
  Z.of_nat (length bs) <= buffer_length_ sections -> Z.of_nat (length mem) < 2 ^ 64 ->
  forall (H : Type) (handler : LineInfoHandler H) (h : H),
  exists r', Start mem sections r h = let? h := tell h cs in Ok (Z.of_nat (length bs), h, r').
Proof. intros Hu Hh Hl Hm H handler h. by apply Start_unit. Qed.

(** ** What goes wrong *)

Section wrong.
Context (mem : byte_list) {H : Type} `{!LineInfoHandler H}.
Context (r : ByteReader) (header : LineInfoHeader).
Hypothesis Hbase : 0 < opcode_base header.
Hypothesis Hmem : Z.of_nat (length mem) < 2 ^ 62.

(** An extended operation gets to its case with the length it states. *)
Lemma extended_length_spec (h : option H) c lsm pc passed len n rest :
  holds mem c (DW_LNS_extended_op :: len ++ rest) -> uleb len n ->
  ProcessOneOpcode mem r h header c lsm pc passed =
    process_extended mem r h (c + 1) lsm 1 passed /\
  ReadUnsignedLEB128 mem r (c + 1) = Ok (n, Z.of_nat (length len)) /\
  holds mem (c + 1 + Z.of_nat (length len)) rest.
Proof.
  intros Hh Hlen. pose proof (byte_0 _ _ _ _ Hh) as E0. pose proof Hh as [Hh1 Hh2]%holds_tail%holds_app.
  split; [|split; [by apply uleb_read|done]]. unfold ProcessOneOpcode, ReadOneByte. rewrite E0. cbn [obind].
  by rewrite (proj2 (Z.leb_gt _ _)).
Qed.

Lemma DW_LNE_define_file_spec (h : H) c lsm pc passed len name dir_bs dir rest :
  let body := DW_LNE_define_file :: name ++ 0 :: dir_bs ++ rest in
  holds mem c (DW_LNS_extended_op :: len ++ body) -> uleb len (Z.of_nat (length body)) -> no_nul name ->
  uleb dir_bs dir ->
  ProcessOneOpcode mem r (Some h) header c lsm pc passed =
    let? h := DefineFile h name (-1) (wrap 32 dir) dir dir in
    Ok (mkProcessed false lsm
          (Z.of_nat (length (DW_LNS_extended_op :: len ++ body)) + 3 * Z.of_nat (length dir_bs)) passed (Some h)).
Proof.
  intros body Hh Hlen Hn Hd.
  destruct (extended_length_spec (Some h) c lsm pc passed len _ body Hh Hlen) as (-> & E & Hb).
  unfold process_extended. rewrite E. cbn [obind]. unfold ReadOneByte. rewrite (byte_0 _ _ _ _ Hb). cbn [obind].
  change (DW_LNE_define_file =? DW_LNE_end_sequence) with false.
  change (DW_LNE_define_file =? DW_LNE_set_address) with false. rewrite Z.eqb_refl. cbv iota.
  apply holds_tail in Hb. replace (name ++ 0 :: dir_bs ++ rest) with ((name ++ [0]) ++ dir_bs ++ rest) in Hb
    by by rewrite <- app_assoc.
  apply holds_app in Hb as [Hb1 [Hb2 _]%holds_app]. rewrite (read_cstring_stored mem _ name) by done. cbn [obind].
  rewrite length_app in Hb2. rewrite (uleb_read mem dir_bs dir _ r Hd) by (eapply holds_eq; [exact Hb2|cbn; lia]).
  cbn [obind]. destruct (DefineFile h name (-1) (wrap 32 dir) dir dir) as [h'|]; [|done]. cbn [obind]. do 2 f_equal.
  assert (Z.of_nat (length dir_bs) <= Z.of_nat (length body)) as Hdl.
  { unfold body. cbn [length]. rewrite length_app. cbn [length]. rewrite length_app. lia. }
  destruct Hh as (Hc & Hl & _). cbn [length] in Hl |- *. rewrite length_app in Hl |- *.
  rewrite wrap_add_r, !wrap_add_l, (wrap_small 64 (1 + (_ + _) + _)), wrap_small by (unfold uint; lia). lia.
Qed.

(** An operation whose length brings the sum back to zero. *)
Lemma hanging_step (h : H) c lsm len extended_op :
  holds mem c (DW_LNS_extended_op :: len ++ [extended_op]) -> uleb len (2 ^ 64 - 1 - Z.of_nat (length len)) ->
  DW_LNE_define_file < extended_op ->
  ProcessOneOpcode mem r (Some h) header c lsm (2 ^ 64 - 1) None = Ok (mkProcessed false lsm 0 None (Some h)).
Proof.
  intros Hh Hlen Hop.
  destruct (extended_length_spec (Some h) c lsm (2 ^ 64 - 1) None len _ [extended_op] Hh Hlen) as (-> & E & Hb).
  unfold process_extended. rewrite E. cbn [obind]. unfold ReadOneByte. rewrite (byte_0 _ _ _ _ Hb). cbn [obind].
  unfold DW_LNE_define_file, DW_LNE_end_sequence, DW_LNE_set_address in *.
  rewrite !(proj2 (Z.eqb_neq extended_op _)) by lia. rewrite wrap_add_r.
  by replace (1 + (Z.of_nat (length len) + (2 ^ 64 - 1 - Z.of_nat (length len)))) with (2 ^ 64) by lia.
Qed.

(** DW_LNE_define_file gives the file its directory number as time and
    length too, and [*len] is three times the size of that number too large, so
    that the program goes on in the middle of a later instruction. *)
Theorem define_file_overcounts (h : H) c lsm pc passed len name dir_bs dir rest :
  let body := DW_LNE_define_file :: name ++ 0 :: dir_bs ++ rest in
  holds mem c (DW_LNS_extended_op :: len ++ body) -> uleb len (Z.of_nat (length body)) -> no_nul name ->
  uleb dir_bs dir ->
  ProcessOneOpcode mem r (Some h) header c lsm pc passed =
    let? h := DefineFile h name (-1) (wrap 32 dir) dir dir in
    Ok (mkProcessed false lsm
          (Z.of_nat (length (DW_LNS_extended_op :: len ++ body)) + 3 * Z.of_nat (length dir_bs)) passed (Some h)).
Proof. by apply DW_LNE_define_file_spec. Qed.

(** An extended operation whose length is 2^64 less the bytes before it keeps
    [ReadLines] where it is: no number of rounds ends its loop. *)
Theorem ReadLines_hangs fuel (h : H) end_ c lsm pending len extended_op :
  holds mem c (DW_LNS_extended_op :: len ++ [extended_op]) -> uleb len (2 ^ 64 - 1 - Z.of_nat (length len)) ->
  DW_LNE_define_file < extended_op -> c < end_ ->
  ReadLines_loop mem fuel r header end_ h c lsm pending = Undef.
Proof.
  intros Hh Hlen Hop Hc. induction fuel as [|fuel IH]; [done|]. cbn [ReadLines_loop].
  rewrite (proj2 (Z.leb_gt _ _)) by done. rewrite (hanging_step h c lsm len extended_op) by done. cbn.
  unfold moved. rewrite Z.add_0_r. destruct Hh as (Hc0 & Hl & _). cbn in Hl.
  rewrite !(proj2 (Z.leb_le _ _)) by lia. exact IH.
Qed.
End wrong.

(** ** An example *)

(** A handler that keeps the calls. *)
Definition record_call (cs : list LineCall) (c : LineCall) : outcome (list LineCall) := Ok (cs ++ [c]).

#[export] Instance record_calls : LineInfoHandler (list LineCall) := {
  DefineDir cs name dir_num := record_call cs (call_dir name dir_num);
  DefineFile cs name file_num dir_num mod_time length :=
    record_call cs (call_file name file_num dir_num mod_time length);
  AddLine cs address length file_num line_num column_num :=
    record_call cs (call_line address length file_num line_num column_num);
}.

Definition example_params : line_params := mkParams 1 (-5) 14 10 [0; 1; 1; 1; 1; 0; 0; 0; 1].

Definition example_dirs : byte_list := str "/src" ++ [0; 0].
Definition example_files : byte_list := str "a.c" ++ [0; 1; 0; 0; 0].

(** Two lines, of two and eight bytes, at 0x401000. *)
Definition example_ops : list line_op :=
  [op_set_address 0x401000; op_copy; op_special 36; op_advance_pc 8; op_end_sequence].
Definition example_program : byte_list :=
  [0; 9; 2] ++ bytes_of ENDIANNESS_LITTLE 8 0x401000 ++ [1] ++ [46] ++ [2; 8] ++ [0; 1; 1].

Definition example_rest : byte_list :=
  header_bytes ENDIANNESS_LITTLE 4 3 8 0 31 1 example_params ++ (example_dirs ++ example_files) ++ example_program.
Definition example_unit : byte_list :=
  bytes_of ENDIANNESS_LITTLE 4 (Z.of_nat (length example_rest)) ++ example_rest.

Definition example_sections : LineSections :=
  mkLineSections 0 (Z.of_nat (length example_unit)) None 0 None 0.
Definition example_reader : ByteReader :=
  mkByteReader None (Some ReadEightBytes_reader) ENDIANNESS_LITTLE 8 0 false false false false 0 0 0 0 0.

Definition example_calls : list LineCall :=
  [call_dir [] 0; call_dir (str "/src") 1; call_file [] 0 0 0 0; call_file (str "a.c") 1 1 0 0;
   call_line 0x401000 2 1 1 0; call_line 0x401002 8 1 4 0].

Lemma uleb_byte v : uint 7 v -> uleb [v] v.
Proof.
  intros Hv. exists [v]. split; [split; [done|by constructor]|]. split; [cbn; lia|]. split; [done|].
  split; [cbn; lia|]. unfold uint in *. lia.
Qed.

Lemma example_program_bytes : program_bytes example_params ENDIANNESS_LITTLE 8 example_program example_ops.
Proof.
  unfold example_program, example_ops.
  apply (a_program _ _ _ ([0; 9; 2] ++ bytes_of ENDIANNESS_LITTLE 8 0x401000)).
  { apply (extended_bytes _ _ _ [9] (2 :: bytes_of ENDIANNESS_LITTLE 8 0x401000)); [by cbv|by apply uleb_byte|].
    rewrite <- (app_nil_r (bytes_of _ _ _)). by apply set_address_bytes. }
  apply (a_program _ _ _ [1]); [by apply copy_bytes|].
  apply (a_program _ _ _ [46]); [by apply (special_bytes example_params _ _ 36)|].
  apply (a_program _ _ _ [2; 8]); [apply advance_pc_bytes; [done|by apply uleb_byte]|].
  apply (a_program _ _ _ [0; 1; 1] _ []); [|constructor].
  apply (extended_bytes _ _ _ [1] [1]); [done|by apply uleb_byte|]. apply end_sequence_bytes.
Qed.

Lemma example_tables : tables_4 (example_dirs ++ example_files) (take 4 example_calls).
Proof.
  apply (the_tables_4 example_dirs [call_dir (str "/src") 1] example_files [call_file (str "a.c") 1 1 0 0]).
  - apply (a_dir_4 1 (str "/src") [0] []); [done|by apply (bool_decide_unpack _); vm_compute|constructor].
  - apply (a_file_4 1 (str "a.c") [1] 1 [0] 0 [0] 0 [0] []);
      [done|by apply (bool_decide_unpack _); vm_compute|by apply uleb_byte..|constructor].
Qed.

Lemma example_unit_bytes mem sections : unit_bytes mem sections example_reader example_unit example_calls.
Proof.
  exists (bytes_of ENDIANNESS_LITTLE 4 (Z.of_nat (length example_rest))), 4, 3, 8, 0, 31, 1, example_params,
    (example_dirs ++ example_files), (take 4 example_calls), example_program, example_ops.
  split; [by left|]. split; [done|]. split; [done|]. split; [by split; [right|]|]. split; [done|]. split; [done|].
  split; [exact example_tables|]. split; [exact example_program_bytes|]. by split.
Qed.

Lemma LineInfo_functional_witness :
  exists r', Start example_unit example_sections example_reader [] =
    Ok (Z.of_nat (length example_unit), example_calls, r').
Proof.
  apply (LineInfo_functional example_unit example_sections example_reader example_unit example_calls
    (example_unit_bytes _ _)); [|done|done].
  split; [done|]. split; [done|]. by intros i b.
Defined.
