(* ===== verification/SymbolRecords.v ===== *)
(** * The records of a symbol file (processor/source_line_resolver_base_types.h,
    basic_source_line_resolver_types.h, windows_frame_info.h,
    simple_serializer-inl.h, fast_source_line_resolver_types.h)

    The lines, functions, public symbols and Windows frame records of a
    module, the serializers that lay them out in a buffer, and the [CopyFrom]
    operations with which the fast resolver reads them back. *)

From S2P Require Import Prelude Memory LibcSupport OrderedMap RangeMap StaticMap SimpleSerializer MapSerializers StaticMaps Tokens CStrings.
#[local] Open Scope Z_scope.

(** ** The records *)

(** [SourceLineResolverBase::Line] *)
Record Line : Type := mkLine {
  line_address : Z;
  line_size : Z;
  source_file_id : Z;
  line_ : Z;
}.

(** [BasicSourceLineResolver::Function]; a [linked_ptr] is an option. *)
Record Function_ : Type := mkFunction {
  function_name : chars;
  function_address : Z;
  function_size : Z;
  function_parameter_size : Z;
  function_is_multiple : bool;
  lines : RangeMap (option Line);
}.

(** [SourceLineResolverBase::PublicSymbol] *)
Record PublicSymbol : Type := mkPublicSymbol {
  symbol_name : chars;
  symbol_address : Z;
  symbol_parameter_size : Z;
  symbol_is_multiple : bool;
}.

(** [WindowsFrameInfo]; [type_] is a [StackInfoTypes]. *)
Record WindowsFrameInfo : Type := mkWindowsFrameInfo {
  type_ : Z;
  valid : Z;
  prolog_size : Z;
  epilog_size : Z;
  parameter_size : Z;
  saved_register_size : Z;
  local_size : Z;
  max_stack_size : Z;
  allocates_base_pointer : bool;
  program_string : chars;
}.

Definition VALID_NONE : Z := 0.
Definition VALID_PARAMETER_SIZE : Z := 1.
Definition VALID_ALL : Z := -1.

Definition STACK_INFO_FPO : nat := 0.
Definition STACK_INFO_FRAME_DATA : nat := 4.
Definition STACK_INFO_LAST : nat := 5.
Definition STACK_INFO_UNKNOWN : Z := -1.

(** The constructors. *)
Definition empty_frame_info : WindowsFrameInfo :=
  mkWindowsFrameInfo STACK_INFO_UNKNOWN VALID_NONE 0 0 0 0 0 0 false [].

Definition new_frame_info (type set_prolog_size set_epilog_size set_parameter_size
    set_saved_register_size set_local_size set_max_stack_size set_allocates_base_pointer : Z)
    (set_program_string : chars) : WindowsFrameInfo :=
  mkWindowsFrameInfo type VALID_ALL set_prolog_size set_epilog_size set_parameter_size
    set_saved_register_size set_local_size set_max_stack_size
    (negb (set_allocates_base_pointer =? 0)) set_program_string.

Definition WindowsFrameInfo_CopyFrom (this that : WindowsFrameInfo) : WindowsFrameInfo :=
  mkWindowsFrameInfo (type_ that) (valid that) (prolog_size that) (epilog_size that)
    (parameter_size that) (saved_register_size that) (local_size that) (max_stack_size that)
    (allocates_base_pointer that) (program_string that).

Definition WindowsFrameInfo_Clear (this : WindowsFrameInfo) : WindowsFrameInfo :=
  mkWindowsFrameInfo STACK_INFO_UNKNOWN VALID_NONE (prolog_size this) (epilog_size this)
    (parameter_size this) (saved_register_size this) (local_size this) (max_stack_size this)
    (allocates_base_pointer this) [].

(** Assignments to [parameter_size] and [valid]. *)
Definition with_parameter_size (result : WindowsFrameInfo) (size : Z) : WindowsFrameInfo :=
  mkWindowsFrameInfo (type_ result) (valid result) (prolog_size result) (epilog_size result) size
    (saved_register_size result) (local_size result) (max_stack_size result)
    (allocates_base_pointer result) (program_string result).

Definition with_valid (result : WindowsFrameInfo) (v : Z) : WindowsFrameInfo :=
  mkWindowsFrameInfo (type_ result) v (prolog_size result) (epilog_size result)
    (parameter_size result) (saved_register_size result) (local_size result)
    (max_stack_size result) (allocates_base_pointer result) (program_string result).

(** ** The serializers *)

Definition Line_SizeOf (l : Line) : Z :=
  int_SizeOf 8 (line_address l) + int_SizeOf 8 (line_size l)
  + int_SizeOf 4 (source_file_id l) + int_SizeOf 4 (line_ l).

Definition Line_Write (l : Line) (mem : byte_list) (dest : Z) : outcome (byte_list * Z) :=
  let? (mem, dest) := int_Write 8 (line_address l) mem dest in
  let? (mem, dest) := int_Write 8 (line_size l) mem dest in
  let? (mem, dest) := int_Write 4 (source_file_id l) mem dest in
  int_Write 4 (line_ l) mem dest.

Definition PublicSymbol_SizeOf (p : PublicSymbol) : Z :=
  string_SizeOf (symbol_name p) + int_SizeOf 8 (symbol_address p)
  + int_SizeOf 4 (symbol_parameter_size p).

Definition PublicSymbol_Write (p : PublicSymbol) (mem : byte_list) (dest : Z) :
    outcome (byte_list * Z) :=
  let? (mem, dest) := string_Write (symbol_name p) mem dest in
  let? (mem, dest) := int_Write 8 (symbol_address p) mem dest in
  int_Write 4 (symbol_parameter_size p) mem dest.

(** [size] is an [unsigned int]. *)
Definition WindowsFrameInfo_SizeOf (wfi : WindowsFrameInfo) : Z :=
  let size := 0 in
  let size := wrap 32 (size + 4) in
  let size := wrap 32 (size + int_SizeOf 4 (valid wfi)) in
  let size := wrap 32 (size + int_SizeOf 4 (prolog_size wfi)) in
  let size := wrap 32 (size + int_SizeOf 4 (epilog_size wfi)) in
  let size := wrap 32 (size + int_SizeOf 4 (parameter_size wfi)) in
  let size := wrap 32 (size + int_SizeOf 4 (saved_register_size wfi)) in
  let size := wrap 32 (size + int_SizeOf 4 (local_size wfi)) in
  let size := wrap 32 (size + int_SizeOf 4 (max_stack_size wfi)) in
  let size := wrap 32 (size + bool_SizeOf (allocates_base_pointer wfi)) in
  wrap 32 (size + string_SizeOf (program_string wfi)).

Definition WindowsFrameInfo_Write (wfi : WindowsFrameInfo) (mem : byte_list) (dest : Z) :
    outcome (byte_list * Z) :=
  let? (mem, dest) := int_Write 4 (type_ wfi) mem dest in
  let? (mem, dest) := int_Write 4 (valid wfi) mem dest in
  let? (mem, dest) := int_Write 4 (prolog_size wfi) mem dest in
  let? (mem, dest) := int_Write 4 (epilog_size wfi) mem dest in
  let? (mem, dest) := int_Write 4 (parameter_size wfi) mem dest in
  let? (mem, dest) := int_Write 4 (saved_register_size wfi) mem dest in
  let? (mem, dest) := int_Write 4 (local_size wfi) mem dest in
  let? (mem, dest) := int_Write 4 (max_stack_size wfi) mem dest in
  let? (mem, dest) := bool_Write (allocates_base_pointer wfi) mem dest in
  string_Write (program_string wfi) mem dest.

(** The representable values of [int32_t]. *)
Definition int32 (z : Z) : Prop := - 2 ^ 31 <= z < 2 ^ 31.

(** ** Fixed layouts

    [f] writes exactly the bytes [bs]. *)
Definition writes (f : byte_list -> Z -> outcome (byte_list * Z)) (bs : byte_list) : Prop :=
  writer_spec f (Z.of_nat (length bs)) (fun mem ptr => holds mem ptr bs).

Lemma writer_eq f s1 s2 P : writer_spec f s1 P -> s1 = s2 -> writer_spec f s2 P.
Proof. by intros H <-. Qed.

Lemma writes_then f g b s Q :
  writes f b -> writer_spec g s Q ->
  writer_spec (fun mem dest => let? (mem, dest) := f mem dest in g mem dest)
    (Z.of_nat (length b) + s) (fun mem ptr => holds mem ptr b /\ Q mem (ptr + Z.of_nat (length b))).
Proof. apply writer_seq. Qed.

Lemma writes_seq f g b1 b2 :
  writes f b1 -> writes g b2 ->
  writes (fun mem dest => let? (mem, dest) := f mem dest in g mem dest) (b1 ++ b2).
Proof.
  intros H1 H2. apply (writer_mono _ _ (fun mem ptr =>
    holds mem ptr b1 /\ holds mem (ptr + Z.of_nat (length b1)) b2)).
  - apply (writer_eq _ (Z.of_nat (length b1) + Z.of_nat (length b2))).
    + by apply (writes_then f g b1 _ (fun mem ptr => holds mem ptr b2)).
    + rewrite length_app. lia.
  - intros mem ptr. by rewrite holds_app.
Qed.

Lemma writes_int n z : writes (int_Write n z) (le_bytes n z).
Proof. unfold writes. rewrite length_le_bytes. apply int_Write_spec. Qed.

Lemma writes_bool b : writes (bool_Write b) [if b then 255 else 0].
Proof. apply bool_Write_spec. Qed.

Lemma writes_string s : no_nul s -> writes (string_Write s) (s ++ [0]).
Proof.
  intros Hs. eapply writer_eq; [by apply string_Write_spec|].
  unfold string_SizeOf. rewrite length_app. simpl. lia.
Qed.

#[export] Hint Resolve writes_seq writes_int writes_bool writes_string : s2p.

(** Reading a field back. *)
Lemma read_at_field mem ptr n z off :
  holds mem ptr (le_bytes n z) -> off = ptr -> uint (8 * Z.of_nat n) z -> read_at mem off n = Ok z.
Proof. intros Hh -> Hz. by rewrite (read_at_le _ _ _ _ Hh), wrap_small. Qed.

Lemma read_byte_field mem ptr b off : holds mem ptr [b] -> off = ptr -> read_at mem off 1 = Ok b.
Proof. intros Hh%read_at_holds ->. simpl in Hh. by rewrite Z.add_0_r in Hh. Qed.

Lemma int32_at_field mem ptr z off :
  holds mem ptr (le_bytes 4 z) -> off = ptr -> int32 z -> int32_at mem off = Ok z.
Proof.
  intros Hh -> Hz. unfold int32_at. rewrite (read_at_le _ _ _ _ Hh). cbn [obind].
  by rewrite swrap_wrap, swrap_small.
Qed.

Lemma read_cstring_field mem ptr s off :
  holds mem ptr (s ++ [0]) -> off = ptr -> no_nul s -> read_cstring mem off = Ok s.
Proof. intros Hh -> Hs. by apply read_cstring_stored. Qed.

(** ** The layouts of the records *)

Definition line_bytes (l : Line) : byte_list :=
  le_bytes 8 (line_address l) ++ le_bytes 8 (line_size l) ++
  le_bytes 4 (source_file_id l) ++ le_bytes 4 (line_ l).

Definition symbol_bytes (p : PublicSymbol) : byte_list :=
  (symbol_name p ++ [0]) ++ le_bytes 8 (symbol_address p) ++ le_bytes 4 (symbol_parameter_size p).

Definition frame_info_bytes (wfi : WindowsFrameInfo) : byte_list :=
  le_bytes 4 (type_ wfi) ++ le_bytes 4 (valid wfi) ++
  le_bytes 4 (prolog_size wfi) ++ le_bytes 4 (epilog_size wfi) ++
  le_bytes 4 (parameter_size wfi) ++ le_bytes 4 (saved_register_size wfi) ++
  le_bytes 4 (local_size wfi) ++ le_bytes 4 (max_stack_size wfi) ++
  [if allocates_base_pointer wfi then 255 else 0] ++ (program_string wfi ++ [0]).

Definition function_head (f : Function_) : byte_list :=
  (function_name f ++ [0]) ++ le_bytes 8 (function_address f) ++
  le_bytes 8 (function_size f) ++ le_bytes 4 (function_parameter_size f).

(** What the fields can hold. *)
Definition line_ok (l : Line) : Prop :=
  uint 64 (line_address l) /\ uint 64 (line_size l) /\ int32 (source_file_id l) /\ int32 (line_ l).

Definition symbol_ok (p : PublicSymbol) : Prop :=
  no_nul (symbol_name p) /\ uint 64 (symbol_address p) /\ int32 (symbol_parameter_size p).

Definition frame_info_ok (wfi : WindowsFrameInfo) : Prop :=
  int32 (type_ wfi) /\ int32 (valid wfi) /\ uint 32 (prolog_size wfi) /\ uint 32 (epilog_size wfi) /\
  uint 32 (parameter_size wfi) /\ uint 32 (saved_register_size wfi) /\ uint 32 (local_size wfi) /\
  uint 32 (max_stack_size wfi) /\ no_nul (program_string wfi) /\
  Z.of_nat (length (program_string wfi)) + 34 < 2 ^ 32.

Lemma Line_writes l : writes (Line_Write l) (line_bytes l).
Proof. unfold Line_Write, line_bytes. repeat apply writes_seq; auto with s2p. Qed.

Lemma PublicSymbol_writes p : symbol_ok p -> writes (PublicSymbol_Write p) (symbol_bytes p).
Proof. intros (Hn & _). unfold PublicSymbol_Write. repeat apply writes_seq; auto with s2p. Qed.

Lemma WindowsFrameInfo_writes wfi :
  frame_info_ok wfi -> writes (WindowsFrameInfo_Write wfi) (frame_info_bytes wfi).
Proof.
  intros (_ & _ & _ & _ & _ & _ & _ & _ & Hs & _). unfold WindowsFrameInfo_Write.
  repeat apply writes_seq; auto with s2p.
Qed.

Lemma WindowsFrameInfo_SizeOf_bytes wfi :
  frame_info_ok wfi -> WindowsFrameInfo_SizeOf wfi = Z.of_nat (length (frame_info_bytes wfi)).
Proof.
  intros (_ & _ & _ & _ & _ & _ & _ & _ & _ & Hl).
  change (WindowsFrameInfo_SizeOf wfi) with (wrap 32 (33 + string_SizeOf (program_string wfi))).
  unfold frame_info_bytes, string_SizeOf. rewrite wrap_small by (unfold uint; lia).
  rewrite !length_app, !length_le_bytes. simpl. lia.
Qed.

(** ** The serializers' contracts *)

#[export] Instance string_serializer : SimpleSerializer chars :=
  {| SizeOf := string_SizeOf; Write := string_Write |}.

#[export] Instance string_laws : SerializerLaws chars.
Proof.
  refine {| representable := no_nul; stored s mem ptr := holds mem ptr (s ++ [0]) |}.
  apply string_Write_spec.
Defined.

#[export] Instance Line_serializer : SimpleSerializer Line :=
  {| SizeOf := Line_SizeOf; Write := Line_Write |}.

#[export] Instance Line_laws : SerializerLaws Line.
Proof.
  refine {| representable := line_ok; stored l mem ptr := holds mem ptr (line_bytes l) |}.
  intros l _. apply (writer_eq _ _ _ _ (Line_writes l)).
  unfold line_bytes. rewrite !length_app, !length_le_bytes. done.
Defined.

#[export] Instance PublicSymbol_serializer : SimpleSerializer PublicSymbol :=
  {| SizeOf := PublicSymbol_SizeOf; Write := PublicSymbol_Write |}.

#[export] Instance PublicSymbol_laws : SerializerLaws PublicSymbol.
Proof.
  refine {| representable := symbol_ok; stored p mem ptr := holds mem ptr (symbol_bytes p) |}.
  intros p Hp. apply (writer_eq _ _ _ _ (PublicSymbol_writes p Hp)). simpl.
  unfold symbol_bytes, PublicSymbol_SizeOf, string_SizeOf, int_SizeOf.
  rewrite !length_app, !length_le_bytes. simpl. lia.
Defined.

#[export] Instance WindowsFrameInfo_serializer : SimpleSerializer WindowsFrameInfo :=
  {| SizeOf := WindowsFrameInfo_SizeOf; Write := WindowsFrameInfo_Write |}.

#[export] Instance WindowsFrameInfo_laws : SerializerLaws WindowsFrameInfo.
Proof.
  refine {| representable := frame_info_ok; stored w mem ptr := holds mem ptr (frame_info_bytes w) |}.
  intros w Hw. apply (writer_eq _ _ _ _ (WindowsFrameInfo_writes w Hw)).
  by rewrite WindowsFrameInfo_SizeOf_bytes.
Defined.

(** ** Functions *)

Definition Function_SizeOf (func : Function_) : Z :=
  let size := 0 in
  let size := wrap 32 (size + string_SizeOf (function_name func)) in
  let size := wrap 32 (size + int_SizeOf 8 (function_address func)) in
  let size := wrap 32 (size + int_SizeOf 8 (function_size func)) in
  let size := wrap 32 (size + int_SizeOf 4 (function_parameter_size func)) in
  wrap 32 (size + RangeMap_SizeOf 8 (lines func)).

Definition Function_Write (func : Function_) (mem : byte_list) (dest : Z) :
    outcome (byte_list * Z) :=
  let? (mem, dest) := string_Write (function_name func) mem dest in
  let? (mem, dest) := int_Write 8 (function_address func) mem dest in
  let? (mem, dest) := int_Write 8 (function_size func) mem dest in
  let? (mem, dest) := int_Write 4 (function_parameter_size func) mem dest in
  RangeMap_Write 8 (lines func) mem dest.

Definition function_ok (f : Function_) : Prop :=
  no_nul (function_name f) /\ uint 64 (function_address f) /\ uint 64 (function_size f) /\
  int32 (function_parameter_size f) /\ serializable_ranges 8 (lines f) /\
  Z.of_nat (length (function_head f)) + RangeMap_SizeOf 8 (lines f) < 2 ^ 32.

Definition stored_function (f : Function_) (mem : byte_list) (ptr : Z) : Prop :=
  holds mem ptr (function_head f) /\
  stored_range_map 8 (lines f) mem (ptr + Z.of_nat (length (function_head f))).

Lemma length_function_head f :
  Z.of_nat (length (function_head f)) = Z.of_nat (length (function_name f)) + 21.
Proof. unfold function_head. rewrite !length_app, !length_le_bytes. simpl. lia. Qed.

Lemma RangeMap_SizeOf_nonneg {E} `{SerializerLaws E} ks (m : RangeMap E) :
  serializable_ranges ks m -> 0 <= RangeMap_SizeOf ks m.
Proof. intros Hm. apply (writer_size _ _ _ (RangeMap_Write_spec ks m Hm)). Qed.

Lemma Function_SizeOf_spec f :
  function_ok f ->
  Function_SizeOf f = Z.of_nat (length (function_head f)) + RangeMap_SizeOf 8 (lines f).
Proof.
  intros (_ & _ & _ & _ & Hl & Hsz). pose proof (RangeMap_SizeOf_nonneg 8 _ Hl).
  rewrite length_function_head in *. unfold Function_SizeOf, int_SizeOf, string_SizeOf.
  change (Z.of_nat 8) with 8. change (Z.of_nat 4) with 4.
  rewrite (wrap_small 32 (0 + _)), (wrap_small 32 (0 + _ + 8)), (wrap_small 32 (0 + _ + 8 + 8)),
    (wrap_small 32 (0 + _ + 8 + 8 + 4)), wrap_small by (unfold uint; lia). lia.
Qed.

Lemma Function_Write_spec f :
  function_ok f -> writer_spec (Function_Write f) (Function_SizeOf f) (stored_function f).
Proof.
  intros Hf. rewrite Function_SizeOf_spec by done. destruct Hf as (Hn & _ & _ & _ & Hl & _).
  pose proof (RangeMap_Write_spec 8 _ Hl) as HW.
  pose proof (writer_seq _ _ _ _ _ _ (writes_int 4 (function_parameter_size f)) HW) as W4.
  pose proof (writer_seq _ _ _ _ _ _ (writes_int 8 (function_size f)) W4) as W3.
  pose proof (writer_seq _ _ _ _ _ _ (writes_int 8 (function_address f)) W3) as W2.
  pose proof (writer_seq _ _ _ _ _ _ (writes_string _ Hn) W2) as W1.
  apply (writer_eq _ _ (Z.of_nat (length (function_head f)) + RangeMap_SizeOf 8 (lines f))) in W1.
  - apply (writer_mono _ _ _ _ W1). intros mem ptr. unfold stored_function, function_head.
    rewrite !holds_app, !length_app, !Nat2Z.inj_add, <- !Z.add_assoc. tauto.
  - unfold function_head. rewrite !length_app. lia.
Qed.

#[export] Instance Function_serializer : SimpleSerializer Function_ :=
  {| SizeOf := Function_SizeOf; Write := Function_Write |}.

#[export] Instance Function_laws : SerializerLaws Function_.
Proof.
  refine {| representable := function_ok; stored := stored_function |}.
  apply Function_Write_spec.
Defined.

(** ** The records of the fast resolver

    [FastSourceLineResolver::Function], whose lines are a static map.  The
    constructors leave the members of the base class uninitialised, and so does
    [CopyFrom] for [is_multiple], which no serializer writes: [None] is a
    member that was never given a value. *)
Record FastFunction : Type := mkFastFunction {
  fast_name : chars;
  fast_address : Z;
  fast_size : Z;
  fast_parameter_size : Z;
  fast_is_multiple : option bool;
  fast_lines : StaticMap;
}.

Record FastPublicSymbol : Type := mkFastPublicSymbol {
  fast_symbol_name : chars;
  fast_symbol_address : Z;
  fast_symbol_parameter_size : Z;
  fast_symbol_is_multiple : option bool;
}.

(** [CopyFrom] of an object just constructed. *)
Section copy_from.
Context (mem : byte_list).

Definition Line_CopyFrom (raw : Z) : outcome Line :=
  let? address := read_at mem raw 8 in
  let? size := read_at mem (raw + 8) 8 in
  let? source_file_id := int32_at mem (raw + 2 * 8) in
  let? line := int32_at mem (raw + 2 * 8 + 4) in
  Ok (mkLine address size source_file_id line).

Definition Function_CopyFrom (raw : Z) : outcome FastFunction :=
  let? name := read_cstring mem raw in
  let name_size := Z.of_nat (length name) + 1 in
  let? address := read_at mem (raw + name_size) 8 in
  let? size := read_at mem (raw + name_size + 8) 8 in
  let? parameter_size := int32_at mem (raw + name_size + 2 * 8) in
  let? lines := new_map mem (raw + name_size + 2 * 8 + 4) in
  Ok (mkFastFunction name address size parameter_size None lines).

Definition PublicSymbol_CopyFrom (raw : Z) : outcome FastPublicSymbol :=
  let? name := read_cstring mem raw in
  let name_size := Z.of_nat (length name) + 1 in
  let? address := read_at mem (raw + name_size) 8 in
  let? parameter_size := int32_at mem (raw + name_size + 8) in
  Ok (mkFastPublicSymbol name address parameter_size None).

Definition CopyWFI (raw : Z) : outcome WindowsFrameInfo :=
  let? type := int32_at mem raw in
  let para_uint32 := raw + 2 * 4 in
  let? prolog_size := read_at mem (para_uint32 + 0 * 4) 4 in
  let? epilog_size := read_at mem (para_uint32 + 1 * 4) 4 in
  let? parameter_size := read_at mem (para_uint32 + 2 * 4) 4 in
  let? saved_register_size := read_at mem (para_uint32 + 3 * 4) 4 in
  let? local_size := read_at mem (para_uint32 + 4 * 4) 4 in
  let? max_stack_size := read_at mem (para_uint32 + 5 * 4) 4 in
  let boolean := para_uint32 + 6 * 4 in
  let? c := read_at mem boolean 1 in
  let allocates_base_pointer := negb (c =? 0) in
  let? program_string := read_cstring mem (boolean + 1) in
  Ok (new_frame_info type prolog_size epilog_size parameter_size saved_register_size local_size
        max_stack_size (Z.b2z allocates_base_pointer) program_string).

(** ** The records read back *)

(** Splits a layout into its fields, at offsets [lia] understands. *)
Ltac fields H :=
  rewrite ?holds_app, ?length_app, ?length_le_bytes in H; simpl length in H.

Lemma Line_CopyFrom_stored raw l : holds mem raw (line_bytes l) -> line_ok l -> Line_CopyFrom raw = Ok l.
Proof.
  unfold line_bytes. intros H (Ha & Hs & Hf & Hl). fields H. destruct H as (H1 & H2 & H3 & H4).
  unfold Line_CopyFrom.
  rewrite (read_at_field _ _ _ _ _ H1) by (lia || done). cbn [obind].
  rewrite (read_at_field _ _ _ _ _ H2) by (lia || done). cbn [obind].
  rewrite (int32_at_field _ _ _ _ H3) by (lia || done). cbn [obind].
  rewrite (int32_at_field _ _ _ _ H4) by (lia || done). by destruct l.
Qed.
Lemma PublicSymbol_CopyFrom_stored raw p :
  holds mem raw (symbol_bytes p) -> symbol_ok p ->
  PublicSymbol_CopyFrom raw =
    Ok (mkFastPublicSymbol (symbol_name p) (symbol_address p) (symbol_parameter_size p) None).
Proof.
  unfold symbol_bytes. intros H (Hn & Ha & Hs). rewrite holds_app in H. destruct H as (H1 & H).
  fields H. destruct H as (H2 & H3). unfold PublicSymbol_CopyFrom.
  rewrite (read_cstring_field _ _ _ _ H1) by done. cbn [obind].
  rewrite (read_at_field _ _ _ _ _ H2) by (lia || done). cbn [obind].
  by rewrite (int32_at_field _ _ _ _ H3) by (lia || done).
Qed.

Lemma Function_CopyFrom_stored raw f :
  stored_function f mem raw -> function_ok f ->
  let ptr := raw + Z.of_nat (length (function_head f)) in
  stored_range_map 8 (lines f) mem ptr /\
  Function_CopyFrom raw =
    Ok (mkFastFunction (function_name f) (function_address f) (function_size f)
          (function_parameter_size f) None (mkStaticMap ptr (Z.of_nat (length (map_ (lines f)))))).
Proof.
  intros [H Hst] (Hn & Ha & Hsz & Hp & _) ptr. split; [done|]. unfold ptr in *.
  rewrite length_function_head in *.
  unfold function_head in H. rewrite holds_app in H. destruct H as (H1 & H).
  fields H. destruct H as (H2 & H3 & H4). unfold Function_CopyFrom.
  rewrite (read_cstring_field _ _ _ _ H1) by done. cbn [obind].
  rewrite (read_at_field _ _ _ _ _ H2) by (lia || done). cbn [obind].
  rewrite (read_at_field _ _ _ _ _ H3) by (lia || done). cbn [obind].
  rewrite (int32_at_field _ _ _ _ H4) by (lia || done). cbn [obind].
  replace (raw + (Z.of_nat (length (function_name f)) + 1) + 2 * 8 + 4)
    with (raw + (Z.of_nat (length (function_name f)) + 21)) by lia.
  by rewrite (new_map_stored mem 8 _ _ _ _ Hst).
Qed.

Lemma CopyWFI_stored raw wfi :
  holds mem raw (frame_info_bytes wfi) -> frame_info_ok wfi ->
  CopyWFI raw = Ok (with_valid wfi VALID_ALL).
Proof.
  unfold frame_info_bytes. intros H (Ht & _ & Hp & He & Hpa & Hsr & Hl & Hm & Hs & _).
  fields H. destruct H as (H1 & H2 & H3 & H4 & H5 & H6 & H7 & H8 & H9 & H10). simpl length in *.
  apply holds_app in H10.
  unfold CopyWFI.
  rewrite (int32_at_field _ _ _ _ H1) by (lia || done). cbn [obind].
  rewrite (read_at_field _ _ _ _ _ H3) by (lia || done). cbn [obind].
  rewrite (read_at_field _ _ _ _ _ H4) by (lia || done). cbn [obind].
  rewrite (read_at_field _ _ _ _ _ H5) by (lia || done). cbn [obind].
  rewrite (read_at_field _ _ _ _ _ H6) by (lia || done). cbn [obind].
  rewrite (read_at_field _ _ _ _ _ H7) by (lia || done). cbn [obind].
  rewrite (read_at_field _ _ _ _ _ H8) by (lia || done). cbn [obind].
  rewrite (read_byte_field _ _ _ _ H9) by lia. cbn [obind].
  rewrite (read_cstring_field _ _ _ _ H10) by (lia || done). cbn [obind].
  by destruct wfi as [? ? ? ? ? ? ? ? [|] ?].
Qed.
End copy_from.

(** ** Properties *)

(** What [Write] then [CopyFrom] at the same address give, with room for the
    record: [Write] advances by [SizeOf], keeps the other bytes, and leaves a
    memory from which [read] returns [r]. *)
Definition written_and_read {T A} `{SimpleSerializer T} (x : T)
    (read : byte_list -> Z -> outcome A) (r : byte_list -> A -> Prop) : Prop :=
  forall mem dest, 0 <= dest -> dest + SizeOf x <= Z.of_nat (length mem) ->
  exists mem' a, Write x mem dest = Ok (mem', dest + SizeOf x) /\
    same_on (beyond dest (dest + SizeOf x)) mem mem' /\ read mem' dest = Ok a /\ r mem' a.

Lemma written_and_read_stored {T A} `{SerializerLaws T} (x : T) read (r : byte_list -> A -> Prop) :
  representable x ->
  (forall mem ptr, stored x mem ptr -> exists a, read mem ptr = Ok a /\ r mem a) ->
  written_and_read x read r.
Proof.
  intros Hx Hr mem dest Hd Hl. destruct (Write_spec x Hx) as [_ Hw _].
  destruct (Hw mem dest Hd Hl) as (mem' & E & Hst & HS). destruct (Hr mem' dest Hst) as (a & Ea & Ha).
  by exists mem', a.
Qed.

(** The fast function has the written fields of [f] and, at every address, its
    lines; whether it stands for several symbols is lost. *)
Definition same_function (f : Function_) (mem : byte_list) (ff : FastFunction) : Prop :=
  fast_name ff = function_name f /\ fast_address ff = function_address f /\
  fast_size ff = function_size f /\ fast_parameter_size ff = function_parameter_size f /\
  fast_is_multiple ff = None /\
  forall a, exists s, StaticRangeMap_RetrieveRange mem 8 (fast_lines ff) a = Ok s /\
    same_range_result mem (RangeMap.RetrieveRange 64 (map_ (lines f)) a) s.

Lemma Function_read_back f mem ptr :
  function_ok f -> RangeMap.wf 64 (map_ (lines f)) -> stored_function f mem ptr ->
  exists ff, Function_CopyFrom mem ptr = Ok ff /\ same_function f mem ff.
Proof.
  intros Hf Hw Hst. destruct (Function_CopyFrom_stored mem ptr f Hst Hf) as [Hl ->].
  eexists. split; [done|]. do 5 (split; [done|]). intros a.
  apply (StaticRangeMap_RetrieveRange_refines mem 8 (lines f) _ Hl (RangeMap.wf_sorted _ _ Hw)).
  apply Forall_forall. intros p Hp. pose proof (RangeMap.wf_range_ok _ _ _ Hw Hp) as Hr.
  unfold range_ok in Hr. unfold uint. simpl. lia.
Qed.

Definition example_line : Line := mkLine 0x1000 0x10 1 44.

Definition example_function : Function_ :=
  mkFunction (str "f") 0x1000 0x20 8 false
    (mkRangeMap kExclusiveRanges [(0x100f, mkRange 0x1000 0 (Some example_line))]).

Definition example_frame_info : WindowsFrameInfo :=
  new_frame_info 4 1 2 3 4 5 6 0 (str "$T0 $ebp =").

(** Closed side conditions of the serializers. *)
Ltac closed_ok :=
  repeat (apply conj || apply Forall_cons_2 || apply Forall_nil_2 || exact I ||
          (unfold uint, int32; simpl; lia) || (vm_compute; reflexivity) || (vm_compute; (discriminate || (split; (reflexivity || discriminate))))).

Lemma example_function_ok : function_ok example_function.
Proof.
  unfold function_ok, serializable_ranges, map_fits, no_nul, key_ok. simpl.
  repeat apply conj. all: try (unfold int32, uint; simpl; lia).
  all: try (closed_ok; fail).
  all: closed_ok.
Qed.

Lemma example_frame_info_ok : frame_info_ok example_frame_info.
Proof. unfold frame_info_ok, no_nul. repeat apply conj; closed_ok. Qed.

(** C34: what of the records survives serialization.  From what their
    serializers write, [CopyFrom] reads back every member of a line, the name,
    the address and the parameter size of a public symbol, the name, the
    address, the size, the parameter size and every lookup in the lines of a
    function, and [CopyWFI] every member of a Windows frame record but [valid],
    which it sets to [VALID_ALL].  [is_multiple] does not survive: the
    serializers of functions and public symbols do not write it, and [CopyFrom]
    leaves it uninitialised.  The serializers advance by [SizeOf] and touch no
    other byte. *)
Theorem records_roundtrip (l : Line) (p : PublicSymbol) (f : Function_) (w : WindowsFrameInfo) :
  line_ok l -> symbol_ok p -> function_ok f -> RangeMap.wf 64 (map_ (lines f)) -> frame_info_ok w ->
  written_and_read l Line_CopyFrom (fun _ l' => l' = l) /\
  written_and_read p PublicSymbol_CopyFrom (fun _ p' =>
    p' = mkFastPublicSymbol (symbol_name p) (symbol_address p) (symbol_parameter_size p) None) /\
  written_and_read f Function_CopyFrom (same_function f) /\
  written_and_read w CopyWFI (fun _ w' => w' = with_valid w VALID_ALL).
Proof.
  intros Hl Hp Hf Hlines Hw. repeat apply conj; apply written_and_read_stored; try done; intros mem ptr Hst.
  - exists l. split; [by apply (Line_CopyFrom_stored mem ptr l)|done].
  - eexists. split; [by apply (PublicSymbol_CopyFrom_stored mem ptr p)|done].
  - by apply Function_read_back.
  - eexists. split; [by apply (CopyWFI_stored mem ptr w)|done].
Qed.

Definition example_symbol : PublicSymbol := mkPublicSymbol (str "p") 0x1040 4 false.

Lemma records_roundtrip_witness :
  written_and_read example_line Line_CopyFrom (fun _ l => l = example_line) /\
  written_and_read example_symbol PublicSymbol_CopyFrom (fun _ p =>
    p = mkFastPublicSymbol (str "p") 0x1040 4 None) /\
  written_and_read example_function Function_CopyFrom (same_function example_function) /\
  written_and_read example_frame_info CopyWFI (fun _ w => w = example_frame_info).
Proof.
  apply (records_roundtrip example_line example_symbol example_function example_frame_info).
  - unfold line_ok. closed_ok.
  - unfold symbol_ok, no_nul. closed_ok.
  - exact example_function_ok.
  - apply (bool_decide_unpack _). vm_compute. exact I.
  - exact example_frame_info_ok.
Defined.
