(* ===== verification/SymbolModule.v ===== *)
(** * The modules of the basic resolver (processor/basic_source_line_resolver_types.h,
    basic_source_line_resolver.cc, source_line_resolver_base.cc)

    What [BasicSourceLineResolver::Module] knows about a module, and the three
    questions it answers for a stack frame: the function and source line
    ([LookupAddress]), the Windows frame data ([FindWindowsFrameInfo]) and the
    CFI rules ([FindCFIFrameInfo]). *)

From S2P Require Import Prelude LibcSupport OrderedMap AddressMap RangeMap ContainedRangeMap Tokens CfiFrameInfo SymbolRecords.
#[local] Open Scope Z_scope.

(** The members of [StackFrame] the resolvers use; [module_base] is
    [module->base_address()]. *)
Record StackFrame : Type := mkStackFrame {
  instruction : Z;
  module_base : Z;
  frame_function_name : chars;
  frame_function_base : Z;
  frame_source_file_name : chars;
  frame_source_line : Z;
  frame_source_line_base : Z;
}.

Definition set_function (frame : StackFrame) (name : chars) (base : Z) : StackFrame :=
  mkStackFrame (instruction frame) (module_base frame) name base
    (frame_source_file_name frame) (frame_source_line frame) (frame_source_line_base frame).

Definition set_source_file (frame : StackFrame) (file : chars) : StackFrame :=
  mkStackFrame (instruction frame) (module_base frame) (frame_function_name frame)
    (frame_function_base frame) file (frame_source_line frame) (frame_source_line_base frame).

Definition set_source_line (frame : StackFrame) (line base : Z) : StackFrame :=
  mkStackFrame (instruction frame) (module_base frame) (frame_function_name frame)
    (frame_function_base frame) (frame_source_file_name frame) line base.

(** [frame->instruction - frame->module->base_address()] *)
Definition frame_address (frame : StackFrame) : Z := wrap 64 (instruction frame - module_base frame).

(** [BasicSourceLineResolver::Module]; [windows_frame_info_] has
    [STACK_INFO_LAST] elements.  The type of a pointer to a function is a
    parameter: a [linked_ptr], or an address while the file is loaded. *)
Record Module (F : Type) : Type := mkModule {
  files_ : list (Z * chars);
  functions_ : RangeMap F;
  public_symbols_ : list (Z * option PublicSymbol);
  is_corrupt_ : bool;
  windows_frame_info_ : list (ContainedRangeMap (option WindowsFrameInfo));
  cfi_initial_rules_ : RangeMap chars;
  cfi_delta_rules_ : list (Z * chars);
}.
Arguments mkModule {F} _ _ _ _ _ _ _.
Arguments files_ {F} _.
Arguments functions_ {F} _.
Arguments public_symbols_ {F} _.
Arguments is_corrupt_ {F} _.
Arguments windows_frame_info_ {F} _.
Arguments cfi_initial_rules_ {F} _.
Arguments cfi_delta_rules_ {F} _.

Abbreviation BasicModule := (Module (option Function_)).

(** [address >= base && address - base < size] *)
Definition in_range (address base size : Z) : bool :=
  (base <=? address) && (wrap 64 (address - base) <? size).

(** [!func.get() || public_address > function_base], for what
    [RetrieveNearestRange] found. *)
Definition after_function {F} (nearest : option (Retrieved (option F))) (public_address : Z) : bool :=
  match nearest with
  | None => true
  | Some r => match out_entry r with None => true | Some _ => out_base r <? public_address end
  end.

Definition nearest_covers {F} (address : Z) (nearest : option (Retrieved F)) : bool :=
  match nearest with
  | None => false
  | Some r => in_range address (out_base r) (out_size r)
  end.

(** The source line of [func] at [address]. *)
Definition lookup_line (files : list (Z * chars)) (func : Function_) (address : Z)
    (frame : StackFrame) : outcome StackFrame :=
  match RangeMap.RetrieveRange 64 (map_ (lines func)) address with
  | None => Ok frame
  | Some r =>
      let? line := of_option (out_entry r) in
      let frame :=
        match OrderedMap.find_value files (source_file_id line) with
        | Some file => set_source_file frame file
        | None => frame
        end in
      Ok (set_source_line frame (line_ line) (wrap 64 (module_base frame + out_base r)))
  end.

Definition LookupAddress (m : BasicModule) (frame : StackFrame) : outcome StackFrame :=
  let address := frame_address frame in
  let? nearest := RangeMap.RetrieveNearestRange 64 (map_ (functions_ m)) address in
  if nearest_covers address nearest then
    let? r := of_option nearest in
    let? func := of_option (out_entry r) in
    let frame := set_function frame (function_name func) (wrap 64 (module_base frame + out_base r)) in
    lookup_line (files_ m) func address frame
  else
    let? found := AddressMap.Retrieve (public_symbols_ m) address in
    match found with
    | Some (public_symbol, public_address) =>
        if after_function nearest public_address then
          let? public_symbol := of_option public_symbol in
          Ok (set_function frame (symbol_name public_symbol)
                (wrap 64 (module_base frame + public_address)))
        else Ok frame
    | None => Ok frame
    end.

(** The address of the frame is never changed. *)
Lemma LookupAddress_instruction m frame frame' :
  LookupAddress m frame = Ok frame' -> instruction frame' = instruction frame.
Proof.
  assert (forall files func a f f', lookup_line files func a f = Ok f' -> instruction f' = instruction f) as Hline.
  { intros files func a f f'. unfold lookup_line. destruct (RangeMap.RetrieveRange _ _ _) as [r|]; [|by intros [= <-]].
    intros (line & _ & [= <-])%obind_Ok. by destruct (OrderedMap.find_value _ _). }
  unfold LookupAddress. intros (nearest & _ & H)%obind_Ok. destruct (nearest_covers _ _).
  - apply obind_Ok in H as (r & _ & H). apply obind_Ok in H as (func & _ & H). by apply Hline in H.
  - apply obind_Ok in H as (found & _ & H). destruct found as [[symbol a]|]; [|by injection H as <-].
    destruct (after_function _ _); [|by injection H as <-]. apply obind_Ok in H as (x & _ & H). by injection H as <-.
Qed.

(** The first of the two maps that has an entry; NULL entries are never
    stored, so the entry is a record. *)
Definition retrieve_frame_info (maps : list (ContainedRangeMap (option WindowsFrameInfo)))
    (address : Z) : outcome (option (option WindowsFrameInfo)) :=
  let? frame_data := of_option (maps !! STACK_INFO_FRAME_DATA) in
  let? found := ContainedRangeMap.RetrieveRange frame_data address in
  match found with
  | Some e => Ok (Some e)
  | None =>
      let? fpo := of_option (maps !! STACK_INFO_FPO) in
      ContainedRangeMap.RetrieveRange fpo address
  end.

(** [None] for NULL.  The public symbol's parameter size is stored in a
    [result] that is then discarded. *)
Definition FindWindowsFrameInfo (m : BasicModule) (frame : StackFrame) :
    outcome (option WindowsFrameInfo) :=
  let address := frame_address frame in
  let result := empty_frame_info in
  let? found := retrieve_frame_info (windows_frame_info_ m) address in
  match found with
  | Some frame_info =>
      let? frame_info := of_option frame_info in
      Ok (Some (WindowsFrameInfo_CopyFrom result frame_info))
  | None =>
      let? nearest := RangeMap.RetrieveNearestRange 64 (map_ (functions_ m)) address in
      if nearest_covers address nearest then
        let? r := of_option nearest in
        let? func := of_option (out_entry r) in
        let result := with_parameter_size result (wrap 32 (function_parameter_size func)) in
        Ok (Some (with_valid result (Z.lor (valid result) VALID_PARAMETER_SIZE)))
      else
        let? found := AddressMap.Retrieve (public_symbols_ m) address in
        let? result :=
          match found with
          | Some (public_symbol, public_address) =>
              if after_function nearest public_address then
                let? public_symbol := of_option public_symbol in
                Ok (with_parameter_size result (wrap 32 (symbol_parameter_size public_symbol)))
              else Ok result
          | None => Ok result
          end in
        Ok None
  end.

(** [SourceLineResolverBase::Module::ParseCFIRuleSet] *)
Definition ParseCFIRuleSet (rule_set : chars) (frame_info : CFIFrameInfo) :
    outcome (bool * CFIFrameInfo) := CfiFrameInfo.Parse rule_set frame_info.

(** The loop over the delta rules from the iterator [delta]. *)
Fixpoint apply_deltas (delta : list (Z * chars)) (address : Z) (rules : CFIFrameInfo) :
    outcome CFIFrameInfo :=
  match delta with
  | [] => Ok rules
  | (key, rule_set) :: delta =>
      if key <=? address then
        let? (_, rules) := ParseCFIRuleSet rule_set rules in apply_deltas delta address rules
      else Ok rules
  end.

Definition FindCFIFrameInfo (m : BasicModule) (frame : StackFrame) : outcome (option CFIFrameInfo) :=
  let address := frame_address frame in
  match RangeMap.RetrieveRange 64 (map_ (cfi_initial_rules_ m)) address with
  | None => Ok None
  | Some r =>
      let? (ok, rules) := ParseCFIRuleSet (out_entry r) empty_info in
      if negb ok then Ok None
      else
        let delta := drop (OrderedMap.lower_bound (cfi_delta_rules_ m) (out_base r))
                          (cfi_delta_rules_ m) in
        let? rules := apply_deltas delta address rules in
        Ok (Some rules)
  end.

(** ** The invariant of a module

    The maps are ordered, their ranges are disjoint and leave an address free
    (so that the size of a range does not wrap), no pointer in them is NULL. *)
Definition ranges_wf {E} (m : list (Z * Range E)) : Prop :=
  RangeMap.wf 64 m /\ Forall (fun p => p.1 - base_ p.2 < 2 ^ 64 - 1) m.

Definition no_null {E} (m : list (Z * Range (option E))) : Prop :=
  Forall (fun p => is_Some (entry_ p.2)) m.

Definition function_wf (f : Function_) : Prop :=
  RangeMap.wf 64 (map_ (lines f)) /\ no_null (map_ (lines f)).

Definition tree_wf (t : ContainedRangeMap (option WindowsFrameInfo)) : Prop :=
  wf_root 64 t /\ Forall (fun r => is_Some r.2) (descendants t).

Record module_wf (m : BasicModule) : Prop := {
  wf_files : sorted (files_ m);
  wf_functions : ranges_wf (map_ (functions_ m));
  wf_functions_entries p : p ∈ map_ (functions_ m) ->
    exists f, entry_ p.2 = Some f /\ function_wf f;
  wf_symbols : sorted (public_symbols_ m);
  wf_symbols_entries p : p ∈ public_symbols_ m -> is_Some p.2;
  wf_frame_info_count : length (windows_frame_info_ m) = STACK_INFO_LAST;
  wf_frame_info : Forall tree_wf (windows_frame_info_ m);
  wf_cfi : RangeMap.wf 64 (map_ (cfi_initial_rules_ m));
  wf_deltas : sorted (cfi_delta_rules_ m);
}.

(** ** What the questions mean

    [p] covers the address [a]. *)
Definition covers {E} (p : Z * Range E) (a : Z) : Prop := base_ p.2 <= a <= p.1.

(** The file the line names, when the module knows it. *)
Inductive source_file (files : list (Z * chars)) (id : Z) (frame : StackFrame) : StackFrame -> Prop :=
| file_known file : (id, file) ∈ files -> source_file files id frame (set_source_file frame file)
| file_unknown : (forall file, (id, file) ∉ files) -> source_file files id frame frame.

(** The line record of [f] over [a]. *)
Inductive source_line (files : list (Z * chars)) (f : Function_) (a : Z) (frame : StackFrame) :
    StackFrame -> Prop :=
| line_found p l frame' :
    p ∈ map_ (lines f) -> covers p a -> entry_ p.2 = Some l ->
    source_file files (source_file_id l) frame frame' ->
    source_line files f a frame
      (set_source_line frame' (line_ l) (wrap 64 (module_base frame + base_ p.2)))
| line_missing : (forall p, p ∈ map_ (lines f) -> ~ covers p a) -> source_line files f a frame frame.

(** Every function that starts at or below [a] starts below [k]. *)
Definition after_functions (m : BasicModule) (a k : Z) : Prop :=
  forall p, p ∈ map_ (functions_ m) -> base_ p.2 <= a -> base_ p.2 < k.

(** The function over [a] with its line, else the last public symbol at or
    below [a] if no function starts between them. *)
Inductive symbolized (m : BasicModule) (a : Z) (frame : StackFrame) : StackFrame -> Prop :=
| by_function p f frame' :
    p ∈ map_ (functions_ m) -> covers p a -> entry_ p.2 = Some f ->
    source_line (files_ m) f a
      (set_function frame (function_name f) (wrap 64 (module_base frame + base_ p.2))) frame' ->
    symbolized m a frame frame'
| by_symbol k s :
    (forall p, p ∈ map_ (functions_ m) -> ~ covers p a) ->
    last_at_most (public_symbols_ m) a (k, Some s) -> after_functions m a k ->
    symbolized m a frame (set_function frame (symbol_name s) (wrap 64 (module_base frame + k)))
| by_nothing :
    (forall p, p ∈ map_ (functions_ m) -> ~ covers p a) ->
    (forall q, q ∈ public_symbols_ m -> q.1 <= a -> ~ after_functions m a q.1) ->
    symbolized m a frame frame.

(** ** LookupAddress *)

Lemma frame_address_uint frame : uint 64 (frame_address frame).
Proof. apply wrap_uint. lia. Qed.

Lemma in_range_covers {E} (m : list (Z * Range E)) p a :
  ranges_wf m -> p ∈ m -> uint 64 a ->
  in_range a (base_ p.2) (out_size (retrieved 64 p)) = true <-> covers p a.
Proof.
  intros [Hwf Hsz] Hp Ha. pose proof (RangeMap.wf_range_ok _ _ _ Hwf Hp) as Hr. unfold range_ok in Hr.
  rewrite Forall_forall in Hsz. specialize (Hsz p Hp). unfold in_range, covers. simpl out_size.
  rewrite (wrap_small 64 (p.1 - base_ p.2)), (wrap_small 64 (_ + 1)) by (unfold uint; lia).
  unfold uint in Ha. rewrite andb_true_iff, Z.leb_le, Z.ltb_lt. split; intros [H1 H2].
  - rewrite wrap_small in H2 by (unfold uint; lia). lia.
  - rewrite wrap_small by (unfold uint; lia). lia.
Qed.

(** A range over [a] is the nearest one. *)
Lemma nearest_unique {E} (m : list (Z * Range E)) a p q :
  RangeMap.wf 64 m -> nearest m a p -> q ∈ m -> covers q a -> p = q.
Proof.
  intros Hwf (Hp & Hpa & Hmax) Hq Hc. unfold covers in Hc.
  pose proof (Hmax q Hq ltac:(lia)) as Hle.
  pose proof (RangeMap.wf_range_ok _ _ _ Hwf Hp) as Hrp. pose proof (RangeMap.wf_range_ok _ _ _ Hwf Hq) as Hrq.
  unfold range_ok in *.
  destruct (RangeMap.wf_pair 64 m p q Hwf Hp Hq) as [->|[Hb|Hb]]; unfold below in *; [done|lia|lia].
Qed.

Lemma nearest_covers_spec {E} (m : list (Z * Range E)) a o :
  ranges_wf m -> uint 64 a -> nearest_result 64 m a o ->
  if nearest_covers a o then exists p, p ∈ m /\ covers p a /\ o = Some (retrieved 64 p)
  else forall p, p ∈ m -> ~ covers p a.
Proof.
  intros Hwf Ha Ho. destruct o as [r|]; simpl in Ho.
  - destruct Ho as (p & Hn & ->). pose proof Hn as (Hp & _).
    pose proof (in_range_covers m p a Hwf Hp Ha) as Hc. cbn [nearest_covers].
    change (out_base (retrieved 64 p)) with (base_ p.2).
    destruct (in_range _ _ _); [exists p; split; [done|]; split; [by apply Hc|done]|].
    intros q Hq Hqa. pose proof (nearest_unique m a p q (proj1 Hwf) Hn Hq Hqa) as <-.
    by apply Hc in Hqa.
  - intros p Hp Hc. specialize (Ho p Hp). unfold covers in Hc. lia.
Qed.

Lemma after_function_spec m a o k :
  module_wf m -> nearest_result 64 (map_ (functions_ m)) a o ->
  after_function o k = true <-> after_functions m a k.
Proof.
  intros Hwf Ho. unfold after_function, after_functions. destruct o as [r|]; simpl in Ho.
  - destruct Ho as (p & (Hp & Hpa & Hmax) & ->).
    destruct (wf_functions_entries _ Hwf p Hp) as (f & Hf & _). simpl. rewrite Hf, Z.ltb_lt. split.
    + intros Hk q Hq Hqa. specialize (Hmax q Hq Hqa). lia.
    + intros H. by apply H.
  - split; [|done]. intros _ p Hp Hpa. specialize (Ho p Hp). lia.
Qed.

Lemma lookup_line_spec files f a frame :
  sorted files -> function_wf f ->
  exists frame', lookup_line files f a frame = Ok frame' /\ source_line files f a frame frame'.
Proof.
  intros Hs [Hwf Hnn]. unfold lookup_line.
  pose proof (RangeMap.RetrieveRange_spec 64 (map_ (lines f)) a) as Hr.
  destruct (RangeMap.RetrieveRange 64 (map_ (lines f)) a) as [r|].
  - destruct (proj1 (Hr r Hwf) eq_refl) as (p & Hp & Hc & ->).
    unfold no_null in Hnn. rewrite Forall_forall in Hnn. destruct (Hnn p Hp) as [l Hl].
    simpl. rewrite Hl. cbn [of_option obind].
    destruct (OrderedMap.find_value files (source_file_id l)) as [file|] eqn:Ef;
      (eexists (set_source_line _ (line_ l) (wrap 64 (module_base frame + base_ p.2)));
       split; [reflexivity|]).
    + apply (line_found _ _ _ _ p l (set_source_file frame file) Hp Hc Hl).
      apply file_known. by apply find_value_Some in Ef.
    + apply (line_found _ _ _ _ p l frame Hp Hc Hl).
      apply file_unknown. by apply (find_value_None _ _ Hs).
  - exists frame. split; [done|]. apply line_missing. intros p Hp Hc.
    specialize (Hr (retrieved 64 p) Hwf). destruct Hr as [_ Hr].
    by specialize (Hr ltac:(by exists p)).
Qed.

Lemma LookupAddress_spec m frame :
  module_wf m ->
  exists frame', LookupAddress m frame = Ok frame' /\ symbolized m (frame_address frame) frame frame'.
Proof.
  intros Hwf. pose proof (frame_address_uint frame) as Ha. unfold LookupAddress. cbv zeta.
  set (a := frame_address frame) in *.
  destruct (RangeMap.RetrieveNearestRange_spec 64 (map_ (functions_ m)) a (proj1 (wf_functions _ Hwf)))
    as (o & -> & Ho). cbn [obind].
  pose proof (nearest_covers_spec _ a o (wf_functions _ Hwf) Ha Ho) as Hc.
  destruct (nearest_covers a o).
  - destruct Hc as (p & Hp & Hpa & ->). cbn [obind of_option].
    destruct (wf_functions_entries _ Hwf p Hp) as (f & Hf & Hfw).
    change (out_base (retrieved 64 p)) with (base_ p.2).
    change (out_entry (retrieved 64 p)) with (entry_ p.2). rewrite Hf. cbn [obind of_option].
    destruct (lookup_line_spec (files_ m) f a
      (set_function frame (function_name f) (wrap 64 (module_base frame + base_ p.2))))
      as (frame' & -> & Hl); [apply Hwf|done|].
    exists frame'. split; [done|]. by apply (by_function _ _ _ p f).
  - destruct (AddressMap.Retrieve_spec (public_symbols_ m) a (wf_symbols _ Hwf)) as (found & -> & Hf).
    cbn [obind]. destruct found as [[s k]|]; simpl in Hf.
    + pose proof (after_function_spec m a o k Hwf Ho) as Hk.
      pose proof (wf_symbols_entries _ Hwf _ (proj1 Hf)) as [s' Hs']. simpl in Hs'. subst s.
      destruct (after_function o k).
      * eexists. split; [done|]. apply by_symbol; [done..|]. by apply Hk.
      * exists frame. split; [done|]. apply by_nothing; [done|]. intros q Hq Hqa Haf.
        assert (false = true); [|done]. apply Hk. intros p Hp Hpa. specialize (Haf p Hp Hpa).
        destruct Hf as (_ & _ & Hmax). specialize (Hmax q Hq Hqa). simpl in Hmax. lia.
    + exists frame. split; [done|]. apply by_nothing; [done|]. intros q Hq Hqa.
      specialize (Hf q Hq). lia.
Qed.

(** ** FindWindowsFrameInfo

    The record of map [i] with the innermost range around [a]. *)
Definition frame_record (m : BasicModule) (i : nat) (a : Z) (w : WindowsFrameInfo) : Prop :=
  exists t r, windows_frame_info_ m !! i = Some t /\ innermost (descendants t) a r /\ r.2 = Some w.

Definition no_frame_record (m : BasicModule) (i : nat) (a : Z) : Prop :=
  exists t, windows_frame_info_ m !! i = Some t /\ forall r, r ∈ descendants t -> ~ contains a r.

(** FRAME_DATA records, then FPO records, then what the function says of its
    parameters; nothing from a public symbol. *)
Inductive frame_data (m : BasicModule) (a : Z) : option WindowsFrameInfo -> Prop :=
| by_frame_data w : frame_record m STACK_INFO_FRAME_DATA a w -> frame_data m a (Some w)
| by_fpo w :
    no_frame_record m STACK_INFO_FRAME_DATA a -> frame_record m STACK_INFO_FPO a w ->
    frame_data m a (Some w)
| by_parameters p f :
    no_frame_record m STACK_INFO_FRAME_DATA a -> no_frame_record m STACK_INFO_FPO a ->
    p ∈ map_ (functions_ m) -> covers p a -> entry_ p.2 = Some f ->
    frame_data m a (Some (with_valid
      (with_parameter_size empty_frame_info (wrap 32 (function_parameter_size f)))
      VALID_PARAMETER_SIZE))
| by_no_record :
    no_frame_record m STACK_INFO_FRAME_DATA a -> no_frame_record m STACK_INFO_FPO a ->
    (forall p, p ∈ map_ (functions_ m) -> ~ covers p a) ->
    frame_data m a None.

Lemma retrieve_record m i a :
  module_wf m -> (i < STACK_INFO_LAST)%nat ->
  exists t o, windows_frame_info_ m !! i = Some t /\ ContainedRangeMap.RetrieveRange t a = Ok o /\
    match o with
    | Some e => exists w, e = Some w /\ frame_record m i a w
    | None => no_frame_record m i a
    end.
Proof.
  intros Hwf Hi. rewrite <- (wf_frame_info_count _ Hwf) in Hi.
  destruct (lookup_lt_is_Some_2 _ _ Hi) as [t Ht].
  pose proof (wf_frame_info _ Hwf) as Hall. rewrite Forall_lookup in Hall.
  destruct (Hall _ _ Ht) as [Hroot Hnn]. rewrite Forall_forall in Hnn.
  destruct (RetrieveRange_fuel_spec 64 (S (height t)) t (-1) (2 ^ 64) a) as (o & Ho & Hr);
    [lia|exact Hroot|].
  exists t, o. split; [done|]. split; [exact Ho|]. destruct o as [e|]; simpl in Hr.
  - destruct Hr as (r & Hin & <-). destruct (Hnn r (proj1 Hin)) as [w Hw].
    exists w. split; [done|]. by exists t, r.
  - by exists t.
Qed.

Lemma FindWindowsFrameInfo_spec m frame :
  module_wf m ->
  exists o, FindWindowsFrameInfo m frame = Ok o /\ frame_data m (frame_address frame) o.
Proof.
  intros Hwf. pose proof (frame_address_uint frame) as Ha. unfold FindWindowsFrameInfo. cbv zeta.
  set (a := frame_address frame) in *. unfold retrieve_frame_info.
  destruct (retrieve_record m STACK_INFO_FRAME_DATA a Hwf ltac:(unfold STACK_INFO_FRAME_DATA, STACK_INFO_LAST; lia))
    as (t4 & o4 & -> & E4 & H4). cbn [obind of_option]. rewrite E4. cbn [obind].
  destruct o4 as [e4|].
  { destruct H4 as (w & -> & Hw). cbn [obind of_option]. exists (Some w).
    split; [by destruct w|by apply by_frame_data]. }
  destruct (retrieve_record m STACK_INFO_FPO a Hwf ltac:(unfold STACK_INFO_FPO, STACK_INFO_LAST; lia))
    as (t0 & o0 & -> & E0 & H0). cbn [obind of_option]. rewrite E0. cbn [obind].
  destruct o0 as [e0|].
  { destruct H0 as (w & -> & Hw). cbn [obind of_option]. exists (Some w).
    split; [by destruct w|by apply by_fpo]. }
  destruct (RangeMap.RetrieveNearestRange_spec 64 (map_ (functions_ m)) a (proj1 (wf_functions _ Hwf)))
    as (o & -> & Ho). cbn [obind].
  pose proof (nearest_covers_spec _ a o (wf_functions _ Hwf) Ha Ho) as Hc.
  destruct (nearest_covers a o).
  - destruct Hc as (p & Hp & Hpa & ->). cbn [obind of_option].
    destruct (wf_functions_entries _ Hwf p Hp) as (f & Hf & _).
    change (out_entry (retrieved 64 p)) with (entry_ p.2). rewrite Hf. cbn [obind of_option].
    eexists. split; [done|]. by apply (by_parameters _ _ p f).
  - destruct (AddressMap.Retrieve_spec (public_symbols_ m) a (wf_symbols _ Hwf)) as (found & -> & Hf).
    cbn [obind]. exists None. split; [|by apply by_no_record].
    destruct found as [[s k]|]; simpl in Hf; [|done].
    destruct (after_function o k); [|done].
    destruct (wf_symbols_entries _ Hwf _ (proj1 Hf)) as [s' Hs']. simpl in Hs'. by subst s.
Qed.

(** ** FindCFIFrameInfo

    The rule sets parsed one after the other into the same rules. *)
Fixpoint parse_all (rule_sets : list chars) (rules : CFIFrameInfo) : outcome CFIFrameInfo :=
  match rule_sets with
  | [] => Ok rules
  | s :: rule_sets => let? (_, rules) := ParseCFIRuleSet s rules in parse_all rule_sets rules
  end.

(** The delta rules of [m] from [base] to [a], in order. *)
Definition deltas_between (m : BasicModule) (base a : Z) : list chars :=
  (filter (fun q => base <= q.1 <= a) (cfi_delta_rules_ m)).*2.

Inductive cfi_rules (m : BasicModule) (a : Z) : option CFIFrameInfo -> Prop :=
| no_cfi : (forall p, p ∈ map_ (cfi_initial_rules_ m) -> ~ covers p a) -> cfi_rules m a None
| bad_cfi p rules :
    p ∈ map_ (cfi_initial_rules_ m) -> covers p a ->
    ParseCFIRuleSet (entry_ p.2) empty_info = Ok (false, rules) -> cfi_rules m a None
| cfi_found p initial rules :
    p ∈ map_ (cfi_initial_rules_ m) -> covers p a ->
    ParseCFIRuleSet (entry_ p.2) empty_info = Ok (true, initial) ->
    parse_all (deltas_between m (base_ p.2) a) initial = Ok rules ->
    cfi_rules m a (Some rules).

Lemma parse_all_total rule_sets : forall rules, exists rules', parse_all rule_sets rules = Ok rules'.
Proof.
  induction rule_sets as [|s rule_sets IH]; intros rules; simpl; [eauto|].
  destruct (Parse_tokens s rules) as (ts & _ & E). unfold ParseCFIRuleSet. rewrite E.
  destruct (parse_tokens ts [] [] rules) as [ok rules']. cbn [obind]. apply IH.
Qed.

Lemma apply_deltas_filter a delta : forall rules,
  sorted delta ->
  apply_deltas delta a rules = parse_all (filter (fun q => q.1 <= a) delta).*2 rules.
Proof.
  induction delta as [|[k s] delta IH]; intros rules Hs; [done|].
  apply sorted_cons in Hs as [Hk Hs]. cbn [apply_deltas]. rewrite filter_cons. simpl fst.
  destruct (Z.leb_spec k a) as [Hle|Hlt].
  - rewrite decide_True by done. cbn [fmap list_fmap parse_all snd].
    destruct (ParseCFIRuleSet s rules) as [[ok rules']|]; cbn [obind]; [by apply IH|done].
  - rewrite decide_False by lia. assert (filter (fun q => q.1 <= a) delta = []) as ->; [|done].
    apply filter_none. eapply Forall_impl; [exact Hk|]. intros q Hq. apply Z.ltb_lt in Hq. simpl in Hq. lia.
Qed.

Lemma deltas_from m base a rules :
  sorted (cfi_delta_rules_ m) ->
  apply_deltas (drop (OrderedMap.lower_bound (cfi_delta_rules_ m) base) (cfi_delta_rules_ m)) a rules =
  parse_all (deltas_between m base a) rules.
Proof.
  intros Hs. destruct (lower_bound_spec _ base Hs) as [H1 H2]. unfold deltas_between.
  set (n := OrderedMap.lower_bound _ _) in *.
  rewrite <- (take_drop n (cfi_delta_rules_ m)) in Hs. apply sorted_app in Hs as (_ & _ & Hs).
  rewrite apply_deltas_filter by done. f_equal.
  rewrite <- (take_drop n (cfi_delta_rules_ m)) at 2. rewrite filter_app.
  rewrite (filter_none _ (take n _)).
  2: { eapply Forall_impl; [exact H1|]. intros q Hq. apply Z.ltb_lt in Hq. lia. }
  cbn [app]. f_equal. apply filter_iff. eapply Forall_impl; [exact H2|].
  intros q Hq. apply Z.ltb_ge in Hq. simpl in *. lia.
Qed.

Lemma FindCFIFrameInfo_rules m frame :
  RangeMap.wf 64 (map_ (cfi_initial_rules_ m)) -> sorted (cfi_delta_rules_ m) ->
  exists o, FindCFIFrameInfo m frame = Ok o /\ cfi_rules m (frame_address frame) o.
Proof.
  intros Hwf Hsorted. unfold FindCFIFrameInfo. cbv zeta. set (a := frame_address frame).
  pose proof (RangeMap.RetrieveRange_spec 64 (map_ (cfi_initial_rules_ m)) a) as Hr.
  destruct (RangeMap.RetrieveRange 64 (map_ (cfi_initial_rules_ m)) a) as [r|].
  - destruct (proj1 (Hr r Hwf) eq_refl) as (p & Hp & Hc & ->).
    change (out_entry (retrieved 64 p)) with (entry_ p.2). change (out_base (retrieved 64 p)) with (base_ p.2).
    destruct (Parse_tokens (entry_ p.2) empty_info) as (ts & _ & E).
    unfold ParseCFIRuleSet at 1. rewrite E. destruct (parse_tokens ts [] [] empty_info) as [[|] rules];
      cbn [obind negb].
    + rewrite deltas_from by done.
      destruct (parse_all_total (deltas_between m (base_ p.2) a) rules) as [rules' Hall].
      rewrite Hall. cbn [obind]. exists (Some rules'). split; [done|]. by apply (cfi_found _ _ p rules).
    + exists None. split; [done|]. by apply (bad_cfi _ _ p rules).
  - exists None. split; [done|]. apply no_cfi. intros p Hp Hc.
    specialize (Hr (retrieved 64 p) Hwf). destruct Hr as [_ Hr].
    by specialize (Hr ltac:(by exists p)).
Qed.

Lemma FindCFIFrameInfo_spec m frame :
  module_wf m ->
  exists o, FindCFIFrameInfo m frame = Ok o /\ cfi_rules m (frame_address frame) o.
Proof. intros Hwf. apply FindCFIFrameInfo_rules; apply Hwf. Qed.

(** ** Properties *)

Definition example_contained_map : ContainedRangeMap (option WindowsFrameInfo) :=
  mkContained 0 None (Some [(0x10ff, mkContained 0x1080 (Some example_frame_info) None)]).

Definition empty_contained : ContainedRangeMap (option WindowsFrameInfo) := mkContained 0 None None.

Definition example_module : BasicModule :=
  mkModule [(1, str "a.cc")]
    (mkRangeMap kExclusiveRanges [(0x101f, mkRange 0x1000 0 (Some example_function))])
    [(0x1040, Some (mkPublicSymbol (str "p") 0x1040 4 false))]
    false
    [empty_contained; empty_contained; empty_contained; empty_contained; example_contained_map]
    (mkRangeMap kExclusiveRanges [(0x10ff, mkRange 0x1000 0 (str ".cfa: $esp 4 + .ra: .cfa 4 - ^"))])
    [(0x1002, str ".cfa: $esp 8 +")].

Definition example_frame (address : Z) : StackFrame :=
  mkStackFrame (0x400000 + address) 0x400000 [] 0 [] 0 0.

Lemma example_module_wf : module_wf example_module.
Proof.
  split; simpl.
  - repeat constructor.
  - split; [apply (bool_decide_unpack _); vm_compute; exact I|repeat constructor].
  - intros p ->%list_elem_of_singleton. exists example_function. split; [done|].
    split; [apply (bool_decide_unpack _); vm_compute; exact I|repeat constructor; simpl; eauto].
  - repeat constructor.
  - intros p ->%list_elem_of_singleton. simpl. eauto.
  - done.
  - repeat constructor; simpl; eauto; unfold within, ordered; simpl; lia.
  - apply (bool_decide_unpack _). vm_compute. exact I.
  - repeat constructor.
Qed.

(** C24: for every frame of a module whose maps are well formed,
    [LookupAddress] returns without dereferencing NULL or an invalid iterator
    and fills in the function over the instruction with its source line and
    file, or else the last public symbol at or below the instruction, if no
    function starts between them, or else nothing. *)
Theorem LookupAddress_functional (m : BasicModule) (frame : StackFrame) :
  module_wf m ->
  exists frame', LookupAddress m frame = Ok frame' /\ symbolized m (frame_address frame) frame frame'.
Proof. apply LookupAddress_spec. Qed.

Lemma LookupAddress_functional_witness :
  (exists frame', LookupAddress example_module (example_frame 0x1008) = Ok frame' /\
     symbolized example_module 0x1008 (example_frame 0x1008) frame') /\
  LookupAddress example_module (example_frame 0x1008) =
    Ok (mkStackFrame 0x401008 0x400000 (str "f") 0x401000 (str "a.cc") 44 0x401000) /\
  LookupAddress example_module (example_frame 0x1050) =
    Ok (mkStackFrame 0x401050 0x400000 (str "p") 0x401040 [] 0 0).
Proof.
  split; [|split; vm_compute; reflexivity].
  exact (LookupAddress_functional example_module (example_frame 0x1008) example_module_wf).
Defined.

(** C25: for every frame of a well-formed module, [FindWindowsFrameInfo]
    returns the innermost FRAME_DATA record over the instruction, else the
    innermost FPO record, else only the parameter size of the function, else
    NULL (a public symbol never contributes); and [FindCFIFrameInfo] returns
    the initial rules of the STACK CFI range over the instruction with every
    delta rule from the start of that range to the instruction applied in
    address order, or NULL when there is no range or its rules do not parse. *)
Theorem unwind_records_functional (m : BasicModule) (frame : StackFrame) :
  module_wf m ->
  (exists o, FindWindowsFrameInfo m frame = Ok o /\ frame_data m (frame_address frame) o) /\
  (exists o, FindCFIFrameInfo m frame = Ok o /\ cfi_rules m (frame_address frame) o).
Proof. intros Hwf. split; [by apply FindWindowsFrameInfo_spec|by apply FindCFIFrameInfo_spec]. Qed.

Lemma unwind_records_functional_witness :
  ((exists o, FindWindowsFrameInfo example_module (example_frame 0x1090) = Ok o /\
      frame_data example_module 0x1090 o) /\
   (exists o, FindCFIFrameInfo example_module (example_frame 0x1090) = Ok o /\
      cfi_rules example_module 0x1090 o)) /\
  FindWindowsFrameInfo example_module (example_frame 0x1090) = Ok (Some example_frame_info) /\
  FindCFIFrameInfo example_module (example_frame 0x1001) =
    Ok (Some (mkCFIFrameInfo (str "$esp 4 +") (str ".cfa 4 - ^") [])) /\
  FindCFIFrameInfo example_module (example_frame 0x1002) =
    Ok (Some (mkCFIFrameInfo (str "$esp 8 +") (str ".cfa 4 - ^") [])).
Proof.
  split; [|split; [|split]; vm_compute; reflexivity].
  exact (unwind_records_functional example_module (example_frame 0x1090) example_module_wf).
Defined.
