(* ===== verification/FastResolver.v ===== *)
(** * The fast resolver (processor/module_serializer.h, .cc,
    fast_source_line_resolver_types.h, fast_source_line_resolver.cc)

    [ModuleSerializer] lays a module of the basic resolver out in one buffer;
    [FastSourceLineResolver::Module] answers the questions of a module straight
    from that buffer.  The fast module refines the basic one: it gives the same
    answers for every frame. *)

From S2P Require Import Prelude Memory LibcSupport OrderedMap AddressMap RangeMap ContainedRangeMap StaticMap SimpleSerializer MapSerializers StaticMaps Tokens CfiFrameInfo CStrings SymbolRecords SymbolModule.
#[local] Open Scope Z_scope.

(** ** ModuleSerializer *)

Definition kNumberMaps_ : nat := 5 + STACK_INFO_LAST.

(** The sizes of the maps, as they are added up. *)
Definition module_map_sizes (m : BasicModule) : list Z :=
  [StdMap_SizeOf 4 (files_ m); RangeMap_SizeOf 8 (functions_ m); StdMap_SizeOf 8 (public_symbols_ m)]
  ++ (Contained_SizeOf 8 <$> windows_frame_info_ m)
  ++ [RangeMap_SizeOf 8 (cfi_initial_rules_ m); StdMap_SizeOf 8 (cfi_delta_rules_ m)].

(** [SizeOf]: the total size, and the [uint32_t] array [map_sizes_] it leaves. *)
Definition Module_SizeOf (m : BasicModule) : Z * list Z :=
  let total_size_alloc_ := bool_SizeOf (is_corrupt_ m) in
  let map_sizes_ := wrap 32 <$> module_map_sizes m in
  let total_size_alloc_ := total_size_alloc_ + Z.of_nat kNumberMaps_ * 4 in
  let total_size_alloc_ := foldl Z.add total_size_alloc_ map_sizes_ in
  let total_size_alloc_ := total_size_alloc_ + int_SizeOf 1 0 in
  (total_size_alloc_, map_sizes_).

(** The elements of an array, one after the other. *)
Fixpoint write_each {A} (write : A -> byte_list -> Z -> outcome (byte_list * Z)) (l : list A)
    (mem : byte_list) (dest : Z) : outcome (byte_list * Z) :=
  match l with
  | [] => Ok (mem, dest)
  | x :: l => let? (mem, dest) := write x mem dest in write_each write l mem dest
  end.

Definition Module_Write (map_sizes_ : list Z) (m : BasicModule) (mem : byte_list) (dest : Z) :
    outcome (byte_list * Z) :=
  let? (mem, dest) := bool_Write (is_corrupt_ m) mem dest in
  let? (mem, dest) := write_each (int_Write 4) map_sizes_ mem dest in
  let? (mem, dest) := StdMap_Write 4 (files_ m) mem dest in
  let? (mem, dest) := RangeMap_Write 8 (functions_ m) mem dest in
  let? (mem, dest) := StdMap_Write 8 (public_symbols_ m) mem dest in
  let? (mem, dest) := write_each (Contained_Write 8) (windows_frame_info_ m) mem dest in
  let? (mem, dest) := RangeMap_Write 8 (cfi_initial_rules_ m) mem dest in
  let? (mem, dest) := StdMap_Write 8 (cfi_delta_rules_ m) mem dest in
  int_Write 1 0 mem dest.

(** The buffer and [*size]. *)
Definition Module_Serialize (heap : nat -> byte_list) (m : BasicModule) : outcome (byte_list * Z) :=
  let (size, map_sizes_) := Module_SizeOf m in
  MapSerializers.Serialize heap size (Module_Write map_sizes_ m).

(** ** FastSourceLineResolver::Module *)

Record FastModule : Type := mkFastModule {
  fast_files : StaticMap;
  fast_functions : StaticMap;
  fast_public_symbols : StaticMap;
  fast_is_corrupt : bool;
  fast_windows_frame_info : list StaticContainedRangeMap;
  fast_cfi_initial_rules : StaticMap;
  fast_cfi_delta_rules : StaticMap;
}.

Section fast_module.
(** The buffer. *)
Context (mem : byte_list).

(** [offsets]: [n] of them, the first one [offset]. *)
Fixpoint read_offsets (n : nat) (map_sizes offset : Z) : outcome (list Z) :=
  match n with
  | O => Ok []
  | S O => Ok [offset]
  | S n =>
      let? size := read_at mem map_sizes 4 in
      let? rest := read_offsets n (map_sizes + 4) (wrap 32 (offset + size)) in
      Ok (offset :: rest)
  end.

Fixpoint new_contained_maps (mem_buffer : Z) (offsets : list Z) :
    outcome (list StaticContainedRangeMap) :=
  match offsets with
  | [] => Ok []
  | offset :: offsets =>
      let? sc := new_static_contained mem 8 (mem_buffer + offset) in
      let? rest := new_contained_maps mem_buffer offsets in
      Ok (sc :: rest)
  end.

(** The result, [false] for a NULL buffer, is left out: [memory_buffer] is the
    address 0 of [mem]. *)
Definition LoadMapFromMemory : outcome FastModule :=
  let memory_buffer := 0 in
  let? (is_corrupt, mem_buffer) := bool_Read mem memory_buffer in
  let map_sizes := mem_buffer in
  let header_size := wrap 32 (Z.of_nat kNumberMaps_ * 4) in
  let? offsets := read_offsets kNumberMaps_ map_sizes header_size in
  let? offset := of_option (offsets !! 0%nat) in
  let? files := new_map mem (mem_buffer + offset) in
  let? offset := of_option (offsets !! 1%nat) in
  let? functions := new_map mem (mem_buffer + offset) in
  let? offset := of_option (offsets !! 2%nat) in
  let? public_symbols := new_map mem (mem_buffer + offset) in
  let? windows_frame_info :=
    new_contained_maps mem_buffer (take STACK_INFO_LAST (drop 3 offsets)) in
  let? offset := of_option (offsets !! (3 + STACK_INFO_LAST)%nat) in
  let? cfi_initial_rules := new_map mem (mem_buffer + offset) in
  let? offset := of_option (offsets !! (4 + STACK_INFO_LAST)%nat) in
  let? cfi_delta_rules := new_map mem (mem_buffer + offset) in
  Ok (mkFastModule files functions public_symbols is_corrupt windows_frame_info
        cfi_initial_rules cfi_delta_rules).

Definition static_nearest_covers (address : Z) (nearest : option StaticRetrieved) : bool :=
  match nearest with
  | None => false
  | Some r => in_range address (s_base r) (s_size r)
  end.

(** [!func_ptr || public_address > function_base] *)
Definition static_after_function (nearest : option StaticRetrieved) (public_address : Z) : bool :=
  match nearest with
  | None => true
  | Some r => s_base r <? public_address
  end.

Definition fast_lookup_line (files : StaticMap) (func : FastFunction) (address : Z)
    (frame : StackFrame) : outcome StackFrame :=
  let? found := StaticRangeMap_RetrieveRange mem 8 (fast_lines func) address in
  match found with
  | None => Ok frame
  | Some r =>
      let? line := Line_CopyFrom mem (s_entry r) in
      let? it := StaticMap.find (KT := int_keys) mem 4 files (source_file_id line) in
      let? e := end_ mem files in
      let? frame :=
        if iterator_ne it e then
          let? it := StaticMap.find (KT := int_keys) mem 4 files (source_file_id line) in
          let? value := GetValueRawPtr mem it in
          let? ptr := of_option value in
          let? file := read_cstring mem ptr in
          Ok (set_source_file frame file)
        else Ok frame in
      Ok (set_source_line frame (line_ line) (wrap 64 (module_base frame + s_base r)))
  end.

Definition Fast_LookupAddress (m : FastModule) (frame : StackFrame) : outcome StackFrame :=
  let address := frame_address frame in
  let? nearest := StaticRangeMap_RetrieveNearestRange mem 8 (fast_functions m) address in
  if static_nearest_covers address nearest then
    let? r := of_option nearest in
    let? func := Function_CopyFrom mem (s_entry r) in
    let frame := set_function frame (fast_name func) (wrap 64 (module_base frame + s_base r)) in
    fast_lookup_line (fast_files m) func address frame
  else
    let? found := StaticAddressMap_Retrieve mem 8 (fast_public_symbols m) address in
    match found with
    | Some (public_symbol_ptr, public_address) =>
        if static_after_function nearest public_address then
          let? ptr := of_option public_symbol_ptr in
          let? public_symbol := PublicSymbol_CopyFrom mem ptr in
          Ok (set_function frame (fast_symbol_name public_symbol)
                (wrap 64 (module_base frame + public_address)))
        else Ok frame
    | None => Ok frame
    end.

Definition fast_retrieve_frame_info (maps : list StaticContainedRangeMap) (address : Z) :
    outcome (option (option Z)) :=
  let? frame_data := of_option (maps !! STACK_INFO_FRAME_DATA) in
  let? found := StaticContained_RetrieveRange mem 8 frame_data address in
  match found with
  | Some e => Ok (Some e)
  | None =>
      let? fpo := of_option (maps !! STACK_INFO_FPO) in
      StaticContained_RetrieveRange mem 8 fpo address
  end.

Definition Fast_FindWindowsFrameInfo (m : FastModule) (frame : StackFrame) :
    outcome (option WindowsFrameInfo) :=
  let address := frame_address frame in
  let result := empty_frame_info in
  let? found := fast_retrieve_frame_info (fast_windows_frame_info m) address in
  match found with
  | Some frame_info_ptr =>
      let? ptr := of_option frame_info_ptr in
      let? frame_info := CopyWFI mem ptr in
      Ok (Some (WindowsFrameInfo_CopyFrom result frame_info))
  | None =>
      let? nearest := StaticRangeMap_RetrieveNearestRange mem 8 (fast_functions m) address in
      if static_nearest_covers address nearest then
        let? r := of_option nearest in
        let? func := Function_CopyFrom mem (s_entry r) in
        let result := with_parameter_size result (wrap 32 (fast_parameter_size func)) in
        Ok (Some (with_valid result (Z.lor (valid result) VALID_PARAMETER_SIZE)))
      else
        let? found := StaticAddressMap_Retrieve mem 8 (fast_public_symbols m) address in
        let? result :=
          match found with
          | Some (public_symbol_ptr, public_address) =>
              if static_after_function nearest public_address then
                let? ptr := of_option public_symbol_ptr in
                let? public_symbol := PublicSymbol_CopyFrom mem ptr in
                Ok (with_parameter_size result
                      (wrap 32 (fast_symbol_parameter_size public_symbol)))
              else Ok result
          | None => Ok result
          end in
        Ok None
  end.

(** The loop over the delta rules; each round moves the iterator on, so the
    number of nodes bounds them. *)
Fixpoint fast_apply_deltas (fuel : nat) (deltas : StaticMap) (delta : StaticMapIterator)
    (address : Z) (rules : CFIFrameInfo) : outcome CFIFrameInfo :=
  match fuel with
  | O => Undef
  | S fuel =>
    let? e := end_ mem deltas in
    if iterator_ne delta e then
      let? key := GetKey mem 8 delta in
      if key <=? address then
        let? value := GetValueRawPtr mem delta in
        let? ptr := of_option value in
        let? rule_set := read_cstring mem ptr in
        let? (_, rules) := ParseCFIRuleSet rule_set rules in
        let (_, delta) := post_increment delta in
        fast_apply_deltas fuel deltas delta address rules
      else Ok rules
    else Ok rules
  end.

Definition Fast_FindCFIFrameInfo (m : FastModule) (frame : StackFrame) :
    outcome (option CFIFrameInfo) :=
  let address := frame_address frame in
  let? found := StaticRangeMap_RetrieveRange mem 8 (fast_cfi_initial_rules m) address in
  match found with
  | None => Ok None
  | Some r =>
      let? initial_rules := read_cstring mem (s_entry r) in
      let? (ok, rules) := ParseCFIRuleSet initial_rules empty_info in
      if negb ok then Ok None
      else
        let deltas := fast_cfi_delta_rules m in
        let? delta := StaticMap.lower_bound mem 8 deltas (s_base r) in
        let? rules := fast_apply_deltas (S (Z.to_nat (num_nodes_ deltas))) deltas delta address rules in
        Ok (Some rules)
  end.
End fast_module.

(** ** The layout of a serialized module *)

Section each.
Context {A : Type} (size : A -> Z) (write : A -> byte_list -> Z -> outcome (byte_list * Z))
        (stored_at : A -> byte_list -> Z -> Prop).

Fixpoint sizes_of (l : list A) : Z :=
  match l with [] => 0 | x :: l => size x + sizes_of l end.

Fixpoint stored_each (l : list A) (mem : byte_list) (ptr : Z) : Prop :=
  match l with
  | [] => True
  | x :: l => stored_at x mem ptr /\ stored_each l mem (ptr + size x)
  end.

Lemma write_each_spec l :
  Forall (fun x => writer_spec (write x) (size x) (stored_at x)) l ->
  writer_spec (write_each write l) (sizes_of l) (stored_each l).
Proof.
  induction 1 as [|x l Hx _ IH].
  - split; [done| |done]. intros mem dest Hd Hl. exists mem. simpl. by rewrite Z.add_0_r.
  - apply (writer_seq _ _ _ _ _ _ Hx IH).
Qed.

Lemma sizes_of_app l1 l2 : sizes_of (l1 ++ l2) = sizes_of l1 + sizes_of l2.
Proof. induction l1 as [|x l1 IH]; simpl; [done|]. lia. Qed.
End each.

Abbreviation total := (sizes_of (fun s : Z => s)).

Lemma sizes_of_fmap {A} (size : A -> Z) l : total (size <$> l) = sizes_of size l.
Proof. induction l as [|x l IH]; csimpl; [done|]. by rewrite IH. Qed.

Lemma total_nonneg l : Forall (fun s => 0 <= s) l -> 0 <= total l.
Proof. induction 1; simpl; lia. Qed.

Lemma foldl_add l : forall z, foldl Z.add z l = z + total l.
Proof. induction l as [|x l IH]; intros z; simpl; [lia|]. rewrite IH. lia. Qed.

Lemma wrap_sizes l :
  Forall (fun s => 0 <= s) l -> total l < 2 ^ 32 -> wrap 32 <$> l = l.
Proof.
  induction 1 as [|s l Hs Hl IH]; [done|]. intros Ht. simpl in *.
  pose proof (total_nonneg l Hl). rewrite wrap_small by (unfold uint; lia). f_equal. apply IH. lia.
Qed.

(** The offsets of consecutive maps of these sizes. *)
Fixpoint offsets_of (offset : Z) (sizes : list Z) : list Z :=
  match sizes with
  | [] => []
  | s :: sizes => offset :: offsets_of (offset + s) sizes
  end.

Lemma offsets_of_app l1 : forall o l2,
  offsets_of o (l1 ++ l2) = offsets_of o l1 ++ offsets_of (o + total l1) l2.
Proof.
  induction l1 as [|s l1 IH]; intros o l2; simpl; [by rewrite Z.add_0_r|].
  rewrite IH. by rewrite Z.add_assoc.
Qed.

Lemma length_offsets_of l : forall o, length (offsets_of o l) = length l.
Proof. induction l as [|s l IH]; intros o; simpl; [done|]. by rewrite IH. Qed.

Abbreviation stored_uint32s := (stored_each (fun _ : Z => 4) (fun s mem ptr => holds mem ptr (le_bytes 4 s))).

Lemma read_offsets_spec mem sizes : forall ptr o,
  stored_uint32s sizes mem ptr -> Forall (fun s => 0 <= s) sizes -> 0 <= o -> o + total sizes < 2 ^ 32 ->
  read_offsets mem (length sizes) ptr o = Ok (offsets_of o sizes).
Proof.
  induction sizes as [|s sizes IH]; intros ptr o Hst Hs Ho Ht; [done|].
  destruct Hst as [H1 Hst]. apply Forall_cons in Hs as [Hs0 Hs]. simpl in Ht.
  pose proof (total_nonneg _ Hs). cbn [length read_offsets offsets_of].
  destruct sizes as [|s' sizes]; [done|]. cbn [length].
  rewrite (read_at_field _ _ _ _ _ H1) by (done || unfold uint; simpl in *; lia). cbn [obind].
  rewrite wrap_small by (unfold uint; simpl in *; lia).
  change (S (length sizes)) with (length (s' :: sizes)).
  rewrite IH by (done || lia). done.
Qed.

(** What the serializer can lay out. *)
Record module_serializable (m : BasicModule) : Prop := {
  ser_files : map_fits 4 (KT := int_keys) SizeOf (files_ m) /\ serializable_values (files_ m);
  ser_functions : serializable_ranges 8 (functions_ m);
  ser_symbols : map_fits 8 SizeOf (public_symbols_ m) /\ serializable_values (public_symbols_ m);
  ser_frame_info : Forall (serializable_tree 8) (windows_frame_info_ m);
  ser_frame_info_valid t r w : t ∈ windows_frame_info_ m -> r ∈ descendants t -> r.2 = Some w ->
    valid w = VALID_ALL /\ frame_info_ok w;
  ser_cfi : serializable_ranges 8 (cfi_initial_rules_ m);
  ser_deltas : map_fits 8 SizeOf (cfi_delta_rules_ m) /\ serializable_values (cfi_delta_rules_ m);
  ser_size : total (module_map_sizes m) + 42 < 2 ^ 32;
}.

(** A static map is where the nodes were written. *)
Definition map_at {KT : KeyType} ks {V} (size_value : V -> Z) stored_value (nodes : list (Z * V))
    (mem : byte_list) (raw : Z) (sm : StaticMap) : Prop :=
  stored_map ks size_value stored_value nodes mem raw /\ sm = mkStaticMap raw (Z.of_nat (length nodes)).

Definition contained_at (t : ContainedRangeMap (option WindowsFrameInfo)) (mem : byte_list)
    (sc : StaticContainedRangeMap) : Prop :=
  exists ptr, stored_tree 8 t mem ptr /\ sc = static_node 8 t ptr.

(** The fast module read from [mem] is the serialized [m]. *)
Record module_image (mem : byte_list) (m : BasicModule) (fm : FastModule) : Prop := {
  img_files : exists raw, map_at (KT := int_keys) 4 SizeOf stored (files_ m) mem raw (fast_files fm);
  img_functions : exists raw,
    map_at 8 (Range_SizeOf 8) (stored_range 8) (map_ (functions_ m)) mem raw (fast_functions fm);
  img_symbols : exists raw,
    map_at 8 SizeOf stored (public_symbols_ m) mem raw (fast_public_symbols fm);
  img_corrupt : fast_is_corrupt fm = is_corrupt_ m;
  img_frame_info :
    Forall2 (fun t sc => contained_at t mem sc) (windows_frame_info_ m) (fast_windows_frame_info fm);
  img_cfi : exists raw,
    map_at 8 (Range_SizeOf 8) (stored_range 8) (map_ (cfi_initial_rules_ m)) mem raw
      (fast_cfi_initial_rules fm);
  img_deltas : exists raw,
    map_at 8 SizeOf stored (cfi_delta_rules_ m) mem raw (fast_cfi_delta_rules fm);
}.

(** The maps of a module, laid out from [ptr]. *)
Definition stored_maps (m : BasicModule) (mem : byte_list) (ptr : Z) : Prop :=
  exists p1 p2 p3 p4 p5,
    p1 = ptr + StdMap_SizeOf 4 (files_ m) /\ p2 = p1 + RangeMap_SizeOf 8 (functions_ m) /\
    p3 = p2 + StdMap_SizeOf 8 (public_symbols_ m) /\
    p4 = p3 + sizes_of (Contained_SizeOf 8) (windows_frame_info_ m) /\
    p5 = p4 + RangeMap_SizeOf 8 (cfi_initial_rules_ m) /\
    stored_map (KT := int_keys) 4 SizeOf stored (files_ m) mem ptr /\
    stored_range_map 8 (functions_ m) mem p1 /\
    stored_map 8 SizeOf stored (public_symbols_ m) mem p2 /\
    stored_each (Contained_SizeOf 8) (stored_tree 8) (windows_frame_info_ m) mem p3 /\
    stored_range_map 8 (cfi_initial_rules_ m) mem p4 /\
    stored_map 8 SizeOf stored (cfi_delta_rules_ m) mem p5.

(** ** Serialize writes the layout *)

Section layout.
Context (m : BasicModule) (Hser : module_serializable m)
        (Hcount : length (windows_frame_info_ m) = STACK_INFO_LAST).

Lemma trees_writer :
  writer_spec (write_each (Contained_Write 8) (windows_frame_info_ m))
    (sizes_of (Contained_SizeOf 8) (windows_frame_info_ m))
    (stored_each (Contained_SizeOf 8) (stored_tree 8) (windows_frame_info_ m)).
Proof.
  apply write_each_spec. eapply Forall_impl; [apply (ser_frame_info _ Hser)|].
  intros t. apply Contained_Write_spec.
Qed.

Definition maps_size : Z :=
  StdMap_SizeOf 4 (files_ m) + (RangeMap_SizeOf 8 (functions_ m) + (StdMap_SizeOf 8 (public_symbols_ m) +
  (sizes_of (Contained_SizeOf 8) (windows_frame_info_ m) + (RangeMap_SizeOf 8 (cfi_initial_rules_ m) +
  (StdMap_SizeOf 8 (cfi_delta_rules_ m) + 1))))).

Lemma maps_writer :
  writer_spec (fun mem dest =>
    let? (mem, dest) := StdMap_Write 4 (files_ m) mem dest in
    let? (mem, dest) := RangeMap_Write 8 (functions_ m) mem dest in
    let? (mem, dest) := StdMap_Write 8 (public_symbols_ m) mem dest in
    let? (mem, dest) := write_each (Contained_Write 8) (windows_frame_info_ m) mem dest in
    let? (mem, dest) := RangeMap_Write 8 (cfi_initial_rules_ m) mem dest in
    let? (mem, dest) := StdMap_Write 8 (cfi_delta_rules_ m) mem dest in
    int_Write 1 0 mem dest) maps_size (fun mem ptr => stored_maps m mem ptr /\
      holds mem (ptr + (maps_size - 1)) [0]).
Proof.
  destruct (ser_files _ Hser) as [Hf1 Hf2]. destruct (ser_symbols _ Hser) as [Hs1 Hs2].
  destruct (ser_deltas _ Hser) as [Hd1 Hd2].
  pose proof (writer_seq _ _ _ _ _ _ (StdMap_Write_spec 8 _ Hd1 Hd2) (int_Write_spec 1 0)) as W6.
  pose proof (writer_seq _ _ _ _ _ _ (RangeMap_Write_spec 8 _ (ser_cfi _ Hser)) W6) as W5.
  pose proof (writer_seq _ _ _ _ _ _ trees_writer W5) as W4.
  pose proof (writer_seq _ _ _ _ _ _ (StdMap_Write_spec 8 _ Hs1 Hs2) W4) as W3.
  pose proof (writer_seq _ _ _ _ _ _ (RangeMap_Write_spec 8 _ (ser_functions _ Hser)) W3) as W2.
  pose proof (writer_seq _ _ _ _ _ _ (StdMap_Write_spec (KT := int_keys) 4 _ Hf1 Hf2) W2) as W1.
  apply (writer_mono _ _ _ _ W1). intros mem ptr. unfold stored_maps, maps_size.
  change (le_bytes 1 0) with [0]. split.
  - intros (H1 & H2 & H3 & H4 & H5 & H6 & H7). split; [do 5 eexists; eauto 20|].
    apply (holds_eq _ _ _ _ H7). lia.
  - intros [(? & ? & ? & ? & ? & -> & -> & -> & -> & -> & H1 & H2 & H3 & H4 & H5 & H6) H7].
    do 6 (split; [done|]). apply (holds_eq _ _ _ _ H7). lia.
Qed.
Lemma module_sizes_nonneg : Forall (fun s => 0 <= s) (module_map_sizes m).
Proof.
  destruct (ser_files _ Hser) as [Hf1 Hf2]. destruct (ser_symbols _ Hser) as [Hs1 Hs2].
  destruct (ser_deltas _ Hser) as [Hd1 Hd2]. unfold module_map_sizes.
  repeat apply Forall_cons_2; [|apply (RangeMap_SizeOf_nonneg 8 _ (ser_functions _ Hser))| |].
  - apply (writer_size _ _ _ (StdMap_Write_spec (KT := int_keys) 4 _ Hf1 Hf2)).
  - apply (writer_size _ _ _ (StdMap_Write_spec 8 _ Hs1 Hs2)).
  - apply Forall_app. split.
    + apply Forall_fmap. eapply Forall_impl; [apply (ser_frame_info _ Hser)|]. intros t Ht.
      apply (writer_size _ _ _ (Contained_Write_spec 8 t Ht)).
    + repeat apply Forall_cons_2; [apply (RangeMap_SizeOf_nonneg 8 _ (ser_cfi _ Hser))| |constructor].
      apply (writer_size _ _ _ (StdMap_Write_spec 8 _ Hd1 Hd2)).
Qed.

Lemma total_maps : total (module_map_sizes m) + 1 = maps_size.
Proof.
  unfold module_map_sizes, maps_size. rewrite !sizes_of_app, sizes_of_fmap. simpl. lia.
Qed.

Lemma length_map_sizes : length (module_map_sizes m) = kNumberMaps_.
Proof. unfold module_map_sizes. rewrite !length_app, length_fmap, Hcount. done. Qed.

Lemma Module_SizeOf_spec : Module_SizeOf m = (41 + maps_size, module_map_sizes m).
Proof.
  pose proof (ser_size _ Hser). pose proof module_sizes_nonneg as Hn.
  unfold Module_SizeOf. rewrite wrap_sizes by (done || lia). cbv zeta.
  rewrite foldl_add. f_equal. pose proof total_maps. unfold bool_SizeOf, int_SizeOf, kNumberMaps_, STACK_INFO_LAST.
  lia.
Qed.

Definition stored_module (mem : byte_list) (ptr : Z) : Prop :=
  holds mem ptr [if is_corrupt_ m then 255 else 0] /\
  stored_uint32s (module_map_sizes m) mem (ptr + 1) /\ stored_maps m mem (ptr + 41).

Lemma Module_Write_spec :
  writer_spec (Module_Write (module_map_sizes m) m) (41 + maps_size)
    (fun mem ptr => stored_module mem ptr /\ holds mem (ptr + 41 + (maps_size - 1)) [0]).
Proof.
  assert (writer_spec (write_each (int_Write 4) (module_map_sizes m)) 40
            (stored_uint32s (module_map_sizes m))) as W2.
  { eapply writer_eq; [apply (write_each_spec (fun _ => 4))|].
    - apply Forall_true. intros z. apply (int_Write_spec 4 z).
    - assert (forall l, sizes_of (fun _ : Z => 4) l = 4 * Z.of_nat (length l)) as ->.
      { intros l. induction l as [|x l IH]; simpl; lia. }
      by rewrite length_map_sizes. }
  pose proof (writer_seq _ _ _ _ _ _ W2 maps_writer) as W1.
  pose proof (writer_seq _ _ _ _ _ _ (bool_Write_spec (is_corrupt_ m)) W1) as W0.
  unfold bool_SizeOf in W0. apply (writer_eq _ _ (41 + maps_size)) in W0; [|lia].
  apply (writer_mono _ _ _ _ W0). intros mem ptr. unfold stored_module.
  replace (ptr + 1 + 40) with (ptr + 41) by lia. tauto.
Qed.

(** The buffer is exactly filled; bytes after it do not matter. *)
Lemma Module_Serialize_spec heap :
  allocates heap ->
  exists buf, Module_Serialize heap m = Ok (buf, 41 + maps_size) /\
    Z.of_nat (length buf) = 41 + maps_size /\ forall rest, stored_module (buf ++ rest) 0.
Proof.
  intros Hh. unfold Module_Serialize. rewrite Module_SizeOf_spec.
  destruct (Serialize_spec heap _ _ _ Hh Module_Write_spec) as (buf & E1 & E2 & Hst).
  { pose proof (ser_size _ Hser). pose proof total_maps. lia. }
  exists buf. split; [done|]. split; [done|]. intros rest.
  by apply (writer_same _ _ _ Module_Write_spec buf), keeps_on_app.
Qed.

(** ** LoadMapFromMemory finds the maps *)

Lemma new_contained_maps_spec mem base : forall trees o,
  Forall (serializable_tree 8) trees ->
  stored_each (Contained_SizeOf 8) (stored_tree 8) trees mem (base + o) ->
  exists scs, new_contained_maps mem base (offsets_of o (Contained_SizeOf 8 <$> trees)) = Ok scs /\
    Forall2 (fun t sc => contained_at t mem sc) trees scs.
Proof.
  induction trees as [|t trees IH]; intros o Hw Hst; csimpl; [by exists []|].
  apply Forall_cons in Hw as [Ht Hw]. destruct Hst as [H1 H2].
  rewrite (new_static_contained_stored mem 8 t _ H1 Ht). cbn [obind].
  destruct (IH (o + Contained_SizeOf 8 t) Hw) as (scs & -> & HF).
  { by replace (base + (o + Contained_SizeOf 8 t)) with (base + o + Contained_SizeOf 8 t) by lia. }
  cbn [obind]. eexists. split; [done|]. constructor; [by eexists|done].
Qed.
Lemma map_at_new mem ks {KT : KeyType} {V} (size_value : V -> Z) stored_value nodes raw :
  stored_map ks size_value stored_value nodes mem raw ->
  exists sm, new_map mem raw = Ok sm /\ map_at ks size_value stored_value nodes mem raw sm.
Proof. intros Hst. eexists. split; [by eapply new_map_stored|done]. Qed.

Lemma LoadMapFromMemory_image mem :
  stored_module mem 0 -> exists fm, LoadMapFromMemory mem = Ok fm /\ module_image mem m fm.
Proof.
  intros (Hc & Hsz & p1 & p2 & p3 & p4 & p5 & E1 & E2 & E3 & E4 & E5 & S1 & S2 & S3 & S4 & S5 & S6).
  pose proof module_sizes_nonneg as Hn. pose proof (ser_size _ Hser) as Ht.
  unfold LoadMapFromMemory. cbv zeta. rewrite (bool_Read_stored _ _ _ Hc). cbn [obind].
  change (wrap 32 (Z.of_nat kNumberMaps_ * 4)) with 40. rewrite <- length_map_sizes.
  rewrite (read_offsets_spec mem _ (0 + 1) 40 Hsz Hn) by lia. cbn [obind].
  set (trees := Contained_SizeOf 8 <$> windows_frame_info_ m).
  assert (exists o3, offsets_of 40 (module_map_sizes m) =
      [40; p1 - 1; p2 - 1] ++ offsets_of o3 trees ++ [p4 - 1; p5 - 1] /\ 0 + 1 + o3 = p3) as (o3 & -> & Eo).
  { exists (p3 - 1). split; [|lia]. unfold module_map_sizes. fold trees.
    rewrite !offsets_of_app. cbn [offsets_of sizes_of].
    assert (total trees = sizes_of (Contained_SizeOf 8) (windows_frame_info_ m)) by apply sizes_of_fmap.
    repeat first [apply (f_equal2 cons)|apply (f_equal2 app)|apply (f_equal2 offsets_of)]; try done; lia. }
  assert (length (offsets_of o3 trees) = STACK_INFO_LAST) as L.
  { unfold trees. by rewrite length_offsets_of, length_fmap. }
  cbn [app lookup list_lookup of_option obind drop].
  destruct (map_at_new mem 4 (KT := int_keys) _ _ _ _ S1) as (sm1 & N1 & A1).
  destruct (map_at_new mem 8 _ _ _ _ S2) as (sm2 & N2 & A2).
  destruct (map_at_new mem 8 _ _ _ _ S3) as (sm3 & N3 & A3).
  destruct (map_at_new mem 8 _ _ _ _ S5) as (sm5 & N5 & A5).
  destruct (map_at_new mem 8 _ _ _ _ S6) as (sm6 & N6 & A6).
  replace (0 + 41) with (0 + 1 + 40) in N1 by lia. rewrite N1. cbn [obind].
  replace (0 + 1 + (p1 - 1)) with p1 by lia. rewrite N2. cbn [obind].
  replace (0 + 1 + (p2 - 1)) with p2 by lia. rewrite N3. cbn [obind].
  rewrite drop_0, take_app_length' by done. rewrite <- Eo in S4.
  destruct (new_contained_maps_spec mem (0 + 1) _ o3 (ser_frame_info _ Hser) S4) as (scs & Ec & HF).
  fold trees in Ec. rewrite Ec.
  assert (forall k l, (40 :: p1 - 1 :: p2 - 1 :: offsets_of o3 trees ++ l) !! (3 + STACK_INFO_LAST + k)%nat
                      = l !! k) as Hk.
  { intros k l. change ((offsets_of o3 trees ++ l) !! (STACK_INFO_LAST + k)%nat = l !! k).
    rewrite lookup_app_r by lia. f_equal. lia. }
  cbn [obind]. change (3 + STACK_INFO_LAST)%nat with (3 + STACK_INFO_LAST + 0)%nat.
  change (4 + STACK_INFO_LAST)%nat with (3 + STACK_INFO_LAST + 1)%nat. rewrite !Hk.
  cbn [lookup list_lookup of_option obind].
  replace (0 + 1 + (p4 - 1)) with p4 by lia. rewrite N5. cbn [obind].
  replace (0 + 1 + (p5 - 1)) with p5 by lia. rewrite N6. cbn [obind].
  eexists. split; [done|]. split; eauto.
Qed.
End layout.

(** ** The fast module refines the basic module *)

Section refines.
Context (mem : byte_list) (m : BasicModule) (fm : FastModule)
        (Himg : module_image mem m fm) (Hwf : module_wf m) (Hser : module_serializable m).

(** The entry a pointer of the image stands for. *)
Definition function_at (f : option Function_) (ptr : Z) : Prop :=
  exists f', f = Some f' /\ stored_function f' mem ptr /\ function_wf f' /\ function_ok f'.

Lemma wf_bases {E} (rm : list (Z * Range E)) :
  RangeMap.wf 64 rm -> Forall (fun p => uint 64 (base_ p.2)) rm.
Proof.
  intros H. apply Forall_forall. intros p Hp. pose proof (RangeMap.wf_range_ok _ _ _ H Hp) as Hr.
  unfold range_ok in Hr. unfold uint. lia.
Qed.

(** What both modules find for the function nearest to an address. *)
Lemma nearest_function a :
  exists o s, RangeMap.RetrieveNearestRange 64 (map_ (functions_ m)) a = Ok o /\
    StaticRangeMap_RetrieveNearestRange mem 8 (fast_functions fm) a = Ok s /\
    static_nearest_covers a s = nearest_covers a o /\
    (forall k, static_after_function s k = after_function o k) /\
    match o, s with
    | Some r, Some s => function_at (out_entry r) (s_entry s) /\ s_base s = out_base r
    | None, None => True
    | _, _ => False
    end.
Proof.
  destruct (img_functions _ _ _ Himg) as (raw & Hst & ->).
  pose proof (proj1 (wf_functions _ Hwf)) as Hw.
  destruct (RangeMap.RetrieveNearestRange_spec 64 (map_ (functions_ m)) a Hw) as (o & Ho & Hn).
  destruct (StaticRangeMap_RetrieveNearestRange_refines mem 8 (functions_ m) raw Hst
    (RangeMap.wf_sorted _ _ Hw) (wf_bases _ Hw) a o Ho) as (s & Hs & Hsame).
  exists o, s. split; [done|]. split; [done|].
  destruct o as [r|], s as [s|]; simpl in Hsame; try done.
  destruct Hsame as (He & Hb & Hsz). simpl in Hn. destruct Hn as (p & (Hp & _) & ->).
  simpl in He, Hb, Hsz. destruct (wf_functions_entries _ Hwf p Hp) as (f & Hf & Hfw).
  assert (function_ok f) as Hok.
  { pose proof (proj2 (ser_functions _ Hser)) as Hr. rewrite Forall_forall in Hr.
    specialize (Hr p Hp). by rewrite Hf in Hr. }
  cbn [static_nearest_covers nearest_covers static_after_function after_function retrieved out_entry out_base out_size].
  rewrite Hb, Hsz. split; [done|]. split; [by rewrite Hf|]. split; [|done].
  exists f. rewrite Hf in He. done.
Qed.

Lemma file_lookup id frame :
  (let? it := StaticMap.find (KT := int_keys) mem 4 (fast_files fm) id in
   let? e := end_ mem (fast_files fm) in
   if iterator_ne it e then
     let? it := StaticMap.find (KT := int_keys) mem 4 (fast_files fm) id in
     let? value := GetValueRawPtr mem it in
     let? ptr := of_option value in
     let? file := read_cstring mem ptr in
     Ok (set_source_file frame file)
   else Ok frame) =
  Ok (match OrderedMap.find_value (files_ m) id with
      | Some file => set_source_file frame file
      | None => frame
      end).
Proof.
  destruct (img_files _ _ _ Himg) as (raw & Hst & ->).
  destruct (lookups_stored mem 4 _ _ _ _ Hst (wf_files _ Hwf) id) as (-> & _ & _).
  cbn [obind]. unfold end_. rewrite (iterator_stored mem 4 _ _ _ _ Hst). cbn [obind num_nodes_].
  unfold iterator_ne. cbn [it_base_ index_]. rewrite Z.eqb_refl. cbn [negb orb].
  unfold OrderedMap.find_value. destruct (files_ m !! OrderedMap.find (files_ m) id) as [[k file]|] eqn:Ef.
  - pose proof (lookup_lt_Some _ _ _ Ef). rewrite (proj2 (Z.eqb_neq _ _)) by lia. cbn [negb].
    destruct (node_at mem 4 _ _ _ _ Hst _ _ _ Ef) as (_ & -> & Hv). cbn [obind of_option].
    pose proof (proj2 (ser_files _ Hser)) as Hr. unfold serializable_values in Hr. rewrite Forall_lookup in Hr.
    rewrite (read_cstring_stored mem _ file (Hr _ _ Ef) Hv). done.
  - rewrite (proj2 (Z.eqb_eq _ _)); [done|]. apply lookup_ge_None in Ef.
    unfold OrderedMap.find in *.
    destruct (files_ m !! OrderedMap.lower_bound (files_ m) id) as [q|] eqn:El; [|done].
    destruct (key_lt id q.1); [done|]. apply lookup_lt_Some in El. lia.
Qed.
Lemma fast_lookup_line_refines f ptr a frame :
  stored_range_map 8 (lines f) mem ptr -> function_wf f -> function_ok f ->
  fast_lookup_line mem (fast_files fm)
    (mkFastFunction (function_name f) (function_address f) (function_size f)
       (function_parameter_size f) None (mkStaticMap ptr (Z.of_nat (length (map_ (lines f)))))) a frame =
  lookup_line (files_ m) f a frame.
Proof.
  intros Hst [Hw Hnn] (_ & _ & _ & _ & (_ & Hr) & _). unfold fast_lookup_line, lookup_line. cbn [fast_lines].
  destruct (StaticRangeMap_RetrieveRange_refines mem 8 (lines f) ptr Hst (RangeMap.wf_sorted _ _ Hw)
    (wf_bases _ Hw) a) as (s & -> & Hsame). cbn [obind].
  pose proof (RangeMap.RetrieveRange_spec 64 (map_ (lines f)) a) as Hf.
  change (8 * Z.of_nat 8) with 64 in Hsame.
  destruct (RangeMap.RetrieveRange 64 (map_ (lines f)) a) as [r|], s as [s|]; simpl in Hsame; try done.
  destruct (proj1 (Hf r Hw) eq_refl) as (p & Hp & _ & ->). destruct Hsame as (He & -> & _).
  unfold no_null in Hnn. rewrite Forall_forall in Hnn, Hr. destruct (Hnn p Hp) as [l Hl].
  specialize (Hr p Hp). simpl in He |- *. rewrite Hl in He, Hr |- *. cbn [obind of_option].
  rewrite (Line_CopyFrom_stored mem _ l He Hr). cbn [obind].
  pose proof (file_lookup (source_file_id l) frame) as HF.
  destruct (StaticMap.find mem 4 (fast_files fm) (source_file_id l)) as [it|]; [|done]. cbn [obind] in HF |- *.
  destruct (end_ mem (fast_files fm)) as [e|]; [|done]. cbn [obind] in HF |- *. by rewrite HF.
Qed.

(** What both modules find for the public symbol. *)
Lemma public_symbol a :
  exists o s, AddressMap.Retrieve (public_symbols_ m) a = Ok o /\
    StaticAddressMap_Retrieve mem 8 (fast_public_symbols fm) a = Ok s /\
    match o, s with
    | Some (e, k), Some (Some ptr, k') => k' = k /\ exists p, e = Some p /\
        PublicSymbol_CopyFrom mem ptr =
          Ok (mkFastPublicSymbol (symbol_name p) (symbol_address p) (symbol_parameter_size p) None)
    | None, None => True
    | _, _ => False
    end.
Proof.
  destruct (img_symbols _ _ _ Himg) as (raw & Hst & ->).
  destruct (StaticAddressMap_refines mem 8 _ _ _ _ Hst (wf_symbols _ Hwf) a) as (o & s & Ho & Hs & Hsame).
  exists o, s. split; [done|]. split; [done|].
  destruct o as [[e k]|], s as [[[ptr|] k']|]; simpl in Hsame; try done.
  destruct Hsame as [-> He]. split; [done|].
  destruct (AddressMap.Retrieve_spec (public_symbols_ m) a (wf_symbols _ Hwf)) as (o & Ho' & Hl).
  rewrite Ho in Ho'. injection Ho' as <-. destruct Hl as (Hin & _).
  destruct (wf_symbols_entries _ Hwf _ Hin) as [p Hp]. simpl in Hp. subst e.
  exists p. split; [done|]. apply PublicSymbol_CopyFrom_stored; [exact He|].
  pose proof (proj2 (ser_symbols _ Hser)) as Hr. unfold serializable_values in Hr.
  rewrite Forall_forall in Hr. apply (Hr _ Hin).
Qed.

Lemma Fast_LookupAddress_refines frame : Fast_LookupAddress mem fm frame = LookupAddress m frame.
Proof.
  unfold Fast_LookupAddress, LookupAddress. cbv zeta. set (a := frame_address frame).
  destruct (nearest_function a) as (o & s & -> & -> & Hc & Haf & Hm). cbn [obind]. rewrite Hc.
  destruct (nearest_covers a o) eqn:Ec.
  - destruct o as [r|]; [|done]. destruct s as [s|]; [|done].
    destruct Hm as [(f & Hf & Hst & Hfw & Hok) Hb]. cbn [obind of_option].
    destruct (Function_CopyFrom_stored mem _ f Hst Hok) as [Hl ->]. rewrite Hf, Hb. cbn [obind of_option].
    apply (fast_lookup_line_refines f _ a _ Hl Hfw Hok).
  - destruct (public_symbol a) as (o' & s' & -> & -> & Hp). cbn [obind].
    destruct o' as [[e k]|], s' as [[[ptr|] k']|]; try done.
    destruct Hp as (-> & p & -> & Hcopy). rewrite Haf. destruct (after_function o k); [|done].
    cbn [obind of_option]. by rewrite Hcopy.
Qed.
(** What both modules find in the Windows frame map [i]. *)
Lemma frame_info_lookup i a :
  (i < STACK_INFO_LAST)%nat ->
  exists t sc o s, windows_frame_info_ m !! i = Some t /\ fast_windows_frame_info fm !! i = Some sc /\
    ContainedRangeMap.RetrieveRange t a = Ok o /\ StaticContained_RetrieveRange mem 8 sc a = Ok s /\
    match o, s with
    | Some e, Some (Some ptr) => exists w, e = Some w /\ CopyWFI mem ptr = Ok w
    | None, None => True
    | _, _ => False
    end.
Proof.
  intros Hi. pose proof Hi as Hi'. rewrite <- (wf_frame_info_count _ Hwf) in Hi'.
  destruct (lookup_lt_is_Some_2 _ _ Hi') as [t Ht].
  destruct (Forall2_lookup_l _ _ _ _ _ (img_frame_info _ _ _ Himg) Ht) as (sc & Hsc & ptr & Hst & ->).
  pose proof (list_elem_of_lookup_2 _ _ _ Ht) as Hin.
  pose proof (wf_frame_info _ Hwf) as Hall. rewrite Forall_forall in Hall. destruct (Hall t Hin) as [Hroot Hnn].
  pose proof (ser_frame_info _ Hser) as Htree. rewrite Forall_forall in Htree.
  destruct (RetrieveRange_fuel_spec 64 (S (height t)) t (-1) (2 ^ 64) a) as (o & Ho & Hr); [lia|exact Hroot|].
  destruct (StaticContained_refines_fuel mem 8 (S (length mem)) (S (height t)) t (-1) (2 ^ 64) ptr a o)
    as (s & Hs & Hsame); [destruct (stored_tree_bounds mem 8 t ptr Hst); lia|done|by apply Htree|done|done|].
  exists t, (static_node 8 t ptr), o, s. do 4 (split; [done|]).
  destruct o as [e|], s as [s|]; simpl in Hsame; try done.
  destruct Hr as (r & (Hri & _) & <-). rewrite Forall_forall in Hnn. destruct (Hnn r Hri) as [w Hw].
  destruct (ser_frame_info_valid _ Hser t r w Hin Hri Hw) as [Hv Hok]. rewrite Hw in Hsame.
  destruct s as [ptr'|]; simpl in Hsame.
  - exists w. split; [done|]. destruct Hsame as [_ Hh].
    rewrite (CopyWFI_stored mem _ w Hh Hok), <- Hv. by destruct w.
  - exfalso. revert Hsame. rewrite WindowsFrameInfo_SizeOf_bytes by done.
    unfold frame_info_bytes. rewrite !length_app, length_le_bytes. lia.
Qed.

Lemma Fast_FindWindowsFrameInfo_refines frame :
  Fast_FindWindowsFrameInfo mem fm frame = FindWindowsFrameInfo m frame.
Proof.
  unfold Fast_FindWindowsFrameInfo, FindWindowsFrameInfo, fast_retrieve_frame_info, retrieve_frame_info.
  cbv zeta. set (a := frame_address frame).
  destruct (frame_info_lookup STACK_INFO_FRAME_DATA a) as (t4 & sc4 & o4 & s4 & -> & -> & E4 & F4 & H4);
    [unfold STACK_INFO_FRAME_DATA, STACK_INFO_LAST; lia|].
  cbn [obind of_option]. rewrite E4, F4. cbn [obind].
  destruct o4 as [e4|], s4 as [[p4|]|]; try done.
  { destruct H4 as (w & -> & Hw). cbn [obind of_option]. by rewrite Hw. }
  destruct (frame_info_lookup STACK_INFO_FPO a) as (t0 & sc0 & o0 & s0 & -> & -> & E0 & F0 & H0);
    [unfold STACK_INFO_FPO, STACK_INFO_LAST; lia|].
  cbn [obind of_option]. rewrite E0, F0. cbn [obind].
  destruct o0 as [e0|], s0 as [[p0|]|]; try done.
  { destruct H0 as (w & -> & Hw). cbn [obind of_option]. by rewrite Hw. }
  destruct (nearest_function a) as (o & s & -> & -> & Hc & Haf & Hm). cbn [obind]. rewrite Hc.
  destruct (nearest_covers a o) eqn:Ec.
  - destruct o as [r|]; [|done]. destruct s as [s|]; [|done].
    destruct Hm as [(f & Hf & Hst & Hfw & Hok) Hb]. cbn [obind of_option].
    destruct (Function_CopyFrom_stored mem _ f Hst Hok) as [_ ->]. by rewrite Hf.
  - destruct (public_symbol a) as (o' & s' & -> & -> & Hp). cbn [obind].
    destruct o' as [[e k]|], s' as [[[ptr|] k']|]; try done.
    destruct Hp as (-> & p & -> & Hcopy). rewrite Haf. destruct (after_function o k); [|done].
    cbn [obind of_option]. by rewrite Hcopy.
Qed.

(** The loop over the delta rules, from node [i]. *)
Lemma fast_apply_deltas_refines raw a fuel : forall i rules,
  map_at 8 SizeOf stored (cfi_delta_rules_ m) mem raw (fast_cfi_delta_rules fm) ->
  (length (cfi_delta_rules_ m) < fuel + i)%nat -> (i <= length (cfi_delta_rules_ m))%nat ->
  fast_apply_deltas mem fuel (fast_cfi_delta_rules fm)
    (mkIterator (Z.of_nat i) raw (Z.of_nat (length (cfi_delta_rules_ m)))) a rules =
  apply_deltas (drop i (cfi_delta_rules_ m)) a rules.
Proof.
  induction fuel as [|fuel IH]; intros i rules Hat Hf Hi; [lia|]. pose proof Hat as [Hst Hsm].
  cbn [fast_apply_deltas]. unfold end_. rewrite Hsm, (iterator_stored mem 8 _ _ _ _ Hst). cbn [obind num_nodes_].
  unfold iterator_ne. cbn [it_base_ index_]. rewrite Z.eqb_refl. cbn [negb orb].
  destruct (cfi_delta_rules_ m !! i) as [[k rule_set]|] eqn:Ei.
  - pose proof (lookup_lt_Some _ _ _ Ei). rewrite (proj2 (Z.eqb_neq _ _)) by lia. cbn [negb].
    destruct (node_at mem 8 _ _ _ _ Hst _ _ _ Ei) as (-> & -> & Hv). cbn [obind of_option].
    rewrite (drop_S _ _ _ Ei). cbn [apply_deltas]. destruct (k <=? a); [|done].
    pose proof (proj2 (ser_deltas _ Hser)) as Hr. unfold serializable_values in Hr. rewrite Forall_lookup in Hr.
    rewrite (read_cstring_stored mem _ rule_set (Hr _ _ Ei) Hv). cbn [obind].
    destruct (ParseCFIRuleSet rule_set rules) as [[ok rules']|]; cbn [obind]; [|done].
    unfold post_increment, increment, IsValid. cbn [index_ it_base_ it_num_nodes_].
    rewrite !(proj2 (Z.ltb_ge _ _)) by lia. cbn [negb orb]. rewrite <- Hsm.
    replace (Z.of_nat i + 1) with (Z.of_nat (S i)) by lia. apply IH; [done|lia..].
  - apply lookup_ge_None in Ei. rewrite (proj2 (Z.eqb_eq _ _)) by lia. by rewrite drop_ge by lia.
Qed.

Lemma Fast_FindCFIFrameInfo_refines frame :
  Fast_FindCFIFrameInfo mem fm frame = FindCFIFrameInfo m frame.
Proof.
  unfold Fast_FindCFIFrameInfo, FindCFIFrameInfo. cbv zeta. set (a := frame_address frame).
  destruct (img_cfi _ _ _ Himg) as (raw & Hst & ->). pose proof (wf_cfi _ Hwf) as Hw.
  destruct (StaticRangeMap_RetrieveRange_refines mem 8 (cfi_initial_rules_ m) raw Hst
    (RangeMap.wf_sorted _ _ Hw) (wf_bases _ Hw) a) as (s & -> & Hsame). cbn [obind].
  change (8 * Z.of_nat 8) with 64 in Hsame.
  pose proof (RangeMap.RetrieveRange_spec 64 (map_ (cfi_initial_rules_ m)) a) as Hf.
  destruct (RangeMap.RetrieveRange 64 (map_ (cfi_initial_rules_ m)) a) as [r|], s as [s|];
    simpl in Hsame; try done.
  destruct (proj1 (Hf r Hw) eq_refl) as (p & Hp & _ & ->). destruct Hsame as (He & -> & _).
  pose proof (proj2 (ser_cfi _ Hser)) as Hr. rewrite Forall_forall in Hr.
  rewrite (read_cstring_stored mem _ _ (Hr p Hp) He). cbn [obind out_entry retrieved].
  destruct (ParseCFIRuleSet (entry_ p.2) empty_info) as [[ok rules]|]; cbn [obind]; [|done].
  destruct (negb ok); [done|]. change (out_base (retrieved 64 p)) with (base_ p.2).
  destruct (img_deltas _ _ _ Himg) as (raw' & Hat). pose proof Hat as [Hst' Hsm].
  destruct (lookups_stored mem 8 _ _ _ _ Hst' (wf_deltas _ Hwf) (base_ p.2)) as (_ & Hl & _).
  rewrite <- Hsm in Hl. rewrite Hl. cbn [obind].
  rewrite (fast_apply_deltas_refines raw') by (done || apply lower_bound_le ||
    (rewrite Hsm; cbn [num_nodes_]; lia)).
  done.
Qed.
End refines.

(** ** Properties *)

Lemma example_module_serializable : module_serializable example_module.
Proof.
  split.
  - unfold map_fits, serializable_values, key_ok, no_nul. simpl. closed_ok.
  - unfold serializable_ranges, map_fits, key_ok. split; [closed_ok|].
    apply Forall_singleton. exact example_function_ok.
  - unfold map_fits, serializable_values, key_ok. split; [closed_ok|].
    apply Forall_singleton. simpl. unfold symbol_ok, no_nul. closed_ok.
  - assert (forall t, t ∈ [empty_contained] -> serializable_tree 8 t) as He.
    { intros t ->%list_elem_of_singleton. constructor; [closed_ok|done|closed_ok| |by intros p ?%elem_of_nil].
      unfold map_fits, key_ok. closed_ok. }
    repeat (apply Forall_cons_2; [first [apply He; set_solver|idtac]|]); [|constructor].
    constructor; [closed_ok|done|closed_ok|unfold map_fits, key_ok; closed_ok|].
    intros p ->%list_elem_of_singleton. constructor;
      [closed_ok|exact example_frame_info_ok|closed_ok|unfold map_fits, key_ok; closed_ok|by intros q ?%elem_of_nil].
  - intros t r w Ht Hr Hw. assert (w = example_frame_info) as ->; [|split; [done|exact example_frame_info_ok]].
    simpl in Ht. rewrite !elem_of_cons in Ht.
    destruct Ht as [->|[->|[->|[->|[->|Ht]]]]]; try (by apply elem_of_nil in Hr); [|by apply elem_of_nil in Ht].
    simpl in Hr. apply list_elem_of_singleton in Hr as ->. simpl in Hw. by injection Hw.
  - unfold serializable_ranges, map_fits, key_ok. split; [closed_ok|].
    apply Forall_singleton. simpl. unfold no_nul. closed_ok.
  - unfold map_fits, serializable_values, key_ok, no_nul. split; [closed_ok|].
    apply Forall_singleton. simpl. unfold no_nul. closed_ok.
  - vm_compute. reflexivity.
Qed.

(** C2: the fast resolver refines the basic one.  For every well-formed
    module the serializer can represent, [ModuleSerializer::Serialize] fills the
    buffer it allocates exactly, [LoadMapFromMemory] finds the ten maps and the
    corruption flag in it, and for every frame [LookupAddress],
    [FindWindowsFrameInfo] and [FindCFIFrameInfo] of the fast module return
    exactly what those of the basic module return. *)
Theorem FastModule_refinement (heap : nat -> byte_list) (m : BasicModule) :
  allocates heap -> module_wf m -> module_serializable m ->
  exists buf fm,
    Module_Serialize heap m = Ok (buf, Z.of_nat (length buf)) /\
    LoadMapFromMemory buf = Ok fm /\ fast_is_corrupt fm = is_corrupt_ m /\
    forall frame,
      Fast_LookupAddress buf fm frame = LookupAddress m frame /\
      Fast_FindWindowsFrameInfo buf fm frame = FindWindowsFrameInfo m frame /\
      Fast_FindCFIFrameInfo buf fm frame = FindCFIFrameInfo m frame.
Proof.
  intros Hh Hwf Hser. pose proof (wf_frame_info_count _ Hwf) as Hc.
  destruct (Module_Serialize_spec m Hser Hc heap Hh) as (buf & E1 & E2 & Hst).
  specialize (Hst []). rewrite app_nil_r in Hst.
  destruct (LoadMapFromMemory_image m Hser Hc buf Hst) as (fm & E3 & Himg).
  exists buf, fm. split; [by rewrite E2|]. split; [done|]. split; [apply Himg|]. intros frame.
  split; [|split].
  - by apply Fast_LookupAddress_refines.
  - by apply Fast_FindWindowsFrameInfo_refines.
  - by apply Fast_FindCFIFrameInfo_refines.
Qed.

Lemma FastModule_refinement_witness :
  exists buf fm,
    Module_Serialize example_heap example_module = Ok (buf, Z.of_nat (length buf)) /\
    LoadMapFromMemory buf = Ok fm /\ fast_is_corrupt fm = false /\
    forall frame,
      Fast_LookupAddress buf fm frame = LookupAddress example_module frame /\
      Fast_FindWindowsFrameInfo buf fm frame = FindWindowsFrameInfo example_module frame /\
      Fast_FindCFIFrameInfo buf fm frame = FindCFIFrameInfo example_module frame.
Proof.
  apply (FastModule_refinement example_heap example_module).
  - exact example_heap_allocates.
  - exact example_module_wf.
  - exact example_module_serializable.
Defined.
