(* ===== verification/SymbolParser.v ===== *)
(** * The symbol file parser (processor/tokenize.cc, windows_frame_info.h,
    basic_source_line_resolver.cc)

    [BasicSourceLineResolver::Module::LoadMapFromMemory]: the symbol file is
    one buffer that [strtok_r] cuts into lines and the line parsers cut
    further, in place.  Functions are shared objects: the one a FUNC record
    stored in the module is the one later line records are added to. *)

From S2P Require Import Prelude Memory LibcSupport OrderedMap AddressMap RangeMap ContainedRangeMap Tokens CStrings SymbolRecords SymbolModule.
#[local] Open Scope Z_scope.

(** [kWhitespace] and the line separators. *)
Definition kWhitespace (c : Z) : bool := (c =? 32) || (c =? 13) || (c =? 10).
Definition eol (c : Z) : bool := (c =? 13) || (c =? 10).

(** ** tokenize.cc *)

(** The [while] loop of [Tokenize]: the buffer, [save_ptr], [remaining] and the
    tokens; every round lowers [remaining]. *)
Fixpoint Tokenize_loop (fuel : nat) (separators : Z -> bool) (mem : chars) (token : option Z)
    (save_ptr remaining : Z) (tokens : list Z) : outcome (chars * Z * Z * list Z) :=
  match fuel with
  | O => Undef
  | S fuel =>
      match token with
      | None => Ok (mem, save_ptr, remaining, tokens)
      | Some t =>
          let remaining := remaining - 1 in
          if 0 <? remaining then
            let tokens := tokens ++ [t] in
            let? (mem, token, save_ptr) :=
              if 1 <? remaining then strtok_r separators mem save_ptr
              else Ok (mem, token, save_ptr) in
            Tokenize_loop fuel separators mem token save_ptr remaining tokens
          else Ok (mem, save_ptr, remaining, tokens)
      end
  end.

Definition Tokenize (mem : chars) (line : Z) (separators : Z -> bool) (max_tokens : Z) :
    outcome (bool * list Z * chars) :=
  let remaining := max_tokens in
  let? (mem, token, save_ptr) := strtok_r separators mem line in
  let? (mem, save_ptr, remaining, tokens) :=
    Tokenize_loop (S (Z.to_nat max_tokens)) separators mem token save_ptr remaining [] in
  let? (mem, tokens) :=
    if remaining =? 0 then
      let? (mem, token, _) := strtok_r eol mem save_ptr in
      Ok (mem, match token with Some t => tokens ++ [t] | None => tokens end)
    else Ok (mem, tokens) in
  Ok (Z.of_nat (length tokens) =? max_tokens, tokens, mem).

(** ** SymbolParseHelper *)

(** [strcmp(a, b) == 0] with the string at [ptr]. *)
Definition string_is (mem : chars) (ptr : Z) (literal : chars) : outcome bool :=
  let? s := read_cstring mem ptr in Ok (bool_decide (s = literal)).

Definition TokenizeWithOptionalField (mem : chars) (line : Z) (optional_field : chars)
    (separators : Z -> bool) (max_tokens : Z) : outcome (bool * list Z * chars) :=
  let? (ok, tokens, mem) := Tokenize mem line separators (max_tokens - 1) in
  if negb ok then Ok (false, tokens, mem)
  else
    let? front := of_option (head tokens) in
    let? present := string_is mem front optional_field in
    if (present : bool) then
      let? back := of_option (last tokens) in
      let? (ok, last_tokens, mem) := Tokenize mem back separators 2 in
      if negb ok then Ok (false, tokens, mem)
      else
        let? t0 := of_option (last_tokens !! 0%nat) in
        let? t1 := of_option (last_tokens !! 1%nat) in
        Ok (true, removelast tokens ++ [t0; t1], mem)
    else Ok (true, tokens, mem).

(** [after_number] is never NULL; [strchr] also finds the terminator. *)
Definition IsValidAfterNumber (after_number : chars) : bool :=
  match after_number with
  | [] => true
  | c :: _ => kWhitespace c
  end.

(** The strings the tokens point to. *)
Fixpoint token_texts (mem : chars) (tokens : list Z) : outcome (list chars) :=
  match tokens with
  | [] => Ok []
  | ptr :: tokens =>
      let? t := read_cstring mem ptr in
      let? ts := token_texts mem tokens in
      Ok (t :: ts)
  end.

Section parse.
(** The width of [long]. *)
Context (lw : Z).

Definition ulonglong_max : Z := 2 ^ 64 - 1.
Definition long_max : Z := 2 ^ (lw - 1) - 1.

(** A [strtoull] field in base 16, and a [strtol] field, as every record checks
    them; [None] for [return false]. *)
Definition parse_uint64 (text : chars) : option Z :=
  let (v, after_number) := strtou 64 16 text in
  if negb (IsValidAfterNumber after_number) || (v =? ulonglong_max) then None else Some v.

Definition parse_long (base : Z) (text : chars) : option Z :=
  let (v, after_number) := strtol lw base text in
  if negb (IsValidAfterNumber after_number) || (v =? long_max) then None else Some v.

Definition parse_nonnegative (base : Z) (text : chars) : option Z :=
  match parse_long base text with
  | Some v => if v <? 0 then None else Some v
  | None => None
  end.

(** The fields of the records from their tokens: the output parameters, or
    [None] for [return false]. *)
Definition file_fields (tokens : list chars) : option (Z * chars) :=
  match parse_nonnegative 10 (nth 0 tokens []) with
  | None => None
  | Some index =>
      let filename := nth 1 tokens [] in
      if (length filename =? 0)%nat then None else Some (index, filename)
  end.

Definition function_fields (tokens : list chars) : option (bool * Z * Z * Z * chars) :=
  let is_multiple := bool_decide (nth 0 tokens [] = str "m") in
  let next_token := if is_multiple then 1%nat else 0%nat in
  match parse_uint64 (nth next_token tokens []) with
  | None => None
  | Some address =>
      match parse_uint64 (nth (next_token + 1) tokens []) with
      | None => None
      | Some size =>
          match parse_nonnegative 16 (nth (next_token + 2) tokens []) with
          | None => None
          | Some stack_param_size =>
              Some (is_multiple, address, size, stack_param_size, nth (next_token + 3) tokens [])
          end
      end
  end.

Definition line_fields (tokens : list chars) : option (Z * Z * Z * Z) :=
  match parse_uint64 (nth 0 tokens []) with
  | None => None
  | Some address =>
      match parse_uint64 (nth 1 tokens []) with
      | None => None
      | Some size =>
          match parse_long 10 (nth 2 tokens []) with
          | None => None
          | Some line_number =>
              match parse_nonnegative 10 (nth 3 tokens []) with
              | None => None
              | Some source_file =>
                  if line_number <? 0 then None else Some (address, size, line_number, source_file)
              end
          end
      end
  end.

Definition public_fields (tokens : list chars) : option (bool * Z * Z * chars) :=
  let is_multiple := bool_decide (nth 0 tokens [] = str "m") in
  let next_token := if is_multiple then 1%nat else 0%nat in
  match parse_uint64 (nth next_token tokens []) with
  | None => None
  | Some address =>
      match parse_nonnegative 16 (nth (next_token + 1) tokens []) with
      | None => None
      | Some stack_param_size =>
          Some (is_multiple, address, stack_param_size, nth (next_token + 2) tokens [])
      end
  end.

(** [return false] when [Tokenize] does, else the fields. *)
Definition with_fields {A} (fields : list chars -> option A) (r : bool * list Z * chars) :
    outcome (option A * chars) :=
  let '(ok, tokens, mem) := r in
  if negb ok then Ok (None, mem)
  else let? texts := token_texts mem tokens in Ok (fields texts, mem).

Definition Helper_ParseFile (mem : chars) (file_line : Z) : outcome (option (Z * chars) * chars) :=
  let? r := Tokenize mem (file_line + 5) kWhitespace 2 in with_fields file_fields r.

Definition Helper_ParseFunction (mem : chars) (function_line : Z) :
    outcome (option (bool * Z * Z * Z * chars) * chars) :=
  let? r := TokenizeWithOptionalField mem (function_line + 5) (str "m") kWhitespace 5 in
  with_fields function_fields r.

Definition Helper_ParseLine (mem : chars) (line_line : Z) :
    outcome (option (Z * Z * Z * Z) * chars) :=
  let? r := Tokenize mem line_line kWhitespace 4 in with_fields line_fields r.

Definition Helper_ParsePublicSymbol (mem : chars) (public_line : Z) :
    outcome (option (bool * Z * Z * chars) * chars) :=
  let? r := TokenizeWithOptionalField mem (public_line + 7) (str "m") kWhitespace 4 in
  with_fields public_fields r.

(** ** WindowsFrameInfo::ParseFromString *)

(** An [unsigned int] or [int] from [strtoul]. *)
Definition hex_uint32 (text : chars) : Z := wrap 32 (strtou lw 16 text).1.
Definition hex_int (text : chars) : Z := swrap 32 (strtou lw 16 text).1.

(** The record, [type], [rva] and [code_size], or [None] for NULL. *)
Definition frame_info_fields (tokens : list chars) : option (WindowsFrameInfo * Z * Z * Z) :=
  let token i := nth i tokens [] in
  let type := swrap 32 (strtol lw 16 (token 0%nat)).1 in
  if (type <? 0) || (Z.of_nat STACK_INFO_LAST - 1 <? type) then None
  else
    let rva := (strtou 64 16 (token 1%nat)).1 in
    let code_size := (strtou 64 16 (token 2%nat)).1 in
    let prolog_size := hex_uint32 (token 3%nat) in
    let epilog_size := hex_uint32 (token 4%nat) in
    let parameter_size := hex_uint32 (token 5%nat) in
    let saved_register_size := hex_uint32 (token 6%nat) in
    let local_size := hex_uint32 (token 7%nat) in
    let max_stack_size := hex_uint32 (token 8%nat) in
    let has_program_string := hex_int (token 9%nat) in
    let (program_string, allocates_base_pointer) :=
      if negb (has_program_string =? 0) then (token 10%nat, 0) else ([], hex_int (token 10%nat)) in
    Some (new_frame_info type prolog_size epilog_size parameter_size saved_register_size local_size
            max_stack_size allocates_base_pointer program_string, type, rva, code_size).

(** The text is copied to a buffer of its own. *)
Definition ParseFromString (s : chars) : outcome (option (WindowsFrameInfo * Z * Z * Z)) :=
  let buffer := s ++ [0] in
  let? r := Tokenize buffer 0 kWhitespace 11 in
  let? (fields, _) := with_fields frame_info_fields r in Ok fields.

(** ** BasicSourceLineResolver::Module

    The module being loaded, whose functions are pointers into [heap], the
    buffer, [cur_func] and [num_errors].  Nothing is ever freed here: a
    function no map holds is only unreachable. *)
Record Loader : Type := mkLoader {
  buffer_ : chars;
  module_ : Module (option nat);
  heap_ : list Function_;
  cur_func : option nat;
  num_errors : Z;
}.

Definition set_buffer (l : Loader) (mem : chars) : Loader :=
  mkLoader mem (module_ l) (heap_ l) (cur_func l) (num_errors l).

Definition set_cur_func (l : Loader) (func : option nat) : Loader :=
  mkLoader (buffer_ l) (module_ l) (heap_ l) func (num_errors l).

Definition LogParseError (l : Loader) : Loader :=
  mkLoader (buffer_ l) (module_ l) (heap_ l) (cur_func l) (num_errors l + 1).

Definition set_module (l : Loader) (m : Module (option nat)) : Loader :=
  mkLoader (buffer_ l) m (heap_ l) (cur_func l) (num_errors l).

Definition set_heap (l : Loader) (h : list Function_) : Loader :=
  mkLoader (buffer_ l) (module_ l) h (cur_func l) (num_errors l).

Section members.
Context {F : Type}.
Implicit Types (m : Module F).

Definition set_files m x : Module F :=
  mkModule x (functions_ m) (public_symbols_ m) (is_corrupt_ m) (windows_frame_info_ m)
    (cfi_initial_rules_ m) (cfi_delta_rules_ m).
Definition set_functions m x : Module F :=
  mkModule (files_ m) x (public_symbols_ m) (is_corrupt_ m) (windows_frame_info_ m)
    (cfi_initial_rules_ m) (cfi_delta_rules_ m).
Definition set_public_symbols m x : Module F :=
  mkModule (files_ m) (functions_ m) x (is_corrupt_ m) (windows_frame_info_ m)
    (cfi_initial_rules_ m) (cfi_delta_rules_ m).
Definition set_corrupt m x : Module F :=
  mkModule (files_ m) (functions_ m) (public_symbols_ m) x (windows_frame_info_ m)
    (cfi_initial_rules_ m) (cfi_delta_rules_ m).
Definition set_frame_info m x : Module F :=
  mkModule (files_ m) (functions_ m) (public_symbols_ m) (is_corrupt_ m) x
    (cfi_initial_rules_ m) (cfi_delta_rules_ m).
Definition set_cfi_initial m x : Module F :=
  mkModule (files_ m) (functions_ m) (public_symbols_ m) (is_corrupt_ m) (windows_frame_info_ m)
    x (cfi_delta_rules_ m).
Definition set_cfi_delta m x : Module F :=
  mkModule (files_ m) (functions_ m) (public_symbols_ m) (is_corrupt_ m) (windows_frame_info_ m)
    (cfi_initial_rules_ m) x.

(** The constructor. *)
Definition new_module : Module F :=
  mkModule [] empty_range_map [] false (replicate STACK_INFO_LAST empty_contained)
    empty_range_map [].

Definition add_file m (index : Z) (filename : chars) : Module F :=
  set_files m (insert (files_ m) (swrap 32 index) filename).

(** The symbols at address 0 are accepted and dropped. *)
Definition add_public_symbol m (is_multiple : bool) (address stack_param_size : Z) (name : chars) :
    bool * Module F :=
  if address =? 0 then (true, m)
  else
    let symbol := mkPublicSymbol name address (swrap 32 stack_param_size) is_multiple in
    let (ok, symbols) := AddressMap.Store (public_symbols_ m) address (Some symbol) in
    (ok, set_public_symbols m symbols).

(** [windows_frame_info_[type].StoreRange(rva, code_size, stack_frame_info)] *)
Definition add_frame_info m (w : WindowsFrameInfo) (type rva code_size : Z) : outcome (Module F) :=
  let? map := of_option (windows_frame_info_ m !! Z.to_nat type) in
  let? (_, map) := ContainedRangeMap.StoreRange 64 map rva code_size (Some w) in
  Ok (set_frame_info m (<[Z.to_nat type := map]> (windows_frame_info_ m))).

Definition add_cfi_initial m (address size : Z) (rules : chars) : outcome (Module F) :=
  let? (_, map) := RangeMap.StoreRange 64 [] (cfi_initial_rules_ m) address size rules in
  Ok (set_cfi_initial m map).

Definition add_cfi_delta m (address : Z) (rules : chars) : Module F :=
  set_cfi_delta m (assign (cfi_delta_rules_ m) address rules).
End members.

Definition new_function (name : chars) (address size stack_param_size : Z) (is_multiple : bool) :
    Function_ :=
  mkFunction name address size (swrap 32 stack_param_size) is_multiple empty_range_map.

(** What each record does to the module. *)
Definition apply_file (r : option (Z * chars)) (l : Loader) : bool * Loader :=
  match r with
  | Some (index, filename) => (true, set_module l (add_file (module_ l) index filename))
  | None => (false, l)
  end.

(** The pointer to the new function, [None] for NULL. *)
Definition apply_function (r : option (bool * Z * Z * Z * chars)) (l : Loader) : option nat * Loader :=
  match r with
  | Some (is_multiple, address, size, stack_param_size, name) =>
      (Some (length (heap_ l)),
       set_heap l (heap_ l ++ [new_function name address size stack_param_size is_multiple]))
  | None => (None, l)
  end.

Definition apply_line (r : option (Z * Z * Z * Z)) : option Line :=
  match r with
  | Some (address, size, line_number, source_file) =>
      Some (mkLine address size (swrap 32 source_file) (swrap 32 line_number))
  | None => None
  end.

Definition apply_public (r : option (bool * Z * Z * chars)) (l : Loader) : bool * Loader :=
  match r with
  | Some (is_multiple, address, stack_param_size, name) =>
      let (ok, m) := add_public_symbol (module_ l) is_multiple address stack_param_size name in
      (ok, set_module l m)
  | None => (false, l)
  end.

Definition apply_frame_info (r : option (WindowsFrameInfo * Z * Z * Z)) (l : Loader) :
    outcome (bool * Loader) :=
  match r with
  | Some (w, type, rva, code_size) =>
      let? m := add_frame_info (module_ l) w type rva code_size in Ok (true, set_module l m)
  | None => Ok (false, l)
  end.

(** A STACK CFI INIT or a STACK CFI record, as text. *)
Inductive CFIRecord : Type :=
| CFIInit (address size rules : chars)
| CFIDelta (address rules : chars).

Definition apply_cfi (r : option CFIRecord) (l : Loader) : outcome (bool * Loader) :=
  match r with
  | Some (CFIInit address size rules) =>
      let? m := add_cfi_initial (module_ l) (strtou lw 16 address).1 (strtou lw 16 size).1 rules in
      Ok (true, set_module l m)
  | Some (CFIDelta address rules) =>
      Ok (true, set_module l (add_cfi_delta (module_ l) (strtou lw 16 address).1 rules))
  | None => Ok (false, l)
  end.

Definition Module_ParseFile (l : Loader) (file_line : Z) : outcome (bool * Loader) :=
  let? (r, mem) := Helper_ParseFile (buffer_ l) file_line in Ok (apply_file r (set_buffer l mem)).

Definition Module_ParseFunction (l : Loader) (function_line : Z) : outcome (option nat * Loader) :=
  let? (r, mem) := Helper_ParseFunction (buffer_ l) function_line in
  Ok (apply_function r (set_buffer l mem)).

Definition Module_ParseLine (l : Loader) (line_line : Z) : outcome (option Line * Loader) :=
  let? (r, mem) := Helper_ParseLine (buffer_ l) line_line in Ok (apply_line r, set_buffer l mem).

Definition Module_ParsePublicSymbol (l : Loader) (public_line : Z) : outcome (bool * Loader) :=
  let? (r, mem) := Helper_ParsePublicSymbol (buffer_ l) public_line in
  Ok (apply_public r (set_buffer l mem)).

(** The fields of a CFI record, cut out of the buffer. *)
Definition cfi_fields (mem : chars) (stack_info_line : Z) : outcome (option CFIRecord * chars) :=
  let? (mem, init_or_address, cursor) := strtok_r kWhitespace mem stack_info_line in
  match init_or_address with
  | None => Ok (None, mem)
  | Some init_or_address =>
      let? is_init := string_is mem init_or_address (str "INIT") in
      if (is_init : bool) then
        let? (mem, address_field, cursor) := strtok_r kWhitespace mem cursor in
        match address_field with
        | None => Ok (None, mem)
        | Some address_field =>
            let? (mem, size_field, cursor) := strtok_r kWhitespace mem cursor in
            match size_field with
            | None => Ok (None, mem)
            | Some size_field =>
                let? (mem, initial_rules, cursor) := strtok_r eol mem cursor in
                match initial_rules with
                | None => Ok (None, mem)
                | Some initial_rules =>
                    let? address := read_cstring mem address_field in
                    let? size := read_cstring mem size_field in
                    let? rules := read_cstring mem initial_rules in
                    Ok (Some (CFIInit address size rules), mem)
                end
            end
        end
      else
        let address_field := init_or_address in
        let? (mem, delta_rules, cursor) := strtok_r eol mem cursor in
        match delta_rules with
        | None => Ok (None, mem)
        | Some delta_rules =>
            let? address := read_cstring mem address_field in
            let? rules := read_cstring mem delta_rules in
            Ok (Some (CFIDelta address rules), mem)
        end
  end.

Definition ParseCFIFrameInfo (l : Loader) (stack_info_line : Z) : outcome (bool * Loader) :=
  let? (r, mem) := cfi_fields (buffer_ l) stack_info_line in apply_cfi r (set_buffer l mem).

(** [*p == ' '], and [strchr(kWhitespace, *p)], which also finds a NUL. *)
Definition is_space (c : Z) : bool := c =? 32.
Definition in_kWhitespace (c : Z) : bool := kWhitespace c || (c =? 0).

(** The first position from [p] whose character [f] does not hold of. *)
Definition advance (f : Z -> bool) (mem : chars) (p : Z) : outcome Z :=
  if p <? 0 then Undef
  else
    let p := p + Z.of_nat (prefix_len f (drop (Z.to_nat p) mem)) in
    let? _ := char_at mem p in Ok p.

Definition ParseStackInfo (l : Loader) (stack_info_line : Z) : outcome (bool * Loader) :=
  let stack_info_line := stack_info_line + 6 in
  let? stack_info_line := advance is_space (buffer_ l) stack_info_line in
  let platform := stack_info_line in
  let? stack_info_line := advance (fun c => negb (in_kWhitespace c)) (buffer_ l) stack_info_line in
  let? mem := write_at (buffer_ l) stack_info_line [0] in
  let stack_info_line := stack_info_line + 1 in
  let l := set_buffer l mem in
  let? is_win := string_is (buffer_ l) platform (str "WIN") in
  if (is_win : bool) then
    let? s := read_cstring (buffer_ l) stack_info_line in
    let? stack_frame_info := ParseFromString s in
    apply_frame_info stack_frame_info l
  else
    let? is_cfi := string_is (buffer_ l) platform (str "CFI") in
    if (is_cfi : bool) then ParseCFIFrameInfo l stack_info_line else Ok (false, l).

(** ** LoadMapFromMemory *)

(** [cur_func->lines.StoreRange(..)] on the shared function. *)
Definition store_line (l : Loader) (func : nat) (line : Line) : outcome Loader :=
  let? f := of_option (heap_ l !! func) in
  let? (_, lines) := RangeMap.StoreRange 64 None (lines f) (line_address line) (line_size line) (Some line) in
  Ok (set_heap l (<[func := mkFunction (function_name f) (function_address f) (function_size f)
                               (function_parameter_size f) (function_is_multiple f) lines]> (heap_ l))).

(** [functions_.StoreRange(cur_func->address, cur_func->size, cur_func)] *)
Definition store_function (l : Loader) (func : nat) : outcome Loader :=
  let? f := of_option (heap_ l !! func) in
  let? (_, functions) :=
    RangeMap.StoreRange 64 None (functions_ (module_ l)) (function_address f) (function_size f) (Some func) in
  Ok (set_module l (set_functions (module_ l) functions)).

(** [strncmp(buffer, prefix, strlen(prefix)) == 0] *)
Definition starts_with (prefix text : chars) : bool := bool_decide (take (length prefix) text = prefix).

(** The body of the loop for the line at [buffer]. *)
Definition load_line (l : Loader) (buffer : Z) : outcome Loader :=
  let? text := read_cstring (buffer_ l) buffer in
  if starts_with (str "FILE ") text then
    let? (ok, l) := Module_ParseFile l buffer in
    Ok (if ok : bool then l else LogParseError l)
  else if starts_with (str "STACK ") text then
    let? (ok, l) := ParseStackInfo l buffer in
    Ok (if ok : bool then l else LogParseError l)
  else if starts_with (str "FUNC ") text then
    let? (func, l) := Module_ParseFunction l buffer in
    let l := set_cur_func l func in
    match cur_func l with
    | None => Ok (LogParseError l)
    | Some func => store_function l func
    end
  else if starts_with (str "PUBLIC ") text then
    let l := set_cur_func l None in
    let? (ok, l) := Module_ParsePublicSymbol l buffer in
    Ok (if ok : bool then l else LogParseError l)
  else if starts_with (str "MODULE ") text then Ok l
  else if starts_with (str "INFO ") text then Ok l
  else
    match cur_func l with
    | None => Ok (LogParseError l)
    | Some func =>
        let? (line, l) := Module_ParseLine l buffer in
        match line with
        | None => Ok (LogParseError l)
        | Some line => store_line l func line
        end
    end.

Definition kMaxErrorsBeforeBailing : Z := 100.

(** The loop over the lines; [save_ptr] moves on with every round. *)
Fixpoint load_loop (fuel : nat) (l : Loader) (buffer : option Z) (save_ptr : Z) : outcome Loader :=
  match fuel with
  | O => Undef
  | S fuel =>
      match buffer with
      | None => Ok l
      | Some buffer =>
          let? l := load_line l buffer in
          if kMaxErrorsBeforeBailing <? num_errors l then Ok l
          else
            let? (mem, buffer, save_ptr) := strtok_r eol (buffer_ l) save_ptr in
            load_loop fuel (set_buffer l mem) buffer save_ptr
      end
  end.

(** The position after the last character that is not NUL, before the last
    one of the buffer. *)
Definition last_terminator (mem : chars) : nat :=
  let n := (length mem - 1)%nat in
  (n - prefix_len (fun c => (c =? 0)%Z) (rev (take n mem)))%nat.

(** The loaded module, its functions in the heap, and the buffer as it is left;
    [false] is never returned. *)
Definition LoadMapFromMemory_in_place (m : Module (option nat)) (memory_buffer : chars) :
    outcome (Module (option nat) * list Function_ * chars) :=
  if (length memory_buffer =? 0)%nat then Ok (m, [], memory_buffer)
  else
    let? mem := write_at memory_buffer (Z.of_nat (length memory_buffer) - 1) [0] in
    let last_null_terminator := last_terminator mem in
    let content := take last_null_terminator mem in
    let has_null_terminator_in_the_middle := existsb (fun c => c =? 0) content in
    let mem := map (fun c => if c =? 0 then 95 else c) content ++ drop last_null_terminator mem in
    let l := mkLoader mem m [] None 0 in
    let l := if has_null_terminator_in_the_middle then LogParseError l else l in
    let? (mem, buffer, save_ptr) := strtok_r eol (buffer_ l) 0 in
    let? l := load_loop (S (length mem)) (set_buffer l mem) buffer save_ptr in
    Ok (set_corrupt (module_ l) (0 <? num_errors l), heap_ l, buffer_ l).

Definition Basic_LoadMapFromMemory (m : Module (option nat)) (memory_buffer : chars) :
    outcome (Module (option nat) * list Function_) :=
  let? (loaded, _) := LoadMapFromMemory_in_place m memory_buffer in Ok loaded.
End parse.

(** The module as the lookups see it: pointers to functions followed. *)
Definition deref_ranges (heap : list Function_) (rm : RangeMap (option nat)) : RangeMap (option Function_) :=
  mkRangeMap (merge_strategy_ rm)
    ((fun p => (p.1, mkRange (base_ p.2) (delta_ p.2)
                       (match entry_ p.2 with Some i => heap !! i | None => None end))) <$> map_ rm).

Definition deref_module (heap : list Function_) (m : Module (option nat)) : BasicModule :=
  mkModule (files_ m) (deref_ranges heap (functions_ m)) (public_symbols_ m) (is_corrupt_ m)
    (windows_frame_info_ m) (cfi_initial_rules_ m) (cfi_delta_rules_ m).
