(* ===== verification/SymbolText.v ===== *)
(** * The symbol file as text

    What the symbol file parser computes, said on lines of text instead of a
    buffer: [strtok_r] in the buffer is [next_token] on the text, each line is
    a record, and the file is its lines in order.  [LoadMapFromMemory] is
    proved to be this, whatever the file says, as long as every STACK line has
    something after its platform. *)

From S2P Require Import Prelude Memory LibcSupport SimpleSerializer OrderedMap AddressMap RangeMap ContainedRangeMap Tokens CStrings SymbolRecords SymbolModule SymbolParser.
#[local] Open Scope Z_scope.

(** ** Buffers with some bytes zeroed *)

Definition zeroed (lo hi : Z) (mem mem' : chars) : Prop :=
  length mem' = length mem /\
  forall i : nat, mem' !! i = mem !! i \/ (lo <= Z.of_nat i < hi /\ mem' !! i = Some 0).

Lemma zeroed_refl lo hi mem : zeroed lo hi mem mem.
Proof. split; auto. Qed.

Lemma zeroed_trans lo hi m1 m2 m3 : zeroed lo hi m1 m2 -> zeroed lo hi m2 m3 -> zeroed lo hi m1 m3.
Proof.
  intros [L1 H1] [L2 H2]. split; [congruence|]. intros i.
  destruct (H2 i) as [->|?]; [apply H1|auto].
Qed.

Lemma zeroed_mono lo hi lo' hi' m1 m2 : zeroed lo hi m1 m2 -> lo' <= lo -> hi <= hi' -> zeroed lo' hi' m1 m2.
Proof.
  intros [L H] Hlo Hhi. split; [done|]. intros i. destruct (H i) as [?|[? ?]]; [auto|].
  right. split; [lia|done].
Qed.

(** A string survives the zeroing of bytes after its characters, and before
    them. *)
Lemma holds_zeroed lo hi mem mem' p s :
  holds mem p (s ++ [0]) -> zeroed lo hi mem mem' ->
  p + Z.of_nat (length s) <= lo \/ hi <= p -> holds mem' p (s ++ [0]).
Proof.
  intros (Hp & Hl & Hb) [L H] Hlo. split; [done|]. rewrite L. split; [done|].
  intros i b Hi. pose proof (Hb i b Hi) as Hm. destruct (H (Z.to_nat p + i)%nat) as [->|[Hr Hz]]; [done|].
  rewrite Hz. f_equal. destruct Hlo as [Hlo|]; [|lia]. rewrite lookup_app_r in Hi by lia.
  destruct (i - length s)%nat; [by injection Hi|done].
Qed.

Lemma char_at_holds mem p s (i : nat) c :
  holds mem p s -> s !! i = Some c -> char_at mem (p + Z.of_nat i) = Ok c.
Proof.
  intros (Hp & _ & Hb) Hi. unfold char_at. rewrite (proj2 (Z.ltb_ge _ _)) by lia.
  replace (Z.to_nat (p + Z.of_nat i)) with (Z.to_nat p + i)%nat by lia. by rewrite (Hb i c Hi).
Qed.

Lemma char_at_head mem p c s : holds mem p (c :: s) -> char_at mem p = Ok c.
Proof.
  intros H. rewrite <- (char_at_holds mem p (c :: s) 0 c H) by done. by rewrite Z.add_0_r.
Qed.

Lemma holds_drop mem p s (i : nat) :
  (i <= length s)%nat -> holds mem p s -> holds mem (p + Z.of_nat i) (drop i s).
Proof.
  intros Hi H. rewrite <- (take_drop i s) in H. apply holds_app in H as [_ H].
  by rewrite length_take, Nat.min_l in H by done.
Qed.

(** What follows [p] in the buffer starts with the string there. *)
Lemma drop_holds mem p s : holds mem p s -> exists rest, drop (Z.to_nat p) mem = s ++ rest.
Proof.
  intros H. exists (drop (length s) (drop (Z.to_nat p) mem)).
  rewrite <- (holds_take mem p s H) at 1. by rewrite take_drop.
Qed.

Lemma prefix_len_holds f mem p s :
  f 0 = false -> holds mem p (s ++ [0]) -> prefix_len f (drop (Z.to_nat p) mem) = prefix_len f s.
Proof.
  intros Hf (rest & ->)%drop_holds. rewrite <- app_assoc. simpl.
  induction s as [|c s IH]; simpl; [by rewrite Hf|]. destruct (f c); [by rewrite IH|done].
Qed.

(** Writing a NUL. *)
Lemma write_nul mem p : 0 <= p < Z.of_nat (length mem) ->
  exists mem', write_at mem p [0] = Ok mem' /\ zeroed p (p + 1) mem mem' /\ holds mem' p [0].
Proof.
  intros Hp. destruct (write_at_spec mem p [0]) as (mem' & E & Hh & [L HS]); [lia|simpl; lia|].
  exists mem'. split; [done|]. split; [|done]. split; [done|]. intros i.
  destruct (decide (p <= Z.of_nat i < p + 1)) as [Hi|Hi].
  - right. split; [done|]. destruct Hh as (_ & _ & Hb). specialize (Hb 0%nat 0 eq_refl).
    by replace (Z.to_nat p + 0)%nat with i in Hb by lia.
  - left. apply HS. unfold beyond. simpl. lia.
Qed.

(** ** strtok_r is next_token *)

(** The token [t] found at [tp], with [save_ptr] [q] on the rest of the text. *)
Definition cut_token (mem mem' : chars) (p : Z) (s t rest : chars) (tp q : Z) : Prop :=
  zeroed tp (p + Z.of_nat (length s)) mem mem' /\
  holds mem' tp (t ++ [0]) /\ holds mem' q (drop 1 rest ++ [0]) /\
  p <= tp /\ tp + Z.of_nat (length t) <= q /\
  q + Z.of_nat (length (drop 1 rest)) = p + Z.of_nat (length s).

Ltac lengths :=
  rewrite ?length_app; cbn [length app drop]; rewrite ?length_app, ?drop_0; cbn [length]; lia.

Lemma no_nul_app s1 s2 : no_nul (s1 ++ s2) <-> no_nul s1 /\ no_nul s2.
Proof. apply Forall_app. Qed.

Lemma strtok_r_text sep mem p s :
  sep 0 = false -> no_nul s -> holds mem p (s ++ [0]) ->
  match next_token sep s with
  | None => strtok_r sep mem p = Ok (mem, None, p + Z.of_nat (length s))
  | Some (t, rest) => exists mem' tp q,
      strtok_r sep mem p = Ok (mem', Some tp, q) /\ cut_token mem mem' p s t rest tp q
  end.
Proof.
  intros Hsep Hs Hh. pose proof (next_token_spec sep s) as Hn. unfold strtok_r.
  pose proof Hh as (Hp & Hl & _). rewrite (proj2 (Z.ltb_ge _ _)) by lia. cbv zeta.
  rewrite (prefix_len_holds sep mem p s Hsep Hh).
  destruct (next_token sep s) as [[t rest]|].
  - destruct Hn as (sp & -> & Hsp & Hne & Ht & Hrest). rewrite prefix_len_app by done.
    destruct t as [|c t]; [done|]. apply Forall_cons in Ht as Ht'. destruct Ht' as [Hc _].
    apply no_nul_app in Hs as [_ [Hst Hsr]%no_nul_app]. pose proof Hst as [Hc0 _]%Forall_cons.
    cbn [app prefix_len]. rewrite Hc, Nat.add_0_r.
    rewrite <- app_assoc in Hh. apply holds_app in Hh as [_ Hh].
    set (tp := p + Z.of_nat (length sp)) in *. rewrite <- app_assoc in Hh.
    rewrite (char_at_head mem tp c _ Hh). cbn [obind].
    rewrite (proj2 (Z.eqb_neq _ _)) by done. rewrite app_assoc in Hh.
    rewrite (prefix_len_holds _ mem tp ((c :: t) ++ rest)) by (done || by rewrite Hsep).
    assert (prefix_len (fun c => negb (sep c) && negb (c =? 0)) ((c :: t) ++ rest) = length (c :: t)) as ->.
    { rewrite prefix_len_app.
      - rewrite (prefix_len_head _ rest); [lia|]. intros x Hx. by rewrite (Hrest x Hx).
      - apply Forall_forall. intros x Hx. rewrite Forall_forall in Ht. rewrite (Ht x Hx). simpl.
        unfold no_nul in Hst. rewrite Forall_forall in Hst. by apply negb_true_iff, Z.eqb_neq, Hst. }
    set (e := tp + Z.of_nat (length (c :: t))). rewrite <- app_assoc in Hh.
    pose proof Hh as [Ht1 Hr1]%holds_app. fold e in Hr1.
    rewrite !length_app in Hl. simpl length in Hl.
    destruct rest as [|d rest].
    + rewrite (char_at_head mem e 0 _ Hr1). cbn [obind].
      exists mem, tp, e. split; [done|]. unfold cut_token. split; [apply zeroed_refl|].
      split; [exact Hh|]. split; [exact Hr1|].
      unfold e, tp. lengths.
    + rewrite (char_at_head mem e d _ Hr1). cbn [obind].
      apply Forall_cons in Hsr as [Hd Hsr]. rewrite (proj2 (Z.eqb_neq _ _)) by done.
      destruct (write_nul mem e) as (mem' & -> & Hz & He).
      { unfold e, tp. simpl in *. lia. }
      cbn [obind]. exists mem', tp, (e + 1). split; [done|]. unfold cut_token.
      split; [apply (zeroed_mono _ _ _ _ _ _ Hz); unfold e, tp; lengths|].
      split; [|split; [|unfold e, tp; split; [lia|split; lengths]]].
      * apply holds_app. split; [|exact He]. destruct Ht1 as (H1 & H2 & H3). destruct Hz as [L HZ].
        split; [done|]. rewrite L. split; [done|]. intros i b Hi.
        destruct (HZ (Z.to_nat tp + i)%nat) as [->|[Hr _]]; [by apply H3|].
        apply lookup_lt_Some in Hi. unfold e in Hr. lia.
      * apply (holds_zeroed e (e + 1) mem); [|done|lia].
        change ((d :: rest) ++ [0]) with ([d] ++ (rest ++ [0])) in Hr1. by apply holds_app in Hr1 as [_ Hr1].
  - assert (prefix_len sep s = length s) as ->.
    { rewrite <- (app_nil_r s) at 1. rewrite prefix_len_app by done. cbn [prefix_len]. lia. }
    rewrite (char_at_holds mem p _ (length s) 0 Hh) by by rewrite lookup_app_r, Nat.sub_diag.
    done.
Qed.

Lemma strtok_r_length sep mem p mem' token q :
  strtok_r sep mem p = Ok (mem', token, q) -> length mem' = length mem.
Proof.
  unfold strtok_r. destruct (p <? 0); [done|]. cbv zeta.
  destruct (char_at mem _) as [c|]; [|done]. cbn [obind]. destruct (c =? 0); [by intros [= <- _ _]|].
  destruct (char_at mem _) as [d|]; [|done]. cbn [obind]. destruct (d =? 0); [by intros [= <- _ _]|].
  destruct (write_at mem _ [0]) as [m|] eqn:E; [|done]. intros [= <- _ _].
  unfold write_at in E. destruct (decide _) as [Hd|]; [|done]. injection E as <-.
  rewrite !length_app, length_take. simpl in *. rewrite length_drop. lia.
Qed.

(** ** Tokenize

    The first [k] tokens of a text and what follows the separator after the
    last of them. *)
Fixpoint first_tokens (sep : Z -> bool) (k : nat) (s : chars) : option (list chars * chars) :=
  match k with
  | O => Some ([], s)
  | S k =>
      match next_token sep s with
      | None => None
      | Some (t, rest) =>
          match first_tokens sep k (drop 1 rest) with
          | None => None
          | Some (ts, r) => Some (t :: ts, r)
          end
      end
  end.

(** The [k] first tokens and the rest of the line. *)
Definition tokenize_text (k : nat) (s : chars) : option (list chars) :=
  match first_tokens kWhitespace k s with
  | None => None
  | Some (ts, r) =>
      match next_token eol r with
      | None => None
      | Some (t, _) => Some (ts ++ [t])
      end
  end.

(** The strings [ts] are at [ptrs], in order, between [lo] and [hi]. *)
Fixpoint tokens_at (mem : chars) (lo : Z) (ts : list chars) (ptrs : list Z) (hi : Z) : Prop :=
  match ts, ptrs with
  | [], [] => lo <= hi
  | t :: ts, p :: ptrs =>
      lo <= p /\ holds mem p (t ++ [0]) /\ tokens_at mem (p + Z.of_nat (length t)) ts ptrs hi
  | _, _ => False
  end.

Lemma tokens_at_le mem ts : forall lo ptrs hi, tokens_at mem lo ts ptrs hi -> lo <= hi.
Proof.
  induction ts as [|t ts IH]; intros lo [|p ptrs] hi H; try done. destruct H as (H1 & _ & H2%IH). lia.
Qed.

Lemma tokens_at_zeroed lo0 hi0 mem mem' ts : forall lo ptrs hi,
  tokens_at mem lo ts ptrs hi -> zeroed lo0 hi0 mem mem' -> hi <= lo0 -> tokens_at mem' lo ts ptrs hi.
Proof.
  induction ts as [|t ts IH]; intros lo [|p ptrs] hi H Hz Hle; try done.
  destruct H as (H1 & H2 & H3). split; [done|]. pose proof (tokens_at_le _ _ _ _ _ H3).
  split; [|by apply IH]. apply (holds_zeroed _ _ _ _ _ _ H2 Hz). lia.
Qed.

Lemma tokens_at_mono mem ts : forall lo lo' ptrs hi hi',
  tokens_at mem lo ts ptrs hi -> lo' <= lo -> hi <= hi' -> tokens_at mem lo' ts ptrs hi'.
Proof.
  induction ts as [|t ts IH]; intros lo lo' [|p ptrs] hi hi' H Hlo Hhi; try done; simpl in *; [lia|].
  destruct H as (H1 & H2 & H3). split; [lia|]. split; [done|]. apply (IH _ _ _ _ _ H3); lia.
Qed.

Lemma tokens_at_app mem ts1 : forall lo ts2 ptrs1 ptrs2 mid hi,
  tokens_at mem lo ts1 ptrs1 mid -> tokens_at mem mid ts2 ptrs2 hi ->
  tokens_at mem lo (ts1 ++ ts2) (ptrs1 ++ ptrs2) hi.
Proof.
  induction ts1 as [|t ts1 IH]; intros lo ts2 [|p ptrs1] ptrs2 mid hi H1 H2; try done; simpl in *.
  - by apply (tokens_at_mono _ _ mid _ _ hi).
  - destruct H1 as (Ha & Hb & Hc). split; [done|]. split; [done|]. by apply (IH _ _ _ _ mid).
Qed.

Lemma tokens_at_snoc mem ts : forall lo t ptrs hi,
  tokens_at mem lo (ts ++ [t]) ptrs hi ->
  exists ptrs' p, ptrs = ptrs' ++ [p] /\ tokens_at mem lo ts ptrs' p /\
    holds mem p (t ++ [0]) /\ p + Z.of_nat (length t) <= hi.
Proof.
  induction ts as [|t' ts IH]; intros lo t [|p ptrs] hi H; try done; simpl in H.
  - destruct H as (H1 & H2 & H3). destruct ptrs; [|done]. exists [], p. simpl. auto.
  - destruct H as (H1 & H2 & H3). destruct (IH _ _ _ _ H3) as (ptrs' & p' & -> & H4 & H5 & H6).
    exists (p :: ptrs'), p'. simpl. auto.
Qed.

Lemma length_tokens_at mem ts : forall lo ptrs hi, tokens_at mem lo ts ptrs hi -> length ptrs = length ts.
Proof.
  induction ts as [|t ts IH]; intros lo [|p ptrs] hi H; try done. simpl. destruct H as (_ & _ & H%IH). lia.
Qed.

Lemma token_texts_at mem ts : forall lo ptrs hi,
  tokens_at mem lo ts ptrs hi -> Forall no_nul ts -> token_texts mem ptrs = Ok ts.
Proof.
  induction ts as [|t ts IH]; intros lo [|p ptrs] hi H Hn; try done.
  apply Forall_cons in Hn as [Ht Hn]. destruct H as (_ & H1 & H2). simpl.
  rewrite (read_cstring_stored mem p t Ht H1). cbn [obind]. by rewrite (IH _ _ _ H2 Hn).
Qed.

(** The tokens of a text have its characters. *)
Lemma next_token_no_nul sep s t rest :
  next_token sep s = Some (t, rest) -> no_nul s -> no_nul t /\ no_nul rest /\ no_nul (drop 1 rest).
Proof.
  intros E Hs. pose proof (next_token_spec sep s) as H. rewrite E in H.
  destruct H as (sp & -> & _). apply no_nul_app in Hs as [_ [Ht Hr]%no_nul_app].
  split; [done|]. split; [done|]. by apply Forall_drop.
Qed.

(** One more token of a text whose tokens so far are [ts]. *)
Lemma strtok_next sep mem lo ts ptrs q s :
  sep 0 = false -> no_nul s -> tokens_at mem lo ts ptrs q -> holds mem q (s ++ [0]) ->
  match next_token sep s with
  | None => exists q', strtok_r sep mem q = Ok (mem, None, q')
  | Some (t, rest) => exists mem' tp q',
      strtok_r sep mem q = Ok (mem', Some tp, q') /\ zeroed q (q + Z.of_nat (length s)) mem mem' /\
      tokens_at mem' lo (ts ++ [t]) (ptrs ++ [tp]) q' /\ holds mem' q' (drop 1 rest ++ [0]) /\
      no_nul t /\ no_nul (drop 1 rest) /\
      q <= q' /\ q' + Z.of_nat (length (drop 1 rest)) = q + Z.of_nat (length s)
  end.
Proof.
  intros Hsep Hs Ht Hh. pose proof (strtok_r_text sep mem q s Hsep Hs Hh) as Hst.
  destruct (next_token sep s) as [[t rest]|] eqn:En; [|by eexists].
  destruct Hst as (m1 & tp & q1 & -> & Hz & H1 & H2 & H3 & H4 & H5).
  destruct (next_token_no_nul _ _ _ _ En Hs) as (Hnt & _ & Hnr).
  exists m1, tp, q1. split; [done|]. split; [apply (zeroed_mono _ _ _ _ _ _ Hz); lia|].
  split; [|split; [exact H2|]; split; [exact Hnt|]; split; [exact Hnr|]; lia].
  apply (tokens_at_app _ _ _ _ _ _ q); [apply (tokens_at_zeroed _ _ _ _ _ _ _ _ Ht Hz); lia|].
  simpl. auto.
Qed.

Lemma first_tokens_spec sep k : forall s ts r,
  first_tokens sep k s = Some (ts, r) -> no_nul s -> length ts = k /\ Forall no_nul ts /\ no_nul r.
Proof.
  induction k as [|k IH]; intros s ts r E Hs; simpl in E; [by injection E as <- <-|].
  destruct (next_token sep s) as [[t rest]|] eqn:En; [|done].
  destruct (next_token_no_nul _ _ _ _ En Hs) as (Ht & _ & Hr).
  destruct (first_tokens sep k (drop 1 rest)) as [[ts' r']|] eqn:Ef; [|done]. injection E as <- <-.
  destruct (IH _ _ _ Ef Hr) as (Hl & Hf & Hr'). simpl. auto.
Qed.

Lemma tokenize_text_spec k s ts :
  tokenize_text k s = Some ts -> no_nul s -> length ts = S k /\ Forall no_nul ts.
Proof.
  unfold tokenize_text. destruct (first_tokens kWhitespace k s) as [[ts' r]|] eqn:Ef; [|done].
  destruct (next_token eol r) as [[t rest]|] eqn:En; [|done]. intros [= <-] Hs.
  destruct (first_tokens_spec _ _ _ _ _ Ef Hs) as (Hl & Hf & Hr).
  destruct (next_token_no_nul _ _ _ _ En Hr) as (Ht & _ & _).
  rewrite length_app, Hl. simpl. split; [lia|]. apply Forall_app. auto.
Qed.

(** The loop, started with the next token of [s]. *)
Lemma Tokenize_loop_text sep k : sep 0 = false -> forall fuel mem p s tokens,
  no_nul s -> holds mem p (s ++ [0]) -> (k < fuel)%nat -> (S (S k) <= fuel)%nat -> k <> O ->
  exists mem' q r ptrs,
    (let? (mem, token, save_ptr) := strtok_r sep mem p in
     Tokenize_loop fuel sep mem token save_ptr (Z.of_nat (S k)) tokens) =
      Ok (mem', q, r, tokens ++ ptrs) /\
    zeroed p (p + Z.of_nat (length s)) mem mem' /\
    match first_tokens sep k s with
    | Some (ts, rest) => r = 0 /\ tokens_at mem' p ts ptrs q /\ holds mem' q (rest ++ [0]) /\
        q + Z.of_nat (length rest) = p + Z.of_nat (length s)
    | None => r <> 0 /\ (length ptrs < k)%nat
    end.
Proof.
  intros Hsep. induction k as [|k IH]; intros fuel mem p s tokens Hs Hh Hf1 Hf2 Hk; [done|].
  pose proof (strtok_r_text sep mem p s Hsep Hs Hh) as Hst. cbn [first_tokens].
  destruct fuel as [|fuel]; [lia|].
  destruct (next_token sep s) as [[t rest]|] eqn:En.
  2: { rewrite Hst. cbn [obind Tokenize_loop]. exists mem, (p + Z.of_nat (length s)), (Z.of_nat (S (S k))), [].
       rewrite app_nil_r. split; [done|]. split; [apply zeroed_refl|]. simpl. lia. }
  destruct Hst as (m1 & tp & q1 & -> & Hz & Ht & Hr & H1 & H2 & H3). cbn [obind Tokenize_loop].
  destruct (next_token_no_nul _ _ _ _ En Hs) as (Hnt & _ & Hnr).
  replace (Z.of_nat (S (S k)) - 1) with (Z.of_nat (S k)) by lia.
  rewrite (proj2 (Z.ltb_lt 0 _)) by lia.
  destruct k as [|k].
  - change (1 <? Z.of_nat 1) with false. cbn [obind first_tokens].
    destruct fuel as [|fuel]; [lia|]. cbn [Tokenize_loop].
    change (0 <? Z.of_nat 1 - 1) with false.
    exists m1, q1, 0, [tp]. split; [done|]. split; [apply (zeroed_mono _ _ _ _ _ _ Hz); lia|].
    split; [done|]. split; [|done]. simpl. auto.
  - rewrite (proj2 (Z.ltb_lt 1 _)) by lia.
    destruct (IH fuel m1 q1 (drop 1 rest) (tokens ++ [tp]) Hnr Hr) as (m2 & q2 & r & ptrs & E & Hz2 & HR);
      [lia..|].
    rewrite H3 in Hz2. exists m2, q2, r, (tp :: ptrs). rewrite <- app_assoc in E.
    split; [exact E|]. split.
    { apply (zeroed_trans _ _ _ m1); [apply (zeroed_mono _ _ _ _ _ _ Hz); lia|].
      apply (zeroed_mono _ _ _ _ _ _ Hz2); lia. }
    destruct (first_tokens sep (S k) (drop 1 rest)) as [[ts r']|].
    + destruct HR as (-> & HT & HQ & HL). split; [done|]. split; [|split; [done|lia]].
      split; [done|]. split; [apply (holds_zeroed _ _ _ _ _ _ Ht Hz2); lia|].
      apply (tokens_at_mono _ _ q1 _ _ q2 _ HT); lia.
    + destruct HR as [HR HL]. split; [done|]. simpl. lia.
Qed.

Lemma kWhitespace_0 : kWhitespace 0 = false.
Proof. done. Qed.

(** What a call of a tokenizer leaves for the text [s] at [p]. *)
Definition tokenized (mem : chars) (p : Z) (s : chars) (text : option (list chars))
    (r : outcome (bool * list Z * chars)) : Prop :=
  exists ok ptrs mem', r = Ok (ok, ptrs, mem') /\
    zeroed p (p + Z.of_nat (length s)) mem mem' /\
    match text with
    | Some ts => ok = true /\ tokens_at mem' p ts ptrs (p + Z.of_nat (length s))
    | None => ok = false
    end.

Lemma Tokenize_text mem p s k :
  no_nul s -> holds mem p (s ++ [0]) -> k <> O ->
  tokenized mem p s (tokenize_text k s) (Tokenize mem p kWhitespace (Z.of_nat (S k))).
Proof.
  intros Hs Hh Hk. unfold Tokenize. cbv zeta. rewrite Nat2Z.id.
  destruct (Tokenize_loop_text kWhitespace k kWhitespace_0 (S (S k)) mem p s [] Hs Hh)
    as (m1 & q & r & ptrs & E & Hz & HR); [lia|lia|done|].
  destruct (strtok_r kWhitespace mem p) as [[[m0 token] save]|]; [|done]. cbn [obind] in E |- *.
  rewrite E. cbn [obind app]. unfold tokenize_text.
  destruct (first_tokens kWhitespace k s) as [[ts rest]|] eqn:Ef.
  - destruct HR as (-> & HT & HQ & HL). cbn [Z.eqb].
    destruct (first_tokens_spec _ _ _ _ _ Ef Hs) as (Hlt & _ & Hnr).
    pose proof (strtok_r_text eol m1 q rest eq_refl Hnr HQ) as Hst.
    pose proof (length_tokens_at _ _ _ _ _ HT) as Hlp.
    destruct (next_token eol rest) as [[t rest']|].
    + destruct Hst as (m2 & tp & q2 & -> & Hz2 & Ht & _ & H1 & H2 & H3). cbn [obind].
      exists true, (ptrs ++ [tp]), m2. split.
      { rewrite length_app, Hlp, Hlt. do 3 f_equal. apply Z.eqb_eq. simpl. lia. }
      split.
      { apply (zeroed_trans _ _ _ m1); [done|]. apply (zeroed_mono _ _ _ _ _ _ Hz2); [|lia].
        pose proof (tokens_at_le _ _ _ _ _ HT). lia. }
      split; [done|]. apply (tokens_at_app _ _ _ _ _ _ q).
      * apply (tokens_at_zeroed _ _ _ _ _ _ _ _ HT Hz2). lia.
      * simpl. split; [lia|]. split; [done|]. lia.
    + rewrite Hst. cbn [obind]. exists false, ptrs, m1. split; [|done].
      do 3 f_equal. apply Z.eqb_neq. lia.
  - destruct HR as [HR HL]. rewrite (proj2 (Z.eqb_neq r 0)) by done. cbn [obind].
    exists false, ptrs, m1. split; [|done]. do 3 f_equal. apply Z.eqb_neq. lia.
Qed.


(** ** TokenizeWithOptionalField *)

Definition optional_text (k : nat) (optional_field : chars) (s : chars) : option (list chars) :=
  match tokenize_text k s with
  | None => None
  | Some ts =>
      if bool_decide (head ts = Some optional_field) then
        match tokenize_text 1 (default [] (last ts)) with
        | Some back => Some (removelast ts ++ back)
        | None => None
        end
      else Some ts
  end.

Lemma optional_text_no_nul k optional_field s ts :
  optional_text k optional_field s = Some ts -> no_nul s -> Forall no_nul ts.
Proof.
  unfold optional_text. destruct (tokenize_text k s) as [ts0|] eqn:E; [|done]. intros H Hs.
  destruct (tokenize_text_spec _ _ _ E Hs) as [_ Hf].
  destruct (bool_decide _); [|by injection H as <-].
  destruct (tokenize_text 1 _) as [back|] eqn:Eb; [|done]. injection H as <-.
  assert (no_nul (default [] (last ts0))) as Hl.
  { destruct (last ts0) as [t|] eqn:El; [|by apply Forall_nil]. simpl.
    rewrite Forall_lookup in Hf. rewrite last_lookup in El. by apply (Hf _ _ El). }
  destruct (tokenize_text_spec _ _ _ Eb Hl) as [_ Hb]. apply Forall_app. split; [|done].
  destruct ts0 as [|x ts0] using rev_ind; [done|]. rewrite removelast_last. by apply Forall_app in Hf as [? _].
Qed.

Lemma TokenizeWithOptionalField_text mem p s optional_field k :
  no_nul s -> holds mem p (s ++ [0]) -> k <> O ->
  tokenized mem p s (optional_text k optional_field s)
    (TokenizeWithOptionalField mem p optional_field kWhitespace (Z.of_nat (S (S k)))).
Proof.
  intros Hs Hh Hk. unfold TokenizeWithOptionalField, optional_text.
  replace (Z.of_nat (S (S k)) - 1) with (Z.of_nat (S k)) by lia.
  destruct (Tokenize_text mem p s k Hs Hh Hk) as (ok & ptrs & m1 & -> & Hz & Ht). cbn [obind].
  destruct (tokenize_text k s) as [ts|] eqn:E; [|subst ok; by exists false, ptrs, m1].
  destruct Ht as [-> Ht]. cbn [negb]. destruct (tokenize_text_spec _ _ _ E Hs) as [Hl Hf].
  destruct ts as [|t0 ts0]; [done|]. destruct ptrs as [|p0 ptrs0]; [done|].
  cbn [head of_option obind]. unfold string_is. pose proof Ht as (_ & Ht0 & _).
  apply Forall_cons in Hf as Hf'. rewrite (read_cstring_stored m1 p0 t0) by (done || apply Hf').
  cbn [obind]. rewrite (bool_decide_ext (Some t0 = Some optional_field) (t0 = optional_field)) by naive_solver.
  destruct (bool_decide (t0 = optional_field)).
  2: { exists true, (p0 :: ptrs0), m1. auto. }
  set (ts := t0 :: ts0) in *. set (ptrs := p0 :: ptrs0) in *. clearbody ts ptrs.
  clear Ht0 Hf' t0 ts0 p0 ptrs0.
  destruct ts as [|t ts _] using rev_ind; [done|].
  destruct (tokens_at_snoc _ _ _ _ _ _ Ht) as (ptrs' & pl & -> & Hts & Htl & Hle).
  rewrite !last_snoc. cbn [of_option obind from_option]. apply Forall_app in Hf as [_ [Hft _]%Forall_cons].
  destruct (Tokenize_text m1 pl t 1 Hft Htl) as (ok & back & m2 & E2 & Hz2 & Ht2); [done|].
  change (Z.of_nat 2) with 2 in E2. rewrite E2. cbn [obind].
  assert (zeroed p (p + Z.of_nat (length s)) mem m2) as Hz'.
  { apply (zeroed_trans _ _ _ m1); [done|]. pose proof (tokens_at_le _ _ _ _ _ Hts).
    apply (zeroed_mono _ _ _ _ _ _ Hz2); lia. }
  change (id t) with t.
  destruct (tokenize_text 1 t) as [bs|] eqn:Eb.
  - destruct Ht2 as [-> Ht2]. cbn [negb]. destruct (tokenize_text_spec _ _ _ Eb Hft) as [Hb _].
    pose proof (length_tokens_at _ _ _ _ _ Ht2) as Hlb. rewrite Hb in Hlb.
    destruct back as [|b0 [|b1 [|? ?]]]; try discriminate Hlb.
    cbn [lookup list_lookup of_option obind]. rewrite !removelast_last.
    exists true, (ptrs' ++ [b0; b1]), m2. split; [done|]. split; [done|]. split; [done|].
    apply (tokens_at_app _ _ _ _ _ _ pl).
    + apply (tokens_at_zeroed _ _ _ _ _ _ _ _ Hts Hz2). lia.
    + apply (tokens_at_mono _ _ _ _ _ _ _ Ht2); lia.
  - subst ok. exists false, (ptrs' ++ [pl]), m2. done.
Qed.

(** ** The records of a line

    A record parser finds [r] in the text [s] at [p]; it zeroes bytes of the
    text at most. *)
Definition parses {A} (mem : chars) (p : Z) (s : chars) (r : A) (o : outcome (A * chars)) : Prop :=
  exists mem', o = Ok (r, mem') /\ zeroed p (p + Z.of_nat (length s)) mem mem'.

Definition fields_of {A} (fields : list chars -> option A) (text : option (list chars)) : option A :=
  match text with Some ts => fields ts | None => None end.

Lemma with_fields_text {A} (fields : list chars -> option A) mem p s text r :
  tokenized mem p s text r -> (forall ts, text = Some ts -> Forall no_nul ts) ->
  parses mem p s (fields_of fields text) (let? r := r in with_fields fields r).
Proof.
  intros (ok & ptrs & mem' & -> & Hz & Ht) Hn. cbn [obind]. unfold with_fields. exists mem'.
  split; [|done]. destruct text as [ts|]; [|by subst ok]. destruct Ht as [-> Ht]. cbn [negb].
  by rewrite (token_texts_at _ _ _ _ _ Ht (Hn ts eq_refl)).
Qed.

Section text.
Context (lw : Z).

(** What the text after the keyword of a record says. *)
Definition file_text (s : chars) : option (Z * chars) :=
  fields_of (file_fields lw) (tokenize_text 1 s).

Definition function_text (s : chars) : option (bool * Z * Z * Z * chars) :=
  fields_of (function_fields lw) (optional_text 3 (str "m") s).

Definition line_text (s : chars) : option (Z * Z * Z * Z) :=
  fields_of (line_fields lw) (tokenize_text 3 s).

Definition public_text (s : chars) : option (bool * Z * Z * chars) :=
  fields_of (public_fields lw) (optional_text 2 (str "m") s).

Definition frame_info_text (s : chars) : option (WindowsFrameInfo * Z * Z * Z) :=
  fields_of (frame_info_fields lw) (tokenize_text 10 s).

(** A CFI record: the words before its rules, and the rules to the end of the
    line. *)
Definition cfi_text (s : chars) : option CFIRecord :=
  match next_token kWhitespace s with
  | None => None
  | Some (word, rest) =>
      if bool_decide (word = str "INIT") then
        match first_tokens kWhitespace 2 (drop 1 rest) with
        | Some ([address; size], rest) =>
            match next_token eol rest with
            | Some (rules, _) => Some (CFIInit address size rules)
            | None => None
            end
        | _ => None
        end
      else
        match next_token eol (drop 1 rest) with
        | Some (rules, _) => Some (CFIDelta word rules)
        | None => None
        end
  end.

Lemma Helper_ParseFile_text mem p s :
  no_nul s -> holds mem (p + 5) (s ++ [0]) ->
  parses mem (p + 5) s (file_text s) (Helper_ParseFile lw mem p).
Proof.
  intros Hs Hh. apply with_fields_text; [by apply (Tokenize_text _ _ _ 1)|].
  intros ts E. by apply (tokenize_text_spec _ _ _ E).
Qed.

Lemma Helper_ParseFunction_text mem p s :
  no_nul s -> holds mem (p + 5) (s ++ [0]) ->
  parses mem (p + 5) s (function_text s) (Helper_ParseFunction lw mem p).
Proof.
  intros Hs Hh. apply with_fields_text; [by apply (TokenizeWithOptionalField_text _ _ _ _ 3)|].
  intros ts E. by apply (optional_text_no_nul _ _ _ _ E).
Qed.

Lemma Helper_ParseLine_text mem p s :
  no_nul s -> holds mem p (s ++ [0]) ->
  parses mem p s (line_text s) (Helper_ParseLine lw mem p).
Proof.
  intros Hs Hh. apply with_fields_text; [by apply (Tokenize_text _ _ _ 3)|].
  intros ts E. by apply (tokenize_text_spec _ _ _ E).
Qed.

Lemma Helper_ParsePublicSymbol_text mem p s :
  no_nul s -> holds mem (p + 7) (s ++ [0]) ->
  parses mem (p + 7) s (public_text s) (Helper_ParsePublicSymbol lw mem p).
Proof.
  intros Hs Hh. apply with_fields_text; [by apply (TokenizeWithOptionalField_text _ _ _ _ 2)|].
  intros ts E. by apply (optional_text_no_nul _ _ _ _ E).
Qed.

Lemma ParseFromString_text s : no_nul s -> ParseFromString lw s = Ok (frame_info_text s).
Proof.
  intros Hs. unfold ParseFromString. cbv zeta.
  assert (holds (s ++ [0]) 0 (s ++ [0])) as Hh by done.
  destruct (with_fields_text (frame_info_fields lw) (s ++ [0]) 0 s (tokenize_text 10 s)
              (Tokenize (s ++ [0]) 0 kWhitespace 11)) as (mem' & E & _).
  - by apply (Tokenize_text _ _ _ 10).
  - intros ts E. by apply (tokenize_text_spec _ _ _ E).
  - destruct (Tokenize (s ++ [0]) 0 kWhitespace 11) as [r|]; [|done]. cbn [obind] in E |- *. by rewrite E.
Qed.

Lemma parses_refl {A} mem p s (r : A) : parses mem p s r (Ok (r, mem)).
Proof. exists mem. split; [done|apply zeroed_refl]. Qed.

Lemma cfi_fields_text mem p s :
  no_nul s -> holds mem p (s ++ [0]) -> parses mem p s (cfi_text s) (cfi_fields mem p).
Proof.
  intros Hs Hh. unfold cfi_fields, cfi_text.
  pose proof (strtok_next kWhitespace mem p [] [] p s eq_refl Hs (Z.le_refl p) Hh) as Hst.
  destruct (next_token kWhitespace s) as [[w r1]|]; [|destruct Hst as [q ->]; apply parses_refl].
  destruct Hst as (m1 & p1 & q1 & -> & Hz1 & Ht1 & Hh1 & Hw & Hn1 & Hq1 & Hl1). cbn [obind].
  pose proof Ht1 as (_ & Hhw & _). unfold string_is. rewrite (read_cstring_stored m1 p1 w) by done.
  cbn [obind]. set (s1 := drop 1 r1) in *. destruct (bool_decide (w = str "INIT")).
  - clear Hhw. cbn [first_tokens].
    pose proof (strtok_next kWhitespace m1 p _ _ q1 s1 eq_refl Hn1 Ht1 Hh1) as Hst.
    destruct (next_token kWhitespace s1) as [[a r2]|].
    2: { destruct Hst as [q ->]. exists m1. done. }
    destruct Hst as (m2 & p2 & q2 & -> & Hz2 & Ht2 & Hh2 & Ha & Hn2 & Hq2 & Hl2). cbn [obind].
    set (s2 := drop 1 r2) in *.
    pose proof (strtok_next kWhitespace m2 p _ _ q2 s2 eq_refl Hn2 Ht2 Hh2) as Hst.
    destruct (next_token kWhitespace s2) as [[z r3]|].
    2: { destruct Hst as [q ->]. exists m2. split; [done|].
         apply (zeroed_trans _ _ _ m1); [done|]. apply (zeroed_mono _ _ _ _ _ _ Hz2); lia. }
    destruct Hst as (m3 & p3 & q3 & -> & Hz3 & Ht3 & Hh3 & Hz & Hn3 & Hq3 & Hl3). cbn [obind].
    set (s3 := drop 1 r3) in *.
    pose proof (strtok_next eol m3 p _ _ q3 s3 eq_refl Hn3 Ht3 Hh3) as Hst.
    assert (zeroed p (p + Z.of_nat (length s)) mem m3) as Hz03.
    { apply (zeroed_trans _ _ _ m1); [done|]. apply (zeroed_trans _ _ _ m2).
      - apply (zeroed_mono _ _ _ _ _ _ Hz2); lia.
      - apply (zeroed_mono _ _ _ _ _ _ Hz3); lia. }
    destruct (next_token eol s3) as [[rules r4]|].
    2: { destruct Hst as [q ->]. by exists m3. }
    destruct Hst as (m4 & p4 & q4 & -> & Hz4 & Ht4 & Hh4 & Hr & _ & Hq4 & Hl4). cbn [obind].
    destruct Ht4 as (_ & _ & _ & Ha4 & _ & Hz4' & _ & Hr4 & _).
    rewrite (read_cstring_stored m4 p2 a), (read_cstring_stored m4 p3 z),
      (read_cstring_stored m4 p4 rules) by done. cbn [obind].
    exists m4. split; [done|]. apply (zeroed_trans _ _ _ m3); [done|].
    apply (zeroed_mono _ _ _ _ _ _ Hz4); lia.
  - pose proof (strtok_next eol m1 p _ _ q1 s1 eq_refl Hn1 Ht1 Hh1) as Hst.
    destruct (next_token eol s1) as [[rules r2]|].
    2: { destruct Hst as [q ->]. by exists m1. }
    destruct Hst as (m2 & p2 & q2 & -> & Hz2 & Ht2 & Hh2 & Hr & _ & Hq2 & Hl2). cbn [obind].
    destruct Ht2 as (_ & Hw2 & _ & Hr2 & _).
    rewrite (read_cstring_stored m2 p1 w), (read_cstring_stored m2 p2 rules) by done. cbn [obind].
    exists m2. split; [done|]. apply (zeroed_trans _ _ _ m1); [done|].
    apply (zeroed_mono _ _ _ _ _ _ Hz2); lia.
Qed.
(** ** A line

    The platform of a STACK line and what follows the character after it;
    [None] when the line ends with the platform. *)
Definition stack_parts (s : chars) : option (chars * chars) :=
  let s := skip_separators is_space s in
  let n := prefix_len (fun c => negb (in_kWhitespace c)) s in
  match drop n s with
  | _ :: rest => Some (take n s, rest)
  | [] => None
  end.

Definition text_stack (s : chars) (l : Loader) : outcome (bool * Loader) :=
  match stack_parts s with
  | None => Undef
  | Some (platform, rest) =>
      if bool_decide (platform = str "WIN") then apply_frame_info (frame_info_text rest) l
      else if bool_decide (platform = str "CFI") then apply_cfi lw (cfi_text rest) l
      else Ok (false, l)
  end.

(** [LogParseError] unless the record was accepted. *)
Definition checked (r : bool * Loader) : Loader := if r.1 then r.2 else LogParseError r.2.

(** What the line [s] does to the module. *)
Definition text_line (s : chars) (l : Loader) : outcome Loader :=
  if starts_with (str "FILE ") s then Ok (checked (apply_file (file_text (drop 5 s)) l))
  else if starts_with (str "STACK ") s then
    let? r := text_stack (drop 6 s) l in Ok (checked r)
  else if starts_with (str "FUNC ") s then
    let (func, l) := apply_function (function_text (drop 5 s)) l in
    let l := set_cur_func l func in
    match func with
    | None => Ok (LogParseError l)
    | Some func => store_function l func
    end
  else if starts_with (str "PUBLIC ") s then
    Ok (checked (apply_public (public_text (drop 7 s)) (set_cur_func l None)))
  else if starts_with (str "MODULE ") s then Ok l
  else if starts_with (str "INFO ") s then Ok l
  else
    match cur_func l with
    | None => Ok (LogParseError l)
    | Some func =>
        match apply_line (line_text s) with
        | None => Ok (LogParseError l)
        | Some line => store_line l func line
        end
    end.

(** The lines, until more than [kMaxErrorsBeforeBailing] of them are bad. *)
Fixpoint text_lines (ls : list chars) (l : Loader) : outcome Loader :=
  match ls with
  | [] => Ok l
  | s :: ls =>
      let? l := text_line s l in
      if kMaxErrorsBeforeBailing <? num_errors l then Ok l else text_lines ls l
  end.

(** Every STACK line goes on after its platform. *)
Definition stack_goes_on (s : chars) : Prop :=
  starts_with (str "STACK ") s = true -> is_Some (stack_parts (drop 6 s)).

(** The records do not look at the buffer. *)
Definition keeps_buffer {A} (f : Loader -> outcome (A * Loader)) : Prop :=
  forall l mem, f (set_buffer l mem) = (let? (a, l') := f l in Ok (a, set_buffer l' mem)).

Lemma apply_file_buffer r l mem :
  apply_file r (set_buffer l mem) = ((apply_file r l).1, set_buffer (apply_file r l).2 mem).
Proof. by destruct r as [[i f]|]. Qed.

Lemma apply_function_buffer r l mem :
  apply_function r (set_buffer l mem) = ((apply_function r l).1, set_buffer (apply_function r l).2 mem).
Proof. by destruct r as [[[[[im a] sz] par] name]|]. Qed.

Lemma apply_public_buffer r l mem :
  apply_public r (set_buffer l mem) = ((apply_public r l).1, set_buffer (apply_public r l).2 mem).
Proof.
  destruct r as [[[[m a] sz] name]|]; [|done]. cbn - [add_public_symbol]. by destruct (add_public_symbol _ _ _ _ _).
Qed.

Lemma apply_frame_info_buffer r : keeps_buffer (apply_frame_info r).
Proof.
  intros l mem. destruct r as [[[[w t] rva] sz]|]; [|done]. cbn - [add_frame_info].
  by destruct (add_frame_info _ _ _ _ _).
Qed.

Lemma apply_cfi_buffer r : keeps_buffer (apply_cfi lw r).
Proof.
  intros l mem. destruct r as [[a sz rules|a rules]|]; [|done|done]. cbn - [add_cfi_initial].
  by destruct (add_cfi_initial _ _ _ _).
Qed.

Lemma store_function_buffer l func mem :
  store_function (set_buffer l mem) func = (let? l' := store_function l func in Ok (set_buffer l' mem)).
Proof.
  unfold store_function. cbn. destruct (heap_ l !! func) as [f|]; [|done]. cbn [of_option obind].
  by destruct (RangeMap.StoreRange _ _ _ _ _ _) as [[ok m]|].
Qed.

Lemma store_line_buffer l func line mem :
  store_line (set_buffer l mem) func line = (let? l' := store_line l func line in Ok (set_buffer l' mem)).
Proof.
  unfold store_line. cbn. destruct (heap_ l !! func) as [f|]; [|done]. cbn [of_option obind].
  by destruct (RangeMap.StoreRange _ _ _ _ _ _) as [[ok m]|].
Qed.

Lemma text_stack_buffer s : keeps_buffer (text_stack s).
Proof.
  intros l mem. unfold text_stack. destruct (stack_parts s) as [[platform rest]|]; [|done].
  repeat case_bool_decide; [apply apply_frame_info_buffer|apply apply_cfi_buffer|done].
Qed.

Lemma checked_buffer b l mem : checked (b, set_buffer l mem) = set_buffer (checked (b, l)) mem.
Proof. by destruct b. Qed.

Lemma text_line_buffer s l mem :
  text_line s (set_buffer l mem) = (let? l' := text_line s l in Ok (set_buffer l' mem)).
Proof.
  unfold text_line. destruct (starts_with (str "FILE ") s).
  { rewrite apply_file_buffer, checked_buffer. by destruct (apply_file _ _). }
  destruct (starts_with (str "STACK ") s).
  { rewrite text_stack_buffer. destruct (text_stack _ l) as [[b l']|]; [|done]. cbn [obind].
    by rewrite checked_buffer. }
  destruct (starts_with (str "FUNC ") s).
  { rewrite apply_function_buffer. destruct (apply_function _ l) as [[func|] l']; [|done]. cbv zeta.
    apply (store_function_buffer (set_cur_func l' (Some func))). }
  destruct (starts_with (str "PUBLIC ") s).
  { change (set_cur_func (set_buffer l mem) None) with (set_buffer (set_cur_func l None) mem).
    rewrite apply_public_buffer, checked_buffer. by destruct (apply_public _ _). }
  destruct (starts_with (str "MODULE ") s); [done|]. destruct (starts_with (str "INFO ") s); [done|].
  cbn [cur_func set_buffer]. destruct (cur_func l) as [func|]; [|done].
  destruct (apply_line _); [|done]. apply store_line_buffer.
Qed.

(** [load_line] does to the loader what [text_line] does, and zeroes bytes of
    the line. *)
Definition loads (l : Loader) (p : Z) (s : chars) (r : outcome Loader) (o : outcome Loader) : Prop :=
  exists mem', zeroed p (p + Z.of_nat (length s)) (buffer_ l) mem' /\
    o = (let? l' := r in Ok (set_buffer l' mem')).

Lemma starts_with_app prefix s : starts_with prefix s = true -> s = prefix ++ drop (length prefix) s.
Proof. unfold starts_with. intros H%bool_decide_eq_true. rewrite <- H at 1. by rewrite take_drop. Qed.

(** The text after a keyword. *)
Lemma keyword mem p prefix s :
  starts_with prefix s = true -> no_nul s -> holds mem p (s ++ [0]) ->
  let n := Z.of_nat (length prefix) in
  no_nul (drop (length prefix) s) /\ holds mem (p + n) (drop (length prefix) s ++ [0]) /\
  p + n + Z.of_nat (length (drop (length prefix) s)) = p + Z.of_nat (length s) /\ p <= p + n.
Proof.
  intros E%starts_with_app Hs Hh. cbv zeta. split; [by apply Forall_drop|].
  rewrite E, <- app_assoc in Hh. apply holds_app in Hh as [_ Hh]. split; [done|].
  split; [|lia]. rewrite E at 2. rewrite length_app. lia.
Qed.

Lemma advance_text f mem p s :
  f 0 = false -> holds mem p (s ++ [0]) ->
  let n := prefix_len f s in
  advance f mem p = Ok (p + Z.of_nat n) /\ holds mem (p + Z.of_nat n) (drop n s ++ [0]).
Proof.
  intros Hf Hh n. pose proof Hh as (Hp & _). unfold advance. rewrite (proj2 (Z.ltb_ge _ _)) by done.
  rewrite (prefix_len_holds f mem p s Hf Hh). fold n. cbv zeta.
  assert (n <= length s)%nat as Hn by apply prefix_len_le.
  pose proof (holds_drop mem p (s ++ [0]) n ltac:(rewrite length_app; lia) Hh) as Hd.
  rewrite drop_app_le in Hd by done. split; [|done].
  destruct (drop n s) as [|c r]; by erewrite char_at_head by exact Hd.
Qed.

Lemma ParseStackInfo_text l p s :
  no_nul s -> holds (buffer_ l) (p + 6) (s ++ [0]) -> is_Some (stack_parts s) ->
  exists mem', zeroed (p + 6) (p + 6 + Z.of_nat (length s)) (buffer_ l) mem' /\
    ParseStackInfo lw l p = (let? (b, l') := text_stack s l in Ok (b, set_buffer l' mem')).
Proof.
  intros Hs Hh Hparts. unfold ParseStackInfo, text_stack, stack_parts, skip_separators in *. cbv zeta in *.
  destruct (advance_text is_space _ _ _ eq_refl Hh) as [-> H1]. cbn [obind].
  set (n1 := prefix_len is_space s) in *. set (s1 := drop n1 s) in *.
  set (f := fun c => negb (in_kWhitespace c)) in *.
  destruct (advance_text f _ _ _ eq_refl H1) as [-> H2]. cbn [obind].
  set (n2 := prefix_len f s1) in *. pose proof (prefix_len_le f s1) as Hn2. fold n2 in Hn2.
  set (p1 := p + 6 + Z.of_nat n1) in *.
  assert (no_nul s1) as Hs1 by by apply Forall_drop.
  destruct (drop n2 s1) as [|c rest] eqn:Er; [by destruct Hparts|].
  set (platform := take n2 s1) in *.
  assert (s1 = platform ++ c :: rest) as E1 by (unfold platform; by rewrite <- Er, take_drop).
  assert (length platform = n2) as Lp by (unfold platform; rewrite length_take; lia).
  assert (Z.of_nat (length s) = Z.of_nat n1 + Z.of_nat n2 + 1 + Z.of_nat (length rest)) as Ls.
  { pose proof (prefix_len_le is_space s) as Hn1. fold n1 in Hn1.
    assert (length s1 = (length s - n1)%nat) as L1 by apply length_drop.
    rewrite E1, length_app, Lp in L1. simpl length in L1. lia. }
  set (p2 := p1 + Z.of_nat n2) in *. pose proof H2 as (Hp2 & Hl2 & _). simpl length in Hl2.
  destruct (write_nul (buffer_ l) p2) as (m1 & -> & Hz & Hn); [lia|]. cbn [obind].
  rewrite E1 in Hs1, H1. apply no_nul_app in Hs1 as [Hnp [_ Hnr]%Forall_cons].
  assert (holds m1 p1 (platform ++ [0])) as Hpl.
  { apply holds_app. rewrite Lp. fold p2. split; [|done].
    rewrite <- app_assoc in H1. apply holds_app in H1 as [(Ha & Hb & Hc) _].
    destruct Hz as [HL HZ]. split; [done|]. rewrite HL. split; [done|]. intros i b Hi.
    destruct (HZ (Z.to_nat p1 + i)%nat) as [->|[Hr _]]; [by apply Hc|].
    apply lookup_lt_Some in Hi. unfold p2 in Hr. lia. }
  assert (holds m1 (p2 + 1) (rest ++ [0])) as Hrest.
  { apply (holds_zeroed p2 (p2 + 1) (buffer_ l)); [|done|lia].
    apply (holds_drop _ _ _ 1) in H2; [|simpl; lia]. done. }
  assert (zeroed (p + 6) (p + 6 + Z.of_nat (length s)) (buffer_ l) m1) as Hz1.
  { apply (zeroed_mono _ _ _ _ _ _ Hz); unfold p2, p1; lia. }
  unfold string_is. cbn [buffer_ set_buffer].
  rewrite (read_cstring_stored m1 p1 platform) by done. cbn [obind].
  destruct (bool_decide (platform = str "WIN")).
  { rewrite (read_cstring_stored m1 (p2 + 1) rest) by done. cbn [obind].
    rewrite ParseFromString_text by done. cbn [obind]. exists m1. split; [done|].
    apply apply_frame_info_buffer. }
  destruct (bool_decide (platform = str "CFI")).
  - unfold ParseCFIFrameInfo. cbn [buffer_ set_buffer].
    destruct (cfi_fields_text m1 (p2 + 1) rest Hnr Hrest) as (m2 & -> & Hz2). cbn [obind].
    exists m2. split; [|exact (apply_cfi_buffer _ l m2)]. apply (zeroed_trans _ _ _ m1); [done|].
    apply (zeroed_mono _ _ _ _ _ _ Hz2); unfold p2, p1; lia.
  - exists m1. done.
Qed.

Lemma load_line_text l p s :
  no_nul s -> holds (buffer_ l) p (s ++ [0]) -> stack_goes_on s ->
  loads l p s (text_line s l) (load_line lw l p).
Proof.
  intros Hs Hh Hst. unfold load_line, text_line. rewrite (read_cstring_stored _ p s) by done. cbn [obind].
  destruct (starts_with (str "FILE ") s) eqn:E1.
  { destruct (keyword _ _ _ _ E1 Hs Hh) as (Hn & Hk & Hl & Hlo). unfold Module_ParseFile.
    destruct (Helper_ParseFile_text (buffer_ l) p (drop 5 s) Hn Hk) as (mem' & -> & Hz). cbn [obind].
    exists mem'. split; [apply (zeroed_mono _ _ _ _ _ _ Hz); simpl in *; lia|].
    rewrite apply_file_buffer. by destruct (apply_file _ l) as [[|] l']. }
  destruct (starts_with (str "STACK ") s) eqn:E2.
  { destruct (keyword _ _ _ _ E2 Hs Hh) as (Hn & Hk & Hl & Hlo).
    destruct (ParseStackInfo_text l p (drop 6 s) Hn Hk (Hst E2)) as (mem' & Hz & ->).
    exists mem'. split; [apply (zeroed_mono _ _ _ _ _ _ Hz); simpl in *; lia|].
    destruct (text_stack _ l) as [[[|] l']|]; done. }
  destruct (starts_with (str "FUNC ") s) eqn:E3.
  { destruct (keyword _ _ _ _ E3 Hs Hh) as (Hn & Hk & Hl & Hlo). unfold Module_ParseFunction.
    destruct (Helper_ParseFunction_text (buffer_ l) p (drop 5 s) Hn Hk) as (mem' & -> & Hz). cbn [obind].
    exists mem'. split; [apply (zeroed_mono _ _ _ _ _ _ Hz); simpl in *; lia|].
    rewrite apply_function_buffer. destruct (apply_function _ l) as [[func|] l']; [|done].
    apply (store_function_buffer (set_cur_func l' (Some func))). }
  destruct (starts_with (str "PUBLIC ") s) eqn:E4.
  { destruct (keyword _ _ _ _ E4 Hs Hh) as (Hn & Hk & Hl & Hlo). unfold Module_ParsePublicSymbol.
    cbn [buffer_ set_cur_func].
    destruct (Helper_ParsePublicSymbol_text (buffer_ l) p (drop 7 s) Hn Hk) as (mem' & -> & Hz). cbn [obind].
    exists mem'. split; [apply (zeroed_mono _ _ _ _ _ _ Hz); simpl in *; lia|].
    rewrite apply_public_buffer. by destruct (apply_public _ _) as [[|] l']. }
  destruct (starts_with (str "MODULE ") s).
  { exists (buffer_ l). split; [apply zeroed_refl|by destruct l]. }
  destruct (starts_with (str "INFO ") s).
  { exists (buffer_ l). split; [apply zeroed_refl|by destruct l]. }
  destruct (cur_func l) as [func|].
  2: { exists (buffer_ l). split; [apply zeroed_refl|by destruct l]. }
  unfold Module_ParseLine.
  destruct (Helper_ParseLine_text (buffer_ l) p s Hs Hh) as (mem' & -> & Hz). cbn [obind].
  exists mem'. split; [done|]. destruct (apply_line _); [|done]. apply store_line_buffer.
Qed.

(** ** The file *)

Lemma load_loop_S fuel l buffer save_ptr :
  load_loop lw (S fuel) l (Some buffer) save_ptr =
  (let? l := load_line lw l buffer in
   if kMaxErrorsBeforeBailing <? num_errors l then Ok l
   else
     let? (mem, buffer, save_ptr) := strtok_r eol (buffer_ l) save_ptr in
     load_loop lw fuel (set_buffer l mem) buffer save_ptr).
Proof. done. Qed.

Lemma text_lines_buffer ls : forall l mem,
  text_lines ls (set_buffer l mem) = (let? l' := text_lines ls l in Ok (set_buffer l' mem)).
Proof.
  induction ls as [|s ls IH]; intros l mem; [done|]. cbn [text_lines]. rewrite text_line_buffer.
  destruct (text_line s l) as [l'|]; [|done]. cbn [obind num_errors set_buffer].
  by destruct (kMaxErrorsBeforeBailing <? num_errors l').
Qed.

(** The rounds of the loop from the text [s] at [p]. *)
Lemma load_loop_text n : forall l p s,
  (length s <= n)%nat -> no_nul s -> holds (buffer_ l) p (s ++ [0]) ->
  Forall stack_goes_on (all_tokens eol n s) ->
  exists mem',
    (let? (mem, buffer, save_ptr) := strtok_r eol (buffer_ l) p in
     load_loop lw (S n) (set_buffer l mem) buffer save_ptr) =
    (let? l' := text_lines (all_tokens eol n s) l in Ok (set_buffer l' mem')).
Proof.
  induction n as [|n IH]; intros l p s Hn Hs Hh Hgo;
    pose proof (strtok_r_text eol (buffer_ l) p s eq_refl Hs Hh) as Hst.
  { destruct s as [|c s]; [|simpl in Hn; lia]. cbn [next_token] in Hst. rewrite Hst.
    by exists (buffer_ l). }
  pose proof (next_token_spec eol s) as Hspec. cbn [all_tokens] in *.
  destruct (next_token eol s) as [[t rest]|] eqn:En; [|rewrite Hst; by exists (buffer_ l)].
  destruct Hst as (m1 & tp & q & -> & Hz & Ht & Hq & H1 & H2 & H3). cbn [obind].
  destruct (next_token_no_nul _ _ _ _ En Hs) as (Hnt & _ & Hnr).
  destruct Hspec as (sp & Es & _ & Hne & _ & Hrest).
  rewrite <- (all_tokens_drop eol n rest) in * by done. apply Forall_cons in Hgo as [Hgo1 Hgo].
  rewrite load_loop_S. cbn [text_lines].
  destruct (load_line_text (set_buffer l m1) tp t Hnt Ht Hgo1) as (m2 & Hz2 & ->).
  rewrite text_line_buffer. destruct (text_line t l) as [l1|]; [|by exists []]. cbn [obind].
  change (num_errors (set_buffer (set_buffer l1 m1) m2)) with (num_errors l1).
  change (set_buffer (set_buffer l1 m1) m2) with (set_buffer l1 m2).
  destruct (kMaxErrorsBeforeBailing <? num_errors l1); [by exists m2|].
  assert (length (drop 1 rest) <= n)%nat as Hlen.
  { subst s. rewrite !length_app in Hn. rewrite length_drop. destruct t; [done|]. simpl in Hn. lia. }
  assert (holds m2 q (drop 1 rest ++ [0])) as Hq2.
  { apply (holds_zeroed _ _ _ _ _ _ Hq Hz2). lia. }
  destruct (IH (set_buffer l1 m2) q (drop 1 rest) Hlen Hnr Hq2 Hgo) as (m3 & ->).
  exists m3. rewrite text_lines_buffer. by destruct (text_lines _ l1).
Qed.

(** The module [LoadMapFromMemory] leaves for the text [s]: the records of its
    lines, one error for a NUL inside it, which is read as ['_']. *)
Definition load_text (m : Module (option nat)) (s : chars) :
    outcome (Module (option nat) * list Function_) :=
  let text := map (fun c => if c =? 0 then 95 else c) s in
  let l := mkLoader [] m [] None (if bool_decide (0 ∈ s) then 1 else 0) in
  let? l := text_lines (tokens eol text) l in
  Ok (set_corrupt (module_ l) (0 <? num_errors l), heap_ l).

(** The lines of the text. *)
Definition symbol_lines (s : chars) : list chars :=
  tokens eol (map (fun c => if c =? 0 then 95 else c) s).

Lemma existsb_nul s : existsb (fun c => c =? 0) s = bool_decide (0 ∈ s).
Proof.
  apply eq_true_iff_eq. rewrite existsb_exists, bool_decide_eq_true. split.
  - intros (x & Hx & ->%Z.eqb_eq). by apply list_elem_of_In.
  - intros H%list_elem_of_In. by exists 0.
Qed.

Lemma last_terminator_text s n c :
  last s <> Some 0 -> last_terminator (s ++ replicate n 0 ++ [c]) = length s.
Proof.
  intros Hs. unfold last_terminator. rewrite !length_app, length_replicate. simpl length.
  replace (length s + (n + 1) - 1)%nat with (length (s ++ replicate n 0)) by (rewrite length_app, length_replicate; lia).
  rewrite app_assoc, take_app_length, rev_app_distr.
  rewrite prefix_len_app.
  2: { apply Forall_rev, Forall_replicate. done. }
  rewrite length_app, length_rev, length_replicate.
  assert (prefix_len (fun c => c =? 0) (rev s) = 0%nat) as ->; [|lia].
  apply prefix_len_head. intros x Hx. apply Z.eqb_neq. intros ->. apply Hs.
  rewrite <- (rev_involutive s). destruct (rev s) as [|y r]; [done|]. injection Hx as ->. simpl. by rewrite last_snoc.
Qed.

Lemma no_nul_replaced s : no_nul (map (fun c => if c =? 0 then 95 else c) s).
Proof.
  apply Forall_forall. intros x (c & Hx & _)%list_elem_of_In%in_map_iff.
  destruct (Z.eqb_spec c 0); lia.
Qed.

(** Every buffer is a text, some NULs after it and a last byte, which is
    overwritten. *)
Lemma buffer_shape (buffer : chars) :
  buffer <> [] -> exists s n c, buffer = s ++ replicate n 0 ++ [c] /\ last s <> Some 0.
Proof.
  intros Hne. destruct buffer as [|c b _] using rev_ind; [done|]. clear Hne.
  assert (exists s n, b = s ++ replicate n 0 /\ last s <> Some 0) as (s & n & -> & Hl).
  { induction b as [|x b (s & n & -> & Hl)] using rev_ind; [by exists [], 0%nat|].
    destruct (decide (x = 0)) as [->|Hx].
    - exists s, (S n). split; [|done]. by rewrite replicate_S_end, app_assoc.
    - exists ((s ++ replicate n 0) ++ [x]), 0%nat. rewrite app_nil_r, last_snoc. split; [done|congruence]. }
  exists s, n, c. by rewrite app_assoc.
Qed.

Lemma load_buffer m s n c :
  last s <> Some 0 -> Forall stack_goes_on (symbol_lines s) ->
  Basic_LoadMapFromMemory lw m (s ++ replicate n 0 ++ [c]) = load_text m s.
Proof.
  intros Hl Hgo. unfold Basic_LoadMapFromMemory, LoadMapFromMemory_in_place, load_text. set (buffer := s ++ replicate n 0 ++ [c]).
  assert (length buffer = length s + n + 1)%nat as Hlen.
  { unfold buffer. rewrite !length_app, length_replicate. simpl. lia. }
  rewrite (proj2 (Nat.eqb_neq _ 0)) by lia.
  assert (write_at buffer (Z.of_nat (length buffer) - 1) [0] = Ok (s ++ replicate n 0 ++ [0])) as ->.
  { unfold write_at. rewrite decide_True by (simpl; lia). f_equal. simpl length.
    replace (Z.to_nat _) with (length (s ++ replicate n 0)) by (rewrite length_app, length_replicate; lia).
    unfold buffer. rewrite !app_assoc, take_app_length. rewrite drop_ge; [by rewrite app_nil_r|].
    rewrite length_app. simpl. lia. }
  cbn [obind]. rewrite (last_terminator_text _ _ _ Hl). rewrite take_app_length, drop_app_length, existsb_nul.
  cbv zeta. set (text := map _ s) in *. set (mem := text ++ replicate n 0 ++ [0]).
  set (l := mkLoader mem m [] None (if bool_decide (0 ∈ s) then 1 else 0)).
  assert ((if bool_decide (0 ∈ s) then LogParseError (mkLoader mem m [] None 0) else mkLoader mem m [] None 0) = l)
    as -> by (unfold l; by destruct (bool_decide _)).
  assert (holds mem 0 (text ++ [0])) as Hh.
  { unfold mem. destruct n as [|n]; [done|]. cbn [replicate app].
    replace (text ++ 0 :: replicate n 0 ++ [0]) with ((text ++ [0]) ++ replicate n 0 ++ [0]) by by rewrite <- app_assoc.
    by apply (holds_app _ 0 (text ++ [0]) (replicate n 0 ++ [0])). }
  set (fuel := length mem).
  assert (length text <= fuel)%nat as Hfuel by (unfold fuel, mem; rewrite length_app; lia).
  destruct (load_loop_text fuel l 0 text Hfuel (no_nul_replaced s) Hh) as (mem' & E).
  { unfold symbol_lines, tokens in Hgo. fold text in Hgo.
    rewrite (all_tokens_fuel eol (length text) (S (length text)) text) in Hgo by lia.
    by rewrite (all_tokens_fuel eol (length text)) by lia. }
  change (mkLoader [] m [] None (if bool_decide (0 ∈ s) then 1 else 0)) with (set_buffer l []).
  rewrite text_lines_buffer. unfold tokens.
  rewrite (all_tokens_fuel eol (length text) (S (length text)) text), <- (all_tokens_fuel eol _ fuel) by lia.
  change (buffer_ l) with mem in E |- *.
  destruct (strtok_r eol mem 0) as [[[m1 b] q]|] eqn:Es; cbn [obind] in E |- *.
  - apply strtok_r_length in Es as ->. fold fuel. rewrite E. by destruct (text_lines _ l).
  - destruct (text_lines _ l); [done|]. done.
Qed.
End text.
