(* ===== verification/SymbolLoad.v ===== *)
(** * What loading a symbol file leaves

    The invariant of the module while [LoadMapFromMemory] runs: its maps stay
    ordered and disjoint, every pointer in them is to a live record, and every
    record holds values of its members' types.  Each record parser keeps it,
    so the lookups can rely on it. *)

From S2P Require Import Prelude Memory LibcSupport SimpleSerializer OrderedMap AddressMap RangeMap ContainedRangeMap Tokens CStrings SymbolRecords SymbolModule SymbolParser SymbolText.
#[local] Open Scope Z_scope.

(** ** Numbers *)

Lemma hex_digit_range c d : hex_digit c = Some d -> 0 <= d < 16.
Proof. unfold hex_digit. repeat case_match; intros [= <-]; lia. Qed.

Lemma digits_value_nonneg base s : 0 <= base -> forall acc, 0 <= acc -> 0 <= (digits_value base s acc).1.
Proof.
  intros Hb. induction s as [|c s IH]; intros acc Ha; simpl; [done|].
  destruct (digit base c) as [d|] eqn:E; [|done]. apply IH.
  unfold digit in E. destruct (hex_digit c) as [d'|] eqn:Eh; [|done]. apply hex_digit_range in Eh.
  destruct (d' <? base); [|done]. injection E as ->. nia.
Qed.

Lemma strtou_uint w base s : 0 < w -> 0 <= base -> uint w (strtou w base s).1.
Proof.
  intros Hw Hb. unfold strtou. pose proof (Z.pow_pos_nonneg 2 w ltac:(lia) ltac:(lia)) as Hp.
  destruct (scan_number base s) as [[[neg v] rest]|] eqn:E; [|unfold uint; simpl; lia].
  assert (0 <= v) as Hv.
  { unfold scan_number in E. destruct (number_sign _) as [n s1]. cbv zeta in E.
    destruct (number_prefix base s1) as [|c s2] eqn:Es; [done|]. destruct (is_digit_of base c); [|done].
    pose proof (digits_value_nonneg base (c :: s2) Hb 0 (Z.le_refl 0)) as Hd.
    destruct (digits_value base (c :: s2) 0). by injection E as _ <- _. }
  simpl. destruct (Z.leb_spec (2 ^ w) v); [unfold uint; lia|].
  destruct neg; [|unfold uint; lia]. unfold uint, wrap. apply Z.mod_pos_bound. lia.
Qed.

Lemma swrap_int32 z : int32 (swrap 32 z).
Proof. apply (swrap_range 32). lia. Qed.

Lemma parse_uint64_range text v : parse_uint64 text = Some v -> 0 <= v < 2 ^ 64 - 1.
Proof.
  unfold parse_uint64. pose proof (strtou_uint 64 16 text ltac:(lia) ltac:(lia)) as Hu.
  destruct (strtou 64 16 text) as [x rest]. unfold uint, ulonglong_max in *. simpl in Hu.
  destruct (negb _); [done|]. cbn [orb]. destruct (Z.eqb_spec x (2 ^ 64 - 1)); [done|]. intros [= <-]. lia.
Qed.

Lemma nth_no_nul i ts : Forall no_nul ts -> no_nul (nth i ts []).
Proof.
  intros H. destruct (nth_in_or_default i ts []) as [Hi| ->]; [|by apply Forall_nil].
  rewrite Forall_forall in H. apply H. by apply list_elem_of_In.
Qed.

(** ** The records *)

Section load.
Context (lw : Z) (Hlw : 0 < lw <= 64).

Lemma long_uint64 base s : 0 <= base -> uint 64 (strtou lw base s).1.
Proof.
  intros Hb. pose proof (strtou_uint lw base s ltac:(lia) Hb) as H. unfold uint in *.
  assert (2 ^ lw <= 2 ^ 64) by (apply Z.pow_le_mono_r; lia). lia.
Qed.

(** The fields of each record: what its text gives. *)
Definition function_fields_ok (r : bool * Z * Z * Z * chars) : Prop :=
  let '(_, address, size, _, name) := r in
  0 <= address < 2 ^ 64 - 1 /\ 0 <= size < 2 ^ 64 - 1 /\ no_nul name.

Definition frame_info_loaded (w : WindowsFrameInfo) : Prop :=
  0 <= type_ w < Z.of_nat STACK_INFO_LAST /\ valid w = VALID_ALL /\
  uint 32 (prolog_size w) /\ uint 32 (epilog_size w) /\ uint 32 (parameter_size w) /\
  uint 32 (saved_register_size w) /\ uint 32 (local_size w) /\ uint 32 (max_stack_size w) /\
  no_nul (program_string w).

Definition frame_info_fields_ok (r : WindowsFrameInfo * Z * Z * Z) : Prop :=
  let '(w, type, rva, code_size) := r in
  frame_info_loaded w /\ type = type_ w /\ uint 64 rva /\ uint 64 code_size.

Definition cfi_ok (r : CFIRecord) : Prop :=
  match r with
  | CFIInit _ _ rules => no_nul rules
  | CFIDelta _ rules => no_nul rules
  end.

Lemma fields_of_Some {A} (fields : list chars -> option A) text r :
  fields_of fields text = Some r -> exists ts, text = Some ts /\ fields ts = Some r.
Proof. destruct text as [ts|]; [|done]. eauto. Qed.

Lemma file_text_ok s index filename :
  no_nul s -> file_text lw s = Some (index, filename) -> no_nul filename.
Proof.
  intros Hs (ts & Et & E)%fields_of_Some. apply tokenize_text_spec in Et as [_ Hts]; [|done].
  unfold file_fields in E. destruct (parse_nonnegative _ _ _) as [i|]; [|done]. cbv zeta in E.
  destruct (_ =? 0)%nat; [done|]. injection E as _ <-. by apply nth_no_nul.
Qed.

Lemma function_text_ok s r : no_nul s -> function_text lw s = Some r -> function_fields_ok r.
Proof.
  intros Hs (ts & Et & E)%fields_of_Some. apply optional_text_no_nul in Et; [|done].
  unfold function_fields in E. cbv zeta in E. set (k := if bool_decide _ then 1%nat else 0%nat) in E.
  destruct (parse_uint64 (nth k ts [])) as [a|] eqn:Ea; [|done].
  destruct (parse_uint64 (nth (k + 1) ts [])) as [sz|] eqn:Ez; [|done].
  destruct (parse_nonnegative _ _ _) as [ps|]; [|done]. injection E as <-.
  apply parse_uint64_range in Ea, Ez. split; [done|]. split; [done|]. by apply nth_no_nul.
Qed.

Lemma line_text_ok s l : line_text lw s = Some l -> forall line, apply_line (Some l) = Some line -> line_ok line.
Proof.
  intros (ts & _ & E)%fields_of_Some line El. unfold line_fields in E.
  destruct (parse_uint64 (nth 0 ts [])) as [a|] eqn:Ea; [|done].
  destruct (parse_uint64 (nth 1 ts [])) as [sz|] eqn:Ez; [|done].
  destruct (parse_long _ _ _) as [n|]; [|done]. destruct (parse_nonnegative _ _ _) as [f|]; [|done].
  destruct (n <? 0); [done|]. injection E as <-. injection El as <-.
  apply parse_uint64_range in Ea, Ez. unfold line_ok, uint. simpl.
  split; [lia|]. split; [lia|]. split; apply swrap_int32.
Qed.

Lemma public_text_ok s m a p name :
  no_nul s -> public_text lw s = Some (m, a, p, name) -> 0 <= a < 2 ^ 64 - 1 /\ no_nul name.
Proof.
  intros Hs (ts & Et & E)%fields_of_Some. apply optional_text_no_nul in Et; [|done].
  unfold public_fields in E. cbv zeta in E. set (k := if bool_decide _ then 1%nat else 0%nat) in E.
  destruct (parse_uint64 (nth k ts [])) as [a'|] eqn:Ea; [|done].
  destruct (parse_nonnegative _ _ _) as [ps|]; [|done]. injection E as _ -> _ <-.
  apply parse_uint64_range in Ea. split; [done|]. by apply nth_no_nul.
Qed.

Lemma frame_info_text_ok s r : no_nul s -> frame_info_text lw s = Some r -> frame_info_fields_ok r.
Proof.
  intros Hs (ts & Et & E)%fields_of_Some. apply tokenize_text_spec in Et as [_ Hts]; [|done].
  unfold frame_info_fields in E. cbv zeta in E.
  destruct (_ || _) eqn:Et; [done|]. apply orb_false_iff in Et as [H1%Z.ltb_ge H2%Z.ltb_ge].
  set (type := swrap 32 _) in *.
  assert (forall x, uint 32 (hex_uint32 lw x)) as Hh by (intros x; apply wrap_uint; lia).
  set (ps := if negb _ then _ else _) in E.
  assert (no_nul ps.1) as Hps by (unfold ps; destruct (negb _); [by apply nth_no_nul|by apply Forall_nil]).
  destruct ps as [program abp]. injection E as <-. unfold frame_info_fields_ok, frame_info_loaded. simpl.
  split; [|split; [done|split; apply strtou_uint; lia]].
  split; [change (Z.of_nat STACK_INFO_LAST) with 5 in *; lia|]. split; [done|]. split_and!; try apply Hh. done.
Qed.

Lemma cfi_text_ok s r : no_nul s -> cfi_text s = Some r -> cfi_ok r.
Proof.
  intros Hs E. unfold cfi_text in E. destruct (next_token kWhitespace s) as [[w rest]|] eqn:En; [|done].
  apply next_token_no_nul in En as (_ & _ & Hr); [|done].
  destruct (bool_decide _).
  - destruct (first_tokens kWhitespace 2 _) as [[ts r']|] eqn:Ef; [|done].
    apply first_tokens_spec in Ef as (_ & _ & Hr'); [|done].
    destruct ts as [|a [|z [|? ?]]]; try done.
    destruct (next_token eol r') as [[rules ?]|] eqn:En; [|done]. injection E as <-.
    by apply next_token_no_nul in En as (? & _).
  - destruct (next_token eol _) as [[rules ?]|] eqn:En; [|done]. injection E as <-.
    by apply next_token_no_nul in En as (? & _).
Qed.

(** ** The invariant *)

Definition exclusive {E} (rm : RangeMap E) (P : Z * Range E -> Prop) : Prop :=
  merge_strategy_ rm = kExclusiveRanges /\ RangeMap.wf 64 (map_ rm) /\ Forall P (map_ rm).

Definition line_entry (p : Z * Range (option Line)) : Prop :=
  exists l, entry_ p.2 = Some l /\ line_ok l.

Definition function_loaded (f : Function_) : Prop :=
  no_nul (function_name f) /\ 0 <= function_address f < 2 ^ 64 - 1 /\
  0 <= function_size f < 2 ^ 64 - 1 /\ int32 (function_parameter_size f) /\
  exclusive (lines f) line_entry.

(** A range smaller than the address space, of one of [n] functions. *)
Definition function_entry (n : nat) (p : Z * Range (option nat)) : Prop :=
  p.1 - base_ p.2 < 2 ^ 64 - 1 /\ exists i, entry_ p.2 = Some i /\ (i < n)%nat.

Definition symbol_entry (p : Z * option PublicSymbol) : Prop :=
  exists s, p.2 = Some s /\ symbol_ok s /\ symbol_address s = p.1.

Definition frame_info_entry (r : Z * Z * option WindowsFrameInfo) : Prop :=
  exists w, r.2 = Some w /\ frame_info_loaded w.

Definition frame_tree (t : ContainedRangeMap (option WindowsFrameInfo)) : Prop :=
  wf_root 64 t /\ Forall frame_info_entry (descendants t) /\ cbase t = 0 /\ centry t = None.

Record module_loaded (n : nat) (m : Module (option nat)) : Prop := {
  loaded_files : sorted (files_ m) /\ Forall (fun p => int32 p.1 /\ no_nul p.2) (files_ m);
  loaded_functions : exclusive (functions_ m) (function_entry n);
  loaded_symbols : sorted (public_symbols_ m) /\ Forall symbol_entry (public_symbols_ m);
  loaded_frame_info : length (windows_frame_info_ m) = STACK_INFO_LAST /\
    Forall frame_tree (windows_frame_info_ m);
  loaded_cfi : exclusive (cfi_initial_rules_ m) (fun p => no_nul (entry_ p.2));
  loaded_deltas : sorted (cfi_delta_rules_ m) /\
    Forall (fun p => uint 64 p.1 /\ no_nul p.2) (cfi_delta_rules_ m);
}.

Record loader_wf (l : Loader) : Prop := {
  loader_module : module_loaded (length (heap_ l)) (module_ l);
  loader_heap : Forall function_loaded (heap_ l);
  loader_cur_func i : cur_func l = Some i -> (i < length (heap_ l))%nat;
}.

Lemma StoreRange_keeps {E} (dflt : E) rm (P : Z * Range E -> Prop) base size e :
  exclusive rm P -> uint 64 base -> uint 64 size ->
  (valid_range 64 base size -> P (base + size - 1, mkRange base 0 e)) ->
  exists ok rm', RangeMap.StoreRange 64 dflt rm base size e = Ok (ok, rm') /\ exclusive rm' P.
Proof.
  intros (Hx & Hwf & HP) Hb Hs He.
  destruct (StoreRange_exclusive 64 dflt rm base size e Hx Hwf Hb Hs) as (ok & m' & -> & Hwf' & Hm').
  exists ok, (mkRangeMap kExclusiveRanges m'). split; [done|]. split; [done|]. split; [done|]. cbn [map_].
  destruct Hm' as [->|[Hv Hm']]; [done|]. rewrite Forall_forall in HP |- *.
  intros p [Hp| ->]%Hm'; [by apply HP|by apply He].
Qed.

Lemma add_file_loaded n m index filename :
  module_loaded n m -> no_nul filename -> module_loaded n (add_file m index filename).
Proof.
  intros [Hf ? ? ? ? ?] Hn. split; try done. cbn. destruct Hf as [Hs Hf].
  split; [by apply insert_sorted|]. rewrite Forall_forall in Hf |- *.
  intros p [[-> _]|Hp]%elem_of_insert; [|by apply Hf|done]. split; [apply swrap_int32|done].
Qed.

Lemma add_public_symbol_loaded n m is_multiple address stack_param_size name :
  module_loaded n m -> 0 <= address < 2 ^ 64 - 1 -> no_nul name ->
  module_loaded n (add_public_symbol m is_multiple address stack_param_size name).2.
Proof.
  intros [? ? Hsym ? ? ?] Ha Hn. unfold add_public_symbol. destruct (address =? 0); [done|].
  set (symbol := mkPublicSymbol _ _ _ _). unfold AddressMap.Store.
  destruct (negb _); [done|]. split; try done. cbn. destruct Hsym as [Hs Hsym].
  split; [by apply insert_sorted|]. rewrite Forall_forall in Hsym |- *.
  intros p [[-> _]|Hp]%elem_of_insert; [|by apply Hsym|done].
  exists symbol. split; [done|]. split; [|done]. unfold symbol_ok, uint, symbol. simpl.
  split; [done|]. split; [lia|apply swrap_int32].
Qed.

Lemma add_frame_info_loaded n m w type rva code_size :
  module_loaded n m -> frame_info_fields_ok (w, type, rva, code_size) ->
  exists m', add_frame_info m w type rva code_size = Ok m' /\ module_loaded n m'.
Proof.
  intros [? ? ? Hf ? ?] (Hw & -> & Hr & Hc). destruct Hf as [Hl Hf]. unfold add_frame_info.
  pose proof (proj1 Hw) as Ht.
  destruct (windows_frame_info_ m !! Z.to_nat (type_ w)) as [t|] eqn:Et;
    [|apply lookup_ge_None in Et; lia].
  cbn [of_option obind]. pose proof (proj1 (Forall_lookup _ _) Hf _ _ Et) as (Hwf & Hd & Hb & He).
  destruct (ContainedStoreRange_cases 64 t rva code_size (Some w) Hwf Hr Hc) as (ok & t' & E & Hwf' & Hd' & _).
  pose proof (ContainedStoreRange_root _ _ _ _ _ _ _ E) as [Eb Ee]. rewrite E. cbn [obind]. eexists. split; [done|]. split; try done. cbn. rewrite length_insert. split; [done|].
  apply Forall_insert; [done|]. split; [done|]. split; [|by rewrite Eb, Ee].
  destruct ok; [|by rewrite Hd']. rewrite Hd'. constructor; [by exists w|done].
Qed.

Lemma add_cfi_initial_loaded n m address size rules :
  module_loaded n m -> uint 64 address -> uint 64 size -> no_nul rules ->
  exists m', add_cfi_initial m address size rules = Ok m' /\ module_loaded n m'.
Proof.
  intros [? ? ? ? Hc ?] Ha Hs Hn. unfold add_cfi_initial.
  destruct (StoreRange_keeps [] _ _ address size rules Hc Ha Hs) as (ok & rm' & -> & Hrm); [done|].
  cbn [obind]. eexists. split; [done|]. by split.
Qed.

Lemma add_cfi_delta_loaded n m address rules :
  module_loaded n m -> uint 64 address -> no_nul rules -> module_loaded n (add_cfi_delta m address rules).
Proof.
  intros [? ? ? ? ? Hd] Ha Hn. split; try done. cbn. destruct Hd as [Hs Hd].
  split; [by apply assign_sorted|]. rewrite Forall_forall in Hd |- *.
  intros p [->|Hp]%elem_of_assign; [|by apply Hd|done]. done.
Qed.

Lemma module_loaded_mono n n' m : module_loaded n m -> (n <= n')%nat -> module_loaded n' m.
Proof.
  intros [? (Hx & Hw & Hf) ? ? ? ?] Hle. split; try done. split; [done|]. split; [done|].
  eapply Forall_impl; [exact Hf|]. intros p (Hp & i & Hi & Hlt). split; [done|]. exists i. split; [done|lia].
Qed.

Lemma module_loaded_new : module_loaded 0 new_module.
Proof.
  split; cbn.
  - split; constructor.
  - split; [done|]. split; [apply RangeMap.wf_nil|constructor].
  - split; constructor.
  - split; [done|]. repeat constructor.
  - split; [done|]. split; [apply RangeMap.wf_nil|constructor].
  - split; constructor.
Qed.

(** ** Every line keeps it *)

Lemma LogParseError_wf l : loader_wf l -> loader_wf (LogParseError l).
Proof. intros []. by split. Qed.

Lemma checked_wf b l : loader_wf l -> loader_wf (checked (b, l)).
Proof. destruct b; [done|]. apply LogParseError_wf. Qed.

Lemma set_module_wf l m : loader_wf l -> module_loaded (length (heap_ l)) m -> loader_wf (set_module l m).
Proof. intros [] Hm. by split. Qed.

Lemma apply_function_wf r l :
  loader_wf l -> (forall x, r = Some x -> function_fields_ok x) ->
  loader_wf (set_cur_func (apply_function r l).2 (apply_function r l).1).
Proof.
  intros [Hm Hh Hc] Hr. destruct r as [[[[[im a] sz] ps] name]|]; [|by split].
  destruct (Hr _ eq_refl) as (Ha & Hs & Hn). split; cbn.
  - rewrite length_app. apply (module_loaded_mono _ _ _ Hm). lia.
  - apply Forall_app. split; [done|]. constructor; [|constructor]. unfold function_loaded. simpl.
    split; [done|]. split; [done|]. split; [done|]. split; [apply swrap_int32|].
    split; [done|]. split; [apply RangeMap.wf_nil|constructor].
  - intros i [= <-]. rewrite length_app. simpl. lia.
Qed.

Lemma store_function_wf l func :
  loader_wf l -> (func < length (heap_ l))%nat ->
  exists l', store_function l func = Ok l' /\ loader_wf l'.
Proof.
  intros Hl Hf. pose proof Hl as [[? Hfun ? ? ? ?] Hh Hc]. unfold store_function.
  destruct (lookup_lt_is_Some_2 (heap_ l) func Hf) as [f Ef]. rewrite Ef. cbn [of_option obind].
  pose proof (proj1 (Forall_lookup _ _) Hh _ _ Ef) as (_ & Ha & Hs & _).
  destruct (StoreRange_keeps None _ _ (function_address f) (function_size f) (Some func) Hfun)
    as (ok & rm' & -> & Hrm); [unfold uint; lia..| |].
  { intros _. split; [simpl; lia|]. by exists func. }
  cbn [obind]. eexists. split; [done|]. apply set_module_wf; [done|]. by split.
Qed.

Lemma store_line_wf l func line :
  loader_wf l -> (func < length (heap_ l))%nat -> line_ok line ->
  exists l', store_line l func line = Ok l' /\ loader_wf l'.
Proof.
  intros [Hm Hh Hc] Hf Hline. unfold store_line.
  destruct (lookup_lt_is_Some_2 (heap_ l) func Hf) as [f Ef]. rewrite Ef. cbn [of_option obind].
  pose proof (proj1 (Forall_lookup _ _) Hh _ _ Ef) as (Hn & Ha & Hs & Hp & Hlines).
  pose proof Hline as (Hla & Hls & _).
  destruct (StoreRange_keeps None _ _ (line_address line) (line_size line) (Some line) Hlines Hla Hls)
    as (ok & rm' & -> & Hrm); [intros _; by exists line|].
  cbn [obind]. eexists. split; [done|]. split; cbn; rewrite ?length_insert; [done| |done].
  by apply Forall_insert.
Qed.

Lemma text_stack_wf s l :
  loader_wf l -> no_nul s -> is_Some (stack_parts s) ->
  exists r, text_stack lw s l = Ok r /\ loader_wf (checked r).
Proof.
  intros Hl Hs [[platform rest] Ep]. unfold text_stack. rewrite Ep.
  assert (no_nul rest) as Hr.
  { unfold stack_parts in Ep. cbv zeta in Ep. destruct (drop _ _) as [|c r] eqn:Ed; [done|].
    injection Ep as _ ->. assert (no_nul (c :: rest)) as [_ ?]%Forall_cons; [|done].
    rewrite <- Ed. by do 2 apply Forall_drop. }
  repeat case_bool_decide.
  - unfold apply_frame_info. destruct (frame_info_text lw rest) as [[[[w type] rva] sz]|] eqn:Ef.
    2: { eexists. split; [done|]. by apply checked_wf. }
    apply frame_info_text_ok in Ef; [|done].
    destruct (add_frame_info_loaded _ _ _ _ _ _ (loader_module l Hl) Ef) as (m' & -> & Hm'). cbn [obind].
    eexists. split; [done|]. by apply checked_wf, set_module_wf.
  - unfold apply_cfi. destruct (cfi_text rest) as [[a sz rules|a rules]|] eqn:Ec.
    + apply cfi_text_ok in Ec; [|done].
      destruct (add_cfi_initial_loaded _ _ (strtou lw 16 a).1 (strtou lw 16 sz).1 rules (loader_module l Hl))
        as (m' & -> & Hm'); [by apply long_uint64..|done|].
      cbn [obind]. eexists. split; [done|]. by apply checked_wf, set_module_wf.
    + apply cfi_text_ok in Ec; [|done]. eexists. split; [done|]. apply checked_wf, set_module_wf; [done|].
      apply add_cfi_delta_loaded; [apply Hl|by apply long_uint64|done].
    + eexists. split; [done|]. by apply checked_wf.
  - eexists. split; [done|]. by apply checked_wf.
Qed.

Lemma text_line_wf s l :
  loader_wf l -> no_nul s -> stack_goes_on s -> exists l', text_line lw s l = Ok l' /\ loader_wf l'.
Proof.
  intros Hl Hs Hst. unfold text_line. assert (forall n, no_nul (drop n s)) as Hd by (intros n; by apply Forall_drop).
  destruct (starts_with (str "FILE ") s).
  { eexists. split; [done|]. unfold apply_file. destruct (file_text lw _) as [[i f]|] eqn:Ef; apply checked_wf; [|done].
    apply set_module_wf; [done|]. apply add_file_loaded; [apply Hl|]. by apply file_text_ok in Ef. }
  destruct (starts_with (str "STACK ") s) eqn:E2.
  { destruct (text_stack_wf (drop 6 s) l Hl (Hd _) (Hst E2)) as (r & -> & Hr). cbn [obind]. eauto. }
  destruct (starts_with (str "FUNC ") s).
  { pose proof (apply_function_wf (function_text lw (drop 5 s)) l Hl) as Hw.
    destruct (apply_function _ l) as [func l']. cbv zeta.
    specialize (Hw ltac:(intros x Ex; by apply function_text_ok in Ex)). cbn [fst snd] in Hw.
    destruct func as [func|].
    - apply store_function_wf; [done|]. by apply Hw.
    - eexists. split; [done|]. by apply LogParseError_wf. }
  destruct (starts_with (str "PUBLIC ") s).
  { eexists. split; [done|]. assert (loader_wf (set_cur_func l None)) as Hl' by (destruct Hl; by split).
    unfold apply_public. destruct (public_text lw _) as [[[[im a] ps] name]|] eqn:Ep; [|by apply checked_wf].
    apply public_text_ok in Ep as [Ha Hn]; [|done].
    pose proof (add_public_symbol_loaded _ _ im a ps name (loader_module _ Hl') Ha Hn) as Hm.
    destruct (add_public_symbol _ _ _ _ _) as [ok m]. by apply checked_wf, set_module_wf. }
  destruct (starts_with (str "MODULE ") s); [eauto|]. destruct (starts_with (str "INFO ") s); [eauto|].
  destruct (cur_func l) as [func|] eqn:Ec; [|eexists; split; [done|by apply LogParseError_wf]].
  destruct (line_text lw s) as [x|] eqn:El.
  - destruct (apply_line (Some x)) as [line|] eqn:Ea; [|eexists; split; [done|by apply LogParseError_wf]].
    apply store_line_wf; [done|by apply Hl|]. by eapply line_text_ok.
  - eexists. split; [done|by apply LogParseError_wf].
Qed.

Lemma text_lines_wf ls : forall l,
  loader_wf l -> Forall no_nul ls -> Forall stack_goes_on ls ->
  exists l', text_lines lw ls l = Ok l' /\ loader_wf l'.
Proof.
  induction ls as [|s ls IH]; intros l Hl Hn Hgo; [by exists l|].
  apply Forall_cons in Hn as [Hs Hn]. apply Forall_cons in Hgo as [Hs' Hgo]. cbn [text_lines].
  destruct (text_line_wf s l Hl Hs Hs') as (l' & -> & Hl'). cbn [obind].
  destruct (_ <? _); [by exists l'|]. by apply IH.
Qed.
End load.

(** ** The loaded module *)

Lemma tokens_no_nul sep s : no_nul s -> Forall no_nul (tokens sep s).
Proof.
  unfold tokens. generalize (S (length s)). intros n. revert s.
  induction n as [|n IH]; intros s Hs; [constructor|]. cbn [all_tokens].
  destruct (next_token sep s) as [[t rest]|] eqn:E; [|constructor].
  apply next_token_no_nul in E as (Ht & Hr & _); [|done]. constructor; [done|]. by apply IH.
Qed.

Lemma load_text_loaded lw s :
  0 < lw <= 64 -> Forall stack_goes_on (symbol_lines s) ->
  exists m heap, load_text lw new_module s = Ok (m, heap) /\
    module_loaded (length heap) m /\ Forall function_loaded heap.
Proof.
  intros Hlw Hgo. unfold load_text.
  set (l := mkLoader [] new_module [] None (if bool_decide (0 ∈ s) then 1 else 0)).
  assert (loader_wf l) as Hl by (split; [exact module_loaded_new|constructor|done]).
  destruct (text_lines_wf lw Hlw (symbol_lines s) l Hl) as (l' & E & [Hm Hh _]);
    [apply tokens_no_nul, no_nul_replaced|done|].
  unfold symbol_lines in E. cbv zeta. rewrite E. cbn [obind]. eexists _, _. split; [done|].
  split; [|done]. by destruct Hm.
Qed.

(** Following the pointers to functions changes neither the ranges nor their
    order. *)
Lemma deref_ranges_wf heap rm :
  RangeMap.wf 64 (map_ rm) -> RangeMap.wf 64 (map_ (deref_ranges heap rm)).
Proof.
  intros [Hr Hs]. unfold deref_ranges. cbn [map_]. split.
  - rewrite Forall_fmap. eapply Forall_impl; [exact Hr|]. intros p Hp. exact Hp.
  - clear Hr. induction Hs as [|p m Hs IH Hf]; csimpl; constructor; [done|].
    rewrite Forall_fmap. eapply Forall_impl; [exact Hf|]. intros q Hq. exact Hq.
Qed.

Lemma deref_module_wf heap m :
  module_loaded (length heap) m -> Forall function_loaded heap -> module_wf (deref_module heap m).
Proof.
  intros [[Hf _] (_ & Hw & Hfun) [Hs Hsym] [Hl Htree] (_ & Hcfi & _) [Hd _]] Hheap. split; cbn; try done.
  - split; [by apply deref_ranges_wf|]. rewrite Forall_fmap. eapply Forall_impl; [exact Hfun|].
    intros p [Hp _]. exact Hp.
  - intros p (q & -> & Hq)%list_elem_of_fmap. cbn [entry_ snd].
    rewrite Forall_forall in Hfun. destruct (Hfun q Hq) as (_ & i & -> & Hi).
    destruct (lookup_lt_is_Some_2 heap i Hi) as [f Ef]. exists f. split; [done|].
    pose proof (proj1 (Forall_lookup _ _) Hheap _ _ Ef) as (_ & _ & _ & _ & _ & Hwl & Hline).
    split; [done|]. eapply Forall_impl; [exact Hline|]. intros r (l & Hr & _). by exists l.
  - intros p Hp. rewrite Forall_forall in Hsym. destruct (Hsym p Hp) as (s & -> & _). done.
  - eapply Forall_impl; [exact Htree|]. intros t (Ht & He & _). split; [done|].
    eapply Forall_impl; [exact He|]. intros r (w & -> & _). done.
Qed.

(** ** Properties *)

(** A symbol file with every kind of record, and a bad line. *)
Definition example_text : chars :=
  str "MODULE Linux x86 D3096ED481217FD4C16B29CD9BC208BA0 main" ++ [10] ++
  str "FILE 1 main.cc" ++ [13; 10] ++
  str "FUNC m 1000 c 4 main(int)" ++ [10] ++
  str "1000 8 7 1" ++ [10] ++
  str "1008 4 9 1" ++ [10] ++
  str "1009 4 9 1" ++ [10] ++
  str "PUBLIC 2000 0 start" ++ [10] ++
  str "bad" ++ [10] ++
  str "STACK WIN 4 1000 10 1 0 4 0 8 0 1 $eip .raSearch =" ++ [10] ++
  str "STACK CFI INIT 1000 20 .cfa: $rsp 8 +" ++ [10] ++
  str "STACK CFI 1004 .cfa: $rsp 16 +".

Lemma example_goes_on : Forall stack_goes_on (symbol_lines example_text).
Proof. apply (bool_decide_unpack _). vm_compute. exact I. Defined.

(** C22: when every STACK line of a buffer goes on after its platform
    ([stack_goes_on]; [stack_past_end] and [stack_drops_lines] show what happens
    otherwise), loading it does what its lines say: the text [s] of the buffer
    (without the NULs at its end and its last byte, and with the other NULs
    read as ['_']) is cut at carriage returns and newlines, every line is one
    record, the records change the module in the order of the lines until more
    than 100 of them are bad, and the module is corrupt when one was bad.  The
    tokenizers that cut the buffer in place never read or write outside the
    line they are given; the fuel given to the loop over the lines is enough. *)
Theorem LoadMapFromMemory_text (lw : Z) (m : Module (option nat)) (s : chars) (n : nat) (c : Z) :
  last s <> Some 0 -> Forall stack_goes_on (symbol_lines s) ->
  Basic_LoadMapFromMemory lw m (s ++ replicate n 0 ++ [c]) = load_text lw m s.
Proof. apply load_buffer. Qed.

Lemma LoadMapFromMemory_text_witness :
  Basic_LoadMapFromMemory 64 new_module (example_text ++ replicate 2 0 ++ [65]) =
    load_text 64 new_module example_text.
Proof.
  apply (LoadMapFromMemory_text 64 new_module example_text 2 65).
  - vm_compute. discriminate.
  - exact example_goes_on.
Defined.

(** C23: loading a buffer into a new module always returns (no undefined
    behaviour, no loop), whatever its lines say, if every STACK line goes on
    after its platform; and the module it leaves has the invariant the lookups
    rely on: every map ordered, the ranges of functions, lines and CFI rules
    disjoint, the Windows frame data well nested, no NULL pointer in any. *)
Theorem LoadMapFromMemory_wf (lw : Z) (s : chars) (n : nat) (c : Z) :
  0 < lw <= 64 -> last s <> Some 0 -> Forall stack_goes_on (symbol_lines s) ->
  exists m heap, Basic_LoadMapFromMemory lw new_module (s ++ replicate n 0 ++ [c]) = Ok (m, heap) /\
    module_wf (deref_module heap m).
Proof.
  intros Hlw Hl Hgo. destruct (load_text_loaded lw s Hlw Hgo) as (m & heap & E & Hm & Hh).
  exists m, heap. split; [by rewrite load_buffer|]. by apply deref_module_wf.
Qed.

Lemma LoadMapFromMemory_wf_witness :
  exists m heap,
    Basic_LoadMapFromMemory 32 new_module (example_text ++ replicate 0 0 ++ [0]) = Ok (m, heap) /\
    module_wf (deref_module heap m).
Proof.
  apply (LoadMapFromMemory_wf 32 example_text 0 0).
  - lia.
  - vm_compute. discriminate.
  - exact example_goes_on.
Defined.

(** ** A STACK line that ends with its platform

    [ParseStackInfo] steps over the terminator after the platform.  At the end
    of the buffer it then reads past it. *)
Example stack_past_end :
  Basic_LoadMapFromMemory 64 new_module (str "STACK CFI" ++ [0]) = Undef.
Proof. reflexivity. Qed.

(** Elsewhere it takes the next line for the rest of the record and cuts it:
    one error, for that line, and the lines after it are dropped. *)
Example stack_drops_lines :
  match Basic_LoadMapFromMemory 64 new_module
          (str "FILE 1 a" ++ [10] ++ str "STACK CFI" ++ [10] ++
           str "STACK CFI INIT 1000 20 .cfa: $rsp" ++ [10] ++ str "FILE 2 b" ++ [10; 0]) with
  | Ok (m, _) => files_ m = [(1, str "a")] /\ is_corrupt_ m = true /\ map_ (cfi_initial_rules_ m) = []
  | Undef => False
  end.
Proof. vm_compute. auto. Qed.
