(* ===== verification/SymbolDumper.v ===== *)
(** * The symbol file writer (common/module.h, common/module.cc)

    [google_breakpad::Module]: what a dumper collects about a module (files,
    functions with their lines, public symbols and CFI entries) and the symbol
    file it writes.  The [File] objects are shared between the module's map and
    the lines that cite them: they live in a store and are named by their
    position.  The stream is the text written to it, and never fails. *)

From stdpp Require Import relations.
From S2P Require Import Prelude OrderedMap LibcSupport Tokens CStrings.
#[local] Open Scope Z_scope.

(** ** The data *)

Record File : Type := mkFile { file_name : chars; source_id : Z }.

Record AddressRange : Type := mkAddressRange { range_address : Z; range_size : Z }.

(** [file] is a pointer to a [File]. *)
Record CodeLine : Type := mkCodeLine {
  code_address : Z;
  code_size : Z;
  code_file : nat;
  code_number : Z;
}.

Record CodeFunction : Type := mkCodeFunction {
  code_name : chars;
  code_entry : Z;
  code_ranges : list AddressRange;
  code_parameter_size : Z;
  code_lines : list CodeLine;
}.

Record Extern : Type := mkExtern { extern_address : Z; extern_name : chars }.

Abbreviation CfiRules := (list (chars * chars)).

Record StackFrameEntry : Type := mkStackFrameEntry {
  entry_address : Z;
  entry_size : Z;
  initial_rules : CfiRules;
  rule_changes : list (Z * CfiRules);
}.

(** The order of the functions: by address, then by name. *)
Definition function_key (f : CodeFunction) : Z * chars := (code_entry f, code_name f).

(** The sets are maps from what their elements are compared by. *)
Record DumpModule : Type := mkDumpModule {
  name_ : chars;
  os_ : chars;
  architecture_ : chars;
  id_ : chars;
  code_id_ : chars;
  load_address_ : Z;
  address_ranges_ : list AddressRange;
  file_store : list File;
  dump_files_ : list (chars * nat);
  dump_functions_ : list ((Z * chars) * CodeFunction);
  stack_frame_entries_ : list StackFrameEntry;
  externs_ : list (Z * Extern);
}.

Definition new_dump_module (name os architecture id code_id : chars) : DumpModule :=
  mkDumpModule name os architecture id code_id 0 [] [] [] [] [] [].

Definition with_load_address (m : DumpModule) (address : Z) : DumpModule :=
  mkDumpModule (name_ m) (os_ m) (architecture_ m) (id_ m) (code_id_ m) address (address_ranges_ m)
    (file_store m) (dump_files_ m) (dump_functions_ m) (stack_frame_entries_ m) (externs_ m).

Definition with_address_ranges (m : DumpModule) (ranges : list AddressRange) : DumpModule :=
  mkDumpModule (name_ m) (os_ m) (architecture_ m) (id_ m) (code_id_ m) (load_address_ m) ranges
    (file_store m) (dump_files_ m) (dump_functions_ m) (stack_frame_entries_ m) (externs_ m).

Definition with_files (m : DumpModule) (store : list File) (files : list (chars * nat)) : DumpModule :=
  mkDumpModule (name_ m) (os_ m) (architecture_ m) (id_ m) (code_id_ m) (load_address_ m)
    (address_ranges_ m) store files (dump_functions_ m) (stack_frame_entries_ m) (externs_ m).

Definition with_symbols (m : DumpModule) (functions : list ((Z * chars) * CodeFunction))
    (externs : list (Z * Extern)) : DumpModule :=
  mkDumpModule (name_ m) (os_ m) (architecture_ m) (id_ m) (code_id_ m) (load_address_ m)
    (address_ranges_ m) (file_store m) (dump_files_ m) functions (stack_frame_entries_ m) externs.

Definition with_entries (m : DumpModule) (entries : list StackFrameEntry) : DumpModule :=
  mkDumpModule (name_ m) (os_ m) (architecture_ m) (id_ m) (code_id_ m) (load_address_ m)
    (address_ranges_ m) (file_store m) (dump_files_ m) (dump_functions_ m) entries (externs_ m).

(** ** Collecting *)

Definition SetLoadAddress (m : DumpModule) (address : Z) : DumpModule := with_load_address m address.

Definition SetAddressRanges (m : DumpModule) (ranges : list AddressRange) : DumpModule :=
  with_address_ranges m ranges.

Definition AddressIsInModule (m : DumpModule) (address : Z) : bool :=
  match address_ranges_ m with
  | [] => true
  | ranges =>
      existsb (fun segment =>
        (range_address segment <=? address) &&
        (address <? wrap 64 (range_address segment + range_size segment))) ranges
  end.

(** The position of the extern a function at [address] replaces;
    [length externs] is [end()]. *)
Definition replaced_extern (m : DumpModule) (address : Z) : nat :=
  let it_ext := find (externs_ m) address in
  if (it_ext =? length (externs_ m))%nat && bool_decide (architecture_ m = str "arm") &&
     (Z.land address 1 =? 0)
  then find (externs_ m) (Z.lor address 1)
  else it_ext.

(** The assertion that the name is not empty is [Undef] otherwise. *)
Definition AddFunction (m : DumpModule) (function : CodeFunction) : outcome DumpModule :=
  if bool_decide (code_name function = []) then Undef
  else if negb (AddressIsInModule m (code_entry function)) then Ok m
  else
    let it_ext := replaced_extern m (code_entry function) in
    let externs :=
      if negb (it_ext =? length (externs_ m))%nat then erase_at (externs_ m) it_ext else externs_ m in
    Ok (with_symbols m (insert (dump_functions_ m) (function_key function) function) externs).

Fixpoint AddFunctions (m : DumpModule) (functions : list CodeFunction) : outcome DumpModule :=
  match functions with
  | [] => Ok m
  | function :: functions => let? m := AddFunction m function in AddFunctions m functions
  end.

Definition AddStackFrameEntry (m : DumpModule) (entry : StackFrameEntry) : DumpModule :=
  if negb (AddressIsInModule m (entry_address entry)) then m
  else with_entries m (stack_frame_entries_ m ++ [entry]).

Definition AddExtern (m : DumpModule) (ext : Extern) : DumpModule :=
  if negb (AddressIsInModule m (extern_address ext)) then m
  else with_symbols m (dump_functions_ m) (insert (externs_ m) (extern_address ext) ext).

(** The pointer to the file, a new one if need be. *)
Definition FindFile (m : DumpModule) (name : chars) : DumpModule * nat :=
  let destiny := lower_bound (dump_files_ m) name in
  match dump_files_ m !! destiny with
  | Some (key, file) =>
      if bool_decide (key = name) then (m, file)
      else
        let file := length (file_store m) in
        (with_files m (file_store m ++ [mkFile name (-1)]) (insert (dump_files_ m) name file), file)
  | None =>
      let file := length (file_store m) in
      (with_files m (file_store m ++ [mkFile name (-1)]) (insert (dump_files_ m) name file), file)
  end.

Definition FindExistingFile (m : DumpModule) (name : chars) : option nat :=
  find_value (dump_files_ m) name.

Definition GetFunctions (m : DumpModule) : list CodeFunction := map snd (dump_functions_ m).
Definition GetExterns (m : DumpModule) : list Extern := map snd (externs_ m).
Definition GetFiles (m : DumpModule) : list nat := map snd (dump_files_ m).
Definition GetStackFrameEntries (m : DumpModule) : list StackFrameEntry := stack_frame_entries_ m.

(** ** AssignSourceIds *)

(** [file->source_id = id] *)
Definition set_source_id (store : list File) (file : nat) (id : Z) : outcome (list File) :=
  let? f := of_option (store !! file) in
  Ok (<[file := mkFile (file_name f) id]> store).

(** [source_id = id] for each of the files. *)
Fixpoint set_source_ids (store : list File) (files : list nat) (id : Z) : outcome (list File) :=
  match files with
  | [] => Ok store
  | file :: files => let? store := set_source_id store file id in set_source_ids store files id
  end.

(** The files the lines of the functions cite. *)
Definition cited_files (functions : list CodeFunction) : list nat :=
  concat (map (fun func => map code_file (code_lines func)) functions).

(** The last loop: the marked files are numbered; an [int] that overflows is
    [Undef]. *)
Fixpoint number_files (store : list File) (files : list nat) (next_source_id : Z) : outcome (list File) :=
  match files with
  | [] => Ok store
  | file :: files =>
      let? f := of_option (store !! file) in
      if source_id f =? 0 then
        let? store := set_source_id store file next_source_id in
        if next_source_id + 1 <? 2 ^ 31 then number_files store files (next_source_id + 1) else Undef
      else number_files store files next_source_id
  end.

Definition AssignSourceIds (m : DumpModule) : outcome DumpModule :=
  let? store := set_source_ids (file_store m) (GetFiles m) (-1) in
  let? store := set_source_ids store (cited_files (GetFunctions m)) 0 in
  let? store := number_files store (GetFiles m) 0 in
  Ok (with_files m store (dump_files_ m)).

(** ** Write *)

(** An unsigned number written to the stream in base [base], and an [int]
    written in decimal. *)
Definition digit_char (d : Z) : Z := if d <? 10 then 48 + d else 87 + d.

Fixpoint put_digits (fuel : nat) (base v : Z) (text : chars) : chars :=
  let text := digit_char (v mod base) :: text in
  match fuel with
  | O => text
  | S fuel => if v <? base then text else put_digits fuel base (v / base) text
  end.

Definition put_number (base v : Z) : chars := put_digits 64 base v [].
#[global] Arguments put_number : simpl never.

Definition hex (v : Z) : chars := put_number 16 v.
Definition put_int (v : Z) : chars := if v <? 0 then 45 :: put_number 10 (- v) else put_number 10 v.

Definition newline : chars := [10].

(** [address - load_address_] *)
Definition relative (m : DumpModule) (address : Z) : Z := wrap 64 (address - load_address_ m).

Definition WriteRule (rule : chars * chars) : chars := rule.1 ++ str ": " ++ rule.2.

Fixpoint WriteRuleMap (rule_map : CfiRules) : chars :=
  match rule_map with
  | [] => []
  | [rule] => WriteRule rule
  | rule :: rule_map => WriteRule rule ++ str " " ++ WriteRuleMap rule_map
  end.

Definition write_file (m : DumpModule) (file : nat) : outcome chars :=
  let? f := of_option (file_store m !! file) in
  if 0 <=? source_id f
  then Ok (str "FILE " ++ put_int (source_id f) ++ str " " ++ file_name f ++ newline)
  else Ok [].

Definition write_line (m : DumpModule) (line : CodeLine) : outcome chars :=
  let? f := of_option (file_store m !! code_file line) in
  Ok (hex (relative m (code_address line)) ++ str " " ++ hex (code_size line) ++ str " " ++
      put_int (code_number line) ++ str " " ++ put_int (source_id f) ++ newline).

(** The test of the loop over the lines of a range. *)
Definition in_code_range (range : AddressRange) (line : CodeLine) : bool :=
  (range_address range <=? code_address line) &&
  (code_address line <? wrap 64 (range_address range + range_size range)).

(** The lines of [range] from [line_it] on, and [line_it] after them. *)
Fixpoint write_lines (m : DumpModule) (range : AddressRange) (lines : list CodeLine) :
    outcome (chars * list CodeLine) :=
  match lines with
  | [] => Ok ([], [])
  | line :: rest =>
      if in_code_range range line then
        let? text := write_line m line in
        let? (texts, rest) := write_lines m range rest in
        Ok (text ++ texts, rest)
      else Ok ([], lines)
  end.

Fixpoint write_ranges (m : DumpModule) (func : CodeFunction) (ranges : list AddressRange)
    (lines : list CodeLine) : outcome chars :=
  match ranges with
  | [] => Ok []
  | range :: ranges =>
      let text :=
        str "FUNC " ++ hex (relative m (range_address range)) ++ str " " ++ hex (range_size range) ++
        str " " ++ hex (code_parameter_size func) ++ str " " ++ code_name func ++ newline in
      let? (texts, lines) := write_lines m range lines in
      let? rest := write_ranges m func ranges lines in
      Ok (text ++ texts ++ rest)
  end.

Definition write_function (m : DumpModule) (func : CodeFunction) : outcome chars :=
  write_ranges m func (code_ranges func) (code_lines func).

Definition write_extern (m : DumpModule) (ext : Extern) : chars :=
  str "PUBLIC " ++ hex (relative m (extern_address ext)) ++ str " 0 " ++ extern_name ext ++ newline.

Definition write_change (m : DumpModule) (delta : Z * CfiRules) : chars :=
  str "STACK CFI " ++ hex (relative m delta.1) ++ str " " ++ WriteRuleMap delta.2 ++ newline.

Definition write_entry (m : DumpModule) (entry : StackFrameEntry) : chars :=
  str "STACK CFI INIT " ++ hex (relative m (entry_address entry)) ++ str " " ++
  hex (entry_size entry) ++ str " " ++ WriteRuleMap (initial_rules entry) ++ newline ++
  concat (map (write_change m) (rule_changes entry)).

(** The texts [write] makes, in order. *)
Fixpoint write_all {A} (write : A -> outcome chars) (l : list A) : outcome chars :=
  match l with
  | [] => Ok []
  | x :: l =>
      let? text := write x in
      let? texts := write_all write l in
      Ok (text ++ texts)
  end.

Inductive SymbolData : Type := ALL_SYMBOL_DATA | NO_CFI | ONLY_CFI.

(** [symbol_data != ONLY_CFI], and [symbol_data != NO_CFI]. *)
Definition writes_symbols (symbol_data : SymbolData) : bool :=
  match symbol_data with ONLY_CFI => false | _ => true end.
Definition writes_cfi (symbol_data : SymbolData) : bool :=
  match symbol_data with NO_CFI => false | _ => true end.

Definition write_header (m : DumpModule) : chars :=
  str "MODULE " ++ os_ m ++ str " " ++ architecture_ m ++ str " " ++ id_ m ++ str " " ++ name_ m ++
  newline ++
  (if bool_decide (code_id_ m = []) then [] else str "INFO CODE_ID " ++ code_id_ m ++ newline).

Definition Write (m : DumpModule) (symbol_data : SymbolData) : outcome (DumpModule * chars) :=
  let header := write_header m in
  let? (m, symbols) :=
    if writes_symbols symbol_data then
      let? m := AssignSourceIds m in
      let? files := write_all (write_file m) (GetFiles m) in
      let? functions := write_all (write_function m) (GetFunctions m) in
      let externs := concat (map (write_extern m) (GetExterns m)) in
      Ok (m, files ++ functions ++ externs)
    else Ok (m, []) in
  let cfi :=
    if writes_cfi symbol_data then concat (map (write_entry m) (stack_frame_entries_ m)) else [] in
  Ok (m, header ++ symbols ++ cfi).

(** ** What a dumper collects

    The calls on a module. *)
Inductive dump_step (m : DumpModule) : DumpModule -> Prop :=
| step_load_address a : uint 64 a -> dump_step m (SetLoadAddress m a)
| step_address_ranges rs : dump_step m (SetAddressRanges m rs)
| step_function f m' : AddFunction m f = Ok m' -> dump_step m m'
| step_entry e : dump_step m (AddStackFrameEntry m e)
| step_extern e : dump_step m (AddExtern m e)
| step_file name : dump_step m (FindFile m name).1
| step_ids m' : AssignSourceIds m = Ok m' -> dump_step m m'.

(** The sets are ordered and their elements are under their own keys; every
    file of the module is under its own name, and is a different object. *)
Record dump_wf (m : DumpModule) : Prop := {
  dwf_files : sorted (dump_files_ m);
  dwf_file_names p : p ∈ dump_files_ m -> file_name <$> file_store m !! p.2 = Some p.1;
  dwf_functions : sorted (dump_functions_ m);
  dwf_function_keys p : p ∈ dump_functions_ m -> p.1 = function_key p.2 /\ code_name p.2 <> [];
  dwf_externs : sorted (externs_ m);
  dwf_extern_keys p : p ∈ externs_ m -> p.1 = extern_address p.2;
}.

Lemma new_dump_module_wf name os architecture id code_id :
  dump_wf (new_dump_module name os architecture id code_id).
Proof. split; simpl; try apply SSorted_nil; intros p Hp; by apply not_elem_of_nil in Hp. Qed.

Lemma elem_of_erase_at {K V} (m : list (K * V)) i p : p ∈ erase_at m i -> p ∈ m.
Proof.
  unfold erase_at. intros H. destruct (m !! i) as [q|] eqn:E.
  - rewrite <- (take_drop i m), (drop_S _ _ _ E). set_solver.
  - apply lookup_ge_None in E. by rewrite take_ge, drop_ge, app_nil_r in H by lia.
Qed.

Lemma AddFunction_wf m f m' : dump_wf m -> AddFunction m f = Ok m' -> dump_wf m'.
Proof.
  intros [? ? Hf Hfk He Hek]. unfold AddFunction. case_bool_decide as Hn; [done|].
  destruct (negb _); [by intros [= <-]|]. cbv zeta. intros [= <-]. split; cbn; try done.
  - by apply insert_sorted.
  - intros p [[-> _]|Hp]%elem_of_insert; [done|by apply Hfk|done].
  - destruct (negb _); [by apply erase_at_sorted|done].
  - intros p Hp. apply Hek. destruct (negb _); [by apply elem_of_erase_at in Hp|done].
Qed.

Lemma AddExtern_wf m e : dump_wf m -> dump_wf (AddExtern m e).
Proof.
  intros [? ? ? ? He Hek]. unfold AddExtern. destruct (negb _); [done|]. split; cbn; try done.
  - by apply insert_sorted.
  - intros p [[-> _]|Hp]%elem_of_insert; [done|by apply Hek|done].
Qed.

(** What [FindFile] leaves, in both branches. *)
Definition added_file (m : DumpModule) (name : chars) : DumpModule :=
  with_files m (file_store m ++ [mkFile name (-1)]) (insert (dump_files_ m) name (length (file_store m))).

Lemma FindFile_cases m name :
  dump_wf m ->
  (exists file, find_value (dump_files_ m) name = Some file /\ FindFile m name = (m, file)) \/
  (find_value (dump_files_ m) name = None /\
   FindFile m name = (added_file m name, length (file_store m))).
Proof.
  intros [Hs _ _ _ _ _]. unfold FindFile. cbv zeta.
  destruct (lower_bound_spec (dump_files_ m) name Hs) as [H1 H2].
  set (i := lower_bound (dump_files_ m) name) in *.
  destruct (dump_files_ m !! i) as [[key file]|] eqn:E.
  - case_bool_decide as Hk.
    + left. subst key. exists file. split; [|done]. apply find_value_Some; [done|].
      by eapply list_elem_of_lookup_2.
    + right. split; [|done]. apply find_value_None; [done|]. intros v Hv.
      rewrite <- (take_drop i (dump_files_ m)), elem_of_app in Hv. rewrite Forall_forall in H1, H2.
      destruct Hv as [Hv|Hv]; [apply H1 in Hv; cbn [fst] in Hv; by rewrite key_lt_irrefl in Hv|].
      rewrite (drop_S _ _ _ E) in Hv, H2. apply elem_of_cons in Hv as [[= -> _]|Hv]; [done|].
      assert (sorted (take i (dump_files_ m) ++ (key, file) :: drop (S i) (dump_files_ m))) as Hs'.
      { by rewrite <- (drop_S _ _ _ E), take_drop. }
      apply sorted_app in Hs' as (_ & _ & [Hlt _]%sorted_cons). rewrite Forall_forall in Hlt.
      apply Hlt in Hv. cbn [fst] in Hv. specialize (H2 (key, file) ltac:(set_solver)). cbn [fst] in H2. congruence.
  - right. split; [|done]. apply find_value_None; [done|]. intros v Hv.
    apply lookup_ge_None in E. rewrite take_ge in H1 by done. rewrite Forall_forall in H1.
    apply H1 in Hv. cbn [fst] in Hv. by rewrite key_lt_irrefl in Hv.
Qed.

Lemma added_file_wf m name :
  dump_wf m -> find_value (dump_files_ m) name = None -> dump_wf (added_file m name).
Proof.
  intros [Hs Hn ? ? ? ?] Hf. split; cbn; try done; [by apply insert_sorted|].
  intros p [[-> _]|Hp]%elem_of_insert; [| |done]; cbn [fst snd].
  - by rewrite lookup_app_r, Nat.sub_diag by lia.
  - pose proof (Hn p Hp) as Hname. destruct (file_store m !! p.2) as [f|] eqn:E; [|done].
    by rewrite (lookup_app_l_Some _ _ _ _ E).
Qed.

(** ** Source ids *)

Lemma set_source_id_spec store file id :
  (file < length store)%nat ->
  exists store', set_source_id store file id = Ok store' /\ length store' = length store /\
    forall i, store' !! i =
      if decide (i = file) then (fun f => mkFile (file_name f) id) <$> store !! i else store !! i.
Proof.
  intros Hf. unfold set_source_id. destruct (lookup_lt_is_Some_2 store file Hf) as [f Ef].
  rewrite Ef. cbn [of_option obind]. eexists. split; [done|]. rewrite length_insert. split; [done|].
  intros i. destruct (decide (i = file)) as [->|Hne].
  - rewrite list_lookup_insert_eq by done. by rewrite Ef.
  - by rewrite list_lookup_insert_ne by done.
Qed.

Lemma set_source_ids_spec files id : forall store,
  Forall (fun i => i < length store)%nat files ->
  exists store', set_source_ids store files id = Ok store' /\ length store' = length store /\
    forall i, store' !! i =
      if decide (i ∈ files) then (fun f => mkFile (file_name f) id) <$> store !! i else store !! i.
Proof.
  induction files as [|file files IH]; intros store Hf.
  - exists store. split; [done|]. split; [done|]. intros i. by destruct (decide _) as [Hi%elem_of_nil|].
  - apply Forall_cons in Hf as [Hf0 Hf]. cbn [set_source_ids].
    destruct (set_source_id_spec store file id Hf0) as (s1 & -> & L1 & H1). cbn [obind].
    destruct (IH s1) as (s2 & -> & L2 & H2); [by rewrite L1|]. exists s2. split; [done|].
    split; [congruence|]. intros i. rewrite H2, H1.
    destruct (decide (i ∈ files)), (decide (i = file)), (decide (i ∈ file :: files));
      try set_solver; by destruct (store !! i).
Qed.

(** The numbers of the files, in order: the cited ones are counted from
    [next], the others are [-1]. *)
Fixpoint numbers (cited : nat -> bool) (files : list nat) (next : Z) : list Z :=
  match files with
  | [] => []
  | file :: files =>
      if cited file then next :: numbers cited files (next + 1) else -1 :: numbers cited files next
  end.

Definition source_id_at (store : list File) (file : nat) : option Z := source_id <$> store !! file.
Definition name_at (store : list File) (file : nat) : option chars := file_name <$> store !! file.

Lemma number_files_spec (cited : nat -> bool) files : forall store next,
  NoDup files -> 0 <= next -> next + Z.of_nat (length files) < 2 ^ 31 ->
  (forall i, i ∈ files -> source_id_at store i = Some (if cited i then 0 else -1)) ->
  exists store', number_files store files next = Ok store' /\
    (forall i, name_at store' i = name_at store i) /\
    (forall i, i ∉ files -> store' !! i = store !! i) /\
    map (source_id_at store') files = map Some (numbers cited files next).
Proof.
  induction files as [|file files IH]; intros store next Hnd Hn Hmax Hc; [by exists store|].
  apply NoDup_cons in Hnd as [Hnin Hnd]. cbn [number_files numbers length] in *.
  pose proof (Hc file ltac:(set_solver)) as Hfile. unfold source_id_at in Hfile.
  destruct (store !! file) as [f|] eqn:Ef; [|done]. cbn [fmap option_fmap option_map] in Hfile.
  injection Hfile as Hid. cbn [of_option obind]. rewrite Hid.
  destruct (cited file) eqn:Ec.
  - cbn [Z.eqb]. destruct (set_source_id_spec store file next) as (s1 & -> & L1 & H1).
    { by apply lookup_lt_Some in Ef. }
    cbn [obind]. rewrite (proj2 (Z.ltb_lt _ _)) by lia.
    destruct (IH s1 (next + 1)) as (s2 & -> & N2 & O2 & I2); try done; [lia|lia| |].
    { intros i Hi. unfold source_id_at. rewrite H1, decide_False by congruence. apply Hc. set_solver. }
    exists s2. split; [done|]. split; [|split].
    + intros i. rewrite N2. unfold name_at. rewrite H1. destruct (decide (i = file)); [|done].
      by destruct (store !! i).
    + intros i Hi. rewrite O2, H1, decide_False by set_solver. done.
    + cbn [map]. f_equal; [|done]. unfold source_id_at. rewrite O2, H1, decide_True by done. by rewrite Ef.
  - cbn [Z.eqb]. destruct (IH store next) as (s2 & -> & N2 & O2 & I2); try done; [lia| |].
    { intros i Hi. apply Hc. set_solver. }
    exists s2. split; [done|]. split; [done|]. split; [intros i Hi; apply O2; set_solver|].
    cbn [map]. f_equal; [|done]. unfold source_id_at. rewrite O2, Ef by done. cbn. by rewrite Hid.
Qed.

Lemma GetFiles_NoDup m : dump_wf m -> NoDup (GetFiles m).
Proof.
  intros [Hs Hn _ _ _ _]. apply NoDup_fmap_2_strong; [|by apply sorted_NoDup].
  intros [k1 i1] [k2 i2] H1 H2 E. apply Hn in H1, H2. cbn in *. congruence.
Qed.

(** The lines of the functions cite files of the store. *)
Definition cites_files (m : DumpModule) : Prop :=
  Forall (fun i => i < length (file_store m))%nat (cited_files (GetFunctions m)).

(** [m'] is [m] with the files numbered. *)
Record numbered (m m' : DumpModule) : Prop := {
  num_store : m' = with_files m (file_store m') (dump_files_ m);
  num_names i : name_at (file_store m') i = name_at (file_store m) i;
  num_ids : map (source_id_at (file_store m')) (GetFiles m) =
    map Some (numbers (fun i => bool_decide (i ∈ cited_files (GetFunctions m))) (GetFiles m) 0);
}.

Lemma AssignSourceIds_spec m :
  dump_wf m -> cites_files m -> Z.of_nat (length (dump_files_ m)) < 2 ^ 31 ->
  exists m', AssignSourceIds m = Ok m' /\ numbered m m'.
Proof.
  intros Hwf Hc Hlen. pose proof Hwf as [Hs Hn _ _ _ _]. unfold AssignSourceIds.
  assert (Forall (fun i => i < length (file_store m))%nat (GetFiles m)) as Hlt.
  { apply Forall_fmap, Forall_forall. intros p Hp. apply Hn in Hp.
    destruct (file_store m !! p.2) eqn:E; [|done]. by apply lookup_lt_Some in E. }
  destruct (set_source_ids_spec (GetFiles m) (-1) (file_store m) Hlt) as (s1 & -> & L1 & H1). cbn [obind].
  destruct (set_source_ids_spec (cited_files (GetFunctions m)) 0 s1) as (s2 & -> & L2 & H2); [by rewrite L1|].
  cbn [obind]. set (cited := fun i => bool_decide (i ∈ cited_files (GetFunctions m))).
  destruct (number_files_spec cited (GetFiles m) s2 0) as (s3 & -> & N3 & O3 & I3).
  - by apply GetFiles_NoDup.
  - done.
  - unfold GetFiles. rewrite length_map. lia.
  - intros i Hi. rewrite Forall_forall in Hlt. destruct (lookup_lt_is_Some_2 _ i (Hlt i Hi)) as [f Ef].
    unfold source_id_at, cited. rewrite H2, H1, Ef, (decide_True _ _ Hi).
    case_bool_decide as Hin; [by rewrite decide_True|by rewrite decide_False].
  - cbn [obind]. eexists. split; [done|]. split; [done| |done].
    intros i. cbn [file_store with_files]. rewrite N3. unfold name_at. rewrite H2, H1.
    destruct (decide _), (decide _); by destruct (file_store m !! i).
Qed.

Lemma numbered_wf m m' : dump_wf m -> numbered m m' -> dump_wf m'.
Proof.
  intros [Hs Hn Hf Hk He Hek] [E N _]. rewrite E. split; cbn; try done.
  intros p Hp. specialize (N p.2). unfold name_at in N. rewrite N. by apply Hn.
Qed.

Lemma set_source_id_names store file id store' :
  set_source_id store file id = Ok store' -> forall i, name_at store' i = name_at store i.
Proof.
  unfold set_source_id. destruct (store !! file) as [f|] eqn:Ef; [|done]. intros [= <-] i.
  unfold name_at. destruct (decide (i = file)) as [->|Hne]; [|by rewrite list_lookup_insert_ne].
  rewrite list_lookup_insert_eq by (by apply lookup_lt_Some in Ef). by rewrite Ef.
Qed.

Lemma set_source_ids_names files id : forall store store',
  set_source_ids store files id = Ok store' -> forall i, name_at store' i = name_at store i.
Proof.
  induction files as [|file files IH]; intros store store' E i; cbn [set_source_ids] in E; [by injection E as <-|].
  destruct (set_source_id store file id) as [s1|] eqn:E1; [|done]. cbn [obind] in E.
  rewrite (IH _ _ E). by apply (set_source_id_names _ _ _ _ E1).
Qed.

Lemma number_files_names files : forall store next store',
  number_files store files next = Ok store' -> forall i, name_at store' i = name_at store i.
Proof.
  induction files as [|file files IH]; intros store next store' E i; cbn [number_files] in E; [by injection E as <-|].
  destruct (store !! file) as [f|]; [|done]. cbn [of_option obind] in E.
  destruct (source_id f =? 0); [|by apply (IH _ _ _ E)].
  destruct (set_source_id store file next) as [s1|] eqn:E1; [|done]. cbn [obind] in E.
  destruct (_ <? _); [|done]. rewrite (IH _ _ _ E). by apply (set_source_id_names _ _ _ _ E1).
Qed.

Lemma AssignSourceIds_wf m m' : dump_wf m -> AssignSourceIds m = Ok m' -> dump_wf m'.
Proof.
  intros [Hs Hn ? ? ? ?]. unfold AssignSourceIds.
  destruct (set_source_ids (file_store m) _ _) as [s1|] eqn:E1; [|done]. cbn [obind].
  destruct (set_source_ids s1 _ _) as [s2|] eqn:E2; [|done]. cbn [obind].
  destruct (number_files s2 _ _) as [s3|] eqn:E3; [|done]. intros [= <-]. split; cbn; try done.
  intros p Hp. fold (name_at s3 p.2). rewrite (number_files_names _ _ _ _ E3), (set_source_ids_names _ _ _ _ E2),
    (set_source_ids_names _ _ _ _ E1). by apply Hn.
Qed.

Lemma FindFile_wf m name : dump_wf m -> dump_wf (FindFile m name).1.
Proof.
  intros Hm. destruct (FindFile_cases m name Hm) as [(file & _ & ->)|[Hn ->]]; [done|]. by apply added_file_wf.
Qed.

Lemma dump_step_wf m m' : dump_wf m -> dump_step m m' -> dump_wf m'.
Proof.
  intros Hm Hst. destruct Hst as [a _|rs|f m' E|e|e|name|m' E].
  - by destruct Hm.
  - by destruct Hm.
  - by apply (AddFunction_wf m f).
  - unfold AddStackFrameEntry. destruct (negb _); [done|]. by destruct Hm.
  - by apply AddExtern_wf.
  - by apply FindFile_wf.
  - by apply (AssignSourceIds_wf m).
Qed.

(** The extern a function at [address] replaces: the one at its address, or on
    ARM the one at the odd address above an even one. *)
Definition replaces (m : DumpModule) (address a : Z) : Prop :=
  is_Some (find_value (externs_ m) a) /\
  (a = address \/
   find_value (externs_ m) address = None /\ architecture_ m = str "arm" /\
   Z.land address 1 = 0 /\ a = Z.lor address 1).

Lemma replaced_extern_spec m address :
  dump_wf m ->
  (replaced_extern m address = length (externs_ m) /\ forall a, ~ replaces m address a) \/
  (exists a v, replaced_extern m address = find (externs_ m) a /\ find_value (externs_ m) a = Some v /\
     (find (externs_ m) a < length (externs_ m))%nat /\ forall a', replaces m address a' <-> a' = a).
Proof.
  intros [_ _ _ _ Hs _]. unfold replaced_extern, replaces. cbv zeta. rewrite find_end.
  destruct (find_value (externs_ m) address) as [v|] eqn:Ea.
  - right. exists address, v. cbn [andb]. split; [done|]. split; [done|].
    split; [apply (find_lookup _ _ _ Hs), lookup_lt_Some in Ea; done|].
    intros a'. split; [intros [_ [?|[? _]]]; done|]. intros ->. rewrite Ea. eauto.
  - cbn [andb]. destruct (bool_decide (architecture_ m = str "arm") && (Z.land address 1 =? 0)) eqn:Et.
    + apply andb_true_iff in Et as [Harm%bool_decide_eq_true Hev%Z.eqb_eq].
      destruct (find_value (externs_ m) (Z.lor address 1)) as [v|] eqn:Eo.
      * right. exists (Z.lor address 1), v. split; [done|]. split; [done|].
        split; [apply (find_lookup _ _ _ Hs), lookup_lt_Some in Eo; done|].
        intros a'. split; [intros [Ha [->|(_ & _ & _ & ->)]]; [by rewrite Ea in Ha; destruct Ha|done]|].
        intros ->. rewrite Eo. eauto 10.
      * left. split; [apply Nat.eqb_eq; by rewrite find_end, Eo|].
        intros a [Ha [->|(_ & _ & _ & ->)]]; [rewrite Ea in Ha|rewrite Eo in Ha]; by destruct Ha.
    + left. split; [apply Nat.eqb_eq; by rewrite find_end, Ea|].
      intros a [Ha [->|(_ & Harm & Hev & _)]]; [rewrite Ea in Ha; by destruct Ha|].
      rewrite bool_decide_true, Hev in Et by done. done.
Qed.

(** What each call does to the sets. *)
Definition file_found (m m' : DumpModule) (name : chars) (file : nat) : Prop :=
  name_at (file_store m') file = Some name /\ FindFile m' name = (m', file) /\
  forall other, FindExistingFile m' other =
    if decide (other = name) then Some file else FindExistingFile m other.

Definition function_added (m m' : DumpModule) (f : CodeFunction) : Prop :=
  (forall key, find_value (dump_functions_ m') key =
     if decide (key = function_key f) then Some (default f (find_value (dump_functions_ m) key))
     else find_value (dump_functions_ m) key) /\
  (forall a, (replaces m (code_entry f) a -> find_value (externs_ m') a = None) /\
     (~ replaces m (code_entry f) a -> find_value (externs_ m') a = find_value (externs_ m) a)).

Definition extern_added (m m' : DumpModule) (e : Extern) : Prop :=
  forall a, find_value (externs_ m') a =
    if decide (a = extern_address e) then Some (default e (find_value (externs_ m) a))
    else find_value (externs_ m) a.

Lemma FindFile_found m name : dump_wf m -> let (m', file) := FindFile m name in file_found m m' name file.
Proof.
  intros Hwf. pose proof Hwf as [Hs Hn _ _ _ _].
  destruct (FindFile_cases m name Hwf) as [(file & Hf & E)|[Hf E]]; rewrite E.
  - split; [|split; [done|]].
    + apply find_value_Some in Hf; [|done]. by apply Hn in Hf.
    + intros other. unfold FindExistingFile. case_decide as Ho; [by subst|done].
  - pose proof (added_file_wf m name Hwf Hf) as Hwf'.
    assert (find_value (dump_files_ (added_file m name)) name = Some (length (file_store m))) as Hf'.
    { cbn. rewrite (find_value_insert _ _ _ _) by done. by rewrite decide_True, Hf. }
    split; [|split].
    + unfold name_at. cbn. by rewrite lookup_app_r, Nat.sub_diag by lia.
    + destruct (FindFile_cases _ name Hwf') as [(file & Hfile & ->)|[Hnone _]]; congruence.
    + intros other. unfold FindExistingFile. cbn. rewrite (find_value_insert _ _ _ _) by done.
      case_decide as Ho; [by rewrite Hf|done].
Qed.

Lemma AddFunction_added m f :
  dump_wf m -> code_name f <> [] -> exists m', AddFunction m f = Ok m' /\
    if AddressIsInModule m (code_entry f) then function_added m m' f else m' = m.
Proof.
  intros Hwf Hn. pose proof Hwf as [_ _ Hs _ He _]. unfold AddFunction. rewrite bool_decide_false by done.
  destruct (AddressIsInModule m (code_entry f)); [|by exists m]. cbn [negb]. cbv zeta.
  eexists. split; [done|]. split.
  - intros key. cbn. rewrite (find_value_insert _ _ _ _) by done. by case_decide as Hk; [rewrite Hk|].
  - intros a. cbn.
    destruct (replaced_extern_spec m (code_entry f) Hwf) as [[-> Hno]|(k & v & -> & Hv & Hlt & Hk)].
    + rewrite Nat.eqb_refl. cbn [negb]. split; [|done]. intros Ha. by apply Hno in Ha.
    + rewrite (proj2 (Nat.eqb_neq _ _)) by lia. cbn [negb]. rewrite (find_value_erase _ k v _) by done.
      rewrite Hk. case_decide; tauto.
Qed.

Lemma AddExtern_added m e :
  dump_wf m ->
  if AddressIsInModule m (extern_address e) then extern_added m (AddExtern m e) e else AddExtern m e = m.
Proof.
  intros [_ _ _ _ He _]. unfold AddExtern. destruct (AddressIsInModule m (extern_address e)); [|done].
  cbn [negb]. intros a. cbn. rewrite (find_value_insert _ _ _ _) by done. by case_decide as Ha; [rewrite Ha|].
Qed.

Lemma reached_wf name os architecture id code_id m :
  rtc dump_step (new_dump_module name os architecture id code_id) m -> dump_wf m.
Proof.
  intros Hr. assert (dump_wf (new_dump_module name os architecture id code_id)) as Hwf
    by apply new_dump_module_wf.
  induction Hr as [m|m1 m2 m3 Hst _ IH]; [done|]. apply IH. by apply (dump_step_wf m1).
Qed.

(** ** Properties *)

(** C35: whatever a dumper adds to a module, in any order, and however often
    the source ids are assigned, its sets of files, functions and externs stay
    ordered and free of duplicates, their elements stay under their own keys,
    every file of the module has an object of its own that carries its name,
    and no function has an empty name. *)
Theorem DumpModule_invariant (name os architecture id code_id : chars) (m : DumpModule) :
  rtc dump_step (new_dump_module name os architecture id code_id) m -> dump_wf m.
Proof. apply reached_wf. Qed.

(** A module with two files, a function on ARM, an extern it replaces and one
    it does not. *)
Definition example_function (file : nat) : CodeFunction :=
  mkCodeFunction (str "main(int)") 0x1000 [mkAddressRange 0x1000 0x10; mkAddressRange 0x1100 8] 4
    [mkCodeLine 0x1000 8 file 7; mkCodeLine 0x1008 8 file 9; mkCodeLine 0x1100 8 file 12].

Definition example_entry : StackFrameEntry :=
  mkStackFrameEntry 0x1000 0x20 [(str ".cfa", str "$rsp 8 +"); (str ".ra", str ".cfa 8 - ^")]
    [(0x1004, [(str ".cfa", str "$rsp 16 +")])].

Definition example_collected : DumpModule :=
  let m := new_dump_module (str "a.out") (str "Linux") (str "arm") (str "D3096ED4") (str "abc") in
  let m := SetLoadAddress m 0x800 in
  let (m, b) := FindFile m (str "b.cc") in
  let (m, a) := FindFile m (str "a.cc") in
  let m := AddExtern m (mkExtern 0x1001 (str "main")) in
  let m := AddExtern m (mkExtern 0x3000 (str "start")) in
  let m := match AddFunction m (example_function b) with Ok m => m | Undef => m end in
  AddStackFrameEntry m example_entry.

Lemma example_collected_reached :
  rtc dump_step (new_dump_module (str "a.out") (str "Linux") (str "arm") (str "D3096ED4") (str "abc"))
    example_collected.
Proof.
  eapply rtc_l; [apply (step_load_address _ 0x800); split; reflexivity || discriminate|].
  eapply rtc_l; [apply (step_file _ (str "b.cc"))|].
  eapply rtc_l; [apply (step_file _ (str "a.cc"))|].
  eapply rtc_l; [apply (step_extern _ (mkExtern 0x1001 (str "main")))|].
  eapply rtc_l; [apply (step_extern _ (mkExtern 0x3000 (str "start")))|].
  eapply rtc_l; [eapply (step_function _ (example_function 0)); vm_compute; reflexivity|].
  eapply rtc_l; [apply (step_entry _ example_entry)|].
  vm_compute. apply rtc_refl.
Qed.

Lemma DumpModule_invariant_witness : dump_wf example_collected.
Proof.
  apply (DumpModule_invariant (str "a.out") (str "Linux") (str "arm") (str "D3096ED4") (str "abc")).
  exact example_collected_reached.
Defined.

(** [FindFile] returns the object of a name, the same one from then on,
    and keeps the objects of the other names; [AddFunction] adds a function
    with a name unless there is one with its address and name already, and
    removes the extern the function replaces and no other; [AddExtern] adds an
    extern unless there is one at its address; and functions and externs
    outside the module's address ranges are ignored. *)
Theorem collect_functional (m : DumpModule) (name : chars) (f : CodeFunction) (e : Extern) :
  dump_wf m -> code_name f <> [] ->
  (let (m', file) := FindFile m name in file_found m m' name file) /\
  (exists m', AddFunction m f = Ok m' /\
     if AddressIsInModule m (code_entry f) then function_added m m' f else m' = m) /\
  (if AddressIsInModule m (extern_address e) then extern_added m (AddExtern m e) e
   else AddExtern m e = m).
Proof.
  intros Hwf Hn. split; [by apply FindFile_found|].
  split; [by apply AddFunction_added|by apply AddExtern_added].
Qed.

Lemma collect_functional_witness :
  let m := new_dump_module (str "a.out") (str "Linux") (str "arm") (str "D3096ED4") [] in
  (let (m', file) := FindFile m (str "a.cc") in file_found m m' (str "a.cc") file) /\
  (exists m', AddFunction m (example_function 0) = Ok m' /\
     if AddressIsInModule m 0x1000 then function_added m m' (example_function 0) else m' = m) /\
  (if AddressIsInModule m 0x1001 then extern_added m (AddExtern m (mkExtern 0x1001 (str "x"))) (mkExtern 0x1001 (str "x"))
   else AddExtern m (mkExtern 0x1001 (str "x")) = m).
Proof.
  cbv zeta.
  apply (collect_functional (new_dump_module (str "a.out") (str "Linux") (str "arm") (str "D3096ED4") [])
           (str "a.cc") (example_function 0) (mkExtern 0x1001 (str "x"))).
  - apply new_dump_module_wf.
  - discriminate.
Defined.
