(* ===== verification/DumpLoad.v ===== *)
(** * From the dumper to the resolver

    The symbol file [google_breakpad::Module::Write] produces, loaded by
    [BasicSourceLineResolver::Module::LoadMapFromMemory]: the text of the one
    is cut into the lines of the other, every line reads back as the record it
    was written for, and the loaded module knows the files, functions, lines,
    public symbols and CFI rules that were dumped. *)

From S2P Require Import Prelude Memory LibcSupport SimpleSerializer OrderedMap AddressMap RangeMap ContainedRangeMap Tokens CStrings SymbolRecords SymbolModule SymbolParser SymbolText SymbolLoad SymbolDumper.
#[local] Open Scope Z_scope.

(** ** Numbers *)

(** The value of digits, the most significant first. *)
Definition from_digits (base : Z) (ds : list Z) (acc : Z) : Z := fold_left (fun v d => v * base + d) ds acc.

Definition digits_ok (base : Z) (ds : list Z) : Prop := ds <> [] /\ Forall (fun d => 0 <= d < base) ds.

Lemma put_digits_spec fuel base : 2 <= base -> forall v text,
  0 <= v < base ^ Z.of_nat (S fuel) ->
  exists ds, put_digits fuel base v text = map digit_char ds ++ text /\
    digits_ok base ds /\ from_digits base ds 0 = v.
Proof.
  intros Hb. induction fuel as [|fuel IH]; intros v text Hv; cbn [put_digits].
  - rewrite Z.pow_1_r in Hv. exists [v]. rewrite Z.mod_small by done. split; [done|].
    split; [split; [done|by constructor]|]. unfold from_digits. simpl. lia.
  - destruct (Z.ltb_spec v base) as [Hlt|Hge].
    + exists [v]. rewrite Z.mod_small by lia. split; [done|].
      split; [split; [done|constructor; [lia|done]]|]. unfold from_digits. simpl. lia.
    + destruct (IH (v / base) (digit_char (v mod base) :: text)) as (ds & -> & [Hne Hds] & Hval).
      { rewrite Nat2Z.inj_succ, Z.pow_succ_r in Hv by lia. split; [apply Z.div_pos; lia|].
        apply Z.div_lt_upper_bound; lia. }
      exists (ds ++ [v mod base]). rewrite map_app, <- app_assoc. split; [done|]. split.
      * split; [by destruct ds|]. apply Forall_app. split; [done|]. constructor; [|done].
        apply Z.mod_pos_bound. lia.
      * unfold from_digits in *. rewrite fold_left_app, Hval. simpl.
        pose proof (Z.div_mod v base). lia.
Qed.

Lemma put_number_spec base v :
  2 <= base -> uint 64 v ->
  exists ds, put_number base v = map digit_char ds /\ digits_ok base ds /\ from_digits base ds 0 = v.
Proof.
  intros Hb [Hv1 Hv2]. destruct (put_digits_spec 64 base Hb v []) as (ds & E & Hds); [|exists ds; by rewrite app_nil_r in E].
  split; [done|]. apply (Z.lt_le_trans _ (2 ^ 64)); [done|].
  apply (Z.le_trans _ (2 ^ Z.of_nat 65)); [done|]. apply Z.pow_le_mono_l. lia.
Qed.

Lemma digit_char_range d : 0 <= d < 16 -> 48 <= digit_char d <= 57 \/ 97 <= digit_char d <= 102.
Proof. unfold digit_char. destruct (Z.ltb_spec d 10); lia. Qed.

Lemma digit_digit_char base d : 0 <= d < base -> base <= 16 -> digit base (digit_char d) = Some d.
Proof.
  intros Hd Hb. unfold digit, hex_digit, digit_char. destruct (Z.ltb_spec d 10).
  - rewrite (proj2 (Z.leb_le 48 _)), (proj2 (Z.leb_le _ 57)) by lia. cbn [andb].
    replace (48 + d - 48) with d by lia. by rewrite (proj2 (Z.ltb_lt _ _)) by lia.
  - rewrite (proj2 (Z.leb_gt _ 57)) by lia. rewrite andb_false_r.
    rewrite (proj2 (Z.leb_le 97 _)), (proj2 (Z.leb_le _ 102)) by lia. cbn [andb].
    replace (87 + d - 97 + 10) with d by lia. by rewrite (proj2 (Z.ltb_lt _ _)) by lia.
Qed.

Lemma digits_value_digits base ds : base <= 16 -> Forall (fun d => 0 <= d < base) ds -> forall acc,
  digits_value base (map digit_char ds) acc = (from_digits base ds acc, []).
Proof.
  intros Hb. induction 1 as [|d ds Hd _ IH]; intros acc; [done|]. cbn [map digits_value].
  by rewrite digit_digit_char, IH by lia.
Qed.

Lemma scan_number_digits base ds :
  base <= 16 -> digits_ok base ds ->
  scan_number base (map digit_char ds) = Some (false, from_digits base ds 0, []).
Proof.
  intros Hb [Hne Hds]. destruct ds as [|d ds]; [done|]. pose proof Hds as [Hd Hds']%Forall_cons.
  unfold scan_number. cbn [map]. pose proof (digit_char_range d ltac:(lia)) as Hr.
  rewrite skip_separators_head.
  2: { unfold isspace. apply orb_false_iff. rewrite Z.eqb_neq, andb_false_iff, !Z.leb_gt. lia. }
  cbn [number_sign]. rewrite !(proj2 (Z.eqb_neq _ _)) by lia.
  assert (number_prefix base (digit_char d :: map digit_char ds) = digit_char d :: map digit_char ds) as ->.
  { unfold number_prefix. destruct ds as [|d1 [|d2 ds]]; try done. cbn [map].
    apply Forall_cons in Hds' as [Hd1 _]. pose proof (digit_char_range d1 ltac:(lia)).
    rewrite (proj2 (Z.eqb_neq (digit_char d1) 120)), (proj2 (Z.eqb_neq (digit_char d1) 88)) by lia.
    cbn [orb]. by rewrite andb_false_r. }
  cbn [map]. unfold is_digit_of. rewrite digit_digit_char by lia.
  change (digit_char d :: map digit_char ds) with (map digit_char (d :: ds)).
  by rewrite digits_value_digits.
Qed.

(** A written number reads back. *)
Lemma strtou_put w base v : 0 < w <= 64 -> 2 <= base <= 16 -> uint w v -> strtou w base (put_number base v) = (v, []).
Proof.
  intros Hw Hb Hv. assert (uint 64 v) as Hv64.
  { unfold uint in *. assert (2 ^ w <= 2 ^ 64) by (apply Z.pow_le_mono_r; lia). lia. }
  destruct (put_number_spec base v ltac:(lia) Hv64) as (ds & -> & Hds & Hval).
  unfold strtou. rewrite scan_number_digits, Hval by (done || lia). cbv iota beta.
  unfold uint in Hv. by rewrite (proj2 (Z.leb_gt _ _)) by lia.
Qed.

Lemma strtol_put w base v :
  0 < w <= 64 -> 2 <= base <= 16 -> 0 <= v < 2 ^ (w - 1) -> strtol w base (put_number base v) = (v, []).
Proof.
  intros Hw Hb Hv. assert (2 ^ (w - 1) <= 2 ^ 64) by (apply Z.pow_le_mono_r; lia).
  destruct (put_number_spec base v ltac:(lia)) as (ds & -> & Hds & Hval); [unfold uint; lia|].
  unfold strtol. rewrite scan_number_digits, Hval by (done || lia). cbv iota beta. f_equal. lia.
Qed.

Lemma parse_uint64_hex v : 0 <= v < 2 ^ 64 - 1 -> parse_uint64 (hex v) = Some v.
Proof.
  intros Hv. unfold parse_uint64, hex. rewrite strtou_put by (unfold uint; lia). cbn [IsValidAfterNumber negb orb].
  unfold ulonglong_max. by rewrite (proj2 (Z.eqb_neq _ _)) by lia.
Qed.

Lemma parse_nonnegative_put lw base v :
  32 <= lw <= 64 -> 2 <= base <= 16 -> 0 <= v < 2 ^ 31 - 1 ->
  parse_nonnegative lw base (put_number base v) = Some v.
Proof.
  intros Hw Hb Hv. assert (2 ^ 31 <= 2 ^ (lw - 1)) by (apply Z.pow_le_mono_r; lia).
  unfold parse_nonnegative, parse_long. rewrite strtol_put by lia. cbn [IsValidAfterNumber negb orb].
  unfold long_max. rewrite (proj2 (Z.eqb_neq _ _)) by lia. by rewrite (proj2 (Z.ltb_ge _ _)) by lia.
Qed.

Lemma put_int_nonneg v : 0 <= v -> put_int v = put_number 10 v.
Proof. intros Hv. unfold put_int. by rewrite (proj2 (Z.ltb_ge _ _)) by done. Qed.

(** ** Words and lines

    A word has no separator; the rest of a line has no end of line. *)
Definition word (s : chars) : Prop := s <> [] /\ Forall (fun c => kWhitespace c = false /\ c <> 0) s.
Definition plain (s : chars) : Prop := Forall (fun c => eol c = false /\ c <> 0) s.
Definition rest_of_line (s : chars) : Prop := s <> [] /\ plain s.

Lemma word_plain s : word s -> plain s.
Proof.
  intros [_ H]. eapply Forall_impl; [exact H|]. intros c [Hc Hn]. split; [|done].
  unfold kWhitespace, eol in *. by destruct (c =? 32).
Qed.

Lemma put_number_word base v : 2 <= base <= 16 -> uint 64 v -> word (put_number base v).
Proof.
  intros Hb Hv. destruct (put_number_spec base v ltac:(lia) Hv) as (ds & -> & [Hne Hds] & _).
  split; [by destruct ds|]. apply Forall_map. eapply Forall_impl; [exact Hds|]. intros d Hd. cbn in Hd |- *.
  pose proof (digit_char_range d ltac:(lia)). split; [|lia].
  unfold kWhitespace. rewrite !orb_false_iff, !Z.eqb_neq. lia.
Qed.

Lemma next_word s rest :
  word s -> next_token kWhitespace (s ++ str " " ++ rest) = Some (s, 32 :: rest).
Proof.
  intros [Hne Hs]. apply (next_token_word kWhitespace [] s (32 :: rest)); [done|done| |by intros c [= <-]].
  eapply Forall_impl; [exact Hs|]. by intros c [? _].
Qed.

Lemma next_rest s : rest_of_line s -> next_token eol s = Some (s, []).
Proof.
  intros [Hne Hs]. rewrite <- (app_nil_r s) at 1. apply (next_token_word eol [] s []); [done|done| |done].
  eapply Forall_impl; [exact Hs|]. by intros c [? _].
Qed.

(** The words [ts] separated by spaces, and what follows the last space. *)
Definition spaced (ts : list chars) (rest : chars) : chars :=
  fold_right (fun t s => t ++ str " " ++ s) rest ts.

Lemma first_tokens_spaced ts rest :
  Forall word ts -> first_tokens kWhitespace (length ts) (spaced ts rest) = Some (ts, rest).
Proof.
  induction 1 as [|t ts Ht _ IH]; [done|]. cbn [length first_tokens spaced fold_right].
  rewrite next_word by done. cbn [drop]. rewrite drop_0. fold (spaced ts rest). by rewrite IH.
Qed.

Lemma tokenize_spaced k ts rest :
  length ts = k -> Forall word ts -> rest_of_line rest ->
  tokenize_text k (spaced ts rest) = Some (ts ++ [rest]).
Proof.
  intros <- Hts Hr. unfold tokenize_text. rewrite first_tokens_spaced by done. by rewrite next_rest by done.
Qed.

Lemma plain_spaced ts rest : Forall word ts -> plain rest -> plain (spaced ts rest).
Proof.
  intros Hts Hr. induction Hts as [|t ts Ht _ IH]; [done|]. cbn [spaced fold_right]. apply Forall_app.
  split; [by apply word_plain|]. constructor; [done|]. exact IH.
Qed.

(** ** The lines that are written *)

Definition unlines (ls : list chars) : chars := concat (map (fun s => s ++ newline) ls).

Lemma unlines_app l1 l2 : unlines (l1 ++ l2) = unlines l1 ++ unlines l2.
Proof. unfold unlines. by rewrite map_app, concat_app. Qed.

Lemma all_tokens_unlines ls : Forall rest_of_line ls -> forall n,
  (length ls < n)%nat -> all_tokens eol n (unlines ls) = ls.
Proof.
  induction 1 as [|s ls [Hne Hs] _ IH]; intros [|n] Hn; simpl in Hn; try lia; [done|].
  cbn [all_tokens]. assert (next_token eol (unlines (s :: ls)) = Some (s, 10 :: unlines ls)) as ->.
  { unfold unlines. cbn [map concat]. rewrite <- app_assoc.
    apply (next_token_word eol [] s); [done|done| |by intros c [= <-]].
    eapply Forall_impl; [exact Hs|]. by intros c [? _]. }
  rewrite <- (all_tokens_drop eol n (10 :: unlines ls)) by by intros c [= <-]. cbn [drop]. rewrite drop_0.
  by rewrite IH by lia.
Qed.

Lemma length_unlines ls : (length ls <= length (unlines ls))%nat.
Proof.
  induction ls as [|s ls IH]; [done|]. unfold unlines in *. cbn [map concat].
  rewrite !length_app. simpl. lia.
Qed.

Lemma tokens_unlines ls : Forall rest_of_line ls -> tokens eol (unlines ls) = ls.
Proof.
  intros H. apply all_tokens_unlines; [done|]. pose proof (length_unlines ls). lia.
Qed.

Lemma unlines_no_nul ls : Forall rest_of_line ls -> no_nul (unlines ls).
Proof.
  intros H. apply Forall_concat, Forall_map. eapply Forall_impl; [exact H|]. intros s [_ Hs]. cbn.
  apply Forall_app. split; [|by constructor]. eapply Forall_impl; [exact Hs|]. by intros c [_ ?].
Qed.

Definition header_lines (m : DumpModule) : list chars :=
  (str "MODULE " ++ os_ m ++ str " " ++ architecture_ m ++ str " " ++ id_ m ++ str " " ++ name_ m) ::
  (if bool_decide (code_id_ m = []) then [] else [str "INFO CODE_ID " ++ code_id_ m]).

Definition file_line (id : Z) (name : chars) : chars := str "FILE " ++ spaced [put_int id] name.

(** The lines of a file: none unless it is cited. *)
Definition file_lines (m : DumpModule) (file : nat) : list chars :=
  match file_store m !! file with
  | Some f => if 0 <=? source_id f then [file_line (source_id f) (file_name f)] else []
  | None => []
  end.

Definition func_line (m : DumpModule) (func : CodeFunction) (range : AddressRange) : chars :=
  str "FUNC " ++ spaced [hex (relative m (range_address range)); hex (range_size range);
                         hex (code_parameter_size func)] (code_name func).

Definition id_of (m : DumpModule) (file : nat) : Z := default (-1) (source_id_at (file_store m) file).

Definition line_line (m : DumpModule) (line : CodeLine) : chars :=
  spaced [hex (relative m (code_address line)); hex (code_size line); put_int (code_number line)]
    (put_int (id_of m (code_file line))).

(** The ranges of a function with the lines written below each. *)
Fixpoint pieces_of (ranges : list AddressRange) (lines : list CodeLine) :
    list (AddressRange * list CodeLine) :=
  match ranges with
  | [] => []
  | range :: ranges =>
      let n := prefix_len (in_code_range range) lines in
      (range, take n lines) :: pieces_of ranges (drop n lines)
  end.

Abbreviation Piece := (CodeFunction * (AddressRange * list CodeLine))%type.

Definition function_pieces (func : CodeFunction) : list Piece :=
  map (pair func) (pieces_of (code_ranges func) (code_lines func)).

Definition piece_lines (m : DumpModule) (p : Piece) : list chars :=
  func_line m p.1 p.2.1 :: map (line_line m) p.2.2.

Definition all_pieces (m : DumpModule) : list Piece := concat (map function_pieces (GetFunctions m)).

Definition extern_line (m : DumpModule) (ext : Extern) : chars :=
  str "PUBLIC " ++ spaced [hex (relative m (extern_address ext)); str "0"] (extern_name ext).

Definition change_line (m : DumpModule) (delta : Z * CfiRules) : chars :=
  str "STACK CFI " ++ spaced [hex (relative m delta.1)] (WriteRuleMap delta.2).

Definition init_line (m : DumpModule) (entry : StackFrameEntry) : chars :=
  str "STACK CFI INIT " ++
  spaced [hex (relative m (entry_address entry)); hex (entry_size entry)] (WriteRuleMap (initial_rules entry)).

Definition entry_lines (m : DumpModule) (entry : StackFrameEntry) : list chars :=
  init_line m entry :: map (change_line m) (rule_changes entry).

Lemma unlines_one s : unlines [s] = s ++ newline.
Proof. unfold unlines. simpl. by rewrite app_nil_r. Qed.

Lemma unlines_cons s ls : unlines (s :: ls) = s ++ newline ++ unlines ls.
Proof. unfold unlines. cbn [map concat]. by rewrite <- app_assoc. Qed.

Lemma write_header_lines m : write_header m = unlines (header_lines m).
Proof.
  unfold write_header, header_lines. rewrite unlines_cons.
  case_bool_decide; [|rewrite unlines_one]; rewrite <- !app_assoc; reflexivity.
Qed.

Lemma write_file_lines m file :
  is_Some (file_store m !! file) -> write_file m file = Ok (unlines (file_lines m file)).
Proof.
  intros [f Ef]. unfold write_file, file_lines. rewrite Ef. cbn [of_option obind].
  destruct (0 <=? source_id f); [|done]. rewrite unlines_one. unfold file_line, spaced. cbn [fold_right].
  by rewrite <- !app_assoc.
Qed.

Lemma write_line_line m line :
  is_Some (file_store m !! code_file line) -> write_line m line = Ok (unlines [line_line m line]).
Proof.
  intros [f Ef]. unfold write_line, line_line, id_of, source_id_at. rewrite Ef. cbn [of_option obind].
  change (default (-1) (source_id <$> Some f)) with (source_id f). rewrite unlines_one. unfold spaced. cbn [fold_right]. by rewrite <- !app_assoc.
Qed.

Lemma write_lines_lines m range lines :
  Forall (fun line => is_Some (file_store m !! code_file line)) lines ->
  let n := prefix_len (in_code_range range) lines in
  write_lines m range lines = Ok (unlines (map (line_line m) (take n lines)), drop n lines).
Proof.
  cbv zeta. induction 1 as [|line lines Hl _ IH]; [done|]. cbn [write_lines prefix_len].
  destruct (in_code_range range line); [|done]. rewrite write_line_line by done. cbn [obind].
  rewrite IH. cbn [obind take drop map]. by rewrite <- unlines_app.
Qed.

Lemma write_ranges_lines m func ranges : forall lines,
  Forall (fun line => is_Some (file_store m !! code_file line)) lines ->
  write_ranges m func ranges lines =
    Ok (unlines (concat (map (piece_lines m) (map (pair func) (pieces_of ranges lines))))).
Proof.
  induction ranges as [|range ranges IH]; intros lines Hl; [done|]. cbn [write_ranges pieces_of].
  rewrite write_lines_lines by done. cbn [obind]. rewrite IH by by apply Forall_drop. cbn [obind].
  cbn [map concat]. rewrite unlines_app. unfold piece_lines at 2. cbn [fst snd]. rewrite unlines_cons.
  unfold func_line, spaced. cbn [fold_right]. by rewrite <- !app_assoc.
Qed.

Lemma write_extern_line m ext : write_extern m ext = unlines [extern_line m ext].
Proof. unfold write_extern, extern_line, spaced. rewrite unlines_one. cbn [fold_right]. by rewrite <- !app_assoc. Qed.

Lemma write_entry_lines m entry : write_entry m entry = unlines (entry_lines m entry).
Proof.
  unfold write_entry, entry_lines. rewrite unlines_cons.
  assert (concat (map (write_change m) (rule_changes entry)) =
          unlines (map (change_line m) (rule_changes entry))) as ->.
  { unfold unlines. rewrite map_map. f_equal. apply map_ext. intros delta.
    unfold write_change, change_line, spaced. cbn [fold_right]. by rewrite <- !app_assoc. }
  unfold init_line, spaced. cbn [fold_right]. by rewrite <- !app_assoc.
Qed.

Lemma write_all_lines {A} (write : A -> outcome chars) lines l :
  (forall x, x ∈ l -> write x = Ok (unlines (lines x))) ->
  write_all write l = Ok (unlines (concat (map lines l))).
Proof.
  induction l as [|x l IH]; intros H; [done|]. cbn [write_all map concat].
  rewrite (H x) by set_solver. cbn [obind]. rewrite IH by set_solver. cbn [obind]. by rewrite unlines_app.
Qed.

Lemma concat_unlines {A} (write : A -> chars) lines l :
  (forall x, write x = unlines (lines x)) -> concat (map write l) = unlines (concat (map lines l)).
Proof.
  intros H. induction l as [|x l IH]; [done|]. cbn [map concat]. by rewrite unlines_app, H, IH.
Qed.

(** ** Each line reads back as the record it was written for *)

Section lines.
Context (lw : Z) (Hlw : 32 <= lw <= 64).

Lemma put_number_neq base v s c :
  2 <= base <= 16 -> uint 64 v -> head s = Some c -> ~ (48 <= c <= 57 \/ 97 <= c <= 102) ->
  put_number base v <> s.
Proof.
  intros Hb Hv Hc Hr E. destruct (put_number_spec base v ltac:(lia) Hv) as (ds & E' & [Hne Hds] & _).
  rewrite <- E, E' in Hc. destruct ds as [|d ds]; [done|]. injection Hc as <-.
  apply Forall_cons in Hds as [Hd _]. apply Hr, digit_char_range. lia.
Qed.

Lemma hex_uint_word v : uint 64 v -> word (hex v).
Proof. apply put_number_word. lia. Qed.

Lemma hex_word v : 0 <= v < 2 ^ 64 - 1 -> word (hex v).
Proof. intros Hv. apply hex_uint_word. unfold uint. lia. Qed.

Lemma put_int_word v : 0 <= v < 2 ^ 31 - 1 -> word (put_int v).
Proof. intros Hv. rewrite put_int_nonneg by lia. apply put_number_word; [lia|unfold uint; lia]. Qed.

Lemma word_rest s : word s -> rest_of_line s.
Proof. intros Hs. split; [apply Hs|by apply word_plain]. Qed.

Lemma text_line_FILE x l : text_line lw (str "FILE " ++ x) l = Ok (checked (apply_file (file_text lw x) l)).
Proof. reflexivity. Qed.

Lemma text_file_line id name l :
  0 <= id < 2 ^ 31 - 1 -> rest_of_line name ->
  text_line lw (file_line id name) l = Ok (set_module l (add_file (module_ l) id name)).
Proof.
  intros Hid Hn. unfold file_line. rewrite text_line_FILE. unfold file_text.
  rewrite (tokenize_spaced _ [put_int id] name) by (done || by constructor; [apply put_int_word|]).
  cbn [fields_of app]. unfold file_fields. cbn [nth]. rewrite put_int_nonneg by lia.
  rewrite parse_nonnegative_put by lia. cbv zeta. destruct name; [by destruct Hn|]. done.
Qed.

(** The function a FUNC line makes. *)
Definition made_function (m : DumpModule) (func : CodeFunction) (range : AddressRange) : Function_ :=
  new_function (code_name func) (relative m (range_address range)) (range_size range)
    (code_parameter_size func) false.

Lemma text_line_FUNC x l :
  text_line lw (str "FUNC " ++ x) l =
    (let (func, l) := apply_function (function_text lw x) l in
     let l := set_cur_func l func in
     match func with None => Ok (LogParseError l) | Some func => store_function l func end).
Proof. reflexivity. Qed.

Definition range_in_bounds (m : DumpModule) (range : AddressRange) : Prop :=
  relative m (range_address range) < 2 ^ 64 - 1 /\ 0 <= range_size range < 2 ^ 64 - 1.

Lemma relative_uint m a : uint 64 (relative m a).
Proof. apply wrap_uint. lia. Qed.

Lemma text_func_line m func range l :
  range_in_bounds m range -> 0 <= code_parameter_size func < 2 ^ 31 - 1 -> rest_of_line (code_name func) ->
  text_line lw (func_line m func range) l =
    store_function
      (set_cur_func (set_heap l (heap_ l ++ [made_function m func range])) (Some (length (heap_ l))))
      (length (heap_ l)).
Proof.
  intros [Ha Hs] Hp Hn. pose proof (relative_uint m (range_address range)) as Hr. unfold uint in Hr.
  unfold func_line. rewrite text_line_FUNC. unfold function_text, optional_text.
  rewrite (tokenize_spaced 3 [_; _; _] (code_name func)); [|done|repeat constructor; apply hex_word; lia|done].
  cbn [app head]. rewrite bool_decide_false.
  2: { intros [= E]. by apply (put_number_neq 16 (relative m (range_address range)) (str "m") 109) in E; [|lia|unfold uint; lia|done|lia]. }
  cbn [fields_of]. unfold function_fields. cbv zeta. cbn [nth].
  rewrite bool_decide_false.
  2: { intros E. by apply (put_number_neq 16 (relative m (range_address range)) (str "m") 109) in E; [|lia|unfold uint; lia|done|lia]. }
  cbn [nth Nat.add]. rewrite !parse_uint64_hex by lia. unfold hex at 1.
  rewrite parse_nonnegative_put by lia. done.
Qed.

(** The line record a line makes. *)
Definition made_line (m : DumpModule) (line : CodeLine) : Line :=
  mkLine (relative m (code_address line)) (code_size line) (id_of m (code_file line)) (code_number line).

Definition line_in_bounds (m : DumpModule) (line : CodeLine) : Prop :=
  relative m (code_address line) < 2 ^ 64 - 1 /\ 0 <= code_size line < 2 ^ 64 - 1 /\
  0 <= code_number line < 2 ^ 31 - 1 /\ 0 <= id_of m (code_file line) < 2 ^ 31 - 1.

Lemma starts_with_no prefix c0 c s :
  head prefix = Some c0 -> head s = Some c -> c <> c0 -> starts_with prefix s = false.
Proof.
  intros Hp Hs Hne. destruct prefix as [|c1 prefix]; [done|]. injection Hp as ->.
  destruct s as [|c' s]; [done|]. injection Hs as ->.
  unfold starts_with. apply bool_decide_eq_false. intros [= ?]. done.
Qed.

Lemma text_code_line m line l func :
  line_in_bounds m line -> cur_func l = Some func ->
  text_line lw (line_line m line) l = store_line l func (made_line m line).
Proof.
  intros (Ha & Hs & Hn & Hid) Hc. pose proof (relative_uint m (code_address line)) as Hr. unfold uint in Hr.
  assert (exists c, head (line_line m line) = Some c /\ (48 <= c <= 57 \/ 97 <= c <= 102)) as (c & Hh & Hcr).
  { unfold line_line, spaced. cbn [fold_right].
    destruct (put_number_spec 16 (relative m (code_address line))) as (ds & E & [Hne Hds] & _); [lia|unfold uint; lia|].
    unfold hex at 1. rewrite E. destruct ds as [|d ds]; [done|]. eexists. split; [done|].
    apply Forall_cons in Hds as [Hd _]. by apply digit_char_range. }
  unfold text_line.
  rewrite (starts_with_no (str "FILE ") 70 c), (starts_with_no (str "STACK ") 83 c),
    (starts_with_no (str "FUNC ") 70 c), (starts_with_no (str "PUBLIC ") 80 c),
    (starts_with_no (str "MODULE ") 77 c), (starts_with_no (str "INFO ") 73 c) by (done || lia).
  rewrite Hc. unfold line_text, line_line.
  rewrite (tokenize_spaced 3 [_; _; _]); [|done|..].
  2: { repeat constructor; (apply hex_word || apply put_int_word); lia. }
  2: { by apply word_rest, put_int_word. }
  cbn [fields_of app]. unfold line_fields. cbn [nth]. rewrite !parse_uint64_hex by lia.
  rewrite !put_int_nonneg by lia.
  pose proof (parse_nonnegative_put lw 10 (code_number line) Hlw ltac:(lia) Hn) as Hpn.
  unfold parse_nonnegative in Hpn. destruct (parse_long lw 10 _) as [v|]; [|done].
  destruct (v <? 0) eqn:Ev; [done|]. injection Hpn as ->.
  rewrite parse_nonnegative_put by lia. cbn [apply_line].
  rewrite !swrap_small by (lia || (split; [lia|]; change (32 - 1) with 31; lia)). done.
Qed.

Definition extern_in_bounds (m : DumpModule) (ext : Extern) : Prop :=
  relative m (extern_address ext) < 2 ^ 64 - 1 /\ rest_of_line (extern_name ext).

Lemma text_line_PUBLIC x l :
  text_line lw (str "PUBLIC " ++ x) l = Ok (checked (apply_public (public_text lw x) (set_cur_func l None))).
Proof. reflexivity. Qed.

Lemma text_extern_line m ext l :
  extern_in_bounds m ext ->
  text_line lw (extern_line m ext) l =
    Ok (checked (apply_public (Some (false, relative m (extern_address ext), 0, extern_name ext))
                  (set_cur_func l None))).
Proof.
  intros [Ha Hn]. pose proof (relative_uint m (extern_address ext)) as Hr. unfold uint in Hr.
  unfold extern_line. rewrite text_line_PUBLIC. do 3 f_equal. unfold public_text, optional_text.
  rewrite (tokenize_spaced 2 [_; _] (extern_name ext)); [|done| |done].
  2: { constructor; [apply hex_word; lia|]. constructor; [|done].
       split; [done|]. apply (bool_decide_unpack _). vm_compute. exact I. }
  cbn [app head]. rewrite bool_decide_false.
  2: { intros [= E]. by apply (put_number_neq 16 (relative m (extern_address ext)) (str "m") 109) in E; [|lia|unfold uint; lia|done|lia]. }
  cbn [fields_of]. unfold public_fields. cbv zeta. cbn [nth].
  rewrite bool_decide_false.
  2: { intros E. by apply (put_number_neq 16 (relative m (extern_address ext)) (str "m") 109) in E; [|lia|unfold uint; lia|done|lia]. }
  cbn [nth Nat.add]. rewrite parse_uint64_hex by lia.
  change (str "0") with (put_number 16 0). by rewrite parse_nonnegative_put by lia.
Qed.

Definition init_in_bounds (m : DumpModule) (entry : StackFrameEntry) : Prop :=
  relative m (entry_address entry) < 2 ^ lw /\ uint lw (entry_size entry) /\
  rest_of_line (WriteRuleMap (initial_rules entry)).

Definition change_in_bounds (m : DumpModule) (delta : Z * CfiRules) : Prop :=
  relative m delta.1 < 2 ^ lw /\ rest_of_line (WriteRuleMap delta.2).

Lemma text_line_CFI x l :
  text_line lw (str "STACK CFI " ++ x) l = (let? r := apply_cfi lw (cfi_text x) l in Ok (checked r)).
Proof. reflexivity. Qed.

Lemma lw_uint64 v : uint lw v -> uint 64 v.
Proof.
  unfold uint. assert (2 ^ lw <= 2 ^ 64) by (apply Z.pow_le_mono_r; lia). lia.
Qed.

Lemma strtou_hex v : uint lw v -> (strtou lw 16 (hex v)).1 = v.
Proof. intros Hv. unfold hex. by rewrite strtou_put by (done || lia). Qed.

Lemma text_init_line m entry l :
  init_in_bounds m entry ->
  text_line lw (init_line m entry) l =
    (let? module := add_cfi_initial (module_ l) (relative m (entry_address entry)) (entry_size entry)
                      (WriteRuleMap (initial_rules entry)) in
     Ok (set_module l module)).
Proof.
  intros (Ha & Hs & Hr). pose proof (relative_uint m (entry_address entry)) as Hu. unfold uint in Hu.
  assert (uint lw (relative m (entry_address entry))) as Hua by (unfold uint; lia).
  pose proof (lw_uint64 _ Hua). pose proof (lw_uint64 _ Hs).
  unfold init_line. set (ts := [hex _; hex _]). set (rules := WriteRuleMap _).
  assert (cfi_text (str "INIT " ++ spaced ts rules) =
          Some (CFIInit (hex (relative m (entry_address entry))) (hex (entry_size entry)) rules)) as E.
  { unfold cfi_text. change (str "INIT " ++ spaced ts rules) with (str "INIT" ++ str " " ++ spaced ts rules).
    rewrite next_word by (split; [done|apply (bool_decide_unpack _); vm_compute; exact I]).
    rewrite bool_decide_true by done. cbn [drop]. rewrite drop_0.
    rewrite (first_tokens_spaced ts) by (repeat constructor; by apply hex_uint_word). unfold ts. cbv iota beta.
    by rewrite next_rest. }
  change (str "STACK CFI INIT " ++ spaced ts rules) with (str "STACK CFI " ++ str "INIT " ++ spaced ts rules).
  rewrite text_line_CFI, E. cbn [apply_cfi]. rewrite !strtou_hex by done.
  by destruct (add_cfi_initial _ _ _ _).
Qed.

Lemma text_change_line m delta l :
  change_in_bounds m delta ->
  text_line lw (change_line m delta) l =
    Ok (set_module l (add_cfi_delta (module_ l) (relative m delta.1) (WriteRuleMap delta.2))).
Proof.
  intros (Ha & Hr). pose proof (relative_uint m delta.1) as Hu. unfold uint in Hu.
  assert (uint lw (relative m delta.1)) as Hua by (unfold uint; lia). pose proof (lw_uint64 _ Hua) as Hu64.
  unfold change_line. rewrite text_line_CFI. unfold spaced. cbn [fold_right]. unfold cfi_text.
  rewrite next_word by by apply hex_uint_word. rewrite bool_decide_false.
  2: { intros E. by apply (put_number_neq 16 (relative m delta.1) (str "INIT") 73) in E; [|lia|done|done|lia]. }
  cbn [drop]. rewrite drop_0, next_rest by done. cbn [apply_cfi obind]. by rewrite strtou_hex.
Qed.

Lemma text_header_lines m l s : s ∈ header_lines m -> text_line lw s l = Ok l.
Proof.
  unfold header_lines. intros [->|Hs]%elem_of_cons; [reflexivity|].
  case_bool_decide; [set_solver|]. apply list_elem_of_singleton in Hs as ->. reflexivity.
Qed.
End lines.

(** ** The lines in order *)

Section run.
Context (lw : Z) (Hlw : 32 <= lw <= 64).

(** Every line is good. *)
Inductive clean_lines : list chars -> Loader -> Loader -> Prop :=
| clean_nil l : clean_lines [] l l
| clean_cons s ls l l1 l2 :
    text_line lw s l = Ok l1 -> num_errors l1 = 0 -> clean_lines ls l1 l2 -> clean_lines (s :: ls) l l2.

Lemma clean_app ls1 ls2 l l1 l2 : clean_lines ls1 l l1 -> clean_lines ls2 l1 l2 -> clean_lines (ls1 ++ ls2) l l2.
Proof. intros H1 H2. induction H1; [done|]. cbn [app]. by econstructor; [| |apply IHclean_lines]. Qed.

Lemma clean_text_lines ls l l' : clean_lines ls l l' -> text_lines lw ls l = Ok l'.
Proof.
  induction 1 as [|s ls l l1 l2 E H0 _ IH]; [done|]. cbn [text_lines]. rewrite E. cbn [obind].
  by rewrite H0.
Qed.

Lemma clean_same ls l : (forall s, s ∈ ls -> text_line lw s l = Ok l) -> num_errors l = 0 -> clean_lines ls l l.
Proof.
  intros H H0. induction ls as [|s ls IH]; [constructor|].
  apply (clean_cons _ _ _ l); [apply H; set_solver|done|]. apply IH. intros s' Hs'. apply H. set_solver.
Qed.

(** *** Files *)

Lemma insert_last {V} (files : list (Z * V)) k v : sorted (files ++ [(k, v)]) -> insert files k v = files ++ [(k, v)].
Proof.
  intros (H & _ & _)%sorted_app. rewrite <- (app_nil_r files) at 1. apply insert_fresh; [|constructor].
  apply Forall_forall. intros p Hp. apply (H p (k, v)); [done|set_solver].
Qed.

Lemma run_files recs : forall l,
  num_errors l = 0 -> sorted (files_ (module_ l) ++ recs) ->
  Forall (fun p => 0 <= p.1 < 2 ^ 31 - 1 /\ rest_of_line p.2) recs ->
  clean_lines (map (fun p => file_line p.1 p.2) recs) l
    (set_module l (set_files (module_ l) (files_ (module_ l) ++ recs))).
Proof.
  induction recs as [|[id name] recs IH]; intros l H0 Hs Hr.
  - rewrite app_nil_r. destruct l as [b m h c n]. destruct m. constructor.
  - apply Forall_cons in Hr as [[Hid Hn] Hr]. cbn [map fst snd] in *.
    set (l1 := set_module l (add_file (module_ l) id name)).
    assert (files_ (module_ l1) = files_ (module_ l) ++ [(id, name)]) as Ef.
    { unfold l1, add_file. cbn. rewrite swrap_small by (lia || (split; [lia|]; change (32 - 1) with 31; lia)).
      apply insert_last. change ((id, name) :: recs) with ([(id, name)] ++ recs) in Hs. rewrite app_assoc in Hs.
      by apply sorted_app in Hs as (_ & ? & _). }
    apply (clean_cons _ _ _ l1); [by apply text_file_line|done|].
    specialize (IH l1). rewrite Ef, <- app_assoc in IH. by apply IH.
Qed.

(** *** Functions and their lines *)

(** [r1] ends before [r2] starts, or the other way round. *)
Definition apart (r1 r2 : Z * Z) : Prop := r1.1 + r1.2 <= r2.1 \/ r2.1 + r2.2 <= r1.1.

Definition in_bounds (r : Z * Z) : Prop := 0 <= r.1 /\ 0 < r.2 < 2 ^ 64 - 1 /\ r.1 + r.2 <= 2 ^ 64.

(** Inside a range that does not wrap, addresses keep their distance. *)
Lemma relative_offset m addr size a :
  in_bounds (relative m addr, size) -> 0 <= a - addr < size ->
  relative m a = relative m addr + (a - addr).
Proof.
  intros (Hb1 & _ & Hb2) Ha. cbn [fst snd] in *. unfold relative in *.
  replace (a - load_address_ m) with ((addr - load_address_ m) + (a - addr)) by lia.
  rewrite <- wrap_add_l. apply wrap_small. unfold uint. lia.
Qed.

Definition range_entry {E} (r : Z * Z) (e : E) : Z * Range E := (r.1 + r.2 - 1, mkRange r.1 0 e).

(** A range map that holds exactly the ranges [rs]. *)
Definition holds_ranges {E} (rm : RangeMap E) (rs : list (Z * Range E)) : Prop :=
  merge_strategy_ rm = kExclusiveRanges /\ RangeMap.wf 64 (map_ rm) /\ Permutation (map_ rm) rs.

Lemma holds_ranges_empty {E} : holds_ranges (@empty_range_map E) [].
Proof. split; [done|]. split; [apply RangeMap.wf_nil|done]. Qed.

Lemma holds_ranges_store {E} (dflt : E) rm rs r e :
  holds_ranges rm rs -> in_bounds r ->
  (forall p, p ∈ rs -> exists r' e', p = range_entry r' e' /\ apart r' r) ->
  exists rm', RangeMap.StoreRange 64 dflt rm r.1 r.2 e = Ok (true, rm') /\
    holds_ranges rm' (range_entry r e :: rs).
Proof.
  intros (Hx & Hwf & HP) (Hb & Hs & He) Hap.
  destruct (StoreRange_apart 64 dflt rm r.1 r.2 e Hwf Hb) as (m' & Est & Hwf' & HP');
    [split; lia|lia| |].
  - intros p Hp. rewrite HP in Hp. destruct (Hap p Hp) as (r' & e' & -> & Ha). unfold apart, range_entry in *.
    simpl. lia.
  - rewrite Est, Hx. eexists. split; [done|]. split; [done|]. split; [done|]. cbn [map_]. rewrite HP'. by constructor.
Qed.

Definition line_range (m : DumpModule) (line : CodeLine) : Z * Z :=
  (relative m (code_address line), code_size line).

Definition line_stored (m : DumpModule) (line : CodeLine) : Z * Range (option Line) :=
  range_entry (line_range m line) (Some (made_line m line)).

Definition with_lines (f : Function_) (lines : RangeMap (option Line)) : Function_ :=
  mkFunction (function_name f) (function_address f) (function_size f) (function_parameter_size f)
    (function_is_multiple f) lines.

Definition line_ok_for_dump (m : DumpModule) (line : CodeLine) : Prop :=
  line_in_bounds m line /\ in_bounds (line_range m line).

Lemma run_lines m ls : forall l n f rs,
  num_errors l = 0 -> cur_func l = Some n -> heap_ l !! n = Some f -> holds_ranges (lines f) rs ->
  Forall (line_ok_for_dump m) ls -> ForallOrdPairs apart (map (line_range m) ls) ->
  (forall p, p ∈ rs -> exists r' e', p = range_entry r' e' /\
     Forall (fun line => apart r' (line_range m line)) ls) ->
  exists rm, holds_ranges rm (rev (map (line_stored m) ls) ++ rs) /\
    clean_lines (map (line_line m) ls) l (set_heap l (<[n := with_lines f rm]> (heap_ l))).
Proof.
  induction ls as [|line ls IH]; intros l n f rs H0 Hc Hf Hrs Hok Hap Hrap.
  - exists (lines f). split; [done|]. cbn [map].
    assert (with_lines f (lines f) = f) as -> by by destruct f.
    rewrite list_insert_id by done. destruct l. constructor.
  - apply Forall_cons in Hok as [[Hlb Hib] Hok]. cbn [map] in Hap. inversion_clear Hap as [|? ? Hap1 Hap2].
    destruct (holds_ranges_store None (lines f) rs (line_range m line) (Some (made_line m line)) Hrs Hib)
      as (rm1 & E1 & Hrm1).
    { intros p Hp. destruct (Hrap p Hp) as (r' & e' & -> & [Ha _]%Forall_cons). eauto. }
    set (l1 := set_heap l (<[n := with_lines f rm1]> (heap_ l))).
    assert (n < length (heap_ l))%nat as Hn by by apply lookup_lt_Some in Hf.
    destruct (IH l1 n (with_lines f rm1) (line_stored m line :: rs)) as (rm & Hrm & Hcl); try done.
    + cbn. by rewrite list_lookup_insert_eq.
    + intros p [->|Hp]%elem_of_cons.
      * exists (line_range m line), (Some (made_line m line)). split; [done|].
        by rewrite Forall_map in Hap1.
      * destruct (Hrap p Hp) as (r' & e' & -> & [_ Ha]%Forall_cons). eauto.
    + exists rm. cbn [map rev]. rewrite <- app_assoc. split; [done|].
      apply (clean_cons _ _ _ l1); [|done|].
      * rewrite (text_code_line lw Hlw m line l n) by done. unfold store_line. rewrite Hf. cbn [of_option obind].
        change (line_address (made_line m line)) with (line_range m line).1.
        change (line_size (made_line m line)) with (line_range m line).2. by rewrite E1.
      * revert Hcl. unfold l1. cbn [heap_ set_heap]. rewrite list_insert_insert_eq. done.
Qed.

Lemma holds_ranges_perm {E} (rm : RangeMap E) rs rs' :
  holds_ranges rm rs -> Permutation rs rs' -> holds_ranges rm rs'.
Proof. intros (? & ? & ?) HP. split; [done|]. split; [done|]. by rewrite <- HP. Qed.

Definition piece_range (m : DumpModule) (p : Piece) : Z * Z :=
  (relative m (range_address p.2.1), range_size p.2.1).

(** The function of a piece, with its lines. *)
Definition dumped_function (m : DumpModule) (p : Piece) (f : Function_) : Prop :=
  exists rm, f = with_lines (made_function m p.1 p.2.1) rm /\ holds_ranges rm (map (line_stored m) p.2.2).

Record piece_ok (m : DumpModule) (p : Piece) : Prop := {
  piece_in_bounds : in_bounds (piece_range m p);
  piece_address : relative m (range_address p.2.1) < 2 ^ 64 - 1;
  piece_parameters : 0 <= code_parameter_size p.1 < 2 ^ 31 - 1;
  piece_name : rest_of_line (code_name p.1);
  piece_lines_ok : Forall (line_ok_for_dump m) p.2.2;
  piece_lines_apart : ForallOrdPairs apart (map (line_range m) p.2.2);
}.

Lemma run_piece m p l rs :
  num_errors l = 0 -> piece_ok m p -> holds_ranges (functions_ (module_ l)) rs ->
  (forall q, q ∈ rs -> exists r' e', q = range_entry r' e' /\ apart r' (piece_range m p)) ->
  exists l' f rm, clean_lines (piece_lines m p) l l' /\ num_errors l' = 0 /\ dumped_function m p f /\
    heap_ l' = heap_ l ++ [f] /\ module_ l' = set_functions (module_ l) rm /\
    holds_ranges rm (range_entry (piece_range m p) (Some (length (heap_ l))) :: rs).
Proof.
  intros H0 [Hb Ha Hp Hn Hl Hla] Hrs Hap. set (n := length (heap_ l)).
  set (f0 := made_function m p.1 p.2.1).
  set (l0 := set_cur_func (set_heap l (heap_ l ++ [f0])) (Some n)).
  assert (heap_ l0 !! n = Some f0) as Hf0 by (unfold l0, n; cbn; by rewrite lookup_app_r, Nat.sub_diag by lia).
  destruct (holds_ranges_store None (functions_ (module_ l)) rs (piece_range m p) (Some n) Hrs Hb Hap)
    as (rm & Erm & Hrm).
  set (l1 := set_module l0 (set_functions (module_ l0) rm)).
  destruct (run_lines m p.2.2 l1 n f0 []) as (lm & Hlm & Hcl); try done.
  { apply holds_ranges_empty. }
  { intros q Hq. by apply not_elem_of_nil in Hq. }
  eexists _, (with_lines f0 lm), rm. split; [|split; [|split; [|split; [|split]]]].
  - apply (clean_cons _ _ _ l1); [|done|exact Hcl].
    rewrite text_func_line; [|done|by split; [|destruct Hb as (_ & ? & _); simpl in *; lia]|done|done].
    fold n f0 l0. unfold store_function. rewrite Hf0. cbn [of_option obind].
    change (function_address f0) with (piece_range m p).1. change (function_size f0) with (piece_range m p).2.
    change (functions_ (module_ l0)) with (functions_ (module_ l)). by rewrite Erm.
  - done.
  - exists lm. split; [done|]. rewrite app_nil_r in Hlm. apply (holds_ranges_perm _ _ _ Hlm).
    by rewrite <- Permutation_rev.
  - cbn. unfold n. rewrite insert_app_r_alt by lia. by rewrite Nat.sub_diag.
  - done.
  - done.
Qed.

(** The entries of the pieces, whose functions are in the heap from [n] on. *)
Fixpoint piece_entries (m : DumpModule) (n : nat) (ps : list Piece) : list (Z * Range (option nat)) :=
  match ps with
  | [] => []
  | p :: ps => range_entry (piece_range m p) (Some n) :: piece_entries m (S n) ps
  end.

Lemma run_pieces m ps : forall l rs,
  num_errors l = 0 -> Forall (piece_ok m) ps -> ForallOrdPairs apart (map (piece_range m) ps) ->
  holds_ranges (functions_ (module_ l)) rs ->
  (forall q, q ∈ rs -> exists r' e', q = range_entry r' e' /\
     Forall (fun p => apart r' (piece_range m p)) ps) ->
  exists l' fs rm, clean_lines (concat (map (piece_lines m) ps)) l l' /\ num_errors l' = 0 /\
    Forall2 (dumped_function m) ps fs /\ heap_ l' = heap_ l ++ fs /\
    module_ l' = set_functions (module_ l) rm /\
    holds_ranges rm (piece_entries m (length (heap_ l)) ps ++ rs).
Proof.
  induction ps as [|p ps IH]; intros l rs H0 Hok Hap Hrs Hrap.
  - exists l, [], (functions_ (module_ l)). split; [constructor|]. split; [done|]. split; [constructor|].
    rewrite app_nil_r. split; [done|]. split; [by destruct (module_ l)|done].
  - apply Forall_cons in Hok as [Hp Hok]. cbn [map] in Hap. inversion_clear Hap as [|? ? Hap1 Hap2].
    destruct (run_piece m p l rs H0 Hp Hrs) as (l1 & f & rm1 & Hcl1 & H01 & Hf & Hh1 & Hm1 & Hrm1).
    { intros q Hq. destruct (Hrap q Hq) as (r' & e' & -> & [Ha _]%Forall_cons). eauto. }
    destruct (IH l1 (range_entry (piece_range m p) (Some (length (heap_ l))) :: rs))
      as (l2 & fs & rm2 & Hcl2 & H02 & Hfs & Hh2 & Hm2 & Hrm2); try done.
    + by rewrite Hm1.
    + intros q [->|Hq]%elem_of_cons.
      * exists (piece_range m p), (Some (length (heap_ l))). split; [done|]. by rewrite Forall_map in Hap1.
      * destruct (Hrap q Hq) as (r' & e' & -> & [_ Ha]%Forall_cons). eauto.
    + exists l2, (f :: fs), rm2. split; [by apply (clean_app _ _ _ l1)|]. split; [done|].
      split; [by constructor|]. split; [by rewrite Hh2, Hh1, <- app_assoc|].
      split; [by rewrite Hm2, Hm1|]. cbn [piece_entries]. apply (holds_ranges_perm _ _ _ Hrm2).
      rewrite Hh1, length_app. cbn [length]. rewrite Nat.add_1_r. by rewrite <- Permutation_middle.
Qed.

(** *** Public symbols *)

Definition dumped_symbol (m : DumpModule) (ext : Extern) : Z * option PublicSymbol :=
  (relative m (extern_address ext),
   Some (mkPublicSymbol (extern_name ext) (relative m (extern_address ext)) 0 false)).

(** Those that are kept: not the one at the load address. *)
Definition dumped_symbols (m : DumpModule) (exts : list Extern) : list (Z * option PublicSymbol) :=
  map (dumped_symbol m) (List.filter (fun ext => negb (relative m (extern_address ext) =? 0)) exts).

Lemma run_externs m exts : forall l symbols,
  num_errors l = 0 -> Forall (extern_in_bounds m) exts ->
  NoDup (map (fun ext => relative m (extern_address ext)) exts) ->
  sorted (public_symbols_ (module_ l)) -> Permutation (public_symbols_ (module_ l)) symbols ->
  (forall q ext, q ∈ symbols -> ext ∈ exts -> q.1 <> relative m (extern_address ext)) ->
  exists l' sm, clean_lines (map (extern_line m) exts) l l' /\ num_errors l' = 0 /\
    heap_ l' = heap_ l /\ module_ l' = set_public_symbols (module_ l) sm /\ sorted sm /\
    Permutation sm (rev (dumped_symbols m exts) ++ symbols).
Proof.
  induction exts as [|ext exts IH]; intros l symbols H0 Hok Hnd Hs HP Hne.
  - exists l, (public_symbols_ (module_ l)). split; [constructor|]. split; [done|]. split; [done|].
    split; [by destruct (module_ l)|]. done.
  - apply Forall_cons in Hok as [He Hok]. cbn [map] in Hnd. apply NoDup_cons in Hnd as [Hnin Hnd].
    pose proof (text_extern_line lw Hlw m ext l He) as Et. unfold apply_public, add_public_symbol in Et.
    cbn [map]. unfold dumped_symbols. cbn [List.filter].
    destruct (relative m (extern_address ext) =? 0) eqn:Ez; cbn [negb].
    + destruct (IH (set_module (set_cur_func l None) (module_ (set_cur_func l None))) symbols)
        as (l' & sm & Hcl & H0' & Hh & Hm & Hs' & HP'); try done.
      { intros q e Hq Hin. apply Hne; [done|set_solver]. }
      exists l', sm. split; [by apply (clean_cons _ _ _ _ _ Et)|]. done.
    + set (a := relative m (extern_address ext)) in *.
      assert (find_value (public_symbols_ (module_ l)) a = None) as Hnone.
      { apply find_value_None; [done|]. intros v Hv. rewrite HP in Hv. by apply (Hne (a, v) ext Hv ltac:(set_solver)). }
      change (module_ (set_cur_func l None)) with (module_ l) in Et. unfold AddressMap.Store in Et.
      rewrite find_end, Hnone in Et. cbn [negb] in Et.
      set (sm1 := insert (public_symbols_ (module_ l)) a _) in Et.
      assert (sorted sm1) as Hs1 by by apply insert_sorted.
      assert (Permutation sm1 (dumped_symbol m ext :: symbols)) as HP1.
      { unfold sm1, insert. destruct (public_symbols_ (module_ l) !! find _ a) eqn:Ef.
        { apply find_None in Hnone. congruence. }
        rewrite <- Permutation_middle, take_drop. by rewrite HP. }
      destruct (IH (set_module (set_cur_func l None) (set_public_symbols (module_ l) sm1))
                  (dumped_symbol m ext :: symbols)) as (l' & sm & Hcl & H0' & Hh & Hm & Hs' & HP'); try done.
      { intros q e [->|Hq]%elem_of_cons Hin; [|apply Hne; [done|set_solver]]. cbn [dumped_symbol fst].
        intros E. apply Hnin. fold a in E. rewrite E.
        by apply (list_elem_of_fmap_2 (fun e => relative m (extern_address e))). }
      exists l', sm. split; [by apply (clean_cons _ _ _ _ _ Et)|]. split; [done|]. split; [done|].
      split; [by rewrite Hm|]. split; [done|]. rewrite HP'. cbn [map rev]. by rewrite <- app_assoc.
Qed.

(** *** CFI rules *)

Definition entry_range (m : DumpModule) (entry : StackFrameEntry) : Z * Z :=
  (relative m (entry_address entry), entry_size entry).

Definition entry_stored (m : DumpModule) (entry : StackFrameEntry) : Z * Range chars :=
  range_entry (entry_range m entry) (WriteRuleMap (initial_rules entry)).

(** The changes of an entry in order; a later one at the same address replaces
    it. *)
Definition apply_changes (m : DumpModule) (rules : list (Z * chars)) (changes : list (Z * CfiRules)) :
    list (Z * chars) :=
  fold_left (fun rules delta => assign rules (relative m delta.1) (WriteRuleMap delta.2)) changes rules.

Record entry_ok (m : DumpModule) (entry : StackFrameEntry) : Prop := {
  entry_init : init_in_bounds lw m entry;
  entry_in_bounds : in_bounds (entry_range m entry);
  entry_changes : Forall (change_in_bounds lw m) (rule_changes entry);
}.

Lemma run_changes m changes : forall l,
  num_errors l = 0 -> Forall (change_in_bounds lw m) changes ->
  clean_lines (map (change_line m) changes) l
    (set_module l (set_cfi_delta (module_ l) (apply_changes m (cfi_delta_rules_ (module_ l)) changes))).
Proof.
  induction changes as [|delta changes IH]; intros l H0 Hok.
  - destruct l as [b mo h c n]. destruct mo. constructor.
  - apply Forall_cons in Hok as [Hd Hok]. cbn [map].
    apply (clean_cons _ _ _ _ _ (text_change_line lw Hlw m delta l Hd)); [done|].
    by apply (IH (set_module l (add_cfi_delta (module_ l) (relative m delta.1) (WriteRuleMap delta.2)))).
Qed.

Lemma run_entries m entries : forall l rs,
  num_errors l = 0 -> Forall (entry_ok m) entries -> ForallOrdPairs apart (map (entry_range m) entries) ->
  holds_ranges (cfi_initial_rules_ (module_ l)) rs ->
  (forall q, q ∈ rs -> exists r' e', q = range_entry r' e' /\
     Forall (fun entry => apart r' (entry_range m entry)) entries) ->
  exists l' rm, clean_lines (concat (map (entry_lines m) entries)) l l' /\ num_errors l' = 0 /\
    heap_ l' = heap_ l /\ holds_ranges rm (rev (map (entry_stored m) entries) ++ rs) /\
    module_ l' = set_cfi_delta (set_cfi_initial (module_ l) rm)
      (apply_changes m (cfi_delta_rules_ (module_ l)) (concat (map rule_changes entries))).
Proof.
  induction entries as [|entry entries IH]; intros l rs H0 Hok Hap Hrs Hrap.
  - exists l, (cfi_initial_rules_ (module_ l)). split; [constructor|]. split; [done|]. split; [done|].
    split; [done|]. by destruct (module_ l).
  - apply Forall_cons in Hok as [[Hi Hb Hc] Hok]. cbn [map] in Hap. inversion_clear Hap as [|? ? Hap1 Hap2].
    destruct (holds_ranges_store [] (cfi_initial_rules_ (module_ l)) rs (entry_range m entry)
                (WriteRuleMap (initial_rules entry)) Hrs Hb) as (rm1 & E1 & Hrm1).
    { intros q Hq. destruct (Hrap q Hq) as (r' & e' & -> & [Ha _]%Forall_cons). eauto. }
    pose proof (text_init_line lw Hlw m entry l Hi) as Et. unfold add_cfi_initial in Et.
    change (relative m (entry_address entry)) with (entry_range m entry).1 in Et.
    change (entry_size entry) with (entry_range m entry).2 in Et. rewrite E1 in Et. cbn [obind] in Et.
    set (l1 := set_module l (set_cfi_initial (module_ l) rm1)) in Et.
    pose proof (run_changes m (rule_changes entry) l1 H0 Hc) as Hcl1.
    set (l2 := set_module l1 _) in Hcl1.
    destruct (IH l2 (entry_stored m entry :: rs)) as (l' & rm & Hcl & H0' & Hh & Hrm & Hm); try done.
    + intros q [->|Hq]%elem_of_cons.
      * exists (entry_range m entry), (WriteRuleMap (initial_rules entry)). split; [done|].
        by rewrite Forall_map in Hap1.
      * destruct (Hrap q Hq) as (r' & e' & -> & [_ Ha]%Forall_cons). eauto.
    + exists l', rm. split; [|split; [done|split; [done|split]]].
      * cbn [map concat]. apply (clean_app _ _ _ l2); [|done]. by apply (clean_cons _ _ _ l1).
      * cbn [map rev]. by rewrite <- app_assoc.
      * rewrite Hm. cbn [map concat]. unfold apply_changes. by rewrite fold_left_app.
Qed.
End run.

(** ** A whole module *)

(** The files that are written, with their ids. *)
Definition file_records (m : DumpModule) (file : nat) : list (Z * chars) :=
  match file_store m !! file with
  | Some f => if 0 <=? source_id f then [(source_id f, file_name f)] else []
  | None => []
  end.

Definition dumped_files (m : DumpModule) : list (Z * chars) := concat (map (file_records m) (GetFiles m)).

Lemma file_lines_records m files :
  concat (map (file_lines m) files) = map (fun p => file_line p.1 p.2) (concat (map (file_records m) files)).
Proof.
  induction files as [|file files IH]; [done|]. cbn [map concat]. rewrite map_app, <- IH. f_equal.
  unfold file_lines, file_records. destruct (file_store m !! file) as [f|]; [|done].
  by destruct (0 <=? source_id f).
Qed.

(** The ids increase from [next] on. *)
Lemma file_records_sorted m cited files : forall next,
  0 <= next -> map (source_id_at (file_store m)) files = map Some (numbers cited files next) ->
  sorted (concat (map (file_records m) files)) /\
  forall p, p ∈ concat (map (file_records m) files) -> next <= p.1 < next + Z.of_nat (length files).
Proof.
  induction files as [|file files IH]; intros next Hn E; cbn [map concat numbers length] in *.
  { split; [constructor|]. intros p Hp. by apply not_elem_of_nil in Hp. }
  destruct (cited file); injection E as Ef E; unfold source_id_at in Ef;
    destruct (file_store m !! file) as [f|] eqn:Es; try done; injection Ef as Ef;
    unfold file_records at 1 3; rewrite Es, Ef.
  - rewrite (proj2 (Z.leb_le 0 next)) by done. destruct (IH (next + 1) ltac:(lia) E) as [Hs Hb].
    cbn [app]. split.
    + apply sorted_cons. split; [|done]. apply Forall_forall. intros p Hp. apply Hb in Hp.
      rewrite Z_key_lt. apply Z.ltb_lt. simpl. lia.
    + intros p [->|Hp]%elem_of_cons; [simpl; lia|]. apply Hb in Hp. lia.
  - cbn [Z.leb Z.compare app]. destruct (IH next Hn E) as [Hs Hb]. split; [done|].
    intros p Hp. apply Hb in Hp. lia.
Qed.

(** The module can be written so that it reads back: the names are non-empty
    and stay on their line, every cited file is in the module, the numbers fit
    the parser, and the ranges of the functions, of the lines of each, and of
    the CFI entries do not overlap. *)
Definition line_ready (m : DumpModule) (line : CodeLine) : Prop :=
  relative m (code_address line) < 2 ^ 64 - 1 /\ 0 <= code_number line < 2 ^ 31 - 1 /\
  in_bounds (line_range m line).

Record piece_ready (m : DumpModule) (p : Piece) : Prop := {
  ready_in_bounds : in_bounds (piece_range m p);
  ready_address : relative m (range_address p.2.1) < 2 ^ 64 - 1;
  ready_parameters : 0 <= code_parameter_size p.1 < 2 ^ 31 - 1;
  ready_name : rest_of_line (code_name p.1);
  ready_lines : Forall (line_ready m) p.2.2;
  ready_lines_apart : ForallOrdPairs apart (map (line_range m) p.2.2);
}.

Record dump_ready (lw : Z) (m : DumpModule) : Prop := {
  ready_wf : dump_wf m;
  ready_header : Forall plain [os_ m; architecture_ m; id_ m; name_ m; code_id_ m];
  ready_files : Forall (fun p => rest_of_line p.1) (dump_files_ m) /\
    Z.of_nat (length (dump_files_ m)) < 2 ^ 31 - 1;
  ready_cited : Forall (fun file => file ∈ GetFiles m) (cited_files (GetFunctions m));
  ready_pieces : Forall (piece_ready m) (all_pieces m) /\
    ForallOrdPairs apart (map (piece_range m) (all_pieces m));
  ready_externs : Forall (fun p => uint 64 (extern_address p.2) /\ extern_in_bounds m p.2) (externs_ m);
  ready_entries : Forall (entry_ok lw m) (stack_frame_entries_ m) /\
    ForallOrdPairs apart (map (entry_range m) (stack_frame_entries_ m));
}.

(** What the loaded module [b] knows of the dumped module [m]. *)
Record dumped (m : DumpModule) (b : BasicModule) : Prop := {
  dumped_good : is_corrupt_ b = false;
  dumped_files_are : files_ b = dumped_files m;
  dumped_functions_are : exists fs, Forall2 (dumped_function m) (all_pieces m) fs /\
    holds_ranges (functions_ b)
      (map (fun f => range_entry (function_address f, function_size f) (Some f)) fs);
  dumped_symbols_are : sorted (public_symbols_ b) /\
    Permutation (public_symbols_ b) (dumped_symbols m (GetExterns m));
  dumped_cfi_is : holds_ranges (cfi_initial_rules_ b) (map (entry_stored m) (stack_frame_entries_ m));
  dumped_changes_are : cfi_delta_rules_ b =
    apply_changes m [] (concat (map rule_changes (stack_frame_entries_ m)));
}.

Definition dump_lines (m : DumpModule) : list chars :=
  header_lines m ++ concat (map (file_lines m) (GetFiles m)) ++
  concat (map (piece_lines m) (all_pieces m)) ++
  map (extern_line m) (GetExterns m) ++ concat (map (entry_lines m) (stack_frame_entries_ m)).

(** *** What Write writes *)

Lemma write_functions_lines m funcs :
  Forall (fun i => is_Some (file_store m !! i)) (cited_files funcs) ->
  write_all (write_function m) funcs =
    Ok (unlines (concat (map (piece_lines m) (concat (map function_pieces funcs))))).
Proof.
  intros Hc. rewrite (write_all_lines _ (fun f => concat (map (piece_lines m) (function_pieces f)))).
  - do 2 f_equal. clear Hc. induction funcs as [|f funcs IH]; [done|]. cbn [map concat].
    by rewrite map_app, concat_app, IH.
  - intros f Hf. apply write_ranges_lines. rewrite Forall_forall in Hc. rewrite Forall_forall. intros line Hl. apply Hc.
    apply list_elem_of_In, in_concat. exists (map code_file (code_lines f)).
    split; [by apply (in_map (fun func => map code_file (code_lines func))), list_elem_of_In|].
    by apply (in_map code_file), list_elem_of_In.
Qed.

Lemma Write_lines lw m :
  dump_ready lw m -> exists m', Write m ALL_SYMBOL_DATA = Ok (m', unlines (dump_lines m')) /\ numbered m m'.
Proof.
  intros [Hwf _ [_ Hlen] Hc _ _ _]. pose proof Hwf as [Hs Hnames _ _ _ _].
  assert (forall i, i ∈ GetFiles m -> is_Some (file_store m !! i)) as Hget.
  { intros i (p & -> & Hp)%list_elem_of_fmap. apply Hnames in Hp. by destruct (file_store m !! p.2). }
  destruct (AssignSourceIds_spec m Hwf) as (m' & E & Hnum); [|lia|].
  { eapply Forall_impl; [exact Hc|]. intros i Hi. by apply lookup_lt_is_Some, Hget. }
  exists m'. split; [|done]. unfold Write. cbn [writes_symbols writes_cfi]. rewrite E. cbn [obind].
  destruct Hnum as [Em Hn _]. set (store := file_store m') in *. clearbody store.
  assert (forall i, i ∈ GetFiles m -> is_Some (store !! i)) as Hget'.
  { intros i Hi. specialize (Hn i). unfold name_at in Hn. destruct (Hget i Hi) as [f Ef]. rewrite Ef in Hn.
    by destruct (store !! i). }
  subst m'. set (m' := with_files m store (dump_files_ m)).
  rewrite (write_all_lines (write_file m') (file_lines m') (GetFiles m')).
  2: { intros i Hi. by apply write_file_lines, Hget'. }
  cbn [obind]. rewrite (write_functions_lines m' (GetFunctions m')).
  2: { eapply Forall_impl; [exact Hc|]. intros i Hi. by apply Hget'. }
  cbn [obind]. unfold dump_lines, all_pieces. rewrite !unlines_app.
  rewrite write_header_lines.
  rewrite (concat_unlines (write_extern m') (fun e => [extern_line m' e])) by apply write_extern_line.
  rewrite (concat_unlines (write_entry m') (entry_lines m')) by apply write_entry_lines.
  assert (concat (map (fun e => [extern_line m' e]) (GetExterns m')) = map (extern_line m') (GetExterns m')) as ->.
  { induction (GetExterns m') as [|e es IH]; [done|]. cbn [map concat app]. by rewrite IH. }
  by rewrite <- !app_assoc.
Qed.

(** *** The numbered module is ready too *)

Lemma plain_app s1 s2 : plain (s1 ++ s2) <-> plain s1 /\ plain s2.
Proof. apply Forall_app. Qed.

#[local] Instance plain_dec s : Decision (plain s).
Proof. unfold plain. apply _. Defined.

Ltac literal := apply (bool_decide_unpack _); vm_compute; exact I.

(** A line: a keyword and what follows it. *)
Lemma keyword_line s1 s2 : s1 <> [] -> plain s1 -> plain s2 -> rest_of_line (s1 ++ s2).
Proof. intros Hne H1 H2. split; [by destruct s1|]. by apply plain_app. Qed.

Lemma header_lines_plain m :
  Forall plain [os_ m; architecture_ m; id_ m; name_ m; code_id_ m] -> Forall rest_of_line (header_lines m).
Proof.
  intros [Ho [Ha [Hi [Hn [Hc _]%Forall_cons]%Forall_cons]%Forall_cons]%Forall_cons]%Forall_cons.
  assert (plain (str " ")) as Hsp by literal. unfold header_lines. constructor.
  - apply keyword_line; [done|literal|]. by rewrite !plain_app.
  - case_bool_decide; [constructor|]. constructor; [|constructor]. apply keyword_line; [done|literal|done].
Qed.

Section ready.
Context (lw : Z) (Hlw : 32 <= lw <= 64).

Lemma piece_lines_plain m p : piece_ok m p -> Forall rest_of_line (piece_lines m p).
Proof.
  intros [(Hb1 & Hb2 & Hb3) Ha Hp Hn Hl _]. constructor.
  - apply keyword_line; [done|literal|]. apply plain_spaced; [|apply Hn]. simpl in *.
    pose proof (relative_uint m (range_address p.2.1)) as Hu. unfold uint in Hu.
    repeat constructor; apply hex_word; lia.
  - apply Forall_map. eapply Forall_impl; [exact Hl|]. intros line [(H1 & H2 & H3 & H4) _].
    pose proof (relative_uint m (code_address line)) as Hu. unfold uint in Hu.
    assert (word (hex (relative m (code_address line)))) as Hw by (apply hex_word; lia).
    split.
    + unfold line_line, spaced. cbn [fold_right]. destruct Hw as [Hne _]. intros E. apply Hne. by apply app_nil in E as [? _].
    + apply plain_spaced; [|by apply word_plain, put_int_word].
      constructor; [done|]. constructor; [apply hex_word; lia|]. constructor; [by apply put_int_word|done].
Qed.

Lemma extern_line_plain m ext : extern_in_bounds m ext -> rest_of_line (extern_line m ext).
Proof.
  intros [Ha [_ Hn]]. pose proof (relative_uint m (extern_address ext)) as Hu. unfold uint in Hu.
  apply keyword_line; [done|literal|]. apply plain_spaced; [|done].
  constructor; [apply hex_word; lia|]. constructor; [|done]. split; [done|literal].
Qed.

Lemma entry_lines_plain m entry : entry_ok lw m entry -> Forall rest_of_line (entry_lines m entry).
Proof.
  intros [(H1 & H2 & [_ H3]) _ Hc]. constructor.
  - apply keyword_line; [done|literal|]. apply plain_spaced; [|done].
    constructor; [|constructor; [|done]]; apply hex_uint_word; [apply relative_uint|by apply (lw_uint64 lw Hlw)].
  - apply Forall_map. eapply Forall_impl; [exact Hc|]. intros delta [Hd [_ Hr]].
    apply keyword_line; [done|literal|]. apply plain_spaced; [|done]. constructor; [|done].
    apply hex_uint_word, relative_uint.
Qed.

Lemma pieces_of_lines ranges : forall lines p line,
  p ∈ pieces_of ranges lines -> line ∈ p.2 -> line ∈ lines.
Proof.
  induction ranges as [|range ranges IH]; intros lines p line Hp Hl; cbn [pieces_of] in Hp.
  - by apply not_elem_of_nil in Hp.
  - set (n := prefix_len _ _) in Hp. rewrite <- (take_drop n lines). apply elem_of_app.
    apply elem_of_cons in Hp as [->|Hp]; [by left|right]. by apply (IH _ p).
Qed.

Lemma all_pieces_cited m p line :
  p ∈ all_pieces m -> line ∈ p.2.2 -> code_file line ∈ cited_files (GetFunctions m).
Proof.
  intros Hp Hl. apply list_elem_of_In, in_concat in Hp as (ps & Hps & Hp).
  apply in_map_iff in Hps as (f & <- & Hf). apply in_map_iff in Hp as (q & <- & Hq). cbn [snd] in Hl.
  apply list_elem_of_In in Hq. apply list_elem_of_In, in_concat. exists (map code_file (code_lines f)).
  split; [by apply (in_map (fun func => map code_file (code_lines func)))|].
  apply in_map, list_elem_of_In. by apply (pieces_of_lines (code_ranges f) _ q).
Qed.

Lemma numbers_range cited files : forall next k v,
  0 <= next -> numbers cited files next !! k = Some v ->
  (v = -1 /\ forall i, files !! k = Some i -> cited i = false) \/ next <= v < next + Z.of_nat (length files).
Proof.
  induction files as [|file files IH]; intros next k v Hn Hk; [done|]. cbn [numbers length] in *.
  destruct (cited file) eqn:Ec; destruct k as [|k]; cbn in Hk.
  - injection Hk as <-. right. lia.
  - destruct (IH (next + 1) k v ltac:(lia) Hk) as [[-> H]|H]; [by left|right; lia].
  - injection Hk as <-. left. split; [done|]. by intros i [= <-].
  - destruct (IH _ _ _ Hn Hk) as [[-> H]|H]; [by left|right; lia].
Qed.

(** The ids of the cited files. *)
Lemma cited_id m m' file :
  numbered m m' -> file ∈ GetFiles m -> file ∈ cited_files (GetFunctions m) ->
  0 <= id_of m' file < Z.of_nat (length (dump_files_ m)).
Proof.
  intros [_ _ E] (k & Hk)%list_elem_of_lookup Hc. unfold id_of.
  assert (map (source_id_at (file_store m')) (GetFiles m) !! k = Some (source_id_at (file_store m') file)) as Hl.
  { change (map (source_id_at (file_store m')) (GetFiles m)) with (source_id_at (file_store m') <$> GetFiles m).
    by rewrite list_lookup_fmap, Hk. }
  rewrite E in Hl. change (map Some ?l) with (Some <$> l) in Hl. rewrite list_lookup_fmap in Hl.
  destruct (numbers _ (GetFiles m) 0 !! k) as [v|] eqn:Ev; [|done]. injection Hl as <-. cbn [default from_option].
  destruct (numbers_range _ _ _ _ _ (Z.le_refl 0) Ev) as [[_ H]|H].
  - specialize (H file Hk). by rewrite bool_decide_true in H.
  - unfold GetFiles in H. rewrite length_map in H. simpl. lia.
Qed.

(** What the run needs of the numbered module. *)
Record dump_ok (m : DumpModule) : Prop := {
  ok_header : Forall plain [os_ m; architecture_ m; id_ m; name_ m; code_id_ m];
  ok_files : Forall (fun p => 0 <= p.1 < 2 ^ 31 - 1 /\ rest_of_line p.2) (dumped_files m);
  ok_files_sorted : sorted (dumped_files m);
  ok_pieces : Forall (piece_ok m) (all_pieces m);
  ok_pieces_apart : ForallOrdPairs apart (map (piece_range m) (all_pieces m));
  ok_externs : Forall (extern_in_bounds m) (GetExterns m);
  ok_externs_NoDup : NoDup (map (fun ext => relative m (extern_address ext)) (GetExterns m));
  ok_entries : Forall (entry_ok lw m) (stack_frame_entries_ m);
  ok_entries_apart : ForallOrdPairs apart (map (entry_range m) (stack_frame_entries_ m));
}.

Lemma wrap_sub_inj a b c : uint 64 a -> uint 64 b -> wrap 64 (a - c) = wrap 64 (b - c) -> a = b.
Proof.
  intros Ha Hb E. rewrite <- (wrap_small 64 a), <- (wrap_small 64 b) by done.
  assert (wrap 64 (wrap 64 (a - c) + c) = wrap 64 (wrap 64 (b - c) + c)) as E2 by by rewrite E.
  rewrite !wrap_add_l in E2. by replace (a - c + c) with a in E2 by lia; replace (b - c + c) with b in E2 by lia.
Qed.

Lemma numbered_ok m m' : dump_ready lw m -> numbered m m' -> dump_ok m'.
Proof.
  intros [Hwf Hh [Hf Hlen] Hc [Hp Hpa] He [Hen Hea]] Hnum.
  assert (forall p, p ∈ all_pieces m -> piece_ok m' p) as Hpok.
  { intros p Hin. rewrite Forall_forall in Hp. destruct (Hp p Hin) as [H1 H2 H3 H4 H5 H6].
    pose proof (num_store _ _ Hnum) as Em. split; try done; try (by rewrite Em).
    rewrite Forall_forall in H5. apply Forall_forall. intros line Hl. destruct (H5 line Hl) as (Ha & Hn & Hb).
    pose proof (all_pieces_cited m p line Hin Hl) as Hcit.
    assert (code_file line ∈ GetFiles m) as Hget by (rewrite Forall_forall in Hc; by apply Hc).
    pose proof (cited_id m m' _ Hnum Hget Hcit) as Hid. destruct Hb as (Hb1 & Hb2 & Hb3). simpl in Hb2.
    split; [|by rewrite Em]. split; [by rewrite Em|]. split; [lia|]. split; [done|]. lia. }
  pose proof (num_store _ _ Hnum) as Em. pose proof (num_names _ _ Hnum) as Hn. pose proof (num_ids _ _ Hnum) as Hi.
  destruct (file_records_sorted m' _ (GetFiles m) 0 (Z.le_refl 0) Hi) as [Hs Hb].
  assert (dumped_files m' = concat (map (file_records m') (GetFiles m))) as Ed by (unfold dumped_files; by rewrite Em at 2).
  pose proof Hwf as [_ Hnames _ _ Hsx Hkx].
  split; rewrite ?Ed; try done; try (by rewrite Em).
  - apply Forall_forall. intros p Hin. pose proof (Hb p Hin) as Hbp. unfold GetFiles in Hbp. rewrite length_map in Hbp.
    split; [lia|]. apply list_elem_of_In, in_concat in Hin as (recs & Hrecs & Hin).
    apply in_map_iff in Hrecs as (i & <- & Hi0). apply list_elem_of_In in Hi0.
    apply list_elem_of_fmap in Hi0 as (q & -> & Hq). specialize (Hn q.2). rewrite Forall_forall in Hf.
    pose proof (Hf q Hq) as Hrest. apply Hnames in Hq. unfold name_at in Hn. rewrite Hq in Hn.
    unfold file_records in Hin. destruct (file_store m' !! q.2) as [f|]; [|done].
    cbn in Hn. injection Hn as Hn. destruct (0 <=? source_id f); [|done].
    destruct Hin as [<-|[]]. cbn [snd]. by rewrite Hn.
  - apply Forall_forall. intros p Hin. apply Hpok. by rewrite Em in Hin.
  - rewrite Em. apply Forall_fmap. eapply Forall_impl; [exact He|]. intros p [_ Hx]. exact Hx.
  - rewrite Em. unfold GetExterns. rewrite map_map.
    apply (NoDup_fmap_2_strong (fun p => relative m (extern_address p.2))).
    + intros p q Hpx Hqx E. rewrite Forall_forall in He. pose proof (proj1 (He p Hpx)). pose proof (proj1 (He q Hqx)).
      apply wrap_sub_inj in E; [|done..]. rewrite <- !Hkx in E by done.
      destruct p as [a e1], q as [b e2]. cbn [fst] in E. subst b. f_equal.
      by apply (sorted_unique (externs_ m) a).
    + by apply sorted_NoDup.
  - rewrite Em. eapply Forall_impl; [exact Hen|]. intros e []. by split.
Qed.
End ready.

(** *** Loading what was written *)

Lemma deref_entries m heap ps : forall n fs,
  Forall2 (dumped_function m) ps fs -> (forall k f, fs !! k = Some f -> heap !! (n + k)%nat = Some f) ->
  map_ (deref_ranges heap (mkRangeMap kExclusiveRanges (piece_entries m n ps))) =
    map (fun f => range_entry (function_address f, function_size f) (Some f)) fs.
Proof.
  unfold deref_ranges. cbn [map_]. induction ps as [|p ps IH]; intros n fs Hfs Hh.
  - by inversion_clear Hfs.
  - inversion_clear Hfs as [|? f ? fs' (rm & -> & _) Hfs']. cbn [piece_entries map]. csimpl. f_equal.
    + rewrite <- (Nat.add_0_r n), (Hh 0%nat _ eq_refl). done.
    + apply IH; [done|]. intros k f Hk. rewrite Nat.add_succ_comm. by apply (Hh (S k)).
Qed.

Lemma deref_holds m heap rm ps fs :
  holds_ranges rm (piece_entries m 0 ps) -> Forall2 (dumped_function m) ps fs -> heap = fs ->
  holds_ranges (deref_ranges heap rm)
    (map (fun f => range_entry (function_address f, function_size f) (Some f)) fs).
Proof.
  intros (Hx & Hwf & HP) Hfs ->. split; [done|]. split; [by apply deref_ranges_wf|].
  rewrite <- (deref_entries m fs ps 0 fs Hfs) by done. unfold deref_ranges. cbn [map_]. by rewrite HP.
Qed.

Section load.
Context (lw : Z) (Hlw : 32 <= lw <= 64).

Definition fresh_loader : Loader := mkLoader [] new_module [] None 0.

Lemma run_dump m :
  dump_ok lw m -> exists l', clean_lines lw (dump_lines m) fresh_loader l' /\ num_errors l' = 0 /\
    dumped m (deref_module (heap_ l') (set_corrupt (module_ l') false)).
Proof.
  intros [Hh Hf Hfs Hp Hpa He Hnd Hen Hea]. unfold dump_lines. rewrite file_lines_records.
  fold (dumped_files m).
  assert (clean_lines lw (header_lines m) fresh_loader fresh_loader) as H0.
  { apply clean_same; [done|intros s Hs|done]. by apply (text_header_lines lw Hlw m). }
  pose proof (run_files lw Hlw (dumped_files m) fresh_loader eq_refl Hfs Hf) as H1.
  set (l1 := set_module fresh_loader _) in H1.
  destruct (run_pieces lw Hlw m (all_pieces m) l1 []) as (l2 & fs & rm & H2 & E2 & Hfun & Hh2 & Hm2 & Hrm); try done.
  { apply holds_ranges_empty. }
  { intros q Hq. by apply not_elem_of_nil in Hq. }
  destruct (run_externs lw Hlw m (GetExterns m) l2 []) as (l3 & sm & H3 & E3 & Hh3 & Hm3 & Hsm & HPs); try done.
  { rewrite Hm2. apply SSorted_nil. }
  { by rewrite Hm2. }
  { intros q ext Hq. by apply not_elem_of_nil in Hq. }
  destruct (run_entries lw Hlw m (stack_frame_entries_ m) l3 []) as (l4 & cm & H4 & E4 & Hh4 & Hcm & Hm4); try done.
  { rewrite Hm3, Hm2. apply holds_ranges_empty. }
  { intros q Hq. by apply not_elem_of_nil in Hq. }
  exists l4. split; [|split; [done|]].
  { repeat (eapply clean_app; [eassumption|]). done. }
  assert (heap_ l4 = fs) as Eh by by rewrite Hh4, Hh3, Hh2.
  rewrite app_nil_r in HPs, Hcm, Hrm. rewrite Hm4, Hm3, Hm2. split; cbn; try done.
  - exists fs. split; [done|]. by apply (deref_holds m _ _ (all_pieces m)).
  - split; [done|]. by rewrite HPs, <- Permutation_rev.
  - apply (holds_ranges_perm _ _ _ Hcm). by rewrite <- Permutation_rev.
Qed.

Lemma clean_stack_goes_on ls l l' : clean_lines lw ls l l' -> Forall stack_goes_on ls.
Proof.
  induction 1 as [|s ls l l1 l2 E _ _ IH]; constructor; [|done]. intros Hst.
  assert (head s = Some 83) as Hhd.
  { apply starts_with_app in Hst as ->. done. }
  unfold text_line in E. rewrite (starts_with_no (str "FILE ") 70 83) in E by done. rewrite Hst in E.
  unfold text_stack in E. by destruct (stack_parts (drop 6 s)).
Qed.

Lemma dump_lines_plain m : dump_ok lw m -> Forall rest_of_line (dump_lines m).
Proof.
  intros [Hh Hf _ Hp _ He _ Hen _]. unfold dump_lines. rewrite file_lines_records. fold (dumped_files m).
  repeat (apply Forall_app; split).
  - by apply header_lines_plain.
  - apply Forall_map. eapply Forall_impl; [exact Hf|]. intros p [Hid [_ Hn]].
    apply keyword_line; [done|literal|]. apply plain_spaced; [|done]. constructor; [by apply put_int_word|done].
  - apply Forall_concat, Forall_map. eapply Forall_impl; [exact Hp|]. intros p. apply piece_lines_plain.
  - apply Forall_map. eapply Forall_impl; [exact He|]. intros e. apply extern_line_plain.
  - apply Forall_concat, Forall_map. eapply Forall_impl; [exact Hen|]. intros e. by apply (entry_lines_plain lw).
Qed.

Lemma map_no_nul s : no_nul s -> map (fun c => if c =? 0 then 95 else c) s = s.
Proof.
  induction 1 as [|c s Hc _ IH]; [done|]. cbn [map]. rewrite IH. by rewrite (proj2 (Z.eqb_neq c 0)).
Qed.

Lemma load_dump m :
  dump_ok lw m -> exists mod_ heap,
    Basic_LoadMapFromMemory lw new_module (unlines (dump_lines m) ++ replicate 0 0 ++ [0]) = Ok (mod_, heap) /\
    dumped m (deref_module heap mod_).
Proof.
  intros Hok. destruct (run_dump m Hok) as (l' & Hcl & E0 & Hd).
  pose proof (dump_lines_plain m Hok) as Hpl. pose proof (unlines_no_nul _ Hpl) as Hnn.
  assert (symbol_lines (unlines (dump_lines m)) = dump_lines m) as Hsl.
  { unfold symbol_lines. rewrite map_no_nul by done. by apply tokens_unlines. }
  exists (set_corrupt (module_ l') false), (heap_ l'). split; [|done]. rewrite load_buffer.
  - unfold load_text. fold (symbol_lines (unlines (dump_lines m))). rewrite Hsl. cbv zeta.
    rewrite bool_decide_false.
    2: { intros Hin. unfold no_nul in Hnn. rewrite Forall_forall in Hnn. by apply Hnn in Hin. }
    fold fresh_loader. rewrite (clean_text_lines lw _ _ _ Hcl). cbn [obind]. by rewrite E0.
  - intros Hl. rewrite last_lookup in Hl. unfold no_nul in Hnn. rewrite Forall_lookup in Hnn.
    by apply Hnn in Hl.
  - rewrite Hsl. by apply (clean_stack_goes_on _ _ _ Hcl).
Qed.
End load.

(** ** Properties *)

#[export] Instance rest_of_line_dec s : Decision (rest_of_line s).
Proof. unfold rest_of_line. apply _. Defined.

#[export] Instance in_bounds_dec r : Decision (in_bounds r).
Proof. unfold in_bounds. apply _. Defined.

#[export] Instance apart_dec r1 r2 : Decision (apart r1 r2).
Proof. unfold apart. apply _. Defined.

#[export] Instance line_ready_dec m line : Decision (line_ready m line).
Proof. unfold line_ready. apply _. Defined.

(** Discharges a side condition of [dump_ready] by computing it. *)
Ltac by_computation :=
  repeat (apply conj || apply Forall_cons || apply Forall_nil || apply FOP_nil || apply FOP_cons);
  try (apply (bool_decide_unpack _); vm_compute; exact I).

Lemma example_ready : dump_ready 64 example_collected.
Proof.
  split.
  - exact (reached_wf _ _ _ _ _ _ example_collected_reached).
  - by_computation.
  - by_computation.
  - by_computation.
  - change (all_pieces example_collected) with
      [(example_function 0, (mkAddressRange 0x1000 0x10, take 2 (code_lines (example_function 0))));
       (example_function 0, (mkAddressRange 0x1100 8, drop 2 (code_lines (example_function 0))))].
    split; [|by_computation].
    constructor; [|constructor; [|constructor]]; split; by_computation.
  - by_computation; unfold extern_in_bounds; by_computation.
  - split; [|by_computation]. constructor; [|constructor]. split; unfold init_in_bounds; by_computation.
Qed.

Lemma Write_Load (lw : Z) (m : DumpModule) :
  32 <= lw <= 64 -> dump_ready lw m ->
  exists m' text mod_ heap,
    Write m ALL_SYMBOL_DATA = Ok (m', text) /\ numbered m m' /\
    Basic_LoadMapFromMemory lw new_module (text ++ replicate 0 0 ++ [0]) = Ok (mod_, heap) /\
    dumped m' (deref_module heap mod_).
Proof.
  intros Hlw Hr. destruct (Write_lines lw m Hr) as (m' & E & Hn).
  destruct (load_dump lw Hlw m' (numbered_ok lw m m' Hr Hn)) as (mod_ & heap & El & Hd).
  by exists m', (unlines (dump_lines m')), mod_, heap.
Qed.

(** C1: the symbol file that [Write] produces for a module reads back: for
    every module with the invariant whose names stay on their line, whose
    numbers fit the parser and whose ranges do not overlap, [Write] returns,
    after numbering the cited files in the order of their names; and
    [LoadMapFromMemory] of its text finds no error and leaves a module with
    exactly the files that were cited, under their numbers, one function for
    every range of every function with the lines written below it, every
    extern that is not at the load address as a public symbol, every CFI entry
    as initial rules, and its changes, all at addresses relative to the load
    address. *)
Theorem Write_LoadMapFromMemory (lw : Z) (m : DumpModule) :
  32 <= lw <= 64 -> dump_ready lw m ->
  exists m' text mod_ heap,
    Write m ALL_SYMBOL_DATA = Ok (m', text) /\ numbered m m' /\
    Basic_LoadMapFromMemory lw new_module (text ++ replicate 0 0 ++ [0]) = Ok (mod_, heap) /\
    dumped m' (deref_module heap mod_).
Proof. apply Write_Load. Qed.

Lemma Write_LoadMapFromMemory_witness :
  exists m' text mod_ heap,
    Write example_collected ALL_SYMBOL_DATA = Ok (m', text) /\ numbered example_collected m' /\
    Basic_LoadMapFromMemory 64 new_module (text ++ replicate 0 0 ++ [0]) = Ok (mod_, heap) /\
    dumped m' (deref_module heap mod_).
Proof.
  apply (Write_LoadMapFromMemory 64 example_collected).
  - lia.
  - exact example_ready.
Defined.
