(* ===== verification/DwarfLineModule.v ===== *)
(** * Line numbers for a module (common/dwarf_line_to_module.h, dwarf_line_to_module.cc)

    [DwarfLineToModule] is the handler of line number programs that a dumper
    uses: it finds the files of a unit in its module and collects the lines.
    Its theorem says which file names and which lines come out: the lines of a
    sequence are kept or dropped together. *)

From S2P Require Import Prelude OrderedMap LibcSupport Tokens Memory ByteReader DwarfFields DwarfLine DwarfLineSpec SymbolDumper.
#[local] Open Scope Z_scope.

(** ** Paths *)

Definition slash : Z := 47.

Definition PathIsAbsolute (path : chars) : bool :=
  match path with c :: _ => c =? slash | [] => false end.

Definition HasTrailingSlash (path : chars) : bool :=
  match last path with Some c => c =? slash | None => false end.

Definition ExpandPath (path base : chars) : chars :=
  if PathIsAbsolute path || bool_decide (base = []) then path
  else base ++ (if HasTrailingSlash base then [] else [slash]) ++ path.

(** ** The handler *)

(** [files_] maps to pointers, [None] being NULL; the module is the one it
    points to. *)
Record DwarfLineToModule : Type := mkDwarfLineToModule {
  module_ : DumpModule;
  compilation_dir_ : chars;
  lines_ : list CodeLine;
  directories_ : list (Z * chars);
  files_ : list (Z * option nat);
  highest_file_number_ : Z;
  omitted_line_end_ : Z;
  warned_bad_file_number_ : bool;
  warned_bad_directory_number_ : bool;
}.

Definition new_line_handler (m : DumpModule) (compilation_dir : chars) (lines : list CodeLine) : DwarfLineToModule :=
  mkDwarfLineToModule m compilation_dir lines [] [] (-1) 0 false false.

Definition line_DefineDir (h : DwarfLineToModule) (name : chars) (dir_num : Z) : outcome DwarfLineToModule :=
  if negb (dir_num =? 0) then
    Ok (mkDwarfLineToModule (module_ h) (compilation_dir_ h) (lines_ h)
          (assign (directories_ h) dir_num (ExpandPath name (compilation_dir_ h))) (files_ h)
          (highest_file_number_ h) (omitted_line_end_ h) (warned_bad_file_number_ h)
          (warned_bad_directory_number_ h))
  else Ok h.

(** [file_num] and [highest_file_number_] after the numbering; the overflow of
    [++highest_file_number_] is undefined. *)
Definition number_file (h : DwarfLineToModule) (file_num : Z) : outcome (Z * Z) :=
  if file_num =? -1 then
    let highest := highest_file_number_ h + 1 in
    if highest <? 2 ^ 31 then Ok (highest, highest) else Undef
  else if highest_file_number_ h <? file_num then Ok (file_num, file_num)
  else Ok (file_num, highest_file_number_ h).

(** [dir_name] and whether the directory number was bad. *)
Definition directory_name (h : DwarfLineToModule) (dir_num : Z) : chars * bool :=
  if dir_num =? 0 then (compilation_dir_ h, false)
  else match find_value (directories_ h) dir_num with
       | Some name => (name, false)
       | None => ([], true)
       end.

Definition line_DefineFile (h : DwarfLineToModule) (name : chars) (file_num dir_num mod_time length : Z) :
    outcome DwarfLineToModule :=
  let? (file_num, highest) := number_file h file_num in
  let '(dir_name, bad) := directory_name h dir_num in
  let full_name := ExpandPath name dir_name in
  let '(m, file) := FindFile (module_ h) full_name in
  Ok (mkDwarfLineToModule m (compilation_dir_ h) (lines_ h) (directories_ h)
        (assign (files_ h) (wrap 32 file_num) (Some file)) highest (omitted_line_end_ h)
        (warned_bad_file_number_ h) (warned_bad_directory_number_ h || bad)).

Definition set_omitted (h : DwarfLineToModule) (omitted_line_end : Z) : DwarfLineToModule :=
  mkDwarfLineToModule (module_ h) (compilation_dir_ h) (lines_ h) (directories_ h) (files_ h)
    (highest_file_number_ h) omitted_line_end (warned_bad_file_number_ h) (warned_bad_directory_number_ h).

(** [files_[file_num]], which makes an entry for a new number. *)
Definition file_entry (h : DwarfLineToModule) (file_num : Z) : option nat * list (Z * option nat) :=
  match find_value (files_ h) file_num with
  | Some file => (file, files_ h)
  | None => (None, assign (files_ h) file_num None)
  end.

Definition line_AddLine (h : DwarfLineToModule) (address length file_num line_num column_num : Z) :
    outcome DwarfLineToModule :=
  if length =? 0 then Ok h
  else
    let length := if wrap 64 (address + length) <? address then wrap 64 (- address) else length in
    if (address =? 0) || (address =? omitted_line_end_ h) then Ok (set_omitted h (wrap 64 (address + length)))
    else
      let h := set_omitted h 0 in
      let '(file, files) := file_entry h file_num in
      match file with
      | None =>
          Ok (mkDwarfLineToModule (module_ h) (compilation_dir_ h) (lines_ h) (directories_ h) files
                (highest_file_number_ h) (omitted_line_end_ h) true (warned_bad_directory_number_ h))
      | Some file =>
          Ok (mkDwarfLineToModule (module_ h) (compilation_dir_ h)
                (lines_ h ++ [mkCodeLine address length file (swrap 32 line_num)]) (directories_ h) files
                (highest_file_number_ h) (omitted_line_end_ h) (warned_bad_file_number_ h)
                (warned_bad_directory_number_ h))
      end.

#[export] Instance line_to_module_handler : LineInfoHandler DwarfLineToModule := {
  DefineDir := line_DefineDir;
  DefineFile := line_DefineFile;
  AddLine := line_AddLine;
}.

(** ** The tables of a unit *)

(** The path of the directory [d] after the calls [cs] for directories: the
    compilation directory for 0, else the last directory of that number. *)
Fixpoint dir_path (comp : chars) (cs : list LineCall) (d : Z) : option chars :=
  match cs with
  | [] => if d =? 0 then Some comp else None
  | call_dir name n :: cs =>
      match dir_path comp cs d with
      | Some path => Some path
      | None => if n =? d then Some (ExpandPath name comp) else None
      end
  | _ :: cs => dir_path comp cs d
  end.

Definition is_dir (c : LineCall) : Prop := match c with call_dir _ _ => True | _ => False end.

Lemma dir_path_0 comp cs : Forall is_dir cs -> dir_path comp cs 0 = Some comp.
Proof. induction 1 as [|[] cs Hc _ IH]; cbn; [done| |done..]. by rewrite IH. Qed.

(** The full path of the file [n] after the calls [cs] for files. *)
Fixpoint file_path (dirs : Z -> option chars) (cs : list LineCall) (n : Z) : option chars :=
  match cs with
  | [] => None
  | call_file name i d _ _ :: cs =>
      match file_path dirs cs n with
      | Some path => Some path
      | None => if i =? n then Some (ExpandPath name (default [] (dirs d))) else None
      end
  | _ :: cs => file_path dirs cs n
  end.

(** The file a number stands for. *)
Definition file_of (h : DwarfLineToModule) (n : Z) : option nat := mjoin (find_value (files_ h) n).

(** [m'] is [m] with more files. *)
Record more_files (m m' : DumpModule) : Prop := {
  more_files_only : m' = with_files m (file_store m') (dump_files_ m');
  more_files_wf : dump_wf m -> dump_wf m';
  more_names i name : name_at (file_store m) i = Some name -> name_at (file_store m') i = Some name;
  more_files_kept i : i ∈ GetFiles m -> i ∈ GetFiles m';
}.

Lemma more_files_refl m : more_files m m.
Proof. split; try done. by destruct m. Qed.

Lemma more_files_trans m1 m2 m3 : more_files m1 m2 -> more_files m2 m3 -> more_files m1 m3.
Proof.
  intros [E1 W1 N1 K1] [E2 W2 N2 K2]. split; [|auto|auto|auto]. rewrite E2, E1. done.
Qed.

Lemma FindFile_more m name :
  dump_wf m -> let '(m', file) := FindFile m name in
  more_files m m' /\ name_at (file_store m') file = Some name /\ file ∈ GetFiles m'.
Proof.
  intros Hwf. pose proof (FindFile_found m name Hwf) as Hf.
  destruct (FindFile_cases m name Hwf) as [(file & Hv & E)|[Hv E]]; rewrite E in *; destruct Hf as (Hn & _ & _).
  - split; [apply more_files_refl|]. split; [done|]. apply find_value_Some in Hv; [|by destruct Hwf].
    unfold GetFiles. apply list_elem_of_fmap. by exists (name, file).
  - split; [|split; [done|]].
    + split; [done|by intros; apply added_file_wf| |].
      * intros i name' Hi. unfold name_at in *. cbn. destruct (file_store m !! i) as [f|] eqn:Ef; [|done].
        by rewrite (lookup_app_l_Some _ _ _ _ Ef).
      * intros i. unfold GetFiles. rewrite !list_elem_of_fmap. intros (p & -> & Hp). exists p. split; [done|].
        cbn. apply elem_of_insert; [by destruct Hwf|by right].
    + unfold GetFiles. apply list_elem_of_fmap. exists (name, length (file_store m)). split; [done|].
      cbn. apply find_value_Some; [apply insert_sorted; by destruct Hwf|].
      rewrite (find_value_insert _ _ _ _) by (by destruct Hwf). by rewrite decide_True, Hv.
Qed.

(** ** Directories and files *)

(** The tables are ordered and every file they name is a file of the module. *)
Record line_wf (h : DwarfLineToModule) : Prop := {
  lwf_dirs : sorted (directories_ h);
  lwf_files : sorted (files_ h);
  lwf_module : dump_wf (module_ h);
  lwf_known n f : file_of h n = Some f -> f ∈ GetFiles (module_ h);
}.

Definition known_dir (h : DwarfLineToModule) (d : Z) : option chars :=
  if d =? 0 then Some (compilation_dir_ h) else find_value (directories_ h) d.

Lemma directory_name_known h d : (directory_name h d).1 = default [] (known_dir h d).
Proof. unfold directory_name, known_dir. destruct (d =? 0); [done|]. by destruct (find_value _ _). Qed.

(** A file with a number of its own. *)
Definition is_file (c : LineCall) : Prop :=
  match c with call_file _ i _ _ _ => 0 <= i < 2 ^ 31 | _ => False end.

Lemma tell_dirs cs : forall h,
  Forall is_dir cs -> line_wf h ->
  exists h', tell h cs = Ok h' /\ line_wf h' /\ module_ h' = module_ h /\ compilation_dir_ h' = compilation_dir_ h /\
    lines_ h' = lines_ h /\ files_ h' = files_ h /\ omitted_line_end_ h' = omitted_line_end_ h /\
    forall d, known_dir h' d =
      match dir_path (compilation_dir_ h) cs d with Some path => Some path | None => known_dir h d end.
Proof.
  induction cs as [|[name n| |] cs IH]; intros h Hcs Hwf; [|apply Forall_cons in Hcs as [Hc Hcs]; try done..].
  { exists h. repeat (split; [done|]). intros d. cbn. unfold known_dir. by destruct (d =? 0). }
  cbn [tell call DefineDir line_to_module_handler]. unfold line_DefineDir. destruct (Z.eqb_spec n 0) as [->|Hn];
    cbn [negb obind].
  - destruct (IH h Hcs Hwf) as (h' & E & Hwf' & H1 & H2 & H3 & H4 & H5 & H6). exists h'.
    repeat (split; [done|]). intros d. rewrite H6. cbn [dir_path].
    destruct (dir_path _ cs d) eqn:Ed; [done|]. destruct (Z.eqb_spec 0 d) as [<-|]; [|done].
    by rewrite dir_path_0 in Ed.
  - match goal with |- context [tell ?x cs] => set (h1 := x) end.
    assert (line_wf h1) as Hwf1.
    { destruct Hwf as [Hd Hf Hm Hk]. split; try done. by apply assign_sorted. }
    destruct (IH h1 Hcs Hwf1) as (h' & E & Hwf' & H1 & H2 & H3 & H4 & H5 & H6). exists h'.
    repeat (split; [done|]). intros d. rewrite H6. cbn [dir_path]. change (compilation_dir_ h1) with (compilation_dir_ h).
    destruct (dir_path _ cs d) eqn:Ed; [done|]. unfold known_dir. cbn [compilation_dir_ directories_ h1].
    rewrite (find_value_assign _ _ _ _) by apply Hwf. destruct (Z.eqb_spec d 0) as [->|Hd].
    + by rewrite (proj2 (Z.eqb_neq n 0)).
    + destruct (Z.eqb_spec n d) as [<-|Hnd]; [by rewrite decide_True|by rewrite decide_False by congruence].
Qed.

(** One file. *)
Lemma DefineFile_spec h name i d mod_time len :
  line_wf h -> 0 <= i < 2 ^ 31 ->
  exists h' f, line_DefineFile h name i d mod_time len = Ok h' /\ line_wf h' /\
    more_files (module_ h) (module_ h') /\ compilation_dir_ h' = compilation_dir_ h /\ lines_ h' = lines_ h /\
    directories_ h' = directories_ h /\ omitted_line_end_ h' = omitted_line_end_ h /\
    name_at (file_store (module_ h')) f = Some (ExpandPath name (default [] (known_dir h d))) /\
    forall n, file_of h' n = if n =? i then Some f else file_of h n.
Proof.
  intros Hwf Hi. unfold line_DefineFile, number_file. rewrite (proj2 (Z.eqb_neq i (-1))) by lia.
  pose proof (directory_name_known h d) as Ed. destruct (directory_name h d) as [dir bad]. cbn [fst] in Ed.
  pose proof (FindFile_more (module_ h) (ExpandPath name dir) (lwf_module h Hwf)) as Hff.
  destruct (FindFile (module_ h) (ExpandPath name dir)) as [m f]. destruct Hff as (Hm & Hn & Hin).
  assert (exists highest, (if highest_file_number_ h <? i then Ok (i, i) else Ok (i, highest_file_number_ h)) =
    Ok (i, highest)) as (highest & ->) by (destruct (_ <? _); eauto).
  cbn [obind]. rewrite wrap_small by (unfold uint; lia). eexists _, f. split; [done|].
  assert (forall n, file_of (mkDwarfLineToModule m (compilation_dir_ h) (lines_ h) (directories_ h)
    (assign (files_ h) i (Some f)) highest (omitted_line_end_ h) (warned_bad_file_number_ h)
    (warned_bad_directory_number_ h || bad)) n = if n =? i then Some f else file_of h n) as Hfile.
  { intros n. unfold file_of. cbn [files_]. rewrite (find_value_assign _ _ _ _) by apply Hwf.
    destruct (Z.eqb_spec n i); [by rewrite decide_True|by rewrite decide_False]. }
  split.
  { destruct Hwf as [Hd Hf Hmod Hk]. split; [done|by apply assign_sorted|by apply Hm|]. intros n g. rewrite Hfile.
    destruct (n =? i); [by intros [= <-]|]. intros Hg. by eapply more_files_kept, Hk. }
  cbn. rewrite <- Ed. by repeat (split; [done|]).
Qed.

Lemma tell_files cs : forall h,
  Forall is_file cs -> line_wf h ->
  exists h', tell h cs = Ok h' /\ line_wf h' /\ more_files (module_ h) (module_ h') /\ lines_ h' = lines_ h /\
    omitted_line_end_ h' = omitted_line_end_ h /\
    forall n, match file_path (known_dir h) cs n with
              | Some path => exists f, file_of h' n = Some f /\ name_at (file_store (module_ h')) f = Some path
              | None => file_of h' n = file_of h n
              end.
Proof.
  induction cs as [|[|name i d time len|] cs IH]; intros h Hcs Hwf; [|apply Forall_cons in Hcs as [Hc Hcs]; try done..].
  { exists h. split; [done|]. split; [done|]. split; [apply more_files_refl|]. by repeat split. }
  destruct (DefineFile_spec h name i d time len Hwf Hc) as (h1 & f & E & Hwf1 & Hm1 & Hc1 & Hl1 & Hd1 & Ho1 & Hn1 & Hf1).
  destruct (IH h1 Hcs Hwf1) as (h' & E' & Hwf' & Hm & Hl & Ho & Hf). exists h'.
  cbn [tell call DefineFile line_to_module_handler]. rewrite E. cbn [obind]. split; [done|]. split; [done|].
  split; [by eapply more_files_trans|]. split; [congruence|]. split; [congruence|].
  intros n. specialize (Hf n). cbn [file_path].
  assert (forall k, known_dir h1 k = known_dir h k) as Hk by (intros k; unfold known_dir; by rewrite Hc1, Hd1).
  assert (forall cs, file_path (known_dir h1) cs n = file_path (known_dir h) cs n) as Hfp.
  { clear -Hk. induction cs as [|[] cs IH]; cbn; [done|done| |done]. rewrite IH. by rewrite Hk. }
  rewrite Hfp in Hf. destruct (file_path (known_dir h) cs n) as [path|]; [done|]. rewrite Hf, Hf1, (Z.eqb_sym n i).
  destruct (i =? n); [|done]. exists f. split; [done|]. by eapply more_names.
Qed.

(** ** Lines *)

(** A sequence of rows and the address behind it. *)
Record LineSequence : Type := mkLineSequence {
  seq_first : Row;
  seq_rest : list Row;
  seq_end : Z;
}.

Definition seq_entries (s : LineSequence) : list entry :=
  map entry_row (seq_first s :: seq_rest s) ++ [entry_end (seq_end s)].

Definition seq_start (s : LineSequence) : Z := row_address (seq_first s).

(** The addresses go up. *)
Fixpoint ascending (r : Row) (rest : list Row) (end_ : Z) : Prop :=
  uint 64 (row_address r) /\
  match rest with
  | [] => row_address r <= end_ < 2 ^ 64
  | r' :: rest => row_address r <= row_address r' /\ ascending r' rest end_
  end.

Definition seq_ascending (s : LineSequence) : Prop := ascending (seq_first s) (seq_rest s) (seq_end s).

(** The lines of a row that has any code and whose file is known. *)
Definition row_line_to (file : Z -> option nat) (r : Row) (end_ : Z) : list CodeLine :=
  if row_address r <? end_ then
    match file (row_file r) with
    | Some f => [mkCodeLine (row_address r) (end_ - row_address r) f (swrap 32 (row_line r))]
    | None => []
    end
  else [].

Fixpoint row_lines (file : Z -> option nat) (r : Row) (rest : list Row) (end_ : Z) : list CodeLine :=
  match rest with
  | [] => row_line_to file r end_
  | r' :: rest => row_line_to file r (row_address r') ++ row_lines file r' rest end_
  end.

(** The lines of a sequence, all of them or none: it is dropped when it starts
    at address zero, or where a dropped sequence ended just before. *)
Definition seq_lines (file : Z -> option nat) (s : LineSequence) : list CodeLine :=
  row_lines file (seq_first s) (seq_rest s) (seq_end s).

Definition seq_kept (file : Z -> option nat) (dropped_end : Z) (s : LineSequence) : list CodeLine * Z :=
  if seq_start s =? seq_end s then ([], dropped_end)
  else if (seq_start s =? 0) || (seq_start s =? dropped_end) then ([], seq_end s)
  else (seq_lines file s, 0).

Fixpoint kept_lines (file : Z -> option nat) (dropped_end : Z) (ss : list LineSequence) : list CodeLine :=
  match ss with
  | [] => []
  | s :: ss =>
      let '(lines, dropped_end) := seq_kept file dropped_end s in
      lines ++ kept_lines file dropped_end ss
  end.

(** Everything but the lines and the omitted end is the same. *)
Definition same_tables (h h' : DwarfLineToModule) : Prop :=
  module_ h' = module_ h /\ (line_wf h -> line_wf h') /\ forall n, file_of h' n = file_of h n.

Lemma same_tables_refl h : same_tables h h.
Proof. done. Qed.

Lemma same_tables_trans h1 h2 h3 : same_tables h1 h2 -> same_tables h2 h3 -> same_tables h1 h3.
Proof.
  intros (E1 & W1 & F1) (E2 & W2 & F2). split; [congruence|]. split; [auto|]. intros n. by rewrite F2.
Qed.

Lemma lines_of_seq r rest end_ es :
  lines_of (map entry_row (r :: rest) ++ entry_end end_ :: es) =
    match rest with
    | [] => [line_to r (entry_end end_)]
    | r' :: _ => line_to r (entry_row r') :: lines_of (map entry_row rest ++ [entry_end end_])
    end ++ lines_of es.
Proof.
  revert r. induction rest as [|r' rest IH]; intros r; [done|]. cbn [map app] in *.
  assert (forall e l, lines_of (entry_row r :: e :: l) = line_to r e :: lines_of (e :: l)) as E by done.
  rewrite E, IH. destruct rest as [|r'' rest]; [done|]. cbn [map app].
  assert (forall e l, lines_of (entry_row r' :: e :: l) = line_to r' e :: lines_of (e :: l)) as E' by done.
  by rewrite E'.
Qed.

Lemma tell_line h r a rest :
  line_wf h -> uint 64 (row_address r) -> row_address r <= a < 2 ^ 64 ->
  exists h',
    tell h (call_line (row_address r) (wrap 64 (a - row_address r)) (row_file r) (row_line r) (row_column r) :: rest) =
      tell h' rest /\ same_tables h h' /\
    if row_address r =? a then h' = h
    else if (row_address r =? 0) || (row_address r =? omitted_line_end_ h) then
      lines_ h' = lines_ h /\ omitted_line_end_ h' = a
    else lines_ h' = lines_ h ++ row_line_to (file_of h) r a /\ omitted_line_end_ h' = 0.
Proof.
  intros Hwf Hr Ha. unfold uint in Hr. cbn [tell call AddLine line_to_module_handler]. unfold line_AddLine.
  rewrite wrap_small by (unfold uint; lia). destruct (Z.eqb_spec (row_address r) a) as [<-|Hne].
  { rewrite Z.sub_diag. cbn. exists h. by split. }
  rewrite (proj2 (Z.eqb_neq _ 0)) by lia. replace (row_address r + (a - row_address r)) with a by lia.
  rewrite (wrap_small 64 a) by (unfold uint; lia). rewrite (proj2 (Z.ltb_ge _ _)) by lia. cbv zeta.
  replace (row_address r + (a - row_address r)) with a by lia. rewrite (wrap_small 64 a) by (unfold uint; lia).
  destruct ((row_address r =? 0) || (row_address r =? omitted_line_end_ h)).
  { cbn [obind]. eexists. split; [done|]. split; [|done]. split; [done|]. split; [|done]. by intros []. }
  unfold row_line_to. rewrite (proj2 (Z.ltb_lt _ _)) by lia. unfold file_entry, file_of at 1.
  cbn [set_omitted files_]. destruct (find_value (files_ h) (row_file r)) as [[f|]|] eqn:Ef; cbn [mjoin option_join obind].
  - eexists. split; [done|]. split; [|done]. split; [done|]. split; [|done]. by intros [].
  - eexists. split; [done|]. split; [|by rewrite app_nil_r]. split; [done|]. split; [|done]. by intros [].
  - assert (forall n, mjoin (find_value (assign (files_ h) (row_file r) None) n) = file_of h n) as Hf.
    { intros n. unfold file_of. rewrite (find_value_assign _ _ _ _) by apply Hwf.
      destruct (decide (n = row_file r)) as [->|]; [|done]. by rewrite Ef. }
    eexists. split; [done|]. split; [|by rewrite app_nil_r]. split; [done|]. split; [|exact Hf].
    intros [? ? ? Hk]. split; [done|by apply assign_sorted|done|]. intros n f. unfold file_of. cbn [files_]. rewrite Hf.
    apply Hk.
Qed.

Lemma row_lines_ext f g r rest end_ : (forall n, f n = g n) -> row_lines f r rest end_ = row_lines g r rest end_.
Proof.
  intros E. assert (forall r e, row_line_to f r e = row_line_to g r e) as E'.
  { intros r' e. unfold row_line_to. by rewrite E. }
  revert r. induction rest as [|r' rest IH]; intros r; cbn; [done|]. by rewrite E', IH.
Qed.

Lemma kept_lines_ext f g o ss : (forall n, f n = g n) -> kept_lines f o ss = kept_lines g o ss.
Proof.
  intros E. revert o. induction ss as [|s ss IH]; intros o; cbn; [done|].
  assert (seq_kept f o s = seq_kept g o s) as ->.
  { unfold seq_kept, seq_lines. by rewrite (row_lines_ext f g _ _ _ E). }
  destruct (seq_kept g o s) as [ls o']. by rewrite IH.
Qed.

(** The calls of one sequence. *)
Abbreviation seq_calls r rest end_ := (lines_of (map entry_row (r :: rest) ++ [entry_end end_])).

Lemma ascending_bounds r rest end_ : ascending r rest end_ -> 0 <= row_address r <= end_ /\ end_ < 2 ^ 64.
Proof.
  revert r. induction rest as [|r' rest IH]; intros r [Hr Ha]; unfold uint in *; [lia|].
  destruct Ha as [Ha Ha']. apply IH in Ha'. lia.
Qed.

(** The first line of a sequence, and what is left of it. *)
Lemma tell_first_line h r rest end_ :
  line_wf h -> ascending r rest end_ ->
  exists h' a,
    tell h (seq_calls r rest end_) =
      match rest with [] => Ok h' | r' :: rest => tell h' (seq_calls r' rest end_) end /\
    a = match rest with [] => end_ | r' :: _ => row_address r' end /\
    match rest with [] => True | r' :: rest => ascending r' rest end_ end /\
    row_address r <= a /\ same_tables h h' /\
    if row_address r =? a then h' = h
    else if (row_address r =? 0) || (row_address r =? omitted_line_end_ h) then
      lines_ h' = lines_ h /\ omitted_line_end_ h' = a
    else lines_ h' = lines_ h ++ row_line_to (file_of h) r a /\ omitted_line_end_ h' = 0.
Proof.
  intros Hwf Ha0. rewrite lines_of_seq, app_nil_r. destruct rest as [|r' rest]; destruct Ha0 as [Hr Ha].
  - destruct (tell_line h r end_ [] Hwf Hr Ha) as (h' & E & Hs & Hh). exists h', end_. split; [exact E|].
    split; [done|]. split; [done|]. split; [lia|]. by split.
  - destruct Ha as [Ha Ha']. pose proof (ascending_bounds _ _ _ Ha') as Hb.
    destruct (tell_line h r (row_address r') (seq_calls r' rest end_) Hwf Hr ltac:(lia)) as (h' & E & Hs & Hh).
    exists h', (row_address r'). split; [exact E|].
    split; [done|]. split; [done|]. split; [lia|]. by split.
Qed.

Lemma tell_dropped rest : forall r h end_,
  line_wf h -> ascending r rest end_ -> row_address r = 0 \/ row_address r = omitted_line_end_ h ->
  exists h', tell h (seq_calls r rest end_) = Ok h' /\ same_tables h h' /\ lines_ h' = lines_ h /\
    omitted_line_end_ h' = if row_address r =? end_ then omitted_line_end_ h else end_.
Proof.
  induction rest as [|r' rest IH]; intros r h end_ Hwf Ha Ho;
    destruct (tell_first_line h r _ end_ Hwf Ha) as (h1 & a & E & Ea & Ha' & Hle & Hs & Hh); rewrite E.
  - subst a. exists h1. split; [done|]. split; [done|]. destruct (Z.eqb_spec (row_address r) end_) as [Er|Er];
      [by subst h1|]. destruct ((row_address r =? 0) || _) eqn:Ed; [done|]. apply orb_false_iff in Ed as [E1 E2].
    apply Z.eqb_neq in E1, E2. by destruct Ho.
  - subst a. assert (row_address r' = 0 \/ row_address r' = omitted_line_end_ h1) as Ho1.
    { destruct (Z.eqb_spec (row_address r) (row_address r')) as [Er|Er]; [subst h1; by rewrite <- Er|].
      destruct ((row_address r =? 0) || _) eqn:Ed; [right; by destruct Hh|].
      apply orb_false_iff in Ed as [E1 E2]. apply Z.eqb_neq in E1, E2. by destruct Ho. }
    destruct (IH r' h1 end_ (proj1 (proj2 Hs) Hwf) Ha' Ho1) as (h' & E' & Hs' & Hl' & Ho'). exists h'.
    split; [done|]. split; [by eapply same_tables_trans|].
    destruct (Z.eqb_spec (row_address r) (row_address r')) as [Er|Er].
    { subst h1. by rewrite Er. }
    destruct ((row_address r =? 0) || _) eqn:Ed.
    2:{ apply orb_false_iff in Ed as [E1 E2]. apply Z.eqb_neq in E1, E2. by destruct Ho. }
    destruct Hh as [Hl1 Hom1]. split; [congruence|]. rewrite Ho', Hom1.
    pose proof (ascending_bounds _ _ _ Ha'). rewrite (proj2 (Z.eqb_neq (row_address r) end_)) by lia.
    by destruct (Z.eqb_spec (row_address r') end_).
Qed.

Lemma row_line_to_empty file r : row_line_to file r (row_address r) = [].
Proof. unfold row_line_to. by rewrite Z.ltb_irrefl. Qed.

Lemma tell_kept rest : forall r h end_,
  line_wf h -> ascending r rest end_ -> row_address r <> 0 -> row_address r <> omitted_line_end_ h ->
  exists h', tell h (seq_calls r rest end_) = Ok h' /\ same_tables h h' /\
    lines_ h' = lines_ h ++ row_lines (file_of h) r rest end_ /\
    omitted_line_end_ h' = if row_address r =? end_ then omitted_line_end_ h else 0.
Proof.
  induction rest as [|r' rest IH]; intros r h end_ Hwf Ha H0 Ho;
    destruct (tell_first_line h r _ end_ Hwf Ha) as (h1 & a & E & Ea & Ha' & Hle & Hs & Hh); rewrite E;
    rewrite (proj2 (Z.eqb_neq _ 0)), (proj2 (Z.eqb_neq _ (omitted_line_end_ h))) in Hh by done; cbn [orb] in Hh;
    subst a; cbn [row_lines].
  - exists h1. split; [done|]. split; [done|]. destruct (Z.eqb_spec (row_address r) end_) as [Er|Er]; [|done].
    subst h1 end_. by rewrite row_line_to_empty, app_nil_r.
  - pose proof (ascending_bounds _ _ _ Ha') as Hb. pose proof (ascending_bounds _ _ _ Ha) as Hb'.
    assert (row_address r' <> omitted_line_end_ h1) as Ho1.
    { destruct (Z.eqb_spec (row_address r) (row_address r')) as [Er|Er]; [subst h1; congruence|].
      destruct Hh as [_ ->]. lia. }
    destruct (IH r' h1 end_ (proj1 (proj2 Hs) Hwf) Ha' ltac:(lia) Ho1) as (h' & E' & Hs' & Hl' & Ho'). exists h'.
    split; [done|]. split; [by eapply same_tables_trans|].
    rewrite (row_lines_ext (file_of h1) (file_of h)) in Hl' by apply Hs.
    destruct (Z.eqb_spec (row_address r) (row_address r')) as [Er|Er].
    { subst h1. rewrite <- Er, row_line_to_empty. by rewrite Er. }
    destruct Hh as [Hl1 Hom1]. split; [by rewrite Hl', Hl1, <- app_assoc|]. rewrite Ho', Hom1.
    rewrite (proj2 (Z.eqb_neq (row_address r) end_)) by lia. by destruct (row_address r' =? end_).
Qed.

Lemma row_lines_none file r rest end_ : ascending r rest end_ -> row_address r = end_ -> row_lines file r rest end_ = [].
Proof.
  revert r. induction rest as [|r' rest IH]; intros r Ha Er; cbn [row_lines].
  - subst end_. apply row_line_to_empty.
  - destruct Ha as [_ [Hle Ha]]. pose proof (ascending_bounds _ _ _ Ha).
    assert (row_address r' = row_address r) as E by lia. rewrite E, row_line_to_empty. apply IH; [done|lia].
Qed.

(** One sequence, and all the sequences of a table. *)
Lemma tell_sequence h s :
  line_wf h -> seq_ascending s ->
  exists h', tell h (seq_calls (seq_first s) (seq_rest s) (seq_end s)) = Ok h' /\ same_tables h h' /\
    let '(lines, dropped_end) := seq_kept (file_of h) (omitted_line_end_ h) s in
    lines_ h' = lines_ h ++ lines /\ omitted_line_end_ h' = dropped_end.
Proof.
  intros Hwf Hs. unfold seq_kept, seq_start, seq_lines.
  destruct ((row_address (seq_first s) =? 0) || (row_address (seq_first s) =? omitted_line_end_ h)) eqn:Ed.
  - assert (row_address (seq_first s) = 0 \/ row_address (seq_first s) = omitted_line_end_ h) as Hd.
    { apply orb_true_iff in Ed as [Ed|Ed]; apply Z.eqb_eq in Ed; auto. }
    destruct (tell_dropped (seq_rest s) (seq_first s) h (seq_end s) Hwf Hs Hd) as (h' & E & Hs' & Hl & Ho).
    exists h'. split; [done|]. split; [done|]. destruct (_ =? seq_end s); by rewrite app_nil_r.
  - apply orb_false_iff in Ed as [Ed1 Ed2]. apply Z.eqb_neq in Ed1, Ed2.
    destruct (tell_kept (seq_rest s) (seq_first s) h (seq_end s) Hwf Hs Ed1 Ed2) as (h' & E & Hs' & Hl & Ho).
    exists h'. split; [done|]. split; [done|]. destruct (Z.eqb_spec (row_address (seq_first s)) (seq_end s)) as [Ee|]; [|done].
    by rewrite row_lines_none in Hl.
Qed.

Lemma tell_sequences ss : forall h,
  line_wf h -> Forall seq_ascending ss ->
  exists h', tell h (lines_of (concat (map seq_entries ss))) = Ok h' /\ same_tables h h' /\
    lines_ h' = lines_ h ++ kept_lines (file_of h) (omitted_line_end_ h) ss.
Proof.
  induction ss as [|s ss IH]; intros h Hwf Hss; cbn [map concat kept_lines].
  { exists h. split; [done|]. split; [done|]. by rewrite app_nil_r. }
  apply Forall_cons in Hss as [Hs Hss].
  assert (lines_of (seq_entries s ++ concat (map seq_entries ss)) =
    seq_calls (seq_first s) (seq_rest s) (seq_end s) ++ lines_of (concat (map seq_entries ss))) as ->.
  { unfold seq_entries at 1. rewrite <- app_assoc. cbn [app]. by rewrite !lines_of_seq, app_nil_r. }
  rewrite tell_app. destruct (tell_sequence h s Hwf Hs) as (h1 & E & Hs1 & Hh). rewrite E. cbn [obind].
  destruct (IH h1 (proj1 (proj2 Hs1) Hwf) Hss) as (h' & E' & Hs' & Hl'). exists h'.
  split; [done|]. split; [by eapply same_tables_trans|]. rewrite Hl'.
  destruct (seq_kept (file_of h) (omitted_line_end_ h) s) as [ls o]. destruct Hh as [-> ->].
  rewrite <- app_assoc. do 2 f_equal. apply kept_lines_ext, Hs1.
Qed.

(** ** The line number program of a unit *)

(** [ReadProgram] of common/linux/dump_symbols.cc: the lines, the module with
    the files they cite, and the reader. *)
Definition ReadProgram (mem : byte_list) (byte_reader_ : ByteReader) (compilation_dir_ : chars)
    (sections : LineSections) (m : DumpModule) (lines : list CodeLine) :
    outcome (DumpModule * list CodeLine * ByteReader) :=
  let handler := new_line_handler m compilation_dir_ lines in
  let? (_, handler, byte_reader_) := Start mem sections byte_reader_ handler in
  Ok (module_ handler, lines_ handler, byte_reader_).

(** What the lines [lines] and the files of [m'] are for a unit with the
    directories [dirs], the files [files] and the sequences [ss]. *)
Definition program_read (comp : chars) (dirs files : list LineCall) (ss : list LineSequence)
    (m m' : DumpModule) (lines : list CodeLine) : Prop :=
  more_files m m' /\
  exists file,
    lines = kept_lines file 0 ss /\
    forall n, match file_path (dir_path comp dirs) files n with
              | Some path => exists f, file n = Some f /\ f ∈ GetFiles m' /\
                               name_at (file_store m') f = Some path
              | None => file n = None
              end.

Lemma tell_unit comp m lines dirs files ss :
  dump_wf m -> Forall is_dir dirs -> Forall is_file files -> Forall seq_ascending ss ->
  exists h', tell (new_line_handler m comp lines) (dirs ++ files ++ lines_of (concat (map seq_entries ss))) = Ok h' /\
    exists new, lines_ h' = lines ++ new /\ program_read comp dirs files ss m (module_ h') new.
Proof.
  intros Hwf Hd Hf Hss. set (h0 := new_line_handler m comp lines).
  assert (line_wf h0) as Hwf0 by (split; [constructor|constructor|done|done]).
  destruct (tell_dirs dirs h0 Hd Hwf0) as (h1 & E1 & Hwf1 & Hm1 & Hc1 & Hl1 & Hf1 & Ho1 & Hk1).
  destruct (tell_files files h1 Hf Hwf1) as (h2 & E2 & Hwf2 & Hm2 & Hl2 & Ho2 & Hk2).
  destruct (tell_sequences ss h2 Hwf2 Hss) as (h' & E & (Hm & _ & Hfile) & Hl).
  exists h'. rewrite !tell_app, E1. cbn [obind]. rewrite tell_app, E2. cbn [obind]. split; [done|].
  exists (kept_lines (file_of h2) 0 ss). rewrite Hl, Hl2, Hl1, Ho2, Ho1. split; [done|].
  split; [rewrite Hm; by rewrite Hm1 in Hm2|]. exists (file_of h2). split; [done|]. intros n. specialize (Hk2 n).
  assert (forall cs, file_path (known_dir h1) cs n = file_path (dir_path comp dirs) cs n) as Hp.
  { induction cs as [|[|name i d ? ?|] cs IH]; cbn [file_path]; [done|done| |done]. rewrite IH, Hk1. cbn [compilation_dir_ h0 new_line_handler].
    destruct (dir_path comp dirs d) as [p|] eqn:Ep; [done|]. unfold known_dir. cbn. destruct (Z.eqb_spec d 0) as [->|]; [|done].
    by rewrite dir_path_0 in Ep. }
  rewrite Hp in Hk2. destruct (file_path (dir_path comp dirs) files n) as [path|].
  - destruct Hk2 as (f & Hff & Hn). exists f. split; [done|]. rewrite Hm. split; [by eapply lwf_known|done].
  - rewrite Hk2. unfold file_of. by rewrite Hf1.
Qed.

Lemma ReadProgram_spec mem r sections bs comp dirs files ss m lines :
  unit_bytes mem sections r bs (dirs ++ files ++ lines_of (concat (map seq_entries ss))) ->
  holds mem (buffer_ sections) bs -> Z.of_nat (length bs) <= buffer_length_ sections ->
  Z.of_nat (length mem) < 2 ^ 64 ->
  dump_wf m -> Forall is_dir dirs -> Forall is_file files -> Forall seq_ascending ss ->
  exists m' new r', ReadProgram mem r comp sections m lines = Ok (m', lines ++ new, r') /\
    program_read comp dirs files ss m m' new.
Proof.
  intros Hu Hh Hl Hm Hwf Hd Hf Hss. unfold ReadProgram.
  destruct (Start_unit mem sections r (new_line_handler m comp lines) bs _ Hu Hh Hl Hm) as (r' & E).
  destruct (tell_unit comp m lines dirs files ss Hwf Hd Hf Hss) as (h' & E' & new & Hl' & Hp).
  rewrite E, E'. cbn [obind]. rewrite Hl'. by exists (module_ h'), new, r'.
Qed.

(** Reading the line number program of a unit with [DwarfLineToModule]
    always returns when the addresses of every sequence go up; it adds to the
    module one file for every full path of the file table (a path that is not
    absolute is taken from its directory, and that one from the compilation
    directory) and to the lines those of every sequence, in order and with
    their files, but for rows without code and rows whose file is not in the
    table; a sequence that starts at address zero, or where a dropped sequence
    ended just before, is dropped as a whole. *)
Theorem ReadProgram_functional mem r sections bs comp dirs files ss m lines :
  unit_bytes mem sections r bs (dirs ++ files ++ lines_of (concat (map seq_entries ss))) ->
  holds mem (buffer_ sections) bs -> Z.of_nat (length bs) <= buffer_length_ sections ->
  Z.of_nat (length mem) < 2 ^ 64 ->
  dump_wf m -> Forall is_dir dirs -> Forall is_file files -> Forall seq_ascending ss ->
  exists m' new r', ReadProgram mem r comp sections m lines = Ok (m', lines ++ new, r') /\
    program_read comp dirs files ss m m' new.
Proof. apply ReadProgram_spec. Qed.

Definition example_sequence : LineSequence :=
  mkLineSequence (mkRow 0x401000 1 1 0) [mkRow 0x401002 1 4 0] 0x40100a.

Definition example_m : DumpModule := new_dump_module (str "a.so") (str "Linux") (str "x86_64") (str "0") [].

Lemma ReadProgram_functional_witness :
  (exists m' new r', ReadProgram example_unit example_reader (str "/home") example_sections example_m [] =
     Ok (m', [] ++ new, r') /\
     program_read (str "/home") (take 2 example_calls) (take 2 (drop 2 example_calls)) [example_sequence]
       example_m m' new) /\
  (let? (m, lines, _) := ReadProgram example_unit example_reader (str "/home") example_sections example_m [] in
   Ok (map file_name (file_store m), lines)) =
    Ok ([str "/home/"; str "/src/a.c"], [mkCodeLine 0x401000 2 1 1; mkCodeLine 0x401002 8 1 4]).
Proof.
  split; [|vm_compute; reflexivity].
  apply (ReadProgram_functional _ _ _ example_unit).
  - exact (example_unit_bytes _ _).
  - split; [done|]. split; [done|]. by intros i b.
  - done.
  - done.
  - apply new_dump_module_wf.
  - by repeat constructor.
  - by repeat constructor.
  - repeat constructor; cbn; unfold uint; lia.
Defined.
