(* ===== verification/DwarfLineAssign.v ===== *)
(** * Lines of functions (common/dwarf_cu_to_module.cc)

    [AssignLinesToFunctions] gives the functions of a compilation unit the parts
    of its lines that lie in their ranges: one pass over the sorted ranges and
    lines, from one address where the coverage changes to the next.  The sort
    is the one of the C++ standard library ([StdSort]).  The main theorem is
    that the pass ends and that every address gets the line and the function
    that cover it, even when lines or ranges overlap. *)

From S2P Require Import Prelude OrderedMap LibcSupport Tokens Memory ByteReader DwarfLine SymbolDumper DwarfLineModule.
#[local] Open Scope Z_scope.

(** ** std::sort *)

(** [std::sort] by a key: a permutation in order; equivalent elements come in
    an unspecified order. *)
Class StdSort : Type := {
  std_sort {A} (key : A -> Z) (l : list A) : list A;
  std_sort_perm {A} (key : A -> Z) (l : list A) : Permutation (std_sort key l) l;
  std_sort_sorted {A} (key : A -> Z) (l : list A) :
    StronglySorted (fun x y => key x <= key y) (std_sort key l);
}.

(** ** Ranges of functions *)

Definition kMaxAddress : Z := 2 ^ 64 - 1.

(** [function] is a pointer: a position of the vector of functions. *)
Record FunctionRange : Type := mkFunctionRange {
  fr_address : Z;
  fr_size : Z;
  fr_function : nat;
}.

(** What [within] is instantiated with: the address and the size of an item. *)
Class Item (A : Type) : Type := {
  item_address : A -> Z;
  item_size : A -> Z;
}.

#[export] Instance range_item : Item FunctionRange := { item_address := fr_address; item_size := fr_size }.
#[export] Instance line_item : Item CodeLine := { item_address := code_address; item_size := code_size }.

Definition within {A} `{!Item A} (item : A) (address : Z) : bool :=
  wrap 64 (address - item_address item) <? item_size item.

(** The ranges of the functions from position [i] on that are not empty. *)
Fixpoint function_ranges (i : nat) (functions : list CodeFunction) : list FunctionRange :=
  match functions with
  | [] => []
  | func :: functions =>
      filter (fun r => fr_size r <> 0)
        (map (fun r => mkFunctionRange (range_address r) (range_size r) i) (code_ranges func)) ++
      function_ranges (S i) functions
  end.

(** [dest_ranges] is empty before the call. *)
Definition FillSortedFunctionRanges `{!StdSort} (functions : list CodeFunction) : list FunctionRange :=
  std_sort fr_address (function_ranges 0 functions).

(** [function->lines.push_back(line)] *)
Definition push_line (f : CodeFunction) (line : CodeLine) : CodeFunction :=
  mkCodeFunction (code_name f) (code_entry f) (code_ranges f) (code_parameter_size f) (code_lines f ++ [line]).

Definition FunctionRange_AddLine (functions : list CodeFunction) (range : FunctionRange) (line : CodeLine) :
    list CodeFunction :=
  alter (fun f => push_line f line) (fr_function range) functions.

(** ** The pass *)

(** The calls to the reporter. *)
Inductive LineReport : Type :=
| UncoveredFunction (function : nat)
| UncoveredLine (line : CodeLine)
| MissingSection (name : chars)
| BadLineInfoOffset (offset : Z).

(** The functions, the reports, and the pointers that keep a warning from being
    given twice; a pointer to a line is its position. *)
Record AssignState : Type := mkAssignState {
  functions_ : list CodeFunction;
  reports_ : list LineReport;
  last_line_used : option nat;
  last_function_cited : option nat;
  last_line_cited : option nat;
}.

(** The inner loops: the position after the items that end by
    [next_transition]. *)
Fixpoint passed {A} `{!Item A} (items : list A) (next_transition : Z) : nat :=
  match items with
  | [] => O
  | it :: items =>
      if (item_address it <=? next_transition) && negb (within it next_transition)
      then S (passed items next_transition) else O
  end.

Definition advance_it {A} `{!Item A} (items : list A) (it : nat) (next_transition : Z) : nat :=
  it + passed (drop it items) next_transition.

(** The first invariant of the loop. *)
Definition after_or_within {A} `{!Item A} (item : option A) (current : Z) : bool :=
  match item with
  | Some item => (current <? item_address item) || within item current
  | None => true
  end.

(** [item && current >= item->address] *)
Definition reached {A} `{!Item A} (item : option A) (current : Z) : bool :=
  match item with Some item => item_address item <=? current | None => false end.

(** A range and a line cover [current]. *)
Definition covered_by_both (s : AssignState) (range : FunctionRange) (line : CodeLine) (line_it : nat)
    (current : Z) : AssignState * Z :=
  let range_left := wrap 64 (fr_size range - wrap 64 (current - fr_address range)) in
  let line_left := wrap 64 (code_size line - wrap 64 (current - code_address line)) in
  let next_transition := wrap 64 (current + Z.min range_left line_left) in
  let l := mkCodeLine current (wrap 64 (next_transition - current)) (code_file line) (code_number line) in
  (mkAssignState (FunctionRange_AddLine (functions_ s) range l) (reports_ s) (Some line_it)
     (last_function_cited s) (last_line_cited s), next_transition).

(** A range, but no line. *)
Definition covered_by_range (s : AssignState) (range : FunctionRange) (line : option CodeLine) (current : Z) :
    AssignState * Z :=
  let s :=
    if bool_decide (Some (fr_function range) <> last_function_cited s) then
      mkAssignState (functions_ s) (reports_ s ++ [UncoveredFunction (fr_function range)]) (last_line_used s)
        (Some (fr_function range)) (last_line_cited s)
    else s in
  let range_end := wrap 64 (fr_address range + fr_size range) in
  (s, match line with
      | Some line => if within range (code_address line) then code_address line else range_end
      | None => range_end
      end).

(** A line, but no range. *)
Definition covered_by_line (s : AssignState) (range : option FunctionRange) (line : CodeLine) (line_it : nat)
    (current : Z) : AssignState * Z :=
  let padding :=
    match range with
    | Some range =>
        bool_decide (Some line_it = last_line_used s) &&
        (wrap 64 (fr_address range - code_address line) =? code_size line)
    | None => false
    end in
  let s :=
    if bool_decide (Some line_it <> last_line_cited s) && negb padding then
      mkAssignState (functions_ s) (reports_ s ++ [UncoveredLine line]) (last_line_used s)
        (last_function_cited s) (Some line_it)
    else s in
  let line_end := wrap 64 (code_address line + code_size line) in
  (s, match range with
      | Some range => if within line (fr_address range) then fr_address range else line_end
      | None => line_end
      end).

(** The body of the loop up to the next transition. *)
Definition transition (s : AssignState) (range : option FunctionRange) (line : option CodeLine) (line_it : nat)
    (current : Z) : outcome (AssignState * Z) :=
  match range, line with
  | Some r, Some l =>
      Ok (if reached range current then
            if reached line current then covered_by_both s r l line_it current
            else covered_by_range s r line current
          else if reached line current then covered_by_line s range l line_it current
          else (s, Z.min (fr_address r) (code_address l)))
  | Some r, None =>
      Ok (if reached range current then covered_by_range s r line current else (s, fr_address r))
  | None, Some l =>
      Ok (if reached line current then covered_by_line s range l line_it current else (s, code_address l))
  | None, None => Undef
  end.

Fixpoint assign_loop (fuel : nat) (ranges : list FunctionRange) (lines : list CodeLine) (s : AssignState)
    (range_it line_it : nat) (current : Z) : outcome AssignState :=
  match fuel with
  | O => Undef
  | S fuel =>
      let range := ranges !! range_it in
      let line := lines !! line_it in
      if bool_decide (range = None /\ line = None) then Ok s
      else if negb (after_or_within range current && after_or_within line current) then Undef
      else
        let? (s, next_transition) := transition s range line line_it current in
        if (next_transition =? 0) || (next_transition =? kMaxAddress) then Ok s
        else
          let range_it := advance_it ranges range_it next_transition in
          let line_it := advance_it lines line_it next_transition in
          if current <? next_transition then
            assign_loop fuel ranges lines s range_it line_it next_transition
          else Undef
  end.

(** Every range and every line has two ends, and the pass stops at each once. *)
Definition assign_fuel (ranges : list FunctionRange) (lines : list CodeLine) : nat :=
  2 * (length ranges + length lines) + 2.

(** The first address of the pass. *)
Definition first_address (ranges : list FunctionRange) (lines : list CodeLine) : option Z :=
  match ranges, lines with
  | r :: _, l :: _ => Some (Z.min (fr_address r) (code_address l))
  | [], l :: _ => Some (code_address l)
  | r :: _, [] => Some (fr_address r)
  | [], [] => None
  end.

(** The functions, the sorted lines and the reports. *)
Definition AssignLinesToFunctions `{!StdSort} (functions : list CodeFunction) (lines : list CodeLine) :
    outcome (list CodeFunction * list CodeLine * list LineReport) :=
  let functions := std_sort code_entry functions in
  let lines := std_sort code_address lines in
  let sorted_ranges := FillSortedFunctionRanges functions in
  match first_address sorted_ranges lines with
  | None => Ok (functions, lines, [])
  | Some current =>
      if current =? kMaxAddress then Ok (functions, lines, [])
      else
        let? s := assign_loop (assign_fuel sorted_ranges lines) sorted_ranges lines
                    (mkAssignState functions [] None None None) 0 0 current in
        Ok (functions_ s, lines, reports_ s)
  end.

(** ** The end of a compilation unit *)

(** The sections [ReadSourceLines] looks for, [None] when they are missing:
    their address and their size. *)
Record LineSectionMap : Type := mkLineSectionMap {
  debug_line : option (Z * Z);
  debug_str : option (Z * Z);
  debug_line_str : option (Z * Z);
}.

(** [lines_] and the module after the call, and the calls to the reporter. *)
Definition ReadSourceLines (mem : byte_list) (byte_reader_ : ByteReader) (compilation_dir_ : chars)
    (section_map : LineSectionMap) (m : DumpModule) (lines_ : list CodeLine) (offset : Z) :
    outcome (DumpModule * list CodeLine * ByteReader * list LineReport) :=
  match debug_line section_map with
  | None => Ok (m, lines_, byte_reader_, [MissingSection (str ".debug_line")])
  | Some (first, second) =>
      if second <=? offset then Ok (m, lines_, byte_reader_, [BadLineInfoOffset offset])
      else
        let string_section :=
          match debug_str section_map with
          | Some (first, second) => (Some (first + offset), wrap 64 (second - offset))
          | None => (None, 0)
          end in
        match debug_line_str section_map with
        | Some _ => Ok (m, lines_, byte_reader_, [])
        | None =>
            let sections :=
              mkLineSections (first + offset) (second - offset) string_section.1 string_section.2 None 0 in
            let? (m, lines_, byte_reader_) := ReadProgram mem byte_reader_ compilation_dir_ sections m lines_ in
            Ok (m, lines_, byte_reader_, [])
        end
  end.

(** [Finish], but for the names kept for other compilation units: the module,
    the reader and the calls to the reporter.  [source_line_offset_] is [None]
    for [!has_source_line_info_]. *)
Definition CU_Finish `{!StdSort} (mem : byte_list) (byte_reader_ : ByteReader) (compilation_dir_ : chars)
    (section_map : LineSectionMap) (has_functions : bool) (source_line_offset_ : option Z) (m : DumpModule)
    (functions : list CodeFunction) (lines_ : list CodeLine) :
    outcome (DumpModule * ByteReader * list LineReport) :=
  if negb has_functions then Ok (m, byte_reader_, [])
  else
    let? (m, lines_, byte_reader_, reports) :=
      match source_line_offset_ with
      | Some offset => ReadSourceLines mem byte_reader_ compilation_dir_ section_map m lines_ offset
      | None => Ok (m, lines_, byte_reader_, [])
      end in
    let? (functions, _, uncovered) := AssignLinesToFunctions functions lines_ in
    let? m := AddFunctions m functions in
    Ok (m, byte_reader_, reports ++ uncovered).

(** ** Coverage *)

Section items.
Context {A : Type} `{!Item A}.
Implicit Types (items : list A) (it : A) (a c : Z).

Definition item_end it : Z := item_address it + item_size it.

(** An item that has code and ends in the address space. *)
Definition item_ok it : Prop := 0 <= item_address it /\ 0 < item_size it < 2 ^ 64 /\ item_end it <= 2 ^ 64.

Definition contains it a : Prop := item_address it <= a < item_end it.

#[export] Instance contains_dec it a : Decision (contains it a).
Proof. unfold contains. apply _. Defined.

(** The item that counts at an address: the first one around it. *)
Definition cover items a : option A := head (filter (fun it => contains it a) items).

(** The position of the first item that has not ended at [c]. *)
Definition pending items c : nat := prefix_len (fun it => item_end it <=? c) items.

Lemma within_spec it a : item_ok it -> uint 64 a -> within it a = (item_address it <=? a) && (a <? item_end it).
Proof.
  unfold item_ok, item_end, uint, within. intros (H1 & H2 & H3) Ha. destruct (Z.leb_spec (item_address it) a).
  - rewrite wrap_small by (unfold uint; lia). cbn. apply eq_iff_eq_true. rewrite !Z.ltb_lt. lia.
  - rewrite wrap_under by lia. cbn. apply Z.ltb_ge. lia.
Qed.

Lemma passed_spec items a :
  Forall item_ok items -> uint 64 a -> passed items a = prefix_len (fun it => item_end it <=? a) items.
Proof.
  intros Hok Ha. induction Hok as [|it items Hit _ IH]; [done|]. cbn [passed prefix_len].
  rewrite within_spec, IH by done. destruct Hit as (H1 & H2 & H3). unfold item_end in *.
  destruct (Z.leb_spec (item_address it) a), (Z.ltb_spec a (item_address it + item_size it)),
    (Z.leb_spec (item_address it + item_size it) a); cbn; done || lia.
Qed.

Lemma prefix_len_more (f g : A -> bool) items :
  (forall it, f it = true -> g it = true) ->
  prefix_len g items = (prefix_len f items + prefix_len g (drop (prefix_len f items) items))%nat.
Proof.
  intros Hfg. induction items as [|it items IH]; [done|]. cbn [prefix_len]. destruct (f it) eqn:Ef.
  - rewrite (Hfg it Ef). cbn [drop Nat.add]. by rewrite IH.
  - done.
Qed.

Lemma advance_it_spec items c a :
  Forall item_ok items -> uint 64 a -> c <= a -> advance_it items (pending items c) a = pending items a.
Proof.
  intros Hok Ha Hc. unfold advance_it, pending. rewrite passed_spec by (done || by apply Forall_drop).
  symmetry. apply prefix_len_more. intros it. rewrite !Z.leb_le. lia.
Qed.

Lemma pending_ends items c it : items !! pending items c = Some it -> c < item_end it.
Proof. intros H%prefix_len_at. by apply Z.leb_gt in H. Qed.

(** Up to [next] the coverage by the pending item does not change. *)
Definition steady (it : option A) c next : Prop :=
  match it with
  | Some it => next <= item_end it /\ (c < item_address it -> next <= item_address it)
  | None => True
  end.

Lemma pending_stays items c a :
  c <= a -> match items !! pending items c with Some it => a < item_end it | None => True end ->
  pending items a = pending items c.
Proof.
  intros Hc Hp. unfold pending in *.
  rewrite (prefix_len_more (fun it => item_end it <=? c) (fun it => item_end it <=? a))
    by (intros it; rewrite !Z.leb_le; lia).
  set (n := prefix_len (fun it => item_end it <=? c) items) in *.
  destruct (items !! n) as [it|] eqn:E.
  - rewrite (drop_S _ _ _ E). cbn [prefix_len]. rewrite (proj2 (Z.leb_gt _ _)) by done. lia.
  - apply lookup_ge_None in E. rewrite drop_ge by done. cbn. lia.
Qed.

(** The pending item is the first one around the address, if there is one. *)
Definition at_pending items a : option A :=
  match items !! pending items a with
  | Some it => if item_address it <=? a then Some it else None
  | None => None
  end.

Lemma at_pending_steady items c next a :
  steady (items !! pending items c) c next -> c <= a < next -> at_pending items a = at_pending items c.
Proof.
  intros Hs Ha. unfold at_pending. rewrite (pending_stays items c a); [|lia|].
  - destruct (items !! pending items c) as [it|]; [|done]. destruct Hs as [H1 H2].
    destruct (Z.leb_spec (item_address it) a), (Z.leb_spec (item_address it) c); done || lia.
  - destruct (items !! pending items c) as [it|]; [|done]. destruct Hs as [H1 H2]. lia.
Qed.

Lemma at_pending_cover items a :
  StronglySorted (fun x y => item_address x <= item_address y) items -> at_pending items a = cover items a.
Proof.
  unfold at_pending, cover, pending. induction 1 as [|it items Hs IH Hle]; [done|]. cbn [prefix_len].
  rewrite filter_cons. destruct (Z.leb_spec (item_end it) a) as [He|He].
  - rewrite decide_False by (unfold contains; lia). exact IH.
  - cbn [lookup list_lookup]. destruct (Z.leb_spec (item_address it) a) as [Ha|Ha].
    + by rewrite decide_True by (unfold contains; lia).
    + rewrite decide_False by (unfold contains; lia).
      assert (filter (fun it => contains it a) items = []) as ->; [|done].
      clear -Hle Ha. induction Hle as [|x items Hx _ IH]; [done|].
      rewrite filter_cons, decide_False by (unfold contains; lia). done.
Qed.
End items.

(** ** Parts *)

(** The parts of lines that the pass gives to functions. *)
Abbreviation part := (nat * CodeLine)%type.

Definition push_parts (functions : list CodeFunction) (parts : list part) : list CodeFunction :=
  fold_left (fun fs p => alter (fun f => push_line f p.2) p.1 fs) parts functions.

Lemma push_parts_app fs ps1 ps2 : push_parts fs (ps1 ++ ps2) = push_parts (push_parts fs ps1) ps2.
Proof. apply fold_left_app. Qed.

(** The parts follow each other from [c] on. *)
Fixpoint parts_from (c : Z) (parts : list part) : Prop :=
  match parts with
  | [] => True
  | (_, p) :: parts =>
      c <= code_address p /\ 0 < code_size p /\ item_end p <= 2 ^ 64 /\ parts_from (item_end p) parts
  end.

Lemma parts_from_le c c' parts : c' <= c -> parts_from c parts -> parts_from c' parts.
Proof. destruct parts as [|[i p] parts]; cbn; [done|]. intuition lia. Qed.

Lemma parts_from_after c parts i p a : parts_from c parts -> (i, p) ∈ parts -> contains p a -> c <= a.
Proof.
  revert c. induction parts as [|[j q] parts IH]; intros c Hp Hin Ha; [by apply elem_of_nil in Hin|].
  destruct Hp as (H1 & H2 & H3 & H4). apply elem_of_cons in Hin as [[= -> ->]|Hin].
  - unfold contains in Ha. cbn [item_address line_item] in Ha. lia.
  - pose proof (IH _ H4 Hin Ha). unfold item_end in *. cbn [item_address item_size line_item] in *. lia.
Qed.

(** The address [a] belongs to the function [i] and to a line of [file] and
    [number]. *)
Definition given (parts : list part) (a : Z) (i file : nat) (number : Z) : Prop :=
  exists p, (i, p) ∈ parts /\ contains p a /\ code_file p = file /\ code_number p = number.

Definition covered_at (range : option FunctionRange) (line : option CodeLine) (i file : nat) (number : Z) : Prop :=
  exists r l, range = Some r /\ line = Some l /\ fr_function r = i /\ code_file l = file /\ code_number l = number.

(** A line of the function [i] lies in one of its ranges. *)
Definition inside_range (ranges : list FunctionRange) (i : nat) (p : CodeLine) : Prop :=
  exists r, r ∈ ranges /\ fr_function r = i /\ item_address r <= code_address p /\ item_end p <= item_end r.

(** ** One transition *)

Section pass.
Context (ranges : list FunctionRange) (lines : list CodeLine).
Hypothesis Hranges : Forall item_ok ranges.
Hypothesis Hlines : Forall item_ok lines.

Definition endpoints : list Z :=
  concat (map (fun r : FunctionRange => [item_address r; item_end r]) ranges) ++
  concat (map (fun l : CodeLine => [item_address l; item_end l]) lines).

(** What a transition from [c] to [next] does. *)
Record transits (s s' : AssignState) (c next : Z) (parts : list part) : Prop := {
  tr_functions : functions_ s' = push_parts (functions_ s) parts;
  tr_parts : parts_from c parts;
  tr_before i p : (i, p) ∈ parts -> item_end p <= next;
  tr_inside i p : (i, p) ∈ parts -> inside_range ranges i p;
  tr_progress : c < next <= 2 ^ 64;
  tr_endpoint : next ∈ endpoints;
  tr_given a i file number : c <= a < next ->
    given parts a i file number <-> covered_at (at_pending ranges a) (at_pending lines a) i file number;
}.

Lemma elem_endpoints_range i r : ranges !! i = Some r -> item_address r ∈ endpoints /\ item_end r ∈ endpoints.
Proof.
  intros Hr%list_elem_of_lookup_2. unfold endpoints. rewrite !elem_of_app, !list_elem_of_In, !in_concat.
  split; left; exists [item_address r; item_end r]; cbn; (split; [|auto]);
    apply in_map_iff; exists r; (split; [done|by apply list_elem_of_In]).
Qed.

Lemma elem_endpoints_line i l : lines !! i = Some l -> item_address l ∈ endpoints /\ item_end l ∈ endpoints.
Proof.
  intros Hr%list_elem_of_lookup_2. unfold endpoints. rewrite !elem_of_app, !list_elem_of_In, !in_concat.
  split; right; exists [item_address l; item_end l]; cbn; (split; [|auto]);
    apply in_map_iff; exists l; (split; [done|by apply list_elem_of_In]).
Qed.

Lemma lookup_range_ok i r : ranges !! i = Some r -> item_ok r.
Proof. intros. by eapply Forall_lookup_1. Qed.

Lemma lookup_line_ok i l : lines !! i = Some l -> item_ok l.
Proof. intros. by eapply Forall_lookup_1. Qed.

(** Without a part: nothing is covered by both before [next]. *)
Lemma transits_uncovered s s' c next :
  functions_ s' = functions_ s -> c < next <= 2 ^ 64 -> next ∈ endpoints ->
  steady (ranges !! pending ranges c) c next -> steady (lines !! pending lines c) c next ->
  reached (ranges !! pending ranges c) c && reached (lines !! pending lines c) c = false ->
  transits s s' c next [].
Proof.
  intros Hf Hn He Hr Hl Hb. split; try done.
  - intros i p Hp. by apply elem_of_nil in Hp.
  - intros i p Hp. by apply elem_of_nil in Hp.
  - intros a i file number Ha. rewrite (at_pending_steady ranges c next a Hr Ha),
      (at_pending_steady lines c next a Hl Ha).
    split; [intros (p & Hp & _); by apply elem_of_nil in Hp|].
    unfold at_pending, reached in *. intros (r & l & Er & El & _).
    destruct (ranges !! _) as [r'|]; [|done]. destruct (lines !! _) as [l'|]; [|done].
    destruct (item_address r' <=? c); [|done]. destruct (item_address l' <=? c); done.
Qed.

Lemma transits_covered s s' c next r l :
  ranges !! pending ranges c = Some r -> lines !! pending lines c = Some l ->
  item_address r <= c -> item_address l <= c -> c < next <= 2 ^ 64 -> next ∈ endpoints ->
  next <= item_end r -> next <= item_end l ->
  let parts := [(fr_function r, mkCodeLine c (next - c) (code_file l) (code_number l))] in
  functions_ s' = push_parts (functions_ s) parts -> transits s s' c next parts.
Proof.
  intros Er El Hr Hl Hn He Hnr Hnl parts Hf. split; try done.
  - unfold parts. cbn [parts_from]. unfold item_end. cbn [item_address item_size line_item code_address code_size]. lia.
  - intros i p [= -> ->]%list_elem_of_singleton. unfold item_end. cbn. lia.
  - intros i p [= -> ->]%list_elem_of_singleton. exists r. split; [by eapply list_elem_of_lookup_2|]. split; [done|].
    split; [done|]. unfold item_end at 1. cbn [item_address item_size line_item code_address code_size]. lia.
  - intros a i file number Ha.
    rewrite (at_pending_steady ranges c next a), (at_pending_steady lines c next a)
      by (done || (rewrite ?Er, ?El; split; [done|lia])).
    unfold at_pending. rewrite Er, El, !(proj2 (Z.leb_le _ _)) by done. split.
    + intros (p & [= -> ->]%list_elem_of_singleton & _ & <- & <-). by exists r, l.
    + intros (r' & l' & [= <-] & [= <-] & <- & <- & <-). eexists. split; [by apply list_elem_of_singleton|].
      split; [|done]. unfold contains, item_end. cbn. lia.
Qed.

Lemma left_of {A} `{!Item A} (it : A) c :
  item_ok it -> item_address it <= c < item_end it ->
  wrap 64 (item_size it - wrap 64 (c - item_address it)) = item_end it - c.
Proof.
  unfold item_ok, item_end. intros (H1 & H2 & H3) Hc. rewrite (wrap_small 64 (c - _)), wrap_small by (unfold uint; lia).
  lia.
Qed.

Lemma ok_address {A} `{!Item A} (it : A) : item_ok it -> uint 64 (item_address it).
Proof. unfold item_ok, item_end, uint. lia. Qed.

Lemma ok_end {A} `{!Item A} (it : A) : item_ok it -> item_address it < item_end it <= 2 ^ 64.
Proof. unfold item_ok, item_end. lia. Qed.

(** An item that begins at [next] or later. *)
Lemma steady_later {A} `{!Item A} (it : A) c next : item_ok it -> next <= item_address it -> steady (Some it) c next.
Proof. intros Hok%ok_end Hn. unfold steady. lia. Qed.

(** A range and a line cover [c]. *)
Lemma both_spec s c r l :
  ranges !! pending ranges c = Some r -> lines !! pending lines c = Some l ->
  item_address r <= c -> item_address l <= c -> 0 <= c ->
  exists s' next parts, covered_by_both s r l (pending lines c) c = (s', wrap 64 next) /\ transits s s' c next parts.
Proof.
  intros Er El Hr Hl Hc. pose proof (lookup_range_ok _ _ Er) as Hrk. pose proof (lookup_line_ok _ _ El) as Hlk.
  pose proof (pending_ends _ _ _ Er) as Hre. pose proof (pending_ends _ _ _ El) as Hle.
  remember (Z.min (item_end r) (item_end l)) as next eqn:Enext.
  assert (c < next <= 2 ^ 64 /\ next - c < 2 ^ 64) as [Hn Hn2] by (unfold item_ok, item_end in *; lia).
  unfold covered_by_both.
  rewrite (left_of r c Hrk (conj Hr Hre) : wrap 64 (fr_size r - wrap 64 (c - fr_address r)) = _).
  rewrite (left_of l c Hlk (conj Hl Hle) : wrap 64 (code_size l - wrap 64 (c - code_address l)) = _).
  replace (c + Z.min (item_end r - c) (item_end l - c)) with next by lia.
  rewrite wrap_sub_l, (wrap_small 64 (next - c)) by (unfold uint; lia).
  eexists _, next, _. split; [done|].
  apply (transits_covered s _ c next r l); try done; [|lia..].
  rewrite Enext. destruct (Z.min_spec (item_end r) (item_end l)) as [[_ ->]|[_ ->]].
  - by eapply elem_endpoints_range.
  - by eapply elem_endpoints_line.
Qed.

(** A range, but no line. *)
Lemma range_spec s c r :
  ranges !! pending ranges c = Some r -> item_address r <= c -> 0 <= c ->
  reached (lines !! pending lines c) c = false ->
  exists s' next, covered_by_range s r (lines !! pending lines c) c = (s', wrap 64 next) /\ transits s s' c next [].
Proof.
  intros Er Hr Hc Hl. pose proof (lookup_range_ok _ _ Er) as Hrk. pose proof (pending_ends _ _ _ Er) as Hre.
  unfold covered_by_range.
  set (s' := if bool_decide (Some (fr_function r) <> last_function_cited s) then _ else s).
  assert (functions_ s' = functions_ s) as Hf by (unfold s'; by destruct (bool_decide _)).
  exists s'. destruct (elem_endpoints_range _ _ Er) as [_ Hend].
  destruct (lines !! pending lines c) as [l|] eqn:El.
  - pose proof (lookup_line_ok _ _ El) as Hlk. cbn [reached] in Hl. apply Z.leb_gt in Hl.
    assert (within r (code_address l) = (item_address r <=? item_address l) && (item_address l <? item_end r)) as ->.
    { apply within_spec; [done|]. exact (ok_address l Hlk). }
    rewrite (proj2 (Z.leb_le (item_address r) (item_address l))) by lia. cbn [andb].
    destruct (Z.ltb_spec (item_address l) (item_end r)).
    + exists (item_address l). split; [f_equal; symmetry; apply wrap_small, (ok_address l Hlk)|].
      apply transits_uncovered; try done; rewrite ?Er, ?El; try done.
      * split; [done|]. apply ok_address in Hlk. unfold uint in Hlk. lia.
      * by eapply elem_endpoints_line.
      * split; lia.
      * by apply steady_later.
      * cbn [reached]. rewrite (proj2 (Z.leb_gt (item_address l) c)) by done. apply andb_false_r.
    + exists (item_end r). split; [done|]. apply transits_uncovered; try done; rewrite ?Er, ?El; try done.
      * split; [done|]. apply Hrk.
      * split; lia.
      * apply steady_later; [done|lia].
      * cbn [reached]. rewrite (proj2 (Z.leb_gt (item_address l) c)) by done. apply andb_false_r.
  - exists (item_end r). split; [done|]. apply transits_uncovered; try done; rewrite ?Er, ?El; try done.
    + split; [done|]. apply Hrk.
    + split; lia.
    + apply andb_false_r.
Qed.

(** A line, but no range. *)
Lemma line_spec s c l :
  lines !! pending lines c = Some l -> item_address l <= c -> 0 <= c ->
  reached (ranges !! pending ranges c) c = false ->
  exists s' next, covered_by_line s (ranges !! pending ranges c) l (pending lines c) c = (s', wrap 64 next) /\
    transits s s' c next [].
Proof.
  intros El Hl Hc Hr. pose proof (lookup_line_ok _ _ El) as Hlk. pose proof (pending_ends _ _ _ El) as Hle.
  unfold covered_by_line. cbv zeta.
  set (s' := if _ && negb _ then _ else s).
  assert (functions_ s' = functions_ s) as Hf by (unfold s'; by destruct (_ && negb _)).
  exists s'. destruct (elem_endpoints_line _ _ El) as [_ Hend].
  destruct (ranges !! pending ranges c) as [r|] eqn:Er.
  - pose proof (lookup_range_ok _ _ Er) as Hrk. cbn [reached] in Hr. apply Z.leb_gt in Hr.
    assert (within l (fr_address r) = (item_address l <=? item_address r) && (item_address r <? item_end l)) as ->.
    { apply within_spec; [done|]. exact (ok_address r Hrk). }
    rewrite (proj2 (Z.leb_le (item_address l) (item_address r))) by lia. cbn [andb].
    destruct (Z.ltb_spec (item_address r) (item_end l)).
    + exists (item_address r). split; [f_equal; symmetry; apply wrap_small, (ok_address r Hrk)|].
      apply transits_uncovered; try done; rewrite ?Er, ?El; try done.
      * split; [done|]. apply ok_address in Hrk. unfold uint in Hrk. lia.
      * by eapply elem_endpoints_range.
      * by apply steady_later.
      * split; lia.
      * cbn [reached]. by rewrite (proj2 (Z.leb_gt (item_address r) c)).
    + exists (item_end l). split; [done|]. apply transits_uncovered; try done; rewrite ?Er, ?El; try done.
      * split; [done|]. apply Hlk.
      * apply steady_later; [done|lia].
      * split; lia.
      * cbn [reached]. by rewrite (proj2 (Z.leb_gt (item_address r) c)).
  - exists (item_end l). split; [done|]. apply transits_uncovered; try done; rewrite ?Er, ?El; try done.
    + split; [done|]. apply Hlk.
    + split; lia.
Qed.

Lemma transition_spec s c :
  0 <= c -> ranges !! pending ranges c <> None \/ lines !! pending lines c <> None ->
  exists s' next parts,
    transition s (ranges !! pending ranges c) (lines !! pending lines c) (pending lines c) c = Ok (s', wrap 64 next) /\
    transits s s' c next parts.
Proof.
  intros Hc Hsome. unfold transition.
  destruct (reached (ranges !! pending ranges c) c) eqn:Hr, (reached (lines !! pending lines c) c) eqn:Hl.
  - destruct (ranges !! pending ranges c) as [r|] eqn:Er; [|done].
    destruct (lines !! pending lines c) as [l|] eqn:El; [|done]. cbn [reached] in Hr, Hl. apply Z.leb_le in Hr, Hl.
    destruct (both_spec s c r l Er El Hr Hl Hc) as (s' & next & parts & -> & Ht). by exists s', next, parts.
  - destruct (ranges !! pending ranges c) as [r|] eqn:Er; [|done]. pose proof Hr as Hr'. cbn [reached] in Hr'.
    apply Z.leb_le in Hr'. destruct (range_spec s c r Er Hr' Hc Hl) as (s' & next & E & Ht).
    exists s', next, []. split; [|done]. destruct (lines !! pending lines c) as [l|]; by rewrite E.
  - destruct (lines !! pending lines c) as [l|] eqn:El; [|done]. pose proof Hl as Hl'. cbn [reached] in Hl'.
    apply Z.leb_le in Hl'. destruct (line_spec s c l El Hl' Hc Hr) as (s' & next & E & Ht).
    exists s', next, []. split; [|done]. destruct (ranges !! pending ranges c) as [r|]; by rewrite E.
  - destruct (ranges !! pending ranges c) as [r|] eqn:Er, (lines !! pending lines c) as [l|] eqn:El;
      cbn [reached] in Hr, Hl; try apply Z.leb_gt in Hr; try apply Z.leb_gt in Hl; [| | |by destruct Hsome].
    + pose proof (ok_address _ (lookup_range_ok _ _ Er)) as Hru. pose proof (ok_address _ (lookup_line_ok _ _ El)) as Hlu.
      pose proof (pending_ends _ _ _ Er). pose proof (pending_ends _ _ _ El).
      pose proof (lookup_range_ok _ _ Er) as Hrk. pose proof (lookup_line_ok _ _ El) as Hlk.
      exists s, (Z.min (item_address r) (item_address l)), []. unfold uint in *.
      split; [do 2 f_equal; symmetry; apply wrap_small; unfold uint; cbn [item_address range_item line_item] in *; lia|].
      apply transits_uncovered; try done; rewrite ?Er, ?El; try done.
      * lia.
      * destruct (Z.min_spec (item_address r) (item_address l)) as [[_ ->]|[_ ->]];
          [by eapply elem_endpoints_range|by eapply elem_endpoints_line].
      * apply steady_later; [done|lia].
      * apply steady_later; [done|lia].
      * cbn [reached]. by rewrite (proj2 (Z.leb_gt (item_address r) c)).
    + pose proof (ok_address _ (lookup_range_ok _ _ Er)) as Hru. pose proof (lookup_range_ok _ _ Er) as Hrk.
      exists s, (item_address r), []. split; [do 2 f_equal; by symmetry; apply wrap_small|]. unfold uint in Hru.
      apply transits_uncovered; try done; rewrite ?Er, ?El; try done.
      * lia.
      * by eapply elem_endpoints_range.
      * apply steady_later; [done|lia].
      * cbn [reached]. by rewrite (proj2 (Z.leb_gt (item_address r) c)).
    + pose proof (ok_address _ (lookup_line_ok _ _ El)) as Hlu. pose proof (lookup_line_ok _ _ El) as Hlk.
      exists s, (item_address l), []. split; [do 2 f_equal; by symmetry; apply wrap_small|]. unfold uint in Hlu.
      apply transits_uncovered; try done; rewrite ?Er, ?El; try done.
      * lia.
      * by eapply elem_endpoints_line.
      * apply steady_later; [done|lia].
Qed.
End pass.

(** ** The whole pass *)

(** The number of places where the pass may still stop. *)
Definition remaining (points : list Z) (c : Z) : nat := length (filter (fun e => c < e) points).

Lemma remaining_less points c next : c < next -> next ∈ points -> (remaining points next < remaining points c)%nat.
Proof.
  intros Hn. unfold remaining. induction points as [|e points IH]; intros Hin; [by apply elem_of_nil in Hin|].
  assert (length (filter (fun e => (next < e)%Z) points) <= length (filter (fun e => (c < e)%Z) points))%nat as Hle.
  { clear IH Hin. induction points as [|x points IH]; [done|]. rewrite !filter_cons.
    destruct (decide (next < x)), (decide (c < x)); cbn; lia. }
  rewrite !filter_cons. apply elem_of_cons in Hin as [->|Hin].
  - rewrite decide_False, decide_True by lia. cbn. lia.
  - specialize (IH Hin). destruct (decide (next < e)), (decide (c < e)); cbn; lia.
Qed.

Section loop.
Context (ranges : list FunctionRange) (lines : list CodeLine).
Hypothesis Hranges : Forall item_ok ranges.
Hypothesis Hlines : Forall item_ok lines.

Lemma endpoints_length : length (endpoints ranges lines) = (2 * (length ranges + length lines))%nat.
Proof.
  unfold endpoints. rewrite length_app, !length_concat, !map_map. cbn [length].
  assert (forall {A} (l : list A), sum_list (map (fun _ => 2%nat) l) = (2 * length l)%nat) as E.
  { intros A l. induction l as [|x l IH]; cbn; [done|]. rewrite IH. lia. }
  rewrite !E. lia.
Qed.

Lemma invariant_holds {A} `{!Item A} (items : list A) c :
  Forall item_ok items -> uint 64 c -> after_or_within (items !! pending items c) c = true.
Proof.
  intros Hok Hc. destruct (items !! pending items c) as [it|] eqn:E; [|done]. pose proof (pending_ends _ _ _ E).
  assert (item_ok it) as Hit by (by eapply Forall_lookup_1). cbn [after_or_within].
  rewrite within_spec by done. destruct (Z.ltb_spec c (item_address it)), (Z.leb_spec (item_address it) c),
    (Z.ltb_spec c (item_end it)); cbn; done || lia.
Qed.

(** What is given from [c] on. *)
Definition gives (c : Z) (parts : list part) : Prop :=
  parts_from c parts /\
  (forall i p, (i, p) ∈ parts -> inside_range ranges i p) /\
  forall a, c <= a < kMaxAddress -> forall i file number,
    given parts a i file number <-> covered_at (at_pending ranges a) (at_pending lines a) i file number.

Lemma gives_app s s' c next parts parts' :
  transits ranges lines s s' c next parts -> gives next parts' -> gives c (parts ++ parts').
Proof.
  intros [_ Hp Hb Hi Hn _ Hg] (Hp' & Hi' & Hg'). split; [|split; [intros i p [Hq|Hq]%elem_of_app; auto|]].
  - clear Hg Hg' Hi Hi'. assert (forall c, c <= next -> parts_from c parts -> parts_from c (parts ++ parts')) as Happ; [|by apply Happ; [lia|]].
    clear Hp Hn. induction parts as [|[i p] parts IH]; intros k Hk Hpk; cbn [app parts_from] in *.
    + by eapply parts_from_le.
    + destruct Hpk as (H1 & H2 & H3 & H4). split; [done|]. split; [done|]. split; [done|]. apply IH; [|by eapply Hb, list_elem_of_here|done].
      intros j q Hq. by eapply Hb, list_elem_of_further.
  - intros a Ha i file number.
    assert (given (parts ++ parts') a i file number <-> given parts a i file number \/ given parts' a i file number) as ->.
    { unfold given. setoid_rewrite elem_of_app. split; [intros (p & [H1|H1] & H2); [left|right]; eauto|].
      intros [(p & H1 & H2)|(p & H1 & H2)]; eauto. }
    destruct (decide (a < next)) as [Hlt|Hge].
    + rewrite (Hg a i file number) by lia. split; [|by left]. intros [H|(p & Hq & Hc & _)]; [done|].
      pose proof (parts_from_after _ _ _ _ _ Hp' Hq Hc). lia.
    + rewrite (Hg' a) by lia. split; [|by right]. intros [(p & Hq & Hc & _)|H]; [|done].
      pose proof (Hb _ _ Hq). unfold contains in Hc. lia.
Qed.

Lemma gives_nothing c : pending ranges c = length ranges -> pending lines c = length lines -> gives c [].
Proof.
  intros Hr Hl. split; [done|]. split; [intros i p Hp; by apply elem_of_nil in Hp|]. intros a Ha i file number. split.
  - intros (p & Hp & _). by apply elem_of_nil in Hp.
  - intros (r & l & Er & _). unfold at_pending in Er.
    rewrite (pending_stays ranges c a) in Er; [|lia|by rewrite Hr, lookup_ge_None_2].
    by rewrite Hr, lookup_ge_None_2 in Er.
Qed.

Lemma pending_None {A} `{!Item A} (items : list A) c : items !! pending items c = None -> pending items c = length items.
Proof.
  intros H%lookup_ge_None. pose proof (prefix_len_le (fun it => item_end it <=? c) items). unfold pending in *. lia.
Qed.

Lemma assign_loop_spec fuel : forall s c,
  0 <= c < kMaxAddress -> (remaining (endpoints ranges lines) c < fuel)%nat ->
  exists s' parts,
    assign_loop fuel ranges lines s (pending ranges c) (pending lines c) c = Ok s' /\
    functions_ s' = push_parts (functions_ s) parts /\ gives c parts.
Proof.
  unfold kMaxAddress. induction fuel as [|fuel IH]; intros s c Hc Hf; [lia|]. cbn [assign_loop].
  case_bool_decide as Hnone.
  { destruct Hnone as [Hr%pending_None Hl%pending_None]. exists s, []. split; [done|]. split; [done|].
    by apply gives_nothing. }
  rewrite !invariant_holds by (done || unfold uint; lia). cbn [andb negb].
  destruct (transition_spec ranges lines Hranges Hlines s c) as (s1 & next & parts & -> & Ht); [lia| |].
  { destruct (ranges !! pending ranges c), (lines !! pending lines c); [by left..|by right|by destruct Hnone]. }
  cbn [obind]. pose proof (tr_progress _ _ _ _ _ _ _ Ht) as Hn.
  destruct (decide (2 ^ 64 - 1 <= next)) as [Hend|Hnext].
  - assert ((wrap 64 next =? 0) || (wrap 64 next =? kMaxAddress) = true) as ->.
    { unfold kMaxAddress. destruct (decide (next = 2 ^ 64)) as [->|]; [done|].
      rewrite wrap_small by (unfold uint; lia). apply orb_true_iff. right. apply Z.eqb_eq. lia. }
    exists s1, parts. split; [done|]. split; [apply Ht|]. rewrite <- (app_nil_r parts).
    eapply gives_app; [done|]. split; [done|]. split; [intros i p Hp; by apply elem_of_nil in Hp|].
    unfold kMaxAddress. lia.
  - rewrite wrap_small by (unfold uint; lia). unfold kMaxAddress.
    rewrite !(proj2 (Z.eqb_neq next _)) by lia. cbn [orb].
    rewrite !advance_it_spec by (done || unfold uint; lia). rewrite (proj2 (Z.ltb_lt _ _)) by lia.
    pose proof (remaining_less _ _ _ (proj1 Hn) (tr_endpoint _ _ _ _ _ _ _ Ht)).
    destruct (IH s1 next) as (s' & parts' & -> & Hs' & Hg); [lia|lia|].
    exists s', (parts ++ parts'). split; [done|].
    split; [by rewrite push_parts_app, Hs', (tr_functions _ _ _ _ _ _ _ Ht)|]. by eapply gives_app.
Qed.
End loop.

(** ** AssignLinesToFunctions *)

Lemma push_line_twice f l1 l2 :
  push_line (push_line f l1) l2 = mkCodeFunction (code_name f) (code_entry f) (code_ranges f) (code_parameter_size f)
    (code_lines f ++ [l1] ++ [l2]).
Proof. unfold push_line. cbn. by rewrite <- app_assoc. Qed.

(** The parts of one function. *)
Definition parts_of (i : nat) (parts : list part) : list CodeLine :=
  map snd (filter (fun p => p.1 = i) parts).

Definition add_lines (f : CodeFunction) (new : list CodeLine) : CodeFunction :=
  mkCodeFunction (code_name f) (code_entry f) (code_ranges f) (code_parameter_size f) (code_lines f ++ new).

Lemma push_parts_lookup parts : forall fs i,
  push_parts fs parts !! i = (fun f => add_lines f (parts_of i parts)) <$> fs !! i.
Proof.
  induction parts as [|[j p] parts IH]; intros fs i; cbn [push_parts fold_left].
  { destruct (fs !! i) as [f|]; [|done]. cbn. unfold add_lines. rewrite app_nil_r. by destruct f. }
  change (fold_left _ parts ?x) with (push_parts x parts). rewrite IH. unfold parts_of. rewrite filter_cons. cbn [fst snd].
  destruct (decide (j = i)) as [->|Hne].
  - rewrite list_lookup_alter_eq. destruct (fs !! i) as [f|]; [|done]. cbn. unfold add_lines. cbn.
    by rewrite <- app_assoc.
  - by rewrite list_lookup_alter_ne.
Qed.

Lemma parts_of_elem i parts p : p ∈ parts_of i parts <-> (i, p) ∈ parts.
Proof.
  unfold parts_of. rewrite list_elem_of_fmap. setoid_rewrite list_elem_of_filter. split.
  - by intros ([j q] & -> & <- & Hq).
  - intros Hp. by exists (i, p).
Qed.

(** Lines that follow each other from [c] on. *)
Fixpoint lines_from (c : Z) (ls : list CodeLine) : Prop :=
  match ls with
  | [] => True
  | l :: ls => c <= code_address l /\ 0 < code_size l /\ item_end l <= 2 ^ 64 /\ lines_from (item_end l) ls
  end.

Lemma lines_from_le c c' ls : c' <= c -> lines_from c ls -> lines_from c' ls.
Proof. destruct ls as [|l ls]; cbn; [done|]. intuition lia. Qed.

Lemma parts_of_from i parts : forall c, parts_from c parts -> lines_from c (parts_of i parts).
Proof.
  induction parts as [|[j p] parts IH]; intros c Hp; [done|]. destruct Hp as (H1 & H2 & H3 & H4).
  unfold parts_of. rewrite filter_cons. cbn [fst]. destruct (decide (j = i)); cbn [map snd lines_from].
  - split; [done|]. split; [done|]. split; [done|]. by apply IH.
  - eapply lines_from_le; [|by apply IH]. unfold item_end. cbn [item_address item_size line_item]. lia.
Qed.

(** The line and the function at every address: the first line and the first
    range around it, in the order of their addresses. *)
Definition assigned (ranges : list FunctionRange) (lines : list CodeLine) (i : nat) (new : list CodeLine) : Prop :=
  lines_from 0 new /\
  Forall (inside_range ranges i) new /\
  forall a, 0 <= a < kMaxAddress -> forall file number,
    (exists p, p ∈ new /\ contains p a /\ code_file p = file /\ code_number p = number) <->
    covered_at (cover ranges a) (cover lines a) i file number.

(** The ranges of a function lie in the address space. *)
Definition ranges_ok (f : CodeFunction) : Prop :=
  Forall (fun r => range_size r <> 0 -> item_ok (mkFunctionRange (range_address r) (range_size r) 0)) (code_ranges f).

Lemma function_ranges_ok i functions : Forall ranges_ok functions -> Forall item_ok (function_ranges i functions).
Proof.
  intros Hf. revert i. induction Hf as [|f functions Hf _ IH]; intros i; cbn [function_ranges]; [constructor|].
  apply Forall_app. split; [|apply IH]. apply Forall_forall. intros r [Hne Hr]%list_elem_of_filter.
  apply list_elem_of_fmap in Hr as (x & -> & Hx). unfold ranges_ok in Hf. rewrite Forall_forall in Hf. by apply Hf.
Qed.

(** The first address is where the first item begins. *)
Lemma cover_before {A} `{!Item A} (items : list A) c a :
  Forall (fun it => c <= item_address it) items -> a < c -> cover items a = None.
Proof.
  unfold cover. intros Hc Ha. induction Hc as [|it items Hit _ IH]; [done|].
  by rewrite filter_cons, decide_False by (unfold contains; lia).
Qed.

Lemma pending_first {A} `{!Item A} (items : list A) c :
  Forall item_ok items -> Forall (fun it => c <= item_address it) items -> pending items c = O.
Proof.
  intros Hok Hc. destruct items as [|it items]; [done|]. apply Forall_cons in Hok as [Hok%ok_end _].
  apply Forall_cons in Hc as [Hc _]. unfold pending. cbn. by rewrite (proj2 (Z.leb_gt _ _)) by lia.
Qed.

(** The first address, below all items, when there are any. *)
Lemma first_address_spec ranges lines :
  StronglySorted (fun x y => fr_address x <= fr_address y) ranges ->
  StronglySorted (fun x y => code_address x <= code_address y) lines ->
  match first_address ranges lines with
  | Some c => Forall (fun it => c <= item_address it) ranges /\ Forall (fun it => c <= item_address it) lines /\
              (Forall item_ok ranges -> Forall item_ok lines -> uint 64 c)
  | None => ranges = [] /\ lines = []
  end.
Proof.
  intros [|r rs Hrs Hr] [|l ls Hls Hl]; cbn [first_address]; try done.
  - split; [done|]. split; [constructor; [cbn; lia|exact Hl]|]. intros _ Hok%Forall_cons. exact (ok_address l (proj1 Hok)).
  - split; [constructor; [cbn; lia|exact Hr]|]. split; [done|]. intros Hok%Forall_cons _. exact (ok_address r (proj1 Hok)).
  - split; [|split].
    + constructor; [cbn; lia|]. eapply Forall_impl; [exact Hr|]. cbn. lia.
    + constructor; [cbn; lia|]. eapply Forall_impl; [exact Hl|]. cbn. lia.
    + intros [Hr0%ok_address _]%Forall_cons [Hl0%ok_address _]%Forall_cons. unfold uint in *.
      cbn [item_address range_item line_item] in *. lia.
Qed.

Lemma AssignLines_spec `{!StdSort} (functions : list CodeFunction) (lines : list CodeLine) :
  Forall ranges_ok functions -> Forall item_ok lines ->
  let fs := std_sort code_entry functions in
  let ls := std_sort code_address lines in
  let rs := FillSortedFunctionRanges fs in
  exists functions' reports,
    AssignLinesToFunctions functions lines = Ok (functions', ls, reports) /\
    length functions' = length fs /\
    forall i f, fs !! i = Some f ->
      exists new, functions' !! i = Some (add_lines f new) /\ assigned rs ls i new.
Proof.
  intros Hf Hl fs ls rs.
  assert (Forall item_ok rs) as Hrs.
  { unfold rs, FillSortedFunctionRanges. rewrite std_sort_perm. apply function_ranges_ok. unfold fs. by rewrite std_sort_perm. }
  assert (Forall item_ok ls) as Hls by (unfold ls; by rewrite std_sort_perm).
  assert (StronglySorted (fun x y => fr_address x <= fr_address y) rs) as Hsr by apply std_sort_sorted.
  assert (StronglySorted (fun x y => code_address x <= code_address y) ls) as Hsl by apply std_sort_sorted.
  assert (forall functions' parts, functions' = push_parts fs parts -> parts_from 0 parts ->
    (forall i p, (i, p) ∈ parts -> inside_range rs i p) ->
    (forall a, 0 <= a < kMaxAddress -> forall i file number,
      given parts a i file number <-> covered_at (cover rs a) (cover ls a) i file number) ->
    length functions' = length fs /\
    forall i f, fs !! i = Some f -> exists new, functions' !! i = Some (add_lines f new) /\ assigned rs ls i new) as Hdone.
  { intros functions' parts -> Hp Hi Hg. split.
    - clear. unfold push_parts. generalize fs. induction parts as [|p parts IH]; intros l; cbn; [done|].
      by rewrite IH, length_alter.
    - intros i f Ef. exists (parts_of i parts). rewrite push_parts_lookup, Ef. split; [done|].
      split; [by apply parts_of_from|]. split; [apply Forall_forall; intros p Hq%parts_of_elem; auto|]. intros a Ha file number. rewrite <- Hg by done. unfold given.
      by setoid_rewrite parts_of_elem. }
  assert (forall a i file number, cover rs a = None -> given [] a i file number <->
    covered_at (cover rs a) (cover ls a) i file number) as Hempty.
  { intros a i file number E. split; [intros (p & Hp & _); by apply elem_of_nil in Hp|].
    intros (r & l & Er & _). congruence. }
  pose proof (first_address_spec rs ls Hsr Hsl) as Hfirst. unfold AssignLinesToFunctions. fold fs ls rs.
  destruct (first_address rs ls) as [c|].
  - destruct Hfirst as (H1 & H2 & Hc). specialize (Hc Hrs Hls). destruct (Z.eqb_spec c kMaxAddress) as [->|Hne].
    + exists fs, []. split; [done|]. apply (Hdone fs []); [done|done|by intros i p ?%elem_of_nil|].
      intros a Ha i file number. apply Hempty. eapply cover_before; [exact H1|lia].
    + unfold kMaxAddress, uint in *.
      destruct (assign_loop_spec rs ls Hrs Hls (assign_fuel rs ls) (mkAssignState fs [] None None None) c)
        as (s' & parts & E & Es & Hp & Hi & Hg); [unfold kMaxAddress; lia| |].
      { unfold assign_fuel. pose proof (endpoints_length rs ls).
        pose proof (length_filter (fun e => c < e) (endpoints rs ls)). unfold remaining. lia. }
      rewrite !pending_first in E by done. rewrite E. cbn [obind]. exists (functions_ s'), (reports_ s').
      split; [done|]. apply (Hdone _ parts); [done|eapply parts_from_le; [|exact Hp]; lia|done|].
      intros a Ha i file number. destruct (decide (a < c)) as [Hlt|Hge].
      * split; [intros (p & Hq & Hcon & _); pose proof (parts_from_after _ _ _ _ _ Hp Hq Hcon); lia|].
        intros (r & l & Er & _). by rewrite (cover_before rs c) in Er.
      * rewrite <- !at_pending_cover by done. apply Hg. unfold kMaxAddress in *. lia.
  - destruct Hfirst as [Er El]. exists fs, []. split; [done|]. apply (Hdone fs []); [done|done|by intros i p ?%elem_of_nil|].
    intros a Ha i file number. apply Hempty. by rewrite Er.
Qed.

(** C16: for functions and lines whose ranges end in the address space,
    overlapping or not and in any order, [AssignLinesToFunctions] returns: no
    assertion fails and the pass ends.  Every function gets, behind the lines it
    had, lines that follow each other without overlapping, each inside one of
    its ranges, and an address but the last of the address space is in a line
    of a file and a number exactly if the first range around it is of the
    function and the first line around it has that file and number. *)
Theorem AssignLinesToFunctions_functional `{!StdSort} (functions : list CodeFunction) (lines : list CodeLine) :
  Forall ranges_ok functions -> Forall item_ok lines ->
  let fs := std_sort code_entry functions in
  let ls := std_sort code_address lines in
  let rs := FillSortedFunctionRanges fs in
  exists functions' reports,
    AssignLinesToFunctions functions lines = Ok (functions', ls, reports) /\
    length functions' = length fs /\
    forall i f, fs !! i = Some f ->
      exists new, functions' !! i = Some (add_lines f new) /\ assigned rs ls i new.
Proof. apply AssignLines_spec. Qed.

(** ** Examples *)

(** Merge sort is one. *)
Definition key_le {A} (key : A -> Z) (x y : A) : Prop := key x <= key y.

#[local] Instance key_le_dec {A} (key : A -> Z) x y : Decision (key_le key x y).
Proof. unfold key_le. apply _. Defined.

#[local] Instance key_le_trans {A} (key : A -> Z) : Transitive (key_le key).
Proof. intros x y z. unfold key_le. lia. Qed.

#[local] Instance key_le_total {A} (key : A -> Z) : Total (key_le key).
Proof. intros x y. unfold key_le. lia. Qed.

#[export] Instance merge_StdSort : StdSort := {
  std_sort A key l := merge_sort (key_le key) l;
  std_sort_perm A key l := merge_sort_Permutation (key_le key) l;
  std_sort_sorted A key l := StronglySorted_merge_sort (key_le key) l;
}.

Definition example_f (name : chars) (ranges : list AddressRange) : CodeFunction :=
  mkCodeFunction name (default 0 (range_address <$> head ranges)) ranges 0 [].

(** Two functions and two lines; the second line goes on in the second
    function. *)
Definition example_functions : list CodeFunction :=
  [example_f (str "g") [mkAddressRange 0x401004 8]; example_f (str "f") [mkAddressRange 0x401000 4]].
Definition example_lines : list CodeLine := [mkCodeLine 0x401002 8 1 4; mkCodeLine 0x401000 2 1 1].

Lemma AssignLinesToFunctions_functional_witness :
  (exists functions' reports,
    AssignLinesToFunctions example_functions example_lines =
      Ok (functions', std_sort code_address example_lines, reports) /\
    length functions' = length (std_sort code_entry example_functions)) /\
  (let? (functions, _, reports) := AssignLinesToFunctions example_functions example_lines in
   Ok (map (fun f => (code_name f, code_lines f)) functions, reports)) =
    Ok ([(str "f", [mkCodeLine 0x401000 2 1 1; mkCodeLine 0x401002 2 1 4]);
         (str "g", [mkCodeLine 0x401004 6 1 4])], [UncoveredFunction 1]).
Proof.
  split; [|vm_compute; reflexivity].
  destruct (AssignLinesToFunctions_functional example_functions example_lines) as (functions' & reports & E & Hl & _).
  - repeat constructor; cbn; unfold item_end; cbn; lia.
  - repeat constructor; cbn; unfold item_end; cbn; lia.
  - by exists functions', reports.
Defined.

(** A range that goes past the end of the address space makes the assertion
    that the pass advances fail. *)
Example wrapping_range :
  AssignLinesToFunctions [example_f (str "f") [mkAddressRange 0x10 (2 ^ 64 - 8)]] [] = Undef.
Proof. vm_compute. reflexivity. Qed.

(** A .debug_line_str section makes [ReadSourceLines] return before it reads
    the program. *)
Lemma debug_line_str_ignored mem r comp section_map m lines offset section line_str :
  debug_line section_map = Some section -> offset < section.2 -> debug_line_str section_map = Some line_str ->
  ReadSourceLines mem r comp section_map m lines offset = Ok (m, lines, r, []).
Proof.
  intros Hs Ho Hl. unfold ReadSourceLines. rewrite Hs, Hl. destruct section as [first second]. cbn in Ho.
  by rewrite (proj2 (Z.leb_gt _ _)).
Qed.
