(* ===== verification/DwarfLineLookup.v ===== *)
(** * Line numbers from DWARF to a stack frame

    The way of a line: the program of a unit in .debug_line ([DwarfLine]), the
    handler ([DwarfLineModule]), the functions of the unit ([DwarfLineAssign]),
    the symbol file and the module loaded from it ([DumpLoad]), and
    [LookupAddress] ([SymbolModule]).  The main theorem is that a frame inside a
    function gets the name of the function and the file and line of the row that
    covers its instruction. *)

From S2P Require Import Prelude OrderedMap LibcSupport Tokens Memory ByteReader DwarfFields DwarfLine DwarfLineSpec RangeMap SymbolRecords SymbolModule SymbolParser SymbolLoad SymbolDumper DumpLoad DwarfLineModule DwarfLineAssign.
#[local] Open Scope Z_scope.

(** ** Rows *)

(** The rows of a sequence, each with the address where it ends. *)
Fixpoint stretches (r : Row) (rest : list Row) (end_ : Z) : list (Row * Z) :=
  match rest with
  | [] => [(r, end_)]
  | r' :: rest => (r, row_address r') :: stretches r' rest end_
  end.

(** The sequences that are not dropped. *)
Fixpoint kept_sequences (dropped_end : Z) (ss : list LineSequence) : list LineSequence :=
  match ss with
  | [] => []
  | s :: ss =>
      if seq_start s =? seq_end s then kept_sequences dropped_end ss
      else if (seq_start s =? 0) || (seq_start s =? dropped_end) then kept_sequences (seq_end s) ss
      else s :: kept_sequences 0 ss
  end.

(** [r] is a row of a kept sequence and covers the address [a]. *)
Definition row_over (ss : list LineSequence) (a : Z) (r : Row) : Prop :=
  exists s e, s ∈ kept_sequences 0 ss /\ (r, e) ∈ stretches (seq_first s) (seq_rest s) (seq_end s) /\
    row_address r <= a < e.

(** The line of a row. *)
Definition line_of_row (file : nat) (r : Row) (e : Z) : CodeLine :=
  mkCodeLine (row_address r) (e - row_address r) file (swrap 32 (row_line r)).

Definition row_makes (file : Z -> option nat) (rows : list (Row * Z)) (l : CodeLine) : Prop :=
  exists r e f, (r, e) ∈ rows /\ row_address r < e /\ file (row_file r) = Some f /\ l = line_of_row f r e.

Lemma row_makes_cons file r e rows l :
  row_makes file ((r, e) :: rows) l <->
  row_makes file [(r, e)] l \/ row_makes file rows l.
Proof. unfold row_makes. setoid_rewrite elem_of_cons. setoid_rewrite elem_of_nil. naive_solver. Qed.

Lemma row_line_to_makes file r e l : l ∈ row_line_to file r e <-> row_makes file [(r, e)] l.
Proof.
  unfold row_line_to, row_makes. split.
  - destruct (Z.ltb_spec (row_address r) e) as [Hlt|]; [|by intros ?%elem_of_nil].
    destruct (file (row_file r)) as [f|] eqn:Ef; [|by intros ?%elem_of_nil].
    intros ->%list_elem_of_singleton. exists r, e, f. by rewrite list_elem_of_singleton.
  - intros (r' & e' & f & [= -> ->]%list_elem_of_singleton & Hlt & Ef & ->).
    rewrite (proj2 (Z.ltb_lt _ _)), Ef by done. by apply list_elem_of_singleton.
Qed.

Lemma row_lines_makes file rest : forall r end_ l,
  l ∈ row_lines file r rest end_ <-> row_makes file (stretches r rest end_) l.
Proof.
  induction rest as [|r' rest IH]; intros r end_ l; cbn [row_lines stretches].
  - apply row_line_to_makes.
  - by rewrite elem_of_app, row_makes_cons, IH, row_line_to_makes.
Qed.

Lemma kept_lines_makes file ss : forall o l,
  l ∈ kept_lines file o ss <->
  exists s, s ∈ kept_sequences o ss /\ row_makes file (stretches (seq_first s) (seq_rest s) (seq_end s)) l.
Proof.
  induction ss as [|s ss IH]; intros o l; cbn [kept_lines kept_sequences].
  { split; [by intros ?%elem_of_nil|by intros (s & ?%elem_of_nil & _)]. }
  unfold seq_kept. destruct (seq_start s =? seq_end s); [apply IH|].
  destruct ((seq_start s =? 0) || (seq_start s =? o)); [apply IH|].
  rewrite elem_of_app, IH. unfold seq_lines. rewrite row_lines_makes. setoid_rewrite elem_of_cons. naive_solver.
Qed.

Lemma kept_elem o ss s : s ∈ kept_sequences o ss -> s ∈ ss.
Proof.
  revert o. induction ss as [|s' ss IH]; intros o; cbn; [done|].
  destruct (_ =? _); [by right; eapply IH|]. destruct (_ || _); [by right; eapply IH|].
  intros [->|H]%elem_of_cons; [left|right; eauto].
Qed.

Lemma stretches_bounds rest : forall r end_ q e,
  ascending r rest end_ -> (q, e) ∈ stretches r rest end_ -> 0 <= row_address q /\ e < 2 ^ 64.
Proof.
  induction rest as [|r' rest IH]; intros r end_ q e Ha; cbn [stretches]; pose proof Ha as [Hr Ha'].
  - intros [= -> ->]%list_elem_of_singleton. unfold uint in *. lia.
  - destruct Ha' as [_ Ha']. intros [[= -> ->]|Hq]%elem_of_cons; [|by eapply IH].
    pose proof (ascending_bounds _ _ _ Ha'). unfold uint in *. lia.
Qed.

Lemma kept_lines_ok file ss : Forall seq_ascending ss -> Forall item_ok (kept_lines file 0 ss).
Proof.
  intros Hss. apply Forall_forall. intros l (s & Hs%kept_elem & r & e & f & Hr & Hlt & _ & ->)%kept_lines_makes.
  rewrite Forall_forall in Hss. destruct (stretches_bounds _ _ _ _ _ (Hss s Hs) Hr).
  unfold item_ok, item_end, line_of_row. cbn. lia.
Qed.

(** A kept line over [a] is that of a row over [a]. *)
Lemma kept_lines_row file ss l a :
  l ∈ kept_lines file 0 ss -> contains l a ->
  exists r, row_over ss a r /\ file (row_file r) = Some (code_file l) /\ code_number l = swrap 32 (row_line r).
Proof.
  intros (s & Hs & r & e & f & Hr & Hlt & Ef & ->)%kept_lines_makes Ha. exists r.
  split; [|done]. exists s, e. unfold contains, item_end, line_of_row in Ha. cbn in Ha. split; [done|]. split; [done|lia].
Qed.

Lemma row_kept_line file ss r f a :
  row_over ss a r -> file (row_file r) = Some f -> exists l, l ∈ kept_lines file 0 ss /\ contains l a.
Proof.
  intros (s & e & Hs & Hr & Ha) Ef. exists (line_of_row f r e).
  split; [|unfold contains, item_end, line_of_row; cbn; lia].
  apply kept_lines_makes. exists s. split; [done|]. exists r, e, f. split; [done|]. split; [lia|done].
Qed.

(** ** The lines below a range *)

(** The ranges of a function as [Write] needs them: in order, apart, and not
    ending with the address space. *)
Fixpoint ranges_from (c : Z) (ranges : list AddressRange) : Prop :=
  match ranges with
  | [] => True
  | r :: ranges =>
      c <= range_address r /\ 0 < range_size r /\ range_address r + range_size r < 2 ^ 64 /\
      ranges_from (range_address r + range_size r) ranges
  end.

Definition in_a_range (ranges : list AddressRange) (l : CodeLine) : Prop :=
  exists r, r ∈ ranges /\ range_address r <= code_address l /\ item_end l <= range_address r + range_size r.

Lemma ranges_from_elem c ranges r :
  ranges_from c ranges -> r ∈ ranges -> c <= range_address r /\ 0 < range_size r /\ range_address r + range_size r < 2 ^ 64.
Proof.
  revert c. induction ranges as [|r' ranges IH]; intros c Hr; [by intros ?%elem_of_nil|].
  destruct Hr as (H1 & H2 & H3 & H4). intros [->|Hin]%elem_of_cons; [done|]. specialize (IH _ H4 Hin). lia.
Qed.

Lemma in_code_range_spec r l :
  0 <= range_address r -> 0 < range_size r -> range_address r + range_size r < 2 ^ 64 ->
  in_code_range r l = true <-> range_address r <= code_address l < range_address r + range_size r.
Proof.
  intros Ha Hs He. unfold in_code_range. rewrite wrap_small by (unfold uint; lia).
  rewrite andb_true_iff, Z.leb_le, Z.ltb_lt. lia.
Qed.

Lemma lines_from_elem c ls l : lines_from c ls -> l ∈ ls -> c <= code_address l /\ 0 < code_size l /\ item_end l <= 2 ^ 64.
Proof.
  revert c. induction ls as [|l' ls IH]; intros c Hl; [by intros ?%elem_of_nil|].
  destruct Hl as (H1 & H2 & H3 & H4). intros [->|Hin]%elem_of_cons; [done|]. specialize (IH _ H4 Hin).
  unfold item_end in *. cbn [item_address item_size line_item] in *. lia.
Qed.

(** The first lines are those inside a range at the front of the others. *)
Lemma prefix_in_range (r : AddressRange) ls : forall c,
  0 <= range_address r -> 0 < range_size r -> range_address r + range_size r < 2 ^ 64 ->
  lines_from c ls -> range_address r <= c ->
  Forall (fun l => item_end l <= range_address r + range_size r \/ range_address r + range_size r <= code_address l) ls ->
  let n := prefix_len (in_code_range r) ls in
  lines_from (range_address r + range_size r) (drop n ls) /\
  Forall (fun l => item_end l <= range_address r + range_size r) (take n ls).
Proof.
  intros c Ha Hs He. revert c. induction ls as [|l ls IH]; intros c Hl Hc Hf; [done|].
  destruct Hl as (H1 & H2 & H3 & H4). apply Forall_cons in Hf as [Hf1 Hf2]. cbn [prefix_len].
  pose proof (in_code_range_spec r l Ha Hs He) as Hin.
  unfold item_end in Hf1, H3, H4. cbn [item_address item_size line_item] in Hf1, H3, H4.
  destruct (in_code_range r l).
  - destruct (IH (code_address l + code_size l)) as [I1 I2]; [done|lia|done|].
    split; [exact I1|]. cbn [take]. constructor; [|exact I2]. unfold item_end. cbn [item_address item_size line_item]. lia.
  - split; [|constructor]. cbn [drop lines_from].
    unfold item_end. cbn [item_address item_size line_item].
    destruct (decide (range_address r <= code_address l < range_address r + range_size r)) as [Hd|Hd]; [|by lia || (split; [lia|done])].
    apply Hin in Hd. done.
Qed.

(** The piece of a range has the lines inside the range. *)
Lemma pieces_of_range ranges : forall c ls r,
  0 <= c -> ranges_from c ranges -> lines_from c ls -> Forall (in_a_range ranges) ls -> r ∈ ranges ->
  exists ls', (r, ls') ∈ pieces_of ranges ls /\
    forall l, l ∈ ls' <-> l ∈ ls /\ range_address r <= code_address l < range_address r + range_size r.
Proof.
  induction ranges as [|r0 ranges IH]; intros c ls r Hc Hr Hl Hin; [by intros ?%elem_of_nil|].
  destruct Hr as (H1 & H2 & H3 & H4). set (e := range_address r0 + range_size r0) in *.
  assert (Forall (fun l => range_address r0 <= code_address l) ls) as Hlow.
  { eapply Forall_impl; [exact Hin|]. intros l (r' & [->|Hr']%elem_of_cons & Hx & _); [done|].
    pose proof (ranges_from_elem _ _ _ H4 Hr'). unfold e in *. lia. }
  assert (lines_from (range_address r0) ls) as Hl0.
  { destruct ls as [|l ls]; [done|]. apply Forall_cons in Hlow as [? _]. destruct Hl as (_ & ?). done. }
  destruct (prefix_in_range r0 ls (range_address r0)) as [Hd Ht]; [lia..|done| |done|lia| |].
  { lia. }
  { eapply Forall_impl; [exact Hin|]. intros l (r' & [->|Hr']%elem_of_cons & Hx & Hy); [by left|].
    pose proof (ranges_from_elem _ _ _ H4 Hr'). right. unfold e in *. lia. }
  cbn [pieces_of]. set (n := prefix_len (in_code_range r0) ls) in *. fold e in Hd, Ht.
  assert (forall l, l ∈ take n ls -> range_address r0 <= code_address l < e) as Htake.
  { intros l Hlt. pose proof (proj1 (Forall_forall _ _) Hlow l) as Ha. pose proof (proj1 (Forall_forall _ _) Ht l Hlt) as Hb.
    assert (l ∈ ls) as Hls by (rewrite <- (take_drop n ls); apply elem_of_app; by left).
    pose proof (lines_from_elem _ _ _ Hl0 Hls). specialize (Ha Hls). unfold item_end in *. cbn [item_address item_size line_item] in *. lia. }
  intros [->|Hr]%elem_of_cons.
  - exists (take n ls). split; [by left|]. intros l. fold e. split.
    + intros Hlt. split; [|by apply Htake]. rewrite <- (take_drop n ls). apply elem_of_app. by left.
    + intros [Hls Hle]. rewrite <- (take_drop n ls) in Hls. apply elem_of_app in Hls as [?|Hdr]; [done|].
      pose proof (lines_from_elem _ _ _ Hd Hdr). lia.
  - destruct (IH e (drop n ls) r) as (ls' & Hp & Hls'); [unfold e; lia|done|done| |done|].
    { apply Forall_forall. intros l Hdr. assert (l ∈ ls) as Hls by (rewrite <- (take_drop n ls); apply elem_of_app; by right).
      pose proof (proj1 (Forall_forall _ _) Hin l Hls) as (r' & [->|Hr']%elem_of_cons & Hx & Hy); [|by exists r'].
      pose proof (lines_from_elem _ _ _ Hd Hdr). unfold item_end, e in *. cbn [item_address item_size line_item] in *. lia. }
    exists ls'. split; [by right|]. intros l. rewrite Hls'. split; intros [Hx Hy]; (split; [|done]).
    + rewrite <- (take_drop n ls). apply elem_of_app. by right.
    + rewrite <- (take_drop n ls) in Hx. apply elem_of_app in Hx as [Hx|]; [|done].
      pose proof (Htake l Hx). pose proof (ranges_from_elem _ _ _ H4 Hr). lia.
Qed.

(** ** The loaded module *)

Lemma relative_contains m addr size a :
  uint 64 a -> 0 <= addr -> addr + size <= 2 ^ 64 -> 0 < size -> relative m addr <= relative m a < relative m addr + size ->
  addr <= a < addr + size.
Proof.
  intros Ha H0 He Hs Hr. unfold uint in *.
  assert (wrap 64 (a - addr) = relative m a - relative m addr) as E.
  { rewrite <- (wrap_small 64 (relative m a - relative m addr)) by (unfold uint; lia).
    unfold relative. rewrite wrap_sub_l, wrap_sub_r. f_equal. lia. }
  destruct (decide (addr <= a)).
  - rewrite wrap_small in E by (unfold uint; lia). lia.
  - rewrite wrap_under in E by lia. lia.
Qed.

Lemma stored_cover_unique {E} (m : list (Z * Range E)) p q a :
  RangeMap.wf 64 m -> p ∈ m -> q ∈ m -> covers p a -> covers q a -> RangeMap.retrieved 64 p = RangeMap.retrieved 64 q.
Proof.
  intros Hwf Hp Hq Hpa Hqa.
  pose proof (proj2 (RangeMap.RetrieveRange_spec 64 m a _ Hwf) (ex_intro _ p (conj Hp (conj Hpa eq_refl)))).
  pose proof (proj2 (RangeMap.RetrieveRange_spec 64 m a _ Hwf) (ex_intro _ q (conj Hq (conj Hqa eq_refl)))).
  congruence.
Qed.

Section loaded.
Context (lw : Z) (m : DumpModule) (b : BasicModule).
Hypothesis Hok : dump_ok lw m.
Hypothesis Hd : dumped m b.

Lemma loaded_functions_wf :
  ranges_wf (map_ (SymbolModule.functions_ b)) /\ forall q, q ∈ map_ (SymbolModule.functions_ b) ->
    exists p f, p ∈ all_pieces m /\ dumped_function m p f /\ q = range_entry (piece_range m p) (Some f).
Proof.
  destruct (dumped_functions_are _ _ Hd) as (fs & Hfs & _ & Hwf & HP).
  assert (forall q, q ∈ map_ (SymbolModule.functions_ b) ->
    exists p f, p ∈ all_pieces m /\ dumped_function m p f /\ q = range_entry (piece_range m p) (Some f)) as Hall.
  { intros q Hq. rewrite HP in Hq. apply list_elem_of_fmap in Hq as (f & -> & Hf).
    destruct (Forall2_elem_r _ _ _ _ Hfs Hf) as (p & Hp & Hpf). exists p, f. split; [done|]. split; [done|].
    destruct Hpf as (rm & -> & _). done. }
  split; [|exact Hall]. split; [done|]. apply Forall_forall. intros q Hq.
  destruct (Hall q Hq) as (p & f & Hp & _ & ->).
  pose proof (proj1 (Forall_forall _ _) (ok_pieces _ _ Hok) p Hp) as Hpo.
  destruct (piece_in_bounds _ _ Hpo) as (H1 & H2 & H3). cbn in *. lia.
Qed.

Lemma loaded_function_wf p f : dumped_function m p f -> function_wf f.
Proof.
  intros (rm & -> & _ & Hwf & HP). split; [done|]. unfold no_null. cbn [lines with_lines]. rewrite HP.
  apply Forall_forall. intros q (l & -> & _)%list_elem_of_fmap. done.
Qed.

(** The function a frame gets, and where its line comes from. *)
Lemma LookupAddress_of_piece p frame a :
  p ∈ all_pieces m -> 0 <= a - range_address p.2.1 < range_size p.2.1 ->
  frame_address frame = relative m a ->
  exists f frame', dumped_function m p f /\ LookupAddress b frame = Ok frame' /\
    source_line (dumped_files m) f (relative m a)
      (set_function frame (code_name p.1) (wrap 64 (module_base frame + relative m (range_address p.2.1)))) frame'.
Proof.
  intros Hp Ha Hframe. destruct loaded_functions_wf as [Hwf Hall].
  destruct (dumped_functions_are _ _ Hd) as (fs & Hfs & _ & _ & HP).
  destruct (Forall2_elem_l _ _ _ _ Hfs Hp) as (f & Hf & Hpf).
  set (q := range_entry (piece_range m p) (Some f)).
  assert (q ∈ map_ (SymbolModule.functions_ b)) as Hq.
  { rewrite HP. apply list_elem_of_fmap. exists f. split; [|done]. by destruct Hpf as (rm & -> & _). }
  pose proof (proj1 (Forall_forall _ _) (ok_pieces _ _ Hok) p Hp) as Hpo.
  pose proof (relative_offset m _ _ a (piece_in_bounds _ _ Hpo) Ha) as Hra.
  assert (covers q (relative m a)) as Hqa by (unfold covers, q; cbn; lia).
  assert (uint 64 (relative m a)) as Hu by apply relative_uint.
  unfold LookupAddress. cbv zeta. rewrite Hframe.
  destruct (RangeMap.RetrieveNearestRange_spec 64 (map_ (SymbolModule.functions_ b)) (relative m a) (proj1 Hwf)) as (o & -> & Ho).
  cbn [obind]. pose proof (nearest_covers_spec _ (relative m a) o Hwf Hu Ho) as Hc.
  destruct (nearest_covers (relative m a) o); [|by destruct (Hc q)].
  destruct Hc as (q' & Hq' & Hqa' & ->). rewrite (stored_cover_unique _ q' q (relative m a) (proj1 Hwf)) by done.
  cbn [obind of_option]. change (out_entry (retrieved 64 q)) with (Some f).
  change (out_base (retrieved 64 q)) with (relative m (range_address p.2.1)). cbn [obind of_option].
  destruct (lookup_line_spec (SymbolModule.files_ b) f (relative m a)
    (set_function frame (function_name f) (wrap 64 (module_base frame + relative m (range_address p.2.1)))))
    as (frame' & E & Hl).
  { rewrite (dumped_files_are _ _ Hd). apply (ok_files_sorted _ _ Hok). }
  { by eapply loaded_function_wf. }
  exists f, frame'. split; [done|]. split; [exact E|]. rewrite <- (dumped_files_are _ _ Hd).
  by destruct Hpf as (rm & -> & _).
Qed.
End loaded.

(** The line of a piece that a frame gets. *)
Inductive piece_line (m : DumpModule) (ls : list CodeLine) (a : Z) (frame : StackFrame) : StackFrame -> Prop :=
| piece_line_at l frame' :
    l ∈ ls -> contains l a -> source_file (dumped_files m) (id_of m (code_file l)) frame frame' ->
    piece_line m ls a frame
      (set_source_line frame' (code_number l) (wrap 64 (module_base frame + relative m (code_address l))))
| piece_line_none : (forall l, l ∈ ls -> ~ contains l a) -> piece_line m ls a frame frame.

Lemma source_line_piece lw m p f a frame frame' :
  dump_ok lw m -> p ∈ all_pieces m -> Forall item_ok p.2.2 -> uint 64 a -> dumped_function m p f ->
  source_line (dumped_files m) f (relative m a) frame frame' -> piece_line m p.2.2 a frame frame'.
Proof.
  intros Hok Hp Hls Ha (rm & -> & _ & _ & HP) Hl. rewrite Forall_forall in Hls.
  pose proof (piece_lines_ok _ _ (proj1 (Forall_forall _ _) (ok_pieces _ _ Hok) p Hp)) as Hlo.
  rewrite Forall_forall in Hlo.
  inversion Hl as [q l fr Hq Hc Eq Hsf|Hnone].
  - cbn [lines with_lines] in Hq. rewrite HP in Hq. apply list_elem_of_fmap in Hq as (x & -> & Hx).
    injection Eq as <-. cbn in Hsf. apply piece_line_at; [done| |done].
    destruct (Hls x Hx) as (H1 & H2 & H3). unfold covers, contains, item_end in *. cbn in *.
    apply (relative_contains m); (done || lia).
  - apply piece_line_none. intros l Hx Hc. apply (Hnone (line_stored m l)).
    + cbn [lines with_lines]. rewrite HP. by apply list_elem_of_fmap_2.
    + destruct (Hlo l Hx) as [_ Hb]. unfold covers, contains, item_end in *. cbn in *.
      pose proof (relative_offset m _ _ a Hb) as E. lia.
Qed.

(** A cited file is in the symbol file under its number. *)
Lemma dumped_file m m' file name :
  numbered m m' -> file ∈ GetFiles m -> file ∈ cited_files (GetFunctions m) ->
  name_at (file_store m) file = Some name -> (id_of m' file, name) ∈ dumped_files m'.
Proof.
  intros Hn Hf Hc Hname. pose proof (cited_id _ _ _ Hn Hf Hc) as Hid. destruct Hn as [Hstore Hnames _].
  rewrite <- Hnames in Hname. unfold name_at in Hname. destruct (file_store m' !! file) as [F|] eqn:EF; [|done].
  injection Hname as <-. unfold dumped_files. apply list_elem_of_In, in_concat. exists (file_records m' file). split.
  - apply in_map, list_elem_of_In. rewrite Hstore. done.
  - unfold file_records, id_of, source_id_at in *. rewrite EF in *. cbn [fmap option_fmap option_map default from_option] in *.
    rewrite (proj2 (Z.leb_le _ _)) by (cbn in Hid |- *; lia). by left.
Qed.

(** ** The functions of the unit *)

(** The module but for its functions and externs. *)
Definition same_but_symbols (m m' : DumpModule) : Prop :=
  m' = with_symbols m (dump_functions_ m') (externs_ m').

Lemma AddFunctions_spec functions : forall m,
  dump_wf m -> Forall (fun f => code_name f <> []) functions -> NoDup (map function_key functions) ->
  (forall f, f ∈ functions -> find_value (dump_functions_ m) (function_key f) = None) ->
  exists m', AddFunctions m functions = Ok m' /\ dump_wf m' /\ same_but_symbols m m' /\
    (forall key, key ∉ map function_key functions ->
      find_value (dump_functions_ m') key = find_value (dump_functions_ m) key) /\
    forall f, f ∈ functions -> AddressIsInModule m (code_entry f) = true -> 
      find_value (dump_functions_ m') (function_key f) = Some f.
Proof.
  induction functions as [|f functions IH]; intros m Hwf Hn Hnd Hnew.
  { exists m. split; [done|]. split; [done|]. split; [by destruct m|]. split; [done|]. by intros f ?%elem_of_nil. }
  apply Forall_cons in Hn as [Hf Hn]. cbn [map] in Hnd. apply NoDup_cons in Hnd as [Hk Hnd].
  destruct (AddFunction_added m f Hwf Hf) as (m1 & E1 & H1). pose proof (AddFunction_wf _ _ _ Hwf E1) as Hwf1.
  assert (same_but_symbols m m1) as Hs1.
  { unfold AddFunction in E1. rewrite bool_decide_false in E1 by done.
    destruct (AddressIsInModule m (code_entry f)); injection E1 as <-; [done|by destruct m]. }
  assert (forall key, key <> function_key f -> find_value (dump_functions_ m1) key = find_value (dump_functions_ m) key) as Hold.
  { intros key Hkey. destruct (AddressIsInModule m (code_entry f)); [|by subst].
    destruct H1 as [H1 _]. rewrite H1. by rewrite decide_False. }
  destruct (IH m1 Hwf1 Hn Hnd) as (m' & E' & Hwf' & Hs' & Hk' & Hin').
  { intros g Hg. rewrite Hold; [by apply Hnew; right|]. intros Eg. apply Hk. rewrite <- Eg. by apply list_elem_of_fmap_2. }
  exists m'. cbn [AddFunctions]. rewrite E1. split; [exact E'|]. split; [done|].
  split; [unfold same_but_symbols in *; rewrite Hs', Hs1; done|]. split.
  - intros key [Hne Hni]%not_elem_of_cons. by rewrite Hk', Hold.
  - assert (forall a, AddressIsInModule m1 a = AddressIsInModule m a) as Hm by (intros a; by rewrite Hs1).
    intros g [->|Hg]%elem_of_cons Hmod; [|apply Hin'; [done|by rewrite Hm]].
    rewrite Hk' by done. rewrite Hmod in H1. destruct H1 as [H1 _]. rewrite H1, decide_True by done.
    by rewrite Hnew by left.
Qed.

(** A function of the unit that has no lines yet. *)
Record unit_function (f : CodeFunction) : Prop := {
  unit_name : code_name f <> [];
  unit_lines : code_lines f = [];
  unit_ranges : ranges_from 0 (code_ranges f);
}.

Lemma unit_ranges_ok f : unit_function f -> ranges_ok f.
Proof.
  intros [_ _ Hr]. apply Forall_forall. intros r Hin _. pose proof (ranges_from_elem _ _ _ Hr Hin).
  unfold item_ok, item_end. cbn. lia.
Qed.

Definition over_function (f : CodeFunction) (a : Z) : Prop :=
  exists r, r ∈ code_ranges f /\ range_address r <= a < range_address r + range_size r.

Lemma function_ranges_elem functions : forall i r,
  r ∈ function_ranges i functions <->
  fr_size r <> 0 /\ exists j f x, fr_function r = (i + j)%nat /\ functions !! j = Some f /\ x ∈ code_ranges f /\
    fr_address r = range_address x /\ fr_size r = range_size x.
Proof.
  induction functions as [|f functions IH]; intros i r; cbn [function_ranges].
  { split; [by intros ?%elem_of_nil|by intros (_ & j & f & x & _ & ? & _)]. }
  rewrite elem_of_app, IH, list_elem_of_filter, list_elem_of_fmap. split.
  - intros [(Hs & x & -> & Hx)|(Hs & j & g & x & Ej & Hj & Hx)]; (split; [done|]).
    + by exists 0%nat, f, x; rewrite Nat.add_0_r.
    + exists (S j), g, x. split; [lia|done].
  - intros (Hs & [|j] & g & x & Ej & Hj & Hx & Ea & Es).
    + left. split; [done|]. injection Hj as ->. exists x. split; [|done]. destruct r. cbn in *. subst. f_equal; lia.
    + right. split; [done|]. exists j, g, x. split; [lia|done].
Qed.

Lemma cover_Some {A} `{!Item A} (items : list A) a it : cover items a = Some it -> it ∈ items /\ contains it a.
Proof.
  unfold cover. intros E. assert (it ∈ filter (fun it => contains it a) items) as H.
  { destruct (filter _ items) as [|x l]; [done|]. injection E as ->. by left. }
  apply list_elem_of_filter in H. tauto.
Qed.

Lemma cover_is_Some {A} `{!Item A} (items : list A) a it : it ∈ items -> contains it a -> is_Some (cover items a).
Proof.
  intros Hin Hc. unfold cover. assert (it ∈ filter (fun it => contains it a) items) as H by by apply list_elem_of_filter.
  destruct (filter _ items) as [|x l]; [by apply elem_of_nil in H|by eexists].
Qed.

Lemma ranges_from_apart c ranges r1 r2 a :
  ranges_from c ranges -> r1 ∈ ranges -> r2 ∈ ranges ->
  range_address r1 <= a < range_address r1 + range_size r1 ->
  range_address r2 <= a < range_address r2 + range_size r2 -> r1 = r2.
Proof.
  revert c. induction ranges as [|r ranges IH]; intros c Hr; [by intros ?%elem_of_nil|].
  destruct Hr as (_ & _ & _ & Hr). intros [->|H1]%elem_of_cons [->|H2]%elem_of_cons; [done|..|by eapply IH].
  - pose proof (ranges_from_elem _ _ _ Hr H2). lia.
  - pose proof (ranges_from_elem _ _ _ Hr H1). lia.
Qed.

Section unit_lines.
Context `{!StdSort} (fs : list CodeFunction) (ls : list CodeLine) (i : nat) (f : CodeFunction) (new : list CodeLine).
Notation rs := (FillSortedFunctionRanges fs).
Hypothesis Hnd : NoDup fs.
Hypothesis Hi : fs !! i = Some f.
Hypothesis Hf : unit_function f.
Hypothesis Hnew : assigned rs ls i new.

Lemma sorted_ranges_elem r :
  r ∈ rs <-> fr_size r <> 0 /\ exists g x, fs !! fr_function r = Some g /\ x ∈ code_ranges g /\
    fr_address r = range_address x /\ fr_size r = range_size x.
Proof.
  unfold FillSortedFunctionRanges. rewrite std_sort_perm, function_ranges_elem. cbn [Nat.add]. naive_solver.
Qed.

Lemma new_in_a_range : Forall (in_a_range (code_ranges f)) new.
Proof.
  destruct Hnew as (_ & Hin & _). eapply Forall_impl; [exact Hin|].
  intros l (r & (_ & g & x & Hg & Hx & Ea & Es)%sorted_ranges_elem & Er & H1 & H2). rewrite Er, Hi in Hg.
  injection Hg as <-. exists x. split; [done|]. unfold item_end in *. cbn in *. lia.
Qed.

Lemma new_ok : Forall item_ok new.
Proof.
  pose proof new_in_a_range as Hin. rewrite Forall_forall in Hin. apply Forall_forall. intros l Hl.
  destruct (Hin l Hl) as (r & Hr & H1 & H2). pose proof (ranges_from_elem _ _ _ (unit_ranges f Hf) Hr).
  destruct (lines_from_elem _ _ _ (proj1 Hnew) Hl) as (H3 & H4 & H5). unfold item_ok, item_end in *. cbn in *. lia.
Qed.

Section address.
Context (a : Z) (range : AddressRange).
Hypothesis Hr : range ∈ code_ranges f.
Hypothesis Ha : range_address range <= a < range_address range + range_size range.
Hypothesis Hsole : forall g, g ∈ fs -> over_function g a -> g = f.

Lemma address_bound : 0 <= a < kMaxAddress.
Proof. pose proof (ranges_from_elem _ _ _ (unit_ranges f Hf) Hr). unfold kMaxAddress. lia. Qed.

Lemma range_over : exists r, cover rs a = Some r /\ fr_function r = i.
Proof.
  assert (mkFunctionRange (range_address range) (range_size range) i ∈ rs) as Hin.
  { apply sorted_ranges_elem. cbn. split; [lia|]. by exists f, range. }
  destruct (cover_is_Some rs a _ Hin) as [r E]; [unfold contains, item_end; cbn; lia|]. exists r. split; [done|].
  apply cover_Some in E as [(_ & g & x & Hg & Hx & Ea & Es)%sorted_ranges_elem Hc].
  eapply NoDup_lookup; [exact Hnd|exact Hg|]. rewrite Hi. f_equal. symmetry. apply Hsole.
  - by eapply list_elem_of_lookup_2.
  - exists x. split; [done|]. unfold contains, item_end in Hc. cbn in Hc. lia.
Qed.

Lemma new_line_cover l :
  l ∈ new -> contains l a ->
  exists l0, cover ls a = Some l0 /\ code_file l0 = code_file l /\ code_number l0 = code_number l.
Proof.
  intros Hl Hc. destruct Hnew as (_ & _ & Hat).
  destruct (proj1 (Hat a address_bound (code_file l) (code_number l))) as (r & l0 & _ & E & _ & H1 & H2); [by exists l|].
  by exists l0.
Qed.

Lemma cover_new_line l0 :
  cover ls a = Some l0 ->
  exists l, l ∈ new /\ contains l a /\ range_address range <= code_address l < range_address range + range_size range.
Proof.
  intros E. destruct Hnew as (_ & _ & Hat). destruct range_over as (r & Er & Hir).
  destruct (proj2 (Hat a address_bound (code_file l0) (code_number l0))) as (l & Hl & Hc & _);
    [by exists r, l0|].
  exists l. split; [done|]. split; [done|].
  destruct (proj1 (Forall_forall _ _) new_in_a_range l Hl) as (r' & Hr' & H1 & H2).
  unfold contains in Hc. cbn [item_address line_item] in Hc.
  assert (r' = range) as -> by (eapply ranges_from_apart; [apply (unit_ranges f Hf)|done|done| |done]; lia). lia.
Qed.
End address.
End unit_lines.

(** ** The way of a line *)

(** What is known about the line of the address [a]: the file and the number of
    the only row over it whose file is in the table, or nothing when there is
    no such row. *)
Inductive line_over (path_of : Z -> option chars) (ss : list LineSequence) (a : Z) : option (chars * Z) -> Prop :=
| a_row r path :
    row_over ss a r -> path_of (row_file r) = Some path ->
    (forall r', row_over ss a r' -> is_Some (path_of (row_file r')) -> r' = r) ->
    line_over path_of ss a (Some (path, swrap 32 (row_line r)))
| no_row : (forall r, row_over ss a r -> path_of (row_file r) = None) -> line_over path_of ss a None.

(** The frame with the function [name] and the line. *)
Definition frame_with (frame : StackFrame) (name : chars) (base : Z) (line : option (chars * Z)) (line_base : Z) :
    StackFrame :=
  match line with
  | Some (path, number) => set_source_line (set_source_file (set_function frame name base) path) number line_base
  | None => set_function frame name base
  end.

(** The sections as [ReadSourceLines] passes them. *)
Definition line_sections (section_map : LineSectionMap) (first second offset : Z) : LineSections :=
  let strings :=
    match debug_str section_map with
    | Some (first, second) => (Some (first + offset), wrap 64 (second - offset))
    | None => (None, 0)
    end in
  mkLineSections (first + offset) (second - offset) strings.1 strings.2 None 0.

(** Functions keep their keys when they get lines. *)
Lemma assigned_functions (fs functions : list CodeFunction) (P : nat -> list CodeLine -> Prop) :
  length functions = length fs ->
  (forall i f, fs !! i = Some f -> exists new, functions !! i = Some (add_lines f new) /\ P i new) ->
  map function_key functions = map function_key fs /\
  forall g, g ∈ functions -> exists f, f ∈ fs /\ code_name g = code_name f /\ function_key g = function_key f.
Proof.
  intros Hl Hf. split.
  - change (function_key <$> functions = function_key <$> fs). apply list_eq. intros j. rewrite !list_lookup_fmap.
    destruct (fs !! j) as [g|] eqn:Ej.
    + by destruct (Hf j g Ej) as (ls & -> & _).
    + apply lookup_ge_None in Ej. rewrite <- Hl in Ej. by apply lookup_ge_None in Ej as ->.
  - intros g (j & Hj)%list_elem_of_lookup. pose proof (lookup_lt_Some _ _ _ Hj) as Hlt. rewrite Hl in Hlt.
    destruct (lookup_lt_is_Some_2 fs j Hlt) as [f Ef]. destruct (Hf j f Ef) as (ls & Hls & _).
    rewrite Hj in Hls. injection Hls as ->. exists f. split; [by eapply list_elem_of_lookup_2|done].
Qed.

(** The module [m'] that [CU_Finish] leaves. *)
Record unit_finished `{!StdSort} (comp : chars) (dirs files : list LineCall) (ss : list LineSequence)
    (functions : list CodeFunction) (m m' : DumpModule) : Prop := {
  fin_relative a : relative m' a = relative m a;
  fin_function f : f ∈ functions -> AddressIsInModule m (code_entry f) = true ->
    exists i file new, let ls := std_sort code_address (kept_lines file 0 ss) in
      std_sort code_entry functions !! i = Some f /\ add_lines f new ∈ GetFunctions m' /\
      assigned (FillSortedFunctionRanges (std_sort code_entry functions)) ls i new /\
      forall n, match file_path (dir_path comp dirs) files n with
                | Some path => exists g, file n = Some g /\ g ∈ GetFiles m' /\ name_at (file_store m') g = Some path
                | None => file n = None
                end;
}.

Lemma CU_Finish_spec `{!StdSort} mem r comp section_map first second offset bs dirs files ss m functions :
  debug_line section_map = Some (first, second) -> debug_line_str section_map = None -> offset < second ->
  unit_bytes mem (line_sections section_map first second offset) r bs
    (dirs ++ files ++ lines_of (concat (map seq_entries ss))) ->
  holds mem (first + offset) bs -> Z.of_nat (length bs) <= second - offset -> Z.of_nat (length mem) < 2 ^ 64 ->
  dump_wf m -> Forall is_dir dirs -> Forall is_file files -> Forall seq_ascending ss ->
  Forall unit_function functions -> NoDup (map function_key functions) ->
  (forall f, f ∈ functions -> find_value (dump_functions_ m) (function_key f) = None) ->
  exists m' r' reports,
    CU_Finish mem r comp section_map true (Some offset) m functions [] = Ok (m', r', reports) /\
    unit_finished comp dirs files ss functions m m'.
Proof.
  intros Hline Hstr Hoff Hu Hh Hlen Hmem Hwf Hd Hfi Hss Hf Hnd Hold.
  destruct (ReadProgram_spec mem r (line_sections section_map first second offset) bs comp dirs files ss m [])
    as (m1 & new & r' & E1 & [Hm1 Hw1 _ _] & file & -> & Hfile); [done..|].
  destruct (AssignLines_spec functions (kept_lines file 0 ss)) as (functions' & reports & E2 & Hl2 & H2).
  { eapply Forall_impl; [exact Hf|]. apply unit_ranges_ok. }
  { by apply kept_lines_ok. }
  set (fs := std_sort code_entry functions) in *.
  assert (forall g, g ∈ fs <-> g ∈ functions) as Hperm by (intros g; unfold fs; by rewrite std_sort_perm).
  destruct (assigned_functions fs functions' _ Hl2 H2) as [Hkeys Hback].
  destruct (AddFunctions_spec functions' m1) as (m' & E3 & Hwf' & Hm' & _ & H3).
  { auto. }
  { apply Forall_forall. intros g' (g & Hg%Hperm & -> & _)%Hback. by destruct (proj1 (Forall_forall _ _) Hf g Hg). }
  { rewrite Hkeys. unfold fs. by rewrite std_sort_perm. }
  { intros g' (g & Hg%Hperm & _ & ->)%Hback. rewrite Hm1. by apply Hold. }
  exists m', r', ([] ++ reports). split.
  - unfold CU_Finish, ReadSourceLines. cbn [negb]. rewrite Hline, Hstr, (proj2 (Z.leb_gt _ _)) by done.
    unfold line_sections in E1. rewrite E1. cbn [obind app]. rewrite E2. cbn [obind]. by rewrite E3.
  - split; [intros a; by rewrite Hm', Hm1|]. intros f Hfin Hmod.
    destruct (proj1 (list_elem_of_lookup _ _) (proj2 (Hperm f) Hfin)) as [i Hi].
    destruct (H2 i f Hi) as (new & Hi' & Has). exists i, file, new. cbv zeta. split; [done|]. split; [|split; [done|]].
    + specialize (H3 (add_lines f new)). rewrite Hm1 in H3.
      specialize (H3 ltac:(by eapply list_elem_of_lookup_2) Hmod). unfold GetFunctions.
      apply find_value_Some in H3; [|by destruct Hwf']. apply list_elem_of_fmap. by exists (function_key (add_lines f new), add_lines f new).
    + rewrite Hm'. exact Hfile.
Qed.

(** The piece of a range of a function, in the module that was numbered. *)
Lemma range_piece m' m f new range :
  numbered m' m -> add_lines f new ∈ GetFunctions m' -> unit_function f -> lines_from 0 new ->
  Forall (in_a_range (code_ranges f)) new -> range ∈ code_ranges f ->
  exists ls, (add_lines f new, (range, ls)) ∈ all_pieces m /\
    forall l, l ∈ ls <-> l ∈ new /\ range_address range <= code_address l < range_address range + range_size range.
Proof.
  intros [Hs _ _] Hin Hf Hl Hr Hrange.
  destruct (pieces_of_range (code_ranges f) 0 new range) as (ls & Hp & Hls); [lia|by apply Hf|done..|].
  exists ls. split; [|exact Hls]. apply list_elem_of_In, in_concat. exists (function_pieces (add_lines f new)). split.
  - apply in_map, list_elem_of_In. by rewrite Hs.
  - apply in_map, list_elem_of_In. unfold add_lines. cbn. rewrite (unit_lines f Hf). exact Hp.
Qed.

(** The line that covers [a] is that of the row over it. *)
Lemma cover_row `{!StdSort} (path_of : Z -> option chars) (file : Z -> option nat) (P : nat -> chars -> Prop) ss a line :
  (forall n, match path_of n with Some path => exists g, file n = Some g /\ P g path | None => file n = None end) ->
  line_over path_of ss a line ->
  match cover (std_sort code_address (kept_lines file 0 ss)) a with
  | Some l => exists path, line = Some (path, code_number l) /\ P (code_file l) path
  | None => line = None
  end.
Proof.
  intros Hfile Hline. set (ls := std_sort code_address (kept_lines file 0 ss)).
  assert (forall l, l ∈ ls <-> l ∈ kept_lines file 0 ss) as Hls by (intros l; unfold ls; by rewrite std_sort_perm).
  destruct (cover ls a) as [l|] eqn:E.
  - apply cover_Some in E as [Hl%Hls Hc]. destruct (kept_lines_row file ss l a Hl Hc) as (r & Hr & Ef & En).
    pose proof (Hfile (row_file r)) as Hp. destruct (path_of (row_file r)) as [path|] eqn:Ep; [|congruence].
    destruct Hp as (g & Eg & HP). exists path. assert (g = code_file l) as <- by congruence. split; [|done].
    inversion Hline as [r' path' Hr' Ep' Huniq|Hno]; [|by rewrite Hno in Ep].
    assert (r = r') as <- by (apply Huniq; [done|by rewrite Ep]). congruence.
  - inversion Hline as [r path Hr Ep Huniq|]; [|done]. pose proof (Hfile (row_file r)) as Hp. rewrite Ep in Hp.
    destruct Hp as (g & Eg & _). destruct (row_kept_line file ss r g a Hr Eg) as (l & Hl%Hls & Hc).
    destruct (cover_is_Some ls a l Hl Hc) as [x Ex]. congruence.
Qed.

(** What a frame gets from the lines below a range, when it is known what
    covers its address. *)
Lemma piece_line_frame m m' pl a frame0 frame name base line :
  numbered m m' -> dump_wf m -> sorted (dumped_files m') ->
  (forall l, l ∈ pl -> code_file l ∈ cited_files (GetFunctions m)) ->
  (forall l, l ∈ pl -> contains l a -> exists path, line = Some (path, code_number l) /\
    code_file l ∈ GetFiles m /\ name_at (file_store m) (code_file l) = Some path) ->
  (is_Some line -> exists l, l ∈ pl /\ contains l a) ->
  piece_line m' pl a (set_function frame0 name base) frame ->
  (line = None /\ frame = set_function frame0 name base) \/
  exists l, l ∈ pl /\ contains l a /\
    frame = frame_with frame0 name base line (wrap 64 (module_base frame0 + relative m' (code_address l))).
Proof.
  intros Hn Hwf Hsorted Hcited Hl Hsome [l frame' Hin Hc Hsf|Hnone].
  - right. exists l. split; [done|]. split; [done|]. destruct (Hl l Hin Hc) as (path & -> & Hg & Hname).
    pose proof (dumped_file m m' _ path Hn Hg (Hcited l Hin) Hname) as Hd. cbn [frame_with].
    destruct Hsf as [x Hx|Hx]; [|by apply Hx in Hd].
    assert (x = path) as ->; [|done].
    apply find_value_Some in Hx, Hd; [|done..]. congruence.
  - left. split; [|done]. destruct line as [x|]; [|done]. destruct Hsome as (l & Hin & Hc); [done|]. by apply Hnone in Hc.
Qed.

Section lookup.
Context `{!StdSort} (lw : Z) (comp : chars) (dirs files : list LineCall) (ss : list LineSequence).
Context (functions : list CodeFunction) (m m' m'' : DumpModule) (b : BasicModule).
Notation path_of := (file_path (dir_path comp dirs) files).
Hypothesis Hfin : unit_finished comp dirs files ss functions m m'.
Hypothesis Hfs : Forall unit_function functions.
Hypothesis Hnd : NoDup (map function_key functions).
Hypothesis Hok : dump_ok lw m''.
Hypothesis Hnum : numbered m' m''.
Hypothesis Hd : dumped m'' b.
Hypothesis Hwf : dump_wf m'.

Lemma finished_lookup f range a line frame :
  f ∈ functions -> AddressIsInModule m (code_entry f) = true -> range ∈ code_ranges f ->
  range_address range <= a < range_address range + range_size range ->
  (forall g, g ∈ functions -> over_function g a -> g = f) ->
  line_over path_of ss a line -> frame_address frame = relative m a ->
  exists c, range_address range <= c <= a /\
    LookupAddress b frame =
      Ok (frame_with frame (code_name f) (wrap 64 (module_base frame + relative m (range_address range))) line
            (wrap 64 (module_base frame + relative m c))).
Proof.
  intros Hf Hmod Hr Ha Hsole Hline Hframe.
  destruct (fin_function _ _ _ _ _ _ _ Hfin f Hf Hmod) as (i & file & new & Hi & Hget & Has & Hfile).
  set (fs := std_sort code_entry functions) in *. set (ls := std_sort code_address (kept_lines file 0 ss)) in *.
  assert (unit_function f) as Huf by by apply (proj1 (Forall_forall _ _) Hfs).
  assert (NoDup fs) as Hndfs by (unfold fs; rewrite std_sort_perm; by eapply NoDup_fmap_1).
  assert (forall g, g ∈ fs -> over_function g a -> g = f) as Hsole'.
  { intros g Hg. apply Hsole. unfold fs in Hg. by rewrite std_sort_perm in Hg. }
  assert (forall l, l ∈ ls <-> l ∈ kept_lines file 0 ss) as Hls by (intros l; unfold ls; by rewrite std_sort_perm).
  pose proof (new_in_a_range fs ls i f new Hi Has) as Hin. pose proof Has as [Hfrom _].
  destruct (range_piece m' m'' f new range Hnum Hget Huf Hfrom Hin Hr) as (pl & Hp & Hpl).
  assert (forall x, relative m'' x = relative m x) as Hrel.
  { intros x. rewrite <- (fin_relative _ _ _ _ _ _ _ Hfin). by rewrite (num_store _ _ Hnum). }
  assert (GetFunctions m'' = GetFunctions m') as Hgets by by rewrite (num_store _ _ Hnum).
  pose proof (address_bound f Huf a range Hr Ha) as Hab. unfold kMaxAddress in Hab.
  destruct (LookupAddress_of_piece lw m'' b Hok Hd _ frame a Hp) as (fn & frame' & Hfn & -> & Hsrc);
    [cbn; lia|by rewrite Hrel|]. cbn [fst snd] in Hsrc.
  change (code_name (add_lines f new)) with (code_name f) in Hsrc.
  assert (Forall item_ok pl) as Hplok.
  { pose proof (new_ok fs ls i f new Hi Huf Has) as Hno. rewrite Forall_forall in Hno |- *. by intros l [Hl _]%Hpl; auto. }
  apply (source_line_piece lw m'' _ fn a _ _ Hok Hp) in Hsrc; [|done|unfold uint; lia|exact Hfn]. cbn [fst snd] in Hsrc.
  rewrite Hrel in Hsrc.
  pose proof (cover_row path_of file (fun g path => g ∈ GetFiles m' /\ name_at (file_store m') g = Some path) ss a line
    Hfile Hline) as Hcov. fold ls in Hcov.
  apply (piece_line_frame m' m'' _ _ _ _ _ _ line) in Hsrc; [|done|exact Hwf|apply (ok_files_sorted _ _ Hok)|..].
  - destruct Hsrc as [[-> ->]|(l & Hl & Hc & ->)]; [exists a; split; [lia|done]|].
    exists (code_address l). rewrite Hrel. split; [|done]. apply Hpl in Hl. unfold contains in Hc. cbn in Hc. lia.
  - intros l Hl. rewrite <- Hgets. by apply (all_pieces_cited m'' _ l Hp).
  - intros l [Hl _]%Hpl Hc. destruct (new_line_cover fs ls i f new Huf Has a range Hr Ha l Hl Hc) as (l0 & El & H1 & H2).
    rewrite El in Hcov. by rewrite <- H1, <- H2.
  - intros Hsome. destruct (cover ls a) as [l0|] eqn:El; [|rewrite Hcov in Hsome; by destruct Hsome].
    destruct (cover_new_line fs ls i f new Hndfs Hi Huf Has a range Hr Ha Hsole' l0 El) as (l & Hl & Hc & Hx).
    exists l. split; [by apply Hpl|done].
Qed.
End lookup.

(** C12: the line number program of a unit, given to the functions of the unit
    when it ends, written as a symbol file and loaded again, names the lines of
    its addresses.  The object has a .debug_line and no .debug_line_str section
    (with one, [ReadSourceLines] reads no line at all:
    [debug_line_str_ignored]); the unit is one of [unit_bytes], so without
    DW_LNE_define_file, MD5 columns and the other things listed there; the
    addresses of every sequence ascend; the functions of the unit have names,
    disjoint ascending ranges, no lines yet and different keys, which the module
    does not have yet.  Then [CU_Finish] returns, and when
    the module it leaves can be written at all ([dump_ready]), a frame at an address of a function that lies in no other
    function gets the name of that function, the address where its range
    starts, and the full path and the number of the only row over the address
    whose file is in the table, or no line when there is no such row. *)
Theorem DWARF_lines `{!StdSort} lw mem r comp section_map first second offset bs dirs files ss m functions :
  32 <= lw <= 64 ->
  debug_line section_map = Some (first, second) -> debug_line_str section_map = None -> offset < second ->
  unit_bytes mem (line_sections section_map first second offset) r bs
    (dirs ++ files ++ lines_of (concat (map seq_entries ss))) ->
  holds mem (first + offset) bs -> Z.of_nat (length bs) <= second - offset -> Z.of_nat (length mem) < 2 ^ 64 ->
  dump_wf m -> Forall is_dir dirs -> Forall is_file files -> Forall seq_ascending ss ->
  Forall unit_function functions -> NoDup (map function_key functions) ->
  (forall f, f ∈ functions -> find_value (dump_functions_ m) (function_key f) = None) ->
  exists m' r' reports,
    CU_Finish mem r comp section_map true (Some offset) m functions [] = Ok (m', r', reports) /\
    (dump_ready lw m' ->
     exists m'' text mod_ heap,
       Write m' ALL_SYMBOL_DATA = Ok (m'', text) /\
       Basic_LoadMapFromMemory lw new_module (text ++ [0]) = Ok (mod_, heap) /\
       forall f range a line frame,
         f ∈ functions -> AddressIsInModule m (code_entry f) = true -> range ∈ code_ranges f ->
         range_address range <= a < range_address range + range_size range ->
         (forall g, g ∈ functions -> over_function g a -> g = f) ->
         line_over (file_path (dir_path comp dirs) files) ss a line -> frame_address frame = relative m a ->
         exists c, range_address range <= c <= a /\
           LookupAddress (deref_module heap mod_) frame =
             Ok (frame_with frame (code_name f) (wrap 64 (module_base frame + relative m (range_address range))) line
                   (wrap 64 (module_base frame + relative m c)))).
Proof.
  intros Hlw Hline Hstr Hoff Hu Hh Hlen Hmem Hwf Hd Hfi Hss Hf Hnd Hold.
  destruct (CU_Finish_spec mem r comp section_map first second offset bs dirs files ss m functions)
    as (m' & r' & reports & E & Hfin); [done..|].
  exists m', r', reports. split; [exact E|]. intros Hready.
  destruct (Write_Load lw m' Hlw Hready) as (m'' & text & mod_ & heap & EW & Hnum & EL & Hdumped).
  exists m'', text, mod_, heap. split; [exact EW|]. split; [exact EL|].
  intros f range a line frame Hin Hmod Hr Ha Hsole Hover Hframe.
  apply (finished_lookup lw comp dirs files ss functions m m' m'' _ Hfin Hf Hnd
    (numbered_ok lw m' m'' Hready Hnum) Hnum Hdumped (ready_wf _ _ Hready) f range a line frame); done.
Qed.

(** ** An example *)

(** Two functions share the unit of [example_unit]; the second row goes on in
    the second function. *)
Definition example_pair : list CodeFunction :=
  [example_f (str "g") [mkAddressRange 0x401004 8]; example_f (str "f") [mkAddressRange 0x401000 4]].

Definition example_section_map : LineSectionMap :=
  mkLineSectionMap (Some (0, Z.of_nat (length example_unit))) None None.

Definition example_finished : outcome (DumpModule * ByteReader * list LineReport) :=
  CU_Finish example_unit example_reader (str "/home") example_section_map true (Some 0) example_m example_pair [].

Definition example_final : DumpModule := Eval vm_compute in
  match example_finished with Ok (m, _, _) => m | Undef => example_m end.

Lemma example_finished_is : exists r reports, example_finished = Ok (example_final, r, reports).
Proof. eexists _, _. vm_compute. reflexivity. Qed.

Lemma example_final_wf : dump_wf example_final.
Proof. split; try apply Forall_forall; by_computation. Qed.

Lemma example_final_ready : dump_ready 64 example_final.
Proof. split; try by_computation; [exact example_final_wf|split; by_computation..]. Qed.

Lemma example_row :
  line_over (file_path (dir_path (str "/home") (take 2 example_calls)) (take 2 (drop 2 example_calls)))
    [example_sequence] 0x401005 (Some (str "/src/a.c", 4)).
Proof.
  assert (forall r, row_over [example_sequence] 0x401005 r -> r = mkRow 0x401002 1 4 0) as Huniq.
  { intros r (s & e & Hs & Hr & Ha). cbn in Hs. apply list_elem_of_singleton in Hs as ->. cbn in Hr.
    repeat (apply elem_of_cons in Hr as [[= -> ->]|Hr]); [cbn in Ha; lia|done|by apply elem_of_nil in Hr]. }
  apply (a_row _ _ _ (mkRow 0x401002 1 4 0)); [|reflexivity|auto].
  exists example_sequence, 0x40100a. split; [by left|]. split; [by right; left|cbn; lia].
Qed.

Lemma example_pair_units : Forall unit_function example_pair.
Proof. repeat constructor; cbn; done || lia. Qed.

Definition example_caller : StackFrame := mkStackFrame 0x401005 0 [] 0 [] 0 0.

Lemma example_sole g :
  g ∈ example_pair -> over_function g 0x401005 -> g = example_f (str "g") [mkAddressRange 0x401004 8].
Proof.
  unfold example_pair. intros Hg (x & Hx & Ha). apply elem_of_cons in Hg as [->|Hg]; [reflexivity|].
  apply list_elem_of_singleton in Hg as ->. apply list_elem_of_singleton in Hx as ->. cbn in Ha. lia.
Qed.

Lemma example_relative a : uint 64 a -> wrap 64 (module_base example_caller + relative example_m a) = a.
Proof.
  intros Ha. unfold relative. rewrite wrap_add_r. cbn [module_base example_caller load_address_ example_m new_dump_module].
  rewrite Z.sub_0_r. by apply wrap_small.
Qed.

Lemma DWARF_lines_witness :
  exists m'' text mod_ heap c,
    Write example_final ALL_SYMBOL_DATA = Ok (m'', text) /\
    Basic_LoadMapFromMemory 64 new_module (text ++ [0]) = Ok (mod_, heap) /\
    0x401004 <= c <= 0x401005 /\
    LookupAddress (deref_module heap mod_) example_caller =
      Ok (frame_with example_caller (str "g") 0x401004 (Some (str "/src/a.c", 4)) c).
Proof.
  destruct (DWARF_lines 64 example_unit example_reader (str "/home") example_section_map 0
    (Z.of_nat (length example_unit)) 0 example_unit (take 2 example_calls) (take 2 (drop 2 example_calls))
    [example_sequence] example_m example_pair) as (m' & r' & reports & E & Hrest).
  - lia.
  - reflexivity.
  - reflexivity.
  - reflexivity.
  - exact (example_unit_bytes _ _).
  - split; [done|]. split; [done|]. by intros i b.
  - done.
  - done.
  - apply new_dump_module_wf.
  - by repeat constructor.
  - by repeat constructor.
  - repeat constructor; cbn; unfold uint; lia.
  - exact example_pair_units.
  - apply (bool_decide_unpack _). vm_compute. exact I.
  - intros f _. reflexivity.
  - assert (m' = example_final) as ->.
    { destruct example_finished_is as (r & reports' & E'). unfold example_finished in E'. rewrite E in E'. by injection E'. }
    destruct (Hrest example_final_ready) as (m'' & text & mod_ & heap & EW & EL & Hall).
    destruct (Hall (example_f (str "g") [mkAddressRange 0x401004 8]) (mkAddressRange 0x401004 8) 0x401005
      (Some (str "/src/a.c", 4)) example_caller) as (c & Hc & EA).
    + by left.
    + reflexivity.
    + by left.
    + cbn. lia.
    + exact example_sole.
    + exact example_row.
    + reflexivity.
    + exists m'', text, mod_, heap, c. split; [exact EW|]. split; [exact EL|]. split; [exact Hc|].
      etransitivity; [exact EA|].
      assert (wrap 64 (module_base example_caller + relative example_m c) = c) as ->.
      { apply example_relative. cbn [range_address] in Hc. unfold uint. lia. }
      reflexivity.
Defined.
