(* ===== verification/DwarfCfiModule.v ===== *)
(** * From DWARF call frame information to a module (common/dwarf_cfi_to_module.h, .cc)

    [DwarfCFIToModule], the handler that turns the rules [CallFrameInfo] reports
    into the STACK CFI records of a [Module], and what the records mean: at every
    location, the rules in effect are the row of the table, written as postfix
    expressions over register names. *)

From stdpp Require Import gmap.
From S2P Require Import Prelude LibcSupport OrderedMap Tokens PostfixEvaluator CfiFrameInfo Memory ByteReader DwarfFields DwarfCfi DwarfCfiSpec DwarfCfiSection SymbolDumper DumpLoad.
#[local] Open Scope Z_scope.

(** ** Register names *)

Definition I386 : list chars := map str [
  "$eax"; "$ecx"; "$edx"; "$ebx"; "$esp"; "$ebp"; "$esi"; "$edi";
  "$eip"; "$eflags"; "$unused1"; "$st0"; "$st1"; "$st2"; "$st3"; "$st4";
  "$st5"; "$st6"; "$st7"; "$unused2"; "$unused3"; "$xmm0"; "$xmm1"; "$xmm2";
  "$xmm3"; "$xmm4"; "$xmm5"; "$xmm6"; "$xmm7"; "$mm0"; "$mm1"; "$mm2";
  "$mm3"; "$mm4"; "$mm5"; "$mm6"; "$mm7"; "$fcw"; "$fsw"; "$mxcsr";
  "$es"; "$cs"; "$ss"; "$ds"; "$fs"; "$gs"; "$unused4"; "$unused5";
  "$tr"; "$ldtr"]%string.

Definition X86_64 : list chars := map str [
  "$rax"; "$rdx"; "$rcx"; "$rbx"; "$rsi"; "$rdi"; "$rbp"; "$rsp";
  "$r8"; "$r9"; "$r10"; "$r11"; "$r12"; "$r13"; "$r14"; "$r15";
  "$rip"; "$xmm0"; "$xmm1"; "$xmm2"; "$xmm3"; "$xmm4"; "$xmm5"; "$xmm6";
  "$xmm7"; "$xmm8"; "$xmm9"; "$xmm10"; "$xmm11"; "$xmm12"; "$xmm13"; "$xmm14";
  "$xmm15"; "$st0"; "$st1"; "$st2"; "$st3"; "$st4"; "$st5"; "$st6";
  "$st7"; "$mm0"; "$mm1"; "$mm2"; "$mm3"; "$mm4"; "$mm5"; "$mm6";
  "$mm7"; "$rflags"; "$es"; "$cs"; "$ss"; "$ds"; "$fs"; "$gs";
  "$unused1"; "$unused2"; "$fs.base"; "$gs.base"; "$unused3"; "$unused4"; "$tr"; "$ldtr";
  "$mxcsr"; "$fcw"; "$fsw"]%string.

Definition ARM : list chars := map str [
  "r0"; "r1"; "r2"; "r3"; "r4"; "r5"; "r6"; "r7";
  "r8"; "r9"; "r10"; "r11"; "r12"; "sp"; "lr"; "pc";
  "f0"; "f1"; "f2"; "f3"; "f4"; "f5"; "f6"; "f7";
  "fps"; "cpsr"; ""; ""; ""; ""; ""; "";
  ""; ""; ""; ""; ""; ""; ""; "";
  ""; ""; ""; ""; ""; ""; ""; "";
  ""; ""; ""; ""; ""; ""; ""; "";
  ""; ""; ""; ""; ""; ""; ""; "";
  "s0"; "s1"; "s2"; "s3"; "s4"; "s5"; "s6"; "s7";
  "s8"; "s9"; "s10"; "s11"; "s12"; "s13"; "s14"; "s15";
  "s16"; "s17"; "s18"; "s19"; "s20"; "s21"; "s22"; "s23";
  "s24"; "s25"; "s26"; "s27"; "s28"; "s29"; "s30"; "s31";
  "f0"; "f1"; "f2"; "f3"; "f4"; "f5"; "f6"; "f7"]%string.

Definition ARM64 : list chars := map str [
  "x0"; "x1"; "x2"; "x3"; "x4"; "x5"; "x6"; "x7";
  "x8"; "x9"; "x10"; "x11"; "x12"; "x13"; "x14"; "x15";
  "x16"; "x17"; "x18"; "x19"; "x20"; "x21"; "x22"; "x23";
  "x24"; "x25"; "x26"; "x27"; "x28"; "x29"; "x30"; "sp";
  ""; ""; ""; ""; ""; ""; ""; "";
  ""; ""; ""; ""; ""; ""; ""; "";
  ""; ""; ""; ""; ""; ""; ""; "";
  ""; ""; ""; ""; ""; ""; ""; "";
  "v0"; "v1"; "v2"; "v3"; "v4"; "v5"; "v6"; "v7";
  "v8"; "v9"; "v10"; "v11"; "v12"; "v13"; "v14"; "v15";
  "v16"; "v17"; "v18"; "v19"; "v20"; "v21"; "v22"; "v23";
  "v24"; "v25"; "v26"; "v27"; "v28"; "v29"; "v30"; "v31"]%string.

Definition MIPS : list chars := map str [
  "$zero"; "$at"; "$v0"; "$v1"; "$a0"; "$a1"; "$a2"; "$a3";
  "$t0"; "$t1"; "$t2"; "$t3"; "$t4"; "$t5"; "$t6"; "$t7";
  "$s0"; "$s1"; "$s2"; "$s3"; "$s4"; "$s5"; "$s6"; "$s7";
  "$t8"; "$t9"; "$k0"; "$k1"; "$gp"; "$sp"; "$fp"; "$ra";
  "$lo"; "$hi"; "$pc"; "$f0"; "$f2"; "$f3"; "$f4"; "$f5";
  "$f6"; "$f7"; "$f8"; "$f9"; "$f10"; "$f11"; "$f12"; "$f13";
  "$f14"; "$f15"; "$f16"; "$f17"; "$f18"; "$f19"; "$f20"; "$f21";
  "$f22"; "$f23"; "$f24"; "$f25"; "$f26"; "$f27"; "$f28"; "$f29";
  "$f30"; "$f31"; "$fcsr"; "$fir"]%string.

(** ** The handler *)

(** The calls to [DwarfCFIToModule::Reporter]. *)
Inductive ConversionReport : Type :=
| UnnamedRegister (offset reg : Z)
| UndefinedNotSupported (offset : Z) (reg : chars)
| ExpressionsNotSupported (offset : Z) (reg : chars).

(** [entry_] is [None] for NULL; the handler owns the entry until [End] gives
    it to the module. *)
Record DwarfCFIToModule : Type := mkConverter {
  module_ : DumpModule;
  register_names_ : list chars;
  conversion_reports : list ConversionReport;
  entry_ : option StackFrameEntry;
  entry_offset_ : Z;
  return_address_ : Z;
  cfa_name_ : chars;
  ra_name_ : chars;
  common_strings_ : list (chars * unit);
}.

(** The constructor; [entry_offset_] is left as the memory was. *)
Definition new_converter (module_ : DumpModule) (register_names : list chars) (stale : Z) : DwarfCFIToModule :=
  mkConverter module_ register_names [] None stale (wrap 32 (-1)) (str ".cfa") (str ".ra") [].

Definition with_entry (h : DwarfCFIToModule) (entry : option StackFrameEntry) : DwarfCFIToModule :=
  mkConverter (module_ h) (register_names_ h) (conversion_reports h) entry (entry_offset_ h) (return_address_ h)
    (cfa_name_ h) (ra_name_ h) (common_strings_ h).
Definition with_report (h : DwarfCFIToModule) (r : ConversionReport) : DwarfCFIToModule :=
  mkConverter (module_ h) (register_names_ h) (conversion_reports h ++ [r]) (entry_ h) (entry_offset_ h)
    (return_address_ h) (cfa_name_ h) (ra_name_ h) (common_strings_ h).
Definition with_strings (h : DwarfCFIToModule) (strings : list (chars * unit)) : DwarfCFIToModule :=
  mkConverter (module_ h) (register_names_ h) (conversion_reports h) (entry_ h) (entry_offset_ h)
    (return_address_ h) (cfa_name_ h) (ra_name_ h) strings.

Definition Entry (h : DwarfCFIToModule) (offset address length version : Z) (augmentation : chars)
    (return_address : Z) : outcome (bool * DwarfCFIToModule) :=
  match entry_ h with
  | Some _ => Undef
  | None =>
      let initial :=
        match register_names_ h !! Z.to_nat return_address with
        | Some name => assign [] (ra_name_ h) name
        | None => []
        end in
      Ok (true, mkConverter (module_ h) (register_names_ h) (conversion_reports h)
        (Some (mkStackFrameEntry address length initial [])) offset return_address
        (cfa_name_ h) (ra_name_ h) (common_strings_ h))
  end.

Definition RegisterName (h : DwarfCFIToModule) (i : Z) : outcome (chars * DwarfCFIToModule) :=
  match entry_ h with
  | None => Undef
  | Some _ =>
      if i <? 0 then
        if negb (i =? kCFARegister) then Undef else Ok (cfa_name_ h, h)
      else
        let reg := i in
        if reg =? return_address_ h then Ok (ra_name_ h, h)
        else
          let unnamed :=
            Ok (str "unnamed_register" ++ put_number 10 reg, with_report h (UnnamedRegister (entry_offset_ h) reg)) in
          match register_names_ h !! Z.to_nat reg with
          | Some name => if bool_decide (name = []) then unnamed else Ok (name, h)
          | None => unnamed
          end
  end.

Definition Record_ (h : DwarfCFIToModule) (address reg : Z) (rule : chars) : outcome DwarfCFIToModule :=
  match entry_ h with
  | None => Undef
  | Some entry =>
      let h := with_strings h (insert (common_strings_ h) rule tt) in
      let shared_rule := rule in
      let? (name, h) := RegisterName h reg in
      if address =? entry_address entry then
        Ok (with_entry h (Some (mkStackFrameEntry (entry_address entry) (entry_size entry)
          (assign (initial_rules entry) name shared_rule) (rule_changes entry))))
      else
        let rules := default [] (find_value (rule_changes entry) address) in
        Ok (with_entry h (Some (mkStackFrameEntry (entry_address entry) (entry_size entry)
          (initial_rules entry) (assign (rule_changes entry) address (assign rules name shared_rule)))))
  end.

Definition converter_UndefinedRule (h : DwarfCFIToModule) (address reg : Z) : outcome (bool * DwarfCFIToModule) :=
  let? (name, h) := RegisterName h reg in
  Ok (true, with_report h (UndefinedNotSupported (entry_offset_ h) name)).

Definition converter_SameValueRule (h : DwarfCFIToModule) (address reg : Z) : outcome (bool * DwarfCFIToModule) :=
  let? (s, h) := RegisterName h reg in
  let? h := Record_ h address reg s in
  Ok (true, h).

Definition converter_OffsetRule (h : DwarfCFIToModule) (address reg base_register offset : Z) :
    outcome (bool * DwarfCFIToModule) :=
  let? (s, h) := RegisterName h base_register in
  let? h := Record_ h address reg (s ++ str " " ++ put_int offset ++ str " + ^") in
  Ok (true, h).

Definition converter_ValOffsetRule (h : DwarfCFIToModule) (address reg base_register offset : Z) :
    outcome (bool * DwarfCFIToModule) :=
  let? (s, h) := RegisterName h base_register in
  let? h := Record_ h address reg (s ++ str " " ++ put_int offset ++ str " +") in
  Ok (true, h).

Definition converter_RegisterRule (h : DwarfCFIToModule) (address reg base_register : Z) :
    outcome (bool * DwarfCFIToModule) :=
  let? (s, h) := RegisterName h base_register in
  let? h := Record_ h address reg s in
  Ok (true, h).

Definition converter_ExpressionRule (h : DwarfCFIToModule) (address reg : Z) (expression : chars) :
    outcome (bool * DwarfCFIToModule) :=
  let? (name, h) := RegisterName h reg in
  Ok (true, with_report h (ExpressionsNotSupported (entry_offset_ h) name)).

Definition converter_ValExpressionRule (h : DwarfCFIToModule) (address reg : Z) (expression : chars) :
    outcome (bool * DwarfCFIToModule) :=
  let? (name, h) := RegisterName h reg in
  Ok (true, with_report h (ExpressionsNotSupported (entry_offset_ h) name)).

(** [module_->AddStackFrameEntry(entry_)]; a NULL entry would be read there. *)
Definition End_ (h : DwarfCFIToModule) : outcome (bool * DwarfCFIToModule) :=
  match entry_ h with
  | None => Undef
  | Some entry =>
      Ok (true, mkConverter (AddStackFrameEntry (module_ h) entry) (register_names_ h) (conversion_reports h) None
        (entry_offset_ h) (return_address_ h) (cfa_name_ h) (ra_name_ h) (common_strings_ h))
  end.

#[export] Instance converter_handler : Handler DwarfCFIToModule := {|
  Handler_Entry := Entry;
  Handler_UndefinedRule := converter_UndefinedRule;
  Handler_SameValueRule := converter_SameValueRule;
  Handler_OffsetRule := converter_OffsetRule;
  Handler_ValOffsetRule := converter_ValOffsetRule;
  Handler_RegisterRule := converter_RegisterRule;
  Handler_ExpressionRule := converter_ExpressionRule;
  Handler_ValExpressionRule := converter_ValExpressionRule;
  Handler_End := End_;
  Handler_PersonalityRoutine := default_PersonalityRoutine;
  Handler_LanguageSpecificDataArea := default_LanguageSpecificDataArea;
  Handler_SignalHandler := default_SignalHandler;
|}.

(** The entry the section of [DwarfCfiSection] gives. *)
Example example_converted :
  (let? (ok, p) := Start example_section 0 60 false
     (mkParser example_reader (new_converter (new_dump_module [] [] [] [] []) X86_64 0) []) in
   Ok (ok, GetStackFrameEntries (module_ (handler_ p)), conversion_reports (handler_ p))) =
  Ok (Some true,
    [mkStackFrameEntry 0x1000 0x20 [(str ".cfa", str "$rsp 8 +"); (str ".ra", str ".cfa -8 + ^")]
       [(0x1001, [(str "$rbp", str ".cfa -16 + ^"); (str ".cfa", str "$rsp 16 +")]);
        (0x1004, [(str ".cfa", str "$rbp 16 +")]);
        (0x100c, [(str ".cfa", str "$rsp 8 +")]);
        (0x100d, [(str ".cfa", str "$rbp 16 +")])]], []).
Proof. vm_compute. reflexivity. Qed.

(** ** The rules of an entry *)

(** Rules, and other rules in their place. *)
Definition apply_rules (rules changes : CfiRules) : CfiRules :=
  assign_all rules changes.

(** The rules in effect at [a]: the initial ones, and the changes up to there in
    the order of their addresses. *)
Definition changes_until (a : Z) (changes : list (Z * CfiRules)) : list CfiRules :=
  (filter (fun change => change.1 <= a) changes).*2.

Definition rules_at (e : StackFrameEntry) (a : Z) : CfiRules :=
  fold_left apply_rules (changes_until a (rule_changes e)) (initial_rules e).

Record entry_wf (e : StackFrameEntry) : Prop := {
  initial_sorted : sorted (initial_rules e);
  changes_sorted : sorted (rule_changes e);
  changes_wf : Forall (fun change => entry_address e < change.1 /\ sorted change.2 /\ change.2 <> []) (rule_changes e);
}.

Lemma apply_rules_sorted rules changes : sorted rules -> sorted (apply_rules rules changes).
Proof. apply assign_all_sorted. Qed.

Lemma find_apply_rules rules changes k :
  sorted rules -> sorted changes ->
  find_value (apply_rules rules changes) k =
    match find_value changes k with Some v => Some v | None => find_value rules k end.
Proof. intros Hr Hc. exact (find_assign_all changes k rules Hr Hc). Qed.

(** A rule for [name] from [address] on. *)
Definition record (e : StackFrameEntry) (address : Z) (name rule : chars) : StackFrameEntry :=
  if address =? entry_address e then
    mkStackFrameEntry (entry_address e) (entry_size e) (assign (initial_rules e) name rule) (rule_changes e)
  else
    mkStackFrameEntry (entry_address e) (entry_size e) (initial_rules e)
      (assign (rule_changes e) address (assign (default [] (find_value (rule_changes e) address)) name rule)).

Lemma changes_until_app a changes1 changes2 :
  changes_until a (changes1 ++ changes2) = changes_until a changes1 ++ changes_until a changes2.
Proof. unfold changes_until. by rewrite filter_app, fmap_app. Qed.

Lemma changes_until_one a (change : Z * CfiRules) :
  changes_until a [change] = if decide (change.1 <= a) then [change.2] else [].
Proof. unfold changes_until. rewrite filter_cons. by case_decide. Qed.

(** The last change of an entry. *)
Lemma assign_last_change (changes : list (Z * CfiRules)) address v :
  sorted changes -> Forall (fun change => change.1 <= address) changes ->
  exists before, assign changes address v = before ++ [(address, v)] /\
    (changes = before ++ default [] ((fun old => [(address, old)]) <$> find_value changes address)).
Proof.
  intros Hs Hle. destruct (assign_split changes address v Hs) as (m1 & m2 & H1 & H2 & E & Hm).
  assert (m2 = []) as ->.
  { destruct m2 as [|p m2]; [done|]. exfalso. apply Forall_cons in H2 as [H2 _]. rewrite Z_key_lt in H2.
    assert (p ∈ changes) as Hin by (destruct Hm as [->|[v0 ->]]; set_solver).
    rewrite Forall_forall in Hle. apply Hle in Hin. lia. }
  exists m1. split; [done|]. destruct Hm as [Hm|[v0 Hm]].
  - rewrite app_nil_r in Hm. assert (find_value changes address = None) as ->.
    { apply find_value_None; [done|]. intros v0 Hin. rewrite Hm in Hin.
      rewrite Forall_forall in H1. apply H1 in Hin. cbn in Hin. rewrite Z.ltb_lt in Hin. lia. }
    by rewrite app_nil_r.
  - assert (find_value changes address = Some v0) as -> by (apply find_value_Some; [done|]; rewrite Hm; set_solver).
    done.
Qed.

Lemma changes_nil e : entry_wf e -> Forall (fun change => change.1 <= entry_address e) (rule_changes e) -> rule_changes e = [].
Proof.
  intros [_ _ Hc] Hle. destruct (rule_changes e) as [|change changes]; [done|].
  apply Forall_cons in Hc as [[Hlt _] _]. apply Forall_cons in Hle as [Hle _]. lia.
Qed.

(** The last change is a rule for [name]. *)
Lemma find_last_change (rules old : CfiRules) name rule k :
  sorted rules -> sorted old ->
  find_value (apply_rules rules (assign old name rule)) k =
    if decide (k = name) then Some rule else find_value (apply_rules rules old) k.
Proof.
  intros Hr Ho. rewrite !find_apply_rules, (find_value_assign old name rule k Ho) by (done || by apply assign_sorted).
  by case_decide.
Qed.

Lemma fold_apply_sorted l : forall rules, sorted rules -> sorted (fold_left apply_rules l rules).
Proof. induction l as [|c l IH]; intros rules Hs; [done|]. by apply IH, apply_rules_sorted. Qed.

Lemma rules_at_record e address name rule a k :
  entry_wf e -> entry_address e <= address -> Forall (fun change => change.1 <= address) (rule_changes e) ->
  find_value (rules_at (record e address name rule) a) k =
    if decide (k = name /\ (address <= a \/ address = entry_address e)) then Some rule
    else find_value (rules_at e a) k.
Proof.
  intros Hwf Hge Hle. unfold record, rules_at. destruct (Z.eqb_spec address (entry_address e)) as [->|Hne].
  - rewrite (changes_nil e) by done. cbn [rule_changes initial_rules changes_until fold_left].
    destruct Hwf as [Hi _ _]. change (changes_until a []) with ([] : list CfiRules). cbn [fold_left].
    rewrite (find_value_assign _ name rule k Hi). destruct (decide (k = name)); [rewrite decide_True by auto|rewrite decide_False by tauto]; done.
  - destruct Hwf as [Hi Hs Hc]. cbn [rule_changes initial_rules].
    destruct (assign_last_change (rule_changes e) address
      (assign (default [] (find_value (rule_changes e) address)) name rule) Hs Hle) as (before & E & Hb).
    rewrite E. set (old := find_value (rule_changes e) address) in *.
    assert (Ho : sorted (default [] old)).
    { destruct old as [o|] eqn:Eo; [|constructor]. unfold old in Eo. apply find_value_Some in Eo; [|done].
      rewrite Forall_forall in Hc. by apply Hc in Eo as (_ & ? & _). }
    rewrite changes_until_app, fold_left_app, changes_until_one. cbn [fst snd].
    pose proof (fold_apply_sorted (changes_until a before) (initial_rules e) Hi) as Hbs.
    destruct (decide (address <= a)) as [Ha|Ha].
    + cbn [fold_left]. rewrite find_last_change by done. rewrite Hb, changes_until_app, fold_left_app.
      case_decide as Hk; [by rewrite decide_True by auto|]. rewrite decide_False by tauto.
      destruct old as [o|]; cbn [default from_option id fmap option_fmap option_map]; [|done].
      rewrite changes_until_one, decide_True by done. done.
    + cbn [fold_left]. rewrite decide_False by (intros [_ [?| ->]]; done). rewrite Hb, changes_until_app, fold_left_app.
      destruct old as [o|]; cbn [default from_option id fmap option_fmap option_map]; [|done].
      by rewrite changes_until_one, decide_False by done.
Qed.

Lemma record_wf e address name rule :
  entry_wf e -> entry_address e <= address -> entry_wf (record e address name rule).
Proof.
  intros [Hi Hs Hc] Hge. unfold record. destruct (Z.eqb_spec address (entry_address e)) as [->|Hne]; split; cbn; auto.
  - by apply assign_sorted.
  - by apply assign_sorted.
  - apply assign_Forall; [done|]. cbn. split; [lia|].
    set (old := find_value (rule_changes e) address).
    assert (Ho : sorted (default [] old)).
    { destruct old as [o|] eqn:Eo; [|constructor]. unfold old in Eo. apply find_value_Some in Eo; [|done].
      rewrite Forall_forall in Hc. by apply Hc in Eo as (_ & ? & _). }
    split; [by apply assign_sorted|]. intros E. apply (f_equal (fun m => find_value m name)) in E.
    rewrite (find_value_assign _ name rule name Ho), decide_True in E by done. done.
Qed.

Lemma record_changes_le e address name rule :
  Forall (fun change => change.1 <= address) (rule_changes e) ->
  Forall (fun change => change.1 <= address) (rule_changes (record e address name rule)).
Proof.
  intros Hle. unfold record. destruct (address =? entry_address e); [done|]. apply assign_Forall; [done|]. cbn. lia.
Qed.

(** ** What the handler does with a rule *)

Definition unnamed_register (reg : Z) : chars := str "unnamed_register" ++ put_number 10 reg.

Definition reg_name (names : list chars) (return_address reg : Z) : chars :=
  if reg <? 0 then str ".cfa"
  else if reg =? return_address then str ".ra"
  else
    match names !! Z.to_nat reg with
    | Some name => if bool_decide (name = []) then unnamed_register reg else name
    | None => unnamed_register reg
    end.

(** The rules that STACK CFI records can express. *)
Definition expressible (rule : Rule) : Prop :=
  match rule with UndefinedRule | ExpressionRule _ | ValExpressionRule _ => False | _ => True end.

(** The postfix expression for the rule of [reg]. *)
Definition rule_text (name : Z -> chars) (reg : Z) (rule : Rule) : chars :=
  match rule with
  | SameValueRule => name reg
  | OffsetRule base offset => name base ++ str " " ++ put_int offset ++ str " + ^"
  | ValOffsetRule base offset => name base ++ str " " ++ put_int offset ++ str " +"
  | RegisterRule base => name base
  | _ => []
  end.

(** What a rule does not change of the handler. *)
Definition settings (h : DwarfCFIToModule) : DumpModule * list chars * Z * Z * chars * chars :=
  (module_ h, register_names_ h, return_address_ h, entry_offset_ h, cfa_name_ h, ra_name_ h).

Definition fixed_names (h : DwarfCFIToModule) : Prop := cfa_name_ h = str ".cfa" /\ ra_name_ h = str ".ra".

Definition name_of (h : DwarfCFIToModule) : Z -> chars := reg_name (register_names_ h) (return_address_ h).

Lemma settings_names h h' : settings h' = settings h -> fixed_names h -> fixed_names h' /\ name_of h' = name_of h.
Proof.
  unfold settings, fixed_names, name_of. intros [= _ E1 E2 _ E3 E4] [F1 F2]. rewrite E1, E2. split; [|done]. split; congruence.
Qed.

Lemma RegisterName_spec h reg :
  is_Some (entry_ h) -> fixed_names h -> reg_ok reg ->
  exists h', RegisterName h reg = Ok (name_of h reg, h') /\ entry_ h' = entry_ h /\ settings h' = settings h.
Proof.
  intros [e He] [Hc Hr] Hreg. unfold RegisterName, name_of, reg_name. rewrite He.
  destruct Hreg as [->|[H1 H2]].
  - exists h. by rewrite Hc.
  - rewrite (proj2 (Z.ltb_ge _ _)) by done. destruct (reg =? return_address_ h); [exists h; by rewrite Hr|].
    destruct (register_names_ h !! Z.to_nat reg) as [name|]; [case_bool_decide|]; eexists; split; done.
Qed.

Lemma Record_spec h e address reg rule :
  entry_ h = Some e -> fixed_names h -> reg_ok reg ->
  exists h', Record_ h address reg rule = Ok h' /\ entry_ h' = Some (record e address (name_of h reg) rule) /\
    settings h' = settings h.
Proof.
  intros He Hn Hreg. unfold Record_. rewrite He. set (h1 := with_strings h _).
  destruct (RegisterName_spec h1 reg) as (h2 & -> & He2 & Hs2); [by eexists|done|done|].
  assert (name_of h1 = name_of h) as -> by done. cbn [obind]. unfold record.
  destruct (address =? entry_address e); eexists; (split; [done|split; [done|]]); injection Hs2 as ? ? ? ? ? ?; unfold settings; cbn; congruence.
Qed.

Lemma Handle_spec h e address reg rule :
  entry_ h = Some e -> fixed_names h -> reg_ok reg -> range_ok rule -> expressible rule ->
  exists h', Handle rule h address reg = Ok (true, h') /\
    entry_ h' = Some (record e address (name_of h reg) (rule_text (name_of h) reg rule)) /\ settings h' = settings h.
Proof.
  intros He Hn Hreg Hrange Hx.
  assert (Hrec : forall base text, reg_ok base ->
    exists h', (let? (s, h) := RegisterName h base in let? h := Record_ h address reg (text s) in Ok (true, h)) = Ok (true, h') /\
      entry_ h' = Some (record e address (name_of h reg) (text (name_of h base))) /\ settings h' = settings h).
  { intros base text Hb. destruct (RegisterName_spec h base) as (h1 & -> & He1 & Hs1); [by eexists|done|done|].
    destruct (settings_names h h1 Hs1 Hn) as [Hn1 En]. cbn [obind].
    destruct (Record_spec h1 e address reg (text (name_of h base))) as (h2 & -> & He2 & Hs2); [congruence|done|done|].
    exists h2. split; [done|]. rewrite He2, En. split; [done|congruence]. }
  destruct rule as [| |base offset|base offset|base|s|s]; try done; cbn in Hrange |- *.
  - apply (Hrec reg (fun s => s) Hreg).
  - apply (Hrec base (fun s => s ++ str " " ++ put_int offset ++ str " + ^")), Hrange.
  - apply (Hrec base (fun s => s ++ str " " ++ put_int offset ++ str " +")), Hrange.
  - apply (Hrec base (fun s => s)). by right.
Qed.

(** The handler accepts the rules it can express. *)
Definition converted_rule (h : DwarfCFIToModule) (address reg : Z) (rule : Rule) : DwarfCFIToModule :=
  match Handle rule h address reg with Ok (_, h) => h | Undef => h end.

#[export, refine] Instance converter_rule_handler : RuleHandler DwarfCFIToModule := {|
  rule_ready h := is_Some (entry_ h) /\ fixed_names h;
  takes := expressible;
  take_rule := converted_rule;
|}.
Proof.
  - done.
  - done.
  - intros h address reg rule [[e He] Hn] Hreg Hr Hx. unfold converted_rule.
    by destruct (Handle_spec h e address reg rule He Hn Hreg Hr Hx) as (h' & -> & _).
  - intros h address reg rule [[e He] Hn] Hreg Hr Hx. unfold converted_rule.
    destruct (Handle_spec h e address reg rule He Hn Hreg Hr Hx) as (h' & -> & He' & Hs).
    split; [by eexists|]. by apply (settings_names h).
Defined.

(** ** The rules after calls *)

Definition record_call (name : Z -> chars) (e : StackFrameEntry) (c : RuleCall) : StackFrameEntry :=
  record e (call_address c) (name (call_reg c)) (rule_text name (call_reg c) (call_rule c)).

Lemma deliver_records calls : forall h e,
  entry_ h = Some e -> fixed_names h -> Forall (call_ok DwarfCFIToModule) calls ->
  entry_ (deliver calls h) = Some (fold_left (record_call (name_of h)) calls e) /\
  settings (deliver calls h) = settings h.
Proof.
  induction calls as [|c calls IH]; intros h e He Hn Hc; [done|].
  apply Forall_cons in Hc as [[Hreg [Hr Hx]] Hc]. cbn [deliver fold_left take_rule converter_rule_handler].
  destruct (Handle_spec h e (call_address c) (call_reg c) (call_rule c) He Hn Hreg Hr Hx) as (h' & E & He' & Hs).
  unfold converted_rule. rewrite E. destruct (settings_names h h' Hs Hn) as [Hn' En].
  destruct (IH h' _ He' Hn' Hc) as [IH1 IH2]. rewrite En in IH1. split; [exact IH1|].
  rewrite <- Hs. exact IH2.
Qed.

Lemma apply_calls_view calls reg : forall view,
  apply_calls calls view !! reg = match apply_calls calls ∅ !! reg with Some rule => Some rule | None => view !! reg end.
Proof.
  induction calls as [|c calls IH]; intros view; [done|].
  change (apply_calls calls (<[call_reg c := call_rule c]> view) !! reg =
    match apply_calls calls (<[call_reg c := call_rule c]> ∅) !! reg with Some rule => Some rule | None => view !! reg end).
  rewrite (IH (<[_:=_]> view)), (IH (<[_:=_]> ∅)). destruct (apply_calls calls ∅ !! reg); [done|].
  destruct (decide (reg = call_reg c)) as [->|Hne]; [by rewrite !lookup_insert_eq|]. by rewrite !lookup_insert_ne.
Qed.

Definition distinct_names (name : Z -> chars) : Prop :=
  forall reg1 reg2, reg_ok reg1 -> reg_ok reg2 -> name reg1 = name reg2 -> reg1 = reg2.

Lemma record_calls_wf name calls : forall e,
  entry_wf e -> Forall (fun c => entry_address e <= call_address c) calls ->
  entry_wf (fold_left (record_call name) calls e) /\
  entry_address (fold_left (record_call name) calls e) = entry_address e /\
  entry_size (fold_left (record_call name) calls e) = entry_size e.
Proof.
  assert (Hsame : forall e c, entry_address (record_call name e c) = entry_address e /\
    entry_size (record_call name e c) = entry_size e).
  { intros e c. unfold record_call, record. by destruct (_ =? _). }
  induction calls as [|c calls IH]; intros e Hwf Hc; [done|]. apply Forall_cons in Hc as [Hc Hcs]. cbn [fold_left].
  destruct (Hsame e c) as [E1 E2]. rewrite <- E1, <- E2. apply IH; [by apply record_wf|by rewrite E1].
Qed.

(** At every address, the rule of a register is the one of the last call about
    it up to there. *)
Lemma rules_at_calls name calls a reg : forall e,
  distinct_names name -> reg_ok reg -> entry_wf e -> entry_address e <= a ->
  Forall (fun c => reg_ok (call_reg c) /\ entry_address e <= call_address c) calls -> StronglySorted call_le calls ->
  Forall (fun c => Forall (fun change => change.1 <= call_address c) (rule_changes e)) calls ->
  find_value (rules_at (fold_left (record_call name) calls e) a) (name reg) =
    match apply_calls (calls_until a calls) ∅ !! reg with
    | Some rule => Some (rule_text name reg rule)
    | None => find_value (rules_at e a) (name reg)
    end.
Proof.
  induction calls as [|c calls IH]; intros e Hd Hreg Hwf Ha Hc Hs Hle; [done|].
  apply Forall_cons in Hc as [[Hcr Hca] Hc]. apply StronglySorted_inv in Hs as [Hs Hsc].
  apply Forall_cons in Hle as [Hlec Hle]. cbn [fold_left].
  destruct (record_calls_wf name [c] e Hwf ltac:(by repeat constructor)) as (Hwf' & Ea & _). cbn [fold_left] in Hwf', Ea.
  rewrite IH; [|done|done|done|by rewrite Ea|by rewrite Ea|done|].
  2: { rewrite Forall_forall in Hsc |- *. intros c2 Hc2. apply Hsc in Hc2. unfold call_le in Hc2.
       eapply Forall_impl; [apply record_changes_le, Hlec|]. cbn. lia. }
  unfold record_call. rewrite rules_at_record by done.
  unfold calls_until. rewrite filter_cons. destruct (decide (call_address c <= a)) as [Hca2|Hca2].
  - change (apply_calls (c :: filter ?P calls) ∅) with (apply_calls (filter P calls) (<[call_reg c := call_rule c]> ∅)).
    rewrite (apply_calls_view _ _ (<[_:=_]> _)). destruct (apply_calls (filter _ calls) ∅ !! reg); [done|].
    destruct (decide (reg = call_reg c)) as [->|Hne].
    + rewrite lookup_insert_eq, decide_True; auto.
    + rewrite lookup_insert_ne, lookup_empty, decide_False; [done| |done]. intros [E _]. by apply Hd in E.
  - destruct (apply_calls (filter _ calls) ∅ !! reg); [done|]. rewrite decide_False; [done|]. intros [_ [?|E]]; lia.
Qed.

(** ** A function *)

Definition initial_ra (names : list chars) (return_address : Z) : CfiRules :=
  match names !! Z.to_nat return_address with Some name => [(str ".ra", name)] | None => [] end.

Definition entered_converter (h : DwarfCFIToModule) (offset address length : Z) (return_address : Z) : DwarfCFIToModule :=
  mkConverter (module_ h) (register_names_ h) (conversion_reports h)
    (Some (mkStackFrameEntry address length (initial_ra (register_names_ h) return_address) [])) offset return_address
    (cfa_name_ h) (ra_name_ h) (common_strings_ h).

Definition left_converter (h : DwarfCFIToModule) : DwarfCFIToModule :=
  match End_ h with Ok (_, h) => h | Undef => h end.

#[export, refine] Instance converter_section_handler : SectionHandler DwarfCFIToModule := {|
  idle h := entry_ h = None /\ fixed_names h;
  enter h offset address length version augmentation ra := entered_converter h offset address length ra;
  leave := left_converter;
|}.
Proof.
  - intros h offset address length version augmentation ra [He [_ Hr]]. cbn. unfold Entry, entered_converter, initial_ra.
    rewrite He, Hr. by destruct (register_names_ h !! Z.to_nat ra).
  - intros h offset address length version augmentation ra [He Hn]. split; [by eexists|done].
  - intros h [[e He] Hn]. exists true. unfold left_converter. cbn. unfold End_. by rewrite He.
  - intros h [[e He] Hn]. unfold left_converter, End_. by rewrite He.
  - done.
  - done.
  - done.
Defined.

(** The rules are those of the row: a register has the text of its rule; if the
    rule is that it keeps its value, or there is none, its text may also be what
    the entry began with. *)
Definition shows_row (names : list chars) (return_address : Z) (r : Row) (rules : CfiRules) : Prop :=
  let name := reg_name names return_address in
  find_value rules (str ".cfa") = rule_text name kCFARegister <$> row_cfa r /\
  (forall rule, row_cfa r = Some rule -> range_ok rule /\ expressible rule) /\
  forall reg, register_ok reg ->
     match default SameValueRule (row_rules r !! reg) with
     | SameValueRule =>
         find_value rules (name reg) = Some (name reg) \/
         find_value rules (name reg) = find_value (initial_ra names return_address) (name reg)
     | rule => find_value rules (name reg) = Some (rule_text name reg rule) /\ range_ok rule /\ expressible rule
     end.

(** A rule for a register, or the one the entry begins with. *)
Definition made_rule (names : list chars) (return_address : Z) (p : chars * chars) : Prop :=
  let name := reg_name names return_address in
  p ∈ initial_ra names return_address \/
  exists reg rule, reg_ok reg /\ range_ok rule /\ expressible rule /\ p = (name reg, rule_text name reg rule).

Definition all_rules (P : chars * chars -> Prop) (e : StackFrameEntry) : Prop :=
  Forall P (initial_rules e) /\ Forall (fun change => Forall P change.2) (rule_changes e).

(** The entry has the rules of [d] at every location. *)
Definition converted (names : list chars) (d : Described) (e : StackFrameEntry) : Prop :=
  entry_address e = described_address d /\ entry_size e = described_size d /\ entry_wf e /\
  all_rules (made_rule names (described_return_address d)) e /\
  (forall t, exec_entry (cie_program d) (fde_program d) (described_address d) = Some t ->
     Forall (fun change => change.1 <= loc t) (rule_changes e)) /\
  forall t1 a ta, exec_all None (cie_program d) (empty_table (described_address d)) = Some t1 ->
    described_address d <= a -> table_at (Some (row t1)) (fde_program d) t1 a = Some ta ->
    shows_row names (described_return_address d) (row ta) (rules_at e a).

(** The locations of the instructions do not go back, and start at the
    function. *)
Definition orderly (d : Described) : Prop :=
  Forall still (cie_program d) /\
  forall t1, exec_all None (cie_program d) (empty_table (described_address d)) = Some t1 ->
    ascending (Some (row t1)) (fde_program d) t1.

Lemma record_all_rules P e address name rule :
  all_rules P e -> P (name, rule) -> all_rules P (record e address name rule).
Proof.
  intros [Hi Hc] Hp. unfold record. destruct (address =? entry_address e); split; cbn; try done.
  - by apply assign_Forall.
  - apply assign_Forall; [done|]. cbn. apply assign_Forall; [|done].
    unfold find_value. destruct (rule_changes e !! find (rule_changes e) address) as [change|] eqn:E; [|constructor].
    rewrite Forall_forall in Hc. apply list_elem_of_lookup_2 in E. by apply Hc in E.
Qed.

Lemma record_calls_rules P name calls : forall e,
  all_rules P e -> Forall (fun c => P (name (call_reg c), rule_text name (call_reg c) (call_rule c))) calls ->
  all_rules P (fold_left (record_call name) calls e).
Proof.
  induction calls as [|c calls IH]; intros e He Hc; [done|]. apply Forall_cons in Hc as [Hc Hcs]. cbn [fold_left].
  apply IH; [|done]. by apply record_all_rules.
Qed.

Lemma record_calls_within name calls limit : forall e,
  Forall (fun change => change.1 <= limit) (rule_changes e) -> Forall (fun c => call_address c <= limit) calls ->
  Forall (fun change => change.1 <= limit) (rule_changes (fold_left (record_call name) calls e)).
Proof.
  induction calls as [|c calls IH]; intros e He Hc; [done|]. apply Forall_cons in Hc as [Hc Hcs]. cbn [fold_left].
  apply IH; [|done]. unfold record_call, record. destruct (_ =? _); [done|]. by apply assign_Forall.
Qed.

Lemma initial_ra_entry names ra address size :
  entry_wf (mkStackFrameEntry address size (initial_ra names ra) []).
Proof. unfold initial_ra. split; cbn; [|constructor|constructor]. destruct (names !! Z.to_nat ra); repeat constructor. Qed.

(** A rule that the calls leave is the rule of a call. *)
Lemma apply_calls_rule calls reg rule :
  Forall (call_ok DwarfCFIToModule) calls -> apply_calls calls ∅ !! reg = Some rule -> range_ok rule /\ expressible rule.
Proof.
  intros Hc. enough (forall view, (forall reg rule, view !! reg = Some rule -> range_ok rule /\ expressible rule) ->
    apply_calls calls view !! reg = Some rule -> range_ok rule /\ expressible rule) as He.
  { apply He. intros reg' rule' Hl. by rewrite lookup_empty in Hl. }
  induction Hc as [|c calls [_ Hr] _ IH]; intros view Hv Hl; [by eapply Hv|].
  apply (IH (<[call_reg c := call_rule c]> view)); [|exact Hl].
  intros reg' rule' [[_ <-]|[_ Hl']]%lookup_insert_Some; [done|by eapply Hv].
Qed.

Lemma entry_converted names d calls :
  Forall (call_ok DwarfCFIToModule) calls -> tabulates (cie_program d) (fde_program d) (described_address d) calls ->
  orderly d -> distinct_names (reg_name names (described_return_address d)) ->
  converted names d (fold_left (record_call (reg_name names (described_return_address d))) calls
    (mkStackFrameEntry (described_address d) (described_size d) (initial_ra names (described_return_address d)) [])).
Proof.
  intros Hok (t1 & t2 & Hx1 & Hx2 & _ & Htab) [Hst Hasc] Hd. set (ra := described_return_address d) in *.
  set (name := reg_name names ra) in *. set (e0 := mkStackFrameEntry _ _ _ _).
  destruct (Htab Hst (Hasc t1 Hx1)) as (Hin & Hsd & Hat).
  assert (Hge : Forall (fun c => described_address d <= call_address c) calls).
  { eapply Forall_impl; [exact Hin|]. by intros c []. }
  pose proof (initial_ra_entry names ra (described_address d) (described_size d)) as Hwf0. fold e0 in Hwf0.
  destruct (record_calls_wf name calls e0 Hwf0 Hge) as (Hwf & Ea & Es).
  assert (Hle : Forall (fun c => Forall (fun change => change.1 <= call_address c) (rule_changes e0)) calls).
  { apply Forall_forall. intros. constructor. }
  split; [done|]. split; [done|]. split; [done|].
  split.
  { apply record_calls_rules.
    - split; [|constructor]. apply Forall_forall. intros p Hp. by left.
    - eapply Forall_impl; [exact Hok|]. intros c (Hr & Hrange & Hx). right. by exists (call_reg c), (call_rule c). }
  split.
  { intros t. unfold exec_entry. rewrite Hx1. cbn. rewrite Hx2. intros [= <-]. apply record_calls_within; [constructor|].
    eapply Forall_impl; [exact Hin|]. by intros c []. }
  intros t1' a ta Hx1' Ha Hta. rewrite Hx1 in Hx1'. injection Hx1' as <-.
  destruct (Hat a ta Ha Hta) as [Hcfa Hregs].
  assert (Hrule : forall reg, reg_ok reg ->
    find_value (rules_at (fold_left (record_call name) calls e0) a) (name reg) =
      match apply_calls (calls_until a calls) ∅ !! reg with
      | Some rule => Some (rule_text name reg rule)
      | None => find_value (initial_ra names ra) (name reg)
      end).
  { intros reg Hreg. apply (rules_at_calls name calls a reg e0); auto.
    eapply Forall_and. split; [|exact Hge]. eapply Forall_impl; [exact Hok|]. by intros ? []. }
  unfold shows_row. fold ra. fold name. cbv zeta.
  assert (Hok_rule : forall reg rule, apply_calls (calls_until a calls) ∅ !! reg = Some rule -> range_ok rule /\ expressible rule).
  { intros reg rule. apply apply_calls_rule. apply Forall_forall. intros c [_ Hc]%list_elem_of_filter.
    rewrite Forall_forall in Hok. by apply Hok. }
  split; [|split].
  - pose proof (Hrule kCFARegister (or_introl eq_refl)) as Hr. change (name kCFARegister) with (str ".cfa") in Hr.
    rewrite Hr, Hcfa. destruct (row_cfa (row ta)); [done|]. cbn. unfold initial_ra. by destruct (names !! Z.to_nat ra).
  - intros rule Er. apply (Hok_rule kCFARegister). by rewrite Hcfa.
  - intros reg Hreg. rewrite (Hrule reg) by by right. rewrite <- Hregs by (unfold register_ok, kCFARegister in *; lia).
    pose proof (Hok_rule reg) as Hor.
    destruct (apply_calls (calls_until a calls) ∅ !! reg) as [[]|]; cbn [default from_option id]; auto;
      (split; [done|by apply Hor]).
Qed.

(** What the handler keeps from function to function. *)
Lemma told_converts ds h h' : told ds h h' ->
  entry_ h = None /\ fixed_names h -> Forall orderly ds ->
  Forall (fun d => distinct_names (reg_name (register_names_ h) (described_return_address d))) ds ->
  exists entries, Forall2 (converted (register_names_ h)) ds entries /\
    module_ h' = fold_left AddStackFrameEntry entries (module_ h) /\
    (entry_ h' = None /\ fixed_names h') /\ register_names_ h' = register_names_ h.
Proof.
  induction 1 as [h|d ds calls h h' Hok Htab _ IH]; intros [He Hn] Ho Hd; [by exists []|].
  apply Forall_cons in Ho as [Hod Ho]. apply Forall_cons in Hd as [Hdd Hd].
  destruct (deliver_records calls (entered h d)
    (mkStackFrameEntry (described_address d) (described_size d)
       (initial_ra (register_names_ h) (described_return_address d)) []) ltac:(by unfold entered) ltac:(by unfold entered) Hok) as [He1 Hs1].
  set (h1 := deliver calls (entered h d)) in *.
  assert (Hl : leave h1 = left_converter h1) by done. unfold left_converter, End_ in Hl. rewrite He1 in Hl.
  set (e := fold_left _ calls _) in *. rewrite Hl in IH.
  injection Hs1 as Em Er Era Eo Ec Ean.
  destruct IH as (entries & Hf & Emod & Hidle & Enames); cbn [register_names_ module_ entry_] in *.
  { split; [done|]. destruct Hn as [Hn1 Hn2]. split; cbn [cfa_name_ ra_name_]; congruence. }
  { done. }
  { by rewrite Er. }
  rewrite Er in Hf, Enames. rewrite Em in Emod. exists (e :: entries). split; [|split; [exact Emod|by split]].
  constructor; [|exact Hf]. by apply (entry_converted _ d calls).
Qed.

(** ** The names of the registers *)

(** No name is used twice, or for something else. *)
Definition names_ok (names : list chars) : bool :=
  bool_decide (NoDup (filter (fun name => name <> []) names)) &&
  forallb (fun name => negb (bool_decide (name = str ".cfa")) && negb (bool_decide (name = str ".ra")) &&
    negb (bool_decide (take 16 name = str "unnamed_register"))) names.

Lemma tables_ok : names_ok I386 = true /\ names_ok X86_64 = true /\ names_ok ARM64 = true /\ names_ok MIPS = true.
Proof. repeat split; vm_compute; reflexivity. Qed.

(** The names of ARM are not: the numbers 16 and 96 are both [f0]. *)
Example ARM_not_ok : ARM !! 16%nat = Some (str "f0") /\ ARM !! 96%nat = Some (str "f0").
Proof. by vm_compute. Qed.

Lemma map_digit_inj l1 : forall l2, Forall (fun d => 0 <= d < 10) l1 -> Forall (fun d => 0 <= d < 10) l2 ->
  map digit_char l1 = map digit_char l2 -> l1 = l2.
Proof.
  induction l1 as [|d1 l1 IH]; intros [|d2 l2] H1 H2; try done. cbn [map]. intros [= E1 E2].
  apply Forall_cons in H1 as [Hd1 H1]. apply Forall_cons in H2 as [Hd2 H2].
  f_equal; [|by apply IH]. unfold digit_char in E1. rewrite !(proj2 (Z.ltb_lt _ _)) in E1 by lia. lia.
Qed.

Lemma NoDup_filter_lookup {A} (P : A -> Prop) `{!forall x, Decision (P x)} (l : list A) x : forall i j,
  NoDup (filter P l) -> P x -> l !! i = Some x -> l !! j = Some x -> i = j.
Proof.
  induction l as [|y l IH]; intros i j Hnd Hx Hi Hj; [done|]. rewrite filter_cons in Hnd.
  assert (Hin : forall k, l !! k = Some x -> x ∈ filter P l).
  { intros k Hk. apply list_elem_of_filter. split; [done|]. by eapply list_elem_of_lookup_2. }
  destruct i as [|i], j as [|j]; cbn in Hi, Hj; [done| | |].
  - injection Hi as ->. rewrite decide_True in Hnd by done. apply NoDup_cons in Hnd as [Hn _].
    by apply Hin in Hj.
  - injection Hj as ->. rewrite decide_True in Hnd by done. apply NoDup_cons in Hnd as [Hn _].
    by apply Hin in Hi.
  - f_equal. apply IH; auto. case_decide; [by apply NoDup_cons in Hnd as [_ ?]|done].
Qed.

Lemma unnamed_inj reg1 reg2 :
  register_ok reg1 -> register_ok reg2 -> unnamed_register reg1 = unnamed_register reg2 -> reg1 = reg2.
Proof.
  intros H1 H2 E. apply app_inv_head in E.
  destruct (put_number_spec 10 reg1 ltac:(lia)) as (ds1 & E1 & [_ Hd1] & <-); [unfold register_ok, uint in *; lia|].
  destruct (put_number_spec 10 reg2 ltac:(lia)) as (ds2 & E2 & [_ Hd2] & <-); [unfold register_ok, uint in *; lia|].
  rewrite E1, E2 in E. by apply map_digit_inj in E as ->.
Qed.

Lemma reg_name_cases names ra reg :
  reg_ok reg ->
  (reg = kCFARegister /\ reg_name names ra reg = str ".cfa") \/
  register_ok reg /\
    ((reg = ra /\ reg_name names ra reg = str ".ra") \/
     (exists n, names !! Z.to_nat reg = Some n /\ n <> [] /\ reg_name names ra reg = n) \/
     reg_name names ra reg = unnamed_register reg).
Proof.
  intros [->|Hr]; [by left|right]. split; [done|]. unfold reg_name.
  rewrite (proj2 (Z.ltb_ge _ _)) by apply Hr. destruct (Z.eqb_spec reg ra); [by left|right].
  destruct (names !! Z.to_nat reg) as [nm|]; [|by right]. case_bool_decide; [by right|]. left. by exists nm.
Qed.

Lemma names_ok_distinct names ra : names_ok names = true -> distinct_names (reg_name names ra).
Proof.
  intros [Hnd Hn]%andb_true_iff reg1 reg2 H1 H2. apply bool_decide_eq_true in Hnd.
  rewrite forallb_forall in Hn.
  assert (Hname : forall n, n ∈ names -> n <> str ".cfa" /\ n <> str ".ra" /\ take 16 n <> str "unnamed_register").
  { intros n Hin. rewrite list_elem_of_In in Hin. apply Hn in Hin.
    apply andb_true_iff in Hin as [[Ha Hb]%andb_true_iff Hc].
    by rewrite !negb_true_iff, !bool_decide_eq_false in Ha, Hb, Hc. }
  assert (Hun : forall reg, take 16 (unnamed_register reg) = str "unnamed_register") by done.
  destruct (reg_name_cases names ra reg1 H1) as [[E1 ->]|[Hr1 [[E1 ->]|[(n1 & L1 & Hne1 & ->)| ->]]]],
    (reg_name_cases names ra reg2 H2) as [[E2 ->]|[Hr2 [[E2 ->]|[(n2 & L2 & Hne2 & ->)| ->]]]]; intros E;
    try (by rewrite E1, E2); try done;
    try (apply list_elem_of_lookup_2, Hname in L1 as (N1 & N2 & N3); subst; try rewrite Hun in N3; done);
    try (apply list_elem_of_lookup_2, Hname in L2 as (N1 & N2 & N3); subst; try rewrite Hun in N3; done).
  - subst n2. assert (Z.to_nat reg1 = Z.to_nat reg2) by by eapply (NoDup_filter_lookup (fun n => n <> [])).
    unfold register_ok in *. lia.
  - by apply unnamed_inj.
Qed.

(** ** A section *)

Lemma Start_converts mem buffer_ buffer_length_ eh_frame_ bs ds (r : ByteReader) (h : DwarfCFIToModule) reps :
  0 <= buffer_ -> buffer_ + buffer_length_ < 2 ^ 64 -> buffer_length_ = Z.of_nat (length bs) ->
  holds mem buffer_ bs -> have_function_base_ r = false ->
  idle h -> names_ok (register_names_ h) = true ->
  entries_at mem buffer_ buffer_length_ eh_frame_ r buffer_ bs ds ->
  Forall (takes_all DwarfCFIToModule) ds -> Forall orderly ds ->
  exists r' h' entries,
    Start mem buffer_ buffer_length_ eh_frame_ (mkParser r h reps) = Ok (Some true, mkParser r' h' reps) /\
    idle h' /\ register_names_ h' = register_names_ h /\
    Forall2 (converted (register_names_ h)) ds entries /\
    module_ h' = fold_left AddStackFrameEntry entries (module_ h).
Proof.
  intros Hb Hlt Hlen Hh Hbase Hidle Hok He Htk Hord.
  destruct (Start_spec mem buffer_ buffer_length_ eh_frame_ bs ds r h reps Hb Hlt Hlen Hh Hbase Hidle He Htk)
    as (r' & h' & E & Ht).
  destruct (told_converts ds h h' Ht Hidle Hord) as (entries & Hf & Em & Hidle' & En).
  { apply Forall_forall. intros d _. by apply names_ok_distinct. }
  by exists r', h', entries.
Qed.

Definition example_module : DumpModule := new_dump_module [] [] [] [] [].
Definition example_converter : DwarfCFIToModule := new_converter example_module X86_64 0.

Lemma example_orderly : orderly example_described.
Proof.
  split; [repeat constructor|]. intros t1 Hx. apply ascending_checked.
  assert (from_option (fun t => ascending_check (Some (row t)) example_fde_program t) true
    (exec_all None example_cie_program (empty_table 0x1000)) = true) as Hc by (vm_compute; reflexivity).
  cbn [described_address cie_program example_described] in Hx. by rewrite Hx in Hc.
Qed.

(** C14: [CallFrameInfo] with the handler [DwarfCFIToModule] turns a well-formed
    section whose rules STACK CFI records can express into one entry per
    function, each with the address and the size of the function, added to the
    module in order: at every location, the rules in effect - the initial ones
    and the changes up to there - are the row of the table of the function, every
    rule written as a postfix expression over the names of the registers, [.cfa]
    and [.ra]; no rule is about anything else.  The rules STACK CFI records can
    express ([takes_all]) are all but the undefined and the expression rules,
    which the handler reports and drops, so that the rule before them stays in
    effect.  The register names must be such that no name is used twice
    ([names_ok]): those of I386, X86_64, ARM64 and MIPS are, those of ARM are
    not. *)
Theorem DwarfCFIToModule_functional mem buffer_ buffer_length_ eh_frame_ bs ds (r : ByteReader)
    (h : DwarfCFIToModule) reps :
  0 <= buffer_ -> buffer_ + buffer_length_ < 2 ^ 64 -> buffer_length_ = Z.of_nat (length bs) ->
  holds mem buffer_ bs -> have_function_base_ r = false ->
  idle h -> names_ok (register_names_ h) = true ->
  entries_at mem buffer_ buffer_length_ eh_frame_ r buffer_ bs ds ->
  Forall (takes_all DwarfCFIToModule) ds -> Forall orderly ds ->
  exists r' h' entries,
    Start mem buffer_ buffer_length_ eh_frame_ (mkParser r h reps) = Ok (Some true, mkParser r' h' reps) /\
    idle h' /\ register_names_ h' = register_names_ h /\
    Forall2 (converted (register_names_ h)) ds entries /\
    module_ h' = fold_left AddStackFrameEntry entries (module_ h).
Proof. apply Start_converts. Qed.

Lemma DwarfCFIToModule_functional_witness :
  exists r' h' entries,
    Start example_section 0 60 false (mkParser example_reader example_converter []) =
      Ok (Some true, mkParser r' h' []) /\
    idle h' /\ register_names_ h' = X86_64 /\ Forall2 (converted X86_64) [example_described] entries /\
    module_ h' = fold_left AddStackFrameEntry entries example_module.
Proof.
  apply (DwarfCFIToModule_functional example_section 0 60 false example_section [example_described] example_reader
    example_converter []).
  - lia.
  - lia.
  - done.
  - apply holds_all.
  - done.
  - done.
  - apply tables_ok.
  - apply example_entries.
  - constructor; [|constructor]. split; repeat constructor.
  - constructor; [apply example_orderly|constructor].
Defined.
