(* ===== verification/DwarfCfiUnwind.v ===== *)
(** * Unwinding with converted call frame information

    What the STACK CFI records of [DwarfCfiModule] make of a stack: the meaning
    of a row of DWARF's table for the registers of a caller, and the proof that
    [FindCallerRegs] finds them from the rules that [DwarfCFIToModule] wrote,
    [Module::Write] printed, and the resolver loaded and parsed. *)

From stdpp Require Import gmap.
From S2P Require Import Prelude LibcSupport OrderedMap Tokens PostfixEvaluator CfiFrameInfo Memory ByteReader DwarfFields DwarfCfi DwarfCfiSpec DwarfCfiSection SymbolModule SymbolParser SymbolLoad SymbolDumper DumpLoad DwarfCfiModule.
#[local] Open Scope Z_scope.

(** ** The texts of the rules *)

(** A name that is one token everywhere. *)
Definition visible (c : Z) : Prop := 33 <= c <= 126 /\ c <> 58.
Definition plain_name (n : chars) : Prop := is_name n /\ Forall visible n.

Definition visible_check (c : Z) : bool := (33 <=? c) && (c <=? 126) && negb (c =? 58).
Definition names_plain (names : list chars) : bool :=
  forallb (fun n => match n with [] => true | c :: _ => name_start c && forallb visible_check n end) names.

Lemma tables_plain : Forall (fun names => names_plain names = true) [I386; X86_64; ARM; ARM64; MIPS].
Proof. repeat constructor; vm_compute; reflexivity. Qed.

Lemma visible_checked n : forallb visible_check n = true -> Forall visible n.
Proof.
  rewrite forallb_forall, Forall_forall. intros Hn c Hc. apply list_elem_of_In in Hc. apply Hn in Hc.
  unfold visible_check in Hc. unfold visible. lia.
Qed.

(** The characters of tokens. *)
Lemma visible_token c : visible c -> isspace c = false /\ CfiFrameInfo.plain_char c.
Proof.
  intros [Hc Hn]. unfold isspace, CfiFrameInfo.plain_char, CfiFrameInfo.token_breaks.
  change (str " " ++ [9; 13; 10]) with [32; 9; 13; 10]. cbn [existsb]. lia.
Qed.

(** A token of visible characters. *)
Definition token (t : chars) : Prop := t <> [] /\ Forall visible t.

Lemma token_component t : token t -> CfiFrameInfo.component t.
Proof.
  intros [Hne Ht]. split; [split; [done|]|].
  - eapply Forall_impl; [exact Ht|]. intros c Hc. by apply visible_token.
  - intros E. apply last_Some_elem_of in E. rewrite Forall_forall in Ht. by destruct (Ht _ E).
Qed.

Lemma put_digits_print fuel1 : forall fuel2 v text,
  0 <= v < 10 ^ Z.of_nat (S fuel2) -> (fuel2 <= fuel1)%nat ->
  put_digits fuel1 10 v text = print_digits fuel2 v text.
Proof.
  assert (Hd : forall v, digit_char (v mod 10) = c_zero + v mod 10).
  { intros v. unfold digit_char. pose proof (Z.mod_pos_bound v 10). by rewrite (proj2 (Z.ltb_lt _ _)) by lia. }
  induction fuel1 as [|fuel1 IH]; intros fuel2 v text Hv Hf; destruct fuel2 as [|fuel2];
    cbn [put_digits print_digits]; rewrite Hd; [done|lia| |].
  - rewrite (proj2 (Z.ltb_lt _ _)) by (cbn in Hv; lia). done.
  - destruct (v <? 10); [done|]. apply IH; [|lia].
    rewrite Nat2Z.inj_succ, Z.pow_succ_r in Hv by lia.
    split; [apply Z.div_pos; lia|]. apply Z.div_lt_upper_bound; lia.
Qed.

Lemma put_number_print v : uint 64 v -> put_number 10 v = print_value v.
Proof. intros [H1 H2]. apply put_digits_print; [|lia]. split; [done|]. eapply Z.lt_trans; [exact H2|done]. Qed.

Definition literal (offset : Z) : expr := Literal (offset <? 0) (Z.abs offset).

Lemma put_int_literal offset : long_ok offset -> [put_int offset] = postfix (literal offset).
Proof.
  intros [H1 H2]. unfold put_int, literal. cbn [postfix]. destruct (Z.ltb_spec offset 0).
  - rewrite put_number_print by (unfold uint; lia). by rewrite Z.abs_neq by lia.
  - rewrite put_number_print by (unfold uint; lia). by rewrite Z.abs_eq by lia.
Qed.

Lemma digits_token v text : digits_of v text -> token text.
Proof.
  intros (Hne & Hd & _). split; [done|]. eapply Forall_impl; [exact Hd|]. intros c Hc. unfold is_digit, c_zero, c_nine in Hc.
  unfold visible. lia.
Qed.

Lemma put_int_token offset : long_ok offset -> token (put_int offset) /\ head (put_int offset) <> Some 61.
Proof.
  intros [H1 H2]. unfold put_int. destruct (Z.ltb_spec offset 0).
  - rewrite put_number_print by (unfold uint; lia).
    destruct (digits_token _ _ (print_value_digits (- offset) ltac:(unfold uint; lia))) as [Hne Ht].
    split; [|done]. split; [done|]. constructor; [unfold visible; lia|done].
  - rewrite put_number_print by (unfold uint; lia).
    pose proof (print_value_digits offset ltac:(unfold uint; lia)) as Hd. split; [by eapply digits_token|].
    destruct Hd as (Hne & Hd & _). destruct (print_value offset); [done|]. apply Forall_cons in Hd as [Hd _].
    cbn. unfold is_digit, c_zero, c_nine in Hd. intros [= E]. lia.
Qed.

(** The tokens of a rule, and the expression they are. *)
Definition rule_words (name : Z -> chars) (reg : Z) (rule : Rule) : list chars :=
  match rule with
  | SameValueRule => [name reg]
  | OffsetRule base offset => [name base; put_int offset; str "+"; str "^"]
  | ValOffsetRule base offset => [name base; put_int offset; str "+"]
  | RegisterRule base => [name base]
  | _ => []
  end.

Definition rule_expr (name : Z -> chars) (reg : Z) (rule : Rule) : expr :=
  match rule with
  | OffsetRule base offset => Dereference (Binary BINARY_OP_ADD (Variable_ (name base)) (literal offset))
  | ValOffsetRule base offset => Binary BINARY_OP_ADD (Variable_ (name base)) (literal offset)
  | RegisterRule base => Variable_ (name base)
  | _ => Variable_ (name reg)
  end.

Lemma rule_text_words name reg rule : expressible rule -> rule_text name reg rule = join (rule_words name reg rule).
Proof. destruct rule; by intros []. Qed.

Lemma rule_words_tokens name reg rule :
  (forall reg, reg_ok reg -> plain_name (name reg)) -> reg_ok reg -> range_ok rule -> expressible rule ->
  rule_words name reg rule <> [] /\
  Forall (fun t => token t /\ head t <> Some 61) (rule_words name reg rule) /\
  rule_words name reg rule = postfix (rule_expr name reg rule).
Proof.
  intros Hn Hreg Hrange Hx.
  assert (Hname : forall reg, reg_ok reg -> token (name reg) /\ head (name reg) <> Some 61).
  { intros r [(c & rest & -> & Hc) Hv]%Hn. split; [by split|]. cbn. intros [= ->]. done. }
  assert (Hop : forall t, t = str "+" \/ t = str "^" -> token t /\ head t <> Some 61).
  { intros t [-> | ->]; (split; [split; [done|]|done]); repeat constructor; unfold visible; done. }
  destruct rule as [| |base offset|base offset|base|s|s]; try done; cbn [range_ok] in Hrange; (split; [done|]).
  - split; [|done]. constructor; [auto|constructor].
  - destruct Hrange as [Hb Ho]. split; [apply Forall_cons; split; [by apply Hname|]; apply Forall_cons; split; [by apply put_int_token|];
      repeat (apply Forall_cons; split; [apply Hop; auto|]); constructor|].
    cbn [rule_words rule_expr postfix app]. rewrite <- (put_int_literal offset Ho). done.
  - destruct Hrange as [Hb Ho]. split; [apply Forall_cons; split; [by apply Hname|]; apply Forall_cons; split; [by apply put_int_token|];
      repeat (apply Forall_cons; split; [apply Hop; auto|]); constructor|].
    cbn [rule_words rule_expr postfix app]. rewrite <- (put_int_literal offset Ho). done.
  - split; [|done]. constructor; [|constructor]. apply Hname. by right.
Qed.

Lemma tokens_of_plain ts : Forall (fun t => token t /\ head t <> Some 61) ts -> tokens_of ts = ts.
Proof.
  induction 1 as [|t ts [_ Ht] _ IH]; [done|]. unfold tokens_of in *. cbn [map concat]. rewrite IH.
  destruct t as [|c [|c' t]]; cbn; try done. destruct (Z.eqb_spec c 61) as [->|]; [by destruct Ht|done].
Qed.

(** The text of a rule is the rule. *)
Lemma rule_text_is name reg rule :
  (forall reg, reg_ok reg -> plain_name (name reg)) -> reg_ok reg -> range_ok rule -> expressible rule ->
  rule_is (rule_text name reg rule) (rule_expr name reg rule) /\ expression (rule_text name reg rule).
Proof.
  intros Hn Hreg Hrange Hx. destruct (rule_words_tokens name reg rule Hn Hreg Hrange Hx) as (Hne & Hts & Hp).
  rewrite rule_text_words by done. split.
  - exists (rule_words name reg rule). split; [|by rewrite tokens_of_plain].
    apply join_reads_sep; [done|]. eapply Forall_impl; [exact Hts|]. intros t [[Ht Hv] _]. split; [done|].
    eapply Forall_impl; [exact Hv|]. intros c Hc. by apply visible_token.
  - exists (rule_words name reg rule). split; [done|]. split; [done|].
    eapply Forall_impl; [exact Hts|]. intros t [Ht _]. by apply token_component.
Qed.

(** ** The rules the resolver parses *)

Definition written_rule (p : chars * chars) : Prop := CfiFrameInfo.word p.1 /\ expression p.2.

Lemma WriteRule_join p : p.2 <> [] -> WriteRule (p.1, join p.2) = join (rule_tokens p).
Proof. intros Hne. unfold WriteRule, rule_tokens. rewrite join_cons by done. by rewrite <- app_assoc. Qed.

Lemma WriteRuleMap_tokens ps :
  Forall CfiFrameInfo.rule_ok ps ->
  WriteRuleMap (map (fun p => (p.1, join p.2)) ps) = join (concat (map rule_tokens ps)).
Proof.
  induction 1 as [|p ps (Hn & Hne & Hc) Hps IH]; [done|].
  change (concat (map rule_tokens (p :: ps))) with (rule_tokens p ++ concat (map rule_tokens ps)).
  destruct ps as [|p2 ps]; [cbn [map WriteRuleMap concat]; by rewrite app_nil_r, WriteRule_join|].
  rewrite join_app by done. rewrite <- IH, <- WriteRule_join by done. done.
Qed.

Lemma Parse_rules rules info :
  rules <> [] -> Forall written_rule rules ->
  CfiFrameInfo.Parse (WriteRuleMap rules) info = Ok (true, fold_left CfiFrameInfo.set_rule rules info).
Proof.
  intros Hne Hr. destruct (expressions_split rules Hr) as (ps & -> & Hok). rewrite WriteRuleMap_tokens by done.
  assert (Forall CfiFrameInfo.word (concat (map rule_tokens ps))) as Hw.
  { apply Forall_concat, Forall_map. eapply Forall_impl; [exact Hok|]. apply rule_tokens_words. }
  unfold Parse. rewrite c_string_all by by apply join_no_nul.
  rewrite (Parse_loop_reads _ _ (join_reads _ Hw)) by apply Nat.lt_succ_diag_r.
  destruct ps as [|p ps]; [done|]. rewrite CfiFrameInfo.parse_all by done. by rewrite fold_handle.
Qed.

#[export] Instance reserved_dec n : Decision (reserved n).
Proof. unfold reserved. apply _. Defined.

(** The rules of a map as a [CFIFrameInfo]. *)
Definition info_of (rules : CfiRules) : CFIFrameInfo :=
  mkCFIFrameInfo (default [] (find_value rules (str ".cfa"))) (default [] (find_value rules (str ".ra")))
    (filter (fun p => ~ reserved p.1) rules).

Lemma set_rule_info_of rules p :
  sorted rules -> CfiFrameInfo.set_rule (info_of rules) p = info_of (assign rules p.1 p.2).
Proof.
  intros Hs. destruct p as [n text]. cbn [fst snd].
  pose proof (fun k => find_value_assign rules n text k Hs) as Hf.
  pose proof (assign_sorted rules n text Hs) as Hs'.
  pose proof (filter_sorted (fun k => ~ reserved k) rules Hs) as Hfs.
  pose proof (filter_sorted (fun k => ~ reserved k) _ Hs') as Hfs'.
  pose proof (fun k => find_value_filter (fun k => ~ reserved k) rules k Hs) as F.
  pose proof (fun k => find_value_filter (fun k => ~ reserved k) _ k Hs') as F'. cbv beta in Hfs, Hfs', F, F'.
  assert (Hfilter : filter (fun p => ~ reserved p.1) (assign rules n text) =
    if decide (reserved n) then filter (fun p => ~ reserved p.1) rules
    else assign (filter (fun p => ~ reserved p.1) rules) n text).
  { case_decide as Hr; (apply sorted_ext; [done|auto using assign_sorted|]); intros k.
    - rewrite F, F'. case_decide as Hk; [|done]. rewrite Hf.
      rewrite decide_False; [done|]. by intros ->.
    - rewrite (find_value_assign _ n text k Hfs), F, F', Hf.
      destruct (decide (k = n)) as [->|Hne]; [by rewrite decide_True|done]. }
  unfold CfiFrameInfo.set_rule, info_of. cbn [fst snd]. rewrite Hfilter, !Hf.
  unfold CfiFrameInfo.SetCFARule, SetRARule, CfiFrameInfo.SetRegisterRule.
  cbn [CfiFrameInfo.cfa_rule_ ra_rule_ register_rules_]. unfold reserved.
  destruct (decide (n = str ".cfa")) as [->|Hc]; [rewrite (decide_True (P := str ".cfa" = _)), (decide_False (P := str ".ra" = _)) by done; by rewrite decide_True by by left|].
  destruct (decide (n = str ".ra")) as [->|Hr].
  - rewrite (decide_False (P := str ".cfa" = _)) by done.
    by rewrite (decide_True (P := str ".ra" = _)), decide_True by auto.
  - rewrite (decide_False (P := str ".cfa" = n)), (decide_False (P := str ".ra" = n)) by congruence.
    by rewrite decide_False by tauto.
Qed.

Lemma set_rules_info_of changes : forall rules,
  sorted rules -> fold_left CfiFrameInfo.set_rule changes (info_of rules) = info_of (apply_rules rules changes).
Proof.
  induction changes as [|p changes IH]; intros rules Hs; [done|]. cbn [fold_left].
  rewrite set_rule_info_of by done. by apply IH, assign_sorted.
Qed.

(** The texts of an entry up to [a], parsed one after the other. *)
Lemma parse_changes changes : forall rules,
  sorted rules -> Forall (fun change => change <> [] /\ Forall written_rule change) changes ->
  SymbolModule.parse_all (map WriteRuleMap changes) (info_of rules) = Ok (info_of (fold_left apply_rules changes rules)).
Proof.
  induction changes as [|change changes IH]; intros rules Hs Hc; [done|].
  apply Forall_cons in Hc as [[Hne Hw] Hc]. cbn [map SymbolModule.parse_all fold_left].
  unfold SymbolModule.ParseCFIRuleSet. rewrite Parse_rules by done. cbn [obind].
  rewrite set_rules_info_of by done. by apply IH; [apply apply_rules_sorted|].
Qed.

Lemma apply_rules_nil rules : sorted rules -> apply_rules [] rules = rules.
Proof.
  intros Hs. apply sorted_ext; [apply apply_rules_sorted; constructor|done|]. intros k.
  rewrite find_apply_rules by (done || constructor). by destruct (find_value rules k).
Qed.

Lemma parse_entry e a :
  entry_wf e -> all_rules written_rule e -> initial_rules e <> [] ->
  CfiFrameInfo.Parse (WriteRuleMap (initial_rules e)) empty_info = Ok (true, info_of (initial_rules e)) /\
  SymbolModule.parse_all (map WriteRuleMap (changes_until a (rule_changes e))) (info_of (initial_rules e)) =
    Ok (info_of (rules_at e a)).
Proof.
  intros [Hi Hs Hc] [Hwi Hwc] Hne. split.
  - rewrite Parse_rules by done. change empty_info with (info_of []). rewrite set_rules_info_of by constructor.
    by rewrite apply_rules_nil.
  - apply parse_changes; [done|]. unfold changes_until. apply Forall_fmap, Forall_forall.
    intros change [_ Hin]%list_elem_of_filter. rewrite Forall_forall in Hc, Hwc. cbn.
    split; [by apply Hc in Hin as (_ & _ & ?)|by apply Hwc].
Qed.

(** ** What a row means *)

Section meaning.
Context (w : Z) (memory : memory_region).
(** The registers of the callee, by their numbers. *)
Context (regs : Z -> option Z).

Definition base_value (cfa : option Z) (base : Z) : option Z := if base =? kCFARegister then cfa else regs base.

(** The value a rule gives a register of the caller, when the CFA is known. *)
Definition recovered (cfa : option Z) (reg : Z) (rule : Rule) : option Z :=
  match rule with
  | SameValueRule => regs reg
  | OffsetRule base offset => a ← base_value cfa base; memory (wrap w (a + offset))
  | ValOffsetRule base offset => a ← base_value cfa base; Some (wrap w (a + offset))
  | RegisterRule base => regs base
  | _ => None
  end.

Definition row_CFA (r : Row) : option Z :=
  match row_cfa r with
  | Some (ValOffsetRule base offset) => recovered None kCFARegister (ValOffsetRule base offset)
  | _ => None
  end.

(** The register of the caller. *)
Definition caller_register (r : Row) (cfa reg : Z) : option Z :=
  recovered (Some cfa) reg (default SameValueRule (row_rules r !! reg)).

(** The offset is a number of the width. *)
Definition offset_fits (rule : Rule) : Prop :=
  match rule with OffsetRule _ offset | ValOffsetRule _ offset => Z.abs offset < 2 ^ w | _ => True end.

Context (Hw : 0 < w <= 64).

Lemma literal_value env offset :
  Z.abs offset < 2 ^ w ->
  exists v, denote w env (Some memory) (literal offset) = Ok (Some v) /\ forall a, wrap w (a + v) = wrap w (a + offset).
Proof.
  intros Ho. unfold literal. cbn [denote]. destruct (Z.ltb_spec offset 0).
  - eexists. split; [done|]. intros a. rewrite Z.abs_neq by lia. rewrite Z.opp_involutive. apply wrap_add_r.
  - eexists. split; [done|]. intros a. by rewrite Z.abs_eq by lia.
Qed.

(** The expression has the value, in an environment with the registers and the
    CFA. *)
Lemma rule_expr_value name env cfa reg rule v :
  (forall reg, reg_ok reg -> is_name (name reg)) ->
  (forall reg, reg_ok reg -> env !! name reg = base_value cfa reg) ->
  reg_ok reg -> range_ok rule -> offset_fits rule ->
  (rule = SameValueRule -> register_ok reg) -> recovered cfa reg rule = Some v ->
  expr_ok w env (rule_expr name reg rule) /\
  denote w env (Some memory) (rule_expr name reg rule) = Ok (Some v).
Proof.
  intros Hname Henv Hreg Hrange Hfit Hsame Hv.
  assert (Hplain : forall reg, register_ok reg -> base_value cfa reg = regs reg).
  { intros r Hr. unfold base_value. by rewrite (proj2 (Z.eqb_neq _ _)) by (unfold register_ok, kCFARegister in *; lia). }
  assert (Hsum : forall base offset a, reg_ok base -> Z.abs offset < 2 ^ w -> base_value cfa base = Some a ->
    let e := Binary BINARY_OP_ADD (Variable_ (name base)) (literal offset) in
    expr_ok w env e /\ denote w env (Some memory) e = Ok (Some (wrap w (a + offset)))).
  { intros base offset a Hb Ho Ha e. split.
    - split; [split; [by apply Hname|rewrite Henv by done; by eexists]|]. cbn. unfold uint. lia.
    - unfold e. cbn [denote]. rewrite Henv, Ha by done. cbn [obind].
      destruct (literal_value env offset Ho) as (l & E & Hl). rewrite E. cbn [obind meaning].
      exact (f_equal (fun v => Ok (Some v)) (Hl a)). }
  assert (Hvar : forall r, register_ok r -> regs r = Some v ->
    expr_ok w env (Variable_ (name r)) /\ denote w env (Some memory) (Variable_ (name r)) = Ok (Some v)).
  { intros r Hr Er. assert (reg_ok r) as Hro by by right. cbn. rewrite Henv, Hplain, Er by done.
    split; [split; [by apply Hname|by eexists]|done]. }
  destruct rule as [| |base offset|base offset|base|s|s]; try done; cbn [recovered range_ok offset_fits rule_expr] in *.
  - apply Hvar; auto.
  - destruct (base_value cfa base) as [a|] eqn:Ea; [|done]. cbn in Hv.
    destruct (Hsum base offset a (proj1 Hrange) Hfit Ea) as [H1 H2]. split; [done|].
    cbn [denote] in H2 |- *. rewrite H2. cbn [obind]. by rewrite Hv.
  - destruct (base_value cfa base) as [a|] eqn:Ea; [|done]. injection Hv as <-. apply Hsum; [apply Hrange|done|done].
  - by apply Hvar.
Qed.
End meaning.

(** ** Finding the registers of the caller *)

(** Registers whose rules have values related to them by [R]. *)
Lemma recover_registers_known w memory env (R : chars -> Z -> Prop) rules exprs :
  Forall2 (fun p q => same_rule w env p q /\ exists v, denote w env (Some memory) q.2 = Ok (Some v) /\ R p.1 v)
    rules exprs ->
  forall acc, exists caller, recover_registers w env memory exprs acc = Ok (Some caller) /\
    forall x, (x ∈ rules.*1 -> exists v, caller !! x = Some v /\ R x v) /\ (x ∉ rules.*1 -> caller !! x = acc !! x).
Proof.
  induction 1 as [|[x t] [y e] rules exprs [(E & _ & _) (v & Ev & Hv)] _ IH]; intros acc.
  { exists acc. split; [done|]. intros x. split; [by intros ?%elem_of_nil|done]. }
  cbn in E, Ev, Hv. subst y. cbn [recover_registers]. rewrite Ev. cbn [obind].
  destruct (IH (<[x := v]> acc)) as (caller & -> & Hc). exists caller. split; [done|]. intros z.
  destruct (Hc z) as [H1 H2]. cbn [fmap list_fmap fst]. split.
  - intros [->|Hz]%elem_of_cons; [|by apply H1].
    destruct (decide (x ∈ rules.*1)) as [Hx|Hx]; [by apply H1|]. exists v. split; [|done].
    by rewrite H2, lookup_insert_eq.
  - intros [Hne Hz]%not_elem_of_cons. rewrite H2 by done. by apply lookup_insert_ne.
Qed.

Section caller.
Context (w : Z) (memory : memory_region) (regs : Z -> option Z) (names : list chars) (ra : Z).
Context (Hw : 0 < w <= 64) (Hm : memory_ok w (Some memory)).
Context (Hdistinct : names_ok names = true) (Hplain : names_plain names = true).

#[local] Abbreviation name := (reg_name names ra).

Lemma digits_visible reg : register_ok reg -> Forall visible (put_number 10 reg).
Proof.
  intros Hr. rewrite put_number_print by (unfold register_ok, uint in *; lia).
  by destruct (digits_token _ _ (print_value_digits reg ltac:(unfold register_ok, uint in *; lia))).
Qed.

Lemma name_plain reg : reg_ok reg -> plain_name (name reg).
Proof.
  intros Hreg.
  assert (Hun : register_ok reg -> plain_name (unnamed_register reg)).
  { intros Hr. split; [by eexists _, _|]. apply Forall_app. split; [|by apply digits_visible].
    apply visible_checked. vm_compute. reflexivity. }
  destruct (reg_name_cases names ra reg Hreg) as [[_ ->]|[Hr [[_ ->]|[(n & Hn & Hne & ->)| ->]]]].
  - split; [by eexists _, _|]. apply visible_checked. vm_compute. reflexivity.
  - split; [by eexists _, _|]. apply visible_checked. vm_compute. reflexivity.
  - unfold names_plain in Hplain. rewrite forallb_forall in Hplain.
    apply list_elem_of_lookup_2, list_elem_of_In, Hplain in Hn. destruct n as [|c n]; [done|].
    apply andb_true_iff in Hn as [Hc Hv]. split; [by eexists _, _|by apply visible_checked].
  - by apply Hun.
Qed.

Lemma name_ra : register_ok ra -> name ra = str ".ra".
Proof. intros [Hr _]. unfold reg_name. by rewrite (proj2 (Z.ltb_ge _ _)), Z.eqb_refl by done. Qed.

(** The rule of a register that has a text, as the row has it. *)
Lemma row_rule_of r rules p :
  shows_row names ra r rules -> sorted rules -> Forall (made_rule names ra) rules -> p ∈ rules -> p.1 <> str ".ra" ->
  p.1 <> str ".cfa" -> exists reg, register_ok reg /\ reg <> ra /\ p.1 = name reg /\
    let rule := default SameValueRule (row_rules r !! reg) in
    p.2 = rule_text name reg rule /\ range_ok rule /\ expressible rule.
Proof.
  intros (_ & _ & Hregs) Hs Hmade Hin Hra Hcfa. rewrite Forall_forall in Hmade.
  destruct (Hmade p Hin) as [Hp|(reg & rule & Hreg & Hrange & Hx & ->)].
  { unfold initial_ra in Hp. destruct (names !! Z.to_nat ra); [|by apply elem_of_nil in Hp].
    apply list_elem_of_singleton in Hp as ->. done. }
  cbn [fst snd] in *. destruct Hreg as [->|Hreg]; [done|].
  assert (reg <> ra) as Hne by (intros ->; by rewrite name_ra in Hra).
  exists reg. split; [done|]. split; [done|]. split; [done|].
  apply find_value_Some in Hin; [|done]. specialize (Hregs reg Hreg).
  assert (Hini : find_value (initial_ra names ra) (name reg) = None).
  { destruct (find_value (initial_ra names ra) (name reg)) as [t|] eqn:Et; [|done]. unfold initial_ra in Et.
    destruct (names !! Z.to_nat ra); [|done]. apply find_value_Some in Et; [|repeat constructor].
    apply list_elem_of_singleton, (f_equal fst) in Et. by cbn [fst] in Et. }
  destruct (default SameValueRule (row_rules r !! reg)) eqn:Er; cbn zeta;
    try (destruct Hregs as (E & ? & ?); rewrite Hin in E; by injection E).
  split; [|done]. destruct Hregs as [E|E]; rewrite Hin in E; [by injection E|by rewrite Hini in E].
Qed.

(** The environment with the CFA. *)
Lemma caller_env (registers : dictionary) cfa :
  (forall reg, register_ok reg -> registers !! name reg = regs reg) ->
  forall reg, reg_ok reg -> (<[str ".cfa" := cfa]> registers) !! name reg = base_value regs (Some cfa) reg.
Proof.
  intros Hregs reg [->|Hreg]; unfold base_value; [by rewrite lookup_insert_eq|].
  rewrite (proj2 (Z.eqb_neq _ _)) by (unfold register_ok, kCFARegister in *; lia).
  rewrite lookup_insert_ne; [by apply Hregs|]. intros E. assert (reg = kCFARegister) as ->; [|by destruct Hreg].
  apply (names_ok_distinct names ra Hdistinct); [by right|by left|]. by rewrite <- E.
Qed.

(** A rule of the record, in the environment with the CFA. *)
Lemma row_rule_known r rules registers cfa :
  shows_row names ra r rules -> sorted rules -> Forall (made_rule names ra) rules ->
  (forall reg rule, row_rules r !! reg = Some rule -> offset_fits w rule) ->
  (forall reg, register_ok reg -> registers !! name reg = regs reg) ->
  (forall reg, register_ok reg -> is_Some (find_value (register_rules_ (info_of rules)) (name reg)) ->
     is_Some (caller_register w memory regs r cfa reg)) ->
  let env := <[str ".cfa" := cfa]> registers in
  Forall (fun p => exists q, same_rule w env p q /\ exists v, denote w env (Some memory) q.2 = Ok (Some v) /\
    exists reg, register_ok reg /\ reg <> ra /\ p.1 = name reg /\ caller_register w memory regs r cfa reg = Some v)
    (register_rules_ (info_of rules)).
Proof.
  intros Hshow Hs Hmade Hfit Hregs Hknown env. apply Forall_forall. intros p Hp. pose proof Hp as Hp0.
  cbn [info_of register_rules_] in Hp. apply list_elem_of_filter in Hp as [Hres Hin]. unfold reserved in Hres.
  destruct (row_rule_of r rules p Hshow Hs Hmade Hin) as (reg & Hreg & Hne & Ename & Etext & Hrange & Hx); [tauto|tauto|].
  destruct (Hknown reg Hreg) as [v Hv].
  { exists p.2. apply find_value_Some; [exact (filter_sorted (fun k => ~ reserved k) rules Hs)|]. rewrite <- Ename. by destruct p. }
  set (rule := default SameValueRule (row_rules r !! reg)) in *.
  destruct (rule_text_is name reg rule) as [His _]; [intros; by apply name_plain|by right|done|done|].
  destruct (rule_expr_value w memory regs Hw name env (Some cfa) reg rule v) as [He Hd]; try done.
  - intros r0 Hr0. by apply name_plain.
  - by apply caller_env.
  - by right.
  - unfold rule. destruct (row_rules r !! reg) as [rl|] eqn:Er; [by apply (Hfit reg)|done].
  - exists (p.1, rule_expr name reg rule). split; [split; [done|]; rewrite Etext; by split|].
    exists v. split; [done|]. by exists reg.
Qed.

Lemma Forall_exists_Forall2 {A B} (P : A -> B -> Prop) l : Forall (fun x => exists y, P x y) l -> exists k, Forall2 P l k.
Proof.
  induction 1 as [|x l [y Hy] _ [k Hk]]; [by exists []|]. exists (y :: k). by constructor.
Qed.

(** [FindCallerRegs] finds what the row means. *)
Lemma FindCallerRegs_row r rules registers caller0 cfa ra_rule ra_value :
  shows_row names ra r rules -> sorted rules -> Forall (made_rule names ra) rules ->
  (forall rule, row_cfa r = Some rule -> offset_fits w rule) ->
  (forall reg rule, row_rules r !! reg = Some rule -> offset_fits w rule) ->
  dictionary_ok w registers -> registers !! str ".cfa" = None ->
  (forall reg, register_ok reg -> registers !! name reg = regs reg) ->
  row_CFA w memory regs r = Some cfa ->
  register_ok ra -> row_rules r !! ra = Some ra_rule -> ra_rule <> SameValueRule ->
  caller_register w memory regs r cfa ra = Some ra_value ->
  (forall reg, register_ok reg -> is_Some (find_value (register_rules_ (info_of rules)) (name reg)) ->
     is_Some (caller_register w memory regs r cfa reg)) ->
  exists caller, FindCallerRegs w (info_of rules) registers memory caller0 = Ok (true, caller) /\
    caller !! str ".cfa" = Some cfa /\ caller !! str ".ra" = Some ra_value /\
    forall reg, register_ok reg -> reg <> ra ->
      caller !! name reg = caller_register w memory regs r cfa reg \/
      caller !! name reg = None /\ default SameValueRule (row_rules r !! reg) = SameValueRule.
Proof.
  intros Hshow Hs Hmade Hfit_cfa Hfit Hdict Hno Hregs Hcfa Hra Era Hne Hra_value Hknown.
  set (env := <[str ".cfa" := cfa]> registers).
  pose proof (row_rule_known r rules registers cfa Hshow Hs Hmade Hfit Hregs Hknown) as Hrules. cbn zeta in Hrules. fold env in Hrules.
  destruct Hshow as (Ecfa & Hcfa_ok & Hshown).
  assert (Hnames : forall reg, reg_ok reg -> plain_name (name reg)) by (intros; by apply name_plain).
  assert (Henv : forall reg, reg_ok reg -> env !! name reg = base_value regs (Some cfa) reg) by by apply caller_env.
  (* the CFA *)
  destruct (row_cfa r) as [cfa_rule|] eqn:Er; [|unfold row_CFA in Hcfa; by rewrite Er in Hcfa].
  assert (Hc : recovered w memory regs None kCFARegister cfa_rule = Some cfa /\ cfa_rule <> SameValueRule).
  { unfold row_CFA in Hcfa. rewrite Er in Hcfa. destruct cfa_rule; done. }
  destruct Hc as [Hc Hsame]. destruct (Hcfa_ok _ eq_refl) as [Hcr Hcx].
  destruct (rule_text_is name kCFARegister cfa_rule Hnames) as [Hcis _]; [by left|done|done|].
  destruct (rule_expr_value w memory regs Hw name registers None kCFARegister cfa_rule cfa) as [Hce Hcd]; try done.
  { intros reg Hreg. by apply Hnames. }
  { intros reg [->|Hreg]; [exact Hno|]. rewrite Hregs by done. unfold base_value.
    by rewrite (proj2 (Z.eqb_neq _ _)) by (unfold register_ok, kCFARegister in *; lia). }
  { by left. }
  { by apply Hfit_cfa. }
  (* the return address *)
  pose proof (Hshown ra Hra) as Hra_shown. unfold caller_register in Hra_value. rewrite Era in Hra_shown, Hra_value.
  cbn [default from_option id] in Hra_shown, Hra_value.
  assert (Hra_text : find_value rules (str ".ra") = Some (rule_text name ra ra_rule) /\ range_ok ra_rule /\ expressible ra_rule).
  { rewrite name_ra in Hra_shown by done. by destruct ra_rule. }
  destruct Hra_text as (Eratext & Hrar & Hrax).
  destruct (rule_text_is name ra ra_rule Hnames) as [Hris _]; [by right|done|done|].
  destruct (rule_expr_value w memory regs Hw name env (Some cfa) ra ra_rule ra_value) as [Hre Hrd]; try done.
  { intros reg Hreg. by apply Hnames. }
  { by right. }
  { by apply (Hfit ra). }
  (* the others *)
  apply Forall_exists_Forall2 in Hrules as [exprs Hexprs].
  pose proof (FindCallerRegs_spec w (info_of rules) registers memory caller0
    (rule_expr name kCFARegister cfa_rule) (rule_expr name ra ra_rule) exprs Hw Hdict Hm) as Hspec.
  cbn [info_of CfiFrameInfo.cfa_rule_ ra_rule_] in Hspec.
  rewrite Ecfa, Eratext in Hspec. cbn [fmap option_fmap option_map default from_option id] in Hspec.
  destruct Hspec as [Hspec _]; try done.
  { intros cfa' Ecfa'. rewrite Hcd in Ecfa'. injection Ecfa' as <-. split; [done|].
    eapply Forall2_impl; [exact Hexprs|]. by intros p q []. }
  destruct (recover_registers_known w memory env
    (fun x v => exists reg, register_ok reg /\ reg <> ra /\ x = name reg /\ caller_register w memory regs r cfa reg = Some v)
    _ _ Hexprs ∅) as (caller & Ecaller & Hcaller).
  unfold recover in Hspec. rewrite Hcd in Hspec. cbn [obind] in Hspec. fold env in Hspec. rewrite Hrd in Hspec.
  cbn [obind] in Hspec. rewrite Ecaller in Hspec. cbn [obind fmap option_fmap option_map] in Hspec.
  eexists. split; [exact Hspec|]. split; [by rewrite lookup_insert_eq|].
  split; [by rewrite lookup_insert_ne, lookup_insert_eq|].
  intros reg Hreg Hregra.
  assert (name reg <> str ".cfa" /\ name reg <> str ".ra") as [N1 N2].
  { split; intros E.
    - assert (reg = kCFARegister) as ->; [|by destruct Hreg].
      apply (names_ok_distinct names ra Hdistinct); [by right|by left|]. by rewrite E.
    - apply Hregra. apply (names_ok_distinct names ra Hdistinct); [by right|by right|]. by rewrite name_ra, E. }
  rewrite !lookup_insert_ne by done. destruct (Hcaller (name reg)) as [Hin Hout].
  destruct (decide (name reg ∈ (register_rules_ (info_of rules)).*1)) as [Hd|Hd].
  - left. destruct (Hin Hd) as (v & -> & reg2 & Hreg2 & _ & En & <-).
    apply (names_ok_distinct names ra Hdistinct) in En as ->; [done|by right|by right].
  - right. rewrite Hout by done. split; [done|]. specialize (Hshown reg Hreg).
    assert (Hnone : find_value rules (name reg) = None).
    { destruct (find_value rules (name reg)) as [t|] eqn:Et; [|done]. apply find_value_Some in Et; [|done].
      destruct Hd. apply list_elem_of_fmap. exists (name reg, t). split; [done|]. cbn [info_of register_rules_].
      apply list_elem_of_filter. split; [|done]. by intros [?|?]. }
    rewrite Hnone in Hshown. by destruct (default SameValueRule (row_rules r !! reg)); try destruct Hshown.
Qed.
End caller.

(** ** The rules in the loaded symbol file *)

(** The changes of an entry are inside it. *)
Definition changes_inside (e : StackFrameEntry) : Prop :=
  Forall (fun change => entry_address e < change.1 < entry_address e + entry_size e) (rule_changes e).

Definition change_stored (m : DumpModule) (change : Z * CfiRules) : Z * chars :=
  (relative m change.1, WriteRuleMap change.2).

Lemma apply_changes_assign m rules changes :
  apply_changes m rules changes = assign_all rules (map (change_stored m) changes).
Proof.
  unfold apply_changes, assign_all. revert rules. induction changes as [|c changes IH]; intros rules; [done|]. apply IH.
Qed.

(** Addresses in an entry, relative to the load address. *)
Lemma relative_inside m e a :
  in_bounds (entry_range m e) -> 0 <= a - entry_address e < entry_size e ->
  relative m a = relative m (entry_address e) + (a - entry_address e).
Proof. apply relative_offset. Qed.

Lemma changes_stored_sorted m e :
  in_bounds (entry_range m e) -> changes_inside e -> sorted (rule_changes e) ->
  sorted (map (change_stored m) (rule_changes e)).
Proof.
  intros Hb Hin Hs. unfold changes_inside in Hin. induction Hs as [|c changes Hs IH Hc]; [constructor|].
  apply Forall_cons in Hin as [Hci Hin]. cbn [map]. apply sorted_cons. split; [|by apply IH].
  apply Forall_map. rewrite Forall_forall in Hc, Hin |- *. intros c2 Hc2. pose proof (Hin c2 Hc2) as Hi2.
  apply Hc in Hc2. rewrite Z_key_lt in Hc2 |- *. cbn [change_stored fst].
  rewrite (relative_inside m e c.1), (relative_inside m e c2.1) by (done || lia). lia.
Qed.

Lemma ForallOrdPairs_split {A} (R : A -> A -> Prop) l1 x l2 :
  ForallOrdPairs R (l1 ++ x :: l2) -> Forall (fun y => R y x) l1 /\ Forall (R x) l2.
Proof.
  induction l1 as [|y l1 IH]; cbn [app]; intros Hf; inversion_clear Hf as [|? ? H1 H2]; [by split|].
  destruct (IH H2) as [IH1 IH2]. apply Forall_app in H1 as [_ [H1 _]%Forall_cons]. by split; [constructor|].
Qed.

(** An entry that reads back: its changes are inside it, and in order. *)
Definition entry_good (m : DumpModule) (e : StackFrameEntry) : Prop :=
  in_bounds (entry_range m e) /\ changes_inside e /\ entry_wf e.

Lemma change_stored_range m e c :
  entry_good m e -> c ∈ rule_changes e ->
  relative m (entry_address e) <= (change_stored m c).1 < relative m (entry_address e) + entry_size e.
Proof.
  intros (Hb & Hin & _) Hc. unfold changes_inside in Hin. rewrite Forall_forall in Hin. apply Hin in Hc.
  cbn [change_stored fst]. rewrite (relative_inside m e c.1) by (done || lia). lia.
Qed.

(** The changes of other entries are elsewhere. *)
Lemma other_changes m e entries k :
  Forall (entry_good m) entries ->
  Forall (fun e2 => apart (entry_range m e2) (entry_range m e) \/ apart (entry_range m e) (entry_range m e2)) entries ->
  relative m (entry_address e) <= k < relative m (entry_address e) + entry_size e ->
  Forall (fun p => p.1 <> k) (map (change_stored m) (concat (map rule_changes entries))).
Proof.
  intros Hg Ha Hk. apply Forall_map, Forall_forall. intros c Hc.
  apply list_elem_of_In, in_concat in Hc as (changes & Hin & Hc). apply in_map_iff in Hin as (e2 & <- & Hin).
  apply list_elem_of_In in Hin, Hc. rewrite Forall_forall in Hg, Ha.
  pose proof (change_stored_range m e2 c (Hg _ Hin) Hc) as Hr. specialize (Ha _ Hin).
  unfold apart, entry_range in Ha. cbn [fst snd] in Ha. lia.
Qed.

Lemma stored_changes_of m entries e k :
  Forall (entry_good m) entries -> ForallOrdPairs apart (map (entry_range m) entries) -> e ∈ entries ->
  relative m (entry_address e) <= k < relative m (entry_address e) + entry_size e ->
  find_value (apply_changes m [] (concat (map rule_changes entries))) k =
    find_value (map (change_stored m) (rule_changes e)) k.
Proof.
  intros Hg Ha (l1 & l2 & ->)%list_elem_of_split Hk. rewrite map_app in Ha. cbn [map] in Ha.
  apply ForallOrdPairs_split in Ha as [Ha1 Ha2]. rewrite Forall_map in Ha1, Ha2.
  apply Forall_app in Hg as [Hg1 [(Hb & Hin & Hwf) Hg2]%Forall_cons].
  assert (F1 : Forall (fun p => p.1 <> k) (map (change_stored m) (concat (map rule_changes l1)))).
  { apply (other_changes m e l1 k Hg1); [|done]. eapply Forall_impl; [exact Ha1|]. auto. }
  assert (F2 : Forall (fun p => p.1 <> k) (map (change_stored m) (concat (map rule_changes l2)))).
  { apply (other_changes m e l2 k Hg2); [|done]. eapply Forall_impl; [exact Ha2|]. auto. }
  rewrite apply_changes_assign, map_app, concat_app. cbn [map concat]. rewrite !map_app.
  rewrite !assign_all_app. set (D1 := assign_all [] _).
  assert (S1 : sorted D1) by (apply (assign_all_sorted _ []); constructor).
  pose proof (changes_stored_sorted m e Hb Hin (changes_sorted e Hwf)) as Se.
  rewrite (find_assign_all_other _ k _ (assign_all_sorted _ D1 S1) F2).
  rewrite (find_assign_all _ k D1 S1 Se).
  unfold D1. rewrite (find_assign_all_other _ k [] (SSorted_nil _) F1).
  by destruct (find_value _ k).
Qed.

Lemma filter_changes_stored m e a changes :
  in_bounds (entry_range m e) -> 0 <= a - entry_address e < entry_size e ->
  Forall (fun change => entry_address e < change.1 < entry_address e + entry_size e) changes ->
  map (change_stored m) (filter (fun change => change.1 <= a) changes) =
    filter (fun q => q.1 <= relative m a) (map (change_stored m) changes).
Proof.
  intros Hb Ha. induction 1 as [|c changes Hc _ IH]; [done|]. cbn [map]. rewrite !filter_cons.
  cbn [change_stored fst]. rewrite (relative_inside m e a), (relative_inside m e c.1) in * by (done || lia).
  destruct (decide (c.1 <= a)).
  - rewrite decide_True by lia. cbn [map]. by rewrite IH.
  - rewrite decide_False by lia. exact IH.
Qed.

Lemma deltas_of_entry m b e a :
  dumped m b -> Forall (entry_good m) (stack_frame_entries_ m) ->
  ForallOrdPairs apart (map (entry_range m) (stack_frame_entries_ m)) -> e ∈ stack_frame_entries_ m ->
  0 <= a - entry_address e < entry_size e ->
  sorted (SymbolModule.cfi_delta_rules_ b) /\
  SymbolModule.deltas_between b (relative m (entry_address e)) (relative m a) =
    map WriteRuleMap (changes_until a (rule_changes e)).
Proof.
  intros Hd Hg Hap He Ha. pose proof Hg as Hg0. rewrite Forall_forall in Hg0.
  destruct (Hg0 e He) as (Hb & Hin & Hwf).
  unfold SymbolModule.deltas_between. rewrite (dumped_changes_are _ _ Hd).
  set (D := apply_changes m [] _).
  assert (HD : sorted D) by (unfold D; rewrite apply_changes_assign; apply assign_all_sorted; constructor).
  split; [done|].
  set (base := relative m (entry_address e)).
  assert (Era : relative m a = base + (a - entry_address e)) by by apply (relative_inside m e).
  pose proof (changes_stored_sorted m e Hb Hin (changes_sorted e Hwf)) as Hs.
  assert (E : filter (fun q => base <= q.1 <= relative m a) D =
              map (change_stored m) (filter (fun change => change.1 <= a) (rule_changes e))).
  { rewrite (filter_changes_stored m e a (rule_changes e) Hb Ha Hin). apply sorted_ext.
    - exact (filter_sorted (fun k => base <= k <= relative m a) D HD).
    - exact (filter_sorted (fun k => k <= relative m a) _ Hs).
    - intros k. pose proof (find_value_filter (fun k => base <= k <= relative m a) D k HD) as F1.
      pose proof (find_value_filter (fun k => k <= relative m a) _ k Hs) as F2. cbv beta in F1, F2. rewrite F1, F2.
      destruct (decide (k <= relative m a)) as [Hk|Hk]; [|by rewrite decide_False by lia].
      destruct (decide (base <= k <= relative m a)) as [Hk2|Hk2].
      + apply stored_changes_of; auto. unfold base in *. lia.
      + symmetry. apply find_value_None; [done|]. intros v Hv.
        apply list_elem_of_fmap in Hv as (c & Ec & Hc). pose proof (change_stored_range m e c (Hg0 e He) Hc) as Hr.
        rewrite <- Ec in Hr. cbn [fst] in Hr. fold base in Hr. lia. }
  rewrite E. unfold changes_until. rewrite <- !list_fmap_compose. done.
Qed.

(** The resolver finds the rules of the entry at every address in it. *)
Lemma FindCFIFrameInfo_of_entry m b e a frame :
  dumped m b -> Forall (entry_good m) (stack_frame_entries_ m) ->
  ForallOrdPairs apart (map (entry_range m) (stack_frame_entries_ m)) -> e ∈ stack_frame_entries_ m ->
  all_rules written_rule e -> initial_rules e <> [] ->
  0 <= a - entry_address e < entry_size e -> SymbolModule.frame_address frame = relative m a ->
  SymbolModule.FindCFIFrameInfo b frame = Ok (Some (info_of (rules_at e a))).
Proof.
  intros Hd Hg Hap He Hrules Hne Ha Hframe. pose proof Hg as Hg0. rewrite Forall_forall in Hg0.
  destruct (Hg0 e He) as (Hb & Hin & Hwf).
  destruct (deltas_of_entry m b e a Hd Hg Hap He Ha) as [Hsd Hdeltas].
  destruct (parse_entry e a Hwf Hrules Hne) as [Hp1 Hp2].
  destruct (dumped_cfi_is _ _ Hd) as (_ & Hwfr & Hperm).
  assert (Hstored : entry_stored m e ∈ RangeMap.map_ (SymbolModule.cfi_initial_rules_ b)).
  { rewrite Hperm. by apply list_elem_of_fmap_2. }
  unfold SymbolModule.FindCFIFrameInfo. cbv zeta. rewrite Hframe.
  rewrite (proj2 (RangeMap.RetrieveRange_spec 64 _ (relative m a) (RangeMap.retrieved 64 (entry_stored m e)) Hwfr)).
  2: { exists (entry_stored m e). split; [done|]. split; [|done]. cbn.
       rewrite (relative_inside m e a Hb Ha). unfold entry_range. cbn [fst snd]. lia. }
  cbn [RangeMap.retrieved RangeMap.out_entry RangeMap.out_base entry_stored range_entry snd RangeMap.entry_ RangeMap.base_
    entry_range fst].
  unfold SymbolModule.ParseCFIRuleSet at 1. rewrite Hp1. cbn [obind negb].
  rewrite SymbolModule.deltas_from by done. by rewrite Hdeltas, Hp2.
Qed.

(** ** From the section to the registers of the caller *)

(** The rules [info] find, in every machine, what the row means: the CFA, the
    return address, and every register. *)
Definition unwinds (names : list chars) (ra : Z) (r : Row) (info : CFIFrameInfo) : Prop :=
  let name := reg_name names ra in
  forall w memory regs registers caller0 cfa ra_rule ra_value,
    0 < w <= 64 -> memory_ok w (Some memory) -> dictionary_ok w registers ->
    (forall reg, register_ok reg -> registers !! name reg = regs reg) -> registers !! str ".cfa" = None ->
    (forall rule, row_cfa r = Some rule -> offset_fits w rule) ->
    (forall reg rule, row_rules r !! reg = Some rule -> offset_fits w rule) ->
    row_CFA w memory regs r = Some cfa ->
    register_ok ra -> row_rules r !! ra = Some ra_rule -> ra_rule <> SameValueRule ->
    caller_register w memory regs r cfa ra = Some ra_value ->
    (forall reg, register_ok reg -> is_Some (find_value (register_rules_ info) (name reg)) ->
       is_Some (caller_register w memory regs r cfa reg)) ->
    exists caller, FindCallerRegs w info registers memory caller0 = Ok (true, caller) /\
      caller !! str ".cfa" = Some cfa /\ caller !! str ".ra" = Some ra_value /\
      forall reg, register_ok reg -> reg <> ra ->
        caller !! name reg = caller_register w memory regs r cfa reg \/
        caller !! name reg = None /\ default SameValueRule (row_rules r !! reg) = SameValueRule.

(** The function ends after its last location, and the return address has a
    name. *)
Definition inside (d : Described) : Prop :=
  exists t, exec_entry (cie_program d) (fde_program d) (described_address d) = Some t /\
    loc t < described_address d + described_size d.

Definition ra_named (names : list chars) (d : Described) : Prop :=
  exists c n, names !! Z.to_nat (described_return_address d) = Some (c :: n).

Lemma apply_rules_all P rules changes :
  Forall P rules -> Forall P changes -> Forall P (apply_rules rules changes).
Proof.
  unfold apply_rules, assign_all. intros Hr Hc. revert rules Hr.
  induction Hc as [|p changes Hp _ IH]; intros rules Hr; [done|]. cbn [fold_left].
  apply IH, assign_Forall; [done|]. by destruct p.
Qed.

Lemma rules_at_all P e a : all_rules P e -> Forall P (rules_at e a).
Proof.
  intros [Hi Hc]. unfold rules_at, changes_until. revert Hi. generalize (initial_rules e) as rules.
  induction Hc as [|c changes Hc _ IH]; intros rules Hi; [done|]. rewrite filter_cons.
  case_decide; cbn [fmap list_fmap fold_left]; [|by apply IH]. by apply IH, apply_rules_all.
Qed.

Lemma rules_at_sorted e a : entry_wf e -> sorted (rules_at e a).
Proof. intros [Hi _ _]. by apply fold_apply_sorted. Qed.

Section section_unwind.
Context (names : list chars) (Hdistinct : names_ok names = true) (Hplain : names_plain names = true).

Lemma made_rule_written ra p :
  (exists c n, names !! Z.to_nat ra = Some (c :: n)) -> made_rule names ra p -> written_rule p.
Proof.
  intros (c & n & Hn) Hp.
  assert (Hpn : forall t, plain_name t -> CfiFrameInfo.component t).
  { intros t [(c' & rest & -> & _) Hv]. by apply token_component. }
  destruct Hp as [Hp|(reg & rule & Hreg & Hrange & Hx & ->)].
  - unfold initial_ra in Hp. rewrite Hn in Hp. apply list_elem_of_singleton in Hp as ->.
    assert (plain_name (c :: n)) as Hc.
    { unfold names_plain in Hplain. rewrite forallb_forall in Hplain.
      apply list_elem_of_lookup_2, list_elem_of_In, Hplain in Hn. apply andb_true_iff in Hn as [Hc Hv].
      split; [by eexists _, _|by apply visible_checked]. }
    split.
    + apply (Hpn (str ".ra")). split; [by eexists _, _|]. apply visible_checked. vm_compute. reflexivity.
    + exists [c :: n]. split; [done|]. split; [done|]. constructor; [by apply Hpn|constructor].
  - split.
    + apply Hpn, (name_plain names ra Hplain reg Hreg).
    + apply (rule_text_is (reg_name names ra) reg rule); [intros; by apply name_plain|done..].
Qed.

(** A converted function, at a location with a row. *)
Lemma converted_unwinds d e t1 a ta :
  converted names d e -> exec_all None (cie_program d) (empty_table (described_address d)) = Some t1 ->
  described_address d <= a -> table_at (Some (row t1)) (fde_program d) t1 a = Some ta ->
  unwinds names (described_return_address d) (row ta) (info_of (rules_at e a)).
Proof.
  intros (_ & _ & Hwf & Hmade & _ & Hrows) Hx Ha Hta w memory regs registers caller0 cfa ra_rule ra_value
    Hw Hm Hd Hregs Hno Hfit1 Hfit2 Hcfa Hra Era Hne Hrv Hknown.
  apply (FindCallerRegs_row w memory regs names (described_return_address d) Hw Hm Hdistinct Hplain (row ta)
    (rules_at e a) registers caller0 cfa ra_rule ra_value); auto.
  - by apply (Hrows t1).
  - by apply rules_at_sorted.
  - by apply rules_at_all.
Qed.
End section_unwind.

(** The entries of the module. *)
Lemma AddStackFrameEntries entries : forall m,
  fold_left AddStackFrameEntry entries m =
    with_entries m (stack_frame_entries_ m ++ filter (fun e => AddressIsInModule m (entry_address e) = true) entries).
Proof.
  induction entries as [|e entries IH]; intros m; cbn [fold_left].
  - rewrite app_nil_r. by destruct m.
  - rewrite IH, filter_cons. unfold AddStackFrameEntry.
    destruct (AddressIsInModule m (entry_address e)) eqn:E; cbn [negb].
    + rewrite decide_True by done. destruct m. unfold with_entries. cbn. f_equal. by rewrite <- app_assoc.
    + by rewrite decide_False by done.
Qed.

(** A converted function whose entry can be written. *)
Lemma converted_good lw names m d e :
  names_plain names = true -> converted names d e -> inside d -> ra_named names d -> entry_ok lw m e ->
  entry_good m e /\ all_rules written_rule e /\ initial_rules e <> [].
Proof.
  intros Hpn (Ea & Es & Hwf & [Hm1 Hm2] & Hwithin & _) (t & Ht & Hlt) Hname [(_ & _ & [Htext _]) Hb _].
  assert (Hw : forall rules, Forall (made_rule names (described_return_address d)) rules -> Forall written_rule rules).
  { intros rules Hm. eapply Forall_impl; [exact Hm|]. intros p Hp. exact (made_rule_written names Hpn _ p Hname Hp). }
  split; [split; [done|split; [|done]]|split].
  - specialize (Hwithin t Ht). unfold changes_inside. pose proof (changes_wf e Hwf) as Hc.
    rewrite Forall_forall in Hwithin, Hc |- *. intros c Hci. pose proof (Hwithin c Hci). pose proof (Hc c Hci) as [? _]. lia.
  - split; [by apply Hw|]. eapply Forall_impl; [exact Hm2|]. intros c. apply Hw.
  - intros Ei. by rewrite Ei in Htext.
Qed.

(** The loaded symbol file unwinds the function at every location in it. *)
Definition unwinds_function (names : list chars) (m : DumpModule) (b : BasicModule) (d : Described) : Prop :=
  forall t1 a ta frame,
    exec_all None (cie_program d) (empty_table (described_address d)) = Some t1 ->
    table_at (Some (row t1)) (fde_program d) t1 a = Some ta ->
    described_address d <= a < described_address d + described_size d ->
    SymbolModule.frame_address frame = relative m a ->
    exists info, SymbolModule.FindCFIFrameInfo b frame = Ok (Some info) /\
      unwinds names (described_return_address d) (row ta) info.

(** The symbol file of a module with converted functions finds them. *)
Lemma converted_loaded lw names ds entries m0 m :
  32 <= lw <= 64 -> names_ok names = true -> names_plain names = true ->
  stack_frame_entries_ m0 = [] -> Forall2 (converted names) ds entries ->
  Forall inside ds -> Forall (ra_named names) ds ->
  m = fold_left AddStackFrameEntry entries m0 -> dump_ready lw m ->
  exists m' text mod_ heap,
    Write m ALL_SYMBOL_DATA = Ok (m', text) /\
    Basic_LoadMapFromMemory lw new_module (text ++ [0]) = Ok (mod_, heap) /\
    forall d, d ∈ ds -> AddressIsInModule m0 (described_address d) = true ->
      unwinds_function names m0 (deref_module heap mod_) d.
Proof.
  intros Hlw Hdn Hpn H0 Hconv Hin Hra -> Hready. rewrite Forall_forall in Hin, Hra.
  rewrite AddStackFrameEntries, H0 in Hready |- *. cbn [app] in *. set (es := filter _ entries) in *.
  destruct (Write_Load lw _ Hlw Hready) as (m' & text & mod_ & heap & EW & Hnum & EL & Hd).
  exists m', text, mod_, heap. split; [exact EW|]. split; [exact EL|].
  destruct Hnum as [Hstore _ _].
  assert (Hrel : forall a, relative m' a = relative m0 a) by (intros; by rewrite Hstore).
  assert (Hes : stack_frame_entries_ m' = es) by by rewrite Hstore.
  assert (Hrange : forall e, entry_range m' e = entry_range (with_entries m0 es) e).
  { intros e. unfold entry_range. by rewrite Hrel. }
  destruct (ready_entries _ _ Hready) as [Heok Hap]. cbn [with_entries stack_frame_entries_] in Heok, Hap.
  rewrite <- (map_ext _ _ Hrange) in Hap. rewrite Forall_forall in Heok.
  assert (Hgood : forall d e, d ∈ ds -> converted names d e -> e ∈ es ->
    entry_good m' e /\ all_rules written_rule e /\ initial_rules e <> []).
  { intros d e Hdi Hc He. unfold entry_good. rewrite Hrange. by apply (converted_good lw names _ d); auto. }
  intros d Hdi Hmod t1 a ta frame Hx Hta Ha Hframe.
  destruct (Forall2_elem_l _ _ _ _ Hconv Hdi) as (e & He & Hc). pose proof Hc as (Ea & Es & _).
  assert (Hein : e ∈ es) by (apply list_elem_of_filter; by rewrite Ea).
  destruct (Hgood d e Hdi Hc Hein) as (_ & Hrules & Hne).
  exists (info_of (rules_at e a)). split; [|apply (converted_unwinds names Hdn Hpn d e t1); (done || lia)].
  apply (FindCFIFrameInfo_of_entry m'); rewrite ?Hes; auto.
  - apply Forall_forall. intros e2 He2. pose proof He2 as [_ Hin2]%list_elem_of_filter.
    destruct (Forall2_elem_r _ _ _ _ Hconv Hin2) as (d2 & Hd2 & Hc2). by apply (Hgood d2).
  - rewrite Ea, Es. lia.
  - by rewrite Hframe, Hrel.
Qed.

(** ** An example *)

Definition example_dumped : DumpModule :=
  AddStackFrameEntry example_module
    (mkStackFrameEntry 0x1000 0x20 [(str ".cfa", str "$rsp 8 +"); (str ".ra", str ".cfa -8 + ^")]
       [(0x1001, [(str "$rbp", str ".cfa -16 + ^"); (str ".cfa", str "$rsp 16 +")]);
        (0x1004, [(str ".cfa", str "$rbp 16 +")]);
        (0x100c, [(str ".cfa", str "$rsp 8 +")]);
        (0x100d, [(str ".cfa", str "$rbp 16 +")])]).

Lemma example_dumped_is :
  (let? (ok, p) := Start example_section 0 60 false (mkParser example_reader example_converter []) in
   Ok (module_ (handler_ p))) = Ok example_dumped.
Proof. vm_compute. reflexivity. Qed.

Lemma example_dumped_reached : rtc dump_step (new_dump_module [] [] [] [] []) example_dumped.
Proof. eapply rtc_l; [apply step_entry|]. apply rtc_refl. Qed.

#[local] Instance plain_dec s : Decision (DumpLoad.plain s).
Proof. unfold DumpLoad.plain. apply _. Defined.

Lemma example_dumped_ready : dump_ready 64 example_dumped.
Proof.
  split; try by_computation.
  - exact (reached_wf _ _ _ _ _ _ example_dumped_reached).
  - split; unfold init_in_bounds, change_in_bounds; by_computation.
Qed.

Lemma example_inside : inside example_described.
Proof.
  assert (from_option (fun t => loc t <? 0x1020) false
    (exec_entry example_cie_program example_fde_program 0x1000) = true) as Hc by (vm_compute; reflexivity).
  unfold inside. cbn [described_address described_size cie_program fde_program example_described].
  destruct (exec_entry _ _ _) as [t|]; [|done]. cbn in Hc. apply Z.ltb_lt in Hc. exists t. split; [done|lia].
Qed.

Definition example_registers : dictionary := <[str "$rsp" := 0x6ff0]> {[ str "$rbp" := 0x7000 ]}.
Definition example_memory : memory_region := fun a => if (0x6000 <=? a) && (a <? 0x8000) then Some (2 * a) else None.

(** The whole way, computed: at 0x1008 the CFA is [$rbp + 16], the return address
    is saved below it, and the old [$rbp] below that. *)
Example example_unwound :
  (let? (ok, p) := Start example_section 0 60 false (mkParser example_reader example_converter []) in
   let? (m, text) := Write (module_ (handler_ p)) ALL_SYMBOL_DATA in
   let? (mod_, heap) := Basic_LoadMapFromMemory 64 new_module (text ++ [0]) in
   let? info := SymbolModule.FindCFIFrameInfo (deref_module heap mod_)
     (SymbolModule.mkStackFrame 0x401008 0x400000 [] 0 [] 0 0) in
   let? info := of_option info in
   let? (ok, caller) := FindCallerRegs 64 info example_registers example_memory ∅ in
   Ok (ok, caller !! str ".cfa", caller !! str ".ra", caller !! str "$rbp", caller !! str "$rsp")) =
  Ok (true, Some 0x7010, Some 0xe010, Some 0xe000, None).
Proof. vm_compute. reflexivity. Qed.

(** Where a row says that the return address is in its own register still (the
    leaf functions of ARM64 and MIPS), the rule written is [.ra: .ra], which
    [FindCallerRegs] cannot evaluate. *)
Example same_value_return_address :
  rule_text (reg_name ARM64 30) 30 SameValueRule = str ".ra" /\
  FindCallerRegs 64 (info_of [(str ".cfa", str "sp 0 +"); (str ".ra", str ".ra")])
    (<[str "x30" := 0x401234]> {[ str "sp" := 0x7000 ]}) example_memory ∅ = Ok (false, ∅).
Proof. vm_compute. done. Qed.

(** C11: unwinding with converted call frame information is what DWARF says.  The
    section is well-formed, in every function the locations ascend and stay
    inside it, its rules are ones that STACK CFI records can express ([takes_all]:
    none is undefined or an expression), and no name stands for two registers
    ([names_ok]: I386, X86_64, ARM64 and MIPS, not ARM).  When it is converted
    into a module without CFI entries, and the module can be written as a symbol
    file and is loaded, then for every location in every function of the module
    the resolver finds rules with which [FindCallerRegs] recovers, in every
    machine of at most 64 bits, the CFA, the return address and every register
    as the row of DWARF's table for that location defines them; a register the
    row has no rule for, or says to be unchanged, may be left out.  That is for
    the rows ([unwinds]) that have a rule for the CFA and one for the return
    address that does not say it is unchanged (see
    [same_value_return_address]), whose offsets fit the machine, and whose rules
    have values in its registers and memory. *)
Theorem DWARF_unwinding lw mem buffer_ buffer_length_ eh_frame_ bs ds (r : ByteReader) (h : DwarfCFIToModule) reps :
  32 <= lw <= 64 ->
  0 <= buffer_ -> buffer_ + buffer_length_ < 2 ^ 64 -> buffer_length_ = Z.of_nat (length bs) ->
  holds mem buffer_ bs -> have_function_base_ r = false ->
  idle h -> names_ok (register_names_ h) = true -> names_plain (register_names_ h) = true ->
  stack_frame_entries_ (module_ h) = [] ->
  entries_at mem buffer_ buffer_length_ eh_frame_ r buffer_ bs ds ->
  Forall (takes_all DwarfCFIToModule) ds -> Forall orderly ds -> Forall inside ds ->
  Forall (ra_named (register_names_ h)) ds ->
  exists r' h',
    Start mem buffer_ buffer_length_ eh_frame_ (mkParser r h reps) = Ok (Some true, mkParser r' h' reps) /\
    (dump_ready lw (module_ h') ->
     exists m' text mod_ heap,
       Write (module_ h') ALL_SYMBOL_DATA = Ok (m', text) /\
       Basic_LoadMapFromMemory lw new_module (text ++ [0]) = Ok (mod_, heap) /\
       forall d, d ∈ ds -> AddressIsInModule (module_ h) (described_address d) = true ->
         unwinds_function (register_names_ h) (module_ h) (deref_module heap mod_) d).
Proof.
  intros Hlw Hb Hlt Hlen Hh Hbase Hidle Hok Hpn H0 He Htk Hord Hin Hra.
  destruct (Start_converts mem buffer_ buffer_length_ eh_frame_ bs ds r h reps Hb Hlt Hlen Hh Hbase Hidle Hok He Htk Hord)
    as (r' & h' & entries & E & _ & _ & Hconv & Em).
  exists r', h'. split; [exact E|]. by apply (converted_loaded lw _ ds entries).
Qed.

Lemma DWARF_unwinding_witness :
  exists m' text mod_ heap,
    Write example_dumped ALL_SYMBOL_DATA = Ok (m', text) /\
    Basic_LoadMapFromMemory 64 new_module (text ++ [0]) = Ok (mod_, heap) /\
    unwinds_function X86_64 example_module (deref_module heap mod_) example_described.
Proof.
  assert (Ht : takes_all DwarfCFIToModule example_described) by (split; repeat constructor).
  destruct (DWARF_unwinding 64 example_section 0 60 false example_section [example_described] example_reader
    example_converter [] ltac:(lia) ltac:(lia) ltac:(lia) eq_refl (holds_all _) eq_refl (conj eq_refl (conj eq_refl eq_refl))
    (proj1 (proj2 tables_ok)) ltac:(vm_compute; reflexivity) eq_refl example_entries
    (Forall_cons_2 _ _ _ Ht (Forall_nil_2 _)) (Forall_cons_2 _ _ _ example_orderly (Forall_nil_2 _))
    (Forall_cons_2 _ _ _ example_inside (Forall_nil_2 _))
    ltac:(constructor; [by eexists _, _|constructor])) as (r' & h' & E & Hrest).
  assert (Em : module_ h' = example_dumped).
  { pose proof example_dumped_is as Ed. rewrite E in Ed. by injection Ed. }
  rewrite Em in Hrest. destruct (Hrest example_dumped_ready) as (m' & text & mod_ & heap & EW & EL & Hall).
  exists m', text, mod_, heap. split; [exact EW|]. split; [exact EL|]. apply Hall; [by left|reflexivity].
Defined.
