(* ===== verification/SymbolImage.v ===== *)
(** * Symbol files as images

    What [LoadMapFromMemory] leaves can be serialized whenever the image stays
    below 4 GiB: the records have the types and the maps the order that the
    serializers ask for, and only sizes can overflow. *)

From S2P Require Import Prelude Memory LibcSupport SimpleSerializer OrderedMap AddressMap RangeMap ContainedRangeMap StaticMap MapSerializers StaticMaps Tokens CStrings SymbolRecords SymbolModule FastResolver SymbolParser SymbolText SymbolLoad.
#[local] Open Scope Z_scope.

(** ** Maps that fit *)

Section map_fits.
Context (ks : nat) {KT : KeyType} {V : Type} (size_value : V -> Z).
Implicit Types (nodes : list (Z * V)).

Lemma values_size_nonneg_all nodes : Forall (fun p => 0 <= size_value p.2) nodes -> 0 <= values_size size_value nodes.
Proof. induction 1; simpl; lia. Qed.

Lemma values_size_in nodes p :
  Forall (fun p => 0 <= size_value p.2) nodes -> p ∈ nodes -> size_value p.2 <= values_size size_value nodes.
Proof.
  induction 1 as [|q nodes Hq Hn IH]; [by intros ?%elem_of_nil|]. pose proof (values_size_nonneg_all nodes Hn).
  intros [->|Hp]%elem_of_cons; simpl; [lia|]. apply IH in Hp. lia.
Qed.

Lemma header_size_pos nodes : 4 * Z.of_nat (length nodes) <= header_size ks nodes.
Proof. unfold header_size. lia. Qed.

Lemma map_size_pos nodes :
  Forall (fun p => 0 <= size_value p.2) nodes -> 0 <= map_size ks size_value nodes.
Proof. intros Hp. pose proof (values_size_nonneg_all _ Hp). pose proof (header_size_pos nodes). unfold map_size. lia. Qed.

Lemma map_fits_size nodes :
  Forall (fun p => key_ok ks (KT := KT) p.1) nodes -> Forall (fun p => 0 <= size_value p.2) nodes ->
  map_size ks size_value nodes < 2 ^ 32 -> map_fits ks size_value nodes.
Proof.
  intros Hk Hp Hs. split; [done|]. split; [|done].
  pose proof (values_size_nonneg_all _ Hp). pose proof (header_size_pos nodes). unfold map_size in Hs. lia.
Qed.
End map_fits.

Lemma uint_key k : uint 64 k -> key_ok 8 k.
Proof. done. Qed.

Lemma int_key k : int32 k -> key_ok 4 (KT := int_keys) k.
Proof. unfold int32, key_ok, int_keys, key_signed. simpl. lia. Qed.

Lemma wf_keys {E} (rm : list (Z * Range E)) : RangeMap.wf 64 rm -> Forall (fun p => key_ok 8 p.1) rm.
Proof. intros [Hr _]. eapply Forall_impl; [exact Hr|]. intros p Hp. unfold range_ok in Hp. apply uint_key. unfold uint. lia. Qed.

(** ** Records *)

Lemma range_size_pos {E} `{SimpleSerializer E} (rm : list (Z * Range E)) :
  Forall (fun p => 0 <= SizeOf (entry_ p.2)) rm -> Forall (fun p => 0 <= Range_SizeOf 8 p.2) rm.
Proof. intros Hr. eapply Forall_impl; [exact Hr|]. intros p Hp. cbv beta in Hp. unfold Range_SizeOf, int_SizeOf. lia. Qed.

(** The sizes of the image that are computed in 32 bits. *)
Definition function_fits (f : Function_) : Prop :=
  Z.of_nat (length (function_head f)) + RangeMap_SizeOf 8 (lines f) < 2 ^ 32.

Definition program_fits (w : WindowsFrameInfo) : Prop :=
  Z.of_nat (length (program_string w)) + 34 < 2 ^ 32.

Record image_fits (m : BasicModule) : Prop := {
  fits_functions p f : p ∈ map_ (functions_ m) -> entry_ p.2 = Some f -> function_fits f;
  fits_programs t r w : t ∈ windows_frame_info_ m -> r ∈ descendants t -> r.2 = Some w -> program_fits w;
  fits_total : total (module_map_sizes m) + 42 < 2 ^ 32;
}.

Lemma function_loaded_ok f : function_loaded f -> function_fits f -> function_ok f.
Proof.
  intros (Hn & Ha & Hs & Hp & (_ & Hwf & Hlines)) Hf. unfold function_ok, uint.
  split; [done|]. split; [lia|]. split; [lia|]. split; [done|]. split; [|exact Hf].
  unfold function_fits in Hf. rewrite RangeMap_SizeOf_map_size in Hf. split.
  - apply map_fits_size; [by apply wf_keys| |lia]. apply range_size_pos.
    eapply Forall_impl; [exact Hlines|]. intros p (l & -> & _). done.
  - eapply Forall_impl; [exact Hlines|]. intros p (l & -> & Hl). done.
Qed.

Lemma frame_info_loaded_ok w : frame_info_loaded w -> program_fits w -> frame_info_ok w.
Proof.
  intros (Ht & Hv & ? & ? & ? & ? & ? & ? & ?) Hp. unfold frame_info_ok, int32.
  rewrite Hv. change (Z.of_nat STACK_INFO_LAST) with 5 in Ht. split; [lia|]. split; [done|]. by split_and!.
Qed.

(** ** The hierarchies *)

Lemma representable_size {T} `{SerializerLaws T} (x : T) : representable x -> 0 <= SizeOf x.
Proof. intros Hx. apply (writer_size _ _ _ (Write_spec x Hx)). Qed.

Abbreviation frame_node := (ContainedRangeMap (option WindowsFrameInfo)).

Definition tree_representable (t : frame_node) : Prop :=
  Forall (fun r : Z * Z * option WindowsFrameInfo => representable r.2) (descendants t).

Lemma tree_representable_child t p :
  tree_representable t -> p ∈ children t -> representable (centry p.2) /\ tree_representable p.2.
Proof.
  unfold tree_representable. rewrite descendants_children, Forall_concat, Forall_fmap. intros Ht Hp.
  rewrite Forall_forall in Ht. by apply Ht, Forall_cons in Hp.
Qed.

Lemma tree_size_pos (t : frame_node) :
  representable (centry t) -> tree_representable t -> 0 <= Contained_SizeOf 8 t.
Proof.
  induction t as [t IH] using node_ind. intros He Ht. rewrite Contained_SizeOf_node.
  pose proof (representable_size _ He). assert (0 <= map_size 8 (Contained_SizeOf 8) (children t)); [|lia].
  apply map_size_pos, Forall_forall. intros p Hp.
  destruct (tree_representable_child t p Ht Hp). by apply IH.
Qed.

Lemma tree_serializable (t : frame_node) : forall lo hi,
  wf_tree 64 lo hi t -> uint 64 (cbase t) -> representable (centry t) -> tree_representable t ->
  Contained_SizeOf 8 t < 2 ^ 32 -> serializable_tree 8 t.
Proof.
  induction t as [t IH] using node_ind. intros lo hi Hwf Hb He Ht Hs.
  pose proof (representable_size _ He) as Hes. rewrite Contained_SizeOf_node in Hs.
  apply wf_tree_children in Hwf as [_ Hc]. rewrite Forall_forall in Hc.
  assert (Forall (fun p => 0 <= Contained_SizeOf 8 p.2) (children t)) as Hpos.
  { apply Forall_forall. intros p Hp. destruct (tree_representable_child t p Ht Hp). by apply tree_size_pos. }
  pose proof (map_size_pos 8 (Contained_SizeOf 8) _ Hpos) as Hm.
  pose proof (header_size_pos 8 (children t)) as Hh.
  constructor; [done|done|lia| |].
  - apply map_fits_size; [|done|lia]. apply Forall_forall. intros p Hp.
    destruct (Hc p Hp) as [Hw _]. unfold within in Hw. apply uint_key. unfold uint. lia.
  - intros p Hp. destruct (Hc p Hp) as [Hw Hwt]. destruct (tree_representable_child t p Ht Hp) as [He' Ht'].
    pose proof (values_size_in (Contained_SizeOf 8) _ p Hpos Hp). unfold within in Hw.
    apply (IH p Hp (cbase p.2) p.1); [done|unfold uint; lia|done|done|]. unfold map_size in Hs. lia.
Qed.

(** ** A loaded module *)

Lemma total_in l : Forall (fun s => 0 <= s) l -> forall s, s ∈ l -> s <= total l.
Proof.
  induction 1 as [|x l Hx Hl IH]; intros s; [by intros ?%elem_of_nil|]. pose proof (total_nonneg l Hl).
  intros [->|Hs]%elem_of_cons; simpl; [lia|]. apply IH in Hs. lia.
Qed.

Lemma StdMap_size_pos {V} `{SerializerLaws V} ks (m : list (Z * V)) :
  Forall (fun p => representable p.2) m -> 0 <= StdMap_SizeOf ks m.
Proof.
  intros Hm. rewrite StdMap_SizeOf_map_size. apply map_size_pos. eapply Forall_impl; [exact Hm|].
  intros p. apply representable_size.
Qed.

Lemma RangeMap_size_pos {V} `{SerializerLaws V} (m : RangeMap V) :
  Forall (fun p => representable (entry_ p.2)) (map_ m) -> 0 <= RangeMap_SizeOf 8 m.
Proof.
  intros Hm. rewrite RangeMap_SizeOf_map_size. apply map_size_pos, range_size_pos. eapply Forall_impl; [exact Hm|].
  intros p. apply representable_size.
Qed.

(** What is left to check of a map is its size. *)
Lemma StdMap_fits {V} `{SerializerLaws V} ks {KT : KeyType} (m : list (Z * V)) :
  Forall (fun p => key_ok ks (KT := KT) p.1) m -> Forall (fun p => representable p.2) m ->
  StdMap_SizeOf ks m < 2 ^ 32 -> map_fits ks (KT := KT) SizeOf m /\ serializable_values m.
Proof.
  intros Hk Hm Hs. split; [|done]. rewrite StdMap_SizeOf_map_size in Hs. apply map_fits_size; [done| |done].
  eapply Forall_impl; [exact Hm|]. intros p. apply representable_size.
Qed.

Lemma RangeMap_fits {V} `{SerializerLaws V} (m : RangeMap V) :
  RangeMap.wf 64 (map_ m) -> Forall (fun p => representable (entry_ p.2)) (map_ m) ->
  RangeMap_SizeOf 8 m < 2 ^ 32 -> serializable_ranges 8 m.
Proof.
  intros Hwf Hm Hs. split; [|done]. rewrite RangeMap_SizeOf_map_size in Hs.
  apply map_fits_size; [by apply wf_keys| |done]. apply range_size_pos.
  eapply Forall_impl; [exact Hm|]. intros p. apply representable_size.
Qed.

Lemma loaded_serializable heap m :
  module_loaded (length heap) m -> Forall function_loaded heap ->
  image_fits (deref_module heap m) -> module_serializable (deref_module heap m).
Proof.
  intros Hm Hh [Hff Hfp Hft]. pose proof (deref_module_wf heap m Hm Hh) as Hwf.
  destruct Hm as [[_ Hfiles] (_ & _ & Hfun) [_ Hsym] [_ Htree] (_ & Hcwf & Hcfi) [_ Hdelta]].
  set (bm := deref_module heap m) in *.
  assert (Forall (fun p : Z * chars => representable p.2) (files_ bm)) as R1.
  { eapply Forall_impl; [exact Hfiles|]. by intros p [_ ?]. }
  assert (Forall (fun p => representable (entry_ p.2)) (map_ (functions_ bm))) as R2.
  { apply Forall_forall. intros p Hp. pose proof (Hff p) as Hfit.
    apply list_elem_of_fmap in Hp as Hp'. destruct Hp' as (q & -> & Hq). cbn [entry_ snd].
    rewrite Forall_forall in Hfun. destruct (Hfun q Hq) as (_ & i & Ei & Hi). rewrite Ei in *.
    destruct (lookup_lt_is_Some_2 heap i Hi) as [f Ef]. rewrite Ef in *.
    apply function_loaded_ok; [by apply (proj1 (Forall_lookup _ _) Hh i)|]. by apply Hfit. }
  assert (Forall (fun p : Z * option PublicSymbol => representable p.2) (public_symbols_ bm)) as R3.
  { eapply Forall_impl; [exact Hsym|]. by intros p (s & -> & ? & _). }
  assert (Forall (fun t => tree_representable t /\ centry t = None) (windows_frame_info_ bm)) as R4.
  { apply Forall_forall. intros t Ht. rewrite Forall_forall in Htree.
    destruct (Htree t Ht) as (_ & Hd & _ & He). split; [|done]. apply Forall_forall. intros r Hr.
    rewrite Forall_forall in Hd. destruct (Hd r Hr) as (w & E & Hw). rewrite E.
    apply frame_info_loaded_ok; [done|]. by apply (Hfp t r). }
  assert (Forall (fun p => representable (entry_ p.2)) (map_ (cfi_initial_rules_ bm))) as R5 by exact Hcfi.
  assert (Forall (fun p : Z * chars => representable p.2) (cfi_delta_rules_ bm)) as R6.
  { eapply Forall_impl; [exact Hdelta|]. by intros p [_ ?]. }
  assert (Forall (fun s => 0 <= s) (module_map_sizes bm)) as Hpos.
  { unfold module_map_sizes. apply Forall_app. split; [|apply Forall_app; split]; repeat constructor.
    - by apply StdMap_size_pos.
    - by apply RangeMap_size_pos.
    - by apply StdMap_size_pos.
    - apply Forall_fmap. eapply Forall_impl; [exact R4|]. intros t [Ht He]. simpl.
      apply tree_size_pos; [by rewrite He|done].
    - by apply RangeMap_size_pos.
    - by apply StdMap_size_pos. }
  assert (forall s, s ∈ module_map_sizes bm -> s < 2 ^ 32) as Hmap.
  { intros s Hs%(total_in _ Hpos). lia. }
  unfold module_map_sizes in Hmap.
  split.
  - apply StdMap_fits; [|done|apply Hmap; set_solver]. eapply Forall_impl; [exact Hfiles|].
    intros p [? _]. by apply int_key.
  - apply RangeMap_fits; [apply (wf_functions _ Hwf)|done|apply Hmap; set_solver].
  - apply StdMap_fits; [|done|apply Hmap; set_solver]. eapply Forall_impl; [exact Hsym|].
    intros p (s & _ & (_ & ? & _) & <-). by apply uint_key.
  - apply Forall_forall. intros t Ht. rewrite Forall_forall in Htree, R4.
    destruct (Htree t Ht) as (Hw & _ & Hb & He). destruct (R4 t Ht) as [Hr _].
    apply (tree_serializable t _ _ Hw); [rewrite Hb; unfold uint; lia|by rewrite He|done|].
    apply Hmap, elem_of_app. right. apply elem_of_app. left. apply list_elem_of_fmap. by exists t.
  - intros t r w Ht Hr Ew. rewrite Forall_forall in Htree. destruct (Htree t Ht) as (_ & Hd & _).
    rewrite Forall_forall in Hd. destruct (Hd r Hr) as (w' & E & Hw). rewrite Ew in E. injection E as <-.
    split; [apply Hw|]. apply frame_info_loaded_ok; [done|]. by apply (Hfp t r).
  - apply RangeMap_fits; [done|done|apply Hmap; set_solver].
  - apply StdMap_fits; [|done|apply Hmap; set_solver]. eapply Forall_impl; [exact Hdelta|].
    intros p [? _]. by apply uint_key.
  - exact Hft.
Qed.

(** The sizes, checked. *)
Definition image_fits_check (m : BasicModule) : bool :=
  forallb (fun p : Z * Range (option Function_) =>
             match entry_ p.2 with
             | Some f => Z.of_nat (length (function_head f)) + RangeMap_SizeOf 8 (lines f) <? 2 ^ 32
             | None => true
             end) (map_ (functions_ m))
  && forallb (fun t => forallb (fun r : Z * Z * option WindowsFrameInfo =>
                 match r.2 with
                 | Some w => Z.of_nat (length (program_string w)) + 34 <? 2 ^ 32
                 | None => true
                 end) (descendants t)) (windows_frame_info_ m)
  && (total (module_map_sizes m) + 42 <? 2 ^ 32).

Lemma image_fits_checked m : image_fits_check m = true -> image_fits m.
Proof.
  unfold image_fits_check. rewrite !andb_true_iff, !forallb_forall, Z.ltb_lt. intros [[Hf Hp] Ht]. split; [| |done].
  - intros p f Hin%list_elem_of_In E. apply Hf in Hin. rewrite E in Hin. by apply Z.ltb_lt.
  - intros t r w Ht'%list_elem_of_In Hr%list_elem_of_In E. apply Hp in Ht'. rewrite forallb_forall in Ht'.
    apply Ht' in Hr. rewrite E in Hr. by apply Z.ltb_lt.
Qed.
