(* ===== verification/SymbolResolver.v ===== *)
(** * The resolvers (processor/source_line_resolver_base.h, .cc)

    [SourceLineResolverBase] keeps the loaded modules by the name of their code
    file, the names of the corrupt ones, and the buffers it has to keep alive
    for them.  It is written over an abstract [Module] class, which the basic
    and the fast resolver implement; here that class is [ResolverModule], and
    [ResolverModuleLaws] is what the resolver relies on.  The heap holds the
    buffers, so that a buffer that is used or deleted after its deletion shows
    as [Undef]. *)

From stdpp Require Import gmap.
From S2P Require Import Prelude Memory LibcSupport SimpleSerializer OrderedMap RangeMap MapSerializers Tokens CfiFrameInfo CStrings SymbolRecords SymbolModule.
#[local] Open Scope Z_scope.

(** ** The heap

    A pointer to a buffer is its number; [None] is a deleted buffer. *)
Abbreviation Heap := (list (option byte_list)).

Definition new_buffer (h : Heap) (content : byte_list) : Heap * nat :=
  (h ++ [Some content], length h).

Definition delete_buffer (h : Heap) (p : nat) : outcome Heap :=
  match h !! p with
  | Some (Some _) => Ok (<[p := None]> h)
  | _ => Undef
  end.

Definition buffer_content (h : Heap) (p : nat) : outcome byte_list :=
  match h !! p with
  | Some (Some content) => Ok content
  | _ => Undef
  end.

Definition write_buffer (h : Heap) (p : nat) (offset : Z) (bytes : byte_list) : outcome Heap :=
  let? content := buffer_content h p in
  let? content := write_at content offset bytes in
  Ok (<[p := Some content]> h).

(** ** SourceLineResolverBase::Module

    [load_new_module] is [CreateModule] and then [LoadMapFromMemory] with the
    pointer, NULL being [None], what it points to and its size: the result of
    the latter, the module, and what is in the buffer afterwards.
    [reads_from] is the buffer a loaded module keeps pointers into; the
    questions are asked with its content. *)
Class ResolverModule (M : Type) : Type := {
  load_new_module : option nat -> byte_list -> Z -> outcome (bool * M * byte_list);
  IsCorrupt : M -> bool;
  reads_from : M -> option nat;
  module_LookupAddress : byte_list -> M -> StackFrame -> outcome StackFrame;
  module_FindWindowsFrameInfo : byte_list -> M -> StackFrame -> outcome (option WindowsFrameInfo);
  module_FindCFIFrameInfo : byte_list -> M -> StackFrame -> outcome (option CFIFrameInfo);
  ShouldDeleteMemoryBufferAfterLoadModule : bool;
}.

Record Resolver (M : Type) : Type := mkResolver {
  modules_ : list (chars * M);
  corrupt_modules_ : list (chars * unit);
  memory_buffers_ : list (chars * nat);
}.
Arguments mkResolver {M} _ _ _.
Arguments modules_ {M} _.
Arguments corrupt_modules_ {M} _.
Arguments memory_buffers_ {M} _.

(** [CompareString]: the maps compare their keys with [strcmp], so a key is
    kept as the text [strcmp] sees. *)
Definition CompareString (s1 s2 : chars) : bool := chars_lt (c_string s1) (c_string s2).

Definition map_key (code_file : chars) : chars := c_string code_file.

(** The files: the size [stat] reports, and what can be read from the stream
    [fopen] opens; [None] when they fail. *)
Record FileSystem : Type := mkFileSystem {
  stat_size : chars -> option Z;
  stream : chars -> option byte_list;
}.

Section resolver.
Context {M : Type} `{ResolverModule M}.
(** What a new buffer of a size holds. *)
Context (alloc : nat -> byte_list).
Implicit Types (h : Heap) (r : Resolver M).

Definition SourceLineResolverBase : Resolver M := mkResolver [] [] [].

(** The destructor's loop over the buffers. *)
Fixpoint delete_buffers (buffers : list (chars * nat)) h : outcome Heap :=
  match buffers with
  | [] => Ok h
  | (_, p) :: buffers => let? h := delete_buffer h p in delete_buffers buffers h
  end.

Definition destroy h r : outcome Heap := delete_buffers (memory_buffers_ r) h.

(** The buffer and its size, [None] for a failure. *)
Definition ReadSymbolFile (fs : FileSystem) h (map_file : chars) : outcome (option (nat * Z) * Heap) :=
  match stat_size fs map_file with
  | None => Ok (None, h)
  | Some file_size =>
      let symbol_data_size := file_size + 1 in
      let (h, symbol_data) := new_buffer h (alloc (Z.to_nat (file_size + 1))) in
      match stream fs map_file with
      | None => let? h := delete_buffer h symbol_data in Ok (None, h)
      | Some f =>
          let data := take (Z.to_nat file_size) f in
          let? h := write_buffer h symbol_data 0 data in
          let items_read := swrap 32 (Z.of_nat (length data)) in
          if negb (items_read =? file_size) then
            let? h := delete_buffer h symbol_data in Ok (None, h)
          else
            let? h := write_buffer h symbol_data file_size [0] in
            Ok (Some (symbol_data, symbol_data_size), h)
      end
  end.

Definition HasModule r (module : option chars) : bool :=
  match module with
  | None => false
  | Some code_file =>
      match find_value (modules_ r) (map_key code_file) with Some _ => true | None => false end
  end.

Definition IsModuleCorrupt r (module : option chars) : bool :=
  match module with
  | None => false
  | Some code_file =>
      match find_value (corrupt_modules_ r) (map_key code_file) with Some _ => true | None => false end
  end.

Definition add_module r (key : chars) (basic_module : M) : Resolver M :=
  mkResolver (insert (modules_ r) key basic_module)
    (if IsCorrupt basic_module then insert (corrupt_modules_ r) key tt else corrupt_modules_ r)
    (memory_buffers_ r).

(** Does nothing when there is no such module. *)
Definition remove_module r (key : chars) : Resolver M :=
  match find_value (modules_ r) key with
  | Some _ =>
      mkResolver (erase_at (modules_ r) (find (modules_ r) key))
        (erase_at (corrupt_modules_ r) (find (corrupt_modules_ r) key)) (memory_buffers_ r)
  | None => r
  end.

(** A [CodeModule] is the name of its code file; a failing assertion is
    [Undef]. *)
Definition LoadModuleUsingMemoryBuffer h r (module : option chars) (memory_buffer : option nat)
    (memory_buffer_size : Z) : outcome (bool * Heap * Resolver M) :=
  match module with
  | None => Ok (false, h, r)
  | Some code_file =>
      if HasModule r (Some code_file) then Ok (false, h, r)
      else
        let? content := match memory_buffer with Some p => buffer_content h p | None => Ok [] end in
        let? (loaded, basic_module, content) := load_new_module memory_buffer content memory_buffer_size in
        let h := match memory_buffer with Some p => <[p := Some content]> h | None => h end in
        if negb loaded && negb (IsCorrupt basic_module) then Undef
        else Ok (true, h, add_module r (map_key code_file) basic_module)
  end.

(** How [LoadModule] and [LoadModuleUsingMapBuffer] end. *)
Definition load_own_buffer h r (code_file : chars) (memory_buffer : nat) (memory_buffer_size : Z) :
    outcome (bool * Heap * Resolver M) :=
  let? (load_result, h, r) :=
    LoadModuleUsingMemoryBuffer h r (Some code_file) (Some memory_buffer) memory_buffer_size in
  if (load_result : bool) && negb ShouldDeleteMemoryBufferAfterLoadModule then
    Ok (load_result, h, mkResolver (modules_ r) (corrupt_modules_ r)
                          (insert (memory_buffers_ r) (map_key code_file) memory_buffer))
  else
    let? h := delete_buffer h memory_buffer in Ok (load_result, h, r).

Definition LoadModule (fs : FileSystem) h r (module : option chars) (map_file : chars) :
    outcome (bool * Heap * Resolver M) :=
  match module with
  | None => Ok (false, h, r)
  | Some code_file =>
      if HasModule r (Some code_file) then Ok (false, h, r)
      else
        let? (read, h) := ReadSymbolFile fs h map_file in
        match read with
        | None => Ok (false, h, r)
        | Some (memory_buffer, memory_buffer_size) =>
            load_own_buffer h r code_file memory_buffer memory_buffer_size
        end
  end.

Definition LoadModuleUsingMapBuffer h r (module : option chars) (map_buffer : byte_list) :
    outcome (bool * Heap * Resolver M) :=
  match module with
  | None => Ok (false, h, r)
  | Some code_file =>
      if HasModule r (Some code_file) then Ok (false, h, r)
      else
        let size := Z.of_nat (length map_buffer) in
        let memory_buffer_size := size + 1 in
        let (h, memory_buffer) := new_buffer h (alloc (Z.to_nat (size + 1))) in
        let? h := write_buffer h memory_buffer 0 map_buffer in
        let? h := write_buffer h memory_buffer size [0] in
        load_own_buffer h r code_file memory_buffer memory_buffer_size
  end.

Definition UnloadModule h r (code_module : option chars) : outcome (Heap * Resolver M) :=
  match code_module with
  | None => Ok (h, r)
  | Some code_file =>
      let key := map_key code_file in
      let r := remove_module r key in
      if ShouldDeleteMemoryBufferAfterLoadModule then Ok (h, r)
      else
        match find_value (memory_buffers_ r) key with
        | Some p =>
            let? h := delete_buffer h p in
            Ok (h, mkResolver (modules_ r) (corrupt_modules_ r)
                     (erase_at (memory_buffers_ r) (find (memory_buffers_ r) key)))
        | None => Ok (h, r)
        end
  end.

(** ** The questions

    What a module reads when it is asked. *)
Definition module_content h (m : M) : outcome byte_list :=
  match reads_from m with Some p => buffer_content h p | None => Ok [] end.

(** A frame with the code file of its module, if it has one. *)
Definition frame_module r (module : option chars) : option M :=
  match module with Some code_file => find_value (modules_ r) (map_key code_file) | None => None end.

Definition FillSourceLineInfo h r (module : option chars) (frame : StackFrame) : outcome StackFrame :=
  match frame_module r module with
  | Some m => let? content := module_content h m in module_LookupAddress content m frame
  | None => Ok frame
  end.

Definition Resolver_FindWindowsFrameInfo h r (module : option chars) (frame : StackFrame) :
    outcome (option WindowsFrameInfo) :=
  match frame_module r module with
  | Some m => let? content := module_content h m in module_FindWindowsFrameInfo content m frame
  | None => Ok None
  end.

Definition Resolver_FindCFIFrameInfo h r (module : option chars) (frame : StackFrame) :
    outcome (option CFIFrameInfo) :=
  match frame_module r module with
  | Some m => let? content := module_content h m in module_FindCFIFrameInfo content m frame
  | None => Ok None
  end.
End resolver.

(** ** What the resolver relies on

    A buffer is [loadable] when it can be loaded without undefined behaviour;
    a module is [module_ok] when its questions can be asked.  A module keeps no
    pointer into a buffer that may be deleted, and leaves one that it reads
    from as it is. *)
Class ResolverModuleLaws (M : Type) `{ResolverModule M} : Type := {
  loadable : byte_list -> Z -> Prop;
  module_ok : M -> byte_list -> Prop;
  load_new_module_ok p content size :
    loadable content size -> exists loaded m content',
      load_new_module (Some p) content size = Ok (loaded, m, content') /\
      loaded || IsCorrupt m = true /\
      (ShouldDeleteMemoryBufferAfterLoadModule = true -> module_ok m []) /\
      (ShouldDeleteMemoryBufferAfterLoadModule = false ->
        content' = content /\ reads_from m = Some p /\ module_ok m content);
  deleted_not_read m : ShouldDeleteMemoryBufferAfterLoadModule = true -> reads_from m = None;
  module_LookupAddress_ok m content frame :
    module_ok m content -> exists frame', module_LookupAddress content m frame = Ok frame' /\
      instruction frame' = instruction frame;
  module_FindWindowsFrameInfo_ok m content frame :
    module_ok m content -> exists info, module_FindWindowsFrameInfo content m frame = Ok info;
  module_FindCFIFrameInfo_ok m content frame :
    module_ok m content -> exists rules, module_FindCFIFrameInfo content m frame = Ok rules;
}.

Section laws.
Context {M : Type} `{ResolverModuleLaws M}.
Context (alloc : nat -> byte_list) (Halloc : allocates alloc).
Implicit Types (h : Heap) (r : Resolver M) (others : gset nat).

Definition live h (p : nat) : Prop := exists content, h !! p = Some (Some content).

Definition owned r (p : nat) : Prop := exists k, find_value (memory_buffers_ r) k = Some p.

(** ** The invariant

    [others] are the live buffers that belong to somebody else: the resolver's
    own are those in [memory_buffers_]. *)
Record resolver_wf h r others : Prop := {
  wf_maps : sorted (modules_ r) /\ sorted (corrupt_modules_ r) /\ sorted (memory_buffers_ r);
  wf_corrupt k : is_Some (find_value (corrupt_modules_ r) k) <->
    exists m, find_value (modules_ r) k = Some m /\ IsCorrupt m = true;
  wf_key k m : find_value (modules_ r) k = Some m -> map_key k = k;
  wf_module k m : find_value (modules_ r) k = Some m ->
    exists content, module_content h m = Ok content /\ module_ok m content;
  wf_reads k m p : find_value (modules_ r) k = Some m -> reads_from m = Some p ->
    find_value (memory_buffers_ r) k = Some p \/ p ∈ others;
  wf_buffer k p : find_value (memory_buffers_ r) k = Some p ->
    p ∉ others /\ exists m, find_value (modules_ r) k = Some m /\ reads_from m = Some p;
  wf_unshared k k' p : find_value (memory_buffers_ r) k = Some p ->
    find_value (memory_buffers_ r) k' = Some p -> k = k';
  wf_live p : live h p <-> p ∈ others \/ owned r p;
}.

(** A buffer some module reads. *)
Definition in_use r (p : nat) : Prop :=
  exists k m, find_value (modules_ r) k = Some m /\ reads_from m = Some p.

(** ** The heap *)

Lemma module_content_eq h h' m :
  (forall p, reads_from m = Some p -> h' !! p = h !! p) -> module_content h' m = module_content h m.
Proof. unfold module_content, buffer_content. destruct (reads_from m); [|done]. by intros ->. Qed.

(** The heap can change where no module reads. *)
Lemma resolver_wf_heap h h' r others others' :
  resolver_wf h r others ->
  (forall p, in_use r p -> h' !! p = h !! p /\ (p ∈ others' <-> p ∈ others)) ->
  (forall p, live h' p <-> p ∈ others' \/ owned r p) ->
  resolver_wf h' r others'.
Proof.
  intros [Hs Hc Hk Hm Hr Hb Hu Hl] Huse Hl'. split; [done|done|done| | | |done|done].
  - intros k m E. destruct (Hm k m E) as (c & Ec & Hok). exists c. split; [|done].
    rewrite <- Ec. apply module_content_eq. intros p Ep. apply Huse. by exists k, m.
  - intros k m p E Ep. destruct (Hr k m p E Ep) as [?|Ho]; [by left|right].
    apply Huse; [by exists k, m|done].
  - intros k p E. destruct (Hb k p E) as [Hn (m & Em & Ep)]. split; [|by exists m]. intros Ho. apply Hn.
    apply Huse; [by exists k, m|done].
Qed.

Lemma owned_not_others h r others p : resolver_wf h r others -> owned r p -> p ∉ others.
Proof. intros Hwf [k Hk]. apply (wf_buffer _ _ _ Hwf k p Hk). Qed.

Lemma in_use_live h r others p : resolver_wf h r others -> in_use r p -> live h p.
Proof.
  intros Hwf (k & m & Em & Ep). apply (wf_live _ _ _ Hwf).
  destruct (wf_reads _ _ _ Hwf k m p Em Ep) as [?|?]; [right; by exists k|by left].
Qed.

Lemma live_lt h p : live h p -> (p < length h)%nat.
Proof. intros [c Hc]. by apply lookup_lt_Some in Hc. Qed.

Lemma live_app h x p :
  live (h ++ [x]) p <-> live h p \/ (p = length h /\ exists c, x = Some c).
Proof.
  unfold live. setoid_rewrite lookup_app_Some. setoid_rewrite list_lookup_singleton_Some. split.
  - intros (c & [?|(Hp & E & ->)]); [left; by eexists|right]. split; [lia|by eexists].
  - intros [(c & ?)|(-> & c & ->)]; exists c; [by left|right]. split; [lia|split; [lia|done]].
Qed.

Lemma resolver_wf_grow h r others x others' :
  resolver_wf h r others ->
  (forall p, p ∈ others' <-> p ∈ others \/ (p = length h /\ exists c, x = Some c)) ->
  resolver_wf (h ++ [x]) r others'.
Proof.
  intros Hwf Ho. apply (resolver_wf_heap h _ r others); [done| |].
  - intros p Hp. pose proof (live_lt _ _ (in_use_live _ _ _ _ Hwf Hp)). split.
    + by rewrite lookup_app_l.
    + rewrite Ho. split; [intros [?|[-> _]]; [done|lia]|by left].
  - intros p. rewrite live_app, Ho, (wf_live _ _ _ Hwf). tauto.
Qed.

Lemma live_insert h q x p :
  (q < length h)%nat ->
  live (<[q := x]> h) p <-> (p = q /\ exists c, x = Some c) \/ (p <> q /\ live h p).
Proof.
  intros Hq. unfold live. destruct (decide (p = q)) as [->|Hn].
  - rewrite list_lookup_insert_eq by done. split.
    + intros [c [= ->]]. left. split; [done|by eexists].
    + intros [[_ [c ->]]|[? _]]; [by eexists|done].
  - rewrite list_lookup_insert_ne by done. split; [by right|]. intros [[? _]|[_ ?]]; done.
Qed.

(** A buffer of somebody else that no module reads can be deleted or
    overwritten. *)
Lemma resolver_wf_others h r others q x others' :
  resolver_wf h r others -> q ∈ others -> ~ in_use r q ->
  (forall p, p ∈ others' <-> p ∈ others /\ (p <> q \/ exists c, x = Some c)) ->
  resolver_wf (<[q := x]> h) r others'.
Proof.
  intros Hwf Hq Hu Ho. assert (live h q) as Hlq by (apply (wf_live _ _ _ Hwf); by left).
  apply (resolver_wf_heap h _ r others); [done| |].
  - intros p Hp. assert (p <> q) by (intros ->; done). split; [by apply list_lookup_insert_ne|].
    rewrite Ho. tauto.
  - intros p. rewrite live_insert by by apply live_lt. rewrite Ho, (wf_live _ _ _ Hwf).
    destruct (decide (p = q)) as [->|Hn]; [|tauto].
    assert (~ owned r q) by (intros Hw; by apply (owned_not_others _ _ _ _ Hwf Hw)).
    tauto.
Qed.

(** ** The modules *)

Lemma find_value_add {V} (m : list (chars * V)) k v k' :
  sorted m -> find_value m k = None ->
  find_value (insert m k v) k' = if decide (k' = k) then Some v else find_value m k'.
Proof. intros Hs E. rewrite (find_value_insert m k v k' Hs). by rewrite E. Qed.

Lemma find_value_remove {V} (m : list (chars * V)) k k' :
  sorted m ->
  find_value (erase_at m (find m k)) k' = if decide (k' = k) then None else find_value m k'.
Proof.
  intros Hs. destruct (find_value m k) as [v|] eqn:E; [by apply (find_value_erase m k v k')|].
  assert (erase_at m (find m k) = m) as ->; [|by case_decide; subst].
  pose proof (find_end m k) as Hf. rewrite E in Hf. apply Nat.eqb_eq in Hf.
  unfold erase_at. by rewrite Hf, take_ge, drop_ge, app_nil_r by lia.
Qed.

Lemma add_module_modules r k m k' :
  sorted (modules_ r) -> find_value (modules_ r) k = None ->
  find_value (modules_ (add_module r k m)) k' = if decide (k' = k) then Some m else find_value (modules_ r) k'.
Proof. apply find_value_add. Qed.

Lemma remove_module_modules r k k' :
  sorted (modules_ r) ->
  find_value (modules_ (remove_module r k)) k' = if decide (k' = k) then None else find_value (modules_ r) k'.
Proof.
  intros Hs. unfold remove_module. destruct (find_value (modules_ r) k) eqn:E; [by apply find_value_remove|].
  case_decide; by subst.
Qed.

Lemma remove_module_buffers r k : memory_buffers_ (remove_module r k) = memory_buffers_ r.
Proof. unfold remove_module. by destruct (find_value _ _). Qed.

Lemma map_key_idemp code_file : map_key (map_key code_file) = map_key code_file.
Proof. apply c_string_all. unfold map_key, c_string. apply prefix_len_take. Qed.

Lemma add_module_wf h r others k m content :
  resolver_wf h r others -> find_value (modules_ r) k = None -> map_key k = k ->
  module_content h m = Ok content -> module_ok m content ->
  (forall p, reads_from m = Some p -> p ∈ others) ->
  resolver_wf h (add_module r k m) others.
Proof.
  intros [(Hs1 & Hs2 & Hs3) Hc Hkey Hm Hr Hb Hu Hl] Hnone Hself Hcont Hok Hp.
  pose proof (fun k' => add_module_modules r k m k' Hs1 Hnone) as Ef.
  assert (find_value (corrupt_modules_ r) k = None) as Ec.
  { apply eq_None_not_Some. intros (m' & Em & _)%Hc. congruence. }
  split.
  - unfold add_module. split; [by apply insert_sorted|]. split; [|done]. cbn. case_match; [by apply insert_sorted|done].
  - intros k'. setoid_rewrite Ef. unfold add_module. cbn [corrupt_modules_].
    assert (is_Some (find_value (if IsCorrupt m then insert (corrupt_modules_ r) k tt else corrupt_modules_ r) k')
      <-> (k' = k /\ IsCorrupt m = true) \/ is_Some (find_value (corrupt_modules_ r) k')) as ->.
    { destruct (IsCorrupt m); [|naive_solver]. rewrite find_value_add by done.
      case_decide; [|naive_solver]. split; [by left|done]. }
    rewrite Hc. case_decide as Hk; [subst k'|naive_solver]. split.
    + intros [[_ ?]|(m' & ? & _)]; [by exists m|congruence].
    + intros (m' & [= <-] & ?). by left.
  - intros k' m'. rewrite Ef. case_decide as Hd; [by subst|apply Hkey].
  - intros k' m'. rewrite Ef. case_decide; [|apply Hm]. intros [= <-]. by exists content.
  - intros k' m' p. rewrite Ef. case_decide; [|apply Hr]. intros [= <-] E. right. by apply Hp.
  - intros k' p E. destruct (Hb k' p E) as [? (m' & E1 & E2)]. split; [done|]. exists m'. split; [|done].
    rewrite Ef. case_decide; [|done]. subst. congruence.
  - done.
  - done.
Qed.

Lemma remove_module_wf h r others k :
  resolver_wf h r others -> find_value (memory_buffers_ r) k = None ->
  resolver_wf h (remove_module r k) others.
Proof.
  intros [(Hs1 & Hs2 & Hs3) Hc Hkey Hm Hr Hb Hu Hl] Hnone.
  pose proof (fun k' => remove_module_modules r k k' Hs1) as Ef.
  assert (forall k', find_value (corrupt_modules_ (remove_module r k)) k' =
            if decide (k' = k) then None else find_value (corrupt_modules_ r) k') as Ec.
  { intros k'. unfold remove_module. destruct (find_value (modules_ r) k) as [m|] eqn:E; [by apply find_value_remove|].
    case_decide; [subst|done]. apply eq_None_not_Some. intros (m' & ? & _)%Hc. congruence. }
  split; rewrite ?remove_module_buffers.
  - unfold remove_module. case_match; cbn; auto with s2p.
  - intros k'. setoid_rewrite Ef. rewrite Ec. case_decide; [|apply Hc].
    split; [by intros []|by intros (m & [=] & _)].
  - intros k' m. rewrite Ef. case_decide; [done|apply Hkey].
  - intros k' m. rewrite Ef. case_decide; [done|apply Hm].
  - intros k' m p. rewrite Ef. case_decide; [done|apply Hr].
  - intros k' p E. destruct (Hb k' p E) as [? (m' & E1 & E2)]. split; [done|]. exists m'. split; [|done].
    rewrite Ef. case_decide; [|done]. subst. congruence.
  - done.
  - intros p. rewrite Hl. unfold owned. by rewrite remove_module_buffers.
Qed.

(** ** The buffers *)

Definition keep_buffer r (k : chars) (p : nat) : Resolver M :=
  mkResolver (modules_ r) (corrupt_modules_ r) (insert (memory_buffers_ r) k p).

Definition forget_buffer r (k : chars) : Resolver M :=
  mkResolver (modules_ r) (corrupt_modules_ r) (erase_at (memory_buffers_ r) (find (memory_buffers_ r) k)).

(** The buffer of [k] changes hands. *)
Lemma keep_buffer_wf h r others k m p :
  resolver_wf h r others -> find_value (modules_ r) k = Some m -> reads_from m = Some p -> p ∈ others ->
  (forall k' m', find_value (modules_ r) k' = Some m' -> reads_from m' = Some p -> k' = k) ->
  resolver_wf h (keep_buffer r k p) (others ∖ {[p]}).
Proof.
  intros Hwf Em Ep Hin Honly. pose proof Hwf as [(Hs1 & Hs2 & Hs3) Hc Hkey Hm Hr Hb Hu Hl].
  assert (find_value (memory_buffers_ r) k = None) as Hnone.
  { apply eq_None_not_Some. intros [p' E]. destruct (Hb k p' E) as [? (m' & E1 & E2)]. congruence. }
  pose proof (fun k' => find_value_add (memory_buffers_ r) k p k' Hs3 Hnone) as Ef.
  split; try done; unfold keep_buffer; cbn [modules_ memory_buffers_]; auto with s2p.
  - intros k' m' p' Em' Ep'. rewrite Ef. case_decide as Hk; [left; congruence|].
    destruct (Hr k' m' p' Em' Ep') as [?|?]; [by left|right]. apply elem_of_difference. split; [done|].
    intros ->%elem_of_singleton. by apply Hk, (Honly k' m').
  - intros k' p'. rewrite Ef. case_decide as Hk.
    + intros [= <-]. subst k'. split; [set_solver|by exists m].
    + intros E. destruct (Hb k' p' E). split; [set_solver|done].
  - intros k1 k2 p'. rewrite !Ef. repeat case_decide; subst; try done; [| |apply Hu].
    + intros [= <-] E. by destruct (Hb _ _ E).
    + intros E [= <-]. by destruct (Hb _ _ E).
  - intros p'. rewrite Hl, elem_of_difference, elem_of_singleton. unfold owned. cbn [memory_buffers_].
    setoid_rewrite Ef. split.
    + intros [Ho|[k' E]].
      * destruct (decide (p' = p)) as [->|]; [right; exists k; by rewrite decide_True|by left].
      * right. exists k'. rewrite decide_False; [done|]. intros ->. congruence.
    + intros [[? _]|[k' E]]; [by left|]. case_decide; [left; congruence|right; by exists k'].
Qed.

Lemma forget_buffer_wf h r others k p :
  resolver_wf h r others -> find_value (memory_buffers_ r) k = Some p ->
  resolver_wf h (forget_buffer r k) (others ∪ {[p]}).
Proof.
  intros Hwf E. pose proof Hwf as [(Hs1 & Hs2 & Hs3) Hc Hkey Hm Hr Hb Hu Hl].
  pose proof (fun k' => find_value_remove (memory_buffers_ r) k k' Hs3) as Ef.
  split; try done; unfold forget_buffer; cbn [modules_ memory_buffers_]; auto with s2p.
  - intros k' m' p' Em' Ep'. rewrite Ef. destruct (Hr k' m' p' Em' Ep') as [E'|?]; [|set_solver].
    case_decide; [|by left]. right. subst. set_solver.
  - intros k' p'. rewrite Ef. case_decide as Hk; [done|]. intros E'. destruct (Hb k' p' E') as [Hn ?].
    split; [|done]. intros [?| ->%elem_of_singleton]%elem_of_union; [done|]. by apply Hk, (Hu k' k p).
  - intros k1 k2 p'. rewrite !Ef. repeat case_decide; [done..|]. apply Hu.
  - intros p'. rewrite Hl, elem_of_union, elem_of_singleton. unfold owned. cbn [memory_buffers_].
    setoid_rewrite Ef. split.
    + intros [?|[k' E']]; [tauto|]. destruct (decide (k' = k)) as [->|Hn]; [left; right; congruence|].
      right. exists k'. by rewrite decide_False.
    + intros [[?| ->]|[k' E']]; [by left|right; by exists k|]. case_decide; [done|]. right. by exists k'.
Qed.

(** ** Loading *)

Lemma HasModule_find r code_file :
  HasModule r (Some code_file) =
    match find_value (modules_ r) (map_key code_file) with Some _ => true | None => false end.
Proof. done. Qed.

(** What a module can read of the bytes it was loaded from. *)
Definition kept (content : byte_list) : byte_list :=
  if ShouldDeleteMemoryBufferAfterLoadModule then [] else content.

(** What is loaded from the buffer [p], and what it reads. *)
Definition loaded_from (p : nat) (content : byte_list) (size : Z) (m : M) : Prop :=
  exists loaded content', load_new_module (Some p) content size = Ok (loaded, m, content') /\
    if ShouldDeleteMemoryBufferAfterLoadModule then module_ok m []
    else content' = content /\ reads_from m = Some p /\ module_ok m content.

Lemma LoadModuleUsingMemoryBuffer_spec h r others code_file p size content :
  resolver_wf h r others -> p ∈ others -> h !! p = Some (Some content) -> loadable content size ->
  find_value (modules_ r) (map_key code_file) = None ->
  exists m content', loaded_from p content size m /\
    (ShouldDeleteMemoryBufferAfterLoadModule = false -> content' = content) /\
    module_content (<[p := Some content']> h) m = Ok (kept content) /\
    LoadModuleUsingMemoryBuffer h r (Some code_file) (Some p) size =
      Ok (true, <[p := Some content']> h, add_module r (map_key code_file) m) /\
    resolver_wf (<[p := Some content']> h) (add_module r (map_key code_file) m) others.
Proof.
  intros Hwf Hp Hh Hl Hnone.
  destruct (load_new_module_ok p content size Hl) as (loaded & m & content' & E & Hok & Hd & Hk).
  exists m, content'. unfold LoadModuleUsingMemoryBuffer. rewrite HasModule_find, Hnone.
  unfold buffer_content. rewrite Hh. cbn [obind]. rewrite E. cbn [obind].
  assert (negb loaded && negb (IsCorrupt m) = false) as ->.
  { by destruct loaded, (IsCorrupt m). }
  assert (loaded_from p content size m) as Hfrom.
  { exists loaded, content'. split; [done|]. destruct ShouldDeleteMemoryBufferAfterLoadModule; auto. }
  split; [done|]. split; [by intros (? & _)%Hk|]. unfold kept, module_content at 1, buffer_content.
  destruct ShouldDeleteMemoryBufferAfterLoadModule eqn:Esd.
  - split; [by rewrite deleted_not_read|]. split; [done|].
    apply (add_module_wf _ _ _ _ _ []); [|done|by apply map_key_idemp| |by apply Hd|].
    + apply (resolver_wf_others h r others p); [done..| |].
      * intros (k' & m' & _ & Er). by rewrite deleted_not_read in Er.
      * intros q. split; [|tauto]. intros ?. split; [done|right; by eexists].
    + unfold module_content. by rewrite deleted_not_read.
    + intros q. by rewrite deleted_not_read.
  - destruct (Hk eq_refl) as (-> & Er & Hm). rewrite list_insert_id by done.
    split; [by rewrite Er, Hh|]. split; [done|]. apply (add_module_wf _ _ _ _ _ content); try done; [by apply map_key_idemp|..].
    + unfold module_content, buffer_content. by rewrite Er, Hh.
    + intros q. rewrite Er. by intros [= <-].
Qed.

(** Loading from a buffer of the resolver's own, which is then kept for the
    module or deleted. *)
Lemma load_own_buffer_spec h r others code_file p size content :
  resolver_wf h r others -> p ∈ others -> ~ in_use r p -> h !! p = Some (Some content) ->
  loadable content size -> find_value (modules_ r) (map_key code_file) = None ->
  exists h' r' m, load_own_buffer h r code_file p size = Ok (true, h', r') /\
    resolver_wf h' r' (others ∖ {[p]}) /\
    (forall q, q <> p -> h' !! q = h !! q) /\ length h' = length h /\
    loaded_from p content size m /\ module_content h' m = Ok (kept content) /\
    forall k, find_value (modules_ r') k =
      if decide (k = map_key code_file) then Some m else find_value (modules_ r) k.
Proof.
  intros Hwf Hp Hnu Hh Hl Hnone.
  destruct (LoadModuleUsingMemoryBuffer_spec h r others code_file p size content)
    as (m & content' & Hfrom & Hc & Hcont & E & Hwf'); [done..|].
  unfold load_own_buffer. rewrite E. cbn [obind andb].
  assert (sorted (modules_ r)) as Hs by apply (wf_maps _ _ _ Hwf).
  pose proof (fun k => add_module_modules r (map_key code_file) m k Hs Hnone) as Ef.
  pose proof (lookup_lt_Some _ _ _ Hh) as Hlt. pose proof Hfrom as (ld & c0 & _ & Hfrom').
  destruct ShouldDeleteMemoryBufferAfterLoadModule eqn:Esd; cbn [negb].
  - unfold delete_buffer. rewrite list_lookup_insert_eq by done. cbn [obind].
    eexists _, _, m. split; [done|]. split; [|split; [|split; [by rewrite !length_insert|split; [done|split; [|done]]]]].
    + apply (resolver_wf_others _ _ others p); [done..| |].
      * intros (k' & m' & _ & Er). by rewrite deleted_not_read in Er.
      * intros q. rewrite elem_of_difference, elem_of_singleton. split; [tauto|].
        intros [? [?|[? ?]]]; done.
    + intros q Hq. by rewrite !list_lookup_insert_ne.
    + rewrite <- Hcont. apply module_content_eq. intros q. by rewrite deleted_not_read.
  - destruct Hfrom' as (_ & Er & Hm). rewrite (Hc eq_refl), list_insert_id in * by done.
    eexists _, _, m. split; [done|]. split; [|by split].
    apply (keep_buffer_wf h _ others _ m); [done| |done..|].
    + by rewrite Ef, decide_True.
    + intros k' m'. rewrite Ef. case_decide; [done|]. intros ? ?. destruct Hnu. by exists k', m'.
Qed.

Lemma new_not_in_use h r others : resolver_wf h r others -> ~ in_use r (length h).
Proof. intros Hwf Hu. pose proof (live_lt _ _ (in_use_live _ _ _ _ Hwf Hu)). lia. Qed.

Lemma length_not_others h r others : resolver_wf h r others -> length h ∉ others.
Proof.
  intros Hwf Hi. assert (live h (length h)) as Hl by (apply (wf_live _ _ _ Hwf); by left).
  apply live_lt in Hl. lia.
Qed.

(** A new buffer that is filled, loaded and kept or deleted. *)
Lemma load_new_buffer h r others code_file content size :
  resolver_wf h r others -> loadable content size ->
  find_value (modules_ r) (map_key code_file) = None ->
  exists h' r' m, load_own_buffer (h ++ [Some content]) r code_file (length h) size = Ok (true, h', r') /\
    resolver_wf h' r' others /\ length h' = S (length h) /\
    (forall q, (q < length h)%nat -> h' !! q = h !! q) /\ loaded_from (length h) content size m /\
    module_content h' m = Ok (kept content) /\
    forall k, find_value (modules_ r') k =
      if decide (k = map_key code_file) then Some m else find_value (modules_ r) k.
Proof.
  intros Hwf Hl Hnone. pose proof (length_not_others _ _ _ Hwf) as Hn.
  destruct (load_own_buffer_spec (h ++ [Some content]) r (others ∪ {[length h]}) code_file (length h) size content)
    as (h' & r' & m & E & Hwf' & Hh & Hlen & Hfrom & Hcont & Hf); try done.
  - apply (resolver_wf_grow h r others); [done|]. intros p. rewrite elem_of_union, elem_of_singleton.
    split; intros [?|?]; try tauto. right. split; [done|by eexists].
  - set_solver.
  - by eapply new_not_in_use.
  - by rewrite lookup_app_r, Nat.sub_diag by lia.
  - exists h', r', m. split; [done|]. split; [|split; [by rewrite Hlen, length_app, Nat.add_comm|split; [|done]]].
    + replace others with ((others ∪ {[length h]}) ∖ {[length h]}) by set_solver. done.
    + intros q Hq. rewrite Hh by lia. by rewrite lookup_app_l.
Qed.

(** Writing a new buffer from its start to its end. *)
Lemma write_new_buffer h content bs last :
  length content = (length bs + 1)%nat ->
  (let? h1 := write_buffer (h ++ [Some content]) (length h) 0 bs in
   write_buffer h1 (length h) (Z.of_nat (length bs)) [last]) = Ok (h ++ [Some (bs ++ [last])]).
Proof.
  intros Hl. unfold write_buffer, buffer_content. rewrite lookup_app_r, Nat.sub_diag by lia. cbn [lookup list_lookup obind].
  unfold write_at at 1. rewrite decide_True by lia. cbn [obind].
  change (Z.to_nat 0) with 0%nat. rewrite take_0. cbn [app Nat.add].
  rewrite insert_app_r_alt, Nat.sub_diag by lia. rewrite lookup_app_r, Nat.sub_diag by lia.
  cbn [base.insert list_insert lookup list_lookup obind].
  set (rest := drop (length bs) content). assert (length rest = 1%nat) as Hr.
  { unfold rest. rewrite length_drop. lia. }
  destruct rest as [|c [|? ?]]; try done. unfold write_at. rewrite decide_True by (rewrite length_app; simpl; lia).
  cbn [obind]. rewrite Nat2Z.id, take_app_length. rewrite drop_ge by (rewrite length_app; simpl; lia).
  rewrite insert_app_r_alt, Nat.sub_diag by lia. cbn [base.insert list_insert]. by rewrite app_nil_r.
Qed.

(** ** Reading a symbol file

    A file of less than 2 GiB that can be read to the size [stat] reports. *)
Definition file_content (fs : FileSystem) (map_file : chars) : option byte_list :=
  match stat_size fs map_file, stream fs map_file with
  | Some n, Some f =>
      if decide (0 <= n <= Z.of_nat (length f) /\ n < 2 ^ 31) then Some (take (Z.to_nat n) f) else None
  | _, _ => None
  end.

Lemma ReadSymbolFile_spec fs h map_file :
  match file_content fs map_file with
  | Some data => ReadSymbolFile alloc fs h map_file =
      Ok (Some (length h, Z.of_nat (length data) + 1), h ++ [Some (data ++ [0])])
  | None => exists dead, ReadSymbolFile alloc fs h map_file = Ok (None, h ++ dead) /\ Forall (fun x => x = None) dead
  end.
Proof.
  unfold ReadSymbolFile, file_content, new_buffer. destruct (stat_size fs map_file) as [n|].
  2: { exists []. by rewrite app_nil_r. }
  set (content := alloc _).
  assert (forall c, delete_buffer (h ++ [Some c]) (length h) = Ok (h ++ [None])) as Hdel.
  { intros c. unfold delete_buffer. rewrite lookup_app_r, Nat.sub_diag by lia. cbn [lookup list_lookup].
    by rewrite insert_app_r_alt, Nat.sub_diag by lia. }
  destruct (stream fs map_file) as [f|].
  2: { rewrite Hdel. cbn [obind]. exists [None]. by split; [|repeat constructor]. }
  set (data := take (Z.to_nat n) f).
  assert (Z.of_nat (length data) = Z.min (Z.max 0 n) (Z.of_nat (length f))) as Hdata.
  { unfold data. rewrite length_take. lia. }
  assert (length content = Z.to_nat (n + 1)) as Hcontent by apply Halloc.
  assert (exists c1, write_buffer (h ++ [Some content]) (length h) 0 data = Ok (h ++ [Some c1])) as [c1 Ew].
  { unfold write_buffer, buffer_content. rewrite lookup_app_r, Nat.sub_diag by lia. cbn [lookup list_lookup obind].
    unfold write_at. rewrite decide_True by lia. cbn [obind]. rewrite insert_app_r_alt, Nat.sub_diag by lia. by eexists. }
  rewrite Ew. cbn [obind].
  destruct (decide _) as [[Hn Hlt]|Hbad].
  - assert (Z.of_nat (length data) = n) as Ed by lia.
    rewrite swrap_small by lia. rewrite Ed, Z.eqb_refl. cbn [negb].
    pose proof (write_new_buffer h content data 0 ltac:(lia)) as Hw. rewrite Ew in Hw. cbn [obind] in Hw.
    rewrite Ed in Hw. by rewrite Hw.
  - assert ((swrap 32 (Z.of_nat (length data)) =? n) = false) as ->.
    { apply Z.eqb_neq. intros E. pose proof (swrap_range 32 (Z.of_nat (length data)) ltac:(lia)) as Hr. apply Hbad.
      destruct (Z.ltb_spec (Z.of_nat (length data)) (2 ^ 31)) as [Hlt|Hge]; [rewrite swrap_small in E by lia|]; lia. }
    cbn [negb]. rewrite Hdel. cbn [obind]. exists [None]. by split; [|repeat constructor].
Qed.

(** ** Every operation keeps the invariant

    [r'] has the module [m] that [content] gives, and the buffers of [h] are
    as they were. *)
Definition module_added h r (key : chars) (bytes : byte_list * Z) h' r' : Prop :=
  exists p m, loaded_from p bytes.1 bytes.2 m /\ module_content h' m = Ok (kept bytes.1) /\
    (forall k, find_value (modules_ r') k = if decide (k = key) then Some m else find_value (modules_ r) k) /\
    (forall q, in_use r q -> h' !! q = h !! q).

Definition sized (bytes : byte_list) : byte_list * Z := (bytes, Z.of_nat (length bytes)).

Lemma LoadModuleUsingMapBuffer_spec h r others code_file map_buffer :
  resolver_wf h r others -> loadable (map_buffer ++ [0]) (Z.of_nat (length (map_buffer ++ [0]))) ->
  find_value (modules_ r) (map_key code_file) = None ->
  exists h' r', LoadModuleUsingMapBuffer alloc h r (Some code_file) map_buffer = Ok (true, h', r') /\
    resolver_wf h' r' others /\ module_added h r (map_key code_file) (sized (map_buffer ++ [0])) h' r'.
Proof.
  intros Hwf Hl Hnone. unfold LoadModuleUsingMapBuffer. rewrite HasModule_find, Hnone. unfold new_buffer.
  set (content := alloc _).
  assert (length content = (length map_buffer + 1)%nat) as Hc by (unfold content; rewrite Halloc; lia).
  pose proof (write_new_buffer h content map_buffer 0 Hc) as Hw.
  destruct (write_buffer _ _ 0 map_buffer) as [h1|]; [|done]. cbn [obind] in Hw |- *. rewrite Hw. cbn [obind].
  replace (Z.of_nat (length map_buffer) + 1) with (Z.of_nat (length (map_buffer ++ [0])))
    by (rewrite length_app; simpl; lia).
  destruct (load_new_buffer h r others code_file _ _ Hwf Hl Hnone) as (h' & r' & m & E & Hwf' & _ & Hh & Hfrom & Hcont & Hf).
  exists h', r'. split; [done|]. split; [done|]. exists (length h), m. split_and!; try done.
    intros q Hq. by apply Hh, live_lt, (in_use_live _ _ _ _ Hwf).
Qed.

Lemma LoadModule_spec fs h r others code_file map_file :
  resolver_wf h r others -> find_value (modules_ r) (map_key code_file) = None ->
  match file_content fs map_file with
  | Some data =>
      loadable (data ++ [0]) (Z.of_nat (length (data ++ [0]))) ->
      exists h' r', LoadModule alloc fs h r (Some code_file) map_file = Ok (true, h', r') /\
        resolver_wf h' r' others /\ module_added h r (map_key code_file) (sized (data ++ [0])) h' r'
  | None =>
      exists dead, LoadModule alloc fs h r (Some code_file) map_file = Ok (false, h ++ dead, r) /\
        resolver_wf (h ++ dead) r others
  end.
Proof.
  intros Hwf Hnone. pose proof (ReadSymbolFile_spec fs h map_file) as Hread.
  unfold LoadModule. rewrite HasModule_find, Hnone. destruct (file_content fs map_file) as [data|].
  - intros Hl. rewrite Hread. cbn [obind].
    replace (Z.of_nat (length data) + 1) with (Z.of_nat (length (data ++ [0])))
      by (rewrite length_app; simpl; lia).
    destruct (load_new_buffer h r others code_file _ _ Hwf Hl Hnone) as (h' & r' & m & E & Hwf' & _ & Hh & Hfrom & Hcont & Hf).
    exists h', r'. split; [done|]. split; [done|]. exists (length h), m. split_and!; try done.
    intros q Hq. by apply Hh, live_lt, (in_use_live _ _ _ _ Hwf).
  - destruct Hread as (dead & -> & Hd). exists dead. split; [done|]. clear Hnone. revert h Hwf.
    induction Hd as [|x dead -> _ IH]; intros h Hwf; [by rewrite app_nil_r|].
    change (None :: dead) with ([None] ++ dead). rewrite app_assoc. apply IH.
    apply (resolver_wf_grow h r others); [done|]. intros p. split; [by left|].
    intros [?|(_ & c & ?)]; done.
Qed.

Lemma no_buffers h r others k :
  resolver_wf h r others -> ShouldDeleteMemoryBufferAfterLoadModule = true ->
  find_value (memory_buffers_ r) k = None.
Proof.
  intros Hwf Hd. apply eq_None_not_Some. intros [p E].
  destruct (wf_buffer _ _ _ Hwf k p E) as (_ & m & _ & Er). by rewrite deleted_not_read in Er.
Qed.

Lemma UnloadModule_spec h r others code_file :
  resolver_wf h r others ->
  exists h' r', UnloadModule h r (Some code_file) = Ok (h', r') /\ resolver_wf h' r' others /\
    (forall k, find_value (modules_ r') k =
       if decide (k = map_key code_file) then None else find_value (modules_ r) k) /\
    (forall q, in_use r' q -> h' !! q = h !! q).
Proof.
  intros Hwf. unfold UnloadModule. set (key := map_key code_file). cbv zeta.
  pose proof (fun k => remove_module_modules r key k (proj1 (wf_maps _ _ _ Hwf))) as Ef.
  destruct ShouldDeleteMemoryBufferAfterLoadModule eqn:Esd.
  { eexists _, _. split; [done|]. split; [|done]. apply remove_module_wf; [done|]. by eapply no_buffers. }
  rewrite remove_module_buffers. destruct (find_value (memory_buffers_ r) key) as [p|] eqn:E.
  2: { eexists _, _. split; [done|]. split; [|done]. by apply remove_module_wf. }
  pose proof (forget_buffer_wf h r others key p Hwf E) as Hwf1.
  assert (mkResolver (modules_ (remove_module r key)) (corrupt_modules_ (remove_module r key))
            (erase_at (memory_buffers_ r) (find (memory_buffers_ r) key))
          = remove_module (forget_buffer r key) key) as ->.
  { unfold remove_module, forget_buffer. cbn [modules_]. by destruct (find_value (modules_ r) key). }
  assert (live h p) as [c Hc] by (apply (wf_live _ _ _ Hwf); right; by exists key).
  unfold delete_buffer. rewrite Hc. cbn [obind]. eexists _, _. split; [done|].
  destruct (wf_buffer _ _ _ Hwf key p E) as [Hno _].
  assert (~ in_use (remove_module (forget_buffer r key) key) p) as Hnu.
  { intros (k & m' & Em' & Er'). rewrite remove_module_modules in Em' by apply (wf_maps _ _ _ Hwf).
    case_decide as Hk; [done|]. destruct (wf_reads _ _ _ Hwf k m' p Em' Er') as [E'|?]; [|done].
    by apply Hk, (wf_unshared _ _ _ Hwf k key p). }
  split; [|split].
  - apply (resolver_wf_others h _ (others ∪ {[p]}) p); [|set_solver|done|].
    + apply remove_module_wf; [done|]. unfold forget_buffer. cbn [memory_buffers_].
      rewrite find_value_remove by apply (wf_maps _ _ _ Hwf). by rewrite decide_True.
    + intros q. rewrite elem_of_union, elem_of_singleton. split.
      * intros Hq. split; [by left|]. left. by intros ->.
      * intros [[?| ->] [?|[? ?]]]; done.
  - intros k. rewrite remove_module_modules by apply (wf_maps _ _ _ Hwf). done.
  - intros q Hq. apply list_lookup_insert_ne. by intros ->.
Qed.

Lemma delete_buffers_spec (buffers : list (chars * nat)) : forall h,
  NoDup buffers.*2 -> Forall (live h) buffers.*2 ->
  exists h', delete_buffers buffers h = Ok h' /\ forall p, live h' p <-> live h p /\ p ∉ buffers.*2.
Proof.
  induction buffers as [|[k q] buffers IH]; intros h Hnd Hl; csimpl.
  { exists h. split; [done|]. intros p. split; [|by intros []]. intros ?. split; [done|by intros ?%elem_of_nil]. }
  csimpl in *. apply NoDup_cons in Hnd as [Hq Hnd]. apply Forall_cons in Hl as [[c Hc] Hl].
  unfold delete_buffer. rewrite Hc. cbn [obind]. pose proof (lookup_lt_Some _ _ _ Hc) as Hlt.
  destruct (IH (<[q := None]> h) Hnd) as (h' & E & Hh').
  { rewrite Forall_forall in Hl |- *. intros p Hp. apply live_insert; [done|]. right.
    split; [|by apply Hl]. by intros ->. }
  exists h'. split; [done|]. intros p. rewrite Hh', live_insert, not_elem_of_cons by done. split.
  - intros [[(_ & ? & [=])|[? ?]] ?]. done.
  - intros (? & ? & ?). split; [by right|done].
Qed.

(** The destructor deletes every buffer of the resolver once, and no other. *)
Lemma destroy_spec h r others :
  resolver_wf h r others -> exists h', destroy h r = Ok h' /\ forall p, live h' p <-> p ∈ others.
Proof.
  intros Hwf. pose proof Hwf as [(_ & _ & Hs) _ _ _ _ _ Hu _].
  assert (forall p, p ∈ (memory_buffers_ r).*2 <-> owned r p) as Hown.
  { intros p. rewrite list_elem_of_fmap. split.
    - intros ([k q] & -> & Hq). exists k. by apply find_value_Some.
    - intros [k E]. exists (k, p). split; [done|]. by apply find_value_Some. }
  destruct (delete_buffers_spec (memory_buffers_ r) h) as (h' & E & Hh').
  - apply NoDup_fmap_2_strong; [|by apply sorted_NoDup]. intros [k1 p1] [k2 p2] H1 H2 Ep. simpl in Ep. subst p2.
    f_equal. apply (Hu k1 k2 p1); by apply find_value_Some.
  - apply Forall_forall. intros p Hp%Hown. apply (wf_live _ _ _ Hwf). by right.
  - exists h'. split; [done|]. intros p. rewrite Hh', (wf_live _ _ _ Hwf), Hown. split; [tauto|].
    intros Hp. split; [by left|]. intros Ho. by apply (owned_not_others _ _ _ _ Hwf Ho).
Qed.

Lemma new_resolver_wf h others :
  (forall p, live h p <-> p ∈ others) -> resolver_wf h SourceLineResolverBase others.
Proof.
  intros Hl. split; try done; unfold SourceLineResolverBase; cbn.
  - by repeat split; constructor.
  - intros k. split; [by intros []|by intros (m & [=] & _)].
  - intros p. rewrite Hl. split; [by left|]. intros [?|[k [=]]]; done.
Qed.

(** ** Sequences of calls

    A call of the resolver's owner, and what happens between two calls: the
    owner allocates, fills and deletes buffers of its own, but none that a
    loaded module still reads. *)
Inductive source : Type :=
| FromFile (map_file : chars)
| FromMap (map_buffer : byte_list)
| FromMemory (memory_buffer : nat) (memory_buffer_size : Z).

Inductive call : Type :=
| Load (s : source) (module : option chars)
| Unload (module : option chars).

Context (fs : FileSystem).

Definition run_call (c : call) h r : outcome (bool * Heap * Resolver M) :=
  match c with
  | Load (FromFile map_file) module => LoadModule alloc fs h r module map_file
  | Load (FromMap map_buffer) module => LoadModuleUsingMapBuffer alloc h r module map_buffer
  | Load (FromMemory p size) module => LoadModuleUsingMemoryBuffer h r module (Some p) size
  | Unload module => let? (h, r) := UnloadModule h r module in Ok (true, h, r)
  end.

(** The bytes to be loaded, and the size given for them. *)
Definition source_content h (s : source) : option (byte_list * Z) :=
  match s with
  | FromFile map_file => (fun data => sized (data ++ [0])) <$> file_content fs map_file
  | FromMap map_buffer => Some (sized (map_buffer ++ [0]))
  | FromMemory p size => match h !! p with Some (Some content) => Some (content, size) | _ => None end
  end.

(** What the owner has to see to: the bytes can be loaded, and a buffer that
    is passed is one of its own. *)
Definition permitted h others (c : call) : Prop :=
  match c with
  | Load s _ =>
      (forall content size, source_content h s = Some (content, size) -> loadable content size) /\
      match s with FromMemory p _ => p ∈ others | _ => True end
  | Unload _ => True
  end.

Inductive owner_step r : Heap * gset nat -> Heap * gset nat -> Prop :=
| owner_new h others content :
    owner_step r (h, others) (h ++ [Some content], others ∪ {[length h]})
| owner_fill h others p content :
    p ∈ others -> ~ in_use r p -> owner_step r (h, others) (<[p := Some content]> h, others)
| owner_delete h others p :
    p ∈ others -> ~ in_use r p -> owner_step r (h, others) (<[p := None]> h, others ∖ {[p]}).

Inductive step : Heap * Resolver M * gset nat -> Heap * Resolver M * gset nat -> Prop :=
| step_call c h r others b h' r' :
    permitted h others c -> run_call c h r = Ok (b, h', r') -> step (h, r, others) (h', r', others)
| step_owner h r others h' others' :
    owner_step r (h, others) (h', others') -> step (h, r, others) (h', r, others').

Inductive reachable : Heap * Resolver M * gset nat -> Prop :=
| reachable_new : reachable ([], SourceLineResolverBase, ∅)
| reachable_step s s' : reachable s -> step s s' -> reachable s'.

(** ** The resolver is a map from code files to modules

    The modules with what they read, by key. *)
Abbreviation view := (chars -> option (M * byte_list)).

Definition resolver_view h r : view := fun k =>
  match find_value (modules_ r) k with
  | Some m => match module_content h m with Ok content => Some (m, content) | Undef => None end
  | None => None
  end.

Definition update_view (v : view) (key : chars) (x : option (M * byte_list)) : view := fun k =>
  if decide (k = key) then x else v k.

(** What a call does to the map, and its result; the bytes are those of the
    call's source. *)
Inductive map_call (v : view) (bytes : option (byte_list * Z)) : call -> bool -> view -> Prop :=
| map_load_null s : map_call v bytes (Load s None) false v
| map_load_known s code_file :
    is_Some (v (map_key code_file)) -> map_call v bytes (Load s (Some code_file)) false v
| map_load_unreadable s code_file :
    v (map_key code_file) = None -> bytes = None -> map_call v bytes (Load s (Some code_file)) false v
| map_load s code_file content size p m :
    v (map_key code_file) = None -> bytes = Some (content, size) -> loaded_from p content size m ->
    map_call v bytes (Load s (Some code_file)) true
      (update_view v (map_key code_file) (Some (m, kept content)))
| map_unload_null : map_call v bytes (Unload None) true v
| map_unload code_file :
    map_call v bytes (Unload (Some code_file)) true (update_view v (map_key code_file) None).

Lemma resolver_view_None h r others k :
  resolver_wf h r others -> resolver_view h r k = None <-> find_value (modules_ r) k = None.
Proof.
  intros Hwf. unfold resolver_view. destruct (find_value (modules_ r) k) as [m|] eqn:E; [|done].
  destruct (wf_module _ _ _ Hwf k m E) as (c & -> & _). by split.
Qed.

(** The view depends on the modules and what they read only. *)
Lemma resolver_view_eq h h' r others k m :
  resolver_wf h r others -> find_value (modules_ r) k = Some m ->
  (forall p, in_use r p -> h' !! p = h !! p) -> module_content h' m = module_content h m.
Proof. intros Hwf Em Hh. apply module_content_eq. intros p Ep. apply Hh. by exists k, m. Qed.

Lemma module_added_view h r others key bytes h' r' :
  resolver_wf h r others -> module_added h r key bytes h' r' ->
  exists p m, loaded_from p bytes.1 bytes.2 m /\
    forall k, resolver_view h' r' k = update_view (resolver_view h r) key (Some (m, kept bytes.1)) k.
Proof.
  intros Hwf (p & m & Hfrom & Hcont & Hf & Hh). exists p, m. split; [done|]. intros k.
  unfold resolver_view, update_view. rewrite Hf. case_decide; [by rewrite Hcont|].
  destruct (find_value (modules_ r) k) as [m'|] eqn:E; [|done]. by rewrite (resolver_view_eq h h' r others k m').
Qed.

Definition call_bytes h (c : call) : option (byte_list * Z) :=
  match c with Load s _ => source_content h s | Unload _ => None end.

(** A load into a name that is not taken. *)
Lemma load_call_spec h r others s code_file :
  resolver_wf h r others -> permitted h others (Load s (Some code_file)) ->
  find_value (modules_ r) (map_key code_file) = None ->
  match source_content h s with
  | Some bytes => exists h' r', run_call (Load s (Some code_file)) h r = Ok (true, h', r') /\
      resolver_wf h' r' others /\ module_added h r (map_key code_file) bytes h' r'
  | None => exists h', run_call (Load s (Some code_file)) h r = Ok (false, h', r) /\
      resolver_wf h' r others /\ forall p, in_use r p -> h' !! p = h !! p
  end.
Proof.
  intros Hwf [Hl Hp] Hnone. destruct s as [map_file|map_buffer|p size]; cbn [source_content run_call] in *.
  - pose proof (LoadModule_spec fs h r others code_file map_file Hwf Hnone) as Hs.
    destruct (file_content fs map_file) as [data|]; cbn [fmap option_fmap option_map] in *.
    + apply Hs. by apply Hl.
    + destruct Hs as (dead & E & Hwf'). exists (h ++ dead). split; [done|]. split; [done|].
      intros q Hq. by apply lookup_app_l, live_lt, (in_use_live _ _ _ _ Hwf).
  - apply LoadModuleUsingMapBuffer_spec; [done| |done]. by apply Hl.
  - assert (live h p) as [content Hc] by (apply (wf_live _ _ _ Hwf); by left). rewrite Hc in Hl |- *.
    destruct (LoadModuleUsingMemoryBuffer_spec h r others code_file p size content)
      as (m & c' & Hfrom & Hkeep & Hcont & E & Hwf'); [done..|by apply Hl|done|].
    eexists _, _. split; [done|]. split; [done|]. exists p, m. split; [done|]. split; [done|]. split.
    + intros k. apply add_module_modules; [apply (wf_maps _ _ _ Hwf)|done].
    + intros q (k & m' & Em & Er). destruct ShouldDeleteMemoryBufferAfterLoadModule eqn:Esd.
      * by rewrite deleted_not_read in Er.
      * by rewrite (Hkeep eq_refl), list_insert_id.
Qed.

Lemma call_spec h r others c :
  resolver_wf h r others -> permitted h others c ->
  exists b h' r' v, run_call c h r = Ok (b, h', r') /\ resolver_wf h' r' others /\
    map_call (resolver_view h r) (call_bytes h c) c b v /\ forall k, resolver_view h' r' k = v k.
Proof.
  intros Hwf Hp. destruct c as [s [code_file|]|[code_file|]].
  - pose proof (resolver_view_None h r others (map_key code_file) Hwf) as Hv.
    destruct (find_value (modules_ r) (map_key code_file)) as [m|] eqn:E.
    { exists false, h, r, (resolver_view h r). split; [|split; [done|split; [|done]]].
      - destruct s; cbn [run_call]; unfold LoadModule, LoadModuleUsingMapBuffer, LoadModuleUsingMemoryBuffer;
          by rewrite HasModule_find, E.
      - apply map_load_known. apply not_eq_None_Some. by intros ?%Hv. }
    pose proof (load_call_spec h r others s code_file Hwf Hp E) as Hs. cbn [call_bytes].
    destruct (source_content h s) as [bytes|].
    + destruct Hs as (h' & r' & Er & Hwf' & Hadd). destruct (module_added_view _ _ _ _ _ _ _ Hwf Hadd) as (p & m & Hfrom & Hview).
      exists true, h', r'. eexists. split; [done|]. split; [done|]. split; [|exact Hview].
      destruct bytes as [content size]. eapply map_load; [by apply Hv|done|exact Hfrom].
    + destruct Hs as (h' & Er & Hwf' & Hh). exists false, h', r, (resolver_view h r).
      split; [done|]. split; [done|]. split; [apply map_load_unreadable; [by apply Hv|done]|].
      intros k. unfold resolver_view. destruct (find_value (modules_ r) k) as [m'|] eqn:E'; [|done].
      by rewrite (resolver_view_eq h h' r others k m').
  - exists false, h, r, (resolver_view h r). split; [by destruct s|]. split; [done|]. split; [constructor|done].
  - destruct (UnloadModule_spec h r others code_file Hwf) as (h' & r' & E & Hwf' & Hf & Hh).
    exists true, h', r'. eexists. split; [by cbn [run_call]; rewrite E|]. split; [done|]. split; [constructor|].
    intros k. unfold resolver_view, update_view. rewrite Hf. case_decide as Hk; [done|].
    destruct (find_value (modules_ r) k) as [m|] eqn:Em; [|done].
    rewrite (module_content_eq h h' m); [done|]. intros p Ep. apply Hh.
    exists k, m. split; [by rewrite Hf, decide_False|done].
  - exists true, h, r, (resolver_view h r). split; [done|]. split; [done|]. split; [constructor|done].
Qed.

Lemma owner_step_spec h r others h' others' :
  resolver_wf h r others -> owner_step r (h, others) (h', others') ->
  resolver_wf h' r others' /\ forall k, resolver_view h' r k = resolver_view h r k.
Proof.
  intros Hwf Hs. assert (forall p, in_use r p -> h' !! p = h !! p) as Hh.
  { intros p Hp. inversion Hs; subst.
    - by apply lookup_app_l, live_lt, (in_use_live _ _ _ _ Hwf).
    - apply list_lookup_insert_ne. by intros ->.
    - apply list_lookup_insert_ne. by intros ->. }
  split.
  - inversion Hs; subst.
    + apply (resolver_wf_grow h r others); [done|]. intros p. rewrite elem_of_union, elem_of_singleton.
      split; intros [?|?]; [by left|right; split; [done|by eexists]|by left|right; tauto].
    + apply (resolver_wf_others h r others' p); [done..|]. intros q. split; [|tauto].
      intros ?. split; [done|right; by eexists].
    + apply (resolver_wf_others h r others p); [done..|]. intros q.
      rewrite elem_of_difference, elem_of_singleton. split; [tauto|]. intros [? [?|[? ?]]]; done.
  - intros k. unfold resolver_view. destruct (find_value (modules_ r) k) as [m|] eqn:E; [|done].
    by rewrite (resolver_view_eq h h' r others k m).
Qed.

Lemma reachable_wf s : reachable s -> resolver_wf s.1.1 s.1.2 s.2.
Proof.
  induction 1 as [|s s' _ IH Hs].
  - apply new_resolver_wf. intros p. split; [|by intros ?%elem_of_empty]. by intros [c ?].
  - destruct Hs as [c h r others b h' r' Hp E|h r others h' others' Hs]; cbn [fst snd] in *.
    + destruct (call_spec h r others c IH Hp) as (b' & h2 & r2 & v & E' & Hwf & _). congruence.
    + by eapply owner_step_spec.
Qed.

Lemma questions_view h r others (module : option chars) frame :
  resolver_wf h r others ->
  let named := match module with Some code_file => resolver_view h r (map_key code_file) | None => None end in
  FillSourceLineInfo h r module frame =
    match named with Some (m, content) => module_LookupAddress content m frame | None => Ok frame end /\
  Resolver_FindWindowsFrameInfo h r module frame =
    match named with Some (m, content) => module_FindWindowsFrameInfo content m frame | None => Ok None end /\
  Resolver_FindCFIFrameInfo h r module frame =
    match named with Some (m, content) => module_FindCFIFrameInfo content m frame | None => Ok None end /\
  HasModule r module = bool_decide (is_Some named) /\
  IsModuleCorrupt r module = match named with Some (m, _) => IsCorrupt m | None => false end /\
  match named with Some (m, content) => module_ok m content | None => True end.
Proof.
  intros Hwf. unfold FillSourceLineInfo, Resolver_FindWindowsFrameInfo, Resolver_FindCFIFrameInfo, frame_module.
  destruct module as [code_file|]; [|done]. cbn zeta. unfold HasModule, IsModuleCorrupt, resolver_view.
  set (k := map_key code_file). pose proof (wf_corrupt _ _ _ Hwf k) as Hc.
  destruct (find_value (modules_ r) k) as [m|] eqn:E.
  - destruct (wf_module _ _ _ Hwf k m E) as (content & -> & Hok). cbn [obind]. split_and!; try done.
    destruct (find_value (corrupt_modules_ r) k) as [u|].
    + destruct (proj1 Hc ltac:(by eexists)) as (m' & [= <-] & ->). done.
    + destruct (IsCorrupt m) eqn:Em; [|done]. destruct (proj2 Hc ltac:(by exists m)) as [? [=]].
  - split_and!; try done. destruct (find_value (corrupt_modules_ r) k) as [u|]; [|done].
    destruct (proj1 Hc ltac:(by eexists)) as (m' & [=] & _).
Qed.
End laws.

(** ** Properties *)

(** C4: a resolver is memory safe.  In every state that calls of the resolver
    and steps of its owner lead to, every permitted call and every question
    returns: no buffer is read, written or deleted after its deletion, and no
    assertion fails.  The buffers that loaded modules read are alive, and the
    destructor deletes every buffer of the resolver exactly once and no buffer
    of its owner. *)
Theorem resolver_safe {M : Type} `{ResolverModuleLaws M} (alloc : nat -> byte_list) (fs : FileSystem)
    (h : Heap) (r : Resolver M) (others : gset nat) :
  allocates alloc -> reachable alloc fs (h, r, others) ->
  (forall c, permitted fs h others c -> exists b h' r', run_call alloc fs c h r = Ok (b, h', r')) /\
  (forall module frame, exists frame' info rules,
     FillSourceLineInfo h r module frame = Ok frame' /\
     Resolver_FindWindowsFrameInfo h r module frame = Ok info /\
     Resolver_FindCFIFrameInfo h r module frame = Ok rules) /\
  (forall p, in_use r p -> live h p) /\
  exists h', destroy h r = Ok h' /\ forall p, live h' p <-> p ∈ others.
Proof.
  intros Halloc Hr. pose proof (reachable_wf alloc Halloc fs _ Hr) as Hwf. cbn [fst snd] in Hwf.
  split; [|split; [|split; [|by apply destroy_spec]]].
  - intros c Hc. destruct (call_spec alloc Halloc fs h r others c Hwf Hc) as (b & h' & r' & v & E & _). eauto.
  - intros module frame. destruct (questions_view h r others module frame Hwf) as (-> & -> & -> & _ & _ & Hok).
    destruct (match module with Some _ => _ | None => _ end) as [[m content]|]; [|by eexists _, _, _].
    destruct (module_LookupAddress_ok m content frame Hok) as (f & -> & _).
    destruct (module_FindWindowsFrameInfo_ok m content frame Hok) as [w ->].
    destruct (module_FindCFIFrameInfo_ok m content frame Hok) as [c ->]. by eexists _, _, _.
  - intros p. by eapply in_use_live.
Qed.

(** C5: a resolver is a map from the names of code files to modules.  A load
    adds the module that its bytes give, under the name, if the name is not
    taken and the bytes can be read, and otherwise changes nothing; an unload
    removes the module of the name; nothing its owner does in between changes
    the map.  Every question is passed to the module of the frame, if it has
    one, with what that module reads, and [HasModule] and [IsModuleCorrupt] say
    whether there is a module of the name and whether it is corrupt. *)
Theorem resolver_is_map {M : Type} `{ResolverModuleLaws M} (alloc : nat -> byte_list) (fs : FileSystem)
    (h : Heap) (r : Resolver M) (others : gset nat) :
  allocates alloc -> reachable alloc fs (h, r, others) ->
  (forall c, permitted fs h others c -> exists b h' r' v,
     run_call alloc fs c h r = Ok (b, h', r') /\
     map_call (resolver_view h r) (call_bytes fs h c) c b v /\ forall k, resolver_view h' r' k = v k) /\
  (forall h' others', owner_step r (h, others) (h', others') ->
     forall k, resolver_view h' r k = resolver_view h r k) /\
  forall module frame,
    let named := match module with Some code_file => resolver_view h r (map_key code_file) | None => None end in
    FillSourceLineInfo h r module frame =
      match named with Some (m, content) => module_LookupAddress content m frame | None => Ok frame end /\
    Resolver_FindWindowsFrameInfo h r module frame =
      match named with Some (m, content) => module_FindWindowsFrameInfo content m frame | None => Ok None end /\
    Resolver_FindCFIFrameInfo h r module frame =
      match named with Some (m, content) => module_FindCFIFrameInfo content m frame | None => Ok None end /\
    HasModule r module = bool_decide (is_Some named) /\
    IsModuleCorrupt r module = match named with Some (m, _) => IsCorrupt m | None => false end.
Proof.
  intros Halloc Hr. pose proof (reachable_wf alloc Halloc fs _ Hr) as Hwf. cbn [fst snd] in Hwf.
  split; [|split].
  - intros c Hc. destruct (call_spec alloc Halloc fs h r others c Hwf Hc) as (b & h' & r' & v & E & _ & Hm & Hv).
    by exists b, h', r', v.
  - intros h' others' Hs. by eapply owner_step_spec.
  - intros module frame. destruct (questions_view h r others module frame Hwf) as (? & ? & ? & ? & ? & _). done.
Qed.
