(* ===== verification/ResolverConvert.v ===== *)
(** * The basic and the fast resolver, and the conversion between them
    (processor/basic_source_line_resolver.cc, fast_source_line_resolver.cc,
    module_factory.h, module_serializer.cc)

    The two implementations of [SourceLineResolverBase::Module] meet the
    contract of [ResolverModuleLaws]; [ModuleSerializer] turns the modules of a
    basic resolver, or a symbol file, into modules of a fast one, which gives
    the same answers. *)

From stdpp Require Import gmap.
From S2P Require Import Prelude Memory LibcSupport SimpleSerializer OrderedMap RangeMap ContainedRangeMap StaticMap MapSerializers StaticMaps Tokens CfiFrameInfo CStrings SymbolRecords SymbolModule FastResolver SymbolParser SymbolText SymbolLoad SymbolImage SymbolResolver.
#[local] Open Scope Z_scope.

(** ** The basic resolver

    [BasicModuleFactory] and [BasicSourceLineResolver::Module]; its strings are
    copies, so it reads from no buffer. *)
Definition basic_load (lw : Z) (memory_buffer : option nat) (content : byte_list) (size : Z) :
    outcome (bool * BasicModule * byte_list) :=
  if (size <? 0) || (Z.of_nat (length content) <? size) then Undef
  else
    let n := Z.to_nat size in
    let? (m, functions, buffer) := LoadMapFromMemory_in_place lw new_module (take n content) in
    Ok (true, deref_module functions m, buffer ++ drop n content).

Definition BasicSourceLineResolver (lw : Z) : ResolverModule BasicModule := {|
  load_new_module := basic_load lw;
  IsCorrupt := is_corrupt_;
  reads_from _ := None;
  module_LookupAddress _ := LookupAddress;
  module_FindWindowsFrameInfo _ := FindWindowsFrameInfo;
  module_FindCFIFrameInfo _ := FindCFIFrameInfo;
  ShouldDeleteMemoryBufferAfterLoadModule := true;
|}.

(** ** The fast resolver

    [FastModuleFactory] and [FastSourceLineResolver::Module], with the buffer
    its pointers lead into. *)
Record FastLoaded : Type := mkFastLoaded {
  fast_buffer : option nat;
  fast_module : FastModule;
}.

(** The [StaticMap]s of a new module. *)
Definition new_static_map : StaticMap := mkStaticMap 0 0.

Definition new_fast_module : FastModule :=
  mkFastModule new_static_map new_static_map new_static_map false
    (replicate STACK_INFO_LAST (mkStaticContained 0 0 None new_static_map)) new_static_map new_static_map.

(** [false] for NULL; the size is not used. *)
Definition fast_load (memory_buffer : option nat) (content : byte_list) (size : Z) :
    outcome (bool * FastLoaded * byte_list) :=
  match memory_buffer with
  | None => Ok (false, mkFastLoaded None new_fast_module, content)
  | Some _ =>
      let? fm := FastResolver.LoadMapFromMemory content in
      Ok (true, mkFastLoaded memory_buffer fm, content)
  end.

Definition FastSourceLineResolver : ResolverModule FastLoaded := {|
  load_new_module := fast_load;
  IsCorrupt m := fast_is_corrupt (fast_module m);
  reads_from := fast_buffer;
  module_LookupAddress content m := Fast_LookupAddress content (fast_module m);
  module_FindWindowsFrameInfo content m := Fast_FindWindowsFrameInfo content (fast_module m);
  module_FindCFIFrameInfo content m := Fast_FindCFIFrameInfo content (fast_module m);
  ShouldDeleteMemoryBufferAfterLoadModule := false;
|}.
#[local] Existing Instance FastSourceLineResolver.

(** ** Both meet the contract *)

(** A buffer whose STACK lines go on after their platform. *)
Definition text_loadable (content : byte_list) (size : Z) : Prop :=
  0 <= size <= Z.of_nat (length content) /\
  forall s n c, take (Z.to_nat size) content = s ++ replicate n 0 ++ [c] -> last s <> Some 0 ->
    Forall stack_goes_on (symbol_lines s).

(** What loading leaves, with its pointers to functions followed. *)
Definition basic_loaded (bm : BasicModule) : Prop :=
  exists m heap, bm = deref_module heap m /\ module_loaded (length heap) m /\ Forall function_loaded heap.

Lemma basic_loaded_wf bm : basic_loaded bm -> module_wf bm.
Proof. intros (m & heap & -> & Hm & Hh). by apply deref_module_wf. Qed.

Lemma basic_loaded_serializable bm : basic_loaded bm -> image_fits bm -> module_serializable bm.
Proof. intros (m & heap & -> & Hm & Hh). by apply loaded_serializable. Qed.

(** What a buffer of that kind gives: the module of its text, and an empty
    one for an empty buffer. *)
Lemma basic_load_spec lw p content size :
  0 < lw <= 64 -> text_loadable content size ->
  exists m content', basic_load lw (Some p) content size = Ok (true, m, content') /\ basic_loaded m.
Proof.
  intros Hlw [Hsize Hgo]. unfold basic_load.
  rewrite (proj2 (Z.ltb_ge size 0)), (proj2 (Z.ltb_ge _ size)) by lia. cbn [orb].
  destruct (decide (take (Z.to_nat size) content = [])) as [->|Hne].
  - cbn. eexists _, _. split; [done|].
    exists new_module, []. split; [done|]. split; [exact module_loaded_new|constructor].
  - destruct (buffer_shape _ Hne) as (s & n & c & E & Hl). pose proof (Hgo s n c E Hl) as Hg. rewrite E.
    destruct (load_text_loaded lw s Hlw Hg) as (m & heap & Et & Hm & Hh).
    pose proof (load_buffer lw new_module s n c Hl Hg) as Eb. unfold Basic_LoadMapFromMemory in Eb.
    destruct (LoadMapFromMemory_in_place _ _ _) as [[[m' heap'] buffer]|]; cbn [obind] in Eb |- *; [|congruence].
    eexists _, _. split; [done|]. exists m', heap'. split; [done|]. split; congruence.
Qed.

Definition basic_laws (lw : Z) (Hlw : 0 < lw <= 64) :
  @ResolverModuleLaws BasicModule (BasicSourceLineResolver lw).
Proof.
  refine {| loadable := text_loadable; module_ok m _ := basic_loaded m |}; cbn.
  - intros p content size Hl. destruct (basic_load_spec lw p content size Hlw Hl) as (m & content' & E & Hm).
    exists true, m, content'. done.
  - done.
  - intros m _ frame Hm%basic_loaded_wf. destruct (LookupAddress_spec m frame Hm) as (f & E & _). exists f.
    split; [done|by eapply LookupAddress_instruction].
  - intros m _ frame Hm%basic_loaded_wf. destruct (FindWindowsFrameInfo_spec m frame Hm) as (f & E & _). by exists f.
  - intros m _ frame Hm%basic_loaded_wf. destruct (FindCFIFrameInfo_spec m frame Hm) as (f & E & _). by exists f.
Defined.

(** The serialized form of a module. *)
Definition image_loadable (content : byte_list) : Prop :=
  exists m, module_wf m /\ module_serializable m /\ stored_module m content 0.

Definition image_ok (m : FastLoaded) (content : byte_list) : Prop :=
  exists bm, module_image content bm (fast_module m) /\ module_wf bm /\ module_serializable bm.

#[local] Instance fast_laws : ResolverModuleLaws FastLoaded.
Proof.
  refine {| loadable content _ := image_loadable content; module_ok := image_ok |}; cbn.
  - intros p content size (m & Hwf & Hser & Hst).
    destruct (LoadMapFromMemory_image m Hser (wf_frame_info_count _ Hwf) content Hst) as (fm & E & Himg).
    rewrite E. cbn [obind]. exists true. eexists _, _. split; [done|]. split; [done|]. split; [done|].
    intros _. split; [done|]. split; [done|]. by exists m.
  - done.
  - intros m content frame (bm & Himg & Hwf & Hser). rewrite (Fast_LookupAddress_refines content bm) by done.
    destruct (LookupAddress_spec bm frame Hwf) as (f & E & _). exists f.
    split; [done|by eapply LookupAddress_instruction].
  - intros m content frame (bm & Himg & Hwf & Hser). rewrite (Fast_FindWindowsFrameInfo_refines content bm) by done.
    destruct (FindWindowsFrameInfo_spec bm frame Hwf) as (f & E & _). by exists f.
  - intros m content frame (bm & Himg & Hwf & Hser). rewrite (Fast_FindCFIFrameInfo_refines content bm) by done.
    destruct (FindCFIFrameInfo_spec bm frame Hwf) as (f & E & _). by exists f.
Defined.

(** ** ModuleSerializer *)

Section convert.
Context (lw : Z) (alloc : nat -> byte_list).
Implicit Types (h : Heap) (fast : Resolver FastLoaded).

(** The entry an iterator into [modules_] points to.  The temporary buffer is
    freed before the fast resolver is called. *)
Definition SerializeModuleAndLoadIntoFastResolver (iter : chars * BasicModule) h fast :
    outcome (bool * Heap * Resolver FastLoaded) :=
  let (name, basic_module) := iter in
  let? (symbol_data, size) := Module_Serialize alloc basic_module in
  let? symbol_data_string := read_bytes symbol_data 0 (Z.to_nat size) in
  LoadModuleUsingMapBuffer alloc h fast (Some name) symbol_data_string.

(** The loop; the results are ignored. *)
Fixpoint convert_modules (iter : list (chars * BasicModule)) h fast :
    outcome (Heap * Resolver FastLoaded) :=
  match iter with
  | [] => Ok (h, fast)
  | it :: iter =>
      let? (_, h, fast) := SerializeModuleAndLoadIntoFastResolver it h fast in
      convert_modules iter h fast
  end.

(** NULL resolvers are [None]. *)
Definition ConvertAllModules (basic_resolver : option (Resolver BasicModule)) h
    (fast_resolver : option (Resolver FastLoaded)) : outcome (Heap * option (Resolver FastLoaded)) :=
  match basic_resolver, fast_resolver with
  | Some basic, Some fast =>
      let? (h, fast) := convert_modules (modules_ basic) h fast in Ok (h, Some fast)
  | _, _ => Ok (h, fast_resolver)
  end.

Definition ConvertOneModule (moduleid : chars) (basic_resolver : option (Resolver BasicModule)) h
    (fast_resolver : option (Resolver FastLoaded)) :
    outcome (bool * Heap * option (Resolver FastLoaded)) :=
  match basic_resolver, fast_resolver with
  | Some basic, Some fast =>
      match modules_ basic !! OrderedMap.find (modules_ basic) (map_key moduleid) with
      | None => Ok (false, h, fast_resolver)
      | Some iter =>
          let? (loaded, h, fast) := SerializeModuleAndLoadIntoFastResolver iter h fast in
          Ok (loaded, h, Some fast)
      end
  | _, _ => Ok (false, h, fast_resolver)
  end.

(** The buffer and its size; [LoadMapFromMemory] never returns [false]. *)
Definition SerializeSymbolFileData (symbol_data : chars) : outcome (byte_list * Z) :=
  let buffer := symbol_data ++ [0] in
  let? (m, functions) := Basic_LoadMapFromMemory lw new_module buffer in
  Module_Serialize alloc (deref_module functions m).
End convert.

(** ** The conversion keeps the answers *)

Section convert_spec.
Context (alloc : nat -> byte_list) (Halloc : allocates alloc).
Implicit Types (h : Heap) (fast : Resolver FastLoaded) (others : gset nat).

(** A module of the basic resolver and what was made of it. *)
Definition converted (m : BasicModule) (x : FastLoaded * byte_list) : Prop :=
  module_wf m /\ module_serializable m /\ module_image x.2 m (fast_module x.1).

(** Loading an image that was made of [m]. *)
Lemma load_image_spec name m buf h fast others :
  module_wf m -> module_serializable m -> (forall rest, stored_module m (buf ++ rest) 0) ->
  resolver_wf h fast others -> resolver_view h fast (map_key name) = None ->
  exists h' fast' x, LoadModuleUsingMapBuffer alloc h fast (Some name) buf = Ok (true, h', fast') /\
    resolver_wf h' fast' others /\ converted m x /\
    forall k, resolver_view h' fast' k = update_view (resolver_view h fast) (map_key name) (Some x) k.
Proof.
  intros Hwf Hser Hst Hf Hd%(resolver_view_None _ _ _ _ Hf).
  destruct (LoadModuleUsingMapBuffer_spec alloc Halloc h fast others name buf) as (h' & fast' & E & Hf' & Hadd);
    [done|by exists m|done|].
  destruct (module_added_view _ _ _ _ _ _ _ Hf Hadd) as (p & fm & Hfrom & Hview).
  exists h', fast', (fm, buf ++ [0]). split; [done|]. split; [done|]. split; [|exact Hview].
  split; [done|]. split; [done|]. destruct Hfrom as (ld & c & El & _). cbn in El |- *.
  destruct (LoadMapFromMemory_image m Hser (wf_frame_info_count _ Hwf) (buf ++ [0])) as (fm' & E' & Himg);
    [apply Hst|].
  rewrite E' in El. cbn [obind] in El. by injection El as _ <- _.
Qed.

Lemma converted_module_spec name m h fast others :
  module_wf m -> module_serializable m -> map_key name = name -> resolver_wf h fast others ->
  exists b h' fast', SerializeModuleAndLoadIntoFastResolver alloc (name, m) h fast = Ok (b, h', fast') /\
    resolver_wf h' fast' others /\
    if decide (resolver_view h fast name = None) then
      b = true /\ exists x, converted m x /\
        forall k, resolver_view h' fast' k = update_view (resolver_view h fast) name (Some x) k
    else b = false /\ forall k, resolver_view h' fast' k = resolver_view h fast k.
Proof.
  intros Hwf Hser Hkey Hf. pose proof (wf_frame_info_count _ Hwf) as Hc.
  destruct (Module_Serialize_spec m Hser Hc alloc Halloc) as (buf & E1 & E2 & Hst).
  unfold SerializeModuleAndLoadIntoFastResolver. rewrite E1. cbn [obind]. rewrite <- E2, Nat2Z.id.
  pose proof (read_bytes_app [] buf [] 0 (length buf) eq_refl eq_refl) as Er.
  rewrite app_nil_r in Er. cbn [app] in Er. rewrite Er. cbn [obind].
  pose proof (resolver_view_None h fast others name Hf) as Hv.
  case_decide as Hd.
  - rewrite <- Hkey in Hd. destruct (load_image_spec name m buf h fast others) as (h' & fast' & x & E & Hf' & Hx & Hview); [done..|].
    rewrite Hkey in Hview. exists true, h', fast'. split; [done|]. split; [done|]. split; [done|]. by exists x.
  - exists false, h, fast. unfold LoadModuleUsingMapBuffer. rewrite HasModule_find, Hkey.
    destruct (find_value (modules_ fast) name); [done|]. exfalso. apply Hd. by apply Hv.
Qed.

Lemma convert_modules_spec others (l : list (chars * BasicModule)) : forall h fast,
  NoDup l.*1 -> Forall (fun p => map_key p.1 = p.1 /\ module_wf p.2 /\ module_serializable p.2) l ->
  resolver_wf h fast others ->
  exists h' fast', convert_modules alloc l h fast = Ok (h', fast') /\ resolver_wf h' fast' others /\
    forall k, match resolver_view h fast k with
    | Some x => resolver_view h' fast' k = Some x
    | None =>
        (exists m x, (k, m) ∈ l /\ converted m x /\ resolver_view h' fast' k = Some x) \/
        (k ∉ l.*1 /\ resolver_view h' fast' k = None)
    end.
Proof.
  induction l as [|[name m] l IH]; intros h fast Hnd Hl Hf.
  { exists h, fast. split; [done|]. split; [done|]. intros k.
    destruct (resolver_view h fast k); [done|]. right. split; [apply not_elem_of_nil|done]. }
  rewrite fmap_cons in Hnd |- *. cbn [fst snd convert_modules] in *.
  apply NoDup_cons in Hnd as [Hname Hnd]. apply Forall_cons in Hl as [(Hkey & Hwf & Hser) Hl].
  cbn [fst snd] in Hkey, Hwf, Hser.
  destruct (converted_module_spec name m h fast others Hwf Hser Hkey Hf) as (b & h1 & fast1 & E & Hf1 & Hv1).
  rewrite E. cbn [obind]. destruct (IH h1 fast1 Hnd Hl Hf1) as (h' & fast' & E' & Hf' & Hv).
  exists h', fast'. split; [done|]. split; [done|]. intros k. specialize (Hv k).
  case_decide as Hd; destruct Hv1 as [_ Hv1].
  - destruct Hv1 as (x & Hx & Hv1). rewrite Hv1 in Hv. unfold update_view in Hv.
    case_decide as Hk.
    + subst k. rewrite Hd. left. exists m, x. split; [apply elem_of_cons; by left|done].
    + destruct (resolver_view h fast k); [done|]. rewrite not_elem_of_cons.
      destruct Hv as [(m' & x' & Hin & ?)|[? ?]]; [left|by right].
      exists m', x'. split; [by apply elem_of_cons; right|done].
  - rewrite Hv1 in Hv. destruct (resolver_view h fast k) eqn:Ek; [done|]. rewrite not_elem_of_cons.
    destruct Hv as [(m' & x' & Hin & ?)|[? ?]]; [left|right].
    + exists m', x'. split; [by apply elem_of_cons; right|done].
    + split; [|done]. split; [|done]. intros ->. done.
Qed.
End convert_spec.

(** Two resolvers say the same about a module. *)
Definition same_answers {M1 M2 : Type} `{ResolverModule M1, ResolverModule M2}
    (h1 : Heap) (r1 : Resolver M1) (h2 : Heap) (r2 : Resolver M2) (module : option chars) : Prop :=
  HasModule r1 module = HasModule r2 module /\
  IsModuleCorrupt r1 module = IsModuleCorrupt r2 module /\
  forall frame,
    FillSourceLineInfo h1 r1 module frame = FillSourceLineInfo h2 r2 module frame /\
    Resolver_FindWindowsFrameInfo h1 r1 module frame = Resolver_FindWindowsFrameInfo h2 r2 module frame /\
    Resolver_FindCFIFrameInfo h1 r1 module frame = Resolver_FindCFIFrameInfo h2 r2 module frame.

Lemma named_answers {M} `{ResolverModuleLaws M} h (r : Resolver M) others (module : option chars) :
  resolver_wf h r others ->
  let named := match module with Some code_file => resolver_view h r (map_key code_file) | None => None end in
  HasModule r module = bool_decide (is_Some named) /\
  IsModuleCorrupt r module = match named with Some (m, _) => IsCorrupt m | None => false end.
Proof.
  intros Hwf. by destruct (questions_view h r others module (mkStackFrame 0 0 [] 0 [] 0 0) Hwf) as (_ & _ & _ & ? & ? & _).
Qed.

Lemma same_view_answers {M} `{ResolverModuleLaws M} h1 (r1 : Resolver M) o1 h2 (r2 : Resolver M) o2 code_file :
  resolver_wf h1 r1 o1 -> resolver_wf h2 r2 o2 ->
  resolver_view h1 r1 (map_key code_file) = resolver_view h2 r2 (map_key code_file) ->
  same_answers h1 r1 h2 r2 (Some code_file).
Proof.
  intros H1 H2 E. destruct (named_answers h1 r1 o1 (Some code_file) H1) as [E1 E2].
  destruct (named_answers h2 r2 o2 (Some code_file) H2) as [E3 E4]. cbv zeta in *.
  split; [by rewrite E1, E3, E|]. split; [by rewrite E2, E4, E|]. intros frame.
  destruct (questions_view h1 r1 o1 (Some code_file) frame H1) as (-> & -> & -> & _).
  destruct (questions_view h2 r2 o2 (Some code_file) frame H2) as (-> & -> & -> & _). by rewrite E.
Qed.

Lemma absent_answers {M1 M2} `{ResolverModuleLaws M1} `{ResolverModuleLaws M2}
    h1 (r1 : Resolver M1) o1 h2 (r2 : Resolver M2) o2 code_file :
  resolver_wf h1 r1 o1 -> resolver_wf h2 r2 o2 ->
  resolver_view h1 r1 (map_key code_file) = None -> resolver_view h2 r2 (map_key code_file) = None ->
  same_answers h1 r1 h2 r2 (Some code_file).
Proof.
  intros W1 W2 N1 N2. destruct (named_answers h1 r1 o1 (Some code_file) W1) as [E1 E2].
  destruct (named_answers h2 r2 o2 (Some code_file) W2) as [E3 E4]. cbv zeta in *.
  split; [by rewrite E1, E3, N1, N2|]. split; [by rewrite E2, E4, N1, N2|]. intros frame.
  destruct (questions_view h1 r1 o1 (Some code_file) frame W1) as (-> & -> & -> & _).
  destruct (questions_view h2 r2 o2 (Some code_file) frame W2) as (-> & -> & -> & _). by rewrite N1, N2.
Qed.

Section convert_all.
Context (lw : Z) (Hlw : 0 < lw <= 64) (alloc : nat -> byte_list) (Halloc : allocates alloc).
#[local] Instance basic_class : ResolverModule BasicModule := BasicSourceLineResolver lw.
#[local] Instance basic_contract : ResolverModuleLaws BasicModule := basic_laws lw Hlw.

Lemma basic_view hb (basic : Resolver BasicModule) k :
  resolver_view hb basic k = (fun m => (m, [])) <$> find_value (modules_ basic) k.
Proof. unfold resolver_view. by destruct (find_value (modules_ basic) k). Qed.

Lemma converted_answers hb (basic : Resolver BasicModule) ob h fast others (module : option chars) m x :
  resolver_wf hb basic ob -> resolver_wf h fast others ->
  match module with Some code_file => resolver_view hb basic (map_key code_file) | None => None end = Some (m, []) ->
  match module with Some code_file => resolver_view h fast (map_key code_file) | None => None end = Some x ->
  converted m x -> same_answers h fast hb basic module.
Proof.
  intros Hb Hf Eb Ef (Hwf & Hser & Himg). destruct x as [fm content].
  unfold same_answers. pose proof (questions_view hb basic ob module) as Qb.
  pose proof (questions_view h fast others module) as Qf. cbv zeta in Qb, Qf. rewrite Eb in Qb. rewrite Ef in Qf.
  destruct (named_answers hb basic ob module Hb) as [-> ->].
  destruct (named_answers h fast others module Hf) as [-> ->]. rewrite Eb, Ef.
  split; [done|]. split; [apply (img_corrupt _ _ _ Himg)|]. intros frame.
  pose proof (Qb frame Hb) as (-> & -> & -> & _). pose proof (Qf frame Hf) as (-> & -> & -> & _).
  split; [|split].
  - by apply (Fast_LookupAddress_refines content m).
  - by apply (Fast_FindWindowsFrameInfo_refines content m).
  - by apply (Fast_FindCFIFrameInfo_refines content m).
Qed.

Lemma ConvertAllModules_spec hb (basic : Resolver BasicModule) ob h fast others :
  resolver_wf hb basic ob ->
  (forall k m, find_value (modules_ basic) k = Some m -> image_fits m) ->
  resolver_wf h fast others ->
  exists h' fast', ConvertAllModules alloc (Some basic) h (Some fast) = Ok (h', Some fast') /\
    resolver_wf h' fast' others /\
    forall module, if HasModule fast module then same_answers h' fast' h fast module
                   else same_answers h' fast' hb basic module.
Proof.
  intros Hb Hser Hf. pose proof (proj1 (wf_maps _ _ _ Hb)) as Hs.
  assert (forall k m, (k, m) ∈ modules_ basic <-> find_value (modules_ basic) k = Some m) as Hin.
  { intros k m. symmetry. by apply find_value_Some. }
  destruct (convert_modules_spec alloc Halloc others (modules_ basic) h fast) as (h' & fast' & E & Hf' & Hv).
  - apply NoDup_fmap_2_strong; [|by apply sorted_NoDup]. intros [k1 m1] [k2 m2] H1 H2 Ek. simpl in Ek. subst k2.
    f_equal. by apply (sorted_unique (modules_ basic) k1).
  - apply Forall_forall. intros [k m] Hkm%Hin. cbn [fst snd].
    split; [by apply (wf_key _ _ _ Hb k m)|]. destruct (wf_module _ _ _ Hb k m Hkm) as (c & _ & Hl).
    split; [by apply basic_loaded_wf|]. apply basic_loaded_serializable; [done|]. by apply (Hser k).
  - done.
  - exists h', fast'. unfold ConvertAllModules. rewrite E. cbn [obind]. split; [done|]. split; [done|].
    intros module. pose proof (questions_view h fast others module (mkStackFrame 0 0 [] 0 [] 0 0) Hf) as (_ & _ & _ & Eh & _).
    destruct module as [code_file|]; [|done]. rewrite Eh. specialize (Hv (map_key code_file)). clear Eh.
    destruct (resolver_view h fast (map_key code_file)) as [x|] eqn:Ex; cbn [is_Some].
    + rewrite bool_decide_eq_true_2 by done. by apply (same_view_answers _ _ others _ _ others); rewrite ?Ex.
    + rewrite bool_decide_eq_false_2 by by intros [].
      destruct Hv as [(m & x & Hkm%Hin & Hc & Ex')|[Hno Ex']].
      * apply (converted_answers hb basic ob h' fast' others _ m x); [done..| |done|done].
        by rewrite basic_view, Hkm.
      * apply (absent_answers _ _ others _ _ ob); [done..|]. rewrite basic_view.
        destruct (find_value (modules_ basic) (map_key code_file)) as [m|] eqn:Em; [|done].
        destruct Hno. apply list_elem_of_fmap. exists (map_key code_file, m). split; [done|]. by apply Hin.
Qed.

(** Converting one module by its name: it has to be in the basic resolver and
    must not be in the fast one. *)
Lemma ConvertOneModule_spec hb (basic : Resolver BasicModule) ob h fast others moduleid :
  resolver_wf hb basic ob ->
  (forall k m, find_value (modules_ basic) k = Some m -> image_fits m) ->
  resolver_wf h fast others ->
  let b := HasModule basic (Some moduleid) && negb (HasModule fast (Some moduleid)) in
  exists h' fast', ConvertOneModule alloc moduleid (Some basic) h (Some fast) = Ok (b, h', Some fast') /\
    resolver_wf h' fast' others /\
    forall code_file, if b && bool_decide (map_key code_file = map_key moduleid)
      then same_answers h' fast' hb basic (Some code_file)
      else same_answers h' fast' h fast (Some code_file).
Proof.
  intros Hb Hser Hf. unfold ConvertOneModule. rewrite HasModule_find.
  destruct (find_value (modules_ basic) (map_key moduleid)) as [m|] eqn:Em; cbn [andb].
  2: { rewrite (proj2 (find_None _ _) Em). exists h, fast. split; [done|]. split; [done|]. intros code_file.
       by apply (same_view_answers _ _ others _ _ others). }
  rewrite (find_lookup _ _ _ (proj1 (wf_maps _ _ _ Hb)) Em).
  destruct (wf_module _ _ _ Hb _ _ Em) as (c & _ & Hl). pose proof (basic_loaded_wf m Hl) as Hwf.
  pose proof (basic_loaded_serializable m Hl (Hser _ _ Em)) as Hms.
  destruct (converted_module_spec alloc Halloc (map_key moduleid) m h fast others) as (b & h' & fast' & E & Hf' & Hv);
    [done|done|by apply map_key_idemp|done|].
  rewrite E. cbn [obind]. destruct (named_answers h fast others (Some moduleid) Hf) as [-> _].
  exists h', fast'. case_decide as Hd.
  - destruct Hv as (-> & x & Hx & Hv). rewrite Hd. rewrite bool_decide_eq_false_2 by by intros [].
    cbn [negb andb]. split; [done|]. split; [done|]. intros code_file. case_bool_decide as Hk.
    + apply (converted_answers hb basic ob h' fast' others _ m x); try done; rewrite Hk.
      * by rewrite basic_view, Em.
      * rewrite Hv. unfold update_view. by rewrite decide_True.
    + apply (same_view_answers _ _ others _ _ others); [done..|]. rewrite Hv. unfold update_view. by rewrite decide_False.
  - destruct Hv as (-> & Hv). rewrite bool_decide_eq_true_2 by by apply not_eq_None_Some.
    cbn [negb andb]. split; [done|]. split; [done|]. intros code_file.
    by apply (same_view_answers _ _ others _ _ others).
Qed.
End convert_all.

(** ** A symbol file, by way of its image *)

Lemma image_answers alloc name m buf h fast others :
  allocates alloc -> module_wf m -> module_serializable m -> (forall rest, stored_module m (buf ++ rest) 0) ->
  resolver_wf h fast others -> HasModule fast (Some name) = false ->
  exists h' fast', LoadModuleUsingMapBuffer alloc h fast (Some name) buf = Ok (true, h', fast') /\
    resolver_wf h' fast' others /\ IsModuleCorrupt fast' (Some name) = is_corrupt_ m /\
    forall frame,
      FillSourceLineInfo h' fast' (Some name) frame = LookupAddress m frame /\
      Resolver_FindWindowsFrameInfo h' fast' (Some name) frame = FindWindowsFrameInfo m frame /\
      Resolver_FindCFIFrameInfo h' fast' (Some name) frame = FindCFIFrameInfo m frame.
Proof.
  intros Halloc Hwf Hser Hst Hf Hno. rewrite HasModule_find in Hno.
  destruct (find_value (modules_ fast) (map_key name)) eqn:E; [done|].
  destruct (load_image_spec alloc Halloc name m buf h fast others) as (h' & fast' & x & El & Hf' & Hx & Hv);
    [done..|by apply (resolver_view_None _ _ _ _ Hf)|].
  exists h', fast'. split; [done|]. split; [done|]. destruct (named_answers h' fast' others (Some name) Hf') as [_ ->].
  specialize (Hv (map_key name)). unfold update_view in Hv. rewrite decide_True in Hv by done. rewrite Hv.
  destruct x as [fm content]. destruct Hx as (_ & _ & Himg). cbn [fst snd] in Himg.
  split; [apply (img_corrupt _ _ _ Himg)|]. intros frame.
  destruct (questions_view h' fast' others (Some name) frame Hf') as (-> & -> & -> & _). rewrite Hv.
  split; [|split].
  - by apply (Fast_LookupAddress_refines content m).
  - by apply (Fast_FindWindowsFrameInfo_refines content m).
  - by apply (Fast_FindCFIFrameInfo_refines content m).
Qed.

(** ** Properties *)

(** The decomposition of a buffer into its text and what follows is unique. *)
Lemma text_loadable_intro s n c :
  last s <> Some 0 -> Forall stack_goes_on (symbol_lines s) ->
  text_loadable (s ++ replicate n 0 ++ [c]) (Z.of_nat (length (s ++ replicate n 0 ++ [c]))).
Proof.
  intros Hl Hgo. split; [lia|]. intros s' n' c' E Hl'. rewrite Nat2Z.id, firstn_all in E.
  pose proof (last_terminator_text s n c Hl) as L. rewrite E, last_terminator_text in L by done.
  apply app_inj_1 in E as [-> _]; [done|]. by symmetry.
Qed.

Definition no_files : FileSystem := mkFileSystem (fun _ => None) (fun _ => None).

Lemma basic_loaded_from lw Hlw p content size m :
  loaded_from (H0 := basic_laws lw Hlw) p content size m ->
  exists content', basic_load lw (Some 0%nat) content size = Ok (true, m, content').
Proof.
  intros (ld & c & E & _). exists c. cbn in E. unfold basic_load in *. destruct (_ || _); [done|].
  destruct (LoadMapFromMemory_in_place _ _ _) as [[[m' fs] b]|]; cbn [obind] in *; [|done]. congruence.
Qed.

(** A basic resolver that has loaded the example. *)
Lemma example_resolver (Hlw : 0 < 64 <= 64) :
  exists h r m,
    @reachable _ (BasicSourceLineResolver 64) (basic_laws 64 Hlw) example_heap no_files (h, r, ∅) /\
    (forall k, find_value (modules_ r) k = if decide (k = str "main") then Some m else None) /\
    exists content, basic_load 64 (Some 0%nat) (example_text ++ [0]) (Z.of_nat (length (example_text ++ [0])))
      = Ok (true, m, content).
Proof.
  pose (L := basic_laws 64 Hlw).
  assert (text_loadable (example_text ++ [0]) (Z.of_nat (length (example_text ++ [0])))) as Hload.
  { apply (text_loadable_intro example_text 0 0); [by vm_compute|exact example_goes_on]. }
  destruct (LoadModuleUsingMapBuffer_spec (H0 := L) example_heap example_heap_allocates [] SourceLineResolverBase ∅
              (str "main") example_text) as (h & r & E & _ & (p & m & Hfrom & _ & Hf & _)); [|done|done|].
  - apply new_resolver_wf. intros p. split; [|by intros ?%elem_of_empty]. by intros [c ?].
  - exists h, r, m. split; [|split; [exact Hf|]].
    + eapply reachable_step; [apply reachable_new|].
      eapply (step_call _ _ (Load (FromMap example_text) (Some (str "main")))); [|exact E].
      split; [|done]. by intros content size [= <- <-].
    + destruct (basic_loaded_from 64 Hlw _ _ _ _ Hfrom) as (content & E1). exists content.
      unfold sized in E1. cbn [fst snd] in E1. exact E1.
Qed.

Lemma example_image_fits m content :
  basic_load 64 (Some 0%nat) (example_text ++ [0]) (Z.of_nat (length (example_text ++ [0]))) = Ok (true, m, content) ->
  image_fits m.
Proof.
  intros E. apply image_fits_checked.
  assert (match basic_load 64 (Some 0%nat) (example_text ++ [0]) (Z.of_nat (length (example_text ++ [0]))) with
          | Ok (_, m, _) => image_fits_check m
          | Undef => false
          end = true) as Hc by (vm_compute; reflexivity).
  by rewrite E in Hc.
Qed.

Lemma resolver_safe_witness :
  exists h r m,
    @reachable _ (BasicSourceLineResolver 64) (basic_laws 64 ltac:(lia)) example_heap no_files (h, r, ∅) /\
    find_value (modules_ r) (str "main") = Some m /\
    exists h', destroy h r = Ok h' /\ forall p, live h' p <-> p ∈ (∅ : gset nat).
Proof.
  destruct (example_resolver ltac:(lia)) as (h & r & m & Hr & Hf & _). exists h, r, m.
  split; [exact Hr|]. split; [by rewrite Hf, decide_True|].
  apply (resolver_safe example_heap no_files h r ∅ example_heap_allocates Hr).
Defined.

Lemma resolver_is_map_witness :
  exists h r m,
    @reachable _ (BasicSourceLineResolver 64) (basic_laws 64 ltac:(lia)) example_heap no_files (h, r, ∅) /\
    find_value (modules_ r) (str "main") = Some m /\
    forall h' others', owner_step (H := BasicSourceLineResolver 64) r (h, ∅) (h', others') ->
      forall k, resolver_view (H := BasicSourceLineResolver 64) h' r k = resolver_view (H := BasicSourceLineResolver 64) h r k.
Proof.
  destruct (example_resolver ltac:(lia)) as (h & r & m & Hr & Hf & _). exists h, r, m.
  split; [exact Hr|]. split; [by rewrite Hf, decide_True|].
  apply (resolver_is_map example_heap no_files h r ∅ example_heap_allocates Hr).
Defined.

(** C3: converting a basic resolver keeps its answers.  After any calls of the
    two resolvers, [ConvertAllModules] returns, and about every module that the
    fast resolver did not have it then says for every frame what the basic
    resolver says - whether the module is there and corrupt, the source line,
    the Windows frame data and the CFI rules -, while the modules it already had
    answer as before; [ConvertOneModule] does the same for one module, and
    returns [true] exactly when the basic resolver has it and the fast one does
    not.  The image of each module has to stay below 4 GiB. *)
Theorem ConvertAllModules_refinement (lw : Z) (Hlw : 0 < lw <= 64) (alloc : nat -> byte_list)
    (fs : FileSystem) (hb : Heap) (basic : Resolver BasicModule) (ob : gset nat)
    (fast_fs : FileSystem) (h : Heap) (fast : Resolver FastLoaded) (others : gset nat) :
  allocates alloc ->
  @reachable _ (BasicSourceLineResolver lw) (basic_laws lw Hlw) alloc fs (hb, basic, ob) ->
  (forall k m, find_value (modules_ basic) k = Some m -> image_fits m) ->
  reachable alloc fast_fs (h, fast, others) ->
  (exists h' fast', ConvertAllModules alloc (Some basic) h (Some fast) = Ok (h', Some fast') /\
     resolver_wf h' fast' others /\
     forall module, if HasModule fast module then same_answers h' fast' h fast module
       else same_answers (H0 := BasicSourceLineResolver lw) h' fast' hb basic module) /\
  forall moduleid,
    let b := HasModule basic (Some moduleid) && negb (HasModule fast (Some moduleid)) in
    exists h' fast', ConvertOneModule alloc moduleid (Some basic) h (Some fast) = Ok (b, h', Some fast') /\
      resolver_wf h' fast' others /\
      forall code_file, if b && bool_decide (map_key code_file = map_key moduleid)
        then same_answers (H0 := BasicSourceLineResolver lw) h' fast' hb basic (Some code_file)
        else same_answers h' fast' h fast (Some code_file).
Proof.
  intros Halloc Hb Hfit Hf. apply reachable_wf in Hb, Hf; [|done..]. cbn [fst snd] in Hb, Hf.
  split; [by apply (ConvertAllModules_spec lw Hlw alloc Halloc hb basic ob h fast others)|].
  intros moduleid. by apply (ConvertOneModule_spec lw Hlw alloc Halloc hb basic ob h fast others moduleid).
Qed.

Lemma ConvertAllModules_refinement_witness :
  exists hb basic m h' fast',
    find_value (modules_ basic) (str "main") = Some m /\
    ConvertAllModules example_heap (Some basic) [] (Some SourceLineResolverBase) = Ok (h', Some fast') /\
    forall module, same_answers (H0 := BasicSourceLineResolver 64) h' fast' hb basic module.
Proof.
  destruct (example_resolver ltac:(lia)) as (hb & basic & m & Hr & Hf & content & E).
  destruct (ConvertAllModules_refinement 64 ltac:(lia) example_heap no_files hb basic ∅ no_files [] SourceLineResolverBase ∅)
    as [(h' & fast' & Ec & _ & Ha) _].
  - exact example_heap_allocates.
  - exact Hr.
  - intros k m'. rewrite Hf. case_decide; [|done]. intros [= <-]. by apply (example_image_fits m content).
  - apply reachable_new.
  - exists hb, basic, m, h', fast'. split; [by rewrite Hf, decide_True|]. split; [exact Ec|].
    intros [code_file|]; [apply (Ha (Some code_file))|apply (Ha None)].
Defined.

(** A symbol file by way of its image.  [SerializeSymbolFileData] turns the
    text of a symbol file into an image, and a fast resolver that loads the
    image under a new name answers every question about it from the records of
    the text: it says what the basic module loaded from the text says. *)
Theorem SerializeSymbolFileData_functional (lw : Z) (alloc : nat -> byte_list) (s : chars) (n : nat)
    (fs : FileSystem) (h : Heap) (fast : Resolver FastLoaded) (others : gset nat) (code_file : chars) :
  0 < lw <= 64 -> allocates alloc -> last s <> Some 0 -> Forall stack_goes_on (symbol_lines s) ->
  (forall m heap, load_text lw new_module s = Ok (m, heap) -> image_fits (deref_module heap m)) ->
  reachable alloc fs (h, fast, others) -> HasModule fast (Some code_file) = false ->
  exists m heap buf h' fast',
    load_text lw new_module s = Ok (m, heap) /\
    SerializeSymbolFileData lw alloc (s ++ replicate n 0) = Ok (buf, Z.of_nat (length buf)) /\
    LoadModuleUsingMapBuffer alloc h fast (Some code_file) buf = Ok (true, h', fast') /\
    IsModuleCorrupt fast' (Some code_file) = is_corrupt_ m /\
    forall frame,
      FillSourceLineInfo h' fast' (Some code_file) frame = LookupAddress (deref_module heap m) frame /\
      Resolver_FindWindowsFrameInfo h' fast' (Some code_file) frame = FindWindowsFrameInfo (deref_module heap m) frame /\
      Resolver_FindCFIFrameInfo h' fast' (Some code_file) frame = FindCFIFrameInfo (deref_module heap m) frame.
Proof.
  intros Hlw Halloc Hl Hgo Hfit Hf Hno. apply reachable_wf in Hf; [|done]. cbn [fst snd] in Hf.
  destruct (load_text_loaded lw s Hlw Hgo) as (m & heap & E & Hm & Hh).
  set (bm := deref_module heap m) in *.
  assert (basic_loaded bm) as Hbm by by exists m, heap.
  pose proof (basic_loaded_wf bm Hbm) as Hwf.
  pose proof (basic_loaded_serializable bm Hbm (Hfit _ _ E)) as Hser.
  destruct (Module_Serialize_spec bm Hser (wf_frame_info_count _ Hwf) alloc Halloc) as (buf & E1 & E2 & Hst).
  destruct (image_answers alloc code_file bm buf h fast others Halloc Hwf Hser Hst Hf Hno)
    as (h' & fast' & E3 & _ & E4 & Ha).
  exists m, heap, buf, h', fast'. split; [done|]. split; [|split; [done|split; [exact E4|done]]].
  unfold SerializeSymbolFileData. rewrite <- app_assoc, load_buffer, E by done. cbn [obind].
  fold bm. by rewrite E1, E2.
Qed.

Lemma SerializeSymbolFileData_functional_witness :
  exists m heap buf h' fast',
    load_text 64 new_module example_text = Ok (m, heap) /\
    SerializeSymbolFileData 64 example_heap (example_text ++ replicate 3 0) = Ok (buf, Z.of_nat (length buf)) /\
    LoadModuleUsingMapBuffer example_heap [] SourceLineResolverBase (Some (str "a.so")) buf = Ok (true, h', fast') /\
    forall frame,
      FillSourceLineInfo h' fast' (Some (str "a.so")) frame = LookupAddress (deref_module heap m) frame.
Proof.
  destruct (SerializeSymbolFileData_functional 64 example_heap example_text 3 no_files [] SourceLineResolverBase ∅ (str "a.so"))
    as (m & heap & buf & h' & fast' & E1 & E2 & E3 & _ & Ha).
  - lia.
  - exact example_heap_allocates.
  - vm_compute. discriminate.
  - exact example_goes_on.
  - intros m heap E. apply image_fits_checked.
    assert (match load_text 64 new_module example_text with
            | Ok (m, heap) => image_fits_check (deref_module heap m) | Undef => false end = true) as Hc
      by (vm_compute; reflexivity).
    by rewrite E in Hc.
  - apply reachable_new.
  - reflexivity.
  - exists m, heap, buf, h', fast'. split; [exact E1|]. split; [exact E2|]. split; [exact E3|]. apply Ha.
Defined.
