(* ===== verification/CodeModules.v ===== *)
(** * Code modules (processor/basic_code_module.h, basic_code_modules.h, .cc)

    The modules of a process and the lookup of the module at an address.  A
    module never changes once it is shared, so a pointer to one is the object
    itself with its address; [CodeModules] is the interface of code_modules.h,
    whose methods are all const, as a record of its operations. *)

From S2P Require Import Prelude LibcSupport OrderedMap RangeMap Tokens.
#[local] Open Scope Z_scope.

(** [class CodeModule] with the members of [BasicCodeModule]; [self] is the
    address of the object. *)
Record CodeModule : Type := mkCodeModule {
  self : nat;
  base_address : Z;
  size : Z;
  shrink_down_delta : Z;
  code_file : chars;
  code_identifier : chars;
  debug_file : chars;
  debug_identifier : chars;
  version : chars;
  is_unloaded : bool;
}.

#[global] Instance CodeModule_eq_dec : EqDecision CodeModule.
Proof. solve_decision. Defined.

(** [CodeModule::Copy], into a new object. *)
Definition Copy (address : nat) (that : CodeModule) : CodeModule :=
  mkCodeModule address (base_address that) (size that) (shrink_down_delta that) (code_file that)
    (code_identifier that) (debug_file that) (debug_identifier that) (version that) (is_unloaded that).

Definition SetShrinkDownDelta (m : CodeModule) (delta : Z) : CodeModule :=
  mkCodeModule (self m) (base_address m) (size m) delta (code_file m)
    (code_identifier m) (debug_file m) (debug_identifier m) (version m) (is_unloaded m).

(** [class CodeModules]; a module is [None] for NULL. *)
Record CodeModules : Type := mkCodeModules {
  module_count : Z;
  GetModuleForAddress : Z -> option CodeModule;
  GetMainModule : option CodeModule;
  GetModuleAtSequence : Z -> outcome (option CodeModule);
  GetModuleAtIndex : Z -> outcome (option CodeModule);
}.

(** ** BasicCodeModules *)

Abbreviation module_map := (RangeMap (option CodeModule)).

Record BasicCodeModules : Type := mkBasicCodeModules {
  main_address_ : Z;
  modules_map_ : module_map;
  shrunk_range_modules_ : list CodeModule;
}.

(** The first loop of the constructor, from index [i]; the next new object has
    the address [fresh]. *)
Fixpoint store_modules (that : CodeModules) (count : nat) (i : Z) (fresh : nat) (map : module_map) :
    outcome (module_map * nat) :=
  match count with
  | O => Ok (map, fresh)
  | S count =>
      let? found := GetModuleAtIndex that i in
      let? original := of_option found in
      let module := Copy fresh original in
      let? (_, map) := StoreRange 64 None map (base_address module) (size module) (Some module) in
      store_modules that count (i + 1) (S fresh) map
  end.

(** The second loop, which collects the modules whose ranges were shrunk. *)
Fixpoint report_shrunk (that : CodeModules) (map : module_map) (count : nat) (i : Z) (fresh : nat) :
    outcome (list CodeModule * nat) :=
  match count with
  | O => Ok ([], fresh)
  | S count =>
      let? found := GetModuleAtIndex that i in
      let? original := of_option found in
      let module := Copy fresh original in
      let fresh := S fresh in
      match RetrieveRange 64 (map_ map) (wrap 64 (wrap 64 (base_address module + size module) - 1)) with
      | Some r =>
          if 0 <? out_delta r then
            let? module := of_option (out_entry r) in
            let shrunk := SetShrinkDownDelta (Copy fresh module) (out_delta r) in
            let? (rest, fresh) := report_shrunk that map count (i + 1) (S fresh) in
            Ok (shrunk :: rest, fresh)
          else report_shrunk that map count (i + 1) fresh
      | None => report_shrunk that map count (i + 1) fresh
      end
  end.

(** The constructor, and the next free address. *)
Definition new_BasicCodeModules (that : CodeModules) (strategy : MergeRangeStrategy) (fresh : nat) :
    outcome (BasicCodeModules * nat) :=
  let map := SetMergeStrategy empty_range_map strategy in
  let main_address := match GetMainModule that with Some main => base_address main | None => 0 end in
  let count := Z.to_nat (module_count that) in
  let? (map, fresh) := store_modules that count 0 fresh map in
  let? (shrunk, fresh) := report_shrunk that map count 0 fresh in
  Ok (mkBasicCodeModules main_address map shrunk, fresh).

Section operations.
Implicit Types (b : BasicCodeModules).

(** The RangeMap counts in [int], the caller in [unsigned int]. *)
Definition Basic_module_count b : Z := wrap 32 (GetCount (map_ (modules_map_ b))).

Definition Basic_GetModuleForAddress b (address : Z) : option CodeModule :=
  match RetrieveRange 64 (map_ (modules_map_ b)) address with
  | Some r => out_entry r
  | None => None
  end.

Definition Basic_GetMainModule b : option CodeModule := Basic_GetModuleForAddress b (main_address_ b).

Definition Basic_GetModuleAtSequence b (sequence : Z) : outcome (option CodeModule) :=
  let? found := RetrieveRangeAtIndex 64 (map_ (modules_map_ b)) (swrap 32 sequence) in
  Ok (match found with Some r => out_entry r | None => None end).

Definition Basic_GetModuleAtIndex b (index : Z) : outcome (option CodeModule) :=
  Basic_GetModuleAtSequence b index.

(** The object as a [CodeModules]. *)
Definition Basic_CodeModules b : CodeModules :=
  mkCodeModules (Basic_module_count b) (Basic_GetModuleForAddress b) (Basic_GetMainModule b)
    (Basic_GetModuleAtSequence b) (Basic_GetModuleAtIndex b).

Definition Basic_Copy b (fresh : nat) : outcome (BasicCodeModules * nat) :=
  new_BasicCodeModules (Basic_CodeModules b) (merge_strategy_ (modules_map_ b)) fresh.
End operations.

(** ** What the constructor relies on *)

(** [that] enumerates the modules [ms]. *)
Record enumerates (that : CodeModules) (ms : list CodeModule) : Prop := {
  enumerates_count : module_count that = Z.of_nat (length ms);
  enumerates_index i m : ms !! i = Some m -> GetModuleAtIndex that (Z.of_nat i) = Ok (Some m);
}.

Definition module_fits (m : CodeModule) : Prop := uint 64 (base_address m) /\ uint 64 (size m).

Definition covers_address (m : CodeModule) (a : Z) : Prop :=
  base_address m <= a < base_address m + size m.

(** The modules [ms] are at the indices from [i]. *)
Definition enumerates_from (that : CodeModules) (i : Z) (ms : list CodeModule) : Prop :=
  forall j m, ms !! j = Some m -> GetModuleAtIndex that (i + Z.of_nat j) = Ok (Some m).

Lemma enumerates_from_cons that i m ms :
  enumerates_from that i (m :: ms) ->
  GetModuleAtIndex that i = Ok (Some m) /\ enumerates_from that (i + 1) ms.
Proof.
  intros H. split; [rewrite <- (H 0%nat m eq_refl); f_equal; lia|].
  intros j m' Hj. rewrite <- (H (S j) m' Hj). f_equal. lia.
Qed.

(** The copies the constructor makes of [ms]. *)
Definition copies (fresh : nat) (ms : list CodeModule) : list CodeModule :=
  imap (fun i m => Copy (fresh + i) m) ms.

Lemma copies_cons fresh m ms : copies fresh (m :: ms) = Copy fresh m :: copies (S fresh) ms.
Proof.
  unfold copies. cbn [imap]. rewrite Nat.add_0_r. f_equal. apply imap_ext. intros i x _. cbn. f_equal. lia.
Qed.

(** Every entry of the map is one of [cs], at addresses it covers. *)
Definition entries_from (map : module_map) (cs : list CodeModule) : Prop :=
  RangeMap.wf 64 (map_ map) /\
  forall a x, entry_at 64 (map_ map) a = Some x -> exists c, x = Some c /\ c ∈ cs /\ covers_address c a.

Lemma store_modules_spec that : forall ms i fresh map cs,
  enumerates_from that i ms -> Forall module_fits ms -> entries_from map cs ->
  exists map', store_modules that (length ms) i fresh map = Ok (map', (fresh + length ms)%nat) /\
    entries_from map' (cs ++ copies fresh ms) /\ merge_strategy_ map' = merge_strategy_ map.
Proof.
  induction ms as [|m ms IH]; intros i fresh map cs Hi Hfit [Hwf Hent]; cbn [store_modules length].
  { exists map. by rewrite Nat.add_0_r, app_nil_r. }
  apply enumerates_from_cons in Hi as [Hm Hi]. apply Forall_cons in Hfit as [[Hb Hs] Hfit].
  rewrite Hm. cbn [obind of_option].
  destruct (StoreRange_cases 64 None map (base_address m) (size m) (Some (Copy fresh m)) Hwf Hb Hs)
    as (ok & m' & E & _ & Hm'). cbn [Copy base_address size]. rewrite E. cbn [obind].
  destruct (IH (i + 1) (S fresh) (mkRangeMap (merge_strategy_ map) m') (cs ++ [Copy fresh m])) as (map' & E' & H' & Hs').
  - done.
  - done.
  - destruct ok; [|subst m'; split; [done|]; intros a x Hx; destruct (Hent a x Hx) as (c & ? & ? & ?); exists c; set_solver].
    destruct Hm' as [Hwf' Ha]. split; [done|]. intros a x. cbn [map_]. rewrite Ha. intros [Hx|[-> Hr]]%entry_after_origin.
    + destruct (Hent a x Hx) as (c & ? & ? & ?). exists c. set_solver.
    + exists (Copy fresh m). split; [done|]. split; [set_solver|done].
  - exists map'. rewrite E'. split; [f_equal; f_equal; lia|]. split; [|done].
    by rewrite copies_cons, (cons_middle (Copy fresh m)), app_assoc.
Qed.

Lemma report_shrunk_spec that map cs : forall ms i fresh,
  enumerates_from that i ms -> entries_from map cs ->
  exists shrunk fresh', report_shrunk that map (length ms) i fresh = Ok (shrunk, fresh') /\
    forall s, s ∈ shrunk -> exists c delta n, c ∈ cs /\ 0 < delta /\ s = SetShrinkDownDelta (Copy n c) delta /\
      exists p, p ∈ map_ map /\ entry_ p.2 = Some c /\ delta_ p.2 = delta.
Proof.
  induction ms as [|m ms IH]; intros i fresh Hi Hent; cbn [report_shrunk length].
  { exists [], fresh. split; [done|]. set_solver. }
  apply enumerates_from_cons in Hi as [Hm Hi]. rewrite Hm. cbn [obind of_option Copy base_address size].
  set (last := wrap 64 _). destruct (RetrieveRange 64 (map_ map) last) as [r|] eqn:Er; [|by apply IH].
  destruct (Z.ltb_spec 0 (out_delta r)) as [Hd|Hd]; [|by apply IH].
  destruct Hent as [Hwf Hent].
  destruct (Hent last (out_entry r)) as (c & Ec & Hc & _); [unfold entry_at; by rewrite Er|].
  rewrite Ec. cbn [of_option obind].
  destruct (IH (i + 1) (S (S fresh)) Hi) as (rest & fresh' & -> & Hrest); [done|]. cbn [obind].
  eexists _, _. split; [done|]. intros s [->|Hs]%elem_of_cons; [|by apply Hrest].
  exists c, (out_delta r), (S fresh). split; [done|]. split; [done|]. split; [done|].
  apply RetrieveRange_spec in Er as (p & Hp & _ & ->); [|done]. by exists p.
Qed.

(** ** Modules that do not overlap *)

Definition valid_module (m : CodeModule) : Prop :=
  0 <= base_address m /\ 0 < size m < 2 ^ 64 /\ base_address m + size m <= 2 ^ 64.

Definition apart (m1 m2 : CodeModule) : Prop :=
  base_address m1 + size m1 <= base_address m2 \/ base_address m2 + size m2 <= base_address m1.

Definition stored_module (c : CodeModule) : Z * Range (option CodeModule) :=
  (base_address c + size c - 1, mkRange (base_address c) 0 (Some c)).

Definition holds_modules (map : module_map) (cs : list CodeModule) : Prop :=
  RangeMap.wf 64 (map_ map) /\ Permutation (map_ map) (stored_module <$> cs).

Lemma store_modules_apart that : forall ms i fresh map cs,
  enumerates_from that i ms -> Forall valid_module ms -> ForallOrdPairs apart ms ->
  holds_modules map cs -> (forall c m, c ∈ cs -> m ∈ ms -> apart c m) ->
  exists map', store_modules that (length ms) i fresh map = Ok (map', (fresh + length ms)%nat) /\
    holds_modules map' (cs ++ copies fresh ms).
Proof.
  induction ms as [|m ms IH]; intros i fresh map cs Hi Hval Hap [Hwf HP] Hcs; cbn [store_modules length].
  { exists map. by rewrite Nat.add_0_r, app_nil_r. }
  apply enumerates_from_cons in Hi as [Hm Hi]. apply Forall_cons in Hval as [(Hb & Hs & He) Hval].
  inversion Hap as [|? ? Hm' Hap']; subst. rewrite Forall_forall in Hm'.
  rewrite Hm. cbn [obind of_option Copy base_address size].
  destruct (StoreRange_apart 64 None map (base_address m) (size m) (Some (Copy fresh m)) Hwf Hb)
    as (m' & -> & Hwf' & HP'); [split; lia|lia| |].
  { intros p Hp. rewrite HP in Hp. apply list_elem_of_fmap in Hp as (c & -> & Hc).
    specialize (Hcs c m Hc ltac:(set_solver)). unfold apart, stored_module in *. simpl. lia. }
  cbn [obind].
  destruct (IH (i + 1) (S fresh) (mkRangeMap (merge_strategy_ map) m') (cs ++ [Copy fresh m])) as (map' & E' & H').
  - done.
  - done.
  - done.
  - split; [done|]. cbn [map_]. rewrite HP', HP, fmap_app. cbn. by rewrite Permutation_app_comm.
  - intros c x [Hc| ->%list_elem_of_singleton]%elem_of_app Hx; [apply Hcs; set_solver|].
    specialize (Hm' x Hx). done.
  - exists map'. rewrite E'. split; [f_equal; f_equal; lia|].
    by rewrite copies_cons, (cons_middle (Copy fresh m)), app_assoc.
Qed.

Lemma holds_modules_lookup map cs a c :
  holds_modules map cs ->
  (match RetrieveRange 64 (map_ map) a with Some r => out_entry r | None => None end) = Some c <->
  c ∈ cs /\ covers_address c a.
Proof.
  intros [Hwf HP]. unfold covers_address. split.
  - destruct (RetrieveRange 64 (map_ map) a) as [r|] eqn:Er; [|done]. intros Ec.
    apply RetrieveRange_spec in Er as (p & Hp & Ha & ->); [|done].
    rewrite HP in Hp. apply list_elem_of_fmap in Hp as (c' & -> & Hc). cbn in Ec, Ha. simplify_eq. split; [done|lia].
  - intros [Hc Ha]. assert (RetrieveRange 64 (map_ map) a = Some (retrieved 64 (stored_module c))) as ->; [|done].
    apply RetrieveRange_spec; [done|]. exists (stored_module c). split; [|split; [cbn; lia|done]].
    rewrite HP. apply list_elem_of_fmap. by exists c.
Qed.

Lemma report_shrunk_none that map cs : forall ms i fresh,
  enumerates_from that i ms -> holds_modules map cs ->
  exists fresh', report_shrunk that map (length ms) i fresh = Ok ([], fresh').
Proof.
  induction ms as [|m ms IH]; intros i fresh Hi Hh; cbn [report_shrunk length]; [by eexists|].
  apply enumerates_from_cons in Hi as [Hm Hi]. rewrite Hm. cbn [obind of_option].
  destruct (RetrieveRange 64 (map_ map) _) as [r|] eqn:Er; [|by apply IH].
  assert (out_delta r = 0) as ->; [|by apply IH]. destruct Hh as [Hwf HP].
  apply RetrieveRange_spec in Er as (p & Hp & _ & ->); [|done].
  rewrite HP in Hp. by apply list_elem_of_fmap in Hp as (c & -> & _).
Qed.

Lemma new_map_empty strategy : holds_modules (SetMergeStrategy empty_range_map strategy) [].
Proof. split; [apply RangeMap.wf_nil|done]. Qed.

Lemma enumerates_count_nat that ms : enumerates that ms -> Z.to_nat (module_count that) = length ms.
Proof. intros H. rewrite (enumerates_count _ _ H). lia. Qed.

Lemma enumerates_from_0 that ms : enumerates that ms -> enumerates_from that 0 ms.
Proof. intros H j m Hj. rewrite Z.add_0_l. by apply (enumerates_index _ _ H). Qed.

(** ** Properties *)

(** The constructor of [BasicCodeModules] returns for every list of modules
    and every merge strategy, and what [GetModuleForAddress] then finds at an
    address is a copy of one of the modules, whose own range has the address.
    When the modules do not overlap the converse holds too: the lookup finds
    exactly the copy of the module that covers the address, whatever the
    strategy, and no range is reported as shrunk. *)
Theorem BasicCodeModules_functional that ms strategy fresh :
  enumerates that ms -> Forall module_fits ms ->
  exists b fresh', new_BasicCodeModules that strategy fresh = Ok (b, fresh') /\
    (forall a c, Basic_GetModuleForAddress b a = Some c -> c ∈ copies fresh ms /\ covers_address c a) /\
    (Forall valid_module ms -> ForallOrdPairs apart ms ->
       shrunk_range_modules_ b = [] /\
       forall a c, Basic_GetModuleForAddress b a = Some c <-> c ∈ copies fresh ms /\ covers_address c a).
Proof.
  intros Hms Hfit. pose proof (enumerates_from_0 _ _ Hms) as Hi.
  unfold new_BasicCodeModules. rewrite (enumerates_count_nat _ _ Hms).
  destruct (store_modules_spec that ms 0 fresh (SetMergeStrategy empty_range_map strategy) [] Hi Hfit)
    as (map & E & Hent & _); [split; [apply RangeMap.wf_nil|done]|].
  rewrite E. cbn [obind]. cbn [app] in Hent.
  destruct (report_shrunk_spec that map _ ms 0 (fresh + length ms) Hi Hent) as (shrunk & fresh' & E' & _).
  rewrite E'. cbn [obind]. eexists _, _. split; [done|]. cbn [modules_map_ shrunk_range_modules_]. split.
  - intros a c. unfold Basic_GetModuleForAddress. cbn [modules_map_].
    destruct (RetrieveRange 64 (map_ map) a) as [r|] eqn:Er; [|done]. intros Ec.
    destruct Hent as [_ Hent]. destruct (Hent a (out_entry r)) as (c' & Ec' & ?); [unfold entry_at; by rewrite Er|].
    congruence.
  - intros Hval Hap.
    destruct (store_modules_apart that ms 0 fresh _ [] Hi Hval Hap (new_map_empty strategy)) as (map2 & E2 & Hh);
      [set_solver|]. rewrite E in E2. injection E2 as <-. split.
    + destruct (report_shrunk_none that map _ ms 0 (fresh + length ms) Hi Hh) as [f Ef]. congruence.
    + intros a c. by apply holds_modules_lookup.
Qed.

Definition example_code_module (address : nat) (base sz : Z) (name : chars) : CodeModule :=
  mkCodeModule address base sz 0 name [] name (str "000") [] false.

Definition example_list : list CodeModule :=
  [example_code_module 1 4096 4096 (str "app"); example_code_module 2 65536 100 (str "lib.so")].

(** A [CodeModules] that only enumerates. *)
Definition listed_modules (ms : list CodeModule) : CodeModules :=
  mkCodeModules (Z.of_nat (length ms)) (fun _ => None) None
    (fun i => Ok (ms !! Z.to_nat i)) (fun i => Ok (ms !! Z.to_nat i)).

Lemma listed_modules_enumerates ms : enumerates (listed_modules ms) ms.
Proof. split; [done|]. intros i m Hi. cbn. by rewrite Nat2Z.id, Hi. Qed.

Lemma BasicCodeModules_functional_witness :
  exists b fresh', new_BasicCodeModules (listed_modules example_list) kTruncateUpper 10 = Ok (b, fresh') /\
    Basic_GetModuleForAddress b 65540 = Some (Copy 11 (example_code_module 2 65536 100 (str "lib.so"))).
Proof.
  destruct (BasicCodeModules_functional (listed_modules example_list) example_list kTruncateUpper 10)
    as (b & fresh' & E & _ & H).
  - apply listed_modules_enumerates.
  - apply Forall_cons. split; [|apply Forall_singleton]; split; unfold uint; cbn; lia.
  - exists b, fresh'. split; [exact E|].
    destruct H as [_ H].
    { apply Forall_cons. split; [|apply Forall_singleton]; unfold valid_module; cbn; lia. }
    { constructor; [apply Forall_singleton; left; cbn; lia|]. by repeat constructor. }
    apply H. split; [by right; left|unfold covers_address; cbn; lia].
Defined.
