(* ===== verification/SymbolSupplier.v ===== *)
(** * Symbol suppliers (google_breakpad/processor/symbol_supplier.h,
    processor/simple_symbol_supplier.h, .cc, processor/pathname_stripper.cc)

    Where the symbols of a module come from.  [SymbolSupplier] is the interface
    and [SymbolSupplierLaws] what its users rely on; [SimpleSymbolSupplier]
    looks in directories laid out by debug file and identifier. *)

From stdpp Require Import gmap.
From S2P Require Import Prelude Memory LibcSupport OrderedMap Tokens CfiFrameInfo SymbolModule SymbolResolver CodeModules.
#[local] Open Scope Z_scope.

(** The members of [SystemInfo] that the stack walkers use. *)
Record SystemInfo : Type := mkSystemInfo { os : chars; os_short : chars }.

Inductive SymbolResult : Type := NOT_FOUND | FOUND | INTERRUPT.

#[global] Instance SymbolResult_eq_dec : EqDecision SymbolResult.
Proof. solve_decision. Defined.

(** [GetCStringSymbolData] has the result, [*symbol_data] and
    [*symbol_data_size]; [*symbol_file] is not used by its callers. *)
Class SymbolSupplier (P : Type) : Type := {
  GetCStringSymbolData : P -> Heap -> option CodeModule -> option SystemInfo ->
    outcome (SymbolResult * option nat * Z * P * Heap);
  FreeSymbolData : P -> Heap -> option CodeModule -> outcome (P * Heap);
}.

(** What a user of a supplier relies on.  [others] are the live buffers that
    are not the resolver's; a supplier adds the ones it allocates and deletes
    only its own.  The data it finds are [served] symbols. *)
Class SymbolSupplierLaws (P : Type) `{SymbolSupplier P} (served : byte_list -> Z -> Prop) : Type := {
  supplier_ok : P -> Heap -> gset nat -> Prop;
  supplier_ok_heap p h h' others :
    supplier_ok p h others -> (forall q, q ∈ others -> live h q -> live h' q) -> supplier_ok p h' others;
  GetCStringSymbolData_ok p h others module info :
    supplier_ok p h others -> exists result ptr size p' added others',
      GetCStringSymbolData p h (Some module) info = Ok (result, ptr, size, p', h ++ added) /\
      supplier_ok p' (h ++ added) others' /\
      (forall q, q ∈ others' <-> q ∈ others \/ (length h <= q)%nat /\ live (h ++ added) q) /\
      (result = FOUND -> exists q content,
         ptr = Some q /\ q ∈ others' /\ (h ++ added) !! q = Some (Some content) /\ served content size);
  FreeSymbolData_ok p h others module :
    supplier_ok p h others -> exists p' h' others',
      FreeSymbolData p h module = Ok (p', h') /\ supplier_ok p' h' others' /\
      ((h' = h /\ others' = others) \/
       exists q, q ∈ others /\ live h q /\ h' = <[q := None]> h /\ others' = others ∖ {[q]});
}.

(** ** PathnameStripper *)

(** [path.rfind(c)], [None] for [npos]. *)
Fixpoint rfind (c : Z) (path : chars) : option nat :=
  match path with
  | [] => None
  | x :: path =>
      match rfind c path with
      | Some i => Some (S i)
      | None => if x =? c then Some 0%nat else None
      end
  end.

Definition File (path : chars) : chars :=
  let slash := rfind 47 path in
  let backslash := rfind 92 path in
  let file_start :=
    match slash, backslash with
    | Some s, None => S s
    | Some s, Some b => if (b <? s)%nat then S s else S b
    | None, Some b => S b
    | None, None => 0%nat
    end in
  drop file_start path.

(** ** SimpleSymbolSupplier *)

Record SimpleSymbolSupplier : Type := mkSimpleSymbolSupplier {
  paths_ : list chars;
  supplier_buffers_ : list (chars * nat);
}.

Definition tolower (c : Z) : Z := if (65 <=? c) && (c <=? 90) then c + 32 else c.

Section simple.
Context (fs : FileSystem).
Implicit Types (s : SimpleSymbolSupplier) (h : Heap).

Definition file_exists (file_name : chars) : bool :=
  match stat_size fs (c_string file_name) with Some _ => true | None => false end.

(** The name of the symbol file of a debug file. *)
Definition symbol_file_name (debug_file_name : chars) : chars :=
  let n := length debug_file_name in
  let debug_file_extension :=
    map tolower (if (4 <? n)%nat then drop (n - 4) debug_file_name else []) in
  (if decide (debug_file_extension = str ".pdb") then take (n - 4) debug_file_name else debug_file_name)
    ++ str ".sym".

(** The result and [*symbol_file]. *)
Definition GetSymbolFileAtPathFromRoot (module : option CodeModule) (root_path : chars) : SymbolResult * chars :=
  match module with
  | None => (NOT_FOUND, [])
  | Some module =>
  let debug_file_name := File (debug_file module) in
  if (length debug_file_name =? 0)%nat then (NOT_FOUND, [])
  else
    let identifier := debug_identifier module in
    if (length identifier =? 0)%nat then (NOT_FOUND, [])
    else
      let path := root_path ++ str "/" ++ debug_file_name ++ str "/" ++ identifier ++ str "/"
                    ++ symbol_file_name debug_file_name in
      if file_exists path then (FOUND, path) else (NOT_FOUND, [])
  end.

Fixpoint GetSymbolFile_loop (paths : list chars) (module : option CodeModule) : SymbolResult * chars :=
  match paths with
  | [] => (NOT_FOUND, [])
  | root_path :: paths =>
      match GetSymbolFileAtPathFromRoot module root_path with
      | (NOT_FOUND, _) => GetSymbolFile_loop paths module
      | found => found
      end
  end.

Definition GetSymbolFile s (module : option CodeModule) : SymbolResult * chars :=
  GetSymbolFile_loop (paths_ s) module.

(** [getline] up to the delimiter [to_char_type(eof())], the byte 0xff; a file
    that cannot be opened reads as the empty text. *)
Definition read_text (symbol_file : chars) : chars :=
  match stream fs (c_string symbol_file) with
  | Some f => take (prefix_len (fun c => negb (c =? 255)) f) f
  | None => []
  end.

(** The result, [*symbol_file] and [*symbol_data]. *)
Definition GetSymbolFile_data s (module : option CodeModule) : SymbolResult * chars * chars :=
  let '(result, symbol_file) := GetSymbolFile s module in
  (result, symbol_file, if decide (result = FOUND) then read_text symbol_file else []).

Definition Simple_GetCStringSymbolData s h (module : option CodeModule) (system_info : option SystemInfo) :
    outcome (SymbolResult * option nat * Z * SimpleSymbolSupplier * Heap) :=
  let '(result, symbol_file, symbol_data_string) := GetSymbolFile_data s module in
  if decide (result = FOUND) then
    let symbol_data_size := Z.of_nat (length symbol_data_string) + 1 in
    let (h, symbol_data) := new_buffer h (symbol_data_string ++ [0]) in
    let? module := of_option module in
    Ok (result, Some symbol_data, symbol_data_size,
        mkSimpleSymbolSupplier (paths_ s) (insert (supplier_buffers_ s) (code_file module) symbol_data), h)
  else Ok (result, None, 0, s, h).

Definition Simple_FreeSymbolData s h (module : option CodeModule) : outcome (SimpleSymbolSupplier * Heap) :=
  match module with
  | None => Ok (s, h)
  | Some module =>
      match find_value (supplier_buffers_ s) (code_file module) with
      | None => Ok (s, h)
      | Some p =>
          let? h := delete_buffer h p in
          Ok (mkSimpleSymbolSupplier (paths_ s)
                (erase_at (supplier_buffers_ s) (find (supplier_buffers_ s) (code_file module))), h)
      end
  end.

Definition Simple_supplier : SymbolSupplier SimpleSymbolSupplier := {|
  GetCStringSymbolData := Simple_GetCStringSymbolData;
  FreeSymbolData := Simple_FreeSymbolData;
|}.
End simple.

(** ** What it finds *)

Lemma rfind_spec c path :
  match rfind c path with
  | Some i => path !! i = Some c /\ Forall (fun x => x <> c) (drop (S i) path)
  | None => Forall (fun x => x <> c) path
  end.
Proof.
  induction path as [|x path IH]; cbn [rfind]; [constructor|].
  destruct (rfind c path) as [i|]; [exact IH|].
  destruct (Z.eqb_spec x c) as [->|Hn]; [split; [done|done]|by constructor].
Qed.

Definition separator (c : Z) : Prop := c = 47 \/ c = 92.

Lemma drop_ge_Forall {A} (P : A -> Prop) i j (l : list A) :
  (i <= j)%nat -> Forall P (drop i l) -> Forall P (drop j l).
Proof. intros Hij H. replace j with (i + (j - i))%nat by lia. rewrite <- drop_drop. by apply Forall_drop. Qed.

(** The name after the last separator. *)
Lemma File_spec path :
  exists dir, path = dir ++ File path /\ Forall (fun c => ~ separator c) (File path) /\
    (dir = [] \/ exists c, last dir = Some c /\ separator c).
Proof.
  unfold File. pose proof (rfind_spec 47 path) as Hs. pose proof (rfind_spec 92 path) as Hb.
  assert (forall i c l1, path !! i = Some c -> separator c -> Forall (fun x => ~ separator x) (drop (S i) path) ->
    l1 = drop (S i) path -> exists dir, path = dir ++ l1 /\ Forall (fun c => ~ separator c) l1 /\
      (dir = [] \/ exists c, last dir = Some c /\ separator c)) as Hcut.
  { intros i c l1 Hi Hc Hd ->. exists (take (S i) path). rewrite take_drop. split; [done|]. split; [done|]. right.
    exists c. split; [|done]. rewrite (take_S_r _ _ _ Hi). by rewrite last_snoc. }
  assert (forall l, Forall (fun x => x <> 47) l -> Forall (fun x => x <> 92) l -> Forall (fun x => ~ separator x) l) as Hno.
  { intros l H1 H2. rewrite Forall_forall in H1, H2 |- *. unfold separator. intros x Hx [->| ->]; [by eapply H1|by eapply H2]. }
  destruct (rfind 47 path) as [s|]; destruct (rfind 92 path) as [b|].
  - destruct Hs as [Hs Hs'], Hb as [Hb Hb']. destruct (Nat.ltb_spec b s) as [Hlt|Hge].
    + apply (Hcut s 47); [done|by left| |done]. apply Hno; [done|]. by apply (drop_ge_Forall _ (S b)); [lia|].
    + apply (Hcut b 92); [done|by right| |done]. apply Hno; [|done]. by apply (drop_ge_Forall _ (S s)); [lia|].
  - destruct Hs as [Hs Hs']. apply (Hcut s 47); [done|by left| |done]. apply Hno; [done|by apply Forall_drop].
  - destruct Hb as [Hb Hb']. apply (Hcut b 92); [done|by right| |done]. apply Hno; [by apply Forall_drop|done].
  - exists []. rewrite drop_0. split; [done|]. split; [by apply Hno|by left].
Qed.

Section simple_spec.
Context (fs : FileSystem).

(** The path of the symbols of a module under a root. *)
Definition symbol_path (module : CodeModule) (root : chars) : chars :=
  root ++ str "/" ++ File (debug_file module) ++ str "/" ++ debug_identifier module ++ str "/"
    ++ symbol_file_name (File (debug_file module)).

(** A module whose symbols have a path. *)
Definition has_path (module : CodeModule) : Prop :=
  File (debug_file module) <> [] /\ debug_identifier module <> [].

Lemma GetSymbolFileAtPathFromRoot_spec module root :
  GetSymbolFileAtPathFromRoot fs (Some module) root =
    if bool_decide (has_path module) && file_exists fs (symbol_path module root)
    then (FOUND, symbol_path module root) else (NOT_FOUND, []).
Proof.
  unfold GetSymbolFileAtPathFromRoot, has_path, symbol_path.
  destruct (File (debug_file module)) as [|c f]; cbn [length Nat.eqb].
  { by rewrite bool_decide_eq_false_2 by (by intros [? _]). }
  destruct (debug_identifier module) as [|c' f']; cbn [length Nat.eqb].
  { by rewrite bool_decide_eq_false_2 by (by intros [_ ?]). }
  by rewrite bool_decide_eq_true_2 by done.
Qed.

(** The first root that has the file. *)
Lemma GetSymbolFile_loop_spec module roots :
  match GetSymbolFile_loop fs roots (Some module) with
  | (FOUND, path) => has_path module /\ exists before root after,
      roots = before ++ root :: after /\ path = symbol_path module root /\ file_exists fs path = true /\
      Forall (fun r => file_exists fs (symbol_path module r) = false) before
  | (NOT_FOUND, path) =>
      path = [] /\ (has_path module -> Forall (fun r => file_exists fs (symbol_path module r) = false) roots)
  | (INTERRUPT, _) => False
  end.
Proof.
  induction roots as [|root roots IH]; cbn [GetSymbolFile_loop]; [by split|].
  rewrite GetSymbolFileAtPathFromRoot_spec.
  destruct (bool_decide_reflect (has_path module)) as [Hp|Hp]; cbn [andb].
  - destruct (file_exists fs (symbol_path module root)) eqn:E.
    + split; [done|]. by exists [], root, roots.
    + destruct (GetSymbolFile_loop fs roots (Some module)) as [[] path]; [| |done].
      * destruct IH as [-> H]. split; [done|]. intros _. constructor; [done|by apply H].
      * destruct IH as (_ & before & r & after & -> & -> & Hf & Hb). split; [done|].
        exists (root :: before), r, after. split; [done|]. split; [done|]. split; [done|by constructor].
  - destruct (GetSymbolFile_loop fs roots (Some module)) as [[] path]; [|by destruct IH|done].
    destruct IH as [-> _]. by split.
Qed.

(** ** The laws *)

Definition simple_ok (s : SimpleSymbolSupplier) (h : Heap) (others : gset nat) : Prop :=
  sorted (supplier_buffers_ s) /\ (forall q, q ∈ others -> live h q) /\
  (forall k q, find_value (supplier_buffers_ s) k = Some q -> q ∈ others) /\
  forall k k' q, find_value (supplier_buffers_ s) k = Some q -> find_value (supplier_buffers_ s) k' = Some q -> k = k'.

Lemma new_simple_ok paths h others :
  (forall q, q ∈ others -> live h q) -> simple_ok (mkSimpleSymbolSupplier paths []) h others.
Proof. intros H. split; [constructor|]. by split. Qed.

Lemma simple_ok_heap s h h' others :
  simple_ok s h others -> (forall q, q ∈ others -> live h q -> live h' q) -> simple_ok s h' others.
Proof. intros (Hs & Hl & Ho & Hu) Hh. split; [done|]. split; [auto|done]. Qed.

Lemma simple_get s h others module info :
  simple_ok s h others -> exists result ptr size s' added others',
    Simple_GetCStringSymbolData fs s h (Some module) info = Ok (result, ptr, size, s', h ++ added) /\
    simple_ok s' (h ++ added) others' /\
    (forall q, q ∈ others' <-> q ∈ others \/ (length h <= q)%nat /\ live (h ++ added) q) /\
    (result = FOUND -> exists q path, ptr = Some q /\ q ∈ others' /\ file_exists fs path = true /\
       (h ++ added) !! q = Some (Some (read_text fs path ++ [0])) /\
       size = Z.of_nat (length (read_text fs path ++ [0]))).
Proof.
  intros Hok. pose proof Hok as (Hs & Hl & Ho & Hu). unfold Simple_GetCStringSymbolData, GetSymbolFile_data, GetSymbolFile.
  pose proof (GetSymbolFile_loop_spec module (paths_ s)) as Hf.
  destruct (GetSymbolFile_loop fs (paths_ s) (Some module)) as [result path].
  destruct (decide (result = FOUND)) as [->|Hn].
  - destruct Hf as (_ & before & root & after & _ & -> & He & _). cbn [new_buffer of_option obind].
    set (data := read_text _ _ ++ [0]). set (path := symbol_path module root) in *.
    eexists FOUND, (Some (length h)), _, _, [Some data], (others ∪ {[length h]}). split; [done|].
    assert (forall q, q ∈ others -> (q < length h)%nat) as Hlt by (intros q Hq; by apply live_lt, Hl).
    assert (forall q, live (h ++ [Some data]) q <-> live h q \/ q = length h) as Hlive.
    { intros q. rewrite live_app. split; [tauto|]. intros [?|?]; [by left|right]. split; [done|by eexists]. }
    assert (forall k q, find_value (insert (supplier_buffers_ s) (code_file module) (length h)) k = Some q ->
      find_value (supplier_buffers_ s) k = Some q \/ k = code_file module /\ q = length h) as Hins.
    { intros k q. rewrite (find_value_insert _ _ _ _ Hs). case_decide; [subst|by left].
      destruct (find_value (supplier_buffers_ s) (code_file module)); [by left|]. intros [= <-]. by right. }
    split; [|split].
    + split; [by apply insert_sorted|]. cbn [supplier_buffers_]. split; [|split].
      * intros q. rewrite elem_of_union, elem_of_singleton, Hlive. intros [?|?]; [left; by apply Hl|by right].
      * intros k q [Hk|[_ ->]]%Hins; [|set_solver]. specialize (Ho _ _ Hk). set_solver.
      * intros k k' q [Hk|[-> ->]]%Hins [Hk'|[-> Hq]]%Hins; [by eapply Hu| | |done].
        -- apply Ho, Hlt in Hk. lia.
        -- apply Ho, Hlt in Hk'. lia.
    + intros q. rewrite elem_of_union, elem_of_singleton, Hlive. split.
      * intros [?| ->]; [by left|right]. split; [done|by right].
      * intros [?|[Hq [Hq'|?]]]; [by left| |by right]. apply live_lt in Hq'. lia.
    + intros _. exists (length h), path. split; [done|]. split; [set_solver|]. split; [done|].
      split; [by rewrite lookup_app_r, Nat.sub_diag by lia|]. rewrite length_app. simpl. lia.
  - eexists _, _, _, _, [], others. rewrite app_nil_r. split; [done|]. split; [done|]. split; [|done].
    intros q. split; [by left|]. intros [?|[Hq Hq']]; [done|]. apply live_lt in Hq'. lia.
Qed.

Lemma simple_free s h others module :
  simple_ok s h others -> exists s' h' others',
    Simple_FreeSymbolData s h module = Ok (s', h') /\ simple_ok s' h' others' /\
    ((h' = h /\ others' = others) \/
     exists q, q ∈ others /\ live h q /\ h' = <[q := None]> h /\ others' = others ∖ {[q]}).
Proof.
  intros Hok. pose proof Hok as (Hs & Hl & Ho & Hu). unfold Simple_FreeSymbolData.
  destruct module as [module|]; [|eexists _, _, others; split; [done|split; [done|by left]]].
  destruct (find_value (supplier_buffers_ s) (code_file module)) as [p|] eqn:Ep;
    [|eexists _, _, others; split; [done|split; [done|by left]]].
  pose proof (Ho _ _ Ep) as Hp. pose proof (Hl _ Hp) as Hlp. destruct (Hl _ Hp) as [c Ec].
  unfold delete_buffer. rewrite Ec. cbn [obind]. eexists _, _, (others ∖ {[p]}). split; [done|].
  pose proof (fun k => find_value_remove (supplier_buffers_ s) (code_file module) k Hs) as Ef.
  split; [|right; by exists p]. split; [by apply erase_at_sorted|]. cbn [supplier_buffers_]. split; [|split].
  - intros q [Hq Hn]%elem_of_difference. apply live_insert; [by apply live_lt|]. right. split; [set_solver|by apply Hl].
  - intros k q. rewrite Ef. case_decide as Hk; [done|]. intros E. apply elem_of_difference. split; [by eapply Ho|].
    intros ->%elem_of_singleton. by apply Hk, (Hu k (code_file module) p).
  - intros k k' q. rewrite !Ef. repeat case_decide; [done..|]. apply Hu.
Qed.

(** [served] holds of what the files contain. *)
Definition simple_laws (served : byte_list -> Z -> Prop)
    (Hserved : forall path, file_exists fs path = true ->
       served (read_text fs path ++ [0]) (Z.of_nat (length (read_text fs path ++ [0])))) :
  @SymbolSupplierLaws SimpleSymbolSupplier (Simple_supplier fs) served.
Proof.
  refine {| supplier_ok := simple_ok : SimpleSymbolSupplier -> Heap -> gset nat -> Prop |}; cbn.
  - exact simple_ok_heap.
  - intros s h others module info Hok.
    destruct (simple_get s h others module info Hok) as (res & ptr & size & s' & added & others' & E & H1 & H2 & H3).
    exists res, ptr, size, s', added, others'. split; [done|]. split; [done|]. split; [done|].
    intros Hr. destruct (H3 Hr) as (q & path & -> & Hq & He & Hh & ->). exists q, (read_text fs path ++ [0]). auto.
  - intros s h others module Hok. by apply simple_free.
Defined.
End simple_spec.

(** ** Properties *)

(** The text of a file up to the first byte 0xff. *)
Lemma read_text_spec fs path f :
  stream fs (c_string path) = Some f ->
  exists rest, f = read_text fs path ++ rest /\ Forall (fun c => c <> 255) (read_text fs path) /\
    (rest = [] \/ exists rest', rest = 255 :: rest').
Proof.
  intros E. unfold read_text. rewrite E. set (g := fun c => negb (c =? 255)).
  exists (drop (prefix_len g f) f). split; [by rewrite take_drop|]. split.
  - eapply Forall_impl; [apply (prefix_len_take g f)|]. intros x Hx. unfold g in Hx. lia.
  - destruct (drop (prefix_len g f) f) as [|c rest] eqn:Ed; [by left|right]. exists rest.
    assert (f !! prefix_len g f = Some c) as Hc.
    { replace (prefix_len g f) with (prefix_len g f + 0)%nat by lia. by rewrite <- lookup_drop, Ed. }
    apply (prefix_len_at g) in Hc. unfold g in Hc. f_equal. lia.
Qed.

(** C21: the simple supplier.  The symbols of a module are those under the first
    root that has a file at [<debug file>/<identifier>/<debug file, .pdb
    dropped>.sym], where the debug file is named without its directory; they are
    the bytes of the file up to the first 0xff, with a NUL, in a new buffer that
    freeing the symbols of the module deletes, which leaves the supplier as it
    was, unless the module had a buffer before.  Without such a file, or without
    a name or an identifier, nothing is found and nothing changes. *)
Theorem SimpleSymbolSupplier_functional fs s h others module info :
  simple_ok s h others ->
  (forall before root after,
     paths_ s = before ++ root :: after -> has_path module -> file_exists fs (symbol_path module root) = true ->
     Forall (fun r => file_exists fs (symbol_path module r) = false) before ->
     let text := read_text fs (symbol_path module root) in
     exists s', Simple_GetCStringSymbolData fs s h (Some module) info =
         Ok (FOUND, Some (length h), Z.of_nat (length text) + 1, s', h ++ [Some (text ++ [0])]) /\
       (forall f, stream fs (c_string (symbol_path module root)) = Some f ->
          exists rest, f = text ++ rest /\ Forall (fun c => c <> 255) text /\ (rest = [] \/ exists rest', rest = 255 :: rest')) /\
       (find_value (supplier_buffers_ s) (code_file module) = None ->
          exists s'', Simple_FreeSymbolData s' (h ++ [Some (text ++ [0])]) (Some module) = Ok (s'', h ++ [None]) /\
            paths_ s'' = paths_ s /\
            forall k, find_value (supplier_buffers_ s'') k = find_value (supplier_buffers_ s) k)) /\
  (~ has_path module \/ Forall (fun r => file_exists fs (symbol_path module r) = false) (paths_ s) ->
     Simple_GetCStringSymbolData fs s h (Some module) info = Ok (NOT_FOUND, None, 0, s, h)).
Proof.
  intros (Hs & _). unfold Simple_GetCStringSymbolData, GetSymbolFile_data, GetSymbolFile.
  pose proof (GetSymbolFile_loop_spec fs module (paths_ s)) as Hf.
  destruct (GetSymbolFile_loop fs (paths_ s) (Some module)) as [result path]. split.
  - intros before root after Ep Hp He Hb. destruct result; [|clear Hp|done].
    { destruct Hf as [_ Hf]. specialize (Hf Hp). rewrite Ep in Hf. apply Forall_app in Hf as [_ Hf].
      apply Forall_cons in Hf as [Hf _]. congruence. }
    destruct Hf as (_ & before' & root' & after' & Ep' & -> & He' & Hb').
    assert (root' = root) as ->.
    { rewrite Ep in Ep'. clear Ep. revert before' Ep' Hb'. induction Hb as [|r before Hr _ IH]; intros before' E Hb'.
      - destruct before' as [|r' before']; [by injection E|]. injection E as <- _.
        apply Forall_cons in Hb' as [Hb' _]. congruence.
      - destruct before' as [|r' before']; [injection E as -> _; congruence|]. injection E as <- E.
        apply Forall_cons in Hb' as [_ Hb']. by apply (IH before'). }
    rewrite decide_True by done. cbn [new_buffer of_option obind]. eexists. split; [done|].
    split; [intros f Ef; by apply read_text_spec|]. intros Hn. unfold Simple_FreeSymbolData. cbn [supplier_buffers_].
    rewrite (find_value_insert _ _ _ _ Hs), decide_True, Hn by done.
    unfold delete_buffer. cbn [from_option id]. rewrite lookup_app_r, Nat.sub_diag by lia. cbn [lookup list_lookup obind].
    eexists. split; [by rewrite insert_app_r_alt, Nat.sub_diag by lia|]. split; [done|]. intros k. cbn [supplier_buffers_].
    rewrite find_value_remove by by apply insert_sorted. case_decide as Hk; [by subst|].
    by rewrite (find_value_insert _ _ _ _ Hs), decide_False.
  - intros Hno. destruct result; [by destruct Hf as [-> _]; rewrite decide_False| |done].
    destruct Hf as (Hp & before & root & after & Ep & -> & He & _). destruct Hno as [?|Hno]; [done|].
    rewrite Ep in Hno. apply Forall_app in Hno as [_ Hno]. apply Forall_cons in Hno as [Hno _]. congruence.
Qed.

Lemma SimpleSymbolSupplier_functional_witness :
  let m := mkCodeModule 1 0 1 0 (str "app") [] (str "C:\b\App.PDB") (str "ID1") [] false in
  let file := str "/s/App.PDB/ID1/App.sym" in
  let fs := mkFileSystem (fun p => if decide (p = file) then Some 4 else None)
              (fun p => if decide (p = file) then Some [65; 66; 255; 67] else None) in
  exists s', Simple_GetCStringSymbolData fs (mkSimpleSymbolSupplier [str "/none"; str "/s"] []) [] (Some m) None =
    Ok (FOUND, Some 0%nat, 3, s', [Some [65; 66; 0]]).
Proof.
  intros m file fs.
  destruct (SimpleSymbolSupplier_functional fs (mkSimpleSymbolSupplier [str "/none"; str "/s"] []) [] ∅ m None) as [H _].
  - apply new_simple_ok. by intros q ?%elem_of_empty.
  - destruct (H [str "/none"] (str "/s") []) as (s' & E & _).
    + reflexivity.
    + split; vm_compute; discriminate.
    + vm_compute. reflexivity.
    + apply Forall_singleton. vm_compute. reflexivity.
    + exists s'. exact E.
Defined.
