(* ===== verification/FrameSymbolizer.v ===== *)
(** * The stack frame symbolizer (processor/stack_frame_symbolizer.cc,
    google_breakpad/processor/stack_frame.h, stack_frame_symbolizer.h)

    [StackFrameSymbolizer] fills in the module and the source line of a frame:
    it asks the modules for the module at the frame's address, loads the
    symbols of a module the first time it sees it, from the supplier into the
    resolver, and remembers the modules that have none.  [FrameSymbolizer] is
    what the stack walkers use of it. *)

From stdpp Require Import gmap.
From S2P Require Import Prelude Memory LibcSupport OrderedMap Tokens CfiFrameInfo SymbolRecords SymbolModule SymbolResolver CodeModules SymbolSupplier.
#[local] Open Scope Z_scope.

(** ** StackFrame *)

Inductive FrameTrust : Type :=
| FRAME_TRUST_NONE
| FRAME_TRUST_SCAN
| FRAME_TRUST_CFI_SCAN
| FRAME_TRUST_FP
| FRAME_TRUST_CFI
| FRAME_TRUST_PREWALKED
| FRAME_TRUST_CONTEXT.

#[global] Instance FrameTrust_eq_dec : EqDecision FrameTrust.
Proof. solve_decision. Defined.

(** The source information with the module's base address is in [info]. *)
Record Frame : Type := mkFrame {
  info : StackFrame;
  module : option CodeModule;
  trust : FrameTrust;
}.

Definition frame_instruction (f : Frame) : Z := instruction (info f).

(** [StackFrame()] with [instruction] and [trust] set. *)
Definition new_frame (address : Z) (t : FrameTrust) : Frame :=
  mkFrame (mkStackFrame address 0 [] 0 [] 0 0) None t.

(** [frame->module = module] *)
Definition set_module (f : Frame) (m : CodeModule) : Frame :=
  let i := info f in
  mkFrame (mkStackFrame (instruction i) (base_address m) (frame_function_name i) (frame_function_base i)
             (frame_source_file_name i) (frame_source_line i) (frame_source_line_base i))
    (Some m) (trust f).

Definition set_info (f : Frame) (i : StackFrame) : Frame := mkFrame i (module f) (trust f).

Inductive SymbolizerResult : Type := kNoError | kError | kInterrupt | kWarningCorruptSymbols.

#[global] Instance SymbolizerResult_eq_dec : EqDecision SymbolizerResult.
Proof. solve_decision. Defined.

(** ** What the stack walkers use

    The modules and the system information are those of the walker, the same in
    every call; the state has the heap, the resolver and the supplier. *)
Class FrameSymbolizer (S : Type) : Type := {
  sym_FillSourceLineInfo : S -> Frame -> outcome (SymbolizerResult * Frame * S);
  sym_FindCFIFrameInfo : S -> Frame -> outcome (option CFIFrameInfo);
  sym_FindWindowsFrameInfo : S -> Frame -> outcome (option WindowsFrameInfo);
  sym_HasImplementation : S -> bool;
}.

(** ** StackFrameSymbolizer *)

Record StackFrameSymbolizer (M P : Type) : Type := mkSymbolizer {
  supplier_ : option P;
  resolver_ : option (Resolver M);
  no_symbol_modules_ : gset chars;
}.
Arguments mkSymbolizer {M P} _ _ _.
Arguments supplier_ {M P} _.
Arguments resolver_ {M P} _.
Arguments no_symbol_modules_ {M P} _.

Section symbolizer.
Context {M P : Type} `{ResolverModule M, SymbolSupplier P}.
(** Either can be NULL. *)
Context (modules unloaded_modules : option CodeModules) (system_info : option SystemInfo).
Implicit Types (h : Heap) (s : StackFrameSymbolizer M P) (r : Resolver M) (frame : Frame).

(** [modules->GetModuleForAddress(address)], NULL without [modules]. *)
Definition module_at (modules : option CodeModules) (address : Z) : option CodeModule :=
  match modules with Some m => GetModuleForAddress m address | None => None end.

Definition find_module (address : Z) : option CodeModule :=
  match module_at modules address with
  | Some m => Some m
  | None => module_at unloaded_modules address
  end.

Definition with_no_symbols s (code_file : chars) : StackFrameSymbolizer M P :=
  mkSymbolizer (supplier_ s) (resolver_ s) ({[code_file]} ∪ no_symbol_modules_ s).

Definition with_resolver s r : StackFrameSymbolizer M P :=
  mkSymbolizer (supplier_ s) (Some r) (no_symbol_modules_ s).

Definition with_supplier s (p : P) : StackFrameSymbolizer M P :=
  mkSymbolizer (Some p) (resolver_ s) (no_symbol_modules_ s).

(** [resolver_->FillSourceLineInfo(frame)] and the result for a module that is
    loaded. *)
Definition fill_from_resolver h r (m : CodeModule) frame : outcome (SymbolizerResult * Frame) :=
  let? i := SymbolResolver.FillSourceLineInfo h r (Some (code_file m)) (info frame) in
  Ok (if IsModuleCorrupt r (Some (code_file m)) then kWarningCorruptSymbols else kNoError, set_info frame i).

(** The [FOUND] case. *)
Definition load_symbols h s r (p : P) (m : CodeModule) frame (symbol_data : option nat) (symbol_data_size : Z) :
    outcome (SymbolizerResult * Frame * Heap * StackFrameSymbolizer M P) :=
  let? (load_success, h, r) :=
    LoadModuleUsingMemoryBuffer h r (Some (code_file m)) symbol_data symbol_data_size in
  let s := with_resolver s r in
  let? (p, h) :=
    if ShouldDeleteMemoryBufferAfterLoadModule then FreeSymbolData p h (Some m) else Ok (p, h) in
  let s := with_supplier s p in
  if load_success : bool then
    let? (result, frame) := fill_from_resolver h r m frame in Ok (result, frame, h, s)
  else Ok (kError, frame, h, with_no_symbols s (code_file m)).

Definition FillSourceLineInfo h s frame :
    outcome (SymbolizerResult * Frame * Heap * StackFrameSymbolizer M P) :=
  match find_module (frame_instruction frame) with
  | None => Ok (kError, frame, h, s)
  | Some m =>
      let frame := set_module frame m in
      match resolver_ s with
      | None => Ok (kError, frame, h, s)
      | Some r =>
          if decide (code_file m ∈ no_symbol_modules_ s) then Ok (kError, frame, h, s)
          else if HasModule r (Some (code_file m)) then
            let? (result, frame) := fill_from_resolver h r m frame in Ok (result, frame, h, s)
          else
            match supplier_ s with
            | None => Ok (kError, frame, h, s)
            | Some p =>
                let? (symbol_result, symbol_data, symbol_data_size, p, h) :=
                  GetCStringSymbolData p h (Some m) system_info in
                let s := with_supplier s p in
                match symbol_result with
                | FOUND => load_symbols h s r p m frame symbol_data symbol_data_size
                | NOT_FOUND => Ok (kError, frame, h, with_no_symbols s (code_file m))
                | INTERRUPT => Ok (kInterrupt, frame, h, s)
                end
            end
      end
  end.

Definition FindWindowsFrameInfo h s frame : outcome (option WindowsFrameInfo) :=
  match resolver_ s with
  | Some r => Resolver_FindWindowsFrameInfo h r (code_file <$> module frame) (info frame)
  | None => Ok None
  end.

Definition FindCFIFrameInfo h s frame : outcome (option CFIFrameInfo) :=
  match resolver_ s with
  | Some r => Resolver_FindCFIFrameInfo h r (code_file <$> module frame) (info frame)
  | None => Ok None
  end.

Definition Reset s : StackFrameSymbolizer M P := mkSymbolizer (supplier_ s) (resolver_ s) ∅.

Definition HasImplementation s : bool :=
  match resolver_ s, supplier_ s with Some _, Some _ => true | _, _ => false end.

(** What the walkers see. *)
Definition Symbolizer_interface : FrameSymbolizer (Heap * StackFrameSymbolizer M P) := {|
  sym_FillSourceLineInfo '(h, s) frame :=
    let? (result, frame, h, s) := FillSourceLineInfo h s frame in Ok (result, frame, (h, s));
  sym_FindCFIFrameInfo '(h, s) frame := FindCFIFrameInfo h s frame;
  sym_FindWindowsFrameInfo '(h, s) frame := FindWindowsFrameInfo h s frame;
  sym_HasImplementation '(_, s) := HasImplementation s;
|}.
End symbolizer.

(** ** The invariant

    [served] are the symbols the supplier may find, and [good] is what loading
    them makes of a module. *)
Section invariant.
Context {M P : Type} `{ResolverModuleLaws M} (served : byte_list -> Z -> Prop).
Context `{!SymbolSupplier P, !SymbolSupplierLaws P served}.
Context (good : M -> byte_list -> Prop).
Context (modules unloaded_modules : option CodeModules) (system_info : option SystemInfo).
Implicit Types (h : Heap) (s : StackFrameSymbolizer M P) (r : Resolver M) (frame : Frame) (others : gset nat).

(** The modules that are loaded, with what they read, by key. *)
Abbreviation view := (chars -> option (M * byte_list)).

(** Served symbols can be loaded, and give good modules. *)
Definition serves_good : Prop :=
  forall content size, served content size ->
    loadable content size /\ forall p m, loaded_from p content size m -> good m (kept content).

Definition sym_view h s : view :=
  match resolver_ s with Some r => resolver_view h r | None => fun _ => None end.

Record symbolizer_ok h s others : Prop := {
  ok_resolver r : resolver_ s = Some r -> resolver_wf h r others;
  ok_supplier p : supplier_ s = Some p -> supplier_ok p h others;
  ok_good k m content : sym_view h s k = Some (m, content) -> good m content;
}.

(** The symbols of this code file are not asked for any more. *)
Definition settled h s (code_file : chars) : Prop :=
  resolver_ s = None \/ supplier_ s = None \/ code_file ∈ no_symbol_modules_ s \/
  is_Some (sym_view h s (map_key code_file)).

(** The result and the frame, and what is known of the modules afterwards: the
    ones that are loaded and the ones without symbols. *)
Inductive fills h s frame : SymbolizerResult * Frame -> view -> gset chars -> Prop :=
| fills_no_module :
    find_module modules unloaded_modules (frame_instruction frame) = None ->
    fills h s frame (kError, frame) (sym_view h s) (no_symbol_modules_ s)
| fills_no_symbols m :
    find_module modules unloaded_modules (frame_instruction frame) = Some m ->
    resolver_ s = None \/ code_file m ∈ no_symbol_modules_ s \/
      supplier_ s = None /\ sym_view h s (map_key (code_file m)) = None ->
    fills h s frame (kError, set_module frame m) (sym_view h s) (no_symbol_modules_ s)
| fills_loaded m loaded content i :
    find_module modules unloaded_modules (frame_instruction frame) = Some m ->
    code_file m ∉ no_symbol_modules_ s ->
    sym_view h s (map_key (code_file m)) = Some (loaded, content) ->
    module_LookupAddress content loaded (info (set_module frame m)) = Ok i ->
    instruction i = frame_instruction frame ->
    fills h s frame
      (if IsCorrupt loaded then kWarningCorruptSymbols else kNoError, set_info (set_module frame m) i)
      (sym_view h s) (no_symbol_modules_ s)
| fills_asked m p result symbol_data size p' h1 x view' no_symbols' :
    find_module modules unloaded_modules (frame_instruction frame) = Some m ->
    ~ settled h s (code_file m) -> supplier_ s = Some p ->
    GetCStringSymbolData p h (Some m) system_info = Ok (result, symbol_data, size, p', h1) ->
    fills_answer h s frame m result symbol_data size h1 x view' no_symbols' ->
    fills h s frame x view' no_symbols'
with fills_answer h s frame : CodeModule -> SymbolResult -> option nat -> Z -> Heap ->
    SymbolizerResult * Frame -> view -> gset chars -> Prop :=
| answer_not_found m symbol_data size h1 :
    fills_answer h s frame m NOT_FOUND symbol_data size h1 (kError, set_module frame m)
      (sym_view h s) ({[code_file m]} ∪ no_symbol_modules_ s)
| answer_interrupt m symbol_data size h1 :
    fills_answer h s frame m INTERRUPT symbol_data size h1 (kInterrupt, set_module frame m)
      (sym_view h s) (no_symbol_modules_ s)
| answer_found m q content size h1 loaded i :
    h1 !! q = Some (Some content) -> loaded_from q content size loaded ->
    module_LookupAddress (kept content) loaded (info (set_module frame m)) = Ok i ->
    instruction i = frame_instruction frame ->
    fills_answer h s frame m FOUND (Some q) size h1
      (if IsCorrupt loaded then kWarningCorruptSymbols else kNoError, set_info (set_module frame m) i)
      (update_view (sym_view h s) (map_key (code_file m)) (Some (loaded, kept content)))
      (no_symbol_modules_ s).

(** ** Every call keeps the invariant *)

Lemma in_use_lt h r others q : resolver_wf h r others -> in_use r q -> (q < length h)%nat.
Proof. intros Hwf Hq. by eapply live_lt, in_use_live. Qed.

(** The supplier adds buffers. *)
Lemma resolver_wf_added h r others added others' :
  resolver_wf h r others ->
  (forall q, q ∈ others' <-> q ∈ others \/ (length h <= q)%nat /\ live (h ++ added) q) ->
  resolver_wf (h ++ added) r others'.
Proof.
  intros Hwf Ho. apply (resolver_wf_heap h _ r others); [done| |].
  - intros q Hq. pose proof (in_use_lt _ _ _ _ Hwf Hq). rewrite lookup_app_l by done. split; [done|].
    rewrite Ho. split; [intros [?|[? _]]; [done|lia]|by left].
  - intros q. rewrite Ho. pose proof (wf_live _ _ _ Hwf q) as Hl.
    destruct (decide (q < length h)%nat) as [Hq|Hq].
    + assert (live (h ++ added) q <-> live h q) as ->; [|rewrite Hl; split; [tauto|intros [[?|[? _]]|?]; [tauto|lia|tauto]]].
      unfold live. by rewrite lookup_app_l.
    + split; [intros ?; left; right; split; [lia|done]|]. intros [[?|[_ ?]]|?]; [|done|].
      * exfalso. apply Hq, (live_lt h), Hl. by left.
      * exfalso. apply Hq, (live_lt h), Hl. by right.
Qed.

Lemma resolver_view_heap h h' r others k :
  resolver_wf h r others -> (forall q, in_use r q -> h' !! q = h !! q) ->
  resolver_view h' r k = resolver_view h r k.
Proof.
  intros Hwf Hh. unfold resolver_view. destruct (find_value (modules_ r) k) as [m|] eqn:E; [|done].
  by rewrite (resolver_view_eq h h' r others k m).
Qed.

(** The answer of a module that is loaded. *)
Lemma fill_from_resolver_spec h r others m frame loaded content :
  resolver_wf h r others -> resolver_view h r (map_key (code_file m)) = Some (loaded, content) ->
  exists i, module_LookupAddress content loaded (info frame) = Ok i /\ instruction i = instruction (info frame) /\
    fill_from_resolver h r m frame =
      Ok (if IsCorrupt loaded then kWarningCorruptSymbols else kNoError, set_info frame i).
Proof.
  intros Hwf Hv. unfold fill_from_resolver.
  destruct (questions_view h r others (Some (code_file m)) (info frame) Hwf) as (Ef & _ & _ & _ & Ec & Hok).
  cbn zeta in *. rewrite Hv in Ef, Ec, Hok. rewrite Ef, Ec.
  destruct (module_LookupAddress_ok loaded content (info frame) Hok) as (i & Ei & Hi). exists i. by rewrite Ei.
Qed.

(** A call that changes nothing. *)
Definition fill_same h s others frame x : Prop :=
  FillSourceLineInfo modules unloaded_modules system_info h s frame = Ok (x.1, x.2, h, s) /\
  fills h s frame x (sym_view h s) (no_symbol_modules_ s).

Lemma fill_settled h s others frame :
  symbolizer_ok h s others ->
  (forall m, find_module modules unloaded_modules (frame_instruction frame) = Some m -> settled h s (code_file m)) ->
  exists x, fill_same h s others frame x /\ x.1 <> kInterrupt.
Proof.
  intros Hok Hset. unfold fill_same, FillSourceLineInfo.
  destruct (find_module _ _ _) as [m|] eqn:Em.
  2: { exists (kError, frame). split; [|done]. split; [done|]. by apply fills_no_module. }
  specialize (Hset m eq_refl).
  destruct (resolver_ s) as [r|] eqn:Er.
  2: { exists (kError, set_module frame m). split; [|done]. split; [done|]. apply fills_no_symbols; auto. }
  destruct (decide (code_file m ∈ no_symbol_modules_ s)) as [Hn|Hn].
  { exists (kError, set_module frame m). split; [|done]. split; [done|]. apply fills_no_symbols; auto. }
  pose proof (ok_resolver _ _ _ Hok r Er) as Hwf.
  destruct (questions_view h r others (Some (code_file m)) (info frame) Hwf) as (_ & _ & _ & Eh & _).
  cbn zeta in Eh. rewrite Eh.
  assert (forall k, sym_view h s k = resolver_view h r k) as Ev by (intros k; unfold sym_view; by rewrite Er).
  destruct (resolver_view h r (map_key (code_file m))) as [[loaded content]|] eqn:Eview; cbn [is_Some].
  - rewrite bool_decide_eq_true_2 by by eexists.
    destruct (fill_from_resolver_spec h r others m (set_module frame m) loaded content Hwf Eview) as (i & Ei & Hi & Ef).
    rewrite Ef. cbn [obind]. eexists (_, _). split; [split; [done|]|].
    + eapply fills_loaded; [done..|by rewrite Ev|done|done].
    + cbn. by destruct (IsCorrupt loaded).
  - rewrite bool_decide_eq_false_2 by by intros [].
    destruct Hset as [?|[Esup|[?|[x Hx]]]]; [congruence| |done|rewrite Ev in Hx; congruence].
    rewrite Esup. exists (kError, set_module frame m). split; [|done]. split; [done|].
    eapply fills_no_symbols; [done|]. right. right. split; [done|]. by rewrite Ev.
Qed.

Lemma sym_view_resolver h s r : resolver_ s = Some r -> sym_view h s = resolver_view h r.
Proof. unfold sym_view. by intros ->. Qed.

(** The resolver after the supplier's buffer is given back, or kept. *)
Lemma free_after_load h r others p m :
  resolver_wf h r others -> supplier_ok p h others ->
  exists p' h' others',
    (if ShouldDeleteMemoryBufferAfterLoadModule then FreeSymbolData p h (Some m) else Ok (p, h)) = Ok (p', h') /\
    resolver_wf h' r others' /\ supplier_ok p' h' others' /\
    forall q, in_use r q -> h' !! q = h !! q.
Proof.
  intros Hwf Hsup. destruct ShouldDeleteMemoryBufferAfterLoadModule eqn:Ed.
  2: { exists p, h, others. auto. }
  assert (forall q, ~ in_use r q) as Hno.
  { intros q (k & m' & _ & Er). by rewrite deleted_not_read in Er. }
  destruct (FreeSymbolData_ok p h others (Some m) Hsup) as (p' & h' & others' & E & Hsup' & Hd).
  exists p', h', others'. split; [done|]. destruct Hd as [[-> ->]|(q & Hq & Hlq & -> & ->)]; [auto|].
  split; [|split; [done|]].
  - apply (resolver_wf_others h r others q); [done|done|apply Hno|]. intros q'.
    rewrite elem_of_difference, elem_of_singleton. split; [tauto|]. by intros [? [?|[? ?]]].
  - intros q' Hq'. by destruct (Hno q').
Qed.

(** Loading the symbols that were found. *)
Lemma load_symbols_spec h s r others p m frame q content size :
  serves_good -> resolver_wf h r others -> supplier_ok p h others ->
  (forall k m content, resolver_view h r k = Some (m, content) -> good m content) ->
  q ∈ others -> h !! q = Some (Some content) -> served content size ->
  resolver_view h r (map_key (code_file m)) = None ->
  exists loaded i h' s' others',
    loaded_from q content size loaded /\
    module_LookupAddress (kept content) loaded (info frame) = Ok i /\ instruction i = instruction (info frame) /\
    load_symbols h s r p m frame (Some q) size =
      Ok (if IsCorrupt loaded then kWarningCorruptSymbols else kNoError, set_info frame i, h', s') /\
    symbolizer_ok h' s' others' /\ no_symbol_modules_ s' = no_symbol_modules_ s /\
    is_Some (resolver_ s') /\ is_Some (supplier_ s') /\
    forall k, sym_view h' s' k =
      update_view (resolver_view h r) (map_key (code_file m)) (Some (loaded, kept content)) k.
Proof.
  intros Hgood Hwf Hsup Hview Hq Hh Hserved Hnone. destruct (Hgood content size Hserved) as [Hl Hg].
  pose proof (proj1 (resolver_view_None _ _ _ _ Hwf) Hnone) as Hfind.
  destruct (LoadModuleUsingMemoryBuffer_spec h r others (code_file m) q size content Hwf Hq Hh Hl Hfind)
    as (loaded & content' & Hfrom & Hkeep & Hcont & E & Hwf2).
  set (h2 := <[q := Some content']> h) in *. set (r2 := add_module r (map_key (code_file m)) loaded) in *.
  assert (supplier_ok p h2 others) as Hsup2.
  { eapply supplier_ok_heap; [exact Hsup|]. intros q' _ Hl'. apply live_insert; [by apply lookup_lt_Some in Hh|].
    destruct (decide (q' = q)) as [->|]; [left; split; [done|by eexists]|by right]. }
  destruct (free_after_load h2 r2 others p m Hwf2 Hsup2) as (p3 & h3 & others3 & Efree & Hwf3 & Hsup3 & Hh3).
  assert (forall k, resolver_view h3 r2 k =
    update_view (resolver_view h r) (map_key (code_file m)) (Some (loaded, kept content)) k) as Ev.
  { intros k. rewrite (resolver_view_heap h2 h3 r2 others) by done. unfold resolver_view, update_view, r2.
    rewrite add_module_modules by (done || apply (wf_maps _ _ _ Hwf)). case_decide as Hk; [by rewrite Hcont|].
    destruct (find_value (modules_ r) k) as [m'|] eqn:Em'; [|done].
    rewrite (module_content_eq h h2 m'); [done|]. intros q' Eq'. unfold h2.
    destruct (decide (q' = q)) as [->|]; [|by apply list_lookup_insert_ne].
    destruct ShouldDeleteMemoryBufferAfterLoadModule eqn:Ed; [by rewrite deleted_not_read in Eq'|].
    by rewrite (Hkeep eq_refl), list_insert_id. }
  assert (resolver_view h3 r2 (map_key (code_file m)) = Some (loaded, kept content)) as Evm.
  { rewrite Ev. unfold update_view. by rewrite decide_True. }
  destruct (fill_from_resolver_spec h3 r2 others3 m frame loaded (kept content) Hwf3 Evm) as (i & Ei & Hi & Ef).
  exists loaded, i, h3, (with_supplier (with_resolver s r2) p3), others3.
  split; [done|]. split; [done|]. split; [done|]. split.
  { unfold load_symbols. rewrite E. cbn [obind]. rewrite Efree. cbn [obind]. by rewrite Ef. }
  split; [|split; [done|split; [by eexists|split; [by eexists|done]]]].
  split; cbn [resolver_ supplier_ with_supplier with_resolver].
  - by intros r' [= <-].
  - by intros p' [= <-].
  - intros k m' c'. unfold sym_view. cbn [resolver_ with_supplier with_resolver]. rewrite Ev. unfold update_view.
    case_decide; [|by apply Hview]. intros [= <- <-]. by eapply Hg.
Qed.

(** A call for a module whose symbols are not settled. *)
Lemma fill_asked h s others frame m :
  serves_good -> symbolizer_ok h s others ->
  find_module modules unloaded_modules (frame_instruction frame) = Some m -> ~ settled h s (code_file m) ->
  exists result frame' h' s' others' view' no_symbols',
    FillSourceLineInfo modules unloaded_modules system_info h s frame = Ok (result, frame', h', s') /\
    symbolizer_ok h' s' others' /\ fills h s frame (result, frame') view' no_symbols' /\
    (forall k, sym_view h' s' k = view' k) /\ no_symbol_modules_ s' = no_symbols' /\
    is_Some (resolver_ s') /\ is_Some (supplier_ s').
Proof.
  intros Hgood Hok Em Hset.
  destruct (resolver_ s) as [r|] eqn:Er; [|destruct Hset; by left].
  destruct (supplier_ s) as [p|] eqn:Ep; [|destruct Hset; by right; left].
  pose proof (ok_resolver _ _ _ Hok r Er) as Hwf. pose proof (ok_supplier _ _ _ Hok p Ep) as Hsup.
  assert (resolver_view h r (map_key (code_file m)) = None) as Hnone.
  { apply eq_None_not_Some. intros Hs. apply Hset. do 3 right. by rewrite (sym_view_resolver h s r). }
  destruct (GetCStringSymbolData_ok p h others m system_info Hsup)
    as (result & ptr & size & p1 & added & others1 & Eget & Hsup1 & Ho1 & Hfound).
  pose proof (resolver_wf_added h r others added others1 Hwf Ho1) as Hwf1.
  assert (forall k, resolver_view (h ++ added) r k = resolver_view h r k) as Ev1.
  { intros k. apply (resolver_view_heap h _ r others); [done|]. intros q Hq. apply lookup_app_l.
    by eapply in_use_lt. }
  assert (forall s', resolver_ s' = Some r -> supplier_ s' = Some p1 -> symbolizer_ok (h ++ added) s' others1) as Hok1.
  { intros s' Er' Ep'. split; [intros ?; rewrite Er'; by intros [= <-]|intros ?; rewrite Ep'; by intros [= <-]|].
    intros k m' c. rewrite (sym_view_resolver _ _ r Er'), Ev1, <- (sym_view_resolver h s r Er).
    apply (ok_good _ _ _ Hok). }
  assert (FillSourceLineInfo modules unloaded_modules system_info h s frame =
    match result with
    | FOUND => load_symbols (h ++ added) (with_supplier s p1) r p1 m (set_module frame m) ptr size
    | NOT_FOUND => Ok (kError, set_module frame m, h ++ added, with_no_symbols (with_supplier s p1) (code_file m))
    | INTERRUPT => Ok (kInterrupt, set_module frame m, h ++ added, with_supplier s p1)
    end) as ->.
  { unfold FillSourceLineInfo. rewrite Em, Er, decide_False by (intros ?; apply Hset; do 2 right; by left).
    destruct (questions_view h r others (Some (code_file m)) (info frame) Hwf) as (_ & _ & _ & Eh & _).
    cbn zeta in Eh. rewrite Eh, Hnone, bool_decide_eq_false_2 by by intros []. rewrite Ep, Eget. done. }
  assert (forall x v n, fills_answer h s frame m result ptr size (h ++ added) x v n -> fills h s frame x v n) as Hfills.
  { intros x v n. by apply fills_asked with p p1. }
  destruct result.
  - eexists _, _, _, _, others1, _, _. split; [done|]. split; [by apply Hok1|].
    split; [apply Hfills, answer_not_found|]. split; [|by repeat split; eexists].
    intros k. rewrite (sym_view_resolver _ _ r Er), <- Ev1. by rewrite (sym_view_resolver _ _ r).
  - destruct (Hfound eq_refl) as (q & content & -> & Hq & Hh & Hserved).
    destruct (load_symbols_spec (h ++ added) (with_supplier s p1) r others1 p1 m (set_module frame m) q content size)
      as (loaded & i & h' & s' & others' & Hfrom & Ei & Hi & -> & Hok' & Hn' & Hr' & Hs' & Ev'); try done.
    + intros k m' c. rewrite Ev1, <- (sym_view_resolver h s r Er). apply (ok_good _ _ _ Hok).
    + by rewrite Ev1.
    + eexists _, _, _, _, others', _, _. split; [done|]. split; [done|]. split; [by eapply Hfills, answer_found|].
      split; [|done]. intros k. rewrite Ev'. unfold update_view. rewrite Ev1. by rewrite (sym_view_resolver _ _ r Er).
  - eexists _, _, _, _, others1, _, _. split; [done|]. split; [by apply Hok1|].
    split; [apply Hfills, answer_interrupt|]. split; [|by repeat split; eexists].
    intros k. rewrite (sym_view_resolver _ _ r Er), <- Ev1. by rewrite (sym_view_resolver _ _ r).
Qed.

Lemma settled_dec h s code_file : settled h s code_file \/ ~ settled h s code_file.
Proof.
  unfold settled. destruct (resolver_ s); [|by left; left]. destruct (supplier_ s); [|by left; right; left].
  destruct (decide (code_file ∈ no_symbol_modules_ s)); [left; tauto|].
  destruct (sym_view h s (map_key code_file)); [left; do 3 right; by eexists|].
  right. intros [?|[?|[?|[? ?]]]]; done.
Qed.

(** The frame keeps its address and its trust, and has the module found at the
    address. *)
Definition frame_filled frame frame' : Prop :=
  frame_instruction frame' = frame_instruction frame /\ trust frame' = trust frame /\
  module frame' = match find_module modules unloaded_modules (frame_instruction frame) with
                  | Some m => Some m | None => module frame end.

Lemma fills_frame h s frame x v n :
  fills h s frame x v n -> frame_filled frame x.2.
Proof.
  destruct 1 as [E|m E _|m loaded content i E _ _ Ei Hi|m p res sd size p' h1 x v n E _ _ _ Ha];
    unfold frame_filled; rewrite E; [done..|].
  by destruct Ha.
Qed.

Lemma FillSourceLineInfo_spec h s others frame :
  serves_good -> symbolizer_ok h s others ->
  exists result frame' h' s' others' view' no_symbols',
    FillSourceLineInfo modules unloaded_modules system_info h s frame = Ok (result, frame', h', s') /\
    symbolizer_ok h' s' others' /\ fills h s frame (result, frame') view' no_symbols' /\
    (forall k, sym_view h' s' k = view' k) /\ no_symbol_modules_ s' = no_symbols' /\
    HasImplementation s' = HasImplementation s.
Proof.
  intros Hgood Hok.
  destruct (find_module modules unloaded_modules (frame_instruction frame)) as [m|] eqn:Em;
    [destruct (settled_dec h s (code_file m)) as [Hset|Hset]|].
  - destruct (fill_settled h s others frame Hok) as ([result frame'] & [E Hf] & _).
    { intros m'. rewrite Em. by intros [= <-]. }
    by exists result, frame', h, s, others, (sym_view h s), (no_symbol_modules_ s).
  - destruct (fill_asked h s others frame m Hgood Hok Em Hset)
      as (result & frame' & h' & s' & others' & v & n & E & Hok' & Hf & Hv & Hn & [r Hr] & [p Hp]).
    exists result, frame', h', s', others', v, n. split_and!; try done. unfold HasImplementation. rewrite Hr, Hp.
    unfold settled in Hset. destruct (resolver_ s), (supplier_ s); tauto.
  - destruct (fill_settled h s others frame Hok) as ([result frame'] & [E Hf] & _).
    { intros m'. by rewrite Em. }
    by exists result, frame', h, s, others, (sym_view h s), (no_symbol_modules_ s).
Qed.

(** A call that is not interrupted settles its module. *)
Lemma fills_settled h s others frame m result frame' v n h' s' :
  symbolizer_ok h s others ->
  find_module modules unloaded_modules (frame_instruction frame) = Some m -> result <> kInterrupt ->
  FillSourceLineInfo modules unloaded_modules system_info h s frame = Ok (result, frame', h', s') ->
  fills h s frame (result, frame') v n -> (forall k, sym_view h' s' k = v k) -> no_symbol_modules_ s' = n ->
  settled h' s' (code_file m).
Proof.
  intros Hok Em Hres E Hf Hv Hn. destruct (settled_dec h s (code_file m)) as [Hset|Hset].
  - destruct (fill_settled h s others frame Hok) as (x & [E' _] & _).
    { intros m'. rewrite Em. by intros [= <-]. }
    rewrite E in E'. by injection E' as _ _ <- <-.
  - unfold settled. rewrite Hv, Hn. remember (result, frame') as x eqn:Ex.
    destruct Hf as [Em'|m' Em' Hd|m' loaded content i Em' _ Hview _ _|m' p res sd size p' h1 x v n Em' _ _ _ Ha];
      rewrite Em in Em'; try injection Em' as <-; [done| | |].
    + destruct Hset. unfold settled. tauto.
    + destruct Hset. do 3 right. by eexists.
    + destruct Ha; simplify_eq; [right; right; left; set_solver|].
      do 3 right. unfold update_view. rewrite decide_True by done. by eexists.
Qed.

Lemma settled_mono h s frame x h' s' v n code_file :
  HasImplementation s' = HasImplementation s ->
  fills h s frame x v n -> (forall k, sym_view h' s' k = v k) -> no_symbol_modules_ s' = n ->
  settled h s code_file -> settled h' s' code_file.
Proof.
  intros Himp Hf Hv Hn Hset.
  assert ((resolver_ s = None \/ supplier_ s = None) -> resolver_ s' = None \/ supplier_ s' = None) as H1.
  { unfold HasImplementation in Himp. destruct (resolver_ s'), (supplier_ s'), (resolver_ s), (supplier_ s); intuition congruence. }
  assert (forall k, is_Some (sym_view h s k) -> is_Some (v k)) as H2.
  { intros k. destruct Hf as [| | |m p res sd size p' h1 x v n E _ _ _ Ha]; try done.
    destruct Ha; try done. unfold update_view. case_decide; [by eexists|done]. }
  assert (forall c, c ∈ no_symbol_modules_ s -> c ∈ n) as H3.
  { intros c. destruct Hf as [| | |m p res sd size p' h1 x v n E _ _ _ Ha]; try done. destruct Ha; set_solver. }
  unfold settled in *. rewrite Hv, Hn. destruct Hset as [?|[?|[?|?]]]; [tauto..| |].
  - right. right. left. by apply H3.
  - do 3 right. by apply H2.
Qed.
End invariant.

(** ** The contract with the stack walkers

    [find] is the module at an address. *)
Class FrameSymbolizerLaws (S : Type) `{FrameSymbolizer S} (find : Z -> option CodeModule) : Type := {
  sym_ok : S -> Prop;
  sym_FillSourceLineInfo_ok s frame :
    sym_ok s -> exists result frame' s',
      sym_FillSourceLineInfo s frame = Ok (result, frame', s') /\ sym_ok s' /\
      frame_instruction frame' = frame_instruction frame /\ trust frame' = trust frame /\
      module frame' = match find (frame_instruction frame) with Some m => Some m | None => module frame end;
  sym_FindCFIFrameInfo_ok s frame :
    sym_ok s -> exists rules, sym_FindCFIFrameInfo s frame = Ok rules /\
      forall i, rules = Some i -> rules_defined i;
  sym_FindWindowsFrameInfo_ok s frame :
    sym_ok s -> exists i, sym_FindWindowsFrameInfo s frame = Ok i;
}.

(** The CFI rules of a module never divide by zero. *)
Definition rules_good {M} `{ResolverModule M} (m : M) (content : byte_list) : Prop :=
  forall frame rules, module_FindCFIFrameInfo content m frame = Ok (Some rules) -> rules_defined rules.

Section contract.
Context {M P : Type} `{ResolverModuleLaws M} (served : byte_list -> Z -> Prop).
Context `{!SymbolSupplier P, !SymbolSupplierLaws P served}.
Context (modules unloaded_modules : option CodeModules) (system_info : option SystemInfo).
Context (Hserved : serves_good served rules_good).

Definition symbolizer_laws :
  @FrameSymbolizerLaws (Heap * StackFrameSymbolizer M P)
    (Symbolizer_interface modules unloaded_modules system_info) (find_module modules unloaded_modules).
Proof using All.
  refine {| sym_ok '(h, s) := exists others, symbolizer_ok served rules_good h s others |}; cbn.
  - intros [h s] frame [others Hok].
    destruct (FillSourceLineInfo_spec served rules_good modules unloaded_modules system_info h s others frame Hserved Hok)
      as (result & frame' & h' & s' & others' & v & n & E & Hok' & Hf & _).
    apply fills_frame in Hf as (Hi & Ht & Hm). rewrite E. cbn [obind].
    exists result, frame', (h', s'). split; [done|]. split; [by exists others'|done].
  - intros [h s] frame [others Hok]. unfold FindCFIFrameInfo.
    destruct (resolver_ s) as [r|] eqn:Er; [|exists None; by split].
    pose proof (ok_resolver _ _ _ _ _ Hok r Er) as Hwf.
    destruct (questions_view h r others (code_file <$> module frame) (info frame) Hwf) as (_ & _ & E & _ & _ & Hm).
    rewrite E. pose proof (ok_good _ _ _ _ _ Hok) as Hg. rewrite (sym_view_resolver h s r Er) in Hg.
    destruct (module frame) as [m|]; cbn [fmap option_fmap option_map] in *; [|exists None; by split].
    destruct (resolver_view h r (map_key (code_file m))) as [[loaded content]|] eqn:Ev; [|exists None; by split].
    destruct (module_FindCFIFrameInfo_ok loaded content (info frame) Hm) as [rules Erules].
    exists rules. split; [done|]. intros i ->. by eapply Hg.
  - intros [h s] frame [others Hok]. unfold FindWindowsFrameInfo.
    destruct (resolver_ s) as [r|] eqn:Er; [|by exists None].
    pose proof (ok_resolver _ _ _ _ _ Hok r Er) as Hwf.
    destruct (questions_view h r others (code_file <$> module frame) (info frame) Hwf) as (_ & E & _ & _ & _ & Hm).
    rewrite E.
    destruct (match code_file <$> module frame with Some _ => _ | None => _ end) as [[loaded content]|]; [|by exists None].
    by apply module_FindWindowsFrameInfo_ok.
Defined.
End contract.

(** ** Properties *)

Section properties.
Context {M P : Type} `{ResolverModuleLaws M} (served : byte_list -> Z -> Prop).
Context `{!SymbolSupplier P, !SymbolSupplierLaws P served}.
Context (good : M -> byte_list -> Prop).
Context (modules unloaded_modules : option CodeModules) (system_info : option SystemInfo).

(** Any number of calls later. *)
Inductive later : Heap * StackFrameSymbolizer M P -> Heap * StackFrameSymbolizer M P -> Prop :=
| later_refl x : later x x
| later_call h s frame result frame' h' s' x :
    FillSourceLineInfo modules unloaded_modules system_info h s frame = Ok (result, frame', h', s') ->
    later (h', s') x -> later (h, s) x.

Lemma later_settled x y code_file :
  serves_good served good -> later x y ->
  (exists others, symbolizer_ok served good x.1 x.2 others) -> settled x.1 x.2 code_file ->
  (exists others, symbolizer_ok served good y.1 y.2 others) /\ settled y.1 y.2 code_file.
Proof.
  intros Hgood. induction 1 as [x|h s frame result frame' h' s' x E _ IH]; [done|].
  intros [others Hok] Hset. cbn [fst snd] in *. apply IH;
    destruct (FillSourceLineInfo_spec served good modules unloaded_modules system_info h s others frame Hgood Hok)
      as (result2 & frame2 & h2 & s2 & others2 & v & n & E2 & Hok2 & Hf & Hv & Hn & Himp);
    rewrite E in E2; injection E2 as <- <- <- <-.
  - by exists others2.
  - by eapply settled_mono.
Qed.
End properties.

(** C19: [FillSourceLineInfo] of the symbolizer, in every state that its owner's
    invariant allows.  It returns, keeps the invariant (no buffer is used after
    its deletion), and does one of these: nothing without a module at the
    address; only sets the module when its symbols are known to be missing, or
    nobody can provide them; asks the module when it is loaded; and otherwise
    asks the supplier, remembers a module that has no symbols, gives up on an
    interrupt, and loads symbols that are found and asks them.  The result says
    which, and whether the symbols are corrupt. *)
Theorem FillSourceLineInfo_functional {M P : Type} `{ResolverModuleLaws M} (served : byte_list -> Z -> Prop)
    `{!SymbolSupplier P, !SymbolSupplierLaws P served} (good : M -> byte_list -> Prop)
    modules unloaded_modules system_info (h : Heap) (s : StackFrameSymbolizer M P) (others : gset nat) frame :
  serves_good served good -> symbolizer_ok served good h s others ->
  exists result frame' h' s' others' view' no_symbols',
    FillSourceLineInfo modules unloaded_modules system_info h s frame = Ok (result, frame', h', s') /\
    symbolizer_ok served good h' s' others' /\
    fills modules unloaded_modules system_info h s frame (result, frame') view' no_symbols' /\
    (forall k, sym_view h' s' k = view' k) /\ no_symbol_modules_ s' = no_symbols'.
Proof.
  intros Hgood Hok.
  destruct (FillSourceLineInfo_spec served good modules unloaded_modules system_info h s others frame Hgood Hok)
    as (result & frame' & h' & s' & others' & v & n & E & Hok' & Hf & Hv & Hn & _).
  by exists result, frame', h', s', others', v, n.
Qed.

(** The supplier is asked once for a module.  After a call for a frame in a
    module that was not interrupted, and any number of calls for other frames,
    a call for a frame in a module of the same code file changes nothing: not
    the supplier, nor the buffers, nor what is known of the modules. *)
Theorem FillSourceLineInfo_asks_once {M P : Type} `{ResolverModuleLaws M} (served : byte_list -> Z -> Prop)
    `{!SymbolSupplier P, !SymbolSupplierLaws P served} (good : M -> byte_list -> Prop)
    modules unloaded_modules system_info (h : Heap) (s : StackFrameSymbolizer M P) (others : gset nat)
    frame m result frame' h1 s1 h2 s2 frame2 m2 :
  serves_good served good -> symbolizer_ok served good h s others ->
  find_module modules unloaded_modules (frame_instruction frame) = Some m ->
  FillSourceLineInfo modules unloaded_modules system_info h s frame = Ok (result, frame', h1, s1) ->
  result <> kInterrupt -> later modules unloaded_modules system_info (h1, s1) (h2, s2) ->
  find_module modules unloaded_modules (frame_instruction frame2) = Some m2 -> code_file m2 = code_file m ->
  exists result2 frame2', result2 <> kInterrupt /\
    FillSourceLineInfo modules unloaded_modules system_info h2 s2 frame2 = Ok (result2, frame2', h2, s2).
Proof.
  intros Hgood Hok Em E Hres Hlater Em2 Hc.
  destruct (FillSourceLineInfo_spec served good modules unloaded_modules system_info h s others frame Hgood Hok)
    as (res & f & h' & s' & others' & v & n & E' & Hok' & Hf & Hv & Hn & _).
  rewrite E in E'. injection E' as <- <- <- <-.
  assert (settled h1 s1 (code_file m)) as Hset.
  { apply (fills_settled served good modules unloaded_modules system_info h s others frame m result frame' v n h1 s1); done. }
  destruct (later_settled served good modules unloaded_modules system_info _ _ (code_file m) Hgood Hlater)
    as [[others2 Hok2] Hset2]; [by exists others'|done|]. cbn [fst snd] in *.
  destruct (fill_settled served good modules unloaded_modules system_info h2 s2 others2 frame2 Hok2)
    as ([res2 f2] & [E2 _] & Hi).
  { intros m'. rewrite Em2. intros [= <-]. by rewrite Hc. }
  by exists res2, f2.
Qed.
