(* ===== verification/Stackwalker.v ===== *)
(** * Stack walking (processor/stackwalker.cc,
    google_breakpad/processor/stackwalker.h, call_stack.h, processor/call_stack.cc)

    [Walk] starts from the frame of the context, asks the walker of the CPU for
    one caller after the other, fills in the source lines and collects the
    frames in a [CallStack].  What a walker of a CPU provides is the class
    [Stackwalker], and [StackwalkerLaws] is what [Walk] relies on.

    The frames are objects that the walker creates, the call stack points to
    and a walker may still correct afterwards: they live in a heap, where
    [None] is a deleted frame. *)

From S2P Require Import Prelude LibcSupport Tokens PostfixEvaluator CfiFrameInfo SymbolModule CodeModules FrameSymbolizer.
#[local] Open Scope Z_scope.

(** A frame of a CPU: [StackFrame] and the registers. *)
Record CpuFrame (C : Type) : Type := mkCpuFrame {
  base : Frame;
  context : C;
  context_validity : Z;
}.
Arguments mkCpuFrame {C} _ _ _.
Arguments base {C} _.
Arguments context {C} _.
Arguments context_validity {C} _.

Abbreviation FrameHeap C := (list (option (CpuFrame C))).

Record CallStack : Type := mkCallStack {
  frames_ : list nat;
  tid_ : Z;
}.

Definition set_tid (stack : CallStack) (tid : Z) : CallStack := mkCallStack (frames_ stack) tid.

(** The static members of [Stackwalker]. *)
Record Limits : Type := mkLimits {
  max_frames_ : Z;
  max_frames_set_ : bool;
  max_frames_scanned_ : Z;
}.

Definition default_limits : Limits := mkLimits (Z.shiftl 1 20) false (Z.shiftl 1 14).

Definition set_max_frames (l : Limits) (max_frames : Z) : Limits :=
  mkLimits max_frames true (max_frames_scanned_ l).

Definition set_max_frames_scanned (l : Limits) (max_frames_scanned : Z) : Limits :=
  mkLimits (max_frames_ l) (max_frames_set_ l) max_frames_scanned.

Definition kRASearchWords : Z := 40.

Section call_stack.
Context {C : Type}.
Implicit Types (fh : FrameHeap C) (stack : CallStack).

Definition frame_at fh (p : nat) : outcome (CpuFrame C) :=
  match fh !! p with Some (Some f) => Ok f | _ => Undef end.

Definition delete_frame fh (p : nat) : outcome (FrameHeap C) :=
  let? _ := frame_at fh p in Ok (<[p := None]> fh).

Fixpoint delete_frames fh (frames : list nat) : outcome (FrameHeap C) :=
  match frames with
  | [] => Ok fh
  | p :: frames => let? fh := delete_frame fh p in delete_frames fh frames
  end.

(** [CallStack::Clear]: it deletes the frames but leaves their pointers in
    [frames_]. *)
Definition Clear fh stack : outcome (FrameHeap C * CallStack) :=
  let? fh := delete_frames fh (frames_ stack) in Ok (fh, mkCallStack (frames_ stack) 0).

Definition new_CallStack fh : outcome (FrameHeap C * CallStack) := Clear fh (mkCallStack [] 0).

Definition destroy_CallStack fh stack : outcome (FrameHeap C) :=
  let? (fh, _) := Clear fh stack in Ok fh.

(** [frames_.push_back(frame)] for a new object. *)
Definition push_frame fh stack (f : CpuFrame C) : FrameHeap C * CallStack :=
  (fh ++ [Some f], mkCallStack (frames_ stack ++ [length fh]) (tid_ stack)).

(** [frames.back()] *)
Definition last_frame fh stack : outcome (CpuFrame C) :=
  let? p := of_option (last (frames_ stack)) in frame_at fh p.
End call_stack.

(** [InsertSpecialAttentionModule]: modules are compared by address. *)
Definition InsertSpecialAttentionModule (module : option CodeModule) (modules : list CodeModule) :
    list CodeModule :=
  match module with
  | None => modules
  | Some m => if existsb (fun m' => (self m' =? self m)%nat) modules then modules else modules ++ [m]
  end.

Definition TerminateWalk (caller_ip caller_sp callee_sp : Z) (first_unwind : bool) : bool :=
  (caller_ip <? Z.shiftl 1 12) ||
  (if first_unwind then caller_sp <? callee_sp else caller_sp <=? callee_sp).

(** ** What a walker of a CPU provides *)
Class Stackwalker (C Sym : Type) : Type := {
  GetContextFrame : option (CpuFrame C);
  GetCallerFrame : Sym -> FrameHeap C -> CallStack -> bool ->
    outcome (option (CpuFrame C) * FrameHeap C * Sym);
}.

(** The calls of [MemoryRegion] that walkers make: a region as its base address,
    its size and the words it answers with. *)
Record Region : Type := mkRegion {
  GetBase : Z;
  GetSize : Z;
  read_32 : memory_region;
  read_64 : memory_region;
}.

(** [memory_], which some walkers set to NULL when the region is not in the
    address space of their CPU. *)
Definition memory_below (limit : Z) (memory_ : option Region) : option Region :=
  match memory_ with
  | Some r => if limit <? wrap 64 (wrap 64 (GetBase r + GetSize r) - 1) then None else Some r
  | None => None
  end.

(** [GetCallerFrame] of a walker that needs memory.  [caller] gets the last frame
    of the call stack and, when there are more, the frame before it, which it
    need not look at; it returns the new frame and the last frame, which it may
    have corrected. *)
Definition caller_of_frames {C Sym : Type} (memory_ : option Region)
    (caller : Region -> Sym -> CpuFrame C -> option (outcome (CpuFrame C)) -> bool ->
       outcome (option (CpuFrame C) * CpuFrame C * Sym))
    (s : Sym) (fh : FrameHeap C) (stack : CallStack) (stack_scan_allowed : bool) :
    outcome (option (CpuFrame C) * FrameHeap C * Sym) :=
  match memory_ with
  | None => Ok (None, fh, s)
  | Some memory =>
      let size := length (frames_ stack) in
      let? p := of_option (last (frames_ stack)) in
      let? last_frame := frame_at fh p in
      let last_last_frame :=
        if (2 <=? size)%nat
        then Some (let? q := of_option (frames_ stack !! (size - 2)%nat) in frame_at fh q) else None in
      let? (frame, last_frame, s) := caller memory s last_frame last_last_frame stack_scan_allowed in
      Ok (frame, <[p := Some last_frame]> fh, s)
  end.

(** [frames.size() == 1] *)
Definition only_frame {A : Type} (last_last_frame : option A) : bool :=
  match last_last_frame with None => true | Some _ => false end.

(** A walker that looks at the last frame only, with whether it is the only
    one. *)
Definition caller_of_last {C Sym : Type} (memory_ : option Region)
    (caller : Region -> Sym -> CpuFrame C -> bool -> bool -> outcome (option (CpuFrame C) * Sym)) :=
  caller_of_frames memory_ (fun memory s last_frame last_last_frame stack_scan_allowed =>
    let? (frame, s) := caller memory s last_frame (only_frame last_last_frame) stack_scan_allowed in
    Ok (frame, last_frame, s)).

(** A new frame: a context and its validity, with the instruction and the trust
    of [StackFrame]. *)
Definition new_cpu_frame {C : Type} (t : FrameTrust) (c : C) (validity : Z) : CpuFrame C :=
  mkCpuFrame (new_frame 0 t) c validity.

(** [frame->instruction = address] *)
Definition set_frame_instruction {C : Type} (f : CpuFrame C) (address : Z) : CpuFrame C :=
  let i := info (base f) in
  mkCpuFrame
    (mkFrame (mkStackFrame address (module_base i) (frame_function_name i) (frame_function_base i)
                (frame_source_file_name i) (frame_source_line i) (frame_source_line_base i))
       (FrameSymbolizer.module (base f)) (trust (base f)))
    (context f) (context_validity f).

(** ** Looking for return addresses *)

Section scan.
Context {Sym : Type} `{FrameSymbolizer Sym} (modules : option CodeModules).

Definition InstructionAddressSeemsValid (s : Sym) (address : Z) : outcome (bool * Sym) :=
  let? (symbolizer_result, frame, s) := sym_FillSourceLineInfo s (new_frame address FRAME_TRUST_NONE) in
  Ok (match FrameSymbolizer.module frame with
      | None => false
      | Some _ =>
          if negb (sym_HasImplementation s) then true
          else if bool_decide (symbolizer_result <> kNoError) &&
                  bool_decide (symbolizer_result <> kWarningCorruptSymbols) then true
          else negb (length (frame_function_name (info frame)) =? 0)%nat
      end, s).

(** [w] is the width of [InstructionType]; the comparison is in 64 bits. *)
Context (w : Z) (memory : memory_region).

Fixpoint ScanForReturnAddress_loop (fuel : nat) (s : Sym) (location limit : Z) :
    outcome (option (Z * Z) * Sym) :=
  match fuel with
  | O => Undef
  | S fuel =>
      if limit <? location then Ok (None, s)
      else
        match memory location with
        | None => Ok (None, s)
        | Some ip =>
            let? (found, s) :=
              match module_at modules (wrap w (ip - 1)) with
              | Some _ => InstructionAddressSeemsValid s (wrap w (ip - 1))
              | None => Ok (false, s)
              end in
            if found : bool then Ok (Some (location, ip), s)
            else ScanForReturnAddress_loop fuel s (wrap w (location + w / 8)) limit
        end
  end.

(** [location_found] and [ip_found], [None] for [false].  Every round advances
    by a word, so two more than the number of words is fuel enough. *)
Definition ScanForReturnAddress_words (s : Sym) (location_start searchwords : Z) :
    outcome (option (Z * Z) * Sym) :=
  ScanForReturnAddress_loop (Nat.add 2 (Z.to_nat searchwords)) s location_start
    (wrap 64 (location_start + searchwords * (w / 8))).

(** The overload that looks farther from the context frame. *)
Definition ScanForReturnAddress (s : Sym) (location_start : Z) (is_context_frame : bool) :
    outcome (option (Z * Z) * Sym) :=
  ScanForReturnAddress_words s location_start (if is_context_frame then kRASearchWords * 4 else kRASearchWords).
End scan.

(** ** Walking *)

Section walk.
Context {C Sym : Type} `{FrameSymbolizer Sym, Stackwalker C Sym} (limits : Limits).
Implicit Types (fh : FrameHeap C) (stack : CallStack) (s : Sym).

Definition set_base (f : CpuFrame C) (b : Frame) : CpuFrame C :=
  mkCpuFrame b (context f) (context_validity f).

(** The trust of a frame that counts as scanned. *)
Definition dubious (t : FrameTrust) : bool :=
  match t with
  | FRAME_TRUST_NONE | FRAME_TRUST_SCAN | FRAME_TRUST_CFI_SCAN => true
  | _ => false
  end.

(** The result, the symbolizer, the frames, the call stack and the two lists of
    modules. *)
Abbreviation walked := (bool * Sym * FrameHeap C * CallStack * list CodeModule * list CodeModule)%type.

(** The loop, from a frame that is not yet in the call stack. *)
Fixpoint Walk_loop (fuel : nat) s fh stack (modules_without_symbols modules_with_corrupt_symbols : list CodeModule)
    (frame : option (CpuFrame C)) (scanned_frames : Z) : outcome walked :=
  match fuel with
  | O => Undef
  | S fuel =>
      match frame with
      | None => Ok (true, s, fh, stack, modules_without_symbols, modules_with_corrupt_symbols)
      | Some frame =>
          let? (symbolizer_result, b, s) := sym_FillSourceLineInfo s (base frame) in
          let frame := set_base frame b in
          if decide (symbolizer_result = kInterrupt) then
            Ok (false, s, fh, stack, modules_without_symbols, modules_with_corrupt_symbols)
          else
            let modules_without_symbols :=
              if decide (symbolizer_result = kError)
              then InsertSpecialAttentionModule (FrameSymbolizer.module b) modules_without_symbols
              else modules_without_symbols in
            let modules_with_corrupt_symbols :=
              if decide (symbolizer_result = kWarningCorruptSymbols)
              then InsertSpecialAttentionModule (FrameSymbolizer.module b) modules_with_corrupt_symbols
              else modules_with_corrupt_symbols in
            let scanned_frames := if dubious (trust b) then wrap 32 (scanned_frames + 1) else scanned_frames in
            let (fh, stack) := push_frame fh stack frame in
            if max_frames_ limits <? Z.of_nat (length (frames_ stack)) then
              Ok (true, s, fh, stack, modules_without_symbols, modules_with_corrupt_symbols)
            else
              let stack_scan_allowed := scanned_frames <? max_frames_scanned_ limits in
              let? (frame, fh, s) := GetCallerFrame s fh stack stack_scan_allowed in
              Walk_loop fuel s fh stack modules_without_symbols modules_with_corrupt_symbols
                frame scanned_frames
      end
  end.

(** Every round adds a frame, and [max_frames_ + 1] frames end the walk. *)
Definition Walk s fh stack (modules_without_symbols modules_with_corrupt_symbols : list CodeModule) :
    outcome walked :=
  let? (fh, stack) := Clear fh stack in
  Walk_loop (Nat.add 2 (Z.to_nat (max_frames_ limits))) s fh stack
    modules_without_symbols modules_with_corrupt_symbols GetContextFrame 0.
End walk.

(** ** What [Walk] relies on *)

(** The frames the pointers lead to. *)
Definition frames_hold {C} (fh : FrameHeap C) (frames : list nat) (fs : list (CpuFrame C)) : Prop :=
  Forall2 (fun p f => fh !! p = Some (Some f)) frames fs.

(** The instruction pointer of a frame and the stack pointer of its registers;
    a walker may correct other registers of a frame it has returned before. *)
Class StackwalkerLaws (C Sym : Type) `{FrameSymbolizer Sym} (find : Z -> option CodeModule)
    `{!FrameSymbolizerLaws Sym find, !Stackwalker C Sym} : Type := {
  frame_ip : CpuFrame C -> Z;
  frame_sp : C -> Z;
  registers_ok : C -> Z -> Prop;
  corrected (f f' : CpuFrame C) : Prop :=
    base f' = base f /\ frame_ip f' = frame_ip f /\
    frame_sp (context f') = frame_sp (context f) /\ registers_ok (context f') (context_validity f');
  caller_of (first_unwind : bool) (callee f : CpuFrame C) : Prop :=
    registers_ok (context f) (context_validity f) /\ FrameSymbolizer.module (base f) = None /\
    TerminateWalk (frame_ip f) (frame_sp (context f)) (frame_sp (context callee)) first_unwind = false /\
    (trust (base f) = FRAME_TRUST_CFI \/ trust (base f) = FRAME_TRUST_FP \/ dubious (trust (base f)) = true);
  frame_ip_base f b :
    trust b = trust (base f) -> frame_instruction b = frame_instruction (base f) ->
    frame_ip (mkCpuFrame b (context f) (context_validity f)) = frame_ip f;
  GetContextFrame_ok f :
    GetContextFrame = Some f ->
    registers_ok (context f) (context_validity f) /\ base f = new_frame (frame_ip f) FRAME_TRUST_CONTEXT;
  GetCallerFrame_ok s fh stack fs callee allowed :
    sym_ok s -> frames_hold fh (frames_ stack) fs -> NoDup (frames_ stack) ->
    Forall (fun f => registers_ok (context f) (context_validity f)) fs -> last fs = Some callee ->
    exists o fh' s',
      GetCallerFrame s fh stack allowed = Ok (o, fh', s') /\ sym_ok s' /\ length fh' = length fh /\
      (forall p, p ∉ frames_ stack -> fh' !! p = fh !! p) /\
      (exists fs', frames_hold fh' (frames_ stack) fs' /\ Forall2 corrected fs fs') /\
      forall f, o = Some f ->
        caller_of (length fs =? 1)%nat callee f /\ (dubious (trust (base f)) = true -> allowed = true);
}.

Lemma TerminateWalk_false ip sp callee_sp first :
  TerminateWalk ip sp callee_sp first = false <->
  4096 <= ip /\ if first then callee_sp <= sp else callee_sp < sp.
Proof.
  unfold TerminateWalk. change (Z.shiftl 1 12) with 4096. rewrite orb_false_iff, Z.ltb_ge.
  destruct first; [rewrite Z.ltb_ge|rewrite Z.leb_gt]; tauto.
Qed.

Section frames.
Context {C : Type}.
Implicit Types (fh : FrameHeap C) (fs : list (CpuFrame C)).

Lemma frames_hold_push fh frames fs f :
  frames_hold fh frames fs -> frames_hold (fh ++ [Some f]) (frames ++ [length fh]) (fs ++ [f]).
Proof.
  intros H. apply Forall2_app.
  - eapply Forall2_impl; [exact H|]. intros p g Hp. by apply lookup_app_l_Some.
  - constructor; [|constructor]. by rewrite lookup_app_r, Nat.sub_diag by lia.
Qed.

Lemma frames_hold_last fh frames fs f :
  frames_hold fh frames fs -> last fs = Some f ->
  exists p, last frames = Some p /\ fh !! p = Some (Some f) /\ p ∈ frames.
Proof.
  intros H Hl. apply last_Some in Hl as [fs' ->]. apply Forall2_app_inv_r in H as (ps & l & _ & H & ->).
  apply Forall2_cons_inv_r in H as (p & ps' & Hp & H & ->). apply Forall2_nil_inv_r in H as ->.
  exists p. rewrite last_snoc. split; [done|]. split; [done|set_solver].
Qed.

Lemma last_frame_hold fh stack fs f :
  frames_hold fh (frames_ stack) fs -> last fs = Some f -> last_frame fh stack = Ok f.
Proof.
  intros H Hl. destruct (frames_hold_last _ _ _ _ H Hl) as (p & Ep & Hp & _).
  unfold last_frame, frame_at. rewrite Ep. cbn [of_option obind]. by rewrite Hp.
Qed.

Lemma frames_hold_insert fh frames fs p x :
  p ∉ frames -> frames_hold fh frames fs -> frames_hold (<[p := x]> fh) frames fs.
Proof.
  intros Hp H. revert Hp. induction H as [|q f frames fs Hq _ IH]; [constructor|].
  intros [Hn Hp]%not_elem_of_cons. constructor; [|by apply IH]. by rewrite list_lookup_insert_ne.
Qed.

(** Deleting every frame of a call stack. *)
Lemma delete_frames_spec frames : forall fh fs,
  frames_hold fh frames fs -> NoDup frames ->
  exists fh', delete_frames fh frames = Ok fh' /\ length fh' = length fh /\
    (forall p, p ∈ frames -> fh' !! p = Some None) /\ forall p, p ∉ frames -> fh' !! p = fh !! p.
Proof.
  induction frames as [|p frames IH]; intros fh fs H Hnd; cbn [delete_frames].
  { exists fh. repeat split; set_solver. }
  apply NoDup_cons in Hnd as [Hp Hnd]. apply Forall2_cons_inv_l in H as (f & fs' & Hf & H & ->).
  unfold delete_frame, frame_at. rewrite Hf. cbn [obind].
  destruct (IH (<[p := None]> fh) fs') as (fh' & -> & Hl & Hd & Hk); [by apply frames_hold_insert|done|].
  exists fh'. rewrite Hl, length_insert. split; [done|]. split; [done|]. split.
  - intros q [->|Hq]%elem_of_cons; [|by apply Hd]. rewrite Hk by done. apply list_lookup_insert_eq.
    by apply lookup_lt_Some in Hf.
  - intros q [Hq Hq']%not_elem_of_cons. rewrite Hk by done. by apply list_lookup_insert_ne.
Qed.
End frames.

(** ** The call stack that a walk builds *)

Section walk_proofs.
Context {C Sym : Type} `{FrameSymbolizer Sym} {find : Z -> option CodeModule}.
Context `{!FrameSymbolizerLaws Sym find, !Stackwalker C Sym, !StackwalkerLaws C Sym find}.
Context (limits : Limits).
Context (Hscanned : uint 32 (max_frames_scanned_ limits)).
Implicit Types (fh : FrameHeap C) (fs : list (CpuFrame C)) (f g : CpuFrame C) (s : Sym).

Definition is_dubious f : bool := dubious (trust (base f)).

(** How many frames were found by scanning. *)
Definition scanned_count fs : Z := Z.of_nat (length (List.filter is_dubious fs)).

(** A frame and its caller. *)
Definition unwound (first_unwind : bool) f g : Prop :=
  (if first_unwind then frame_sp (context f) <= frame_sp (context g)
   else frame_sp (context f) < frame_sp (context g)) /\
  4096 <= frame_ip g /\
  (trust (base g) = FRAME_TRUST_CFI \/ trust (base g) = FRAME_TRUST_FP \/ is_dubious g = true).

(** Every frame is the caller of the one before. *)
Definition unwinds fs : Prop :=
  forall i f g, fs !! i = Some f -> fs !! S i = Some g -> unwound (i =? 0)%nat f g.

Definition context_frame f : Prop :=
  exists c, GetContextFrame = Some c /\ frame_ip f = frame_ip c /\
    frame_sp (context f) = frame_sp (context c) /\
    frame_instruction (base f) = frame_ip c /\ trust (base f) = FRAME_TRUST_CONTEXT.

Record stack_ok fs : Prop := {
  stack_unwinds : unwinds fs;
  stack_context f : fs !! 0%nat = Some f -> context_frame f;
  stack_registers : Forall (fun f => registers_ok (context f) (context_validity f)) fs;
  stack_modules : Forall (fun f => FrameSymbolizer.module (base f) = find (frame_instruction (base f))) fs;
  stack_scanned : scanned_count fs <= max_frames_scanned_ limits;
}.

Lemma corrected_refl f : registers_ok (context f) (context_validity f) -> corrected f f.
Proof. done. Qed.

Lemma corrected_scanned fs fs' : Forall2 corrected fs fs' -> scanned_count fs' = scanned_count fs.
Proof.
  unfold scanned_count. intros Hc. f_equal.
  induction Hc as [|f f' fs fs' (Hb & _) _ IH]; cbn [List.filter]; [done|].
  assert (is_dubious f' = is_dubious f) as -> by (unfold is_dubious; by rewrite Hb).
  destruct (is_dubious f); cbn [length]; congruence.
Qed.

Lemma stack_ok_corrected fs fs' : stack_ok fs -> Forall2 corrected fs fs' -> stack_ok fs'.
Proof.
  intros [Hu Hc Hr Hm Hs] Hall.
  assert (forall i f', fs' !! i = Some f' -> exists f, fs !! i = Some f /\ corrected f f') as Hl.
  { intros i f' Hf'. by apply (Forall2_lookup_r _ _ _ _ _ Hall). }
  split.
  - intros i f' g' Hf' Hg'. destruct (Hl _ _ Hf') as (f & Hf & Hbf & _ & Hsf & _).
    destruct (Hl _ _ Hg') as (g & Hg & Hbg & Hig & Hsg & _).
    specialize (Hu i f g Hf Hg). unfold unwound, is_dubious in *. by rewrite Hsf, Hsg, Hig, Hbg.
  - intros f' Hf'. destruct (Hl _ _ Hf') as (f & Hf & Hbf & Hif & Hsf & _).
    destruct (Hc f Hf) as (c & ? & ? & ? & ? & ?). exists c. rewrite Hbf, Hif, Hsf. done.
  - apply Forall_lookup. intros i f' Hf'. destruct (Hl _ _ Hf') as (f & Hf & _ & _ & _ & Hr'). done.
  - apply Forall_lookup. intros i f' Hf'. destruct (Hl _ _ Hf') as (f & Hf & Hb & _). rewrite Hb.
    rewrite Forall_lookup in Hm. by apply (Hm i).
  - by rewrite (corrected_scanned _ _ Hall).
Qed.

(** The next frame of a call stack. *)
Definition next_frame fs f : Prop :=
  registers_ok (context f) (context_validity f) /\ FrameSymbolizer.module (base f) = None /\
  match last fs with
  | None => GetContextFrame = Some f /\ base f = new_frame (frame_ip f) FRAME_TRUST_CONTEXT
  | Some callee => unwound (length fs =? 1)%nat callee f /\
      (is_dubious f = true -> scanned_count fs < max_frames_scanned_ limits)
  end.

Lemma scanned_count_snoc fs f :
  scanned_count (fs ++ [f]) = scanned_count fs + (if is_dubious f then 1 else 0).
Proof.
  unfold scanned_count. rewrite List.filter_app, length_app. cbn [List.filter].
  destruct (is_dubious f); cbn [length]; lia.
Qed.

Lemma scanned_count_nonneg fs : 0 <= scanned_count fs.
Proof. unfold scanned_count. lia. Qed.

Lemma stack_ok_push fs f b :
  stack_ok fs -> next_frame fs f -> trust b = trust (base f) ->
  frame_instruction b = frame_instruction (base f) ->
  FrameSymbolizer.module b = match find (frame_instruction (base f)) with
                             | Some m => Some m | None => FrameSymbolizer.module (base f) end ->
  stack_ok (fs ++ [set_base f b]).
Proof.
  intros [Hu Hc Hr Hm Hs] (Hreg & Hnone & Hnext) Ht Hi Hmod.
  assert (is_dubious (set_base f b) = is_dubious f) as Hd by (unfold is_dubious; cbn; by rewrite Ht).
  assert (frame_ip (set_base f b) = frame_ip f) as Hip by by apply frame_ip_base.
  split.
  - intros i g h Hg Hh. destruct (decide (S i < length fs)%nat) as [Hlt|Hge].
    + rewrite lookup_app_l in Hg, Hh by lia. by apply (Hu i).
    + assert (S i = length fs) as Ei.
      { apply lookup_lt_Some in Hh. rewrite length_app in Hh. cbn in Hh. lia. }
      rewrite lookup_app_r, Ei, Nat.sub_diag in Hh by lia. injection Hh as <-.
      rewrite lookup_app_l in Hg by lia.
      assert (last fs = Some g) as El by (rewrite last_lookup; by replace (Nat.pred (length fs)) with i by lia).
      rewrite El in Hnext. destruct Hnext as [Hn _]. unfold unwound in *. rewrite Hd, Hip. cbn [context set_base base].
      rewrite Ht. rewrite <- Ei in Hn. by destruct i.
  - intros g Hg. destruct fs as [|f0 fs].
    + injection Hg as <-. destruct Hnext as [Hctx Hbase]. exists f. rewrite Hip. cbn [context set_base base].
      rewrite Ht, Hi, Hbase. done.
    + apply Hc. done.
  - apply Forall_app. split; [done|]. by apply Forall_singleton.
  - apply Forall_app. split; [done|]. apply Forall_singleton. cbn [base set_base]. rewrite Hmod, Hi.
    by destruct (find _).
  - rewrite scanned_count_snoc, Hd. destruct (is_dubious f) eqn:Ed; [|lia].
    destruct (last fs) as [callee|] eqn:El.
    + destruct Hnext as [_ Hlim]. specialize (Hlim eq_refl). lia.
    + destruct Hnext as [_ Hbase]. unfold is_dubious in Ed. by rewrite Hbase in Ed.
Qed.

(** The modules a walk adds to a list: without repetition, and each the module
    of a frame. *)
Definition reports (ms ms' : list CodeModule) fs : Prop :=
  (exists l, ms' = ms ++ l /\ forall m, m ∈ l -> exists f, f ∈ fs /\ FrameSymbolizer.module (base f) = Some m) /\
  (NoDup (map self ms) -> NoDup (map self ms')).

Lemma reports_refl ms fs : reports ms ms fs.
Proof. split; [exists []; rewrite app_nil_r; split; [done|set_solver]|done]. Qed.

Lemma reports_trans ms1 ms2 ms3 fs : reports ms1 ms2 fs -> reports ms2 ms3 fs -> reports ms1 ms3 fs.
Proof.
  intros [(l1 & -> & H1) N1] [(l2 & -> & H2) N2]. split; [|auto].
  exists (l1 ++ l2). rewrite app_assoc. split; [done|]. intros m [?|?]%elem_of_app; auto.
Qed.

Lemma reports_insert ms fs f :
  f ∈ fs -> reports ms (InsertSpecialAttentionModule (FrameSymbolizer.module (base f)) ms) fs.
Proof.
  intros Hf. destruct (FrameSymbolizer.module (base f)) as [m|] eqn:Em; [|apply reports_refl].
  cbn [InsertSpecialAttentionModule]. destruct (existsb _ ms) eqn:E; [apply reports_refl|].
  split.
  - exists [m]. split; [done|]. intros m' ->%list_elem_of_singleton. by exists f.
  - intros Hnd. rewrite map_app. apply NoDup_app. split; [done|]. split; [|apply NoDup_singleton].
    intros x Hx ->%list_elem_of_singleton. apply list_elem_of_In, in_map_iff in Hx as (m' & Es & Hm').
    assert (existsb (fun m' => (self m' =? self m)%nat) ms = true); [|congruence].
    apply existsb_exists. exists m'. split; [done|]. by apply Nat.eqb_eq.
Qed.

(** The frames of [fs] are the first of [fs']. *)
Definition extends fs fs' : Prop :=
  forall i f, fs !! i = Some f -> exists f', fs' !! i = Some f' /\ base f' = base f.

Lemma extends_trans fs1 fs2 fs3 : extends fs1 fs2 -> extends fs2 fs3 -> extends fs1 fs3.
Proof.
  intros H1 H2 i f Hf. destruct (H1 i f Hf) as (f' & Hf' & E'). destruct (H2 i f' Hf') as (f2 & Hf2 & E2).
  exists f2. split; [done|congruence].
Qed.

Lemma extends_corrected fs fs' : Forall2 corrected fs fs' -> extends fs fs'.
Proof.
  intros Hc i f Hf. destruct (Forall2_lookup_l _ _ _ _ _ Hc Hf) as (f' & Hf' & E & _). by exists f'.
Qed.

Lemma extends_app fs f : extends fs (fs ++ [f]).
Proof. intros i g Hg. exists g. split; [by apply lookup_app_l_Some|done]. Qed.

(** Why a walk ends: no context, the limit, no caller, or an interrupt. *)
Inductive walk_ended fs stack fh s : bool -> Prop :=
| ended_no_context : fs = [] -> GetContextFrame = None -> walk_ended fs stack fh s true
| ended_limit : Z.of_nat (length fs) = max_frames_ limits + 1 -> walk_ended fs stack fh s true
| ended_no_caller s1 fh1 allowed :
    GetCallerFrame s1 fh1 stack allowed = Ok (None, fh, s) -> walk_ended fs stack fh s true
| ended_interrupt s1 b b' :
    sym_FillSourceLineInfo s1 b = Ok (kInterrupt, b', s) -> walk_ended fs stack fh s false.

(** The call stack [fs] of a walk that has pushed its frames on a heap of [n0]
    objects. *)
Record walking (n0 : nat) fh stack fs s : Prop := {
  walking_sym : sym_ok s;
  walking_hold : frames_hold fh (frames_ stack) fs;
  walking_frames : frames_ stack = seq n0 (length fs);
  walking_heap : length fh = (n0 + length fs)%nat;
  walking_stack : stack_ok fs;
}.

Definition keeps_others (n0 : nat) fh fh' : Prop := forall p, (p < n0)%nat -> fh' !! p = fh !! p.

Lemma walking_push n0 fh stack fs s f b s' fh' stack' :
  walking n0 fh stack fs s -> next_frame fs f -> sym_ok s' ->
  trust b = trust (base f) -> frame_instruction b = frame_instruction (base f) ->
  FrameSymbolizer.module b = match find (frame_instruction (base f)) with
                             | Some m => Some m | None => FrameSymbolizer.module (base f) end ->
  push_frame fh stack (set_base f b) = (fh', stack') ->
  walking n0 fh' stack' (fs ++ [set_base f b]) s' /\ keeps_others n0 fh fh'.
Proof.
  intros [Hs Hh Hf Hl Hok] Hn Hs' Ht Hi Hm [= <- <-]. split.
  - split; cbn [frames_]; [done|by apply frames_hold_push| | |by apply stack_ok_push].
    + by rewrite Hf, Hl, length_app, seq_app.
    + rewrite !length_app, Hl. cbn. lia.
  - intros p Hp. apply lookup_app_l. lia.
Qed.

Lemma walking_caller n0 fh stack fs s callee allowed :
  walking n0 fh stack fs s -> last fs = Some callee ->
  (allowed = true -> scanned_count fs < max_frames_scanned_ limits) ->
  exists o fh' s' fs', GetCallerFrame s fh stack allowed = Ok (o, fh', s') /\
    walking n0 fh' stack fs' s' /\ keeps_others n0 fh fh' /\ extends fs fs' /\
    scanned_count fs' = scanned_count fs /\ length fs' = length fs /\
    forall f, o = Some f -> next_frame fs' f.
Proof.
  intros [Hs Hh Hf Hl Hok] El Hall.
  destruct (GetCallerFrame_ok s fh stack fs callee allowed Hs Hh ltac:(rewrite Hf; apply NoDup_seq) (stack_registers _ Hok) El)
    as (o & fh' & s' & E & Hs' & Hlen & Hkeep & (fs' & Hh' & Hcor) & Hcaller).
  pose proof (Forall2_length _ _ _ Hcor) as Elen. pose proof (corrected_scanned _ _ Hcor) as Esc.
  exists o, fh', s', fs'. split; [done|]. split; [|split; [|split; [by apply extends_corrected|split; [done|split; [done|]]]]].
  - split; [done|done|by rewrite <- Elen|by rewrite Hlen, <- Elen|by eapply stack_ok_corrected].
  - intros p Hp. apply Hkeep. rewrite Hf, elem_of_seq. lia.
  - intros f Ef. destruct (Hcaller f Ef) as [(Hreg & Hmod & Hterm & Htrust) Hd].
    apply TerminateWalk_false in Hterm as [Hip Hsp]. split; [done|]. split; [done|].
    rewrite last_lookup in El. destruct (Forall2_lookup_l _ _ _ _ _ Hcor El) as (callee' & El' & _ & _ & Esp & _).
    rewrite last_lookup, <- Elen, El'. split.
    + split; [|split; [done|exact Htrust]]. rewrite Esp. exact Hsp.
    + intros Hdub. rewrite Esc. apply Hall, Hd, Hdub.
Qed.

Lemma Walk_loop_spec (Hmax : 0 <= max_frames_ limits) n0 fuel : forall s fh stack ms1 ms2 frame fs,
  (Z.to_nat (max_frames_ limits) + 2 - length fs <= fuel)%nat -> Z.of_nat (length fs) <= max_frames_ limits ->
  walking n0 fh stack fs s ->
  match frame with Some f => next_frame fs f | None => walk_ended fs stack fh s true end ->
  exists ok s' fh' stack' ms1' ms2' fs',
    Walk_loop limits fuel s fh stack ms1 ms2 frame (scanned_count fs) = Ok (ok, s', fh', stack', ms1', ms2') /\
    walking n0 fh' stack' fs' s' /\ keeps_others n0 fh fh' /\ extends fs fs' /\
    (fs' = [] -> ok = true -> frame = None) /\
    Z.of_nat (length fs') <= max_frames_ limits + 1 /\ walk_ended fs' stack' fh' s' ok /\
    reports ms1 ms1' fs' /\ reports ms2 ms2' fs'.
Proof.
  induction fuel as [|fuel IH]; intros s fh stack ms1 ms2 frame fs Hfuel Hlen Hw Hframe; [lia|].
  cbn [Walk_loop]. destruct frame as [f|].
  2: { exists true, s, fh, stack, ms1, ms2, fs. split_and!; auto using reports_refl; try done; [|lia].
       intros i g Hg. by exists g. }
  destruct (sym_FillSourceLineInfo_ok s (base f) (walking_sym _ _ _ _ _ Hw)) as (result & b & s1 & E & Hs1 & Hi & Ht & Hm).
  rewrite E. cbn [obind]. destruct (decide (result = kInterrupt)) as [->|Hres].
  { exists false, s1, fh, stack, ms1, ms2, fs. split_and!; auto using reports_refl; try done.
    - destruct Hw; by split.
    - intros i g Hg. by exists g.
    - lia.
    - by eapply ended_interrupt. }
  set (ms1' := if decide (result = kError) then _ else _). set (ms2' := if decide (result = kWarningCorruptSymbols) then _ else _).
  destruct (push_frame fh stack (set_base f b)) as [fh1 stack1] eqn:Epush.
  destruct (walking_push n0 fh stack fs s f b s1 fh1 stack1 Hw Hframe Hs1 Ht Hi Hm Epush) as [Hw1 Hk1].
  set (fs1 := fs ++ [set_base f b]) in *.
  assert (length fs1 = S (length fs)) as El1 by (unfold fs1; rewrite length_app; cbn; lia).
  assert (length (frames_ stack1) = S (length fs)) as Elf.
  { rewrite (walking_frames _ _ _ _ _ Hw1), length_seq. exact El1. }
  assert ((if dubious (trust b) then wrap 32 (scanned_count fs + 1) else scanned_count fs) = scanned_count fs1) as Esc.
  { pose proof (stack_scanned _ (walking_stack _ _ _ _ _ Hw1)) as Hsc. unfold fs1 in Hsc |- *. rewrite scanned_count_snoc in Hsc |- *.
    unfold is_dubious in Hsc |- *. cbn [base set_base] in Hsc |- *. pose proof (scanned_count_nonneg fs).
    destruct (dubious (trust b)); [|lia]. apply wrap_small. unfold uint in *. lia. }
  rewrite Esc, Elf.
  assert (forall fs', extends fs1 fs' -> reports ms1 ms1' fs' /\ reports ms2 ms2' fs') as Hrep.
  { intros fs' Hext. destruct (Hext (length fs) (set_base f b)) as (f' & Hf' & Eb).
    { unfold fs1. by rewrite lookup_app_r, Nat.sub_diag by lia. }
    apply list_elem_of_lookup_2 in Hf'. cbn [base set_base] in Eb.
    pose proof (fun ms => reports_insert ms fs' f' Hf') as Hins. rewrite Eb in Hins.
    unfold ms1', ms2'. split; case_decide; auto using reports_refl. }
  destruct (Z.ltb_spec (max_frames_ limits) (Z.of_nat (S (length fs)))) as [Hgt|Hle].
  { exists true, s1, fh1, stack1, ms1', ms2', fs1. split; [done|]. split; [done|]. split; [done|].
    split; [apply extends_app|]. split; [by unfold fs1; destruct fs|]. split; [lia|]. split; [apply ended_limit; lia|].
    apply Hrep. intros i g Hg. by exists g. }
  destruct (walking_caller n0 fh1 stack1 fs1 s1 (set_base f b) (scanned_count fs1 <? max_frames_scanned_ limits) Hw1)
    as (o & fh2 & s2 & fs2 & Ecall & Hw2 & Hk2 & Hext2 & Esc2 & Elen2 & Hnext).
  { unfold fs1. apply last_snoc. }
  { apply Z.ltb_lt. }
  rewrite Ecall. cbn [obind]. rewrite <- Esc2.
  destruct (IH s2 fh2 stack1 ms1' ms2' o fs2) as (ok & s' & fh' & stack' & m1 & m2 & fs' & E' & Hw' & Hk' & Hext' & Hne & Hlim & Hend & Hr1 & Hr2).
  - lia.
  - lia.
  - done.
  - destruct o as [g|]; [by apply Hnext|]. by eapply ended_no_caller.
  - assert (extends fs1 fs') as Hext1 by by eapply extends_trans.
    exists ok, s', fh', stack', m1, m2, fs'. split; [done|]. split; [done|].
    split; [intros p Hp; by rewrite Hk', Hk2, Hk1|]. split; [by eapply extends_trans; [apply extends_app|]|].
    split.
    { intros ->. destruct (Hext1 (length fs) (set_base f b)) as (f' & Hf' & _); [|done].
      unfold fs1. by rewrite lookup_app_r, Nat.sub_diag by lia. }
    split; [done|]. split; [done|].
    destruct (Hrep fs' Hext1). split; by eapply reports_trans.
Qed.
End walk_proofs.

(** ** Scanning ends *)

(** A word of [w] bits, and the one after it where the address wraps. *)
Definition region_scanned (w : Z) (memory : memory_region) : Prop :=
  forall a v, uint w a -> memory a = Some v ->
    uint w v /\ (2 ^ w <= a + w / 8 -> memory (wrap w (a + w / 8)) = None).

(** A word that can be read ends below the end of the address space. *)
Definition region_bounded (w : Z) (memory : memory_region) : Prop :=
  forall a v, memory a = Some v -> 0 <= a /\ a + w / 8 < 2 ^ w /\ uint w v.

Lemma region_bounded_scanned w memory : region_bounded w memory -> region_scanned w memory.
Proof. intros Hm a v _ E. destruct (Hm a v E) as (_ & ? & ?). split; [done|lia]. Qed.

(** A region is shorter than 4 GiB and ends in the address space; its words are
    inside it. *)
Record region_good (r : Region) : Prop := {
  good_base : 0 <= GetBase r;
  good_size : uint 32 (GetSize r);
  good_end : GetBase r + GetSize r < 2 ^ 64;
  good_32 a v : read_32 r a = Some v -> GetBase r <= a /\ a + 4 <= GetBase r + GetSize r /\ uint 32 v;
  good_64 a v : read_64 r a = Some v -> GetBase r <= a /\ a + 8 <= GetBase r + GetSize r /\ uint 64 v;
}.

Lemma good_scanned_32 r : region_good r -> region_scanned 32 (read_32 r).
Proof.
  intros Hr a v Ha E. destruct (good_32 r Hr a v E) as (H1 & H2 & Hv). split; [done|].
  change (32 / 8) with 4. intros Hwrap. pose proof (good_size r Hr) as Hs. unfold uint in *.
  rewrite wrap_over by lia. destruct (read_32 r (a + 4 - 2 ^ 32)) as [x|] eqn:Ex; [|done].
  destruct (good_32 r Hr _ _ Ex). lia.
Qed.

Lemma good_bounded_64 r : region_good r -> region_bounded 64 (read_64 r).
Proof.
  intros Hr a v E. destruct (good_64 r Hr a v E) as (H1 & H2 & Hv). pose proof (good_base r Hr).
  pose proof (good_end r Hr). change (64 / 8) with 8. split; [lia|]. split; [lia|done].
Qed.

Lemma memory_below_good limit memory_ :
  (forall r, memory_ = Some r -> region_good r) -> forall r, memory_below limit memory_ = Some r -> region_good r.
Proof.
  intros Hm r. unfold memory_below. destruct memory_ as [r'|]; [|done]. destruct (_ <? _); [done|].
  intros [= ->]. by apply Hm.
Qed.

Section last_frame_walker.
Context {C Sym : Type} `{FrameSymbolizer Sym} {find : Z -> option CodeModule} `{!FrameSymbolizerLaws Sym find}.
Context (ip : CpuFrame C -> Z) (sp : C -> Z) (ok : C -> Z -> Prop) (memory_ : option Region).

(** A caller and a correction as [StackwalkerLaws] asks for them. *)
Definition good_caller (first allowed : bool) (callee f : CpuFrame C) : Prop :=
  ok (context f) (context_validity f) /\ FrameSymbolizer.module (base f) = None /\
  TerminateWalk (ip f) (sp (context f)) (sp (context callee)) first = false /\
  (trust (base f) = FRAME_TRUST_CFI \/ trust (base f) = FRAME_TRUST_FP \/
   dubious (trust (base f)) = true /\ allowed = true).

Definition good_correction (f f' : CpuFrame C) : Prop :=
  base f' = base f /\ ip f' = ip f /\ sp (context f') = sp (context f) /\ ok (context f') (context_validity f').

(** What [StackwalkerLaws] asks of [GetCallerFrame]. *)
Definition keeps_contract
    (get : Sym -> FrameHeap C -> CallStack -> bool -> outcome (option (CpuFrame C) * FrameHeap C * Sym)) : Prop :=
  forall s fh stack fs callee allowed,
    sym_ok s -> frames_hold fh (frames_ stack) fs -> NoDup (frames_ stack) ->
    Forall (fun f => ok (context f) (context_validity f)) fs -> last fs = Some callee ->
    exists o fh' s',
      get s fh stack allowed = Ok (o, fh', s') /\ sym_ok s' /\ length fh' = length fh /\
      (forall p, p ∉ frames_ stack -> fh' !! p = fh !! p) /\
      (exists fs', frames_hold fh' (frames_ stack) fs' /\ Forall2 good_correction fs fs') /\
      forall f, o = Some f ->
        (ok (context f) (context_validity f) /\ FrameSymbolizer.module (base f) = None /\
         TerminateWalk (ip f) (sp (context f)) (sp (context callee)) (length fs =? 1)%nat = false /\
         (trust (base f) = FRAME_TRUST_CFI \/ trust (base f) = FRAME_TRUST_FP \/ dubious (trust (base f)) = true)) /\
        (dubious (trust (base f)) = true -> allowed = true).

Lemma caller_of_frames_ok caller :
  (forall memory s callee before allowed,
     memory_ = Some memory -> sym_ok s -> ok (context callee) (context_validity callee) ->
     (forall o, before = Some o -> exists f, o = Ok f /\ ok (context f) (context_validity f)) ->
     exists o callee' s', caller memory s callee before allowed = Ok (o, callee', s') /\ sym_ok s' /\
       good_correction callee callee' /\
       forall f, o = Some f -> good_caller (only_frame before) allowed callee f) ->
  keeps_contract (caller_of_frames memory_ caller).
Proof.
  intros Hcaller s fh stack fs callee allowed Hs Hh Hnd Hr El. unfold caller_of_frames.
  assert (forall i f, fs !! i = Some f -> ok (context f) (context_validity f)) as Hok by by apply Forall_lookup.
  destruct memory_ as [memory|].
  2: { exists None, fh, s. split_and!; try done. exists fs. split; [done|]. apply Forall_Forall2_diag.
       apply (Forall_impl _ _ _ Hr). by intros f. }
  pose proof (Forall2_length _ _ _ Hh) as Elen. destruct (frames_hold_last _ _ _ _ Hh El) as (p & Ep & Hp & Hin).
  apply last_Some in El as [fs0 ->]. apply last_Some in Ep as [ps Eps].
  rewrite Eps in *. rewrite !length_app in Elen. cbn [length] in Elen. rewrite last_snoc. cbn [of_option obind].
  unfold frame_at at 1. rewrite Hp. cbn [obind]. rewrite length_app. cbn [length].
  set (before := if (2 <=? _)%nat then _ else _).
  assert (forall o, before = Some o -> exists f, o = Ok f /\ ok (context f) (context_validity f)) as Hbefore.
  { unfold before. intros o. destruct (Nat.leb_spec 2 (length ps + 1)) as [Hlen|]; [|done]. intros [= <-].
    destruct (lookup_lt_is_Some_2 (ps ++ [p]) (length ps + 1 - 2)) as [q Hq]; [rewrite length_app; cbn; lia|].
    rewrite Hq. cbn [of_option obind]. destruct (Forall2_lookup_l _ _ _ _ _ Hh Hq) as (f & Hf & Hqf).
    exists f. unfold frame_at. rewrite Hqf. split; [done|]. by apply (Hok _ _ Hf). }
  assert (only_frame before = (length (fs0 ++ [callee]) =? 1)%nat) as Efirst.
  { unfold before. rewrite length_app. cbn [length]. destruct (Nat.leb_spec 2 (length ps + 1)); cbn; symmetry.
    - apply Nat.eqb_neq. lia.
    - apply Nat.eqb_eq. lia. }
  destruct (Hcaller memory s callee before allowed eq_refl Hs) as (o & callee' & s' & E & Hs' & Hcor & Ho); [|done|].
  { apply (Hok (length fs0)). by rewrite lookup_app_r, Nat.sub_diag by lia. }
  rewrite E. cbn [obind]. exists o, (<[p := Some callee']> fh), s'. split; [done|]. split; [done|].
  split; [apply length_insert|]. split; [intros q Hq; apply list_lookup_insert_ne; set_solver|].
  apply NoDup_app in Hnd as (_ & Hnd & _). apply Forall2_app_inv in Hh as [Hh _]; [|lia].
  split.
  - exists (fs0 ++ [callee']). split.
    + apply Forall2_app; [apply frames_hold_insert; [set_solver|done]|]. constructor; [|constructor].
      apply list_lookup_insert_eq. by apply lookup_lt_Some in Hp.
    + apply Forall2_app; [|by constructor]. apply Forall_Forall2_diag. apply Forall_app in Hr as [Hr _].
      apply (Forall_impl _ _ _ Hr). by intros f.
  - intros f Ef. destruct (Ho f Ef) as (? & ? & Ht & Htr). rewrite Efirst in Ht. split.
    + split_and!; try done. destruct Htr as [->|[->|[-> _]]]; auto.
    + destruct Htr as [->|[->|[_ ?]]]; done.
Qed.

Lemma caller_of_last_ok caller :
  (forall memory s callee first allowed,
     memory_ = Some memory -> sym_ok s -> ok (context callee) (context_validity callee) ->
     exists o s', caller memory s callee first allowed = Ok (o, s') /\ sym_ok s' /\
       forall f, o = Some f -> good_caller first allowed callee f) ->
  keeps_contract (caller_of_last memory_ caller).
Proof.
  intros Hcaller. apply caller_of_frames_ok. intros memory s callee before allowed Em Hs Hc _.
  destruct (Hcaller memory s callee (only_frame before) allowed Em Hs Hc) as (o & s' & E & Hs' & Ho).
  rewrite E. cbn [obind]. by exists o, callee, s'.
Qed.
End last_frame_walker.

Section scan_proofs.
Context {Sym : Type} `{FrameSymbolizer Sym} {find : Z -> option CodeModule} `{!FrameSymbolizerLaws Sym find}.
Context (modules : option CodeModules).

Lemma InstructionAddressSeemsValid_spec (s : Sym) address :
  sym_ok s -> exists b s', InstructionAddressSeemsValid s address = Ok (b, s') /\ sym_ok s' /\
    (b = true -> is_Some (find address)).
Proof.
  intros Hs. unfold InstructionAddressSeemsValid.
  destruct (sym_FillSourceLineInfo_ok s (new_frame address FRAME_TRUST_NONE) Hs)
    as (result & frame & s' & E & Hs' & _ & _ & Hm).
  rewrite E. cbn [obind]. eexists _, s'. split; [done|]. split; [done|]. rewrite Hm. cbn.
  by destruct (find address).
Qed.

Context (w : Z) (memory : memory_region) (Hw : w = 32 \/ w = 64) (Hmem : region_scanned w memory).

Lemma ScanForReturnAddress_loop_spec limit : forall fuel (s : Sym) location,
  sym_ok s -> uint w location ->
  limit + w / 8 < location + Z.of_nat fuel * (w / 8) -> (0 < fuel)%nat ->
  exists o s', ScanForReturnAddress_loop modules w memory fuel s location limit = Ok (o, s') /\ sym_ok s' /\
    forall a ip, o = Some (a, ip) -> memory a = Some ip /\ location <= a <= limit /\
      (w / 8 | a - location) /\ is_Some (find (wrap w (ip - 1))) /\ uint w ip /\ uint w a.
Proof.
  assert (0 < w / 8) as Hw8 by (destruct Hw as [-> | ->]; vm_compute; reflexivity).
  induction fuel as [|fuel IH]; intros s location Hs Hloc Hf Hpos; [lia|]. cbn [ScanForReturnAddress_loop].
  destruct (Z.ltb_spec limit location) as [Hlt|Hle]; [exists None, s; by split|].
  destruct (memory location) as [ip|] eqn:Em; [|exists None, s; by split].
  destruct (Hmem location ip Hloc Em) as (Hip & Hend).
  assert (exists b s1, match module_at modules (wrap w (ip - 1)) with
    | Some _ => InstructionAddressSeemsValid s (wrap w (ip - 1)) | None => Ok (false, s) end = Ok (b, s1) /\ sym_ok s1 /\
    (b = true -> is_Some (find (wrap w (ip - 1))))) as (b & s1 & -> & Hs1 & Hb).
  { destruct (module_at modules (wrap w (ip - 1))); [by apply InstructionAddressSeemsValid_spec|].
    exists false, s. by split. }
  cbn [obind]. destruct b.
  { exists (Some (location, ip)), s1. split; [done|]. split; [done|]. intros a ip' [= <- <-].
    rewrite Z.sub_diag. split; [done|]. split; [lia|]. split; [apply Z.divide_0_r|]. split; [by apply Hb|by split]. }
  destruct fuel as [|fuel]; [nia|]. unfold uint in Hloc.
  destruct (decide (2 ^ w <= location + w / 8)) as [Hwrap|Hwrap].
  { exists None, s1. cbn [ScanForReturnAddress_loop]. rewrite Hend by done. by destruct (limit <? _). }
  assert (wrap w (location + w / 8) = location + w / 8) as -> by (apply wrap_small; unfold uint; lia).
  destruct (IH s1 (location + w / 8)) as (o & s' & E & Hs' & Ho); [done|unfold uint; lia|lia|lia|].
  exists o, s'. split; [exact E|]. split; [done|]. intros a ip' Eo. destruct (Ho a ip' Eo) as (? & ? & Hd & ? & ? & ?).
  split; [done|]. split; [lia|]. split; [|by split_and!]. replace (a - location) with (a - (location + w / 8) + w / 8) by lia.
  by apply Z.divide_add_r; [|apply Z.divide_refl].
Qed.

(** A scan returns; what it finds is a word of the window whose value leads
    into a module. *)
Lemma ScanForReturnAddress_words_spec (s : Sym) start words :
  sym_ok s -> uint w start -> 0 <= words -> exists o s',
    ScanForReturnAddress_words modules w memory s start words = Ok (o, s') /\ sym_ok s' /\
    forall a ip, o = Some (a, ip) -> memory a = Some ip /\ start <= a <= start + words * (w / 8) /\
      (w / 8 | a - start) /\ is_Some (find (wrap w (ip - 1))) /\ uint w ip /\ uint w a.
Proof.
  intros Hs Hst Hwords. unfold ScanForReturnAddress_words.
  assert (0 < w / 8) as Hw8 by (destruct Hw as [-> | ->]; vm_compute; reflexivity).
  assert (wrap 64 (start + words * (w / 8)) <= start + words * (w / 8)) as Hlim.
  { apply Z.mod_le; unfold uint in Hst; [nia|lia]. }
  destruct (ScanForReturnAddress_loop_spec (wrap 64 (start + words * (w / 8)))
              (2 + Z.to_nat words) s start) as (o & s' & E & Hs' & Ho); [done|done| |lia|].
  { rewrite Nat2Z.inj_add, Z2Nat.id by done. lia. }
  exists o, s'. split; [exact E|]. split; [done|]. intros a ip Eo. destruct (Ho a ip Eo) as (? & ? & ? & ? & ? & ?).
  split_and!; try done; lia.
Qed.

Lemma ScanForReturnAddress_spec (s : Sym) start is_context_frame :
  sym_ok s -> uint w start -> exists o s',
    ScanForReturnAddress modules w memory s start is_context_frame = Ok (o, s') /\ sym_ok s' /\
    forall a ip, o = Some (a, ip) -> memory a = Some ip /\
      start <= a <= start + (if is_context_frame then kRASearchWords * 4 else kRASearchWords) * (w / 8) /\
      (w / 8 | a - start) /\ is_Some (find (wrap w (ip - 1))) /\ uint w ip /\ uint w a.
Proof.
  intros Hs Hst. apply ScanForReturnAddress_words_spec; [done|done|]. unfold kRASearchWords.
  destruct is_context_frame; lia.
Qed.
End scan_proofs.

(** ** A whole walk *)

Lemma Walk_spec {C Sym : Type} `{FrameSymbolizer Sym} {find : Z -> option CodeModule}
    `{!FrameSymbolizerLaws Sym find, !Stackwalker C Sym, !StackwalkerLaws C Sym find}
    (limits : Limits) (s : Sym) (fh : FrameHeap C) ms1 ms2 :
  0 <= max_frames_ limits -> uint 32 (max_frames_scanned_ limits) -> sym_ok s ->
  exists ok s' fh' stack ms1' ms2' fs,
    Walk limits s fh (mkCallStack [] 0) ms1 ms2 = Ok (ok, s', fh', stack, ms1', ms2') /\
    sym_ok s' /\ frames_hold fh' (frames_ stack) fs /\
    (forall p, (p < length fh)%nat -> fh' !! p = fh !! p) /\
    stack_ok limits fs /\ Z.of_nat (length fs) <= max_frames_ limits + 1 /\
    (fs = [] -> ok = true -> GetContextFrame = None) /\ walk_ended limits fs stack fh' s' ok /\
    reports ms1 ms1' fs /\ reports ms2 ms2' fs /\
    exists fh'', destroy_CallStack fh' stack = Ok fh'' /\
      (forall p, p ∈ frames_ stack -> fh'' !! p = Some None) /\
      forall p, (p < length fh)%nat -> fh'' !! p = fh !! p.
Proof.
  intros Hmax Hscan Hs. unfold Walk, Clear. cbn [delete_frames frames_ obind].
  destruct (Walk_loop_spec limits Hscan Hmax (length fh) (2 + Z.to_nat (max_frames_ limits)) s fh (mkCallStack [] 0) ms1 ms2
              GetContextFrame []) as (ok & s' & fh' & stack & m1 & m2 & fs & E & Hw & Hk & _ & Hne & Hlim & Hend & Hr1 & Hr2).
  - cbn [length]. lia.
  - done.
  - split; cbn [frames_ length seq]; [done|constructor|done|lia|].
    split; [by intros i f g|by intros f|constructor|constructor|unfold scanned_count; cbn; unfold uint in *; lia].
  - destruct GetContextFrame as [f|] eqn:Ec; [|by apply ended_no_context].
    destruct (GetContextFrame_ok f Ec) as [Hreg Hb]. split; [done|]. split; [by rewrite Hb|]. cbn [last]. done.
  - exists ok, s', fh', stack, m1, m2, fs. split; [exact E|]. destruct Hw as [Hs' Hh Hf Hl Hok].
    split_and!; try done.
    destruct (delete_frames_spec (frames_ stack) fh' fs Hh) as (fh'' & Ed & _ & Hdel & Hkd); [rewrite Hf; apply NoDup_seq|].
    exists fh''. unfold destroy_CallStack, Clear. rewrite Ed. cbn [obind]. split; [done|]. split; [done|].
    intros p Hp. rewrite Hkd; [by apply Hk|]. rewrite Hf, elem_of_seq. lia.
Qed.

(** ** Properties *)

(** C17: every walk ends, with a call stack that makes sense.  Started with a new
    call stack, [Walk] returns, whatever the memory and the debugging
    information; it has at most one frame more than [max_frames]; the first
    frame is that of the context; every other frame was recovered from the one
    before with a stack pointer above it (not below it, for the first caller)
    and an instruction pointer above the first page; at most
    [max_frames_scanned] frames were found by scanning; every frame has the
    module of its address.  The frames are the walk's own, no other frame is
    touched, and destroying the call stack deletes each of them once.  The lists
    of modules grow without repetition by modules of the frames.  The walk stops
    only at the limit, when there is no context or no caller, or when the
    symbolizer interrupts it. *)
Theorem Walk_total {C Sym : Type} `{FrameSymbolizer Sym} {find : Z -> option CodeModule}
    `{!FrameSymbolizerLaws Sym find, !Stackwalker C Sym, !StackwalkerLaws C Sym find}
    (limits : Limits) (s : Sym) (fh : FrameHeap C) ms1 ms2 :
  0 <= max_frames_ limits -> uint 32 (max_frames_scanned_ limits) -> sym_ok s ->
  exists ok s' fh' stack ms1' ms2' fs,
    Walk limits s fh (mkCallStack [] 0) ms1 ms2 = Ok (ok, s', fh', stack, ms1', ms2') /\
    sym_ok s' /\ frames_hold fh' (frames_ stack) fs /\
    (forall p, (p < length fh)%nat -> fh' !! p = fh !! p) /\
    stack_ok limits fs /\ Z.of_nat (length fs) <= max_frames_ limits + 1 /\
    (fs = [] -> ok = true -> GetContextFrame = None) /\ walk_ended limits fs stack fh' s' ok /\
    reports ms1 ms1' fs /\ reports ms2 ms2' fs /\
    exists fh'', destroy_CallStack fh' stack = Ok fh'' /\
      (forall p, p ∈ frames_ stack -> fh'' !! p = Some None) /\
      forall p, (p < length fh)%nat -> fh'' !! p = fh !! p.
Proof. apply Walk_spec. Qed.

(** A call stack cannot be used again.  [Clear] deletes the frames but keeps
    their pointers, so after it the destructor, or a second [Clear], deletes
    them again: undefined behaviour for every call stack that has frames.  A
    call stack without frames can be cleared. *)
Theorem Clear_leaves_pointers {C : Type} (fh : FrameHeap C) (stack : CallStack) fs :
  frames_hold fh (frames_ stack) fs -> NoDup (frames_ stack) ->
  exists fh' stack', Clear fh stack = Ok (fh', stack') /\ frames_ stack' = frames_ stack /\ tid_ stack' = 0 /\
    (frames_ stack = [] -> fh' = fh /\ destroy_CallStack fh' stack' = Ok fh) /\
    (frames_ stack <> [] -> Clear fh' stack' = Undef /\ destroy_CallStack fh' stack' = Undef /\
       forall p, p ∈ frames_ stack -> frame_at fh' p = Undef).
Proof.
  intros Hh Hnd. destruct (delete_frames_spec _ fh fs Hh Hnd) as (fh' & E & _ & Hdel & _).
  exists fh', (mkCallStack (frames_ stack) 0). unfold Clear at 1. rewrite E. cbn [obind frames_ tid_].
  split; [done|]. split; [done|]. split; [done|]. destruct stack as [frames tid]. cbn [frames_] in *. split.
  - intros ->. cbn in E. injection E as <-. done.
  - intros Hne. destruct frames as [|p frames]; [done|].
    assert (forall q, q ∈ p :: frames -> frame_at fh' q = Undef) as Hu.
    { intros q Hq. unfold frame_at. by rewrite Hdel. }
    unfold destroy_CallStack, Clear. cbn [delete_frames frames_]. unfold delete_frame. rewrite Hu by (by left). done.
Qed.

Lemma Clear_leaves_pointers_witness :
  let f := mkCpuFrame (new_frame 7 FRAME_TRUST_CONTEXT) tt 0 in
  let stack := mkCallStack [0%nat] 5 in
  exists fh' stack', Clear [Some f] stack = Ok (fh', stack') /\ destroy_CallStack fh' stack' = Undef.
Proof.
  intros f stack. destruct (Clear_leaves_pointers [Some f] stack [f]) as (fh' & stack' & E & _ & _ & _ & Hu).
  - repeat constructor.
  - apply NoDup_singleton.
  - exists fh', stack'. split; [exact E|]. apply Hu. discriminate.
Defined.
