(* ===== verification/MemoryRegion.v ===== *)
(** * Memory regions of a minidump (processor/minidump.cc)

    [MinidumpMemoryRegion], the stack memory a walker reads: the bytes of a
    descriptor, read from the dump the first time they are needed.  A read asks
    the region, which asks the [Minidump], whose stream stays failed after a
    short read. *)

From S2P Require Import Prelude Memory PostfixEvaluator ByteReader Stackwalker.
#[local] Open Scope Z_scope.

(** ** Swap *)

Definition Swap16 (value : Z) : Z := Z.lor (Z.shiftr value 8) (wrap 16 (Z.shiftl value 8)).

Definition Swap32 (value : Z) : Z :=
  Z.lor (Z.lor (Z.lor (Z.shiftr value 24) (Z.land (Z.shiftr value 8) 0x0000ff00))
           (Z.land (wrap 32 (Z.shiftl value 8)) 0x00ff0000))
    (wrap 32 (Z.shiftl value 24)).

(** On a little-endian machine the first half has the low bits. *)
Definition Swap64 (value : Z) : Z :=
  let value32_0 := Swap32 (wrap 32 value) in
  let value32_1 := Swap32 (Z.shiftr value 32) in
  value32_1 + Z.shiftl value32_0 32.

(** The overload for [n] bytes. *)
Definition Swap (n : nat) (value : Z) : Z :=
  match n with
  | 2 => Swap16 value
  | 4 => Swap32 value
  | 8 => Swap64 value
  | _ => value
  end%nat.

(** ** The stream of a minidump *)

Record Minidump : Type := mkMinidump {
  stream_ : option byte_list;
  position : Z;
  failed : bool;
  swap_ : bool;
}.

Definition SeekSet (md : Minidump) (offset : Z) : bool * Minidump :=
  match stream_ md with
  | None => (false, md)
  | Some _ => if failed md then (false, md)
              else (true, mkMinidump (stream_ md) offset (failed md) (swap_ md))
  end.

(** The bytes, [None] for [false]. *)
Definition ReadBytes (md : Minidump) (count : Z) : option byte_list * Minidump :=
  match stream_ md with
  | None => (None, md)
  | Some content =>
      let bytes := if failed md then [] else take (Z.to_nat count) (drop (Z.to_nat (position md)) content) in
      let bytes_read := Z.of_nat (length bytes) in
      let md := mkMinidump (stream_ md) (position md + bytes_read)
                  (failed md || (bytes_read <? count)) (swap_ md) in
      if bytes_read =? count then (Some bytes, md) else (None, md)
  end.

(** ** MinidumpMemoryRegion *)

Record MDMemoryDescriptor : Type := mkMDMemoryDescriptor {
  start_of_memory_range : Z;
  data_size : Z;
  rva : Z;
}.

Record MinidumpMemoryRegion : Type := mkRegion {
  descriptor_ : option MDMemoryDescriptor;
  valid_ : bool;
  memory_ : option byte_list;
}.

Definition max_bytes_ : Z := 64 * 1024 * 1024.

Definition new_region : MinidumpMemoryRegion := mkRegion None false None.

Definition SetDescriptor (r : MinidumpMemoryRegion) (descriptor : option MDMemoryDescriptor) : MinidumpMemoryRegion :=
  mkRegion descriptor
    (match descriptor with
     | Some d => data_size d <=? wrap 64 (2 ^ 64 - 1 - start_of_memory_range d)
     | None => false
     end) (memory_ r).

Definition FreeMemory (r : MinidumpMemoryRegion) : MinidumpMemoryRegion :=
  mkRegion (descriptor_ r) (valid_ r) None.

Definition GetBase (r : MinidumpMemoryRegion) : outcome Z :=
  if valid_ r then let? d := of_option (descriptor_ r) in Ok (start_of_memory_range d) else Ok (2 ^ 64 - 1).

Definition GetSize (r : MinidumpMemoryRegion) : outcome Z :=
  if valid_ r then let? d := of_option (descriptor_ r) in Ok (data_size d) else Ok 0.

(** [None] for NULL. *)
Definition GetMemory (md : Minidump) (r : MinidumpMemoryRegion) :
    outcome (option byte_list * Minidump * MinidumpMemoryRegion) :=
  if negb (valid_ r) then Ok (None, md, r)
  else
    match memory_ r with
    | Some memory => Ok (Some memory, md, r)
    | None =>
        let? d := of_option (descriptor_ r) in
        if data_size d =? 0 then Ok (None, md, r)
        else
          let (ok, md) := SeekSet md (rva d) in
          if negb ok then Ok (None, md, r)
          else if max_bytes_ <? data_size d then Ok (None, md, r)
          else
            match ReadBytes md (data_size d) with
            | (None, md) => Ok (None, md, r)
            | (Some memory, md) => Ok (Some memory, md, mkRegion (descriptor_ r) (valid_ r) (Some memory))
            end
    end.

(** [GetMemoryAtAddressInternal] for a value of [n] bytes. *)
Definition GetMemoryAtAddress (n : nat) (md : Minidump) (r : MinidumpMemoryRegion) (address : Z) :
    outcome (option Z * Minidump * MinidumpMemoryRegion) :=
  if negb (valid_ r) then Ok (None, md, r)
  else
    let? d := of_option (descriptor_ r) in
    let size := Z.of_nat n in
    if (address <? start_of_memory_range d) || (wrap 64 (2 ^ 64 - 1 - address) <? size) ||
       (wrap 64 (start_of_memory_range d + data_size d) <? wrap 64 (address + size))
    then Ok (None, md, r)
    else
      let? (memory, md, r) := GetMemory md r in
      match memory with
      | None => Ok (None, md, r)
      | Some memory =>
          let? value := read_at memory (wrap 64 (address - start_of_memory_range d)) n in
          Ok (Some (if swap_ md then Swap n value else value), md, r)
      end.

(** ** Swapping reverses the bytes *)

Lemma land_byte_mask x k : 0 <= k -> Z.land x (Z.shiftl 255 k) = Z.shiftl (wrap 8 (Z.shiftr x k)) k.
Proof.
  intros Hk. unfold wrap. rewrite <- Z.land_ones by lia. change (Z.ones 8) with 255.
  apply Z.bits_inj'. intros i Hi. rewrite Z.land_spec.
  destruct (Z.lt_ge_cases i k) as [Hlt|Hge].
  - rewrite !Z.shiftl_spec_low by done. apply andb_false_r.
  - rewrite !Z.shiftl_spec, Z.land_spec, Z.shiftr_spec by lia. f_equal. f_equal. lia.
Qed.

Lemma wrap_shiftl w k x : 0 <= k <= w -> wrap w (Z.shiftl x k) = Z.shiftl (wrap (w - k) x) k.
Proof.
  intros Hk. unfold wrap. rewrite !Z.shiftl_mul_pow2 by lia. replace (2 ^ w) with (2 ^ (w - k) * 2 ^ k).
  - apply Zmult_mod_distr_r.
  - rewrite <- Z.pow_add_r by lia. f_equal. lia.
Qed.

(** The bits of a number above a byte, and the byte. *)
Lemma byte_high b x k : uint 8 b -> 8 <= k -> Z.shiftr (b + 256 * x) k = Z.shiftr x (k - 8).
Proof.
  intros Hb Hk. replace k with (8 + (k - 8)) at 1 by lia. rewrite <- Z.shiftr_shiftr by lia. f_equal.
  rewrite Z.shiftr_div_pow2 by lia. unfold uint in Hb. change (2 ^ 8) with 256 in *.
  rewrite Z.mul_comm, Z.div_add by lia. rewrite Z.div_small by done. lia.
Qed.

Lemma byte_low b x : uint 8 b -> wrap 8 (b + 256 * x) = b.
Proof.
  intros Hb. unfold wrap, uint in *. change (2 ^ 8) with 256 in *. rewrite Z.mul_comm, Z.mod_add by lia.
  by apply Z.mod_small.
Qed.

Ltac byte_parts :=
  repeat first
    [ rewrite byte_high by (try done; lia)
    | rewrite byte_low by done
    | rewrite Z.shiftr_0_r
    | rewrite wrap_shiftl by lia
    | match goal with |- context [?a - ?b] => let c := eval vm_compute in (a - b) in change (a - b) with c end ].

Lemma Swap16_spec b0 b1 : uint 8 b0 -> uint 8 b1 -> Swap16 (le_val [b0; b1]) = le_val [b1; b0].
Proof.
  intros H0 H1. unfold Swap16. cbn [le_val]. rewrite Z.mul_0_r, Z.add_0_r.
  byte_parts. rewrite lor_shiftl by (done || lia). lia.
Qed.

Lemma Swap32_spec b0 b1 b2 b3 :
  uint 8 b0 -> uint 8 b1 -> uint 8 b2 -> uint 8 b3 ->
  Swap32 (le_val [b0; b1; b2; b3]) = le_val [b3; b2; b1; b0].
Proof.
  intros H0 H1 H2 H3. unfold Swap32. cbn [le_val]. rewrite Z.mul_0_r, Z.add_0_r.
  change 0x0000ff00 with (Z.shiftl 255 8). change 0x00ff0000 with (Z.shiftl 255 16).
  rewrite !land_byte_mask by lia. rewrite Z.shiftr_shiftr by lia. change (8 + 8) with 16.
  assert (forall x, wrap 8 (Z.shiftr (wrap 32 (Z.shiftl x 8)) 16) = wrap 8 (Z.shiftr x 8)) as Hmid.
  { intros x. rewrite wrap_shiftl by lia. rewrite Z.shiftr_shiftl_r by lia. change (16 - 8) with 8.
    unfold wrap. rewrite <- !Z.land_ones by lia. apply Z.bits_inj'. intros i Hi.
    rewrite !Z.land_spec, !Z.shiftr_spec, Z.land_spec by lia. change (32 - 8) with 24.
    destruct (Z.lt_ge_cases i 8).
    - rewrite (Z.ones_spec_low 24) by lia. by rewrite andb_true_r.
    - rewrite (Z.ones_spec_high 8) by lia. by rewrite !andb_false_r. }
  rewrite Hmid. byte_parts.
  rewrite (lor_shiftl b3) by (done || lia). unfold uint in *.
  rewrite (lor_shiftl (b3 + 2 ^ 8 * b2)) by (unfold uint; lia).
  rewrite lor_shiftl by (unfold uint; lia). lia.
Qed.

Lemma Swap64_spec b0 b1 b2 b3 b4 b5 b6 b7 :
  bytes_ok [b0; b1; b2; b3; b4; b5; b6; b7] ->
  Swap64 (le_val [b0; b1; b2; b3; b4; b5; b6; b7]) = le_val [b7; b6; b5; b4; b3; b2; b1; b0].
Proof.
  intros H. repeat (apply Forall_cons in H as [? H]). unfold Swap64.
  set (lo := le_val [b0; b1; b2; b3]). set (hi := le_val [b4; b5; b6; b7]).
  assert (le_val [b0; b1; b2; b3; b4; b5; b6; b7] = lo + 2 ^ 32 * hi) as ->.
  { unfold lo, hi. cbn [le_val]. change (2 ^ 32) with 4294967296. lia. }
  assert (uint 32 lo) as Hlo.
  { apply (le_val_bound [b0; b1; b2; b3]). unfold bytes_ok. rewrite !Forall_cons. done. }
  assert (wrap 32 (lo + 2 ^ 32 * hi) = lo) as ->.
  { unfold wrap. rewrite Z.mul_comm, Z.mod_add by lia. by apply Z.mod_small. }
  assert (Z.shiftr (lo + 2 ^ 32 * hi) 32 = hi) as ->.
  { rewrite Z.shiftr_div_pow2 by lia. rewrite Z.mul_comm, Z.div_add by lia.
    unfold uint in Hlo. rewrite Z.div_small by done. lia. }
  unfold lo, hi. rewrite !Swap32_spec by done. rewrite Z.shiftl_mul_pow2 by lia. cbn [le_val].
  change (2 ^ 32) with 4294967296. lia.
Qed.

Lemma Swap_spec n bs :
  n = 1%nat \/ n = 2%nat \/ n = 4%nat \/ n = 8%nat -> bytes_ok bs -> length bs = n ->
  Swap n (le_val bs) = le_val (rev bs).
Proof.
  intros Hn Hb Hl. destruct Hn as [->|[->|[->| ->]]].
  - destruct bs as [|b0 [|? ?]]; done.
  - destruct bs as [|b0 [|b1 [|? ?]]]; try done. repeat (apply Forall_cons in Hb as [? Hb]). by apply Swap16_spec.
  - destruct bs as [|b0 [|b1 [|b2 [|b3 [|? ?]]]]]; try done. repeat (apply Forall_cons in Hb as [? Hb]). by apply Swap32_spec.
  - destruct bs as [|b0 [|b1 [|b2 [|b3 [|b4 [|b5 [|b6 [|b7 [|? ?]]]]]]]]]; try done. by apply Swap64_spec.
Qed.

(** ** What a region answers *)

Record region_ok (r : MinidumpMemoryRegion) : Prop := {
  ok_descriptor : valid_ r = true -> exists d, descriptor_ r = Some d /\
    uint 64 (start_of_memory_range d) /\ uint 32 (data_size d) /\
    start_of_memory_range d + data_size d < 2 ^ 64;
  ok_memory m : memory_ r = Some m -> bytes_ok m /\ forall d, descriptor_ r = Some d -> data_size d = Z.of_nat (length m);
}.

Definition stream_ok (md : Minidump) : Prop := forall content, stream_ md = Some content -> bytes_ok content.

(** The bytes of the region: those read before, or those of the dump. *)
Definition region_bytes (md : Minidump) (r : MinidumpMemoryRegion) : option byte_list :=
  match memory_ r, descriptor_ r, stream_ md with
  | Some memory, _, _ => Some memory
  | None, Some d, Some content =>
      if (data_size d =? 0) || failed md || (max_bytes_ <? data_size d) then None
      else
        let bytes := take (Z.to_nat (data_size d)) (drop (Z.to_nat (rva d)) content) in
        if Z.of_nat (length bytes) =? data_size d then Some bytes else None
  | None, _, _ => None
  end.

(** The value of [n] bytes at an address inside the region. *)
Definition region_word (n : nat) (md : Minidump) (r : MinidumpMemoryRegion) : memory_region := fun address =>
  match valid_ r, descriptor_ r, region_bytes md r with
  | true, Some d, Some bytes =>
      let offset := address - start_of_memory_range d in
      if (0 <=? offset) && (offset + Z.of_nat n <=? data_size d) then
        let word := take n (drop (Z.to_nat offset) bytes) in
        Some (le_val (if swap_ md then rev word else word))
      else None
  | _, _, _ => None
  end.

Lemma region_bytes_ok md r bytes :
  stream_ok md -> region_ok r -> region_bytes md r = Some bytes ->
  bytes_ok bytes /\ forall d, descriptor_ r = Some d -> data_size d = Z.of_nat (length bytes).
Proof.
  intros Hmd Hr. unfold region_bytes. destruct (memory_ r) as [m|] eqn:Em.
  { intros [= <-]. by apply (ok_memory r Hr). }
  destruct (descriptor_ r) as [d|]; [|done]. destruct (stream_ md) as [content|] eqn:Es; [|done].
  destruct (_ || _); [done|]. destruct (Z.eqb_spec (Z.of_nat (length (take (Z.to_nat (data_size d)) (drop (Z.to_nat (rva d)) content)))) (data_size d)) as [El|]; [|done].
  intros [= <-]. split; [apply Forall_take, Forall_drop; by apply Hmd|]. intros d' [= <-]. done.
Qed.

(** What reading the memory leaves: the same answers. *)
Definition same_region (md md' : Minidump) (r r' : MinidumpMemoryRegion) : Prop :=
  stream_ok md' /\ region_ok r' /\ swap_ md' = swap_ md /\ valid_ r' = valid_ r /\
  descriptor_ r' = descriptor_ r /\ region_bytes md' r' = region_bytes md r.

Lemma same_region_failed md md' r :
  stream_ok md -> region_ok r -> stream_ md' = stream_ md -> swap_ md' = swap_ md ->
  region_bytes md r = None -> region_bytes md' r = None -> same_region md md' r r.
Proof.
  intros Hmd Hr Es Ew E E'. split; [unfold stream_ok; rewrite Es; done|]. split; [done|]. split; [done|].
  split; [done|]. split; [done|congruence].
Qed.

Lemma GetMemory_spec md r :
  stream_ok md -> region_ok r -> valid_ r = true ->
  exists md' r', GetMemory md r = Ok (region_bytes md r, md', r') /\ same_region md md' r r'.
Proof.
  intros Hmd Hr Hv. unfold GetMemory. rewrite Hv. cbn [negb].
  destruct (ok_descriptor r Hr Hv) as (d & Ed & _ & Hsize & _). unfold uint in Hsize.
  destruct (memory_ r) as [m|] eqn:Em.
  { exists md, r. unfold region_bytes. rewrite Em. by split. }
  rewrite Ed. cbn [of_option obind].
  assert (forall md', stream_ md' = stream_ md -> swap_ md' = swap_ md -> region_bytes md r = None ->
    region_bytes md' r = None -> exists md2 r2, Ok (None, md', r) = Ok (region_bytes md r, md2, r2) /\ same_region md md2 r r2) as Hfail.
  { intros md' Es Ew E E'. exists md', r. rewrite E. split; [done|]. by apply same_region_failed. }
  assert (forall md', region_bytes md' r = match stream_ md' with
    | Some content =>
        if (data_size d =? 0) || failed md' || (max_bytes_ <? data_size d) then None
        else let bytes := take (Z.to_nat (data_size d)) (drop (Z.to_nat (rva d)) content) in
             if Z.of_nat (length bytes) =? data_size d then Some bytes else None
    | None => None end) as Hbytes.
  { intros md'. unfold region_bytes. by rewrite Em, Ed. }
  unfold SeekSet, ReadBytes. destruct (Z.eqb_spec (data_size d) 0) as [Hz|Hz].
  { apply Hfail; [done|done|rewrite Hbytes; by destruct (stream_ md)..]. }
  destruct (stream_ md) as [content|] eqn:Es; [|cbn [negb]; apply Hfail; [done|done|by rewrite Hbytes, Es..]].
  destruct (failed md) eqn:Ef; cbn [negb]; [apply Hfail; [done|done|by rewrite Hbytes, Es, Ef..]|].
  destruct (Z.ltb_spec max_bytes_ (data_size d)) as [Hlt|Hle].
  { apply Hfail; [done|done|rewrite Hbytes; cbn [stream_]; rewrite ?Es, orb_true_r; done..]. }
  cbn [position stream_ failed swap_].
  pose proof (Hbytes md) as Hb. rewrite Es, Ef in Hb. cbn [orb] in Hb. cbv zeta in Hb.
  set (bytes := take _ _) in *.
  destruct (Z.eqb_spec (Z.of_nat (length bytes)) (data_size d)) as [El|El].
  - eexists _, _. rewrite Hb. split; [done|]. split; [intros c; cbn; intros [= <-]; by apply Hmd|].
    split; [|done]. split; cbn [valid_ descriptor_ memory_].
    + intros _. pose proof (ok_descriptor r Hr Hv) as Hd. by rewrite Ed in Hd.
    + intros m [= <-]. split; [apply Forall_take, Forall_drop; by apply Hmd|]. by intros d' [= <-].
  - apply Hfail; [done|done|done|]. rewrite Hbytes. cbn [stream_ failed].
    assert ((Z.of_nat (length bytes) <? data_size d) = true) as ->; [|done].
    apply Z.ltb_lt. assert (length bytes <= Z.to_nat (data_size d))%nat by (unfold bytes; rewrite length_take; lia). lia.
Qed.

Lemma same_region_word md md' r r' n a : same_region md md' r r' -> region_word n md' r' a = region_word n md r a.
Proof. intros (_ & _ & Es & Ev & Ed & Eb). unfold region_word. by rewrite Es, Ev, Ed, Eb. Qed.

Lemma region_word_bounded n md r :
  stream_ok md -> region_ok r -> (0 < n)%nat -> forall a v, region_word n md r a = Some v ->
  exists d, descriptor_ r = Some d /\
    start_of_memory_range d <= a /\ a + Z.of_nat n <= start_of_memory_range d + data_size d /\
    uint (8 * Z.of_nat n) v.
Proof.
  intros Hmd Hr Hn a v. unfold region_word. destruct (valid_ r); [|done].
  destruct (descriptor_ r) as [d|] eqn:Ed; [|done]. destruct (region_bytes md r) as [bytes|] eqn:Eb; [|done].
  destruct (region_bytes_ok md r bytes Hmd Hr Eb) as [Hb Hl]. specialize (Hl d Ed).
  destruct (Z.leb_spec 0 (a - start_of_memory_range d)); [|done].
  destruct (Z.leb_spec (a - start_of_memory_range d + Z.of_nat n) (data_size d)); [|done].
  intros [= <-]. exists d. split; [done|]. split; [lia|]. split; [lia|].
  set (word := take n _). assert (length word = n) as El by (unfold word; rewrite length_take, length_drop; lia).
  assert (bytes_ok word) as Hw by by apply Forall_take, Forall_drop. clearbody word. subst n. unfold uint.
  destruct (swap_ md); [|by apply le_val_bound].
  rewrite <- (length_rev word). apply le_val_bound. by apply List.Forall_rev.
Qed.

(** The words a 64-bit walker reads. *)
Lemma region_word_64 md r : stream_ok md -> region_ok r -> region_bounded 64 (region_word 8 md r).
Proof.
  intros Hmd Hr a v Ev. destruct (region_word_bounded 8 md r Hmd Hr ltac:(lia) a v Ev) as (d & Ed & H1 & H2 & Hv).
  unfold region_word in Ev. destruct (valid_ r) eqn:Ev'; [|done].
  destruct (ok_descriptor r Hr Ev') as (d' & Ed' & Hs & _ & Hend). rewrite Ed in Ed'. injection Ed' as <-.
  unfold uint in Hs. change (64 / 8) with 8. split; [lia|]. split; [lia|done].
Qed.

(** The reads of a region. *)
Lemma GetMemoryAtAddress_spec n md r a :
  n = 1%nat \/ n = 2%nat \/ n = 4%nat \/ n = 8%nat -> stream_ok md -> region_ok r -> uint 64 a ->
  (exists md' r', GetMemoryAtAddress n md r a = Ok (region_word n md r a, md', r') /\
     stream_ok md' /\ region_ok r' /\ forall n' a', region_word n' md' r' a' = region_word n' md r a') /\
  forall v, region_word n md r a = Some v -> a + Z.of_nat n < 2 ^ 64 /\ uint (8 * Z.of_nat n) v.
Proof.
  intros Hn Hmd Hr Ha. assert (0 < Z.of_nat n <= 8) as Hn8 by (destruct Hn as [->|[->|[->| ->]]]; lia).
  pose proof (region_word_bounded n md r Hmd Hr ltac:(lia) a) as Hbound. split.
  2: { intros v Ev. destruct (Hbound v Ev) as (d & Ed & H1 & H2 & Hv). split; [|done].
       unfold region_word in Ev. destruct (valid_ r) eqn:Ev'; [|done].
       destruct (ok_descriptor r Hr Ev') as (d' & Ed' & _ & _ & Hend). rewrite Ed in Ed'. injection Ed' as <-. lia. }
  clear Hbound. unfold GetMemoryAtAddress. destruct (valid_ r) eqn:Ev; cbn [negb].
  2: { exists md, r. unfold region_word at 1. by rewrite Ev. }
  destruct (ok_descriptor r Hr Ev) as (d & Ed & Hstart & Hsize & Hend). rewrite Ed. cbn [of_option obind].
  unfold uint in *. rewrite (wrap_small 64 (2 ^ 64 - 1 - a)) by (unfold uint; lia).
  rewrite (wrap_small 64 (start_of_memory_range d + data_size d)) by (unfold uint; lia).
  assert (region_word n md r a = None -> exists md' r', Ok (None, md, r) = Ok (region_word n md r a, md', r') /\
    stream_ok md' /\ region_ok r' /\ forall n' a', region_word n' md' r' a' = region_word n' md r a') as Hnone.
  { intros E. exists md, r. by rewrite E. }
  unfold region_word in Hnone at 1. rewrite Ev, Ed in Hnone.
  destruct (Z.ltb_spec a (start_of_memory_range d)) as [H1|H1]; cbn [orb].
  { apply Hnone. destruct (region_bytes md r); [|done]. by rewrite (proj2 (Z.leb_gt _ _)) by lia. }
  destruct (Z.ltb_spec (2 ^ 64 - 1 - a) (Z.of_nat n)) as [H2|H2]; cbn [orb].
  { apply Hnone. destruct (region_bytes md r); [|done].
    rewrite (proj2 (Z.leb_gt (a - start_of_memory_range d + Z.of_nat n) _)) by lia. by rewrite andb_false_r. }
  rewrite (wrap_small 64 (a + Z.of_nat n)) by (unfold uint; lia).
  destruct (Z.ltb_spec (start_of_memory_range d + data_size d) (a + Z.of_nat n)) as [H3|H3].
  { apply Hnone. destruct (region_bytes md r); [|done].
    rewrite (proj2 (Z.leb_gt (a - start_of_memory_range d + Z.of_nat n) _)) by lia. by rewrite andb_false_r. }
  destruct (GetMemory_spec md r Hmd Hr Ev) as (md' & r' & -> & Hsame). cbn [obind].
  pose proof Hsame as (Hmd' & Hr' & Esw & _ & _ & _).
  pose proof (fun n' a' => same_region_word md md' r r' n' a' Hsame) as Hw.
  destruct (region_bytes md r) as [bytes|] eqn:Eb.
  2: { exists md', r'. unfold region_word at 1. by rewrite Ev, Ed, Eb. }
  destruct (region_bytes_ok md r bytes Hmd Hr Eb) as [Hb Hl]. specialize (Hl d Ed).
  rewrite (wrap_small 64) by (unfold uint; lia). set (offset := a - start_of_memory_range d).
  unfold read_at, read_le, read_bytes. rewrite (proj2 (Z.ltb_ge offset 0)) by (unfold offset; lia).
  rewrite decide_True by (unfold offset; lia). cbn [obind].
  exists md', r'. split; [|done]. unfold region_word. rewrite Ev, Ed, Eb. fold offset.
  rewrite (proj2 (Z.leb_le 0 offset)), (proj2 (Z.leb_le _ (data_size d))) by (unfold offset; lia). cbn [andb].
  rewrite Esw. destruct (swap_ md); [|done]. rewrite Swap_spec; [done|done| |].
  - by apply Forall_take, Forall_drop.
  - rewrite length_take, length_drop. unfold offset. lia.
Qed.

(** ** Properties *)

(** C20: reading a word of a memory region.  [GetMemoryAtAddress] never reads
    outside the bytes of the region; for 1, 2, 4 and 8 bytes it answers the word
    at the address, in the byte order of the dump, when the whole word is inside
    the region and the bytes of the region can be read, and fails otherwise.  A
    read changes no later answer, so the region is a function from addresses to
    words, of which every word ends below the end of the address space. *)
Theorem GetMemoryAtAddress_functional n md r a :
  n = 1%nat \/ n = 2%nat \/ n = 4%nat \/ n = 8%nat -> stream_ok md -> region_ok r -> uint 64 a ->
  (exists md' r', GetMemoryAtAddress n md r a = Ok (region_word n md r a, md', r') /\
     stream_ok md' /\ region_ok r' /\ forall n' a', region_word n' md' r' a' = region_word n' md r a') /\
  forall v, region_word n md r a = Some v -> a + Z.of_nat n < 2 ^ 64 /\ uint (8 * Z.of_nat n) v.
Proof. apply GetMemoryAtAddress_spec. Qed.

Lemma GetMemoryAtAddress_functional_witness :
  let md := mkMinidump (Some [9; 9; 1; 2; 3; 4; 5; 6]) 0 false true in
  let r := SetDescriptor new_region (Some (mkMDMemoryDescriptor 4096 6 2)) in
  exists md' r', GetMemoryAtAddress 4 md r 4097 = Ok (Some 0x02030405, md', r').
Proof.
  intros md r. destruct (GetMemoryAtAddress_functional 4 md r 4097) as [(md' & r' & E & _) _].
  - by right; right; left.
  - intros c [= <-]. unfold bytes_ok. rewrite !Forall_cons. unfold uint. repeat split; try lia. constructor.
  - split; [|done]. intros _. exists (mkMDMemoryDescriptor 4096 6 2). unfold uint. cbn. repeat split; lia.
  - unfold uint. lia.
  - exists md', r'. exact E.
Defined.
