(* ===== verification/StackwalkerAMD64.v ===== *)
(** * The AMD64 stack walker (processor/stackwalker_amd64.cc,
    stackwalker_amd64.h, google_breakpad/processor/stack_frame_cpu.h)

    The caller of a frame is recovered from the CFI rules at its address, else
    from the frame pointer, else by scanning the stack for a return address;
    a caller that breaks the invariants of a walk ends it. *)

From S2P Require Import Prelude LibcSupport Tokens PostfixEvaluator CfiFrameInfo SymbolModule CodeModules SymbolSupplier FrameSymbolizer Stackwalker.
#[local] Open Scope Z_scope.

(** The members of [MDRawContextAMD64] that the walker uses. *)
Inductive AMD64Register : Type :=
| rax | rdx | rcx | rbx | rsi | rdi | rbp | rsp
| r8 | r9 | r10 | r11 | r12 | r13 | r14 | r15 | rip.

#[global] Instance AMD64Register_eq_dec : EqDecision AMD64Register.
Proof. solve_decision. Defined.

Abbreviation MDRawContextAMD64 := (AMD64Register -> Z).
Abbreviation StackFrameAMD64 := (CpuFrame MDRawContextAMD64).

Definition CONTEXT_VALID_RBP : Z := Z.shiftl 1 6.
Definition CONTEXT_VALID_RSP : Z := Z.shiftl 1 7.
Definition CONTEXT_VALID_RIP : Z := Z.shiftl 1 16.
Definition CONTEXT_VALID_ALL : Z := -1.

Definition cfi_register_map_ : list RegisterSet := [
  mkRegisterSet (str "$rax") None false (Z.shiftl 1 0) rax;
  mkRegisterSet (str "$rdx") None false (Z.shiftl 1 1) rdx;
  mkRegisterSet (str "$rcx") None false (Z.shiftl 1 2) rcx;
  mkRegisterSet (str "$rbx") None true (Z.shiftl 1 3) rbx;
  mkRegisterSet (str "$rsi") None false (Z.shiftl 1 4) rsi;
  mkRegisterSet (str "$rdi") None false (Z.shiftl 1 5) rdi;
  mkRegisterSet (str "$rbp") None true CONTEXT_VALID_RBP rbp;
  mkRegisterSet (str "$rsp") (Some (str ".cfa")) false CONTEXT_VALID_RSP rsp;
  mkRegisterSet (str "$r8") None false (Z.shiftl 1 8) r8;
  mkRegisterSet (str "$r9") None false (Z.shiftl 1 9) r9;
  mkRegisterSet (str "$r10") None false (Z.shiftl 1 10) r10;
  mkRegisterSet (str "$r11") None false (Z.shiftl 1 11) r11;
  mkRegisterSet (str "$r12") None true (Z.shiftl 1 12) r12;
  mkRegisterSet (str "$r13") None true (Z.shiftl 1 13) r13;
  mkRegisterSet (str "$r14") None true (Z.shiftl 1 14) r14;
  mkRegisterSet (str "$r15") None true (Z.shiftl 1 15) r15;
  mkRegisterSet (str "$rip") (Some (str ".ra")) false CONTEXT_VALID_RIP rip
].

(** [StackFrameAMD64()]: a zeroed context, nothing valid. *)
Definition new_context : MDRawContextAMD64 := fun _ => 0.

Definition ReturnAddress (f : StackFrameAMD64) : outcome Z :=
  if Z.land (context_validity f) CONTEXT_VALID_RIP =? 0 then Undef else Ok (context f rip).

Definition is_non_canonical (ptr : Z) : bool := (0x7FFFFFFFFFFF <? ptr) && (ptr <? 0xFFFF800000000000).

Section walker.
Context {Sym : Type} `{FrameSymbolizer Sym}.
(** The members of the walker; a NULL pointer is [None]. *)
Context (system_info : option SystemInfo) (context_ : option MDRawContextAMD64).
Context (memory_ : option memory_region) (modules_ : option CodeModules).
Implicit Types (last_frame : StackFrameAMD64) (s : Sym).

Definition AMD64_GetContextFrame : option StackFrameAMD64 :=
  match context_ with
  | None => None
  | Some c => Some (set_frame_instruction (new_cpu_frame FRAME_TRUST_CONTEXT c CONTEXT_VALID_ALL) (c rip))
  end.

Definition GetCallerByCFIFrameInfo (memory : memory_region) last_frame (cfi_frame_info : CFIFrameInfo) :
    outcome (option StackFrameAMD64) :=
  let? (found, c, validity) :=
    FindCallerRegisters 64 cfi_register_map_ memory cfi_frame_info
      (context last_frame) (context_validity last_frame) new_context 0 in
  if negb found then Ok None
  else
    let essentials := Z.lor CONTEXT_VALID_RIP CONTEXT_VALID_RSP in
    if negb (Z.land validity essentials =? essentials) then Ok None
    else if (c rip =? 0) || (c rsp =? 0) then Ok None
    else Ok (Some (new_cpu_frame FRAME_TRUST_CFI c validity)).

Definition GetCallerByFramePointerRecovery (memory : memory_region) last_frame : option StackFrameAMD64 :=
  let last_rbp := context last_frame rbp in
  if negb (last_rbp mod 8 =? 0) then None
  else
    match memory (wrap 64 (last_rbp + 8)) with
    | None => None
    | Some caller_rip =>
        match memory last_rbp with
        | None => None
        | Some caller_rbp =>
            let caller_rsp := wrap 64 (last_rbp + 16) in
            if is_non_canonical caller_rip then None
            else if (caller_rsp <=? last_rbp) || (caller_rbp <? caller_rsp) then None
            else
              match memory caller_rbp with
              | None => None
              | Some _ =>
                  let c := set_member (set_member (set_member (context last_frame) rip caller_rip)
                                         rsp caller_rsp) rbp caller_rbp in
                  Some (new_cpu_frame FRAME_TRUST_FP c
                          (Z.lor (Z.lor CONTEXT_VALID_RIP CONTEXT_VALID_RSP) CONTEXT_VALID_RBP))
              end
        end
    end.

(** The caller's frame pointer that a scan passes on: the context and the
    validity. *)
Definition scanned_rbp (memory : memory_region) last_frame (caller_rip_address : Z)
    (c : MDRawContextAMD64) (validity : Z) : MDRawContextAMD64 * Z :=
  if Z.land (context_validity last_frame) CONTEXT_VALID_RBP =? 0 then (c, validity)
  else
    let last_rbp := context last_frame rbp in
    if wrap 64 (caller_rip_address - 8) =? last_rbp then
      match memory last_rbp with
      | Some caller_rbp =>
          if caller_rip_address <? caller_rbp
          then (set_member c rbp caller_rbp, Z.lor validity CONTEXT_VALID_RBP) else (c, validity)
      | None => (c, validity)
      end
    else if wrap 64 (caller_rip_address + 8) <=? last_rbp
    then (set_member c rbp last_rbp, Z.lor validity CONTEXT_VALID_RBP)
    else (c, validity).

Definition GetCallerByStackScan (memory : memory_region) s last_frame (is_context_frame : bool) :
    outcome (option StackFrameAMD64 * Sym) :=
  let last_rsp := context last_frame rsp in
  let? (found, s) := ScanForReturnAddress modules_ 64 memory s last_rsp is_context_frame in
  match found with
  | None => Ok (None, s)
  | Some (caller_rip_address, caller_rip) =>
      let c := set_member (set_member (context last_frame) rip caller_rip) rsp (wrap 64 (caller_rip_address + 8)) in
      let '(c, validity) :=
        scanned_rbp memory last_frame caller_rip_address c (Z.lor CONTEXT_VALID_RIP CONTEXT_VALID_RSP) in
      Ok (Some (new_cpu_frame FRAME_TRUST_SCAN c validity), s)
  end.

(** The low 32 bits of three registers, in Native Client. *)
Definition nacl_registers (c : MDRawContextAMD64) : MDRawContextAMD64 :=
  set_member (set_member (set_member c rip (wrap 32 (c rip))) rsp (wrap 32 (c rsp))) rbp (wrap 32 (c rbp)).

Definition set_context (f : StackFrameAMD64) (c : MDRawContextAMD64) : StackFrameAMD64 :=
  mkCpuFrame (base f) c (context_validity f).

(** The three ways to recover the caller, in order. *)
Definition recover_caller (memory : memory_region) s last_frame (is_context_frame stack_scan_allowed : bool) :
    outcome (option StackFrameAMD64 * Sym) :=
  let? cfi_frame_info := sym_FindCFIFrameInfo s (base last_frame) in
  let? new_frame :=
    match cfi_frame_info with
    | Some i => GetCallerByCFIFrameInfo memory last_frame i
    | None => Ok None
    end in
  let new_frame :=
    match new_frame with
    | Some f => Some f
    | None => GetCallerByFramePointerRecovery memory last_frame
    end in
  match new_frame with
  | Some f => Ok (Some f, s)
  | None =>
      if stack_scan_allowed then GetCallerByStackScan memory s last_frame is_context_frame
      else Ok (None, s)
  end.

(** [GetCallerFrame] on the last frame of the call stack. *)
Definition AMD64_caller s last_frame (is_context_frame stack_scan_allowed : bool) :
    outcome (option StackFrameAMD64 * Sym) :=
  match memory_ with
  | None => Ok (None, s)
  | Some memory =>
      let? (new_frame, s) := recover_caller memory s last_frame is_context_frame stack_scan_allowed in
      match new_frame with
      | None => Ok (None, s)
      | Some f =>
          let? system_info := of_option system_info in
          let f := if decide (os_short system_info = str "nacl")
                   then set_context f (nacl_registers (context f)) else f in
          if TerminateWalk (context f rip) (context f rsp) (context last_frame rsp) is_context_frame
          then Ok (None, s)
          else Ok (Some (set_frame_instruction f (wrap 64 (context f rip - 1))), s)
      end
  end.

Definition AMD64_GetCallerFrame s (fh : FrameHeap MDRawContextAMD64) (stack : CallStack)
    (stack_scan_allowed : bool) : outcome (option StackFrameAMD64 * FrameHeap MDRawContextAMD64 * Sym) :=
  match memory_ with
  | None => Ok (None, fh, s)
  | Some _ =>
      let? last_frame := last_frame fh stack in
      let? (caller, s) := AMD64_caller s last_frame (length (frames_ stack) =? 1)%nat stack_scan_allowed in
      Ok (caller, fh, s)
  end.

Definition StackwalkerAMD64 : Stackwalker MDRawContextAMD64 Sym := {|
  GetContextFrame := AMD64_GetContextFrame;
  GetCallerFrame := AMD64_GetCallerFrame;
|}.
End walker.

(** ** The walker keeps its contract *)

Definition amd64_ok (c : MDRawContextAMD64) : Prop := forall r, uint 64 (c r).

Lemma set_member_ok c r x : amd64_ok c -> uint 64 x -> amd64_ok (set_member c r x).
Proof. intros Hc Hx r'. unfold set_member. case_decide; [done|apply Hc]. Qed.

Lemma new_context_ok : amd64_ok new_context.
Proof. intros r. unfold uint, new_context. lia. Qed.

Lemma nacl_registers_ok c : amd64_ok c -> amd64_ok (nacl_registers c).
Proof.
  intros Hc. assert (forall x, uint 64 (wrap 32 x)) as Hw.
  { intros x. pose proof (wrap_uint 32 x ltac:(lia)). unfold uint in *. lia. }
  unfold nacl_registers. by repeat apply set_member_ok.
Qed.

Section laws.
Context {Sym : Type} `{FrameSymbolizer Sym} {find : Z -> option CodeModule} `{!FrameSymbolizerLaws Sym find}.
Context (system_info : SystemInfo) (context_ : option MDRawContextAMD64).
Context (memory_ : option memory_region) (modules_ : option CodeModules).
Context (Hcontext : forall c, context_ = Some c -> amd64_ok c).
Context (Hmemory : forall memory, memory_ = Some memory -> region_bounded 64 memory).
Implicit Types (callee f : StackFrameAMD64) (s : Sym).

(** What any of the three ways gives: a frame whose instruction is not set yet. *)
Definition recovered (allowed : bool) f : Prop :=
  amd64_ok (context f) /\
  exists t, base f = new_frame 0 t /\
    (t = FRAME_TRUST_CFI \/ t = FRAME_TRUST_FP \/ t = FRAME_TRUST_SCAN /\ allowed = true).

Lemma by_CFI memory callee i :
  rules_defined i -> amd64_ok (context callee) -> exists o,
    GetCallerByCFIFrameInfo memory callee i = Ok o /\ forall f, o = Some f -> forall allowed, recovered allowed f.
Proof.
  intros Hi Hc. unfold GetCallerByCFIFrameInfo.
  destruct (FindCallerRegisters_defined 64 cfi_register_map_ memory i (context callee) (context_validity callee)
              new_context 0) as [[[found c] validity] E]; [lia|done|].
  rewrite E. cbn [obind]. destruct found; cbn [negb]; [|by eexists].
  destruct (negb _); [by eexists|]. destruct (_ || _); [by eexists|].
  eexists. split; [done|]. intros f [= <-] allowed. split.
  - intros r. cbn [context new_cpu_frame]. revert r. eapply FindCallerRegisters_ok; [|done|exact E]. lia.
  - exists FRAME_TRUST_CFI. split; [done|tauto].
Qed.

Lemma by_frame_pointer memory callee f allowed :
  region_bounded 64 memory -> amd64_ok (context callee) ->
  GetCallerByFramePointerRecovery memory callee = Some f -> recovered allowed f.
Proof.
  intros Hm Hc. unfold GetCallerByFramePointerRecovery. destruct (negb _); [done|].
  destruct (memory (wrap 64 (context callee rbp + 8))) as [caller_rip|] eqn:E1; [|done].
  destruct (memory (context callee rbp)) as [caller_rbp|] eqn:E2; [|done].
  destruct (is_non_canonical _); [done|]. destruct (_ || _); [done|].
  destruct (memory caller_rbp); [|done]. intros [= <-]. split; cbn [context base new_cpu_frame].
  - apply Hm in E1 as (_ & _ & ?), E2 as (_ & _ & ?). repeat apply set_member_ok; [done..|apply wrap_uint; lia|done].
  - exists FRAME_TRUST_FP. split; [done|tauto].
Qed.

Lemma scanned_rbp_ok memory callee a c validity :
  region_bounded 64 memory -> amd64_ok (context callee) -> amd64_ok c ->
  amd64_ok (scanned_rbp memory callee a c validity).1.
Proof.
  intros Hm Hcallee Hc. unfold scanned_rbp. destruct (_ =? 0); [done|].
  destruct (_ =? _).
  - destruct (memory _) as [v|] eqn:E; [|done]. apply Hm in E as (_ & _ & ?).
    destruct (_ <? _); [by apply set_member_ok|done].
  - destruct (_ <=? _); [by apply set_member_ok|done].
Qed.

Lemma by_scan memory s callee first :
  sym_ok s -> region_bounded 64 memory -> amd64_ok (context callee) -> exists o s',
    GetCallerByStackScan modules_ memory s callee first = Ok (o, s') /\ sym_ok s' /\
    forall f, o = Some f -> recovered true f.
Proof.
  intros Hs Hm Hc. unfold GetCallerByStackScan.
  destruct (ScanForReturnAddress_spec modules_ 64 memory (or_intror eq_refl) (region_bounded_scanned _ _ Hm) s (context callee rsp) first Hs (Hc rsp))
    as (o & s' & E & Hs' & Ho).
  rewrite E. cbn [obind]. destruct o as [[a ip]|]; [|by exists None, s'].
  destruct (Ho a ip eq_refl) as (Ea & _). apply Hm in Ea as (_ & _ & Hip).
  set (c := set_member _ _ _).
  pose proof (scanned_rbp_ok memory callee a c (Z.lor CONTEXT_VALID_RIP CONTEXT_VALID_RSP) Hm Hc) as Hok.
  destruct (scanned_rbp _ _ _ _ _) as [c' validity]. eexists _, s'. split; [done|]. split; [done|].
  intros f [= <-]. split; cbn [context base new_cpu_frame].
  - apply Hok. unfold c. repeat apply set_member_ok; [done..|apply wrap_uint; lia].
  - exists FRAME_TRUST_SCAN. split; [done|tauto].
Qed.

Lemma recover_caller_spec memory s callee first allowed :
  sym_ok s -> region_bounded 64 memory -> amd64_ok (context callee) -> exists o s',
    recover_caller modules_ memory s callee first allowed = Ok (o, s') /\ sym_ok s' /\
    forall f, o = Some f -> recovered allowed f.
Proof.
  intros Hs Hm Hc. unfold recover_caller.
  destruct (sym_FindCFIFrameInfo_ok s (base callee) Hs) as (rules & E & Hrules). rewrite E. cbn [obind].
  assert (exists o, match rules with Some i => GetCallerByCFIFrameInfo memory callee i | None => Ok None end = Ok o /\
    forall f, o = Some f -> recovered allowed f) as (o & -> & Ho).
  { destruct rules as [i|]; [|by exists None].
    destruct (by_CFI memory callee i (Hrules i eq_refl) Hc) as (o & Eo & Ho). exists o. split; [exact Eo|]. auto. }
  cbn [obind].
  assert (forall f, match o with Some f => Some f | None => GetCallerByFramePointerRecovery memory callee end = Some f ->
    recovered allowed f) as Ho'.
  { intros f. destruct o as [g|]; [intros [= <-]; by apply Ho|by apply by_frame_pointer]. }
  destruct (match o with Some f => Some f | None => _ end) as [f|].
  { exists (Some f), s. split; [done|]. split; [done|]. intros g [= <-]. by apply Ho'. }
  destruct allowed; [by apply by_scan|]. by exists None, s.
Qed.

Lemma AMD64_caller_spec s callee first allowed :
  sym_ok s -> amd64_ok (context callee) -> exists o s',
    AMD64_caller (Some system_info) memory_ modules_ s callee first allowed = Ok (o, s') /\ sym_ok s' /\
    forall f, o = Some f ->
      amd64_ok (context f) /\
      TerminateWalk (context f rip) (context f rsp) (context callee rsp) first = false /\
      exists t, base f = new_frame (wrap 64 (context f rip - 1)) t /\
        (t = FRAME_TRUST_CFI \/ t = FRAME_TRUST_FP \/ t = FRAME_TRUST_SCAN /\ allowed = true).
Proof.
  intros Hs Hc. unfold AMD64_caller. destruct memory_ as [memory|] eqn:Em; [|by exists None, s].
  destruct (recover_caller_spec memory s callee first allowed Hs (Hmemory _ eq_refl) Hc) as (o & s' & E & Hs' & Ho).
  rewrite E. cbn [obind]. destruct o as [f|]; [|by exists None, s'].
  destruct (Ho f eq_refl) as (Hok & t & Hb & Ht). cbn [of_option obind].
  set (f' := if decide _ then _ else f).
  assert (amd64_ok (context f') /\ base f' = base f) as [Hok' Hb'].
  { unfold f'. destruct (decide _); [|done]. split; [by apply nacl_registers_ok|done]. }
  destruct (TerminateWalk _ _ _ _) eqn:Et; [by exists None, s'|].
  eexists _, s'. split; [done|]. split; [done|]. intros g [= <-]. cbn [context set_frame_instruction].
  split; [done|]. split; [done|]. exists t. unfold set_frame_instruction. cbn [base]. rewrite Hb', Hb. done.
Qed.

#[global] Program Instance amd64_laws :
  @StackwalkerLaws MDRawContextAMD64 Sym _ find _ (StackwalkerAMD64 (Some system_info) context_ memory_ modules_) := {|
  frame_ip f := context f rip;
  frame_sp c := c rsp;
  registers_ok c _ := amd64_ok c;
|}.
Next Obligation. done. Qed.
Next Obligation.
  intros f E. cbn [GetContextFrame StackwalkerAMD64] in E. unfold AMD64_GetContextFrame in E.
  destruct context_ as [c|] eqn:Ec; [|done]. injection E as <-. split; [by apply Hcontext|done].
Qed.
Next Obligation.
  intros s fh stack fs callee allowed Hs Hh _ Hr El. cbn [GetCallerFrame StackwalkerAMD64]. unfold AMD64_GetCallerFrame.
  assert (exists fs', frames_hold fh (frames_ stack) fs' /\
    Forall2 (fun f f' : StackFrameAMD64 => base f' = base f /\ context f' rip = context f rip /\
               context f' rsp = context f rsp /\ amd64_ok (context f')) fs fs') as Hsame.
  { exists fs. split; [done|]. apply Forall_Forall2_diag. apply (Forall_impl _ _ _ Hr). auto. }
  assert (amd64_ok (context callee)) as Hc.
  { rewrite Forall_forall in Hr. apply Hr. apply last_Some in El as [l ->]. set_solver. }
  destruct (AMD64_caller_spec s callee (length fs =? 1)%nat allowed Hs Hc) as (o & s' & E & Hs' & Ho).
  destruct memory_ as [memory|]; [|by exists None, fh, s].
  rewrite (last_frame_hold _ _ _ _ Hh El). cbn [obind]. rewrite (Forall2_length _ _ _ Hh), E. cbn [obind]. exists o, fh, s'. split; [done|]. split; [done|]. split; [done|].
  split; [done|]. split; [done|]. intros f Ef. destruct (Ho f Ef) as (Hf & Ht & t & -> & Htrust).
  cbn [FrameSymbolizer.module trust new_frame]. split.
  - split_and!; [done|done|done|]. destruct Htrust as [->|[->|[-> _]]]; auto.
  - destruct Htrust as [->|[->|[-> ?]]]; done.
Qed.
End laws.

(** ** Chains of frame pointers

    The stack of a program that keeps frame pointers: the caller's frame pointer
    is where the callee's points to, and the return address above it. *)

(** The registers of a frame that a chain tells: rip, rsp and rbp. *)
Abbreviation linked_frame := (Z * Z * Z)%type.



Section chains.
Context (memory : memory_region) (Hmemory : region_bounded 64 memory).



End chains.

(** ** Walking along a chain *)

(** The frame that a walk reports for a link: below its call, with the registers
    of the chain, and the others as in the context. *)
Definition fp_frame (c : MDRawContextAMD64) (l : linked_frame) (f : StackFrameAMD64) : Prop :=
  let '(caller_rip, caller_rsp, caller_rbp) := l in
  trust (base f) = FRAME_TRUST_FP /\ frame_instruction (base f) = caller_rip - 1 /\
  context_validity f = Z.lor (Z.lor CONTEXT_VALID_RIP CONTEXT_VALID_RSP) CONTEXT_VALID_RBP /\
  context f rip = caller_rip /\ context f rsp = caller_rsp /\ context f rbp = caller_rbp /\
  forall r, r <> rip -> r <> rsp -> r <> rbp -> context f r = c r.

Section fp_walk.
Context {Sym : Type} `{FrameSymbolizer Sym} {find : Z -> option CodeModule} `{!FrameSymbolizerLaws Sym find}.
Context (system_info : SystemInfo) (c0 : option MDRawContextAMD64).
Context (memory : memory_region) (modules_ : option CodeModules) (limits : Limits).
Context (Hmemory : region_bounded 64 memory).
Context (Hos : os_short system_info <> str "nacl").
Context (Hlimit : max_frames_scanned_ limits = 0).
Context (Hno_CFI : forall s frame, sym_ok s -> sym_FindCFIFrameInfo s frame = Ok None).
Context (Hno_interrupt : forall s frame frame' s',
  sym_ok s -> sym_FillSourceLineInfo s frame <> Ok (kInterrupt, frame', s')).
Implicit Types (callee f : StackFrameAMD64) (s : Sym).






Lemma fp_frame_set_base c l f b :
  frame_instruction b = frame_instruction (base f) -> trust b = trust (base f) ->
  fp_frame c l f -> fp_frame c l (set_base f b).
Proof. intros Ei Et. destruct l as [[? ?] ?]. unfold fp_frame. cbn. by rewrite Ei, Et. Qed.


End fp_walk.

(** ** Properties *)


(** The system information that [Walk] is given must not be NULL, although
    the interface allows it: without it, recovering any caller is undefined
    behaviour. *)
Theorem AMD64_needs_system_info {Sym : Type} `{FrameSymbolizer Sym} memory modules_ (s : Sym) callee first allowed f s' :
  recover_caller modules_ memory s callee first allowed = Ok (Some f, s') ->
  AMD64_caller None (Some memory) modules_ s callee first allowed = Undef.
Proof. intros E. unfold AMD64_caller. by rewrite E. Qed.
