(* ===== verification/StackwalkerPPC.v ===== *)
(** * The PowerPC and SPARC stack walkers (processor/stackwalker_ppc.cc,
    stackwalker_ppc64.cc, stackwalker_sparc.cc)

    These walkers follow the chain of saved stack pointers only: they use no
    debugging information and never scan. *)

From S2P Require Import Prelude PostfixEvaluator CodeModules FrameSymbolizer Stackwalker.
#[local] Open Scope Z_scope.

(** ** PowerPC *)

(** The members of [MDRawContextPPC] and [MDRawContextPPC64] that the walkers
    use: [srr0] and [gpr[1]], the stack pointer. *)
Record MDRawContextPPC : Type := mkContextPPC { srr0 : Z; gpr_1 : Z }.

Definition CONTEXT_VALID_SRR0 : Z := Z.shiftl 1 0.
Definition CONTEXT_VALID_GPR1 : Z := Z.shiftl 1 1.
Definition PPC_VALID_ALL : Z := -1.

Abbreviation StackFramePPC := (CpuFrame MDRawContextPPC).

Definition PPC_GetContextFrame (context_ : option MDRawContextPPC) : option StackFramePPC :=
  match context_ with
  | None => None
  | Some c => Some (set_frame_instruction (new_cpu_frame FRAME_TRUST_CONTEXT c PPC_VALID_ALL) (srr0 c))
  end.

(** The caller, for words of [w] bits that [read] answers, with the return
    address [ra_offset] above the saved stack pointer and instructions of
    [size] bytes. *)
Definition PPC_recover {Sym : Type} (w : Z) (read : memory_region) (ra_offset size : Z) (s : Sym)
    (last_frame : StackFramePPC) (is_context_frame : bool) : outcome (option StackFramePPC * Sym) :=
  match read (gpr_1 (context last_frame)) with
  | None => Ok (None, s)
  | Some stack_pointer =>
      if stack_pointer <=? gpr_1 (context last_frame) then Ok (None, s)
      else
        match read (wrap w (stack_pointer + ra_offset)) with
        | None => Ok (None, s)
        | Some instruction =>
            if instruction <=? 1 then Ok (None, s)
            else if TerminateWalk instruction stack_pointer (gpr_1 (context last_frame)) is_context_frame
            then Ok (None, s)
            else
              let frame := new_cpu_frame FRAME_TRUST_FP (mkContextPPC instruction stack_pointer)
                             (Z.lor CONTEXT_VALID_SRR0 CONTEXT_VALID_GPR1) in
              Ok (Some (set_frame_instruction frame (wrap w (instruction - size))), s)
        end
  end.

Section walkers.
Context {Sym : Type}.
Implicit Types (s : Sym) (last_frame : StackFramePPC).

Definition PPC_caller (memory : Region) s last_frame (is_context_frame stack_scan_allowed : bool) :=
  PPC_recover 32 (read_32 memory) 8 4 s last_frame is_context_frame.

Definition PPC64_caller (memory : Region) s last_frame (is_context_frame stack_scan_allowed : bool) :=
  PPC_recover 64 (read_64 memory) 16 8 s last_frame is_context_frame.

Definition StackwalkerPPC (context_ : option MDRawContextPPC) (memory : option Region) :
    Stackwalker MDRawContextPPC Sym := {|
  GetContextFrame := PPC_GetContextFrame context_;
  GetCallerFrame := caller_of_last (memory_below 0xffffffff memory) PPC_caller;
|}.

Definition StackwalkerPPC64 (context_ : option MDRawContextPPC) (memory_ : option Region) :
    Stackwalker MDRawContextPPC Sym := {|
  GetContextFrame := PPC_GetContextFrame context_;
  GetCallerFrame := caller_of_last memory_ PPC64_caller;
|}.
End walkers.

(** ** SPARC *)

(** The members of [MDRawContextSPARC] that the walker uses: [pc], [g_r[14]]
    (the stack pointer) and [g_r[30]] (the frame pointer). *)
Record MDRawContextSPARC : Type := mkContextSPARC { pc : Z; g_r_14 : Z; g_r_30 : Z }.

Definition SPARC_VALID_PC : Z := Z.shiftl 1 0.
Definition SPARC_VALID_SP : Z := Z.shiftl 1 1.
Definition SPARC_VALID_FP : Z := Z.shiftl 1 2.
Definition SPARC_VALID_ALL : Z := -1.

Abbreviation StackFrameSPARC := (CpuFrame MDRawContextSPARC).

Definition SPARC_GetContextFrame (context_ : option MDRawContextSPARC) : option StackFrameSPARC :=
  match context_ with
  | None => None
  | Some c => Some (set_frame_instruction (new_cpu_frame FRAME_TRUST_CONTEXT c SPARC_VALID_ALL) (pc c))
  end.

Definition SPARC_caller {Sym : Type} (memory : Region) (s : Sym) (last_frame : StackFrameSPARC)
    (is_context_frame stack_scan_allowed : bool) : outcome (option StackFrameSPARC * Sym) :=
  let stack_pointer := g_r_30 (context last_frame) in
  if stack_pointer <=? g_r_14 (context last_frame) then Ok (None, s)
  else
    match read_32 memory (wrap 64 (stack_pointer + 60)) with
    | None => Ok (None, s)
    | Some instruction =>
        if instruction <=? 1 then Ok (None, s)
        else
          match read_32 memory (wrap 64 (stack_pointer + 56)) with
          | None => Ok (None, s)
          | Some stack_base =>
              if stack_base <=? 1 then Ok (None, s)
              else if TerminateWalk instruction stack_pointer (g_r_14 (context last_frame)) is_context_frame
              then Ok (None, s)
              else
                let frame := new_cpu_frame FRAME_TRUST_FP
                               (mkContextSPARC (wrap 32 (instruction + 8)) stack_pointer stack_base)
                               (Z.lor (Z.lor SPARC_VALID_PC SPARC_VALID_SP) SPARC_VALID_FP) in
                Ok (Some (set_frame_instruction frame instruction), s)
          end
    end.

Definition StackwalkerSPARC {Sym : Type} (context_ : option MDRawContextSPARC) (memory_ : option Region) :
    Stackwalker MDRawContextSPARC Sym := {|
  GetContextFrame := SPARC_GetContextFrame context_;
  GetCallerFrame := caller_of_last memory_ SPARC_caller;
|}.

(** ** The walkers keep their contract *)

Definition ppc_ok (w : Z) (c : MDRawContextPPC) : Prop := uint w (srr0 c) /\ uint w (gpr_1 c).

Definition sparc_ok (c : MDRawContextSPARC) : Prop := uint 64 (pc c) /\ uint 64 (g_r_14 c) /\ uint 64 (g_r_30 c).

Section laws.
Context {Sym : Type} `{FrameSymbolizer Sym} {find : Z -> option CodeModule} `{!FrameSymbolizerLaws Sym find}.
Context (memory_ : option Region) (Hmemory : forall memory, memory_ = Some memory -> region_good memory).

Lemma PPC_recover_good w read ra_offset size (s : Sym) callee first allowed :
  (forall a v, read a = Some v -> uint w v) -> exists o,
    PPC_recover w read ra_offset size s callee first = Ok (o, s) /\
    forall f, o = Some f -> good_caller (fun f => srr0 (context f)) gpr_1 (fun c _ => ppc_ok w c) first allowed callee f.
Proof.
  intros Hread. unfold PPC_recover. destruct (read _) as [sp|] eqn:Esp; [|by exists None].
  destruct (_ <=? _); [by exists None|]. destruct (read (wrap w _)) as [ip|] eqn:Eip; [|by exists None].
  destruct (_ <=? 1); [by exists None|]. destruct (TerminateWalk _ _ _ _) eqn:Et; [by exists None|].
  eexists. split; [done|]. intros f [= <-]. split; [|by auto]. split; by eapply Hread.
Qed.

(** What [GetContextFrame] gives is a frame of the context. *)
Lemma PPC_context_ok w context_ f :
  (forall c, context_ = Some c -> ppc_ok w c) -> PPC_GetContextFrame context_ = Some f ->
  ppc_ok w (context f) /\ base f = new_frame (srr0 (context f)) FRAME_TRUST_CONTEXT.
Proof.
  intros Hc. destruct context_ as [c|]; [|done]. intros [= <-]. split; [by apply Hc|done].
Qed.

#[global] Program Instance ppc_laws context_ (Hcontext : forall c, context_ = Some c -> ppc_ok 32 c) :
  @StackwalkerLaws MDRawContextPPC Sym _ find _ (StackwalkerPPC context_ memory_) := {|
  frame_ip f := srr0 (context f);
  frame_sp := gpr_1;
  registers_ok c _ := ppc_ok 32 c;
|}.
Next Obligation. done. Qed.
Next Obligation. intros context_ Hcontext f. by apply PPC_context_ok. Qed.
Next Obligation.
  intros context_ Hcontext. apply (caller_of_last_ok (fun f => srr0 (context f)) gpr_1 (fun c _ => ppc_ok 32 c)).
  intros memory s callee first allowed Em Hs _. apply memory_below_good in Em; [|done].
  destruct (PPC_recover_good 32 (read_32 memory) 8 4 s callee first allowed) as (o & E & Ho).
  { intros a v Ev. by apply (good_32 memory Em a). }
  by exists o, s.
Qed.

#[global] Program Instance ppc64_laws context_ (Hcontext : forall c, context_ = Some c -> ppc_ok 64 c) :
  @StackwalkerLaws MDRawContextPPC Sym _ find _ (StackwalkerPPC64 context_ memory_) := {|
  frame_ip f := srr0 (context f);
  frame_sp := gpr_1;
  registers_ok c _ := ppc_ok 64 c;
|}.
Next Obligation. done. Qed.
Next Obligation. intros context_ Hcontext f. by apply PPC_context_ok. Qed.
Next Obligation.
  intros context_ Hcontext. apply (caller_of_last_ok (fun f => srr0 (context f)) gpr_1 (fun c _ => ppc_ok 64 c)).
  intros memory s callee first allowed Em Hs _.
  destruct (PPC_recover_good 64 (read_64 memory) 16 8 s callee first allowed) as (o & E & Ho).
  { intros a v Ev. by apply (good_64 memory (Hmemory _ Em) a). }
  by exists o, s.
Qed.

(** The instruction pointer a walk tests is the return address, not [pc], which
    is 8 above it and may wrap. *)
#[global] Program Instance sparc_laws context_ (Hcontext : forall c, context_ = Some c -> sparc_ok c) :
  @StackwalkerLaws MDRawContextSPARC Sym _ find _ (StackwalkerSPARC context_ memory_) := {|
  frame_ip f := frame_instruction (base f);
  frame_sp := g_r_14;
  registers_ok c _ := sparc_ok c;
|}.
Next Obligation. done. Qed.
Next Obligation.
  intros context_ Hcontext f E. destruct context_ as [c|]; [|done]. injection E as <-. split; [by apply Hcontext|done].
Qed.
Next Obligation.
  intros context_ Hcontext. apply (caller_of_last_ok (fun f => frame_instruction (base f)) g_r_14 (fun c _ => sparc_ok c)).
  intros memory s callee first allowed Em Hs (_ & _ & Hfp). unfold SPARC_caller.
  assert (forall o, o = None -> exists o' s', Ok (o, s) = Ok (o', s') /\ sym_ok s' /\
    forall f : StackFrameSPARC, o' = Some f -> good_caller (fun f => frame_instruction (base f)) g_r_14 (fun c _ => sparc_ok c) first allowed callee f)
    as Hnone by (intros o ->; by exists None, s).
  destruct (_ <=? _); [by apply Hnone|]. destruct (read_32 memory (wrap 64 (_ + 60))) as [ip|] eqn:Eip; [|by apply Hnone].
  destruct (ip <=? 1); [by apply Hnone|]. destruct (read_32 memory (wrap 64 (_ + 56))) as [fp|] eqn:Efp; [|by apply Hnone].
  destruct (fp <=? 1); [by apply Hnone|]. destruct (TerminateWalk _ _ _ _) eqn:Et; [by apply Hnone|].
  eexists _, s. split; [done|]. split; [done|]. intros f [= <-]. split; [|by auto].
  apply (good_32 memory (Hmemory _ Em)) in Efp as (_ & _ & Hb). pose proof (wrap_uint 32 (ip + 8) ltac:(lia)).
  unfold sparc_ok, uint in *. cbn. lia.
Qed.
End laws.
