(* ===== verification/StackwalkerARM.v ===== *)
(** * The ARM and ARM64 stack walkers (processor/stackwalker_arm.cc,
    stackwalker_arm64.cc, google_breakpad/processor/stack_frame_cpu.h)

    Both keep the registers in an array, give the CFI rules the valid ones by
    name, and fall back to the frame pointer and to scanning. *)

From stdpp Require Import gmap.
From S2P Require Import Prelude LibcSupport Tokens PostfixEvaluator CfiFrameInfo SymbolModule CodeModules SymbolSupplier FrameSymbolizer Stackwalker.
#[local] Open Scope Z_scope.

(** ** What the two walkers share *)

(** [iregs], an array of [count] registers of [w] bits. *)
Abbreviation iregs := (nat -> Z).

Section registers.
Context (w : Z) (count : nat) (register_names : list chars).
(** The callee-saves registers, the stack pointer and the program counter. *)
Context (first_saved last_saved SP PC : nat).
Implicit Types (c : iregs) (names : list chars).

Definition RegisterValidFlag (n : nat) : Z := Z.shiftl 1 (Z.of_nat n).

Definition is_valid (validity : Z) (n : nat) : bool := negb (Z.land validity (RegisterValidFlag n) =? 0).

(** [iregs[i]] *)
Definition ireg_at c (i : nat) : outcome Z := if (i <? count)%nat then Ok (c i) else Undef.

Definition set_ireg c (i : nat) (v : Z) : outcome iregs :=
  if (i <? count)%nat then Ok (set_member c i v) else Undef.

(** The valid registers by name, from the register [i] on. *)
Fixpoint callee_registers (i : nat) names c (validity : Z) (d : dictionary) : outcome dictionary :=
  match names with
  | [] => Ok d
  | name :: names =>
      let? d := if is_valid validity i then let? v := ireg_at c i in Ok (<[name := v]> d) else Ok d in
      callee_registers (S i) names c validity d
  end.

(** The registers of the new frame, from the register [i] on. *)
Fixpoint fill_registers (i : nat) names (caller : dictionary) (last : iregs) (last_validity : Z)
    c (validity : Z) : outcome (iregs * Z) :=
  match names with
  | [] => Ok (c, validity)
  | name :: names =>
      let? (c, validity) :=
        match caller !! name with
        | Some v => let? c := set_ireg c i v in Ok (c, Z.lor validity (RegisterValidFlag i))
        | None =>
            if (first_saved <=? i)%nat && (i <=? last_saved)%nat && is_valid last_validity i then
              let? v := ireg_at last i in
              let? c := set_ireg c i v in Ok (c, Z.lor validity (RegisterValidFlag i))
            else Ok (c, validity)
        end in
      fill_registers (S i) names caller last last_validity c validity
  end.

(** The stack pointer from [.cfa], when the rules do not recover it. *)
Definition sp_from_cfa (caller : dictionary) c (validity : Z) : iregs * Z :=
  match (if is_valid validity SP then None else caller !! str ".cfa") with
  | Some v => (set_member c SP v, Z.lor validity (RegisterValidFlag SP))
  | None => (c, validity)
  end.

(** The caller from CFI rules; [pc_from_ra] gives the program counter from
    [.ra]. *)
Definition arm_by_CFI (pc_from_ra : Z -> iregs -> Z -> iregs * Z) (memory : memory_region)
    (last_frame : CpuFrame iregs) (cfi_frame_info : CFIFrameInfo) : outcome (option (CpuFrame iregs)) :=
  let? callee := callee_registers 0 register_names (context last_frame) (context_validity last_frame) ∅ in
  let? (found, caller) := FindCallerRegs w cfi_frame_info callee memory ∅ in
  if negb found then Ok None
  else
    let? (c, validity) :=
      fill_registers 0 register_names caller (context last_frame) (context_validity last_frame) (fun _ => 0) 0 in
    let '(c, validity) :=
      match (if is_valid validity PC then None else caller !! str ".ra") with
      | Some v => pc_from_ra v c validity
      | None => (c, validity)
      end in
    let '(c, validity) := sp_from_cfa caller c validity in
    let essentials := Z.lor (RegisterValidFlag SP) (RegisterValidFlag PC) in
    if negb (Z.land validity essentials =? essentials) then Ok None
    else Ok (Some (new_cpu_frame FRAME_TRUST_CFI c validity)).

Definition arm_by_scan {Sym : Type} `{FrameSymbolizer Sym} (modules_ : option CodeModules)
    (memory : memory_region) (s : Sym) (last_frame : CpuFrame iregs) (is_context_frame : bool) :
    outcome (option (CpuFrame iregs) * Sym) :=
  let last_sp := context last_frame SP in
  let? (found, s) := ScanForReturnAddress modules_ w memory s last_sp is_context_frame in
  match found with
  | None => Ok (None, s)
  | Some (caller_sp, caller_pc) =>
      let caller_sp := wrap w (caller_sp + w / 8) in
      let c := set_member (set_member (context last_frame) PC caller_pc) SP caller_sp in
      Ok (Some (new_cpu_frame FRAME_TRUST_SCAN c (Z.lor (RegisterValidFlag PC) (RegisterValidFlag SP))), s)
  end.
End registers.

(** ** ARM *)

Definition MD_CONTEXT_ARM_GPR_COUNT : nat := 16.
Definition MD_CONTEXT_ARM_REG_IOS_FP : Z := 7.
Definition MD_CONTEXT_ARM_REG_SP : nat := 13.
Definition MD_CONTEXT_ARM_REG_LR : nat := 14.
Definition MD_CONTEXT_ARM_REG_PC : nat := 15.
Definition ARM_VALID_ALL : Z := -1.

Abbreviation StackFrameARM := (CpuFrame iregs).

Definition ARM_register_names : list chars :=
  map str ["r0"; "r1"; "r2"; "r3"; "r4"; "r5"; "r6"; "r7";
           "r8"; "r9"; "r10"; "r11"; "r12"; "sp"; "lr"; "pc";
           "f0"; "f1"; "f2"; "f3"; "f4"; "f5"; "f6"; "f7";
           "fps"; "cpsr"]%string.

Section ARM.
Context {Sym : Type} `{FrameSymbolizer Sym}.
(** The members of the walker. *)
Context (system_info : option SystemInfo) (context_ : option iregs) (fp_register_ : Z).
Context (context_frame_validity_ : Z) (memory_ : option Region) (modules_ : option CodeModules).
Implicit Types (s : Sym) (last_frame : StackFrameARM).

Definition ARM_GetContextFrame : option StackFrameARM :=
  match context_ with
  | None => None
  | Some c => Some (set_frame_instruction (new_cpu_frame FRAME_TRUST_CONTEXT c context_frame_validity_)
                      (c MD_CONTEXT_ARM_REG_PC))
  end.

(** With a frame pointer the rules update the link register. *)
Definition ARM_pc_from_ra last_frame (ra : Z) (c : iregs) (validity : Z) : iregs * Z :=
  if fp_register_ =? -1
  then (set_member c MD_CONTEXT_ARM_REG_PC ra, Z.lor validity (RegisterValidFlag MD_CONTEXT_ARM_REG_PC))
  else (set_member (set_member c MD_CONTEXT_ARM_REG_LR ra) MD_CONTEXT_ARM_REG_PC
          (context last_frame MD_CONTEXT_ARM_REG_LR),
        Z.lor (Z.lor validity (RegisterValidFlag MD_CONTEXT_ARM_REG_PC)) (RegisterValidFlag MD_CONTEXT_ARM_REG_LR)).

Definition ARM_GetCallerByCFIFrameInfo (memory : Region) last_frame (cfi_frame_info : CFIFrameInfo) :
    outcome (option StackFrameARM) :=
  arm_by_CFI 32 MD_CONTEXT_ARM_GPR_COUNT ARM_register_names 4 11 MD_CONTEXT_ARM_REG_SP MD_CONTEXT_ARM_REG_PC
    (ARM_pc_from_ra last_frame) (read_32 memory) last_frame cfi_frame_info.

(** Two words at [last_fp], 0 without a frame pointer; [None] when they cannot
    be read. *)
Definition saved_words (w : Z) (read : memory_region) (last_fp : Z) : option (Z * Z) :=
  if last_fp =? 0 then Some (0, 0)
  else
    match read last_fp with
    | None => None
    | Some caller_fp =>
        match read (wrap w (last_fp + w / 8)) with
        | None => None
        | Some caller_lr => Some (caller_fp, caller_lr)
        end
    end.

Definition ARM_GetCallerByFramePointer (memory : Region) last_frame : option StackFrameARM :=
  let fp := Z.to_nat fp_register_ in
  let c := context last_frame in
  if negb (is_valid (context_validity last_frame) fp) then None
  else
    let last_fp := c fp in
    match saved_words 32 (read_32 memory) last_fp with
    | None => None
    | Some (caller_fp, caller_lr) =>
        let caller_sp := if last_fp =? 0 then c MD_CONTEXT_ARM_REG_SP else wrap 32 (last_fp + 8) in
        let c' := set_member (set_member c fp caller_fp) MD_CONTEXT_ARM_REG_SP caller_sp in
        let c' := set_member c' MD_CONTEXT_ARM_REG_PC (c MD_CONTEXT_ARM_REG_LR) in
        let c' := set_member c' MD_CONTEXT_ARM_REG_LR caller_lr in
        Some (new_cpu_frame FRAME_TRUST_FP c'
                (Z.lor (Z.lor (Z.lor (RegisterValidFlag MD_CONTEXT_ARM_REG_PC) (RegisterValidFlag MD_CONTEXT_ARM_REG_LR))
                   (RegisterValidFlag fp)) (RegisterValidFlag MD_CONTEXT_ARM_REG_SP)))
    end.

(** CFI data is not used for iOS. *)
Definition ignores_CFI : bool :=
  match system_info with Some i => bool_decide (os i = str "iOS") | None => false end.

Definition ARM_caller (memory : Region) s last_frame (is_context_frame stack_scan_allowed : bool) :
    outcome (option StackFrameARM * Sym) :=
  let? frame :=
    if ignores_CFI then Ok None
    else
      let? cfi_frame_info := sym_FindCFIFrameInfo s (base last_frame) in
      match cfi_frame_info with
      | Some i => ARM_GetCallerByCFIFrameInfo memory last_frame i
      | None => Ok None
      end in
  let frame :=
    match frame with
    | Some f => Some f
    | None => if 0 <=? fp_register_ then ARM_GetCallerByFramePointer memory last_frame else None
    end in
  let? (frame, s) :=
    match frame with
    | Some f => Ok (Some f, s)
    | None =>
        if stack_scan_allowed then
          arm_by_scan 32 MD_CONTEXT_ARM_REG_SP MD_CONTEXT_ARM_REG_PC modules_ (read_32 memory) s last_frame is_context_frame
        else Ok (None, s)
    end in
  match frame with
  | None => Ok (None, s)
  | Some f =>
      if TerminateWalk (context f MD_CONTEXT_ARM_REG_PC) (context f MD_CONTEXT_ARM_REG_SP)
           (context last_frame MD_CONTEXT_ARM_REG_SP) is_context_frame
      then Ok (None, s)
      else Ok (Some (set_frame_instruction f (wrap 32 (context f MD_CONTEXT_ARM_REG_PC - 2))), s)
  end.

Definition StackwalkerARM : Stackwalker iregs Sym := {|
  GetContextFrame := ARM_GetContextFrame;
  GetCallerFrame := caller_of_last memory_ ARM_caller;
|}.
End ARM.

(** ** ARM64 *)

Definition MD_CONTEXT_ARM64_GPR_COUNT : nat := 33.
Definition MD_CONTEXT_ARM64_REG_FP : nat := 29.
Definition MD_CONTEXT_ARM64_REG_LR : nat := 30.
Definition MD_CONTEXT_ARM64_REG_SP : nat := 31.
Definition MD_CONTEXT_ARM64_REG_PC : nat := 32.
Definition ARM64_VALID_ALL : Z := 2 ^ 64 - 1.

Abbreviation StackFrameARM64 := (CpuFrame iregs).

Definition ARM64_register_names : list chars :=
  map str ["x0"; "x1"; "x2"; "x3"; "x4"; "x5"; "x6"; "x7";
           "x8"; "x9"; "x10"; "x11"; "x12"; "x13"; "x14"; "x15";
           "x16"; "x17"; "x18"; "x19"; "x20"; "x21"; "x22"; "x23";
           "x24"; "x25"; "x26"; "x27"; "x28"; "x29"; "x30"; "sp";
           "pc"]%string.

(** Every bit below one that is set. *)
Definition smear (mask : Z) : Z :=
  fold_left (fun mask n => Z.lor mask (Z.shiftr mask n)) [1; 2; 4; 8; 16; 32] mask.

(** [address_range_mask_]: ones up to the highest bit of the end of the last
    module. *)
Definition address_range_mask (modules : option CodeModules) : outcome Z :=
  match modules with
  | None => Ok (2 ^ 64 - 1)
  | Some m =>
      if 0 <? module_count m then
        let? high_module := GetModuleAtSequence m (wrap 32 (module_count m - 1)) in
        let? high_module := of_option high_module in
        Ok (smear (wrap 64 (base_address high_module + size high_module)))
      else Ok (2 ^ 64 - 1)
  end.

Section ARM64.
Context {Sym : Type} `{FrameSymbolizer Sym}.
(** The members of the walker. *)
Context (context_ : option iregs) (context_frame_validity_ : Z).
Context (memory_ : option Region) (modules_ : option CodeModules) (address_range_mask_ : Z).
Implicit Types (s : Sym) (last_frame : StackFrameARM64).

Definition PtrauthStrip (ptr : Z) : Z :=
  let stripped := Z.land ptr address_range_mask_ in
  match module_at modules_ stripped with Some _ => stripped | None => ptr end.

Definition ARM64_GetContextFrame : option StackFrameARM64 :=
  match context_ with
  | None => None
  | Some c =>
      Some (set_frame_instruction
              (new_cpu_frame FRAME_TRUST_CONTEXT
                 (set_member c MD_CONTEXT_ARM64_REG_LR (PtrauthStrip (c MD_CONTEXT_ARM64_REG_LR)))
                 context_frame_validity_)
              (c MD_CONTEXT_ARM64_REG_PC))
  end.

Definition ARM64_GetCallerByCFIFrameInfo (memory : Region) last_frame (cfi_frame_info : CFIFrameInfo) :
    outcome (option StackFrameARM64) :=
  arm_by_CFI 64 MD_CONTEXT_ARM64_GPR_COUNT ARM64_register_names 19 29
    MD_CONTEXT_ARM64_REG_SP MD_CONTEXT_ARM64_REG_PC
    (fun ra c validity => (set_member c MD_CONTEXT_ARM64_REG_PC ra,
                           Z.lor validity (RegisterValidFlag MD_CONTEXT_ARM64_REG_PC)))
    (read_64 memory) last_frame cfi_frame_info.

(** The link register of the last frame, from the frame pointer of the frame
    before it. *)
Definition CorrectRegLRByFramePointer (memory : Region) last_frame
    (last_last_frame : option (outcome StackFrameARM64)) : outcome StackFrameARM64 :=
  let c := context last_frame in
  match last_last_frame with
  | None => Ok last_frame
  | Some last_last_frame =>
      if c MD_CONTEXT_ARM64_REG_FP <=? c MD_CONTEXT_ARM64_REG_SP then Ok last_frame
      else
        let? last_last_frame := last_last_frame in
        let last_last_fp := context last_last_frame MD_CONTEXT_ARM64_REG_FP in
        match (if last_last_fp =? 0 then Some 0 else read_64 memory last_last_fp) with
        | None => Ok last_frame
        | Some last_fp =>
            if negb (c MD_CONTEXT_ARM64_REG_FP =? last_fp) then Ok last_frame
            else
              match (if last_last_fp =? 0 then Some 0 else read_64 memory (wrap 64 (last_last_fp + 8))) with
              | None => Ok last_frame
              | Some last_lr =>
                  Ok (mkCpuFrame (base last_frame) (set_member c MD_CONTEXT_ARM64_REG_LR (PtrauthStrip last_lr))
                        (context_validity last_frame))
              end
        end
  end.

(** The new frame and the last frame, whose link register may be corrected. *)
Definition ARM64_GetCallerByFramePointer (memory : Region) last_frame
    (last_last_frame : option (outcome StackFrameARM64)) : outcome (option StackFrameARM64 * StackFrameARM64) :=
  let? last_frame :=
    if is_valid (context_validity last_frame) MD_CONTEXT_ARM64_REG_LR then Ok last_frame
    else CorrectRegLRByFramePointer memory last_frame last_last_frame in
  let c := context last_frame in
  let last_fp := c MD_CONTEXT_ARM64_REG_FP in
  match saved_words 64 (read_64 memory) last_fp with
  | None => Ok (None, last_frame)
  | Some (caller_fp, caller_lr) =>
      let caller_lr := PtrauthStrip caller_lr in
      let caller_sp := if last_fp =? 0 then c MD_CONTEXT_ARM64_REG_SP else wrap 64 (last_fp + 16) in
      let c' := set_member (set_member c MD_CONTEXT_ARM64_REG_FP caller_fp) MD_CONTEXT_ARM64_REG_SP caller_sp in
      let c' := set_member c' MD_CONTEXT_ARM64_REG_PC (c MD_CONTEXT_ARM64_REG_LR) in
      let c' := set_member c' MD_CONTEXT_ARM64_REG_LR caller_lr in
      let frame :=
        new_cpu_frame FRAME_TRUST_FP c'
          (Z.lor (Z.lor (Z.lor (RegisterValidFlag MD_CONTEXT_ARM64_REG_PC) (RegisterValidFlag MD_CONTEXT_ARM64_REG_LR))
             (RegisterValidFlag MD_CONTEXT_ARM64_REG_FP)) (RegisterValidFlag MD_CONTEXT_ARM64_REG_SP)) in
      Ok (Some frame, last_frame)
  end.

Definition ARM64_caller (memory : Region) s last_frame (last_last_frame : option (outcome StackFrameARM64))
    (stack_scan_allowed : bool) : outcome (option StackFrameARM64 * StackFrameARM64 * Sym) :=
  let? cfi_frame_info := sym_FindCFIFrameInfo s (base last_frame) in
  let? frame :=
    match cfi_frame_info with
    | Some i => ARM64_GetCallerByCFIFrameInfo memory last_frame i
    | None => Ok None
    end in
  let? (frame, last_frame) :=
    match frame with
    | Some f => Ok (Some f, last_frame)
    | None => ARM64_GetCallerByFramePointer memory last_frame last_last_frame
    end in
  let? (frame, s) :=
    match frame with
    | Some f => Ok (Some f, s)
    | None =>
        if stack_scan_allowed then
          arm_by_scan 64 MD_CONTEXT_ARM64_REG_SP MD_CONTEXT_ARM64_REG_PC modules_ (read_64 memory) s last_frame
            (only_frame last_last_frame)
        else Ok (None, s)
    end in
  match frame with
  | None => Ok (None, last_frame, s)
  | Some f =>
      if TerminateWalk (context f MD_CONTEXT_ARM64_REG_PC) (context f MD_CONTEXT_ARM64_REG_SP)
           (context last_frame MD_CONTEXT_ARM64_REG_SP) (only_frame last_last_frame)
      then Ok (None, last_frame, s)
      else Ok (Some (set_frame_instruction f (wrap 64 (context f MD_CONTEXT_ARM64_REG_PC - 4))), last_frame, s)
  end.

Definition StackwalkerARM64 : Stackwalker iregs Sym := {|
  GetContextFrame := ARM64_GetContextFrame;
  GetCallerFrame := caller_of_frames memory_ ARM64_caller;
|}.
End ARM64.

(** The constructor of [StackwalkerARM64], which derives the mask from the
    modules. *)
Definition new_StackwalkerARM64 {Sym : Type} `{FrameSymbolizer Sym} (context : option iregs)
    (memory : option Region) (modules : option CodeModules) : outcome (Stackwalker iregs Sym) :=
  let? mask := address_range_mask modules in
  Ok (StackwalkerARM64 context ARM64_VALID_ALL memory modules mask).

(** ** The walkers keep their contract *)

Definition regs_ok (w : Z) (c : iregs) : Prop := forall i, uint w (c i).

Lemma set_member_regs w (c : iregs) i v : regs_ok w c -> uint w v -> regs_ok w (set_member c i v).
Proof. intros Hc Hv j. unfold set_member. case_decide; [done|apply Hc]. Qed.

Lemma is_valid_testbit validity n : is_valid validity n = Z.testbit validity (Z.of_nat n).
Proof.
  unfold is_valid, RegisterValidFlag. rewrite Z.shiftl_1_l.
  assert (Z.land validity (2 ^ Z.of_nat n) = if Z.testbit validity (Z.of_nat n) then 2 ^ Z.of_nat n else 0) as ->.
  { apply Z.bits_inj'. intros m Hm. rewrite Z.land_spec, Z.pow2_bits_eqb by lia.
    destruct (Z.eqb_spec (Z.of_nat n) m) as [<-|Hne].
    - rewrite andb_true_r. destruct (Z.testbit validity (Z.of_nat n)); [|by rewrite Z.bits_0].
      by rewrite Z.pow2_bits_true by lia.
    - rewrite andb_false_r. destruct (Z.testbit validity (Z.of_nat n)); [|by rewrite Z.bits_0].
      by rewrite Z.pow2_bits_false by done. }
  destruct (Z.testbit validity (Z.of_nat n)); [|done]. pose proof (Z.pow_pos_nonneg 2 (Z.of_nat n)).
  destruct (Z.eqb_spec (2 ^ Z.of_nat n) 0); [lia|done].
Qed.

Lemma is_valid_lor a b n : is_valid (Z.lor a b) n = is_valid a n || is_valid b n.
Proof. rewrite !is_valid_testbit. apply Z.lor_spec. Qed.

Lemma is_valid_flag m n : is_valid (RegisterValidFlag m) n = (m =? n)%nat.
Proof.
  rewrite is_valid_testbit. unfold RegisterValidFlag. rewrite Z.shiftl_1_l, Z.pow2_bits_eqb by lia.
  destruct (Nat.eqb_spec m n); [apply Z.eqb_eq|apply Z.eqb_neq]; lia.
Qed.

(** The names that a recovered dictionary can have. *)
Definition rule_names (info : CFIFrameInfo) : list chars := str ".cfa" :: str ".ra" :: map fst (register_rules_ info).

Lemma evaluate_rules_names w registers cfa rules : forall ev caller ok caller',
  evaluate_rules w ev registers cfa rules caller = Ok (ok, caller') ->
  forall x, is_Some (caller' !! x) -> is_Some (caller !! x) \/ x ∈ map fst rules.
Proof.
  induction rules as [|[name rule] rules IH]; intros ev caller ok caller'; cbn [evaluate_rules].
  { intros [= _ <-]. auto. }
  intros ((v & ev') & _ & H)%obind_Ok x Hx. cbn [map fst]. rewrite elem_of_cons.
  destruct v as [v|]; [|injection H as _ <-; auto].
  destruct (IH _ _ _ _ H x Hx) as [Hc|]; [|auto].
  destruct (decide (x = name)) as [->|Hne]; [auto|]. rewrite lookup_insert_ne in Hc by done. auto.
Qed.

Lemma FindCallerRegs_names w info registers memory ok caller :
  FindCallerRegs w info registers memory ∅ = Ok (ok, caller) ->
  forall x, is_Some (caller !! x) -> x ∈ rule_names info.
Proof.
  unfold FindCallerRegs, rule_names. intros H x Hx.
  assert (~ is_Some ((∅ : dictionary) !! x)) as Hno by (rewrite lookup_empty; by intros []).
  destruct (_ || _); [injection H as _ <-; done|].
  apply obind_Ok in H as ((cfa & ev1) & _ & H). destruct cfa as [cfa|]; [|injection H as _ <-; done].
  apply obind_Ok in H as ((ra & ev2) & _ & H). destruct ra as [ra|]; [|injection H as _ <-; done].
  apply obind_Ok in H as ((ok' & caller') & E & H).
  pose proof (evaluate_rules_names _ _ _ _ _ _ _ _ E x) as Hn. rewrite !elem_of_cons.
  destruct ok'; injection H as _ <-; [|destruct (Hn Hx); [done|auto]].
  destruct (decide (x = str ".cfa")) as [|H1]; [auto|]. rewrite lookup_insert_ne in Hx by done.
  destruct (decide (x = str ".ra")) as [|H2]; [auto|]. rewrite lookup_insert_ne in Hx by done.
  destruct (Hn Hx); [done|auto].
Qed.

Section shared.
Context (w : Z) (count : nat) (register_names : list chars) (first_saved last_saved SP PC : nat).
Context (Hw : w = 32 \/ w = 64) (Hsaved : (last_saved < count)%nat) (HSP : (SP < count)%nat) (HPC : (PC < count)%nat).
Implicit Types (c : iregs) (f : CpuFrame iregs).

(** Valid registers that have a name are in the array. *)
Definition valid_in_bounds (validity : Z) : Prop :=
  forall i, (i < length register_names)%nat -> is_valid validity i = true -> (i < count)%nat.

(** So are the registers that have rules. *)
Definition rules_in_bounds (info : CFIFrameInfo) : Prop :=
  forall i name, register_names !! i = Some name -> name ∈ rule_names info -> (i < count)%nat.

Lemma callee_registers_ok c validity : regs_ok w c -> valid_in_bounds validity ->
  forall names i d, (i + length names <= length register_names)%nat -> dictionary_ok w d ->
  exists d', callee_registers count i names c validity d = Ok d' /\ dictionary_ok w d'.
Proof using Type.
  clear HSP HPC Hsaved. intros Hc Hv. induction names as [|name names IH]; intros i d Hlen Hd; cbn [callee_registers]; [by exists d|].
  cbn [length] in Hlen. destruct (is_valid validity i) eqn:E.
  - unfold ireg_at. destruct (Nat.ltb_spec i count) as [_|Hge]; [|specialize (Hv i ltac:(lia) E); lia].
    cbn [obind]. apply IH; [lia|]. by apply dictionary_ok_insert.
  - cbn [obind]. apply IH; [lia|done].
Qed.

(** A context whose valid registers are in the array. *)
Definition filled_ok (p : iregs * Z) : Prop :=
  regs_ok w p.1 /\ forall i, is_valid p.2 i = true -> (i < count)%nat.

Lemma filled_set c validity i v :
  filled_ok (c, validity) -> (i < count)%nat -> uint w v ->
  filled_ok (set_member c i v, Z.lor validity (RegisterValidFlag i)).
Proof using Type.
  clear HSP HPC Hsaved. intros [Hc Hv] Hi Hx. split; cbn [fst snd] in *; [by apply set_member_regs|].
  intros j. rewrite is_valid_lor, is_valid_flag. intros [Hj|Hj]%orb_prop; [by apply Hv|].
  apply Nat.eqb_eq in Hj. lia.
Qed.

Lemma fill_registers_ok caller last last_validity :
  dictionary_ok w caller -> regs_ok w last ->
  forall names i c validity,
  (forall k name, names !! k = Some name -> is_Some (caller !! name) -> (i + k < count)%nat) -> filled_ok (c, validity) ->
  exists p, fill_registers count first_saved last_saved i names caller last last_validity c validity = Ok p /\ filled_ok p.
Proof using Hsaved.
  clear HSP HPC. intros Hd Hl. induction names as [|name names IH]; intros i c validity Hn Hf; cbn [fill_registers]; [by eexists|].
  assert (forall k name', names !! k = Some name' -> is_Some (caller !! name') -> (S i + k < count)%nat) as Hn'.
  { intros k name' Hk Hs. specialize (Hn (S k) name' Hk Hs). lia. }
  destruct (caller !! name) as [v|] eqn:E.
  - specialize (Hn 0%nat name eq_refl ltac:(by eexists)). unfold set_ireg.
    destruct (Nat.ltb_spec i count); [|lia]. cbn [obind]. apply IH; [done|]. apply filled_set; [done|done|by eapply Hd].
  - destruct (_ && is_valid last_validity i) eqn:Eb; [|by apply IH].
    apply andb_prop in Eb as [[_ Hle]%andb_prop _]. apply Nat.leb_le in Hle. unfold ireg_at, set_ireg.
    destruct (Nat.ltb_spec i count); [|lia]. cbn [obind]. apply IH; [done|]. by apply filled_set.
Qed.

(** A frame that CFI rules give. *)
Lemma arm_by_CFI_ok pc_from_ra memory callee i :
  rules_defined i -> regs_ok w (context callee) -> valid_in_bounds (context_validity callee) -> rules_in_bounds i ->
  (forall ra p, uint w ra -> filled_ok p -> filled_ok (pc_from_ra ra p.1 p.2)) ->
  exists o, arm_by_CFI w count register_names first_saved last_saved SP PC pc_from_ra memory callee i = Ok o /\
    forall f, o = Some f -> filled_ok (context f, context_validity f) /\ base f = new_frame 0 FRAME_TRUST_CFI.
Proof using Hw Hsaved HSP.
  clear HPC. intros Hi Hc Hv Hr Hra. unfold arm_by_CFI. assert (0 < w <= 64) as Hw' by (destruct Hw as [-> | ->]; lia).
  destruct (callee_registers_ok (context callee) (context_validity callee) Hc Hv register_names 0 ∅) as (d & E & Hd);
    [done|apply dictionary_ok_empty|].
  rewrite E. cbn [obind]. destruct (FindCallerRegs w i d memory ∅) as [[found caller]|] eqn:Ef.
  2: { by destruct (Hi w d memory Hw'). }
  cbn [obind]. destruct found; cbn [negb]; [|by eexists].
  pose proof (FindCallerRegs_ok _ _ _ _ _ _ Hw' Hd Ef) as Hcaller.
  destruct (fill_registers_ok caller (context callee) (context_validity callee) Hcaller Hc register_names 0 (fun _ => 0) 0)
    as ([c validity] & E1 & H1).
  { intros k name Hk Hs. cbn. eapply Hr; [exact Hk|]. by eapply FindCallerRegs_names. }
  { split; cbn [fst snd]; [intros n; unfold uint; lia|]. intros n. rewrite is_valid_testbit, Z.bits_0. done. }
  rewrite E1. cbn [obind].
  set (p := match (if is_valid validity PC then None else caller !! str ".ra") with Some _ => _ | None => _ end).
  assert (filled_ok p) as Hp.
  { unfold p. destruct (is_valid validity PC); [done|]. destruct (caller !! str ".ra") as [ra|] eqn:Era; [|done].
    apply (Hra ra (c, validity)); [by eapply Hcaller|done]. }
  destruct p as [c2 v2]. assert (filled_ok (sp_from_cfa SP caller c2 v2)) as Hq.
  { unfold sp_from_cfa. destruct (is_valid v2 SP); [done|]. destruct (caller !! str ".cfa") as [cfa|] eqn:Ecfa; [|done].
    apply filled_set; [done|done|by eapply Hcaller]. }
  destruct (sp_from_cfa SP caller c2 v2) as [c3 v3]. destruct (negb _); [by eexists|].
  eexists. split; [done|]. intros f [= <-]. done.
Qed.

Lemma arm_by_scan_ok {Sym : Type} `{FrameSymbolizer Sym} {find : Z -> option CodeModule} `{!FrameSymbolizerLaws Sym find}
    modules_ memory (s : Sym) callee first :
  sym_ok s -> region_scanned w memory -> regs_ok w (context callee) ->
  exists o s', arm_by_scan w SP PC modules_ memory s callee first = Ok (o, s') /\ sym_ok s' /\
    forall f, o = Some f -> filled_ok (context f, context_validity f) /\ base f = new_frame 0 FRAME_TRUST_SCAN.
Proof using Hw HSP HPC.
  clear Hsaved. intros Hs Hm Hc. unfold arm_by_scan.
  destruct (ScanForReturnAddress_spec modules_ w memory Hw Hm s (context callee SP) first Hs (Hc SP)) as (o & s' & E & Hs' & Ho).
  rewrite E. cbn [obind]. destruct o as [[a ip]|]; [|by exists None, s']. eexists _, s'. split; [done|]. split; [done|].
  intros f [= <-]. split; [|done]. destruct (Ho a ip eq_refl) as (_ & _ & _ & _ & Hip & _).
  split; cbn [context context_validity new_cpu_frame fst snd].
  - repeat apply set_member_regs; [done..|]. apply wrap_uint. destruct Hw; lia.
  - intros n. rewrite is_valid_lor, !is_valid_flag. intros [Hn%Nat.eqb_eq|Hn%Nat.eqb_eq]%orb_prop; lia.
Qed.
End shared.

Lemma saved_words_ok w read last_fp fp lr :
  (forall a v, read a = Some v -> uint w v) -> 0 < w -> saved_words w read last_fp = Some (fp, lr) ->
  uint w fp /\ uint w lr.
Proof.
  intros Hr Hw. unfold saved_words. destruct (last_fp =? 0).
  { intros [= <- <-]. unfold uint. pose proof (Z.pow_pos_nonneg 2 w). lia. }
  destruct (read last_fp) as [v1|] eqn:E1; [|done]. destruct (read (wrap w _)) as [v2|] eqn:E2; [|done].
  intros [= <- <-]. split; by eapply Hr.
Qed.

Section ARM_laws.
Context {Sym : Type} `{FrameSymbolizer Sym} {find : Z -> option CodeModule} `{!FrameSymbolizerLaws Sym find}.
Context (system_info : option SystemInfo) (context_ : option iregs) (fp_register_ context_frame_validity_ : Z).
Context (memory_ : option Region) (modules_ : option CodeModules).
Context (Hfp : fp_register_ = -1 \/ fp_register_ = MD_CONTEXT_ARM_REG_IOS_FP).
Context (Hcontext : forall c, context_ = Some c -> regs_ok 32 c).
Context (Hmemory : forall memory, memory_ = Some memory -> region_good memory).

Abbreviation in_bounds := (valid_in_bounds MD_CONTEXT_ARM_GPR_COUNT ARM_register_names).

(** CFI rules are used. *)
Definition uses_CFI : Prop :=
  ignores_CFI system_info = false /\
  exists (s : Sym) frame i, sym_ok s /\ sym_FindCFIFrameInfo s frame = Ok (Some i).

(** There are more names than registers: CFI rules are safe for frames whose
    valid registers exist, and only without rules for the names that have no
    register. *)
Context (Hrules : forall (s : Sym) frame i,
  ignores_CFI system_info = false -> sym_ok s -> sym_FindCFIFrameInfo s frame = Ok (Some i) ->
  rules_in_bounds MD_CONTEXT_ARM_GPR_COUNT ARM_register_names i).

Definition arm_ok (c : iregs) (validity : Z) : Prop :=
  regs_ok 32 c /\ (uses_CFI -> in_bounds validity).

Lemma filled_arm_ok f :
  filled_ok 32 MD_CONTEXT_ARM_GPR_COUNT (context f, context_validity f) -> arm_ok (context f) (context_validity f).
Proof. intros [Hc Hv]. split; [done|]. intros _ i _. apply Hv. Qed.

Lemma ARM_pc_from_ra_ok callee ra p :
  regs_ok 32 (context callee) -> uint 32 ra -> filled_ok 32 MD_CONTEXT_ARM_GPR_COUNT p ->
  filled_ok 32 MD_CONTEXT_ARM_GPR_COUNT (ARM_pc_from_ra fp_register_ callee ra p.1 p.2).
Proof using Type.
  intros Hc Hra Hp. destruct p as [c v]. unfold ARM_pc_from_ra, MD_CONTEXT_ARM_REG_PC, MD_CONTEXT_ARM_REG_LR, MD_CONTEXT_ARM_GPR_COUNT in *.
  cbn [fst snd]. destruct (_ =? _); [apply filled_set; [done|lia|done]|].
  destruct Hp as [Hp Hv]. cbn [fst snd] in *. split; cbn [fst snd].
  - by repeat apply set_member_regs.
  - intros i. rewrite !is_valid_lor, !is_valid_flag. intros [[Hi|Hi]%orb_prop|Hi]%orb_prop; [by apply Hv|..];
      apply Nat.eqb_eq in Hi; lia.
Qed.

Lemma ARM_by_frame_pointer memory callee f :
  region_good memory -> regs_ok 32 (context callee) -> 0 <= fp_register_ ->
  ARM_GetCallerByFramePointer fp_register_ memory callee = Some f ->
  filled_ok 32 MD_CONTEXT_ARM_GPR_COUNT (context f, context_validity f) /\ base f = new_frame 0 FRAME_TRUST_FP.
Proof using Hfp.
  intros Hm Hc Hpos. unfold ARM_GetCallerByFramePointer. destruct (negb _); [done|].
  destruct (saved_words _ _ _) as [[fp lr]|] eqn:E; [|done].
  apply saved_words_ok in E as [Hcfp Hlr]; [|by intros a v (_ & _ & ?)%(good_32 memory Hm)|lia].
  intros [= <-]. split; [|done]. cbn [context context_validity new_cpu_frame]. split; cbn [fst snd].
  - repeat apply set_member_regs; try done. destruct (_ =? _); [done|]. apply wrap_uint. lia.
  - intros i. rewrite !is_valid_lor, !is_valid_flag. unfold MD_CONTEXT_ARM_REG_IOS_FP, MD_CONTEXT_ARM_REG_PC, MD_CONTEXT_ARM_REG_LR, MD_CONTEXT_ARM_REG_SP, MD_CONTEXT_ARM_GPR_COUNT in *.
    intros [[[Hi|Hi]%orb_prop|Hi]%orb_prop|Hi]%orb_prop; apply Nat.eqb_eq in Hi; lia.
Qed.

(** What any of the ways gives: a frame whose instruction is not set yet. *)
Definition arm_recovered (allowed : bool) (f : StackFrameARM) : Prop :=
  filled_ok 32 MD_CONTEXT_ARM_GPR_COUNT (context f, context_validity f) /\
  exists t, base f = new_frame 0 t /\
    (t = FRAME_TRUST_CFI \/ t = FRAME_TRUST_FP \/ t = FRAME_TRUST_SCAN /\ allowed = true).

Lemma ARM_caller_good memory (s : Sym) callee first allowed :
  memory_ = Some memory -> sym_ok s -> arm_ok (context callee) (context_validity callee) ->
  exists o s', ARM_caller system_info fp_register_ modules_ memory s callee first allowed = Ok (o, s') /\ sym_ok s' /\
    forall f, o = Some f ->
      good_caller (fun f => context f MD_CONTEXT_ARM_REG_PC) (fun c => c MD_CONTEXT_ARM_REG_SP) arm_ok first allowed callee f.
Proof using Hfp Hmemory Hrules.
  intros Em Hs [Hc Hv]. pose proof (Hmemory _ Em) as Hm. unfold ARM_caller.
  assert (exists o, (if ignores_CFI system_info then Ok None
    else let? i := sym_FindCFIFrameInfo s (base callee) in
         match i with Some i => ARM_GetCallerByCFIFrameInfo fp_register_ memory callee i | None => Ok None end) = Ok o /\
    forall f, o = Some f -> arm_recovered allowed f) as (o & -> & Ho).
  { destruct (ignores_CFI system_info) eqn:Eos; [by exists None|].
    destruct (sym_FindCFIFrameInfo_ok s (base callee) Hs) as (rules & E & Hdef). rewrite E. cbn [obind].
    destruct rules as [i|]; [|by exists None]. assert uses_CFI as Huses by (split; [done|by exists s, (base callee), i]).
    destruct (arm_by_CFI_ok 32 MD_CONTEXT_ARM_GPR_COUNT ARM_register_names 4 11 MD_CONTEXT_ARM_REG_SP MD_CONTEXT_ARM_REG_PC
                (or_introl eq_refl) ltac:(unfold MD_CONTEXT_ARM_GPR_COUNT; lia)
                ltac:(unfold MD_CONTEXT_ARM_GPR_COUNT, MD_CONTEXT_ARM_REG_SP; lia)
                (ARM_pc_from_ra fp_register_ callee) (read_32 memory) callee i
                (Hdef i eq_refl) Hc (Hv Huses) (Hrules _ _ _ eq_refl Hs E)) as (o & Eo & Ho).
    { intros ra p. by apply ARM_pc_from_ra_ok. }
    exists o. split; [exact Eo|]. intros f Ef. destruct (Ho f Ef) as [Hf Hb]. split; [done|].
    exists FRAME_TRUST_CFI. split; [done|tauto]. }
  cbn [obind].
  set (o' := match o with Some f => Some f | None => _ end).
  assert (forall f, o' = Some f -> arm_recovered allowed f) as Ho'.
  { unfold o'. intros f. destruct o as [g|]; [intros [= <-]; by apply Ho|].
    destruct (Z.leb_spec 0 fp_register_); [|done]. intros Ef.
    destruct (ARM_by_frame_pointer memory callee f Hm Hc) as [Hf Hb]; [done|done|].
    split; [done|]. exists FRAME_TRUST_FP. split; [done|tauto]. }
  assert (exists o2 s', match o' with Some f => Ok (Some f, s)
    | None => if allowed then arm_by_scan 32 MD_CONTEXT_ARM_REG_SP MD_CONTEXT_ARM_REG_PC modules_ (read_32 memory) s callee first
              else Ok (None, s) end = Ok (o2, s') /\ sym_ok s' /\ forall f, o2 = Some f -> arm_recovered allowed f)
    as (o2 & s' & -> & Hs' & Ho2).
  { destruct o' as [g|]; [by exists (Some g), s|]. destruct allowed; [|by exists None, s].
    destruct (arm_by_scan_ok 32 MD_CONTEXT_ARM_GPR_COUNT MD_CONTEXT_ARM_REG_SP MD_CONTEXT_ARM_REG_PC (or_introl eq_refl)
                ltac:(unfold MD_CONTEXT_ARM_GPR_COUNT, MD_CONTEXT_ARM_REG_SP; lia)
                ltac:(unfold MD_CONTEXT_ARM_GPR_COUNT, MD_CONTEXT_ARM_REG_PC; lia)
                modules_ (read_32 memory) s callee first Hs (good_scanned_32 _ Hm) Hc) as (o2 & s' & E & Hs' & Ho2).
    exists o2, s'. split; [done|]. split; [done|]. intros f Ef. destruct (Ho2 f Ef) as [Hf Hb]. split; [done|].
    exists FRAME_TRUST_SCAN. split; [done|tauto]. }
  cbn [obind]. destruct o2 as [f|]; [|by exists None, s']. destruct (Ho2 f eq_refl) as (Hf & t & Hb & Ht).
  destruct (TerminateWalk _ _ _ _) eqn:Et; [by exists None, s'|]. eexists _, s'. split; [done|]. split; [done|].
  intros g [= <-]. split; [by apply filled_arm_ok|]. unfold set_frame_instruction. rewrite Hb.
  split; [done|]. split; [done|]. destruct Ht as [->|[->|[-> ->]]]; cbn; auto.
Qed.

Context (Hvalidity : uses_CFI -> in_bounds context_frame_validity_).

#[global] Program Instance arm_laws :
  @StackwalkerLaws iregs Sym _ find _
    (StackwalkerARM system_info context_ fp_register_ context_frame_validity_ memory_ modules_) := {|
  frame_ip f := context f MD_CONTEXT_ARM_REG_PC;
  frame_sp c := c MD_CONTEXT_ARM_REG_SP;
  registers_ok := arm_ok;
|}.
Next Obligation. done. Qed.
Next Obligation.
  intros f E. cbn [GetContextFrame StackwalkerARM] in E. unfold ARM_GetContextFrame in E.
  destruct context_ as [c|] eqn:Ec; [|done]. injection E as <-. split; [|done]. split; [by apply Hcontext|done].
Qed.
Next Obligation. apply caller_of_last_ok. intros. by apply ARM_caller_good. Qed.
End ARM_laws.

(** Every frame of the context has more valid registers than there are: CFI
    rules for its address read past the end of [iregs]. *)
Lemma ARM_context_frame_out_of_bounds c fp_register_ memory cfi_frame_info f :
  ARM_GetContextFrame (Some c) ARM_VALID_ALL = Some f ->
  ARM_GetCallerByCFIFrameInfo fp_register_ memory f cfi_frame_info = Undef.
Proof. intros [= <-]. reflexivity. Qed.

(** ** The address mask of ARM64 *)

(** [m] has the bits of [e] and the [n - 1] below each of them. *)
Definition smeared (e n m : Z) : Prop :=
  forall k, 0 <= k -> Z.testbit m k = true <-> exists j, k <= j < k + n /\ Z.testbit e j = true.

Lemma smeared_double e n m : 0 < n -> smeared e n m -> smeared e (2 * n) (Z.lor m (Z.shiftr m n)).
Proof.
  intros Hn Hm k Hk. rewrite Z.lor_spec, Z.shiftr_spec, orb_true_iff, (Hm k Hk), (Hm (k + n)) by lia. split.
  - intros [(j & Hj & He)|(j & Hj & He)]; exists j; (split; [lia|done]).
  - intros (j & Hj & He). destruct (decide (j < k + n)); [left|right]; exists j; (split; [lia|done]).
Qed.

Lemma smear_ones e : 0 < e < 2 ^ 64 -> smear e = Z.ones (Z.log2 e + 1).
Proof.
  intros He. assert (smeared e 1 e) as H0.
  { intros k Hk. split; [intros Hb; exists k; split; [lia|done]|]. intros (j & Hj & Hb). by replace k with j by lia. }
  unfold smear. cbn [fold_left]. do 6 apply smeared_double in H0 as H0; [|lia..].
  match goal with |- ?m = _ => assert (smeared e 64 m) as H by exact H0 end. clear H0.
  apply Z.bits_inj'. intros k Hk. pose proof (Z.log2_nonneg e). assert (Z.log2 e < 64) as Hlog by (apply Z.log2_lt_pow2; lia).
  rewrite Z.testbit_ones_nonneg by lia. apply eq_true_iff_eq. rewrite (H k Hk), Z.ltb_lt. split.
  - intros (j & Hj & Hb). destruct (decide (j <= Z.log2 e)); [lia|]. rewrite Z.bits_above_log2 in Hb by lia. done.
  - intros Hlt. exists (Z.log2 e). split; [lia|]. apply Z.bit_log2. lia.
Qed.

(** The last module in the order of the addresses. *)
Definition last_module (m : CodeModules) (high_module : CodeModule) : Prop :=
  0 < module_count m /\ GetModuleAtSequence m (wrap 32 (module_count m - 1)) = Ok (Some high_module).

(** The modules can be enumerated: without modules there is no mask, and else
    the last of them gives it. *)
Definition has_last_module (modules : option CodeModules) : Prop :=
  forall m, modules = Some m -> 0 < module_count m -> exists high_module, last_module m high_module.

Lemma address_range_mask_ok modules : has_last_module modules -> exists mask, address_range_mask modules = Ok mask.
Proof.
  intros Hlast. unfold address_range_mask. destruct modules as [m|]; [|by eexists].
  destruct (Z.ltb_spec 0 (module_count m)) as [Hpos|]; [|by eexists].
  destruct (Hlast m eq_refl Hpos) as (high & _ & ->). cbn [obind of_option]. by eexists.
Qed.

(** The mask keeps every address up to the end of the last module. *)
Lemma address_range_mask_keeps m high mask a :
  last_module m high -> 0 < base_address high + size high < 2 ^ 64 -> address_range_mask (Some m) = Ok mask ->
  0 <= a <= base_address high + size high -> Z.land a mask = a.
Proof.
  intros [Hpos E] He. unfold address_range_mask. destruct (Z.ltb_spec 0 (module_count m)); [|lia].
  rewrite E. cbn [obind of_option]. rewrite wrap_small by (unfold uint; lia). intros [= <-] Ha.
  rewrite smear_ones by done. apply Z.land_ones_low; [lia|].
  pose proof (Z.log2_le_mono a (base_address high + size high)). lia.
Qed.

Section ARM64_laws.
Context {Sym : Type} `{FrameSymbolizer Sym} {find : Z -> option CodeModule} `{!FrameSymbolizerLaws Sym find}.
Context (context_ : option iregs) (context_frame_validity_ : Z) (memory_ : option Region).
Context (modules_ : option CodeModules) (address_range_mask_ : Z).
Context (Hcontext : forall c, context_ = Some c -> regs_ok 64 c).
Context (Hmemory : forall memory, memory_ = Some memory -> region_good memory).

Lemma PtrauthStrip_ok ptr : uint 64 ptr -> uint 64 (PtrauthStrip modules_ address_range_mask_ ptr).
Proof using Type.
  intros Hp. unfold PtrauthStrip. destruct (module_at _ _); [|done]. apply land_uint; [lia|done].
Qed.

Abbreviation correct := (CorrectRegLRByFramePointer modules_ address_range_mask_).
Abbreviation good_correction64 := (good_correction (fun f : StackFrameARM64 => context f MD_CONTEXT_ARM64_REG_PC)
  (fun c : iregs => c MD_CONTEXT_ARM64_REG_SP) (fun c _ => regs_ok 64 c)).

Lemma correct_ok memory callee before :
  region_good memory -> regs_ok 64 (context callee) ->
  (forall o, before = Some o -> exists f : StackFrameARM64, o = Ok f /\ regs_ok 64 (context f)) ->
  exists callee', correct memory callee before = Ok callee' /\ good_correction64 callee callee'.
Proof using Type.
  intros Hm Hc Hb. unfold CorrectRegLRByFramePointer.
  destruct before as [o|]; [|by exists callee].
  destruct (_ <=? _); [by exists callee|]. destruct (Hb o eq_refl) as (f & -> & Hf). cbn [obind].
  destruct (if _ =? 0 then _ else _) as [last_fp|]; [|by exists callee].
  destruct (negb _); [by exists callee|].
  destruct (if _ =? 0 then _ else read_64 memory (wrap 64 _)) as [lr|] eqn:Elr; [|by exists callee].
  assert (uint 64 lr) as Hlr.
  { destruct (_ =? 0); [injection Elr as <-; unfold uint; lia|]. by apply (good_64 memory Hm) in Elr as (_ & _ & ?). }
  eexists. split; [done|]. split; [done|]. split; [done|]. split; [done|]. cbn [context].
  apply set_member_regs; [done|by apply PtrauthStrip_ok].
Qed.

Lemma ARM64_by_frame_pointer memory callee before :
  region_good memory -> regs_ok 64 (context callee) ->
  (forall o, before = Some o -> exists f : StackFrameARM64, o = Ok f /\ regs_ok 64 (context f)) ->
  exists o callee', ARM64_GetCallerByFramePointer modules_ address_range_mask_ memory callee before = Ok (o, callee') /\
    good_correction64 callee callee' /\
    forall f, o = Some f -> regs_ok 64 (context f) /\ base f = new_frame 0 FRAME_TRUST_FP.
Proof using Type.
  intros Hm Hc Hb. unfold ARM64_GetCallerByFramePointer.
  assert (exists callee', (if is_valid (context_validity callee) MD_CONTEXT_ARM64_REG_LR then Ok callee
    else correct memory callee before) = Ok callee' /\ good_correction64 callee callee') as (callee' & -> & Hcor).
  { destruct (is_valid _ _); [by exists callee|by apply correct_ok]. }
  cbn [obind]. pose proof Hcor as (_ & _ & _ & Hc').
  destruct (saved_words _ _ _) as [[fp lr]|] eqn:E; [|by exists None, callee'].
  apply saved_words_ok in E as [Hfp Hlr]; [|by intros a v (_ & _ & ?)%(good_64 memory Hm)|lia].
  eexists _, callee'. split; [done|]. split; [done|]. intros f [= <-]. split; [|done]. cbn [context new_cpu_frame].
  repeat apply set_member_regs; try done; [|by apply PtrauthStrip_ok].
  destruct (_ =? _); [done|]. apply wrap_uint. lia.
Qed.

Definition arm64_recovered (allowed : bool) (f : StackFrameARM64) : Prop :=
  regs_ok 64 (context f) /\
  exists t, base f = new_frame 0 t /\
    (t = FRAME_TRUST_CFI \/ t = FRAME_TRUST_FP \/ t = FRAME_TRUST_SCAN /\ allowed = true).

Lemma ARM64_caller_good memory (s : Sym) callee before allowed :
  memory_ = Some memory -> sym_ok s -> regs_ok 64 (context callee) ->
  (forall o, before = Some o -> exists f : StackFrameARM64, o = Ok f /\ regs_ok 64 (context f)) ->
  exists o callee' s', ARM64_caller modules_ address_range_mask_ memory s callee before allowed = Ok (o, callee', s') /\
    sym_ok s' /\ good_correction64 callee callee' /\
    forall f, o = Some f ->
      good_caller (fun f => context f MD_CONTEXT_ARM64_REG_PC) (fun c => c MD_CONTEXT_ARM64_REG_SP)
        (fun c _ => regs_ok 64 c) (only_frame before) allowed callee f.
Proof using Hmemory.
  intros Em Hs Hc Hbefore. pose proof (Hmemory _ Em) as Hm. unfold ARM64_caller.
  destruct (sym_FindCFIFrameInfo_ok s (base callee) Hs) as (rules & E & Hdef). rewrite E. cbn [obind].
  assert (exists o, match rules with Some i => ARM64_GetCallerByCFIFrameInfo memory callee i | None => Ok None end = Ok o /\
    forall f, o = Some f -> arm64_recovered allowed f) as (o & -> & Ho).
  { destruct rules as [i|]; [|by exists None].
    destruct (arm_by_CFI_ok 64 MD_CONTEXT_ARM64_GPR_COUNT ARM64_register_names 19 29 MD_CONTEXT_ARM64_REG_SP MD_CONTEXT_ARM64_REG_PC
                (or_intror eq_refl) ltac:(unfold MD_CONTEXT_ARM64_GPR_COUNT; lia)
                ltac:(unfold MD_CONTEXT_ARM64_GPR_COUNT, MD_CONTEXT_ARM64_REG_SP; lia)
                (fun ra c validity => (set_member c MD_CONTEXT_ARM64_REG_PC ra, Z.lor validity (RegisterValidFlag MD_CONTEXT_ARM64_REG_PC)))
                (read_64 memory) callee i (Hdef i eq_refl) Hc) as (o & Eo & Ho).
    - intros n Hn _. exact Hn.
    - intros n name Hn _. by apply lookup_lt_Some in Hn.
    - intros ra [c v] Hra Hp. cbn [fst snd]. apply filled_set; [done| |done]. unfold MD_CONTEXT_ARM64_REG_PC, MD_CONTEXT_ARM64_GPR_COUNT. lia.
    - exists o. split; [exact Eo|]. intros f Ef. destruct (Ho f Ef) as [[Hf _] Hb]. split; [done|].
      exists FRAME_TRUST_CFI. split; [done|tauto]. }
  cbn [obind].
  assert (exists o' callee', match o with Some f => Ok (Some f, callee)
    | None => ARM64_GetCallerByFramePointer modules_ address_range_mask_ memory callee before end = Ok (o', callee') /\
    good_correction64 callee callee' /\ forall f, o' = Some f -> arm64_recovered allowed f) as (o' & callee' & -> & Hcor & Ho').
  { destruct o as [g|]; [by exists (Some g), callee|].
    destruct (ARM64_by_frame_pointer memory callee before Hm Hc Hbefore) as (o' & callee' & E' & Hcor & Ho').
    exists o', callee'. split; [exact E'|]. split; [done|]. intros f Ef. destruct (Ho' f Ef). split; [done|].
    exists FRAME_TRUST_FP. split; [done|tauto]. }
  cbn [obind]. pose proof Hcor as (_ & _ & Esp & Hc').
  assert (exists o2 s', match o' with Some f => Ok (Some f, s)
    | None => if allowed then arm_by_scan 64 MD_CONTEXT_ARM64_REG_SP MD_CONTEXT_ARM64_REG_PC modules_ (read_64 memory) s callee' (only_frame before)
              else Ok (None, s) end = Ok (o2, s') /\ sym_ok s' /\ forall f, o2 = Some f -> arm64_recovered allowed f)
    as (o2 & s' & -> & Hs' & Ho2).
  { destruct o' as [g|]; [by exists (Some g), s|]. destruct allowed; [|by exists None, s].
    destruct (arm_by_scan_ok 64 MD_CONTEXT_ARM64_GPR_COUNT MD_CONTEXT_ARM64_REG_SP MD_CONTEXT_ARM64_REG_PC (or_intror eq_refl)
                ltac:(unfold MD_CONTEXT_ARM64_GPR_COUNT, MD_CONTEXT_ARM64_REG_SP; lia)
                ltac:(unfold MD_CONTEXT_ARM64_GPR_COUNT, MD_CONTEXT_ARM64_REG_PC; lia)
                modules_ (read_64 memory) s callee' (only_frame before) Hs (region_bounded_scanned _ _ (good_bounded_64 _ Hm)) Hc')
      as (o2 & s' & E2 & Hs' & Ho2).
    exists o2, s'. split; [done|]. split; [done|]. intros f Ef. destruct (Ho2 f Ef) as [[Hf _] Hb]. split; [done|].
    exists FRAME_TRUST_SCAN. split; [done|tauto]. }
  cbn [obind]. destruct o2 as [f|]; [|by exists None, callee', s']. destruct (Ho2 f eq_refl) as (Hf & t & Hb & Ht).
  destruct (TerminateWalk _ _ _ _) eqn:Et; [by exists None, callee', s'|]. eexists _, callee', s'. split; [done|].
  split; [done|]. split; [done|]. rewrite Esp in Et. intros g [= <-]. split; [done|]. unfold set_frame_instruction. rewrite Hb.
  split; [done|]. split; [done|]. destruct Ht as [->|[->|[-> ->]]]; cbn; auto.
Qed.

#[global] Program Instance arm64_laws :
  @StackwalkerLaws iregs Sym _ find _
    (StackwalkerARM64 context_ context_frame_validity_ memory_ modules_ address_range_mask_) := {|
  frame_ip f := context f MD_CONTEXT_ARM64_REG_PC;
  frame_sp c := c MD_CONTEXT_ARM64_REG_SP;
  registers_ok c _ := regs_ok 64 c;
|}.
Next Obligation. done. Qed.
Next Obligation.
  intros f E. cbn [GetContextFrame StackwalkerARM64] in E. unfold ARM64_GetContextFrame in E.
  destruct context_ as [c|] eqn:Ec; [|done]. injection E as <-. split; [|done].
  apply set_member_regs; [by apply Hcontext|by apply PtrauthStrip_ok, Hcontext].
Qed.
Next Obligation. apply caller_of_frames_ok. intros. by apply ARM64_caller_good. Qed.
End ARM64_laws.
