(* ===== verification/StackwalkerMIPS.v ===== *)
(** * The MIPS stack walker (processor/stackwalker_mips.cc,
    google_breakpad/processor/stack_frame_cpu.h)

    One walker for both widths: what it reads and how it computes depends on the
    flags of the context.  A caller is recovered from CFI rules, else by
    scanning for a return address with a plausible frame pointer below it. *)

From stdpp Require Import gmap.
From S2P Require Import Prelude LibcSupport Tokens PostfixEvaluator CfiFrameInfo SymbolModule CodeModules FrameSymbolizer Stackwalker.
#[local] Open Scope Z_scope.

(** The members of [MDRawContextMIPS] that the walker uses. *)
Record MDRawContextMIPS : Type := mkContextMIPS {
  context_flags : Z;
  mips_iregs : nat -> Z;
  epc : Z;
}.

Definition MD_CONTEXT_MIPS : Z := 0x00040000.
Definition MD_CONTEXT_MIPS64 : Z := 0x00080000.
Definition MD_CONTEXT_MIPS_REG_SP : nat := 29.
Definition MD_CONTEXT_MIPS_REG_FP : nat := 30.
Definition MD_CONTEXT_MIPS_REG_RA : nat := 31.

Definition MIPS_VALID_ALL : Z := -1.
Definition MIPS_VALID_PC : Z := Z.shiftl 1 12.

Definition MIPS_RegisterValidFlag (n : nat) : Z :=
  if (16 <=? n)%nat && (n <=? 23)%nat then Z.shiftl 1 (Z.of_nat n - 16 + 0)
  else if (28 <=? n)%nat && (n <=? 31)%nat then Z.shiftl 1 (Z.of_nat n - 28 + 8)
  else if (n =? 34)%nat then Z.shiftl 1 12
  else 0.

Definition kRegisterNames : list chars :=
  map str ["$zero"; "$at"; "$v0"; "$v1"; "$a0"; "$a1"; "$a2"; "$a3"; "$to"; "$t1";
           "$t2"; "$t3"; "$t4"; "$t5"; "$t6"; "$t7"; "$s0"; "$s1"; "$s2"; "$s3";
           "$s4"; "$s5"; "$s6"; "$s7"; "$t8"; "$t9"; "$k0"; "$k1"; "$gp"; "$sp";
           "$fp"; "$ra"]%string.

Abbreviation StackFrameMIPS := (CpuFrame MDRawContextMIPS).

Definition kMaxFrameStackSize : Z := 1024.
Definition kMinArgsOnStack : Z := 4.

(** The width of the registers that the flags select. *)
Definition mips_width (flags : Z) : Z := if Z.land flags MD_CONTEXT_MIPS =? 0 then 64 else 32.

(** [memory_] after the constructor: the limits depend on the flags too. *)
Definition mips_memory (flags : Z) (memory : Region) : option Region :=
  let limit := if Z.land flags MD_CONTEXT_MIPS64 =? 0 then 0xffffffff else 0xffffffffffffffff in
  if wrap 64 (limit - GetBase memory) <? wrap 32 (GetSize memory - 1) then None else Some memory.

Definition MIPS_GetContextFrame (context_ : option MDRawContextMIPS) : option StackFrameMIPS :=
  match context_ with
  | None => None
  | Some c => Some (set_frame_instruction (new_cpu_frame FRAME_TRUST_CONTEXT c MIPS_VALID_ALL) (epc c))
  end.

Section width.
(** The width, and [memory_->GetMemoryAtAddress] for a word. *)
Context (w : Z) (read : memory_region).

(** All registers, by name. *)
Fixpoint mips_registers (i : nat) (names : list chars) (c : nat -> Z) (d : dictionary) : dictionary :=
  match names with
  | [] => d
  | name :: names => mips_registers (S i) names c (<[name := wrap w (c i)]> d)
  end.

(** A register that the callee saves. *)
Definition mips_saved (i : nat) : bool :=
  (16 <=? i)%nat && (i <=? 23)%nat ||
  (if w =? 32 then (28 <? i)%nat else (28 <=? i)%nat) && (i <? 31)%nat.

Fixpoint mips_fill (i : nat) (names : list chars) (caller : dictionary) (last : nat -> Z) (last_validity : Z)
    (c : nat -> Z) (validity : Z) : (nat -> Z) * Z :=
  match names with
  | [] => (c, validity)
  | name :: names =>
      let '(c, validity) :=
        match caller !! name with
        | Some v => (set_member c i v, Z.lor validity (MIPS_RegisterValidFlag i))
        | None =>
            if mips_saved i && negb (Z.land last_validity (MIPS_RegisterValidFlag i) =? 0)
            then (set_member c i (last i), Z.lor validity (MIPS_RegisterValidFlag i))
            else (c, validity)
        end in
      mips_fill (S i) names caller last last_validity c validity
  end.

(** [caller_registers[name]], 0 when there is no such register. *)
Definition register_or_0 (caller : dictionary) (name : chars) : Z := default 0 (caller !! name).

Definition MIPS_GetCallerByCFIFrameInfo (last_frame : StackFrameMIPS) (cfi_frame_info : CFIFrameInfo) :
    outcome (option StackFrameMIPS) :=
  let registers := mips_registers 0 kRegisterNames (mips_iregs (context last_frame)) ∅ in
  let? (found, caller) := FindCallerRegs w cfi_frame_info registers read registers in
  if negb found then Ok None
  else
    let caller := match caller !! str ".cfa" with Some cfa => <[str "$sp" := cfa]> caller | None => caller end in
    let '(caller, pc) :=
      match caller !! str ".ra" with
      | Some ra => (<[str "$ra" := ra]> caller, wrap w (ra - 2 * (w / 8)))
      | None => (caller, 0)
      end in
    let caller := <[str "$pc" := pc]> caller in
    let '(c, validity) :=
      mips_fill 0 kRegisterNames caller (mips_iregs (context last_frame)) (context_validity last_frame) (fun _ => 0) 0 in
    let pc := register_or_0 caller (str "$pc") in
    let c := set_member c MD_CONTEXT_MIPS_REG_RA (register_or_0 caller (str "$ra")) in
    let validity := Z.lor (Z.lor validity MIPS_VALID_PC) (MIPS_RegisterValidFlag MD_CONTEXT_MIPS_REG_RA) in
    Ok (Some (set_frame_instruction (new_cpu_frame FRAME_TRUST_CFI (mkContextMIPS 0 c pc) validity) pc)).

(** The scan for a return address and the frame pointer below it: the caller's
    program counter, stack and frame pointer, and the words left. *)
Fixpoint mips_scan_loop {Sym : Type} `{FrameSymbolizer Sym} (modules_ : option CodeModules) (fuel : nat)
    (s : Sym) (last_sp count : Z) : outcome (option (Z * Z * Z * Z) * Sym) :=
  match fuel with
  | O => Undef
  | S fuel =>
      let? (found, s) := ScanForReturnAddress_words modules_ w read s last_sp count in
      match found with
      | None => Ok (None, s)
      | Some (caller_sp, caller_pc) =>
          match read (wrap 64 (caller_sp - w / 8)) with
          | None => Ok (None, s)
          | Some caller_fp =>
              let count := swrap 32 (count - wrap w (caller_sp - last_sp) / (w / 8)) in
              let last_sp := wrap w (caller_sp + w / 8) in
              if (kMaxFrameStackSize <=? wrap w (caller_fp - caller_sp)) && (0 <? count)
              then mips_scan_loop modules_ fuel s last_sp count
              else Ok (Some (caller_pc, caller_sp, caller_fp, count), s)
          end
      end
  end.

(** Every round finds a word of the memory above the one before: the words of
    the memory and two more are fuel enough. *)
Definition MIPS_GetCallerByStackScan {Sym : Type} `{FrameSymbolizer Sym} (modules_ : option CodeModules)
    (memory_size : Z) (s : Sym) (last_frame : StackFrameMIPS) (is_context_frame : bool) :
    outcome (option StackFrameMIPS * Sym) :=
  let last_sp := wrap w (mips_iregs (context last_frame) MD_CONTEXT_MIPS_REG_SP) in
  let count := kMaxFrameStackSize / (w / 8) in
  let '(last_sp, count) :=
    if (w =? 32) && negb is_context_frame
    then (wrap w (last_sp + kMinArgsOnStack * (w / 8)), count - kMinArgsOnStack) else (last_sp, count) in
  let? (found, s) := mips_scan_loop modules_ (Nat.add 2 (Z.to_nat (memory_size / (w / 8)))) s last_sp count in
  match found with
  | None => Ok (None, s)
  | Some (caller_pc, caller_sp, caller_fp, count) =>
      if count =? 0 then Ok (None, s)
      else
        let caller_sp := wrap w (caller_sp + w / 8) in
        let caller_pc := wrap w (caller_pc - 2 * (w / 8)) in
        let c := mips_iregs (context last_frame) in
        let c := set_member (set_member c MD_CONTEXT_MIPS_REG_SP caller_sp) MD_CONTEXT_MIPS_REG_FP caller_fp in
        let c := set_member c MD_CONTEXT_MIPS_REG_RA (wrap 64 (caller_pc + 2 * (w / 8))) in
        let validity :=
          Z.lor (Z.lor (Z.lor MIPS_VALID_PC (MIPS_RegisterValidFlag MD_CONTEXT_MIPS_REG_SP))
                   (MIPS_RegisterValidFlag MD_CONTEXT_MIPS_REG_FP)) (MIPS_RegisterValidFlag MD_CONTEXT_MIPS_REG_RA) in
        let c := mkContextMIPS (context_flags (context last_frame)) c caller_pc in
        Ok (Some (set_frame_instruction (new_cpu_frame FRAME_TRUST_SCAN c validity) caller_pc), s)
  end.
End width.

Section walker.
Context {Sym : Type} `{FrameSymbolizer Sym}.
(** The members of the walker. *)
Context (context_ : option MDRawContextMIPS) (memory_ : option Region) (modules_ : option CodeModules).

(** [memory_->GetMemoryAtAddress] for a word of the width. *)
Definition mips_read (w : Z) (memory : Region) : memory_region := if w =? 32 then read_32 memory else read_64 memory.

Definition MIPS_caller (memory : Region) (s : Sym) (last_frame : StackFrameMIPS)
    (is_context_frame stack_scan_allowed : bool) : outcome (option StackFrameMIPS * Sym) :=
  let? cfi_frame_info := sym_FindCFIFrameInfo s (base last_frame) in
  let? new_frame :=
    match cfi_frame_info with
    | Some i =>
        let? c := of_option context_ in
        let w := mips_width (context_flags c) in
        MIPS_GetCallerByCFIFrameInfo w (mips_read w memory) last_frame i
    | None => Ok None
    end in
  let? (new_frame, s) :=
    match new_frame with
    | Some f => Ok (Some f, s)
    | None =>
        if stack_scan_allowed then
          let? c := of_option context_ in
          let w := mips_width (context_flags c) in
          MIPS_GetCallerByStackScan w (mips_read w memory) modules_ (GetSize memory) s last_frame is_context_frame
        else Ok (None, s)
    end in
  match new_frame with
  | None => Ok (None, s)
  | Some f =>
      if TerminateWalk (epc (context f)) (mips_iregs (context f) MD_CONTEXT_MIPS_REG_SP)
           (mips_iregs (context last_frame) MD_CONTEXT_MIPS_REG_SP) is_context_frame
      then Ok (None, s) else Ok (Some f, s)
  end.

Definition StackwalkerMIPS : Stackwalker MDRawContextMIPS Sym := {|
  GetContextFrame := MIPS_GetContextFrame context_;
  GetCallerFrame := caller_of_last memory_ MIPS_caller;
|}.
End walker.

(** The constructor, which looks at the context when there is memory. *)
Definition new_StackwalkerMIPS {Sym : Type} `{FrameSymbolizer Sym} (context : option MDRawContextMIPS)
    (memory : option Region) (modules : option CodeModules) : outcome (Stackwalker MDRawContextMIPS Sym) :=
  match memory with
  | None => Ok (StackwalkerMIPS context None modules)
  | Some memory =>
      let? c := of_option context in
      Ok (StackwalkerMIPS context (mips_memory (context_flags c) memory) modules)
  end.

(** ** The walker keeps its contract *)

Definition mips_ok (c : MDRawContextMIPS) : Prop := (forall i, uint 64 (mips_iregs c i)) /\ uint 64 (epc c).

(** What the callers are given does not matter when the rules evaluate. *)
Lemma FindCallerRegs_initial w info registers memory d ok caller :
  FindCallerRegs w info registers memory d = Ok (ok, caller) ->
  (ok = true -> FindCallerRegs w info registers memory ∅ = Ok (true, caller)).
Proof. unfold FindCallerRegs. destruct (_ || _); [by intros [= <- _]|]. by intros H ->. Qed.

Lemma FindCallerRegs_total w info registers memory d :
  0 < w <= 64 -> rules_defined info -> exists ok caller, FindCallerRegs w info registers memory d = Ok (ok, caller).
Proof.
  intros Hw Hi. specialize (Hi w registers memory Hw). unfold FindCallerRegs in *. destruct (_ || _); [by eexists _, _|].
  match goal with |- context [?x = Ok _] => destruct x as [[ok caller]|] end; [by eexists _, _|done].
Qed.

Section proofs.
Context (w : Z) (read : memory_region) (Hw : w = 32 \/ w = 64).
Implicit Types (c : nat -> Z).

Lemma width_64 x : uint w x -> uint 64 x.
Proof. unfold uint. destruct Hw as [-> | ->]; lia. Qed.

Lemma set_member_uint c i v : (forall i, uint 64 (c i)) -> uint 64 v -> forall j, uint 64 (set_member c i v j).
Proof using Type. intros Hc Hv j. unfold set_member. case_decide; [done|apply Hc]. Qed.

Lemma mips_registers_ok names : forall i c d, dictionary_ok w d -> dictionary_ok w (mips_registers w i names c d).
Proof.
  induction names as [|name names IH]; intros i c d Hd; cbn [mips_registers]; [done|]. apply IH.
  apply dictionary_ok_insert; [done|]. apply wrap_uint. destruct Hw; lia.
Qed.

Lemma mips_fill_ok caller last last_validity : dictionary_ok w caller -> (forall i, uint 64 (last i)) ->
  forall names i c validity, (forall i, uint 64 (c i)) ->
  forall j, uint 64 ((mips_fill w i names caller last last_validity c validity).1 j).
Proof.
  intros Hd Hl. induction names as [|name names IH]; intros i c validity Hc; cbn [mips_fill]; [done|].
  destruct (caller !! name) as [v|] eqn:E; [|destruct (_ && _); [|by apply IH]].
  - apply IH, set_member_uint; [done|]. apply width_64. by eapply Hd.
  - apply IH, set_member_uint; [done|apply Hl].
Qed.

Lemma mips_by_CFI last_frame i :
  rules_defined i -> mips_ok (context last_frame) -> exists o,
    MIPS_GetCallerByCFIFrameInfo w read last_frame i = Ok o /\
    forall f, o = Some f -> mips_ok (context f) /\ base f = new_frame (epc (context f)) FRAME_TRUST_CFI.
Proof.
  intros Hi [Hc _]. unfold MIPS_GetCallerByCFIFrameInfo. assert (0 < w <= 64) as Hw' by (destruct Hw as [-> | ->]; lia).
  set (registers := mips_registers w 0 kRegisterNames _ ∅).
  assert (dictionary_ok w registers) as Hregs by (apply mips_registers_ok, dictionary_ok_empty).
  destruct (FindCallerRegs_total w i registers read registers Hw' Hi) as (found & caller & E). rewrite E. cbn [obind].
  destruct found; cbn [negb]; [|by eexists].
  apply FindCallerRegs_initial in E; [|done]. apply FindCallerRegs_ok in E as Hcaller; [|done..].
  set (caller1 := match caller !! str ".cfa" with Some _ => _ | None => _ end).
  assert (dictionary_ok w caller1) as H1.
  { unfold caller1. destruct (caller !! str ".cfa") as [cfa|] eqn:Ec; [|done]. apply dictionary_ok_insert; [done|by eapply Hcaller]. }
  set (p := match caller1 !! str ".ra" with Some _ => _ | None => _ end).
  assert (dictionary_ok w p.1 /\ uint w p.2) as [H2 Hpc].
  { unfold p. destruct (caller1 !! str ".ra") as [ra|] eqn:Er; cbn [fst snd].
    - split; [apply dictionary_ok_insert; [done|by eapply H1]|]. apply wrap_uint. lia.
    - split; [done|]. unfold uint. pose proof (Z.pow_pos_nonneg 2 w). lia. }
  destruct p as [caller2 pc]. cbn [fst snd] in H2, Hpc.
  set (caller3 := <[str "$pc" := pc]> caller2).
  assert (dictionary_ok w caller3) as H3 by by apply dictionary_ok_insert.
  assert (forall name, uint 64 (register_or_0 caller3 name)) as Hor.
  { intros name. unfold register_or_0. destruct (caller3 !! name) as [v|] eqn:Ev; cbn; [|unfold uint; lia].
    apply width_64. by eapply H3. }
  pose proof (mips_fill_ok caller3 (mips_iregs (context last_frame)) (context_validity last_frame) H3 Hc kRegisterNames
                0 (fun _ => 0) 0 ltac:(intros j; unfold uint; lia)) as Hf.
  destruct (mips_fill _ _ _ _ _ _ _ _) as [c validity]. cbn [fst] in Hf.
  eexists. split; [done|]. intros f [= <-]. cbn [context set_frame_instruction new_cpu_frame]. split; [|done].
  split; cbn [mips_iregs epc]; [|apply Hor]. apply set_member_uint; [done|apply Hor].
Qed.

Section scan.
Context {Sym : Type} `{FrameSymbolizer Sym} {find : Z -> option CodeModule} `{!FrameSymbolizerLaws Sym find}.
Context (modules_ : option CodeModules) (low high : Z).
(** The words that can be read are in a part of the address space. *)
Context (Hscan : region_scanned w read) (Hread : forall a v, read a = Some v -> low <= a /\ a + w / 8 <= high /\ uint w v).

(** A scan from a word that cannot be read finds nothing. *)
Lemma scan_unreadable (s : Sym) start words :
  read start = None -> ScanForReturnAddress_words modules_ w read s start words = Ok (None, s).
Proof using Type. intros E. unfold ScanForReturnAddress_words. cbn. rewrite E. by destruct (_ <? start). Qed.

Lemma mips_scan_loop_ok fuel : forall (s : Sym) last_sp count,
  sym_ok s -> uint w last_sp -> 0 <= count < 2 ^ 31 -> read last_sp = None /\ (0 < fuel)%nat \/
    (1 < fuel)%nat /\ high < Z.max low last_sp + (Z.of_nat fuel - 1) * (w / 8) ->
  exists o s', mips_scan_loop w read modules_ fuel s last_sp count = Ok (o, s') /\ sym_ok s' /\
    forall pc sp fp count', o = Some (pc, sp, fp, count') -> uint w pc /\ uint w fp /\ uint w sp.
Proof.
  assert (0 < w / 8 /\ 0 < w <= 64) as [Hw8 Hw'] by (destruct Hw as [-> | ->]; vm_compute; intuition congruence).
  induction fuel as [|fuel IH]; intros s last_sp count Hs Hsp Hcount Hfuel; [lia|]. cbn [mips_scan_loop].
  destruct Hfuel as [[En _]|[Hfuel Hhigh]].
  { rewrite scan_unreadable by done. by exists None, s. }
  destruct (ScanForReturnAddress_words_spec modules_ w read Hw Hscan s last_sp count Hs Hsp ltac:(lia)) as (o & s' & E & Hs' & Ho).
  rewrite E. cbn [obind]. destruct o as [[sp pc]|]; [|by exists None, s'].
  destruct (Ho sp pc eq_refl) as (Epc & Hrange & [k Hk] & _ & Hpc & Hspu).
  destruct (read (wrap 64 (sp - w / 8))) as [fp|] eqn:Efp; [|by exists None, s'].
  apply Hread in Efp as (_ & _ & Hfp). pose proof (Hread _ _ Epc) as (Hlow & Hend & _).

  assert (wrap w (sp - last_sp) / (w / 8) = k) as ->.
  { rewrite wrap_small by (unfold uint in *; lia). rewrite Hk. apply Z.div_mul. lia. }
  assert (0 <= k <= count) as Hkc by nia. rewrite swrap_small by lia.
  destruct (_ && _); [|eexists _, s'; split; [done|split; [done|intros ? ? ? ? [= <- <- <- <-]; done]]].
  apply IH; [done|apply wrap_uint; lia|lia|].
  unfold uint in Hspu. destruct (decide (2 ^ w <= sp + w / 8)) as [Hover|Hfit].
  - left. split; [|lia]. by apply (Hscan sp pc).
  - right. rewrite wrap_small by (unfold uint; lia). nia.
Qed.

Lemma mips_by_scan memory_size (s : Sym) last_frame first :
  sym_ok s -> mips_ok (context last_frame) -> 0 <= memory_size -> high = low + memory_size ->
  exists o s', MIPS_GetCallerByStackScan w read modules_ memory_size s last_frame first = Ok (o, s') /\ sym_ok s' /\
    forall f, o = Some f -> mips_ok (context f) /\ base f = new_frame (epc (context f)) FRAME_TRUST_SCAN.
Proof.
  intros Hs [Hc _] Hsize Hhigh. unfold MIPS_GetCallerByStackScan.
  assert (0 < w / 8 /\ 0 < w <= 64) as [Hw8 Hw'] by (destruct Hw as [-> | ->]; vm_compute; intuition congruence).
  set (p := if _ && negb first then _ else _).
  assert (uint w p.1 /\ 0 <= p.2 < 2 ^ 31) as [Hsp Hcount].
  { unfold p, kMaxFrameStackSize, kMinArgsOnStack. destruct (_ && _); cbn [fst snd];
      (split; [apply wrap_uint; lia|destruct Hw as [-> | ->]; vm_compute; intuition congruence]). }
  destruct p as [last_sp count]. cbn [fst snd] in Hsp, Hcount.
  destruct (mips_scan_loop_ok (2 + Z.to_nat (memory_size / (w / 8))) s last_sp count Hs Hsp Hcount) as (o & s' & E & Hs' & Ho).
  { right. split; [lia|]. rewrite Nat2Z.inj_add, Z2Nat.id by (apply Z.div_pos; lia). rewrite Hhigh.
    pose proof (Z.mul_succ_div_gt memory_size (w / 8) Hw8). nia. }
  rewrite E. cbn [obind]. destruct o as [[[[pc sp] fp] count']|]; [|by exists None, s'].
  destruct (Ho pc sp fp count' eq_refl) as (_ & Hfp & _). destruct (_ =? 0); [by exists None, s'|].
  eexists _, s'. split; [done|]. split; [done|]. intros f [= <-]. split; [|done].
  assert (forall x, uint 64 (wrap w x)) as Hwrap by (intros x; apply width_64, wrap_uint; lia).
  split; cbn [context set_frame_instruction new_cpu_frame mips_iregs epc]; [|by apply Hwrap].
  apply set_member_uint; [|apply wrap_uint; lia]. apply set_member_uint; [|by apply width_64].
  apply set_member_uint; [done|apply Hwrap].
Qed.
End scan.
End proofs.

(** The words of a region, for either width. *)
Lemma mips_read_good w memory : w = 32 \/ w = 64 -> region_good memory ->
  region_scanned w (mips_read w memory) /\
  forall a v, mips_read w memory a = Some v ->
    GetBase memory <= a /\ a + w / 8 <= GetBase memory + GetSize memory /\ uint w v.
Proof.
  intros [-> | ->] Hm; unfold mips_read; cbn [Z.eqb Pos.eqb].
  - split; [by apply good_scanned_32|]. intros a v. apply good_32. done.
  - split; [by apply region_bounded_scanned, good_bounded_64|]. intros a v. apply good_64. done.
Qed.

Lemma mips_width_cases flags : mips_width flags = 32 \/ mips_width flags = 64.
Proof. unfold mips_width. destruct (_ =? 0); auto. Qed.

Section laws.
Context {Sym : Type} `{FrameSymbolizer Sym} {find : Z -> option CodeModule} `{!FrameSymbolizerLaws Sym find}.
Context (context_ : option MDRawContextMIPS) (memory_ : option Region) (modules_ : option CodeModules).
Context (Hcontext : forall c, context_ = Some c -> mips_ok c).
Context (Hmemory : forall memory, memory_ = Some memory -> region_good memory /\ is_Some context_).

Lemma MIPS_caller_good memory (s : Sym) callee first allowed :
  memory_ = Some memory -> sym_ok s -> mips_ok (context callee) ->
  exists o s', MIPS_caller context_ modules_ memory s callee first allowed = Ok (o, s') /\ sym_ok s' /\
    forall f, o = Some f ->
      good_caller (fun f => epc (context f)) (fun c => mips_iregs c MD_CONTEXT_MIPS_REG_SP) (fun c _ => mips_ok c)
        first allowed callee f.
Proof using Hmemory.
  intros Em Hs Hc. destruct (Hmemory _ Em) as [Hm [c Ec]]. unfold MIPS_caller. rewrite Ec. cbn [of_option obind].
  set (w := mips_width (context_flags c)). pose proof (mips_width_cases (context_flags c) : w = 32 \/ w = 64) as Hw.
  destruct (mips_read_good w memory Hw Hm) as [Hscan Hread].
  destruct (sym_FindCFIFrameInfo_ok s (base callee) Hs) as (rules & E & Hdef). rewrite E. cbn [obind].
  set (result f := mips_ok (context f) /\ exists t, base f = new_frame (epc (context f)) t /\
         (t = FRAME_TRUST_CFI \/ t = FRAME_TRUST_SCAN /\ allowed = true)).
  assert (exists o, match rules with Some i => MIPS_GetCallerByCFIFrameInfo w (mips_read w memory) callee i | None => Ok None end = Ok o /\
    forall f, o = Some f -> result f) as (o & -> & Ho).
  { destruct rules as [i|]; [|by exists None].
    destruct (mips_by_CFI w (mips_read w memory) Hw callee i (Hdef i eq_refl) Hc) as (o & Eo & Ho).
    exists o. split; [exact Eo|]. intros f Ef. destruct (Ho f Ef). split; [done|]. exists FRAME_TRUST_CFI. split; [done|tauto]. }
  cbn [obind].
  assert (exists o2 s', match o with Some f => Ok (Some f, s)
    | None => if allowed then MIPS_GetCallerByStackScan w (mips_read w memory) modules_ (GetSize memory) s callee first
              else Ok (None, s) end = Ok (o2, s') /\ sym_ok s' /\ forall f, o2 = Some f -> result f)
    as (o2 & s' & -> & Hs' & Ho2).
  { destruct o as [g|]; [by exists (Some g), s|]. destruct allowed; [|by exists None, s].
    destruct (mips_by_scan w (mips_read w memory) Hw modules_ (GetBase memory) _ Hscan Hread (GetSize memory) s callee first Hs Hc)
      as (o2 & s' & E2 & Hs' & Ho2); [|done|].
    { pose proof (good_size memory Hm) as Hsz. unfold uint in Hsz. lia. }
    exists o2, s'. split; [done|]. split; [done|]. intros f Ef. destruct (Ho2 f Ef). split; [done|].
    exists FRAME_TRUST_SCAN. split; [done|tauto]. }
  cbn [obind]. destruct o2 as [f|]; [|by exists None, s']. destruct (Ho2 f eq_refl) as (Hf & t & Hb & Ht).
  destruct (TerminateWalk _ _ _ _) eqn:Et; [by exists None, s'|]. eexists _, s'. split; [done|]. split; [done|].
  intros g [= <-]. split; [done|]. rewrite Hb. split; [done|]. split; [done|]. destruct Ht as [->|[-> ->]]; cbn; auto.
Qed.

#[global] Program Instance mips_laws :
  @StackwalkerLaws MDRawContextMIPS Sym _ find _ (StackwalkerMIPS context_ memory_ modules_) := {|
  frame_ip f := epc (context f);
  frame_sp c := mips_iregs c MD_CONTEXT_MIPS_REG_SP;
  registers_ok c _ := mips_ok c;
|}.
Next Obligation. done. Qed.
Next Obligation.
  intros f E. cbn [GetContextFrame StackwalkerMIPS] in E. unfold MIPS_GetContextFrame in E.
  destruct context_ as [c|] eqn:Ec; [|done]. injection E as <-. split; [by apply Hcontext|done].
Qed.
Next Obligation. apply caller_of_last_ok. intros. by apply MIPS_caller_good. Qed.
End laws.

(** The constructor does not reject all the memory a 32-bit stack cannot have:
    the subtraction from the limit wraps for a base above it. *)
Lemma mips_memory_accepts_high flags memory :
  Z.land flags MD_CONTEXT_MIPS64 = 0 -> 2 ^ 32 <= GetBase memory < 2 ^ 63 -> mips_memory flags memory = Some memory.
Proof.
  intros Hf Hb. unfold mips_memory. rewrite Hf. cbn [Z.eqb].
  pose proof (wrap_uint 32 (GetSize memory - 1) ltac:(lia)) as Hs. unfold uint in Hs.
  assert (wrap 64 (0xffffffff - GetBase memory) = 0xffffffff - GetBase memory + 2 ^ 64) as ->.
  { unfold wrap. rewrite <- (Z_mod_plus_full _ 1), Z.mul_1_l. apply Z.mod_small. lia. }
  destruct (Z.ltb_spec (0xffffffff - GetBase memory + 2 ^ 64) (wrap 32 (GetSize memory - 1))); [lia|done].
Qed.

(** No name of the walker is [$t0], the eighth register in the rules that the
    symbol dumper writes. *)
Lemma t0_has_no_name : str "$t0" ∉ kRegisterNames /\ kRegisterNames !! 8%nat = Some (str "$to").
Proof. split; [|reflexivity]. apply (bool_decide_unpack _). vm_compute. exact I. Qed.
