(* ===== verification/StackwalkerX86.v ===== *)
(** * The x86 stack walker (processor/stackwalker_x86.cc,
    google_breakpad/processor/stack_frame_cpu.h)

    A caller is recovered with the Windows frame data of the address, which is
    a program for the postfix evaluator whose results are checked and improved
    by scanning, else from CFI rules, else from the saved frame pointer.  The
    walker keeps what it found about a frame in the frame, because the size of
    its parameters tells where the stack pointer of its caller is. *)

From stdpp Require Import gmap.
From S2P Require Import Prelude LibcSupport Tokens PostfixEvaluator CfiFrameInfo SymbolRecords SymbolModule CodeModules FrameSymbolizer Stackwalker.
#[local] Open Scope Z_scope.

(** The members of [MDRawContextX86] that the walker uses. *)
Inductive X86Register : Type := eip | esp | ebp | eax | ebx | ecx | edx | esi | edi.

#[global] Instance X86Register_eq_dec : EqDecision X86Register.
Proof. solve_decision. Defined.

Abbreviation MDRawContextX86 := (X86Register -> Z).

(** The members that [StackFrameX86] adds to [StackFrame]. *)
Record X86State : Type := mkX86State {
  x86_context : MDRawContextX86;
  windows_frame_info : option WindowsFrameInfo;
  cfi_frame_info : option CFIFrameInfo;
}.

Abbreviation StackFrameX86 := (CpuFrame X86State).

Definition CONTEXT_VALID_EIP : Z := Z.shiftl 1 0.
Definition CONTEXT_VALID_ESP : Z := Z.shiftl 1 1.
Definition CONTEXT_VALID_EBP : Z := Z.shiftl 1 2.
Definition CONTEXT_VALID_EBX : Z := Z.shiftl 1 4.
Definition CONTEXT_VALID_ESI : Z := Z.shiftl 1 7.
Definition CONTEXT_VALID_EDI : Z := Z.shiftl 1 8.
Definition X86_VALID_ALL : Z := -1.

Definition X86_register_map : list RegisterSet := [
  mkRegisterSet (str "$eip") (Some (str ".ra")) false CONTEXT_VALID_EIP eip;
  mkRegisterSet (str "$esp") (Some (str ".cfa")) false CONTEXT_VALID_ESP esp;
  mkRegisterSet (str "$ebp") None true CONTEXT_VALID_EBP ebp;
  mkRegisterSet (str "$eax") None false (Z.shiftl 1 3) eax;
  mkRegisterSet (str "$ebx") None true CONTEXT_VALID_EBX ebx;
  mkRegisterSet (str "$ecx") None false (Z.shiftl 1 5) ecx;
  mkRegisterSet (str "$edx") None false (Z.shiftl 1 6) edx;
  mkRegisterSet (str "$esi") None true CONTEXT_VALID_ESI esi;
  mkRegisterSet (str "$edi") None true CONTEXT_VALID_EDI edi
].

Definition kMaxReasonableGapBetweenFrames : Z := 128 * 1024.

(** [new StackFrameX86] with a context. *)
Definition new_x86_frame (t : FrameTrust) (c : MDRawContextX86) (validity : Z) : StackFrameX86 :=
  new_cpu_frame t (mkX86State c None None) validity.

Definition X86_registers (f : StackFrameX86) : MDRawContextX86 := x86_context (context f).

(** Assignments to [windows_frame_info] and [cfi_frame_info]. *)
Definition set_windows_frame_info (f : StackFrameX86) (i : WindowsFrameInfo) : StackFrameX86 :=
  mkCpuFrame (base f) (mkX86State (X86_registers f) (Some i) (cfi_frame_info (context f))) (context_validity f).

Definition set_cfi_frame_info (f : StackFrameX86) (i : CFIFrameInfo) : StackFrameX86 :=
  mkCpuFrame (base f) (mkX86State (X86_registers f) (windows_frame_info (context f)) (Some i)) (context_validity f).

Definition X86_ReturnAddress (f : StackFrameX86) : outcome Z :=
  if Z.land (context_validity f) CONTEXT_VALID_EIP =? 0 then Undef else Ok (X86_registers f eip).

Definition X86_GetContextFrame (context_ : option MDRawContextX86) : option StackFrameX86 :=
  match context_ with
  | None => None
  | Some c => Some (set_frame_instruction (new_x86_frame FRAME_TRUST_CONTEXT c X86_VALID_ALL) (c eip))
  end.

(** ** Windows frame data *)

(** The parameters of the callee of the last frame, that the frame before it
    tells. *)
Definition callee_parameter_size (last_frame_callee : option (outcome StackFrameX86)) : outcome Z :=
  match last_frame_callee with
  | None => Ok 0
  | Some f =>
      let? f := f in
      Ok (match windows_frame_info (context f) with
          | Some i => if Z.land (valid i) VALID_PARAMETER_SIZE =? 0 then 0 else parameter_size i
          | None => 0
          end)
  end.

(** The program of frame data without one, and whether it recovers %ebp. *)
Definition x86_program (last_frame : StackFrameX86) (last_frame_info : WindowsFrameInfo) : chars * bool :=
  if negb (length (program_string last_frame_info) =? 0)%nat then (program_string last_frame_info, true)
  else if allocates_base_pointer last_frame_info then
    (str "$eip .raSearchStart ^ = $ebp $esp .cbCalleeParams + .cbSavedRegs + 8 - ^ = $esp .raSearchStart 4 + =", true)
  else
    (str "$eip .raSearchStart ^ = $esp .raSearchStart 4 + =" ++
       (if Z.land (context_validity last_frame) CONTEXT_VALID_EBX =? 0 then [] else str " $ebx $ebx ="), false).

(** [program_string.find('@') != string::npos] *)
Definition has_alignment (program : chars) : bool := existsb (Z.eqb 64) program.

(** [dictionary[name]] *)
Definition value_of (d : dictionary) (name : chars) : Z := default 0 (d !! name).

Section windows.
Context {Sym : Type} `{FrameSymbolizer Sym}.
Context (modules_ : option CodeModules) (memory : Region).
Implicit Types (s : Sym) (last_frame : StackFrameX86) (d : dictionary).

Abbreviation read := (read_32 memory).
Abbreviation scan := (ScanForReturnAddress modules_ 32 read).
Abbreviation scan_words := (ScanForReturnAddress_words modules_ 32 read).

(** [ScanForReturnAddress(raSearchStart, &raSearchStart, &found, 3)]: the new
    [raSearchStart] and the address found there. *)
Definition scan_three s (raSearchStart : Z) : outcome (option Z * Z * Sym) :=
  let? (result, s) := scan_words s raSearchStart 3 in
  Ok (match result with
      | Some (location, ip) => (Some ip, location)
      | None => (None, raSearchStart)
      end, s).

(** Where the return address should be, found above the callee's data. *)
Definition ra_search_start s last_frame (last_frame_info : WindowsFrameInfo) (callee_parameters : Z) :
    outcome (Z * Sym) :=
  let c := X86_registers last_frame in
  let raSearchStartOld :=
    wrap 32 (c esp + callee_parameters + local_size last_frame_info + saved_register_size last_frame_info) in
  let? (found, raSearchStart, s) := scan_three s raSearchStartOld in
  match found with
  | Some ip =>
      if bool_decide (trust (base last_frame) = FRAME_TRUST_CONTEXT) &&
         (type_ last_frame_info =? Z.of_nat STACK_INFO_FPO) &&
         (raSearchStartOld =? raSearchStart) && (ip =? c eip)
      then
        let? (_, raSearchStart, s) := scan_three s (wrap 32 (raSearchStart + 4)) in
        Ok (raSearchStart, s)
      else Ok (raSearchStart, s)
  | None => Ok (raSearchStart, s)
  end.

(** The dictionary that the program gets. *)
Definition x86_dictionary last_frame (last_frame_info : WindowsFrameInfo) (callee_parameters raSearchStart : Z) :
    dictionary :=
  let c := X86_registers last_frame in
  let d : dictionary := <[str "$esp" := c esp]> (<[str "$ebp" := c ebp]> ∅) in
  let d := if Z.land (context_validity last_frame) CONTEXT_VALID_EBX =? 0 then d else <[str "$ebx" := c ebx]> d in
  let d := <[str ".cbCalleeParams" := callee_parameters]> d in
  let d := <[str ".cbSavedRegs" := saved_register_size last_frame_info]> d in
  let d := <[str ".cbLocals" := local_size last_frame_info]> d in
  let d := <[str ".cbParams" := parameter_size last_frame_info]> d in
  <[str ".raSearch" := raSearchStart]> (<[str ".raSearchStart" := raSearchStart]> d).

(** [dictionary["$eip"]] and [dictionary["$esp"]] from a scan. *)
Definition set_scanned d (location address : Z) : dictionary :=
  <[str "$esp" := wrap 32 (location + 4)]> (<[str "$eip" := address]> d).

(** The program, or else a scan from the stack pointer: the dictionary, the
    registers that the program assigned and the trust.  [None] when there is
    no caller. *)
Definition run_program s last_frame (program : chars) d (is_context_frame stack_scan_allowed : bool) :
    outcome (option (dictionary * validity * FrameTrust) * Sym) :=
  let? (ok, evaluator, assigned) := Evaluate 32 (mkEvaluator (Some d) (Some read) []) program (Some ∅) in
  let? d := of_option (dictionary_ evaluator) in
  let? assigned := of_option assigned in
  if negb ok || bool_decide (assigned !! str "$eip" = None) || bool_decide (assigned !! str "$esp" = None) then
    if negb stack_scan_allowed then Ok (None, s)
    else
      let? (found, s) := scan s (X86_registers last_frame esp) is_context_frame in
      match found with
      | None => Ok (None, s)
      | Some (location, address) => Ok (Some (set_scanned d location address, assigned, FRAME_TRUST_SCAN), s)
      end
  else Ok (Some (d, assigned, FRAME_TRUST_CFI), s).

(** A better return address when the one found is in no module: with the offset
    of its location from where the scan began. *)
Definition better_return_address s d (t : FrameTrust) (is_context_frame stack_scan_allowed : bool) :
    outcome (dictionary * FrameTrust * Z * Sym) :=
  match modules_ with
  | None => Ok (d, t, 0, s)
  | Some m =>
      match GetModuleForAddress m (value_of d (str "$eip")) with
      | Some _ => Ok (d, t, 0, s)
      | None =>
          let location_start := wrap 32 (value_of d (str ".raSearchStart") + 4) in
          if negb stack_scan_allowed then Ok (d, t, 0, s)
          else
            let? (found, s) := scan s location_start is_context_frame in
            match found with
            | None => Ok (d, t, 0, s)
            | Some (location, address) =>
                Ok (set_scanned d location address, FRAME_TRUST_CFI_SCAN, swrap 32 (wrap 32 (location - location_start)), s)
            end
      end
  end.

(** The loop over the saved registers, downwards, for a pointer to the stack. *)
Fixpoint ebp_search (fuel : nat) (location location_end : Z) : outcome (option Z) :=
  match fuel with
  | O => Undef
  | S fuel =>
      if location <? location_end then Ok None
      else
        match read location with
        | None => Ok None
        | Some v =>
            match read v with
            | Some _ => Ok (Some v)
            | None => ebp_search fuel (wrap 32 (location - 4)) location_end
            end
        end
  end.

(** The words below the start and two more are fuel enough: the location may
    wrap once. *)
Definition recover_frame_pointer last_frame (last_frame_info : WindowsFrameInfo) (callee_parameters raSearchStart : Z)
    d (t : FrameTrust) (offset : Z) : outcome dictionary :=
  let v := value_of d (str "$ebp") in
  let has_skipped_frames := negb (bool_decide (t = FRAME_TRUST_CFI)) && (v <=? wrap 32 (raSearchStart + offset)) in
  if has_skipped_frames || bool_decide (read v = None) then
    let fp_search_bytes := swrap 32 (saved_register_size last_frame_info + offset) in
    let location_end := wrap 32 (X86_registers last_frame esp + callee_parameters) in
    let location := wrap 32 (location_end + fp_search_bytes) in
    let? found := ebp_search (Nat.add 2 (Z.to_nat (location / 4))) location location_end in
    Ok (match found with Some v => <[str "$ebp" := v]> d | None => d end)
  else Ok d.

(** A register that the program may have assigned. *)
Definition assigned_register (assigned : validity) d (name : chars) (r : X86Register) (flag : Z)
    (p : MDRawContextX86 * Z) : MDRawContextX86 * Z :=
  match assigned !! name with
  | Some _ => (set_member p.1 r (value_of d name), Z.lor p.2 flag)
  | None => p
  end.

(** The last frame has been given [windows_frame_info] before. *)
Definition GetCallerByWindowsFrameInfo s last_frame (last_last_frame : option (outcome StackFrameX86))
    (last_frame_info : WindowsFrameInfo) (stack_scan_allowed : bool) : outcome (option StackFrameX86 * Sym) :=
  if negb (valid last_frame_info =? VALID_ALL) then Ok (None, s)
  else
    let is_context_frame := only_frame last_last_frame in
    let? callee_parameters := callee_parameter_size last_last_frame in
    let? (raSearchStart, s) := ra_search_start s last_frame last_frame_info callee_parameters in
    let (program, recover_ebp) := x86_program last_frame last_frame_info in
    let raSearchStart :=
      if negb (Z.land CONTEXT_VALID_EBP (context_validity last_frame) =? 0) && has_alignment program
      then wrap 32 (X86_registers last_frame ebp + 4) else raSearchStart in
    let d := x86_dictionary last_frame last_frame_info callee_parameters raSearchStart in
    let? (evaluated, s) := run_program s last_frame program d is_context_frame stack_scan_allowed in
    match evaluated with
    | None => Ok (None, s)
    | Some (d, assigned, t) =>
        let? (d, t, s) :=
          if negb (value_of d (str "$eip") =? 0) || negb (value_of d (str "$ebp") =? 0) then
            let? (d, t, offset, s) := better_return_address s d t is_context_frame stack_scan_allowed in
            if recover_ebp then
              let? d := recover_frame_pointer last_frame last_frame_info callee_parameters raSearchStart d t offset in
              Ok (d, t, s)
            else Ok (d, t, s)
          else Ok (d, t, s) in
        let c := X86_registers last_frame in
        let c := set_member (set_member c eip (value_of d (str "$eip"))) esp (value_of d (str "$esp")) in
        let c := set_member c ebp (value_of d (str "$ebp")) in
        let validity := Z.lor (Z.lor CONTEXT_VALID_EIP CONTEXT_VALID_ESP) CONTEXT_VALID_EBP in
        let p := assigned_register assigned d (str "$ebx") ebx CONTEXT_VALID_EBX (c, validity) in
        let p := assigned_register assigned d (str "$esi") esi CONTEXT_VALID_ESI p in
        let p := assigned_register assigned d (str "$edi") edi CONTEXT_VALID_EDI p in
        Ok (Some (new_x86_frame t p.1 p.2), s)
    end.

(** ** CFI rules and the frame pointer *)

Definition X86_GetCallerByCFIFrameInfo last_frame (cfi_frame_info : CFIFrameInfo) : outcome (option StackFrameX86) :=
  let? (found, c, validity) :=
    FindCallerRegisters 32 X86_register_map read cfi_frame_info
      (X86_registers last_frame) (context_validity last_frame) (fun _ => 0) 0 in
  if negb found then Ok None
  else
    let essentials := Z.lor (Z.lor CONTEXT_VALID_EIP CONTEXT_VALID_ESP) CONTEXT_VALID_EBP in
    if negb (Z.land validity essentials =? essentials) then Ok None
    else Ok (Some (new_x86_frame FRAME_TRUST_CFI c validity)).

(** A frame with the registers of the traditional frame structure. *)
Definition traditional_frame last_frame (t : FrameTrust) (caller_eip caller_esp caller_ebp : Z) : StackFrameX86 :=
  new_x86_frame t
    (set_member (set_member (set_member (X86_registers last_frame) eip caller_eip) esp caller_esp) ebp caller_ebp)
    (Z.lor (Z.lor CONTEXT_VALID_EIP CONTEXT_VALID_ESP) CONTEXT_VALID_EBP).

(** The frame pointer of the caller should be below the return address. *)
Definition restored_ebp last_frame (caller_esp : Z) : Z :=
  let restored_ebp_chain := wrap 32 (caller_esp - 8) in
  match read restored_ebp_chain with
  | Some v =>
      if (v <=? restored_ebp_chain) || (kMaxReasonableGapBetweenFrames <? wrap 32 (v - restored_ebp_chain))
      then X86_registers last_frame ebp else v
  | None => X86_registers last_frame ebp
  end.

Definition x86_by_scan s last_frame (is_context_frame stack_scan_allowed : bool) :
    outcome (option StackFrameX86 * Sym) :=
  if negb stack_scan_allowed then Ok (None, s)
  else
    let? (found, s) := scan s (X86_registers last_frame esp) is_context_frame in
    match found with
    | None => Ok (None, s)
    | Some (location, caller_eip) =>
        let caller_esp := wrap 32 (location + 4) in
        Ok (Some (traditional_frame last_frame FRAME_TRUST_SCAN caller_eip caller_esp
                    (restored_ebp last_frame caller_esp)), s)
    end.

Definition GetCallerByEBPAtBase s last_frame (is_context_frame stack_scan_allowed : bool) :
    outcome (option StackFrameX86 * Sym) :=
  let last_ebp := X86_registers last_frame ebp in
  match read (wrap 32 (last_ebp + 4)), read last_ebp with
  | Some caller_eip, Some caller_ebp =>
      Ok (Some (traditional_frame last_frame FRAME_TRUST_FP caller_eip (wrap 32 (last_ebp + 8)) caller_ebp), s)
  | _, _ => x86_by_scan s last_frame is_context_frame stack_scan_allowed
  end.
End windows.

(** ** The walker *)

Definition X86_caller {Sym : Type} `{FrameSymbolizer Sym} (modules_ : option CodeModules) (memory : Region) (s : Sym)
    (last_frame : StackFrameX86) (last_last_frame : option (outcome StackFrameX86)) (stack_scan_allowed : bool) :
    outcome (option StackFrameX86 * StackFrameX86 * Sym) :=
  let is_context_frame := only_frame last_last_frame in
  let? windows_info := sym_FindWindowsFrameInfo s (base last_frame) in
  let? (new_frame, last_frame, s) :=
    match windows_info with
    | Some i =>
        let last_frame := set_windows_frame_info last_frame i in
        let? (f, s) := GetCallerByWindowsFrameInfo modules_ memory s last_frame last_last_frame i stack_scan_allowed in
        Ok (f, last_frame, s)
    | None => Ok (None, last_frame, s)
    end in
  let? (new_frame, last_frame) :=
    match new_frame with
    | Some f => Ok (Some f, last_frame)
    | None =>
        let? cfi_info := sym_FindCFIFrameInfo s (base last_frame) in
        match cfi_info with
        | Some i =>
            let last_frame := set_cfi_frame_info last_frame i in
            let? f := X86_GetCallerByCFIFrameInfo memory last_frame i in
            Ok (f, last_frame)
        | None => Ok (None, last_frame)
        end
    end in
  let? (new_frame, s) :=
    match new_frame with
    | Some f => Ok (Some f, s)
    | None => GetCallerByEBPAtBase modules_ memory s last_frame is_context_frame stack_scan_allowed
    end in
  match new_frame with
  | None => Ok (None, last_frame, s)
  | Some f =>
      if TerminateWalk (X86_registers f eip) (X86_registers f esp) (X86_registers last_frame esp) is_context_frame
      then Ok (None, last_frame, s)
      else Ok (Some (set_frame_instruction f (wrap 32 (X86_registers f eip - 1))), last_frame, s)
  end.

Definition StackwalkerX86 {Sym : Type} `{FrameSymbolizer Sym} (context_ : option MDRawContextX86)
    (memory : option Region) (modules_ : option CodeModules) : Stackwalker X86State Sym := {|
  GetContextFrame := X86_GetContextFrame context_;
  GetCallerFrame := caller_of_frames (memory_below 0xffffffff memory) (X86_caller modules_);
|}.

(** ** The walker keeps its contract *)

(** A program that divides by nothing and negates no target of an assignment. *)
Definition harmless_program (program : chars) : Prop := Forall harmless (tokens_of (tokens isspace program)).

Record frame_info_ok (i : WindowsFrameInfo) : Prop := {
  info_parameters : uint 32 (parameter_size i);
  info_registers : uint 32 (saved_register_size i);
  info_locals : uint 32 (local_size i);
  info_program : harmless_program (program_string i);
}.

Definition x86_regs_ok (c : MDRawContextX86) : Prop := forall r, uint 32 (c r).

Definition x86_ok (st : X86State) : Prop :=
  x86_regs_ok (x86_context st) /\ forall i, windows_frame_info st = Some i -> frame_info_ok i.

Lemma set_x86 c r v : x86_regs_ok c -> uint 32 v -> x86_regs_ok (set_member c r v).
Proof. intros Hc Hv r'. unfold set_member. case_decide; [done|apply Hc]. Qed.

Lemma Evaluate_harmless w ev d s a :
  0 < w <= 64 -> dictionary_ ev = Some d -> stack_ ev = [] -> dictionary_ok w d -> harmless_program s ->
  exists ok ev' d' a', Evaluate w ev s (Some a) = Ok (ok, ev', Some a') /\ dictionary_ ev' = Some d' /\ dictionary_ok w d'.
Proof.
  intros Hw Hd Hst Hok Hs. unfold Evaluate, EvaluateInternal.
  rewrite (EvaluateInternal_reads w s _ (reads_tokens isspace s)) by lia.
  pose proof (run_tokens_safe w Hw (tokens_of (tokens isspace s)) ev d (Some a) Hd) as H.
  destruct (run_tokens w ev _ (Some a)) as [[[ok ev'] a']|] eqn:E; cbn [token_result] in H.
  2: { destruct H. split; [done|]. unfold plain_stack. by rewrite Hst. }
  destruct H as (d' & Hd' & _ & [Hn _] & _). destruct (run_tokens_dictionary_ok w Hw _ _ _ _ _ _ _ Hd Hok E) as (d2 & Hd2 & Hok2).
  cbn [obind]. destruct a' as [a'|]; [|by destruct Hn as [_ Hn]; specialize (Hn eq_refl)].
  by eexists _, _, d2, a'.
Qed.

Lemma value_of_ok w d name : 0 < w -> dictionary_ok w d -> uint w (value_of d name).
Proof.
  intros Hw Hd. unfold value_of. destruct (d !! name) as [v|] eqn:E; [by eapply Hd|].
  unfold uint. pose proof (Z.pow_pos_nonneg 2 w). cbn. lia.
Qed.

Lemma x86_program_harmless f i : harmless_program (program_string i) -> harmless_program (x86_program f i).1.
Proof.
  intros Hi. unfold x86_program. destruct (negb _); [done|].
  assert (forall ts, forallb (fun t => bool_decide (harmless t)) ts = true -> Forall harmless ts) as Hdec.
  { induction ts as [|t ts IH]; cbn [forallb]; [by constructor|]. intros [Ht%bool_decide_eq_true Hts]%andb_prop.
    constructor; [done|by apply IH]. }
  destruct (allocates_base_pointer i); cbn [fst].
  - apply Hdec. vm_compute. reflexivity.
  - destruct (_ =? 0); apply Hdec; vm_compute; reflexivity.
Qed.

Section proofs.
Context (memory : Region) (Hgood : region_good memory).

Lemma read_32_uint a v : read_32 memory a = Some v -> uint 32 v.
Proof using Hgood. intros E. by apply (good_32 memory Hgood) in E as (_ & _ & ?). Qed.

(** The search for a frame pointer ends. *)
Lemma ebp_search_ok fuel : forall location location_end,
  uint 32 location -> read_32 memory location = None /\ (0 < fuel)%nat \/ location / 4 + 2 <= Z.of_nat fuel ->
  exists o, ebp_search memory fuel location location_end = Ok o /\ forall v, o = Some v -> uint 32 v.
Proof.
  induction fuel as [|fuel IH]; intros location location_end Hloc Hfuel.
  { exfalso. destruct Hfuel as [[_ ?]|Hf]; [lia|]. unfold uint in Hloc. pose proof (Z.div_pos location 4). lia. }
  cbn [ebp_search]. destruct (_ <? _); [by exists None|].
  destruct (read_32 memory location) as [v|] eqn:E; [|by exists None].
  destruct (read_32 memory v) as [x|] eqn:Ev; [exists (Some v); split; [done|]; intros ? [= <-]; by eapply read_32_uint|].
  destruct Hfuel as [[? _]|Hf]; [done|]. apply IH; [apply wrap_uint; lia|].
  destruct (decide (4 <= location)) as [Hge|Hlt].
  - right. rewrite wrap_small by (unfold uint in *; lia). replace (location - 4) with (location + -1 * 4) by lia.
    rewrite Z.div_add by lia. lia.
  - left. unfold uint in Hloc. split; [|pose proof (Z.div_pos location 4); lia].
    assert (wrap 32 (location - 4) = location - 4 + 2 ^ 32) as ->.
    { unfold wrap. rewrite <- (Z_mod_plus_full _ 1), Z.mul_1_l. apply Z.mod_small. lia. }
    destruct (read_32 memory (location - 4 + 2 ^ 32)) as [y|] eqn:Ey; [|done].
    destruct (good_32 memory Hgood _ _ E) as (? & _ & _). destruct (good_32 memory Hgood _ _ Ey) as (_ & ? & _).
    pose proof (good_size memory Hgood) as Hs. unfold uint in Hs. lia.
Qed.

Lemma recover_frame_pointer_ok f i n start d t offset :
  dictionary_ok 32 d -> exists d', recover_frame_pointer memory f i n start d t offset = Ok d' /\ dictionary_ok 32 d'.
Proof.
  intros Hd. unfold recover_frame_pointer. destruct (_ || _); [|by exists d].
  match goal with |- context [ebp_search memory ?fuel ?l ?e] =>
    destruct (ebp_search_ok fuel l e) as (o & -> & Ho); [apply wrap_uint; lia| |]
  end.
  { right. rewrite Nat2Z.inj_add, Z2Nat.id; [lia|]. apply Z.div_pos; [|lia]. apply wrap_uint. lia. }
  cbn [obind]. eexists. split; [done|]. destruct o as [v|]; [|done]. apply dictionary_ok_insert; [done|by apply Ho].
Qed.

(** What any of the ways gives: a frame whose instruction is not set yet. *)
Definition x86_trust (allowed : bool) (t : FrameTrust) : Prop :=
  t = FRAME_TRUST_CFI \/ t = FRAME_TRUST_FP \/ dubious t = true /\ allowed = true.

Definition x86_recovered (allowed : bool) (f : StackFrameX86) : Prop :=
  x86_ok (context f) /\ exists t, base f = new_frame 0 t /\ x86_trust allowed t.

Lemma new_x86_recovered allowed t c validity :
  x86_regs_ok c -> x86_trust allowed t -> x86_recovered allowed (new_x86_frame t c validity).
Proof. intros Hc Ht. split; [by split|]. by exists t. Qed.

Section recovery.
Context {Sym : Type} `{FrameSymbolizer Sym} {find : Z -> option CodeModule} `{!FrameSymbolizerLaws Sym find}.
Context (modules_ : option CodeModules).
Implicit Types (s : Sym) (f : StackFrameX86) (d : dictionary).

Lemma scan_three_ok s start : sym_ok s -> uint 32 start -> exists o start' s',
  scan_three modules_ memory s start = Ok (o, start', s') /\ sym_ok s' /\ uint 32 start'.
Proof.
  intros Hs Hst. unfold scan_three.
  destruct (ScanForReturnAddress_words_spec modules_ 32 (read_32 memory) (or_introl eq_refl) (good_scanned_32 _ Hgood) s start 3
              Hs Hst ltac:(lia)) as (o & s' & E & Hs' & Ho).
  rewrite E. cbn [obind]. destruct o as [[a ip]|]; [|by eexists _, _, s'].
  destruct (Ho a ip eq_refl) as (_ & _ & _ & _ & _ & Ha). by eexists _, _, s'.
Qed.

Lemma scan_ok s start first : sym_ok s -> uint 32 start -> exists o s',
  ScanForReturnAddress modules_ 32 (read_32 memory) s start first = Ok (o, s') /\ sym_ok s' /\
  forall a ip, o = Some (a, ip) -> uint 32 ip /\ uint 32 a.
Proof.
  intros Hs Hst.
  destruct (ScanForReturnAddress_spec modules_ 32 (read_32 memory) (or_introl eq_refl) (good_scanned_32 _ Hgood) s start first Hs Hst)
    as (o & s' & E & Hs' & Ho).
  exists o, s'. split; [done|]. split; [done|]. intros a ip Eo. by destruct (Ho a ip Eo) as (_ & _ & _ & _ & ? & ?).
Qed.

Lemma ra_search_start_ok s f i n : sym_ok s -> exists start s',
  ra_search_start modules_ memory s f i n = Ok (start, s') /\ sym_ok s' /\ uint 32 start.
Proof.
  intros Hs. unfold ra_search_start. assert (forall x, uint 32 (wrap 32 x)) as Hwrap by (intros x; apply wrap_uint; lia).
  destruct (scan_three_ok s (wrap 32 (X86_registers f esp + n + local_size i + saved_register_size i)) Hs (Hwrap _))
    as (o & start & s' & E & Hs' & Hst).
  rewrite E. cbn [obind]. destruct o as [ip|]; [|by eexists _, s'].
  destruct (_ && _); [|by eexists _, s'].
  destruct (scan_three_ok s' (wrap 32 (start + 4)) Hs' (Hwrap _)) as (o2 & start2 & s2 & E2 & Hs2 & Hst2).
  rewrite E2. cbn [obind]. by eexists _, s2.
Qed.

Lemma x86_dictionary_ok f i n start :
  x86_ok (context f) -> frame_info_ok i -> uint 32 n -> uint 32 start -> dictionary_ok 32 (x86_dictionary f i n start).
Proof.
  intros [Hc _] [Hp Hr Hl _] Hn Hst. unfold x86_dictionary.
  assert (forall r, uint 32 (X86_registers f r)) as Hreg by exact Hc.
  repeat apply dictionary_ok_insert; try done.
  destruct (_ =? 0); repeat apply dictionary_ok_insert; auto using dictionary_ok_empty.
Qed.

Lemma set_scanned_ok d a ip : dictionary_ok 32 d -> uint 32 ip -> dictionary_ok 32 (set_scanned d a ip).
Proof. intros Hd Hip. unfold set_scanned. repeat apply dictionary_ok_insert; [done..|]. apply wrap_uint. lia. Qed.

Lemma run_program_ok s f program d first allowed :
  sym_ok s -> x86_ok (context f) -> dictionary_ok 32 d -> harmless_program program -> exists o s',
    run_program modules_ memory s f program d first allowed = Ok (o, s') /\ sym_ok s' /\
    forall d' a t, o = Some (d', a, t) -> dictionary_ok 32 d' /\ x86_trust allowed t.
Proof.
  intros Hs [Hc _] Hd Hp. unfold run_program.
  destruct (Evaluate_harmless 32 (mkEvaluator (Some d) (Some (read_32 memory)) []) d program ∅ ltac:(lia) eq_refl eq_refl Hd Hp)
    as (ok & ev & d' & a & E & Hd' & Hok).
  rewrite E. cbn [obind]. rewrite Hd'. cbn [of_option obind].
  destruct (_ || _).
  - destruct allowed; cbn [negb]; [|by exists None, s].
    destruct (scan_ok s (X86_registers f esp) first Hs (Hc esp)) as (o & s' & E2 & Hs' & Ho). rewrite E2. cbn [obind].
    destruct o as [[l ip]|]; [|by exists None, s']. destruct (Ho l ip eq_refl) as [Hip _].
    eexists _, s'. split; [done|]. split; [done|]. intros ? ? ? [= <- <- <-].
    split; [by apply set_scanned_ok|]. right. right. done.
  - eexists _, s. split; [done|]. split; [done|]. intros ? ? ? [= <- <- <-]. split; [done|by left].
Qed.

Lemma better_return_address_ok s d t first allowed :
  sym_ok s -> dictionary_ok 32 d -> x86_trust allowed t -> exists d' t' offset s',
    better_return_address modules_ memory s d t first allowed = Ok (d', t', offset, s') /\ sym_ok s' /\
    dictionary_ok 32 d' /\ x86_trust allowed t'.
Proof.
  intros Hs Hd Ht. unfold better_return_address. destruct modules_ as [m|] eqn:Em; [|by eexists _, _, _, s].
  destruct (GetModuleForAddress m _); [by eexists _, _, _, s|]. destruct allowed; cbn [negb]; [|by eexists _, _, _, s].
  rewrite <- Em.
  match goal with |- context [ScanForReturnAddress _ _ _ _ ?start _] =>
    destruct (scan_ok s start first Hs) as (o & s' & E & Hs' & Ho); [apply wrap_uint; lia|] end.
  rewrite E. cbn [obind]. destruct o as [[l ip]|]; [|by eexists _, _, _, s'].
  destruct (Ho l ip eq_refl) as [Hip _]. eexists _, _, _, s'. split; [done|]. split; [done|].
  split; [by apply set_scanned_ok|]. right. right. done.
Qed.

Lemma assigned_register_ok a d name r flag p :
  dictionary_ok 32 d -> x86_regs_ok p.1 -> x86_regs_ok (assigned_register a d name r flag p).1.
Proof.
  intros Hd Hp. unfold assigned_register. destruct (a !! name); [|done]. cbn [fst].
  apply set_x86; [done|]. by apply value_of_ok.
Qed.

(** The frame before the last, when there is one. *)
Abbreviation frame_before_ok before :=
  (forall o, before = Some o -> exists f : StackFrameX86, o = Ok f /\ x86_ok (context f)).

Lemma callee_parameter_size_ok (before : option (outcome StackFrameX86)) :
  frame_before_ok before -> exists n, callee_parameter_size before = Ok n /\ uint 32 n.
Proof.
  intros Hb. assert (uint 32 0) as H0 by (unfold uint; lia). unfold callee_parameter_size.
  destruct before as [o|]; [|by exists 0]. destruct (Hb o eq_refl) as (f & -> & _ & Hf). cbn [obind].
  eexists. split; [done|]. destruct (windows_frame_info (context f)) as [i|] eqn:Ei; [|done].
  destruct (_ =? 0); [done|]. by apply info_parameters, Hf.
Qed.

Lemma by_windows s f before i allowed :
  sym_ok s -> x86_ok (context f) -> frame_before_ok before -> frame_info_ok i -> exists o s',
    GetCallerByWindowsFrameInfo modules_ memory s f before i allowed = Ok (o, s') /\ sym_ok s' /\
    forall g, o = Some g -> x86_recovered allowed g.
Proof.
  intros Hs Hf Hb Hi. unfold GetCallerByWindowsFrameInfo. destruct (negb _); [by exists None, s|].
  destruct (callee_parameter_size_ok before Hb) as (n & -> & Hn). cbn [obind].
  destruct (ra_search_start_ok s f i n Hs) as (start & s1 & -> & Hs1 & Hst). cbn [obind].
  pose proof (x86_program_harmless f i (info_program i Hi)) as Hprog.
  destruct (x86_program f i) as [program recover_ebp]. cbn [fst] in Hprog.
  set (start' := if _ && _ then _ else start).
  assert (uint 32 start') as Hst' by (unfold start'; destruct (_ && _); [apply wrap_uint; lia|done]).
  destruct (run_program_ok s1 f program (x86_dictionary f i n start') (only_frame before) allowed Hs1 Hf) as (o & s2 & -> & Hs2 & Ho);
    [by apply x86_dictionary_ok|done|].
  cbn [obind]. destruct o as [[[d a] t]|]; [|by exists None, s2]. destruct (Ho d a t eq_refl) as [Hd Ht].
  match goal with |- context [obind ?x _] => assert (exists d' t' s3, x = Ok (d', t', s3) /\ sym_ok s3 /\
    dictionary_ok 32 d' /\ x86_trust allowed t') as (d' & t' & s3 & -> & Hs3 & Hd' & Ht') end.
  { destruct (_ || _); [|by exists d, t, s2].
    destruct (better_return_address_ok s2 d t (only_frame before) allowed Hs2 Hd Ht) as (d1 & t1 & offset & s3 & -> & Hs3 & Hd1 & Ht1).
    cbn [obind]. destruct recover_ebp; [|by exists d1, t1, s3].
    destruct (recover_frame_pointer_ok f i n start' d1 t1 offset Hd1) as (d2 & -> & Hd2). cbn [obind]. by exists d2, t1, s3. }
  cbn [obind]. eexists _, s3. split; [done|]. split; [done|]. intros g [= <-]. apply new_x86_recovered; [|done].
  repeat apply assigned_register_ok; try done. cbn [fst].
  assert (forall name, uint 32 (value_of d' name)) as Hv by (intros name; by apply value_of_ok).
  repeat apply set_x86; try apply Hv. exact (proj1 Hf).
Qed.

Lemma x86_by_CFI f i :
  rules_defined i -> x86_ok (context f) -> exists o,
    X86_GetCallerByCFIFrameInfo memory f i = Ok o /\ forall g, o = Some g -> forall allowed, x86_recovered allowed g.
Proof.
  intros Hi [Hc _]. unfold X86_GetCallerByCFIFrameInfo.
  destruct (FindCallerRegisters_defined 32 X86_register_map (read_32 memory) i (X86_registers f) (context_validity f)
              (fun _ => 0) 0) as [[[found c] validity] E]; [lia|done|].
  rewrite E. cbn [obind]. destruct found; cbn [negb]; [|by eexists]. destruct (negb _); [by eexists|].
  eexists. split; [done|]. intros g [= <-] allowed. apply new_x86_recovered; [|by left].
  intros r. revert r. eapply FindCallerRegisters_ok; [|exact Hc|exact E]. lia.
Qed.

Lemma traditional_recovered f t a b c allowed :
  x86_ok (context f) -> uint 32 a -> uint 32 b -> uint 32 c -> x86_trust allowed t ->
  x86_recovered allowed (traditional_frame f t a b c).
Proof. intros [Hc _] ? ? ? ?. apply new_x86_recovered; [|done]. by repeat apply set_x86. Qed.

Lemma by_scan_x86 s f first allowed :
  sym_ok s -> x86_ok (context f) -> exists o s',
    x86_by_scan modules_ memory s f first allowed = Ok (o, s') /\ sym_ok s' /\
    forall g, o = Some g -> x86_recovered allowed g.
Proof.
  intros Hs Hf. pose proof Hf as [Hc _]. unfold x86_by_scan. destruct allowed; cbn [negb]; [|by exists None, s].
  destruct (scan_ok s (X86_registers f esp) first Hs (Hc esp)) as (o & s' & -> & Hs' & Ho). cbn [obind].
  destruct o as [[l ip]|]; [|by exists None, s']. destruct (Ho l ip eq_refl) as [Hip _].
  eexists _, s'. split; [done|]. split; [done|]. intros g [= <-].
  apply traditional_recovered; [done|done|apply wrap_uint; lia| |right; by right].
  unfold restored_ebp. destruct (read_32 memory _) as [v|] eqn:Ev; [|apply Hc].
  destruct (_ || _); [apply Hc|by eapply read_32_uint].
Qed.

Lemma by_EBP s f first allowed :
  sym_ok s -> x86_ok (context f) -> exists o s',
    GetCallerByEBPAtBase modules_ memory s f first allowed = Ok (o, s') /\ sym_ok s' /\
    forall g, o = Some g -> x86_recovered allowed g.
Proof.
  intros Hs Hf. unfold GetCallerByEBPAtBase.
  destruct (read_32 memory (wrap 32 (X86_registers f ebp + 4))) as [ip|] eqn:E1; [|by apply by_scan_x86].
  destruct (read_32 memory (X86_registers f ebp)) as [fp|] eqn:E2; [|by apply by_scan_x86].
  eexists _, s. split; [done|]. split; [done|]. intros g [= <-].
  apply traditional_recovered; [done|by eapply read_32_uint|apply wrap_uint; lia|by eapply read_32_uint|right; by left].
Qed.
End recovery.
End proofs.

Section laws.
Context {Sym : Type} `{FrameSymbolizer Sym} {find : Z -> option CodeModule} `{!FrameSymbolizerLaws Sym find}.
Context (context_ : option MDRawContextX86) (memory_ : option Region) (modules_ : option CodeModules).
Context (Hcontext : forall c, context_ = Some c -> x86_regs_ok c).
Context (Hmemory : forall memory, memory_ = Some memory -> region_good memory).
(** The Windows frame data of the symbols can be evaluated. *)
Context (Hwindows : forall (s : Sym) frame i, sym_ok s -> sym_FindWindowsFrameInfo s frame = Ok (Some i) -> frame_info_ok i).

Abbreviation x86_correction := (good_correction (fun f : StackFrameX86 => X86_registers f eip)
  (fun st : X86State => x86_context st esp) (fun st _ => x86_ok st)).

Lemma set_windows_correction f i : x86_ok (context f) -> frame_info_ok i -> x86_correction f (set_windows_frame_info f i).
Proof using Type. intros [Hc _] Hi. split_and!; [done..|]. split; [done|]. by intros i' [= <-]. Qed.

Lemma set_cfi_correction f i : x86_ok (context f) -> x86_correction f (set_cfi_frame_info f i).
Proof using Type. intros Hf. split_and!; done. Qed.

Lemma x86_correction_trans f1 f2 f3 : x86_correction f1 f2 -> x86_correction f2 f3 -> x86_correction f1 f3.
Proof using Type. intros (E1 & E2 & E3 & _) (E1' & E2' & E3' & Hok). split_and!; [congruence..|done]. Qed.

Lemma X86_caller_good memory (s : Sym) callee before allowed :
  memory_below 0xffffffff memory_ = Some memory -> sym_ok s -> x86_ok (context callee) ->
  (forall o, before = Some o -> exists f : StackFrameX86, o = Ok f /\ x86_ok (context f)) ->
  exists o callee' s', X86_caller modules_ memory s callee before allowed = Ok (o, callee', s') /\
    sym_ok s' /\ x86_correction callee callee' /\
    forall f, o = Some f ->
      good_caller (fun f => X86_registers f eip) (fun st => x86_context st esp) (fun st _ => x86_ok st)
        (only_frame before) allowed callee f.
Proof using Hmemory Hwindows.
  intros Em Hs Hc Hbefore. pose proof (memory_below_good _ _ Hmemory _ Em) as Hm. unfold X86_caller.
  destruct (sym_FindWindowsFrameInfo_ok s (base callee) Hs) as [wi Ew]. rewrite Ew. cbn [obind].
  match goal with |- context [obind ?x _] => assert (exists o callee1 s1, x = Ok (o, callee1, s1) /\ sym_ok s1 /\
    x86_correction callee callee1 /\ forall g, o = Some g -> x86_recovered allowed g) as (o1 & callee1 & s1 & -> & Hs1 & Hcor1 & Ho1) end.
  { destruct wi as [i|]; [|by exists None, callee, s]. pose proof (Hwindows s _ i Hs Ew) as Hi.
    pose proof (set_windows_correction callee i Hc Hi) as Hcor. pose proof Hcor as (_ & _ & _ & Hc').
    destruct (by_windows memory Hm modules_ s (set_windows_frame_info callee i) before i allowed Hs Hc' Hbefore Hi) as (o & s1 & -> & Hs1 & Ho).
    cbn [obind]. by exists o, (set_windows_frame_info callee i), s1. }
  cbn [obind]. pose proof Hcor1 as (_ & _ & _ & Hc1).
  match goal with |- context [obind ?x _] => assert (exists o callee2, x = Ok (o, callee2) /\
    x86_correction callee callee2 /\ forall g, o = Some g -> x86_recovered allowed g) as (o2 & callee2 & -> & Hcor2 & Ho2) end.
  { destruct o1 as [g|]; [by exists (Some g), callee1|].
    destruct (sym_FindCFIFrameInfo_ok s1 (base callee1) Hs1) as (rules & -> & Hdef). cbn [obind].
    destruct rules as [i|]; [|by exists None, callee1].
    pose proof (set_cfi_correction callee1 i Hc1) as Hcor. pose proof Hcor as (_ & _ & _ & Hc').
    destruct (x86_by_CFI memory (set_cfi_frame_info callee1 i) i (Hdef i eq_refl) Hc') as (o & -> & Ho). cbn [obind].
    exists o, (set_cfi_frame_info callee1 i). split; [done|]. split; [by eapply x86_correction_trans|]. intros g Eg. by apply Ho. }
  cbn [obind]. pose proof Hcor2 as (_ & _ & Esp & Hc2).
  match goal with |- context [obind ?x _] => assert (exists o s3, x = Ok (o, s3) /\ sym_ok s3 /\
    forall g, o = Some g -> x86_recovered allowed g) as (o3 & s3 & -> & Hs3 & Ho3) end.
  { destruct o2 as [g|]; [by exists (Some g), s1|]. by apply by_EBP. }
  cbn [obind]. destruct o3 as [f|]; [|by exists None, callee2, s3]. destruct (Ho3 f eq_refl) as (Hf & t & Hb & Ht).
  destruct (TerminateWalk _ _ _ _) eqn:Et; [by exists None, callee2, s3|]. eexists _, callee2, s3. split; [done|].
  split; [done|]. split; [done|]. unfold X86_registers in Et. rewrite Esp in Et. intros g [= <-].
  split; [done|]. unfold set_frame_instruction. rewrite Hb. split; [done|]. split; [exact Et|]. exact Ht.
Qed.

#[global] Program Instance x86_laws :
  @StackwalkerLaws X86State Sym _ find _ (StackwalkerX86 context_ memory_ modules_) := {|
  frame_ip f := X86_registers f eip;
  frame_sp st := x86_context st esp;
  registers_ok st _ := x86_ok st;
|}.
Next Obligation. done. Qed.
Next Obligation.
  intros f E. cbn [GetContextFrame StackwalkerX86] in E. unfold X86_GetContextFrame in E.
  destruct context_ as [c|] eqn:Ec; [|done]. injection E as <-. split; [|done]. split; [by apply Hcontext|done].
Qed.
Next Obligation. apply caller_of_frames_ok. intros. by apply X86_caller_good. Qed.
End laws.
