(* ===== verification/StackwalkerCPU.v ===== *)
(** * Choosing a stack walker (processor/stackwalker.cc, processor/dump_context.cc,
    google_breakpad/processor/dump_context.h, processor/stackwalker_address_list.cc)

    [StackwalkerForCPU] makes the walker for the CPU of a dump's context; the
    walker of an address list is for callers that have walked the stack
    themselves. *)

From stdpp Require Import gmap.
From S2P Require Import Prelude LibcSupport Tokens PostfixEvaluator CfiFrameInfo SymbolModule CodeModules SymbolSupplier FrameSymbolizer Stackwalker StackwalkerAMD64 StackwalkerPPC StackwalkerARM StackwalkerMIPS StackwalkerX86.
#[local] Open Scope Z_scope.

(** ** DumpContext *)

(** The union of pointers: the one that was written. *)
Inductive RawContext : Type :=
| raw_x86 (c : MDRawContextX86)
| raw_ppc (c : MDRawContextPPC)
| raw_ppc64 (c : MDRawContextPPC)
| raw_amd64 (c : MDRawContextAMD64)
| raw_sparc (c : MDRawContextSPARC)
| raw_arm (c : iregs)
| raw_arm64 (c : iregs)
| raw_mips (c : MDRawContextMIPS).

Record DumpContext : Type := mkDumpContext {
  context_valid_ : bool;
  context_flags_ : Z;
  raw_context_ : option RawContext;
}.

Definition MD_CONTEXT_CPU_MASK : Z := 0xffffff00.
Definition MD_CONTEXT_X86 : Z := 0x00010000.
Definition MD_CONTEXT_PPC : Z := 0x20000000.
Definition MD_CONTEXT_PPC64 : Z := 0x01000000.
Definition MD_CONTEXT_AMD64 : Z := 0x00100000.
Definition MD_CONTEXT_SPARC : Z := 0x10000000.
Definition MD_CONTEXT_ARM : Z := 0x40000000.
Definition MD_CONTEXT_ARM64 : Z := 0x00400000.

Definition GetContextCPU (dc : DumpContext) : Z :=
  if negb (context_valid_ dc) then 0 else Z.land (context_flags_ dc) MD_CONTEXT_CPU_MASK.

(** A getter: NULL for another CPU.  Using a pointer to a context of another
    kind is undefined. *)
Definition get_context {A : Type} (cpu : list Z) (select : RawContext -> option A) (dc : DumpContext) :
    outcome (option A) :=
  if negb (existsb (Z.eqb (GetContextCPU dc)) cpu) then Ok None
  else
    match raw_context_ dc with
    | None => Ok None
    | Some raw => let? c := of_option (select raw) in Ok (Some c)
    end.

Definition GetContextX86 : DumpContext -> outcome (option MDRawContextX86) :=
  get_context [MD_CONTEXT_X86] (fun raw => match raw with raw_x86 c => Some c | _ => None end).
Definition GetContextPPC : DumpContext -> outcome (option MDRawContextPPC) :=
  get_context [MD_CONTEXT_PPC] (fun raw => match raw with raw_ppc c => Some c | _ => None end).
Definition GetContextPPC64 : DumpContext -> outcome (option MDRawContextPPC) :=
  get_context [MD_CONTEXT_PPC64] (fun raw => match raw with raw_ppc64 c => Some c | _ => None end).
Definition GetContextAMD64 : DumpContext -> outcome (option MDRawContextAMD64) :=
  get_context [MD_CONTEXT_AMD64] (fun raw => match raw with raw_amd64 c => Some c | _ => None end).
Definition GetContextSPARC : DumpContext -> outcome (option MDRawContextSPARC) :=
  get_context [MD_CONTEXT_SPARC] (fun raw => match raw with raw_sparc c => Some c | _ => None end).
Definition GetContextARM : DumpContext -> outcome (option iregs) :=
  get_context [MD_CONTEXT_ARM] (fun raw => match raw with raw_arm c => Some c | _ => None end).
Definition GetContextARM64 : DumpContext -> outcome (option iregs) :=
  get_context [MD_CONTEXT_ARM64] (fun raw => match raw with raw_arm64 c => Some c | _ => None end).
Definition GetContextMIPS : DumpContext -> outcome (option MDRawContextMIPS) :=
  get_context [MD_CONTEXT_MIPS; MD_CONTEXT_MIPS64] (fun raw => match raw with raw_mips c => Some c | _ => None end).

(** A register of the context, through the getter of the CPU; [None] for
    [false]. *)
Definition context_register (x86 : X86Register) (ppc : MDRawContextPPC -> Z) (amd64 : AMD64Register)
    (sparc : MDRawContextSPARC -> Z) (arm arm64 : nat) (mips : MDRawContextMIPS -> Z) (dc : DumpContext) :
    outcome (option Z) :=
  let from {A} (get : outcome (option A)) (register : A -> Z) :=
    let? c := get in let? c := of_option c in Ok (Some (register c)) in
  let cpu := GetContextCPU dc in
  if negb (context_valid_ dc) then Ok None
  else if cpu =? MD_CONTEXT_AMD64 then from (GetContextAMD64 dc) (fun c => c amd64)
  else if cpu =? MD_CONTEXT_ARM then from (GetContextARM dc) (fun c => c arm)
  else if cpu =? MD_CONTEXT_ARM64 then from (GetContextARM64 dc) (fun c => c arm64)
  else if cpu =? MD_CONTEXT_PPC then from (GetContextPPC dc) ppc
  else if cpu =? MD_CONTEXT_PPC64 then from (GetContextPPC64 dc) ppc
  else if cpu =? MD_CONTEXT_SPARC then from (GetContextSPARC dc) sparc
  else if cpu =? MD_CONTEXT_X86 then from (GetContextX86 dc) (fun c => c x86)
  else if (cpu =? MD_CONTEXT_MIPS) || (cpu =? MD_CONTEXT_MIPS64) then from (GetContextMIPS dc) mips
  else Ok None.

Definition GetInstructionPointer : DumpContext -> outcome (option Z) :=
  context_register eip srr0 rip pc MD_CONTEXT_ARM_REG_PC MD_CONTEXT_ARM64_REG_PC epc.

Definition GetStackPointer : DumpContext -> outcome (option Z) :=
  context_register esp gpr_1 rsp g_r_14 MD_CONTEXT_ARM_REG_SP MD_CONTEXT_ARM64_REG_SP
    (fun c => mips_iregs c MD_CONTEXT_MIPS_REG_SP).

(** ** StackwalkerForCPU *)

(** A walker of any CPU. *)
Record CpuStackwalker (Sym : Type) : Type := mkCpuStackwalker {
  frame_registers : Type;
  walker : Stackwalker frame_registers Sym;
}.
Arguments mkCpuStackwalker {Sym} _ _.
Arguments frame_registers {Sym} _.
Arguments walker {Sym} _.

Section factory.
Context {Sym : Type} `{FrameSymbolizer Sym}.

Definition StackwalkerForCPU (system_info : option SystemInfo) (context : option DumpContext)
    (memory : option Region) (modules : option CodeModules) : outcome (option (CpuStackwalker Sym)) :=
  match context with
  | None => Ok None
  | Some dc =>
      let cpu := GetContextCPU dc in
      if cpu =? MD_CONTEXT_X86 then
        let? c := GetContextX86 dc in Ok (Some (mkCpuStackwalker _ (StackwalkerX86 c memory modules)))
      else if cpu =? MD_CONTEXT_PPC then
        let? c := GetContextPPC dc in Ok (Some (mkCpuStackwalker _ (StackwalkerPPC c memory)))
      else if cpu =? MD_CONTEXT_PPC64 then
        let? c := GetContextPPC64 dc in Ok (Some (mkCpuStackwalker _ (StackwalkerPPC64 c memory)))
      else if cpu =? MD_CONTEXT_AMD64 then
        let? c := GetContextAMD64 dc in
        Ok (Some (mkCpuStackwalker _ (StackwalkerAMD64 system_info c (read_64 <$> memory) modules)))
      else if cpu =? MD_CONTEXT_SPARC then
        let? c := GetContextSPARC dc in Ok (Some (mkCpuStackwalker _ (StackwalkerSPARC c memory)))
      else if (cpu =? MD_CONTEXT_MIPS) || (cpu =? MD_CONTEXT_MIPS64) then
        let? c := GetContextMIPS dc in
        let? w := new_StackwalkerMIPS c memory modules in Ok (Some (mkCpuStackwalker _ w))
      else if cpu =? MD_CONTEXT_ARM then
        let? i := of_option system_info in
        let fp_register := if bool_decide (os_short i = str "ios") then MD_CONTEXT_ARM_REG_IOS_FP else -1 in
        let? c := GetContextARM dc in
        Ok (Some (mkCpuStackwalker _ (StackwalkerARM system_info c fp_register ARM_VALID_ALL memory modules)))
      else if cpu =? MD_CONTEXT_ARM64 then
        let? c := GetContextARM64 dc in
        let? w := new_StackwalkerARM64 c memory modules in Ok (Some (mkCpuStackwalker _ w))
      else Ok None
  end.

(** [Walk] with a walker of any CPU and a new call stack, on a heap without
    frames. *)
Definition walk_with (w : CpuStackwalker Sym) (limits : Limits) (s : Sym) :
    outcome (bool * Sym * FrameHeap (frame_registers w) * CallStack * list CodeModule * list CodeModule) :=
  @Walk _ _ _ (walker w) limits s [] (mkCallStack [] 0) [] [].
End factory.

(** ** The address list *)

Section address_list.
Context {Sym : Type} (frames_ : list Z).

Definition prewalked_frame (address : Z) : CpuFrame unit :=
  mkCpuFrame (new_frame address FRAME_TRUST_PREWALKED) tt 0.

(** Frames have no registers; the validity is not used. *)
Definition List_GetContextFrame : option (CpuFrame unit) := prewalked_frame <$> head frames_.

Definition List_GetCallerFrame (s : Sym) (fh : FrameHeap unit) (stack : CallStack) (stack_scan_allowed : bool) :
    outcome (option (CpuFrame unit) * FrameHeap unit * Sym) :=
  let frame_index := length (Stackwalker.frames_ stack) in
  Ok (prewalked_frame <$> frames_ !! frame_index, fh, s).

Definition StackwalkerAddressList : Stackwalker unit Sym := {|
  GetContextFrame := List_GetContextFrame;
  GetCallerFrame := List_GetCallerFrame;
|}.
End address_list.

(** ** Every walker walks *)

Definition raw_has_cpu (raw : RawContext) (cpu : Z) : Prop :=
  match raw with
  | raw_x86 _ => cpu = MD_CONTEXT_X86
  | raw_ppc _ => cpu = MD_CONTEXT_PPC
  | raw_ppc64 _ => cpu = MD_CONTEXT_PPC64
  | raw_amd64 _ => cpu = MD_CONTEXT_AMD64
  | raw_sparc _ => cpu = MD_CONTEXT_SPARC
  | raw_arm _ => cpu = MD_CONTEXT_ARM
  | raw_arm64 _ => cpu = MD_CONTEXT_ARM64
  | raw_mips _ => cpu = MD_CONTEXT_MIPS \/ cpu = MD_CONTEXT_MIPS64
  end.

(** Registers have the width of the CPU. *)
Definition raw_ok (raw : RawContext) : Prop :=
  match raw with
  | raw_x86 c => x86_regs_ok c
  | raw_ppc c => ppc_ok 32 c
  | raw_ppc64 c => ppc_ok 64 c
  | raw_amd64 c => amd64_ok c
  | raw_sparc c => sparc_ok c
  | raw_arm c => regs_ok 32 c
  | raw_arm64 c => regs_ok 64 c
  | raw_mips c => mips_ok c
  end.

Definition raw_ip (raw : RawContext) : Z :=
  match raw with
  | raw_x86 c => c eip
  | raw_ppc c | raw_ppc64 c => srr0 c
  | raw_amd64 c => c rip
  | raw_sparc c => pc c
  | raw_arm c => c MD_CONTEXT_ARM_REG_PC
  | raw_arm64 c => c MD_CONTEXT_ARM64_REG_PC
  | raw_mips c => epc c
  end.

Definition raw_sp (raw : RawContext) : Z :=
  match raw with
  | raw_x86 c => c esp
  | raw_ppc c | raw_ppc64 c => gpr_1 c
  | raw_amd64 c => c rsp
  | raw_sparc c => g_r_14 c
  | raw_arm c => c MD_CONTEXT_ARM_REG_SP
  | raw_arm64 c => c MD_CONTEXT_ARM64_REG_SP
  | raw_mips c => mips_iregs c MD_CONTEXT_MIPS_REG_SP
  end.

(** A context that was read for a known CPU. *)
Record dump_context_ok (dc : DumpContext) (raw : RawContext) : Prop := {
  dc_valid : context_valid_ dc = true;
  dc_raw : raw_context_ dc = Some raw;
  dc_cpu : raw_has_cpu raw (GetContextCPU dc);
  dc_registers : raw_ok raw;
}.

(** What a walk from the registers of a context gives: frames from the one of
    the context up, each with its module. *)
Definition walks {Sym : Type} `{FrameSymbolizer Sym} (ok_sym : Sym -> Prop) (find : Z -> option CodeModule)
    (w : CpuStackwalker Sym) (limits : Limits) (s : Sym) (ip sp : Z) : Prop :=
  exists ok s' fh stack ms1 ms2 fs (frame_sp : frame_registers w -> Z),
    walk_with w limits s = Ok (ok, s', fh, stack, ms1, ms2) /\ ok_sym s' /\
    frames_hold fh (Stackwalker.frames_ stack) fs /\ Z.of_nat (length fs) <= max_frames_ limits + 1 /\
    (ok = true -> exists f rest, fs = f :: rest /\ frame_instruction (base f) = ip /\ frame_sp (context f) = sp /\
                  trust (base f) = FRAME_TRUST_CONTEXT) /\
    (forall i f g, fs !! i = Some f -> fs !! S i = Some g ->
       if (i =? 0)%nat then frame_sp (context f) <= frame_sp (context g) else frame_sp (context f) < frame_sp (context g)) /\
    Forall (fun f => FrameSymbolizer.module (base f) = find (frame_instruction (base f))) fs /\
    exists fh', destroy_CallStack fh stack = Ok fh'.

Lemma walks_laws {C Sym : Type} `{FrameSymbolizer Sym} {find : Z -> option CodeModule} `{!FrameSymbolizerLaws Sym find}
    (W : Stackwalker C Sym) (laws : @StackwalkerLaws C Sym _ find _ W) limits (s : Sym) (f0 : CpuFrame C) ip sp :
  0 <= max_frames_ limits -> uint 32 (max_frames_scanned_ limits) -> sym_ok s ->
  GetContextFrame = Some f0 -> frame_instruction (base f0) = ip -> frame_sp (context f0) = sp ->
  walks sym_ok find (mkCpuStackwalker C W) limits s ip sp.
Proof.
  intros Hmax Hscan Hs E0 Hip Hsp.
  destruct (Walk_spec (StackwalkerLaws0 := laws) limits s [] [] [] Hmax Hscan Hs)
    as (ok & s' & fh & stack & ms1 & ms2 & fs & E & Hs' & Hh & _ & Hok & Hlim & Hne & _ & _ & _ & fh' & Ed & _).
  exists ok, s', fh, stack, ms1, ms2, fs, frame_sp. split; [exact E|]. split; [done|]. split; [done|]. split; [done|].
  destruct Hok as [Hu Hctx _ Hmod _]. split_and!.
  - intros ->. destruct fs as [|f rest]; [specialize (Hne eq_refl eq_refl); congruence|]. exists f, rest. split; [done|].
    destruct (Hctx f eq_refl) as (g & Eg & _ & Hfsp & Hfi & Ht). rewrite E0 in Eg. injection Eg as <-.
    destruct (GetContextFrame_ok f0 E0) as [_ Hb].
    assert (frame_ip f0 = ip) as Hip' by (rewrite <- Hip, Hb; done).
    split; [exact (eq_trans Hfi Hip')|]. split; [exact (eq_trans Hfsp Hsp)|done].
  - intros i f g Hf Hg. by destruct (Hu i f g Hf Hg) as (? & _).
  - done.
  - by exists fh'.
Qed.

(** Symbols that the walker of the CPU can use: Windows frame data that can be
    evaluated for x86, and no CFI rules for ARM, whose walker reads past its
    registers. *)
Definition symbols_usable {Sym : Type} `{FrameSymbolizer Sym} {find : Z -> option CodeModule}
    `{!FrameSymbolizerLaws Sym find} (system_info : SystemInfo) (raw : RawContext) : Prop :=
  match raw with
  | raw_x86 _ => forall (s : Sym) frame i, sym_ok s -> sym_FindWindowsFrameInfo s frame = Ok (Some i) -> frame_info_ok i
  | raw_arm _ => ~ uses_CFI (Sym := Sym) (Some system_info)
  | _ => True
  end.

Section cpus.
Context {Sym : Type} `{FrameSymbolizer Sym} {find : Z -> option CodeModule} `{!FrameSymbolizerLaws Sym find}.
Context (system_info : SystemInfo) (memory : option Region) (modules : option CodeModules).
Context (Hmemory : forall m, memory = Some m -> region_good m) (Hmodules : has_last_module modules).

Lemma StackwalkerForCPU_spec dc raw :
  dump_context_ok dc raw -> symbols_usable (Sym := Sym) (find := find) system_info raw ->
  exists w, StackwalkerForCPU (Some system_info) (Some dc) memory modules = Ok (Some w) /\
    forall limits (s : Sym), 0 <= max_frames_ limits -> uint 32 (max_frames_scanned_ limits) -> sym_ok s ->
      walks sym_ok find w limits s (raw_ip raw) (raw_sp raw).
Proof.
  intros [_ Hraw Hcpu Hregs] Hsym. unfold StackwalkerForCPU.
  assert (forall A cpus select (c : A), existsb (Z.eqb (GetContextCPU dc)) cpus = true -> select raw = Some c ->
    get_context cpus select dc = Ok (Some c)) as Hget.
  { intros A cpus select c Hin Hsel. unfold get_context. rewrite Hin, Hraw. cbn [negb]. by rewrite Hsel. }
  assert (forall C (W : Stackwalker C Sym) (laws : @StackwalkerLaws C Sym _ find _ W) f0,
    GetContextFrame = Some f0 -> frame_instruction (base f0) = raw_ip raw -> frame_sp (context f0) = raw_sp raw ->
    exists w, Ok (Some (mkCpuStackwalker C W)) = Ok (Some w) /\
      forall limits (s : Sym), 0 <= max_frames_ limits -> uint 32 (max_frames_scanned_ limits) -> sym_ok s ->
        walks sym_ok find w limits s (raw_ip raw) (raw_sp raw)) as Hwalks.
  { intros C W laws f0 E0 Hip Hsp. eexists. split; [done|]. intros limits s Hmax Hscan Hs.
    by apply (walks_laws W laws limits s f0). }
  destruct raw as [c|c|c|c|c|c|c|c]; cbn [raw_has_cpu raw_ok raw_ip raw_sp symbols_usable] in *.
  - rewrite Hcpu. cbn [Z.eqb Pos.eqb]. unfold GetContextX86. rewrite (Hget _ _ _ c) by (by rewrite ?Hcpu). cbn [obind].
    by refine (Hwalks _ _ (x86_laws (Some c) memory modules _ Hmemory Hsym) _ eq_refl eq_refl eq_refl); intros ? [= <-].
  - rewrite Hcpu. cbn [Z.eqb Pos.eqb]. unfold GetContextPPC. rewrite (Hget _ _ _ c) by (by rewrite ?Hcpu). cbn [obind].
    by refine (Hwalks _ _ (ppc_laws memory Hmemory (Some c) _) _ eq_refl eq_refl eq_refl); intros ? [= <-].
  - rewrite Hcpu. cbn [Z.eqb Pos.eqb]. unfold GetContextPPC64. rewrite (Hget _ _ _ c) by (by rewrite ?Hcpu). cbn [obind].
    by refine (Hwalks _ _ (ppc64_laws memory Hmemory (Some c) _) _ eq_refl eq_refl eq_refl); intros ? [= <-].
  - rewrite Hcpu. cbn [Z.eqb Pos.eqb]. unfold GetContextAMD64. rewrite (Hget _ _ _ c) by (by rewrite ?Hcpu). cbn [obind].
    refine (Hwalks _ _ (amd64_laws system_info (Some c) (read_64 <$> memory) modules _ _) _ eq_refl eq_refl eq_refl).
    + by intros ? [= <-].
    + intros m Em. destruct memory as [r|]; [|done]. injection Em as <-. by apply good_bounded_64, Hmemory.
  - rewrite Hcpu. cbn [Z.eqb Pos.eqb]. unfold GetContextSPARC. rewrite (Hget _ _ _ c) by (by rewrite ?Hcpu). cbn [obind].
    by refine (Hwalks _ _ (sparc_laws memory Hmemory (Some c) _) _ eq_refl eq_refl eq_refl); intros ? [= <-].
  - rewrite Hcpu. cbn [Z.eqb Pos.eqb of_option obind]. unfold GetContextARM. rewrite (Hget _ _ _ c) by (by rewrite ?Hcpu). cbn [obind].
    refine (Hwalks _ _ (arm_laws (Some system_info) (Some c) _ ARM_VALID_ALL memory modules _ _ Hmemory _ _) _ eq_refl eq_refl eq_refl).
    + case_bool_decide; auto.
    + by intros ? [= <-].
    + intros s frame i Hi Hs E. destruct Hsym. split; [done|]. by exists s, frame, i.
    + done.
  - rewrite Hcpu. cbn [Z.eqb Pos.eqb]. unfold GetContextARM64. rewrite (Hget _ _ _ c) by (by rewrite ?Hcpu). cbn [obind].
    unfold new_StackwalkerARM64. destruct (address_range_mask_ok modules Hmodules) as (mask & ->). cbn [obind].
    by refine (Hwalks _ _ (arm64_laws (Some c) ARM64_VALID_ALL memory modules mask _ Hmemory) _ eq_refl eq_refl eq_refl); intros ? [= <-].
  - assert (GetContextMIPS dc = Ok (Some c)) as Ec.
    { unfold GetContextMIPS. apply Hget; [|done]. destruct Hcpu as [-> | ->]; done. }
    assert (exists w, (let? w := new_StackwalkerMIPS (Some c) memory modules in Ok (Some (mkCpuStackwalker _ w))) = Ok (Some w) /\
      forall limits (s : Sym), 0 <= max_frames_ limits -> uint 32 (max_frames_scanned_ limits) -> sym_ok s ->
        walks sym_ok find w limits s (epc c) (mips_iregs c MD_CONTEXT_MIPS_REG_SP)) as Hw.
    { unfold new_StackwalkerMIPS. destruct memory as [r|] eqn:Em; cbn [of_option obind].
      - refine (Hwalks _ _ (mips_laws (Some c) (mips_memory (context_flags c) r) modules _ _) _ eq_refl eq_refl eq_refl).
        + by intros ? [= <-].
        + intros m. unfold mips_memory. destruct (_ <? _); [done|]. intros [= <-]. split; [by apply Hmemory|done].
      - refine (Hwalks _ _ (mips_laws (Some c) None modules _ _) _ eq_refl eq_refl eq_refl); [by intros ? [= <-]|done]. }
    destruct Hcpu as [E|E]; rewrite E; cbn [Z.eqb Pos.eqb orb]; rewrite Ec; exact Hw.
Qed.

(** The pointers that the context itself tells are those of the first frame. *)
Lemma context_pointers dc raw :
  dump_context_ok dc raw -> GetInstructionPointer dc = Ok (Some (raw_ip raw)) /\ GetStackPointer dc = Ok (Some (raw_sp raw)).
Proof using Type.
  intros [Hvalid Hraw Hcpu _].
  assert (forall A cpus select (c : A), existsb (Z.eqb (GetContextCPU dc)) cpus = true -> select raw = Some c ->
    get_context cpus select dc = Ok (Some c)) as Hget.
  { intros A cpus select c Hin Hsel. unfold get_context. rewrite Hin, Hraw. cbn [negb]. by rewrite Hsel. }
  unfold GetInstructionPointer, GetStackPointer, context_register. rewrite Hvalid.
  destruct raw as [c|c|c|c|c|c|c|c]; cbn [raw_has_cpu] in Hcpu.
  - assert (GetContextX86 dc = Ok (Some c)) as E by (apply Hget; [by rewrite Hcpu|done]). by rewrite Hcpu, E.
  - assert (GetContextPPC dc = Ok (Some c)) as E by (apply Hget; [by rewrite Hcpu|done]). by rewrite Hcpu, E.
  - assert (GetContextPPC64 dc = Ok (Some c)) as E by (apply Hget; [by rewrite Hcpu|done]). by rewrite Hcpu, E.
  - assert (GetContextAMD64 dc = Ok (Some c)) as E by (apply Hget; [by rewrite Hcpu|done]). by rewrite Hcpu, E.
  - assert (GetContextSPARC dc = Ok (Some c)) as E by (apply Hget; [by rewrite Hcpu|done]). by rewrite Hcpu, E.
  - assert (GetContextARM dc = Ok (Some c)) as E by (apply Hget; [by rewrite Hcpu|done]). by rewrite Hcpu, E.
  - assert (GetContextARM64 dc = Ok (Some c)) as E by (apply Hget; [by rewrite Hcpu|done]). by rewrite Hcpu, E.
  - assert (GetContextMIPS dc = Ok (Some c)) as E by (apply Hget; [by destruct Hcpu as [-> | ->]|done]).
    by destruct Hcpu as [-> | ->]; rewrite E.
Qed.
End cpus.

(** ** Walking an address list *)

Section address_list_proofs.
Context {Sym : Type} `{FrameSymbolizer Sym} {find : Z -> option CodeModule} `{!FrameSymbolizerLaws Sym find}.
Context (limits : Limits) (addresses : list Z).
#[local] Instance list_walker : Stackwalker unit Sym := StackwalkerAddressList addresses.
Implicit Types (fh : FrameHeap unit) (fs : list (CpuFrame unit)) (s : Sym).

Abbreviation frame_address f := (frame_instruction (base f)).

(** Frames for the first addresses of the list. *)
Record listed fh stack fs : Prop := {
  listed_hold : frames_hold fh (Stackwalker.frames_ stack) fs;
  listed_addresses : map (fun f => frame_address f) fs = take (length fs) addresses;
  listed_frames : Forall (fun f => trust (base f) = FRAME_TRUST_PREWALKED /\
                    FrameSymbolizer.module (base f) = find (frame_address f)) fs;
}.

Lemma listed_push fh stack fs a b fh' stack' :
  listed fh stack fs -> addresses !! length fs = Some a ->
  frame_instruction b = a -> trust b = FRAME_TRUST_PREWALKED -> FrameSymbolizer.module b = find a ->
  push_frame fh stack (set_base (prewalked_frame a) b) = (fh', stack') ->
  listed fh' stack' (fs ++ [set_base (prewalked_frame a) b]).
Proof using Type.
  intros [Hh Ha Hf] El Hi Ht Hm [= <- <-]. split; cbn [Stackwalker.frames_].
  - by apply frames_hold_push.
  - rewrite map_app, Ha, length_app. cbn [map length base set_base]. rewrite Nat.add_1_r, (take_S_r _ _ _ El). by rewrite Hi.
  - apply Forall_app. split; [done|]. apply Forall_singleton. cbn [base set_base]. by rewrite Hi.
Qed.

Lemma list_walk_loop fuel : forall s fh stack ms1 ms2 fs scanned,
  sym_ok s -> listed fh stack fs -> Z.of_nat (length fs) <= max_frames_ limits ->
  (Z.to_nat (max_frames_ limits) + 2 - length fs <= fuel)%nat ->
  exists ok s' fh' stack' ms1' ms2' fs',
    Walk_loop limits fuel s fh stack ms1 ms2 (prewalked_frame <$> addresses !! length fs) scanned =
      Ok (ok, s', fh', stack', ms1', ms2') /\ sym_ok s' /\ listed fh' stack' fs' /\
    (ok = true -> map (fun f => frame_address f) fs' = take (S (Z.to_nat (max_frames_ limits))) addresses).
Proof using Type.
  induction fuel as [|fuel IH]; intros s fh stack ms1 ms2 fs scanned Hs Hl Hlen Hfuel; [lia|]. cbn [Walk_loop].
  destruct (addresses !! length fs) as [a|] eqn:Ea; cbn [fmap option_fmap option_map].
  2: { exists true, s, fh, stack, ms1, ms2, fs. split; [done|]. split; [done|]. split; [done|]. intros _.
       apply lookup_ge_None in Ea. rewrite (listed_addresses _ _ _ Hl), !take_ge by lia. done. }
  destruct (sym_FillSourceLineInfo_ok s (base (prewalked_frame a)) Hs) as (result & b & s1 & E & Hs1 & Hi & Ht & Hm).
  rewrite E. cbn [obind]. destruct (decide (result = kInterrupt)).
  { by exists false, s1, fh, stack, ms1, ms2, fs. }
  destruct (push_frame fh stack _) as [fh1 stack1] eqn:Epush.
  assert (listed fh1 stack1 (fs ++ [set_base (prewalked_frame a) b])) as Hl1.
  { eapply listed_push; [done|done|done|done| |exact Epush]. rewrite Hm. cbn. by destruct (find a). }
  assert (length (Stackwalker.frames_ stack1) = S (length fs)) as Elen.
  { rewrite (Forall2_length _ _ _ (listed_hold _ _ _ Hl1)), length_app. cbn. lia. }
  rewrite Elen. destruct (Z.ltb_spec (max_frames_ limits) (Z.of_nat (S (length fs)))) as [Hgt|Hle].
  { eexists true, s1, fh1, stack1, _, _, _. split; [done|]. split; [done|]. split; [exact Hl1|]. intros _.
    rewrite (listed_addresses _ _ _ Hl1), length_app. cbn [length]. f_equal. lia. }
  cbn [GetCallerFrame list_walker StackwalkerAddressList List_GetCallerFrame obind]. rewrite Elen.
  replace (S (length fs)) with (length (fs ++ [set_base (prewalked_frame a) b])) by (rewrite length_app; cbn; lia).
  apply IH; [done|done|rewrite length_app; cbn; lia|rewrite length_app; cbn; lia].
Qed.

Lemma list_walk s fh ms1 ms2 :
  0 <= max_frames_ limits -> sym_ok s ->
  exists ok s' fh' stack ms1' ms2' fs,
    Walk limits s fh (mkCallStack [] 0) ms1 ms2 = Ok (ok, s', fh', stack, ms1', ms2') /\ sym_ok s' /\
    listed fh' stack fs /\
    (ok = true -> map (fun f => frame_address f) fs = take (S (Z.to_nat (max_frames_ limits))) addresses).
Proof using Type.
  intros Hmax Hs. unfold Walk, Clear. cbn [delete_frames Stackwalker.frames_ obind].
  cbn [GetContextFrame list_walker StackwalkerAddressList]. unfold List_GetContextFrame. rewrite head_lookup.
  apply (list_walk_loop _ s fh (mkCallStack [] 0) ms1 ms2 [] 0 Hs); cbn [length]; [|lia|lia].
  split; [constructor|done|constructor].
Qed.
End address_list_proofs.

(** ** Properties *)

(** C7: whatever the CPU of a dump, the walker chosen for it walks.  For every
    context read for a known CPU, with memory as the minidump reader gives it
    and symbols that the walker can use, [StackwalkerForCPU] returns a walker,
    and every walk with it returns a call stack: the first frame is at the
    instruction and the stack pointer that the context itself reports, the stack
    pointers rise, there are at most [max_frames + 1] frames, each has the
    module of its address, and destroying the call stack deletes each frame
    once. *)
Theorem StackwalkerForCPU_walks {Sym : Type} `{FrameSymbolizer Sym} {find : Z -> option CodeModule}
    `{!FrameSymbolizerLaws Sym find} system_info memory modules dc raw :
  (forall m, memory = Some m -> region_good m) -> has_last_module modules -> dump_context_ok dc raw ->
  symbols_usable (Sym := Sym) (find := find) system_info raw ->
  exists ip sp w, GetInstructionPointer dc = Ok (Some ip) /\ GetStackPointer dc = Ok (Some sp) /\
    StackwalkerForCPU (Some system_info) (Some dc) memory modules = Ok (Some w) /\
    forall limits (s : Sym), 0 <= max_frames_ limits -> uint 32 (max_frames_scanned_ limits) -> sym_ok s ->
      walks sym_ok find w limits s ip sp.
Proof.
  intros Hm Hmod Hdc Hsym. destruct (context_pointers dc raw Hdc) as [Hip Hsp].
  destruct (StackwalkerForCPU_spec system_info memory modules Hm Hmod dc raw Hdc Hsym) as (w & E & Hw).
  by exists (raw_ip raw), (raw_sp raw), w.
Qed.

(** A walk over an address list gives the list back.  When it is not
    interrupted, its frames are the addresses in order, up to [max_frames + 1];
    in any case they are the first of them, each with the module of its address
    and the trust of a stack that was walked before. *)
Theorem address_list_walk {Sym : Type} `{FrameSymbolizer Sym} {find : Z -> option CodeModule}
    `{!FrameSymbolizerLaws Sym find} limits addresses (s : Sym) fh ms1 ms2 :
  0 <= max_frames_ limits -> sym_ok s ->
  exists ok s' fh' stack ms1' ms2' fs,
    @Walk _ _ _ (StackwalkerAddressList addresses) limits s fh (mkCallStack [] 0) ms1 ms2 =
      Ok (ok, s', fh', stack, ms1', ms2') /\ sym_ok s' /\ frames_hold fh' (Stackwalker.frames_ stack) fs /\
    map (fun f => frame_instruction (base f)) fs = take (length fs) addresses /\
    Forall (fun f => trust (base f) = FRAME_TRUST_PREWALKED /\
              FrameSymbolizer.module (base f) = find (frame_instruction (base f))) fs /\
    (ok = true -> map (fun f => frame_instruction (base f)) fs = take (S (Z.to_nat (max_frames_ limits))) addresses).
Proof.
  intros Hmax Hs. destruct (list_walk limits addresses s fh ms1 ms2 Hmax Hs) as (ok & s' & fh' & stack & m1 & m2 & fs & E & Hs' & [Hh Ha Hf] & Hok).
  by exists ok, s', fh', stack, m1, m2, fs.
Qed.
