(* ===== verification/StackwalkPipeline.v ===== *)
(** * From symbol files to a call stack

    The parts put together: the AMD64 walker over the memory of a minidump, with
    the stack frame symbolizer, the simple symbol supplier and the basic
    resolver, as minidump_processor.cc connects them. *)

From stdpp Require Import gmap.
From S2P Require Import Prelude Memory LibcSupport OrderedMap RangeMap Tokens PostfixEvaluator CfiFrameInfo CStrings SymbolRecords SymbolModule SymbolText SymbolLoad SymbolResolver ResolverConvert CodeModules SymbolSupplier FrameSymbolizer Stackwalker MemoryRegion StackwalkerAMD64 StackwalkerARM StackwalkerCPU.
#[local] Open Scope Z_scope.

(** ** The memory of a walker *)

(** A memory region of the dump, as the walkers see it. *)
Definition dump_region (md : Minidump) (r : MinidumpMemoryRegion) : outcome Region :=
  let? base := MemoryRegion.GetBase r in
  let? size := MemoryRegion.GetSize r in
  Ok (Stackwalker.mkRegion base size (region_word 4 md r) (region_word 8 md r)).

Lemma dump_region_good md r : stream_ok md -> region_ok r -> exists g, dump_region md r = Ok g /\ region_good g.
Proof.
  intros Hmd Hr. unfold dump_region, MemoryRegion.GetBase, MemoryRegion.GetSize.
  assert (forall n a v, (0 < n)%nat -> region_word n md r a = Some v -> exists d, valid_ r = true /\ descriptor_ r = Some d /\
    start_of_memory_range d <= a /\ a + Z.of_nat n <= start_of_memory_range d + data_size d /\ uint (8 * Z.of_nat n) v) as Hw.
  { intros n a v Hn E. destruct (region_word_bounded n md r Hmd Hr Hn a v E) as (d & Ed & H1 & H2 & Hv).
    exists d. split_and!; try done. unfold region_word in E. by destruct (valid_ r). }
  destruct (valid_ r) eqn:Ev.
  - destruct (ok_descriptor r Hr Ev) as (d & Ed & Hb & Hs & He). rewrite Ed. cbn [of_option obind]. eexists. split; [done|].
    split; cbn [Stackwalker.GetBase Stackwalker.GetSize read_32 read_64]; [unfold uint in Hb; lia|done|done|..];
      intros a v E; apply Hw in E as (d' & _ & Ed' & ? & ? & ?); try lia; rewrite Ed in Ed'; injection Ed' as <-; done.
  - cbn [obind]. eexists. split; [done|]. split; cbn [Stackwalker.GetBase Stackwalker.GetSize read_32 read_64]; [lia|unfold uint; lia|lia|..];
      intros a v E; apply Hw in E as (d' & ? & _); by try lia.
Qed.

(** ** Symbols whose rules can be evaluated *)

(** The CFI rules of the module have no division and no assignment. *)
Definition cfi_plain (m : BasicModule) : Prop :=
  Forall (fun p => plain_text (entry_ p.2)) (map_ (cfi_initial_rules_ m)) /\
  Forall (fun p => plain_text p.2) (cfi_delta_rules_ m).

Lemma apply_deltas_plain delta address : forall rules rules',
  Forall (fun p => plain_text p.2) delta -> plain_info rules ->
  apply_deltas delta address rules = Ok rules' -> plain_info rules'.
Proof.
  induction delta as [|[key rule_set] delta IH]; intros rules rules'; cbn [apply_deltas]; [by intros _ ? [= <-]|].
  intros [Hr Hd]%Forall_cons Hp. destruct (key <=? address); [|by intros [= <-]].
  intros ((ok & rules1) & E & H)%obind_Ok. eapply IH; [done| |exact H]. by eapply Parse_plain.
Qed.

Lemma cfi_plain_rules m frame rules :
  module_wf m -> cfi_plain m -> SymbolModule.FindCFIFrameInfo m frame = Ok (Some rules) -> rules_defined rules.
Proof.
  intros Hwf [Hi Hd]. unfold SymbolModule.FindCFIFrameInfo. cbv zeta. set (a := frame_address frame).
  pose proof (fun r => RangeMap.RetrieveRange_spec 64 (map_ (cfi_initial_rules_ m)) a r (wf_cfi _ Hwf)) as Hr.
  destruct (RangeMap.RetrieveRange 64 (map_ (cfi_initial_rules_ m)) a) as [r|]; [|done].
  destruct (proj1 (Hr r) eq_refl) as (p & Hp & _ & ->). change (out_entry (retrieved 64 p)) with (entry_ p.2).
  intros ((ok & rules0) & E & H)%obind_Ok.
  assert (plain_info rules0) as H0.
  { refine (Parse_plain _ _ _ _ _ _ E); [|by split; [|split]; constructor].
    rewrite Forall_forall in Hi. by apply Hi. }
  destruct ok; cbn [negb] in H; [|done]. apply obind_Ok in H as (rules1 & E1 & [= <-]).
  eapply plain_rules_defined, apply_deltas_plain; [|exact H0|exact E1]. by apply Forall_drop.
Qed.

(** A symbol file, as the supplier passes it on, that can be loaded and gives
    such a module. *)
Definition plain_symbols (lw : Z) (content : byte_list) (size : Z) : Prop :=
  text_loadable content size /\
  forall p loaded m content', basic_load lw (Some p) content size = Ok (loaded, m, content') -> cfi_plain m.

Section pipeline.
Context (lw : Z) (Hlw : 0 < lw <= 64) (fs : FileSystem).
#[local] Instance the_resolver : ResolverModule BasicModule := BasicSourceLineResolver lw.
#[local] Instance the_resolver_laws : ResolverModuleLaws BasicModule := basic_laws lw Hlw.
#[local] Instance the_supplier : SymbolSupplier SimpleSymbolSupplier := Simple_supplier fs.

(** Every file is such a symbol file. *)
Definition files_plain : Prop :=
  forall path, file_exists fs path = true ->
    plain_symbols lw (read_text fs path ++ [0]) (Z.of_nat (length (read_text fs path ++ [0]))).

Context (Hfiles : files_plain).
#[local] Instance the_supplier_laws : SymbolSupplierLaws SimpleSymbolSupplier (plain_symbols lw) :=
  simple_laws fs (plain_symbols lw) Hfiles.

Lemma plain_serves : serves_good (plain_symbols lw) rules_good.
Proof.
  intros content size [Hl Hp]. split; [done|]. intros p m (loaded & content' & E & _) frame rules Er.
  cbn in E, Er. specialize (Hp _ _ _ _ E).
  destruct (basic_load_spec lw p content size Hlw Hl) as (m' & c' & E' & Hm). rewrite E in E'. injection E' as _ <- _.
  eapply cfi_plain_rules; [|exact Hp|exact Er]. by apply basic_loaded_wf.
Qed.

(** The symbolizer before the first walk. *)
Definition new_symbolizer (roots : list chars) : Heap * StackFrameSymbolizer BasicModule SimpleSymbolSupplier :=
  ([], mkSymbolizer (Some (mkSimpleSymbolSupplier roots [])) (Some SourceLineResolverBase) ∅).

Lemma new_symbolizer_ok roots :
  symbolizer_ok (plain_symbols lw) rules_good (new_symbolizer roots).1 (new_symbolizer roots).2 ∅.
Proof.
  assert (forall q, live [] q <-> q ∈ (∅ : gset nat)) as Hl.
  { intros q. split; [by intros [c ?]|by intros ?%elem_of_empty]. }
  split; cbn [new_symbolizer fst snd resolver_ supplier_].
  - intros r [= <-]. by apply new_resolver_wf.
  - intros p [= <-]. apply new_simple_ok. intros q. apply Hl.
  - by intros k m content.
Qed.

(** A walk with a new symbolizer, from the registers [c]. *)
Definition walk_crash (roots : list chars) (modules unloaded_modules : option CodeModules) (system_info : SystemInfo)
    (c : MDRawContextAMD64) (memory : memory_region) (limits : Limits) :=
  @Walk _ _ (Symbolizer_interface modules unloaded_modules (Some system_info))
    (@StackwalkerAMD64 _ (Symbolizer_interface modules unloaded_modules (Some system_info))
       (Some system_info) (Some c) (Some memory) modules)
    limits (new_symbolizer roots) [] (mkCallStack [] 0) [] [].

(** C6: the whole pipeline on a crash dump of an AMD64 process.  The symbol files
    are any that can be loaded (every STACK line goes on after its platform)
    and whose CFI rules divide and assign nothing: none of their tokens is [/],
    [%] or [=] ([files_plain]; a rule such as [-5 3 =] would negate through a
    NULL pointer).  For any modules, any registers and any
    memory region of a readable or unreadable dump the walk then ends without
    undefined behaviour: no symbol buffer is used after it is freed, no
    evaluation is undefined, and the symbolizer can be used for the next thread.  The
    call stack has the frame of the context first, then frames whose stack
    pointers rise, at most [max_frames + 1] in all, each with the module at its
    address. *)
Theorem walk_crash_total roots modules unloaded_modules system_info c md r limits :
  amd64_ok c -> stream_ok md -> region_ok r ->
  0 <= max_frames_ limits -> uint 32 (max_frames_scanned_ limits) ->
  exists ok h s others fh stack ms1 ms2 fs,
    walk_crash roots modules unloaded_modules system_info c (region_word 8 md r) limits =
      Ok (ok, (h, s), fh, stack, ms1, ms2) /\
    symbolizer_ok (plain_symbols lw) rules_good h s others /\
    frames_hold fh (frames_ stack) fs /\ Z.of_nat (length fs) <= max_frames_ limits + 1 /\
    (ok = true -> exists f rest, fs = f :: rest /\ context f rip = c rip /\ context f rsp = c rsp /\
                   trust (base f) = FRAME_TRUST_CONTEXT) /\
    (forall i f g, fs !! i = Some f -> fs !! S i = Some g ->
       (if (i =? 0)%nat then context f rsp <= context g rsp else context f rsp < context g rsp) /\
       4096 <= context g rip) /\
    Forall (fun f => amd64_ok (context f) /\
              FrameSymbolizer.module (base f) = find_module modules unloaded_modules (frame_instruction (base f))) fs.
Proof using Hlw Hfiles.
  intros Hc Hmd Hr Hmax Hscan.
  set (laws := symbolizer_laws (plain_symbols lw) modules unloaded_modules (Some system_info) plain_serves).
  set (walker := amd64_laws (FrameSymbolizerLaws0 := laws) system_info (Some c) (Some (region_word 8 md r)) modules
                   ltac:(by intros c' [= <-]) ltac:(intros m [= <-]; by apply region_word_64)).
  destruct (Walk_spec (StackwalkerLaws0 := walker) limits (new_symbolizer roots) [] [] [] Hmax Hscan)
    as (ok & [h s] & fh & stack & ms1 & ms2 & fs' & E & [others Hs] & Hh & _ & Hok & Hlim & Hne & _).
  { exists ∅. apply new_symbolizer_ok. }
  exists ok, h, s, others, fh, stack, ms1, ms2, fs'. split; [exact E|]. split; [exact Hs|]. split; [done|].
  split; [done|]. destruct Hok as [Hu Hctx Hreg Hmod _]. split; [|split].
  - intros ->. destruct fs' as [|f rest]; [by specialize (Hne eq_refl eq_refl)|]. exists f, rest. split; [done|].
    destruct (Hctx f eq_refl) as (g & [= <-] & Hi & Hp & _ & Ht). done.
  - intros i f g Hf Hg. destruct (Hu i f g Hf Hg) as (Hp & Hi & _). done.
  - rewrite Forall_forall in Hreg, Hmod |- *. intros f Hf. split; [by apply Hreg|by apply Hmod].
Qed.
End pipeline.

(** ** An example *)

Definition walk_text : chars :=
  str "MODULE Linux x86_64 ABC0 prog" ++ [10] ++
  str "FILE 1 prog.cc" ++ [10] ++
  str "FUNC 1000 100 0 leaf" ++ [10] ++
  str "1000 100 12 1" ++ [10] ++
  str "FUNC 2000 100 0 middle" ++ [10] ++
  str "2000 100 34 1" ++ [10] ++
  str "FUNC 3000 100 0 main" ++ [10] ++
  str "3000 100 56 1" ++ [10] ++
  str "FUNC 4000 100 0 start" ++ [10] ++
  str "STACK CFI INIT 1000 100 .cfa: $rsp 16 + .ra: .cfa 8 - ^" ++ [10].

(** The file is found under the second root. *)
Definition walk_files : FileSystem :=
  let there path := bool_decide (path = str "/sym/prog/ABC0/prog.sym") in
  mkFileSystem (fun path => if there path then Some (Z.of_nat (length walk_text)) else None)
    (fun path => if there path then Some walk_text else None).

Definition walk_roots : list chars := [str "/none"; str "/sym"].

Definition prog_module : CodeModule :=
  mkCodeModule 1 0x400000 0x10000 0 (str "/bin/prog") [] (str "/bin/prog") (str "ABC0") [] false.

Definition walk_modules : CodeModules :=
  let at_index i := Ok (if i =? 0 then Some prog_module else None) in
  mkCodeModules 1 (fun a => if (0x400000 <=? a) && (a <? 0x410000) then Some prog_module else None) None at_index at_index.

(** Two words per line; the return addresses are in [middle], [main] and
    [start]. *)
Definition walk_stack : byte_list :=
  concat (map (fun w => le_bytes 8 w)
    [0; 0x402010;
     0; 0;
     0x8040; 0x403010;
     0; 0x404010;
     0; 0;
     0; 0]).

Definition walk_dump : Minidump := mkMinidump (Some ([1; 2; 3] ++ walk_stack)) 0 false false.
Definition walk_region : MinidumpMemoryRegion := SetDescriptor new_region (Some (mkMDMemoryDescriptor 0x8000 96 3)).

Definition walk_context : MDRawContextAMD64 := fun r =>
  match r with rip => 0x401010 | rsp => 0x8000 | rbp => 0x8020 | rbx => 77 | _ => 0 end.

Definition linux : SystemInfo := mkSystemInfo (str "Linux") (str "linux").

Definition cfi_plain_check (m : BasicModule) : bool :=
  let ok (s : chars) := forallb (fun c => negb (c =? 47) && negb (c =? 37) && negb (c =? 61)) s in
  forallb (fun p => ok (entry_ p.2)) (map_ (cfi_initial_rules_ m)) && forallb (fun p => ok p.2) (cfi_delta_rules_ m).

Lemma cfi_plain_checked m : cfi_plain_check m = true -> cfi_plain m.
Proof.
  assert (forall s, forallb (fun c => negb (c =? 47) && negb (c =? 37) && negb (c =? 61)) s = true -> plain_text s) as Hs.
  { intros s Hs. apply Forall_forall. intros c Hc. apply list_elem_of_In in Hc.
    pose proof (proj1 (forallb_forall _ s) Hs c Hc) as H. cbn in H. lia. }
  intros [H1 H2]%andb_true_iff. split; apply Forall_forall; intros p Hp; apply list_elem_of_In in Hp; apply Hs.
  - exact (proj1 (forallb_forall _ _) H1 p Hp).
  - exact (proj1 (forallb_forall _ _) H2 p Hp).
Qed.

Lemma walk_goes_on : Forall stack_goes_on (symbol_lines walk_text).
Proof. apply (bool_decide_unpack _). vm_compute. exact I. Qed.

Lemma walk_text_plain : plain_symbols 64 (walk_text ++ [0]) (Z.of_nat (length (walk_text ++ [0]))).
Proof.
  split.
  - apply (text_loadable_intro walk_text 0 0); [by vm_compute|exact walk_goes_on].
  - intros p loaded m content' E. apply cfi_plain_checked.
    assert (match basic_load 64 (Some p) (walk_text ++ [0]) (Z.of_nat (length (walk_text ++ [0]))) with
            | Ok (_, m, _) => cfi_plain_check m | Undef => false end = true) as Hc by (vm_compute; reflexivity).
    by rewrite E in Hc.
Qed.

Lemma walk_files_plain : files_plain 64 walk_files.
Proof.
  intros path. unfold file_exists, read_text, walk_files. cbn [stat_size stream].
  destruct (bool_decide _); [|done]. intros _.
  assert (take (prefix_len (fun c => negb (c =? 255)) walk_text) walk_text = walk_text) as -> by (vm_compute; reflexivity).
  exact walk_text_plain.
Qed.

Lemma walk_context_ok : amd64_ok walk_context.
Proof. intros []; unfold uint; cbn; lia. Qed.

Lemma walk_dump_ok : stream_ok walk_dump.
Proof.
  intros content [= <-]. apply Forall_forall. intros x Hx.
  assert (forallb (fun x => (0 <=? x) && (x <? 256)) ([1; 2; 3] ++ walk_stack) = true) as H by (vm_compute; reflexivity).
  apply list_elem_of_In in Hx. pose proof (proj1 (forallb_forall _ _) H x Hx) as Hb. unfold uint. cbn in Hb. lia.
Qed.

Lemma walk_region_ok : region_ok walk_region.
Proof.
  split; [|done]. intros _. exists (mkMDMemoryDescriptor 0x8000 96 3). unfold uint. cbn. repeat split; lia.
Qed.

(** What a reader of the call stack sees. *)
Definition frame_summary (f : StackFrameAMD64) : FrameTrust * chars * Z :=
  (trust (base f), frame_function_name (info (base f)), frame_source_line (info (base f))).

Lemma walk_crash_total_witness :
  exists ok h s others fh stack ms1 ms2 fs,
    walk_crash 64 walk_files walk_roots (Some walk_modules) None linux walk_context
      (region_word 8 walk_dump walk_region) default_limits = Ok (ok, (h, s), fh, stack, ms1, ms2) /\
    @symbolizer_ok _ _ _ (basic_laws 64 ltac:(lia)) (plain_symbols 64) (Simple_supplier walk_files)
      (simple_laws walk_files (plain_symbols 64) walk_files_plain)
      (@rules_good _ (BasicSourceLineResolver 64)) h s others /\
    frames_hold fh (frames_ stack) fs /\
    map frame_summary fs =
      [(FRAME_TRUST_CONTEXT, str "leaf", 12); (FRAME_TRUST_CFI, str "middle", 34);
       (FRAME_TRUST_FP, str "main", 56); (FRAME_TRUST_SCAN, str "start", 0)].
Proof.
  destruct (walk_crash_total 64 ltac:(lia) walk_files walk_files_plain walk_roots (Some walk_modules) None linux
              walk_context walk_dump walk_region default_limits)
    as (ok & h & s & others & fh & stack & ms1 & ms2 & fs & E & Hs & Hh & _).
  - exact walk_context_ok.
  - exact walk_dump_ok.
  - exact walk_region_ok.
  - by vm_compute.
  - by vm_compute.
  - exists ok, h, s, others, fh, stack, ms1, ms2, fs. split; [exact E|]. split; [exact Hs|]. split; [exact Hh|].
    assert (match walk_crash 64 walk_files walk_roots (Some walk_modules) None linux walk_context
      (region_word 8 walk_dump walk_region) default_limits with
      | Ok (_, _, fh, stack, _, _) => map (fun p => match frame_at fh p with Ok f => Some (frame_summary f) | Undef => None end) (frames_ stack)
      | Undef => [] end = map Some
      [(FRAME_TRUST_CONTEXT, str "leaf", 12); (FRAME_TRUST_CFI, str "middle", 34);
       (FRAME_TRUST_FP, str "main", 56); (FRAME_TRUST_SCAN, str "start", 0)]) as Hc by (vm_compute; reflexivity).
    rewrite E in Hc. clear E. assert (map Some (map frame_summary fs) =
      map (fun p => match frame_at fh p with Ok f => Some (frame_summary f) | Undef => None end) (frames_ stack)) as Hm.
    { clear Hc. induction Hh as [|p f frames fs Hp _ IH]; cbn [map]; [done|]. rewrite IH. unfold frame_at. by rewrite Hp. }
    rewrite Hc in Hm. revert Hm. generalize (map frame_summary fs). intros l Hm.
    apply (f_equal (fun l => map (fun o : option (FrameTrust * chars * Z) => match o with Some x => x | None => (FRAME_TRUST_NONE, [], 0) end) l)) in Hm.
    rewrite !map_map, !map_id in Hm. exact Hm.
Defined.

(** The parts of the example, for the properties of the other files. *)
#[local] Instance example_resolver_module : ResolverModule BasicModule := BasicSourceLineResolver 64.
#[local] Instance example_resolver_laws : ResolverModuleLaws BasicModule := basic_laws 64 ltac:(lia).
#[local] Instance example_supplier : SymbolSupplier SimpleSymbolSupplier := Simple_supplier walk_files.
#[local] Instance example_supplier_laws : SymbolSupplierLaws SimpleSymbolSupplier (plain_symbols 64) :=
  simple_laws walk_files (plain_symbols 64) walk_files_plain.

Lemma example_serves : serves_good (M := BasicModule) (plain_symbols 64) rules_good.
Proof. apply (plain_serves 64). Qed.

Lemma example_symbolizer_ok :
  symbolizer_ok (plain_symbols 64) rules_good [] (new_symbolizer walk_roots).2 ∅.
Proof. exact (new_symbolizer_ok 64 ltac:(lia) walk_files walk_files_plain walk_roots). Qed.

Lemma Walk_total_witness :
  exists ok s h fh stack ms1 ms2 fs fh',
    walk_crash 64 walk_files walk_roots (Some walk_modules) None linux walk_context
      (region_word 8 walk_dump walk_region) default_limits = Ok (ok, (h, s), fh, stack, ms1, ms2) /\
    frames_hold fh (frames_ stack) fs /\ destroy_CallStack fh stack = Ok fh'.
Proof.
  pose (laws := symbolizer_laws (plain_symbols 64) (Some walk_modules) None (Some linux) example_serves).
  pose (walker := amd64_laws (FrameSymbolizerLaws0 := laws) linux (Some walk_context)
                    (Some (region_word 8 walk_dump walk_region)) (Some walk_modules)
                    ltac:(intros c [= <-]; exact walk_context_ok)
                    ltac:(intros m [= <-]; exact (region_word_64 _ _ walk_dump_ok walk_region_ok))).
  destruct (Walk_total (StackwalkerLaws0 := walker) default_limits (new_symbolizer walk_roots) [] [] [])
    as (ok & [h s] & fh & stack & ms1 & ms2 & fs & E & _ & Hh & _ & _ & _ & _ & _ & _ & _ & fh' & Ed & _).
  - by vm_compute.
  - by vm_compute.
  - exists ∅. exact example_symbolizer_ok.
  - exists ok, s, h, fh, stack, ms1, ms2, fs, fh'. split; [exact E|]. split; [exact Hh|exact Ed].
Defined.

Lemma FillSourceLineInfo_functional_witness :
  exists result frame' h' s' others' view' no_symbols',
    FillSourceLineInfo (Some walk_modules) None (Some linux) [] (new_symbolizer walk_roots).2
      (new_frame 0x401010 FRAME_TRUST_NONE) = Ok (result, frame', h', s') /\
    symbolizer_ok (plain_symbols 64) rules_good h' s' others' /\
    fills (Some walk_modules) None (Some linux) [] (new_symbolizer walk_roots).2
      (new_frame 0x401010 FRAME_TRUST_NONE) (result, frame') view' no_symbols'.
Proof.
  destruct (FillSourceLineInfo_functional (plain_symbols 64) rules_good (Some walk_modules) None (Some linux) []
              (new_symbolizer walk_roots).2 ∅ (new_frame 0x401010 FRAME_TRUST_NONE) example_serves example_symbolizer_ok)
    as (result & frame' & h' & s' & others' & v & n & E & Hok & Hf & _).
  exists result, frame', h', s', others', v, n. split; [exact E|]. split; [exact Hok|exact Hf].
Defined.

Lemma FillSourceLineInfo_asks_once_witness :
  exists frame' h1 s1 result2 frame2',
    FillSourceLineInfo (Some walk_modules) None (Some linux) [] (new_symbolizer walk_roots).2
      (new_frame 0x401010 FRAME_TRUST_NONE) = Ok (kNoError, frame', h1, s1) /\
    FillSourceLineInfo (Some walk_modules) None (Some linux) h1 s1 (new_frame 0x402010 FRAME_TRUST_NONE) =
      Ok (result2, frame2', h1, s1).
Proof.
  destruct (FillSourceLineInfo_spec (plain_symbols 64) rules_good (Some walk_modules) None (Some linux) []
              (new_symbolizer walk_roots).2 ∅ (new_frame 0x401010 FRAME_TRUST_NONE) example_serves example_symbolizer_ok)
    as (result & frame' & h1 & s1 & others' & v & n & E & _).
  assert (match FillSourceLineInfo (Some walk_modules) None (Some linux) [] (new_symbolizer walk_roots).2
      (new_frame 0x401010 FRAME_TRUST_NONE) with Ok (r, _, _, _) => r = kNoError | Undef => False end) as Hr
    by (vm_compute; reflexivity).
  rewrite E in Hr. subst result.
  destruct (FillSourceLineInfo_asks_once (plain_symbols 64) rules_good (Some walk_modules) None (Some linux) []
              (new_symbolizer walk_roots).2 ∅ (new_frame 0x401010 FRAME_TRUST_NONE) prog_module kNoError frame' h1 s1 h1 s1
              (new_frame 0x402010 FRAME_TRUST_NONE) prog_module)
    as (result2 & frame2' & _ & E2).
  - exact example_serves.
  - exact example_symbolizer_ok.
  - reflexivity.
  - exact E.
  - discriminate.
  - apply later_refl.
  - reflexivity.
  - reflexivity.
  - exists frame', h1, s1, result2, frame2'. split; [exact E|exact E2].
Defined.



(** An ARM64 context over the same memory: its link register leads to [middle],
    and its frame pointer to the chain. *)
Definition arm64_context : iregs := fun i =>
  if (i =? 32)%nat then 0x401010 else if (i =? 31)%nat then 0x8000
  else if (i =? 30)%nat then 0x402010 else if (i =? 29)%nat then 0x8020 else 0.

Definition arm64_dump_context : DumpContext := mkDumpContext true (MD_CONTEXT_ARM64 + 3) (Some (raw_arm64 arm64_context)).

Definition example_region : Region :=
  Stackwalker.mkRegion 0x8000 96 (region_word 4 walk_dump walk_region) (region_word 8 walk_dump walk_region).

Definition arm64_walker : outcome (option (CpuStackwalker (Heap * StackFrameSymbolizer BasicModule SimpleSymbolSupplier))) :=
  @StackwalkerForCPU _ (Symbolizer_interface (Some walk_modules) None (Some linux)) (Some linux) (Some arm64_dump_context)
    (Some example_region) (Some walk_modules).

(** The trust and the function of each frame of a walk. *)
Definition summary_of (w : CpuStackwalker (Heap * StackFrameSymbolizer BasicModule SimpleSymbolSupplier)) :
    list (option (FrameTrust * chars)) :=
  match @walk_with _ (Symbolizer_interface (Some walk_modules) None (Some linux)) w default_limits (new_symbolizer walk_roots) with
  | Ok (_, _, fh, stack, _, _) =>
      map (fun p => match frame_at fh p with
                    | Ok f => Some (trust (base f), frame_function_name (info (base f)))
                    | Undef => None
                    end) (frames_ stack)
  | Undef => []
  end.

Lemma StackwalkerForCPU_walks_witness :
  exists w, arm64_walker = Ok (Some w) /\
    summary_of w = [Some (FRAME_TRUST_CONTEXT, str "leaf"); Some (FRAME_TRUST_FP, str "middle"); Some (FRAME_TRUST_FP, str "main")] /\
    exists ok s' fh stack ms1 ms2,
      @walk_with _ (Symbolizer_interface (Some walk_modules) None (Some linux)) w default_limits (new_symbolizer walk_roots) =
        Ok (ok, s', fh, stack, ms1, ms2).
Proof.
  pose (laws := symbolizer_laws (plain_symbols 64) (Some walk_modules) None (Some linux) example_serves).
  destruct (StackwalkerForCPU_walks (FrameSymbolizerLaws0 := laws) linux (Some example_region) (Some walk_modules)
              arm64_dump_context (raw_arm64 arm64_context)) as (ip & sp & w & _ & _ & E & Hw).
  - intros m [= <-]. destruct (dump_region_good walk_dump walk_region walk_dump_ok walk_region_ok) as (g & [= <-] & Hg). exact Hg.
  - intros m [= <-] _. exists prog_module. split; [reflexivity|]. vm_compute. reflexivity.
  - split; [reflexivity|reflexivity|reflexivity|]. intros i. unfold arm64_context. repeat case_match; unfold uint; lia.
  - exact I.
  - exists w. split; [exact E|]. split.
    + assert (match arm64_walker with Ok (Some w) => summary_of w | _ => [] end =
        [Some (FRAME_TRUST_CONTEXT, str "leaf"); Some (FRAME_TRUST_FP, str "middle"); Some (FRAME_TRUST_FP, str "main")]) as Hc
        by (vm_compute; reflexivity).
      unfold arm64_walker in Hc at 1. rewrite E in Hc. exact Hc.
    + destruct (Hw default_limits (new_symbolizer walk_roots)) as (ok & s' & fh & stack & ms1 & ms2 & _ & _ & Ew & _).
      * by vm_compute.
      * by vm_compute.
      * exists ∅. exact example_symbolizer_ok.
      * exists ok, s', fh, stack, ms1, ms2. exact Ew.
Defined.
