(* ===== verification/MinidumpFile.v ===== *)
(** * The minidump file (processor/minidump.cc)

    [Minidump::Read] reads the header and the directory of a file, and
    [GetStream] reads a stream the first time it is asked for and keeps it.
    Here are the data of the streams, the operations of [Minidump], and the
    streams that are read without a context: the system information, the
    memory list and Breakpad's own stream.  The theorems say what is read from
    the bytes of a file of either byte order; an invariant that holds whatever
    the bytes are makes every operation safe. *)

From stdpp Require Import gmap.
From S2P Require Import Prelude Memory LibcSupport Tokens RangeMap CodeModules MemoryRegion StackwalkerCPU.
#[local] Open Scope Z_scope.

(** ** Structures in the file *)

(** The value of [n] bytes at an offset of a structure that was read whole and
    then swapped. *)
Definition field (swap : bool) (bs : byte_list) (off n : nat) : Z :=
  let value := le_val (take n (drop off bs)) in if swap then Swap n value else value.

Record MDLocationDescriptor : Type := mkLocation { location_size : Z; location_rva : Z }.

Definition read_location (swap : bool) (bs : byte_list) (off : nat) : MDLocationDescriptor :=
  mkLocation (field swap bs off 4) (field swap bs (off + 4) 4).

Definition read_descriptor (swap : bool) (bs : byte_list) (off : nat) : MDMemoryDescriptor :=
  mkMDMemoryDescriptor (field swap bs off 8) (field swap bs (off + 8) 4) (field swap bs (off + 12) 4).

Record MDRawHeader : Type := mkHeader {
  signature : Z;
  header_version : Z;
  stream_count : Z;
  stream_directory_rva : Z;
  checksum : Z;
  time_date_stamp : Z;
  flags : Z;
}.

Definition read_header (swap : bool) (bs : byte_list) : MDRawHeader :=
  mkHeader (field swap bs 0 4) (field swap bs 4 4) (field swap bs 8 4) (field swap bs 12 4)
    (field swap bs 16 4) (field swap bs 20 4) (field swap bs 24 8).

Definition sizeof_MDRawHeader : Z := 32.
Definition MD_HEADER_SIGNATURE : Z := 0x504d444d.
Definition MD_HEADER_VERSION : Z := 0x0000a793.

Record MDRawDirectory : Type := mkDirectory { stream_type : Z; location : MDLocationDescriptor }.

Definition read_directory (swap : bool) (bs : byte_list) (off : nat) : MDRawDirectory :=
  mkDirectory (field swap bs off 4) (read_location swap bs (off + 4)).

Definition sizeof_MDRawDirectory : Z := 12.
Definition MD_THREAD_LIST_STREAM : Z := 3.
Definition MD_MODULE_LIST_STREAM : Z := 4.
Definition MD_MEMORY_LIST_STREAM : Z := 5.
Definition MD_EXCEPTION_STREAM : Z := 6.
Definition MD_SYSTEM_INFO_STREAM : Z := 7.
Definition MD_MISC_INFO_STREAM : Z := 15.
Definition MD_BREAKPAD_INFO_STREAM : Z := 0x47670001.
Definition MD_CRASHPAD_INFO_STREAM : Z := 0x43500001.

(** The members before the union of what the CPUs have. *)
Record MDRawSystemInfo : Type := mkSystemInfoStream {
  processor_architecture : Z;
  processor_level : Z;
  processor_revision : Z;
  number_of_processors : Z;
  product_type : Z;
  major_version : Z;
  minor_version : Z;
  build_number : Z;
  platform_id : Z;
  csd_version_rva : Z;
  suite_mask : Z;
}.

Definition sizeof_MDRawSystemInfo : Z := 56.
Definition MD_CPU_ARCHITECTURE_X86 : Z := 0.
Definition MD_CPU_ARCHITECTURE_MIPS : Z := 1.
Definition MD_CPU_ARCHITECTURE_ALPHA : Z := 2.
Definition MD_CPU_ARCHITECTURE_PPC : Z := 3.
Definition MD_CPU_ARCHITECTURE_SHX : Z := 4.
Definition MD_CPU_ARCHITECTURE_ARM : Z := 5.
Definition MD_CPU_ARCHITECTURE_IA64 : Z := 6.
Definition MD_CPU_ARCHITECTURE_AMD64 : Z := 9.
Definition MD_CPU_ARCHITECTURE_X86_WIN64 : Z := 10.
Definition MD_CPU_ARCHITECTURE_ARM64 : Z := 12.
Definition MD_CPU_ARCHITECTURE_SPARC : Z := 0x8001.
Definition MD_CPU_ARCHITECTURE_PPC64 : Z := 0x8002.
Definition MD_CPU_ARCHITECTURE_ARM64_OLD : Z := 0x8003.
Definition MD_CPU_ARCHITECTURE_MIPS64 : Z := 0x8004.
Definition MD_OS_WIN32_WINDOWS : Z := 1.
Definition MD_OS_WIN32_NT : Z := 2.
Definition MD_OS_MAC_OS_X : Z := 0x8101.
Definition MD_OS_IOS : Z := 0x8102.
Definition MD_OS_LINUX : Z := 0x8201.
Definition MD_OS_SOLARIS : Z := 0x8202.
Definition MD_OS_ANDROID : Z := 0x8203.
Definition MD_OS_PS3 : Z := 0x8204.
Definition MD_OS_NACL : Z := 0x8205.
Definition MD_OS_FUCHSIA : Z := 0x8206.

Record MDRawThread : Type := mkRawThread {
  thread_id : Z;
  suspend_count : Z;
  priority_class : Z;
  priority : Z;
  teb : Z;
  stack : MDMemoryDescriptor;
  thread_context : MDLocationDescriptor;
}.

Record MDRawExceptionStream : Type := mkRawException {
  exception_thread_id : Z;
  exception_code : Z;
  exception_flags : Z;
  exception_record : Z;
  exception_address : Z;
  number_parameters : Z;
  exception_information : list Z;
  exception_thread_context : MDLocationDescriptor;
}.

Record MDRawBreakpadInfo : Type := mkBreakpadInfo {
  validity : Z;
  dump_thread_id : Z;
  requesting_thread_id : Z;
}.

(** ** Streams

    An object exists only once its [Read] has returned true, so its [valid_] is
    not a member; a vector that is NULL when there are no elements is empty. *)

Record MinidumpThread : Type := mkThread {
  thread_ : MDRawThread;
  thread_memory_ : option MinidumpMemoryRegion;
  thread_context_ : option DumpContext;
}.

(** A pointer to a thread is its index. *)
Record MinidumpThreadList : Type := mkThreadList {
  id_to_thread_map_ : gmap Z nat;
  threads_ : list MinidumpThread;
}.

Record MinidumpMemoryList : Type := mkMemoryList {
  region_range_map_ : RangeMap Z;
  regions_ : list MinidumpMemoryRegion;
}.

Record MinidumpException : Type := mkException {
  exception_ : MDRawExceptionStream;
  exception_context_ : option DumpContext;
}.

(** ** Minidump

    [dump_stream] has [stream_] and [swap_].  [stream_map_] has the index of the
    stream of a type; the streams that were read are members of their own. *)
Record DumpFile : Type := mkDumpFile {
  path_content : option byte_list;
  dump_stream : Minidump;
  header_ : MDRawHeader;
  directory_ : list MDRawDirectory;
  stream_map_ : gmap Z nat;
  dump_valid_ : bool;
  system_info_ : option MDRawSystemInfo;
  thread_list_ : option MinidumpThreadList;
  memory_list_ : option MinidumpMemoryList;
  exception_stream_ : option MinidumpException;
  breakpad_info_ : option MDRawBreakpadInfo;
}.

Definition no_header : MDRawHeader := mkHeader 0 0 0 0 0 0 0.

(** A new object for the file at a path, which may not open. *)
Definition new_Minidump (content : option byte_list) : DumpFile :=
  mkDumpFile content (mkMinidump None 0 false false) no_header [] ∅ false None None None None None.

Definition set_stream (d : DumpFile) (s : Minidump) : DumpFile :=
  mkDumpFile (path_content d) s (header_ d) (directory_ d) (stream_map_ d) (dump_valid_ d)
    (system_info_ d) (thread_list_ d) (memory_list_ d) (exception_stream_ d) (breakpad_info_ d).

Definition set_system_info (d : DumpFile) (s : MDRawSystemInfo) : DumpFile :=
  mkDumpFile (path_content d) (dump_stream d) (header_ d) (directory_ d) (stream_map_ d) (dump_valid_ d)
    (Some s) (thread_list_ d) (memory_list_ d) (exception_stream_ d) (breakpad_info_ d).

Definition set_thread_list (d : DumpFile) (s : MinidumpThreadList) : DumpFile :=
  mkDumpFile (path_content d) (dump_stream d) (header_ d) (directory_ d) (stream_map_ d) (dump_valid_ d)
    (system_info_ d) (Some s) (memory_list_ d) (exception_stream_ d) (breakpad_info_ d).

Definition set_memory_list (d : DumpFile) (s : MinidumpMemoryList) : DumpFile :=
  mkDumpFile (path_content d) (dump_stream d) (header_ d) (directory_ d) (stream_map_ d) (dump_valid_ d)
    (system_info_ d) (thread_list_ d) (Some s) (exception_stream_ d) (breakpad_info_ d).

Definition set_exception (d : DumpFile) (s : MinidumpException) : DumpFile :=
  mkDumpFile (path_content d) (dump_stream d) (header_ d) (directory_ d) (stream_map_ d) (dump_valid_ d)
    (system_info_ d) (thread_list_ d) (memory_list_ d) (Some s) (breakpad_info_ d).

Definition set_breakpad_info (d : DumpFile) (s : MDRawBreakpadInfo) : DumpFile :=
  mkDumpFile (path_content d) (dump_stream d) (header_ d) (directory_ d) (stream_map_ d) (dump_valid_ d)
    (system_info_ d) (thread_list_ d) (memory_list_ d) (exception_stream_ d) (Some s).

(** ** Steps

    An operation changes the file object and gives a value, or [None] for
    [false] and NULL, on which its caller returns. *)
Definition step (A : Type) : Type := DumpFile -> outcome (option A * DumpFile).

Definition step_ret {A} (a : A) : step A := fun d => Ok (Some a, d).
Definition step_fail {A} : step A := fun d => Ok (None, d).

Definition step_bind {A B} (s : step A) (f : A -> step B) : step B := fun d =>
  let? (o, d) := s d in
  match o with Some a => f a d | None => Ok (None, d) end.

Notation "'let!' x ':=' s 'in' k" := (step_bind s (fun x => k))
  (at level 10, x pattern, k at level 200) : outcome_scope.

(** Returns when the condition does not hold. *)
Definition step_guard (b : bool) : step unit := if b then step_ret tt else step_fail.

(** The value, or [None] without returning. *)
Definition step_try {A} (s : step A) : step (option A) := fun d => let? (o, d) := s d in Ok (Some o, d).

Definition step_lift {A} (o : outcome A) : step A := fun d => let? a := o in Ok (Some a, d).

Definition swap (d : DumpFile) : bool := dump_valid_ d && swap_ (dump_stream d).

(** What a step asks the object. *)
Definition step_get {A} (f : DumpFile -> A) : step A := fun d => Ok (Some (f d), d).

Definition Dump_ReadBytes (count : Z) : step byte_list := fun d =>
  let (bytes, s) := ReadBytes (dump_stream d) count in Ok (bytes, set_stream d s).

Definition Dump_SeekSet (offset : Z) : step unit := fun d =>
  let (ok, s) := SeekSet (dump_stream d) offset in Ok (if ok then Some tt else None, set_stream d s).

(** [-1] when the stream has failed. *)
Definition Tell (d : DumpFile) : Z :=
  if negb (dump_valid_ d) then -1
  else match stream_ (dump_stream d) with
       | None => -1
       | Some _ => if failed (dump_stream d) then -1 else position (dump_stream d)
       end.

(** ** Read *)

(** A file that does not open leaves a stream that has failed. *)
Definition Open : step unit := fun d =>
  match stream_ (dump_stream d) with
  | Some _ => Dump_SeekSet 0 d
  | None =>
      match path_content d with
      | Some content => Ok (Some tt, set_stream d (mkMinidump (Some content) 0 false (swap_ (dump_stream d))))
      | None => Ok (None, set_stream d (mkMinidump (Some []) 0 true (swap_ (dump_stream d))))
      end
  end.

Definition max_streams_ : Z := 128.

(** The types of which a file may have one stream only. *)
Definition single_stream (type : Z) : bool :=
  existsb (Z.eqb type)
    [MD_THREAD_LIST_STREAM; MD_MODULE_LIST_STREAM; MD_MEMORY_LIST_STREAM; MD_EXCEPTION_STREAM;
     MD_SYSTEM_INFO_STREAM; MD_MISC_INFO_STREAM; MD_BREAKPAD_INFO_STREAM; MD_CRASHPAD_INFO_STREAM].

(** The loop over the directory, from the entry [index] on; [None] when it
    returns false. *)
Fixpoint map_streams (index : nat) (entries : list MDRawDirectory) (streams : gmap Z nat) : option (gmap Z nat) :=
  match entries with
  | [] => Some streams
  | entry :: entries =>
      if single_stream (stream_type entry) && bool_decide (is_Some (streams !! stream_type entry)) then None
      else map_streams (S index) entries (<[stream_type entry := index]> streams)
  end.

(** [count] structures of [size] bytes. *)
Definition read_array {A} (read : byte_list -> nat -> A) (size count : nat) (bs : byte_list) : list A :=
  map (fun i => read bs (i * size)%nat) (seq 0 count).

(** The header, in the byte order that the signature tells, which [swap_]
    keeps. *)
Definition Read_header : step (bool * MDRawHeader) :=
  let! bs := Dump_ReadBytes sizeof_MDRawHeader in
  let raw := field false bs 0 4 in
  let swapping := negb (raw =? MD_HEADER_SIGNATURE) in
  let! _ := step_guard (negb swapping || (Swap32 raw =? MD_HEADER_SIGNATURE)) in
  fun d =>
  let s := dump_stream d in
  Ok (Some (swapping, read_header swapping bs), set_stream d (mkMinidump (stream_ s) (position s) (failed s) swapping)).

(** The directory, an array that is read at once. *)
Definition Read_directory (swapping : bool) (header : MDRawHeader) : step (list MDRawDirectory) :=
  let! _ := step_guard (Z.land (header_version header) 0x0000ffff =? MD_HEADER_VERSION) in
  let! _ := Dump_SeekSet (stream_directory_rva header) in
  let! _ := step_guard (stream_count header <=? max_streams_) in
  if stream_count header =? 0 then step_ret []
  else
    let! bs := Dump_ReadBytes (sizeof_MDRawDirectory * stream_count header) in
    step_ret (read_array (read_directory swapping) 12 (Z.to_nat (stream_count header)) bs).

(** The members are set at the end: every operation asks [valid_] before it
    uses one. *)
Definition Read : step unit := fun d =>
  let d := mkDumpFile (path_content d) (dump_stream d) (header_ d) [] ∅ false None None None None None in
  (let! _ := Open in
   let! (swapping, header) := Read_header in
   let! directory := Read_directory swapping header in
   match map_streams 0 directory ∅ with
   | None => step_fail
   | Some streams => fun d =>
       Ok (Some tt, mkDumpFile (path_content d) (dump_stream d) header directory streams true
                      None None None None None)
   end) d.

(** ** Streams *)

(** The length of the stream, to which the file is positioned. *)
Definition SeekToStreamType (type : Z) : step Z := fun d =>
  if negb (dump_valid_ d) then Ok (None, d)
  else
    match stream_map_ d !! type with
    | None => Ok (None, d)
    | Some index =>
        if stream_count (header_ d) <=? Z.of_nat index then Ok (None, d)
        else
          let? entry := of_option (directory_ d !! index) in
          (let! _ := Dump_SeekSet (location_rva (location entry)) in
           step_ret (location_size (location entry))) d
    end.

(** [GetStream], for the member that keeps the stream, and the constructor and
    [Read] of its class. *)
Definition GetStream {T} (type : Z) (cached : DumpFile -> option T) (store : DumpFile -> T -> DumpFile)
    (read : Z -> step T) : step T := fun d =>
  if negb (dump_valid_ d) then Ok (None, d)
  else
    match stream_map_ d !! type with
    | None => Ok (None, d)
    | Some _ =>
        match cached d with
        | Some s => Ok (Some s, d)
        | None =>
            (let! stream_length := SeekToStreamType type in
             let! s := read stream_length in
             fun d => Ok (Some s, store d s)) d
        end
    end.

(** ** MinidumpSystemInfo *)

Definition SystemInfo_Read (expected_size : Z) : step MDRawSystemInfo :=
  let! _ := step_guard (expected_size =? sizeof_MDRawSystemInfo) in
  let! bs := Dump_ReadBytes sizeof_MDRawSystemInfo in
  let! swap := step_get swap in
  let u := field swap bs in
  step_ret (mkSystemInfoStream (u 0 2) (u 2 2) (u 4 2) (u 6 1) (u 7 1) (u 8 4) (u 12 4) (u 16 4) (u 20 4)
              (u 24 4) (u 28 2))%nat.

Definition GetSystemInfo : step MDRawSystemInfo :=
  GetStream MD_SYSTEM_INFO_STREAM system_info_ set_system_info SystemInfo_Read.

Definition GetOS (s : MDRawSystemInfo) : chars :=
  let named id := platform_id s =? id in
  if named MD_OS_WIN32_NT || named MD_OS_WIN32_WINDOWS then str "windows"
  else if named MD_OS_MAC_OS_X then str "mac"
  else if named MD_OS_IOS then str "ios"
  else if named MD_OS_LINUX then str "linux"
  else if named MD_OS_SOLARIS then str "solaris"
  else if named MD_OS_ANDROID then str "android"
  else if named MD_OS_PS3 then str "ps3"
  else if named MD_OS_NACL then str "nacl"
  else if named MD_OS_FUCHSIA then str "fuchsia"
  else [].

Definition GetCPU (s : MDRawSystemInfo) : chars :=
  let named id := processor_architecture s =? id in
  if named MD_CPU_ARCHITECTURE_X86 || named MD_CPU_ARCHITECTURE_X86_WIN64 then str "x86"
  else if named MD_CPU_ARCHITECTURE_AMD64 then str "x86-64"
  else if named MD_CPU_ARCHITECTURE_PPC then str "ppc"
  else if named MD_CPU_ARCHITECTURE_PPC64 then str "ppc64"
  else if named MD_CPU_ARCHITECTURE_SPARC then str "sparc"
  else if named MD_CPU_ARCHITECTURE_ARM then str "arm"
  else if named MD_CPU_ARCHITECTURE_ARM64 || named MD_CPU_ARCHITECTURE_ARM64_OLD then str "arm64"
  else [].

(** The platform; the position of the file is restored. *)
Definition GetPlatform : step Z := fun d =>
  let saved_position := Tell d in
  if saved_position =? -1 then Ok (None, d)
  else
    (let! system_info := step_try GetSystemInfo in
     let! _ := Dump_SeekSet saved_position in
     match system_info with
     | None => step_fail
     | Some s => step_ret (platform_id s)
     end) d.

Definition IsAndroid : step bool :=
  let! platform := step_try GetPlatform in
  step_ret (match platform with Some p => p =? MD_OS_ANDROID | None => false end).

(** ** Lists *)

(** The number of elements of a list stream: checked for overflow, against the
    length of the stream, which may have four bytes of padding after the
    number, and against a maximum. *)
Definition read_count (expected_size size max : Z) : step Z :=
  let! _ := step_guard (negb (expected_size <? 4)) in
  let! bs := Dump_ReadBytes 4 in
  let! swap := step_get swap in
  let count := field swap bs 0 4 in
  let! _ := step_guard (negb ((2 ^ 32 - 1) / size <? count)) in
  let! _ := (if expected_size =? 4 + count * size then step_ret tt
             else if expected_size =? 4 + 4 + count * size then let! _ := Dump_ReadBytes 4 in step_ret tt
             else step_fail) in
  let! _ := step_guard (negb (max <? count)) in
  step_ret count.

(** ** MinidumpMemoryList *)

Definition sizeof_MDMemoryDescriptor : Z := 16.
Definition max_regions_ : Z := 4096.

(** The loop over the descriptors, from [region_index] on; [None] when it
    returns false. *)
Fixpoint store_regions (region_index : Z) (descriptors : list MDMemoryDescriptor) (map : RangeMap Z) :
    outcome (option (RangeMap Z * list MinidumpMemoryRegion)) :=
  match descriptors with
  | [] => Ok (Some (map, []))
  | descriptor :: descriptors =>
      let base_address := start_of_memory_range descriptor in
      let region_size := data_size descriptor in
      if (region_size =? 0) || (wrap 64 (2 ^ 64 - 1 - base_address) <? region_size) then Ok None
      else
        let? (stored, map) := StoreRange 64 0 map base_address region_size region_index in
        if negb stored then Ok None
        else
          let? rest := store_regions (region_index + 1) descriptors map in
          match rest with
          | None => Ok None
          | Some (map, regions) => Ok (Some (map, SetDescriptor new_region (Some descriptor) :: regions))
          end
  end.

Definition MemoryList_Read (expected_size : Z) : step MinidumpMemoryList :=
  let! region_count := read_count expected_size sizeof_MDMemoryDescriptor max_regions_ in
  if region_count =? 0 then step_ret (mkMemoryList empty_range_map [])
  else
    let! bs := Dump_ReadBytes (sizeof_MDMemoryDescriptor * region_count) in
    let! swap := step_get swap in
    let descriptors := read_array (read_descriptor swap) 16 (Z.to_nat region_count) bs in
    let! stored := step_lift (store_regions 0 descriptors empty_range_map) in
    match stored with
    | None => step_fail
    | Some (map, regions) => step_ret (mkMemoryList map regions)
    end.

Definition GetMemoryList : step MinidumpMemoryList :=
  GetStream MD_MEMORY_LIST_STREAM memory_list_ set_memory_list MemoryList_Read.

(** [region_count_] is the length of the vector. *)
Definition GetMemoryRegionAtIndex (l : MinidumpMemoryList) (index : Z) : option nat :=
  if Z.of_nat (length (regions_ l)) <=? index then None else Some (Z.to_nat index).

(** A region, as its index. *)
Definition GetMemoryRegionForAddress (l : MinidumpMemoryList) (address : Z) : option nat :=
  match RetrieveRange 64 (map_ (region_range_map_ l)) address with
  | None => None
  | Some r => GetMemoryRegionAtIndex l (out_entry r)
  end.

(** ** MinidumpBreakpadInfo *)

Definition sizeof_MDRawBreakpadInfo : Z := 12.

Definition BreakpadInfo_Read (expected_size : Z) : step MDRawBreakpadInfo :=
  let! _ := step_guard (expected_size =? sizeof_MDRawBreakpadInfo) in
  let! bs := Dump_ReadBytes sizeof_MDRawBreakpadInfo in
  let! swap := step_get swap in
  step_ret (mkBreakpadInfo (field swap bs 0 4) (field swap bs 4 4) (field swap bs 8 4)).

Definition GetBreakpadInfo : step MDRawBreakpadInfo :=
  GetStream MD_BREAKPAD_INFO_STREAM breakpad_info_ set_breakpad_info BreakpadInfo_Read.

Definition GetDumpThreadID (b : MDRawBreakpadInfo) : option Z :=
  if Z.land (validity b) 1 =? 0 then None else Some (dump_thread_id b).

Definition GetRequestingThreadID (b : MDRawBreakpadInfo) : option Z :=
  if Z.land (validity b) 2 =? 0 then None else Some (requesting_thread_id b).

(** ** Values of fields *)

Definition field_width (n : nat) : Prop := n = 1%nat \/ n = 2%nat \/ n = 4%nat \/ n = 8%nat.
#[global] Hint Unfold field_width : core.

(** The bytes of a field in the byte order of the file. *)
Lemma field_spec swap bs off n :
  field_width n -> bytes_ok bs -> (off + n <= length bs)%nat ->
  field swap bs off n = le_val (if swap then rev (take n (drop off bs)) else take n (drop off bs)).
Proof.
  intros Hn Hb Hl. unfold field. destruct swap; [|done]. apply Swap_spec; [done|by apply Forall_take, Forall_drop|].
  rewrite length_take, length_drop. lia.
Qed.

Lemma field_uint swap bs off n :
  field_width n -> bytes_ok bs -> (off + n <= length bs)%nat -> uint (8 * Z.of_nat n) (field swap bs off n).
Proof.
  intros Hn Hb Hl. rewrite field_spec by done.
  assert (length (take n (drop off bs)) = n) as El by (rewrite length_take, length_drop; lia).
  assert (bytes_ok (take n (drop off bs))) as Hw by by apply Forall_take, Forall_drop.
  unfold uint. destruct swap.
  - rewrite <- El at 3. rewrite <- length_rev. apply le_val_bound. by apply List.Forall_rev.
  - rewrite <- El at 3. by apply le_val_bound.
Qed.

(** Bytes in the byte order of the file, as a writer makes them. *)
Definition put (swap : bool) (n : nat) (z : Z) : byte_list := if swap then rev (le_bytes n z) else le_bytes n z.

Lemma length_put swap n z : length (put swap n z) = n.
Proof. unfold put. destruct swap; rewrite ?length_rev; apply length_le_bytes. Qed.

Lemma put_ok swap n z : bytes_ok (put swap n z).
Proof. unfold put. destruct swap; [apply List.Forall_rev|]; apply le_bytes_ok. Qed.

(** A field that was written is read back. *)
Lemma field_put swap bs1 n z bs2 off :
  field_width n -> uint (8 * Z.of_nat n) z -> off = length bs1 ->
  field swap (bs1 ++ put swap n z ++ bs2) off n = z.
Proof.
  intros Hn Hz ->. unfold field. rewrite drop_app_length. rewrite take_app_le by by rewrite length_put.
  rewrite take_ge by by rewrite length_put. unfold put. destruct swap.
  - rewrite <- (rev_involutive (le_bytes n z)) at 1.
    rewrite rev_involutive, Swap_spec; [|done|apply List.Forall_rev, le_bytes_ok|by rewrite length_rev, length_le_bytes].
    by rewrite rev_involutive, le_val_le_bytes, wrap_small.
  - by rewrite le_val_le_bytes, wrap_small.
Qed.

(** ** The invariant *)

Definition location_ok (l : MDLocationDescriptor) : Prop := uint 32 (location_size l) /\ uint 32 (location_rva l).

(** What a context that was read has.  The flags of a 64-bit PowerPC context may
    lack the CPU, which then is nowhere. *)
Definition read_context (dc : DumpContext) (raw : RawContext) : Prop :=
  context_valid_ dc = true /\ raw_context_ dc = Some raw /\ raw_ok raw /\
  (raw_has_cpu raw (GetContextCPU dc) \/ GetContextCPU dc = 0).

Definition context_read (o : option DumpContext) : Prop := forall dc, o = Some dc -> exists raw, read_context dc raw.

(** A region whose bytes are at an offset of the file. *)
Definition file_region (r : MinidumpMemoryRegion) : Prop :=
  region_ok r /\ forall d, descriptor_ r = Some d -> 0 <= rva d.

Definition region_covers (r : MinidumpMemoryRegion) (a : Z) : Prop :=
  exists d, descriptor_ r = Some d /\ start_of_memory_range d <= a < start_of_memory_range d + data_size d.

(** The regions are valid, and the lookup finds the one at an address. *)
Record memory_list_ok (l : MinidumpMemoryList) : Prop := {
  ok_regions : Forall (fun r => file_region r /\ valid_ r = true) (regions_ l);
  ok_lookup a i : GetMemoryRegionForAddress l a = Some i <-> exists r, regions_ l !! i = Some r /\ region_covers r a;
}.

Record thread_ok (t : MinidumpThread) : Prop := {
  ok_thread_id : uint 32 (thread_id (thread_ t));
  ok_stack : uint 64 (start_of_memory_range (stack (thread_ t)));
  ok_context_location : location_ok (thread_context (thread_ t));
  ok_thread_memory r : thread_memory_ t = Some r -> file_region r;
  ok_thread_context : context_read (thread_context_ t);
}.

(** Every thread has its own number, under which it is found. *)
Record thread_list_ok (l : MinidumpThreadList) : Prop := {
  ok_threads : Forall thread_ok (threads_ l);
  ok_ids id i : id_to_thread_map_ l !! id = Some i <-> exists t, threads_ l !! i = Some t /\ thread_id (thread_ t) = id;
}.

Record exception_ok (e : MinidumpException) : Prop := {
  ok_exception_thread : uint 32 (exception_thread_id (exception_ e));
  ok_exception_location : location_ok (exception_thread_context (exception_ e));
  ok_exception_context : context_read (exception_context_ e);
}.

Record dump_ok (d : DumpFile) : Prop := {
  ok_path content : path_content d = Some content -> bytes_ok content;
  ok_stream : stream_ok (dump_stream d);
  ok_position : 0 <= position (dump_stream d);
  ok_map type i : stream_map_ d !! type = Some i -> Z.of_nat i < stream_count (header_ d) /\ exists e, directory_ d !! i = Some e /\
                    location_ok (location e);
  ok_threads_read l : thread_list_ d = Some l -> thread_list_ok l;
  ok_memory_read l : memory_list_ d = Some l -> memory_list_ok l;
  ok_exception_read e : exception_stream_ d = Some e -> exception_ok e;
}.

(** Reading streams leaves the rest of the object, and the streams that were
    read but for what is read of them later. *)
Record extends (d d' : DumpFile) : Prop := {
  extends_content : stream_ (dump_stream d') = stream_ (dump_stream d);
  extends_swap : swap_ (dump_stream d') = swap_ (dump_stream d);
  extends_header : header_ d' = header_ d;
  extends_directory : directory_ d' = directory_ d;
  extends_map : stream_map_ d' = stream_map_ d;
  extends_valid : dump_valid_ d' = dump_valid_ d;
  extends_system s : system_info_ d = Some s -> system_info_ d' = Some s;
  extends_threads l i t : thread_list_ d = Some l -> threads_ l !! i = Some t ->
    exists l' t', thread_list_ d' = Some l' /\ threads_ l' !! i = Some t' /\ thread_ t' = thread_ t;
  extends_memory l i r : memory_list_ d = Some l -> regions_ l !! i = Some r ->
    exists l' r', memory_list_ d' = Some l' /\ regions_ l' !! i = Some r' /\ descriptor_ r' = descriptor_ r;
  extends_exception e : exception_stream_ d = Some e ->
    exists e', exception_stream_ d' = Some e' /\ exception_ e' = exception_ e;
}.

#[global] Instance extends_preorder : PreOrder extends.
Proof.
  split; [by split; eauto|]. intros d1 d2 d3 H H'. split.
  1-6: by destruct H, H'; congruence.
  - intros s Hs. by apply (extends_system _ _ H'), (extends_system _ _ H).
  - intros l i t Hl Hi. destruct (extends_threads _ _ H l i t Hl Hi) as (l1 & t1 & Hl1 & Hi1 & E1).
    destruct (extends_threads _ _ H' l1 i t1 Hl1 Hi1) as (l2 & t2 & Hl2 & Hi2 & E2). exists l2, t2. split_and!; congruence.
  - intros l i r Hl Hi. destruct (extends_memory _ _ H l i r Hl Hi) as (l1 & r1 & Hl1 & Hi1 & E1).
    destruct (extends_memory _ _ H' l1 i r1 Hl1 Hi1) as (l2 & r2 & Hl2 & Hi2 & E2). exists l2, r2. split_and!; congruence.
  - intros e He. destruct (extends_exception _ _ H e He) as (e1 & He1 & E1).
    destruct (extends_exception _ _ H' e1 He1) as (e2 & He2 & E2). exists e2. split; congruence.
Qed.

(** Only the stream has moved. *)
Definition moved (d d' : DumpFile) : Prop := exists s, d' = set_stream d s.

(** ** Steps that keep the invariant *)

(** The step returns, keeps the invariant, and its value and the object after
    it satisfy [Q]. *)
Definition runs {A} (s : step A) (d : DumpFile) (Q : A -> DumpFile -> Prop) : Prop :=
  exists o d', s d = Ok (o, d') /\ dump_ok d' /\ extends d d' /\ forall a, o = Some a -> Q a d'.

Section runs_lemmas.
Context {A B : Type}.
Implicit Types (d : DumpFile) (s : step A) (f : A -> step B).

Lemma runs_ret d (a : A) (Q : A -> DumpFile -> Prop) : dump_ok d -> Q a d -> runs (step_ret a) d Q.
Proof. intros Hd HQ. exists (Some a), d. split_and!; try done. by intros a' [= <-]. Qed.

Lemma runs_fail d (Q : A -> DumpFile -> Prop) : dump_ok d -> runs step_fail d Q.
Proof. intros Hd. by exists None, d. Qed.

Lemma runs_mono d s (Q Q' : A -> DumpFile -> Prop) :
  runs s d Q -> (forall a d', extends d d' -> Q a d' -> Q' a d') -> runs s d Q'.
Proof. intros (o & d' & E & Hd & He & HQ) H. exists o, d'. split_and!; auto. Qed.

Lemma runs_bind d s f (Q : B -> DumpFile -> Prop) :
  runs s d (fun a d1 => dump_ok d1 -> extends d d1 -> runs (f a) d1 Q) -> runs (step_bind s f) d Q.
Proof.
  intros (o & d1 & E & Hd1 & He1 & H). unfold runs, step_bind. rewrite E. cbn [obind].
  destruct o as [a|]; [|by exists None, d1].
  destruct (H a eq_refl Hd1 He1) as (o & d2 & E2 & Hd2 & He2 & HQ). exists o, d2. split_and!; try done. by transitivity d1.
Qed.

Lemma runs_try d s (Q : option A -> DumpFile -> Prop) :
  runs s d (fun a d' => Q (Some a) d') -> (forall d', dump_ok d' -> extends d d' -> Q None d') -> runs (step_try s) d Q.
Proof.
  intros (o & d1 & E & Hd1 & He1 & H) Hnone. unfold runs, step_try. rewrite E. cbn [obind]. exists (Some o), d1.
  split_and!; try done. intros a [= <-]. destruct o as [a|]; [by apply H|by apply Hnone].
Qed.

Lemma runs_get d (g : DumpFile -> A) (Q : A -> DumpFile -> Prop) : dump_ok d -> Q (g d) d -> runs (step_get g) d Q.
Proof. intros Hd HQ. exists (Some (g d)), d. split_and!; try done. by intros a [= <-]. Qed.

Lemma runs_lift d (a : A) (Q : A -> DumpFile -> Prop) : dump_ok d -> Q a d -> runs (step_lift (Ok a)) d Q.
Proof. intros Hd HQ. exists (Some a), d. split_and!; try done. by intros a' [= <-]. Qed.
End runs_lemmas.

Lemma runs_guard d b (Q : unit -> DumpFile -> Prop) : dump_ok d -> (b = true -> Q tt d) -> runs (step_guard b) d Q.
Proof. intros Hd HQ. unfold step_guard. destruct b; [apply runs_ret; auto|by apply runs_fail]. Qed.

(** The stream may move and fail, with its content as it was. *)
Lemma dump_ok_stream d s :
  dump_ok d -> stream_ s = stream_ (dump_stream d) -> 0 <= position s -> dump_ok (set_stream d s).
Proof.
  intros Hd Es Hp. destruct Hd as [H1 H2 H3 H4 H5 H6 H7]. split; try done. unfold stream_ok in *. cbn [set_stream dump_stream]. by rewrite Es.
Qed.

Lemma extends_stream d s :
  stream_ s = stream_ (dump_stream d) -> swap_ s = swap_ (dump_stream d) -> extends d (set_stream d s).
Proof. intros H1 H2. split; eauto. Qed.

(** A stream kept where none was. *)
Lemma moved_trans d1 d2 d3 : moved d1 d2 -> moved d2 d3 -> moved d1 d3.
Proof. intros [s1 ->] [s2 ->]. by exists s2. Qed.

Lemma moved_refl d : moved d d.
Proof. exists (dump_stream d). by destruct d. Qed.

Lemma ReadBytes_facts (md : Minidump) count bs md' :
  stream_ok md -> 0 <= position md -> ReadBytes md count = (bs, md') ->
  stream_ md' = stream_ md /\ swap_ md' = swap_ md /\ 0 <= position md' /\
  forall b, bs = Some b -> bytes_ok b /\ Z.of_nat (length b) = count.
Proof.
  intros Hmd Hp. unfold ReadBytes. destruct (stream_ md) as [content|] eqn:Es; [|intros [= <- <-]; by rewrite Es].
  set (b := if failed md then [] else _).
  assert (bytes_ok b) as Hb.
  { unfold b. destruct (failed md); [constructor|]. apply Forall_take, Forall_drop. by apply Hmd. }
  destruct (Z.eqb_spec (Z.of_nat (length b)) count); intros [= <- <-]; cbn [stream_ swap_ position]; split_and!; try done; try lia.
  by intros b' [= <-].
Qed.

Lemma runs_ReadBytes d count (Q : byte_list -> DumpFile -> Prop) :
  dump_ok d -> (forall bs d', moved d d' -> bytes_ok bs -> Z.of_nat (length bs) = count -> Q bs d') ->
  runs (Dump_ReadBytes count) d Q.
Proof.
  intros Hd HQ. unfold runs, Dump_ReadBytes. destruct (ReadBytes (dump_stream d) count) as [bs md] eqn:E.
  destruct (ReadBytes_facts _ _ _ _ (ok_stream d Hd) (ok_position d Hd) E) as (Es & Ew & Hp & Hb).
  assert (extends d (set_stream d md)) by by apply extends_stream.
  exists bs, (set_stream d md). split_and!; try done; [by apply dump_ok_stream|]. intros b ->. apply HQ; [by exists md|by apply Hb..].
Qed.

Lemma SeekSet_facts (md : Minidump) offset ok md' :
  0 <= position md -> 0 <= offset -> SeekSet md offset = (ok, md') ->
  stream_ md' = stream_ md /\ swap_ md' = swap_ md /\ 0 <= position md' /\ failed md' = failed md.
Proof.
  intros Hp Ho. unfold SeekSet. destruct (stream_ md) as [content|] eqn:Es; [|intros [= _ <-]; by rewrite Es].
  destruct (failed md) eqn:Ef; intros [= _ <-]; cbn; by rewrite ?Es.
Qed.

Lemma runs_SeekSet d offset (Q : unit -> DumpFile -> Prop) :
  dump_ok d -> 0 <= offset -> (forall d', moved d d' -> Q tt d') -> runs (Dump_SeekSet offset) d Q.
Proof.
  intros Hd Ho HQ. unfold runs, Dump_SeekSet. destruct (SeekSet (dump_stream d) offset) as [ok md] eqn:E.
  destruct (SeekSet_facts _ _ _ _ (ok_position d Hd) Ho E) as (Es & Ew & Hp & _).
  assert (extends d (set_stream d md)) by by apply extends_stream.
  eexists _, (set_stream d md). split_and!; try done; [by apply dump_ok_stream|]. destruct ok; intros [] ?; [by apply HQ; exists md|done].
Qed.

Lemma Tell_position d : dump_ok d -> Tell d <> -1 -> 0 <= Tell d.
Proof.
  intros Hd. pose proof (ok_position d Hd). unfold Tell. destruct (dump_valid_ d); cbn [negb]; [|done].
  destruct (stream_ _); [|done]. by destruct (failed _).
Qed.

Lemma runs_SeekToStreamType type d (Q : Z -> DumpFile -> Prop) :
  dump_ok d -> (forall n d', moved d d' -> uint 32 n -> Q n d') -> runs (SeekToStreamType type) d Q.
Proof.
  intros Hd HQ. unfold runs, SeekToStreamType. destruct (dump_valid_ d); cbn [negb]; [|by exists None, d].
  destruct (stream_map_ d !! type) as [index|] eqn:Em; [|by exists None, d].
  destruct (ok_map d Hd type index Em) as (Hi & e & Ee & [Hsize Hrva]). unfold uint in Hrva.
  rewrite (proj2 (Z.leb_gt _ _)) by lia. rewrite Ee. cbn [of_option obind].
  apply (runs_bind d (Dump_SeekSet _)), runs_SeekSet; [done|lia|]. intros d1 He1 Hd1 _.
  apply runs_ret; [done|]. by apply HQ.
Qed.

(** A stream that is read keeps the invariant when its class does and the
    member may have what was read. *)
Lemma runs_GetStream {T} type cached store (read : Z -> step T) d (P : T -> DumpFile -> Prop) :
  dump_ok d ->
  (forall t, cached d = Some t -> P t d) ->
  (forall d1 n, dump_ok d1 -> cached d = None -> moved d d1 -> uint 32 n ->
     runs (read n) d1 (fun t d2 => dump_ok d2 -> extends d d2 ->
       dump_ok (store d2 t) /\ extends d2 (store d2 t) /\ P t (store d2 t))) ->
  runs (GetStream type cached store read) d P.
Proof.
  intros Hd Hc Hr. unfold runs, GetStream.
  destruct (dump_valid_ d) eqn:Ev; cbn [negb]; [|by exists None, d].
  destruct (stream_map_ d !! type) as [index|] eqn:Em; [|by exists None, d].
  destruct (cached d) as [t|] eqn:Ec.
  { exists (Some t), d. split; [done|]. split; [done|]. split; [done|]. intros t' [= <-]. by apply Hc. }
  apply (runs_bind d (SeekToStreamType type)), runs_SeekToStreamType; [done|]. intros n d1 Hm1 Hn Hd1 He1.
  apply runs_bind. eapply runs_mono; [by apply Hr|]. intros t d2 He2 Ht Hd2 _.
  destruct Ht as (Hd3 & He3 & HP); [done|by transitivity d1|].
  exists (Some t), (store d2 t). split; [done|]. split; [done|]. split; [done|]. by intros t' [= <-].
Qed.

Ltac runs_step :=
  lazymatch goal with
  | |- runs (step_bind _ _) _ _ => apply runs_bind
  | |- runs (step_ret _) _ _ => apply runs_ret; [done|]
  | |- runs step_fail _ _ => by apply runs_fail
  | |- runs (step_guard _) _ _ => apply runs_guard; [done|]
  | |- runs (step_get _) _ _ => apply runs_get; [done|]
  | |- runs (Dump_ReadBytes _) _ _ => apply runs_ReadBytes; [done|]; intros ? ? ? ? ?
  | |- _ -> _ => intros ?
  end.

(** ** The system information *)

(** A stream is kept where none was. *)
Lemma extends_set_system d s : system_info_ d = None -> extends d (set_system_info d s).
Proof. intros E. split; cbn; eauto; congruence. Qed.

Lemma extends_set_memory d l : memory_list_ d = None -> extends d (set_memory_list d l).
Proof. intros E. split; cbn; eauto; congruence. Qed.

Lemma GetSystemInfo_runs d : dump_ok d -> runs GetSystemInfo d (fun s d' => system_info_ d' = Some s).
Proof.
  intros Hd. apply runs_GetStream; [done|done|]. intros d1 n Hd1 Hnone [s1 ->] Hn. unfold SystemInfo_Read.
  repeat runs_step. match goal with H : moved _ ?d' |- dump_ok (set_system_info ?d' _) /\ _ => destruct H as [s2 ->] end.
  split; [by match goal with H : dump_ok ?d' |- dump_ok (set_system_info ?d' _) => destruct H end|].
  split; [apply extends_set_system; cbn; congruence|done].
Qed.

(** Without the stream, or with one that cannot be read, asking again changes
    nothing: the first answer is the answer. *)
Lemma GetPlatform_runs d : dump_ok d -> runs GetPlatform d (fun _ _ => True).
Proof.
  intros Hd. unfold runs, GetPlatform. destruct (Z.eqb_spec (Tell d) (-1)) as [|Ht]; [by exists None, d|].
  apply Tell_position in Ht; [|done].
  apply runs_bind. apply runs_try.
  - eapply runs_mono; [by apply GetSystemInfo_runs|]. intros s d1 He1 _ Hd1 _. apply runs_bind, runs_SeekSet; [done|done|].
    intros d2 He2 Hd2 _. by apply runs_ret.
  - intros d1 Hd1 He1 _ _. apply runs_bind, runs_SeekSet; [done|done|]. intros d2 He2 Hd2 _. by apply runs_fail.
Qed.

Lemma IsAndroid_runs d : dump_ok d -> runs IsAndroid d (fun _ _ => True).
Proof.
  intros Hd. apply runs_bind, runs_try.
  - eapply runs_mono; [by apply GetPlatform_runs|]. intros p d1 _ _ Hd1 _. by apply runs_ret.
  - intros d1 Hd1 _ _ _. by apply runs_ret.
Qed.

(** ** Lists *)

Lemma read_count_runs expected size max d :
  dump_ok d -> runs (read_count expected size max) d (fun count d' => 0 <= count <= max /\ moved d d').
Proof.
  intros Hd. unfold read_count. repeat runs_step.
  match goal with |- context [field ?w ?b 0 4] =>
    assert (0 <= field w b 0 4) as Hc by (apply (field_uint w b 0 4); auto; lia); revert Hc; generalize (field w b 0 4) end.
  intros count Hc.
  destruct (_ =? _); [|destruct (_ =? _); [|by apply runs_fail]]; repeat runs_step.
  all: split; [match goal with H : negb (?m <? ?c) = true |- _ <= ?c <= ?m => apply negb_true_iff, Z.ltb_ge in H; lia end|];
    eauto using moved_trans.
Qed.

Lemma length_read_array {A} (read : byte_list -> nat -> A) size count bs : length (read_array read size count bs) = count.
Proof. unfold read_array. by rewrite length_map, length_seq. Qed.

Lemma read_array_lookup {A} (read : byte_list -> nat -> A) size count bs i x :
  read_array read size count bs !! i = Some x <-> (i < count)%nat /\ x = read bs (i * size)%nat.
Proof.
  unfold read_array. rewrite list_lookup_fmap. destruct (decide (i < count)%nat) as [Hi|Hi].
  - rewrite lookup_seq_lt by done. cbn. split; [by intros [= <-]|by intros [_ ->]].
  - rewrite lookup_seq_ge by lia. cbn. split; [done|]. by intros [? _].
Qed.

Lemma read_array_Forall {A} (P : A -> Prop) (read : byte_list -> nat -> A) size count bs :
  (forall i, (i < count)%nat -> P (read bs (i * size)%nat)) -> Forall P (read_array read size count bs).
Proof. intros H. apply Forall_lookup. intros i x Hx. apply read_array_lookup in Hx as [Hi ->]. by apply H. Qed.

(** ** The memory list *)

Definition descriptor_uint (d : MDMemoryDescriptor) : Prop :=
  uint 64 (start_of_memory_range d) /\ uint 32 (data_size d) /\ uint 32 (rva d).

Lemma read_descriptor_uint swap bs off :
  bytes_ok bs -> (off + 16 <= length bs)%nat -> descriptor_uint (read_descriptor swap bs off).
Proof.
  intros Hb Hl. split_and!; cbn [read_descriptor start_of_memory_range data_size rva].
  - apply (field_uint _ _ _ 8); auto; lia.
  - apply (field_uint _ _ _ 4); auto; lia.
  - apply (field_uint _ _ _ 4); auto; lia.
Qed.

(** What a list may have: ranges of some bytes in the address space that do not
    overlap. *)
Definition descriptor_placed (d : MDMemoryDescriptor) : Prop :=
  0 < data_size d /\ start_of_memory_range d + data_size d < 2 ^ 64.

Definition descriptors_apart (d1 d2 : MDMemoryDescriptor) : Prop :=
  start_of_memory_range d1 + data_size d1 <= start_of_memory_range d2 \/
  start_of_memory_range d2 + data_size d2 <= start_of_memory_range d1.

Definition placed (ds : list MDMemoryDescriptor) : Prop :=
  Forall descriptor_placed ds /\ ForallOrdPairs descriptors_apart ds.

Definition descriptor_covers (d : MDMemoryDescriptor) (a : Z) : Prop :=
  start_of_memory_range d <= a < start_of_memory_range d + data_size d.

(** The map finds the descriptor at every address. *)
Definition maps_descriptors (map : RangeMap Z) (ds : list MDMemoryDescriptor) : Prop :=
  merge_strategy_ map = kExclusiveRanges /\ RangeMap.wf 64 (map_ map) /\
  forall a x, entry_at 64 (map_ map) a = Some x <-> exists i d, x = Z.of_nat i /\ ds !! i = Some d /\ descriptor_covers d a.

Lemma placed_app ds d :
  placed (ds ++ [d]) <-> placed ds /\ descriptor_placed d /\ forall e, e ∈ ds -> descriptors_apart e d.
Proof.
  unfold placed. rewrite Forall_app, Forall_singleton. split.
  - intros [[H1 H2] H3]. split_and!; try done.
    + clear -H3. induction ds as [|e ds IH]; [constructor|]. cbn [app] in H3. inversion H3 as [|? ? Ha Hr]; subst.
      apply Forall_app in Ha as [Ha _]. constructor; [done|by apply IH].
    + clear -H3. induction ds as [|e ds IH]; [set_solver|]. cbn [app] in H3. inversion H3 as [|? ? Ha Hr]; subst.
      apply Forall_app in Ha as [_ Ha]. rewrite Forall_singleton in Ha. intros x Hx. apply elem_of_cons in Hx as [->|Hx]; auto.
  - intros ([H1 H2] & H3 & H4). split; [done|]. clear -H2 H4. induction H2 as [|e ds Ha Hr IH]; cbn [app].
    + repeat constructor.
    + constructor; [|apply IH; set_solver]. apply Forall_app. split; [done|]. apply Forall_singleton, H4. set_solver.
Qed.

(** A range of the list that overlaps another one has an address of it. *)
Lemma descriptors_overlap d1 d2 :
  descriptor_placed d1 -> descriptor_placed d2 -> ~ descriptors_apart d1 d2 ->
  exists a, descriptor_covers d1 a /\ descriptor_covers d2 a.
Proof.
  unfold descriptor_placed, descriptors_apart, descriptor_covers. intros H1 H2 H.
  exists (Z.max (start_of_memory_range d1) (start_of_memory_range d2)). lia.
Qed.

Lemma entry_at_RetrieveRange (m : list (Z * Range Z)) a : entry_at 64 m a = None <-> RetrieveRange 64 m a = None.
Proof. unfold entry_at. by destruct (RetrieveRange 64 m a). Qed.

(** Storing a range finds out whether it is apart from the ranges stored. *)
Lemma maps_descriptors_store map ds d :
  maps_descriptors map ds -> placed ds -> descriptor_uint d -> descriptor_placed d ->
  exists ok map', StoreRange 64 0 map (start_of_memory_range d) (data_size d) (Z.of_nat (length ds)) = Ok (ok, map') /\
    (ok = true <-> forall e, e ∈ ds -> descriptors_apart e d) /\
    (ok = true -> maps_descriptors map' (ds ++ [d])).
Proof.
  intros (Hs & Hwf & Hmap) [Hp _] (Hb & Hz & _) Hd. rewrite Forall_forall in Hp. unfold uint in Hz.
  destruct (StoreRange_cases 64 0 map (start_of_memory_range d) (data_size d) (Z.of_nat (length ds)) Hwf Hb)
    as (ok & m' & E & Hok & Hm'); [unfold uint; lia|].
  eexists ok, _. split; [exact E|]. rewrite Hs in Hok, Hm'. cbn [acceptable entry_after] in Hok, Hm'.
  assert (ok = true <-> forall e, e ∈ ds -> descriptors_apart e d) as Hiff.
  { rewrite Hok. split.
    - intros [_ Hfree] e He. destruct (decide (descriptors_apart e d)) as [|Hn]; [done|]. exfalso.
      destruct (descriptors_overlap e d) as (a & Hea & Hda); [by apply Hp|done|done|].
      pose proof (Hfree a Hda) as Hnone. apply entry_at_RetrieveRange in Hnone.
      apply list_elem_of_lookup in He as [i Hi].
      assert (entry_at 64 (map_ map) a = Some (Z.of_nat i)) by (apply Hmap; by exists i, e). congruence.
    - intros Hap. split; [unfold valid_range; destruct Hd; lia|]. intros a Ha. apply entry_at_RetrieveRange.
      destruct (entry_at 64 (map_ map) a) as [x|] eqn:Ex; [|done]. exfalso.
      apply Hmap in Ex as (i & e & _ & He & Hc). apply list_elem_of_lookup_2 in He. specialize (Hap e He).
      unfold descriptors_apart, descriptor_covers in *. lia. }
  split; [done|]. intros ->. destruct Hm' as [Hwf' Ha]. pose proof (proj1 Hiff eq_refl) as Hap.
  split; [done|]. split; [done|]. intros a x. cbn [map_]. rewrite Ha. unfold entry_after_exclusive.
  destruct (_ && _) eqn:Ec.
  - split.
    + intros [= <-]. exists (length ds), d. split; [done|]. split; [by rewrite lookup_app_r, Nat.sub_diag by done|].
      unfold descriptor_covers. lia.
    + intros (i & e & -> & [He|[Hi He]]%lookup_app_Some & Hc).
      * apply list_elem_of_lookup_2 in He. specialize (Hap e He). unfold descriptors_apart, descriptor_covers in *. lia.
      * apply list_lookup_singleton_Some in He as [? <-]. do 2 f_equal. lia.
  - rewrite Hmap. split; intros (i & e & -> & He & Hc); exists i, e; (split; [done|]).
    + split; [|done]. by apply lookup_app_l_Some.
    + apply lookup_app_Some in He as [He|[_ [_ <-]%list_lookup_singleton_Some]]; [done|]. unfold descriptor_covers in Hc. lia.
Qed.

(** The loop stores every descriptor when they are placed, and fails when they
    are not. *)
Lemma store_regions_spec : forall descriptors ds map,
  maps_descriptors map ds -> placed ds -> Forall descriptor_uint descriptors ->
  exists o, store_regions (Z.of_nat (length ds)) descriptors map = Ok o /\
    match o with
    | Some (map', regions) => placed (ds ++ descriptors) /\ maps_descriptors map' (ds ++ descriptors) /\
        regions = List.map (fun d => SetDescriptor new_region (Some d)) descriptors
    | None => ~ placed (ds ++ descriptors)
    end.
Proof.
  induction descriptors as [|d descriptors IH]; intros ds map Hmap Hp Hu; cbn [store_regions].
  { eexists. split; [done|]. by rewrite app_nil_r. }
  apply Forall_cons in Hu as [Hd Hu]. pose proof Hd as (Hb & Hz & _). unfold uint in Hb, Hz.
  rewrite (wrap_small 64 (2 ^ 64 - 1 - start_of_memory_range d)) by (unfold uint; lia).
  assert (forall P, placed (ds ++ d :: descriptors) -> (placed (ds ++ [d]) -> P) -> P) as Hprefix.
  { intros P Hall HP. apply HP. rewrite cons_middle, app_assoc in Hall. clear -Hall. destruct Hall as [H1 H2].
    apply Forall_app in H1 as [H1 _]. split; [done|]. revert H2. generalize (ds ++ [d]). intros l. clear.
    induction l as [|e l IH]; [constructor|]. cbn [app]. intros H. inversion H as [|? ? Ha Hr]; subst.
    apply Forall_app in Ha as [Ha _]. constructor; [done|by apply IH]. }
  destruct (_ || _) eqn:Eg.
  { eexists. split; [done|]. intros Hall. apply (Hprefix _ Hall). intros [_ [[? ?] _]]%placed_app. lia. }
  destruct (maps_descriptors_store map ds d) as (ok & map' & -> & Hok & Hmap'); [done|done|done|split; lia|].
  cbn [obind]. destruct ok; cbn [negb].
  - pose proof (proj1 Hok eq_refl) as Hap.
    destruct (IH (ds ++ [d]) map') as (o & Eo & Ho); [by apply Hmap'| |done|].
    { apply placed_app. split; [done|]. split; [split; lia|done]. }
    rewrite length_app in Eo. cbn [length] in Eo. rewrite Nat2Z.inj_add in Eo. change (Z.of_nat 1) with 1 in Eo.
    rewrite Eo. cbn [obind]. rewrite cons_middle, app_assoc. destruct o as [[map2 regions]|]; eexists; (split; [done|]); [|done].
    destruct Ho as (? & ? & ->). done.
  - eexists. split; [done|]. intros Hall. apply (Hprefix _ Hall). intros (_ & _ & Hap)%placed_app.
    by apply Hok in Hap.
Qed.

Lemma maps_descriptors_nil : maps_descriptors empty_range_map [].
Proof. split; [done|]. split; [apply RangeMap.wf_nil|]. intros a x. split; [done|]. by intros (i & d & _ & ? & _). Qed.

Lemma new_region_ok d : descriptor_uint d -> descriptor_placed d -> file_region (SetDescriptor new_region (Some d)) /\
  valid_ (SetDescriptor new_region (Some d)) = true.
Proof.
  intros (Hb & Hz & Hr) Hd. unfold descriptor_placed, uint in *. split; [split; [split|intros d' [= <-]; lia]|].
  - intros _. exists d. unfold uint. cbn. split; [done|]. lia.
  - done.
  - cbn. rewrite wrap_small by (unfold uint; lia). apply Z.leb_le. lia.
Qed.

(** The list the loop leaves. *)
Lemma stored_list_ok map ds :
  maps_descriptors map ds -> placed ds -> Forall descriptor_uint ds ->
  memory_list_ok (mkMemoryList map (List.map (fun d => SetDescriptor new_region (Some d)) ds)).
Proof.
  intros (_ & Hwf & Hmap) [Hp _] Hu. rewrite Forall_forall in Hp, Hu. split; cbn [regions_ region_range_map_].
  - apply Forall_forall. intros r (d & -> & Hd)%list_elem_of_fmap. by apply new_region_ok; [apply Hu|apply Hp].
  - intros a i. unfold GetMemoryRegionForAddress, GetMemoryRegionAtIndex. cbn [regions_ region_range_map_].
    rewrite length_map. setoid_rewrite list_lookup_fmap_Some.
    assert (forall x, entry_at 64 (map_ map) a = Some x <-> exists r, RetrieveRange 64 (map_ map) a = Some r /\ out_entry r = x) as He.
    { intros x. unfold entry_at. destruct (RetrieveRange 64 (map_ map) a) as [r|]; cbn; split;
        [by intros [= <-]; exists r|by intros (r' & [= <-] & ->)|done|by intros (? & ? & _)]. }
    split.
    + destruct (RetrieveRange 64 (map_ map) a) as [r|] eqn:Er; [|done].
      assert (entry_at 64 (map_ map) a = Some (out_entry r)) as Ex by (unfold entry_at; by rewrite Er).
      apply Hmap in Ex as (j & d & Ej & Hj & Hc). rewrite Ej. case_match; [done|]. intros [= <-]. rewrite Nat2Z.id.
      exists (SetDescriptor new_region (Some d)). split; [by exists d|]. by exists d.
    + intros (r & (d & -> & Hi) & d' & [= <-] & Hc).
      assert (entry_at 64 (map_ map) a = Some (Z.of_nat i)) as Ex by (apply Hmap; by exists i, d).
      apply He in Ex as (r & -> & ->). apply lookup_lt_Some in Hi. rewrite (proj2 (Z.leb_gt _ _)) by lia. by rewrite Nat2Z.id.
Qed.

Lemma MemoryList_Read_runs expected d : dump_ok d -> runs (MemoryList_Read expected) d (fun l d' => memory_list_ok l /\ moved d d').
Proof.
  intros Hd. apply runs_bind. eapply runs_mono; [by apply read_count_runs|]. intros count d1 _ [Hcount Hm1] Hd1 _.
  destruct (Z.eqb_spec count 0).
  { apply runs_ret; [done|]. split; [|done]. apply (stored_list_ok _ [] maps_descriptors_nil); [split; constructor|constructor]. }
  repeat runs_step. cbv zeta.
  match goal with |- context [store_regions 0 ?l _] => set (ds := l) end.
  assert (Forall descriptor_uint ds) as Hu.
  { apply read_array_Forall. intros i Hi. apply read_descriptor_uint; [done|]. unfold sizeof_MDMemoryDescriptor in *. lia. }
  destruct (store_regions_spec ds [] empty_range_map) as (o & Eo & Ho); [apply maps_descriptors_nil|split; constructor|done|].
  cbn [length app] in Eo, Ho. change (Z.of_nat 0) with 0 in Eo. rewrite Eo. apply runs_bind, runs_lift; [done|]. intros _ _.
  destruct o as [[map regions]|]; [|by apply runs_fail]. destruct Ho as (Hp & Hm & ->). apply runs_ret; [done|].
  split; [by apply stored_list_ok|]. eauto using moved_trans.
Qed.

Lemma GetMemoryList_runs d : dump_ok d -> runs GetMemoryList d (fun l d' => memory_list_ok l /\ memory_list_ d' = Some l).
Proof.
  intros Hd. apply runs_GetStream; [done|intros l Hl; split; [by apply (ok_memory_read d Hd)|done]|].
  intros d1 n Hd1 Hnone [s1 ->] _. eapply runs_mono; [by apply MemoryList_Read_runs|]. intros l d2 _ [Hl [s2 ->]] Hd2 _.
  split_and!; [destruct Hd2; split; try done; by intros ? [= <-]|by apply extends_set_memory|done|done].
Qed.

Lemma GetBreakpadInfo_runs d : dump_ok d -> runs GetBreakpadInfo d (fun _ _ => True).
Proof.
  intros Hd. apply runs_GetStream; [done|done|]. intros d1 n Hd1 _ _ Hn. unfold BreakpadInfo_Read.
  repeat runs_step. split; [|split; [split; eauto|done]].
  match goal with H : dump_ok ?d |- dump_ok (set_breakpad_info ?d _) => by destruct H end.
Qed.

(** ** Read *)

(** No type that must be single is there twice. *)
Definition singles (entries : list MDRawDirectory) : Prop :=
  forall i j e f, entries !! i = Some e -> entries !! j = Some f -> stream_type e = stream_type f ->
    single_stream (stream_type e) = true -> i = j.

(** Every type that is there is mapped to its last entry. *)
Definition maps_last (streams : gmap Z nat) (entries : list MDRawDirectory) : Prop :=
  forall type, match streams !! type with
  | Some i => (exists e, entries !! i = Some e /\ stream_type e = type) /\
      forall j e, entries !! j = Some e -> stream_type e = type -> (j <= i)%nat
  | None => forall j e, entries !! j = Some e -> stream_type e <> type
  end.

Lemma maps_last_nil : maps_last ∅ [].
Proof. intros type. rewrite lookup_empty. intros j e. by rewrite lookup_nil. Qed.

Lemma maps_last_snoc streams entries e :
  maps_last streams entries -> maps_last (<[stream_type e := length entries]> streams) (entries ++ [e]).
Proof.
  intros H type. destruct (decide (stream_type e = type)) as [<-|Hne].
  - rewrite lookup_insert_eq. split; [exists e; split; [|done]; by rewrite lookup_app_r, Nat.sub_diag by done|].
    intros j f Hj _. apply lookup_lt_Some in Hj. rewrite length_app in Hj. cbn in Hj. lia.
  - rewrite lookup_insert_ne by done. specialize (H type).
    assert (forall j f, (entries ++ [e]) !! j = Some f -> stream_type f = type -> entries !! j = Some f) as Hold.
    { intros j f [Hj|[_ [_ <-]%list_lookup_singleton_Some]]%lookup_app_Some Ht; done. }
    destruct (streams !! type) as [i|].
    + destruct H as [(f & Hf & Ht) Hmax]. split; [exists f; split; [by apply lookup_app_l_Some|done]|].
      intros j g Hj Hg. eapply Hmax; [by apply Hold|done].
    + intros j f Hj Ht. by apply (H j f (Hold j f Hj Ht)).
Qed.

Lemma singles_snoc entries e streams :
  maps_last streams entries -> singles entries ->
  singles (entries ++ [e]) <-> ~ (single_stream (stream_type e) = true /\ is_Some (streams !! stream_type e)).
Proof.
  intros Hm Hs. specialize (Hm (stream_type e)). split.
  - intros Hall [Hsingle [i Hi]]. rewrite Hi in Hm. destruct Hm as [(f & Hf & Ht) _].
    assert (i = length entries) as ->.
    { apply (Hall i (length entries) f e); [by apply lookup_app_l_Some| |done|by rewrite Ht]. by rewrite lookup_app_r, Nat.sub_diag by done. }
    apply lookup_lt_Some in Hf. lia.
  - intros Hn i j f g Hi Hj Ht Hsingle.
    assert (forall k h, (entries ++ [e]) !! k = Some h -> entries !! k = Some h \/ k = length entries /\ h = e) as Hcase.
    { intros k h [?|[? [? <-]%list_lookup_singleton_Some]]%lookup_app_Some; [by left|]. right. split; [lia|done]. }
    assert (forall k h, entries !! k = Some h -> stream_type h = stream_type e -> single_stream (stream_type e) = true -> False) as Hno.
    { intros k h Hk Eh Hse. apply Hn. split; [done|]. destruct (streams !! stream_type e); [done|]. by destruct (Hm k h Hk). }
    destruct (Hcase i f Hi) as [Hi'|[-> ->]], (Hcase j g Hj) as [Hj'|[-> ->]]; [by apply (Hs i j f g)| | |done].
    + exfalso. apply (Hno i f Hi' Ht). congruence.
    + exfalso. by apply (Hno j g Hj').
Qed.

Lemma singles_prefix entries rest : singles (entries ++ rest) -> singles entries.
Proof. intros H i j e f Hi Hj. apply (H i j); by apply lookup_app_l_Some. Qed.

Lemma map_streams_spec : forall entries before streams,
  maps_last streams before -> singles before ->
  match map_streams (length before) entries streams with
  | Some streams' => singles (before ++ entries) /\ maps_last streams' (before ++ entries)
  | None => ~ singles (before ++ entries)
  end.
Proof.
  induction entries as [|e entries IH]; intros before streams Hm Hs; cbn [map_streams].
  { by rewrite app_nil_r. }
  pose proof (singles_snoc before e streams Hm Hs) as Hsnoc. rewrite cons_middle, app_assoc.
  destruct (single_stream (stream_type e) && _) eqn:Ec.
  - intros Hall%singles_prefix. apply Hsnoc in Hall. apply Hall. apply andb_true_iff in Ec as [? ?%bool_decide_eq_true]. done.
  - replace (S (length before)) with (length (before ++ [e])) by (rewrite length_app; cbn; lia).
    apply IH; [by apply maps_last_snoc|]. apply Hsnoc. intros [H1 H2]. rewrite H1, bool_decide_true in Ec by done. done.
Qed.

(** The directory that the bytes of the file have. *)
Definition directory_of (swap : bool) (content : byte_list) (header : MDRawHeader) : list MDRawDirectory :=
  read_array (read_directory swap) 12 (Z.to_nat (stream_count header))
    (take (Z.to_nat (sizeof_MDRawDirectory * stream_count header)) (drop (Z.to_nat (stream_directory_rva header)) content)).

(** A minidump of a byte order: a header, whose directory is in the file and
    has no type twice that must be single. *)
Record is_minidump (swap : bool) (content : byte_list) (header : MDRawHeader) (directory : list MDRawDirectory) : Prop := {
  minidump_length : sizeof_MDRawHeader <= Z.of_nat (length content);
  minidump_header : header = read_header swap (take 32 content);
  minidump_signature : signature header = MD_HEADER_SIGNATURE;
  minidump_version : Z.land (header_version header) 0x0000ffff = MD_HEADER_VERSION;
  minidump_streams : stream_count header <= max_streams_;
  minidump_in_file : stream_count header = 0 \/
    stream_directory_rva header + sizeof_MDRawDirectory * stream_count header <= Z.of_nat (length content);
  minidump_directory : directory = directory_of swap content header;
  minidump_singles : singles directory;
}.

(** What a file object is after [Read]. *)
Record dump_read (content : byte_list) (swap : bool) (header : MDRawHeader) (directory : list MDRawDirectory) (d : DumpFile) : Prop := {
  read_content : stream_ (dump_stream d) = Some content;
  read_failed : failed (dump_stream d) = false;
  read_swap : swap_ (dump_stream d) = swap;
  read_header_ : header_ d = header;
  read_directory_ : directory_ d = directory;
  read_map : maps_last (stream_map_ d) directory;
  read_valid : dump_valid_ d = true;
  read_nothing : memory_list_ d = None;
}.

(** Reading bytes of the file that are there. *)
Lemma ReadBytes_inside (md : Minidump) content count :
  stream_ md = Some content -> failed md = false -> 0 <= position md -> 0 <= count ->
  exists md', (if position md + count <=? Z.of_nat (length content)
     then ReadBytes md count = (Some (take (Z.to_nat count) (drop (Z.to_nat (position md)) content)), md') /\ failed md' = false
     else ReadBytes md count = (None, md') \/ count = 0 /\ ReadBytes md count = (Some [], md') /\ failed md' = false) /\
    stream_ md' = Some content /\ swap_ md' = swap_ md /\ 0 <= position md'.
Proof.
  intros Es Ef Hp Hc. unfold ReadBytes. rewrite Es, Ef. set (bs := take _ _).
  assert (length bs = Nat.min (Z.to_nat count) (length content - Z.to_nat (position md))) as El.
  { unfold bs. by rewrite length_take, length_drop. }
  destruct (Z.leb_spec (position md + count) (Z.of_nat (length content))) as [Hin|Hout].
  - rewrite (proj2 (Z.eqb_eq (Z.of_nat (length bs)) count)) by lia. eexists. split; [split; [done|]|].
    + cbn. apply Z.ltb_ge. lia.
    + split_and!; cbn; [done|done|lia].
  - destruct (Z.eqb_spec (Z.of_nat (length bs)) count) as [Heq|Hne].
    + assert (count = 0) as -> by lia. eexists. split; [right; split; [done|]; split; [f_equal; f_equal; by apply length_zero_iff_nil; lia|]|].
      * cbn. apply Z.ltb_ge. lia.
      * split_and!; cbn; [done|done|lia].
    + eexists. split; [by left|]. split_and!; cbn; [done|done|lia].
Qed.

Lemma Dump_ReadBytes_inside d content count :
  stream_ (dump_stream d) = Some content -> failed (dump_stream d) = false -> 0 <= position (dump_stream d) -> 0 < count ->
  exists md', stream_ md' = Some content /\ swap_ md' = swap_ (dump_stream d) /\ 0 <= position md' /\
    if position (dump_stream d) + count <=? Z.of_nat (length content)
    then Dump_ReadBytes count d =
           Ok (Some (take (Z.to_nat count) (drop (Z.to_nat (position (dump_stream d))) content)), set_stream d md') /\ failed md' = false
    else Dump_ReadBytes count d = Ok (None, set_stream d md').
Proof.
  intros Es Ef Hp Hc. destruct (ReadBytes_inside _ content count Es Ef Hp) as (md' & Hr & Hs & Hw & Hp'); [lia|].
  exists md'. split_and!; try done. unfold Dump_ReadBytes. destruct (_ <=? _).
  - destruct Hr as [-> ?]. done.
  - destruct Hr as [-> | [? _]]; [done|lia].
Qed.

(** The signature tells the byte order. *)
Lemma signature_order bs swap :
  signature (read_header swap bs) = MD_HEADER_SIGNATURE ->
  swap = negb (field false bs 0 4 =? MD_HEADER_SIGNATURE) /\
  (negb swap || (Swap32 (field false bs 0 4) =? MD_HEADER_SIGNATURE)) = true.
Proof.
  change (signature (read_header swap bs)) with (if swap then Swap32 (field false bs 0 4) else field false bs 0 4).
  destruct swap; intros E.
  - rewrite E, Z.eqb_refl. split; [|done].
    destruct (Z.eqb_spec (field false bs 0 4) MD_HEADER_SIGNATURE) as [E'|]; [|done]. by rewrite E' in E.
  - by rewrite E, Z.eqb_refl.
Qed.

(** A file has one byte order and one header. *)
Lemma header_unique content swap' swap header' header directory :
  header = read_header swap (take 32 content) -> signature header = MD_HEADER_SIGNATURE ->
  is_minidump swap' content header' directory -> header' = header /\ swap' = swap.
Proof.
  intros -> Hsig [_ -> Hsig' _ _ _ _ _]. apply signature_order in Hsig' as [-> _], Hsig as [-> _]. done.
Qed.

(** A file object whose stream is good. *)
Record stream_at (d : DumpFile) (content : byte_list) (p : Z) : Prop := {
  at_content : stream_ (dump_stream d) = Some content;
  at_failed : failed (dump_stream d) = false;
  at_position : position (dump_stream d) = p;
}.

Lemma Read_header_spec d content :
  stream_at d content 0 -> exists o s, Read_header d = Ok (o, set_stream d s) /\ stream_ s = Some content /\ 0 <= position s /\
    match o with
    | Some (swap, header) => failed s = false /\ swap_ s = swap /\ sizeof_MDRawHeader <= Z.of_nat (length content) /\
        header = read_header swap (take 32 content) /\ signature header = MD_HEADER_SIGNATURE
    | None => forall swap, sizeof_MDRawHeader <= Z.of_nat (length content) ->
        signature (read_header swap (take 32 content)) <> MD_HEADER_SIGNATURE
    end.
Proof.
  intros [Es Ef Ep].
  destruct (Dump_ReadBytes_inside d content sizeof_MDRawHeader Es Ef) as (md' & Es' & Ew' & Hp' & Hr); [lia|done|].
  rewrite Ep in Hr. unfold Read_header, step_bind at 1.
  destruct (Z.leb_spec (0 + sizeof_MDRawHeader) (Z.of_nat (length content))) as [Hin|Hout].
  2: { rewrite Hr. cbn [obind]. exists None, md'. split_and!; try done. lia. }
  destruct Hr as [-> Ef']. cbn [obind].
  change (take (Z.to_nat sizeof_MDRawHeader) (drop (Z.to_nat 0) content)) with (take 32 content).
  set (bs := take 32 content). unfold step_bind, step_guard.
  destruct (negb (negb _) || _) eqn:Eg; cbn [step_ret step_fail obind].
  - eexists _, (mkMinidump (Some content) (position md') false _). split.
    { cbn [set_stream dump_stream]. rewrite Es', Ef'. reflexivity. }
    split_and!; try done. destruct (Z.eqb_spec (field false bs 0 4) MD_HEADER_SIGNATURE) as [E|E]; cbn [negb orb] in *; [done|].
    apply Z.eqb_eq in Eg. exact Eg.
  - exists None, md'. split_and!; try done. intros swap _ Hsig%signature_order. destruct Hsig as [-> ?]. congruence.
Qed.

Lemma Read_directory_spec d content p swap header :
  stream_at d content p -> 0 <= p -> uint 32 (stream_count header) -> uint 32 (stream_directory_rva header) ->
  exists o s, Read_directory swap header d = Ok (o, set_stream d s) /\ stream_ s = Some content /\ 0 <= position s /\
    swap_ s = swap_ (dump_stream d) /\
    let accepted := Z.land (header_version header) 0x0000ffff = MD_HEADER_VERSION /\ stream_count header <= max_streams_ /\
      (stream_count header = 0 \/
       stream_directory_rva header + sizeof_MDRawDirectory * stream_count header <= Z.of_nat (length content)) in
    match o with
    | Some directory => failed s = false /\ accepted /\ directory = directory_of swap content header
    | None => ~ accepted
    end.
Proof.
  intros [Es Ef Ep] Hp Hc Hrva. unfold uint in Hc, Hrva. unfold Read_directory, step_bind at 1, step_guard at 1.
  destruct (Z.eqb_spec (Z.land (header_version header) 0x0000ffff) MD_HEADER_VERSION) as [Ev|Ev]; cbn [step_ret step_fail obind].
  2: { exists None, (dump_stream d). split; [by destruct d|]. split_and!; try done; [lia|]. by intros (? & _). }
  unfold step_bind at 1, Dump_SeekSet, SeekSet. rewrite Es, Ef. cbn [obind].
  set (s1 := mkMinidump _ _ _ _). unfold step_bind at 1, step_guard at 1.
  destruct (Z.leb_spec (stream_count header) max_streams_) as [Hmax|Hmax]; cbn [step_ret step_fail obind].
  2: { exists None, s1. split_and!; try done; [cbn; lia|]. intros (_ & ? & _). lia. }
  destruct (Z.eqb_spec (stream_count header) 0) as [Hz|Hz].
  { exists (Some []), s1. split_and!; try done; [cbn; lia|by left|]. unfold directory_of. by rewrite Hz. }
  destruct (Dump_ReadBytes_inside (set_stream d s1) content (sizeof_MDRawDirectory * stream_count header))
    as (md' & Es' & Ew' & Hp' & Hr); [done|done|cbn; lia|unfold sizeof_MDRawDirectory; lia|].
  change (position (dump_stream (set_stream d s1))) with (stream_directory_rva header) in Hr. unfold step_bind.
  destruct (Z.leb_spec (stream_directory_rva header + sizeof_MDRawDirectory * stream_count header) (Z.of_nat (length content))).
  - destruct Hr as [-> Ef']. cbn [obind step_ret]. eexists _, md'. split; [done|]. split_and!; try done. by right.
  - rewrite Hr. cbn [obind]. exists None, md'. split_and!; try done. intros (_ & _ & [?|?]); lia.
Qed.

Lemma directory_of_locations swap content header :
  bytes_ok content -> 0 <= stream_count header -> 0 <= stream_directory_rva header ->
  stream_count header = 0 \/
    stream_directory_rva header + sizeof_MDRawDirectory * stream_count header <= Z.of_nat (length content) ->
  Forall (fun e => location_ok (location e)) (directory_of swap content header).
Proof.
  intros Hb Hc Hrva Hin. apply read_array_Forall. intros i Hi. destruct Hin as [Hz|Hin]; [lia|]. set (bs := take _ _).
  assert (bytes_ok bs) by by apply Forall_take, Forall_drop.
  assert (length bs = Z.to_nat (sizeof_MDRawDirectory * stream_count header)) as El.
  { unfold bs. rewrite length_take, length_drop. unfold sizeof_MDRawDirectory in *. lia. }
  unfold sizeof_MDRawDirectory in El.
  split; cbn [read_directory location read_location location_size location_rva]; apply (field_uint _ _ _ 4); auto; lia.
Qed.

(** What [Read] leaves of a new object: what the bytes say, or no minidump. *)
Lemma Read_spec content :
  bytes_ok content ->
  exists o d, Read (new_Minidump (Some content)) = Ok (o, d) /\ dump_ok d /\
    match o with
    | Some _ => exists swap header directory, is_minidump swap content header directory /\ dump_read content swap header directory d
    | None => forall swap header directory, ~ is_minidump swap content header directory
    end.
Proof.
  intros Hb. unfold Read, Open. unfold step_bind at 1. cbn [new_Minidump dump_stream stream_ path_content obind].
  set (d0 := set_stream _ _).
  destruct (Read_header_spec d0 content) as (o1 & s1 & E1 & Es1 & Hp1 & H1); [done|]. unfold step_bind at 1. rewrite E1. cbn [obind].
  assert (forall s, stream_ s = Some content -> 0 <= position s -> dump_ok (set_stream d0 s)) as Hdump.
  { intros s Es Hp. split; try done; [by intros ? [= <-]|]. intros c. cbn [set_stream dump_stream]. rewrite Es. by intros [= <-]. }
  destruct o1 as [[swap header]|].
  2: { exists None, (set_stream d0 s1). split; [done|]. split; [by apply Hdump|].
       intros swap header directory [Hl -> Hsig _ _ _ _ _]. by apply (H1 swap). }
  destruct H1 as (Ef1 & Ew1 & Hl & Eh & Hsig).
  assert (uint 32 (stream_count header) /\ uint 32 (stream_directory_rva header)) as [Hc Hrva].
  { assert (bytes_ok (take 32 content)) by by apply Forall_take.
    assert (length (take 32 content) = 32%nat) by (rewrite length_take; unfold sizeof_MDRawHeader in Hl; lia).
    rewrite Eh. split; [apply (field_uint _ _ 8 4)|apply (field_uint _ _ 12 4)]; auto; lia. }
  destruct (Read_directory_spec (set_stream d0 s1) content (position s1) swap header) as (o2 & s2 & E2 & Es2 & Hp2 & Ew2 & H2);
    [done|done|done|done|].
  unfold step_bind at 1. rewrite E2. cbn [obind]. cbv zeta in H2.
  pose proof (fun swap' header' directory => header_unique content swap' swap header' header directory Eh Hsig) as Hunique.
  destruct o2 as [directory|].
  2: { exists None, (set_stream d0 s2). split; [done|]. split; [by apply Hdump|]. intros swap' header' directory H.
       destruct (Hunique _ _ _ H) as [-> ->]. destruct H as [_ _ _ ? ? ? _ _]. by apply H2. }
  destruct H2 as (Ef2 & (Ev & Hmax & Hin) & Hdir).
  pose proof (map_streams_spec directory [] ∅) as Hm. cbn [length app] in Hm. unfold uint in Hc, Hrva.
  pose proof (directory_of_locations swap content header Hb) as Hloc.
  destruct (map_streams 0 directory ∅) as [streams|].
  - destruct Hm as [Hs Hm]; [apply maps_last_nil|by intros i j e f Hi|].
    eexists (Some tt), _. split; [done|]. split.
    + pose proof (Hdump s2 Es2 Hp2) as Hd2. split; try (by apply Hd2).
      intros type i Hi. cbn [stream_map_ header_ directory_] in Hi |- *. specialize (Hm type). rewrite Hi in Hm.
      destruct Hm as [(e & Ee & _) _]. pose proof (lookup_lt_Some _ _ _ Ee) as Hlt. rewrite Hdir in Hlt.
      unfold directory_of in Hlt. rewrite length_read_array in Hlt. split; [lia|]. exists e. split; [done|].
      specialize (Hloc ltac:(lia) ltac:(lia) Hin). rewrite <- Hdir in Hloc. exact (Forall_lookup_1 _ _ _ _ Hloc Ee).
    + exists swap, header, directory. split; [by split|]. split; try done. cbn. by rewrite Ew2.
  - exists None, (set_stream d0 s2). split; [done|]. split; [by apply Hdump|]. intros swap' header' directory' H.
    destruct (Hunique _ _ _ H) as [-> ->]. destruct H as [_ _ _ _ _ _ Hdir' Hsingles].
    apply Hm; [apply maps_last_nil|by intros i j e f Hi|]. by rewrite Hdir, <- Hdir'.
Qed.

(** ** What a writer wrote is read *)

Definition put_descriptor (swap : bool) (d : MDMemoryDescriptor) : byte_list :=
  put swap 8 (start_of_memory_range d) ++ put swap 4 (data_size d) ++ put swap 4 (rva d).

Lemma length_put_descriptor swap d : length (put_descriptor swap d) = 16%nat.
Proof. unfold put_descriptor. by rewrite !length_app, !length_put. Qed.

(** A field is the one of the structure that starts there. *)
Lemma field_drop swap bs off k n : field swap bs (off + k) n = field swap (drop off bs) k n.
Proof. unfold field. by rewrite drop_drop. Qed.

(** Structures of one size, one after the other. *)
Lemma drop_structures {A} (emit : A -> byte_list) size (l : list A) i :
  (forall x, length (emit x) = size) -> drop (i * size) (concat (map emit l)) = concat (map emit (drop i l)).
Proof.
  intros Hsize. revert i. induction l as [|x l IH]; intros i; [cbn [map concat]; by rewrite !drop_nil|].
  destruct i as [|i]; [done|]. cbn [map concat drop Nat.mul]. rewrite drop_app_ge by (rewrite Hsize; lia).
  rewrite Hsize. replace (size + i * size - size)%nat with (i * size)%nat by lia. apply IH.
Qed.

Lemma read_array_written {A} (read : byte_list -> nat -> A) (emit : A -> byte_list) size (l : list A) :
  (forall x, length (emit x) = size) -> (forall bs off, read bs off = read (drop off bs) 0%nat) ->
  (forall x bs, x ∈ l -> read (emit x ++ bs) 0%nat = x) ->
  read_array read size (length l) (concat (map emit l)) = l.
Proof.
  intros Hsize Hoff Hread. apply list_eq. intros i. destruct (l !! i) as [x|] eqn:Ex.
  - apply read_array_lookup. split; [by apply lookup_lt_Some in Ex|].
    rewrite Hoff, (drop_structures emit size) by done. rewrite (drop_S l x i Ex). cbn [map concat].
    symmetry. apply Hread. by apply list_elem_of_lookup_2 in Ex.
  - apply lookup_ge_None in Ex. apply lookup_ge_None. by rewrite length_read_array.
Qed.

Lemma read_put_descriptor swap d bs :
  descriptor_uint d -> read_descriptor swap (put_descriptor swap d ++ bs) 0 = d.
Proof.
  intros (Hb & Hz & Hr). unfold read_descriptor, put_descriptor. destruct d as [base sz r]. cbn [start_of_memory_range data_size rva] in *.
  f_equal.
  - rewrite <- !app_assoc. by apply (field_put swap []); [auto|..].
  - rewrite <- !app_assoc. apply field_put; [auto|done|by rewrite length_put].
  - rewrite <- !app_assoc, (app_assoc (put swap 8 base)). apply field_put; [auto|done|by rewrite length_app, !length_put].
Qed.

Lemma read_descriptor_drop swap bs off : read_descriptor swap bs off = read_descriptor swap (drop off bs) 0.
Proof. unfold read_descriptor. rewrite <- (field_drop _ _ off 0), <- (field_drop _ _ off 8), <- (field_drop _ _ off 12). by rewrite Nat.add_0_r. Qed.

Lemma Dump_ReadBytes_holds d content p bs count :
  stream_at d content p -> holds content p bs -> count = Z.of_nat (length bs) ->
  exists s, Dump_ReadBytes count d = Ok (Some bs, set_stream d s) /\ swap_ s = swap_ (dump_stream d) /\
    stream_at (set_stream d s) content (p + count).
Proof.
  intros [Es Ef Ep] Hh ->. unfold Dump_ReadBytes, ReadBytes. rewrite Es, Ef, Ep, Nat2Z.id, (holds_take _ _ _ Hh), Z.eqb_refl.
  eexists. split; [done|]. split; [done|]. split; [done| |done]. cbn. apply Z.ltb_irrefl.
Qed.

Lemma SeekToStreamType_at d content type e :
  dump_valid_ d = true -> stream_ (dump_stream d) = Some content -> failed (dump_stream d) = false -> dump_ok d ->
  (exists i, stream_map_ d !! type = Some i /\ directory_ d !! i = Some e) ->
  exists s, SeekToStreamType type d = Ok (Some (location_size (location e)), set_stream d s) /\
    swap_ s = swap_ (dump_stream d) /\ stream_at (set_stream d s) content (location_rva (location e)).
Proof.
  intros Ev Es Ef Hd (i & Em & Ee). unfold SeekToStreamType. rewrite Ev, Em. cbn [negb].
  destruct (ok_map d Hd type i Em) as (Hi & _). rewrite (proj2 (Z.leb_gt _ _)) by lia. rewrite Ee. cbn [of_option obind].
  unfold step_bind, Dump_SeekSet, SeekSet. rewrite Es, Ef. cbn [obind step_ret]. eexists. split; [done|]. split; [done|].
  by split.
Qed.

(** The number of elements, with or without padding, and the position after
    it; a number above the maximum is refused. *)
Lemma read_count_written d content p size max (count : nat) pad :
  stream_at d content p -> dump_valid_ d = true -> 0 < size -> Z.of_nat count * size < 2 ^ 32 ->
  (pad = [] \/ length pad = 4%nat) ->
  holds content p (put (swap_ (dump_stream d)) 4 (Z.of_nat count) ++ pad) ->
  exists s, read_count (4 + Z.of_nat (length pad) + Z.of_nat count * size) size max d =
      Ok (if decide (Z.of_nat count <= max) then Some (Z.of_nat count) else None, set_stream d s) /\
    swap_ s = swap_ (dump_stream d) /\ stream_at (set_stream d s) content (p + 4 + Z.of_nat (length pad)).
Proof.
  intros Hat Ev Hsize Hlimit Hpad [H4 Hp]%holds_app. rewrite length_put in Hp.
  unfold read_count. unfold step_bind at 1, step_guard at 1. rewrite (proj2 (Z.ltb_ge _ 4)) by lia. cbn [negb step_ret obind].
  destruct (Dump_ReadBytes_holds d content p _ 4 Hat H4) as (s & E & Ew & Hat'); [by rewrite length_put|].
  unfold step_bind at 1. rewrite E. cbn [obind]. unfold step_bind at 1, step_get at 1. cbn [obind].
  assert (swap (set_stream d s) = swap_ (dump_stream d)) as ->.
  { unfold swap. cbn [set_stream dump_valid_ dump_stream]. by rewrite Ev, Ew. }
  assert (Z.of_nat count < 2 ^ 32) as Hc by nia.
  assert (field (swap_ (dump_stream d)) (put (swap_ (dump_stream d)) 4 (Z.of_nat count)) 0 4 = Z.of_nat count) as ->.
  { rewrite <- (app_nil_r (put _ 4 _)). apply (field_put _ []); [auto|unfold uint; change (8 * Z.of_nat 4) with 32; lia|done]. }
  unfold step_bind at 1, step_guard at 1.
  rewrite (proj2 (Z.ltb_ge ((2 ^ 32 - 1) / size) _)); cbn [negb step_ret obind].
  2: { apply Z.div_le_lower_bound; [lia|]. nia. }
  assert (forall s', swap_ s' = swap_ (dump_stream d) -> stream_at (set_stream d s') content (p + 4 + Z.of_nat (length pad)) ->
    exists s, (let! _ := step_guard (negb (max <? Z.of_nat count)) in step_ret (Z.of_nat count)) (set_stream d s') =
      Ok (if decide (Z.of_nat count <= max) then Some (Z.of_nat count) else None, set_stream d s) /\ swap_ s = swap_ (dump_stream d) /\
      stream_at (set_stream d s) content (p + 4 + Z.of_nat (length pad))) as Hend.
  { intros s' Ew' Hat''. exists s'. split; [|done]. unfold step_bind, step_guard.
    destruct (Z.ltb_spec max (Z.of_nat count)), (decide (Z.of_nat count <= max)); by (done || lia). }
  unfold step_bind at 1. destruct Hpad as [->|Hpad].
  - rewrite (proj2 (Z.eqb_eq _ _)) by (cbn; lia). cbn [step_ret obind]. apply Hend; [done|]. by rewrite Z.add_0_r.
  - rewrite Hpad in *. rewrite (proj2 (Z.eqb_neq (4 + Z.of_nat 4 + _) (4 + _))) by lia.
    rewrite (proj2 (Z.eqb_eq _ _)) by lia.
    destruct (Dump_ReadBytes_holds (set_stream d s) content (p + 4) pad 4 Hat' Hp) as (s' & E' & Ew' & Hat''); [by rewrite Hpad|].
    unfold step_bind at 1. rewrite E'. cbn [step_ret obind]. apply Hend; [by rewrite Ew'|done].
Qed.

(** The bytes of a memory list. *)
Definition put_memory_list (swap : bool) (pad : byte_list) (ds : list MDMemoryDescriptor) : byte_list :=
  put swap 4 (Z.of_nat (length ds)) ++ pad ++ concat (map (put_descriptor swap) ds).

(** The file has a stream of a type with these bytes. *)
Definition has_stream (content : byte_list) (directory : list MDRawDirectory) (type : Z) (bs : byte_list) : Prop :=
  exists i e, directory !! i = Some e /\ stream_type e = type /\ (forall j f, directory !! j = Some f -> stream_type f = type -> (j <= i)%nat) /\
    holds content (location_rva (location e)) bs /\ location_size (location e) = Z.of_nat (length bs).

(** Where [SeekToStreamType] goes for such a stream. *)
Lemma has_stream_seek content swap header directory d type bs :
  dump_read content swap header directory d -> dump_ok d -> has_stream content directory type bs ->
  exists i s p, stream_map_ d !! type = Some i /\
    SeekToStreamType type d = Ok (Some (Z.of_nat (length bs)), set_stream d s) /\
    swap_ s = swap_ (dump_stream d) /\ stream_at (set_stream d s) content p /\ holds content p bs /\
    Z.of_nat (length bs) < 2 ^ 32.
Proof.
  intros [Es Ef Ew _ Edir Hmap Ev _] Hd (i & e & Ee & Et & Hlast & Hh & Hl).
  assert (stream_map_ d !! type = Some i) as Ei.
  { specialize (Hmap type). destruct (stream_map_ d !! type) as [j|].
    - destruct Hmap as [(f & Ef' & Et') Hmax]. f_equal. pose proof (Hlast j f Ef' Et'). pose proof (Hmax i e Ee Et). lia.
    - by destruct (Hmap i e Ee). }
  destruct (SeekToStreamType_at d content type e Ev Es Ef Hd) as (s & E & Ew' & Hat).
  { exists i. split; [done|]. by rewrite Edir. }
  destruct (ok_map d Hd type i Ei) as (_ & f & Ef2 & [[_ Hsize] _]). rewrite Edir in Ef2. assert (f = e) as -> by congruence.
  exists i, s, (location_rva (location e)). rewrite <- Hl. done.
Qed.

(** Reading the memory list of a file. *)
Lemma GetMemoryList_written content swap header directory d pad ds :
  dump_read content swap header directory d -> dump_ok d ->
  has_stream content directory MD_MEMORY_LIST_STREAM (put_memory_list swap pad ds) -> (pad = [] \/ length pad = 4%nat) ->
  Forall descriptor_uint ds ->
  exists o d', GetMemoryList d = Ok (o, d') /\
    match o with
    | Some l => placed ds /\ Z.of_nat (length ds) <= max_regions_ /\ map descriptor_ (regions_ l) = map Some ds /\
        memory_list_ok l
    | None => ~ placed ds \/ max_regions_ < Z.of_nat (length ds)
    end.
Proof.
  intros Hr Hd Hstream Hpad Hu. pose proof Hr as [_ _ Ew _ _ _ Ev Hnone].
  destruct (has_stream_seek _ _ _ _ _ _ _ Hr Hd Hstream) as (i & s & p & Ei & E & Ew1 & Hat & Hh & Hlimit).
  unfold GetMemoryList, GetStream. rewrite Ev, Ei, Hnone. cbn [negb]. unfold step_bind at 1. rewrite E. cbn [obind].
  unfold put_memory_list in Hh. rewrite app_assoc in Hh. apply holds_app in Hh as [Hcount Hds].
  assert (length (concat (map (put_descriptor swap) ds)) = (length ds * 16)%nat) as Elen.
  { clear. induction ds as [|x ds IH]; [done|]. cbn [map concat length]. rewrite length_app, IH, length_put_descriptor. lia. }
  assert (Z.of_nat (length (put_memory_list swap pad ds)) = 4 + Z.of_nat (length pad) + Z.of_nat (length ds) * sizeof_MDMemoryDescriptor) as Elist.
  { unfold put_memory_list, sizeof_MDMemoryDescriptor. rewrite !length_app, length_put, Elen. lia. }
  rewrite Elist in Hlimit |- *.
  destruct (read_count_written (set_stream d s) content p sizeof_MDMemoryDescriptor max_regions_ (length ds) pad Hat)
    as (s2 & E2 & Ew2 & Hat2); [done|done|lia|done|cbn; by rewrite Ew1, Ew|].
  unfold MemoryList_Read. unfold step_bind at 1. unfold step_bind at 1. rewrite E2. cbn [obind]. clear E E2.
  destruct (decide (Z.of_nat (length ds) <= max_regions_)) as [Hmax|Hmax]; cbn [obind].
  2: { eexists None, _. split; [done|]. right. lia. }
  change (set_stream (set_stream d s) s2) with (set_stream d s2) in *.
  destruct (Z.eqb_spec (Z.of_nat (length ds)) 0) as [Hz|Hz].
  { destruct ds; [|done]. cbn [step_ret obind]. eexists _, _. split; [done|].
    assert (placed []) as Hp by (split; constructor). split; [done|]. split; [done|]. split; [done|].
    by apply (stored_list_ok _ [] maps_descriptors_nil). }
  rewrite length_app, length_put in Hds.
  destruct (Dump_ReadBytes_holds (set_stream d s2) content (p + 4 + Z.of_nat (length pad)) (concat (map (put_descriptor swap) ds)) (sizeof_MDMemoryDescriptor * Z.of_nat (length ds))) as (s3 & E3 & Ew3 & _).
  { exact Hat2. }
  { eapply holds_eq; [exact Hds|lia]. }
  { rewrite Elen. unfold sizeof_MDMemoryDescriptor. lia. }
  unfold step_bind at 1. rewrite E3. cbn [obind]. unfold step_bind at 1, step_get at 1. cbn [obind].
  assert (MinidumpFile.swap (set_stream d s3) = swap) as Eswap.
  { unfold MinidumpFile.swap. cbn [set_stream dump_valid_ dump_stream]. rewrite Ev. cbn [andb]. cbn in Ew2, Ew3. congruence. }
  change (set_stream (set_stream d s2) s3) with (set_stream d s3). rewrite Eswap, Nat2Z.id, (read_array_written (read_descriptor swap) (put_descriptor swap) 16 ds).
  2: apply length_put_descriptor. 2: apply read_descriptor_drop.
  2: { intros x bs Hx. apply read_put_descriptor. rewrite Forall_forall in Hu. by apply Hu. }
  destruct (store_regions_spec ds [] empty_range_map) as (o & Eo & Ho); [apply maps_descriptors_nil|split; constructor|done|].
  cbn [length app] in Eo, Ho. change (Z.of_nat 0) with 0 in Eo. unfold step_bind, step_lift. rewrite Eo. cbn [obind].
  destruct o as [[map regions]|]; cbn [step_ret step_fail obind]; eexists _, _; (split; [done|]); [|by left].
  destruct Ho as (Hp & Hm & ->). split; [done|]. split; [done|]. split; [cbn [regions_]; by rewrite map_map|]. by apply stored_list_ok.
Qed.

(** Regions with the descriptors of a list have their addresses. *)
Lemma regions_lookup regions ds i a :
  map descriptor_ regions = map Some ds ->
  (exists r, regions !! i = Some r /\ region_covers r a) <-> (exists desc, ds !! i = Some desc /\ descriptor_covers desc a).
Proof.
  intros Em. assert (descriptor_ <$> regions !! i = Some <$> ds !! i) as Ei.
  { rewrite <- !list_lookup_fmap. f_equal. exact Em. }
  split.
  - intros (r & Er & desc & Ed & Hc). rewrite Er in Ei. cbn in Ei. rewrite Ed in Ei. destruct (ds !! i) as [x|] eqn:Ex; [|done].
    injection Ei as <-. by exists desc.
  - intros (desc & Ed & Hc). rewrite Ed in Ei. destruct (regions !! i) as [r|]; [|done]. injection Ei as Er. exists r. by split; [|exists desc].
Qed.

(** ** Properties *)

(** C9: [Read] returns for the bytes of any file.  It succeeds exactly when they
    are a minidump of either byte order, and then the object has its header and
    its directory, and maps every type of stream to the last entry of the type;
    any other file is refused. *)
Theorem Minidump_Read_functional content :
  bytes_ok content ->
  exists o d, Read (new_Minidump (Some content)) = Ok (o, d) /\
    match o with
    | Some _ => exists swap header directory, is_minidump swap content header directory /\ dump_read content swap header directory d
    | None => forall swap header directory, ~ is_minidump swap content header directory
    end.
Proof.
  intros Hb. destruct (Read_spec content Hb) as (o & d & E & _ & H). by exists o, d.
Qed.

(** C10: From a minidump of either byte order with a memory list, with or without
    padding, [GetMemoryList] gives the regions of its descriptors in order, and
    the lookup of an address finds the region that has it.  It refuses the list
    exactly when it has more than [max_regions_] descriptors, or when a region
    is empty, ends beyond the address space or overlaps another. *)
Theorem MemoryList_functional swap content header directory pad ds :
  bytes_ok content -> is_minidump swap content header directory ->
  has_stream content directory MD_MEMORY_LIST_STREAM (put_memory_list swap pad ds) -> (pad = [] \/ length pad = 4%nat) ->
  Forall descriptor_uint ds ->
  exists d o d', Read (new_Minidump (Some content)) = Ok (Some tt, d) /\ GetMemoryList d = Ok (o, d') /\
    match o with
    | Some l => placed ds /\ Z.of_nat (length ds) <= max_regions_ /\ map descriptor_ (regions_ l) = map Some ds /\
        forall a i, GetMemoryRegionForAddress l a = Some i <-> exists desc, ds !! i = Some desc /\ descriptor_covers desc a
    | None => ~ placed ds \/ max_regions_ < Z.of_nat (length ds)
    end.
Proof.
  intros Hb Hdump Hstream Hpad Hu. destruct (Read_spec content Hb) as (o & d & E & Hd & H).
  destruct o as [[]|]; [|by destruct (H swap header directory)]. destruct H as (swap' & header' & directory' & Hdump' & Hr).
  pose proof Hdump as [_ Eh Hsig _ _ _ Edir _].
  destruct (header_unique content swap' swap header' header directory' Eh Hsig Hdump') as [-> ->].
  assert (directory' = directory) as -> by (rewrite Edir; apply Hdump').
  destruct (GetMemoryList_written content swap header directory d pad ds Hr Hd Hstream Hpad Hu) as (o & d' & Eo & Ho).
  exists d, o, d'. split; [done|]. split; [done|]. destruct o as [l|]; [|done]. destruct Ho as (Hp & Hmax & Em & Hl).
  split; [done|]. split; [done|]. split; [done|]. intros a i. rewrite (ok_lookup l Hl a i). by apply regions_lookup.
Qed.

(** A big-endian file with a memory list, after whose number is padding. *)
Definition example_descriptors : list MDMemoryDescriptor := [mkMDMemoryDescriptor 0x8000 96 44; mkMDMemoryDescriptor 0x9000 16 60].

Definition example_dump : byte_list :=
  concat (map (put true 4) [MD_HEADER_SIGNATURE; MD_HEADER_VERSION; 1; 32; 0; 0; 0; 0]) ++
  concat (map (put true 4) [MD_MEMORY_LIST_STREAM; 40; 44]) ++ put_memory_list true [1; 2; 3; 4] example_descriptors.

Lemma example_dump_ok : bytes_ok example_dump.
Proof.
  apply Forall_forall. intros x Hx. apply list_elem_of_In in Hx.
  assert (forallb (fun x => (0 <=? x) && (x <? 256)) example_dump = true) as H by (vm_compute; reflexivity).
  pose proof (proj1 (forallb_forall _ _) H x Hx) as Hb. unfold uint. cbn in Hb. lia.
Qed.

Definition example_header : MDRawHeader := mkHeader MD_HEADER_SIGNATURE MD_HEADER_VERSION 1 32 0 0 0.
Definition example_directory : list MDRawDirectory := [mkDirectory MD_MEMORY_LIST_STREAM (mkLocation 40 44)].

Lemma example_is_minidump : is_minidump true example_dump example_header example_directory.
Proof.
  split; try reflexivity; try discriminate.
  - right. vm_compute. discriminate.
  - intros i j e f [-> _]%list_lookup_singleton_Some [-> _]%list_lookup_singleton_Some. done.
Qed.

Lemma Minidump_Read_functional_witness :
  exists d, Read (new_Minidump (Some example_dump)) = Ok (Some tt, d) /\
    dump_read example_dump true example_header example_directory d.
Proof.
  destruct (Minidump_Read_functional example_dump example_dump_ok) as (o & d & E & H).
  destruct o as [[]|]; [|by destruct (H true example_header example_directory example_is_minidump)].
  destruct H as (swap & header & directory & Hdump & Hr). exists d. split; [exact E|].
  destruct (header_unique example_dump swap true header example_header directory) as [-> ->]; [reflexivity|reflexivity|exact Hdump|].
  pose proof (minidump_directory _ _ _ _ Hdump) as Ed. pose proof (minidump_directory _ _ _ _ example_is_minidump) as Ed'.
  rewrite Ed, <- Ed' in Hr. exact Hr.
Defined.

Lemma MemoryList_functional_witness :
  exists d l d', Read (new_Minidump (Some example_dump)) = Ok (Some tt, d) /\ GetMemoryList d = Ok (Some l, d') /\
    GetMemoryRegionForAddress l 0x900f = Some 1%nat /\ GetMemoryRegionForAddress l 0x9010 = None.
Proof.
  destruct (MemoryList_functional true example_dump example_header example_directory [1; 2; 3; 4] example_descriptors)
    as (d & o & d' & E & E' & H).
  - exact example_dump_ok.
  - exact example_is_minidump.
  - exists 0%nat, (mkDirectory MD_MEMORY_LIST_STREAM (mkLocation 40 44)). split; [reflexivity|]. split; [reflexivity|]. split.
    + intros j f [-> _]%list_lookup_singleton_Some _. done.
    + split; [|reflexivity]. split; [discriminate|]. split; [vm_compute; discriminate|]. intros i b Hi.
      change (example_dump !! (44 + i)%nat = Some b). rewrite <- lookup_drop. exact Hi.
  - right. reflexivity.
  - repeat constructor; vm_compute; discriminate.
  - destruct o as [l|].
    + destruct H as (_ & _ & _ & Hl). exists d, l, d'. split; [exact E|]. split; [exact E'|]. split.
      * apply Hl. exists (mkMDMemoryDescriptor 0x9000 16 60). split; [reflexivity|]. unfold descriptor_covers. cbn. lia.
      * destruct (GetMemoryRegionForAddress l 0x9010) as [i|] eqn:Ei; [|reflexivity]. exfalso.
        apply Hl in Ei as (desc & Ed & Hc). destruct i as [|[|i]]; [injection Ed as <-|injection Ed as <-|discriminate];
          unfold descriptor_covers in Hc; cbn in Hc; lia.
    + destruct H as [H|H]; [|vm_compute in H; discriminate]. destruct H. split; [repeat constructor; vm_compute; reflexivity|]. repeat constructor; unfold descriptors_apart; cbn; lia.
Defined.
