(* ===== verification/MinidumpContext.v ===== *)
(** * Contexts, threads and exceptions of a minidump (processor/minidump.cc,
    convert_old_arm64_context.cc)

    A context is the registers of a thread of some CPU.  Which one is told by
    its size, its flags, and if these do not say, by the system information;
    reading one may thus read another stream.  Contexts are read when a thread
    or the exception is asked for one, and kept. *)

From stdpp Require Import gmap.
From S2P Require Import Prelude LibcSupport CodeModules Stackwalker MemoryRegion StackwalkerAMD64 StackwalkerPPC StackwalkerARM StackwalkerMIPS StackwalkerX86 StackwalkerCPU MinidumpFile.
#[local] Open Scope Z_scope.

(** ** Sizes and flags *)

Definition sizeof_MDRawContextX86 : Z := 716.
Definition sizeof_MDRawContextPPC : Z := 1004.
Definition sizeof_MDRawContextPPC64 : Z := 1160.
Definition sizeof_MDRawContextAMD64 : Z := 1232.
Definition sizeof_MDRawContextSPARC : Z := 584.
Definition sizeof_MDRawContextARM : Z := 368.
Definition sizeof_MDRawContextARM64 : Z := 912.
Definition sizeof_MDRawContextARM64_Old : Z := 796.
Definition sizeof_MDRawContextMIPS : Z := 600.

Definition IsContextSizeUnique (context_size : Z) : bool :=
  let sizes := [sizeof_MDRawContextX86; sizeof_MDRawContextPPC; sizeof_MDRawContextPPC64; sizeof_MDRawContextAMD64;
                sizeof_MDRawContextSPARC; sizeof_MDRawContextARM; sizeof_MDRawContextARM64;
                sizeof_MDRawContextARM64_Old; sizeof_MDRawContextMIPS] in
  (length (filter (fun size => context_size = size) sizes) =? 1)%nat.

Definition MD_CONTEXT_ARM_OLD : Z := 0x00000040.
Definition MD_CONTEXT_ARM64_OLD : Z := 0x80000000.
Definition MD_CONTEXT_ARM64_INTEGER_OLD : Z := Z.lor MD_CONTEXT_ARM64_OLD 2.
Definition MD_CONTEXT_ARM64_FLOATING_POINT_OLD : Z := Z.lor MD_CONTEXT_ARM64_OLD 4.
Definition MD_CONTEXT_ALPHA : Z := 0x00020000.
Definition MD_CONTEXT_IA64 : Z := 0x00080000.
Definition MD_CONTEXT_SHX : Z := 0x000000c0.

(** The switch of [GetContextCPUFlagsFromSystemInfo]. *)
Definition architecture_flags (architecture : Z) : Z :=
  if architecture =? MD_CPU_ARCHITECTURE_X86 then MD_CONTEXT_X86
  else if architecture =? MD_CPU_ARCHITECTURE_MIPS then MD_CONTEXT_MIPS
  else if architecture =? MD_CPU_ARCHITECTURE_MIPS64 then MD_CONTEXT_MIPS64
  else if architecture =? MD_CPU_ARCHITECTURE_ALPHA then MD_CONTEXT_ALPHA
  else if architecture =? MD_CPU_ARCHITECTURE_PPC then MD_CONTEXT_PPC
  else if architecture =? MD_CPU_ARCHITECTURE_PPC64 then MD_CONTEXT_PPC64
  else if architecture =? MD_CPU_ARCHITECTURE_SHX then MD_CONTEXT_SHX
  else if architecture =? MD_CPU_ARCHITECTURE_ARM then MD_CONTEXT_ARM
  else if architecture =? MD_CPU_ARCHITECTURE_ARM64 then MD_CONTEXT_ARM64
  else if architecture =? MD_CPU_ARCHITECTURE_ARM64_OLD then MD_CONTEXT_ARM64_OLD
  else if architecture =? MD_CPU_ARCHITECTURE_IA64 then MD_CONTEXT_IA64
  else if architecture =? MD_CPU_ARCHITECTURE_AMD64 then MD_CONTEXT_AMD64
  else if architecture =? MD_CPU_ARCHITECTURE_SPARC then MD_CONTEXT_SPARC
  else 0.

(** [None] when the position cannot be restored. *)
Definition GetContextCPUFlagsFromSystemInfo : step Z := fun d =>
  let saved_position := Tell d in
  if saved_position =? -1 then Ok (Some 0, d)
  else
    (let! system_info := step_try GetSystemInfo in
     let! _ := Dump_SeekSet saved_position in
     step_ret (match system_info with
               | Some s => architecture_flags (processor_architecture s)
               | None => 0
               end)) d.

(** The CPU of a context, which may be that of the system. *)
Definition context_cpu (context_flags : Z) : step Z :=
  let cpu_type := Z.land context_flags MD_CONTEXT_CPU_MASK in
  if cpu_type =? 0 then GetContextCPUFlagsFromSystemInfo else step_ret cpu_type.

(** ** MinidumpContext *)

(** The switch of [CheckAgainstSystemInfo]. *)
Definition architecture_fits (context_cpu_type system_info_cpu_type : Z) : bool :=
  let one_of := existsb (Z.eqb system_info_cpu_type) in
  if context_cpu_type =? MD_CONTEXT_X86 then
    one_of [MD_CPU_ARCHITECTURE_X86; MD_CPU_ARCHITECTURE_X86_WIN64; MD_CPU_ARCHITECTURE_AMD64]
  else if context_cpu_type =? MD_CONTEXT_PPC then one_of [MD_CPU_ARCHITECTURE_PPC]
  else if context_cpu_type =? MD_CONTEXT_PPC64 then one_of [MD_CPU_ARCHITECTURE_PPC64]
  else if context_cpu_type =? MD_CONTEXT_AMD64 then one_of [MD_CPU_ARCHITECTURE_AMD64]
  else if context_cpu_type =? MD_CONTEXT_SPARC then one_of [MD_CPU_ARCHITECTURE_SPARC]
  else if context_cpu_type =? MD_CONTEXT_ARM then one_of [MD_CPU_ARCHITECTURE_ARM]
  else if context_cpu_type =? MD_CONTEXT_ARM64 then one_of [MD_CPU_ARCHITECTURE_ARM64]
  else if context_cpu_type =? MD_CONTEXT_ARM64_OLD then one_of [MD_CPU_ARCHITECTURE_ARM64_OLD]
  else if context_cpu_type =? MD_CONTEXT_MIPS then one_of [MD_CPU_ARCHITECTURE_MIPS]
  else if context_cpu_type =? MD_CONTEXT_MIPS64 then one_of [MD_CPU_ARCHITECTURE_MIPS64]
  else false.

Definition CheckAgainstSystemInfo (context_cpu_type : Z) : step unit :=
  let! system_info := step_try GetSystemInfo in
  match system_info with
  | None => step_ret tt
  | Some s => step_guard (architecture_fits context_cpu_type (processor_architecture s))
  end.

Definition AMD64_offset (r : AMD64Register) : nat :=
  match r with
  | rax => 120 | rcx => 128 | rdx => 136 | rbx => 144 | rsp => 152 | rbp => 160 | rsi => 168 | rdi => 176
  | r8 => 184 | r9 => 192 | r10 => 200 | r11 => 208 | r12 => 216 | r13 => 224 | r14 => 232 | r15 => 240
  | rip => 248
  end%nat.

Definition X86_offset (r : X86Register) : nat :=
  match r with
  | edi => 156 | esi => 160 | ebx => 164 | edx => 168 | ecx => 172 | eax => 176 | ebp => 180 | eip => 184 | esp => 196
  end%nat.

(** An array of [count] registers of [n] bytes; there is none beyond. *)
Definition read_registers (swap : bool) (bs : byte_list) (off n count : nat) : nat -> Z := fun i =>
  if (i <? count)%nat then field swap bs (off + i * n) n else 0.

(** The flags of [ConvertOldARM64Context], which copies the registers. *)
Definition ConvertOldARM64Context (context_flags : Z) : Z :=
  let flags := MD_CONTEXT_ARM64 in
  let flags := if Z.land context_flags MD_CONTEXT_ARM64_INTEGER_OLD =? 0 then flags
               else Z.lor flags (Z.lor (Z.lor MD_CONTEXT_ARM64 2) (Z.lor MD_CONTEXT_ARM64 1)) in
  if Z.land context_flags MD_CONTEXT_ARM64_FLOATING_POINT_OLD =? 0 then flags
  else Z.lor flags (Z.lor MD_CONTEXT_ARM64 4).

(** The first branch: AMD64. *)
Definition read_amd64 : step DumpContext :=
  let! bs := Dump_ReadBytes sizeof_MDRawContextAMD64 in
  let! swap := step_get swap in
  let context_flags := field swap bs 48 4 in
  let! cpu_type := context_cpu context_flags in
  let! _ := step_guard (cpu_type =? MD_CONTEXT_AMD64) in
  let! _ := CheckAgainstSystemInfo cpu_type in
  step_ret (mkDumpContext true (Z.lor context_flags cpu_type) (Some (raw_amd64 (fun r => field swap bs (AMD64_offset r) 8)))).

(** The second branch: PPC64, whose flags have 64 bits.  What the system
    information tells is not kept in them. *)
Definition read_ppc64 : step DumpContext :=
  let! bs := Dump_ReadBytes 8 in
  let! swap := step_get swap in
  let context_flags := field swap bs 0 8 in
  let! cpu_type := context_cpu context_flags in
  let! _ := step_guard (cpu_type =? MD_CONTEXT_PPC64) in
  let! rest := Dump_ReadBytes (sizeof_MDRawContextPPC64 - 8) in
  let! _ := CheckAgainstSystemInfo cpu_type in
  let! _ := step_guard (wrap 32 context_flags =? context_flags) in
  step_ret (mkDumpContext true (wrap 32 context_flags)
              (Some (raw_ppc64 (mkContextPPC (field swap rest 0 8) (field swap rest 24 8))))).

(** The third branch: the old ARM64 context. *)
Definition read_arm64_old : step DumpContext :=
  let! bs := Dump_ReadBytes 8 in
  let! swap := step_get swap in
  let context_flags := field swap bs 0 8 in
  let! cpu_type := context_cpu context_flags in
  let! _ := step_guard (cpu_type =? MD_CONTEXT_ARM64_OLD) in
  let! rest := Dump_ReadBytes (sizeof_MDRawContextARM64_Old - 8) in
  let! _ := CheckAgainstSystemInfo cpu_type in
  step_ret (mkDumpContext true (ConvertOldARM64Context context_flags)
              (Some (raw_arm64 (read_registers swap rest 0 8 33)))).

(** The rest of a context after its flags: [read] takes the registers from it. *)
Definition read_sized (expected_size size cpu_type context_flags : Z) (read : bool -> byte_list -> RawContext) : step DumpContext :=
  let! _ := step_guard (expected_size =? size) in
  let! rest := Dump_ReadBytes (size - 4) in
  let! _ := CheckAgainstSystemInfo cpu_type in
  let! swap := step_get swap in
  step_ret (mkDumpContext true context_flags (Some (read swap rest))).

(** The flags of ARM may be the ones from before they changed. *)
Definition renumber_arm (context_flags : Z) : Z :=
  if (Z.land context_flags MD_CONTEXT_CPU_MASK =? 0) && negb (Z.land context_flags MD_CONTEXT_ARM_OLD =? 0)
  then Z.ldiff (Z.lor context_flags MD_CONTEXT_ARM) MD_CONTEXT_ARM_OLD
  else context_flags.

(** The last branch: the other CPUs. *)
Definition read_other (expected_size : Z) : step DumpContext :=
  let! bs := Dump_ReadBytes 4 in
  let! swap := step_get swap in
  let context_flags := renumber_arm (field swap bs 0 4) in
  let! cpu_type := context_cpu context_flags in
  let context_flags := Z.lor context_flags cpu_type in
  let sized size := read_sized expected_size size cpu_type context_flags in
  if cpu_type =? MD_CONTEXT_X86 then
    sized sizeof_MDRawContextX86 (fun swap bs => raw_x86 (fun r => field swap bs (X86_offset r - 4) 4))
  else if cpu_type =? MD_CONTEXT_PPC then
    sized sizeof_MDRawContextPPC (fun swap bs => raw_ppc (mkContextPPC (field swap bs 0 4) (field swap bs 12 4)))
  else if cpu_type =? MD_CONTEXT_SPARC then
    sized sizeof_MDRawContextSPARC
      (fun swap bs => raw_sparc (mkContextSPARC (field swap bs 268 8) (field swap bs 116 8) (field swap bs 244 8)))
  else if cpu_type =? MD_CONTEXT_ARM then
    sized sizeof_MDRawContextARM (fun swap bs => raw_arm (read_registers swap bs 0 4 16))
  else if cpu_type =? MD_CONTEXT_ARM64 then
    sized sizeof_MDRawContextARM64 (fun swap bs => raw_arm64 (read_registers swap bs 4 8 33))
  else if (cpu_type =? MD_CONTEXT_MIPS) || (cpu_type =? MD_CONTEXT_MIPS64) then
    sized sizeof_MDRawContextMIPS
      (fun swap bs => raw_mips (mkContextMIPS context_flags (read_registers swap bs 4 8 32) (field swap bs 308 8)))
  else step_fail.

Definition MinidumpContext_Read (expected_size : Z) : step DumpContext :=
  let! _ := step_guard (IsContextSizeUnique sizeof_MDRawContextAMD64 && IsContextSizeUnique sizeof_MDRawContextPPC64 &&
                        IsContextSizeUnique sizeof_MDRawContextARM64_Old) in
  if expected_size =? sizeof_MDRawContextAMD64 then read_amd64
  else if expected_size =? sizeof_MDRawContextPPC64 then read_ppc64
  else if expected_size =? sizeof_MDRawContextARM64_Old then read_arm64_old
  else read_other expected_size.

(** ** Threads *)

Definition sizeof_MDRawThread : Z := 48.
Definition max_threads_ : Z := 4096.

Definition read_raw_thread (swap : bool) (bs : byte_list) : MDRawThread :=
  mkRawThread (field swap bs 0 4) (field swap bs 4 4) (field swap bs 8 4) (field swap bs 12 4) (field swap bs 16 8)
    (read_descriptor swap bs 24) (read_location swap bs 40).

(** A stack without bytes, or that is not in the file, is no memory. *)
Definition Thread_Read : step MinidumpThread :=
  let! bs := Dump_ReadBytes sizeof_MDRawThread in
  let! swap := step_get swap in
  let thread := read_raw_thread swap bs in
  let memory :=
    if (rva (stack thread) =? 0) || (data_size (stack thread) =? 0) ||
       (wrap 64 (2 ^ 64 - 1 - start_of_memory_range (stack thread)) <? data_size (stack thread))
    then None else Some (SetDescriptor new_region (Some (stack thread))) in
  step_ret (mkThread thread memory None).

Definition GetThreadByID (ids : gmap Z nat) (id : Z) : option nat := ids !! id.

(** The loop over the threads, from [thread_index] on. *)
Fixpoint read_threads (count thread_index : nat) (ids : gmap Z nat) : step (gmap Z nat * list MinidumpThread) :=
  match count with
  | O => step_ret (ids, [])
  | S count =>
      let! thread := Thread_Read in
      let id := thread_id (thread_ thread) in
      match GetThreadByID ids id with
      | Some _ => step_fail
      | None =>
          let! (ids, threads) := read_threads count (S thread_index) (<[id := thread_index]> ids) in
          step_ret (ids, thread :: threads)
      end
  end.

Definition ThreadList_Read (expected_size : Z) : step MinidumpThreadList :=
  let! thread_count := read_count expected_size sizeof_MDRawThread max_threads_ in
  let! (ids, threads) := read_threads (Z.to_nat thread_count) 0 ∅ in
  step_ret (mkThreadList ids threads).

Definition GetThreadList : step MinidumpThreadList :=
  GetStream MD_THREAD_LIST_STREAM thread_list_ set_thread_list ThreadList_Read.

(** The thread at an index of the list that was read, which must have it. *)
Definition thread_at (thread : nat) (d : DumpFile) : outcome (MinidumpThreadList * MinidumpThread) :=
  let? l := of_option (thread_list_ d) in
  let? t := of_option (threads_ l !! thread) in
  Ok (l, t).

Definition set_thread (thread : nat) (l : MinidumpThreadList) (t : MinidumpThread) : MinidumpThreadList :=
  mkThreadList (id_to_thread_map_ l) (<[thread := t]> (threads_ l)).

(** [MinidumpThread::GetContext] *)
Definition Thread_GetContext (thread : nat) : step DumpContext := fun d =>
  let? (_, t) := thread_at thread d in
  match thread_context_ t with
  | Some context => Ok (Some context, d)
  | None =>
      (let! _ := Dump_SeekSet (location_rva (thread_context (thread_ t))) in
       let! context := MinidumpContext_Read (location_size (thread_context (thread_ t))) in
       fun d =>
       let? (l, t) := thread_at thread d in
       Ok (Some context, set_thread_list d (set_thread thread l (mkThread (thread_ t) (thread_memory_ t) (Some context))))) d
  end.

(** ** The exception *)

Definition sizeof_MDRawExceptionStream : Z := 168.

Definition Exception_Read (expected_size : Z) : step MinidumpException :=
  let! _ := step_guard (expected_size =? sizeof_MDRawExceptionStream) in
  let! bs := Dump_ReadBytes sizeof_MDRawExceptionStream in
  let! swap := step_get swap in
  let u := field swap bs in
  step_ret (mkException
    (mkRawException (u 0 4) (u 8 4) (u 12 4) (u 16 8) (u 24 8) (u 32 4)
       (map (fun i => u (40 + i * 8) 8) (seq 0 15)) (read_location swap bs 160))%nat None).

Definition GetException : step MinidumpException :=
  GetStream MD_EXCEPTION_STREAM exception_stream_ set_exception Exception_Read.

(** [MinidumpException::GetContext] of the exception that was read. *)
Definition Exception_GetContext : step DumpContext := fun d =>
  let? e := of_option (exception_stream_ d) in
  match exception_context_ e with
  | Some context => Ok (Some context, d)
  | None =>
      (let! _ := Dump_SeekSet (location_rva (exception_thread_context (exception_ e))) in
       let! context := MinidumpContext_Read (location_size (exception_thread_context (exception_ e))) in
       fun d => Ok (Some context, set_exception d (mkException (exception_ e) (Some context)))) d
  end.

(** ** Contexts are read safely *)

Lemma flags_cpu flags cpu :
  cpu = Z.land flags MD_CONTEXT_CPU_MASK \/ Z.land flags MD_CONTEXT_CPU_MASK = 0 -> Z.land cpu MD_CONTEXT_CPU_MASK = cpu ->
  Z.land (Z.lor flags cpu) MD_CONTEXT_CPU_MASK = cpu.
Proof.
  intros H Hcpu. rewrite Z.land_lor_distr_l, Hcpu. destruct H as [<-|H]; [apply Z.lor_diag|by rewrite H].
Qed.

Lemma GetContextCPUFlags_runs d : dump_ok d -> runs GetContextCPUFlagsFromSystemInfo d (fun _ _ => True).
Proof.
  intros Hd. unfold runs, GetContextCPUFlagsFromSystemInfo. destruct (Z.eqb_spec (Tell d) (-1)) as [|Ht]; [by exists (Some 0), d|].
  apply Tell_position in Ht; [|done]. apply runs_bind, runs_try.
  - eapply runs_mono; [by apply GetSystemInfo_runs|]. intros s d1 _ _ Hd1 _. apply runs_bind, runs_SeekSet; [done|done|].
    intros d2 _ Hd2 _. by apply runs_ret.
  - intros d1 Hd1 _ _ _. apply runs_bind, runs_SeekSet; [done|done|]. intros d2 _ Hd2 _. by apply runs_ret.
Qed.

Lemma context_cpu_runs flags d :
  dump_ok d -> runs (context_cpu flags) d (fun cpu _ => cpu = Z.land flags MD_CONTEXT_CPU_MASK \/ Z.land flags MD_CONTEXT_CPU_MASK = 0).
Proof.
  intros Hd. unfold context_cpu. destruct (Z.eqb_spec (Z.land flags MD_CONTEXT_CPU_MASK) 0).
  - eapply runs_mono; [by apply GetContextCPUFlags_runs|]. auto.
  - apply runs_ret; auto.
Qed.

Lemma CheckAgainstSystemInfo_runs cpu d : dump_ok d -> runs (CheckAgainstSystemInfo cpu) d (fun _ _ => True).
Proof.
  intros Hd. apply runs_bind, runs_try.
  - eapply runs_mono; [by apply GetSystemInfo_runs|]. intros s d1 _ _ Hd1 _. by apply runs_guard.
  - intros d1 Hd1 _ _ _. by apply runs_ret.
Qed.

Lemma read_registers_uint swap bs off n count i :
  field_width n -> bytes_ok bs -> (off + count * n <= length bs)%nat ->
  uint (8 * Z.of_nat n) (read_registers swap bs off n count i).
Proof.
  intros Hn Hb Hl. unfold read_registers. destruct (Nat.ltb_spec i count).
  - apply field_uint; [done|done|]. assert (S i * n <= count * n)%nat by (apply Nat.mul_le_mono_r; lia). lia.
  - split; [done|]. by apply Z.pow_pos_nonneg; lia.
Qed.

Ltac context_step :=
  lazymatch goal with
  | |- runs (step_bind _ _) _ _ => apply runs_bind
  | |- runs (step_ret _) _ _ => apply runs_ret; [done|]
  | |- runs step_fail _ _ => by apply runs_fail
  | |- runs (step_guard _) _ _ => apply runs_guard; [done|]
  | |- runs (step_get _) _ _ => apply runs_get; [done|]
  | |- runs (Dump_ReadBytes _) _ _ => apply runs_ReadBytes; [done|]; intros ? ? _ ? ?
  | |- runs (context_cpu _) _ _ => eapply runs_mono; [by apply context_cpu_runs|]; intros ? ? _ ?
  | |- runs (CheckAgainstSystemInfo _) _ _ => eapply runs_mono; [by apply CheckAgainstSystemInfo_runs|]; intros ? ? _ _
  | |- dump_ok _ -> _ => intros ?
  | |- extends _ _ -> _ => intros _
  | |- _ = true -> _ => intros ?
  end.

Abbreviation reads_context s d := (runs s d (fun dc _ => exists raw, read_context dc raw)).

Lemma read_amd64_runs d : dump_ok d -> reads_context read_amd64 d.
Proof.
  intros Hd. unfold read_amd64. repeat context_step. eexists. split; [done|]. split; [done|]. split.
  - intros r. apply (field_uint _ _ _ 8); [auto|done|]. assert (AMD64_offset r <= 248)%nat by (destruct r; cbn; lia).
    unfold sizeof_MDRawContextAMD64 in *. lia.
  - left. cbn [raw_has_cpu]. unfold GetContextCPU. cbn [context_valid_ context_flags_ negb].
    match goal with H : (_ =? MD_CONTEXT_AMD64) = true |- _ => apply Z.eqb_eq in H; rewrite H in * end.
    by apply flags_cpu.
Qed.

Lemma read_ppc64_runs d : dump_ok d -> reads_context read_ppc64 d.
Proof.
  intros Hd. unfold read_ppc64. repeat context_step. eexists. split; [done|]. split; [done|].
  repeat match goal with H : (_ =? _) = true |- _ => apply Z.eqb_eq in H end. unfold sizeof_MDRawContextPPC64 in *. split.
  - split; apply (field_uint _ _ _ 8); auto; lia.
  - cbn [raw_has_cpu]. unfold GetContextCPU. cbn [context_valid_ context_flags_ negb].
    match goal with H : wrap 32 _ = _ |- _ => rewrite H end.
    match goal with H : _ \/ _ |- _ => destruct H as [<-| ->] end; [by left|by right].
Qed.

Lemma ConvertOldARM64Context_cpu flags : Z.land (ConvertOldARM64Context flags) MD_CONTEXT_CPU_MASK = MD_CONTEXT_ARM64.
Proof. unfold ConvertOldARM64Context. by repeat case_match. Qed.

Lemma read_arm64_old_runs d : dump_ok d -> reads_context read_arm64_old d.
Proof.
  intros Hd. unfold read_arm64_old. repeat context_step. eexists. split; [done|]. split; [done|]. split.
  - intros i. apply (read_registers_uint _ _ 0 8 33); [auto|done|]. unfold sizeof_MDRawContextARM64_Old in *. lia.
  - left. cbn [raw_has_cpu]. unfold GetContextCPU. cbn [context_valid_ context_flags_ negb]. apply ConvertOldARM64Context_cpu.
Qed.

Lemma read_sized_runs expected size cpu flags read d :
  dump_ok d -> 4 <= size ->
  (forall swap bs, bytes_ok bs -> Z.of_nat (length bs) = size - 4 ->
     raw_ok (read swap bs) /\ raw_has_cpu (read swap bs) (Z.land flags MD_CONTEXT_CPU_MASK)) ->
  reads_context (read_sized expected size cpu flags read) d.
Proof.
  intros Hd Hsize Hread. unfold read_sized. repeat context_step. eexists. split; [done|]. split; [done|].
  match goal with Hb : bytes_ok ?b |- context [read ?w ?b] => destruct (Hread w b) as [Hok Hcpu]; [done|done|] end.
  split; [done|]. by left.
Qed.

Lemma read_other_runs expected d : dump_ok d -> reads_context (read_other expected) d.
Proof.
  intros Hd. unfold read_other. repeat context_step.
  match goal with |- context [renumber_arm ?f] => set (flags := renumber_arm f) in * end. cbv beta in *.
  match goal with H : ?c = Z.land flags _ \/ _ |- _ => rename H into Hflags; revert Hflags; generalize c end.
  intros cpu Hcpu.
  assert (Z.land cpu MD_CONTEXT_CPU_MASK = cpu -> Z.land (Z.lor flags cpu) MD_CONTEXT_CPU_MASK = cpu) as Hf by by apply flags_cpu.
  destruct (Z.eqb_spec cpu MD_CONTEXT_X86) as [->|_].
  { apply read_sized_runs; [done|done|]. intros sw b Hb Hl. rewrite Hf by done. split; [|done]. intros r.
    unfold sizeof_MDRawContextX86 in Hl. apply (field_uint _ _ _ 4); [auto|done|]. destruct r; cbn; lia. }
  destruct (Z.eqb_spec cpu MD_CONTEXT_PPC) as [->|_].
  { apply read_sized_runs; [done|done|]. intros sw b Hb Hl. rewrite Hf by done. split; [|done].
    unfold sizeof_MDRawContextPPC in Hl. split; apply (field_uint _ _ _ 4); auto; lia. }
  destruct (Z.eqb_spec cpu MD_CONTEXT_SPARC) as [->|_].
  { apply read_sized_runs; [done|done|]. intros sw b Hb Hl. rewrite Hf by done. split; [|done].
    unfold sizeof_MDRawContextSPARC in Hl. split_and!; apply (field_uint _ _ _ 8); auto; lia. }
  destruct (Z.eqb_spec cpu MD_CONTEXT_ARM) as [->|_].
  { apply read_sized_runs; [done|done|]. intros sw b Hb Hl. rewrite Hf by done. split; [|done]. intros i.
    unfold sizeof_MDRawContextARM in Hl. apply (read_registers_uint _ _ 0 4 16); [auto|done|lia]. }
  destruct (Z.eqb_spec cpu MD_CONTEXT_ARM64) as [->|_].
  { apply read_sized_runs; [done|done|]. intros sw b Hb Hl. rewrite Hf by done. split; [|done]. intros i.
    unfold sizeof_MDRawContextARM64 in Hl. apply (read_registers_uint _ _ 4 8 33); [auto|done|lia]. }
  assert (forall sw b, bytes_ok b -> Z.of_nat (length b) = sizeof_MDRawContextMIPS - 4 ->
    raw_ok (raw_mips (mkContextMIPS (Z.lor flags cpu) (read_registers sw b 4 8 32) (field sw b 308 8)))) as Hmips.
  { intros sw b Hb Hl. unfold sizeof_MDRawContextMIPS in Hl.
    split; [intros i; apply (read_registers_uint _ _ 4 8 32)|apply (field_uint _ _ 308 8)]; auto; cbn; lia. }
  destruct (Z.eqb_spec cpu MD_CONTEXT_MIPS) as [->|_]; cbn [orb].
  { apply read_sized_runs; [done|done|]. intros sw b Hb Hl. rewrite Hf by done. split; [by apply Hmips|by left]. }
  destruct (Z.eqb_spec cpu MD_CONTEXT_MIPS64) as [->|_]; [|by apply runs_fail].
  apply read_sized_runs; [done|done|]. intros sw b Hb Hl. rewrite Hf by done. split; [by apply Hmips|by right].
Qed.

(** A context of any size, from any bytes. *)
Lemma MinidumpContext_Read_runs expected d : dump_ok d -> reads_context (MinidumpContext_Read expected) d.
Proof.
  intros Hd. apply runs_bind, runs_guard; [done|]. intros _ _ _. destruct (_ =? _); [by apply read_amd64_runs|].
  destruct (_ =? _); [by apply read_ppc64_runs|]. destruct (_ =? _); [by apply read_arm64_old_runs|]. by apply read_other_runs.
Qed.

(** The sizes do not clash. *)
Lemma context_sizes_unique :
  forallb IsContextSizeUnique [sizeof_MDRawContextAMD64; sizeof_MDRawContextPPC64; sizeof_MDRawContextARM64_Old] = true.
Proof. reflexivity. Qed.

(** ** Threads are read safely *)

Lemma Thread_Read_runs d : dump_ok d -> runs Thread_Read d (fun t d' => thread_ok t /\ thread_context_ t = None /\ moved d d').
Proof.
  intros Hd. unfold Thread_Read. apply runs_bind, runs_ReadBytes; [done|]. intros bs d1 Hm1 Hb Hl Hd1 _.
  apply runs_bind, runs_get; [done|]. intros _ _. apply runs_ret; [done|].
  unfold sizeof_MDRawThread in Hl. set (thread := read_raw_thread _ _).
  assert (uint 32 (thread_id thread)) as Hid by (apply (field_uint _ _ 0 4); auto; lia).
  assert (descriptor_uint (stack thread)) as Hstack by (apply read_descriptor_uint; [done|lia]).
  assert (location_ok (thread_context thread)) as Hloc.
  { split; cbn [thread_context read_raw_thread thread read_location location_size location_rva]; apply (field_uint _ _ _ 4); auto; lia. }
  clearbody thread. split; [|done]. split; cbn [thread_ thread_memory_ thread_context_]; [done|by apply Hstack|done| |].
  - intros r. pose proof Hstack as (Hbase & Hsize & _). unfold uint in Hbase, Hsize.
    rewrite (wrap_small 64) by (unfold uint; lia). destruct (_ || _) eqn:Eg; [done|]. intros [= <-].
    apply new_region_ok; [done|]. split; lia.
  - by intros dc.
Qed.

(** The threads that were read have the numbers under which they are found. *)
Definition ids_of (ids : gmap Z nat) (threads : list MinidumpThread) : Prop :=
  forall id i, ids !! id = Some i <-> exists t, threads !! i = Some t /\ thread_id (thread_ t) = id.

Lemma ids_of_snoc ids threads t :
  ids_of ids threads -> ids !! thread_id (thread_ t) = None ->
  ids_of (<[thread_id (thread_ t) := length threads]> ids) (threads ++ [t]).
Proof.
  intros H Hnone id i. destruct (decide (thread_id (thread_ t) = id)) as [<-|Hne].
  - rewrite lookup_insert_eq. split.
    + intros [= <-]. exists t. split; [|done]. by rewrite lookup_app_r, Nat.sub_diag by done.
    + intros (u & [Hu|[Hi Hu]]%lookup_app_Some & Eid).
      * assert (ids !! thread_id (thread_ t) = Some i) by (apply H; by exists u). congruence.
      * apply list_lookup_singleton_Some in Hu as [Hi' _]. f_equal. lia.
  - rewrite lookup_insert_ne by done. rewrite (H id i). split; intros (u & Hu & Eid); exists u; (split; [|done]).
    + by apply lookup_app_l_Some.
    + apply lookup_app_Some in Hu as [?|[_ [_ <-]%list_lookup_singleton_Some]]; done.
Qed.

Lemma read_threads_runs : forall count before ids d,
  dump_ok d -> ids_of ids before -> Forall thread_ok before ->
  runs (read_threads count (length before) ids) d
    (fun p d' => ids_of p.1 (before ++ p.2) /\ Forall thread_ok (before ++ p.2) /\ length p.2 = count /\ moved d d').
Proof.
  induction count as [|count IH]; intros before ids d Hd Hids Hok; cbn [read_threads].
  { apply runs_ret; [done|]. cbn [fst snd]. rewrite app_nil_r. split_and!; try done. apply moved_refl. }
  apply runs_bind. eapply runs_mono; [by apply Thread_Read_runs|]. intros t d1 _ (Ht & _ & Hm1) Hd1 _. unfold GetThreadByID.
  destruct (ids !! thread_id (thread_ t)) eqn:Eid; [by apply runs_fail|]. apply runs_bind.
  replace (S (length before)) with (length (before ++ [t])) by (rewrite length_app; cbn; lia).
  eapply runs_mono; [apply IH; [done|by apply ids_of_snoc|apply Forall_app; split; [done|by apply Forall_singleton]]|].
  intros [ids' threads] d2 _ (Hids' & Hok' & Hlen & Hm2) Hd2 _. apply runs_ret; [done|]. cbn [fst snd length] in *.
  rewrite <- app_assoc in Hids', Hok'. split_and!; [done|done|lia|by eapply moved_trans].
Qed.

Lemma ThreadList_Read_runs expected d : dump_ok d -> runs (ThreadList_Read expected) d (fun l d' => thread_list_ok l /\ moved d d').
Proof.
  intros Hd. apply runs_bind. eapply runs_mono; [by apply read_count_runs|]. intros count d1 _ [_ Hm1] Hd1 _. apply runs_bind.
  eapply runs_mono; [apply (read_threads_runs _ [] ∅ d1 Hd1)|].
  { intros id i. rewrite lookup_empty. split; [done|]. by intros (t & ? & _). }
  { constructor. }
  intros [ids threads] d2 _ (Hids & Hok & _ & Hm2) Hd2 _. apply runs_ret; [done|]. split; [by split|by eapply moved_trans].
Qed.

Lemma extends_set_threads d l : thread_list_ d = None -> extends d (set_thread_list d l).
Proof. intros E. split; cbn; eauto; congruence. Qed.

Lemma dump_ok_set_threads d l : dump_ok d -> thread_list_ok l -> dump_ok (set_thread_list d l).
Proof. intros Hd Hl. destruct Hd. split; try done. by intros ? [= <-]. Qed.

Lemma GetThreadList_runs d : dump_ok d -> runs GetThreadList d (fun l d' => thread_list_ok l /\ thread_list_ d' = Some l).
Proof.
  intros Hd. apply runs_GetStream; [done|intros l Hl; split; [by apply (ok_threads_read d Hd)|done]|].
  intros d1 n Hd1 Hnone [s1 ->] _. eapply runs_mono; [by apply ThreadList_Read_runs|]. intros l d2 _ [Hl [s2 ->]] Hd2 _.
  split; [by apply dump_ok_set_threads|]. split; [by apply extends_set_threads|done].
Qed.

Lemma thread_at_Ok d l i t : thread_list_ d = Some l -> threads_ l !! i = Some t -> thread_at i d = Ok (l, t).
Proof. intros El Et. unfold thread_at. rewrite El. cbn [of_option obind]. by rewrite Et. Qed.

(** Replacing a thread by one with the same record. *)
Lemma set_thread_ok d l i t t' :
  dump_ok d -> thread_list_ d = Some l -> threads_ l !! i = Some t -> thread_ t' = thread_ t -> thread_ok t' ->
  dump_ok (set_thread_list d (set_thread i l t')) /\ extends d (set_thread_list d (set_thread i l t')).
Proof.
  intros Hd El Et Eraw Ht'. pose proof (ok_threads_read d Hd l El) as [Hok Hids].
  assert (forall j u, <[i:=t']> (threads_ l) !! j = Some u -> exists v, threads_ l !! j = Some v /\ thread_ u = thread_ v) as Hback.
  { intros j u. destruct (decide (i = j)) as [<-|Hne]; [|rewrite list_lookup_insert_ne by done; eauto].
    rewrite list_lookup_insert_eq by by eapply lookup_lt_Some. intros [= <-]. eauto. }
  assert (forall j v, threads_ l !! j = Some v -> exists u, <[i:=t']> (threads_ l) !! j = Some u /\ thread_ u = thread_ v) as Hforth.
  { intros j v Hj. destruct (decide (i = j)) as [<-|Hne].
    - rewrite list_lookup_insert_eq by by eapply lookup_lt_Some. exists t'. split; [done|]. congruence.
    - exists v. by rewrite list_lookup_insert_ne. }
  split.
  - apply dump_ok_set_threads; [done|]. split; cbn [set_thread threads_ id_to_thread_map_].
    + by apply Forall_insert.
    + intros id j. rewrite Hids. split.
      * intros (v & Hv & <-). destruct (Hforth j v Hv) as (u & Hu & E). exists u. by rewrite E.
      * intros (u & Hu & <-). destruct (Hback j u Hu) as (v & Hv & E). exists v. by rewrite E.
  - split; cbn; eauto. intros l' j v El' Hj. rewrite El in El'. injection El' as <-.
    destruct (Hforth j v Hj) as (u & Hu & E). by exists (set_thread i l t'), u.
Qed.

(** Asking a thread for its context. *)
Lemma Thread_GetContext_runs d l i t :
  dump_ok d -> thread_list_ d = Some l -> threads_ l !! i = Some t ->
  reads_context (Thread_GetContext i) d.
Proof.
  intros Hd El Et. pose proof (ok_threads_read d Hd l El) as [Hok _].
  pose proof (Forall_lookup_1 _ _ _ _ Hok Et) as [_ _ [Hsize Hrva] _ Hctx]. unfold uint in Hrva.
  unfold runs, Thread_GetContext. rewrite (thread_at_Ok d l i t El Et). cbn [obind].
  destruct (thread_context_ t) as [dc|] eqn:Ec.
  { exists (Some dc), d. split; [done|]. split; [done|]. split; [done|]. intros dc' [= <-]. by apply Hctx. }
  apply runs_bind, runs_SeekSet; [done|lia|]. intros d1 [s1 ->] Hd1 He1.
  apply runs_bind. eapply runs_mono; [by apply MinidumpContext_Read_runs|]. intros dc d2 He2 Hdc Hd2 _.
  destruct (extends_threads _ _ He2 l i t El Et) as (l2 & t2 & El2 & Et2 & Eraw).
  pose proof (ok_threads_read d2 Hd2 l2 El2) as [Hok2 _].
  pose proof (Forall_lookup_1 _ _ _ _ Hok2 Et2) as Ht2.
  unfold runs. rewrite (thread_at_Ok d2 l2 i t2 El2 Et2). cbn [obind].
  destruct (set_thread_ok d2 l2 i t2 (mkThread (thread_ t2) (thread_memory_ t2) (Some dc)) Hd2 El2 Et2) as [Hd3 He3]; [done| |].
  { destruct Ht2. split; try done. by intros dc' [= <-]. }
  eexists _, _. split; [done|]. split; [done|]. split; [done|]. by intros dc' [= <-].
Qed.

(** ** The exception is read safely *)

Lemma GetException_runs d : dump_ok d -> runs GetException d (fun e d' => exception_ok e /\ exception_stream_ d' = Some e).
Proof.
  intros Hd. apply runs_GetStream; [done|intros e He; split; [by apply (ok_exception_read d Hd)|done]|].
  intros d1 n Hd1 Hnone [s1 ->] _. unfold Exception_Read. apply runs_bind, runs_guard; [done|]. intros _ _ _.
  apply runs_bind, runs_ReadBytes; [done|]. intros bs d2 [s2 ->] Hb Hl Hd2 _. apply runs_bind, runs_get; [done|]. intros _ _.
  apply runs_ret; [done|]. intros _ _. unfold sizeof_MDRawExceptionStream in Hl. set (e := mkException _ _).
  assert (exception_ok e) as He.
  { split; [apply (field_uint _ _ 0 4); auto; lia| |by intros dc].
    split; cbn [exception_thread_context exception_ e read_location location_size location_rva]; apply (field_uint _ _ _ 4); auto; lia. }
  split; [destruct Hd2; split; try done; by intros ? [= <-]|]. split; [split; cbn in *; eauto; congruence|done].
Qed.

Lemma Exception_GetContext_runs d e : dump_ok d -> exception_stream_ d = Some e -> reads_context Exception_GetContext d.
Proof.
  intros Hd Ee. pose proof (ok_exception_read d Hd e Ee) as [_ [Hsize Hrva] Hctx]. unfold uint in Hrva.
  unfold runs, Exception_GetContext. rewrite Ee. cbn [of_option obind].
  destruct (exception_context_ e) as [dc|] eqn:Ec.
  { exists (Some dc), d. split; [done|]. split; [done|]. split; [done|]. intros dc' [= <-]. by apply Hctx. }
  apply runs_bind, runs_SeekSet; [done|lia|]. intros d1 [s1 ->] Hd1 He1.
  apply runs_bind. eapply runs_mono; [by apply MinidumpContext_Read_runs|]. intros dc d2 He2 Hdc Hd2 _.
  destruct (extends_exception _ _ He2 e Ee) as (e2 & Ee2 & Eraw).
  pose proof (ok_exception_read d Hd e Ee) as [Hthread Hloc _].
  eexists _, _. split; [done|]. split; [|split; [|by intros dc' [= <-]]].
  - destruct Hd2; split; try done. intros e' [= <-]. split; [done|done|by intros dc' [= <-]].
  - split; cbn; eauto. intros e' Ee'. rewrite Ee2 in Ee'. injection Ee' as <-. eexists. split; [done|]. cbn. by rewrite Eraw.
Qed.

(** ** What goes wrong with flags *)

(** A 64-bit PowerPC context whose flags name no CPU is accepted, but what the
    system information tells is lost: the context has no CPU. *)
Definition ppc64_file : DumpFile :=
  mkDumpFile None (mkMinidump (Some (repeat 0 1160)) 0 false false) no_header [] {[ MD_SYSTEM_INFO_STREAM := O ]} true
    (Some (mkSystemInfoStream MD_CPU_ARCHITECTURE_PPC64 0 0 0 0 0 0 0 MD_OS_LINUX 0 0)) None None None None.

Example ppc64_without_cpu :
  match read_ppc64 ppc64_file with Ok (Some dc, _) => Some (context_valid_ dc, GetContextCPU dc) | _ => None end = Some (true, 0).
Proof. vm_compute. reflexivity. Qed.

(** The masks of the old flags have the bit of the CPU, so that all registers
    are claimed whatever the old flags say of them. *)
Lemma old_flags_all_set flags :
  Z.land flags MD_CONTEXT_CPU_MASK = MD_CONTEXT_ARM64_OLD -> ConvertOldARM64Context flags = Z.lor MD_CONTEXT_ARM64 7.
Proof.
  intros H. assert (Z.testbit flags 31 = true) as Hbit.
  { apply (f_equal (fun z => Z.testbit z 31)) in H. rewrite Z.land_spec in H. by apply andb_true_iff in H as [? _]. }
  assert (forall mask, Z.testbit mask 31 = true -> (Z.land flags mask =? 0) = false) as Hset.
  { intros mask Hmask. apply Z.eqb_neq. intros E. apply (f_equal (fun z => Z.testbit z 31)) in E.
    by rewrite Z.land_spec, Hbit, Hmask in E. }
  unfold ConvertOldARM64Context. by rewrite !Hset.
Qed.
