(* ===== verification/MinidumpProcess.v ===== *)
(** * From a minidump to call stacks (processor/minidump_processor.cc)

    The calls of a file object that the processor makes, in any order, and the
    body of the loop of [MinidumpProcessor::Process] over the threads.  Whatever
    the bytes of the file are, no call is undefined and every thread walks. *)

From stdpp Require Import gmap.
From S2P Require Import Prelude Memory LibcSupport Tokens PostfixEvaluator CodeModules SymbolSupplier FrameSymbolizer Stackwalker MemoryRegion StackwalkerAMD64 StackwalkerARM StackwalkerX86 StackwalkerCPU StackwalkPipeline MinidumpFile MinidumpContext.
#[local] Open Scope Z_scope.

(** ** Memory regions *)

(** A pointer to the stack of a thread, or to a region of the memory list. *)
Inductive RegionPointer : Type :=
| thread_stack (thread : nat)
| listed_region (index : nat).

Definition region_at (p : RegionPointer) (d : DumpFile) : outcome MinidumpMemoryRegion :=
  match p with
  | thread_stack i => let? (_, t) := thread_at i d in of_option (thread_memory_ t)
  | listed_region i => let? l := of_option (memory_list_ d) in of_option (regions_ l !! i)
  end.

Definition set_region (p : RegionPointer) (d : DumpFile) (r : MinidumpMemoryRegion) : outcome DumpFile :=
  match p with
  | thread_stack i =>
      let? (l, t) := thread_at i d in
      Ok (set_thread_list d (set_thread i l (mkThread (thread_ t) (Some r) (thread_context_ t))))
  | listed_region i =>
      let? l := of_option (memory_list_ d) in
      Ok (set_memory_list d (mkMemoryList (region_range_map_ l) (<[i := r]> (regions_ l))))
  end.

(** A read of a region moves the stream and keeps the bytes in the region. *)
Definition read_region (p : RegionPointer) (n : nat) (address : Z) : step Z := fun d =>
  let? r := region_at p d in
  let? (value, s, r) := GetMemoryAtAddress n (dump_stream d) r address in
  let? d := set_region p (set_stream d s) r in
  Ok (value, d).

(** ** The calls *)

Inductive dump_call : Type :=
| call_GetSystemInfo
| call_GetPlatform
| call_GetBreakpadInfo
| call_GetMemoryList
| call_GetThreadList
| call_GetException
| call_Thread_GetContext (thread : nat)
| call_Exception_GetContext
| call_read_region (p : RegionPointer) (n : nat) (address : Z).

(** The object after a call. *)
Definition run_call (c : dump_call) (d : DumpFile) : outcome DumpFile :=
  let after {A} (s : step A) := let? (_, d) := s d in Ok d in
  match c with
  | call_GetSystemInfo => after GetSystemInfo
  | call_GetPlatform => after GetPlatform
  | call_GetBreakpadInfo => after GetBreakpadInfo
  | call_GetMemoryList => after GetMemoryList
  | call_GetThreadList => after GetThreadList
  | call_GetException => after GetException
  | call_Thread_GetContext i => after (Thread_GetContext i)
  | call_Exception_GetContext => after Exception_GetContext
  | call_read_region p n a => after (read_region p n a)
  end.

(** The object that is called must be there. *)
Definition permitted (c : dump_call) (d : DumpFile) : Prop :=
  match c with
  | call_Thread_GetContext i => exists l t, thread_list_ d = Some l /\ threads_ l !! i = Some t
  | call_Exception_GetContext => exists e, exception_stream_ d = Some e
  | call_read_region p n a => (exists r, region_at p d = Ok r) /\ field_width n /\ uint 64 a
  | _ => True
  end.

(** What a program can make of a file. *)
Inductive reachable (content : byte_list) : DumpFile -> Prop :=
| reach_Read o d : Read (new_Minidump (Some content)) = Ok (o, d) -> reachable content d
| reach_call c d d' : reachable content d -> permitted c d -> run_call c d = Ok d' -> reachable content d'.

(** ** Before the loop over the threads *)

(** The threads that made the dump and asked for it, and whether there is an
    exception, whose thread then is the one that asked. *)
Definition process_ids : step (option Z * option Z * bool) :=
  let! breakpad_info := step_try GetBreakpadInfo in
  let! exception := step_try GetException in
  let requesting_thread_id := match exception with
                              | Some e => Some (exception_thread_id (exception_ e))
                              | None => breakpad_info ≫= GetRequestingThreadID
                              end in
  step_ret (breakpad_info ≫= GetDumpThreadID, requesting_thread_id, bool_decide (is_Some exception)).

(** ** The body of the loop over the threads *)

Inductive thread_action : Type :=
| skip_thread
| duplicate_requesting_thread
| walk_thread (requesting : bool) (context : option DumpContext) (memory : option RegionPointer).

(** Where the stack is when the thread has no memory of its own. *)
Definition listed_stack (t : MinidumpThread) (memory_list : option MinidumpMemoryList) : option RegionPointer :=
  match memory_list with
  | None => None
  | Some l =>
      let start_stack_memory_range := start_of_memory_range (stack (thread_ t)) in
      if start_stack_memory_range =? 0 then None
      else listed_region <$> GetMemoryRegionForAddress l start_stack_memory_range
  end.

(** What the walker of thread [thread_index] is given: the thread that made the
    dump is skipped; the one that asked for it has the context of the
    exception, if it can be read. *)
Definition thread_walk (dump_thread_id requesting_thread_id : option Z) (found_requesting_thread crashed : bool)
    (thread_index : nat) : step thread_action := fun d =>
  let? (_, thread) := thread_at thread_index d in
  let id := thread_id (thread_ thread) in
  if bool_decide (dump_thread_id = Some id) then Ok (Some skip_thread, d)
  else
    let requesting := bool_decide (requesting_thread_id = Some id) in
    (let! context := step_try (Thread_GetContext thread_index) in
     if requesting && found_requesting_thread then step_ret duplicate_requesting_thread
     else
       let! context :=
         (if requesting && crashed then
            let! ctx := step_try Exception_GetContext in
            match ctx with Some c => step_ret (Some c) | None => step_try (Thread_GetContext thread_index) end
          else step_ret context) in
       fun d =>
       let? (_, thread) := thread_at thread_index d in
       let memory := match thread_memory_ thread with
                     | Some _ => Some (thread_stack thread_index)
                     | None => listed_stack thread (memory_list_ d)
                     end in
       Ok (Some (walk_thread requesting context memory), d)) d.

(** The memory as the walkers see it. *)
Definition walker_memory (d : DumpFile) (memory : option RegionPointer) : outcome (option Region) :=
  match memory with
  | None => Ok None
  | Some p => let? r := region_at p d in let? g := dump_region (dump_stream d) r in Ok (Some g)
  end.

(** ** Regions are read safely *)

Lemma GetMemory_frame md r v md' r' :
  (forall d, descriptor_ r = Some d -> 0 <= rva d) -> 0 <= position md ->
  GetMemory md r = Ok (v, md', r') -> stream_ md' = stream_ md /\ swap_ md' = swap_ md /\ 0 <= position md' /\ descriptor_ r' = descriptor_ r /\ valid_ r' = valid_ r.
Proof.
  intros Hrva Hp. unfold GetMemory. destruct (valid_ r) eqn:Ev; cbn [negb]; [|by intros [= <- <- <-]].
  destruct (memory_ r); [by intros [= <- <- <-]|]. destruct (descriptor_ r) as [desc|] eqn:Ed; [|done]. cbn [of_option obind].
  destruct (_ =? 0); [by intros [= <- <- <-]; rewrite ?Ed|].
  destruct (SeekSet md (rva desc)) as [ok s] eqn:Es. apply SeekSet_facts in Es as (E1 & E2 & E3 & _); [|done|by apply Hrva].
  destruct ok; cbn [negb]; [|by intros [= <- <- <-]; rewrite ?Ed]. destruct (_ <? _); [by intros [= <- <- <-]; rewrite ?Ed|].
  assert (forall bs s', ReadBytes s (data_size desc) = (bs, s') -> stream_ s' = stream_ md /\ swap_ s' = swap_ md /\ 0 <= position s') as Hread.
  { intros bs s'. unfold ReadBytes. rewrite E1. destruct (stream_ md) eqn:Em; [|intros [= _ <-]; rewrite E1; done].
    case_match; intros [= _ <-]; cbn; split_and!; try done; lia. }
  destruct (ReadBytes s (data_size desc)) as [[bs|] s'] eqn:Er; intros [= <- <- <-]; destruct (Hread _ _ eq_refl) as (? & ? & ?); by rewrite ?Ed.
Qed.

Lemma GetMemoryAtAddress_frame n md r a v md' r' :
  (forall d, descriptor_ r = Some d -> 0 <= rva d) -> 0 <= position md ->
  GetMemoryAtAddress n md r a = Ok (v, md', r') ->
  stream_ md' = stream_ md /\ swap_ md' = swap_ md /\ 0 <= position md' /\ descriptor_ r' = descriptor_ r /\ valid_ r' = valid_ r.
Proof.
  intros Hrva Hp. unfold GetMemoryAtAddress. destruct (valid_ r) eqn:Ev; cbn [negb]; [|by intros [= <- <- <-]].
  destruct (of_option (descriptor_ r)) as [desc|]; [|done]. cbn [obind]. destruct (_ || _); [by intros [= <- <- <-]|].
  destruct (GetMemory md r) as [[[m s] r1]|] eqn:E; [|done]. cbn [obind]. apply GetMemory_frame in E; [|done|done]. rewrite Ev in E.
  destruct m as [m|]; [|by intros [= <- <- <-]]. destruct (read_at _ _ _); [|done]. by intros [= <- <- <-].
Qed.

Lemma region_at_ok p d r : dump_ok d -> region_at p d = Ok r -> file_region r.
Proof.
  intros Hd. destruct p as [i|i]; cbn [region_at].
  - unfold thread_at. destruct (thread_list_ d) as [l|] eqn:El; [|done]. cbn [of_option obind].
    destruct (threads_ l !! i) as [t|] eqn:Et; [|done]. cbn [of_option obind]. intros Hr.
    pose proof (ok_threads_read d Hd l El) as [Hok _]. apply (ok_thread_memory t (Forall_lookup_1 _ _ _ _ Hok Et)).
    destruct (thread_memory_ t); [|done]. by injection Hr as ->.
  - destruct (memory_list_ d) as [l|] eqn:El; [|done]. cbn [of_option obind].
    destruct (regions_ l !! i) as [r'|] eqn:Er; [|done]. intros [= <-].
    pose proof (ok_memory_read d Hd l El) as [Hok _]. by apply (Forall_lookup_1 _ _ _ _ Hok Er).
Qed.

(** A region may be replaced by one of the same bytes. *)
Lemma set_region_ok p d r r' :
  dump_ok d -> region_at p d = Ok r -> file_region r' -> descriptor_ r' = descriptor_ r -> valid_ r' = valid_ r ->
  exists d', set_region p d r' = Ok d' /\ dump_ok d' /\ extends d d'.
Proof.
  intros Hd Hr Hr' Edesc Evalid. destruct p as [i|i]; cbn [region_at set_region] in *.
  - unfold thread_at in Hr. destruct (thread_list_ d) as [l|] eqn:El; [|done]. cbn [of_option obind] in Hr.
    destruct (threads_ l !! i) as [t|] eqn:Et; [|done]. rewrite (thread_at_Ok d l i t El Et). cbn [obind].
    pose proof (ok_threads_read d Hd l El) as [Hok _]. pose proof (Forall_lookup_1 _ _ _ _ Hok Et) as [? ? ? _ ?].
    destruct (set_thread_ok d l i t (mkThread (thread_ t) (Some r') (thread_context_ t)) Hd El Et) as [? ?]; [done| |by eexists].
    split; try done. by intros r2 [= <-].
  - destruct (memory_list_ d) as [l|] eqn:El; [|done]. cbn [of_option obind] in *.
    destruct (regions_ l !! i) as [r0|] eqn:Er; [|done]. injection Hr as ->.
    pose proof (ok_memory_read d Hd l El) as [Hok Hfind].
    pose proof (Forall_lookup_1 _ _ _ _ Hok Er) as [_ Hvalid].
    set (l' := mkMemoryList _ _). eexists. split; [done|].
    assert (forall a, GetMemoryRegionForAddress l' a = GetMemoryRegionForAddress l a) as Hsame.
    { intros a. unfold GetMemoryRegionForAddress, GetMemoryRegionAtIndex, l'. cbn [region_range_map_ regions_]. by rewrite length_insert. }
    split.
    + destruct Hd. split; try done. intros l2 [= <-]. split; [apply Forall_insert; [done|split; [done|congruence]]|].
      intros a j. rewrite Hsame, Hfind. cbn [regions_]. unfold region_covers.
      subst l'. cbn [regions_]. destruct (decide (i = j)) as [<-|Hne]; [|by rewrite list_lookup_insert_ne].
      rewrite list_lookup_insert_eq by by eapply lookup_lt_Some. rewrite Er.
      split; intros (x & [= <-] & desc & E & H); eexists; (split; [done|]); exists desc; (split; [congruence|done]).
    + split; cbn; eauto. intros l2 j x El2 Hj. rewrite El in El2. injection El2 as <-. exists l'.
      destruct (decide (i = j)) as [<-|Hne].
      * exists r'. split; [done|]. split; [cbn; by rewrite list_lookup_insert_eq by by eapply lookup_lt_Some|]. congruence.
      * exists x. split; [done|]. split; [cbn; by rewrite list_lookup_insert_ne|done].
Qed.

Lemma region_at_stream p d s : region_at p (set_stream d s) = region_at p d.
Proof. done. Qed.

Lemma read_region_runs p n a d r :
  dump_ok d -> region_at p d = Ok r -> field_width n -> uint 64 a -> runs (read_region p n a) d (fun _ _ => True).
Proof.
  intros Hd Hr Hn Ha. destruct (region_at_ok p d r Hd Hr) as [Hok Hrva].
  destruct (GetMemoryAtAddress_spec n (dump_stream d) r a Hn (ok_stream d Hd) Hok Ha) as [(md' & r' & E & Hmd' & Hr' & _) _].
  destruct (GetMemoryAtAddress_frame _ _ _ _ _ _ _ Hrva (ok_position d Hd) E) as (Es & Ew & Hp & Ed & Ev).
  pose proof (dump_ok_stream d md' Hd Es Hp) as Hd'. pose proof (extends_stream d md' Es Ew) as He.
  destruct (set_region_ok p (set_stream d md') r r' Hd') as (d2 & E2 & Hd2 & He2); [done| |done|done|].
  { split; [done|]. rewrite Ed. exact Hrva. }
  unfold runs, read_region. rewrite Hr. cbn [obind]. rewrite E. cbn [obind]. rewrite E2. cbn [obind].
  eexists _, d2. split; [done|]. split; [done|]. split; [by transitivity (set_stream d md')|done].
Qed.

(** ** Every call keeps the invariant *)

Lemma run_call_ok c d : dump_ok d -> permitted c d -> exists d', run_call c d = Ok d' /\ dump_ok d' /\ extends d d'.
Proof.
  intros Hd Hc.
  assert (forall A (s : step A) Q, runs s d Q -> exists d', (let? (_, d) := s d in Ok d) = Ok d' /\ dump_ok d' /\ extends d d') as Hrun.
  { intros A s Q (o & d' & E & Hd' & He & _). exists d'. by rewrite E. }
  destruct c; cbn [run_call permitted] in *.
  - eapply Hrun. by apply GetSystemInfo_runs.
  - eapply Hrun. by apply GetPlatform_runs.
  - eapply Hrun. by apply GetBreakpadInfo_runs.
  - eapply Hrun. by apply GetMemoryList_runs.
  - eapply Hrun. by apply GetThreadList_runs.
  - eapply Hrun. by apply GetException_runs.
  - destruct Hc as (l & t & El & Et). eapply Hrun. by eapply Thread_GetContext_runs.
  - destruct Hc as (e & Ee). eapply Hrun. by eapply Exception_GetContext_runs.
  - destruct Hc as ((r & Hr) & Hn & Ha). eapply Hrun. by eapply read_region_runs.
Qed.

Lemma reachable_ok content d : bytes_ok content -> reachable content d -> dump_ok d.
Proof.
  intros Hb. induction 1 as [o d E|c d d' _ IH Hc E].
  - destruct (Read_spec content Hb) as (o' & d' & E' & Hd & _). congruence.
  - destruct (run_call_ok c d IH Hc) as (d2 & E2 & Hd2 & _). congruence.
Qed.

(** ** Calls as steps of the processor *)

(** The step gives a value. *)
Definition answers {A} (s : step A) (d : DumpFile) (Q : A -> DumpFile -> Prop) : Prop :=
  exists a d', s d = Ok (Some a, d') /\ extends d d' /\ Q a d'.

Lemma answers_ret {A} d (a : A) (Q : A -> DumpFile -> Prop) : Q a d -> answers (step_ret a) d Q.
Proof. intros HQ. by exists a, d. Qed.

Lemma answers_bind {A B} d (s : step A) (f : A -> step B) (Q : B -> DumpFile -> Prop) :
  answers s d (fun a d1 => extends d d1 -> answers (f a) d1 Q) -> answers (step_bind s f) d Q.
Proof.
  intros (a & d1 & E & He & H). destruct (H He) as (b & d2 & E2 & He2 & HQ). unfold answers, step_bind. rewrite E. cbn [obind].
  exists b, d2. split; [done|]. split; [by transitivity d1|done].
Qed.

Lemma answers_mono {A} d (s : step A) (Q Q' : A -> DumpFile -> Prop) :
  answers s d Q -> (forall a d', extends d d' -> Q a d' -> Q' a d') -> answers s d Q'.
Proof. intros (a & d' & E & He & HQ) H. exists a, d'. auto. Qed.

Section calls.
Context {content : byte_list} (Hcontent : bytes_ok content).

(** A call whose failure does not matter. *)
Lemma answers_call {A} c (s : step A) d (P : A -> DumpFile -> Prop) :
  (run_call c d = let? (_, d) := s d in Ok d) -> reachable content d -> permitted c d -> runs s d P ->
  answers (step_try s) d (fun o d' => reachable content d' /\ forall a, o = Some a -> P a d').
Proof.
  intros Hc Hd Hp (o & d' & E & _ & He & HQ). unfold answers, step_try. rewrite E. exists o, d'. split; [done|]. split; [done|].
  split; [|done]. apply (reach_call content c d); [done|done|]. by rewrite Hc, E.
Qed.

Lemma process_ids_answers d :
  reachable content d ->
  answers process_ids d (fun p d' => reachable content d' /\ (p.2 = true -> exists e, exception_stream_ d' = Some e)).
Proof.
  intros Hd. pose proof (reachable_ok content d Hcontent Hd) as Hok.
  apply answers_bind. eapply answers_mono; [apply (answers_call call_GetBreakpadInfo); [done|done|done|by apply GetBreakpadInfo_runs]|].
  intros b d1 _ [Hd1 _] _. pose proof (reachable_ok content d1 Hcontent Hd1) as Hok1.
  apply answers_bind. eapply answers_mono; [apply (answers_call call_GetException); [done|done|done|by apply GetException_runs]|].
  intros e d2 _ [Hd2 He] _. apply answers_ret. split; [done|]. cbn [snd]. intros [x ->]%bool_decide_eq_true.
  destruct (He x eq_refl) as [_ Ex]. by exists x.
Qed.

(** ** The walk of a thread *)

Definition readable (context : option DumpContext) : Prop := forall dc, context = Some dc -> exists raw, read_context dc raw.

Definition has_thread (d : DumpFile) (i : nat) (raw : MDRawThread) : Prop :=
  exists l t, thread_list_ d = Some l /\ threads_ l !! i = Some t /\ thread_ t = raw.

Lemma extends_has_thread d d' i raw : extends d d' -> has_thread d i raw -> has_thread d' i raw.
Proof.
  intros He (l & t & El & Et & <-). destruct (extends_threads _ _ He l i t El Et) as (l' & t' & El' & Et' & E). by exists l', t'.
Qed.

Lemma try_thread_context d i raw :
  reachable content d -> has_thread d i raw ->
  answers (step_try (Thread_GetContext i)) d (fun context d' => readable context /\ reachable content d' /\ has_thread d' i raw).
Proof.
  intros Hd Hi. pose proof Hi as (l & t & El & Et & _). eapply answers_mono.
  - apply (answers_call (call_Thread_GetContext i)); [done|done|by exists l, t|].
    apply (Thread_GetContext_runs d l i t (reachable_ok content d Hcontent Hd) El Et).
  - intros context d' He [Hd' Hc]. split; [exact Hc|]. split; [done|by eapply extends_has_thread].
Qed.

Lemma try_exception_context d e :
  reachable content d -> exception_stream_ d = Some e ->
  answers (step_try Exception_GetContext) d (fun context d' => readable context /\ reachable content d').
Proof.
  intros Hd Ee. eapply answers_mono.
  - apply (answers_call call_Exception_GetContext); [done|done|by exists e|].
    apply (Exception_GetContext_runs d e (reachable_ok content d Hcontent Hd) Ee).
  - intros context d' _ [Hd' Hc]. split; [exact Hc|done].
Qed.

Lemma region_of_thread d i l t :
  reachable content d -> thread_list_ d = Some l -> threads_ l !! i = Some t ->
  forall p, match thread_memory_ t with Some _ => Some (thread_stack i) | None => listed_stack t (memory_list_ d) end = Some p ->
  exists r, region_at p d = Ok r.
Proof.
  intros Hd El Et p. destruct (thread_memory_ t) as [r|] eqn:Em.
  - intros [= <-]. exists r. cbn [region_at]. rewrite (thread_at_Ok d l i t El Et). cbn [obind]. by rewrite Em.
  - unfold listed_stack. destruct (memory_list_ d) as [ml|] eqn:Eml; [|done]. destruct (_ =? 0); [done|].
    destruct (GetMemoryRegionForAddress ml _) as [j|] eqn:Ej; [|done]. intros [= <-].
    apply (ok_lookup ml (ok_memory_read d (reachable_ok content d Hcontent Hd) ml Eml)) in Ej as (r & Er & _).
    exists r. cbn [region_at]. rewrite Eml. cbn [of_option obind]. by rewrite Er.
Qed.

Lemma thread_walk_answers dump_thread requesting found crashed i d raw :
  reachable content d -> has_thread d i raw -> (crashed = true -> exists e, exception_stream_ d = Some e) ->
  answers (thread_walk dump_thread requesting found crashed i) d (fun action d' => reachable content d' /\
    match action with
    | skip_thread => dump_thread = Some (thread_id raw)
    | duplicate_requesting_thread => dump_thread <> Some (thread_id raw) /\ found = true /\ requesting = Some (thread_id raw)
    | walk_thread asked context memory => dump_thread <> Some (thread_id raw) /\
        asked = bool_decide (requesting = Some (thread_id raw)) /\ (asked = true -> found = false) /\
        readable context /\ forall p, memory = Some p -> exists r, region_at p d' = Ok r
    end).
Proof.
  intros Hd Hi Hcrash. pose proof Hi as (l & t & El & Et & Eraw).
  unfold answers, thread_walk. rewrite (thread_at_Ok d l i t El Et). cbn [obind]. rewrite Eraw. case_bool_decide as Edump.
  { by exists skip_thread, d. }
  apply answers_bind. eapply answers_mono; [by apply (try_thread_context d i raw)|].
  intros context d1 He1 (Hctx & Hd1 & Hi1) _. destruct (bool_decide (requesting = _) && found) eqn:Edup.
  { apply answers_ret. apply andb_true_iff in Edup as [H%bool_decide_eq_true ->]. done. }
  set (asked := bool_decide _) in *. apply andb_false_iff in Edup. apply answers_bind.
  apply (answers_mono _ _ (fun context d' => readable context /\ reachable content d' /\ has_thread d' i raw)).
  { destruct (asked && crashed) eqn:Eb; [|by apply answers_ret]. apply andb_true_iff in Eb as [_ ->].
    destruct (Hcrash eq_refl) as (e & Ee). destruct (extends_exception _ _ He1 e Ee) as (e1 & Ee1 & _).
    apply answers_bind. eapply answers_mono; [by apply (try_exception_context d1 e1)|].
    intros ctx d2 He2 (Hc & Hd2) _. pose proof (extends_has_thread _ _ _ _ He2 Hi1) as Hi2.
    destruct ctx as [c|]; [by apply answers_ret|by apply try_thread_context]. }
  intros ctx d2 He2 (Hc & Hd2 & l2 & t2 & El2 & Et2 & _) _. unfold answers.
  rewrite (thread_at_Ok d2 l2 i t2 El2 Et2). cbn [obind].
  eexists _, d2. split; [done|]. split; [done|]. split; [done|]. split; [done|]. split; [done|].
  split; [intros Ha; destruct Edup; congruence|]. split; [done|]. by apply (region_of_thread d2 i l2 t2).
Qed.
End calls.

Lemma walker_memory_ok d memory :
  dump_ok d -> (forall p, memory = Some p -> exists r, region_at p d = Ok r) ->
  exists m, walker_memory d memory = Ok m /\ forall g, m = Some g -> region_good g.
Proof.
  intros Hd Hp. destruct memory as [p|]; cbn [walker_memory]; [|by exists None].
  destruct (Hp p eq_refl) as (r & Er). rewrite Er. cbn [obind].
  destruct (dump_region_good (dump_stream d) r (ok_stream d Hd)) as (g & Eg & Hg); [by apply (region_at_ok p d r Hd Er)|].
  rewrite Eg. cbn [obind]. exists (Some g). split; [done|]. by intros g' [= <-].
Qed.

(** A context whose flags name no CPU has no walker. *)
Lemma StackwalkerForCPU_none {Sym : Type} `{FrameSymbolizer Sym} system_info dc memory modules :
  GetContextCPU dc = 0 -> StackwalkerForCPU (Sym := Sym) system_info (Some dc) memory modules = Ok None.
Proof. intros E. unfold StackwalkerForCPU. by rewrite E. Qed.

(** What is made of a context and memory: without a walker there is no context,
    or its flags name no CPU; a walker starts at the pointers of the context and
    every walk with it returns. *)
Definition walked {Sym : Type} `{FrameSymbolizer Sym} {find : Z -> option CodeModule} `{!FrameSymbolizerLaws Sym find}
    (context : option DumpContext) (w : option (CpuStackwalker Sym)) : Prop :=
  match w with
  | None => context = None \/ exists dc, context = Some dc /\ GetContextCPU dc = 0
  | Some w => exists dc ip sp, context = Some dc /\ GetInstructionPointer dc = Ok (Some ip) /\ GetStackPointer dc = Ok (Some sp) /\
      forall limits (s : Sym), 0 <= max_frames_ limits -> uint 32 (max_frames_scanned_ limits) -> sym_ok s ->
        walks sym_ok find w limits s ip sp
  end.

(** The symbols are such that the walker of the context can use them. *)
Definition context_symbols_usable {Sym : Type} `{FrameSymbolizer Sym} {find : Z -> option CodeModule}
    `{!FrameSymbolizerLaws Sym find} (system_info : SystemInfo) (context : option DumpContext) : Prop :=
  forall dc raw, context = Some dc -> raw_context_ dc = Some raw -> symbols_usable (Sym := Sym) (find := find) system_info raw.

Section processor.
Context {Sym : Type} `{FrameSymbolizer Sym} {find : Z -> option CodeModule} `{!FrameSymbolizerLaws Sym find}.

Lemma read_context_walks system_info memory modules context :
  (forall m, memory = Some m -> region_good m) -> has_last_module modules -> readable context ->
  context_symbols_usable (Sym := Sym) (find := find) system_info context ->
  exists w, StackwalkerForCPU (Sym := Sym) (Some system_info) context memory modules = Ok w /\ walked (find := find) context w.
Proof.
  intros Hm Hmod Hctx Hsym. destruct context as [dc|]; [|by exists None; split; [|left]].
  destruct (Hctx dc eq_refl) as (raw & Hvalid & Hraw & Hok & [Hcpu|Hcpu]).
  - assert (dump_context_ok dc raw) as Hdc by by split.
    destruct (StackwalkerForCPU_spec system_info memory modules Hm Hmod dc raw Hdc) as (w & E & Hw); [by apply (Hsym dc)|].
    destruct (context_pointers dc raw Hdc) as [Hip Hsp].
    exists (Some w). split; [exact E|]. by exists dc, (raw_ip raw), (raw_sp raw).
  - exists None. split; [by apply StackwalkerForCPU_none|]. right. by exists dc.
Qed.

(** C8: Whatever the bytes of a file are and whatever was read of it before, every
    permitted call returns.  The body of the loop over the threads returns for
    every thread: it skips the thread that made the dump, finds a second
    requesting thread, or gives [StackwalkerForCPU] a context and memory.  If
    the symbols are such that the walker of that context can use them
    ([context_symbols_usable]: for an ARM context no CFI rules are used, for an
    x86 context the sizes in the Windows frame data have 32 bits and its
    programs have no token [/] or [%] and none but [-] that starts with a minus
    sign; no condition for the other CPUs), it returns a walker that
    starts at the pointers of the context and with which every walk returns,
    unless there is no context or it names no CPU. *)
Theorem minidump_safe content d system_info modules :
  bytes_ok content -> reachable content d -> has_last_module modules ->
  (forall c, permitted c d -> exists d', run_call c d = Ok d' /\ reachable content d') /\
  (exists dump_thread requesting crashed d', process_ids d = Ok (Some (dump_thread, requesting, crashed), d') /\
     reachable content d' /\ (crashed = true -> exists e, exception_stream_ d' = Some e)) /\
  (forall dump_thread requesting found crashed i thread, has_thread d i thread ->
     (crashed = true -> exists e, exception_stream_ d = Some e) ->
     exists action d', thread_walk dump_thread requesting found crashed i d = Ok (Some action, d') /\ reachable content d' /\
       match action with
       | skip_thread => dump_thread = Some (thread_id thread)
       | duplicate_requesting_thread => dump_thread <> Some (thread_id thread) /\ found = true /\ requesting = Some (thread_id thread)
       | walk_thread asked context memory => dump_thread <> Some (thread_id thread) /\
           asked = bool_decide (requesting = Some (thread_id thread)) /\ (asked = true -> found = false) /\
           (context_symbols_usable (Sym := Sym) (find := find) system_info context ->
            exists m w, walker_memory d' memory = Ok m /\
              StackwalkerForCPU (Sym := Sym) (Some system_info) context m modules = Ok w /\ walked (find := find) context w)
       end).
Proof.
  intros Hb Hd Hmod. split; [|split].
  - intros c Hc. destruct (run_call_ok c d (reachable_ok content d Hb Hd) Hc) as (d' & E & _).
    exists d'. split; [done|by eapply reach_call].
  - destruct (process_ids_answers Hb d Hd) as ([[dump req] crashed] & d' & E & _ & Hd' & Hc). by exists dump, req, crashed, d'.
  - intros dump req found crashed i thread Hi Hcrash.
    destruct (thread_walk_answers Hb dump req found crashed i d thread Hd Hi Hcrash) as (action & d' & E & _ & Hd' & Ha).
    exists action, d'. split; [done|]. split; [done|]. destruct action as [| |asked context memory]; [done|done|].
    destruct Ha as (Hdump & Hasked & Hfound & Hctx & Hp). do 3 (split; [done|]). intros Hsym.
    destruct (walker_memory_ok d' memory (reachable_ok content d' Hb Hd') Hp) as (m & Em & Hm).
    destruct (read_context_walks system_info m modules context Hm Hmod Hctx Hsym) as (w & Ew & Hw). by exists m, w.
Qed.
End processor.

(** ** An example *)

#[local] Existing Instances example_resolver_module example_resolver_laws example_supplier example_supplier_laws.

(** A file with the stack of the example of the walks, and its registers as the
    context of the only thread. *)
Definition dump_context_bytes : byte_list :=
  repeat 0 48 ++ put false 4 (MD_CONTEXT_AMD64 + 3) ++ repeat 0 68 ++
  concat (map (fun r => put false 8 (walk_context r))
            [rax; rcx; rdx; rbx; rsp; rbp; rsi; rdi; r8; r9; r10; r11; r12; r13; r14; r15; rip]) ++
  repeat 0 976.

Definition dump_bytes : byte_list :=
  (* the header, with two streams at 32 *)
  concat (map (put false 4) [MD_HEADER_SIGNATURE; MD_HEADER_VERSION; 2; 32; 0; 0; 0; 0]) ++
  concat (map (put false 4) [MD_THREAD_LIST_STREAM; 52; 112; MD_SYSTEM_INFO_STREAM; 56; 56]) ++
  (* the system information, at 56 *)
  put false 2 MD_CPU_ARCHITECTURE_AMD64 ++ repeat 0 18 ++ put false 4 MD_OS_LINUX ++ repeat 0 32 ++
  (* a thread with its stack at 164 and its context at 260, at 112 *)
  concat (map (put false 4) [1; 7; 0; 0; 0; 0; 0; 0x8000; 0; 96; 164; 1232; 260]) ++
  walk_stack ++ dump_context_bytes.

(** The walk of the thread. *)
Definition dump_walk : outcome (list (option (FrameTrust * chars))) :=
  let? (_, d) := Read (new_Minidump (Some dump_bytes)) in
  let? d := run_call call_GetThreadList d in
  let? (action, d) := thread_walk None None false false 0 d in
  match action with
  | Some (walk_thread _ context memory) =>
      let? m := walker_memory d memory in
      let? w := @StackwalkerForCPU _ (Symbolizer_interface (Some walk_modules) None (Some linux)) (Some linux) context m (Some walk_modules) in
      Ok (match w with Some w => summary_of w | None => [] end)
  | _ => Ok []
  end.

Example dump_walk_frames : dump_walk =
  Ok [Some (FRAME_TRUST_CONTEXT, str "leaf"); Some (FRAME_TRUST_CFI, str "middle");
      Some (FRAME_TRUST_FP, str "main"); Some (FRAME_TRUST_SCAN, str "start")].
Proof. vm_compute. reflexivity. Qed.

Lemma dump_bytes_ok : bytes_ok dump_bytes.
Proof.
  apply Forall_forall. intros x Hx. apply list_elem_of_In in Hx.
  assert (forallb (fun x => (0 <=? x) && (x <? 256)) dump_bytes = true) as H by (vm_compute; reflexivity).
  pose proof (proj1 (forallb_forall _ _) H x Hx) as Hb. unfold uint. cbn in Hb. lia.
Qed.

(** The context is one of AMD64, and its thread is there. *)
Definition dump_checks : bool :=
  match Read (new_Minidump (Some dump_bytes)) with
  | Ok (_, d) =>
      match run_call call_GetThreadList d with
      | Ok d =>
          match thread_at 0 d, thread_walk None None false false 0 d with
          | Ok _, Ok (Some (walk_thread _ (Some dc) _), _) =>
              match raw_context_ dc with Some (raw_amd64 _) => true | _ => false end
          | _, _ => false
          end
      | Undef => false
      end
  | Undef => false
  end.

Lemma minidump_safe_witness :
  exists o d0 d1 asked context memory d2 m w,
    Read (new_Minidump (Some dump_bytes)) = Ok (o, d0) /\ run_call call_GetThreadList d0 = Ok d1 /\
    thread_walk None None false false 0 d1 = Ok (Some (walk_thread asked context memory), d2) /\
    walker_memory d2 memory = Ok m /\
    @StackwalkerForCPU _ (Symbolizer_interface (Some walk_modules) None (Some linux)) (Some linux) context m (Some walk_modules) =
      Ok (Some w) /\
    summary_of w = [Some (FRAME_TRUST_CONTEXT, str "leaf"); Some (FRAME_TRUST_CFI, str "middle");
                    Some (FRAME_TRUST_FP, str "main"); Some (FRAME_TRUST_SCAN, str "start")].
Proof.
  pose (laws := symbolizer_laws (plain_symbols 64) (Some walk_modules) None (Some linux) example_serves).
  pose proof dump_walk_frames as Hwalk. unfold dump_walk in Hwalk.
  assert (dump_checks = true) as Hcheck by (vm_compute; reflexivity). unfold dump_checks in Hcheck.
  destruct (Read (new_Minidump (Some dump_bytes))) as [[o d0]|] eqn:E0; [|discriminate].
  cbn beta iota in Hcheck. cbn [obind] in Hwalk.
  destruct (run_call call_GetThreadList d0) as [d1|] eqn:E1; [|discriminate]. cbn beta iota in Hcheck. cbn [obind] in Hwalk.
  destruct (thread_at 0 d1) as [[l t]|] eqn:Et; [|discriminate].
  assert (reachable dump_bytes d1) as Hd1.
  { apply (reach_call dump_bytes call_GetThreadList d0); [by apply (reach_Read _ o)|exact I|exact E1]. }
  destruct (minidump_safe (FrameSymbolizerLaws0 := laws) dump_bytes d1 linux (Some walk_modules) dump_bytes_ok Hd1)
    as (_ & _ & Hthread).
  { intros m [= <-] _. exists prog_module. split; [reflexivity|]. vm_compute. reflexivity. }
  destruct (Hthread None None false false 0%nat (thread_ t)) as (action & d2 & E2 & _ & Ha).
  { unfold thread_at in Et. destruct (thread_list_ d1) as [l'|] eqn:El; [|discriminate]. cbn [of_option obind] in Et.
    destruct (threads_ l' !! 0%nat) as [t'|] eqn:Et'; [|discriminate]. injection Et as -> ->. by exists l, t. }
  { discriminate. }
  rewrite E2 in Hcheck, Hwalk. cbn [obind] in Hwalk. destruct action as [| |asked context memory]; [discriminate|discriminate|].
  destruct Ha as (_ & _ & _ & Hw). destruct Hw as (m & w & Em & Ew & _).
  { intros dc raw -> Er. rewrite Er in Hcheck. by destruct raw. }
  rewrite Em in Hwalk. cbn [obind] in Hwalk. rewrite Ew in Hwalk. cbn [obind] in Hwalk.
  destruct w as [w|]; [|discriminate]. exists o, d0, d1, asked, context, memory, d2, m, w.
  injection Hwalk as Hs. repeat split; assumption.
Defined.
